(* ===== verification/_CoqProject ===== *)
-Q . S2P
Prelude.v
Text.v
Bits.v
Hash.v
Merkle.v
Addr.v
Bencode.v
BencodeCorrect.v
Meta.v
MetaParse.v
MetaCorrect.v
ParseCorrect.v
MetaBuild.v
MetaFile.v
Extensions.v
Dht.v
V2.v
Storage.v
Torrent.v
PeerFilter.v
Escape.v
Magnet.v
Queue.v
Endgame.v
Bandwidth.v
Ratio.v
Containment.v
Gate.v
Binder.v
Permits.v
UtpWire.v
Ledbat.v
UtpConn.v
UtpReceive.v
UtpSend.v
Peer.v
PeerCorrect.v
PieceCorrect.v
UdpTracker.v
Tracker.v
Talk.v
Socks5.v
Big768.v
Mse.v
Intake.v
Policy.v
PolicyRuntime.v
Pieces.v
Candidates.v
Engine.v
Session.v
SessionCorrect.v
Admission.v
Scheduler.v
PieceLayers.v
StateError.v
Seeding.v
MagnetFetch.v
FileSys.v
StorageIo.v
StorageMove.v
MoveOutcome.v
StorageRw.v
StorageVerify.v
