(* ===== verification/Prelude.v ===== *)
(** * SwarmOtter verification library

    SwarmOtter is a BitTorrent daemon in Rust.  The crate swarmotter-core holds the
    protocols and the decisions, swarmotterd the daemon that runs them over tokio.
    This library translates the parts that decide something into functions and step
    relations and proves what makes them correct.  This file is its prelude: notation,
    the hint databases, the error model and the lemmas on lists, options and integers
    that the components share.

    ** Conventions

    A Rust integer of width w is a [Z], with its wrap-around, saturation or checked
    failure written out ([wrap], [saturating_add], [saturating_sub], ...); a byte is
    [Byte.byte] and a string the list of its UTF-8 bytes ([text], a [string] for the
    program's own constants); a hash map or set is a [gmap] or [gset], and a list where
    order counts.  [CoreError] ([error.rs]) has the source's constructors, with the
    message but without the values [format!] puts into it.  Code that can fail returns
    an [outcome]: [Ok], [Err], [Panic] (an index out of range, an overflow in checked
    arithmetic, an [unwrap]) or [OutOfFuel].  The model never hides a panic, and every
    component with fuel has a theorem that its fuel suffices: fuel is the length of the
    input or a bound on the loop's variable, chosen where the loop is entered, and
    [OutOfFuel] is no [Ok] and no [Err].  f64 arithmetic is that of
    [Floats.SpecFloat] for binary64.

    ** What is a parameter

    Code that is not under src/ is an argument, with what is relied on as laws of a
    class or as hypotheses: SHA-1 and SHA-256 ([Hash.Digests], their output sizes), the
    hex crate ([Hash.HexCodec], its round trip), the url crate (the parsers of
    [Magnet], [Tracker], [UdpTracker], [Intake], [Containment]), serde_json
    ([Engine.ResumeJson], its round trip; [Queue] and [MetaFile] take the deserialised
    value), files that others may change ([MetaFile.FileSystem] with [StableFile] for one
    that does not, [PeerFilter.BlocklistFiles]; the torrent's own files are on [FileSys]), the operating system's answers
    ([Binder], [Containment]), tokio's Notify ([Gate]) and Semaphore ([Permits]).
    Randomness and clocks are arguments.  Each class has an instance, so that every
    theorem with a hypothesis is applied to concrete values by its witness.

    ** The components

    Identities and encodings (crates/swarmotter-core/src): [Text], [Bits] and [Addr] are
    the parts of the standard library the parsers use; [Bencode] and [BencodeCorrect]
    are bencode.rs, [Hash] is hash.rs, [Escape] the percent-encoding of magnet.rs and
    tracker.rs.

    Metadata: [Meta], [MetaParse], [MetaBuild] and [MetaFile] are meta.rs, [Merkle] its
    and v2.rs's hash trees, [V2] the layout of v2.rs; [MetaCorrect] and [ParseCorrect]
    prove that whatever a parser returns is executable metadata whose identity is the
    hash of the document's own info bytes.  [Magnet] is magnet.rs.

    Storage and records: [Storage] is storage/mod.rs, layout.rs and the bitfield of
    resume.rs; [Torrent] is the registry of torrent.rs; [Queue] is queue.rs; [Ratio] is
    ratio.rs.

    Protocols: [Peer], [PeerCorrect] and [PieceCorrect] are peer.rs, [Extensions]
    extensions.rs, [Dht] dht.rs, [Tracker] tracker.rs, [UdpTracker] udp_tracker.rs,
    [UtpWire], [Ledbat], [UtpConn], [UtpReceive] and [UtpSend] the modules of utp/,
    [Talk] what dialogues over a byte stream share, [Big768] and [Mse] mse.rs.

    Containment: [Containment] is net/config.rs, net/mod.rs and models/network.rs;
    [Socks5] is net/socks5.rs with the [NetworkBinder] trait as a class; [Gate] is the
    daemon's containment_gate.rs, [Binder] its netbinder.rs, [Permits] its
    peer_permits.rs; [PeerFilter] is peer_filter.rs.

    Policy: [Intake] and [Policy] are policy.rs, [PolicyRuntime] the daemon's
    policy_runtime.rs.

    Downloading (crates/swarmotterd/src/engine): [Endgame] is endgame.rs of
    swarmotter-core, [Bandwidth] its bandwidth.rs; [Pieces] is the schedule of pieces of
    mod.rs, parallel.rs and serve.rs, [Candidates] the choice of peers and the outcomes
    of trackers of discovery.rs and peer_session.rs, [Engine] the worker limit, resume
    checkpoints and the fast resume of mod.rs, download.rs and storage/io,
    [Session] a peer's whole download session, [SessionCorrect] its theorems.

    Daemon (crates/swarmotterd/src/daemon): [Scheduler] is scheduler.rs (which torrents
    download, sweeping stale activity, coalesced reconciliation), [Admission] is
    storage_controls.rs with the root controls of config.rs.

    Seeding and magnets (crates/swarmotterd/src): [PieceLayers] is the exchange of BEP 52
    piece layers, both sides, [Seeding] the registry, routing and sessions of seeder.rs
    over the handlers of [StateError] (a state and an error), [MagnetFetch] the rest of
    metadata.rs: one fetch, the transports, the race over the candidates.  A magnet
    download of [MagnetFetch] talks to a session of [Seeding] in one theorem.

    Storage (crates/swarmotter-core/src/storage/io/mod.rs): [FileSys] is the part of
    std::fs and tokio::fs the program uses, as a map of nodes with a list of faults: each
    call may break, a transfer after some of its bytes.  [StorageIo] is the paths a
    torrent owns and the move of its data (plan, execution, rollback, cleanup), [StorageRw]
    directories, preallocation, blocks and pieces of both layouts, recheck and resume file.
    [StorageMove] shows that no sequence of faults loses a file, [MoveOutcome] where the
    files are after a move that returned or failed, [StorageRw] and [StorageVerify] that
    what is written is read back and rechecked and that the resume file is replaced as a
    whole.  A read sees what a returned write wrote, as the source flushes its handles
    before it reads; a crash between two calls is not modelled, a failing call is.

    ** How they interact

    A parser's result ([ParseCorrect]) satisfies [valid_meta], the hypothesis under
    which [V2] and [Storage] cut the payload into pieces; [Session] takes its piece
    lengths and verification from there, its messages from [Peer], its blocks from
    [PieceCorrect], its extension messages from [Extensions] and its reservations from
    [Pieces].  [Socks5] and [Binder] are instances of one class, so that the proxy's
    theorem holds over the contained binder, whose sockets pass [Gate].  [Candidates]
    takes admission from [PeerFilter] and answers from [Tracker] and [UdpTracker].
    [Queue] and [Torrent] use the keys of [Hash].

    ** What the theorems show

    Parsers accept exactly what the encoders print and return on every input; records
    that validate have no two meanings.  Optimised data structures refine a plain
    specification: the queue its two lists, the registry a directory, the token bucket a
    rate, the availability table the peers that have a piece, the limb arithmetic
    numbers modulo the prime.  Concurrent code is a step relation of its atomic steps
    and locked sections, and its theorems hold for every interleaving: after a stop
    nothing passes a check any more (what was past it may complete) and no wakeup is
    lost ([Gate]), pools never exceed their limit ([Permits]), no rate is
    exceeded ([Bandwidth]), no two sessions hold one piece ([Pieces]).  Streams deliver
    what was sent ([UtpReceive], [Mse], [PeerCorrect]).  No traffic leaves the configured
    path ([Binder], [Socks5]).  A session stores, announces and serves verified pieces
    only and leaves nothing behind ([SessionCorrect]).  Registered torrents keep their
    placement under every later configuration ([PolicyRuntime]).

    Behaviour that looks unintended is a lemma of its own next to its component, under
    the heading "Observations" where there are several; none of it is assumed away.

    ** Not modelled

    Glue over tokio, hyper, axum, rusqlite and the operating system, whose content is
    the library calls it makes: the contained HTTP client, the uTP stream adapter, the
    HTTP API with its compatibility layers, the state store, port mapping dialogues,
    logging and start-up.  Display-only counters, log lines and events are left out
    everywhere.  Memory is sequentially consistent.  A session of [Session] runs alone;
    the interleaving of sessions is that of the shared steps, in [Pieces].  Locks and
    rate limiters order steps there and are not part of the state. *)

From Stdlib Require Export ZArith Lia.
From Stdlib Require Export Strings.Byte.
From stdpp Require Export base option list gmap strings sorting.
#[global] Open Scope Z_scope.

Create HintDb bytes.
Create HintDb len.
Create Rewrite HintDb bytes.
Create Rewrite HintDb len.

(** ** Errors and outcomes *)

(** The error type of [crates/swarmotter-core/src/error.rs]: one constructor per
    variant.  The payload is the fixed text of the message; the values that
    [format!] interpolates into it are not part of the model. *)
Inductive CoreError : Type :=
  | MalformedMagnet (msg : string)
  | MalformedTorrent (msg : string)
  | InvalidInfoHash (msg : string)
  | UnsupportedTorrentFeature (msg : string)
  | DuplicateTorrent (msg : string)
  | NotFound (msg : string)
  | InvalidConfig (msg : string)
  | NetworkBlocked (msg : string)
  | Proxy (msg : string)
  | Storage (msg : string)
  | Io (msg : string)
  | Elapsed
  | Bencode (msg : string)
  | Parse (msg : string)
  | HttpProtocol (msg : string)
  | HttpStatus (msg : string)
  | InvalidArgument (msg : string)
  | Internal (msg : string).

(** [CoreError::code]. *)
Definition code (e : CoreError) : string :=
  match e with
  | MalformedMagnet _ => "malformed_magnet"
  | MalformedTorrent _ => "malformed_torrent"
  | InvalidInfoHash _ => "invalid_info_hash"
  | UnsupportedTorrentFeature _ => "unsupported_torrent_feature"
  | DuplicateTorrent _ => "duplicate_torrent"
  | NotFound _ => "not_found"
  | InvalidConfig _ => "invalid_config"
  | NetworkBlocked _ => "network_blocked"
  | Proxy _ => "proxy_error"
  | Storage _ => "storage_error"
  | Io _ => "io_error"
  | Elapsed => "timeout"
  | Bencode _ => "bencode_error"
  | Parse _ => "parse_error"
  | HttpProtocol _ => "http_protocol_error"
  | HttpStatus _ => "http_status_error"
  | InvalidArgument _ => "invalid_argument"
  | Internal _ => "internal_error"
  end.

(** [CoreError::is_network_blocked]. *)
Definition is_network_blocked (e : CoreError) : bool :=
  match e with NetworkBlocked _ => true | _ => false end.

(** The result of running a piece of Rust: a value, an error returned through
    [Result], a panic (out-of-range index or slice, failed [unwrap]), or a model
    that ran out of the fuel it was given. *)
Inductive outcome (A : Type) : Type :=
  | Ok (a : A)
  | Err (e : CoreError)
  | Panic
  | OutOfFuel.
Arguments Ok {A} a.
Arguments Err {A} e.
Arguments Panic {A}.
Arguments OutOfFuel {A}.

#[export] Instance outcome_ret : MRet outcome := fun _ a => Ok a.
#[export] Instance outcome_fmap : FMap outcome := fun _ _ f m =>
  match m with
  | Ok a => Ok (f a)
  | Err e => Err e
  | Panic => Panic
  | OutOfFuel => OutOfFuel
  end.
#[export] Instance outcome_bind : MBind outcome := fun _ _ k m =>
  match m with
  | Ok a => k a
  | Err e => Err e
  | Panic => Panic
  | OutOfFuel => OutOfFuel
  end.

(** [opt.ok_or(e)]. *)
Definition ok_or {A} (o : option A) (e : CoreError) : outcome A :=
  match o with Some a => Ok a | None => Err e end.

(** The code returned: neither a panic nor missing fuel. *)
Definition returns {A} (m : outcome A) : Prop :=
  match m with Ok _ | Err _ => True | Panic | OutOfFuel => False end.

Definition is_ok {A} (m : outcome A) : bool :=
  match m with Ok _ => true | _ => false end.

Lemma bind_Ok {A B} (m : outcome A) (k : A -> outcome B) b :
  (m ≫= k) = Ok b <-> exists a, m = Ok a /\ k a = Ok b.
Proof. destruct m; cbn; naive_solver. Qed.

Lemma bind_returns {A B} (m : outcome A) (k : A -> outcome B) :
  returns m -> (forall a, m = Ok a -> returns (k a)) -> returns (m ≫= k).
Proof. destruct m; cbn; naive_solver. Qed.

Lemma mapM_Ok {A B} (f : A -> outcome B) l k :
  mapM f l = Ok k <-> Forall2 (fun a b => f a = Ok b) l k.
Proof.
  revert k. induction l as [|a l IH]; intros k; cbn [mapM].
  { split; [by intros [= <-]|]. by intros ->%Forall2_nil_inv_l. }
  rewrite bind_Ok. setoid_rewrite bind_Ok. split.
  - intros (b & Hb & k' & Hk & [= <-]). constructor; [done|]. by apply IH.
  - intros (b & k' & Hb & Hk & ->)%Forall2_cons_inv_l. exists b. split; [done|].
    exists k'. split; [by apply IH|done].
Qed.

Lemma mapM_returns {A B} (f : A -> outcome B) l :
  (forall a, a ∈ l -> returns (f a)) -> returns (mapM f l).
Proof.
  induction l as [|a l IH]; intros H; [done|]. cbn [mapM]. apply bind_returns.
  { apply H. set_solver. }
  intros b _. apply bind_returns; [|done]. apply IH. set_solver.
Qed.

Lemma ok_or_Ok {A} (o : option A) e a : ok_or o e = Ok a <-> o = Some a.
Proof. destruct o; cbn; naive_solver. Qed.

Lemma ok_or_returns {A} (o : option A) e : returns (ok_or o e).
Proof. by destruct o. Qed.
Lemma Ok_returns {A} (a : A) : returns (Ok a).
Proof. done. Qed.
Lemma Err_returns {A} e : returns (@Err A e).
Proof. done. Qed.
#[export] Hint Resolve ok_or_returns Ok_returns Err_returns : core.

(** ** Machine integers

    An integer of width [w] is a [Z] in [0, 2^w); what wraps is written
    [wrap w]. *)

Definition wrap (w x : Z) : Z := x mod 2 ^ w.
Definition in_width (w x : Z) : Prop := 0 <= x < 2 ^ w.
Definition usize_max : Z := 2 ^ 64 - 1.
Definition u64_max : Z := 2 ^ 64 - 1.
Definition u32_max : Z := 2 ^ 32 - 1.

(** [usize::checked_add]. *)
Definition checked_add (a b : Z) : option Z :=
  if a + b <=? usize_max then Some (a + b) else None.
(** [usize::checked_sub]. *)
Definition checked_sub (a b : Z) : option Z :=
  if b <=? a then Some (a - b) else None.
(** Saturating arithmetic at a given maximum; the subtraction stops at zero. *)
Definition saturating_add (mx a b : Z) : Z := Z.min mx (a + b).
Definition saturating_sub (a b : Z) : Z := Z.max 0 (a - b).

(** [u64::div_ceil], [usize::div_ceil]. *)
Definition div_ceil (a b : Z) : Z := (a + b - 1) / b.

Lemma wrap_range w x : 0 <= w -> in_width w (wrap w x).
Proof. intros ?. apply Z.mod_pos_bound. lia. Qed.

Lemma wrap_small w x : in_width w x -> wrap w x = x.
Proof. apply Z.mod_small. Qed.

Lemma checked_add_Some a b c :
  checked_add a b = Some c <-> c = a + b /\ a + b <= usize_max.
Proof. unfold checked_add. destruct (Z.leb_spec (a + b) usize_max); naive_solver lia. Qed.

Lemma checked_sub_Some a b c : checked_sub a b = Some c <-> c = a - b /\ b <= a.
Proof. unfold checked_sub. destruct (Z.leb_spec b a); naive_solver lia. Qed.

Lemma div_ceil_spec a b q : 0 < b -> div_ceil a b = q <-> b * (q - 1) < a <= b * q.
Proof.
  intros Hb. unfold div_ceil. pose proof (Z.div_mod (a + b - 1) b ltac:(lia)).
  pose proof (Z.mod_pos_bound (a + b - 1) b Hb). split; [intros <-; lia|].
  intros Hq. symmetry. apply (Z.div_unique _ _ _ (a + b - 1 - b * q)); lia.
Qed.

(** ** Bytes *)

#[export] Instance byte_eq_dec : EqDecision byte := Byte.byte_eq_dec.

#[export] Program Instance byte_countable : Countable byte :=
  inj_countable Byte.to_N Byte.of_N _.
Next Obligation. intros b. apply Byte.of_to_N. Qed.

(** A byte as an integer, and [x as u8]. *)
Definition u8 (b : byte) : Z := Z.of_N (Byte.to_N b).
Definition as_u8 (z : Z) : byte :=
  match Byte.of_N (Z.to_N (wrap 8 z)) with Some b => b | None => x00 end.

Lemma u8_range b : in_width 8 (u8 b).
Proof.
  unfold in_width, u8. pose proof (Byte.to_N_bounded b). lia.
Qed.

Lemma u8_as_u8 z : u8 (as_u8 z) = wrap 8 z.
Proof.
  unfold as_u8, u8. pose proof (wrap_range 8 z ltac:(lia)) as [H1 H2].
  destruct (Byte.of_N (Z.to_N (wrap 8 z))) as [b|] eqn:E.
  - apply Byte.to_of_N in E. rewrite E. lia.
  - apply Byte.of_N_None_iff in E. lia.
Qed.

Lemma u8_inj b c : u8 b = u8 c -> b = c.
Proof.
  unfold u8. intros H%N2Z.inj.
  pose proof (Byte.of_to_N b). pose proof (Byte.of_to_N c). congruence.
Qed.

Lemma as_u8_u8 b : as_u8 (u8 b) = b.
Proof. apply u8_inj. rewrite u8_as_u8. apply wrap_small, u8_range. Qed.

Lemma as_u8_inj x y : in_width 8 x -> in_width 8 y -> as_u8 x = as_u8 y -> x = y.
Proof.
  intros Hx Hy H. apply (f_equal u8) in H. rewrite !u8_as_u8, !wrap_small in H; done.
Qed.
#[export] Hint Rewrite u8_as_u8 as_u8_u8 : bytes.
#[export] Hint Resolve u8_range : bytes.

(** ** Fixed-width integers on the wire: [to_be_bytes], [from_be_bytes],
    [to_le_bytes], [from_le_bytes]. *)

Fixpoint to_le (n : nat) (x : Z) : list byte :=
  match n with
  | O => []
  | S n' => as_u8 x :: to_le n' (Z.shiftr x 8)
  end.
Fixpoint of_le (bs : list byte) : Z :=
  match bs with
  | [] => 0
  | b :: bs' => u8 b + Z.shiftl (of_le bs') 8
  end.
Definition to_be (n : nat) (x : Z) : list byte := rev (to_le n x).
Definition of_be (bs : list byte) : Z := of_le (rev bs).

Lemma length_to_le n x : length (to_le n x) = n.
Proof. revert x. induction n; intros; cbn; auto. Qed.

Lemma length_to_be n x : length (to_be n x) = n.
Proof. unfold to_be. rewrite length_rev. apply length_to_le. Qed.
#[export] Hint Rewrite length_to_be length_to_le : bytes.

Lemma of_le_range bs : 0 <= of_le bs < 2 ^ (8 * Z.of_nat (length bs)).
Proof.
  induction bs as [|b bs IH]; cbn [of_le length]; [done|].
  pose proof (u8_range b) as [??].
  rewrite Z.shiftl_mul_pow2 by lia.
  replace (8 * Z.of_nat (S (length bs))) with (8 + 8 * Z.of_nat (length bs)) by lia.
  rewrite Z.pow_add_r by lia. nia.
Qed.

Lemma of_be_range bs : 0 <= of_be bs < 2 ^ (8 * Z.of_nat (length bs)).
Proof. unfold of_be. pose proof (of_le_range (rev bs)). by rewrite length_rev in *. Qed.

Lemma of_le_to_le n x :
  in_width (8 * Z.of_nat n) x -> of_le (to_le n x) = x.
Proof.
  unfold in_width. revert x. induction n as [|n IH]; intros x Hx.
  { cbn in *. lia. }
  cbn [to_le of_le]. rewrite u8_as_u8. unfold wrap.
  replace (8 * Z.of_nat (S n)) with (8 + 8 * Z.of_nat n) in Hx by lia.
  rewrite Z.pow_add_r in Hx by lia.
  rewrite IH.
  - rewrite Z.shiftl_mul_pow2, Z.shiftr_div_pow2 by lia.
    pose proof (Z.div_mod x (2 ^ 8)). lia.
  - rewrite Z.shiftr_div_pow2 by lia. split.
    + apply Z.div_pos; lia.
    + apply Z.div_lt_upper_bound; lia.
Qed.

Lemma to_le_of_le bs : to_le (length bs) (of_le bs) = bs.
Proof.
  induction bs as [|b bs IH]; [done|]. cbn [length of_le to_le].
  pose proof (u8_range b) as [Hb1 Hb2].
  rewrite Z.shiftl_mul_pow2 by lia. f_equal.
  - apply u8_inj. rewrite u8_as_u8. unfold wrap.
    rewrite Z.mod_add by lia. by apply Z.mod_small.
  - rewrite Z.shiftr_div_pow2, Z.div_add by lia. by rewrite Z.div_small, Z.add_0_l.
Qed.

Lemma of_be_to_be n x :
  in_width (8 * Z.of_nat n) x -> of_be (to_be n x) = x.
Proof. intros. unfold of_be, to_be. rewrite rev_involutive. by apply of_le_to_le. Qed.

Lemma to_be_of_be n bs : length bs = n -> to_be n (of_be bs) = bs.
Proof.
  intros <-. unfold of_be, to_be. rewrite <- (length_rev bs), to_le_of_le.
  apply rev_involutive.
Qed.

(** ** Indexing and slicing with [usize] positions *)

Definition len {A} (l : list A) : Z := Z.of_nat (length l).

(** [slice.get(i)]; the index of a live position is never negative. *)
Definition get {A} (l : list A) (i : Z) : option A :=
  if i <? 0 then None else l !! Z.to_nat i.
(** [&l[a..b]] and [&l[a..]]: out of range panics. *)
Definition slice {A} (l : list A) (a b : Z) : outcome (list A) :=
  if (0 <=? a) && (a <=? b) && (b <=? len l)
  then Ok (take (Z.to_nat (b - a)) (drop (Z.to_nat a) l)) else Panic.
Definition slice_from {A} (l : list A) (a : Z) : outcome (list A) :=
  slice l a (len l).
(** [l[i]]: out of range panics. *)
Definition index {A} (l : list A) (i : Z) : outcome A :=
  match get l i with Some a => Ok a | None => Panic end.

(** The part of a buffer from a position on, for reasoning. *)
Definition rest {A} (l : list A) (p : Z) : list A := drop (Z.to_nat p) l.

Lemma len_nonneg {A} (l : list A) : 0 <= len l.
Proof. unfold len. lia. Qed.
#[export] Hint Resolve len_nonneg : core.

Lemma len_app {A} (l k : list A) : len (l ++ k) = len l + len k.
Proof. unfold len. rewrite length_app. lia. Qed.
Lemma len_cons {A} (a : A) l : len (a :: l) = 1 + len l.
Proof. unfold len. cbn. lia. Qed.
Lemma len_0 {A} (l : list A) : len l = 0 <-> l = [].
Proof. destruct l; [done|]. rewrite len_cons. pose proof (len_nonneg l). naive_solver lia. Qed.
Lemma len_nil {A} : len (@nil A) = 0.
Proof. done. Qed.
#[export] Hint Rewrite @len_app @len_cons @len_nil : len.

Lemma rest_0 {A} (l : list A) : rest l 0 = l.
Proof. done. Qed.

Lemma len_rest {A} (l : list A) p : 0 <= p <= len l -> len (rest l p) = len l - p.
Proof. unfold len, rest. rewrite length_drop. lia. Qed.

Lemma rest_add {A} (l : list A) p q :
  0 <= p -> 0 <= q -> rest l (p + q) = rest (rest l p) q.
Proof.
  intros. unfold rest. rewrite drop_drop. f_equal. lia.
Qed.

Lemma rest_app {A} (l k m : list A) p :
  0 <= p -> rest l p = k ++ m -> rest l (p + len k) = m.
Proof.
  intros ? E. rewrite rest_add, E by auto. unfold rest, len.
  rewrite Nat2Z.id. by rewrite drop_app_length.
Qed.

Lemma rest_cons {A} (l : list A) a m p :
  0 <= p -> rest l p = a :: m -> rest l (p + 1) = m.
Proof. intros ? E. exact (rest_app l [a] m p H E). Qed.

Lemma rest_bound {A} (l : list A) p k m :
  0 <= p <= len l -> rest l p = k ++ m -> p + len k <= len l.
Proof.
  intros Hp E. apply (f_equal len) in E. rewrite len_rest, len_app in E by done.
  pose proof (len_nonneg m). lia.
Qed.

Lemma get_rest {A} (l : list A) p : 0 <= p -> get l p = head (rest l p).
Proof.
  intros. unfold get, rest. destruct (Z.ltb_spec p 0); [lia|].
  generalize (Z.to_nat p) as n. clear. intros n. revert l.
  induction n as [|n IH]; intros [|a l]; cbn; auto.
Qed.

Lemma get_Some_rest {A} (l : list A) p a :
  0 <= p -> get l p = Some a <-> exists m, rest l p = a :: m.
Proof.
  intros. rewrite get_rest by done. destruct (rest l p); cbn; naive_solver.
Qed.

Lemma get_None_rest {A} (l : list A) p :
  0 <= p -> get l p = None <-> rest l p = [].
Proof. intros. rewrite get_rest by done. destruct (rest l p); cbn; naive_solver. Qed.

Lemma slice_rest {A} (l : list A) p q :
  0 <= p -> p <= q -> q <= len l ->
  slice l p q = Ok (take (Z.to_nat (q - p)) (rest l p)).
Proof.
  intros. unfold slice, rest.
  by rewrite (proj2 (Z.leb_le 0 p)), (proj2 (Z.leb_le p q)), (proj2 (Z.leb_le q (len l))).
Qed.

Lemma slice_from_rest {A} (l : list A) p :
  0 <= p <= len l -> slice_from l p = Ok (rest l p).
Proof.
  intros. unfold slice_from. rewrite slice_rest by lia. f_equal.
  apply take_ge. unfold rest, len in *. rewrite length_drop. lia.
Qed.

Lemma slice_app {A} (l k m : list A) p :
  0 <= p <= len l -> rest l p = k ++ m -> slice l p (p + len k) = Ok k.
Proof.
  intros ? E. pose proof (rest_bound _ _ _ _ H E). pose proof (len_nonneg k).
  rewrite slice_rest by lia. f_equal.
  rewrite E. replace (Z.to_nat (p + len k - p)) with (length k) by (unfold len; lia).
  apply take_app_length.
Qed.

(** ** Iterator helpers *)

(** [iter().enumerate()]. *)
Definition enumerate {A} (l : list A) : list (Z * A) := imap (fun i a => (Z.of_nat i, a)) l.

Lemma get_of_nat {A} (l : list A) n : get l (Z.of_nat n) = l !! n.
Proof. unfold get. by rewrite (proj2 (Z.ltb_ge _ _)), Nat2Z.id by lia. Qed.

Lemma get_Some {A} (l : list A) i a : get l i = Some a <-> 0 <= i /\ l !! Z.to_nat i = Some a.
Proof. unfold get. destruct (Z.ltb_spec i 0); naive_solver lia. Qed.

Lemma enumerate_from {A} (l : list A) : enumerate l = imap (fun i a => (0 + Z.of_nat i, a)) l.
Proof. unfold enumerate. apply imap_ext. intros. by rewrite Z.add_0_l. Qed.

(** Counting on from [k]. *)
Lemma imap_from_cons {A} (a : A) l k :
  imap (fun i a => (k + Z.of_nat i, a)) (a :: l) = (k, a) :: imap (fun i a => (k + 1 + Z.of_nat i, a)) l.
Proof.
  cbn [imap]. rewrite Z.add_0_r. f_equal. apply imap_ext. intros i x _. cbn. f_equal. lia.
Qed.

(** [iter().position(f)]. *)
Fixpoint position {A} (f : A -> bool) (l : list A) : option Z :=
  match l with
  | [] => None
  | a :: l' => if f a then Some 0 else Z.succ <$> position f l'
  end.

Lemma position_Some {A} (f : A -> bool) l n :
  position f l = Some n <->
  exists pre a post, l = pre ++ a :: post /\ n = len pre /\
    Forall (fun x => f x = false) pre /\ f a = true.
Proof.
  revert n. induction l as [|b l IH]; intros n; cbn.
  { split; [done|]. intros (pre & a & post & E & _). by destruct pre. }
  destruct (f b) eqn:Hb.
  - split.
    + intros [= <-]. by exists [], b, l.
    + intros (pre & a & post & E & -> & Hpre & Ha). destruct pre as [|c pre]; [done|].
      cbn in E. simplify_eq. inversion Hpre; congruence.
  - rewrite fmap_Some. split.
    + intros (m & Hm & ->). apply IH in Hm as (pre & a & post & -> & -> & ? & ?).
      exists (b :: pre), a, post. rewrite len_cons. repeat split; auto. lia.
    + intros (pre & a & post & E & -> & Hpre & Ha). destruct pre as [|c pre].
      { cbn in E. simplify_eq. congruence. }
      cbn in E. simplify_eq. inversion Hpre; simplify_eq.
      exists (len pre). rewrite len_cons. split; [|lia]. apply IH. eauto 10.
Qed.

Lemma position_None {A} (f : A -> bool) l :
  position f l = None <-> Forall (fun x => f x = false) l.
Proof.
  induction l as [|b l IH]; cbn; [done|]. rewrite Forall_cons.
  destruct (f b); [naive_solver|]. rewrite fmap_None. naive_solver.
Qed.

(** [retain] that keeps everything. *)
Lemma filter_all {A} (P : A -> Prop) `{forall x, Decision (P x)} (l : list A) :
  (forall x, x ∈ l -> P x) -> filter P l = l.
Proof.
  induction l as [|a l IH]; intros Hl; [done|].
  rewrite filter_cons_True by set_solver. f_equal. apply IH. set_solver.
Qed.

Lemma filter_none {A} (P : A -> Prop) `{forall x, Decision (P x)} (l : list A) :
  (forall x, x ∈ l -> ~ P x) -> filter P l = [].
Proof.
  induction l as [|a l IH]; intros Hl; [done|].
  rewrite filter_cons_False by set_solver. apply IH. set_solver.
Qed.

Lemma list_filter_iff' {A} (P Q : A -> Prop) `{forall x, Decision (P x), forall x, Decision (Q x)}
    (l : list A) :
  (forall x, x ∈ l -> P x <-> Q x) -> filter P l = filter Q l.
Proof.
  induction l as [|a l IH]; intros Hl; [done|]. rewrite !filter_cons.
  rewrite IH by set_solver. destruct (decide (P a)), (decide (Q a)); set_solver.
Qed.

(** An early [return Err(e)] under a condition. *)
Definition fail_if (b : bool) (e : CoreError) : outcome () := if b then Err e else Ok ().

Lemma fail_if_Ok b e u : fail_if b e = Ok u <-> b = false.
Proof. destruct b, u; cbn; naive_solver. Qed.
Lemma fail_if_returns b e : returns (fail_if b e).
Proof. by destruct b. Qed.
#[export] Hint Resolve fail_if_returns : core.

(** The errors a computation can report. *)
Definition err_only {A} (P : CoreError -> Prop) (m : outcome A) : Prop :=
  match m with Err e => P e | _ => True end.

Lemma err_only_bind {A B} P (m : outcome A) (k : A -> outcome B) :
  err_only P m -> (forall a, err_only P (k a)) -> err_only P (m ≫= k).
Proof. destruct m; cbn; auto. Qed.
Lemma err_only_ok_or {A} P (o : option A) e : P e -> err_only P (ok_or o e).
Proof. by destruct o. Qed.
Lemma err_only_fail_if P b e : P e -> err_only P (fail_if b e).
Proof. by destruct b. Qed.
Lemma err_only_weaken {A} (P Q : CoreError -> Prop) (m : outcome A) :
  (forall e, P e -> Q e) -> err_only P m -> err_only Q m.
Proof. destruct m; cbn; auto. Qed.

(** Walk through a computation, one step or one case at a time. *)
Create HintDb err_only.
Ltac err_only_tac :=
  repeat first
    [ solve [eauto with err_only]
    | match goal with
      | |- err_only _ (_ ≫= _) => apply err_only_bind; [|intros ?]
      | |- err_only _ (ok_or _ _) => apply err_only_ok_or
      | |- err_only _ (fail_if _ _) => apply err_only_fail_if
      | |- err_only _ (match ?x with _ => _ end) => destruct x
      | |- err_only _ (if ?x then _ else _) => destruct x
      | |- err_only _ (Err _) => cbn [err_only]
      | |- err_only _ (Ok _) => exact I
      | |- err_only _ OutOfFuel => exact I
      | |- err_only _ Panic => exact I
      end
    | progress cbv zeta ].

(** Split a successful sequence of binds into its steps. *)
Ltac inv_ok :=
  repeat match goal with
  | H : (_ ≫= _) = Ok _ |- _ => apply bind_Ok in H as (? & ? & H)
  | H : ok_or _ _ = Ok _ |- _ => apply ok_or_Ok in H
  | H : fail_if _ _ = Ok _ |- _ => apply fail_if_Ok in H
  | H : checked_add _ _ = Some _ |- _ => apply checked_add_Some in H as [? ?]
  | H : checked_sub _ _ = Some _ |- _ => apply checked_sub_Some in H as [? ?]
  | H : Ok _ = Ok _ |- _ => injection H as H
  | H : mret _ = Ok _ |- _ => injection H as H
  | H : Err _ = Ok _ |- _ => discriminate H
  | H : Panic = Ok _ |- _ => discriminate H
  | H : OutOfFuel = Ok _ |- _ => discriminate H
  | H : _ /\ _ |- _ => destruct H
  | x : _ * _ |- _ => destruct x
  end; simplify_eq.

(** Run the binds whose outcome is known, and nothing else. *)
Lemma bind_ret {A B} (a : A) (k : A -> outcome B) : (Ok a ≫= k) = k a.
Proof. done. Qed.
Lemma bind_err {A B} e (k : A -> outcome B) : (Err e ≫= k) = Err e.
Proof. done. Qed.
Lemma bind_panic {A B} (k : A -> outcome B) : (Panic ≫= k) = Panic.
Proof. done. Qed.
Lemma bind_fuel {A B} (k : A -> outcome B) : (OutOfFuel ≫= k) = OutOfFuel.
Proof. done. Qed.
Ltac ok_simpl :=
  repeat first [rewrite bind_ret | rewrite bind_err | rewrite bind_panic | rewrite bind_fuel
               | progress cbn [fail_if negb andb orb ok_or mret outcome_ret]].

(** [for x in l { f(x)?; }] and [iter().try_fold(b, f)]. *)
Fixpoint for_each {A} (f : A -> outcome ()) (l : list A) : outcome () :=
  match l with [] => Ok () | a :: l => _ ← f a; for_each f l end.
Fixpoint try_fold {A B} (f : B -> A -> outcome B) (b : B) (l : list A) : outcome B :=
  match l with [] => Ok b | a :: l => b ← f b a; try_fold f b l end.

Lemma for_each_Ok {A} (f : A -> outcome ()) l u :
  for_each f l = Ok u <-> Forall (fun a => f a = Ok ()) l.
Proof.
  destruct u. induction l as [|a l IH]; cbn [for_each].
  { split; [constructor|done]. }
  rewrite bind_Ok, Forall_cons, <- IH. split; [by intros ([] & ? & ?)|]. intros [? ?]. by exists ().
Qed.

Lemma err_only_for_each {A} P (f : A -> outcome ()) l :
  (forall a, err_only P (f a)) -> err_only P (for_each f l).
Proof. intros H. induction l as [|a l IH]; [done|]. cbn [for_each]. by apply err_only_bind. Qed.
Lemma err_only_try_fold {A B} P (f : B -> A -> outcome B) l :
  (forall b a, err_only P (f b a)) -> forall b, err_only P (try_fold f b l).
Proof. intros H. induction l as [|a l IH]; intros b; [done|]. cbn [try_fold]. by apply err_only_bind. Qed.
Lemma err_only_mapM {A B} P (f : A -> outcome B) l :
  (forall a, err_only P (f a)) -> err_only P (mapM f l).
Proof.
  intros H. induction l as [|a l IH]; [done|]. cbn [mapM]. apply err_only_bind; [done|].
  intros b. by apply err_only_bind.
Qed.
#[export] Hint Resolve err_only_for_each err_only_try_fold err_only_mapM : err_only.

Lemma for_each_returns {A} (f : A -> outcome ()) l :
  (forall a, a ∈ l -> returns (f a)) -> returns (for_each f l).
Proof.
  induction l as [|a l IH]; intros H; [done|]. cbn [for_each]. apply bind_returns.
  { apply H. set_solver. }
  intros _ _. apply IH. set_solver.
Qed.

(** A property that every step keeps. *)
Lemma try_fold_inv {A B} (I : B -> Prop) (f : B -> A -> outcome B) l : forall b b',
  (forall b a b', a ∈ l -> I b -> f b a = Ok b' -> I b') ->
  I b -> try_fold f b l = Ok b' -> I b'.
Proof.
  induction l as [|a l IH]; intros b b' Hs Hb; cbn [try_fold]; [by intros [= <-]|].
  intros (b1 & H1 & H2)%bind_Ok. apply (IH b1 b'); [|eapply Hs; [|done..]; set_solver|done].
  intros c x c' Hx. apply Hs. set_solver.
Qed.

Lemma try_fold_returns {A B} (f : B -> A -> outcome B) l : forall b,
  (forall b a, a ∈ l -> returns (f b a)) -> returns (try_fold f b l).
Proof.
  induction l as [|a l IH]; intros b H; [done|]. cbn [try_fold]. apply bind_returns.
  { apply H. set_solver. }
  intros b' _. apply IH. set_solver.
Qed.

Lemma try_fold_app {A B} (f : B -> A -> outcome B) l k b : try_fold f b (l ++ k) = (b ← try_fold f b l; try_fold f b k).
Proof.
  revert b. induction l as [|a l IH]; intros b; cbn [try_fold app]; [done|]. destruct (f b a); [|done..]. by rewrite !bind_ret, IH.
Qed.

(** [usize::try_from] of a [u64] on a 64-bit platform, and [u64::div_ceil],
    which panics on a zero divisor. *)
Definition usize_try_from (x : Z) : option Z := if x <=? usize_max then Some x else None.
Definition u64_div_ceil (a b : Z) : outcome Z := if b =? 0 then Panic else Ok (div_ceil a b).

(** ** Reading at a position *)

(** [from_be_bytes] of the [n] bytes at [a]. *)
Definition be_at (buf : list byte) (a n : Z) : outcome Z :=
  bs ← slice buf a (a + n); Ok (of_be bs).


Lemma index_rest {A} (l : list A) p a m : 0 <= p -> rest l p = a :: m -> index l p = Ok a.
Proof.
  intros Hp E. unfold index. by rewrite (proj2 (get_Some_rest l p a Hp)) by eauto.
Qed.

Lemma index_Ok {A} (l : list A) p a :
  0 <= p -> index l p = Ok a -> exists m, rest l p = a :: m.
Proof.
  intros Hp. unfold index. destruct (get l p) eqn:E; [|done]. intros [= ->].
  by apply get_Some_rest in E.
Qed.

Lemma index_returns_in {A} (l : list A) p : 0 <= p < len l -> exists a, index l p = Ok a.
Proof.
  intros Hp. unfold index, get. rewrite (proj2 (Z.ltb_ge _ _)) by lia.
  destruct (lookup_lt_is_Some_2 l (Z.to_nat p)) as [a ->]; [unfold len in Hp; lia|]. by eexists.
Qed.

Lemma be_at_app buf a n x m :
  0 <= a <= len buf -> in_width (8 * n) x -> 0 <= n ->
  rest buf a = to_be (Z.to_nat n) x ++ m ->
  be_at buf a n = Ok x /\ rest buf (a + n) = m /\ a + n <= len buf.
Proof.
  intros Ha Hx Hn E.
  assert (Hlen : len (to_be (Z.to_nat n) x) = n) by (unfold len; rewrite length_to_be; lia).
  pose proof (slice_app buf _ m a Ha E) as Hs. rewrite Hlen in Hs.
  pose proof (rest_app buf _ m a (proj1 Ha) E) as Hr. rewrite Hlen in Hr.
  pose proof (rest_bound buf a _ m Ha E) as Hb. rewrite Hlen in Hb.
  unfold be_at. rewrite Hs. ok_simpl.
  rewrite of_be_to_be by (replace (8 * Z.of_nat (Z.to_nat n)) with (8 * n) by lia; done).
  done.
Qed.

Lemma be_at_Ok buf a n x :
  0 <= a -> 0 <= n -> a + n <= len buf -> be_at buf a n = Ok x ->
  rest buf a = to_be (Z.to_nat n) x ++ rest buf (a + n) /\ in_width (8 * n) x.
Proof.
  intros Ha Hn Hl. unfold be_at. rewrite slice_rest by lia. ok_simpl. intros [= <-].
  replace (a + n - a) with n by lia.
  assert (Hlen : length (take (Z.to_nat n) (rest buf a)) = Z.to_nat n).
  { rewrite length_take. pose proof (len_rest buf a ltac:(lia)) as Hr. unfold len in *. lia. }
  rewrite to_be_of_be by done. split.
  - rewrite rest_add by lia. unfold rest at 3. by rewrite take_drop.
  - pose proof (of_be_range (take (Z.to_nat n) (rest buf a))) as Hr. rewrite Hlen in Hr.
    unfold in_width. by replace (8 * n) with (8 * Z.of_nat (Z.to_nat n)) by lia.
Qed.

Lemma be_at_total buf a n : 0 <= a -> 0 <= n -> a + n <= len buf -> exists x, be_at buf a n = Ok x.
Proof. intros. unfold be_at. rewrite slice_rest by lia. by eexists. Qed.

(** ** [slice::sort_by]: a stable sort *)

Fixpoint insert_by {A} (le : A -> A -> bool) (a : A) (l : list A) : list A :=
  match l with
  | [] => [a]
  | b :: l' => if le a b then a :: b :: l' else b :: insert_by le a l'
  end.
Definition sort_by {A} (le : A -> A -> bool) (l : list A) : list A :=
  foldr (insert_by le) [] l.

Lemma insert_by_perm {A} le (a : A) l : insert_by le a l ≡ₚ a :: l.
Proof.
  induction l as [|b l IH]; cbn; [done|]. destruct (le a b); [done|].
  rewrite IH. by apply Permutation_swap.
Qed.

Lemma sort_by_perm {A} le (l : list A) : sort_by le l ≡ₚ l.
Proof. induction l as [|a l IH]; cbn; [done|]. by rewrite insert_by_perm, IH. Qed.

Lemma insert_by_map {A B} (le : A -> A -> bool) (le' : B -> B -> bool) (f : A -> B) a l :
  (forall x y, le' (f x) (f y) = le x y) ->
  insert_by le' (f a) (map f l) = map f (insert_by le a l).
Proof.
  intros H. induction l as [|b l IH]; cbn; [done|]. rewrite H.
  destruct (le a b); cbn; [done|]. by rewrite IH.
Qed.

Lemma sort_by_map {A B} (le : A -> A -> bool) (le' : B -> B -> bool) (f : A -> B) l :
  (forall x y, le' (f x) (f y) = le x y) ->
  sort_by le' (map f l) = map f (sort_by le l).
Proof.
  intros H. unfold sort_by. induction l as [|a l IH]; cbn; [done|].
  rewrite IH. by apply insert_by_map.
Qed.

Lemma sort_by_ext {A} (le le' : A -> A -> bool) (l : list A) :
  (forall a b, le a b = le' a b) -> sort_by le l = sort_by le' l.
Proof.
  intros H. rewrite <- (map_id l) at 1. rewrite (sort_by_map le') by (intros; apply H). apply map_id.
Qed.

Lemma sort_by_sorted {A} (le : A -> A -> bool) (l : list A) :
  (forall x y, le x y = false -> le y x = true) ->
  Sorted (fun x y => le x y = true) (sort_by le l).
Proof.
  intros Htot. induction l as [|a l IH]; cbn; [constructor|].
  fold (sort_by le l). induction IH as [|b k Hs IH' Hb]; cbn; [repeat constructor|].
  destruct (le a b) eqn:E; [repeat constructor; auto|].
  constructor; [done|]. destruct k as [|c k]; cbn.
  - constructor. auto.
  - inversion Hb; subst. destruct (le a c); constructor; auto.
Qed.

Ltac returns_tac := repeat (apply bind_returns; [solve [auto]|intros ? _]); auto.
(** Case analysis on the next step of the left-hand side. *)
Ltac bind_cases :=
  repeat match goal with
  | |- (?m ≫= _) = _ => destruct m; ok_simpl; [|done..]
  | |- (match ?x with pair _ _ => _ end) = _ => destruct x
  end.
(** Decide the comparisons of two known bytes. *)
Ltac byte_simpl :=
  repeat match goal with
  | |- context [Byte.eqb ?a ?b] =>
      let r := eval vm_compute in (Byte.eqb a b) in
      match r with
      | true => change (Byte.eqb a b) with true
      | false => change (Byte.eqb a b) with false
      end
  end; cbn [andb orb negb]; cbn iota.

(** ** Integer sums over lists *)

Definition zsum {A} (f : A -> Z) (l : list A) : Z := foldr (fun a n => f a + n) 0 l.

Arguments zsum : simpl never.

Lemma zsum_nil {A} (f : A -> Z) : zsum f [] = 0.
Proof. done. Qed.
Lemma zsum_single {A} (f : A -> Z) a : zsum f [a] = f a.
Proof. unfold zsum. cbn. lia. Qed.
Lemma zsum_cons {A} (f : A -> Z) a l : zsum f (a :: l) = f a + zsum f l.
Proof. done. Qed.

Lemma zsum_app {A} (f : A -> Z) l k : zsum f (l ++ k) = zsum f l + zsum f k.
Proof. induction l as [|a l IH]; [done|]. cbn [app]. rewrite !zsum_cons, IH. lia. Qed.

Lemma zsum_insert {A} (f : A -> Z) l i a b :
  l !! i = Some a -> zsum f (<[i := b]> l) = zsum f l - f a + f b.
Proof.
  revert i. induction l as [|c l IH]; intros [|i] Hi; [done|done| |].
  - injection Hi as ->. change (<[0%nat := b]> (a :: l)) with (b :: l).
    rewrite !zsum_cons. lia.
  - change (<[S i := b]> (c :: l)) with (c :: <[i := b]> l).
    rewrite !zsum_cons, (IH i) by done. lia.
Qed.

Lemma zsum_perm {A} (f : A -> Z) l k : l ≡ₚ k -> zsum f l = zsum f k.
Proof.
  induction 1 as [|a l k _ IH|a b l|l k m _ IH1 _ IH2]; rewrite ?zsum_cons.
  - done.
  - by rewrite IH.
  - lia.
  - by rewrite IH1.
Qed.

Lemma zsum_ext {A} (f g : A -> Z) l : (forall x, x ∈ l -> f x = g x) -> zsum f l = zsum g l.
Proof.
  induction l as [|a l IH]; intros H; [done|]. rewrite !zsum_cons.
  rewrite (H a) by set_solver. rewrite IH; [done|]. set_solver.
Qed.

Lemma zsum_map {A B} (f : B -> Z) (h : A -> B) l : zsum f (map h l) = zsum (fun x => f (h x)) l.
Proof. induction l as [|a l IH]; [done|]. cbn [map]. by rewrite !zsum_cons, IH. Qed.

Lemma zsum_nonneg {A} (f : A -> Z) l : (forall a, a ∈ l -> 0 <= f a) -> 0 <= zsum f l.
Proof.
  induction l as [|a l IH]; intros Hl; [done|]. rewrite zsum_cons.
  pose proof (Hl a ltac:(set_solver)). specialize (IH ltac:(set_solver)). lia.
Qed.

Lemma zsum_ge {A} (f : A -> Z) l i a :
  (forall a, a ∈ l -> 0 <= f a) -> l !! i = Some a -> f a <= zsum f l.
Proof.
  intros Hl Hi. pose proof (take_drop_middle l i a Hi) as E.
  rewrite <- E, zsum_app, zsum_cons.
  assert (0 <= zsum f (take i l)).
  { apply zsum_nonneg. intros x Hx. apply Hl. rewrite <- E. set_solver. }
  assert (0 <= zsum f (drop (S i) l)).
  { apply zsum_nonneg. intros x Hx. apply Hl. rewrite <- E. set_solver. }
  lia.
Qed.
