(* ===== verification/Text.v ===== *)
(** * Text: the standard-library text operations the parsers use

    ASCII digits, decimal formatting ([format!("{}", n)]) and parsing
    ([str::parse]), and the check of [std::str::from_utf8]. *)

From S2P Require Import Prelude.

Lemma byte_eqb_eq a b : Byte.eqb a b = true <-> a = b.
Proof. split; [apply byte_dec_bl|apply byte_dec_lb]. Qed.
Lemma byte_eqb_neq a b : Byte.eqb a b = false <-> a <> b.
Proof. rewrite <- byte_eqb_eq. by destruct (Byte.eqb a b). Qed.
Lemma byte_eqb_refl b : Byte.eqb b b = true.
Proof. by apply byte_eqb_eq. Qed.

(** A string literal as its bytes. *)
Definition bytes_of (s : string) : list byte := String.list_byte_of_string s.

(** ** ASCII digits *)

(** [u8::is_ascii_digit]. *)
Definition is_ascii_digit (b : byte) : bool := (48 <=? u8 b) && (u8 b <=? 57).
Definition digit_value (b : byte) : Z := u8 b - 48.
Definition digit (d : Z) : byte := as_u8 (48 + d).

Lemma is_ascii_digit_range b : is_ascii_digit b = true <-> 48 <= u8 b <= 57.
Proof. unfold is_ascii_digit. lia. Qed.

Lemma u8_digit d : 0 <= d < 10 -> u8 (digit d) = 48 + d.
Proof. intros. unfold digit. rewrite u8_as_u8. apply wrap_small. unfold in_width. lia. Qed.

Lemma digit_value_digit d : 0 <= d < 10 -> digit_value (digit d) = d.
Proof. intros. unfold digit_value. rewrite u8_digit; lia. Qed.

Lemma is_ascii_digit_digit d : 0 <= d < 10 -> is_ascii_digit (digit d) = true.
Proof. intros. apply is_ascii_digit_range. rewrite u8_digit; lia. Qed.

Lemma digit_digit_value b : is_ascii_digit b = true -> digit (digit_value b) = b.
Proof.
  intros H%is_ascii_digit_range. apply u8_inj. unfold digit_value.
  rewrite u8_digit; lia.
Qed.

Lemma digit_value_range b : is_ascii_digit b = true -> 0 <= digit_value b < 10.
Proof. intros H%is_ascii_digit_range. unfold digit_value. lia. Qed.

(** ** Decimal text *)

(** Decimal digits of a non-negative integer, most significant first; twenty
    digits hold every [u64]. *)
Fixpoint print_dec_fuel (fuel : nat) (n : Z) : list byte :=
  match fuel with
  | O => []
  | S f => if n <? 10 then [digit n]
           else print_dec_fuel f (n / 10) ++ [digit (n mod 10)]
  end.
Definition print_dec (n : Z) : list byte := print_dec_fuel 20 n.

(** The value of a run of digits. *)
Definition dec_value (ds : list byte) : Z :=
  foldl (fun acc b => acc * 10 + digit_value b) 0 ds.

(** No leading zero, except for zero itself; at least one digit. *)
Definition canonical_dec (ds : list byte) : Prop :=
  Forall (fun b => is_ascii_digit b = true) ds /\ ds <> [] /\
  (head ds = Some "0"%byte -> length ds = 1%nat).

(** [str::parse::<usize>] on a text already known to be all digits. *)
Definition parse_usize (ds : list byte) : option Z :=
  if dec_value ds <=? usize_max then Some (dec_value ds) else None.

Definition i64_min : Z := - 2 ^ 63.
Definition i64_max : Z := 2 ^ 63 - 1.
(** [str::parse::<i64>] on an optional minus sign followed by digits. *)
Definition parse_i64 (neg : bool) (ds : list byte) : option Z :=
  let v := if neg then - dec_value ds else dec_value ds in
  if (i64_min <=? v) && (v <=? i64_max) then Some v else None.

(** [i64] as decimal text. *)
Definition print_i64 (n : Z) : list byte :=
  if n <? 0 then "-"%byte :: print_dec (- n) else print_dec n.

Lemma dec_value_snoc ds b : dec_value (ds ++ [b]) = dec_value ds * 10 + digit_value b.
Proof. unfold dec_value. by rewrite foldl_app. Qed.

Lemma dec_value_nonneg ds :
  Forall (fun b => is_ascii_digit b = true) ds -> 0 <= dec_value ds.
Proof.
  induction ds as [|b ds IH] using rev_ind; [done|].
  rewrite Forall_app, Forall_singleton, dec_value_snoc. intros [H1 H2].
  specialize (IH H1). pose proof (digit_value_range _ H2). lia.
Qed.

Lemma print_dec_fuel_digits f n :
  0 <= n -> Forall (fun b => is_ascii_digit b = true) (print_dec_fuel f n).
Proof.
  revert n. induction f as [|f IH]; intros n Hn; cbn; [constructor|].
  destruct (Z.ltb_spec n 10).
  - constructor; [apply is_ascii_digit_digit; lia | constructor].
  - apply Forall_app; split; [apply IH, Z.div_pos; lia|].
    constructor; [|constructor]. apply is_ascii_digit_digit.
    apply Z.mod_pos_bound. lia.
Qed.

Lemma print_dec_fuel_value f n :
  0 <= n < 10 ^ Z.of_nat f -> dec_value (print_dec_fuel f n) = n.
Proof.
  revert n. induction f as [|f IH]; intros n Hn; cbn [print_dec_fuel].
  { cbn in *. lia. }
  destruct (Z.ltb_spec n 10).
  - cbn. rewrite digit_value_digit; lia.
  - rewrite dec_value_snoc, IH.
    + rewrite digit_value_digit by (apply Z.mod_pos_bound; lia).
      pose proof (Z.div_mod n 10). lia.
    + rewrite Nat2Z.inj_succ, Z.pow_succ_r in Hn by lia. split.
      * apply Z.div_pos; lia.
      * apply Z.div_lt_upper_bound; lia.
Qed.

Lemma print_dec_value n : 0 <= n <= u64_max -> dec_value (print_dec n) = n.
Proof. intros. apply print_dec_fuel_value. unfold u64_max in *. cbn. lia. Qed.

Lemma print_dec_fuel_nonempty f n : print_dec_fuel (S f) n <> [].
Proof. cbn. destruct (n <? 10); [done|]. by destruct (print_dec_fuel f (n / 10)). Qed.

Lemma head_print_dec_fuel f n :
  0 < n < 10 ^ Z.of_nat f -> head (print_dec_fuel f n) <> Some "0"%byte.
Proof.
  revert n. induction f as [|f IH]; intros n Hn.
  { cbn in *. lia. }
  cbn [print_dec_fuel]. destruct (Z.ltb_spec n 10).
  - cbn. intros [= E]. apply (f_equal u8) in E. rewrite u8_digit in E by lia.
    cbn in E. lia.
  - rewrite Nat2Z.inj_succ, Z.pow_succ_r in Hn by lia.
    assert (0 < n / 10 < 10 ^ Z.of_nat f) as Hd.
    { split; [apply Z.div_str_pos; lia|apply Z.div_lt_upper_bound; lia]. }
    specialize (IH _ Hd).
    destruct f as [|f]; [cbn in Hd; lia|].
    pose proof (print_dec_fuel_nonempty f (n / 10)).
    by destruct (print_dec_fuel (S f) (n / 10)).
Qed.

Lemma print_dec_canonical n : 0 <= n <= u64_max -> canonical_dec (print_dec n).
Proof.
  intros Hn. split; [|split].
  - apply print_dec_fuel_digits. lia.
  - apply print_dec_fuel_nonempty.
  - intros Hh. destruct (Z.eq_dec n 0) as [->|]; [done|].
    destruct (head_print_dec_fuel 20 n); [|done]. unfold u64_max in *. cbn. lia.
Qed.

(** A non-empty run of digits that does not start with zero is at least
    [10^(length - 1)]. *)
Lemma dec_value_lower ds :
  Forall (fun b => is_ascii_digit b = true) ds -> ds <> [] ->
  head ds <> Some "0"%byte -> 10 ^ (len ds - 1) <= dec_value ds.
Proof.
  induction ds as [|b ds IH] using rev_ind; [done|].
  rewrite Forall_app, Forall_singleton. intros [H1 H2] _ Hh.
  rewrite dec_value_snoc. pose proof (digit_value_range _ H2).
  destruct ds as [|c ds].
  - change (10 ^ (len ([] ++ [b]) - 1)) with 1. change (dec_value []) with 0.
    enough (digit_value b <> 0) by lia. intros E. destruct Hh. cbn. f_equal.
    rewrite <- (digit_digit_value b), E by done. done.
  - specialize (IH H1 ltac:(done) Hh).
    replace (len ((c :: ds) ++ [b]) - 1) with (1 + (len (c :: ds) - 1))
      by (rewrite len_app, (len_cons b), len_nil; lia).
    rewrite Z.pow_add_r by (rewrite ?len_cons; pose proof (len_nonneg ds); lia).
    change (10 ^ 1) with 10. lia.
Qed.

Lemma print_dec_fuel_of_value f ds :
  canonical_dec ds -> (length ds <= f)%nat -> print_dec_fuel f (dec_value ds) = ds.
Proof.
  revert f. induction ds as [|b ds IH] using rev_ind; intros f (Hd & Hne & Hz) Hl; [done|].
  rewrite Forall_app, Forall_singleton in Hd. destruct Hd as [H1 H2].
  rewrite length_app in Hl. cbn in Hl. destruct f as [|f]; [lia|].
  pose proof (digit_value_range _ H2). rewrite dec_value_snoc. cbn [print_dec_fuel].
  destruct ds as [|c ds].
  - change (dec_value []) with 0. rewrite Z.mul_0_l, Z.add_0_l.
    replace (digit_value b <? 10) with true by lia. by rewrite digit_digit_value.
  - assert (head (c :: ds) <> Some "0"%byte) as Hh.
    { intros E. cbn in E, Hz. specialize (Hz E). rewrite length_app in Hz. cbn in Hz. lia. }
    pose proof (dec_value_lower _ H1 ltac:(done) Hh).
    assert (0 < 10 ^ (len (c :: ds) - 1)) as Hp.
    { apply Z.pow_pos_nonneg; [lia|]. rewrite len_cons. pose proof (len_nonneg ds). lia. }
    destruct (Z.ltb_spec (dec_value (c :: ds) * 10 + digit_value b) 10); [lia|].
    rewrite Z.div_add_l, Z.div_small, Z.add_0_r by lia.
    rewrite (Z.add_comm (_ * 10)), Z.mod_add, Z.mod_small, digit_digit_value by (lia || done).
    rewrite IH; [done| |lia]. by repeat split.
Qed.

Lemma print_dec_of_value ds :
  canonical_dec ds -> dec_value ds <= u64_max -> print_dec (dec_value ds) = ds.
Proof.
  intros Hc Hv. apply print_dec_fuel_of_value; [done|].
  destruct Hc as (Hd & Hne & Hz). destruct (decide (head ds = Some "0"%byte)) as [E|E].
  - rewrite Hz by done. lia.
  - pose proof (dec_value_lower _ Hd Hne E) as Hl.
    destruct (le_gt_dec (length ds) 20) as [|Hgt]; [done|].
    assert (10 ^ 20 <= 10 ^ (len ds - 1)) by (apply Z.pow_le_mono_r; unfold len; lia).
    unfold u64_max in *. lia.
Qed.

Lemma parse_usize_Some ds n :
  parse_usize ds = Some n <-> n = dec_value ds /\ dec_value ds <= usize_max.
Proof. unfold parse_usize. destruct (Z.leb_spec (dec_value ds) usize_max); naive_solver lia. Qed.

Lemma parse_i64_Some neg ds n :
  parse_i64 neg ds = Some n <->
  n = (if neg then - dec_value ds else dec_value ds) /\ i64_min <= n <= i64_max.
Proof.
  unfold parse_i64. set (v := if neg then _ else _).
  destruct (Z.leb_spec i64_min v), (Z.leb_spec v i64_max); naive_solver lia.
Qed.

(** ** [std::str::from_utf8] *)

Definition in_range (lo hi : Z) (b : byte) : bool := (lo <=? u8 b) && (u8 b <=? hi).
Definition cont (b : byte) : bool := in_range 128 191 b.

(** Whether [std::str::from_utf8] accepts the bytes (the well-formed sequences
    of the Unicode standard, table 3-7). *)
Fixpoint utf8_valid (bs : list byte) : bool :=
  match bs with
  | [] => true
  | b :: r =>
      if u8 b <? 128 then utf8_valid r
      else match r with
      | [] => false
      | c1 :: r1 =>
          if in_range 194 223 b then cont c1 && utf8_valid r1
          else match r1 with
          | [] => false
          | c2 :: r2 =>
              if in_range 224 239 b then
                (if u8 b =? 224 then in_range 160 191 c1
                 else if u8 b =? 237 then in_range 128 159 c1 else cont c1)
                && cont c2 && utf8_valid r2
              else match r2 with
              | [] => false
              | c3 :: r3 =>
                  if in_range 240 244 b then
                    (if u8 b =? 240 then in_range 144 191 c1
                     else if u8 b =? 244 then in_range 128 143 c1 else cont c1)
                    && cont c2 && cont c3 && utf8_valid r3
                  else false
              end
          end
      end
  end.

Lemma utf8_valid_ascii bs : Forall (fun b => u8 b < 128) bs -> utf8_valid bs = true.
Proof.
  induction 1 as [|b bs Hb _ IH]; [done|]. cbn. by rewrite (proj2 (Z.ltb_lt _ _) Hb).
Qed.

Lemma digits_ascii ds :
  Forall (fun b => is_ascii_digit b = true) ds -> Forall (fun b => u8 b < 128) ds.
Proof.
  intros H. eapply Forall_impl; [exact H|]. intros b Hb%is_ascii_digit_range. lia.
Qed.

Lemma all_digits_Forall ds :
  forallb is_ascii_digit ds = true <-> Forall (fun b => is_ascii_digit b = true) ds.
Proof. rewrite forallb_forall, Forall_forall. by setoid_rewrite list_elem_of_In. Qed.

(** A byte in a run of digits or signs is neither of the delimiters. *)
Lemma digit_not_e b : is_ascii_digit b = true -> b <> "e"%byte.
Proof. by intros H ->. Qed.
Lemma digit_not_colon b : is_ascii_digit b = true -> b <> ":"%byte.
Proof. by intros H ->. Qed.

(** ** [String::from_utf8_lossy]

    [utf8_step] looks at the first code point: [inl n] when its [n] bytes are
    valid, [inr n] when [n] bytes are to be replaced. *)

Definition second_ok (b c : byte) : bool :=
  let x := u8 b in
  if x =? 224 then in_range 160 191 c
  else if x =? 237 then in_range 128 159 c
  else if x =? 240 then in_range 144 191 c
  else if x =? 244 then in_range 128 143 c
  else cont c.

Definition utf8_step (bs : list byte) : nat + nat :=
  match bs with
  | [] => inr 0%nat
  | b :: r =>
      if u8 b <? 128 then inl 1%nat
      else if in_range 194 244 b then
        match r with
        | c1 :: r1 =>
            if negb (second_ok b c1) then inr 1%nat
            else if in_range 194 223 b then inl 2%nat
            else
              match r1 with
              | c2 :: r2 =>
                  if negb (cont c2) then inr 2%nat
                  else if in_range 224 239 b then inl 3%nat
                  else
                    match r2 with
                    | c3 :: _ => if cont c3 then inl 4%nat else inr 3%nat
                    | [] => inr 3%nat
                    end
              | [] => inr 2%nat
              end
        | [] => inr 1%nat
        end
      else inr 1%nat
  end.

Definition replacement_character : list byte := [xef; xbf; xbd].

Fixpoint lossy_fuel (fuel : nat) (bs : list byte) : list byte :=
  match fuel, bs with
  | O, _ | _, [] => []
  | S fuel, _ =>
      match utf8_step bs with
      | inl n => take n bs ++ lossy_fuel fuel (drop n bs)
      | inr n => replacement_character ++ lossy_fuel fuel (drop n bs)
      end
  end.
Definition from_utf8_lossy (bs : list byte) : list byte := lossy_fuel (length bs) bs.

Example lossy_ex : from_utf8_lossy ["a"; xe2; x80; "b"; xc3; xa9; xff]%byte
  = ["a"; xef; xbf; xbd; "b"; xc3; xa9; xef; xbf; xbd]%byte.
Proof. reflexivity. Qed.

Lemma utf8_step_valid bs :
  bs <> [] -> utf8_valid bs = true ->
  exists n, utf8_step bs = inl n /\ (1 <= n <= length bs)%nat /\ utf8_valid (drop n bs) = true.
Proof.
  intros Hne H. destruct bs as [|b r]; [done|]. cbn [utf8_valid] in H. unfold utf8_step, second_ok, cont, in_range in *.
  cbv zeta. destruct (Z.ltb_spec (u8 b) 128); [exists 1%nat; cbn; split; [done|split; [lia|done]]|].
  destruct r as [|c1 r1]; [done|].
  destruct ((194 <=? u8 b) && (u8 b <=? 223)) eqn:E1.
  - apply andb_true_iff in H as [H1 H2]. exists 2%nat. cbn [length drop].
    rewrite (proj2 (Z.leb_le 194 (u8 b))), (proj2 (Z.leb_le (u8 b) 244)) by lia. cbn [andb].
    repeat (rewrite (proj2 (Z.eqb_neq (u8 b) _)) by lia). rewrite H1. cbn [negb]. split; [done|]. split; [lia|done].
  - destruct r1 as [|c2 r2]; [done|]. destruct ((224 <=? u8 b) && (u8 b <=? 239)) eqn:E2.
    + apply andb_true_iff in H as [[H1 H2]%andb_true_iff H3]. exists 3%nat. cbn [length drop].
      rewrite (proj2 (Z.leb_le 194 (u8 b))), (proj2 (Z.leb_le (u8 b) 244)) by lia. cbn [andb].
      rewrite (proj2 (Z.eqb_neq (u8 b) 240)), (proj2 (Z.eqb_neq (u8 b) 244)) by lia. rewrite H1, H2. cbn [negb].
      split; [done|]. split; [lia|done].
    + destruct r2 as [|c3 r3]; [done|]. destruct ((240 <=? u8 b) && (u8 b <=? 244)) eqn:E3; [|done].
      apply andb_true_iff in H as [[[H1 H2]%andb_true_iff H3]%andb_true_iff H4]. exists 4%nat. cbn [length drop].
      rewrite (proj2 (Z.leb_le 194 (u8 b))), (proj2 (Z.leb_le (u8 b) 244)) by lia. cbn [andb].
      rewrite (proj2 (Z.eqb_neq (u8 b) 224)), (proj2 (Z.eqb_neq (u8 b) 237)) by lia. rewrite H1, H2, H3. cbn [negb].
      split; [done|]. split; [lia|done].
Qed.

Lemma from_utf8_lossy_valid bs : utf8_valid bs = true -> from_utf8_lossy bs = bs.
Proof.
  unfold from_utf8_lossy. assert (length bs <= length bs)%nat as Hf by done. revert Hf.
  generalize (length bs) at 2 3 as f. intros f. revert bs.
  induction f as [|f IH]; intros bs Hf Hv; [destruct bs; [done|cbn in Hf; lia]|].
  destruct bs as [|b r]; [done|]. destruct (utf8_step_valid (b :: r) ltac:(done) Hv) as (n & En & Hn & Hr).
  cbn [lossy_fuel]. rewrite En, IH; [apply take_drop| |done]. rewrite length_drop. cbn [length] in *. lia.
Qed.

(** ** [str::trim]: the code points with the property White_Space, encoded. *)

Definition whitespace : list (list byte) :=
  map (fun b => [as_u8 b]) [9; 10; 11; 12; 13; 32]
  ++ map (fun b => [xc2; as_u8 b]) [0x85; 0xa0]
  ++ [[xe1; x9a; x80]]
  ++ map (fun b => [xe2; x80; as_u8 b])
       [0x80; 0x81; 0x82; 0x83; 0x84; 0x85; 0x86; 0x87; 0x88; 0x89; 0x8a; 0xa8; 0xa9; 0xaf]
  ++ [[xe2; x81; x9f]; [xe3; x80; x80]].

Fixpoint strip_prefix (p s : list byte) : option (list byte) :=
  match p, s with
  | [], _ => Some s
  | a :: p, b :: s => if Byte.eqb a b then strip_prefix p s else None
  | _ :: _, [] => None
  end.

Fixpoint strip_any (ps : list (list byte)) (s : list byte) : option (list byte) :=
  match ps with
  | [] => None
  | p :: ps => match strip_prefix p s with Some s => Some s | None => strip_any ps s end
  end.

Fixpoint trim_front (ps : list (list byte)) (fuel : nat) (s : list byte) : list byte :=
  match fuel with
  | O => s
  | S fuel => match strip_any ps s with Some s => trim_front ps fuel s | None => s end
  end.

Definition trim_start (s : list byte) : list byte := trim_front whitespace (length s) s.
Definition trim_end (s : list byte) : list byte :=
  rev (trim_front (map (@rev byte) whitespace) (length s) (rev s)).
Definition trim (s : list byte) : list byte := trim_end (trim_start s).

Example trim_ex : trim [x20; xc2; xa0; "a"; x20; "b"; xe2; x80; xa9; x0a]%byte = ["a"; x20; "b"]%byte.
Proof. reflexivity. Qed.

(** Text that starts and ends with a graphic ASCII character is its own [trim]. *)
Lemma strip_any_graphic ps b s :
  (forall p, p ∈ ps -> match p with c :: _ => c <> b | [] => False end) -> strip_any ps (b :: s) = None.
Proof.
  induction ps as [|p ps IH]; intros H; [done|]. cbn [strip_any].
  assert (strip_prefix p (b :: s) = None) as ->; [|apply IH; intros q Hq; apply H; set_solver].
  specialize (H p ltac:(set_solver)). destruct p as [|c p]; [done|]. cbn [strip_prefix].
  by rewrite (proj2 (byte_eqb_neq c b)).
Qed.

Lemma whitespace_not_graphic b :
  33 <= u8 b <= 126 ->
  forall p, p ∈ whitespace ++ map (@rev byte) whitespace -> match p with c :: _ => c <> b | [] => False end.
Proof.
  intros Hb p Hp.
  assert (forallb (fun p => match p with c :: _ => negb (in_range 33 126 c) | [] => false end)
    (whitespace ++ map (@rev byte) whitespace) = true) as Hf by (vm_compute; reflexivity).
  rewrite forallb_forall in Hf. specialize (Hf p ltac:(by apply list_elem_of_In)). destruct p as [|c p]; [done|].
  intros ->. unfold in_range in Hf. lia.
Qed.

Lemma trim_graphic s b c m :
  s = b :: m -> List.last s x00 = c -> 33 <= u8 b <= 126 -> 33 <= u8 c <= 126 -> trim s = s.
Proof.
  intros Hs Hc Hb Hl. assert (trim_start s = s) as Ht.
  { unfold trim_start. rewrite Hs. cbn [length trim_front]. rewrite strip_any_graphic; [done|].
    intros p Hp. apply whitespace_not_graphic; [done|]. set_solver. }
  unfold trim. rewrite Ht. unfold trim_end. rewrite <- (rev_involutive s) at 3. f_equal.
  assert (exists m', rev s = c :: m') as (m' & ->).
  { exists (rev (removelast s)). rewrite (app_removelast_last x00 (l := s)) at 1 by by rewrite Hs. by rewrite rev_app_distr, Hc. }
  rewrite Hs. cbn [length trim_front]. rewrite strip_any_graphic; [done|].
  intros p Hp. apply whitespace_not_graphic; [done|]. set_solver.
Qed.

(** ** Splitting *)

(** [str::split] on one ASCII character: always at least one segment. *)
Fixpoint split_byte (b : byte) (s : list byte) : list (list byte) :=
  match s with
  | [] => [[]]
  | c :: s =>
      match split_byte b s with
      | [] => [[c]]
      | seg :: segs => if Byte.eqb c b then [] :: seg :: segs else (c :: seg) :: segs
      end
  end.

(** [str::split_once] and [str::rsplit_once] on one ASCII character. *)
Fixpoint split_once (b : byte) (s : list byte) : option (list byte * list byte) :=
  match s with
  | [] => None
  | c :: s =>
      if Byte.eqb c b then Some ([], s)
      else match split_once b s with Some (x, y) => Some (c :: x, y) | None => None end
  end.
Definition rsplit_once (b : byte) (s : list byte) : option (list byte * list byte) :=
  match split_once b (rev s) with Some (x, y) => Some (rev y, rev x) | None => None end.

(** [str::contains] of one ASCII character. *)
Definition contains_byte (b : byte) (s : list byte) : bool := existsb (Byte.eqb b) s.

(** [str::lines]: a line loses its newline and a carriage return before it; the
    empty text after the last newline is no line. *)
Definition strip_cr (line : list byte) : list byte :=
  match rev line with x0d :: l => rev l | _ => line end.
Definition lines (s : list byte) : list (list byte) :=
  let segs := split_byte x0a s in
  map strip_cr (removelast segs) ++ match List.last segs [] with [] => [] | l => [l] end.

(** [str::parse] to an unsigned integer type: digits after an optional plus. *)
Definition parse_unsigned (max : Z) (s : list byte) : option Z :=
  let ds := match s with x2b :: (_ :: _ as ds) => ds | _ => s end in
  if bool_decide (ds = []) || negb (forallb is_ascii_digit ds) then None
  else if dec_value ds <=? max then Some (dec_value ds) else None.

(** [u8::is_ascii_graphic], [is_ascii_alphanumeric] and [eq_ignore_ascii_case]. *)
Definition is_ascii_graphic (b : byte) : bool := in_range 33 126 b.
Definition is_ascii_alphanumeric (b : byte) : bool :=
  in_range 48 57 b || in_range 65 90 b || in_range 97 122 b.
Definition to_ascii_lowercase (b : byte) : byte := if in_range 65 90 b then as_u8 (u8 b + 32) else b.
Definition eq_ignore_ascii_case (a b : list byte) : bool :=
  bool_decide (map to_ascii_lowercase a = map to_ascii_lowercase b).

Example lines_ex : lines [x61; x0d; x0a; x0a; x62; x0d] = [[x61]; []; [x62; x0d]].
Proof. reflexivity. Qed.
Example rsplit_once_ex : rsplit_once x3a [x61; x3a; x62; x3a; x63] = Some ([x61; x3a; x62], [x63]).
Proof. reflexivity. Qed.
