(* ===== verification/Bits.v ===== *)
(** * Bits of a byte

    [u8::count_ones] and the bit of a piece inside its byte, as the bitfields of
    [peer.rs] and [storage/resume.rs] use them.  The facts about one byte are
    checked on all 256 of them. *)

From S2P Require Import Prelude.

(** [u8::count_ones]. *)
Fixpoint ones_upto (n : nat) (x : Z) : Z :=
  match n with O => 0 | S n => (if Z.testbit x (Z.of_nat n) then 1 else 0) + ones_upto n x end.
Definition count_ones (x : Z) : Z := ones_upto 8 x.

(** The bit of piece [i] in its byte. *)
Definition piece_bit (b : byte) (i : Z) : bool :=
  negb (Z.land (u8 b) (Z.shiftr 128 (i mod 8)) =? 0).

Definition small_ints : list Z := [0; 1; 2; 3; 4; 5; 6; 7].
Lemma mod8_small i : i mod 8 ∈ small_ints.
Proof.
  pose proof (Z.mod_pos_bound i 8 ltac:(lia)). unfold small_ints.
  assert (i mod 8 = 0 \/ i mod 8 = 1 \/ i mod 8 = 2 \/ i mod 8 = 3 \/ i mod 8 = 4 \/ i mod 8 = 5 \/
    i mod 8 = 6 \/ i mod 8 = 7) by lia. set_solver.
Qed.

Definition all_bytes : list byte :=
  map (fun n => as_u8 (Z.of_nat n)) (seq 0 256).
Lemma all_bytes_in b : In b all_bytes.
Proof.
  unfold all_bytes. apply in_map_iff. exists (Z.to_nat (u8 b)).
  pose proof (u8_range b) as [H1 H2]. split.
  - rewrite Z2Nat.id by lia. apply as_u8_u8.
  - apply in_seq. lia.
Qed.

(** Facts about one byte, checked on all of them. *)
Lemma byte_check (P : byte -> bool) : forallb P all_bytes = true -> forall b, P b = true.
Proof. intros H b. rewrite forallb_forall in H. apply H, all_bytes_in. Qed.

Lemma piece_bit_set b i j :
  piece_bit (as_u8 (Z.lor (u8 b) (Z.shiftr 128 (i mod 8)))) j
  = piece_bit b j || (i mod 8 =? j mod 8).
Proof.
  pose proof (mod8_small i) as Hi. pose proof (mod8_small j) as Hj. unfold piece_bit.
  revert Hi Hj. generalize (i mod 8) as x, (j mod 8) as y. clear i j. intros x y Hx Hy.
  apply list_elem_of_In in Hx, Hy.
  assert (Hc : forallb (fun b => forallb (fun x => forallb (fun y =>
    Bool.eqb (negb (Z.land (u8 (as_u8 (Z.lor (u8 b) (Z.shiftr 128 x)))) (Z.shiftr 128 y) =? 0))
      (negb (Z.land (u8 b) (Z.shiftr 128 y) =? 0) || (x =? y))) small_ints) small_ints)
    all_bytes = true) by (vm_compute; reflexivity).
  pose proof (byte_check _ Hc b) as Hb. cbn beta in Hb.
  rewrite forallb_forall in Hb. specialize (Hb x Hx). rewrite forallb_forall in Hb.
  specialize (Hb y Hy). by apply Bool.eqb_prop.
Qed.

Definition bit_value (b : byte) (i : Z) : Z := if piece_bit b i then 1 else 0.

Lemma count_ones_bits b : count_ones (u8 b) = zsum (bit_value b) (seqZ 0 8).
Proof.
  assert (Hc : forallb (fun b => count_ones (u8 b) =? zsum (bit_value b) (seqZ 0 8)) all_bytes = true)
    by (vm_compute; reflexivity).
  pose proof (byte_check _ Hc b) as H. by apply Z.eqb_eq in H.
Qed.

Lemma count_ones_masked b r :
  0 < r < 8 ->
  count_ones (Z.land (u8 b) (wrap 8 (Z.shiftl 255 (8 - r)))) = zsum (bit_value b) (seqZ 0 r).
Proof.
  intros Hr. assert (Hin : In r [1; 2; 3; 4; 5; 6; 7]).
  { assert (r = 1 \/ r = 2 \/ r = 3 \/ r = 4 \/ r = 5 \/ r = 6 \/ r = 7) by lia. cbn. intuition. }
  assert (Hc : forallb (fun b => forallb (fun r =>
    count_ones (Z.land (u8 b) (wrap 8 (Z.shiftl 255 (8 - r)))) =? zsum (bit_value b) (seqZ 0 r))
    [1; 2; 3; 4; 5; 6; 7]) all_bytes = true) by (vm_compute; reflexivity).
  pose proof (byte_check _ Hc b) as H. cbn beta in H. rewrite forallb_forall in H.
  specialize (H r Hin). by apply Z.eqb_eq in H.
Qed.

(** A piece of a bitfield in [resume.rs]: bit [7 - i % 8], set and cleared by
    shifting a one. *)
Lemma shift_bit i : Z.shiftl 1 (7 - i mod 8) = Z.shiftr 128 (i mod 8).
Proof.
  pose proof (mod8_small i) as Hi. revert Hi. generalize (i mod 8) as x. intros x Hx.
  unfold small_ints in Hx. repeat (apply elem_of_cons in Hx as [->|Hx]; [done|]). by apply elem_of_nil in Hx.
Qed.

Lemma piece_bit_clear b i j :
  piece_bit (as_u8 (Z.land (u8 b) (255 - Z.shiftr 128 (i mod 8)))) j
  = piece_bit b j && negb (i mod 8 =? j mod 8).
Proof.
  pose proof (mod8_small i) as Hi. pose proof (mod8_small j) as Hj. unfold piece_bit.
  revert Hi Hj. generalize (i mod 8) as x, (j mod 8) as y. clear i j. intros x y Hx Hy.
  apply list_elem_of_In in Hx, Hy.
  assert (Hc : forallb (fun b => forallb (fun x => forallb (fun y =>
    Bool.eqb (negb (Z.land (u8 (as_u8 (Z.land (u8 b) (255 - Z.shiftr 128 x)))) (Z.shiftr 128 y) =? 0))
      (negb (Z.land (u8 b) (Z.shiftr 128 y) =? 0) && negb (x =? y))) small_ints) small_ints)
    all_bytes = true) by (vm_compute; reflexivity).
  pose proof (byte_check _ Hc b) as Hb. cbn beta in Hb.
  rewrite forallb_forall in Hb. specialize (Hb x Hx). rewrite forallb_forall in Hb.
  specialize (Hb y Hy). by apply Bool.eqb_prop.
Qed.
