(* ===== verification/Hash.v ===== *)
(** * Identities: [crates/swarmotter-core/src/hash.rs]

    v1 and v2 info hashes, the peer-wire hash, torrent keys and torrent
    identities.  SHA-1, SHA-256 and hexadecimal text come from the crates sha1,
    sha2 and hex: they are interfaces here ([Digests], [HexCodec]), the first
    with the digest sizes in its types, the second with the laws of the crate's
    documentation.  Base32 is the program's own. *)

From S2P Require Import Prelude Text.

Local Open Scope byte_scope.
Local Open Scope Z_scope.

(** ** Byte arrays [[u8; n]] *)

Record array (n : nat) : Type := mkArray {
  as_bytes : list byte;
  as_bytes_length : bool_decide (length as_bytes = n) }.
Arguments mkArray {n}.
Arguments as_bytes {n}.
Arguments as_bytes_length {n}.

(** [copy_from_slice] into a fresh array: panics on a slice of another length. *)
Definition copy_from_slice (n : nat) (s : list byte) : outcome (array n) :=
  match decide (length s = n) with
  | left H => Ok (mkArray s (bool_decide_pack _ H))
  | right _ => Panic
  end.

Lemma array_eq {n} (a b : array n) : as_bytes a = as_bytes b -> a = b.
Proof.
  destruct a as [x Hx], b as [y Hy]. cbn. intros <-. f_equal. apply proof_irrel.
Qed.

#[export] Instance array_eq_dec n : EqDecision (array n).
Proof.
  intros a b. destruct (decide (as_bytes a = as_bytes b)) as [E|E].
  - left. by apply array_eq.
  - right. by intros ->.
Defined.

Lemma array_length {n} (a : array n) : length (as_bytes a) = n.
Proof. destruct a as [x Hx]. cbn. by apply bool_decide_unpack in Hx. Qed.

Lemma array_len {n} (a : array n) : len (as_bytes a) = Z.of_nat n.
Proof. unfold len. by rewrite array_length. Qed.

Lemma copy_from_slice_Ok n s a : copy_from_slice n s = Ok a <-> as_bytes a = s.
Proof.
  unfold copy_from_slice. destruct (decide (length s = n)) as [H|H].
  - split; [by intros [= <-]|]. intros <-. f_equal. by apply array_eq.
  - split; [done|]. intros <-. by rewrite array_length in H.
Qed.

Lemma copy_from_slice_total n s : length s = n -> exists a, copy_from_slice n s = Ok a /\ as_bytes a = s.
Proof.
  intros H. destruct (copy_from_slice n s) as [a| | |] eqn:E.
  - exists a. split; [done|]. by apply copy_from_slice_Ok in E.
  - unfold copy_from_slice in E. by destruct (decide _).
  - unfold copy_from_slice in E. by destruct (decide _).
  - unfold copy_from_slice in E. by destruct (decide _).
Qed.

Lemma array_bytes {n} (a : array n) : copy_from_slice n (as_bytes a) = Ok a.
Proof. by apply copy_from_slice_Ok. Qed.

#[export] Instance array_countable n : Countable (array n).
Proof.
  refine (inj_countable as_bytes
    (fun s => match copy_from_slice n s with Ok a => Some a | _ => None end) _).
  intros a. by rewrite array_bytes.
Defined.

Definition zero_array (n : nat) : array n :=
  mkArray (replicate n x00) (bool_decide_pack _ (length_replicate n x00)).

(** ** The crates *)

Class Digests := {
  sha1 : list byte -> array 20;
  sha256 : list byte -> array 32 }.

(** [hex::encode] and [hex::decode]. *)
Class HexCodec := {
  hex_encode : list byte -> list byte;
  hex_decode : list byte -> option (list byte);
  hex_encode_len : forall b, len (hex_encode b) = 2 * len b;
  hex_decode_encode : forall b, hex_decode (hex_encode b) = Some b;
  hex_decode_len : forall s b, hex_decode s = Some b -> len s = 2 * len b }.

(** ** v1 hashes *)

Definition InfoHash : Type := array 20.
Definition V2InfoHash : Type := array 32.
#[export] Instance InfoHash_eq_dec : EqDecision InfoHash := array_eq_dec 20.
#[export] Instance InfoHash_countable : Countable InfoHash := array_countable 20.
#[export] Instance V2InfoHash_eq_dec : EqDecision V2InfoHash := array_eq_dec 32.
#[export] Instance V2InfoHash_countable : Countable V2InfoHash := array_countable 32.

(** [InfoHash::ZERO], [V2InfoHash::ZERO]. *)
Definition ZERO : InfoHash := zero_array 20.
Definition V2_ZERO : V2InfoHash := zero_array 32.

(** ** Base32 *)

Definition is_ascii_uppercase (b : byte) : bool := (65 <=? u8 b) && (u8 b <=? 90).
Definition is_ascii_lowercase (b : byte) : bool := (97 <=? u8 b) && (u8 b <=? 122).

Definition base32_val (c : byte) : option Z :=
  if is_ascii_uppercase c then Some (u8 c - 65)
  else if is_ascii_lowercase c then Some (u8 c - 97)
  else if (50 <=? u8 c) && (u8 c <=? 55) then Some (26 + (u8 c - 50))
  else None.

(** The loop of [base32_decode]: the output so far, [buffer : u64], [bits : u32]. *)
Fixpoint base32_loop (s out : list byte) (buffer bits : Z) : outcome (list byte) :=
  match s with
  | [] => Ok out
  | c :: s =>
      val ← ok_or (base32_val c) (InvalidInfoHash "invalid base32 char");
      let buffer := Z.lor (wrap 64 (Z.shiftl buffer 5)) val in
      let bits := bits + 5 in
      if 8 <=? bits then
        let bits := bits - 8 in
        base32_loop s (out ++ [as_u8 (Z.shiftr buffer bits)])
          (Z.land buffer (Z.shiftl 1 bits - 1)) bits
      else base32_loop s out buffer bits
  end.
Definition base32_decode (s : list byte) : outcome (list byte) := base32_loop s [] 0 0.

Definition from_base32 (s : list byte) : outcome InfoHash :=
  let s := trim s in
  _ ← fail_if (negb (len s =? 32)) (InvalidInfoHash "expected 32 base32 chars");
  bytes ← base32_decode s;
  copy_from_slice 20 bytes.

(** ** Hexadecimal forms *)

Section codecs.
Context {D : Digests} {X : HexCodec}.

(** [InfoHash::from_info_bencoded], [V2InfoHash::from_info_bencoded]. *)
Definition from_info_bencoded (info_bytes : list byte) : InfoHash := sha1 info_bytes.
Definition v2_from_info_bencoded (info_bytes : list byte) : V2InfoHash := sha256 info_bytes.

Definition to_hex {n} (h : array n) : list byte := hex_encode (as_bytes h).

Definition from_hex (s : list byte) : outcome InfoHash :=
  _ ← fail_if (negb (len s =? 40)) (InvalidInfoHash "expected 40 hex chars");
  bytes ← ok_or (hex_decode s) (InvalidInfoHash "invalid hex");
  copy_from_slice 20 bytes.

Definition v2_from_hex (s : list byte) : outcome V2InfoHash :=
  _ ← fail_if (negb (len s =? 64)) (InvalidInfoHash "expected 64 hex chars for a v2 info hash");
  bytes ← ok_or (hex_decode s) (InvalidInfoHash "invalid hex");
  copy_from_slice 32 bytes.

Definition from_magnet_multihash (s : list byte) : outcome V2InfoHash :=
  match strip_prefix (bytes_of "1220") s with
  | None => Err (InvalidInfoHash "v2 magnet multihash must begin with SHA2-256 tag '1220'")
  | Some digest => v2_from_hex digest
  end.
Definition to_magnet_multihash (h : V2InfoHash) : list byte := bytes_of "1220" ++ to_hex h.

(** The serde helpers [hex_serde] and [hex_serde_32] on the string they read;
    [None] is the deserializer's error. *)
Definition hex_serde_serialize {n} (h : array n) : list byte := hex_encode (as_bytes h).
Definition hex_serde_deserialize (n : nat) (s : list byte) : outcome (option (array n)) :=
  if negb (len s =? 2 * Z.of_nat n) then Ok None
  else match hex_decode s with
       | None => Ok None
       | Some bytes => a ← copy_from_slice n bytes; Ok (Some a)
       end.

(** ** Peer-wire hashes *)

Record PeerInfoHash : Type := mkPeerInfoHash { wire_hash : array 20 }.

Definition from_v1 (info_hash : InfoHash) : PeerInfoHash := mkPeerInfoHash info_hash.
(** [V2InfoHash::peer_info_hash], [PeerInfoHash::from_v2]. *)
Definition peer_info_hash (h : V2InfoHash) : outcome PeerInfoHash :=
  s ← slice (as_bytes h) 0 20;
  a ← copy_from_slice 20 s;
  Ok (mkPeerInfoHash a).

(** ** Torrent keys *)

Inductive TorrentKey : Type :=
  | KeyV1 (hash : InfoHash)
  | KeyV2 (hash : V2InfoHash).

Definition from_locator (value : list byte) : outcome TorrentKey :=
  if len value =? 40 then KeyV1 <$> from_hex value
  else if len value =? 64 then KeyV2 <$> v2_from_hex value
  else Err (InvalidInfoHash "torrent key must contain 40 (v1) or 64 (v2) hexadecimal characters").

Definition to_locator (k : TorrentKey) : list byte :=
  match k with KeyV1 hash => to_hex hash | KeyV2 hash => to_hex hash end.

Definition as_v1 (k : TorrentKey) : option InfoHash :=
  match k with KeyV1 hash => Some hash | KeyV2 _ => None end.
Definition as_v2 (k : TorrentKey) : option V2InfoHash :=
  match k with KeyV1 _ => None | KeyV2 hash => Some hash end.

Definition key_peer_info_hash (k : TorrentKey) : outcome PeerInfoHash :=
  match k with KeyV1 hash => Ok (from_v1 hash) | KeyV2 hash => peer_info_hash hash end.

(** ** Torrent identities *)

Inductive TorrentIdentity : Type :=
  | Unknown
  | V1 (v1 : InfoHash)
  | V2 (v2 : V2InfoHash)
  | Hybrid (v1 : InfoHash) (v2 : V2InfoHash).

Definition primary_key (i : TorrentIdentity) : option TorrentKey :=
  match i with
  | V1 v1 | Hybrid v1 _ => Some (KeyV1 v1)
  | V2 v2 => Some (KeyV2 v2)
  | Unknown => None
  end.

Definition keys (i : TorrentIdentity) : list TorrentKey :=
  match i with
  | Unknown => []
  | V1 v1 => [KeyV1 v1]
  | V2 v2 => [KeyV2 v2]
  | Hybrid v1 v2 => [KeyV1 v1; KeyV2 v2]
  end.

Definition v1_info_hash (i : TorrentIdentity) : option InfoHash :=
  match i with V1 v1 | Hybrid v1 _ => Some v1 | Unknown | V2 _ => None end.
Definition v2_info_hash (i : TorrentIdentity) : option V2InfoHash :=
  match i with V2 v2 | Hybrid _ v2 => Some v2 | Unknown | V1 _ => None end.

Definition supports_v1_data_plane (i : TorrentIdentity) : bool :=
  bool_decide (is_Some (v1_info_hash i)).

Definition v1_peer_info_hash (i : TorrentIdentity) : option PeerInfoHash :=
  match v1_info_hash i with Some v1 => Some (from_v1 v1) | None => None end.
Definition v2_peer_info_hash (i : TorrentIdentity) : outcome (option PeerInfoHash) :=
  match v2_info_hash i with
  | Some v2 => h ← peer_info_hash v2; Ok (Some h)
  | None => Ok None
  end.

Definition matches_info_bencoded (i : TorrentIdentity) (info_bytes : list byte) : bool :=
  match i with
  | Unknown => false
  | V1 v1 => bool_decide (v1 = from_info_bencoded info_bytes)
  | V2 v2 => bool_decide (v2 = v2_from_info_bencoded info_bytes)
  | Hybrid v1 v2 =>
      bool_decide (v1 = from_info_bencoded info_bytes)
      && bool_decide (v2 = v2_from_info_bencoded info_bytes)
  end.
End codecs.

#[export] Instance TorrentKey_eq_dec : EqDecision TorrentKey.
Proof. solve_decision. Defined.
#[export] Instance TorrentKey_countable : Countable TorrentKey.
Proof.
  refine (inj_countable'
    (fun k => match k with KeyV1 h => inl h | KeyV2 h => inr h end)
    (fun s => match s with inl h => KeyV1 h | inr h => KeyV2 h end) _).
  by intros [].
Defined.
#[export] Instance TorrentIdentity_eq_dec : EqDecision TorrentIdentity.
Proof. solve_decision. Defined.

(** ** Base32: the bytes of the number its digits denote *)

Definition base32_value (vs : list Z) : Z := foldl (fun acc v => acc * 32 + v) 0 vs.

Lemma of_be_snoc out b : of_be (out ++ [b]) = of_be out * 2 ^ 8 + u8 b.
Proof.
  unfold of_be. rewrite rev_unit. cbn [of_le]. rewrite Z.shiftl_mul_pow2 by lia. lia.
Qed.

Lemma of_be_cons b bs : of_be (b :: bs) = u8 b * 2 ^ (8 * len bs) + of_be bs.
Proof.
  induction bs as [|c bs IH] using rev_ind; [change (of_be [b]) with (of_be ([] ++ [b])); rewrite (of_be_snoc [] b); change (len []) with 0; change (of_be []) with 0; lia|].
  rewrite app_comm_cons, !of_be_snoc, IH, len_app. change (len [c]) with 1.
  replace (8 * (len bs + 1)) with (8 * len bs + 8) by lia. pose proof (len_nonneg bs).
  rewrite Z.pow_add_r by lia. lia.
Qed.

Lemma of_be_bound bs : 0 <= of_be bs < 2 ^ (8 * len bs).
Proof. apply of_be_range. Qed.

Lemma of_be_app a b : of_be (a ++ b) = of_be a * 2 ^ (8 * len b) + of_be b.
Proof.
  induction a as [|x a IH]; [by cbn [app]; change (of_be []) with 0|].
  cbn [app]. rewrite !of_be_cons, IH, len_app. pose proof (len_nonneg a). pose proof (len_nonneg b).
  replace (8 * (len a + len b)) with (8 * len a + 8 * len b) by lia. rewrite Z.pow_add_r by lia. lia.
Qed.

Lemma base32_val_range c v : base32_val c = Some v -> 0 <= v < 32.
Proof.
  unfold base32_val, is_ascii_uppercase, is_ascii_lowercase. intros H.
  repeat case_match; simplify_eq; lia.
Qed.

Lemma lor_disjoint a b k : 0 <= k -> 0 <= b < 2 ^ k -> Z.lor (a * 2 ^ k) b = a * 2 ^ k + b.
Proof.
  intros Hk Hb. assert (Z.land (a * 2 ^ k) b = 0) as E.
  { apply Z.bits_inj'. intros n Hn. rewrite Z.land_spec, Z.bits_0.
    destruct (Z.ltb_spec n k).
    - rewrite Z.mul_pow2_bits_low by lia. done.
    - rewrite <- (Z.mod_small b (2 ^ k)), Z.mod_pow2_bits_high by lia. apply andb_false_r. }
  by rewrite <- Z.lxor_lor, <- Z.add_nocarry_lxor.
Qed.

(** Appending five bits to a buffer of fewer than eight. *)
Lemma base32_push buffer bits v :
  0 <= bits < 8 -> 0 <= buffer < 2 ^ bits -> 0 <= v < 32 ->
  Z.lor (wrap 64 (Z.shiftl buffer 5)) v = buffer * 32 + v.
Proof.
  intros Hb Hbuf Hv. assert (2 ^ bits <= 2 ^ 7) by (apply Z.pow_le_mono_r; lia).
  rewrite Z.shiftl_mul_pow2 by lia.
  rewrite wrap_small by (unfold in_width; lia).
  exact (lor_disjoint buffer v 5 ltac:(lia) Hv).
Qed.

(** The byte that is cut off a buffer of eight or more bits, and what is left. *)
Lemma base32_cut buffer bits :
  0 <= bits < 8 -> 0 <= buffer < 2 ^ (8 + bits) ->
  u8 (as_u8 (Z.shiftr buffer bits)) = buffer / 2 ^ bits
  /\ Z.land buffer (Z.shiftl 1 bits - 1) = buffer mod 2 ^ bits.
Proof.
  intros Hb Hbuf. rewrite Z.pow_add_r in Hbuf by lia. split.
  - rewrite u8_as_u8, Z.shiftr_div_pow2 by lia. apply wrap_small. split.
    + apply Z.div_pos; lia.
    + apply Z.div_lt_upper_bound; lia.
  - replace (Z.shiftl 1 bits - 1) with (Z.ones bits) by (unfold Z.ones; lia).
    apply Z.land_ones. lia.
Qed.

Lemma base32_loop_spec s : forall out buffer bits,
  0 <= bits < 8 -> 0 <= buffer < 2 ^ bits ->
  match mapM base32_val s with
  | None => base32_loop s out buffer bits = Err (InvalidInfoHash "invalid base32 char")
  | Some vs => exists out' buffer' bits', base32_loop s out buffer bits = Ok out' /\
      0 <= bits' < 8 /\ 0 <= buffer' < 2 ^ bits' /\
      8 * len out' + bits' = 8 * len out + bits + 5 * len s /\
      of_be out' * 2 ^ bits' + buffer'
        = foldl (fun acc v => acc * 32 + v) (of_be out * 2 ^ bits + buffer) vs
  end.
Proof.
  induction s as [|c s IH]; intros out buffer bits Hb Hbuf.
  { exists out, buffer, bits. unfold len. cbn. repeat split; lia. }
  cbn [mapM base32_loop]. destruct (base32_val c) as [v|] eqn:Ev; [|done].
  cbn [ok_or]. ok_simpl. pose proof (base32_val_range c v Ev) as Hv.
  rewrite (base32_push buffer bits v) by done.
  set (x := buffer * 32 + v). rewrite len_cons.
  assert (of_be out * 2 ^ (bits + 5) + x = (of_be out * 2 ^ bits + buffer) * 32 + v) as Ex.
  { unfold x. rewrite Z.pow_add_r by lia. change (2 ^ 5) with 32. lia. }
  assert (0 <= x < 2 ^ (bits + 5)) as Hx.
  { unfold x. rewrite Z.pow_add_r by lia. change (2 ^ 5) with 32. lia. }
  destruct (Z.leb_spec 8 (bits + 5)) as [H8|H8].
  - set (b := bits + 5 - 8).
    replace (bits + 5) with (8 + b) in Ex, Hx by (unfold b; lia).
    destruct (base32_cut x b ltac:(unfold b; lia) Hx) as [Ecut ->].
    assert (0 < 2 ^ b) as Hp by (apply Z.pow_pos_nonneg; unfold b; lia).
    specialize (IH (out ++ [as_u8 (Z.shiftr x b)]) (x mod 2 ^ b) b ltac:(unfold b; lia)
                  (Z.mod_pos_bound _ _ Hp)).
    destruct (mapM base32_val s) as [vs|]; cbn [mbind option_bind mret option_ret]; [|exact IH].
    destruct IH as (o & u & n & E & Hn & Hu & Hlen & Hval).
    exists o, u, n. split; [exact E|]. split; [done|]. split; [done|]. split.
    + rewrite Hlen, len_app, len_cons, len_nil. unfold b. lia.
    + rewrite Hval. cbn [foldl]. f_equal. rewrite <- Ex, of_be_snoc, Ecut.
      rewrite Z.pow_add_r by (unfold b; lia).
      pose proof (Z.div_mod x (2 ^ b) ltac:(lia)). lia.
  - specialize (IH out x (bits + 5) ltac:(lia) Hx).
    destruct (mapM base32_val s) as [vs|]; cbn [mbind option_bind mret option_ret]; [|exact IH].
    destruct IH as (o & u & n & E & Hn & Hu & Hlen & Hval).
    exists o, u, n. split; [exact E|]. split; [done|]. split; [done|].
    split; [lia|]. rewrite Hval. cbn [foldl]. by rewrite Ex.
Qed.

(** [from_base32] reads exactly the thirty-two digit texts, and the hash it
    returns is the twenty bytes of the number the digits denote; every other text
    is an error, never a panic. *)
Theorem from_base32_exact s :
  returns (from_base32 s) /\
  forall h, from_base32 s = Ok h <->
    len (trim s) = 32 /\
    exists vs, mapM base32_val (trim s) = Some vs /\ of_be (as_bytes h) = base32_value vs.
Proof.
  unfold from_base32. set (t := trim s).
  destruct (Z.eqb_spec (len t) 32) as [Hl|Hl]; cbn [negb fail_if]; ok_simpl.
  2: { split; [done|]. intros h. split; [done|lia]. }
  pose proof (base32_loop_spec t [] 0 0 ltac:(lia) ltac:(lia)) as H.
  unfold base32_decode. destruct (mapM base32_val t) as [vs|] eqn:Et.
  2: { rewrite H. split; [done|]. intros h. split; [done|]. intros (_ & vs & [=] & _). }
  destruct H as (o & u & n & -> & Hn & Hu & Hlen & Hval). ok_simpl.
  rewrite Hl in Hlen. change (len []) with 0 in Hlen. pose proof (len_nonneg o).
  assert (n = 0) as -> by lia.
  assert (length o = 20%nat) as Ho by (unfold len in Hlen; lia).
  destruct (copy_from_slice_total 20 o Ho) as (a & Ea & Eb). rewrite Ea.
  assert (of_be o = base32_value vs) as Hv.
  { unfold base32_value. change (2 ^ 0) with 1 in *. change (of_be []) with 0 in Hval.
    rewrite Z.mul_1_r in Hval. change (0 * 1 + 0) with 0 in Hval. lia. }
  split; [done|]. intros h. split.
  - intros [= <-]. split; [done|]. exists vs. by rewrite Eb.
  - intros (_ & vs' & [= <-] & Hh). f_equal. apply array_eq. rewrite Eb.
    apply (f_equal (to_be 20)) in Hh. rewrite <- Hv in Hh.
    by rewrite !to_be_of_be in Hh by (done || apply array_length).
Qed.

(** ** Locators *)

Section codec_laws.
Context {D : Digests} {X : HexCodec}.

Lemma hex_array_Ok (n : nat) s :
  len s = 2 * Z.of_nat n -> returns (b ← ok_or (hex_decode s) (InvalidInfoHash "invalid hex"); copy_from_slice n b).
Proof.
  intros Hl. destruct (hex_decode s) as [b|] eqn:E; [|done]. cbn [ok_or]. ok_simpl.
  apply hex_decode_len in E. destruct (copy_from_slice_total n b) as (a & -> & _); [|done].
  unfold len in *. lia.
Qed.

Lemma len_to_hex {n} (h : array n) : len (to_hex h) = 2 * Z.of_nat n.
Proof. unfold to_hex. by rewrite hex_encode_len, array_len. Qed.

Lemma from_hex_to_hex (h : InfoHash) : from_hex (to_hex h) = Ok h.
Proof.
  unfold from_hex. rewrite len_to_hex. cbn [Z.of_nat Z.eqb negb fail_if].
  unfold to_hex. rewrite hex_decode_encode. cbn. apply array_bytes.
Qed.

Lemma v2_from_hex_to_hex (h : V2InfoHash) : v2_from_hex (to_hex h) = Ok h.
Proof.
  unfold v2_from_hex. rewrite len_to_hex. cbn [Z.of_nat Z.eqb negb fail_if].
  unfold to_hex. rewrite hex_decode_encode. cbn. apply array_bytes.
Qed.

Lemma from_hex_returns s : returns (from_hex s) /\ returns (v2_from_hex s).
Proof.
  unfold from_hex, v2_from_hex. split.
  - destruct (Z.eqb_spec (len s) 40); [|done]. by apply hex_array_Ok.
  - destruct (Z.eqb_spec (len s) 64); [|done]. by apply hex_array_Ok.
Qed.

Lemma peer_info_hash_total h :
  exists w, peer_info_hash h = Ok (mkPeerInfoHash w) /\ as_bytes w = take 20 (as_bytes h).
Proof.
  unfold peer_info_hash. pose proof (array_len h) as Hl.
  rewrite slice_rest by lia. ok_simpl. rewrite rest_0.
  destruct (copy_from_slice_total 20 (take (Z.to_nat (20 - 0)) (as_bytes h))) as (a & -> & E).
  { rewrite length_take, array_length. done. }
  by exists a.
Qed.

(** Locator texts: reading back what [to_locator] wrote gives the key, no two
    keys share a text, reading always returns, and what it accepts is text of one
    of the two lengths; the magnet multihash round-trips; the peer-wire hash of a
    v2 key is the first twenty bytes of the full hash. *)
Theorem locator_roundtrip (k : TorrentKey) (s : list byte) (h : V2InfoHash) :
  from_locator (to_locator k) = Ok k
  /\ (forall k', to_locator k = to_locator k' -> k = k')
  /\ returns (from_locator s)
  /\ (forall k', from_locator s = Ok k' -> len s = len (to_locator k'))
  /\ from_magnet_multihash (to_magnet_multihash h) = Ok h
  /\ exists w, peer_info_hash h = Ok (mkPeerInfoHash w) /\ as_bytes w = take 20 (as_bytes h).
Proof.
  assert (forall k, from_locator (to_locator k) = Ok k) as Hrt.
  { intros []; unfold from_locator; cbn [to_locator]; rewrite len_to_hex; cbn [Z.of_nat Z.eqb];
      [by rewrite from_hex_to_hex|]. simpl. by rewrite v2_from_hex_to_hex. }
  destruct (from_hex_returns s) as [H1 H2].
  split; [done|]. split.
  { intros k' E. apply (f_equal from_locator) in E. rewrite !Hrt in E. by injection E. }
  split.
  { unfold from_locator. destruct (len s =? 40); [by destruct (from_hex s)|].
    destruct (len s =? 64); [by destruct (v2_from_hex s)|done]. }
  split.
  { intros k'. unfold from_locator.
    destruct (Z.eqb_spec (len s) 40) as [->|_].
    { destruct (from_hex s); [|done..]. intros [= <-]. cbn [to_locator]. by rewrite len_to_hex. }
    destruct (Z.eqb_spec (len s) 64) as [->|_]; [|done].
    destruct (v2_from_hex s); [|done..]. intros [= <-]. cbn [to_locator]. by rewrite len_to_hex. }
  split; [|apply peer_info_hash_total].
  unfold from_magnet_multihash, to_magnet_multihash. cbn. apply v2_from_hex_to_hex.
Qed.
End codec_laws.

(** ** Instances

    Concrete digests and the hexadecimal codec, to evaluate the definitions on
    examples: the digests truncate or pad the message. *)

Definition pad_array (n : nat) (m : list byte) : array n :=
  mkArray (resize n x00 m) (bool_decide_pack _ (length_resize m n x00)).

Definition toy_digests : Digests := {| sha1 := pad_array 20; sha256 := pad_array 32 |}.

Definition nibble (d : Z) : byte := if d <? 10 then as_u8 (48 + d) else as_u8 (87 + d).
Definition nibble_value (c : byte) : option Z :=
  if is_ascii_digit c then Some (u8 c - 48)
  else if (97 <=? u8 c) && (u8 c <=? 102) then Some (u8 c - 87)
  else if (65 <=? u8 c) && (u8 c <=? 70) then Some (u8 c - 55)
  else None.

Definition encode_hex (b : list byte) : list byte :=
  concat (map (fun x => [nibble (u8 x / 16); nibble (u8 x mod 16)]) b).
Fixpoint decode_hex (s : list byte) : option (list byte) :=
  match s with
  | [] => Some []
  | [_] => None
  | h :: l :: s =>
      match nibble_value h, nibble_value l, decode_hex s with
      | Some h, Some l, Some b => Some (as_u8 (16 * h + l) :: b)
      | _, _, _ => None
      end
  end.

Lemma nibble_value_nibble d : 0 <= d < 16 -> nibble_value (nibble d) = Some d.
Proof.
  intros Hd.
  assert (Forall (fun d => nibble_value (nibble d) = Some d) (seqZ 0 16)) as H
    by (apply (bool_decide_unpack _); by vm_compute).
  rewrite Forall_forall in H. apply H, elem_of_seqZ. lia.
Qed.

Lemma decode_encode_hex b : decode_hex (encode_hex b) = Some b.
Proof.
  induction b as [|x b IH]; [done|]. unfold encode_hex in *. cbn [map concat app decode_hex].
  pose proof (u8_range x) as [??].
  assert (0 <= u8 x / 16 < 16) by (split; [apply Z.div_pos; lia|apply Z.div_lt_upper_bound; lia]).
  pose proof (Z.mod_pos_bound (u8 x) 16). rewrite !nibble_value_nibble by lia.
  rewrite IH. do 2 f_equal. rewrite <- (as_u8_u8 x) at 3. f_equal.
  pose proof (Z.div_mod (u8 x) 16). lia.
Qed.

Lemma len_encode_hex b : len (encode_hex b) = 2 * len b.
Proof.
  induction b as [|x b IH]; [done|]. unfold encode_hex in *. cbn [map concat].
  rewrite len_app, IH, !len_cons. change (len (@nil byte)) with 0. lia.
Qed.

Lemma decode_hex_len s b : decode_hex s = Some b -> len s = 2 * len b.
Proof.
  assert (forall n s b, (length s <= n)%nat -> decode_hex s = Some b -> len s = 2 * len b) as H; [|by eapply H].
  clear. induction n as [|n IH]; intros [|h [|l s]] b Hn; cbn [decode_hex]; try (by intros [= <-]);
    try (cbn in Hn; lia); try done.
  destruct (nibble_value h), (nibble_value l), (decode_hex s) as [b'|] eqn:E; try done.
  intros [= <-]. rewrite !len_cons, (IH s b'); [lia|cbn in Hn; lia|done].
Qed.

Definition plain_hex : HexCodec := {|
  hex_encode := encode_hex; hex_decode := decode_hex; hex_encode_len := len_encode_hex;
  hex_decode_encode := decode_encode_hex; hex_decode_len := decode_hex_len |}.

Example locator_ex :
  from_locator (X := plain_hex) (bytes_of "aBcDeF0123456789aBcDeF0123456789aBcDeF01")
  = Ok (KeyV1 (@sha1 toy_digests (map as_u8 [0xab; 0xcd; 0xef; 1; 0x23; 0x45; 0x67; 0x89; 0xab; 0xcd;
      0xef; 1; 0x23; 0x45; 0x67; 0x89; 0xab; 0xcd; 0xef; 1]))).
Proof. vm_compute. f_equal. f_equal. by apply array_eq. Qed.
Example base32_ex : is_ok (from_base32 (bytes_of "mfrggzdfmztwq2lknnwg23tpobyxe43u")) = true.
Proof. reflexivity. Qed.
