(* ===== verification/Merkle.v ===== *)
(** * BEP 52 Merkle trees

    The SHA-256 trees of [crates/swarmotter-core/src/meta.rs] (piece layers) and
    [crates/swarmotter-core/src/v2.rs] (pieces and files), over the digests of
    [Hash].  The reference is [root_of]: the root of a perfect tree, [d] rounds of
    hashing neighbours.  The theorems: the loops compute that root and return; the
    root of a file's piece layer is the root of the file; two texts with one root are
    equal, or two strings that are hashed at the same place on the way to the two roots
    differ and have one hash ([collides], a test on the two finite lists of strings). *)

From S2P Require Import Prelude Text Hash.

(** ** Arithmetic of the standard library *)

(** [u64::is_power_of_two]. *)
Definition is_power_of_two (x : Z) : bool := (0 <? x) && (x =? 2 ^ Z.log2 x).

(** [usize::checked_next_power_of_two]. *)
Definition checked_next_power_of_two (n : Z) : option Z :=
  let p := 2 ^ Z.log2_up n in if p <=? usize_max then Some p else None.

(** [u64::trailing_zeros]. *)
Fixpoint positive_trailing_zeros (p : positive) : Z :=
  match p with xO p => 1 + positive_trailing_zeros p | _ => 0 end.
Definition trailing_zeros (x : Z) : Z :=
  match x with Zpos p => positive_trailing_zeros p | _ => 64 end.

(** [slice::chunks(k)]: the last chunk may be shorter. *)
Fixpoint chunks_fuel {A} (fuel k : nat) (l : list A) : list (list A) :=
  match fuel, l with
  | O, _ | _, [] => []
  | S fuel, _ => take k l :: chunks_fuel fuel k (drop k l)
  end.
Definition chunks {A} (k : nat) (l : list A) : list (list A) := chunks_fuel (length l) k l.

(** [slice::as_chunks::<k>().0]: whole chunks only. *)
Fixpoint as_chunks_fuel {A} (fuel k : nat) (l : list A) : list (list A) :=
  match fuel with
  | O => []
  | S fuel => if (length l <? k)%nat then [] else take k l :: as_chunks_fuel fuel k (drop k l)
  end.
Definition as_chunks {A} (k : nat) (l : list A) : list (list A) := as_chunks_fuel (length l) k l.

(** ** The trees *)

Definition V2_BLOCK_LENGTH : Z := 16 * 1024.

Definition validate_v2_piece_length (piece_length : Z) : outcome () :=
  fail_if ((piece_length <? V2_BLOCK_LENGTH) || negb (is_power_of_two piece_length))
    (MalformedTorrent "BEP 52 piece length must be a power of two at least 16384").

Section merkle.
Context {D : Digests}.

(** [hash_v2_pair] of meta.rs and [v2_hash_pair] of v2.rs. *)
Definition hash_v2_pair (left right : V2InfoHash) : V2InfoHash :=
  sha256 (as_bytes left ++ as_bytes right).
Definition v2_hash_pair (left right : V2InfoHash) : V2InfoHash :=
  sha256 (as_bytes left ++ as_bytes right).
Definition v2_leaf_hash (data : list byte) : V2InfoHash := sha256 data.

(** One round: [as_chunks::<2>] mapped over the pair hash. *)
Fixpoint hash_level (pair : V2InfoHash -> V2InfoHash -> V2InfoHash) (level : list V2InfoHash)
  : list V2InfoHash :=
  match level with
  | a :: b :: level => pair a b :: hash_level pair level
  | _ => []
  end.

(** [while level.len() > 1 { level = ... }]. *)
Fixpoint hash_levels (fuel : nat) (pair : V2InfoHash -> V2InfoHash -> V2InfoHash)
    (level : list V2InfoHash) : outcome (list V2InfoHash) :=
  match fuel with
  | O => OutOfFuel
  | S fuel =>
      if 1 <? len level then hash_levels fuel pair (hash_level pair level) else Ok level
  end.

(** [for _ in 0..layer_depth { zero = hash_v2_pair(zero, zero); }]. *)
Definition zero_subtree (layer_depth : Z) : V2InfoHash :=
  Nat.iter (Z.to_nat layer_depth) (fun zero => hash_v2_pair zero zero) V2_ZERO.

Definition v2_piece_layer_root (hashes : list V2InfoHash) (piece_length : Z) : outcome V2InfoHash :=
  _ ← fail_if (len hashes =? 0)
        (MalformedTorrent "BEP 52 piece layer must contain at least one hash");
  _ ← validate_v2_piece_length piece_length;
  let layer_depth := trailing_zeros (piece_length / V2_BLOCK_LENGTH) in
  let zero := zero_subtree layer_depth in
  target_len ← ok_or (checked_next_power_of_two (len hashes))
    (MalformedTorrent "BEP 52 piece-layer width exceeds platform limits");
  level ← hash_levels (S (Z.to_nat target_len)) hash_v2_pair (resize (Z.to_nat target_len) zero hashes);
  index level 0.

Definition v2_piece_root (data : list byte) (piece_length : Z) : outcome V2InfoHash :=
  _ ← fail_if ((piece_length <? V2_BLOCK_LENGTH) || negb (is_power_of_two piece_length))
    (MalformedTorrent "BEP 52 piece length must be a power of two at least 16384");
  _ ← fail_if ((len data =? 0) || (piece_length <? len data))
    (MalformedTorrent "BEP 52 piece data length is outside 1..=piece_length");
  let leaves_per_piece := Z.to_nat (piece_length / V2_BLOCK_LENGTH) in
  let level := map v2_leaf_hash (chunks (Z.to_nat V2_BLOCK_LENGTH) data) in
  let level := resize leaves_per_piece V2_ZERO level in
  level ← hash_levels (S leaves_per_piece) v2_hash_pair level;
  index level 0.

Definition v2_file_root (data : list byte) : outcome V2InfoHash :=
  _ ← fail_if (len data =? 0) (MalformedTorrent "BEP 52 file root requires non-empty data");
  let level := map v2_leaf_hash (chunks (Z.to_nat V2_BLOCK_LENGTH) data) in
  width ← ok_or (checked_next_power_of_two (len level))
    (MalformedTorrent "BEP 52 file leaf count exceeds platform limits");
  level ← hash_levels (S (Z.to_nat width)) v2_hash_pair (resize (Z.to_nat width) V2_ZERO level);
  index level 0.

End merkle.

(** ** Powers of two *)

Lemma is_power_of_two_spec x : is_power_of_two x = true <-> exists k, 0 <= k /\ x = 2 ^ k.
Proof.
  unfold is_power_of_two. rewrite andb_true_iff, Z.ltb_lt, Z.eqb_eq. split.
  - intros [? E]. exists (Z.log2 x). split; [apply Z.log2_nonneg|done].
  - intros (k & Hk & ->). rewrite Z.log2_pow2 by done. split; [lia|done].
Qed.

Lemma validate_v2_piece_length_Ok p u :
  validate_v2_piece_length p = Ok u <-> exists k, 0 <= k /\ p = 2 ^ k * V2_BLOCK_LENGTH.
Proof.
  unfold validate_v2_piece_length. rewrite fail_if_Ok, orb_false_iff, Z.ltb_ge, negb_false_iff,
    is_power_of_two_spec. change V2_BLOCK_LENGTH with (2 ^ 14). split.
  - intros [Hp (k & Hk & ->)]. exists (k - 14).
    assert (14 <= k) by (apply (Z.pow_le_mono_r_iff 2); lia).
    split; [lia|]. rewrite <- Z.pow_add_r by lia. f_equal. lia.
  - intros (k & Hk & ->). rewrite <- Z.pow_add_r by lia. split.
    + apply Z.pow_le_mono_r; lia.
    + exists (k + 14). lia.
Qed.

Lemma validate_v2_piece_length_returns p : returns (validate_v2_piece_length p).
Proof. unfold validate_v2_piece_length. auto. Qed.

Lemma trailing_zeros_pow2 k : 0 <= k -> trailing_zeros (2 ^ k) = k.
Proof.
  intros Hk. pattern k. apply natlike_ind; [done| |done]. clear k Hk.
  intros k Hk IH. rewrite Z.pow_succ_r by done. destruct (2 ^ k) as [|p|p] eqn:E.
  - assert (0 < 2 ^ k) by (apply Z.pow_pos_nonneg; lia). lia.
  - change (1 + positive_trailing_zeros p = Z.succ k). cbn [trailing_zeros] in IH. lia.
  - assert (0 < 2 ^ k) by (apply Z.pow_pos_nonneg; lia). lia.
Qed.

Lemma next_power_of_two_Some n p :
  0 < n -> checked_next_power_of_two n = Some p <->
  exists d, 0 <= d /\ p = 2 ^ d /\ n <= p /\ (d = 0 \/ 2 ^ (d - 1) < n) /\ p <= usize_max.
Proof.
  intros Hn. unfold checked_next_power_of_two. split.
  - destruct (Z.leb_spec (2 ^ Z.log2_up n) usize_max); [|done]. intros [= <-].
    exists (Z.log2_up n). pose proof (Z.log2_up_nonneg n).
    split; [done|]. split; [done|].
    destruct (Z.le_gt_cases n 1).
    + assert (n = 1) as -> by lia. cbn in *. naive_solver lia.
    + pose proof (Z.log2_up_spec n ltac:(lia)) as [Hlo Hhi].
      rewrite Z.sub_1_r. naive_solver lia.
  - intros (d & Hd & -> & Hle & Hlow & Hmax).
    assert (Z.log2_up n = d) as ->.
    { destruct (Z.eq_dec d 0) as [->|Hd0].
      - assert (n = 1) as -> by (cbn in *; lia). done.
      - apply Z.log2_up_unique; [lia|]. rewrite <- Z.sub_1_r. lia. }
    by rewrite (proj2 (Z.leb_le _ _)).
Qed.

(** ** Chunks *)

Section chunk_lemmas.
Context {A : Type}.
Implicit Types l : list A.

Lemma chunks_fuel_enough f k l :
  (0 < k)%nat -> (length l <= f)%nat -> chunks_fuel f k l = chunks k l.
Proof.
  intros Hk. unfold chunks. remember (length l) as n eqn:En.
  assert (length l <= n)%nat as Hn by lia. clear En. revert f n l Hn.
  induction f as [|f IH]; intros n l Hn Hf.
  { destruct l; [by destruct n|cbn in *; lia]. }
  destruct n as [|n]; [destruct l; [done|cbn in *; lia]|].
  destruct l as [|a l]; [done|]. cbn [chunks_fuel]. f_equal.
  assert (length (drop k (a :: l)) <= f /\ length (drop k (a :: l)) <= n)%nat as [? ?].
  { rewrite length_drop. cbn [length] in *. lia. }
  rewrite (IH n) by lia. done.
Qed.

Lemma chunks_nil k : chunks k (@nil A) = [].
Proof. done. Qed.

Lemma chunks_step k l :
  (0 < k)%nat -> l <> [] -> chunks k l = take k l :: chunks k (drop k l).
Proof.
  intros Hk Hl. destruct l as [|a l]; [done|]. unfold chunks at 1. cbn [length chunks_fuel].
  f_equal. apply chunks_fuel_enough; [done|]. rewrite length_drop. cbn. lia.
Qed.

(** Induction on the chunks of a list. *)
Lemma chunks_ind (P : list A -> Prop) k :
  (0 < k)%nat -> P [] -> (forall l, l <> [] -> P (drop k l) -> P l) -> forall l, P l.
Proof.
  intros Hk H0 Hs l. remember (length l) as n eqn:E. assert (length l <= n)%nat as Hn by lia.
  clear E. revert l Hn. induction n as [|n IH]; intros l Hn.
  { destruct l; [done|cbn in *; lia]. }
  destruct (decide (l = [])) as [->|Hl]; [done|]. apply Hs; [done|]. apply IH.
  rewrite length_drop. destruct l; cbn in *; lia.
Qed.

Lemma chunks_concat k l : (0 < k)%nat -> concat (chunks k l) = l.
Proof.
  intros Hk. revert l. apply (chunks_ind _ k); [done|done|]. intros l Hl IH.
  rewrite chunks_step by done. cbn [concat]. by rewrite IH, take_drop.
Qed.

Lemma chunks_short k l : l <> [] -> (length l <= k)%nat -> chunks k l = [l].
Proof.
  intros Hl Hk. rewrite chunks_step by (done || (destruct l; cbn in *; [done|lia])).
  by rewrite take_ge, drop_ge by done.
Qed.

Lemma chunks_app k m l l' :
  (0 < k)%nat -> length l = (m * k)%nat -> chunks k (l ++ l') = chunks k l ++ chunks k l'.
Proof.
  intros Hk. revert l. induction m as [|m IH]; intros l Hl.
  { by destruct l. }
  assert (l <> []) as Hne by (intros ->; cbn in Hl; lia).
  rewrite (chunks_step k (l ++ l')) by (done || (by intros [? _]%app_eq_nil)).
  rewrite (chunks_step k l) by done.
  rewrite take_app_le, drop_app_le by lia. cbn [app]. f_equal. apply IH.
  rewrite length_drop. lia.
Qed.

Lemma length_chunks k l q :
  (0 < k)%nat -> length (chunks k l) = q <->
  (k * q < length l + k /\ length l <= k * q)%nat.
Proof.
  intros Hk. revert l q. refine (chunks_ind _ k Hk _ _).
  - intros q. cbn. destruct q; [split; [lia|done]|]. split; [done|nia].
  - intros l Hl IH q. rewrite chunks_step by done. cbn [length].
    assert (0 < length l)%nat by (destruct l; cbn in *; [done|lia]).
    destruct q as [|q]; [split; [done|nia]|].
    specialize (IH q). rewrite length_drop in IH.
    assert ((k * S q < length l + k /\ length l <= k * S q)
      <-> (k * q < length l - k + k /\ length l - k <= k * q))%nat as ->.
    { rewrite Nat.mul_succ_r. destruct (Nat.le_gt_cases (length l) k); [|lia].
      replace (length l - k)%nat with 0%nat by lia. destruct q; nia. }
    rewrite <- IH. naive_solver.
Qed.

Lemma lookup_chunks k l i c :
  (0 < k)%nat -> chunks k l !! i = Some c -> c = take k (drop (i * k) l).
Proof.
  intros Hk. revert l i. refine (chunks_ind _ k Hk _ _).
  - by intros [].
  - intros l Hl IH i. rewrite chunks_step by done. destruct i as [|i].
    + intros [= <-]. done.
    + intros ->%IH. rewrite drop_drop. do 2 f_equal; cbn; lia.
Qed.

Lemma len_chunks k l : (0 < k)%nat -> len (chunks k l) = div_ceil (len l) (Z.of_nat k).
Proof.
  intros Hk. symmetry. apply div_ceil_spec; [lia|].
  pose proof (proj1 (length_chunks k l _ Hk) eq_refl) as H. unfold len. nia.
Qed.
End chunk_lemmas.

(** ** Levels *)

Section levels.
Variable pair : V2InfoHash -> V2InfoHash -> V2InfoHash.

Fixpoint levels (d : nat) (l : list V2InfoHash) : list V2InfoHash :=
  match d with O => l | S d => levels d (hash_level pair l) end.

(** Induction two elements at a time. *)
Lemma list_even_ind (P : list V2InfoHash -> nat -> Prop) :
  P [] O -> (forall a b l n, P l n -> P (a :: b :: l) (S n)) ->
  forall n l, length l = (n * 2)%nat -> P l n.
Proof.
  intros H0 Hs. induction n as [|n IH]; intros l Hl; [by destruct l|].
  destruct l as [|a [|b l]]; [done|done|]. apply Hs, IH. cbn in Hl. lia.
Qed.

Lemma length_hash_level n l : length l = (n * 2)%nat -> length (hash_level pair l) = n.
Proof. revert n l. apply list_even_ind; [done|]. intros a b l n IH. cbn. by rewrite IH. Qed.

Lemma hash_level_app n l k :
  length l = (n * 2)%nat -> hash_level pair (l ++ k) = hash_level pair l ++ hash_level pair k.
Proof. revert n l. apply list_even_ind; [done|]. intros a b l n IH. cbn. by rewrite IH. Qed.

Lemma length_levels d l m : length l = (m * 2 ^ d)%nat -> length (levels d l) = m.
Proof.
  revert l. induction d as [|d IH]; intros l Hl; cbn [levels]; [cbn in Hl; lia|].
  apply IH, length_hash_level. rewrite Hl. cbn. lia.
Qed.

Lemma levels_app d l k m :
  length l = (m * 2 ^ d)%nat -> levels d (l ++ k) = levels d l ++ levels d k.
Proof.
  revert l k. induction d as [|d IH]; intros l k Hl; [done|]. cbn [levels].
  assert (length l = m * 2 ^ d * 2)%nat as Hl' by (rewrite Hl; cbn; lia).
  rewrite (hash_level_app (m * 2 ^ d)) by done. apply IH. by apply length_hash_level.
Qed.

Lemma levels_levels d e l : levels (d + e) l = levels e (levels d l).
Proof. revert l. induction d as [|d IH]; intros l; [done|]. cbn. apply IH. Qed.

Lemma levels_concat d ls :
  Forall (fun l => length l = (2 ^ d)%nat) ls ->
  levels d (concat ls) = concat (map (levels d) ls).
Proof.
  induction 1 as [|l ls Hl _ IH].
  { cbn. by induction d. }
  cbn [concat map]. rewrite (levels_app d l _ 1) by lia. by rewrite IH.
Qed.

Lemma hash_levels_eq d f l :
  length l = (2 ^ d)%nat -> (d < f)%nat -> hash_levels f pair l = Ok (levels d l).
Proof.
  revert f l. induction d as [|d IH]; intros [|f] l Hl Hf; try lia; cbn [hash_levels levels].
  - unfold len. rewrite Hl. done.
  - assert (1 < len l) as Hlen.
    { unfold len. rewrite Hl. cbn. pose proof (Nat.pow_nonzero 2 d ltac:(lia)). lia. }
    rewrite (proj2 (Z.ltb_lt _ _)) by done.
    rewrite IH; [done| |lia]. apply length_hash_level. rewrite Hl. cbn. lia.
Qed.

(** The loop and the final [level[0]], on a level of [2^d] hashes. *)
Lemma hash_levels_root d f l :
  length l = (2 ^ d)%nat -> (2 ^ d <= f)%nat ->
  exists h, (level ← hash_levels (S f) pair l; index level 0) = Ok h /\ levels d l = [h].
Proof.
  intros Hl Hf. assert (d < 2 ^ d)%nat by (apply Nat.pow_gt_lin_r; lia).
  rewrite (hash_levels_eq d) by (done || lia). ok_simpl.
  pose proof (length_levels d l 1 ltac:(lia)) as H1.
  destruct (levels d l) as [|h [|]]; [done| |done]. by exists h.
Qed.
End levels.

(** ** The roots *)

Definition BLOCK : nat := Z.to_nat V2_BLOCK_LENGTH.
#[global] Opaque BLOCK.

Lemma BLOCK_pos : (0 < BLOCK)%nat.
Proof. Local Transparent BLOCK. unfold BLOCK, V2_BLOCK_LENGTH. lia. Qed.
Lemma BLOCK_Z : Z.of_nat BLOCK = V2_BLOCK_LENGTH.
Proof. Local Transparent BLOCK. unfold BLOCK, V2_BLOCK_LENGTH. lia. Qed.
Lemma BLOCK_eq : Z.to_nat V2_BLOCK_LENGTH = BLOCK.
Proof. Local Transparent BLOCK. done. Qed.
#[global] Opaque BLOCK.

(** A valid piece length as a number of blocks. *)
Lemma valid_piece_length p u :
  validate_v2_piece_length p = Ok u -> exists k : nat, p = 2 ^ Z.of_nat k * V2_BLOCK_LENGTH.
Proof.
  intros (k & Hk & ->)%validate_v2_piece_length_Ok. exists (Z.to_nat k). by rewrite Z2Nat.id.
Qed.

Lemma valid_piece_length_pow k : validate_v2_piece_length (2 ^ Z.of_nat k * V2_BLOCK_LENGTH) = Ok ().
Proof. apply validate_v2_piece_length_Ok. exists (Z.of_nat k). split; [lia|done]. Qed.

Lemma piece_length_blocks (k : nat) : 2 ^ Z.of_nat k * V2_BLOCK_LENGTH / V2_BLOCK_LENGTH = 2 ^ Z.of_nat k.
Proof. apply Z.div_mul. done. Qed.

Lemma pow2_nat (k : nat) : Z.to_nat (2 ^ Z.of_nat k) = (2 ^ k)%nat.
Proof. by rewrite <- (Nat2Z.id (2 ^ k)), Nat2Z.inj_pow. Qed.

Lemma piece_length_nat (k : nat) :
  Z.to_nat (2 ^ Z.of_nat k * V2_BLOCK_LENGTH) = (2 ^ k * BLOCK)%nat.
Proof. rewrite Z2Nat.inj_mul by (done || apply Z.pow_nonneg; lia). by rewrite pow2_nat, BLOCK_eq. Qed.

Section roots.
Context {D : Digests}.

Definition leaves (data : list byte) : list V2InfoHash := map v2_leaf_hash (chunks BLOCK data).
Definition padded (w : nat) (data : list byte) : list V2InfoHash := resize w V2_ZERO (leaves data).

Lemma length_leaves data q :
  length (leaves data) = q <-> (BLOCK * q < length data + BLOCK /\ length data <= BLOCK * q)%nat.
Proof. unfold leaves. rewrite length_map. apply length_chunks, BLOCK_pos. Qed.

Lemma v2_piece_root_eq data k :
  0 < len data <= 2 ^ Z.of_nat k * V2_BLOCK_LENGTH ->
  exists h, v2_piece_root data (2 ^ Z.of_nat k * V2_BLOCK_LENGTH) = Ok h
    /\ levels hash_v2_pair k (padded (2 ^ k) data) = [h].
Proof.
  intros Hd. unfold v2_piece_root. pose proof (valid_piece_length_pow k) as Hv.
  unfold validate_v2_piece_length in Hv. apply fail_if_Ok in Hv as ->. ok_simpl.
  rewrite (proj2 (Z.eqb_neq _ _)), (proj2 (Z.ltb_ge _ (len data))) by lia. ok_simpl.
  rewrite piece_length_blocks, pow2_nat, BLOCK_eq.
  apply (hash_levels_root hash_v2_pair k); [|lia]. unfold padded. by rewrite length_resize.
Qed.

Lemma v2_piece_root_returns data p : returns (v2_piece_root data p).
Proof.
  destruct (validate_v2_piece_length p) as [u|e| |] eqn:Hv.
  2: { unfold v2_piece_root. unfold validate_v2_piece_length in Hv. by rewrite Hv. }
  2,3: by pose proof (validate_v2_piece_length_returns p) as Hr; rewrite Hv in Hr.
  destruct (valid_piece_length p u Hv) as [k Ek].
  unfold v2_piece_root. unfold validate_v2_piece_length in Hv. rewrite Hv. ok_simpl.
  destruct ((len data =? 0) || (p <? len data)) eqn:Hd; [done|]. ok_simpl.
  apply orb_false_iff in Hd as [H0%Z.eqb_neq H1%Z.ltb_ge]. pose proof (len_nonneg data).
  subst p. rewrite piece_length_blocks, pow2_nat, BLOCK_eq.
  destruct (hash_levels_root hash_v2_pair k (2 ^ k) (padded (2 ^ k) data)) as (h & E & _);
    [by unfold padded; rewrite length_resize|lia|].
  unfold padded, leaves in E. unfold v2_hash_pair. unfold hash_v2_pair in E. by rewrite E.
Qed.

(** A slice's length never exceeds [isize::MAX]. *)
Lemma next_power_nat n :
  0 < n <= i64_max -> exists j : nat, checked_next_power_of_two n = Some (2 ^ Z.of_nat j)
    /\ n <= 2 ^ Z.of_nat j /\ (j = 0%nat \/ 2 ^ (Z.of_nat j - 1) < n).
Proof.
  intros Hn. exists (Z.to_nat (Z.log2_up n)). pose proof (Z.log2_up_nonneg n).
  rewrite Z2Nat.id by done.
  assert (2 ^ Z.log2_up n <= usize_max) as Hmax.
  { assert (Z.log2_up n <= 63) 
      by (apply (Z.log2_up_le_pow2 n 63 ltac:(lia)); unfold i64_max in Hn; lia).
    unfold usize_max. assert (2 ^ Z.log2_up n <= 2 ^ 63) by (apply Z.pow_le_mono_r; lia). lia. }
  unfold checked_next_power_of_two. rewrite (proj2 (Z.leb_le _ _)) by done. split; [done|].
  destruct (Z.le_gt_cases n 1).
  - assert (n = 1) as -> by lia. cbn. split; [lia|by left].
  - pose proof (Z.log2_up_spec n ltac:(lia)) as [Hlo Hhi]. rewrite <- Z.sub_1_r in Hlo.
    split; [done|by right].
Qed.

Lemma v2_file_root_eq data :
  0 < len data <= i64_max ->
  exists j h, v2_file_root data = Ok h /\ levels hash_v2_pair j (padded (2 ^ j) data) = [h]
    /\ (length (leaves data) <= 2 ^ j)%nat /\ (j = 0%nat \/ (2 ^ (j - 1) < length (leaves data))%nat).
Proof.
  intros Hd. unfold v2_file_root. rewrite (proj2 (Z.eqb_neq _ _)) by lia. ok_simpl.
  rewrite BLOCK_eq. fold (leaves data).
  pose proof (proj1 (length_leaves data _) eq_refl) as Hn. pose proof BLOCK_pos.
  destruct (next_power_nat (len (leaves data))) as (j & -> & Hle & Hlow).
  { unfold len in *. nia. }
  cbn [ok_or]. ok_simpl. rewrite pow2_nat.
  destruct (hash_levels_root hash_v2_pair j (2 ^ j) (padded (2 ^ j) data)) as (h & E & Eh);
    [by unfold padded; rewrite length_resize|lia|].
  exists j, h. split; [exact E|]. split; [done|].
  assert (forall i : nat, 2 ^ Z.of_nat i = Z.of_nat (2 ^ i)) as Hp.
  { intros i. by rewrite Nat2Z.inj_pow. }
  rewrite Hp in Hle. unfold len in Hle. split; [lia|].
  destruct Hlow as [->|Hlow]; [by left|]. destruct j as [|j]; [by left|right].
  replace (Z.of_nat (S j) - 1) with (Z.of_nat j) in Hlow by lia.
  rewrite Hp in Hlow. unfold len in Hlow. replace (S j - 1)%nat with j by lia. lia.
Qed.

Lemma zero_subtree_levels d n :
  levels hash_v2_pair d (replicate (n * 2 ^ d) V2_ZERO) = replicate n (zero_subtree (Z.of_nat d)).
Proof.
  unfold zero_subtree. rewrite Nat2Z.id.
  assert (forall m z, hash_level hash_v2_pair (replicate (m * 2) z) = replicate m (hash_v2_pair z z)) as Hl.
  { induction m as [|m IH]; intros z; [done|]. cbn. by rewrite IH. }
  assert (forall z, levels hash_v2_pair d (replicate (n * 2 ^ d) z)
    = replicate n (Nat.iter d (fun zero => hash_v2_pair zero zero) z)) as H; [|apply H].
  induction d as [|d IH]; intros z; cbn [levels].
  { by rewrite Nat.mul_1_r. }
  replace (n * 2 ^ S d)%nat with (n * 2 ^ d * 2)%nat by (cbn; lia).
  rewrite Hl, IH. f_equal. symmetry. exact (Nat.iter_succ_r d (fun zero => hash_v2_pair zero zero) z).
Qed.

Lemma v2_piece_layer_root_eq hashes k :
  0 < len hashes <= i64_max ->
  exists j h, v2_piece_layer_root hashes (2 ^ Z.of_nat k * V2_BLOCK_LENGTH) = Ok h
    /\ levels hash_v2_pair j (resize (2 ^ j) (zero_subtree (Z.of_nat k)) hashes) = [h]
    /\ (length hashes <= 2 ^ j)%nat /\ (j = 0%nat \/ (2 ^ (j - 1) < length hashes)%nat).
Proof.
  intros Hd. unfold v2_piece_layer_root. rewrite (proj2 (Z.eqb_neq _ _)) by lia. ok_simpl.
  rewrite valid_piece_length_pow. ok_simpl. rewrite piece_length_blocks, trailing_zeros_pow2 by lia.
  destruct (next_power_nat (len hashes) Hd) as (j & -> & Hle & Hlow).
  cbn [ok_or]. ok_simpl. rewrite pow2_nat.
  destruct (hash_levels_root hash_v2_pair j (2 ^ j)
    (resize (2 ^ j) (zero_subtree (Z.of_nat k)) hashes)) as (h & E & Eh);
    [by rewrite length_resize|lia|].
  exists j, h. split; [exact E|]. split; [done|].
  assert (forall i : nat, 2 ^ Z.of_nat i = Z.of_nat (2 ^ i)) as Hp.
  { intros i. by rewrite Nat2Z.inj_pow. }
  rewrite Hp in Hle. unfold len in *. split; [lia|].
  destruct Hlow as [->|Hlow]; [by left|].
  destruct j as [|j]; [by left|right].
  replace (Z.of_nat (S j) - 1) with (Z.of_nat j) in Hlow by lia.
  rewrite Hp in Hlow. replace (S j - 1)%nat with j by lia. lia.
Qed.
End roots.

(** ** A file's piece layer and the file *)

Section layers.
Context {D : Digests}.

Lemma leaves_app m l l' :
  length l = (m * BLOCK)%nat -> leaves (l ++ l') = leaves l ++ leaves l'.
Proof.
  intros Hl. unfold leaves. rewrite (chunks_app _ m) by (done || apply BLOCK_pos).
  apply map_app.
Qed.

Lemma length_leaves_full m l : length l = (m * BLOCK)%nat -> length (leaves l) = m.
Proof. intros Hl. apply length_leaves. pose proof BLOCK_pos. lia. Qed.

Lemma length_padded w data : length (padded w data) = w.
Proof. apply length_resize. Qed.

Lemma resize_app_full {A} n m (x : A) l l' :
  length l = n -> resize (n + m) x (l ++ l') = l ++ resize m x l'.
Proof. intros <-. by rewrite resize_app_ge, Nat.add_comm, Nat.add_sub by lia. Qed.

(** Padding each piece pads the whole: only the last piece is short. *)
Lemma padded_pieces k data :
  let w := (2 ^ k * BLOCK)%nat in
  concat (map (padded (2 ^ k)) (chunks w data))
    = padded (length (chunks w data) * 2 ^ k) data.
Proof.
  intros w. pose proof BLOCK_pos. pose proof (Nat.pow_nonzero 2 k ltac:(lia)).
  assert (0 < w)%nat as Hw by (unfold w; nia).
  revert data. apply (chunks_ind _ w Hw); [done|]. intros data Hd IH.
  rewrite chunks_step by done. cbn [map concat length].
  destruct (Nat.le_gt_cases (length data) w) as [Hs|Hs].
  - rewrite take_ge, drop_ge by done. rewrite chunks_nil. cbn [map concat length].
    rewrite app_nil_r. f_equal. lia.
  - rewrite IH. set (m := length (chunks w (drop w data))).
    assert (length (take w data) = 2 ^ k * BLOCK)%nat as Hl by (rewrite length_take; unfold w in *; lia).
    unfold padded. rewrite <- (take_drop w data) at 3.
    rewrite (leaves_app (2 ^ k) _ _ Hl).
    replace (S m * 2 ^ k)%nat with (2 ^ k + m * 2 ^ k)%nat by (cbn; lia).
    rewrite resize_app_full by (by apply length_leaves_full).
    f_equal. rewrite resize_all_alt; [done|]. symmetry. by apply length_leaves_full.
Qed.

Lemma padded_more n m data :
  (length (leaves data) <= n)%nat ->
  padded (n + m) data = padded n data ++ replicate m V2_ZERO.
Proof.
  intros Hn. unfold padded. rewrite !resize_ge by lia. rewrite <- app_assoc, <- replicate_add.
  do 2 f_equal. lia.
Qed.

Lemma pow2_between n i j :
  (n <= 2 ^ i)%nat -> (2 ^ (i - 1) < n)%nat -> (n <= 2 ^ j)%nat -> (2 ^ (j - 1) < n)%nat ->
  (0 < i)%nat -> (0 < j)%nat -> i = j.
Proof.
  intros Hi Hi' Hj Hj' ??.
  assert (~ (i < j)%nat).
  { intros Hlt. pose proof (Nat.pow_le_mono_r 2 i (j - 1) ltac:(lia) ltac:(lia)). lia. }
  assert (~ (j < i)%nat).
  { intros Hlt. pose proof (Nat.pow_le_mono_r 2 j (i - 1) ltac:(lia) ltac:(lia)). lia. }
  lia.
Qed.

Lemma piece_roots k data :
  exists hs, mapM (fun c => v2_piece_root c (2 ^ Z.of_nat k * V2_BLOCK_LENGTH))
      (chunks (2 ^ k * BLOCK) data) = Ok hs
    /\ levels hash_v2_pair k (concat (map (padded (2 ^ k)) (chunks (2 ^ k * BLOCK) data))) = hs.
Proof.
  pose proof BLOCK_pos. pose proof (Nat.pow_nonzero 2 k ltac:(lia)).
  rewrite levels_concat.
  2: { apply Forall_forall. intros l. rewrite list_elem_of_fmap. intros (c & -> & _).
       apply length_padded. }
  revert data. apply (chunks_ind _ (2 ^ k * BLOCK)); [nia|by exists []|].
  intros data Hd (hs & E & Ehs). rewrite chunks_step by (done || nia). cbn [mapM].
  set (c := take (2 ^ k * BLOCK) data).
  destruct (v2_piece_root_eq c k) as (h & Eh & Ehr).
  { pose proof (piece_length_nat k) as Hp.
    assert (0 <= 2 ^ Z.of_nat k * V2_BLOCK_LENGTH)
      by (apply Z.mul_nonneg_nonneg; [apply Z.pow_nonneg; lia|done]).
    unfold c, len. rewrite length_take. destruct data; cbn [length] in *; [done|]. nia. }
  rewrite Eh. ok_simpl. rewrite E. exists (h :: hs). split; [done|].
  cbn [map concat]. unfold hash_v2_pair in *. by rewrite Ehr, Ehs.
Qed.

Lemma piece_layer_file_root data piece_length :
  validate_v2_piece_length piece_length = Ok () ->
  piece_length < len data <= i64_max ->
  exists hashes root,
    mapM (fun piece => v2_piece_root piece piece_length) (chunks (Z.to_nat piece_length) data) = Ok hashes
    /\ v2_piece_layer_root hashes piece_length = Ok root
    /\ v2_file_root data = Ok root.
Proof.
  intros Hv Hlen. destruct (valid_piece_length _ _ Hv) as [k ->].
  rewrite piece_length_nat. pose proof BLOCK_pos as HB. pose proof (piece_length_nat k) as Hp.
  pose proof (Nat.pow_nonzero 2 k ltac:(lia)) as Hk.
  destruct (piece_roots k data) as (hs & E & Ehs). exists hs.
  set (w := (2 ^ k * BLOCK)%nat) in *. set (m := length (chunks w data)).
  assert (0 < w)%nat as Hw by (unfold w; nia).
  assert (0 <= 2 ^ Z.of_nat k * V2_BLOCK_LENGTH) as Hpos
    by (apply Z.mul_nonneg_nonneg; [apply Z.pow_nonneg; lia|done]).
  pose proof (proj1 (length_chunks w data m Hw) eq_refl) as Hm.
  pose proof (proj1 (length_leaves data _) eq_refl) as Hn.
  set (n := length (leaves data)) in *.
  assert (2 <= m)%nat as Hm2.
  { assert (w < length data)%nat by (unfold len in Hlen; lia). nia. }
  assert (length hs = m) as Hhs.
  { apply mapM_Ok, Forall2_length in E. done. }
  destruct (v2_file_root_eq data) as (jf & root & -> & Hroot & Hjf & Hjf'); [unfold len in *; lia|].
  fold n in Hjf, Hjf'.
  destruct (v2_piece_layer_root_eq hs k) as (j & r & -> & Hr & Hj & Hj').
  { unfold len in *. rewrite Hhs. split; [lia|]. nia. }
  rewrite Hhs in Hj, Hj'. destruct Hj' as [->|Hj']; [cbn in Hj; lia|].
  assert (j <> 0%nat) as Hj0 by (intros ->; cbn in Hj; lia).
  destruct Hjf' as [->|Hjf']; [cbn in Hjf; unfold len in *; nia|].
  assert (jf = k + j)%nat as ->.
  { apply (pow2_between n); try done; try lia.
    - rewrite Nat.pow_add_r. nia.
    - replace (k + j - 1)%nat with (k + (j - 1))%nat by lia. rewrite Nat.pow_add_r. nia.
    - destruct jf; [cbn in *; nia|lia]. }
  eexists. split; [exact E|]. split; [reflexivity|]. f_equal.
  rewrite levels_levels in Hroot.
  assert (2 ^ (k + j) = m * 2 ^ k + (2 ^ j - m) * 2 ^ k)%nat as Ew.
  { rewrite Nat.pow_add_r. nia. }
  rewrite Ew, padded_more in Hroot by (fold n; nia).
  rewrite (levels_app _ _ _ _ m), zero_subtree_levels in Hroot by apply length_padded.
  pose proof (padded_pieces k data) as Hpad. cbv zeta in Hpad. fold w m in Hpad.
  rewrite <- Hpad, Ehs in Hroot. rewrite resize_ge, Hhs in Hr by lia. congruence.
Qed.

(** For every file longer than one piece, the root that the metainfo parser
    computes from the piece layer — the roots of the file's pieces — is the root
    of the file itself, computed from its 16 KiB leaves. *)
Theorem piece_layer_is_file_root data piece_length :
  validate_v2_piece_length piece_length = Ok () ->
  piece_length < len data <= i64_max ->
  exists hashes root,
    mapM (fun piece => v2_piece_root piece piece_length) (chunks (Z.to_nat piece_length) data) = Ok hashes
    /\ v2_piece_layer_root hashes piece_length = Ok root
    /\ v2_file_root data = Ok root.
Proof. apply piece_layer_file_root. Qed.
End layers.

(** ** Roots bind the data *)

Section binding.
Context {D : Digests}.

(** *** What is hashed on the way to a root *)

(** The strings of one round of pairing, and of [d] rounds. *)
Fixpoint round_texts (l : list V2InfoHash) : list (list byte) :=
  match l with
  | a :: b :: l => (as_bytes a ++ as_bytes b) :: round_texts l
  | _ => []
  end.
Fixpoint tree_texts (d : nat) (l : list V2InfoHash) : list (list byte) :=
  match d with
  | O => []
  | S d => round_texts l ++ tree_texts d (hash_level hash_v2_pair l)
  end.
Definition depth_of (n : nat) : nat := Z.to_nat (Z.log2_up (Z.of_nat n)).
(** The blocks of the data and the pairs above them. *)
Definition data_texts (d : nat) (data : list byte) : list (list byte) := chunks BLOCK data ++ tree_texts d (padded (2 ^ d) data).
Definition file_texts (data : list byte) : list (list byte) := data_texts (depth_of (length (leaves data))) data.
Definition piece_texts (p : Z) (data : list byte) : list (list byte) := data_texts (Z.to_nat (Z.log2 (p / V2_BLOCK_LENGTH))) data.
Definition layer_texts (p : Z) (hs : list V2InfoHash) : list (list byte) :=
  let d := depth_of (length hs) in tree_texts d (resize (2 ^ d) (zero_subtree (trailing_zeros (p / V2_BLOCK_LENGTH))) hs).

(** The hashes of the pieces of a file. *)
Definition piece_hashes (p : Z) (data : list byte) : list V2InfoHash :=
  match mapM (fun piece => v2_piece_root piece p) (chunks (Z.to_nat p) data) with Ok hs => hs | _ => [] end.

(** At one place of the two lists there are different strings with one hash. *)
Definition collides (xs ys : list (list byte)) : bool :=
  existsb (fun '(x, y) => negb (bool_decide (x = y)) && bool_decide (sha256 x = sha256 y)) (zip xs ys).

Lemma collides_app xs xs' ys ys' : length xs = length ys -> collides (xs ++ xs') (ys ++ ys') = collides xs ys || collides xs' ys'.
Proof. intros H. unfold collides. by rewrite zip_with_app, existsb_app by done. Qed.
Lemma collides_left xs xs' ys ys' : length xs = length ys -> collides xs ys = true -> collides (xs ++ xs') (ys ++ ys') = true.
Proof. intros H E. by rewrite collides_app, E. Qed.
Lemma collides_right xs xs' ys ys' : length xs = length ys -> collides xs' ys' = true -> collides (xs ++ xs') (ys ++ ys') = true.
Proof. intros H E. by rewrite collides_app, E, orb_true_r. Qed.
Lemma collides_spec xs ys : collides xs ys = true <-> exists i x y, xs !! i = Some x /\ ys !! i = Some y /\ x <> y /\ sha256 x = sha256 y.
Proof.
  unfold collides. rewrite existsb_exists. split.
  - intros ([x y] & Hin%list_elem_of_In & H). apply list_elem_of_lookup in Hin as [i Hi].
    apply lookup_zip_with_Some in Hi as (x' & y' & [= <- <-] & Hx & Hy). apply andb_true_iff in H as [H1%negb_true_iff%bool_decide_eq_false H2%bool_decide_eq_true].
    by exists i, x, y.
  - intros (i & x & y & Hx & Hy & Hn & E). exists (x, y). split.
    + apply list_elem_of_In, (list_elem_of_lookup_2 _ i). apply lookup_zip_with_Some. by exists x, y.
    + by rewrite bool_decide_eq_false_2, bool_decide_eq_true_2.
Qed.

Lemma length_round_texts n l : length l = (n * 2)%nat -> length (round_texts l) = n.
Proof. revert n l. apply list_even_ind; [done|]. intros a b l n IH. cbn. by rewrite IH. Qed.
Lemma depth_of_unique n j : (0 < n <= 2 ^ j)%nat -> j = 0%nat \/ (2 ^ (j - 1) < n)%nat -> depth_of n = j.
Proof.
  intros Hn Hj. unfold depth_of. assert (forall i : nat, Z.of_nat (2 ^ i) = 2 ^ Z.of_nat i) as Hp by (intros i; by rewrite Nat2Z.inj_pow).
  destruct j as [|j].
  - cbn in Hn. by assert (n = 1%nat) as -> by lia.
  - destruct Hj as [|Hj]; [done|]. replace (S j - 1)%nat with j in Hj by lia. rewrite (Z.log2_up_unique (Z.of_nat n) (Z.of_nat (S j))); [lia|lia|].
    rewrite Nat2Z.inj_succ, Z.pred_succ, <- Nat2Z.inj_succ, <- !Hp. lia.
Qed.

(** *** A root binds them *)

Lemma pair_binds a b a' b' : hash_v2_pair a b = hash_v2_pair a' b' ->
  (a = a' /\ b = b') \/ collides [as_bytes a ++ as_bytes b] [as_bytes a' ++ as_bytes b'] = true.
Proof.
  intros E. destruct (decide (as_bytes a ++ as_bytes b = as_bytes a' ++ as_bytes b')) as [Et|Hn].
  - left. apply app_inj_1 in Et as [Ea Eb]; [|by rewrite !array_length]. split; by apply array_eq.
  - right. apply collides_spec. by exists 0%nat, (as_bytes a ++ as_bytes b), (as_bytes a' ++ as_bytes b').
Qed.

Lemma hash_level_binds n l : length l = (n * 2)%nat -> forall l', length l' = (n * 2)%nat ->
  hash_level hash_v2_pair l = hash_level hash_v2_pair l' -> l = l' \/ collides (round_texts l) (round_texts l') = true.
Proof.
  revert n l. refine (list_even_ind _ _ _).
  - intros l' Hl' _. left. by destruct l'.
  - intros a b l n IH [|a' [|b' l']] Hl'; [done|done|]. cbn [hash_level]. intros [= Ep El]. cbn [length] in Hl'. cbn [round_texts].
    change (?x :: round_texts ?k) with ([x] ++ round_texts k). destruct (IH l' ltac:(lia) El) as [->|]; [|right; by apply collides_right].
    destruct (pair_binds _ _ _ _ Ep) as [[-> ->]|]; [by left|right; by apply collides_left].
Qed.

Lemma levels_binds d l l' :
  length l = (2 ^ d)%nat -> length l' = (2 ^ d)%nat ->
  levels hash_v2_pair d l = levels hash_v2_pair d l' -> l = l' \/ collides (tree_texts d l) (tree_texts d l') = true.
Proof.
  revert l l'. induction d as [|d IH]; intros l l' Hl Hl' E; [by left|]. cbn [levels tree_texts] in *.
  assert (forall k : list V2InfoHash, length k = 2 ^ S d -> length k = 2 ^ d * 2)%nat as H2
    by (intros k ->; cbn; lia).
  apply H2 in Hl, Hl'. assert (length (round_texts l) = length (round_texts l')) as Hr by (by rewrite !(length_round_texts (2 ^ d))).
  destruct (IH (hash_level hash_v2_pair l) (hash_level hash_v2_pair l')) as [E'|];
    [by apply length_hash_level|by apply length_hash_level|done| |right; by apply collides_right].
  destruct (hash_level_binds (2 ^ d) l Hl l' Hl' E') as [->|]; [by left|right; by apply collides_left].
Qed.

Lemma leaves_binds data data' : leaves data = leaves data' -> data = data' \/ collides (chunks BLOCK data) (chunks BLOCK data') = true.
Proof.
  intros E. unfold leaves in E.
  assert (chunks BLOCK data = chunks BLOCK data' \/ collides (chunks BLOCK data) (chunks BLOCK data') = true) as [Ec|]; [|left|by right].
  { revert E. generalize (chunks BLOCK data') as cs'. induction (chunks BLOCK data) as [|c cs IH];
      intros [|c' cs'] E; try done; [by left|]. cbn in E. injection E as Eh Et.
    change (?x :: ?k) with ([x] ++ k) at 3 4. destruct (IH cs' Et) as [->|]; [|right; by apply collides_right].
    destruct (decide (c = c')) as [->|Hn]; [by left|right]. apply collides_left; [done|]. apply collides_spec. by exists 0%nat, c, c'. }
  apply (f_equal (@concat byte)) in Ec. by rewrite !chunks_concat in Ec by apply BLOCK_pos.
Qed.

Lemma same_leaves data data' : length data = length data' -> length (leaves data) = length (leaves data').
Proof. intros Hl. symmetry. apply length_leaves. rewrite <- Hl. by apply length_leaves. Qed.

(** Two texts of one length whose trees of one depth have one root. *)
Lemma data_binds d data data' : length data = length data' -> (length (leaves data) <= 2 ^ d)%nat ->
  levels hash_v2_pair d (padded (2 ^ d) data) = levels hash_v2_pair d (padded (2 ^ d) data') ->
  data = data' \/ collides (data_texts d data) (data_texts d data') = true.
Proof.
  intros Hl Hw E. pose proof (same_leaves _ _ Hl) as Hll. unfold data_texts.
  assert (length (chunks BLOCK data) = length (chunks BLOCK data')) as Hc by (unfold leaves in Hll; by rewrite !length_map in Hll).
  destruct (levels_binds d (padded (2 ^ d) data) (padded (2 ^ d) data')) as [Ep|];
    [apply length_padded|apply length_padded|done| |right; by apply collides_right].
  unfold padded in Ep. rewrite !resize_ge, Hll in Ep by lia. apply app_inj_2 in Ep as [Ep _]; [|done].
  apply leaves_binds in Ep as [->|]; [by left|right; by apply collides_left].
Qed.

(** Two texts of one length with one piece root, or one file root. *)
Lemma v2_piece_root_binds data data' p h :
  len data = len data' -> v2_piece_root data p = Ok h -> v2_piece_root data' p = Ok h ->
  data = data' \/ collides (piece_texts p data) (piece_texts p data') = true.
Proof.
  intros Hl E E'.
  assert (validate_v2_piece_length p = Ok ()) as Hv.
  { unfold v2_piece_root in E. by apply bind_Ok in E as ([] & E0 & _). }
  destruct (valid_piece_length _ _ Hv) as [k ->].
  assert (0 < len data <= 2 ^ Z.of_nat k * V2_BLOCK_LENGTH) as Hd.
  { unfold v2_piece_root in E. inv_ok. pose proof (len_nonneg data).
    match goal with H : _ || (_ <? len data) = false |- _ =>
      apply orb_false_iff in H as [?%Z.eqb_neq ?%Z.ltb_ge] end. lia. }
  destruct (v2_piece_root_eq data k Hd) as (h1 & E1 & R1).
  destruct (v2_piece_root_eq data' k ltac:(lia)) as (h2 & E2 & R2).
  rewrite E in E1. rewrite E' in E2. injection E1 as <-. injection E2 as <-. rewrite <- R2 in R1.
  unfold piece_texts. rewrite piece_length_blocks, Z.log2_pow2, Nat2Z.id by lia. apply data_binds; [unfold len in Hl; lia| |done].
  pose proof (proj1 (length_leaves data _) eq_refl) as Hn. pose proof (piece_length_nat k) as Hp.
  assert (length data <= 2 ^ k * BLOCK)%nat by (unfold len in Hd; lia). pose proof BLOCK_pos. nia.
Qed.

Lemma v2_file_root_binds data data' h :
  len data = len data' -> len data <= i64_max ->
  v2_file_root data = Ok h -> v2_file_root data' = Ok h -> data = data' \/ collides (file_texts data) (file_texts data') = true.
Proof.
  intros Hl Hm E E'.
  assert (0 < len data) as H0.
  { unfold v2_file_root in E. pose proof (len_nonneg data).
    destruct (Z.eqb_spec (len data) 0); [done|lia]. }
  destruct (v2_file_root_eq data ltac:(lia)) as (j & h1 & E1 & R1 & B1 & B1').
  destruct (v2_file_root_eq data' ltac:(lia)) as (j' & h2 & E2 & R2 & B2 & B2').
  assert (length data = length data') as Hln by (unfold len in Hl; lia). pose proof (same_leaves _ _ Hln) as Hll.
  assert (0 < length (leaves data))%nat as Hn.
  { pose proof (proj1 (length_leaves data _) eq_refl). unfold len in H0. nia. }
  unfold file_texts. rewrite <- Hll in *. pose proof (depth_of_unique _ _ (conj Hn B1) B1') as Hj.
  pose proof (depth_of_unique _ _ (conj Hn B2) B2') as Hj'. assert (j' = j) as -> by congruence. rewrite Hj.
  rewrite E in E1. rewrite E' in E2. injection E1 as <-. injection E2 as <-. apply data_binds; [done|done|by rewrite R1, R2].
Qed.

(** A piece layer is bound by its root. *)
Lemma v2_piece_layer_root_binds hs hs' p h :
  len hs = len hs' -> len hs <= i64_max ->
  v2_piece_layer_root hs p = Ok h -> v2_piece_layer_root hs' p = Ok h -> hs = hs' \/ collides (layer_texts p hs) (layer_texts p hs') = true.
Proof.
  intros Hl Hm E E'.
  assert (0 < len hs /\ validate_v2_piece_length p = Ok ()) as [H0 Hv].
  { unfold v2_piece_layer_root in E. pose proof (len_nonneg hs).
    apply bind_Ok in E as ([] & H1%fail_if_Ok & E). apply bind_Ok in E as ([] & H2 & _).
    apply Z.eqb_neq in H1. split; [lia|done]. }
  destruct (valid_piece_length _ _ Hv) as [k ->].
  destruct (v2_piece_layer_root_eq hs k ltac:(lia)) as (j & h1 & E1 & R1 & B1 & B1').
  destruct (v2_piece_layer_root_eq hs' k ltac:(lia)) as (j' & h2 & E2 & R2 & B2 & B2').
  assert (length hs = length hs') as Hll by (unfold len in Hl; lia). assert (0 < length hs)%nat as Hn by (unfold len in H0; lia).
  unfold layer_texts. rewrite <- Hll in *. pose proof (depth_of_unique _ _ (conj Hn B1) B1') as Hj.
  pose proof (depth_of_unique _ _ (conj Hn B2) B2') as Hj'. assert (j' = j) as -> by congruence. rewrite Hj.
  rewrite piece_length_blocks, trailing_zeros_pow2 by lia.
  rewrite E in E1. rewrite E' in E2. injection E1 as <-. injection E2 as <-. rewrite <- R2 in R1.
  destruct (levels_binds j _ _ (length_resize _ _ _) (length_resize _ _ _) R1) as [Er|]; [left|by right].
  rewrite !resize_ge, Hll in Er by lia. by apply app_inj_2 in Er as [? _].
Qed.

Lemma v2_file_root_returns data : returns (v2_file_root data).
Proof.
  unfold v2_file_root. destruct (Z.eqb_spec (len data) 0); [done|]. ok_simpl. rewrite BLOCK_eq.
  fold (leaves data). destruct (checked_next_power_of_two (len (leaves data))) as [t|] eqn:Et; [|done].
  cbn [ok_or]. rewrite bind_ret.
  assert (0 < len (leaves data)) as Hn.
  { pose proof (proj1 (length_leaves data _) eq_refl). pose proof (len_nonneg data). unfold len in *. nia. }
  apply next_power_of_two_Some in Et as (d & Hd & -> & _); [|done].
  rewrite <- (Z2Nat.id d), pow2_nat by done.
  destruct (hash_levels_root hash_v2_pair (Z.to_nat d) (2 ^ Z.to_nat d) (padded (2 ^ Z.to_nat d) data)) as (h & E & _);
    [apply length_padded|lia|]. unfold padded, hash_v2_pair in E. unfold v2_hash_pair. by rewrite E.
Qed.
End binding.

Lemma piece_layer_is_file_root_witness :
  let data := repeat x00 (Z.to_nat 16385) in
  exists hashes root,
    mapM (fun piece => @v2_piece_root toy_digests piece 16384) (chunks (Z.to_nat 16384) data) = Ok hashes
    /\ @v2_piece_layer_root toy_digests hashes 16384 = Ok root /\ @v2_file_root toy_digests data = Ok root.
Proof.
  intros data. apply (@piece_layer_is_file_root toy_digests data 16384); [reflexivity|].
  unfold data, len, i64_max. rewrite repeat_length. lia.
Defined.
