(* ===== verification/Addr.v ===== *)
(** * Internet addresses

    The parts of [std::net] the program uses: [IpAddr], [SocketAddr], the
    predicates on addresses and the parsers behind [str::parse].  An IPv4 address
    is its 32-bit value, an IPv6 address its 128-bit value. *)

From S2P Require Import Prelude.
From S2P Require Import Text.

Inductive IpAddr : Type := V4 (a : Z) | V6 (a : Z).
Record SocketAddr : Type := mkSocketAddr { ip : IpAddr; port : Z }.

#[export] Instance IpAddr_eq_dec : EqDecision IpAddr.
Proof. solve_decision. Defined.
#[export] Instance SocketAddr_eq_dec : EqDecision SocketAddr.
Proof. solve_decision. Defined.

Definition UNSPECIFIED4 : IpAddr := V4 0.
Definition UNSPECIFIED6 : IpAddr := V6 0.

Definition is_unspecified (a : IpAddr) : bool :=
  match a with V4 a | V6 a => a =? 0 end.
Definition is_loopback (a : IpAddr) : bool :=
  match a with V4 a => Z.shiftr a 24 =? 127 | V6 a => a =? 1 end.
Definition ip_is_ipv6 (a : IpAddr) : bool := match a with V6 _ => true | V4 _ => false end.
Definition is_ipv6 (a : SocketAddr) : bool := ip_is_ipv6 (ip a).
Definition is_ipv4 (a : SocketAddr) : bool := negb (is_ipv6 a).

(** ** Parsing *)

(** A parser gives a value and the input left; on [None] the input stays. *)
Definition parser (A : Type) : Type := list byte -> option (A * list byte).

Definition to_digit (radix : Z) (b : byte) : option Z :=
  let c := u8 b in
  let d := if (48 <=? c) && (c <=? 57) then c - 48
           else if (97 <=? c) && (c <=? 122) then c - 87
           else if (65 <=? c) && (c <=? 90) then c - 55 else radix in
  if d <? radix then Some d else None.

Fixpoint read_digits (radix max_digits max : Z) (n count : Z) (s : list byte)
    : option (Z * Z * list byte) :=
  match s with
  | [] => Some (n, count, [])
  | b :: s' =>
      match to_digit radix b with
      | None => Some (n, count, s)
      | Some d =>
          if n * radix + d >? max then None
          else if count + 1 >? max_digits then None
          else read_digits radix max_digits max (n * radix + d) (count + 1) s'
      end
  end.

Definition read_number (radix max_digits max : Z) (allow_zero_prefix : bool) : parser Z :=
  fun s =>
    '(n, count, rest) ← read_digits radix max_digits max 0 0 s;
    if count =? 0 then None
    else if negb allow_zero_prefix && bool_decide (head s = Some "0"%byte) && (count >? 1)
    then None
    else Some (n, rest).

Definition read_given_char (c : byte) : parser () :=
  fun s => match s with b :: s => if Byte.eqb b c then Some ((), s) else None | [] => None end.

Definition read_separator {A} (sep : byte) (index : Z) (p : parser A) : parser A :=
  fun s => if index >? 0 then '(_, s) ← read_given_char sep s; p s else p s.

Definition read_ipv4_addr : parser Z := fun s =>
  let octet := read_number 10 3 255 false in
  '(a, s) ← read_separator "." 0 octet s;
  '(b, s) ← read_separator "." 1 octet s;
  '(c, s) ← read_separator "." 2 octet s;
  '(d, s) ← read_separator "." 3 octet s;
  Some (((a * 256 + b) * 256 + c) * 256 + d, s).

(** Up to [limit] groups from the [i]-th on: the groups, and whether the last two
    of them came from an embedded IPv4 address. *)
Fixpoint read_groups (fuel : nat) (i limit : Z) (s : list byte) : list Z * bool * list byte :=
  match fuel with
  | O => ([], false, s)
  | S fuel =>
      let embedded :=
        if i <? limit - 1 then read_separator ":" i read_ipv4_addr s else None in
      match embedded with
      | Some (a, s) => ([Z.shiftr a 16; Z.land a 65535], true, s)
      | None =>
          match read_separator ":" i (read_number 16 4 65535 true) s with
          | Some (g, s) =>
              let '(gs, v4, s) := read_groups fuel (i + 1) limit s in (g :: gs, v4, s)
          | None => ([], false, s)
          end
      end
  end.

Definition of_groups (gs : list Z) : Z := foldl (fun a g => a * 65536 + g) 0 gs.

Definition read_ipv6_addr : parser Z := fun s =>
  let '(head, head_ipv4, s) := read_groups 8 0 8 s in
  if len head =? 8 then Some (of_groups head, s)
  else if head_ipv4 : bool then None
  else
    '(_, s) ← read_given_char ":" s;
    '(_, s) ← read_given_char ":" s;
    let limit := 8 - (len head + 1) in
    let '(tail, _, s) := read_groups (Z.to_nat limit) 0 limit s in
    Some (of_groups (head ++ replicate (Z.to_nat (8 - len head - len tail)) 0 ++ tail), s).

Definition parse_with {A} (p : parser A) (s : list byte) : option A :=
  '(a, rest) ← p s; match rest with [] => Some a | _ => None end.

Definition parse_ipv4 (s : list byte) : option Z :=
  if len s >? 15 then None else parse_with read_ipv4_addr s.
Definition parse_ipv6 (s : list byte) : option Z := parse_with read_ipv6_addr s.
Definition parse_ip (s : list byte) : option IpAddr :=
  parse_with (fun s =>
    match read_ipv4_addr s with
    | Some (a, s) => Some (V4 a, s)
    | None => '(a, s) ← read_ipv6_addr s; Some (V6 a, s)
    end) s.

Example parse_ipv4_ex : parse_ipv4 (bytes_of "10.8.0.2") = Some 168296450.
Proof. reflexivity. Qed.
Example parse_ipv4_zeros : parse_ipv4 (bytes_of "10.08.0.2") = None.
Proof. reflexivity. Qed.
Example parse_ipv6_ex : parse_ipv6 (bytes_of "fd00::1:10.8.0.2") =
  Some (0xfd00 * 2 ^ 112 + 2 ^ 32 + 168296450).
Proof. reflexivity. Qed.
Example parse_ipv6_full : parse_ipv6 (bytes_of "1:2:3:4:5:6:7:8") = Some 5192455318486707404433266433261576.
Proof. reflexivity. Qed.
Example parse_ip_bad : parse_ip (bytes_of "1::2::3") = None.
Proof. reflexivity. Qed.

(** ** Display *)

Definition fmt_ipv4 (a : Z) : list byte :=
  print_dec (Z.land (Z.shiftr a 24) 255) ++ ["."%byte] ++ print_dec (Z.land (Z.shiftr a 16) 255)
  ++ ["."%byte] ++ print_dec (Z.land (Z.shiftr a 8) 255) ++ ["."%byte] ++ print_dec (Z.land a 255).

Definition segments (a : Z) : list Z :=
  map (fun i => Z.land (Z.shiftr a (112 - 16 * i)) 65535) (seqZ 0 8).

Definition hex_digit (d : Z) : byte := if d <? 10 then as_u8 (48 + d) else as_u8 (87 + d).
Fixpoint print_hex_fuel (fuel : nat) (n : Z) : list byte :=
  match fuel with
  | O => []
  | S fuel => if n <? 16 then [hex_digit n] else print_hex_fuel fuel (n / 16) ++ [hex_digit (n mod 16)]
  end.
Definition print_hex : Z -> list byte := print_hex_fuel 32.

(** The first longest run of zero segments: its start and its length. *)
Fixpoint longest_zeros (i start n : Z) (best : Z * Z) (gs : list Z) : Z * Z :=
  match gs with
  | [] => best
  | g :: gs =>
      if g =? 0 then
        let start := if n =? 0 then i else start in
        let best := if n + 1 >? best.2 then (start, n + 1) else best in
        longest_zeros (i + 1) start (n + 1) best gs
      else longest_zeros (i + 1) start 0 best gs
  end.

Fixpoint fmt_subslice (gs : list Z) : list byte :=
  match gs with
  | [] => []
  | [g] => print_hex g
  | g :: gs => print_hex g ++ ":"%byte :: fmt_subslice gs
  end.

Definition fmt_ipv6 (a : Z) : list byte :=
  let gs := segments a in
  if Z.shiftr a 32 =? 65535 then bytes_of "::ffff:" ++ fmt_ipv4 (Z.land a (Z.ones 32))
  else
    let '(start, n) := longest_zeros 0 0 0 (0, 0) gs in
    if n >? 1 then
      fmt_subslice (take (Z.to_nat start) gs) ++ bytes_of "::"
      ++ fmt_subslice (drop (Z.to_nat (start + n)) gs)
    else fmt_subslice gs.

Definition fmt_ip (a : IpAddr) : list byte :=
  match a with V4 a => fmt_ipv4 a | V6 a => fmt_ipv6 a end.

Example fmt_ipv6_ex : fmt_ip (V6 (0xfd00 * 2 ^ 112 + 2 ^ 32 + 255)) = bytes_of "fd00::1:0:ff".
Proof. reflexivity. Qed.
Example fmt_ipv4_ex : fmt_ip (V4 168296450) = bytes_of "10.8.0.2".
Proof. reflexivity. Qed.

(** ** Socket addresses

    [SocketAddr::from_str] and its [Display].  The numbers have no limit on their
    digits, only on their value; the IPv6 scope is read and not kept. *)

Definition read_port : parser Z := fun s =>
  '(_, s) ← read_given_char ":" s;
  read_number 10 usize_max 65535 true s.

Definition read_scope_id : parser Z := fun s =>
  '(_, s) ← read_given_char "%" s;
  read_number 10 usize_max u32_max true s.

Definition read_socket_addr : parser SocketAddr := fun s =>
  match ('(a, s) ← read_ipv4_addr s; '(p, s) ← read_port s; Some (mkSocketAddr (V4 a) p, s)) with
  | Some x => Some x
  | None =>
      '(_, s) ← read_given_char "[" s;
      '(a, s) ← read_ipv6_addr s;
      let s := match read_scope_id s with Some (_, s) => s | None => s end in
      '(_, s) ← read_given_char "]" s;
      '(p, s) ← read_port s;
      Some (mkSocketAddr (V6 a) p, s)
  end.
Definition parse_socket_addr (s : list byte) : option SocketAddr := parse_with read_socket_addr s.

Definition fmt_socket_addr (a : SocketAddr) : list byte :=
  match ip a with
  | V4 x => fmt_ipv4 x ++ ":"%byte :: print_dec (port a)
  | V6 x => "["%byte :: fmt_ipv6 x ++ ["]"; ":"]%byte ++ print_dec (port a)
  end.

Example socket_addr_ex : parse_socket_addr (bytes_of "[fd00::1]:6881") = Some (mkSocketAddr (V6 (0xfd00 * 2 ^ 112 + 1)) 6881).
Proof. reflexivity. Qed.
Example socket_addr_fmt : fmt_socket_addr (mkSocketAddr (V4 168296450) 51413) = bytes_of "10.8.0.2:51413".
Proof. reflexivity. Qed.

(** ** The parsed numbers fit their width *)

Lemma to_digit_nonneg radix b d : to_digit radix b = Some d -> 0 <= radix -> 0 <= d.
Proof.
  unfold to_digit. intros H Hr.
  destruct (_ <? radix) eqn:E; [|done]. injection H as <-.
  repeat match goal with |- context [if ?c then _ else _] => destruct c eqn:?E end; lia.
Qed.

Lemma read_digits_range radix md max s : forall n c n' c' r,
  0 <= radix -> 0 <= n <= max -> read_digits radix md max n c s = Some (n', c', r) -> 0 <= n' <= max.
Proof.
  induction s as [|b s IH]; intros n c n' c' r Hr Hn; cbn [read_digits]; [by intros [= <- _ _]|].
  destruct (to_digit radix b) as [d|] eqn:Ed; [|by intros [= <- _ _]].
  apply to_digit_nonneg in Ed; [|done].
  destruct (Z.gtb_spec (n * radix + d) max); [done|]. destruct (_ >? md); [done|].
  apply IH; [done|]. nia.
Qed.

Lemma read_number_range radix md max z s n r :
  0 <= radix -> 0 <= max -> read_number radix md max z s = Some (n, r) -> 0 <= n <= max.
Proof.
  unfold read_number. intros Hr Hm H. destruct (read_digits radix md max 0 0 s) as [[[n' c'] r']|] eqn:E; [|done].
  cbn [mbind option_bind] in H. destruct (c' =? 0); [done|]. destruct (_ && _); [done|]. injection H as <- _.
  eapply read_digits_range; [| |exact E]; lia.
Qed.

Lemma read_separator_Some {A} sep i (p : parser A) s x :
  read_separator sep i p s = Some x -> exists s', p s' = Some x.
Proof.
  unfold read_separator. destruct (i >? 0); [|by exists s].
  destruct (read_given_char sep s) as [[u s']|]; [by exists s'|done].
Qed.

Lemma read_ipv4_range s a r : read_ipv4_addr s = Some (a, r) -> in_width 32 a.
Proof.
  unfold read_ipv4_addr. intros H.
  repeat match type of H with
  | (read_separator ?sep ?i (read_number ?x ?m ?b ?z) ?s ≫= _) = _ =>
      let E := fresh "E" in
      destruct (read_separator sep i (read_number x m b z) s) as [[? ?]|] eqn:E; [|done];
      apply read_separator_Some in E as [? E]; apply read_number_range in E; [|lia..];
      cbn [mbind option_bind] in H
  end.
  injection H as <- _. unfold in_width. lia.
Qed.

Lemma of_groups_range gs : forall acc k,
  0 <= k -> 0 <= acc < 65536 ^ k -> Forall (fun g => 0 <= g <= 65535) gs ->
  0 <= foldl (fun a g => a * 65536 + g) acc gs < 65536 ^ (k + len gs).
Proof.
  induction gs as [|g gs IH]; intros acc k Hk Ha Hg; cbn [foldl].
  { change (len []) with 0. by rewrite Z.add_0_r. }
  apply Forall_cons in Hg as [Hg Hgs]. rewrite len_cons.
  replace (k + (1 + len gs)) with (k + 1 + len gs) by lia. apply IH; [lia| |done].
  rewrite Z.pow_add_r by lia. lia.
Qed.

Lemma read_groups_range fuel : forall i limit s gs v r,
  0 <= i -> i + Z.of_nat fuel = limit -> read_groups fuel i limit s = (gs, v, r) ->
  Forall (fun g => 0 <= g <= 65535) gs /\ len gs <= limit - i.
Proof.
  induction fuel as [|fuel IH]; intros i limit s gs v r Hi Hl H; cbn [read_groups] in H.
  { injection H as <- _ _. split; [constructor|]. change (len []) with 0. lia. }
  destruct (if i <? limit - 1 then read_separator ":" i read_ipv4_addr s else None) as [[a s']|] eqn:E.
  - injection H as <- _ _. destruct (Z.ltb_spec i (limit - 1)); [|done].
    apply read_separator_Some in E as [s0 E]. apply read_ipv4_range in E. unfold in_width in E.
    split; [|change (len [Z.shiftr a 16; Z.land a 65535]) with 2; lia].
    change 65535 with (Z.ones 16) at 2. rewrite Z.shiftr_div_pow2, Z.land_ones by lia.
    apply Forall_cons. split; [|apply Forall_singleton].
    + split; [apply Z.div_pos; lia|]. assert (a / 2 ^ 16 < 65536); [apply Z.div_lt_upper_bound; lia|lia].
    + pose proof (Z.mod_pos_bound a (2 ^ 16)). lia.
  - destruct (read_separator ":" i (read_number 16 4 65535 true) s) as [[g s']|] eqn:Eg.
    + apply read_separator_Some in Eg as [s0 Eg]. apply read_number_range in Eg; [|lia..].
      destruct (read_groups fuel (i + 1) limit s') as [[gs' v'] r'] eqn:Er. injection H as <- _ _.
      apply IH in Er as [H1 H2]; [|lia..]. rewrite len_cons. split; [by constructor|lia].
    + injection H as <- _ _. split; [constructor|]. change (len []) with 0. lia.
Qed.

Lemma read_ipv6_range s a r : read_ipv6_addr s = Some (a, r) -> in_width 128 a.
Proof.
  unfold read_ipv6_addr. destruct (read_groups 8 0 8 s) as [[h hv] s1] eqn:E1. intros H.
  apply read_groups_range in E1 as [F1 L1]; [|lia..].
  assert (forall gs, Forall (fun g => 0 <= g <= 65535) gs -> len gs = 8 -> in_width 128 (of_groups gs)) as Hw.
  { intros gs Fg Lg. pose proof (of_groups_range gs 0 0 ltac:(lia) ltac:(lia) Fg) as Hr. rewrite Lg in Hr. exact Hr. }
  destruct (Z.eqb_spec (len h) 8); [by injection H as <- _; apply Hw|]. destruct hv; [done|].
  destruct (read_given_char ":" s1) as [[[] s2]|]; [|done]. cbn [mbind option_bind] in H.
  destruct (read_given_char ":" s2) as [[[] s3]|]; [|done]. cbn [mbind option_bind] in H.
  destruct (read_groups _ _ _ s3) as [[t tv] s4] eqn:E2.
  pose proof (len_nonneg h). apply read_groups_range in E2 as [F2 L2]; [|lia..].
  injection H as <- _. pose proof (len_nonneg t). apply Hw.
  - rewrite !Forall_app. split; [done|]. split; [|done]. apply Forall_replicate. lia.
  - rewrite !len_app. unfold len at 2. rewrite length_replicate. lia.
Qed.

(** The bits of an address, and its number. *)
Definition ip_bits (a : IpAddr) : Z := match a with V4 _ => 32 | V6 _ => 128 end.
Definition ip_number (a : IpAddr) : Z := match a with V4 a | V6 a => a end.
Definition valid_ip (a : IpAddr) : Prop := in_width (ip_bits a) (ip_number a).

Lemma parse_ip_valid s a : parse_ip s = Some a -> valid_ip a.
Proof.
  unfold parse_ip, parse_with. destruct (read_ipv4_addr s) as [[x r]|] eqn:E; cbn [mbind option_bind].
  - destruct r; [|done]. intros [= <-]. by apply read_ipv4_range in E.
  - destruct (read_ipv6_addr s) as [[x r]|] eqn:E6; [|done]. cbn [mbind option_bind].
    destruct r; [|done]. intros [= <-]. by apply read_ipv6_range in E6.
Qed.

(** ** Displayed addresses parse back *)

Definition no_digit (s : list byte) : Prop := match s with b :: _ => is_ascii_digit b = false | [] => True end.

Lemma to_digit_digit b : is_ascii_digit b = true -> to_digit 10 b = Some (digit_value b).
Proof.
  intros H%is_ascii_digit_range. unfold to_digit. cbv zeta.
  rewrite (proj2 (Z.leb_le 48 (u8 b))), (proj2 (Z.leb_le (u8 b) 57)) by lia. cbn [andb].
  by rewrite (proj2 (Z.ltb_lt _ 10)) by lia.
Qed.

Lemma to_digit_none b : is_ascii_digit b = false -> to_digit 10 b = None.
Proof.
  intros H. unfold to_digit. cbv zeta. destruct (Z.leb_spec 48 (u8 b)), (Z.leb_spec (u8 b) 57); cbn [andb].
  1: assert (is_ascii_digit b = true) by (apply is_ascii_digit_range; lia); congruence.
  all: repeat match goal with |- context [if ?c then _ else _] => destruct c eqn:?E end; try done; lia.
Qed.

Lemma read_digits_print md max ds rest : forall n c,
  Forall (fun b => is_ascii_digit b = true) ds -> no_digit rest -> 0 <= n ->
  foldl (fun acc b => acc * 10 + digit_value b) n ds <= max -> c + len ds <= md ->
  read_digits 10 md max n c (ds ++ rest) = Some (foldl (fun acc b => acc * 10 + digit_value b) n ds, c + len ds, rest).
Proof.
  induction ds as [|b ds IH]; intros n c Hd Hr Hn Hm Hc; cbn [foldl app] in *.
  { change (len []) with 0. rewrite Z.add_0_r. destruct rest as [|b rest]; [done|]. cbn [read_digits].
    by rewrite to_digit_none. }
  apply Forall_cons in Hd as [Hb Hd]. rewrite len_cons in *. cbn [read_digits]. rewrite to_digit_digit by done.
  pose proof (digit_value_range b Hb). pose proof (len_nonneg ds).
  assert (n * 10 + digit_value b <= foldl (fun acc b => acc * 10 + digit_value b) (n * 10 + digit_value b) ds) as Hge.
  { assert (0 <= n * 10 + digit_value b) as Hp by lia. revert Hp Hd. generalize (n * 10 + digit_value b) as m. clear.
    induction ds as [|x ds IH]; intros m Hm Hd; cbn [foldl]; [lia|]. apply Forall_cons in Hd as [Hx Hd].
    pose proof (digit_value_range x Hx). specialize (IH (m * 10 + digit_value x) ltac:(lia) Hd). lia. }
  destruct (Z.gtb_spec (n * 10 + digit_value b) max); [lia|]. destruct (Z.gtb_spec (c + 1) md); [lia|].
  rewrite IH by (done || lia). by rewrite Z.add_assoc.
Qed.

Lemma read_number_print md max z n rest :
  0 <= n <= max -> max <= u64_max -> len (print_dec n) <= md -> no_digit rest ->
  read_number 10 md max z (print_dec n ++ rest) = Some (n, rest).
Proof.
  intros Hn Hm Hl Hr. destruct (print_dec_canonical n ltac:(lia)) as (Hd & Hne & Hz).
  pose proof (print_dec_value n ltac:(lia)) as Hv. unfold dec_value in Hv.
  unfold read_number. rewrite read_digits_print by (done || lia). cbn [mbind option_bind]. rewrite Hv.
  assert (0 < len (print_dec n)) as Hp by (destruct (print_dec n); [done|rewrite len_cons; pose proof (len_nonneg l); lia]).
  rewrite (proj2 (Z.eqb_neq _ 0)) by lia.
  destruct (negb z && bool_decide (head (print_dec n ++ rest) = Some "0"%byte) && (0 + len (print_dec n) >? 1)) eqn:E; [|done].
  apply andb_true_iff in E as [[_ E1]%andb_true_iff E2]. apply bool_decide_eq_true_1 in E1.
  assert (head (print_dec n) = Some "0"%byte) as Hh by (by destruct (print_dec n)).
  specialize (Hz Hh). unfold len in E2. rewrite Hz in E2. done.
Qed.

Lemma print_octet_len n : 0 <= n <= 255 -> len (print_dec n) <= 3.
Proof.
  intros Hn. destruct (print_dec_canonical n ltac:(unfold u64_max; lia)) as (Hd & Hne & Hz).
  pose proof (print_dec_value n ltac:(unfold u64_max; lia)) as Hv.
  destruct (decide (head (print_dec n) = Some "0"%byte)) as [E|E]; [unfold len; rewrite Hz by done; lia|].
  pose proof (dec_value_lower _ Hd Hne E). rewrite Hv in *.
  destruct (Z.le_gt_cases (len (print_dec n)) 3); [done|].
  assert (10 ^ 3 <= 10 ^ (len (print_dec n) - 1)) by (apply Z.pow_le_mono_r; lia). lia.
Qed.

Lemma read_fmt_ipv4 a rest : in_width 32 a -> no_digit rest -> read_ipv4_addr (fmt_ipv4 a ++ rest) = Some (a, rest).
Proof.
  intros Ha Hr. unfold in_width in Ha. unfold fmt_ipv4, read_ipv4_addr. cbv zeta.
  assert (forall n, Z.land n 255 = n mod 2 ^ 8) as Hl by (intros n; by apply (Z.land_ones n 8)).
  rewrite !Hl, !Z.shiftr_div_pow2 by lia. clear Hl.
  set (x := (a / 2 ^ 24) mod 2 ^ 8). set (y := (a / 2 ^ 16) mod 2 ^ 8). set (z := (a / 2 ^ 8) mod 2 ^ 8). set (w := a mod 2 ^ 8).
  assert (forall n, 0 <= n mod 2 ^ 8 <= 255) as Hm by (intros n; pose proof (Z.mod_pos_bound n (2 ^ 8)); lia).
  assert (0 <= x <= 255 /\ 0 <= y <= 255 /\ 0 <= z <= 255 /\ 0 <= w <= 255) as (Hx & Hy & Hz & Hw) by (repeat split; apply Hm).
  assert (((x * 256 + y) * 256 + z) * 256 + w = a) as E.
  { unfold x, y, z, w. pose proof (Z.div_mod a (2 ^ 8) ltac:(lia)). pose proof (Z.div_mod (a / 2 ^ 8) (2 ^ 8) ltac:(lia)) as H1.
    pose proof (Z.div_mod (a / 2 ^ 16) (2 ^ 8) ltac:(lia)) as H2. rewrite !Z.div_div in H1, H2 by lia.
    change (2 ^ 8 * 2 ^ 8) with (2 ^ 16) in H1. change (2 ^ 16 * 2 ^ 8) with (2 ^ 24) in H2.
    rewrite (Z.mod_small (a / 2 ^ 24)) by (split; [apply Z.div_pos; lia|apply Z.div_lt_upper_bound; lia]). lia. }
  rewrite <- E. clear E Hm. clearbody x y z w. clear a Ha. rewrite <- !app_assoc.
  assert (forall n sep i s, 0 <= n <= 255 -> no_digit s -> 0 < i ->
    read_separator sep i (read_number 10 3 255 false) (sep :: print_dec n ++ s) = Some (n, s)) as Hsep.
  { intros n sep i s Hn Hs Hi. unfold read_separator. rewrite (proj2 (Z.gtb_lt i 0)) by done. cbn [read_given_char].
    rewrite byte_eqb_refl. cbn [mbind option_bind]. apply read_number_print; [done|done|by apply print_octet_len|done]. }
  assert (forall n s, 0 <= n <= 255 -> no_digit s ->
    read_separator "." 0 (read_number 10 3 255 false) (print_dec n ++ s) = Some (n, s)) as H0.
  { intros n s Hn Hs. unfold read_separator. change (0 >? 0) with false. cbn iota.
    apply read_number_print; [done|done|by apply print_octet_len|done]. }
  rewrite H0 by done. cbn [mbind option_bind app]. do 3 (rewrite Hsep; [|done|done|done]; cbn [mbind option_bind app]). done.
Qed.

Lemma parse_fmt_socket_v4 a p :
  in_width 32 a -> in_width 16 p -> parse_socket_addr (fmt_socket_addr (mkSocketAddr (V4 a) p)) = Some (mkSocketAddr (V4 a) p).
Proof.
  intros Ha Hp. unfold in_width in Hp. unfold parse_socket_addr, parse_with, read_socket_addr, fmt_socket_addr. cbn [ip port].
  rewrite read_fmt_ipv4 by done. cbn [mbind option_bind]. unfold read_port. cbn [read_given_char].
  rewrite byte_eqb_refl. cbn [mbind option_bind]. rewrite <- (app_nil_r (print_dec p)).
  assert (len (print_dec p) <= 20) as Hl.
  { unfold print_dec, len. generalize p. clear. assert (forall f n, (length (print_dec_fuel f n) <= f)%nat) as H.
    { induction f as [|f IH]; intros n; cbn [print_dec_fuel]; [done|]. destruct (n <? 10); cbn [length]; [lia|].
      rewrite length_app. cbn [length]. specialize (IH (n / 10)). lia. }
    intros p. specialize (H 20%nat p). lia. }
  rewrite read_number_print; [done|lia|done|unfold usize_max; lia|done].
Qed.
