(* ===== verification/Bencode.v ===== *)
(** * Bencode: [crates/swarmotter-core/src/bencode.rs]

    The strict decoder ([decode], [decode_prefix] and the [Parser] methods), the
    raw-bytes scanner that finds the [info] slice ([extract_value_bytes]) and the
    canonical encoder ([encode_json]).  The specification is [print], the bencode
    text of a value: [decode] accepts exactly the texts of well-formed values
    within the depth, node and size limits. *)

From S2P Require Import Prelude Text.

Local Open Scope byte_scope.
Local Open Scope Z_scope.

(** The limits of [crates/swarmotter-core/src/meta.rs]. *)
Definition MAX_TORRENT_METADATA_BYTES : Z := 16 * 1024 * 1024.
Definition MAX_BENCODE_DEPTH : Z := 128.
Definition MAX_BENCODE_NODES : Z := 250000.

#[warnings="-register-all"]
Inductive Value : Type :=
  | Int (i : Z)
  | Str (s : list byte)
  | List (l : list Value)
  | Dict (d : list (list byte * Value)).

(** ** Accessors *)

Definition as_str (v : Value) : option (list byte) :=
  match v with Str s => Some s | _ => None end.

Definition as_str_utf8 (v : Value) : option (list byte) :=
  match v with Str s => if utf8_valid s then Some s else None | _ => None end.

Definition as_int (v : Value) : option Z :=
  match v with Int i => Some i | _ => None end.

Definition as_list (v : Value) : option (list Value) :=
  match v with List l => Some l | _ => None end.

Definition as_dict (v : Value) : option (list (list byte * Value)) :=
  match v with Dict d => Some d | _ => None end.

Definition get_value (v : Value) (key : list byte) : option Value :=
  match v with
  | Dict d => snd <$> List.find (fun kv => bool_decide (kv.1 = key)) d
  | _ => None
  end.

Definition get_str (v : Value) (key : list byte) : option (list byte) :=
  get_value v key ≫= as_str_utf8.

(** ** The parser *)

Record Parser : Type := mkParser { pos : Z; depth : Z; nodes : Z }.

Definition set_pos (p : Parser) (x : Z) : Parser := mkParser x (depth p) (nodes p).
Definition set_depth (p : Parser) (x : Z) : Parser := mkParser (pos p) x (nodes p).
Definition set_nodes (p : Parser) (x : Z) : Parser := mkParser (pos p) (depth p) x.

Section parser.
(** The input, [Parser::bytes]. *)
Variable bytes : list byte.

Definition peek (p : Parser) : outcome byte :=
  ok_or (get bytes (pos p)) (Bencode "unexpected end of input").

Definition bump (p : Parser) : outcome (byte * Parser) :=
  b ← peek p;
  x ← ok_or (checked_add (pos p) 1) (Bencode "cursor overflow");
  Ok (b, set_pos p x).

Definition count_node (p : Parser) : outcome Parser :=
  n ← ok_or (checked_add (nodes p) 1) (Bencode "node count overflow");
  _ ← fail_if (MAX_BENCODE_NODES <? n) (Bencode "bencode node count exceeds maximum");
  Ok (set_nodes p n).

Definition enter (p : Parser) : outcome Parser :=
  n ← ok_or (checked_add (depth p) 1) (Bencode "nesting depth overflow");
  _ ← fail_if (MAX_BENCODE_DEPTH <? n) (Bencode "bencode nesting depth exceeds maximum");
  Ok (set_depth p n).

Definition leave (p : Parser) : outcome Parser :=
  n ← ok_or (checked_sub (depth p) 1) (Bencode "nesting depth underflow");
  Ok (set_depth p n).

(** The scan loop of [parse_int]: advance to the next [e] or to the end. *)
Fixpoint scan_int (fuel : nat) (p : Parser) : outcome Parser :=
  match fuel with
  | O => OutOfFuel
  | S f =>
      match peek p with
      | Ok b =>
          if Byte.eqb b "e" then Ok p
          else
            x ← ok_or (checked_add (pos p) 1) (Bencode "integer cursor overflow");
            scan_int f (set_pos p x)
      | _ => Ok p
      end
  end.

Definition parse_int (p : Parser) : outcome (Value * Parser) :=
  '(_, p) ← bump p;
  let start := pos p in
  p ← scan_int (S (length bytes)) p;
  _ ← fail_if (start =? pos p) (Bencode "empty integer");
  s ← slice bytes start (pos p);
  _ ← fail_if (negb (utf8_valid s)) (Bencode "integer body is not utf8");
  c0 ← index s 0;
  '(sign, digits) ← (if Byte.eqb c0 "-" then
      _ ← fail_if (len s =? 1) (Bencode "integer has sign without digits");
      t ← slice_from s 1;
      Ok (true, t)
    else Ok (false, s));
  _ ← fail_if (len digits =? 0) (Bencode "integer has no digits");
  _ ← fail_if (negb (forallb is_ascii_digit digits)) (Bencode "integer contains non-digit");
  d0 ← index digits 0;
  _ ← fail_if (Byte.eqb d0 "0" && (1 <? len digits)) (Bencode "integer has leading zero");
  _ ← fail_if (Byte.eqb d0 "0" && sign) (Bencode "negative zero is not allowed");
  n ← ok_or (parse_i64 sign digits) (Bencode "integer out of i64 range");
  '(_, p) ← bump p;
  Ok (Int n, p).

Definition parse_str (p : Parser) : outcome (list byte * Parser) :=
  r ← slice_from bytes (pos p);
  colon ← ok_or (position (fun b => Byte.eqb b ":") r) (Bencode "missing ':' in string");
  after_len ← ok_or (checked_add (pos p) colon)
    (Bencode "string length prefix overflows cursor");
  len_bytes ← slice bytes (pos p) after_len;
  _ ← fail_if (colon =? 0) (Bencode "empty string length prefix");
  _ ← fail_if (negb (forallb is_ascii_digit len_bytes)) (Bencode "string length is not digits");
  lead ← (if 1 <? len len_bytes
          then b ← index len_bytes 0; Ok (Byte.eqb b "0") else Ok false);
  _ ← fail_if lead (Bencode "string length has leading zero");
  _ ← fail_if (negb (utf8_valid len_bytes)) (Bencode "string length is not utf8");
  n ← ok_or (parse_usize len_bytes) (Bencode "string length is not a valid usize");
  data_start ← ok_or (checked_add after_len 1)
    (Bencode "string colon offset overflows cursor");
  data_end ← ok_or (checked_add data_start n) (Bencode "string end overflows cursor");
  _ ← fail_if (len bytes <? data_end) (Bencode "string overruns input");
  s ← slice bytes data_start data_end;
  Ok (s, set_pos p data_end).

(** [parse], with the loops of [parse_list] and [parse_dict].  Each call and
    each loop iteration uses one unit of fuel. *)
Fixpoint parse (fuel : nat) (p : Parser) {struct fuel} : outcome (Value * Parser) :=
  match fuel with
  | O => OutOfFuel
  | S f =>
      p ← count_node p;
      b ← peek p;
      if Byte.eqb b "i" then parse_int p
      else if Byte.eqb b "l" then
        '(_, p) ← bump p;
        p ← enter p;
        '(items, p) ← parse_list_loop f p [];
        '(_, p) ← bump p;
        p ← leave p;
        Ok (List items, p)
      else if Byte.eqb b "d" then
        '(_, p) ← bump p;
        p ← enter p;
        '(entries, p) ← parse_dict_loop f p ∅ [];
        '(_, p) ← bump p;
        p ← leave p;
        Ok (Dict entries, p)
      else if is_ascii_digit b then
        '(s, p) ← parse_str p;
        Ok (Str s, p)
      else Err (Bencode "invalid token")
  end
with parse_list_loop (fuel : nat) (p : Parser) (items : list Value) {struct fuel}
  : outcome (list Value * Parser) :=
  match fuel with
  | O => OutOfFuel
  | S f =>
      b ← peek p;
      if Byte.eqb b "e" then Ok (items, p)
      else
        '(v, p) ← parse f p;
        parse_list_loop f p (items ++ [v])
  end
with parse_dict_loop (fuel : nat) (p : Parser) (seen : gset (list byte))
    (entries : list (list byte * Value)) {struct fuel}
  : outcome (list (list byte * Value) * Parser) :=
  match fuel with
  | O => OutOfFuel
  | S f =>
      b ← peek p;
      if Byte.eqb b "e" then Ok (entries, p)
      else
        first ← peek p;
        _ ← fail_if (negb (is_ascii_digit first)) (Bencode "dictionary key is not a string");
        p ← count_node p;
        '(key, p) ← parse_str p;
        _ ← fail_if (bool_decide (key ∈ seen)) (Bencode "duplicate dictionary key");
        '(v, p) ← parse f p;
        parse_dict_loop f p ({[key]} ∪ seen) (entries ++ [(key, v)])
  end.
End parser.

(** Fuel for a whole input: two units per byte and one for the root. *)
Definition decode_fuel (bytes : list byte) : nat := S (2 * length bytes).

Definition decode_prefix (bytes : list byte) : outcome (Value * Z) :=
  _ ← fail_if (MAX_TORRENT_METADATA_BYTES <? len bytes) (Bencode "input length exceeds maximum");
  '(value, p) ← parse bytes (decode_fuel bytes) (mkParser 0 0 0);
  Ok (value, pos p).

Definition decode (bytes : list byte) : outcome Value :=
  '(value, consumed) ← decode_prefix bytes;
  _ ← fail_if (negb (consumed =? len bytes)) (Bencode "trailing bytes after top-level value");
  Ok value.

(** ** The raw scanner *)

Definition advance (cursor amount : Z) : option Z := checked_add cursor amount.

Section scanner.
Variable bytes : list byte.

(** Indexing and slicing cannot go out of range in these functions without a
    panic, so they live in [outcome (option _)]: [Ok None] is Rust's [None]. *)
Definition read_str (p : Z) : outcome (option (list byte * Z)) :=
  r ← slice_from bytes p;
  match position (fun b => Byte.eqb b ":") r with
  | None => Ok None
  | Some colon =>
  match checked_add p colon with
  | None => Ok None
  | Some after_len =>
  len_bytes ← slice bytes p after_len;
  if (colon =? 0) || negb (forallb is_ascii_digit len_bytes) then Ok None
  else
    lead ← (if (1 <? len len_bytes)%Z
            then b ← index len_bytes 0; Ok (Byte.eqb b "0") else Ok false);
    if (lead : bool) then Ok None
    else if negb (utf8_valid len_bytes) then Ok None
    else
      match parse_usize len_bytes with
      | None => Ok None
      | Some n =>
      match checked_add after_len 1 with
      | None => Ok None
      | Some data_start =>
      match checked_add data_start n with
      | None => Ok None
      | Some data_end =>
          if len bytes <? data_end then Ok None
          else s ← slice bytes data_start data_end; Ok (Some (s, data_end))
      end
      end
      end
  end
  end.

(** [while *p < bytes.len() && bytes[*p] != b'e' { advance(p, 1)?; }] *)
Fixpoint skip_to_e (fuel : nat) (p : Z) : outcome (option Z) :=
  match fuel with
  | O => OutOfFuel
  | S f =>
      if p <? len bytes then
        b ← index bytes p;
        if Byte.eqb b "e" then Ok (Some p)
        else match advance p 1 with
             | None => Ok None
             | Some p => skip_to_e f p
             end
      else Ok (Some p)
  end.

(** The loop of the [b'l' | b'd'] arm of [skip_value]. *)
Fixpoint skip_nested (fuel : nat) (p depth : Z) : outcome (option Z) :=
  match fuel with
  | O => OutOfFuel
  | S f =>
      if (p <? len bytes) && (0 <? depth) then
        b ← index bytes p;
        if Byte.eqb b "l" || Byte.eqb b "d" then
          match checked_add depth 1 with
          | None => Ok None
          | Some depth =>
              match advance p 1 with None => Ok None | Some p => skip_nested f p depth end
          end
        else if Byte.eqb b "e" then
          match checked_sub depth 1 with
          | None => Ok None
          | Some depth =>
              match advance p 1 with None => Ok None | Some p => skip_nested f p depth end
          end
        else if is_ascii_digit b then
          r ← read_str p;
          match (r : option _) with None => Ok None | Some (_, p) => skip_nested f p depth end
        else if Byte.eqb b "i" then
          match advance p 1 with
          | None => Ok None
          | Some p =>
              r ← skip_to_e (S (length bytes)) p;
              match (r : option _) with
              | None => Ok None
              | Some p =>
                  if len bytes <=? p then Ok None
                  else match advance p 1 with
                       | None => Ok None
                       | Some p => skip_nested f p depth
                       end
              end
          end
        else Ok None
      else Ok (Some p)
  end.

Definition skip_value (p : Z) : outcome (option Z) :=
  match get bytes p with
  | None => Ok None
  | Some b =>
      if Byte.eqb b "i" then
        match advance p 1 with
        | None => Ok None
        | Some p =>
            let body_start := p in
            r ← skip_to_e (S (length bytes)) p;
            match (r : option _) with
            | None => Ok None
            | Some p =>
                if len bytes <=? p then Ok None
                else if p =? body_start then Ok None
                else Ok (advance p 1)
            end
        end
      else if Byte.eqb b "l" || Byte.eqb b "d" then
        match advance p 1 with
        | None => Ok None
        | Some p => skip_nested (S (length bytes)) p 1
        end
      else if is_ascii_digit b then
        r ← read_str p;
        match (r : option _) with None => Ok None | Some (_, p) => Ok (Some p) end
      else Ok None
  end.

(** The [while p < bytes.len()] loop of [extract_value_bytes]. *)
Fixpoint extract_loop (fuel : nat) (key : list byte) (p : Z)
  : outcome (option (list byte)) :=
  match fuel with
  | O => OutOfFuel
  | S f =>
      if p <? len bytes then
        b ← index bytes p;
        if Byte.eqb b "e" then Ok None
        else
          r ← read_str p;
          match (r : option _) with
          | None => Ok None
          | Some (k, p) =>
              let start := p in
              r ← skip_value p;
              match (r : option _) with
              | None => Ok None
              | Some p =>
                  if bool_decide (k = key) then s ← slice bytes start p; Ok (Some s)
                  else extract_loop f key p
              end
          end
      else Ok None
  end.

Definition extract_value_bytes (key : list byte) : outcome (option (list byte)) :=
  if MAX_TORRENT_METADATA_BYTES <? len bytes then Ok None
  else match get bytes 0 with
       | None => Ok None
       | Some b =>
           if negb (Byte.eqb b "d") then Ok None
           else match checked_add 0 1 with
                | None => Ok None
                | Some p => extract_loop (S (length bytes)) key p
                end
       end.
End scanner.

(** ** The encoder *)

(** [write_bytes]: appends to [out]. *)
Definition write_bytes (out b : list byte) : list byte :=
  out ++ print_dec (len b) ++ [":"%byte] ++ b.

(** Byte order of keys, as [<[u8]>::cmp] compares them. *)
Fixpoint bytes_le (a b : list byte) : bool :=
  match a, b with
  | [], _ => true
  | _ :: _, [] => false
  | x :: a', y :: b' =>
      if u8 x <? u8 y then true else if u8 x =? u8 y then bytes_le a' b' else false
  end.

Section encoder.
(** [serde_json::Number] and its [to_string] belong to the serde_json crate. *)
Context {Number : Type} (number_to_string : Number -> list byte).

(** [serde_json::Value], the crate's type the encoder takes apart; an object
    is the sequence of entries its iterator yields. *)
#[warnings="-register-all"]
Inductive Json : Type :=
  | JNull
  | JBool (b : bool)
  | JNumber (n : Number)
  | JString (s : list byte)
  | JArray (a : list Json)
  | JObject (o : list (list byte * Json)).

(** [encode_json], appending to [out].  The object arm sorts the entries with
    the encoder of each value attached to its key. *)
Fixpoint encode_json (v : Json) (out : list byte) {struct v} : outcome (list byte) :=
  match v with
  | JNull => Err (Bencode "null not encodable")
  | JBool b => Ok (out ++ ["i"%byte] ++ (if b then ["1"%byte] else ["0"%byte]) ++ ["e"%byte])
  | JNumber n => Ok (out ++ ["i"%byte] ++ number_to_string n ++ ["e"%byte])
  | JString s => Ok (write_bytes out s)
  | JArray a =>
      out ← foldl (fun acc enc => out ← acc; enc out)
              (Ok (out ++ ["l"%byte])) (map encode_json a);
      Ok (out ++ ["e"%byte])
  | JObject o =>
      let entries := sort_by (fun a b => bytes_le a.1 b.1)
                       (map (fun kv => (kv.1, encode_json kv.2)) o) in
      out ← foldl (fun acc kenc => out ← acc; kenc.2 (write_bytes out kenc.1))
              (Ok (out ++ ["d"%byte])) entries;
      Ok (out ++ ["e"%byte])
  end.
End encoder.

(** ** Specification *)

(** The bencode text of a value. *)
Definition print_str (s : list byte) : list byte := print_dec (len s) ++ ":"%byte :: s.
Fixpoint print (v : Value) : list byte :=
  match v with
  | Int i => "i"%byte :: print_i64 i ++ ["e"%byte]
  | Str s => print_str s
  | List l => "l"%byte :: concat (map print l) ++ ["e"%byte]
  | Dict d => "d"%byte :: concat (map (fun kv => print_str kv.1 ++ print kv.2) d) ++ ["e"%byte]
  end.
Definition print_items (l : list Value) : list byte := concat (map print l).
Definition print_entries (d : list (list byte * Value)) : list byte :=
  concat (map (fun kv => print_str kv.1 ++ print kv.2) d).

(** Integers fit [i64]; the keys of every dictionary are distinct. *)
Fixpoint wf (v : Value) : Prop :=
  match v with
  | Int i => i64_min <= i <= i64_max
  | Str _ => True
  | List l => foldr (fun v P => wf v /\ P) True l
  | Dict d => NoDup d.*1 /\ foldr (fun kv P => wf kv.2 /\ P) True d
  end.

(** Nesting depth (a scalar is at depth zero) and number of nodes (a dictionary
    key is a node). *)
Fixpoint vdepth (v : Value) : Z :=
  match v with
  | Int _ | Str _ => 0
  | List l => 1 + foldr (fun v m => Z.max (vdepth v) m) 0 l
  | Dict d => 1 + foldr (fun kv m => Z.max (vdepth kv.2) m) 0 d
  end.
Fixpoint vnodes (v : Value) : Z :=
  match v with
  | Int _ | Str _ => 1
  | List l => 1 + foldr (fun v m => vnodes v + m) 0 l
  | Dict d => 1 + foldr (fun kv m => 1 + vnodes kv.2 + m) 0 d
  end.
Definition items_nodes (l : list Value) : Z := foldr (fun v m => vnodes v + m) 0 l.
Definition entries_nodes (d : list (list byte * Value)) : Z :=
  foldr (fun kv m => 1 + vnodes kv.2 + m) 0 d.

(** What the decoder promises to accept. *)
Definition within_limits (v : Value) : Prop :=
  wf v /\ vdepth v <= MAX_BENCODE_DEPTH /\ vnodes v <= MAX_BENCODE_NODES /\
  len (print v) <= MAX_TORRENT_METADATA_BYTES.

(** The value a JSON document encodes to: booleans become 0 or 1, objects become
    dictionaries in key order. *)
Section of_json.
Context {Number : Type} (number_value : Number -> Z).

Fixpoint of_json (j : @Json Number) : Value :=
  match j with
  | JNull => Int 0
  | JBool b => Int (if b then 1 else 0)
  | JNumber n => Int (number_value n)
  | JString s => Str s
  | JArray a => List (map of_json a)
  | JObject o => Dict (sort_by (fun a b => bytes_le a.1 b.1)
                         (map (fun kv => (kv.1, of_json kv.2)) o))
  end.

(** No null, every number an [i64] in its decimal text, object keys distinct,
    strings no longer than any Rust allocation. *)
Fixpoint encodable (number_to_string : Number -> list byte) (j : @Json Number) : Prop :=
  match j with
  | JNull => False
  | JBool _ => True
  | JNumber n =>
      i64_min <= number_value n <= i64_max /\ number_to_string n = print_i64 (number_value n)
  | JString _ => True
  | JArray a => foldr (fun j P => encodable number_to_string j /\ P) True a
  | JObject o => NoDup o.*1 /\ foldr (fun kj P => encodable number_to_string kj.2 /\ P) True o
  end.
End of_json.

(** Dictionaries in strictly canonical order, at every level. *)
Fixpoint canonical (v : Value) : Prop :=
  match v with
  | Int _ | Str _ => True
  | List l => foldr (fun v P => canonical v /\ P) True l
  | Dict d => Sorted (fun a b => bytes_le a b = true) d.*1 /\
              foldr (fun kv P => canonical kv.2 /\ P) True d
  end.
