(* ===== verification/BencodeCorrect.v ===== *)
(** * Bencode: correctness of the decoder, the scanner and the encoder

    [Grammar] treats the two lexical forms, [Decoder] the recursive parser,
    [Scanner] the raw search for a key, [Encoder] the canonical encoder. *)

From S2P Require Import Prelude Text Bencode.

(** ** Values *)

Section value_ind.
Variable P : Value -> Prop.
Hypothesis PInt : forall i, P (Int i).
Hypothesis PStr : forall s, P (Str s).
Hypothesis PList : forall l, Forall P l -> P (List l).
Hypothesis PDict : forall d, Forall (fun kv => P kv.2) d -> P (Dict d).

(** Induction over the values nested in lists and dictionaries. *)
Fixpoint Value_induction (v : Value) : P v :=
  match v with
  | Int i => PInt i
  | Str s => PStr s
  | List l => PList l
      ((fix go (l : list Value) : Forall P l :=
          match l with
          | [] => Forall_nil_2 _
          | v :: l' => Forall_cons_2 _ _ _ (Value_induction v) (go l')
          end) l)
  | Dict d => PDict d
      ((fix go (d : list (list byte * Value)) : Forall (fun kv => P kv.2) d :=
          match d with
          | [] => Forall_nil_2 _
          | kv :: d' => Forall_cons_2 _ _ _ (Value_induction kv.2) (go d')
          end) d)
  end.
End value_ind.

Lemma print_nonempty v : 1 <= len (print v).
Proof.
  destruct v as [i|s|l|d]; cbn [print]; rewrite ?len_cons.
  - pose proof (len_nonneg (print_i64 i ++ ["e"%byte])). lia.
  - unfold print_str. rewrite len_app, len_cons.
    pose proof (len_nonneg (print_dec (len s))). pose proof (len_nonneg s). lia.
  - pose proof (len_nonneg (concat (map print l) ++ ["e"%byte])). lia.
  - match goal with |- context [len ?x] => pose proof (len_nonneg x) end. lia.
Qed.

Lemma vnodes_pos v : 1 <= vnodes v.
Proof.
  induction v as [i|s|l H|d H] using Value_induction; cbn; try lia.
  - induction H as [|v l Hv Hl IH]; cbn; lia.
  - induction H as [|v l Hv Hl IH]; cbn; lia.
Qed.

Lemma items_nodes_nonneg l : 0 <= items_nodes l.
Proof.
  induction l as [|v l IH]; [done|]. cbn. fold (items_nodes l).
  pose proof (vnodes_pos v). lia.
Qed.

Lemma entries_nodes_nonneg d : 0 <= entries_nodes d.
Proof.
  induction d as [|kv l IH]; [done|]. cbn. fold (entries_nodes l).
  pose proof (vnodes_pos kv.2). lia.
Qed.

Lemma wf_List l : wf (List l) <-> Forall wf l.
Proof.
  cbn. induction l as [|v l IH]; cbn; [done|]. rewrite Forall_cons. by rewrite IH.
Qed.

Lemma wf_Dict d : wf (Dict d) <-> NoDup d.*1 /\ Forall (fun kv => wf kv.2) d.
Proof.
  cbn. apply and_iff_compat_l.
  induction d as [|v l IH]; cbn; [done|]. rewrite Forall_cons. by rewrite IH.
Qed.

Lemma vdepth_List l k :
  1 <= k -> vdepth (List l) <= k <-> Forall (fun v => 1 + vdepth v <= k) l.
Proof.
  intros. cbn. induction l as [|v l IH]; cbn.
  - split; [done|lia].
  - rewrite Forall_cons, <- IH. lia.
Qed.

Lemma vdepth_Dict d k :
  1 <= k -> vdepth (Dict d) <= k <-> Forall (fun kv => 1 + vdepth kv.2 <= k) d.
Proof.
  intros. cbn. induction d as [|v l IH]; cbn.
  - split; [done|lia].
  - rewrite Forall_cons, <- IH. lia.
Qed.

Lemma vdepth_nonneg v : 0 <= vdepth v.
Proof.
  destruct v as [i|s|l|d]; cbn; try lia.
  - assert (0 <= foldr (fun v m => Z.max (vdepth v) m) 0 l); [|lia].
    induction l; cbn; lia.
  - assert (0 <= foldr (fun kv m => Z.max (vdepth (snd kv)) m) 0 d); [|lia].
    induction d; cbn; lia.
Qed.

(** ** Lexical forms *)

Lemma utf8_digits ds :
  Forall (fun b => is_ascii_digit b = true) ds -> utf8_valid ds = true.
Proof. intros. by apply utf8_valid_ascii, digits_ascii. Qed.

(** The checks of a length prefix. *)
Definition str_len (ds : list byte) : outcome Z :=
  _ ← fail_if (len ds =? 0) (Bencode "empty string length prefix");
  _ ← fail_if (negb (forallb is_ascii_digit ds)) (Bencode "string length is not digits");
  lead ← (if 1 <? len ds then b ← index ds 0; Ok (Byte.eqb b "0") else Ok false);
  _ ← fail_if lead (Bencode "string length has leading zero");
  _ ← fail_if (negb (utf8_valid ds)) (Bencode "string length is not utf8");
  ok_or (parse_usize ds) (Bencode "string length is not a valid usize").

Lemma index_0 {A} (a : A) l : index (a :: l) 0 = Ok a.
Proof. done. Qed.

(** The leading-zero test of the decoder. *)
Definition lead_zero (ds : list byte) : bool :=
  (1 <? len ds) && match ds with b :: _ => Byte.eqb b "0" | [] => false end.

Lemma lead_zero_eq ds :
  (if 1 <? len ds then b ← index ds 0; Ok (Byte.eqb b "0"%byte) else Ok false)
  = Ok (lead_zero ds).
Proof.
  unfold lead_zero. destruct ds as [|b ds]; [done|]. rewrite index_0.
  by destruct (1 <? len (b :: ds)).
Qed.

Lemma canonical_dec_checks ds :
  canonical_dec ds <->
  forallb is_ascii_digit ds = true /\ (len ds =? 0) = false /\ lead_zero ds = false.
Proof.
  unfold canonical_dec, lead_zero. rewrite all_digits_Forall, Z.eqb_neq, len_0.
  destruct ds as [|b ds]; cbn [head]; [naive_solver|].
  rewrite len_cons. split; intros (H1 & H2 & H3); repeat split; auto.
  - destruct (Byte.eqb b "0") eqn:E; [|by rewrite andb_false_r].
    apply byte_eqb_eq in E as ->. specialize (H3 eq_refl). cbn in H3.
    unfold len. by replace (length ds) with O by lia.
  - intros [= ->]. cbn in H3. rewrite andb_true_r in H3.
    unfold len in H3. cbn. lia.
Qed.

Lemma str_len_Ok ds n :
  str_len ds = Ok n <-> ds = print_dec n /\ 0 <= n <= usize_max.
Proof.
  unfold str_len. rewrite lead_zero_eq. split.
  - intros H. inv_ok. rewrite negb_false_iff in *.
    assert (canonical_dec ds) as Hc by by apply canonical_dec_checks.
    apply parse_usize_Some in H as [-> Hv].
    pose proof (dec_value_nonneg ds (proj1 Hc)).
    by rewrite print_dec_of_value.
  - intros [-> Hn]. pose proof (print_dec_canonical n Hn) as Hc.
    pose proof (proj1 (canonical_dec_checks _) Hc) as (-> & -> & ->).
    rewrite (utf8_digits _ (proj1 Hc)). ok_simpl.
    apply ok_or_Ok, parse_usize_Some. rewrite print_dec_value; auto. unfold usize_max in *. lia.
Qed.

Lemma str_len_returns ds : returns (str_len ds).
Proof.
  unfold str_len. rewrite lead_zero_eq.
  returns_tac.
Qed.

(** The checks of an integer body. *)
Definition int_body (s : list byte) : outcome Z :=
  _ ← fail_if (negb (utf8_valid s)) (Bencode "integer body is not utf8");
  c0 ← index s 0;
  '(sign, digits) ← (if Byte.eqb c0 "-" then
      _ ← fail_if (len s =? 1) (Bencode "integer has sign without digits");
      t ← slice_from s 1;
      Ok (true, t)
    else Ok (false, s));
  _ ← fail_if (len digits =? 0) (Bencode "integer has no digits");
  _ ← fail_if (negb (forallb is_ascii_digit digits)) (Bencode "integer contains non-digit");
  d0 ← index digits 0;
  _ ← fail_if (Byte.eqb d0 "0" && (1 <? len digits)) (Bencode "integer has leading zero");
  _ ← fail_if (Byte.eqb d0 "0" && sign) (Bencode "negative zero is not allowed");
  ok_or (parse_i64 sign digits) (Bencode "integer out of i64 range").

(** The part of [int_body] after the sign was taken off. *)
Definition int_digits (sign : bool) (digits : list byte) : outcome Z :=
  _ ← fail_if (len digits =? 0) (Bencode "integer has no digits");
  _ ← fail_if (negb (forallb is_ascii_digit digits)) (Bencode "integer contains non-digit");
  d0 ← index digits 0;
  _ ← fail_if (Byte.eqb d0 "0" && (1 <? len digits)) (Bencode "integer has leading zero");
  _ ← fail_if (Byte.eqb d0 "0" && sign) (Bencode "negative zero is not allowed");
  ok_or (parse_i64 sign digits) (Bencode "integer out of i64 range").

Lemma int_digits_Ok sign ds i :
  int_digits sign ds = Ok i <->
  canonical_dec ds /\ (sign = true -> head ds <> Some "0"%byte) /\
  parse_i64 sign ds = Some i.
Proof.
  unfold int_digits. rewrite canonical_dec_checks. unfold lead_zero.
  destruct ds as [|b ds].
  { split; [intros H; inv_ok|naive_solver]. }
  rewrite index_0, bind_ret, (andb_comm (Byte.eqb b "0") (1 <? _)). cbn [head].
  split.
  - intros H. inv_ok. rewrite negb_false_iff in *. repeat split; auto.
    intros -> [= ->]. done.
  - intros ((H1 & H2 & H3) & Hs & H). rewrite H1, H2, H3. ok_simpl.
    destruct sign; [|rewrite andb_false_r; by apply ok_or_Ok].
    rewrite (proj2 (byte_eqb_neq b "0")); [by apply ok_or_Ok|]. intros ->. by apply Hs.
Qed.

Lemma int_digits_returns sign ds : returns (int_digits sign ds).
Proof.
  unfold int_digits. destruct ds as [|b ds]; [done|]. rewrite index_0.
  returns_tac.
Qed.

Lemma int_body_eq s :
  s <> [] ->
  int_body s =
    (_ ← fail_if (negb (utf8_valid s)) (Bencode "integer body is not utf8");
     match s with
     | [] => Panic
     | c0 :: t =>
         if Byte.eqb c0 "-" then
           _ ← fail_if (len s =? 1) (Bencode "integer has sign without digits");
           int_digits true t
         else int_digits false s
     end).
Proof.
  intros Hs. unfold int_body. destruct s as [|c0 t]; [done|]. rewrite index_0.
  destruct (utf8_valid (c0 :: t)); ok_simpl; [|done].
  destruct (Byte.eqb c0 "-"); [|done].
  destruct (len (c0 :: t) =? 1); [done|]. ok_simpl.
  rewrite slice_from_rest; [done|]. rewrite len_cons. pose proof (len_nonneg t). lia.
Qed.

Lemma canonical_pos ds :
  canonical_dec ds -> head ds <> Some "0"%byte -> 0 < dec_value ds.
Proof.
  intros (Hd & Hne & _) Hh. pose proof (dec_value_lower _ Hd Hne Hh).
  assert (0 < 10 ^ (len ds - 1)); [|lia]. apply Z.pow_pos_nonneg; [lia|].
  destruct ds; [done|]. rewrite len_cons. pose proof (len_nonneg ds). lia.
Qed.

Lemma print_dec_pos_head n : 0 < n <= u64_max -> head (print_dec n) <> Some "0"%byte.
Proof. intros. apply head_print_dec_fuel. unfold u64_max in *. cbn. lia. Qed.

Lemma print_dec_not_sign n b t :
  0 <= n <= u64_max -> print_dec n = b :: t -> Byte.eqb b "-" = false.
Proof.
  intros Hn E. pose proof (proj1 (print_dec_canonical n Hn)) as Hd. rewrite E in Hd.
  inversion Hd as [|? ? Hb _]; subst. apply byte_eqb_neq. by intros ->.
Qed.

Lemma int_body_sound s i :
  s <> [] -> int_body s = Ok i -> s = print_i64 i /\ i64_min <= i <= i64_max.
Proof.
  intros Hs. rewrite int_body_eq by done. destruct s as [|c t]; [done|].
  intros H. apply bind_Ok in H as ([] & _ & H). unfold print_i64.
  destruct (Byte.eqb c "-") eqn:Hc.
  - apply byte_eqb_eq in Hc as ->. apply bind_Ok in H as ([] & _ & H).
    apply int_digits_Ok in H as (Hcan & Hh & Hp). apply parse_i64_Some in Hp as [-> Hr].
    pose proof (canonical_pos t Hcan (Hh eq_refl)).
    destruct (Z.ltb_spec (- dec_value t) 0); [|lia].
    rewrite Z.opp_involutive, print_dec_of_value; auto. unfold i64_min, u64_max in *. lia.
  - apply int_digits_Ok in H as (Hcan & _ & Hp). apply parse_i64_Some in Hp as [-> Hr].
    pose proof (dec_value_nonneg _ (proj1 Hcan)).
    destruct (Z.ltb_spec (dec_value (c :: t)) 0); [lia|].
    rewrite print_dec_of_value; auto. unfold i64_max, u64_max in *. lia.
Qed.

Lemma print_i64_ascii i :
  i64_min <= i <= i64_max ->
  Forall (fun b => u8 b < 128 /\ b <> "e"%byte) (print_i64 i) /\ print_i64 i <> [].
Proof.
  intros Hr. unfold print_i64.
  assert (forall n, 0 <= n <= u64_max ->
            Forall (fun b => u8 b < 128 /\ b <> "e"%byte) (print_dec n)) as Hall.
  { intros n Hn. eapply Forall_impl; [exact (proj1 (print_dec_canonical n Hn))|].
    intros b Hb. split; [apply is_ascii_digit_range in Hb; lia|by apply digit_not_e]. }
  unfold i64_min, i64_max, u64_max in *. destruct (Z.ltb_spec i 0).
  - split; [|done]. constructor; [done|]. apply Hall. lia.
  - split; [apply Hall; lia|]. apply print_dec_canonical. unfold u64_max. lia.
Qed.

Lemma int_body_complete i : i64_min <= i <= i64_max -> int_body (print_i64 i) = Ok i.
Proof.
  intros Hr. pose proof (print_i64_ascii i Hr) as [Hascii Hne].
  rewrite int_body_eq by done. rewrite utf8_valid_ascii.
  2: { eapply Forall_impl; [exact Hascii|]. by intros ? []. }
  ok_simpl. clear Hascii. unfold print_i64 in *. unfold i64_min, i64_max in Hr.
  destruct (Z.ltb_spec i 0) as [Hi|Hi].
  - pose proof (print_dec_canonical (- i) ltac:(unfold u64_max; lia)) as Hcan.
    rewrite (proj2 (byte_eqb_eq _ _) eq_refl).
    rewrite (proj2 (Z.eqb_neq _ _)).
    2: { rewrite len_cons. pose proof (proj1 (proj2 Hcan)) as Hn. rewrite <- len_0 in Hn. lia. }
    ok_simpl. apply int_digits_Ok. split; [done|]. split.
    { intros _. apply print_dec_pos_head. unfold u64_max. lia. }
    apply parse_i64_Some. rewrite print_dec_value by (unfold u64_max; lia).
    unfold i64_min, i64_max. lia.
  - pose proof (print_dec_canonical i ltac:(unfold u64_max; lia)) as Hcan.
    destruct (print_dec i) as [|c t] eqn:E; [done|].
    rewrite (print_dec_not_sign i c t) by (unfold u64_max; lia || done).
    apply int_digits_Ok. split; [done|]. split; [done|]. rewrite <- E.
    apply parse_i64_Some. rewrite print_dec_value by (unfold u64_max; lia).
    unfold i64_min, i64_max. lia.
Qed.

Lemma int_body_returns s : s <> [] -> returns (int_body s).
Proof.
  intros Hs. rewrite int_body_eq by done. destruct s as [|c t]; [done|].
  apply bind_returns; [auto|intros _ _].
  destruct (Byte.eqb c "-"); [|apply int_digits_returns].
  apply bind_returns; [auto|intros _ _]. apply int_digits_returns.
Qed.

(** ** The cursor *)

Section cursor.
Variable bytes : list byte.
Hypothesis Hsize : len bytes <= MAX_TORRENT_METADATA_BYTES.

(** The cursor is inside the input and the counters are counts. *)
Definition valid (p : Parser) : Prop :=
  0 <= pos p <= len bytes /\ 0 <= depth p /\ 0 <= nodes p.

(** [at_ p s m]: the input from the cursor on is [s] followed by [m]. *)
Definition at_ (p : Parser) (s m : list byte) : Prop :=
  rest bytes (pos p) = s ++ m.

Lemma at_bound p s m : valid p -> at_ p s m -> pos p + len s <= len bytes.
Proof. intros [??]. by apply rest_bound. Qed.

Lemma at_next p s m :
  valid p -> at_ p s m -> rest bytes (pos p + len s) = m.
Proof. intros [??]. apply rest_app. lia. Qed.

Lemma valid_next p s m : valid p -> at_ p s m -> valid (set_pos p (pos p + len s)).
Proof.
  intros Hv Ha. pose proof (at_bound _ _ _ Hv Ha). pose proof (len_nonneg s).
  destruct Hv as (? & ? & ?). split; cbn; lia.
Qed.

Lemma at_cons p b m : at_ p [b] m <-> rest bytes (pos p) = b :: m.
Proof. done. Qed.

Lemma checked_add_small a b : a + b <= len bytes + 1 -> checked_add a b = Some (a + b).
Proof.
  intros. apply checked_add_Some. split; [done|].
  unfold MAX_TORRENT_METADATA_BYTES, usize_max in *. lia.
Qed.

Lemma peek_at p b m : valid p -> rest bytes (pos p) = b :: m -> peek bytes p = Ok b.
Proof.
  intros [? _] E. unfold peek. apply ok_or_Ok, get_Some_rest; [lia|]. eauto.
Qed.

Lemma peek_Ok p b : valid p -> peek bytes p = Ok b -> exists m, rest bytes (pos p) = b :: m.
Proof. intros [Hp _] H%ok_or_Ok. apply get_Some_rest in H; [done|lia]. Qed.

Lemma peek_end p e : valid p -> peek bytes p = Err e -> rest bytes (pos p) = [].
Proof.
  intros [Hp _] H. apply get_None_rest; [lia|]. unfold peek in H. by destruct (get bytes (pos p)).
Qed.

Lemma peek_returns p : returns (peek bytes p).
Proof. apply ok_or_returns. Qed.

Lemma bump_at p b m :
  valid p -> rest bytes (pos p) = b :: m -> bump bytes p = Ok (b, set_pos p (pos p + 1)).
Proof.
  intros Hv E. unfold bump. rewrite (peek_at _ _ _ Hv E). ok_simpl.
  rewrite checked_add_small; [done|]. destruct Hv as [? _]. lia.
Qed.

Lemma bump_Ok p b p' :
  valid p -> bump bytes p = Ok (b, p') ->
  p' = set_pos p (pos p + 1) /\ exists m, rest bytes (pos p) = b :: m.
Proof.
  intros Hv H. unfold bump in H. inv_ok. split; [done|]. by apply peek_Ok.
Qed.

Lemma bump_returns p : returns (bump bytes p).
Proof. unfold bump. apply bind_returns; [apply peek_returns|intros]. returns_tac. Qed.

Lemma count_node_Ok p p' :
  count_node p = Ok p' <->
  p' = set_nodes p (nodes p + 1) /\ nodes p + 1 <= MAX_BENCODE_NODES.
Proof.
  unfold count_node. split.
  - intros H. inv_ok. split; [done|]. lia.
  - intros [-> H]. rewrite (proj2 (checked_add_Some _ _ (nodes p + 1))).
    2: { unfold MAX_BENCODE_NODES, usize_max in *. lia. }
    ok_simpl. by rewrite (proj2 (Z.ltb_ge _ _) H).
Qed.

Lemma enter_Ok p p' :
  enter p = Ok p' <->
  p' = set_depth p (depth p + 1) /\ depth p + 1 <= MAX_BENCODE_DEPTH.
Proof.
  unfold enter. split.
  - intros H. inv_ok. split; [done|]. lia.
  - intros [-> H]. rewrite (proj2 (checked_add_Some _ _ (depth p + 1))).
    2: { unfold MAX_BENCODE_DEPTH, usize_max in *. lia. }
    ok_simpl. by rewrite (proj2 (Z.ltb_ge _ _) H).
Qed.

Lemma leave_Ok p p' :
  leave p = Ok p' <-> p' = set_depth p (depth p - 1) /\ 1 <= depth p.
Proof.
  unfold leave. rewrite bind_Ok. setoid_rewrite ok_or_Ok.
  setoid_rewrite checked_sub_Some. naive_solver.
Qed.

Lemma count_node_returns p : returns (count_node p).
Proof. unfold count_node. returns_tac. Qed.
Lemma enter_returns p : returns (enter p).
Proof. unfold enter. returns_tac. Qed.
Lemma leave_returns p : returns (leave p).
Proof. unfold leave. returns_tac. Qed.

(** ** Integers *)

(** The body of an integer: up to the next [e] or the end of the input. *)
Definition body_end (m : list byte) : Prop := m = [] \/ exists m', m = "e"%byte :: m'.

Lemma split_at_e (l : list byte) :
  exists s m, l = s ++ m /\ Forall (fun b => b <> "e"%byte) s /\ body_end m.
Proof.
  induction l as [|b l (s & m & -> & Hs & Hm)]; [by exists [], []; repeat split; [|left]|].
  destruct (decide (b = "e"%byte)) as [->|Hb].
  - exists [], ("e"%byte :: s ++ m). repeat split; [constructor|]. right. eauto.
  - exists (b :: s), m. repeat split; [constructor|]; auto.
Qed.

Lemma scan_int_spec fuel p s m :
  valid p -> at_ p s m -> Forall (fun b => b <> "e"%byte) s -> body_end m ->
  (length s < fuel)%nat ->
  scan_int bytes fuel p = Ok (set_pos p (pos p + len s)).
Proof.
  revert p s. induction fuel as [|f IH]; intros p s Hv Ha Hs Hm Hf; [lia|].
  cbn [scan_int]. destruct s as [|b s].
  - rewrite len_nil, Z.add_0_r. destruct p as [x d n]. cbn.
    destruct Hm as [->|[m' ->]].
    + destruct (peek bytes _) eqn:E; try done.
      apply peek_Ok in E as [m' E]; [|done]. unfold at_ in Ha. cbn in *. congruence.
    + by rewrite (peek_at _ _ _ Hv Ha).
  - rewrite (peek_at _ _ _ Hv Ha). inversion Hs as [|? ? Hb Hs']; subst.
    rewrite (proj2 (byte_eqb_neq _ _) Hb).
    pose proof (at_bound _ _ _ Hv Ha) as Hbd. rewrite len_cons in *.
    pose proof (len_nonneg s).
    rewrite checked_add_small by lia. ok_simpl.
    rewrite (IH (set_pos p (pos p + 1)) s); auto.
    + unfold set_pos. cbn. do 2 f_equal. lia.
    + apply (valid_next p [b] (s ++ m)); done.
    + unfold at_. cbn. apply (at_next p [b] (s ++ m)); done.
    + cbn in Hf. lia.
Qed.

Lemma length_le_input p s m : valid p -> at_ p s m -> (length s <= length bytes)%nat.
Proof. intros Hv Ha. pose proof (at_bound _ _ _ Hv Ha). destruct Hv. unfold len in *. lia. Qed.

Lemma parse_int_eq p s m :
  valid p -> at_ p ("i"%byte :: s) m -> Forall (fun b => b <> "e"%byte) s -> body_end m ->
  parse_int bytes p =
    (if decide (s = []) then Err (Bencode "empty integer") else
     n ← int_body s;
     '(_, p') ← bump bytes (set_pos p (pos p + 1 + len s));
     Ok (Int n, p')).
Proof.
  intros Hv Ha Hs Hm. unfold parse_int. rewrite (bump_at _ _ _ Hv Ha). ok_simpl.
  assert (valid (set_pos p (pos p + 1))) as Hv1 by by apply (valid_next p ["i"%byte] (s ++ m)).
  assert (at_ (set_pos p (pos p + 1)) s m) as Ha1.
  { unfold at_. cbn. by apply (at_next p ["i"%byte] (s ++ m)). }
  rewrite (scan_int_spec _ _ s m); auto.
  2: { pose proof (length_le_input _ _ _ Hv1 Ha1). lia. }
  ok_simpl. cbn [set_pos pos]. pose proof (len_nonneg s).
  destruct (decide (s = [])) as [->|Hne].
  { rewrite len_nil, Z.add_0_r, Z.eqb_refl. done. }
  rewrite (proj2 (Z.eqb_neq _ _)) by (rewrite <- len_0 in Hne; lia). ok_simpl.
  pose proof Hv1 as [Hp1 _]. cbn in Hp1.
  rewrite (slice_app _ s m); auto. ok_simpl.
  unfold int_body. bind_cases. done.
Qed.

Lemma parse_int_split p m0 :
  valid p -> rest bytes (pos p) = "i"%byte :: m0 ->
  exists s m, at_ p ("i"%byte :: s) m /\ Forall (fun b => b <> "e"%byte) s /\ body_end m.
Proof.
  intros Hv E. destruct (split_at_e m0) as (s & m & -> & Hs & Hm).
  exists s, m. by repeat split.
Qed.

Lemma parse_int_sound p b m0 v p' :
  valid p -> rest bytes (pos p) = b :: m0 -> b = "i"%byte ->
  parse_int bytes p = Ok (v, p') ->
  exists i m, v = Int i /\ i64_min <= i <= i64_max /\ at_ p (print v) m /\
    p' = set_pos p (pos p + len (print v)).
Proof.
  intros Hv E -> H. destruct (parse_int_split _ _ Hv E) as (s & m & Ha & Hs & Hm).
  rewrite (parse_int_eq _ s m) in H by done. destruct (decide (s = [])) as [|Hne]; [done|].
  apply bind_Ok in H as (i & Hi & H). apply int_body_sound in Hi as [-> Hr]; [|done].
  apply bind_Ok in H as ([b p2] & Hb & [= <- <-]).
  pose proof (valid_next _ _ _ Hv Ha) as Hv2. cbn in Hv2.
  rewrite len_cons, Z.add_assoc in Hv2.
  apply bump_Ok in Hb as [-> [m' Em']]; [|done]. cbn in Em'.
  assert (m = b :: m') as ->.
  { rewrite <- Em', <- Z.add_assoc, <- (len_cons "i"%byte). symmetry. by apply (at_next p _ m). }
  assert (b = "e"%byte) as -> by by destruct Hm as [|[? [= ->]]].
  exists i, m'. split; [done|]. split; [done|]. split.
  - unfold at_ in *. rewrite Ha. cbn. by rewrite <- app_assoc.
  - unfold set_pos. cbn [pos depth nodes print]. rewrite len_cons, len_app, len_cons, len_nil.
    f_equal. lia.
Qed.

Lemma parse_int_complete p i m :
  valid p -> at_ p (print (Int i)) m -> i64_min <= i <= i64_max ->
  parse_int bytes p = Ok (Int i, set_pos p (pos p + len (print (Int i)))).
Proof.
  intros Hv Ha Hr. pose proof (print_i64_ascii i Hr) as [Hascii Hne].
  assert (at_ p ("i"%byte :: print_i64 i) ("e"%byte :: m)) as Ha'.
  { unfold at_ in *. rewrite Ha. cbn. by rewrite <- app_assoc. }
  rewrite (parse_int_eq _ (print_i64 i) ("e"%byte :: m)); auto.
  2: { eapply Forall_impl; [exact Hascii|]. by intros ? []. }
  2: { right. eauto. }
  destruct (decide (print_i64 i = [])); [done|].
  rewrite int_body_complete by done. ok_simpl.
  pose proof (valid_next _ _ _ Hv Ha') as Hv2. pose proof (at_next _ _ _ Hv Ha') as Hn.
  rewrite len_cons, Z.add_assoc in Hv2, Hn.
  rewrite (bump_at _ _ _ Hv2 Hn). ok_simpl. unfold set_pos. cbn [pos depth nodes print].
  rewrite len_cons, len_app, len_cons, len_nil. do 3 f_equal. lia.
Qed.

Lemma parse_int_returns p m0 :
  valid p -> rest bytes (pos p) = "i"%byte :: m0 -> returns (parse_int bytes p).
Proof.
  intros Hv E. destruct (parse_int_split _ _ Hv E) as (s & m & Ha & Hs & Hm).
  rewrite (parse_int_eq _ s m) by done. destruct (decide (s = [])); [done|].
  apply bind_returns; [by apply int_body_returns|intros i _].
  apply bind_returns; [apply bump_returns|]. by intros [??] _.
Qed.

(** ** Strings *)

(** The length prefix, up to the first colon. *)
Lemma split_at_colon (l : list byte) :
  (position (fun b => Byte.eqb b ":") l = None) \/
  exists ds m, l = ds ++ ":"%byte :: m /\
    position (fun b => Byte.eqb b ":") l = Some (len ds).
Proof.
  destruct (position _ l) as [n|] eqn:E; [right|by left].
  apply position_Some in E as (pre & a & post & -> & -> & _ & Ha).
  apply byte_eqb_eq in Ha as ->. eauto.
Qed.

Lemma position_colon ds m :
  Forall (fun b => is_ascii_digit b = true) ds ->
  position (fun b => Byte.eqb b ":") (ds ++ ":"%byte :: m) = Some (len ds).
Proof.
  intros H. apply position_Some. exists ds, ":"%byte, m. repeat split.
  eapply Forall_impl; [exact H|]. intros b Hb. by apply byte_eqb_neq, digit_not_colon.
Qed.

Lemma parse_str_eq p ds m :
  valid p -> at_ p ds (":"%byte :: m) ->
  position (fun b => Byte.eqb b ":") (ds ++ ":"%byte :: m) = Some (len ds) ->
  parse_str bytes p =
    (n ← str_len ds;
     data_end ← ok_or (checked_add (pos p + len ds + 1) n)
       (Bencode "string end overflows cursor");
     _ ← fail_if (len bytes <? data_end) (Bencode "string overruns input");
     s ← slice bytes (pos p + len ds + 1) data_end;
     Ok (s, set_pos p data_end)).
Proof.
  intros Hv Ha Hp. pose proof (at_bound _ _ _ Hv Ha) as Hb.
  pose proof (len_nonneg ds). pose proof Hv as [Hpos _].
  unfold parse_str. rewrite slice_from_rest by done. unfold at_ in Ha. rewrite Ha, bind_ret.
  rewrite Hp. ok_simpl. rewrite checked_add_small by lia. ok_simpl.
  rewrite (slice_app _ ds (":"%byte :: m)) by done. ok_simpl.
  unfold str_len. bind_cases. rewrite checked_add_small by lia. done.
Qed.

Lemma parse_str_none p :
  valid p -> position (fun b => Byte.eqb b ":") (rest bytes (pos p)) = None ->
  parse_str bytes p = Err (Bencode "missing ':' in string").
Proof.
  intros [Hpos _] Hp. unfold parse_str. rewrite slice_from_rest by done.
  by rewrite bind_ret, Hp.
Qed.

Lemma at_str p s m :
  at_ p (print_str s) m -> at_ p (print_dec (len s)) (":"%byte :: s ++ m).
Proof. unfold at_, print_str. intros ->. by rewrite <- app_assoc. Qed.

Lemma len_print_str s : len (print_str s) = len (print_dec (len s)) + 1 + len s.
Proof. unfold print_str. rewrite len_app, len_cons. lia. Qed.

Lemma parse_str_complete p s m :
  valid p -> at_ p (print_str s) m ->
  parse_str bytes p = Ok (s, set_pos p (pos p + len (print_str s))).
Proof.
  intros Hv Ha. pose proof (at_bound _ _ _ Hv Ha) as Hb. rewrite len_print_str in *.
  pose proof (len_nonneg s). pose proof (len_nonneg (print_dec (len s))).
  pose proof Hv as [Hpos _].
  assert (0 <= len s <= usize_max) as Hn.
  { unfold usize_max, MAX_TORRENT_METADATA_BYTES in *. lia. }
  pose proof (at_str _ _ _ Ha) as Ha'.
  rewrite (parse_str_eq _ (print_dec (len s)) (s ++ m)); auto.
  2: { apply position_colon, print_dec_canonical. unfold u64_max, usize_max in *. lia. }
  rewrite (proj2 (str_len_Ok _ (len s))) by done. ok_simpl.
  rewrite checked_add_small by lia. ok_simpl.
  rewrite (proj2 (Z.ltb_ge _ _)) by lia. ok_simpl.
  rewrite (slice_app _ s m).
  - ok_simpl. do 3 f_equal. lia.
  - lia.
  - rewrite <- Z.add_assoc. replace (len (print_dec (len s)) + 1)
      with (len (print_dec (len s) ++ [":"%byte])) by (rewrite len_app; done).
    apply rest_app; [lia|]. unfold at_ in Ha'. rewrite Ha'. by rewrite <- app_assoc.
Qed.

Lemma parse_str_sound p s p' :
  valid p -> parse_str bytes p = Ok (s, p') ->
  exists m, at_ p (print_str s) m /\ p' = set_pos p (pos p + len (print_str s)).
Proof.
  intros Hv H. destruct (split_at_colon (rest bytes (pos p))) as [Hn|(ds & m & E & Hp)].
  { by rewrite parse_str_none in H. }
  rewrite E in Hp. rewrite (parse_str_eq _ ds m) in H by done.
  pose proof (at_bound p ds (":"%byte :: m) Hv E). pose proof (len_nonneg ds).
  pose proof Hv as [Hpos _].
  apply bind_Ok in H as (n & Hlen & H). apply str_len_Ok in Hlen as [-> Hn].
  apply bind_Ok in H as (x & Hx & H). inv_ok.
  assert (rest bytes (pos p + len (print_dec n) + 1) = m) as Em.
  { apply (rest_cons _ ":"%byte); [lia|]. apply rest_app; [lia|done]. }
  match goal with H : slice _ _ _ = Ok _ |- _ => rename H into Hs end.
  match goal with H : (len bytes <? _) = false |- _ => apply Z.ltb_ge in H; rename H into Hle end.
  rewrite slice_rest in Hs by lia. injection Hs as Hs. rewrite Em in Hs.
  replace (pos p + len (print_dec n) + 1 + n - (pos p + len (print_dec n) + 1))
    with n in Hs by lia.
  assert (len s = n) as Hls.
  { rewrite <- Hs. unfold len in *. rewrite length_take.
    apply (f_equal length) in Em. unfold rest in Em. rewrite length_drop in Em. lia. }
  exists (drop (Z.to_nat n) m). rewrite len_print_str, Hls. split.
  - unfold at_, print_str. rewrite E, Hls, <- app_assoc. cbn. do 2 f_equal.
    rewrite <- Hs. by rewrite take_drop.
  - f_equal. lia.
Qed.

Lemma parse_str_returns p : valid p -> returns (parse_str bytes p).
Proof.
  intros Hv. destruct (split_at_colon (rest bytes (pos p))) as [Hn|(ds & m & E & Hp)].
  { by rewrite parse_str_none. }
  rewrite E in Hp. rewrite (parse_str_eq _ ds m) by done.
  pose proof (at_bound p ds (":"%byte :: m) Hv E). pose proof (len_nonneg ds).
  pose proof Hv as [Hpos _].
  apply bind_returns; [apply str_len_returns|intros n Hn]. apply str_len_Ok in Hn as [-> Hn].
  apply bind_returns; [auto|intros x Hx]. inv_ok.
  apply bind_returns; [auto|intros [] Hx]. inv_ok.
  rewrite slice_rest by lia. done.
Qed.

(** ** Values, by induction on the fuel *)

(** The parser after it has read the text [s] worth [n] nodes. *)
Definition after (p : Parser) (s : list byte) (n : Z) : Parser :=
  mkParser (pos p + len s) (depth p) (nodes p + n).

Lemma valid_after p s m n : valid p -> at_ p s m -> 0 <= n -> valid (after p s n).
Proof.
  intros Hv Ha Hn. pose proof (at_bound _ _ _ Hv Ha). pose proof (len_nonneg s).
  destruct Hv as (? & ? & ?). repeat split; cbn; lia.
Qed.

Lemma at_after p s m n : valid p -> at_ p s m -> rest bytes (pos (after p s n)) = m.
Proof. intros. cbn. by apply at_next. Qed.

Lemma after_after p s t n k : after (after p s n) t k = after p (s ++ t) (n + k).
Proof. unfold after. cbn. rewrite len_app. f_equal; lia. Qed.

Lemma set_pos_after p s : set_pos p (pos p + len s) = after p s 0.
Proof. unfold set_pos, after. f_equal. lia. Qed.

Lemma set_nodes_after p : set_nodes p (nodes p + 1) = after p [] 1.
Proof. unfold set_nodes, after. f_equal. rewrite len_nil. lia. Qed.

Lemma bump_after p b p' :
  valid p -> bump bytes p = Ok (b, p') ->
  p' = after p [b] 0 /\ exists m, at_ p [b] m.
Proof.
  intros Hv H. apply bump_Ok in H as [-> [m E]]; [|done].
  split; [|by exists m]. by rewrite <- (set_pos_after p [b]).
Qed.

(** What a successful parse of a value, of list items and of dictionary
    entries means. *)
Definition parse_ok (p : Parser) (v : Value) (p' : Parser) : Prop :=
  wf v /\ (exists m, at_ p (print v) m) /\ p' = after p (print v) (vnodes v) /\
  nodes p + vnodes v <= MAX_BENCODE_NODES /\ depth p + vdepth v <= MAX_BENCODE_DEPTH.

Definition items_ok (p : Parser) (l : list Value) (p' : Parser) : Prop :=
  Forall wf l /\ (exists m, at_ p (print_items l) m) /\
  p' = after p (print_items l) (items_nodes l) /\
  nodes p + items_nodes l <= MAX_BENCODE_NODES /\
  Forall (fun v => depth p + vdepth v <= MAX_BENCODE_DEPTH) l.

Definition entries_ok (p : Parser) (seen : gset (list byte))
    (d : list (list byte * Value)) (p' : Parser) : Prop :=
  Forall (fun kv => wf kv.2) d /\ NoDup d.*1 /\ Forall (fun k => k ∉ seen) d.*1 /\
  (exists m, at_ p (print_entries d) m) /\
  p' = after p (print_entries d) (entries_nodes d) /\
  nodes p + entries_nodes d <= MAX_BENCODE_NODES /\
  Forall (fun kv => depth p + vdepth kv.2 <= MAX_BENCODE_DEPTH) d.

Lemma at_app p s t m n : valid p -> at_ p s (t ++ m) -> at_ (after p s n) t m.
Proof. intros Hv Ha. unfold at_. cbn. by apply at_next. Qed.

Lemma at_join p s t n m m' :
  valid p -> at_ p s m -> at_ (after p s n) t m' -> at_ p (s ++ t) m'.
Proof.
  intros Hv Ha Ht. unfold at_ in *. rewrite Ha, <- app_assoc. f_equal.
  rewrite <- Ht. cbn. symmetry. by apply at_next.
Qed.

Lemma items_ok_nil p :
  valid p -> nodes p <= MAX_BENCODE_NODES -> items_ok p [] p.
Proof.
  intros Hv Hn. split; [constructor|]. split; [by eexists|]. split.
  { destruct p. unfold after. cbn. f_equal; rewrite ?len_nil; lia. }
  split; [cbn; lia|constructor].
Qed.

Lemma items_ok_cons p v p1 l p2 :
  valid p -> parse_ok p v p1 -> items_ok p1 l p2 -> items_ok p (v :: l) p2.
Proof.
  intros Hv (Hw & (m & Ha) & -> & Hn & Hd) (Hws & (m2 & Ha2) & -> & Hn2 & Hd2).
  split; [by constructor|]. cbn [depth after nodes] in *. split.
  { exists m2. by eapply at_join. }
  change (items_nodes (v :: l)) with (vnodes v + items_nodes l).
  split; [by rewrite after_after|]. split; [lia|by constructor].
Qed.

Lemma entries_ok_nil p seen :
  valid p -> nodes p <= MAX_BENCODE_NODES -> entries_ok p seen [] p.
Proof.
  intros Hv Hn. split; [constructor|]. split; [constructor|]. split; [constructor|].
  split; [by eexists|]. split.
  { destruct p. unfold after. cbn. f_equal; rewrite ?len_nil; lia. }
  split; [cbn; lia|constructor].
Qed.

Lemma entries_ok_cons p seen k v m p2 d p3 :
  valid p -> at_ p (print_str k) m -> k ∉ seen ->
  parse_ok (after p (print_str k) 1) v p2 ->
  entries_ok p2 ({[k]} ∪ seen) d p3 -> entries_ok p seen ((k, v) :: d) p3.
Proof.
  intros Hv Hk Hks (Hw & (m1 & Ha) & -> & Hn & Hd) (Hws & Hnd & Hfr & (m2 & Ha2) & -> & Hn2 & Hd2).
  rewrite after_after in *. cbn [depth after nodes] in *.
  pose proof (at_join _ _ _ _ _ _ Hv Hk Ha) as Hkv.
  split; [by constructor|]. rewrite Forall_forall in Hfr. split.
  { cbn. constructor; [|done]. intros Hin. specialize (Hfr _ Hin). set_solver. }
  split.
  { cbn. constructor; [done|]. apply Forall_forall. intros x Hx. specialize (Hfr _ Hx). set_solver. }
  split.
  { exists m2. by eapply at_join. }
  change (entries_nodes ((k, v) :: d)) with (1 + vnodes v + entries_nodes d).
  split.
  { rewrite after_after. f_equal; [apply (app_assoc (print_str k))|lia]. }
  split; [lia|by constructor].
Qed.

Definition parse_sound_at (f : nat) : Prop := forall p v p',
  valid p -> depth p <= MAX_BENCODE_DEPTH ->
  parse bytes f p = Ok (v, p') -> parse_ok p v p'.
Definition list_sound_at (f : nat) : Prop := forall p items items' p',
  valid p -> depth p <= MAX_BENCODE_DEPTH -> nodes p <= MAX_BENCODE_NODES ->
  parse_list_loop bytes f p items = Ok (items', p') ->
  exists l, items' = items ++ l /\ items_ok p l p' /\ peek bytes p' = Ok "e"%byte.
Definition dict_sound_at (f : nat) : Prop := forall p seen entries entries' p',
  valid p -> depth p <= MAX_BENCODE_DEPTH -> nodes p <= MAX_BENCODE_NODES ->
  parse_dict_loop bytes f p seen entries = Ok (entries', p') ->
  exists d, entries' = entries ++ d /\ entries_ok p seen d p' /\ peek bytes p' = Ok "e"%byte.

Lemma list_sound_step f : parse_sound_at f -> list_sound_at f -> list_sound_at (S f).
Proof.
  intros IHp IHl p items items' p' Hv Hd Hn H. cbn [parse_list_loop] in H.
  apply bind_Ok in H as (b & Hb & H). destruct (Byte.eqb b "e") eqn:Ee.
  { apply byte_eqb_eq in Ee as ->. injection H as <- <-. exists [].
    rewrite app_nil_r. split; [done|]. split; [|done]. by apply items_ok_nil. }
  apply bind_Ok in H as ([v p1] & Hp & H). apply IHp in Hp; [|done..].
  pose proof Hp as (_ & (m & Ha) & -> & Hn1 & _).
  apply IHl in H as (l & -> & Hl & He).
  - exists (v :: l). rewrite <- app_assoc. split; [done|]. split; [|done].
    by eapply items_ok_cons.
  - eapply valid_after; try done. pose proof (vnodes_pos v). lia.
  - done.
  - done.
Qed.

Lemma dict_sound_step f : parse_sound_at f -> dict_sound_at f -> dict_sound_at (S f).
Proof.
  intros IHp IHl p seen entries entries' p' Hv Hd Hn H. cbn [parse_dict_loop] in H.
  apply bind_Ok in H as (b & Hb & H). destruct (Byte.eqb b "e") eqn:Ee.
  { apply byte_eqb_eq in Ee as ->. injection H as <- <-. exists [].
    rewrite app_nil_r. split; [done|]. split; [|done]. by apply entries_ok_nil. }
  apply bind_Ok in H as (b' & _ & H). apply bind_Ok in H as ([] & _ & H).
  apply bind_Ok in H as (p1 & Hc & H). apply count_node_Ok in Hc as [-> Hn1].
  apply bind_Ok in H as ([key p2] & Hk & H).
  assert (valid (set_nodes p (nodes p + 1))) as Hv1.
  { destruct Hv as (? & ? & ?). repeat split; cbn; lia. }
  apply parse_str_sound in Hk as (m & Hk & ->); [|done].
  rewrite set_pos_after, set_nodes_after, after_after in H. cbn [app] in H.
  rewrite Z.add_0_r in H. change (at_ p (print_str key) m) in Hk.
  apply bind_Ok in H as ([] & Hs & H). apply fail_if_Ok, bool_decide_eq_false in Hs.
  apply bind_Ok in H as ([v p3] & Hp & H).
  assert (valid (after p (print_str key) 1)) as Hv2 by (eapply valid_after; done).
  apply IHp in Hp; [|done..].
  pose proof Hp as (_ & (m1 & Ha) & -> & Hn2 & _).
  apply IHl in H as (d & -> & Hl & He).
  - exists ((key, v) :: d). rewrite <- app_assoc. split; [done|]. split; [|done].
    by eapply entries_ok_cons.
  - eapply valid_after; try done. pose proof (vnodes_pos v). lia.
  - done.
  - done.
Qed.

(** A list or a dictionary: opening byte, contents one level deeper, [e]. *)
Definition opened (p : Parser) (b : byte) : Parser :=
  set_depth (after p [b] 0) (depth p + 1).

Lemma valid_opened p b m : valid p -> at_ p [b] m -> valid (opened p b).
Proof.
  intros Hv Ha. pose proof (valid_after p [b] m 0 Hv Ha ltac:(lia)) as (? & ? & ?).
  destruct Hv as (? & ? & ?). repeat split; cbn in *; lia.
Qed.

Lemma open_sound p b p1 p2 :
  valid p -> bump bytes p = Ok (b, p1) -> enter p1 = Ok p2 ->
  p2 = opened p b /\ (exists m, at_ p [b] m) /\ depth p + 1 <= MAX_BENCODE_DEPTH.
Proof.
  intros Hv Hb He. apply bump_after in Hb as [-> Ha]; [|done].
  apply enter_Ok in He as [-> Hd]. by repeat split.
Qed.

Lemma close_sound p b m0 s m n e p1 p2 :
  valid p -> at_ p [b] m0 -> at_ (opened p b) s m -> 0 <= n ->
  peek bytes (after (opened p b) s n) = Ok "e"%byte ->
  bump bytes (after (opened p b) s n) = Ok (e, p1) -> leave p1 = Ok p2 ->
  (exists m', at_ p (b :: s ++ ["e"%byte]) m') /\ p2 = after p (b :: s ++ ["e"%byte]) n.
Proof.
  intros Hv Hb Ha Hn Hpk Hbp Hl.
  pose proof (valid_opened _ _ _ Hv Hb) as Hvo.
  pose proof (valid_after _ _ _ n Hvo Ha Hn) as Hva.
  unfold bump in Hbp. rewrite Hpk in Hbp. inv_ok.
  apply leave_Ok in Hl as [-> _]. apply peek_Ok in Hpk as [m' Em]; [|done]. split.
  - exists m'. pose proof (at_after _ _ _ n Hvo Ha) as Em2. rewrite Em in Em2. subst m.
    pose proof (at_next _ _ _ Hv Hb) as Hm0. unfold at_ in *. cbn in Ha.
    change (len [b]) with 1 in *. rewrite Ha in Hm0. subst m0.
    rewrite Hb. cbn. by rewrite <- app_assoc.
  - unfold after, set_depth, set_pos. cbn. rewrite (len_cons b (s ++ _)), len_app.
    change (len [b]) with 1. change (len ["e"%byte]) with 1. f_equal; lia.
Qed.

(** The list and dictionary arms, from the parser that has counted the node. *)
Lemma sound_List f p v p' :
  list_sound_at f -> valid p -> peek bytes p = Ok "l"%byte -> nodes p <= MAX_BENCODE_NODES ->
  ('(_, p) ← bump bytes p; p ← enter p; '(items, p) ← parse_list_loop bytes f p [];
   '(_, p) ← bump bytes p; p ← leave p; Ok (List items, p)) = Ok (v, p') ->
  wf v /\ (exists m, at_ p (print v) m) /\ p' = after p (print v) (vnodes v - 1) /\
  nodes p + vnodes v - 1 <= MAX_BENCODE_NODES /\ depth p + vdepth v <= MAX_BENCODE_DEPTH.
Proof.
  intros IHl Hv Hb Hn H. apply bind_Ok in H as ([b2 p2] & Hb2 & H).
  apply bind_Ok in H as (p3 & He & H).
  assert (b2 = "l"%byte) as -> by (unfold bump in Hb2; rewrite Hb in Hb2; inv_ok; done).
  destruct (open_sound p "l"%byte p2 p3) as (-> & [m Hm] & Hd1); auto.
  apply bind_Ok in H as ([items p4] & Hl & H).
  pose proof (valid_opened _ _ _ Hv Hm) as Hvo.
  apply IHl in Hl as (l & -> & (Hw & [m2 Ha] & -> & Hn2 & Hds) & Hpk);
    [|done|exact Hd1|cbn; lia].
  apply bind_Ok in H as ([e p5] & Hb5 & H). apply bind_Ok in H as (p6 & Hlv & [= <- <-]).
  destruct (close_sound _ _ _ _ _ _ _ _ _ Hv Hm Ha (items_nodes_nonneg l) Hpk Hb5 Hlv)
    as [Ha3 ->]. cbn in Hn2, Hd1, Hds.
  change (vnodes (List l)) with (1 + items_nodes l).
  split; [by apply wf_List|]. split; [done|]. split; [unfold after; f_equal; lia|].
  split; [lia|]. enough (vdepth (List l) <= MAX_BENCODE_DEPTH - depth p) by lia.
  apply vdepth_List; [lia|]. eapply Forall_impl; [exact Hds|]. cbn. lia.
Qed.

Lemma sound_Dict f p v p' :
  dict_sound_at f -> valid p -> peek bytes p = Ok "d"%byte -> nodes p <= MAX_BENCODE_NODES ->
  ('(_, p) ← bump bytes p; p ← enter p; '(entries, p) ← parse_dict_loop bytes f p ∅ [];
   '(_, p) ← bump bytes p; p ← leave p; Ok (Dict entries, p)) = Ok (v, p') ->
  wf v /\ (exists m, at_ p (print v) m) /\ p' = after p (print v) (vnodes v - 1) /\
  nodes p + vnodes v - 1 <= MAX_BENCODE_NODES /\ depth p + vdepth v <= MAX_BENCODE_DEPTH.
Proof.
  intros IHd Hv Hb Hn H. apply bind_Ok in H as ([b2 p2] & Hb2 & H).
  apply bind_Ok in H as (p3 & He & H).
  assert (b2 = "d"%byte) as -> by (unfold bump in Hb2; rewrite Hb in Hb2; inv_ok; done).
  destruct (open_sound p "d"%byte p2 p3) as (-> & [m Hm] & Hd1); auto.
  apply bind_Ok in H as ([entries p4] & Hl & H).
  pose proof (valid_opened _ _ _ Hv Hm) as Hvo.
  apply IHd in Hl as (d & -> & (Hw & Hnd & _ & [m2 Ha] & -> & Hn2 & Hds) & Hpk);
    [|done|exact Hd1|cbn; lia].
  apply bind_Ok in H as ([e p5] & Hb5 & H). apply bind_Ok in H as (p6 & Hlv & [= <- <-]).
  destruct (close_sound _ _ _ _ _ _ _ _ _ Hv Hm Ha (entries_nodes_nonneg d) Hpk Hb5 Hlv)
    as [Ha3 ->]. cbn in Hn2, Hd1, Hds.
  change (vnodes (Dict d)) with (1 + entries_nodes d).
  split; [by apply wf_Dict|]. split; [done|]. split; [unfold after; f_equal; lia|].
  split; [lia|]. enough (vdepth (Dict d) <= MAX_BENCODE_DEPTH - depth p) by lia.
  apply vdepth_Dict; [lia|]. eapply Forall_impl; [exact Hds|]. cbn. lia.
Qed.

(** Account for the node counted on entry. *)
Lemma parse_ok_counted p v s n :
  valid p -> s = print v -> n = vnodes v - 1 -> wf v ->
  (exists m, at_ (after p [] 1) s m) ->
  nodes p + vnodes v <= MAX_BENCODE_NODES -> depth p + vdepth v <= MAX_BENCODE_DEPTH ->
  parse_ok p v (after (after p [] 1) s n).
Proof.
  intros Hv -> -> Hw [m Ha] Hn Hd. split; [done|].
  split; [exists m; by eapply (at_join p [] _ 1)|].
  split; [rewrite after_after; cbn [app]; f_equal; lia|done].
Qed.

Lemma parse_sound_step f : list_sound_at f -> dict_sound_at f -> parse_sound_at (S f).
Proof.
  intros IHl IHd p v p' Hv Hd H. cbn [parse] in H.
  apply bind_Ok in H as (p1 & Hc & H). apply count_node_Ok in Hc as [-> Hn].
  rewrite set_nodes_after in H. set (p1 := after p [] 1) in *.
  assert (valid p1) as Hv1 by by eapply valid_after.
  apply bind_Ok in H as (b & Hb & H). destruct (peek_Ok _ _ Hv1 Hb) as [m0 E].
  destruct (Byte.eqb b "i") eqn:Ei.
  { apply byte_eqb_eq in Ei.
    destruct (parse_int_sound _ _ _ _ _ Hv1 E Ei H) as (i & m & -> & Hr & Ha & ->).
    rewrite set_pos_after. apply parse_ok_counted; eauto; cbn; lia. }
  destruct (Byte.eqb b "l") eqn:El.
  { apply byte_eqb_eq in El as ->. apply sound_List in H as (? & ? & -> & ? & ?); auto.
    apply parse_ok_counted; auto. cbn in *. lia. }
  destruct (Byte.eqb b "d") eqn:Ed.
  { apply byte_eqb_eq in Ed as ->. apply sound_Dict in H as (? & ? & -> & ? & ?); auto.
    apply parse_ok_counted; auto. cbn in *. lia. }
  destruct (is_ascii_digit b); [|done].
  apply bind_Ok in H as ([s p2] & Hs & [= <- <-]).
  apply parse_str_sound in Hs as (m & Ha & ->); [|done].
  rewrite set_pos_after. apply parse_ok_counted; eauto; cbn; lia.
Qed.

Lemma parse_sound f : parse_sound_at f /\ list_sound_at f /\ dict_sound_at f.
Proof.
  induction f as [|f (IHp & IHl & IHd)]; [done|].
  split; [by apply parse_sound_step|].
  split; [by apply list_sound_step|by apply dict_sound_step].
Qed.

(** ** Totality: the fuel is enough and nothing panics *)

Definition room (p : Parser) : Z := len bytes - pos p.

Definition total_at (f : nat) : Prop :=
  (forall p, valid p -> depth p <= MAX_BENCODE_DEPTH ->
     2 * room p + 1 <= Z.of_nat f -> returns (parse bytes f p)) /\
  (forall p items, valid p -> depth p <= MAX_BENCODE_DEPTH -> nodes p <= MAX_BENCODE_NODES ->
     2 * room p + 2 <= Z.of_nat f -> returns (parse_list_loop bytes f p items)) /\
  (forall p seen entries, valid p -> depth p <= MAX_BENCODE_DEPTH ->
     nodes p <= MAX_BENCODE_NODES -> 2 * room p + 2 <= Z.of_nat f ->
     returns (parse_dict_loop bytes f p seen entries)).

Lemma room_after p s m n :
  valid p -> at_ p s m -> room (after p s n) = room p - len s /\ 0 <= room (after p s n).
Proof. intros Hv Ha. pose proof (at_bound _ _ _ Hv Ha). unfold room. cbn. lia. Qed.

Lemma parse_loop_step f p v p1 :
  valid p -> depth p <= MAX_BENCODE_DEPTH ->
  parse bytes f p = Ok (v, p1) ->
  valid p1 /\ depth p1 = depth p /\ nodes p1 <= MAX_BENCODE_NODES /\ room p1 + 1 <= room p.
Proof.
  intros Hv Hd Hp. apply parse_sound in Hp as (_ & (m & Ha) & -> & Hn & _); [|done..].
  pose proof (vnodes_pos v). pose proof (print_nonempty v).
  pose proof (room_after _ _ _ (vnodes v) Hv Ha).
  split; [eapply valid_after; eauto; lia|]. cbn. repeat split; lia.
Qed.

Lemma total_list f : total_at f -> forall p items,
  valid p -> depth p <= MAX_BENCODE_DEPTH -> nodes p <= MAX_BENCODE_NODES ->
  2 * room p + 2 <= Z.of_nat (S f) -> returns (parse_list_loop bytes (S f) p items).
Proof.
  intros (IHp & IHl & _) p items Hv Hd Hn Hf. cbn [parse_list_loop].
  apply bind_returns; [apply peek_returns|intros b _].
  destruct (Byte.eqb b "e"); [done|].
  apply bind_returns; [apply IHp; auto; lia|]. intros [v p1] Hp.
  apply parse_loop_step in Hp as (? & ? & ? & ?); auto. apply IHl; auto; lia.
Qed.

Lemma total_dict f : total_at f -> forall p seen entries,
  valid p -> depth p <= MAX_BENCODE_DEPTH -> nodes p <= MAX_BENCODE_NODES ->
  2 * room p + 2 <= Z.of_nat (S f) -> returns (parse_dict_loop bytes (S f) p seen entries).
Proof.
  intros (IHp & _ & IHd) p seen entries Hv Hd Hn Hf. cbn [parse_dict_loop].
  apply bind_returns; [apply peek_returns|intros b _].
  destruct (Byte.eqb b "e"); [done|].
  apply bind_returns; [apply peek_returns|intros b' _].
  apply bind_returns; [auto|intros _ _].
  apply bind_returns; [apply count_node_returns|intros p1 Hc].
  apply count_node_Ok in Hc as [-> Hn1].
  assert (valid (set_nodes p (nodes p + 1))) as Hv1.
  { destruct Hv as (? & ? & ?). repeat split; cbn; lia. }
  apply bind_returns; [by apply parse_str_returns|]. intros [key p2] Hk.
  apply parse_str_sound in Hk as (m & Ha & ->); [|done].
  pose proof (valid_next _ _ _ Hv1 Ha) as Hv2. pose proof (len_nonneg (print_str key)).
  apply bind_returns; [auto|intros _ _].
  apply bind_returns; [apply IHp; auto; unfold room in *; cbn in *; lia|]. intros [v p3] Hp.
  apply parse_loop_step in Hp as (? & Hd3 & ? & ?); auto. cbn in Hd3.
  apply IHd; auto; unfold room in *; cbn in *; lia.
Qed.

(** Entering, running the loop and leaving. *)
Lemma total_bracket {A} p b m0 (loop : Parser -> outcome (A * Parser)) (k : A -> Value) :
  valid p -> rest bytes (pos p) = b :: m0 ->
  (depth p + 1 <= MAX_BENCODE_DEPTH -> returns (loop (opened p b))) ->
  returns ('(_, p) ← bump bytes p; p ← enter p; '(x, p) ← loop p;
           '(_, p) ← bump bytes p; p ← leave p; Ok (k x, p)).
Proof.
  intros Hv E Hloop. apply bind_returns; [apply bump_returns|]. intros [b1 p1] Hb.
  apply bump_after in Hb as [-> [m Ha]]; [|done].
  assert (b1 = b) as -> by (unfold at_ in Ha; cbn in Ha; congruence).
  apply bind_returns; [apply enter_returns|]. intros p2 He.
  apply enter_Ok in He as [-> Hd]. apply bind_returns; [by apply Hloop|]. intros [x p3] _.
  apply bind_returns; [apply bump_returns|]. intros [b4 p4] _.
  apply bind_returns; [apply leave_returns|]. done.
Qed.

Lemma room_opened p b m : valid p -> at_ p [b] m -> room (opened p b) = room p - 1.
Proof. intros. unfold room, opened. cbn. change (len [b]) with 1. lia. Qed.

Lemma total_parse f : total_at f -> forall p,
  valid p -> depth p <= MAX_BENCODE_DEPTH ->
  2 * room p + 1 <= Z.of_nat (S f) -> returns (parse bytes (S f) p).
Proof.
  intros (_ & IHl & IHd) p Hv Hd Hf. cbn [parse].
  apply bind_returns; [apply count_node_returns|]. intros p1 Hc.
  apply count_node_Ok in Hc as [-> Hn]. set (p1 := set_nodes p (nodes p + 1)).
  assert (valid p1) as Hv1.
  { destruct Hv as (? & ? & ?). repeat split; cbn; lia. }
  assert (room p1 = room p) as Hr by done.
  apply bind_returns; [apply peek_returns|]. intros b Hb.
  destruct (peek_Ok _ _ Hv1 Hb) as [m E].
  pose proof (valid_opened p1 b m Hv1 E). pose proof (room_opened p1 b m Hv1 E).
  destruct (Byte.eqb b "i") eqn:Ei.
  { apply byte_eqb_eq in Ei as ->. by eapply parse_int_returns. }
  destruct (Byte.eqb b "l") eqn:El.
  { eapply total_bracket; [done|exact E|]. intros Hd1.
    apply IHl; auto; try lia. cbn. lia. }
  destruct (Byte.eqb b "d") eqn:Ed.
  { eapply (total_bracket _ _ _ (fun p => parse_dict_loop bytes f p ∅ [])); [done|exact E|].
    intros Hd1. apply IHd; auto; try lia. cbn. lia. }
  destruct (is_ascii_digit b); [|done].
  apply bind_returns; [by apply parse_str_returns|]. by intros [??] _.
Qed.

Lemma parse_total f : total_at f.
Proof.
  induction f as [|f IH].
  - repeat split; intros; destruct H as [? _]; unfold room in *; lia.
  - repeat split; intros; [by apply total_parse|by apply total_list|by apply total_dict].
Qed.

(** ** Completeness: the text of a value is accepted *)

Lemma print_str_head s :
  len s <= usize_max ->
  exists b t, print_str s = b :: t /\ is_ascii_digit b = true.
Proof.
  intros Hs. pose proof (len_nonneg s).
  destruct (print_dec_canonical (len s)) as (Hd & Hne & _).
  { unfold u64_max, usize_max in *. lia. }
  unfold print_str. destruct (print_dec (len s)) as [|b t]; [done|].
  inversion Hd; subst. by exists b, (t ++ ":"%byte :: s).
Qed.

Lemma digit_not_letter b :
  is_ascii_digit b = true ->
  Byte.eqb b "e" = false /\ Byte.eqb b "i" = false /\ Byte.eqb b "l" = false /\
  Byte.eqb b "d" = false.
Proof. intros H. repeat split; apply byte_eqb_neq; by intros ->. Qed.

Lemma at_len_str p s m : valid p -> at_ p (print_str s) m -> len s <= usize_max.
Proof.
  intros Hv Ha. pose proof (at_bound _ _ _ Hv Ha). rewrite len_print_str in *.
  pose proof (len_nonneg (print_dec (len s))). destruct Hv.
  unfold usize_max, MAX_TORRENT_METADATA_BYTES in *. lia.
Qed.

Lemma at_head p s m b t : at_ p s m -> s = b :: t -> rest bytes (pos p) = b :: t ++ m.
Proof. unfold at_. by intros -> ->. Qed.

Lemma peek_print p v m :
  valid p -> at_ p (print v) m ->
  exists b t, print v = b :: t /\ peek bytes p = Ok b /\ Byte.eqb b "e" = false.
Proof.
  intros Hv Ha. assert (exists b t, print v = b :: t /\ b <> "e"%byte) as (b & t & E & Hb).
  { destruct v as [i|s|l|d]; try (by cbn; eauto).
    destruct (print_str_head s (at_len_str _ _ _ Hv Ha)) as (b & t & E & Hb).
    exists b, t. split; [done|]. by intros ->. }
  exists b, t. split; [done|]. split; [|by apply byte_eqb_neq].
  eapply peek_at; [done|]. by eapply at_head.
Qed.

Definition complete_at (v : Value) : Prop := forall f p m,
  valid p -> at_ p (print v) m -> wf v ->
  nodes p + vnodes v <= MAX_BENCODE_NODES -> depth p + vdepth v <= MAX_BENCODE_DEPTH ->
  2 * len (print v) <= Z.of_nat f ->
  parse bytes f p = Ok (v, after p (print v) (vnodes v)).

Lemma after_nil p : after p [] 0 = p.
Proof. unfold after. destruct p. cbn. f_equal; rewrite ?len_nil; lia. Qed.

Lemma list_complete l : Forall complete_at l -> forall f p items m,
  valid p -> at_ p (print_items l) ("e"%byte :: m) -> Forall wf l ->
  nodes p + items_nodes l <= MAX_BENCODE_NODES ->
  Forall (fun v => depth p + vdepth v <= MAX_BENCODE_DEPTH) l ->
  2 * len (print_items l) + 1 <= Z.of_nat f ->
  parse_list_loop bytes f p items = Ok (items ++ l, after p (print_items l) (items_nodes l)).
Proof.
  induction 1 as [|v l Hv Hl IH]; intros f p items m Hp Ha Hw Hn Hd Hf;
    (destruct f as [|f];
      [match type of Hf with context [len ?x] => pose proof (len_nonneg x) end; lia|]);
    cbn [parse_list_loop].
  - rewrite (peek_at p "e"%byte m) by done. ok_simpl. cbn.
    by rewrite app_nil_r, after_nil.
  - change (print_items (v :: l)) with (print v ++ print_items l) in *.
    change (items_nodes (v :: l)) with (vnodes v + items_nodes l) in *.
    inversion Hw; inversion Hd; subst. rewrite len_app in Hf.
    assert (at_ p (print v) (print_items l ++ "e"%byte :: m)) as Hav.
    { unfold at_ in *. by rewrite Ha, <- app_assoc. }
    destruct (peek_print _ _ _ Hp Hav) as (b & t & _ & -> & Hb). ok_simpl. rewrite Hb.
    pose proof (items_nodes_nonneg l). pose proof (vnodes_pos v).
    pose proof (len_nonneg (print_items l)). pose proof (print_nonempty v).
    rewrite (Hv f p _ Hp Hav) by (done || lia). ok_simpl.
    erewrite IH; [| |by eapply at_app|..]; eauto; try (cbn; lia).
    + rewrite after_after. by rewrite <- app_assoc.
    + eapply valid_after; eauto. lia.
Qed.

Lemma dict_complete d : Forall (fun kv => complete_at kv.2) d -> forall f p seen entries m,
  valid p -> at_ p (print_entries d) ("e"%byte :: m) -> Forall (fun kv => wf kv.2) d ->
  NoDup d.*1 -> Forall (fun k => k ∉ seen) d.*1 ->
  nodes p + entries_nodes d <= MAX_BENCODE_NODES ->
  Forall (fun kv => depth p + vdepth kv.2 <= MAX_BENCODE_DEPTH) d ->
  2 * len (print_entries d) + 1 <= Z.of_nat f ->
  parse_dict_loop bytes f p seen entries
    = Ok (entries ++ d, after p (print_entries d) (entries_nodes d)).
Proof.
  induction 1 as [|[k v] d Hv Hl IH]; intros f p seen entries m Hp Ha Hw Hnd Hfr Hn Hd Hf;
    (destruct f as [|f];
      [match type of Hf with context [len ?x] => pose proof (len_nonneg x) end; lia|]);
    cbn [parse_dict_loop].
  - rewrite (peek_at p "e"%byte m) by done. ok_simpl. cbn.
    by rewrite app_nil_r, after_nil.
  - change (print_entries ((k, v) :: d)) with ((print_str k ++ print v) ++ print_entries d) in *.
    change (entries_nodes ((k, v) :: d)) with (1 + vnodes v + entries_nodes d) in *.
    apply Forall_cons in Hw as [Hwv Hw], Hd as [Hdv Hd], Hfr as [Hks Hfr].
    apply NoDup_cons in Hnd as [Hkd Hnd]. cbn [fst snd] in *.
    rewrite !len_app in Hf. rewrite <- !app_assoc in Ha.
    assert (at_ p (print_str k) (print v ++ print_entries d ++ "e"%byte :: m)) as Hak.
    { unfold at_ in *. by rewrite Ha, <- !app_assoc. }
    destruct (print_str_head k (at_len_str _ _ _ Hp Hak)) as (b & t & E & Hb).
    destruct (digit_not_letter b Hb) as (He & _).
    rewrite (peek_at p b _ Hp (at_head _ _ _ _ _ Hak E)). ok_simpl. rewrite He, Hb. ok_simpl.
    pose proof (entries_nodes_nonneg d). pose proof (vnodes_pos v).
    pose proof (len_nonneg (print_entries d)). pose proof (print_nonempty v).
    pose proof (len_nonneg (print_str k)).
    rewrite (proj2 (count_node_Ok p (after p [] 1))).
    2: { rewrite set_nodes_after. split; [done|lia]. }
    ok_simpl. assert (valid (after p [] 1)) as Hp1 by by eapply valid_after.
    assert (at_ (after p [] 1) (print_str k) (print v ++ print_entries d ++ "e"%byte :: m)) as Hak1
      by (unfold at_; cbn; by rewrite Z.add_0_r).
    rewrite (parse_str_complete _ k _ Hp1 Hak1). ok_simpl.
    rewrite set_pos_after, after_after. cbn [app]. rewrite Z.add_0_r.
    rewrite (bool_decide_eq_false_2 (k ∈ seen)) by done. ok_simpl.
    assert (valid (after p (print_str k) 1)) as Hp2 by by eapply valid_after.
    assert (at_ (after p (print_str k) 1) (print v) (print_entries d ++ "e"%byte :: m)) as Hav
      by by apply at_app.
    rewrite (Hv f _ _ Hp2 Hav) by (done || (cbn; lia)). ok_simpl.
    rewrite after_after.
    erewrite IH; [| |rewrite <- after_after; by eapply at_app|..]; eauto; try (cbn; lia).
    + rewrite after_after. by rewrite <- !app_assoc.
    + rewrite <- after_after. eapply valid_after; eauto. lia.
    + apply Forall_forall. intros x Hx. rewrite Forall_forall in Hfr.
      specialize (Hfr x Hx). set_solver.
Qed.

Lemma bump_at_after p b m :
  valid p -> rest bytes (pos p) = b :: m -> bump bytes p = Ok (b, after p [b] 0).
Proof. intros Hv E. rewrite (bump_at _ _ _ Hv E). by rewrite <- set_pos_after. Qed.

(** Running the closing steps of a list or dictionary. *)
Lemma close_complete p b s m n :
  valid p -> at_ p (b :: s ++ ["e"%byte]) m -> 0 <= n ->
  exists m', at_ (opened p b) s ("e"%byte :: m) /\
    valid (opened p b) /\ at_ p [b] m' /\
    bump bytes (after (opened p b) s n) = Ok ("e"%byte, after (after (opened p b) s n) ["e"%byte] 0) /\
    leave (after (after (opened p b) s n) ["e"%byte] 0) = Ok (after p (b :: s ++ ["e"%byte]) n).
Proof.
  intros Hv Ha Hn. assert (at_ p [b] (s ++ "e"%byte :: m)) as Hb.
  { unfold at_ in *. rewrite Ha. cbn. by rewrite <- app_assoc. }
  pose proof (valid_opened _ _ _ Hv Hb) as Hvo.
  assert (at_ (opened p b) s ("e"%byte :: m)) as Hs by (apply (at_next _ _ _ Hv Hb)).
  exists (s ++ "e"%byte :: m). split; [done|]. split; [done|]. split; [done|].
  pose proof (valid_after _ _ _ n Hvo Hs Hn) as Hva.
  pose proof (at_after _ _ _ n Hvo Hs) as Hra. split.
  - by apply (bump_at_after _ _ _ Hva Hra).
  - apply leave_Ok. destruct Hv as (_ & ? & _). split; [|cbn; lia].
    unfold after, opened, set_depth. cbn. rewrite (len_cons b (s ++ _)), len_app.
    change (len [b]) with 1. change (len ["e"%byte]) with 1. f_equal; lia.
Qed.

(** Count the node of the value and name the parser that results. *)
Ltac start_value Hf Hn Ha :=
  match goal with
  | Hv : valid ?p |- parse _ ?f ?p = _ =>
      destruct f as [|f];
        [match type of Hf with context [print ?v] => pose proof (print_nonempty v) end; lia|];
      cbn [parse];
      match type of Hn with context [vnodes ?v] => pose proof (vnodes_pos v) end;
      rewrite (proj2 (count_node_Ok p (after p [] 1)))
        by (rewrite set_nodes_after; split; [done|lia]);
      ok_simpl; set (p1 := after p [] 1) in *;
      assert (valid p1) as Hv1 by (by eapply valid_after);
      assert (forall s n, after p1 s n = after p s (1 + n)) as Haft
        by (intros; unfold p1; by rewrite after_after);
      match type of Ha with at_ _ ?s ?m =>
        assert (at_ p1 s m) as Ha1 by (unfold at_, p1; cbn; by rewrite Z.add_0_r) end
  end.

Lemma complete_Int i : complete_at (Int i).
Proof.
  intros f p m Hv Ha Hw Hn Hd Hf. start_value Hf Hn Ha.
  rewrite (peek_at p1 "i"%byte _ Hv1 Ha1). ok_simpl. byte_simpl.
  rewrite (parse_int_complete _ _ _ Hv1 Ha1 Hw), set_pos_after, Haft. done.
Qed.

Lemma complete_Str s : complete_at (Str s).
Proof.
  intros f p m Hv Ha Hw Hn Hd Hf. start_value Hf Hn Ha.
  destruct (print_str_head s (at_len_str _ _ _ Hv Ha)) as (b & t & E & Hb).
  destruct (digit_not_letter b Hb) as (_ & H1 & H2 & H3).
  rewrite (peek_at p1 b _ Hv1 (at_head _ _ _ _ _ Ha1 E)). ok_simpl.
  rewrite H1, H2, H3, Hb, (parse_str_complete _ _ _ Hv1 Ha1). ok_simpl.
  by rewrite set_pos_after, Haft.
Qed.

Lemma vdepth_List_pos l : 1 <= vdepth (List l).
Proof. cbn. assert (0 <= foldr (fun v m => Z.max (vdepth v) m) 0 l); [|lia]. induction l; cbn; lia. Qed.
Lemma vdepth_Dict_pos d : 1 <= vdepth (Dict d).
Proof.
  cbn. assert (0 <= foldr (fun kv m => Z.max (vdepth (snd kv)) m) 0 d); [|lia].
  induction d; cbn; lia.
Qed.

Lemma complete_List l : Forall complete_at l -> complete_at (List l).
Proof.
  intros IH f p m Hv Ha Hw Hn Hd Hf. start_value Hf Hn Ha.
  rewrite (peek_at p1 "l"%byte _ Hv1 Ha1). ok_simpl. byte_simpl.
  rewrite (bump_at_after p1 "l"%byte _ Hv1 Ha1). ok_simpl.
  change (vnodes (List l)) with (1 + items_nodes l) in *.
  pose proof (vdepth_List_pos l) as Hd1.
  rewrite (proj2 (enter_Ok _ (opened p1 "l"))) by (split; [done|cbn in *; lia]).
  ok_simpl. apply wf_List in Hw.
  assert (vdepth (List l) <= MAX_BENCODE_DEPTH - depth p) as Hd2 by lia.
  apply vdepth_List in Hd2; [|lia].
  destruct (close_complete p1 "l" (print_items l) m (items_nodes l) Hv1 Ha1 (items_nodes_nonneg l))
    as (m' & Has & Hvo & _ & Hb & Hl).
  change (print (List l)) with ("l"%byte :: print_items l ++ ["e"%byte]) in *.
  rewrite len_cons, len_app in Hf. change (len ["e"%byte]) with 1 in Hf.
  rewrite (list_complete l IH f (opened p1 "l") [] m Hvo Has Hw).
  - ok_simpl. rewrite Hb. ok_simpl. rewrite Hl. ok_simpl. by rewrite Haft.
  - cbn. lia.
  - eapply Forall_impl; [exact Hd2|]. cbn. lia.
  - lia.
Qed.

Lemma complete_Dict d : Forall (fun kv => complete_at kv.2) d -> complete_at (Dict d).
Proof.
  intros IH f p m Hv Ha Hw Hn Hd Hf. start_value Hf Hn Ha.
  rewrite (peek_at p1 "d"%byte _ Hv1 Ha1). ok_simpl. byte_simpl.
  rewrite (bump_at_after p1 "d"%byte _ Hv1 Ha1). ok_simpl.
  change (vnodes (Dict d)) with (1 + entries_nodes d) in *.
  pose proof (vdepth_Dict_pos d) as Hd1.
  rewrite (proj2 (enter_Ok _ (opened p1 "d"))) by (split; [done|cbn in *; lia]).
  ok_simpl. apply wf_Dict in Hw as [Hnd Hw].
  assert (vdepth (Dict d) <= MAX_BENCODE_DEPTH - depth p) as Hd2 by lia.
  apply vdepth_Dict in Hd2; [|lia].
  destruct (close_complete p1 "d" (print_entries d) m (entries_nodes d) Hv1 Ha1 (entries_nodes_nonneg d))
    as (m' & Has & Hvo & _ & Hb & Hl).
  change (print (Dict d)) with ("d"%byte :: print_entries d ++ ["e"%byte]) in *.
  rewrite len_cons, len_app in Hf. change (len ["e"%byte]) with 1 in Hf.
  rewrite (dict_complete d IH f (opened p1 "d") ∅ [] m Hvo Has Hw Hnd).
  - ok_simpl. rewrite Hb. ok_simpl. rewrite Hl. ok_simpl. by rewrite Haft.
  - apply Forall_forall. intros ? _. set_solver.
  - cbn. lia.
  - eapply Forall_impl; [exact Hd2|]. cbn. lia.
  - lia.
Qed.

Lemma parse_complete v : complete_at v.
Proof.
  induction v using Value_induction;
    auto using complete_Int, complete_Str, complete_List, complete_Dict.
Qed.

(** ** The scanner reads strings exactly as the parser does *)

Lemma read_str_parse_str p :
  valid p ->
  read_str bytes (pos p) =
    match parse_str bytes p with
    | Ok (s, p') => Ok (Some (s, pos p'))
    | Err _ => Ok None
    | Panic => Panic
    | OutOfFuel => OutOfFuel
    end.
Proof.
  intros Hv. pose proof Hv as [Hpos _].
  destruct (split_at_colon (rest bytes (pos p))) as [Hn|(ds & m & E & Hp)].
  { rewrite (parse_str_none _ Hv Hn). unfold read_str.
    by rewrite slice_from_rest, bind_ret, Hn. }
  pose proof Hp as Hp'. rewrite E in Hp'. rewrite (parse_str_eq _ ds m) by done.
  pose proof (at_bound p ds (":"%byte :: m) Hv E). pose proof (len_nonneg ds).
  unfold read_str. rewrite slice_from_rest by done. ok_simpl. rewrite Hp.
  rewrite checked_add_small by lia. rewrite (slice_app _ ds (":"%byte :: m)) by done.
  ok_simpl. unfold str_len. rewrite lead_zero_eq. ok_simpl.
  destruct (len ds =? 0); [done|]. ok_simpl. destruct (forallb is_ascii_digit ds); [|done].
  ok_simpl. destruct (lead_zero ds); [done|]. ok_simpl. destruct (utf8_valid ds); [|done].
  ok_simpl. destruct (parse_usize ds) as [n|]; [|done]. ok_simpl.
  rewrite checked_add_small by lia. destruct (checked_add _ n) as [x|]; [|done].
  ok_simpl. destruct (len bytes <? x); [done|]. ok_simpl.
  unfold slice. by destruct (_ && _).
Qed.

Lemma valid_at x : 0 <= x <= len bytes -> valid (mkParser x 0 0).
Proof. intros. repeat split; cbn; lia. Qed.

Lemma read_str_complete x s m :
  0 <= x <= len bytes -> rest bytes x = print_str s ++ m ->
  read_str bytes x = Ok (Some (s, x + len (print_str s))).
Proof.
  intros Hx E. pose proof (valid_at x Hx) as Hv.
  pose proof (read_str_parse_str (mkParser x 0 0) Hv) as Hr. cbn [pos] in Hr. rewrite Hr.
  by rewrite (parse_str_complete _ s m Hv E).
Qed.

Lemma read_str_returns x : 0 <= x <= len bytes -> returns (read_str bytes x).
Proof.
  intros Hx. pose proof (valid_at x Hx) as Hv.
  pose proof (read_str_parse_str (mkParser x 0 0) Hv) as Hr. cbn [pos] in Hr. rewrite Hr.
  pose proof (parse_str_returns _ Hv). by destruct (parse_str _ _) as [[]| | |].
Qed.

Lemma read_str_bound x s y :
  0 <= x <= len bytes -> read_str bytes x = Ok (Some (s, y)) -> x < y <= len bytes.
Proof.
  intros Hx H. pose proof (valid_at x Hx) as Hv.
  pose proof (read_str_parse_str (mkParser x 0 0) Hv) as Hr. cbn [pos] in Hr. rewrite Hr in H.
  destruct (parse_str bytes _) as [[s' p']| | |] eqn:Ep; simplify_eq.
  apply parse_str_sound in Ep as (m & Ha & ->); [|done]. cbn [pos set_pos].
  pose proof (at_bound _ _ _ Hv Ha) as Hb. cbn [pos] in Hb. rewrite len_print_str in *.
  pose proof (len_nonneg s). pose proof (len_nonneg (print_dec (len s))). lia.
Qed.

Lemma rest_lt x b m : 0 <= x <= len bytes -> rest bytes x = b :: m -> x < len bytes.
Proof. intros Hx E. pose proof (rest_bound bytes x [b] m Hx E) as H. change (len [b]) with 1 in H. lia. Qed.

Lemma rest_lt_inv x : 0 <= x < len bytes -> exists b m, rest bytes x = b :: m.
Proof.
  intros Hx. destruct (rest bytes x) as [|b m] eqn:E; [|eauto].
  pose proof (len_rest bytes x ltac:(lia)) as H. rewrite E, len_nil in H. lia.
Qed.

Lemma skip_to_e_spec f x s m :
  0 <= x <= len bytes -> rest bytes x = s ++ m ->
  Forall (fun b => b <> "e"%byte) s -> body_end m -> (length s < f)%nat ->
  skip_to_e bytes f x = Ok (Some (x + len s)).
Proof.
  revert x s. induction f as [|f IH]; intros x s Hx E Hs Hm Hf; [lia|]. cbn [skip_to_e].
  destruct s as [|b s].
  - rewrite len_nil, Z.add_0_r. destruct Hm as [->|[m' ->]].
    + pose proof (len_rest bytes x Hx) as Hl. rewrite E in Hl.
      change (0 = len bytes - x) in Hl.
      by rewrite (proj2 (Z.ltb_ge _ _)) by lia.
    + rewrite (proj2 (Z.ltb_lt _ _)) by (eapply rest_lt; eauto).
      by rewrite (index_rest bytes x "e"%byte m') by (done || lia).
  - apply Forall_cons in Hs as [Hb Hs]. pose proof (rest_bound _ _ _ _ Hx E) as Hbd.
    rewrite len_cons in *. pose proof (len_nonneg s).
    rewrite (proj2 (Z.ltb_lt _ _)) by lia. rewrite (index_rest bytes x b (s ++ m)) by (done || lia).
    ok_simpl. rewrite (proj2 (byte_eqb_neq _ _) Hb). unfold advance.
    rewrite checked_add_small by lia. rewrite (IH (x + 1) s); [do 2 f_equal; lia|lia| |done|done|].
    + eapply rest_cons; [lia|done].
    + cbn in Hf. lia.
Qed.

Lemma skip_to_e_returns f x :
  0 <= x <= len bytes -> len bytes - x < Z.of_nat f ->
  exists y, skip_to_e bytes f x = Ok (Some y) /\ x <= y <= len bytes.
Proof.
  intros Hx Hf. destruct (split_at_e (rest bytes x)) as (s & m & E & Hs & Hm).
  pose proof (rest_bound _ _ _ _ Hx E). exists (x + len s). pose proof (len_nonneg s).
  split; [|lia]. apply (skip_to_e_spec _ _ s m); auto. unfold len in *. lia.
Qed.

(** ** The nested scan passes over exactly one value *)

(** [skips s d k]: from any position where the input continues with [s], [k]
    iterations of the nested loop at depth [d] pass over [s]. *)
Definition skips (s : list byte) (d : Z) (k : nat) : Prop := forall x m f,
  0 <= x <= len bytes -> rest bytes x = s ++ m ->
  skip_nested bytes (k + f) x d = skip_nested bytes f (x + len s) d.

Lemma skips_app s t d k l : skips s d k -> skips t d l -> skips (s ++ t) d (k + l).
Proof.
  intros Hs Ht x m f Hx E. rewrite <- app_assoc in E. rewrite <- Nat.add_assoc.
  rewrite (Hs x (t ++ m)) by done. pose proof (rest_bound _ _ _ _ Hx E).
  pose proof (len_nonneg s). rewrite (Ht _ m).
  - rewrite len_app. f_equal. lia.
  - lia.
  - apply rest_app; [lia|done].
Qed.

Lemma skips_str s d : 0 < d -> skips (print_str s) d 1.
Proof.
  intros Hd x m f Hx E. cbn [Nat.add skip_nested].
  pose proof (valid_at x Hx) as Hv.
  destruct (print_str_head s (at_len_str _ _ _ Hv E)) as (b & t & Eb & Hb).
  destruct (digit_not_letter b Hb) as (He & Hi & Hl & Hdd).
  pose proof E as E'. rewrite Eb in E'.
  rewrite (proj2 (Z.ltb_lt _ _)) by (eapply rest_lt; eauto).
  rewrite (proj2 (Z.ltb_lt _ _)) by lia. ok_simpl.
  rewrite (index_rest bytes x b (t ++ m)) by (done || lia). ok_simpl.
  rewrite He, Hl, Hdd, Hb. ok_simpl.
  by rewrite (read_str_complete _ _ _ Hx E).
Qed.

Lemma skips_int i d : 0 < d -> i64_min <= i <= i64_max -> skips (print (Int i)) d 1.
Proof.
  intros Hd Hr x m f Hx E. cbn [Nat.add skip_nested].
  pose proof (print_i64_ascii i Hr) as [Ha _].
  cbn [print] in E. cbn [print]. rewrite <- app_comm_cons, <- app_assoc in E. cbn in E.
  pose proof (rest_lt _ _ _ Hx E).
  rewrite (proj2 (Z.ltb_lt x _)) by done. rewrite (proj2 (Z.ltb_lt 0 d)) by lia. ok_simpl.
  rewrite (index_rest bytes x "i"%byte _ ltac:(lia) E). ok_simpl.
  change (is_ascii_digit "i"%byte) with false. byte_simpl. unfold advance. rewrite checked_add_small by lia.
  pose proof (rest_cons bytes _ _ x ltac:(lia) E) as E1.
  pose proof (rest_bound bytes (x + 1) (print_i64 i) _ ltac:(lia) E1).
  pose proof (rest_app bytes (print_i64 i) _ (x + 1) ltac:(lia) E1) as E2.
  pose proof (len_nonneg (print_i64 i)).
  rewrite (skip_to_e_spec _ _ (print_i64 i) ("e"%byte :: m)); auto; try lia.
  2: { eapply Forall_impl; [exact Ha|]. by intros ? []. }
  2: { right. eauto. }
  2: { unfold len in *. lia. }
  ok_simpl. pose proof (rest_lt (x + 1 + len (print_i64 i)) _ _ ltac:(lia) E2).
  rewrite (proj2 (Z.leb_gt _ _)) by lia. rewrite checked_add_small by lia.
  f_equal. rewrite len_cons, len_app. change (len ["e"%byte]) with 1. lia.
Qed.

(** One opening or closing byte changes the depth by one. *)
Lemma skip_open x b m f d :
  0 <= x <= len bytes -> rest bytes x = b :: m -> Byte.eqb b "l" || Byte.eqb b "d" = true ->
  0 < d -> d + 1 <= usize_max ->
  skip_nested bytes (S f) x d = skip_nested bytes f (x + 1) (d + 1).
Proof.
  intros Hx E Hb Hd Hm. cbn [skip_nested]. pose proof (rest_lt _ _ _ Hx E).
  rewrite (proj2 (Z.ltb_lt x _)) by done. rewrite (proj2 (Z.ltb_lt 0 d)) by lia. ok_simpl.
  rewrite (index_rest bytes x b _ ltac:(lia) E). ok_simpl. rewrite Hb.
  rewrite (proj2 (checked_add_Some _ _ (d + 1))) by lia.
  unfold advance. by rewrite checked_add_small by lia.
Qed.

Lemma skip_close x m f d :
  0 <= x <= len bytes -> rest bytes x = "e"%byte :: m -> 0 < d ->
  skip_nested bytes (S f) x d = skip_nested bytes f (x + 1) (d - 1).
Proof.
  intros Hx E Hd. cbn [skip_nested]. pose proof (rest_lt _ _ _ Hx E).
  rewrite (proj2 (Z.ltb_lt x _)) by done. rewrite (proj2 (Z.ltb_lt 0 d)) by lia. ok_simpl.
  rewrite (index_rest bytes x "e"%byte _ ltac:(lia) E). ok_simpl. byte_simpl.
  rewrite (proj2 (checked_sub_Some _ _ (d - 1))) by lia.
  unfold advance. by rewrite checked_add_small by lia.
Qed.

Lemma skips_bracket b s d k :
  Byte.eqb b "l" || Byte.eqb b "d" = true -> 0 < d -> d + 1 <= usize_max ->
  skips s (d + 1) k -> skips (b :: s ++ ["e"%byte]) d (S (k + 1)).
Proof.
  intros Hb Hd Hm Hs x m f Hx E. cbn [app] in E. rewrite <- app_assoc in E.
  pose proof (rest_lt _ _ _ Hx E).
  rewrite Nat.add_succ_l, (skip_open x b _ _ _ Hx E Hb Hd Hm).
  pose proof (rest_cons bytes _ _ x ltac:(lia) E) as E1.
  pose proof (rest_bound bytes (x + 1) s _ ltac:(lia) E1). pose proof (len_nonneg s).
  pose proof (rest_app bytes s _ (x + 1) ltac:(lia) E1) as E2.
  rewrite <- Nat.add_assoc, (Hs (x + 1) _ _ ltac:(lia) E1). cbn [Nat.add].
  rewrite (skip_close _ m) by (done || lia).
  rewrite len_cons, len_app. change (len ["e"%byte]) with 1. f_equal; lia.
Qed.

Lemma length_print_str s : (1 <= length (print_str s))%nat.
Proof.
  pose proof (len_print_str s). pose proof (len_nonneg s).
  pose proof (len_nonneg (print_dec (len s))). unfold len in *. lia.
Qed.

Definition skippable (v : Value) : Prop := forall d,
  wf v -> 0 < d -> d + vdepth v <= usize_max ->
  exists k, (k <= length (print v))%nat /\ skips (print v) d k.

Lemma skips_nil d : skips [] d 0.
Proof. intros x m f _ _. change (len []) with 0. by rewrite Z.add_0_r. Qed.

Lemma skips_items_aux l d :
  Forall skippable l -> Forall wf l -> 0 < d ->
  Forall (fun v => d + vdepth v <= usize_max) l ->
  exists k, (k <= length (print_items l))%nat /\ skips (print_items l) d k.
Proof.
  induction 1 as [|v l Hv _ IH]; intros Hw Hd Hl.
  { exists 0%nat. split; [done|apply skips_nil]. }
  apply Forall_cons in Hw as [? ?], Hl as [? ?].
  destruct IH as (k & Hk & Hs); [done..|]. destruct (Hv d) as (j & Hj & Hjs); [done..|].
  change (print_items (v :: l)) with (print v ++ print_items l).
  exists (j + k)%nat. rewrite length_app. split; [lia|by apply skips_app].
Qed.

Lemma skips_entries_aux e d :
  Forall (fun kv => skippable kv.2) e -> Forall (fun kv => wf kv.2) e -> 0 < d ->
  Forall (fun kv => d + vdepth kv.2 <= usize_max) e ->
  exists k, (k <= length (print_entries e))%nat /\ skips (print_entries e) d k.
Proof.
  induction 1 as [|[ky v] l Hv _ IH]; intros Hw Hd Hl.
  { exists 0%nat. split; [done|apply skips_nil]. }
  apply Forall_cons in Hw as [? ?], Hl as [? ?]. cbn [snd] in *.
  destruct IH as (k & Hk & Hs); [done..|]. destruct (Hv d) as (j & Hj & Hjs); [done..|].
  change (print_entries ((ky, v) :: l)) with ((print_str ky ++ print v) ++ print_entries l).
  exists ((1 + j) + k)%nat. pose proof (length_print_str ky). rewrite !length_app.
  split; [lia|]. apply skips_app; [apply skips_app; [by apply skips_str|done]|done].
Qed.

Lemma skips_value v : skippable v.
Proof.
  induction v as [i|s|l IH|e IH] using Value_induction; intros d Hw Hd Hm.
  - exists 1%nat. split; [cbn; lia|by apply skips_int].
  - exists 1%nat. split; [apply length_print_str|by apply skips_str].
  - pose proof (vdepth_List_pos l). apply wf_List in Hw.
    assert (vdepth (List l) <= usize_max - d) as Hl by lia. apply vdepth_List in Hl; [|lia].
    destruct (skips_items_aux l (d + 1)) as (k & Hk & Hs); [done|done|lia| |].
    { eapply Forall_impl; [exact Hl|]. cbn. lia. }
    exists (S (k + 1)). change (print (List l)) with ("l"%byte :: print_items l ++ ["e"%byte]).
    split; [cbn [length]; rewrite length_app; cbn [length]; lia|].
    by apply skips_bracket; [|lia|lia|].
  - pose proof (vdepth_Dict_pos e). apply wf_Dict in Hw as [_ Hw].
    assert (vdepth (Dict e) <= usize_max - d) as Hl by lia. apply vdepth_Dict in Hl; [|lia].
    destruct (skips_entries_aux e (d + 1)) as (k & Hk & Hs); [done|done|lia| |].
    { eapply Forall_impl; [exact Hl|]. cbn. lia. }
    exists (S (k + 1)). change (print (Dict e)) with ("d"%byte :: print_entries e ++ ["e"%byte]).
    split; [cbn [length]; rewrite length_app; cbn [length]; lia|].
    by apply skips_bracket; [|lia|lia|].
Qed.

Lemma skips_items l d :
  Forall wf l -> 0 < d -> Forall (fun v => d + vdepth v <= usize_max) l ->
  exists k, (k <= length (print_items l))%nat /\ skips (print_items l) d k.
Proof. intros. apply skips_items_aux; auto. apply Forall_forall. intros. apply skips_value. Qed.

Lemma skips_entries e d :
  Forall (fun kv => wf kv.2) e -> 0 < d -> Forall (fun kv => d + vdepth kv.2 <= usize_max) e ->
  exists k, (k <= length (print_entries e))%nat /\ skips (print_entries e) d k.
Proof. intros. apply skips_entries_aux; auto. apply Forall_forall. intros. apply skips_value. Qed.

Lemma skip_nested_done f x : skip_nested bytes (S f) x 0 = Ok (Some x).
Proof. cbn [skip_nested]. by rewrite andb_false_r. Qed.

Lemma len_le_length {A} (l : list A) (k : list byte) : len l <= len k -> (length l <= length k)%nat.
Proof. unfold len. lia. Qed.

(** A bracketed value: the scan starts at depth one and stops when it closes. *)
Lemma skip_bracket b s x m k :
  0 <= x <= len bytes -> rest bytes x = b :: s ++ "e"%byte :: m ->
  (k <= length s)%nat -> skips s 1 k ->
  skip_nested bytes (S (length bytes)) (x + 1) 1 = Ok (Some (x + len (b :: s ++ ["e"%byte]))).
Proof.
  intros Hx E Hk Hs. pose proof (rest_lt _ _ _ Hx E).
  pose proof (rest_cons bytes _ _ x ltac:(lia) E) as E1.
  pose proof (rest_bound bytes (x + 1) s _ ltac:(lia) E1). pose proof (len_nonneg s).
  pose proof (rest_app bytes s _ (x + 1) ltac:(lia) E1) as E2.
  pose proof (rest_lt (x + 1 + len s) _ _ ltac:(lia) E2).
  assert (exists g, S (length bytes) = (k + S (S g))%nat) as [g ->].
  { exists (length bytes - k - 1)%nat. unfold len in *. lia. }
  rewrite (Hs (x + 1) _ _ ltac:(lia) E1), (skip_close _ m) by (done || lia).
  rewrite skip_nested_done, len_cons, len_app. change (len ["e"%byte]) with 1.
  do 2 f_equal. lia.
Qed.

Lemma skip_value_complete v x m :
  0 <= x <= len bytes -> rest bytes x = print v ++ m -> wf v ->
  vdepth v <= MAX_BENCODE_DEPTH ->
  skip_value bytes x = Ok (Some (x + len (print v))).
Proof.
  intros Hx E Hw Hd. unfold skip_value, advance.
  assert (forall b t, rest bytes x = b :: t -> get bytes x = Some b /\ checked_add x 1 = Some (x + 1)) as Hget.
  { intros b t Eb. split; [apply get_Some_rest; [lia|eauto]|]. apply checked_add_small; lia. }
  assert (1 + MAX_BENCODE_DEPTH <= usize_max) by done.
  destruct v as [i|s|l|e].
  - pose proof (print_i64_ascii i Hw) as [Ha Hne].
    cbn [print] in E |- *. rewrite <- app_comm_cons, <- app_assoc in E. cbn [app] in E.
    destruct (Hget _ _ E) as [-> ->]. byte_simpl.
    pose proof (rest_lt _ _ _ Hx E). pose proof (rest_cons bytes _ _ x ltac:(lia) E) as E1.
    pose proof (rest_bound bytes (x + 1) (print_i64 i) _ ltac:(lia) E1).
    pose proof (rest_app bytes (print_i64 i) _ (x + 1) ltac:(lia) E1) as E2.
    pose proof (len_nonneg (print_i64 i)).
    rewrite (skip_to_e_spec _ _ (print_i64 i) ("e"%byte :: m)); auto; try lia.
    2: { eapply Forall_impl; [exact Ha|]. by intros ? []. }
    2: { right. eauto. }
    2: { unfold len in *. lia. }
    ok_simpl. pose proof (rest_lt (x + 1 + len (print_i64 i)) _ _ ltac:(lia) E2).
    rewrite (proj2 (Z.leb_gt _ _)) by lia.
    rewrite (proj2 (Z.eqb_neq _ _)) by (rewrite <- len_0 in Hne; lia).
    rewrite checked_add_small, len_cons, len_app by lia. change (len ["e"%byte]) with 1.
    do 2 f_equal. lia.
  - destruct (print_str_head s (at_len_str _ _ _ (valid_at x Hx) E)) as (b & t & Eb & Hb).
    destruct (digit_not_letter b Hb) as (_ & Hi & Hl & Hdd). pose proof E as E'.
    cbn [print] in E'. rewrite Eb in E'. destruct (Hget _ _ E') as [-> _].
    rewrite Hi, Hl, Hdd, Hb. ok_simpl. by rewrite (read_str_complete _ s m Hx E).
  - apply wf_List in Hw. apply (vdepth_List l) in Hd; [|done].
    destruct (skips_items l 1) as (k & Hk & Hs); [done|done| |].
    { eapply Forall_impl; [exact Hd|]. cbn beta. intros. lia. }
    change (print (List l)) with ("l"%byte :: print_items l ++ ["e"%byte]) in *.
    rewrite <- app_comm_cons, <- app_assoc in E. destruct (Hget _ _ E) as [-> ->].
    byte_simpl. by apply (skip_bracket _ _ _ m k).
  - apply wf_Dict in Hw as [_ Hw]. apply (vdepth_Dict e) in Hd; [|done].
    destruct (skips_entries e 1) as (k & Hk & Hs); [done|done| |].
    { eapply Forall_impl; [exact Hd|]. cbn beta. intros. lia. }
    change (print (Dict e)) with ("d"%byte :: print_entries e ++ ["e"%byte]) in *.
    rewrite <- app_comm_cons, <- app_assoc in E. destruct (Hget _ _ E) as [-> ->].
    byte_simpl. by apply (skip_bracket _ _ _ m k).
Qed.

Lemma extract_loop_spec key d f x m :
  0 <= x <= len bytes -> rest bytes x = print_entries d ++ "e"%byte :: m ->
  Forall (fun kv => wf kv.2 /\ vdepth kv.2 <= MAX_BENCODE_DEPTH) d -> (length d < f)%nat ->
  extract_loop bytes f key x = Ok (print <$> get_value (Dict d) key).
Proof.
  revert f x. induction d as [|[k v] d IH]; intros f x Hx E Hw Hf;
    (destruct f as [|f]; [lia|]); cbn [extract_loop].
  - change (rest bytes x = "e"%byte :: m) in E.
    rewrite (proj2 (Z.ltb_lt _ _)) by (eapply rest_lt; eauto).
    by rewrite (index_rest bytes x "e"%byte m) by (done || lia).
  - change (print_entries ((k, v) :: d)) with ((print_str k ++ print v) ++ print_entries d) in E.
    rewrite <- !app_assoc in E. apply Forall_cons in Hw as [[Hwv Hdv] Hw]. cbn [snd] in *.
    destruct (print_str_head k (at_len_str _ _ _ (valid_at x Hx) E)) as (b & t & Eb & Hb).
    destruct (digit_not_letter b Hb) as (He & _). pose proof E as E'. rewrite Eb in E'.
    rewrite (proj2 (Z.ltb_lt _ _)) by (eapply rest_lt; eauto).
    rewrite (index_rest bytes x b _ ltac:(lia) E'). ok_simpl. rewrite He.
    rewrite (read_str_complete _ _ _ Hx E). ok_simpl.
    pose proof (rest_bound _ _ _ _ Hx E). pose proof (len_nonneg (print_str k)).
    pose proof (rest_app _ _ _ x ltac:(lia) E) as E1.
    rewrite (skip_value_complete v (x + len (print_str k)) _ ltac:(lia) E1 Hwv Hdv). ok_simpl.
    pose proof (rest_bound bytes (x + len (print_str k)) _ _ ltac:(lia) E1). pose proof (print_nonempty v).
    cbn [get_value List.find fst]. destruct (bool_decide (k = key)) eqn:Ek.
    + rewrite (slice_app bytes (print v) _ (x + len (print_str k)) ltac:(lia) E1). done.
    + apply IH; [lia| |done|cbn in Hf; lia]. apply rest_app; [lia|done].
Qed.

(** ** The scanner on arbitrary input *)

(** It returns, and a position it returns lies ahead, inside the input. *)
Definition scans (x : Z) (r : outcome (option Z)) : Prop :=
  exists o, r = Ok o /\ forall y, o = Some y -> x <= y <= len bytes.

Lemma scans_None x : scans x (Ok None).
Proof. by exists None. Qed.
Lemma scans_Some x y : x <= y <= len bytes -> scans x (Ok (Some y)).
Proof. intros ?. exists (Some y). split; [done|]. by intros ? [= <-]. Qed.
Lemma scans_weaken x x' r : x <= x' -> scans x' r -> scans x r.
Proof. intros ? (o & -> & H). exists o. split; [done|]. intros y Hy. specialize (H y Hy). lia. Qed.

Lemma read_str_scans x :
  0 <= x <= len bytes ->
  exists o, read_str bytes x = Ok o /\ forall s y, o = Some (s, y) -> x < y <= len bytes.
Proof.
  intros Hx. pose proof (valid_at x Hx) as Hv.
  pose proof (read_str_parse_str (mkParser x 0 0) Hv) as Hr. cbn [pos] in Hr.
  pose proof (parse_str_returns _ Hv). pose proof (read_str_bound x) as Hb.
  destruct (parse_str bytes (mkParser x 0 0)) as [[s p']| | |]; try done.
  - rewrite Hr in *. eexists. split; [done|]. intros s' y [= -> <-]. by eapply Hb.
  - rewrite Hr in *. exists None. by split.
Qed.

Lemma skip_nested_scans f x d :
  0 <= x <= len bytes -> 0 <= d -> len bytes - x < Z.of_nat f ->
  scans x (skip_nested bytes f x d).
Proof.
  revert x d. induction f as [|f IH]; intros x d Hx Hd Hf; [lia|]. cbn [skip_nested].
  destruct (Z.ltb_spec x (len bytes)); cbn [andb]; [|apply scans_Some; lia].
  destruct (Z.ltb_spec 0 d); [|apply scans_Some; lia].
  destruct (rest_lt_inv x ltac:(lia)) as (b & m & E).
  rewrite (index_rest bytes x b m ltac:(lia) E). ok_simpl.
  unfold advance. rewrite !(checked_add_small x 1) by lia.
  assert (forall d', 0 <= d' -> scans x (skip_nested bytes f (x + 1) d')) as Hstep.
  { intros d' Hd'. apply (scans_weaken _ (x + 1)); [lia|]. apply IH; lia. }
  destruct (Byte.eqb b "l" || Byte.eqb b "d").
  { destruct (checked_add d 1) eqn:Ed; [|apply scans_None].
    apply checked_add_Some in Ed as [-> _]. apply Hstep. lia. }
  destruct (Byte.eqb b "e").
  { rewrite (proj2 (checked_sub_Some d 1 (d - 1))) by lia. apply Hstep. lia. }
  destruct (is_ascii_digit b).
  { destruct (read_str_scans x Hx) as (o & -> & Ho). ok_simpl.
    destruct o as [[s y]|]; [|apply scans_None]. specialize (Ho s y eq_refl).
    apply (scans_weaken _ y); [lia|]. apply IH; lia. }
  destruct (Byte.eqb b "i"); [|apply scans_None].
  destruct (skip_to_e_returns (S (length bytes)) (x + 1)) as (y & -> & Hy).
  { lia. } { unfold len. lia. }
  ok_simpl. destruct (Z.leb_spec (len bytes) y); [apply scans_None|].
  rewrite checked_add_small by lia. apply (scans_weaken _ (y + 1)); [lia|]. apply IH; lia.
Qed.

Lemma skip_value_scans x : 0 <= x <= len bytes -> scans x (skip_value bytes x).
Proof.
  intros Hx. unfold skip_value, advance. destruct (get bytes x) as [b|] eqn:G; [|apply scans_None].
  apply get_Some_rest in G as [m E]; [|lia]. pose proof (rest_lt _ _ _ Hx E).
  rewrite (checked_add_small x 1) by lia.
  destruct (Byte.eqb b "i").
  { destruct (skip_to_e_returns (S (length bytes)) (x + 1)) as (y & -> & Hy).
    { lia. } { unfold len. lia. }
    ok_simpl. destruct (Z.leb_spec (len bytes) y); [apply scans_None|].
    destruct (y =? x + 1); [apply scans_None|].
    rewrite checked_add_small by lia. apply scans_Some. lia. }
  destruct (Byte.eqb b "l" || Byte.eqb b "d").
  { apply (scans_weaken _ (x + 1)); [lia|]. apply skip_nested_scans; [lia|lia|]. unfold len. lia. }
  destruct (is_ascii_digit b); [|apply scans_None].
  destruct (read_str_scans x Hx) as (o & -> & Ho). ok_simpl.
  destruct o as [[s y]|]; [|apply scans_None]. specialize (Ho s y eq_refl).
  apply scans_Some. lia.
Qed.

Lemma extract_loop_returns key f x :
  0 <= x <= len bytes -> len bytes - x < Z.of_nat f ->
  returns (extract_loop bytes f key x).
Proof.
  revert x. induction f as [|f IH]; intros x Hx Hf; [lia|]. cbn [extract_loop].
  destruct (Z.ltb_spec x (len bytes)); [|done].
  destruct (rest_lt_inv x ltac:(lia)) as (b & m & E).
  rewrite (index_rest bytes x b m ltac:(lia) E). ok_simpl. destruct (Byte.eqb b "e"); [done|].
  destruct (read_str_scans x Hx) as (o & -> & Ho). ok_simpl.
  destruct o as [[s y]|]; [|done]. specialize (Ho s y eq_refl).
  destruct (skip_value_scans y ltac:(lia)) as (o & -> & Hz). ok_simpl.
  destruct o as [z|]; [|done]. specialize (Hz z eq_refl).
  destruct (bool_decide _); [|apply IH; lia].
  rewrite slice_rest by lia. done.
Qed.
End cursor.

(** ** The decoder as a whole *)

Definition start : Parser := mkParser 0 0 0.

Lemma valid_start bytes : valid bytes start.
Proof. repeat split; cbn; auto using len_nonneg; lia. Qed.

Lemma decode_prefix_sound bytes v n :
  decode_prefix bytes = Ok (v, n) ->
  (exists m, bytes = print v ++ m) /\ n = len (print v) /\ wf v /\
  vdepth v <= MAX_BENCODE_DEPTH /\ vnodes v <= MAX_BENCODE_NODES /\
  len bytes <= MAX_TORRENT_METADATA_BYTES.
Proof.
  unfold decode_prefix. intros H. apply bind_Ok in H as ([] & Hs & H).
  apply fail_if_Ok, Z.ltb_ge in Hs. apply bind_Ok in H as ([v' p] & Hp & [= <- <-]).
  apply (parse_sound bytes Hs) in Hp as (Hw & (m & Ha) & -> & Hn & Hd);
    [|apply valid_start|done].
  cbn in Hn, Hd. split; [exists m; done|]. by repeat split.
Qed.

Lemma decode_prefix_complete v m :
  wf v -> vdepth v <= MAX_BENCODE_DEPTH -> vnodes v <= MAX_BENCODE_NODES ->
  len (print v ++ m) <= MAX_TORRENT_METADATA_BYTES ->
  decode_prefix (print v ++ m) = Ok (v, len (print v)).
Proof.
  intros Hw Hd Hn Hs. unfold decode_prefix. rewrite (proj2 (Z.ltb_ge _ _)) by done. ok_simpl.
  rewrite (parse_complete _ Hs v _ _ m); auto using valid_start.
  - done.
  - unfold decode_fuel, len. rewrite length_app. lia.
Qed.

Lemma decode_prefix_returns bytes : returns (decode_prefix bytes).
Proof.
  unfold decode_prefix. apply bind_returns; [auto|]. intros [] Hs%fail_if_Ok%Z.ltb_ge.
  apply bind_returns; [|by intros [??] _].
  destruct (parse_total bytes Hs (decode_fuel bytes)) as (Hp & _).
  apply Hp; [apply valid_start|done|]. unfold room, decode_fuel, len. cbn [pos]. lia.
Qed.

Lemma decode_sound bytes v : decode bytes = Ok v -> bytes = print v /\ within_limits v.
Proof.
  unfold decode. intros H. apply bind_Ok in H as ([v' n] & Hp & H).
  apply bind_Ok in H as ([] & Hl%fail_if_Ok & [= <-]).
  apply decode_prefix_sound in Hp as ((m & Hm) & -> & Hw & Hd & Hn & Hs).
  apply negb_false_iff, Z.eqb_eq in Hl. subst bytes. rewrite len_app in Hl.
  assert (m = []) as -> by (apply len_0; lia). rewrite app_nil_r in *.
  split; [done|]. by repeat split.
Qed.

Lemma decode_complete v : within_limits v -> decode (print v) = Ok v.
Proof.
  intros (Hw & Hd & Hn & Hs). unfold decode.
  pose proof (decode_prefix_complete v [] Hw Hd Hn) as H. rewrite app_nil_r in H.
  rewrite (H Hs). ok_simpl. by rewrite Z.eqb_refl.
Qed.

Lemma extract_value_bytes_sound bytes v key :
  decode bytes = Ok v ->
  extract_value_bytes bytes key = Ok (print <$> get_value v key).
Proof.
  intros [-> (Hw & Hd & _ & Hs)]%decode_sound. unfold extract_value_bytes.
  rewrite (proj2 (Z.ltb_ge _ _)) by done. rewrite get_rest by done.
  change (rest (print v) 0) with (print v).
  destruct v as [i|s|l|d]; try done.
  - destruct (print_str_head s) as (b & t & E & Hb).
    { cbn [print] in Hs. rewrite len_print_str in Hs. pose proof (len_nonneg (print_dec (len s))).
      unfold MAX_TORRENT_METADATA_BYTES, usize_max in *. lia. }
    cbn [print]. rewrite E. cbn [head].
    by destruct (digit_not_letter b Hb) as (_ & _ & _ & ->).
  - change (print (Dict d)) with ("d"%byte :: print_entries d ++ ["e"%byte]) in *.
    cbn [head]. byte_simpl. change (checked_add 0 1) with (Some 1). cbn iota beta.
    apply wf_Dict in Hw as [_ Hw]. apply vdepth_Dict in Hd; [|done].
    pose proof (len_nonneg (print_entries d ++ ["e"%byte])).
    apply (extract_loop_spec _ Hs key d _ 1 []).
    + rewrite len_cons. lia.
    + done.
    + apply Forall_and. split; [done|]. eapply Forall_impl; [exact Hd|]. cbn beta. intros. lia.
    + cbn [length]. rewrite length_app. cbn [length].
      enough (length d <= length (print_entries d))%nat by lia.
      clear. induction d as [|[k v] d IH]; [done|].
      change (print_entries ((k, v) :: d)) with ((print_str k ++ print v) ++ print_entries d).
      rewrite (length_app (print_str k ++ print v)), (length_app (print_str k)).
      change (length ((k, v) :: d)) with (S (length d)). pose proof (length_print_str [] k). lia.
Qed.

Lemma extract_value_bytes_returns bytes key : returns (extract_value_bytes bytes key).
Proof.
  unfold extract_value_bytes. destruct (Z.ltb_spec MAX_TORRENT_METADATA_BYTES (len bytes)); [done|].
  destruct (get bytes 0) as [b|] eqn:G; [|done]. destruct (negb _); [done|].
  change (checked_add 0 1) with (Some 1). cbn iota beta.
  apply get_Some_rest in G as [m E]; [|done]. pose proof (len_nonneg bytes).
  pose proof (rest_lt bytes 0 b m ltac:(lia) E).
  apply extract_loop_returns; [done|lia|unfold len; lia].
Qed.

(** ** The encoder *)

Lemma bytes_le_total a b : bytes_le a b = false -> bytes_le b a = true.
Proof.
  revert b. induction a as [|x a IH]; intros [|y b]; cbn; try done.
  destruct (Z.ltb_spec (u8 x) (u8 y)); [done|]. destruct (Z.eqb_spec (u8 x) (u8 y)) as [->|].
  - rewrite Z.ltb_irrefl, Z.eqb_refl. apply IH.
  - intros _. by rewrite (proj2 (Z.ltb_lt _ _)) by lia.
Qed.

Lemma foldr_and_Forall {A} (P : A -> Prop) l :
  foldr (fun a Q => P a /\ Q) True l <-> Forall P l.
Proof. induction l as [|a l IH]; cbn; [done|]. by rewrite Forall_cons, IH. Qed.

Section encoder.
Context {Number : Type} (number_to_string : Number -> list byte) (number_value : Number -> Z).
Abbreviation encode_json := (encode_json number_to_string).
Abbreviation of_json := (of_json number_value).
Abbreviation encodable := (encodable number_value number_to_string).

Section json_ind.
Variable P : @Json Number -> Prop.
Hypothesis PNull : P JNull.
Hypothesis PBool : forall b, P (JBool b).
Hypothesis PNumber : forall n, P (JNumber n).
Hypothesis PString : forall s, P (JString s).
Hypothesis PArray : forall a, Forall P a -> P (JArray a).
Hypothesis PObject : forall o, Forall (fun kv => P kv.2) o -> P (JObject o).

Fixpoint Json_induction (j : Json) : P j :=
  match j with
  | JNull => PNull
  | JBool b => PBool b
  | JNumber n => PNumber n
  | JString s => PString s
  | JArray a => PArray a
      ((fix go (a : list Json) : Forall P a :=
          match a with
          | [] => Forall_nil_2 _
          | j :: a' => Forall_cons_2 _ _ _ (Json_induction j) (go a')
          end) a)
  | JObject o => PObject o
      ((fix go (o : list (list byte * Json)) : Forall (fun kv => P kv.2) o :=
          match o with
          | [] => Forall_nil_2 _
          | kv :: o' => Forall_cons_2 _ _ _ (Json_induction kv.2) (go o')
          end) o)
  end.
End json_ind.

(** Appending the text of a document. *)
Definition appends (j : Json) : Prop := forall out,
  encodable j -> encode_json j out = Ok (out ++ print (of_json j)).

Lemma encode_items a out :
  Forall appends a -> Forall encodable a ->
  foldl (fun acc enc => out ← acc; enc out) (Ok out) (map encode_json a)
    = Ok (out ++ print_items (map of_json a)).
Proof.
  intros H. revert out. induction H as [|j a Hj _ IH]; intros out Hw.
  { cbn. by rewrite app_nil_r. }
  apply Forall_cons in Hw as [? ?]. cbn [map foldl]. rewrite bind_ret, Hj by done.
  rewrite IH by done. cbn. by rewrite <- app_assoc.
Qed.

Lemma write_bytes_print out b : write_bytes out b = out ++ print_str b.
Proof. done. Qed.

Lemma encode_entries o out :
  Forall (fun kv => appends kv.2) o -> Forall (fun kv => encodable kv.2) o ->
  foldl (fun acc kenc => out ← acc; kenc.2 (write_bytes out kenc.1)) (Ok out)
      (map (fun kv => (kv.1, encode_json kv.2)) o)
    = Ok (out ++ print_entries (map (fun kv => (kv.1, of_json kv.2)) o)).
Proof.
  intros H. revert out. induction H as [|[k j] o Hj _ IH]; intros out Hw.
  { cbn. by rewrite app_nil_r. }
  apply Forall_cons in Hw as [? ?]. cbn [map foldl fst snd] in *.
  rewrite bind_ret, write_bytes_print, Hj by done. rewrite IH by done.
  f_equal. rewrite <- !app_assoc. f_equal.
  change (print_entries _) with ((print_str k ++ print (of_json j)) ++
    print_entries (map (fun kv => (kv.1, of_json kv.2)) o)) at 2.
  by rewrite <- app_assoc.
Qed.

Lemma encode_json_appends j : appends j.
Proof.
  induction j as [|b|n|s|a IH|o IH] using Json_induction; intros out Hw; try done.
  - by destruct b.
  - destruct Hw as [_ E]. cbn. by rewrite E.
  - apply foldr_and_Forall in Hw. cbn [Bencode.encode_json].
    rewrite (encode_items a) by done. ok_simpl. cbn. by rewrite <- !app_assoc.
  - destruct Hw as [_ Hw]. apply foldr_and_Forall in Hw. cbn [Bencode.encode_json].
    set (le := fun a b : list byte * @Json Number => bytes_le a.1 b.1).
    rewrite (sort_by_map le) by done.
    rewrite (encode_entries (sort_by le o)) by by rewrite sort_by_perm.
    ok_simpl. cbn [Bencode.of_json]. rewrite (sort_by_map le) by done.
    change (print (Dict ?d)) with ("d"%byte :: print_entries d ++ ["e"%byte]).
    by rewrite <- !app_assoc.
Qed.

Lemma encodable_wf j : encodable j -> wf (of_json j).
Proof.
  induction j as [|b|n|s|a IH|o IH] using Json_induction; intros Hw; try done.
  - by destruct b.
  - by destruct Hw.
  - apply foldr_and_Forall in Hw. apply wf_List, Forall_map.
    rewrite Forall_forall in *. naive_solver.
  - destruct Hw as [Hnd Hw]. apply foldr_and_Forall in Hw. cbn [Bencode.of_json].
    apply wf_Dict. rewrite sort_by_perm. split.
    + change (map (fun kv => (kv.1, of_json kv.2)) o)
        with ((fun kv => (kv.1, of_json kv.2)) <$> o). by rewrite <- list_fmap_compose.
    + apply Forall_map. rewrite Forall_forall in *. intros kv Hkv. apply (IH kv Hkv), (Hw kv Hkv).
Qed.

Lemma of_json_canonical_aux j : canonical (of_json j).
Proof.
  induction j as [|b|n|s|a IH|o IH] using Json_induction; try done.
  - apply foldr_and_Forall, Forall_map. done.
  - cbn [Bencode.of_json canonical]. set (d := map _ o). split.
    + pose proof (sort_by_sorted (fun a b : list byte * Value => bytes_le a.1 b.1) d) as Hs.
      specialize (Hs ltac:(intros; by apply bytes_le_total)).
      induction Hs as [|kv l Hl IHl Hh]; cbn; constructor; auto.
      by inversion Hh; cbn; constructor.
    + apply foldr_and_Forall. rewrite sort_by_perm. apply Forall_map. done.
Qed.
End encoder.

(** ** Properties *)

(** C15: the decoder accepts exactly the bencode texts of well-formed values
    within the limits: integers canonical and in [i64], lengths canonical,
    dictionary keys distinct, depth, node count and size bounded, nothing after
    the value.  On such a text it returns the value. *)
Theorem decode_accepts_exactly_print bytes v :
  decode bytes = Ok v <-> bytes = print v /\ within_limits v.
Proof.
  split; [apply decode_sound|]. intros [-> H]. by apply decode_complete.
Qed.

(** C30: no input makes the decoder or the scanner panic, and the recursion ends
    on every input: each entry point returns a value or an error. *)
Theorem decode_never_panics bytes key :
  returns (decode bytes) /\ returns (decode_prefix bytes) /\
  returns (extract_value_bytes bytes key).
Proof.
  split; [|split; [apply decode_prefix_returns|apply extract_value_bytes_returns]].
  unfold decode. apply bind_returns; [apply decode_prefix_returns|]. intros [v n] _.
  returns_tac.
Qed.

(** [decode_prefix] returns the value whose text starts the input together
    with the length of that text, and rejects nothing else that fits the limits. *)
Theorem decode_prefix_exact bytes v n :
  decode_prefix bytes = Ok (v, n) <->
  (exists tail, bytes = print v ++ tail) /\ n = len (print v) /\ wf v /\
  vdepth v <= MAX_BENCODE_DEPTH /\ vnodes v <= MAX_BENCODE_NODES /\
  len bytes <= MAX_TORRENT_METADATA_BYTES.
Proof.
  split; [apply decode_prefix_sound|].
  intros ([m ->] & -> & Hw & Hd & Hn & Hs). by apply decode_prefix_complete.
Qed.

(** C38: on an input the decoder accepts, the raw scanner returns the exact bytes
    of the value the decoder binds to the key ([None] when there is none), so an
    info hash is computed over the text of the decoded [info] value. *)
Theorem extract_value_bytes_exact bytes v key :
  decode bytes = Ok v ->
  extract_value_bytes bytes key = Ok (print <$> get_value v key).
Proof. apply extract_value_bytes_sound. Qed.

(** A small dictionary: [d1:ai1e4:infod1:nl1:xi-2eeee]. *)
Definition sample_bytes : list byte :=
  String.list_byte_of_string "d1:ai1e4:infod1:nl1:xi-2eeee".
Definition sample_value : Value :=
  Dict [(["a"%byte], Int 1);
        (String.list_byte_of_string "info",
           Dict [(["n"%byte], List [Str ["x"%byte]; Int (-2)])])].

Lemma extract_value_bytes_exact_witness :
  decode sample_bytes = Ok sample_value /\
  extract_value_bytes sample_bytes (String.list_byte_of_string "info")
    = Ok (Some (String.list_byte_of_string "d1:nl1:xi-2eee")).
Proof.
  assert (decode sample_bytes = Ok sample_value) as H by (vm_compute; reflexivity).
  split; [exact H|].
  exact (extract_value_bytes_exact sample_bytes sample_value (String.list_byte_of_string "info") H).
Defined.

(** The encoder's output is the canonical text (keys sorted at every level)
    of the document's value, and within the limits decoding returns that value. *)
Theorem encode_decode_roundtrip {Number} (number_to_string : Number -> list byte)
    (number_value : Number -> Z) j :
  encodable number_value number_to_string j ->
  within_limits (of_json number_value j) ->
  exists out, encode_json number_to_string j [] = Ok out /\
    out = print (of_json number_value j) /\ canonical (of_json number_value j) /\
    decode out = Ok (of_json number_value j).
Proof.
  intros He Hl. exists (print (of_json number_value j)).
  split; [by apply (encode_json_appends number_to_string number_value j [])|].
  split; [done|]. split; [apply of_json_canonical_aux|by apply decode_complete].
Qed.

Lemma encode_decode_roundtrip_witness :
  let j := JObject [(["b"%byte], JBool true); (["a"%byte], JArray [JNumber 7; JString []])] in
  exists out, encode_json print_i64 j [] = Ok out /\
    out = print (of_json id j) /\ canonical (of_json id j) /\ decode out = Ok (of_json id j).
Proof.
  intros j. apply (encode_decode_roundtrip print_i64 id j).
  - cbn. repeat split; try (vm_compute; discriminate). repeat constructor; set_solver.
  - cbn. repeat split; try (vm_compute; discriminate). repeat constructor; set_solver.
Defined.
