(* ===== verification/Meta.v ===== *)
(** * Torrent metadata: [crates/swarmotter-core/src/meta.rs]

    The data of a parsed torrent, the checks that metainfo must pass
    ([validate] and its helpers) and the piece arithmetic of [TorrentMeta].  The
    parsers are in [MetaParse], the theorems in [MetaCorrect]. *)

From S2P Require Import Prelude Text Bencode Hash Merkle.

(** Text is the bytes of a Rust [String]. *)
Abbreviation text := (list byte).

Definition MAX_TORRENT_FILES : Z := 100000.
Definition MAX_TORRENT_PIECES : Z := 750000.
Definition MAX_PIECE_LENGTH : Z := 64 * 1024 * 1024.

(** ** Data *)

Record MetaFile : Type := mkMetaFile {
  path : list text; mf_length : Z; pieces_root : option V2InfoHash }.

Record V2PieceLayer : Type := mkLayer {
  layer_root : V2InfoHash; hashes : list V2InfoHash }.

Record V2TorrentMeta : Type := mkV2Meta {
  meta_version : Z; v2_files : list MetaFile; piece_layers : list V2PieceLayer;
  piece_layers_verified : bool }.

Record TorrentMeta : Type := mkMeta {
  info_hash : InfoHash; identity : TorrentIdentity; name : text; piece_length : Z;
  pieces : list (array 20); files : list MetaFile; total_length : Z; private : bool;
  announce : option text; announce_list : list (list text); webseeds : list text;
  comment : option text; created_by : option text; creation_date : option Z;
  is_multi_file : bool; v2 : option V2TorrentMeta; raw_info : option (list byte) }.

Record Bep9V2Info : Type := mkBep9 {
  bep9_identity : V2InfoHash; bep9_piece_length : Z; bep9_files : list MetaFile }.

(** Parsing sets the identity and the BEP 52 data of a hybrid afterwards. *)
Definition set_v2 (m : TorrentMeta) (i : TorrentIdentity) (v : V2TorrentMeta) : TorrentMeta :=
  mkMeta (info_hash m) i (name m) (piece_length m) (pieces m) (files m) (total_length m) (private m)
    (announce m) (announce_list m) (webseeds m) (comment m) (created_by m) (creation_date m)
    (is_multi_file m) (Some v) (raw_info m).

(** ** Path components and file lists *)

Definition contains_byte (b : byte) (s : text) : bool := existsb (Byte.eqb b) s.
Definition starts_with_byte (b : byte) (s : text) : bool :=
  match s with [] => false | c :: _ => Byte.eqb c b end.

Definition validate_path_component (value : text) (kind : string) : outcome () :=
  _ ← fail_if (len value =? 0) (MalformedTorrent (kind +:+ " is empty"));
  _ ← fail_if (bool_decide (value = bytes_of ".") || bool_decide (value = bytes_of ".."))
        (MalformedTorrent (kind +:+ " cannot be relative traversal component"));
  _ ← fail_if (starts_with_byte "/" value || starts_with_byte "\" value)
        (MalformedTorrent (kind +:+ " cannot be absolute"));
  _ ← fail_if (contains_byte "/" value || contains_byte "\" value)
        (MalformedTorrent (kind +:+ " cannot contain path separators"));
  fail_if (contains_byte ":" value)
    (MalformedTorrent (kind +:+ " cannot contain windows-style prefix characters")).

Definition total_file_length (files : list MetaFile) (context : string) : outcome Z :=
  try_fold (fun total file =>
    ok_or (checked_add total (mf_length file))
      (MalformedTorrent (context +:+ " total file length exceeds u64"))) 0 files.

(** The loop of [validate_file_list]: [paths] is the set of paths seen. *)
Definition check_file_path (paths : gset (list text)) (file : MetaFile) : outcome (gset (list text)) :=
  _ ← fail_if (bool_decide (path file = [])) (MalformedTorrent "file with empty path");
  _ ← for_each (fun component => validate_path_component component "file path component") (path file);
  _ ← fail_if (bool_decide (path file ∈ paths)) (MalformedTorrent "duplicate file path");
  Ok ({[path file]} ∪ paths).

Definition validate_file_list (files : list MetaFile) (expected_total : Z) (context : string)
  : outcome () :=
  _ ← fail_if (len files =? 0) (MalformedTorrent (context +:+ " must contain at least one file"));
  _ ← fail_if (MAX_TORRENT_FILES <? len files)
        (MalformedTorrent (context +:+ " file count exceeds maximum"));
  _ ← try_fold check_file_path ∅ files;
  total ← total_file_length files context;
  fail_if (negb (total =? expected_total))
    (MalformedTorrent (context +:+ " file lengths do not match recorded length")).

(** ** Piece layouts *)

Definition validate_v1_piece_layout (meta : TorrentMeta) : outcome () :=
  _ ← fail_if (MAX_TORRENT_PIECES <? len (pieces meta))
        (MalformedTorrent "piece count exceeds maximum");
  expected_pieces_u64 ← u64_div_ceil (total_length meta) (piece_length meta);
  _ ← fail_if (MAX_TORRENT_PIECES <? expected_pieces_u64)
        (MalformedTorrent "expected piece count exceeds maximum");
  expected_pieces ← ok_or (usize_try_from expected_pieces_u64)
        (MalformedTorrent "piece count exceeds platform limits");
  fail_if (negb (len (pieces meta) =? expected_pieces))
    (MalformedTorrent "piece count does not match expected").

(** [same_layout] and [validate_hybrid_layout]; [path.get(1..)] of an empty path
    is [None], which [unwrap_or_default] makes empty. *)
Definition same_layout (left : list (list text * Z)) (right : list MetaFile) : bool :=
  (len left =? len right)
  && forallb (fun '((p, l), file) => bool_decide (p = path file) && (l =? mf_length file))
       (zip left right).

Definition validate_hybrid_layout (v1_files v2_files : list MetaFile) (v1_is_multi_file : bool)
  : outcome () :=
  let full := map (fun file => (path file, mf_length file)) v1_files in
  if same_layout full v2_files then Ok ()
  else
    let relative := map (fun file => (drop 1 (path file), mf_length file)) v1_files in
    if v1_is_multi_file && same_layout relative v2_files then Ok ()
    else Err (MalformedTorrent "hybrid v1 and v2 file layouts are not identical").

Section meta.
Context {D : Digests}.

(** The maps of [validate_v2_metadata].  A [HashMap] yields its entries in an
    unspecified order; the model takes the one of [map_to_list], which decides only
    which error of several is reported. *)
Definition group_by_root (acc : gmap V2InfoHash (list MetaFile)) (file : MetaFile)
  : outcome (gmap V2InfoHash (list MetaFile)) :=
  if mf_length file =? 0 then Ok acc
  else
    root ← ok_or (pieces_root file)
      (MalformedTorrent "non-empty BEP 52 file is missing pieces root");
    Ok (<[root := default [] (acc !! root) ++ [file]]> acc).

Definition add_layer (acc : gmap V2InfoHash V2PieceLayer) (layer : V2PieceLayer)
  : outcome (gmap V2InfoHash V2PieceLayer) :=
  _ ← fail_if (bool_decide (is_Some (acc !! layer_root layer)))
        (MalformedTorrent "duplicate BEP 52 piece-layer root");
  Ok (<[layer_root layer := layer]> acc).

Definition check_layer_width (layer : V2PieceLayer) (piece_length : Z) (file : MetaFile) : outcome () :=
  if mf_length file <=? piece_length then Ok ()
  else
    n ← u64_div_ceil (mf_length file) piece_length;
    expected ← ok_or (usize_try_from n)
      (MalformedTorrent "BEP 52 piece-layer count exceeds platform limits");
    fail_if (negb (len (hashes layer) =? expected))
      (MalformedTorrent "BEP 52 piece layer has an unexpected number of hashes").

Definition check_file_root (layers_by_root : gmap V2InfoHash V2PieceLayer) (piece_length : Z)
    (entry : V2InfoHash * list MetaFile) : outcome () :=
  let '(root, files) := entry in
  let requires_layer := existsb (fun file => piece_length <? mf_length file) files in
  let layer := layers_by_root !! root in
  if requires_layer then
    layer ← ok_or layer
      (MalformedTorrent "BEP 52 file larger than piece length is missing a piece layer");
    _ ← for_each (check_layer_width layer piece_length) files;
    actual ← v2_piece_layer_root (hashes layer) piece_length;
    fail_if (negb (bool_decide (actual = root)))
      (MalformedTorrent "BEP 52 piece layer does not match its pieces root")
  else
    fail_if (bool_decide (is_Some layer))
      (MalformedTorrent "BEP 52 file at or below piece length must not have a piece layer").

Definition check_layer_root (files_by_root : gmap V2InfoHash (list MetaFile))
    (entry : V2InfoHash * V2PieceLayer) : outcome () :=
  fail_if (negb (bool_decide (is_Some (files_by_root !! entry.1))))
    (MalformedTorrent "BEP 52 piece layer does not correspond to a file root").

Definition validate_v2_metadata (v2 : V2TorrentMeta) (piece_length total_length : Z) : outcome () :=
  _ ← fail_if (negb (meta_version v2 =? 2)) (MalformedTorrent "unsupported BEP 52 meta version");
  _ ← validate_v2_piece_length piece_length;
  _ ← validate_file_list (v2_files v2) total_length "BEP 52 file tree";
  files_by_root ← try_fold group_by_root ∅ (v2_files v2);
  if negb (piece_layers_verified v2) then
    fail_if (negb (len (piece_layers v2) =? 0))
      (MalformedTorrent "unverified BEP 52 metadata must not carry piece layers")
  else
    layers_by_root ← try_fold add_layer ∅ (piece_layers v2);
    _ ← for_each (check_file_root layers_by_root piece_length) (map_to_list files_by_root);
    for_each (check_layer_root files_by_root) (map_to_list layers_by_root).

(** ** [TorrentMeta::validate] *)

Definition validate_raw_info (m : TorrentMeta) : outcome () :=
  match raw_info m with
  | None => Ok ()
  | Some raw_info =>
      _ ← fail_if (MAX_TORRENT_METADATA_BYTES <? len raw_info)
            (MalformedTorrent "raw info dictionary size exceeds maximum");
      match identity m with
      | Unknown =>
          fail_if (negb (bool_decide (from_info_bencoded raw_info = info_hash m)))
            (MalformedTorrent "raw info dictionary does not match legacy v1 info hash")
      | identity =>
          fail_if (negb (matches_info_bencoded identity raw_info))
            (MalformedTorrent "raw info dictionary does not match torrent identity")
      end
  end.

Definition validate_identity (m : TorrentMeta) : outcome () :=
  match identity m with
  | Unknown => validate_v1_piece_layout m
  | V1 v1 =>
      _ ← fail_if (negb (bool_decide (v1 = info_hash m)))
            (MalformedTorrent "explicit v1 identity does not match legacy info hash");
      _ ← fail_if (bool_decide (is_Some (v2 m)))
            (MalformedTorrent "v1 identity cannot carry BEP 52 metadata");
      validate_v1_piece_layout m
  | V2 _ =>
      _ ← fail_if (negb (bool_decide (info_hash m = ZERO)))
            (MalformedTorrent "pure v2 metadata must not carry a v1 info hash");
      _ ← fail_if (negb (len (pieces m) =? 0))
            (MalformedTorrent "pure v2 metadata must not carry v1 piece hashes");
      v2 ← ok_or (v2 m) (MalformedTorrent "v2 identity is missing BEP 52 metadata");
      _ ← validate_v2_metadata v2 (piece_length m) (total_length m);
      fail_if (negb (piece_layers_verified v2))
        (MalformedTorrent "pure v2 metadata requires verified piece layers")
  | Hybrid v1 _ =>
      _ ← fail_if (negb (bool_decide (v1 = info_hash m)))
            (MalformedTorrent "hybrid v1 identity does not match legacy info hash");
      _ ← validate_v1_piece_layout m;
      v2 ← ok_or (v2 m) (MalformedTorrent "hybrid identity is missing BEP 52 metadata");
      _ ← validate_v2_metadata v2 (piece_length m) (total_length m);
      validate_hybrid_layout (files m) (v2_files v2) (is_multi_file m)
  end.

Definition validate (m : TorrentMeta) : outcome () :=
  _ ← fail_if (len (name m) =? 0) (MalformedTorrent "empty torrent name");
  _ ← validate_path_component (name m) "torrent name";
  _ ← fail_if (piece_length m =? 0) (MalformedTorrent "piece length must be greater than zero");
  _ ← fail_if (MAX_PIECE_LENGTH <? piece_length m)
        (MalformedTorrent "piece length exceeds maximum");
  _ ← fail_if (total_length m =? 0)
        (MalformedTorrent "torrent total length must be greater than zero");
  _ ← validate_file_list (files m) (total_length m) "torrent";
  _ ← fail_if (negb (is_multi_file m) && negb (len (files m) =? 1))
        (MalformedTorrent "single-file torrent must contain exactly one file");
  _ ← validate_raw_info m;
  validate_identity m.

(** ** Accessors *)

(** [TorrentMeta::v1_info_hash]. *)
Definition meta_v1_info_hash (m : TorrentMeta) : option InfoHash :=
  match v1_info_hash (identity m) with
  | Some hash => Some hash
  | None => match identity m with Unknown => Some (info_hash m) | _ => None end
  end.

Definition requires_v2_data_plane (m : TorrentMeta) : bool :=
  negb (supports_v1_data_plane (identity m))
  && negb (match identity m with Unknown => true | _ => false end).

End meta.

(** [TorrentMeta::piece_count]. *)
Definition meta_piece_count (m : TorrentMeta) : Z := len (pieces m).

(** A zero divisor panics. *)
Definition last_piece_length (m : TorrentMeta) : outcome Z :=
  if total_length m =? 0 then Ok 0
  else if piece_length m =? 0 then Panic
  else
    let rem := total_length m mod piece_length m in
    Ok (if rem =? 0 then piece_length m else rem).

(** [u64] arithmetic wraps. *)
Definition piece_byte_range (m : TorrentMeta) (index : Z) : option (Z * Z) :=
  if len (pieces m) <=? index then None
  else
    let start := wrap 64 (index * piece_length m) in
    let end_ := Z.min (wrap 64 (start + piece_length m)) (total_length m) in
    Some (start, end_).

(** One [if seen.insert(t.clone()) { out.push(t.clone()); }]. *)
Definition push_new (acc : gset text * list text) (t : text) : gset text * list text :=
  let '(seen, out) := acc in
  if bool_decide (t ∈ seen) then (seen, out) else ({[t]} ∪ seen, out ++ [t]).

Definition all_trackers (m : TorrentMeta) : list text :=
  let acc := match announce m with Some a => push_new (∅, []) a | None => (∅, []) end in
  (foldl (fun acc tier => foldl push_new acc tier) acc (announce_list m)).2.

Definition u32_try_from (x : Z) : option Z := if x <=? u32_max then Some x else None.

Definition piece_length_u32 (m : TorrentMeta) : outcome Z :=
  _ ← fail_if (MAX_PIECE_LENGTH <? piece_length m)
        (MalformedTorrent "piece length exceeds maximum");
  ok_or (u32_try_from (piece_length m)) (MalformedTorrent "piece length exceeds u32 range").

Definition piece_length_for_index_u32 (m : TorrentMeta) (index : Z) : outcome Z :=
  regular_piece_length ← piece_length_u32 m;
  _ ← fail_if (meta_piece_count m <=? index) (MalformedTorrent "piece index is out of range");
  if bool_decide (checked_add index 1 = Some (meta_piece_count m)) then
    len ← last_piece_length m;
    ok_or (u32_try_from len) (MalformedTorrent "piece length exceeds u32 range")
  else Ok regular_piece_length.

(** ** Piece layers a BEP 9 exchange still needs *)

(** [BTreeMap::insert] on the map of root to count. *)
Definition require_layer (piece_length : Z) (layers : gmap V2InfoHash Z) (file : MetaFile)
  : outcome (gmap V2InfoHash Z) :=
  if mf_length file <=? piece_length then Ok layers
  else
    root ← ok_or (pieces_root file)
      (MalformedTorrent "non-empty BEP 52 file is missing pieces root");
    n ← u64_div_ceil (mf_length file) piece_length;
    count ← ok_or (usize_try_from n)
      (MalformedTorrent "BEP 52 piece-layer count exceeds platform limits");
    match layers !! root with
    | Some previous =>
        if negb (previous =? count)
        then Err (MalformedTorrent "BEP 52 files sharing a pieces root have inconsistent lengths")
        else Ok (<[root := count]> layers)
    | None => Ok (<[root := count]> layers)
    end.

(** A [BTreeMap] yields its entries in key order. *)
Definition required_piece_layers (b : Bep9V2Info) : outcome (list (V2InfoHash * Z)) :=
  layers ← try_fold (require_layer (bep9_piece_length b)) ∅ (bep9_files b);
  Ok (sort_by (fun a c => bytes_le (as_bytes a.1) (as_bytes c.1)) (map_to_list layers)).
