(* ===== verification/MetaParse.v ===== *)
(** * Parsing metainfo: [crates/swarmotter-core/src/meta.rs]

    The parsers of [.torrent] documents and BEP 9 [info] dictionaries, the bounded
    readers of metadata files and of persisted piece hashes, and the builders of
    small torrents.  Every parser takes decoded bencode ([Bencode.Value]) and the
    exact [info] bytes the hashes are computed over. *)

From S2P Require Import Prelude Text Bencode Hash Merkle Meta.

Abbreviation dict := (list (list byte * Value)).

(** ** Dictionary access *)

(** [dict.iter().find(|(k, _)| k == key).map(|(_, v)| v)]. *)
Definition find_key (key : string) (d : dict) : option Value :=
  snd <$> List.find (fun kv => bool_decide (kv.1 = bytes_of key)) d.

(** [dict.iter().any(|(k, _)| k == key)]. *)
Definition has_key (key : string) (d : dict) : bool :=
  existsb (fun kv => bool_decide (kv.1 = bytes_of key)) d.

(** [meta::get_str] and [meta::get_int]. *)
Definition get_str (d : dict) (key : string) : option text := find_key key d ≫= as_str_utf8.
Definition get_int (d : dict) (key : string) : option Z := find_key key d ≫= as_int.

(** [u64::try_from] of an [i64]. *)
Definition non_negative_length (value : Z) (field : string) : outcome Z :=
  _ ← fail_if (value <? 0) (MalformedTorrent (field +:+ " must not be negative"));
  Ok value.

Definition find_info_dict (root : dict) : outcome dict :=
  ok_or (find_key "info" root ≫= as_dict) (MalformedTorrent "missing 'info' dictionary").

(** ** Trackers and web seeds *)

Definition parse_announce_list (root : dict) : list (list text) :=
  match find_key "announce-list" root ≫= as_list with
  | Some tiers =>
      map (fun tier =>
        match as_list tier with Some items => omap as_str_utf8 items | None => [] end) tiers
  | None => []
  end.

(** [retain(|url| !url.is_empty() && seen.insert(url.clone()))]. *)
Fixpoint retain_new (seen : gset text) (urls : list text) : list text :=
  match urls with
  | [] => []
  | url :: urls =>
      if len url =? 0 then retain_new seen urls
      else if bool_decide (url ∈ seen) then retain_new seen urls
      else url :: retain_new ({[url]} ∪ seen) urls
  end.

Definition parse_url_list (d : dict) : list text :=
  let out :=
    match find_key "url-list" d with
    | Some (Str _) => match get_str d "url-list" with Some s => [s] | None => [] end
    | Some (List items) => omap as_str_utf8 items
    | _ => []
    end in
  retain_new ∅ out.

(** ** v1 *)

(** The name checks of the two root parsers; the component check precedes the
    test for an empty name. *)
Definition parse_name (info : dict) : outcome text :=
  name ← ok_or (get_str info "name") (MalformedTorrent "missing 'name'");
  _ ← validate_path_component name "torrent name";
  _ ← fail_if (len name =? 0) (MalformedTorrent "empty 'name'");
  Ok name.

(** The piece length: positive, so [as u64] keeps it. *)
Definition parse_v1_piece_length (info : dict) : outcome Z :=
  piece_length ← ok_or (get_int info "piece length") (MalformedTorrent "missing 'piece length'");
  _ ← fail_if (piece_length <=? 0) (MalformedTorrent "piece_length must be > 0");
  let piece_length := wrap 64 piece_length in
  _ ← fail_if (MAX_PIECE_LENGTH <? piece_length) (MalformedTorrent "piece_length exceeds maximum");
  Ok piece_length.

Definition parse_v1_pieces (info : dict) : outcome (list (array 20)) :=
  pieces_bytes ← ok_or (find_key "pieces" info ≫= as_str) (MalformedTorrent "missing 'pieces'");
  _ ← fail_if (negb (len pieces_bytes mod 20 =? 0))
        (MalformedTorrent "pieces length not multiple of 20");
  let piece_count := len pieces_bytes / 20 in
  _ ← fail_if (MAX_TORRENT_PIECES <? piece_count) (MalformedTorrent "piece count exceeds maximum");
  mapM (copy_from_slice 20) (as_chunks 20 pieces_bytes).

(** One entry of the [files] list; the state is [(paths, total, out)]. *)
Definition parse_v1_component (full_path : list text) (p : Value) : outcome (list text) :=
  s ← ok_or (as_str_utf8 p) (MalformedTorrent "path component not utf8");
  _ ← validate_path_component s "file path component";
  Ok (full_path ++ [s]).

Definition parse_v1_file (name : text) (st : gset (list text) * Z * list MetaFile) (f : Value)
  : outcome (gset (list text) * Z * list MetaFile) :=
  let '(paths, total, out) := st in
  length ← ok_or (get_value f (bytes_of "length") ≫= as_int) (MalformedTorrent "file missing length");
  length ← non_negative_length length "file length";
  path_vals ← ok_or (get_value f (bytes_of "path") ≫= as_list) (MalformedTorrent "file missing path");
  full_path ← try_fold parse_v1_component [name] path_vals;
  _ ← fail_if (len path_vals =? 0) (MalformedTorrent "file with empty path");
  _ ← fail_if (bool_decide (full_path ∈ paths)) (MalformedTorrent "duplicate file path");
  total ← ok_or (checked_add total length) (MalformedTorrent "total file length exceeds u64");
  Ok ({[full_path]} ∪ paths, total, out ++ [mkMetaFile full_path length None]).

(** The [length] or [files] entry: the files, their total and [is_multi_file]. *)
Definition parse_v1_files (name : text) (info : dict) : outcome (list MetaFile * Z * bool) :=
  match find_key "length" info with
  | Some length_v =>
      length ← ok_or (as_int length_v) (MalformedTorrent "'length' must be an integer");
      length ← non_negative_length length "'length'";
      Ok ([mkMetaFile [name] length None], length, false)
  | None =>
      match find_key "files" info with
      | Some files_v =>
          items ← ok_or (as_list files_v) (MalformedTorrent "'files' must be a list");
          _ ← fail_if (MAX_TORRENT_FILES <? len items)
                (MalformedTorrent "file count exceeds maximum");
          '(_, total, out) ← try_fold (parse_v1_file name) (∅, 0, []) items;
          Ok (out, total, true)
      | None => Err (MalformedTorrent "info missing file/files")
      end
  end.

Definition check_v1_piece_count (count total_length piece_length : Z) : outcome () :=
  _ ← fail_if (total_length =? 0)
        (MalformedTorrent "torrent total length must be greater than zero");
  expected_pieces_u64 ← u64_div_ceil total_length piece_length;
  _ ← fail_if (MAX_TORRENT_PIECES <? expected_pieces_u64)
        (MalformedTorrent "expected piece count exceeds maximum");
  expected_pieces ← ok_or (usize_try_from expected_pieces_u64)
        (MalformedTorrent "piece count exceeds platform limits");
  fail_if (negb (count =? expected_pieces))
    (MalformedTorrent "piece count does not match expected for length").

(** [get_int(info, b"private").unwrap_or(0) == 1]. *)
Definition parse_private (info : dict) : bool := default 0 (get_int info "private") =? 1.

Section parsers.
Context {D : Digests}.

Definition parse_v1_torrent_root (root : dict) (info_bytes : list byte) : outcome TorrentMeta :=
  let info_hash := from_info_bencoded info_bytes in
  info ← ok_or (find_key "info" root ≫= as_dict) (MalformedTorrent "missing 'info' dictionary");
  name ← parse_name info;
  piece_length ← parse_v1_piece_length info;
  pieces ← parse_v1_pieces info;
  let private := parse_private info in
  '(files, total_length, is_multi_file) ← parse_v1_files name info;
  _ ← check_v1_piece_count (len pieces) total_length piece_length;
  let meta := mkMeta info_hash (V1 info_hash) name piece_length pieces files total_length private
    (get_str root "announce") (parse_announce_list root) (parse_url_list root)
    (get_str root "comment") (get_str root "created by")
    (wrap 64 <$> get_int root "creation date") is_multi_file None (Some info_bytes) in
  _ ← validate meta;
  Ok meta.

(** ** v2 *)

Definition parse_piece_length (info : dict) : outcome Z :=
  piece_length ← ok_or (get_int info "piece length") (MalformedTorrent "missing 'piece length'");
  _ ← fail_if (piece_length <=? 0) (MalformedTorrent "piece_length must be greater than zero");
  _ ← fail_if (MAX_PIECE_LENGTH <? piece_length) (MalformedTorrent "piece_length exceeds maximum");
  Ok piece_length.

Definition parse_v2_hash_bytes (bytes : list byte) (field : string) : outcome V2InfoHash :=
  _ ← fail_if (negb (len bytes =? 32)) (MalformedTorrent (field +:+ " must be exactly 32 bytes"));
  copy_from_slice 32 bytes.

Definition parse_v2_hash_value (value : Value) : outcome V2InfoHash :=
  bytes ← ok_or (as_str value) (MalformedTorrent "BEP 52 hash must be a byte string");
  parse_v2_hash_bytes bytes "BEP 52 hash".

(** The first loop of [parse_v2_file_tree_node] splits a node into the value of
    its empty key and its children. *)
Definition split_node (acc : option dict * dict) (entry : list byte * Value)
  : outcome (option dict * dict) :=
  let '(properties, children) := acc in
  let '(key, value) := entry in
  if len key =? 0 then
    d ← ok_or (as_dict value) (MalformedTorrent "BEP 52 file properties must be a dictionary");
    Ok (Some d, children)
  else Ok (properties, children ++ [(key, value)]).

(** A node with properties describes a file. *)
Definition parse_v2_file (properties children : dict) (path : list text) (files : list MetaFile)
  : outcome (list MetaFile) :=
  _ ← fail_if (bool_decide (path = []))
        (MalformedTorrent "BEP 52 file tree root must not describe a file");
  _ ← fail_if (negb (len children =? 0))
        (MalformedTorrent "BEP 52 file node must not contain sibling entries");
  length ← ok_or (find_key "length" properties ≫= as_int)
        (MalformedTorrent "BEP 52 file is missing integer 'length'");
  length ← non_negative_length length "BEP 52 file length";
  pieces_root ← match find_key "pieces root" properties with
                | Some v => h ← parse_v2_hash_value v; Ok (Some h)
                | None => Ok None
                end;
  _ ← fail_if ((0 <? length) && bool_decide (pieces_root = None))
        (MalformedTorrent "non-empty BEP 52 file is missing 'pieces root'");
  Ok (files ++ [mkMetaFile path length pieces_root]).

(** The recursion goes down one dictionary per unit of fuel. *)
Fixpoint parse_v2_file_tree_node (fuel : nat) (node : dict) (path : list text) (files : list MetaFile)
  : outcome (list MetaFile) :=
  match fuel with
  | O => OutOfFuel
  | S fuel =>
      '(properties, children) ← try_fold split_node (None, []) node;
      match properties with
      | Some properties => parse_v2_file properties children path files
      | None =>
          try_fold (fun files '(key, value) =>
            _ ← fail_if (negb (utf8_valid key))
                  (MalformedTorrent "BEP 52 file-tree path component is not UTF-8");
            _ ← validate_path_component key "BEP 52 file-tree path component";
            child ← ok_or (as_dict value)
                  (MalformedTorrent "BEP 52 file-tree entry must be a dictionary");
            parse_v2_file_tree_node fuel child (path ++ [key]) files) files children
      end
  end.

(** A decoded document nests at most [MAX_BENCODE_DEPTH] dictionaries. *)
Definition tree_fuel : nat := S (Z.to_nat MAX_BENCODE_DEPTH).

Definition parse_v2_file_tree (file_tree : dict) : outcome (list MetaFile) :=
  files ← parse_v2_file_tree_node tree_fuel file_tree [] [];
  _ ← fail_if (len files =? 0)
        (MalformedTorrent "BEP 52 file tree must contain at least one file");
  _ ← fail_if (MAX_TORRENT_FILES <? len files)
        (MalformedTorrent "BEP 52 file tree has too many files");
  Ok files.

(** One entry of [piece layers]. *)
Definition parse_v2_piece_layer (entry : list byte * Value) : outcome V2PieceLayer :=
  let '(root_bytes, value) := entry in
  pieces_root ← parse_v2_hash_bytes root_bytes "BEP 52 piece-layer key";
  bytes ← ok_or (as_str value) (MalformedTorrent "BEP 52 piece layer must be a byte string");
  _ ← fail_if (negb (len bytes mod 32 =? 0))
        (MalformedTorrent "BEP 52 piece layer length must be a multiple of 32");
  _ ← fail_if (MAX_TORRENT_PIECES <? len bytes / 32)
        (MalformedTorrent "BEP 52 piece layer contains too many hashes");
  hashes ← mapM (fun hash => parse_v2_hash_bytes hash "BEP 52 piece-layer hash") (as_chunks 32 bytes);
  Ok (mkLayer pieces_root hashes).

Definition parse_v2_piece_layers (root : dict) (require_piece_layers : bool)
  : outcome (list V2PieceLayer * bool) :=
  match find_key "piece layers" root with
  | None =>
      if require_piece_layers
      then Err (MalformedTorrent "BEP 52 metainfo is missing top-level 'piece layers'")
      else Ok ([], false)
  | Some value =>
      layers ← ok_or (as_dict value)
        (MalformedTorrent "BEP 52 'piece layers' must be a dictionary");
      parsed ← mapM parse_v2_piece_layer layers;
      Ok (parsed, true)
  end.

Definition parse_v2_metadata (root info : dict) (piece_length : Z) (require_piece_layers : bool)
  : outcome V2TorrentMeta :=
  _ ← validate_v2_piece_length piece_length;
  file_tree ← ok_or (find_key "file tree" info ≫= as_dict)
        (MalformedTorrent "missing BEP 52 'file tree'");
  files ← parse_v2_file_tree file_tree;
  total ← total_file_length files "BEP 52 file tree";
  _ ← fail_if (total =? 0)
        (MalformedTorrent "torrent total length must be greater than zero");
  '(piece_layers, piece_layers_verified) ← parse_v2_piece_layers root require_piece_layers;
  let v2 := mkV2Meta 2 files piece_layers piece_layers_verified in
  _ ← validate_v2_metadata v2 piece_length total;
  Ok v2.

Definition parse_v2_torrent_root (root info : dict) (info_bytes : list byte)
    (require_v2_piece_layers : bool) : outcome TorrentMeta :=
  name ← parse_name info;
  piece_length ← parse_piece_length info;
  _ ← validate_v2_piece_length piece_length;
  v2 ← parse_v2_metadata root info piece_length require_v2_piece_layers;
  total_length ← total_file_length (v2_files v2) "BEP 52 file tree";
  _ ← fail_if (total_length =? 0)
        (MalformedTorrent "torrent total length must be greater than zero");
  let meta := mkMeta ZERO (V2 (v2_from_info_bencoded info_bytes)) name piece_length [] (v2_files v2)
    total_length (parse_private info) (get_str root "announce") (parse_announce_list root)
    (parse_url_list root) (get_str root "comment") (get_str root "created by")
    (wrap 64 <$> get_int root "creation date") (negb (len (v2_files v2) =? 1)) (Some v2)
    (Some info_bytes) in
  _ ← if require_v2_piece_layers then validate meta else Ok ();
  Ok meta.

(** ** The document *)

Definition parse_torrent_root (root : dict) (info_bytes : list byte) (require_v2_piece_layers : bool)
  : outcome TorrentMeta :=
  info ← find_info_dict root;
  match find_key "meta version" info with
  | None => parse_v1_torrent_root root info_bytes
  | Some meta_version =>
      meta_version ← ok_or (as_int meta_version)
        (MalformedTorrent "'meta version' must be an integer");
      _ ← fail_if (negb (meta_version =? 2)) (MalformedTorrent "unsupported BEP 52 meta version");
      let has_v1_pieces := has_key "pieces" info in
      let has_v1_layout := has_key "length" info || has_key "files" info in
      if has_v1_pieces || has_v1_layout then
        _ ← fail_if (negb (has_v1_pieces && has_v1_layout))
          (MalformedTorrent "hybrid torrent must contain both v1 pieces and a v1 file layout");
        v1 ← parse_v1_torrent_root root info_bytes;
        v2 ← parse_v2_metadata root info (piece_length v1) require_v2_piece_layers;
        let v2_hash := v2_from_info_bencoded info_bytes in
        _ ← validate_hybrid_layout (files v1) (v2_files v2) (is_multi_file v1);
        let v1 := set_v2 v1 (Hybrid (info_hash v1) v2_hash) v2 in
        _ ← validate v1;
        Ok v1
      else parse_v2_torrent_root root info info_bytes require_v2_piece_layers
  end.

Definition parse_torrent (bytes : list byte) : outcome TorrentMeta :=
  root ← decode bytes;
  root ← ok_or (as_dict root) (MalformedTorrent "top-level must be a dict");
  info_bytes ← extract_value_bytes bytes (bytes_of "info");
  info_bytes ← ok_or info_bytes (MalformedTorrent "missing 'info' dictionary");
  parse_torrent_root root info_bytes true.

(** ** BEP 9 [info] dictionaries *)

Definition decode_info (info_bytes : list byte) : outcome Value :=
  info ← decode info_bytes;
  _ ← fail_if (bool_decide (as_dict info = None))
        (MalformedTorrent "BEP 9 info metadata must be a dictionary");
  Ok info.

Definition magnet_root_with_trackers (info : Value) (trackers : list text) : dict :=
  (match trackers with [] => [] | primary :: _ => [(bytes_of "announce", Str primary)] end)
  ++ (if 1 <? len trackers
      then [(bytes_of "announce-list", List [List (map Str (drop 1 trackers))])] else [])
  ++ [(bytes_of "info", info)].

Definition parse_info_dict (info_bytes : list byte) (trackers : list text) : outcome TorrentMeta :=
  info ← decode_info info_bytes;
  meta ← parse_torrent_root (magnet_root_with_trackers info trackers) info_bytes false;
  _ ← fail_if (requires_v2_data_plane meta)
        (MalformedTorrent "pure v2 metadata requires verified piece layers");
  Ok meta.

Definition inspect_bep9_v2_info (info_bytes : list byte) : outcome (option Bep9V2Info) :=
  info ← decode_info info_bytes;
  meta ← parse_torrent_root [(bytes_of "info", info)] info_bytes false;
  match v2_info_hash (identity meta) with
  | None => Ok None
  | Some identity =>
      files ← ok_or (v2_files <$> v2 meta)
        (MalformedTorrent "BEP 52 identity has no v2 file tree");
      Ok (Some (mkBep9 identity (piece_length meta) files))
  end.

Definition parse_info_dict_with_piece_layers (info_bytes : list byte) (trackers : list text)
    (piece_layers : list V2PieceLayer) : outcome TorrentMeta :=
  info ← decode_info info_bytes;
  let layers := map (fun layer =>
    (as_bytes (layer_root layer), Str (concat (map as_bytes (hashes layer))))) piece_layers in
  parse_torrent_root
    (magnet_root_with_trackers info trackers ++ [(bytes_of "piece layers", Dict layers)])
    info_bytes true.
End parsers.
