(* ===== verification/MetaCorrect.v ===== *)
(** * Metainfo: what validation and the parsers guarantee

    [valid_meta] says what it takes for a [TorrentMeta] to be executable metadata.
    [validate] accepts exactly those, the parsers return nothing else, they return
    on every input and report only metainfo and bencode errors. *)

From S2P Require Import Prelude Text Bencode BencodeCorrect Hash Merkle Meta MetaParse.

(** ** The specification *)

Definition safe_component (s : text) : Prop :=
  s <> [] /\ s <> bytes_of "." /\ s <> bytes_of ".." /\
  Forall (fun b => b <> "/"%byte /\ b <> "\"%byte /\ b <> ":"%byte) s.

Record valid_files (fs : list MetaFile) (total : Z) : Prop := mkValidFiles {
  vf_count : 1 <= len fs <= MAX_TORRENT_FILES;
  vf_paths : Forall (fun f => path f <> [] /\ Forall safe_component (path f)) fs;
  vf_unique : NoDup (map path fs);
  vf_total : zsum mf_length fs = total;
  vf_range : total <= u64_max }.

Definition valid_v1_layout (m : TorrentMeta) : Prop :=
  len (pieces m) = div_ceil (total_length m) (piece_length m) /\
  len (pieces m) <= MAX_TORRENT_PIECES.

(** The files of a root that are longer than one piece. *)
Definition large (piece_length : Z) (root : V2InfoHash) (fs : list MetaFile) : list MetaFile :=
  filter (fun f => pieces_root f = Some root /\ piece_length < mf_length f) fs.

Section spec.
Context {D : Digests}.

Record valid_v2 (v : V2TorrentMeta) (piece_length total : Z) : Prop := mkValidV2 {
  v2_version : meta_version v = 2;
  v2_piece_length : exists k : nat, piece_length = 2 ^ Z.of_nat k * V2_BLOCK_LENGTH;
  v2_files_valid : valid_files (v2_files v) total;
  v2_roots : Forall (fun f => mf_length f = 0 \/ is_Some (pieces_root f)) (v2_files v);
  v2_unverified : piece_layers_verified v = false -> piece_layers v = [];
  v2_layers_unique : NoDup (map layer_root (piece_layers v));
  v2_layers_used : Forall (fun l => large piece_length (layer_root l) (v2_files v) <> []) (piece_layers v);
  v2_layers_width : Forall (fun l => Forall (fun f => len (hashes l) = div_ceil (mf_length f) piece_length)
      (large piece_length (layer_root l) (v2_files v))) (piece_layers v);
  v2_layers_root : Forall (fun l => v2_piece_layer_root (hashes l) piece_length = Ok (layer_root l))
      (piece_layers v);
  v2_layers_present : piece_layers_verified v = true ->
    Forall (fun f => mf_length f <= piece_length \/
      exists l, l ∈ piece_layers v /\ pieces_root f = Some (layer_root l)) (v2_files v) }.

(** A hybrid has one file layout, up to the top-level directory of the v1 form. *)
Definition hybrid_layout (v1_files v2_files : list MetaFile) (multi : bool) : Prop :=
  map mf_length v1_files = map mf_length v2_files /\
  (map path v1_files = map path v2_files \/
   multi = true /\ map (fun f => drop 1 (path f)) v1_files = map path v2_files).

Definition valid_identity (m : TorrentMeta) : Prop :=
  match identity m with
  | Unknown => valid_v1_layout m
  | V1 v1 => v1 = info_hash m /\ v2 m = None /\ valid_v1_layout m
  | V2 _ => info_hash m = ZERO /\ pieces m = [] /\
      exists v, v2 m = Some v /\ valid_v2 v (piece_length m) (total_length m) /\
        piece_layers_verified v = true
  | Hybrid v1 _ => v1 = info_hash m /\ valid_v1_layout m /\
      exists v, v2 m = Some v /\ valid_v2 v (piece_length m) (total_length m) /\
        hybrid_layout (files m) (v2_files v) (is_multi_file m)
  end.

Definition valid_raw_info (m : TorrentMeta) : Prop :=
  match raw_info m with
  | None => True
  | Some raw => len raw <= MAX_TORRENT_METADATA_BYTES /\
      match identity m with
      | Unknown => info_hash m = sha1 raw
      | V1 v1 => v1 = sha1 raw
      | V2 v2 => v2 = sha256 raw
      | Hybrid v1 v2 => v1 = sha1 raw /\ v2 = sha256 raw
      end
  end.

Record valid_meta (m : TorrentMeta) : Prop := mkValidMeta {
  vm_name : safe_component (name m);
  vm_piece_length : 1 <= piece_length m <= MAX_PIECE_LENGTH;
  vm_total : 1 <= total_length m;
  vm_files : valid_files (files m) (total_length m);
  vm_single : is_multi_file m = false -> len (files m) = 1;
  vm_raw : valid_raw_info m;
  vm_identity : valid_identity m }.

(** The [u64] fields hold unsigned numbers. *)
Definition unsigned_files (fs : list MetaFile) : Prop := Forall (fun f => 0 <= mf_length f) fs.
Definition unsigned (m : TorrentMeta) : Prop :=
  0 <= piece_length m /\ 0 <= total_length m /\ unsigned_files (files m) /\
  forall v, v2 m = Some v -> unsigned_files (v2_files v).
End spec.

(** ** Path components and file lists *)

Lemma contains_byte_false b s : contains_byte b s = false <-> Forall (fun c => c <> b) s.
Proof.
  unfold contains_byte. induction s as [|c s IH]; cbn [existsb]; [done|].
  rewrite orb_false_iff, IH, Forall_cons. split; intros [H ?]; split; auto.
  - intros ->. by rewrite (proj2 (byte_eqb_eq b b)) in H.
  - apply byte_eqb_neq. congruence.
Qed.

Lemma validate_path_component_Ok s kind u :
  validate_path_component s kind = Ok u <-> safe_component s.
Proof.
  unfold validate_path_component, safe_component. split.
  - intros H. inv_ok.
    repeat match goal with H : _ || _ = false |- _ => apply orb_false_iff in H as [? ?] end.
    rewrite bool_decide_eq_false, contains_byte_false in *.
    split; [rewrite <- len_0; lia|]. split; [done|]. split; [done|].
    rewrite !Forall_forall in *. naive_solver.
  - intros (H0 & H1 & H2 & H3). rewrite !Forall_and in H3. destruct H3 as (Hs & Hb & Hc).
    apply contains_byte_false in Hs, Hb, Hc.
    rewrite (proj2 (Z.eqb_neq _ _)) by (by rewrite len_0).
    rewrite (bool_decide_eq_false_2 _ H1), (bool_decide_eq_false_2 _ H2), Hs, Hb, Hc.
    destruct s as [|c s]; [done|]. cbn [starts_with_byte contains_byte existsb] in *.
    apply orb_false_iff in Hs as [Hs _], Hb as [Hb _].
    assert (forall x, Byte.eqb x c = Byte.eqb c x) as Hsym.
    { intros x. destruct (Byte.eqb x c) eqn:E, (Byte.eqb c x) eqn:E'; try done.
      - apply byte_eqb_eq in E as ->. apply byte_eqb_neq in E'. done.
      - apply byte_eqb_eq in E' as ->. apply byte_eqb_neq in E. done. }
    rewrite <- !Hsym, Hs, Hb. by destruct u.
Qed.

Lemma validate_path_component_returns s kind : returns (validate_path_component s kind).
Proof. unfold validate_path_component. returns_tac. Qed.
#[export] Hint Resolve validate_path_component_returns : core.

(** The checked sum of the lengths. *)
Lemma total_file_length_eq fs context :
  unsigned_files fs ->
  total_file_length fs context
  = if zsum mf_length fs <=? u64_max then Ok (zsum mf_length fs)
    else Err (MalformedTorrent (context +:+ " total file length exceeds u64")).
Proof.
  intros Hf. unfold total_file_length. set (add := fun _ _ => _).
  assert (forall t0, 0 <= t0 <= u64_max -> try_fold add t0 fs
    = if t0 + zsum mf_length fs <=? u64_max then Ok (t0 + zsum mf_length fs)
      else Err (MalformedTorrent (context +:+ " total file length exceeds u64"))) as H.
  2: { by apply (H 0). }
  induction Hf as [|f fs Hf Hfs IH]; intros t0 Ht; cbn [try_fold].
  { rewrite zsum_nil, Z.add_0_r. by rewrite (proj2 (Z.leb_le _ _)) by lia. }
  rewrite zsum_cons. 
  change (add t0 f) with (ok_or (checked_add t0 (mf_length f))
    (MalformedTorrent (context +:+ " total file length exceeds u64"))).
  unfold checked_add. change usize_max with u64_max.
  assert (0 <= zsum mf_length fs) as H0.
  { apply zsum_nonneg. unfold unsigned_files in Hfs. by rewrite Forall_forall in Hfs. }
  destruct (Z.leb_spec (t0 + mf_length f) u64_max); cbn [ok_or]; ok_simpl.
  - rewrite IH by lia. by rewrite Z.add_assoc.
  - by rewrite (proj2 (Z.leb_gt _ _)) by lia.
Qed.

Lemma total_file_length_Ok fs context t :
  unsigned_files fs ->
  total_file_length fs context = Ok t <-> zsum mf_length fs = t /\ t <= u64_max.
Proof.
  intros Hf. rewrite total_file_length_eq by done.
  destruct (Z.leb_spec (zsum mf_length fs) u64_max); naive_solver lia.
Qed.

Lemma total_file_length_returns fs context : returns (total_file_length fs context).
Proof. apply try_fold_returns. auto. Qed.
#[export] Hint Resolve total_file_length_returns : core.

Lemma check_file_path_Ok seen f seen' :
  check_file_path seen f = Ok seen' <->
  (path f <> [] /\ Forall safe_component (path f)) /\ (path f ∉ seen) /\ seen' = ({[path f]} ∪ seen).
Proof.
  unfold check_file_path. split.
  - intros H. inv_ok. rewrite bool_decide_eq_false in *.
    match goal with H : for_each _ _ = _ |- _ => apply for_each_Ok in H; rename H into Hc end.
    split; [split; [done|]|done]. eapply Forall_impl; [exact Hc|]. intros c. apply validate_path_component_Ok.
  - intros ((H1 & H2) & H3 & ->). rewrite (bool_decide_eq_false_2 _ H1), (bool_decide_eq_false_2 _ H3).
    ok_simpl. rewrite (proj2 (for_each_Ok _ _ ())); [done|].
    eapply Forall_impl; [exact H2|]. intros c. apply validate_path_component_Ok.
Qed.

Lemma check_file_paths_Ok fs seen :
  (exists seen', try_fold check_file_path seen fs = Ok seen') <->
  Forall (fun f => path f <> [] /\ Forall safe_component (path f)) fs /\
  NoDup (map path fs) /\ Forall (fun f => path f ∉ seen) fs.
Proof.
  revert seen. induction fs as [|f fs IH]; intros seen; cbn [try_fold map].
  { split; [intros _; repeat constructor|intros _; by exists seen]. }
  rewrite !Forall_cons, NoDup_cons. split.
  - intros (s' & H). apply bind_Ok in H as (s1 & (Hp & Hn & ->)%check_file_path_Ok & H).
    destruct (proj1 (IH _) (ex_intro _ s' H)) as (H1 & H2 & H3).
    rewrite Forall_forall in H3. split; [done|]. split; [split; [|done]|split; [done|]].
    + intros (g & Eg & Hg)%list_elem_of_fmap. apply (H3 g Hg). set_solver.
    + apply Forall_forall. intros g Hg. specialize (H3 g Hg). set_solver.
  - intros ((Hp & H1) & (Hn & H2) & Hs & H3).
    rewrite (proj2 (check_file_path_Ok seen f _)) by done. ok_simpl. apply IH.
    split; [done|]. split; [done|]. rewrite Forall_forall in H3 |- *. intros g Hg.
    specialize (H3 g Hg). rewrite not_elem_of_union, not_elem_of_singleton. split; [|done].
    intros E. apply Hn. apply list_elem_of_fmap. by exists g.
Qed.

Lemma validate_file_list_Ok fs total context u :
  unsigned_files fs ->
  validate_file_list fs total context = Ok u <-> valid_files fs total.
Proof.
  intros Hu. unfold validate_file_list. split.
  - intros H. inv_ok.
    match goal with H : try_fold _ _ _ = Ok ?s |- _ =>
      destruct (proj1 (check_file_paths_Ok fs ∅) (ex_intro _ s H)) as (? & ? & _) end.
    match goal with H : total_file_length _ _ = _ |- _ =>
      apply total_file_length_Ok in H as [? ?]; [|done] end.
    pose proof (len_nonneg fs). split; [lia|done|done|lia|lia].
  - intros [Hc Hp Hn Ht Hr]. rewrite (proj2 (Z.eqb_neq _ _)), (proj2 (Z.ltb_ge _ (len fs))) by lia.
    ok_simpl. destruct (proj2 (check_file_paths_Ok fs ∅)) as (s & ->).
    { split; [done|]. split; [done|]. apply Forall_forall. set_solver. }
    ok_simpl. rewrite (proj2 (total_file_length_Ok fs context total Hu)) by lia. ok_simpl.
    rewrite Z.eqb_refl. by destruct u.
Qed.

Lemma validate_file_list_returns fs total context : returns (validate_file_list fs total context).
Proof.
  unfold validate_file_list. apply bind_returns; [auto|intros _ _].
  apply bind_returns; [auto|intros _ _]. apply bind_returns; [|intros s _; returns_tac].
  apply try_fold_returns. intros seen f _. unfold check_file_path.
  apply bind_returns; [auto|intros _ _]. apply bind_returns; [|intros _ _; returns_tac].
  apply for_each_returns. auto.
Qed.
#[export] Hint Resolve validate_file_list_returns : core.

(** ** Piece layouts *)

Lemma validate_v1_piece_layout_Ok m u :
  0 < piece_length m -> validate_v1_piece_layout m = Ok u <-> valid_v1_layout m.
Proof.
  intros Hp. unfold validate_v1_piece_layout, valid_v1_layout, u64_div_ceil, usize_try_from.
  rewrite (proj2 (Z.eqb_neq _ _)) by lia. ok_simpl. set (n := div_ceil _ _).
  assert (MAX_TORRENT_PIECES < usize_max) by done. split.
  - intros H'. inv_ok. repeat case_match; simplify_eq. lia.
  - intros [-> Hn]. rewrite (proj2 (Z.ltb_ge _ n)) by lia. ok_simpl.
    rewrite (proj2 (Z.leb_le n usize_max)) by lia. cbn [ok_or]. ok_simpl.
    rewrite Z.eqb_refl. by destruct u.
Qed.

Lemma validate_v1_piece_layout_returns m : piece_length m <> 0 -> returns (validate_v1_piece_layout m).
Proof.
  intros Hp. unfold validate_v1_piece_layout, u64_div_ceil. rewrite (proj2 (Z.eqb_neq _ _)) by done.
  returns_tac.
Qed.

Lemma same_layout_true left fs :
  same_layout left fs = true <-> left = map (fun f => (path f, mf_length f)) fs.
Proof.
  unfold same_layout. revert fs. induction left as [|[p l] left IH]; intros [|f fs]; cbn [map].
  - done.
  - rewrite len_cons. pose proof (len_nonneg fs). rewrite len_nil.
    by rewrite (proj2 (Z.eqb_neq _ _)) by lia.
  - rewrite len_cons. pose proof (len_nonneg left). rewrite len_nil.
    by rewrite (proj2 (Z.eqb_neq _ _)) by lia.
  - rewrite !len_cons. cbn [zip zip_with forallb]. specialize (IH fs).
    assert ((1 + len left =? 1 + len fs) = (len left =? len fs)) as -> by lia.
    split.
    + intros [Hl [[Hp%bool_decide_eq_true Hz%Z.eqb_eq]%andb_true_iff Hf]%andb_true_iff]%andb_true_iff.
      subst. f_equal. apply IH. by rewrite Hl, Hf.
    + intros [= -> -> E]. apply IH in E as [-> ->]%andb_true_iff.
      by rewrite bool_decide_eq_true_2, Z.eqb_refl.
Qed.

Lemma pairs_eq (ps : list (list text)) fs (vs : list MetaFile) :
  length ps = length fs ->
  zip ps (map mf_length fs) = map (fun f => (path f, mf_length f)) vs <->
  ps = map path vs /\ map mf_length fs = map mf_length vs.
Proof.
  intros Hl. assert (map (fun f => (path f, mf_length f)) vs = zip (map path vs) (map mf_length vs)) as ->.
  { induction vs as [|v vs IH]; [done|]. cbn. by rewrite IH. }
  split; [|by intros [-> ->]]. intros E.
  pose proof (f_equal (map fst) E) as E1. pose proof (f_equal (map snd) E) as E2.
  change (map fst) with (fmap (M := list) (A := list text * Z) fst) in E1.
  change (map snd) with (fmap (M := list) (A := list text * Z) snd) in E2.
  rewrite !fst_zip in E1 by (rewrite !length_map; lia).
  rewrite !snd_zip in E2 by (rewrite !length_map; lia). done.
Qed.

Lemma validate_hybrid_layout_Ok fs vs multi u :
  validate_hybrid_layout fs vs multi = Ok u <-> hybrid_layout fs vs multi.
Proof.
  unfold validate_hybrid_layout, hybrid_layout.
  assert (forall h : MetaFile -> list text,
    map (fun f => (h f, mf_length f)) fs = map (fun f => (path f, mf_length f)) vs
    <-> map h fs = map path vs /\ map mf_length fs = map mf_length vs) as He.
  { intros h. rewrite <- pairs_eq by apply length_map.
    assert (map (fun f => (h f, mf_length f)) fs = zip (map h fs) (map mf_length fs)) as ->; [|done].
    clear. induction fs as [|f fs IH]; [done|]. cbn. by rewrite IH. }
  pose proof (same_layout_true (map (fun f => (path f, mf_length f)) fs) vs) as H1. rewrite (He path) in H1.
  pose proof (same_layout_true (map (fun f => (drop 1 (path f), mf_length f)) fs) vs) as H2.
  rewrite (He (fun f => drop 1 (path f))) in H2.
  destruct (same_layout (map _ fs) vs) eqn:E1, (same_layout (map (fun f => (drop 1 _, _)) fs) vs) eqn:E2,
    multi, u; cbn [andb]; intuition congruence.
Qed.

Lemma validate_hybrid_layout_returns fs vs multi : returns (validate_hybrid_layout fs vs multi).
Proof. unfold validate_hybrid_layout. by repeat case_match. Qed.

(** ** BEP 52 metadata *)

(** The non-empty files with a given root. *)
Definition with_root (root : V2InfoHash) (fs : list MetaFile) : list MetaFile :=
  filter (fun f => pieces_root f = Some root /\ mf_length f <> 0) fs.

Definition group_of (l : list MetaFile) : option (list MetaFile) :=
  match l with [] => None | _ => Some l end.

Lemma group_by_root_Ok acc f acc' :
  group_by_root acc f = Ok acc' <->
  (mf_length f = 0 /\ acc' = acc) \/
  (mf_length f <> 0 /\ exists r, pieces_root f = Some r /\ acc' = <[r := default [] (acc !! r) ++ [f]]> acc).
Proof.
  unfold group_by_root. destruct (Z.eqb_spec (mf_length f) 0); [naive_solver|].
  split.
  - intros H. inv_ok. right. eauto.
  - intros [[? _]|(_ & r & -> & ->)]; done.
Qed.

Lemma group_files_Ok fs : forall acc acc',
  (forall r, acc !! r <> Some []) ->
  try_fold group_by_root acc fs = Ok acc' ->
  Forall (fun f => mf_length f = 0 \/ is_Some (pieces_root f)) fs /\
  forall r, acc' !! r = group_of (default [] (acc !! r) ++ with_root r fs).
Proof.
  induction fs as [|f fs IH]; intros acc acc' Hacc; cbn [try_fold].
  { intros [= <-]. split; [constructor|]. intros r. unfold with_root. rewrite filter_nil, app_nil_r.
    specialize (Hacc r). by destruct (acc !! r) as [[|]|]. }
  intros (acc1 & Hf & H)%bind_Ok. apply group_by_root_Ok in Hf as [[H0 ->]|(H0 & r & Hr & ->)].
  - apply IH in H as [H1 H2]; [|done]. split; [constructor; auto|]. intros r. rewrite H2.
    unfold with_root. rewrite filter_cons_False; [done|]. naive_solver.
  - apply IH in H as [H1 H2].
    + split; [constructor; eauto|]. intros r'. rewrite H2. unfold with_root.
      destruct (decide (r' = r)) as [->|Hne].
      * rewrite lookup_insert_eq, filter_cons_True by done. cbn [default from_option id]. by rewrite <- app_assoc.
      * rewrite lookup_insert_ne by done. rewrite filter_cons_False; [done|]. naive_solver congruence.
    + intros r'. destruct (decide (r' = r)) as [->|Hne].
      * rewrite lookup_insert_eq. intros [= E]. by apply app_eq_nil in E as [_ ?].
      * by rewrite lookup_insert_ne.
Qed.

Lemma group_files_total fs acc :
  Forall (fun f => mf_length f = 0 \/ is_Some (pieces_root f)) fs ->
  exists acc', try_fold group_by_root acc fs = Ok acc'.
Proof.
  intros Hf. revert acc. induction Hf as [|f fs Hf _ IH]; intros acc; [by exists acc|].
  cbn [try_fold]. assert (exists acc1, group_by_root acc f = Ok acc1) as [acc1 ->].
  { unfold group_by_root. destruct (Z.eqb_spec (mf_length f) 0); [by eexists|].
    destruct Hf as [|[r ->]]; [done|]. by eexists. }
  ok_simpl. apply IH.
Qed.

Lemma add_layers_Ok ls : forall acc acc',
  try_fold add_layer acc ls = Ok acc' ->
  NoDup (map layer_root ls) /\ Forall (fun l => acc !! layer_root l = None) ls /\
  forall r l, acc' !! r = Some l <-> acc !! r = Some l \/ (l ∈ ls /\ layer_root l = r).
Proof.
  induction ls as [|k ls IH]; intros acc acc'; cbn [try_fold map].
  { intros [= <-]. repeat split; [constructor|constructor|by left|].
    intros [?|[?%not_elem_of_nil _]]; done. }
  intros (acc1 & Hk & H)%bind_Ok. unfold add_layer in Hk. inv_ok.
  match goal with H : bool_decide _ = false |- _ =>
    apply bool_decide_eq_false in H; rewrite <- eq_None_not_Some in H; rename H into Hn end.
  apply IH in H as (H1 & H2 & H3). rewrite Forall_forall in H2. split; [|split].
  - constructor; [|done]. intros (l & El & Hl)%list_elem_of_fmap.
    specialize (H2 l Hl). rewrite <- El, lookup_insert_eq in H2. done.
  - constructor; [done|]. apply Forall_forall. intros l Hl. specialize (H2 l Hl).
    by apply lookup_insert_None in H2 as [? _].
  - intros r l. rewrite H3, elem_of_cons. destruct (decide (r = layer_root k)) as [->|Hne].
    + rewrite lookup_insert_eq. split.
      * intros [[= ->]|[Hl E]]; [naive_solver|naive_solver].
      * intros [E|[[->|Hl] E]]; [congruence|by left|by right].
    + rewrite lookup_insert_ne by done. naive_solver.
Qed.

Lemma add_layers_total ls acc :
  NoDup (map layer_root ls) -> Forall (fun l => acc !! layer_root l = None) ls ->
  exists acc', try_fold add_layer acc ls = Ok acc'.
Proof.
  revert acc. induction ls as [|k ls IH]; intros acc; cbn [map try_fold]; [by exists acc|].
  rewrite NoDup_cons, Forall_cons. intros [Hk Hn] [Hk' Hn'].
  assert (add_layer acc k = Ok (<[layer_root k := k]> acc)) as ->.
  { unfold add_layer. by rewrite Hk', bool_decide_eq_false_2 by by intros []. }
  ok_simpl. apply IH; [done|]. rewrite Forall_forall in Hn' |- *. intros l Hl.
  rewrite lookup_insert_ne; [by apply Hn'|]. intros E. apply Hk. apply list_elem_of_fmap. by exists l.
Qed.

Section validation.
Context {D : Digests}.

Lemma v2_piece_layer_root_returns hs p : returns (v2_piece_layer_root hs p).
Proof.
  unfold v2_piece_layer_root. destruct (Z.eqb_spec (len hs) 0); [done|]. ok_simpl.
  destruct (validate_v2_piece_length p) as [u|e| |] eqn:Hv; ok_simpl; try done.
  2,3: by pose proof (validate_v2_piece_length_returns p) as Hr; rewrite Hv in Hr.
  destruct (checked_next_power_of_two (len hs)) as [t|] eqn:Et; [|done]. cbn [ok_or]. ok_simpl.
  pose proof (len_nonneg hs).
  apply next_power_of_two_Some in Et as (d & Hd & -> & _); [|lia].
  rewrite <- (Z2Nat.id d), pow2_nat by done.
  destruct (hash_levels_root hash_v2_pair (Z.to_nat d) (2 ^ Z.to_nat d)
    (resize (2 ^ Z.to_nat d) (zero_subtree (trailing_zeros (p / V2_BLOCK_LENGTH))) hs)) as (h & E & _);
    [apply length_resize|lia|]. by rewrite E.
Qed.

Lemma check_layer_width_Ok k p f u :
  0 < p -> mf_length f <= u64_max ->
  check_layer_width k p f = Ok u <-> (p < mf_length f -> len (hashes k) = div_ceil (mf_length f) p).
Proof.
  intros Hp Hf. destruct u. unfold check_layer_width, u64_div_ceil, usize_try_from.
  destruct (Z.leb_spec (mf_length f) p); [split; [lia|done]|].
  rewrite (proj2 (Z.eqb_neq p 0)) by lia. ok_simpl. set (n := div_ceil _ _).
  assert (n <= mf_length f) as Hn.
  { pose proof (proj1 (div_ceil_spec (mf_length f) p n Hp) eq_refl). nia. }
  change usize_max with u64_max. rewrite (proj2 (Z.leb_le n u64_max)) by lia. cbn [ok_or]. ok_simpl.
  rewrite fail_if_Ok, negb_false_iff, Z.eqb_eq. naive_solver.
Qed.

Lemma check_file_root_Ok layers p r l u :
  0 < p -> Forall (fun f => mf_length f <= u64_max) l ->
  check_file_root layers p (r, l) = Ok u <->
  match layers !! r with
  | Some k => filter (fun f => p < mf_length f) l <> []
      /\ Forall (fun f => len (hashes k) = div_ceil (mf_length f) p) (filter (fun f => p < mf_length f) l)
      /\ v2_piece_layer_root (hashes k) p = Ok r
  | None => filter (fun f => p < mf_length f) l = []
  end.
Proof.
  intros Hp Hl. destruct u. unfold check_file_root.
  assert (existsb (fun f => p <? mf_length f) l = negb (bool_decide (filter (fun f => p < mf_length f) l = []))) as ->.
  { clear Hl. induction l as [|f l IH]; [done|]. cbn [existsb]. rewrite IH.
    destruct (Z.ltb_spec p (mf_length f)); [by rewrite filter_cons_True|].
    by rewrite filter_cons_False by lia. }
  destruct (decide (filter (fun f => p < mf_length f) l = [])) as [E|E].
  - rewrite (bool_decide_eq_true_2 _ E). cbn [negb]. rewrite fail_if_Ok, bool_decide_eq_false.
    destruct (layers !! r) as [k|]; [|split; [done|by intros _ []]].
    split; [intros []; by eexists|]. by intros [? _].
  - rewrite (bool_decide_eq_false_2 _ E). cbn [negb].
    destruct (layers !! r) as [k|]; cbn [ok_or]; ok_simpl; [|done].
    assert (for_each (check_layer_width k p) l = Ok () <->
      Forall (fun f => len (hashes k) = div_ceil (mf_length f) p) (filter (fun f => p < mf_length f) l)) as Hw.
    { rewrite for_each_Ok, !Forall_forall. rewrite Forall_forall in Hl. split; intros H f.
      - intros [Hf Hin]%list_elem_of_filter. specialize (H f Hin).
        apply check_layer_width_Ok in H; auto.
      - intros Hin. apply check_layer_width_Ok; auto. intros Hf. apply H.
        by apply list_elem_of_filter. }
    split.
    + intros H. inv_ok. apply negb_false_iff, bool_decide_eq_true in H as ->.
      destruct x. split; [done|]. split; [by apply Hw|done].
    + intros (_ & Hf%Hw & Hr). rewrite Hf. ok_simpl. rewrite Hr. ok_simpl.
      by rewrite bool_decide_eq_true_2.
Qed.

Lemma filter_large p r fs :
  0 < p -> filter (fun f => p < mf_length f) (with_root r fs) = large p r fs.
Proof.
  intros Hp. unfold with_root, large. rewrite list_filter_filter. apply list_filter_iff'.
  intros f _. naive_solver lia.
Qed.

Lemma elem_of_large p r fs f :
  f ∈ large p r fs <-> f ∈ fs /\ pieces_root f = Some r /\ p < mf_length f.
Proof. unfold large. rewrite list_elem_of_filter. naive_solver. Qed.

Lemma group_of_Some l k : group_of l = Some k <-> l = k /\ l <> [].
Proof. unfold group_of. destruct l; naive_solver. Qed.

Lemma zsum_files_bound fs f : unsigned_files fs -> f ∈ fs -> mf_length f <= zsum mf_length fs.
Proof.
  intros Hu [i Hi]%list_elem_of_lookup. apply (zsum_ge mf_length fs i); [|done].
  unfold unsigned_files in Hu. by rewrite Forall_forall in Hu.
Qed.

(** The two loops over the maps, against the declarative reading. *)
Lemma check_layers_Ok fs ls p by_file by_layer u v :
  0 < p -> Forall (fun f => mf_length f <= u64_max) fs ->
  (forall r, by_file !! r = group_of (with_root r fs)) ->
  (forall r k, by_layer !! r = Some k <-> k ∈ ls /\ layer_root k = r) ->
  (for_each (check_file_root by_layer p) (map_to_list by_file) = Ok u /\
   for_each (check_layer_root by_file) (map_to_list by_layer) = Ok v) <->
  Forall (fun k => large p (layer_root k) fs <> [] /\
      Forall (fun f => len (hashes k) = div_ceil (mf_length f) p) (large p (layer_root k) fs) /\
      v2_piece_layer_root (hashes k) p = Ok (layer_root k)) ls /\
  (forall r, with_root r fs <> [] -> large p r fs <> [] -> exists k, k ∈ ls /\ layer_root k = r).
Proof.
  intros Hp Hmax Hfile Hlayer.
  assert (forall r, Forall (fun f => mf_length f <= u64_max) (with_root r fs)) as Hmax'.
  { intros r. rewrite Forall_forall in Hmax |- *. intros f [_ Hf]%list_elem_of_filter. auto. }
  rewrite !for_each_Ok, !Forall_forall. split.
  - intros [H1 H2].
    assert (forall r l, by_file !! r = Some l -> check_file_root by_layer p (r, l) = Ok ()) as C1.
    { intros r l E. apply H1. by apply elem_of_map_to_list. }
    split.
    + intros k Hk. pose proof (proj2 (Hlayer _ k) (conj Hk eq_refl)) as E.
      assert (check_layer_root by_file (layer_root k, k) = Ok ()) as C2.
      { apply H2. by apply elem_of_map_to_list. }
      unfold check_layer_root in C2. apply fail_if_Ok, negb_false_iff, bool_decide_eq_true in C2 as [l El].
      cbn [fst] in El. specialize (C1 _ _ El). rewrite Hfile in El.
      apply group_of_Some in El as [<- _]. apply check_file_root_Ok in C1; [|done|done].
      rewrite E in C1. by rewrite filter_large in C1 by done.
    + intros r Hw Hl. assert (by_file !! r = Some (with_root r fs)) as El.
      { rewrite Hfile. by apply group_of_Some. }
      apply C1, check_file_root_Ok in El; [|done|done]. rewrite filter_large in El by done.
      destruct (by_layer !! r) as [k|] eqn:Ek; [|done]. apply Hlayer in Ek. eauto.
  - intros [H1 H2]. split.
    + intros [r l] El%elem_of_map_to_list. rewrite Hfile in El.
      apply group_of_Some in El as [<- Hne]. apply check_file_root_Ok; [done|done|].
      rewrite filter_large by done. destruct (by_layer !! r) as [k|] eqn:Ek.
      * apply Hlayer in Ek as [Hk <-]. by apply H1.
      * destruct (decide (large p r fs = [])) as [|Hl]; [done|].
        destruct (H2 r Hne Hl) as (k & Hk & Er). pose proof (proj2 (Hlayer r k) (conj Hk Er)). congruence.
    + intros [r k] Ek%elem_of_map_to_list. apply Hlayer in Ek as [Hk <-].
      unfold check_layer_root. apply fail_if_Ok, negb_false_iff, bool_decide_eq_true.
      cbn [fst]. rewrite Hfile. exists (with_root (layer_root k) fs). apply group_of_Some.
      split; [done|]. intros E. destruct (H1 k Hk) as [Hl _]. apply Hl.
      by rewrite <- (filter_large p _ fs Hp), E.
Qed.

Lemma valid_v2_positive p : (exists k : nat, p = 2 ^ Z.of_nat k * V2_BLOCK_LENGTH) -> 0 < p.
Proof.
  intros [k ->]. apply Z.mul_pos_pos; [|done]. apply Z.pow_pos_nonneg; lia.
Qed.

Lemma valid_files_bound fs total f :
  unsigned_files fs -> valid_files fs total -> f ∈ fs -> mf_length f <= u64_max.
Proof.
  intros Hu [_ _ _ Ht Hr] Hf. pose proof (zsum_files_bound fs f Hu Hf). lia.
Qed.

Lemma validate_v2_metadata_Ok v p total u :
  unsigned_files (v2_files v) ->
  validate_v2_metadata v p total = Ok u <-> valid_v2 v p total.
Proof.
  intros Hu. destruct u. unfold validate_v2_metadata.
  split.
  - intros H. inv_ok.
    repeat match goal with H : negb _ = false |- _ => apply negb_false_iff in H end.
    match goal with H : validate_v2_piece_length _ = _ |- _ => apply valid_piece_length in H; rename H into Hp end.
    match goal with H : validate_file_list _ _ _ = _ |- _ =>
      apply validate_file_list_Ok in H; [|done]; rename H into Hf end.
    match goal with H : try_fold group_by_root _ _ = _ |- _ =>
      apply group_files_Ok in H as [Hroots Hmap]; [|by intros r; rewrite lookup_empty] end.
    pose proof (valid_v2_positive p Hp) as Hpos.
    destruct (piece_layers_verified v) eqn:Hv; cbn [negb] in H.
    2: { apply fail_if_Ok, negb_false_iff in H. apply Z.eqb_eq, len_0 in H.
         split; try done; try lia; try congruence; rewrite H; cbn [map]; constructor. }
    apply bind_Ok in H as (by_layer & H4 & H). apply bind_Ok in H as ([] & H5 & H6).
    apply add_layers_Ok in H4 as (Hn & _ & Hl).
    destruct (proj1 (check_layers_Ok (v2_files v) (piece_layers v) p _ by_layer () () Hpos
      ltac:(apply Forall_forall; intros f; by apply valid_files_bound with total) ltac:(intros r; rewrite Hmap, lookup_empty; done)
      ltac:(intros r k; rewrite Hl, lookup_empty; naive_solver)) (conj H5 H6)) as [C1 C2].
    rewrite !Forall_and in C1. destruct C1 as (C11 & C12 & C13).
    split; try done; try lia; try congruence. intros _. apply Forall_forall. intros f Hin.
    destruct (Z.le_gt_cases (mf_length f) p); [by left|right].
    rewrite Forall_forall in Hroots. destruct (Hroots f Hin) as [|[r Hr]]; [lia|].
    destruct (C2 r) as (k & Hk & <-); [| |eauto].
    + intros E. assert (f ∈ with_root r (v2_files v)) as Hx by (apply list_elem_of_filter; split; [split; [done|lia]|done]).
      rewrite E in Hx. by apply not_elem_of_nil in Hx.
    + intros E. assert (f ∈ large p r (v2_files v)) as Hx by (apply elem_of_large; split; [done|split; [done|lia]]).
      rewrite E in Hx. by apply not_elem_of_nil in Hx.
  - intros [Hver Hp Hf Hroots Hun Hn Hused Hwidth Hroot Hpres].
    pose proof (valid_v2_positive p Hp) as Hpos.
    rewrite Hver. ok_simpl. destruct Hp as [k Ek].
    assert (validate_v2_piece_length p = Ok ()) as -> by (rewrite Ek; apply valid_piece_length_pow).
    ok_simpl. rewrite (proj2 (validate_file_list_Ok _ _ _ () Hu) Hf). ok_simpl.
    destruct (group_files_total (v2_files v) ∅ Hroots) as [by_file Eg]. rewrite Eg. ok_simpl.
    apply group_files_Ok in Eg as [_ Hmap]; [|by intros r; rewrite lookup_empty].
    destruct (piece_layers_verified v) eqn:Hv; cbn [negb].
    2: { by rewrite Hun. }
    destruct (add_layers_total (piece_layers v) ∅ Hn) as [by_layer El].
    { apply Forall_forall. intros l _. apply lookup_empty. }
    rewrite El. ok_simpl. apply add_layers_Ok in El as (_ & _ & Hl).
    destruct (proj2 (check_layers_Ok (v2_files v) (piece_layers v) p by_file by_layer () () Hpos
      ltac:(apply Forall_forall; intros f; by apply valid_files_bound with total) ltac:(intros r; rewrite Hmap, lookup_empty; done)
      ltac:(intros r l; rewrite Hl, lookup_empty; naive_solver))) as [-> C2]; [|ok_simpl; by rewrite C2].
    split.
    + rewrite !Forall_and. done.
    + intros r _ Hlg. destruct (large p r (v2_files v)) as [|f fs] eqn:E; [done|].
      assert (f ∈ large p r (v2_files v)) as (Hin & Hr & Hlen)%elem_of_large by (rewrite E; by left).
      specialize (Hpres eq_refl). rewrite Forall_forall in Hpres.
      destruct (Hpres f Hin) as [|(l & Hl' & El)]; [lia|]. exists l. split; [done|]. congruence.
Qed.

Lemma group_by_root_returns acc f : returns (group_by_root acc f).
Proof. unfold group_by_root. destruct (_ =? _); returns_tac. Qed.
Lemma add_layer_returns acc l : returns (add_layer acc l).
Proof. unfold add_layer. returns_tac. Qed.

Lemma check_file_root_returns layers p e : p <> 0 -> returns (check_file_root layers p e).
Proof.
  intros Hp. destruct e as [r l]. unfold check_file_root. destruct (existsb _ _); [|auto].
  apply bind_returns; [auto|intros k _]. apply bind_returns.
  - apply for_each_returns. intros f _. unfold check_layer_width, u64_div_ceil.
    destruct (_ <=? _); [done|]. rewrite (proj2 (Z.eqb_neq _ _)) by done. returns_tac.
  - intros _ _. apply bind_returns; [apply v2_piece_layer_root_returns|auto].
Qed.

Lemma validate_v2_metadata_returns v p total : returns (validate_v2_metadata v p total).
Proof.
  unfold validate_v2_metadata. apply bind_returns; [auto|intros _ _].
  apply bind_returns; [apply validate_v2_piece_length_returns|intros u Hp].
  apply valid_piece_length, valid_v2_positive in Hp.
  apply bind_returns; [auto|intros _ _].
  apply bind_returns; [apply try_fold_returns; auto using group_by_root_returns|intros by_file _].
  destruct (negb _); [auto|].
  apply bind_returns; [apply try_fold_returns; auto using add_layer_returns|intros by_layer _].
  apply bind_returns.
  - apply for_each_returns. intros e _. apply check_file_root_returns. lia.
  - intros _ _. apply for_each_returns. intros e _. unfold check_layer_root. auto.
Qed.

(** ** [validate] *)

Lemma validate_raw_info_Ok m u : validate_raw_info m = Ok u <-> valid_raw_info m.
Proof.
  destruct u. unfold validate_raw_info, valid_raw_info. destruct (raw_info m) as [raw|]; [|done].
  unfold matches_info_bencoded, from_info_bencoded, v2_from_info_bencoded.
  rewrite bind_Ok. split.
  - intros (x & H1 & H2). apply fail_if_Ok, Z.ltb_ge in H1. split; [done|].
    destruct (identity m); apply fail_if_Ok, negb_false_iff in H2;
      rewrite ?andb_true_iff, ?bool_decide_eq_true in H2; done.
  - intros [H1 H2]. exists (). rewrite fail_if_Ok, Z.ltb_ge. split; [done|].
    destruct (identity m); apply fail_if_Ok, negb_false_iff;
      rewrite ?andb_true_iff, ?bool_decide_eq_true; done.
Qed.

Lemma validate_raw_info_returns m : returns (validate_raw_info m).
Proof. unfold validate_raw_info. destruct (raw_info m); [|done]. destruct (identity m); returns_tac. Qed.

Lemma validate_identity_Ok m u :
  unsigned m -> 0 < piece_length m -> validate_identity m = Ok u <-> valid_identity m.
Proof.
  intros (_ & _ & _ & Hu) Hp. destruct u. unfold validate_identity, valid_identity.
  assert (forall v, v2 m = Some v -> validate_v2_metadata v (piece_length m) (total_length m) = Ok ()
    <-> valid_v2 v (piece_length m) (total_length m)) as Hv.
  { intros v Ev. apply validate_v2_metadata_Ok. by apply Hu. }
  pose proof (validate_v1_piece_layout_Ok m () Hp) as Hl.
  destruct (identity m) as [|v1|v2'|v1 v2'].
  - done.
  - split.
    + intros H. inv_ok. apply Hl in H.
      match goal with H : negb _ = false |- _ => apply negb_false_iff, bool_decide_eq_true in H end.
      match goal with H : bool_decide _ = false |- _ =>
        apply bool_decide_eq_false, eq_None_not_Some in H end. done.
    + intros (H1 & H2 & H3). rewrite (bool_decide_eq_true_2 _ H1), H2. cbn [negb]. ok_simpl.
      by rewrite (proj2 Hl H3).
  - split.
    + intros H. inv_ok. repeat match goal with H : negb _ = false |- _ => apply negb_false_iff in H end.
      rewrite bool_decide_eq_true, Z.eqb_eq, len_0 in *.
      match goal with H : v2 m = Some ?v, H' : validate_v2_metadata ?v _ _ = Ok ?x |- _ =>
        destruct x; apply (Hv v H) in H' end. naive_solver.
    + intros (H1 & H2 & v & H3 & H4 & H5). rewrite (bool_decide_eq_true_2 _ H1), H2, H3. cbn [ok_or negb].
      ok_simpl. rewrite (proj2 (Hv v H3) H4). ok_simpl. by rewrite H5.
  - split.
    + intros H. inv_ok. repeat match goal with H : negb _ = false |- _ => apply negb_false_iff in H end.
      rewrite bool_decide_eq_true in *. apply validate_hybrid_layout_Ok in H.
      match goal with H : v2 m = Some ?v, H' : validate_v2_metadata ?v _ _ = Ok ?x |- _ =>
        destruct x; apply (Hv v H) in H' end.
      match goal with H : validate_v1_piece_layout _ = Ok ?x |- _ => destruct x; apply Hl in H end.
      naive_solver.
    + intros (H1 & H2 & v & H3 & H4 & H5). rewrite (bool_decide_eq_true_2 _ H1), H3. cbn [ok_or negb].
      ok_simpl. rewrite (proj2 Hl H2). ok_simpl. rewrite (proj2 (Hv v H3) H4). ok_simpl.
      by apply validate_hybrid_layout_Ok.
Qed.

Lemma validate_identity_returns m : piece_length m <> 0 -> returns (validate_identity m).
Proof.
  intros Hp. pose proof (validate_v1_piece_layout_returns m Hp).
  unfold validate_identity. destruct (identity m); auto; repeat first [assumption | apply bind_returns;
    [solve [auto using validate_v2_metadata_returns]|intros ? _]]; auto using validate_hybrid_layout_returns.
Qed.

Lemma validate_Ok m u : unsigned m -> validate m = Ok u <-> valid_meta m.
Proof.
  intros Hu. pose proof Hu as (Hp & Ht & Hf & _). destruct u. unfold validate. split.
  - intros H. inv_ok.
    repeat match goal with
    | H : validate_path_component _ _ = _ |- _ => apply validate_path_component_Ok in H
    | H : validate_file_list _ _ _ = _ |- _ => apply validate_file_list_Ok in H; [|done]
    | H : validate_raw_info _ = _ |- _ => apply validate_raw_info_Ok in H
    end.
    apply validate_identity_Ok in H; [|done|lia].
    split; try done; try lia. intros Em. rewrite Em in *. cbn [negb andb] in *.
    match goal with H : negb _ = false |- _ => apply negb_false_iff in H end. lia.
  - intros [Hn Hpl Htl Hfs Hs Hr Hi].
    assert (len (name m) <> 0) by (rewrite len_0; by destruct Hn).
    rewrite (proj2 (Z.eqb_neq (len (name m)) 0)) by done. ok_simpl.
    rewrite (proj2 (validate_path_component_Ok _ _ ()) Hn). ok_simpl.
    rewrite (proj2 (Z.eqb_neq (piece_length m) 0)), (proj2 (Z.ltb_ge _ _)),
      (proj2 (Z.eqb_neq (total_length m) 0)) by lia. ok_simpl.
    rewrite (proj2 (validate_file_list_Ok _ _ _ () Hf) Hfs). ok_simpl.
    assert (negb (is_multi_file m) && negb (len (files m) =? 1) = false) as ->.
    { destruct (is_multi_file m); [done|]. by rewrite Hs. }
    ok_simpl. rewrite (proj2 (validate_raw_info_Ok m ()) Hr). ok_simpl.
    apply validate_identity_Ok; [done|lia|done].
Qed.

Lemma validate_returns m : returns (validate m).
Proof.
  unfold validate. repeat (apply bind_returns;
    [solve [auto using validate_raw_info_returns]|
     intros ? ?; try match goal with H : fail_if (piece_length _ =? 0) _ = _ |- _ =>
       apply fail_if_Ok, Z.eqb_neq in H end]).
  by apply validate_identity_returns.
Qed.

(** C18: [validate] returns on every record and accepts exactly the executable
    metadata: a safe name, a piece length within bounds, a non-empty file list with
    safe distinct paths whose lengths add up to the total, the raw [info] bytes
    hashing to the identity, one SHA-1 hash per piece for the v1 forms, and for the
    BEP 52 forms a file tree whose piece layers are exactly those its long files
    need, each with one hash per piece and the Merkle root it is filed under. *)
Theorem validate_exact m :
  unsigned m ->
  returns (validate m) /\ (validate m = Ok () <-> valid_meta m).
Proof. intros Hu. split; [apply validate_returns|by apply validate_Ok]. Qed.
End validation.

(** ** A BEP 52 torrent of one small file, for the examples *)

Definition sample_data : text := bytes_of "abc".
Definition sample_root : V2InfoHash :=
  match @v2_file_root toy_digests sample_data with Ok r => r | _ => V2_ZERO end.
Definition sample_file : MetaFile := mkMetaFile [bytes_of "a"] 3 (Some sample_root).
Definition sample_v2 : V2TorrentMeta := mkV2Meta 2 [sample_file] [] true.
Definition sample : TorrentMeta :=
  mkMeta ZERO (V2 sample_root) (bytes_of "a") 16384 [] [sample_file] 3 false None [] [] None None None
    false (Some sample_v2) None.

Lemma sample_unsigned : unsigned sample.
Proof.
  split; [done|]. split; [done|]. split; [by apply Forall_singleton|].
  intros v [= <-]. by apply Forall_singleton.
Qed.

Lemma sample_valid : @valid_meta toy_digests sample.
Proof. apply (@validate_Ok toy_digests sample ()); [apply sample_unsigned|by vm_compute]. Qed.

Lemma validate_exact_witness :
  @validate toy_digests sample = Ok () <-> @valid_meta toy_digests sample.
Proof. exact (proj2 (@validate_exact toy_digests sample sample_unsigned)). Defined.
