(* ===== verification/ParseCorrect.v ===== *)
(** * Metainfo parsing: what the parsers guarantee

    The parsers of [MetaParse] return on every input, report only metainfo and
    bencode errors, and what they return is executable metadata ([valid_meta])
    that carries the exact [info] bytes its identity is the hash of. *)

From S2P Require Import Prelude Text Bencode BencodeCorrect Hash Merkle Meta MetaParse MetaCorrect.

(** ** The entries of a decoded dictionary *)

Lemma find_key_In key d v : find_key key d = Some v -> (bytes_of key, v) ∈ d.
Proof.
  unfold find_key. intros ([k v'] & Hf & ->)%fmap_Some.
  apply List.find_some in Hf as [Hin E%bool_decide_eq_true]. cbn in *. subst.
  by apply list_elem_of_In.
Qed.

Lemma find_key_get key d : find_key key d = get_value (Dict d) (bytes_of key).
Proof. done. Qed.

Lemma vdepth_entry d k v : (k, v) ∈ d -> vdepth v < vdepth (Dict d).
Proof.
  intros Hin. pose proof (vdepth_nonneg (Dict d)).
  assert (1 <= vdepth (Dict d)) as H1 by apply vdepth_Dict_pos.
  pose proof (proj1 (vdepth_Dict d (vdepth (Dict d)) H1) ltac:(lia)) as Hf.
  rewrite Forall_forall in Hf. specialize (Hf _ Hin). cbn [snd] in Hf. lia.
Qed.

Lemma vdepth_sub d d' k : (forall e, e ∈ d' -> e ∈ d) -> vdepth (Dict d) <= k -> 1 <= k -> vdepth (Dict d') <= k.
Proof.
  intros Hs Hd Hk. apply vdepth_Dict; [done|]. apply (vdepth_Dict d k Hk) in Hd.
  rewrite Forall_forall in *. auto.
Qed.

Lemma as_dict_Some v d : as_dict v = Some d <-> v = Dict d.
Proof. destruct v; naive_solver. Qed.

Lemma find_dict_depth key d sub k :
  vdepth (Dict d) <= k -> find_key key d ≫= as_dict = Some sub -> vdepth (Dict sub) < k.
Proof.
  intros Hd (v & Hv & ->%as_dict_Some)%bind_Some. apply find_key_In, vdepth_entry in Hv. lia.
Qed.

(** ** Chunks of exact size *)

Lemma as_chunks_length {A} k (l : list A) c : (0 < k)%nat -> c ∈ as_chunks k l -> length c = k.
Proof.
  intros Hk. unfold as_chunks. generalize (length l) at 1 as f. intros f. revert l.
  induction f as [|f IH]; intros l; cbn [as_chunks_fuel]; [by intros ?%not_elem_of_nil|].
  destruct (Nat.ltb_spec (length l) k) as [|Hl]; [by intros ?%not_elem_of_nil|].
  intros [->|Hc]%elem_of_cons; [|by eapply IH]. rewrite length_take. lia.
Qed.

Lemma length_as_chunks {A} k (l : list A) m :
  (0 < k)%nat -> length l = (m * k)%nat -> length (as_chunks k l) = m /\ concat (as_chunks k l) = l.
Proof.
  intros Hk Hl. unfold as_chunks. assert (m <= length l)%nat as Hf by nia.
  revert Hf. generalize (length l) at 1 2 3 as f. revert l Hl.
  induction m as [|m IH]; intros l Hl f Hf.
  { destruct l; [|cbn in Hl; lia]. destruct f; [done|]. cbn [as_chunks_fuel length].
    by rewrite (proj2 (Nat.ltb_lt _ _)). }
  destruct f as [|f]; [lia|]. cbn [as_chunks_fuel].
  rewrite (proj2 (Nat.ltb_ge _ _)) by (cbn in Hl; lia). cbn [length concat].
  destruct (IH (drop k l)) with (f := f) as [H1 H2]; [rewrite length_drop; cbn in Hl; lia|lia|].
  rewrite H1, H2, take_drop. done.
Qed.

(** ** The parsers return *)

Lemma copy_from_slice_returns n s : length s = n -> returns (copy_from_slice n s).
Proof. intros H. by destruct (copy_from_slice_total n s H) as (a & -> & _). Qed.

Lemma parse_name_returns info : returns (parse_name info).
Proof. unfold parse_name. returns_tac. Qed.
Lemma parse_v1_piece_length_returns info : returns (parse_v1_piece_length info).
Proof. unfold parse_v1_piece_length. returns_tac. Qed.
Lemma parse_v1_pieces_returns info : returns (parse_v1_pieces info).
Proof.
  unfold parse_v1_pieces. returns_tac. apply mapM_returns. intros c Hc.
  apply copy_from_slice_returns. eapply (as_chunks_length 20); [lia|done].
Qed.
Lemma non_negative_length_returns v f : returns (non_negative_length v f).
Proof. unfold non_negative_length. returns_tac. Qed.
#[export] Hint Resolve parse_name_returns parse_v1_piece_length_returns parse_v1_pieces_returns
  non_negative_length_returns : core.

Lemma parse_v1_file_returns name st f : returns (parse_v1_file name st f).
Proof.
  destruct st as [[paths total] out]. unfold parse_v1_file.
  repeat (apply bind_returns; [solve [auto]|intros ? _]).
  apply bind_returns; [|intros ? _; returns_tac].
  apply try_fold_returns. intros p v _. unfold parse_v1_component. returns_tac.
Qed.

Lemma parse_v1_files_returns name info : returns (parse_v1_files name info).
Proof.
  unfold parse_v1_files. destruct (find_key "length" info); [returns_tac|].
  destruct (find_key "files" info); [|done].
  repeat (apply bind_returns; [solve [auto]|intros ? _]).
  apply bind_returns; [apply try_fold_returns; auto using parse_v1_file_returns|].
  by intros [[??]?] _.
Qed.

Lemma wf_entry d k v : wf (Dict d) -> (k, v) ∈ d -> wf v.
Proof. intros [_ Hf]%wf_Dict Hin. rewrite Forall_forall in Hf. exact (Hf _ Hin). Qed.

Lemma find_dict_wf key d sub : wf (Dict d) -> find_key key d ≫= as_dict = Some sub -> wf (Dict sub).
Proof.
  intros Hw (v & Hv & ->%as_dict_Some)%bind_Some. eapply wf_entry; [done|]. by apply find_key_In.
Qed.

Lemma get_int_range d key i : wf (Dict d) -> get_int d key = Some i -> i64_min <= i <= i64_max.
Proof.
  intros Hw (v & Hv%find_key_In & Hi)%bind_Some. apply (wf_entry _ _ _ Hw) in Hv.
  by destruct v; cbn in Hi; simplify_eq.
Qed.

Lemma parse_v1_piece_length_Ok info p :
  wf (Dict info) -> parse_v1_piece_length info = Ok p ->
  get_int info "piece length" = Some p /\ 0 < p <= MAX_PIECE_LENGTH.
Proof.
  intros Hw H. unfold parse_v1_piece_length in H. inv_ok.
  match goal with H : get_int _ _ = Some ?i |- _ => pose proof (get_int_range _ _ _ Hw H); rename i into z end.
  assert (wrap 64 z = z) as E by (apply wrap_small; unfold in_width, i64_max in *; lia).
  rewrite E in *. split; [done|lia].
Qed.

Lemma check_v1_piece_count_returns c t p : p <> 0 -> returns (check_v1_piece_count c t p).
Proof.
  intros Hp. unfold check_v1_piece_count, u64_div_ceil. rewrite (proj2 (Z.eqb_neq _ _)) by done.
  returns_tac.
Qed.

(** The [info] dictionary comes from the decoder. *)
Definition info_decoded (root : dict) : Prop := forall info,
  find_key "info" root ≫= as_dict = Some info ->
  wf (Dict info) /\ vdepth (Dict info) <= MAX_BENCODE_DEPTH.

Lemma decoded_info root :
  wf (Dict root) -> vdepth (Dict root) <= MAX_BENCODE_DEPTH -> info_decoded root.
Proof.
  intros Hw Hd info Hi. split; [by eapply find_dict_wf|].
  apply (find_dict_depth _ _ _ _ Hd) in Hi. lia.
Qed.

Section returns.
Context {D : Digests}.

Lemma parse_v1_torrent_root_returns root info_bytes :
  info_decoded root -> returns (parse_v1_torrent_root root info_bytes).
Proof.
  intros Hw. unfold parse_v1_torrent_root.
  apply bind_returns; [auto|intros info Hi]. apply ok_or_Ok, Hw in Hi as [Hi _].
  apply bind_returns; [auto|intros name _]. apply bind_returns; [auto|intros p Hp].
  destruct (parse_v1_piece_length_Ok _ _ Hi Hp) as [_ Hpos].
  apply bind_returns; [auto|intros ps _]. cbv zeta.
  apply bind_returns; [apply parse_v1_files_returns|intros [[fs t] multi] _].
  apply bind_returns; [apply check_v1_piece_count_returns; lia|intros _ _].
  apply bind_returns; [apply validate_returns|done].
Qed.

Lemma parse_v2_hash_bytes_returns b f : returns (parse_v2_hash_bytes b f).
Proof.
  unfold parse_v2_hash_bytes. apply bind_returns; [auto|intros u E].
  apply fail_if_Ok, negb_false_iff, Z.eqb_eq in E. apply copy_from_slice_returns. unfold len in E. lia.
Qed.

Lemma parse_v2_file_returns ps cs p fs : returns (parse_v2_file ps cs p fs).
Proof.
  unfold parse_v2_file. repeat (apply bind_returns; [solve [auto]|intros ? _]).
  apply bind_returns; [|intros ? _; returns_tac].
  destruct (find_key "pieces root" ps); [|done]. apply bind_returns; [|done].
  unfold parse_v2_hash_value. apply bind_returns; [auto|]. intros. apply parse_v2_hash_bytes_returns.
Qed.

Lemma split_node_Ok node acc acc' :
  try_fold split_node acc node = Ok acc' -> forall e, e ∈ acc'.2 -> e ∈ acc.2 \/ e ∈ node.
Proof.
  revert acc. induction node as [|[k v] node IH]; intros acc; cbn [try_fold].
  { intros [= ->]. auto. }
  intros (acc1 & H1 & H2)%bind_Ok e He. apply IH with (e := e) in H2; [|done].
  rewrite elem_of_cons. destruct H2 as [H2|]; [|auto].
  destruct acc as [ps cs]. unfold split_node in H1. destruct (len k =? 0); inv_ok; cbn [snd] in *.
  - auto.
  - apply elem_of_app in H2 as [|H2%list_elem_of_singleton]; auto.
Qed.

Lemma split_node_returns node acc : returns (try_fold split_node acc node).
Proof.
  apply try_fold_returns. intros [ps cs] [k v] _. unfold split_node. destruct (_ =? _); returns_tac.
Qed.

Lemma parse_v2_file_tree_node_returns fuel : forall node p fs,
  vdepth (Dict node) <= Z.of_nat fuel -> returns (parse_v2_file_tree_node fuel node p fs).
Proof.
  induction fuel as [|fuel IH]; intros node p fs Hd.
  { pose proof (vdepth_Dict_pos node). lia. }
  cbn [parse_v2_file_tree_node]. apply bind_returns; [apply split_node_returns|].
  intros [[ps|] cs] Hs; [apply parse_v2_file_returns|].
  apply try_fold_returns. intros fs' [k v] Hin.
  apply bind_returns; [auto|intros _ _]. apply bind_returns; [auto|intros _ _].
  apply bind_returns; [auto|intros child Hc]. apply ok_or_Ok, as_dict_Some in Hc as ->.
  apply IH. destruct (split_node_Ok _ _ _ Hs (k, Dict child) Hin) as [H|H]; [by apply not_elem_of_nil in H|].
  apply vdepth_entry in H. lia.
Qed.

Lemma parse_v2_metadata_returns root info p r :
  vdepth (Dict info) <= MAX_BENCODE_DEPTH -> returns (parse_v2_metadata root info p r).
Proof.
  intros Hd. unfold parse_v2_metadata. apply bind_returns; [apply validate_v2_piece_length_returns|intros _ _].
  apply bind_returns; [auto|intros tree Ht].
  apply ok_or_Ok, (find_dict_depth _ _ _ _ Hd) in Ht.
  apply bind_returns.
  { unfold parse_v2_file_tree. apply bind_returns; [|intros ? _; returns_tac].
    apply parse_v2_file_tree_node_returns. unfold tree_fuel. lia. }
  intros fs _. apply bind_returns; [auto|intros t _]. apply bind_returns; [auto|intros _ _].
  apply bind_returns.
  { unfold parse_v2_piece_layers. destruct (find_key _ _); [|by destruct r].
    apply bind_returns; [auto|intros ls _]. apply bind_returns; [|done].
    apply mapM_returns. intros [rb w] _. unfold parse_v2_piece_layer.
    apply bind_returns; [apply parse_v2_hash_bytes_returns|intros pr _].
    repeat (apply bind_returns; [solve [auto]|intros ? _]).
    apply bind_returns; [|done]. apply mapM_returns. intros. apply parse_v2_hash_bytes_returns. }
  intros [ls b] _. apply bind_returns; [apply validate_v2_metadata_returns|done].
Qed.

Lemma parse_torrent_root_returns root info_bytes r :
  info_decoded root -> returns (parse_torrent_root root info_bytes r).
Proof.
  intros Hw. unfold parse_torrent_root, find_info_dict.
  apply bind_returns; [auto|intros info Hi]. apply ok_or_Ok, Hw in Hi as [_ Hi].
  destruct (find_key "meta version" info); [|by apply parse_v1_torrent_root_returns].
  apply bind_returns; [auto|intros mv _]. apply bind_returns; [auto|intros _ _]. cbv zeta.
  destruct (_ || _).
  - apply bind_returns; [auto|intros _ _].
    apply bind_returns; [by apply parse_v1_torrent_root_returns|intros w1 _].
    apply bind_returns; [apply parse_v2_metadata_returns; lia|intros w2 _].
    apply bind_returns; [apply validate_hybrid_layout_returns|intros _ _].
    apply bind_returns; [apply validate_returns|done].
  - unfold parse_v2_torrent_root. apply bind_returns; [auto|intros name _].
    apply bind_returns; [unfold parse_piece_length; returns_tac|intros p _].
    apply bind_returns; [apply validate_v2_piece_length_returns|intros _ _].
    apply bind_returns; [apply parse_v2_metadata_returns; lia|intros v2 _].
    apply bind_returns; [auto|intros t _]. apply bind_returns; [auto|intros _ _]. cbv zeta.
    apply bind_returns; [|done]. destruct r; [apply validate_returns|done].
Qed.
End returns.

(** ** The errors they report *)

Definition bencode_error (e : CoreError) : Prop := exists msg, e = Bencode msg.
Definition metainfo_error (e : CoreError) : Prop := exists msg, e = MalformedTorrent msg.
Definition parse_error (e : CoreError) : Prop := bencode_error e \/ metainfo_error e.

Lemma bencode_error_intro msg : bencode_error (Bencode msg).
Proof. by eexists. Qed.
Lemma metainfo_error_intro msg : metainfo_error (MalformedTorrent msg).
Proof. by eexists. Qed.
#[export] Hint Resolve bencode_error_intro metainfo_error_intro : err_only.

Lemma index_errors {A} P (l : list A) i : err_only P (index l i).
Proof. unfold index. by destruct (get l i). Qed.
Lemma slice_errors {A} P (l : list A) a b : err_only P (slice l a b).
Proof. unfold slice. by destruct (_ && _). Qed.
Lemma slice_from_errors {A} P (l : list A) a : err_only P (slice_from l a).
Proof. apply slice_errors. Qed.
Lemma copy_from_slice_errors P n s : err_only P (copy_from_slice n s).
Proof. unfold copy_from_slice. by destruct (decide _). Qed.
Lemma u64_div_ceil_errors P a b : err_only P (u64_div_ceil a b).
Proof. unfold u64_div_ceil. by destruct (_ =? _). Qed.
#[export] Hint Resolve index_errors slice_errors slice_from_errors copy_from_slice_errors
  u64_div_ceil_errors : err_only.

Section decoder_errors.
Variable bytes : list byte.

Lemma peek_errors p : err_only bencode_error (peek bytes p).
Proof. unfold peek. err_only_tac. Qed.
#[local] Hint Resolve peek_errors : err_only.
Lemma bump_errors p : err_only bencode_error (bump bytes p).
Proof. unfold bump. err_only_tac. Qed.
Lemma count_node_errors p : err_only bencode_error (count_node p).
Proof. unfold count_node. err_only_tac. Qed.
Lemma enter_errors p : err_only bencode_error (enter p).
Proof. unfold enter. err_only_tac. Qed.
Lemma leave_errors p : err_only bencode_error (leave p).
Proof. unfold leave. err_only_tac. Qed.
#[local] Hint Resolve bump_errors count_node_errors enter_errors leave_errors : err_only.

Lemma scan_int_errors f p : err_only bencode_error (scan_int bytes f p).
Proof.
  revert p. induction f as [|f IH]; intros p; cbn [scan_int]; [done|].
  destruct (peek bytes p); err_only_tac.
Qed.
#[local] Hint Resolve scan_int_errors : err_only.
Lemma parse_int_errors p : err_only bencode_error (parse_int bytes p).
Proof. unfold parse_int. err_only_tac. Qed.
Lemma parse_str_errors p : err_only bencode_error (parse_str bytes p).
Proof. unfold parse_str. err_only_tac. Qed.
#[local] Hint Resolve parse_int_errors parse_str_errors : err_only.

Lemma parse_errors f :
  (forall p, err_only bencode_error (parse bytes f p)) /\
  (forall p items, err_only bencode_error (parse_list_loop bytes f p items)) /\
  (forall p seen entries, err_only bencode_error (parse_dict_loop bytes f p seen entries)).
Proof.
  induction f as [|f (IH1 & IH2 & IH3)]; [done|].
  split; [|split]; intros; cbn [parse parse_list_loop parse_dict_loop]; err_only_tac.
Qed.
End decoder_errors.

Lemma decode_errors bytes : err_only bencode_error (decode bytes).
Proof.
  unfold decode, decode_prefix. pose proof (proj1 (parse_errors bytes (decode_fuel bytes))) as H.
  err_only_tac.
Qed.

(** The scanner reports no error: what it cannot read is [None]. *)
Section scanner_errors.
Variables (P : CoreError -> Prop) (bytes : list byte).

Lemma read_str_errors p : err_only P (read_str bytes p).
Proof. unfold read_str. err_only_tac. Qed.
Lemma skip_to_e_errors f p : err_only P (skip_to_e bytes f p).
Proof. revert p. induction f as [|f IH]; intros p; cbn [skip_to_e]; err_only_tac. Qed.
#[local] Hint Resolve read_str_errors skip_to_e_errors : err_only.
Lemma skip_nested_errors f p d : err_only P (skip_nested bytes f p d).
Proof. revert p d. induction f as [|f IH]; intros p d; cbn [skip_nested]; err_only_tac. Qed.
#[local] Hint Resolve skip_nested_errors : err_only.
Lemma skip_value_errors p : err_only P (skip_value bytes p).
Proof. unfold skip_value. err_only_tac. Qed.
#[local] Hint Resolve skip_value_errors : err_only.
Lemma extract_value_bytes_errors key : err_only P (extract_value_bytes bytes key).
Proof.
  assert (forall f p, err_only P (extract_loop bytes f key p)) as H.
  { induction f as [|f IH]; intros p; cbn [extract_loop]; err_only_tac. }
  unfold extract_value_bytes. err_only_tac.
Qed.
End scanner_errors.
#[export] Hint Resolve extract_value_bytes_errors : err_only.

Section metainfo_errors.
Context {D : Digests}.

Lemma validate_path_component_errors s k : err_only metainfo_error (validate_path_component s k).
Proof. unfold validate_path_component. err_only_tac. Qed.
Lemma total_file_length_errors fs c : err_only metainfo_error (total_file_length fs c).
Proof. unfold total_file_length. apply err_only_try_fold. intros. err_only_tac. Qed.
Lemma validate_v2_piece_length_errors p : err_only metainfo_error (validate_v2_piece_length p).
Proof. unfold validate_v2_piece_length. err_only_tac. Qed.
Lemma validate_hybrid_layout_errors a b c : err_only metainfo_error (validate_hybrid_layout a b c).
Proof. unfold validate_hybrid_layout. err_only_tac. Qed.
Lemma validate_v1_piece_layout_errors m : err_only metainfo_error (validate_v1_piece_layout m).
Proof. unfold validate_v1_piece_layout. err_only_tac. Qed.
#[local] Hint Resolve validate_path_component_errors total_file_length_errors
  validate_v2_piece_length_errors validate_hybrid_layout_errors validate_v1_piece_layout_errors : err_only.

Lemma validate_file_list_errors fs t c : err_only metainfo_error (validate_file_list fs t c).
Proof.
  unfold validate_file_list. err_only_tac. apply err_only_try_fold. intros. unfold check_file_path.
  err_only_tac.
Qed.
Lemma hash_levels_errors f p l : err_only metainfo_error (hash_levels f p l).
Proof. revert l. induction f; intros l; cbn [hash_levels]; err_only_tac. Qed.
#[local] Hint Resolve validate_file_list_errors hash_levels_errors : err_only.
Lemma v2_piece_layer_root_errors hs p : err_only metainfo_error (v2_piece_layer_root hs p).
Proof. unfold v2_piece_layer_root. err_only_tac. Qed.
#[local] Hint Resolve v2_piece_layer_root_errors : err_only.

Lemma validate_v2_metadata_errors v p t : err_only metainfo_error (validate_v2_metadata v p t).
Proof.
  assert (forall k p f, err_only metainfo_error (check_layer_width k p f)).
  { intros. unfold check_layer_width. err_only_tac. }
  assert (forall m p e, err_only metainfo_error (check_file_root m p e)).
  { intros m q [r l]. unfold check_file_root. err_only_tac. }
  assert (forall a f, err_only metainfo_error (group_by_root a f)).
  { intros. unfold group_by_root. err_only_tac. }
  assert (forall a f, err_only metainfo_error (add_layer a f)).
  { intros. unfold add_layer. err_only_tac. }
  assert (forall m e, err_only metainfo_error (check_layer_root m e)).
  { intros. unfold check_layer_root. err_only_tac. }
  unfold validate_v2_metadata. err_only_tac.
Qed.
#[local] Hint Resolve validate_v2_metadata_errors : err_only.

Lemma validate_errors m : err_only metainfo_error (validate m).
Proof. unfold validate, validate_raw_info, validate_identity. err_only_tac. Qed.
#[local] Hint Resolve validate_errors : err_only.

Lemma parse_v1_torrent_root_errors root b : err_only metainfo_error (parse_v1_torrent_root root b).
Proof.
  assert (forall p v, err_only metainfo_error (parse_v1_component p v)).
  { intros. unfold parse_v1_component. err_only_tac. }
  assert (forall n s f, err_only metainfo_error (parse_v1_file n s f)).
  { intros n [[? ?] ?] f. unfold parse_v1_file, non_negative_length. err_only_tac. }
  unfold parse_v1_torrent_root, parse_name, parse_v1_piece_length, parse_v1_pieces, parse_v1_files,
    check_v1_piece_count, non_negative_length. err_only_tac.
Qed.

Lemma parse_v2_hash_bytes_errors b f : err_only metainfo_error (parse_v2_hash_bytes b f).
Proof. unfold parse_v2_hash_bytes. err_only_tac. Qed.
#[local] Hint Resolve parse_v1_torrent_root_errors parse_v2_hash_bytes_errors : err_only.

Lemma parse_v2_file_tree_node_errors f : forall n p fs,
  err_only metainfo_error (parse_v2_file_tree_node f n p fs).
Proof.
  assert (forall a e, err_only metainfo_error (split_node a e)).
  { intros [? ?] [? ?]. unfold split_node. err_only_tac. }
  induction f as [|f IH]; intros n p fs; [done|]. cbn [parse_v2_file_tree_node].
  apply err_only_bind; [eauto with err_only|]. intros [[ps|] cs].
  - unfold parse_v2_file, non_negative_length, parse_v2_hash_value. err_only_tac.
  - apply err_only_try_fold. intros fs' [k v]. err_only_tac.
Qed.
#[local] Hint Resolve parse_v2_file_tree_node_errors : err_only.

Lemma parse_v2_metadata_errors root info p r : err_only metainfo_error (parse_v2_metadata root info p r).
Proof.
  assert (forall e, err_only metainfo_error (parse_v2_piece_layer e)).
  { intros [? ?]. unfold parse_v2_piece_layer. err_only_tac. }
  unfold parse_v2_metadata, parse_v2_file_tree, parse_v2_piece_layers. err_only_tac.
Qed.
#[local] Hint Resolve parse_v2_metadata_errors : err_only.

Lemma parse_torrent_root_errors root b r : err_only metainfo_error (parse_torrent_root root b r).
Proof.
  unfold parse_torrent_root, find_info_dict, parse_v2_torrent_root, parse_name, parse_piece_length.
  err_only_tac.
Qed.
End metainfo_errors.

(** ** What they return *)

Section sound.
Context {D : Digests}.

Lemma non_negative_length_Ok v f n : non_negative_length v f = Ok n <-> n = v /\ 0 <= v.
Proof.
  unfold non_negative_length. destruct (Z.ltb_spec v 0); cbn; [split; [done|lia]|].
  split; [by intros [= <-]|by intros [-> _]].
Qed.

(** A [files] entry and the [MetaFile] it describes. *)
Definition file_entry (name : text) (v : Value) (f : MetaFile) : Prop :=
  get_value v (bytes_of "length") ≫= as_int = Some (mf_length f) /\ 0 <= mf_length f /\
  pieces_root f = None /\
  exists vals comps, get_value v (bytes_of "path") ≫= as_list = Some vals /\ vals <> [] /\
    Forall2 (fun p s => as_str_utf8 p = Some s) vals comps /\ path f = name :: comps.

Lemma parse_v1_path vals : forall p0 p,
  try_fold parse_v1_component p0 vals = Ok p ->
  exists comps, Forall2 (fun v s => as_str_utf8 v = Some s) vals comps /\ p = p0 ++ comps.
Proof.
  induction vals as [|v vals IH]; intros p0 p; cbn [try_fold].
  { intros [= <-]. exists []. by rewrite app_nil_r. }
  intros (p1 & H1 & H2)%bind_Ok. unfold parse_v1_component in H1. inv_ok.
  apply IH in H2 as (comps & Hc & ->). eexists (_ :: comps). split; [by constructor|].
  by rewrite <- app_assoc.
Qed.

Lemma parse_v1_file_Ok name paths total out v paths' total' out' :
  parse_v1_file name (paths, total, out) v = Ok (paths', total', out') ->
  exists f, file_entry name v f /\ out' = out ++ [f] /\ total' = total + mf_length f.
Proof.
  unfold parse_v1_file. intros H. inv_ok.
  repeat match goal with
  | H : non_negative_length _ _ = Ok _ |- _ => apply non_negative_length_Ok in H as [-> ?]
  | H : try_fold parse_v1_component _ _ = Ok _ |- _ => apply parse_v1_path in H as (comps & Hc & Hp)
  end. subst.
  eexists (mkMetaFile _ _ _). split; [|split; [reflexivity|done]].
  split; [done|]. split; [done|]. split; [done|].
  match goal with H : get_value v _ ≫= as_list = Some ?vs |- _ => exists vs, comps end.
  split; [done|]. split; [|done]. rewrite <- len_0. lia.
Qed.

Lemma parse_v1_files_loop name items : forall st paths' total' out',
  try_fold (parse_v1_file name) st items = Ok (paths', total', out') ->
  exists fs, Forall2 (file_entry name) items fs /\ out' = st.2 ++ fs /\ total' = st.1.2 + zsum mf_length fs.
Proof.
  induction items as [|v items IH]; intros [[paths total] out] paths' total' out'; cbn [try_fold].
  { intros [= <- <- <-]. exists []. rewrite app_nil_r, zsum_nil. cbn. split; [done|]. split; [done|lia]. }
  intros ([[p1 t1] o1] & H1 & H2)%bind_Ok. apply parse_v1_file_Ok in H1 as (f & Hf & -> & ->).
  apply IH in H2 as (fs & Hfs & -> & ->). exists (f :: fs). rewrite zsum_cons. cbn [fst snd].
  split; [by constructor|]. split; [by rewrite <- app_assoc|lia].
Qed.

(** The v1 files of an [info] dictionary. *)
Definition v1_layout (info : dict) (name : text) (fs : list MetaFile) (multi : bool) : Prop :=
  if multi then
    find_key "length" info = None /\
    exists items, find_key "files" info = Some (List items) /\ Forall2 (file_entry name) items fs
  else exists length, find_key "length" info = Some (Int length) /\ 0 <= length /\
    fs = [mkMetaFile [name] length None].

Lemma parse_v1_files_Ok name info fs total multi :
  parse_v1_files name info = Ok (fs, total, multi) ->
  v1_layout info name fs multi /\ total = zsum mf_length fs /\ unsigned_files fs.
Proof.
  unfold parse_v1_files, v1_layout. destruct (find_key "length" info) as [v|] eqn:El.
  - intros H. inv_ok.
    match goal with H : non_negative_length _ _ = Ok _ |- _ => apply non_negative_length_Ok in H as [-> ?] end.
    destruct v; cbn in *; simplify_eq. rewrite zsum_single.
    split; [by eexists|]. split; [done|]. by repeat constructor.
  - destruct (find_key "files" info) as [v|] eqn:Ef; [|done]. intros H. inv_ok.
    match goal with H : try_fold (parse_v1_file _) _ _ = Ok _ |- _ =>
      apply parse_v1_files_loop in H as (fs' & Hfs & -> & ->) end. cbn [app fst snd].
    destruct v; cbn in *; simplify_eq.
    split; [split; [done|by eexists]|]. split; [done|].
    clear -Hfs. induction Hfs as [|v f l fs' (_ & ? & _) _ IH]; by constructor.
Qed.

Lemma parse_v1_pieces_Ok info ps :
  parse_v1_pieces info = Ok ps -> find_key "pieces" info = Some (Str (concat (map as_bytes ps))).
Proof.
  unfold parse_v1_pieces. intros H. inv_ok. apply mapM_Ok in H.
  match goal with H : _ ≫= as_str = Some ?s |- _ => rename s into bs; apply bind_Some in H as (v & Hv & Hs) end.
  destruct v; cbn in Hs; simplify_eq. rewrite Hv. do 2 f_equal.
  match goal with H : negb _ = false |- _ => apply negb_false_iff, Z.eqb_eq in H; rename H into Hm end.
  assert (length bs = Z.to_nat (len bs / 20) * 20)%nat as Hl.
  { pose proof (Z.div_mod (len bs) 20 ltac:(lia)). pose proof (len_nonneg bs).
    assert (0 <= len bs / 20) by (apply Z.div_pos; lia). unfold len in *. lia. }
  destruct (length_as_chunks 20 bs _ ltac:(lia) Hl) as [_ Hc]. rewrite <- Hc. f_equal.
  clear Hc Hl Hm. induction H as [|c a cs ps Ha _ IH]; [done|]. cbn [map].
  apply copy_from_slice_Ok in Ha as ->. by rewrite IH.
Qed.

Lemma parse_name_Ok info n : parse_name info = Ok n -> get_str info "name" = Some n.
Proof. unfold parse_name. intros H. by inv_ok. Qed.

(** What a parsed record takes over from the document, whatever its version. *)
Record read_common (root info : dict) (m : TorrentMeta) : Prop := mkReadCommon {
  rc_name : get_str info "name" = Some (name m);
  rc_piece_length : get_int info "piece length" = Some (piece_length m);
  rc_private : private m = true <-> get_int info "private" = Some 1;
  rc_announce : announce m = get_str root "announce";
  rc_announce_list : announce_list m = parse_announce_list root;
  rc_webseeds : webseeds m = parse_url_list root;
  rc_comment : comment m = get_str root "comment";
  rc_created_by : created_by m = get_str root "created by";
  rc_creation_date : creation_date m = wrap 64 <$> get_int root "creation date" }.

Lemma parse_private_true info : parse_private info = true <-> get_int info "private" = Some 1.
Proof.
  unfold parse_private. rewrite Z.eqb_eq. destruct (get_int info "private"); cbn; naive_solver lia.
Qed.

Lemma parse_v1_sound root info info_bytes m :
  info_decoded root -> find_key "info" root ≫= as_dict = Some info ->
  parse_v1_torrent_root root info_bytes = Ok m ->
  unsigned m /\ valid_meta m /\ raw_info m = Some info_bytes /\ identity m = V1 (sha1 info_bytes) /\
  v2 m = None /\ read_common root info m /\
  find_key "pieces" info = Some (Str (concat (map as_bytes (pieces m)))) /\
  v1_layout info (name m) (files m) (is_multi_file m).
Proof.
  intros Hw Hi H. unfold parse_v1_torrent_root in H. rewrite Hi in H. cbn [ok_or] in H. rewrite bind_ret in H.
  destruct (Hw info Hi) as [Hwi _].
  apply bind_Ok in H as (n & Hn%parse_name_Ok & H). apply bind_Ok in H as (p & Hp & H).
  apply parse_v1_piece_length_Ok in Hp as [Hp Hpos]; [|done].
  apply bind_Ok in H as (ps & Hps%parse_v1_pieces_Ok & H). cbv zeta in H.
  apply bind_Ok in H as ([[fs t] multi] & (Hl & Ht & Hu)%parse_v1_files_Ok & H).
  apply bind_Ok in H as ([] & _ & H). set (meta := mkMeta _ _ _ _ _ _ _ _ _ _ _ _ _ _ _ _ _) in H.
  apply bind_Ok in H as ([] & Hv & [= <-]).
  assert (unsigned meta) as Hum.
  { split; [cbn; lia|]. split; [|split; [done|done]]. cbn. rewrite Ht. apply zsum_nonneg.
    unfold unsigned_files in Hu. by rewrite Forall_forall in Hu. }
  split; [done|]. split; [by apply validate_Ok in Hv|]. split; [done|]. split; [done|]. split; [done|].
  split; [|done]. split; try done. apply parse_private_true.
Qed.

(** ** The BEP 52 file tree *)

(** The node a path leads to. *)
Fixpoint tree_at (node : dict) (p : list text) : option dict :=
  match p with
  | [] => Some node
  | k :: p => child ← get_value (Dict node) k ≫= as_dict; tree_at child p
  end.

(** The file at a relative path: a node with a properties dictionary. *)
Definition tree_file (node : dict) (rel : list text) (f : MetaFile) : Prop :=
  Forall (fun k => k <> []) rel /\
  exists n props, tree_at node rel = Some n /\ get_value (Dict n) [] = Some (Dict props) /\
    find_key "length" props = Some (Int (mf_length f)) /\ 0 <= mf_length f /\
    (as_bytes <$> pieces_root f) = find_key "pieces root" props ≫= as_str.

Lemma get_value_In d k v : NoDup d.*1 -> get_value (Dict d) k = Some v <-> (k, v) ∈ d.
Proof.
  intros Hn. cbn [get_value]. induction d as [|[k' v'] d IH]; cbn [List.find fst].
  { split; [done|]. by intros ?%not_elem_of_nil. }
  apply NoDup_cons in Hn as [Hk Hn]. specialize (IH Hn). rewrite elem_of_cons.
  destruct (bool_decide (k' = k)) eqn:E.
  - apply bool_decide_eq_true in E as ->. cbn. split; [naive_solver|].
    intros [[= ->]|Hin]; [done|]. exfalso. apply Hk. apply list_elem_of_fmap. by exists (k, v).
  - apply bool_decide_eq_false in E. rewrite IH. naive_solver.
Qed.

Lemma split_node_spec node : forall ps0 cs0 ps cs,
  NoDup node.*1 -> try_fold split_node (ps0, cs0) node = Ok (ps, cs) ->
  cs = cs0 ++ filter (fun kv => kv.1 <> []) node /\
  (forall d, ps = Some d <-> ([], Dict d) ∈ node \/ (ps0 = Some d /\ [] ∉ node.*1)).
Proof.
  induction node as [|[k v] node IH]; intros ps0 cs0 ps cs Hn; cbn [try_fold].
  { intros [= -> ->]. rewrite filter_nil, app_nil_r. split; [done|]. intros d.
    split; [intros ->; right; split; [done|apply not_elem_of_nil]|].
    intros [?%not_elem_of_nil|[? _]]; done. }
  apply NoDup_cons in Hn as [Hk Hn]. intros ([ps1 cs1] & H1 & H2)%bind_Ok.
  unfold split_node in H1. destruct (Z.eqb_spec (len k) 0) as [E|E].
  - apply len_0 in E as ->. apply bind_Ok in H1 as (d0 & ->%ok_or_Ok%as_dict_Some & [= <- <-]).
    apply IH in H2 as [-> Hps]; [|done]. split; [by rewrite filter_cons_False by (intros []; done)|].
    intros d. rewrite Hps, elem_of_cons. split.
    + intros [Hin|[[= ->] _]]; [|by left; left]. exfalso. apply Hk. apply list_elem_of_fmap. by exists ([], Dict d).
    + intros [[[= ->]|Hin]|[_ Hne]]; [by right|by left|]. exfalso. apply Hne. cbn. by left.
  - inv_ok. rewrite len_0 in E. apply IH in H2 as [-> Hps]; [|done].
    rewrite filter_cons_True by done. split; [by rewrite <- app_assoc|].
    intros d. rewrite Hps, elem_of_cons. cbn [fmap list_fmap fst]. rewrite elem_of_cons. naive_solver.
Qed.

Lemma parse_v2_file_Ok ps cs p fs fs' :
  parse_v2_file ps cs p fs = Ok fs' ->
  cs = [] /\ p <> [] /\ exists f, fs' = fs ++ [f] /\ path f = p /\
    find_key "length" ps = Some (Int (mf_length f)) /\ 0 <= mf_length f /\
    (as_bytes <$> pieces_root f) = find_key "pieces root" ps ≫= as_str.
Proof.
  unfold parse_v2_file. intros H. inv_ok.
  repeat match goal with
  | H : bool_decide _ = false |- _ => apply bool_decide_eq_false in H
  | H : non_negative_length _ _ = Ok _ |- _ => apply non_negative_length_Ok in H as [-> ?]
  | H : negb _ = false |- _ => apply negb_false_iff, Z.eqb_eq, len_0 in H
  | H : _ ≫= as_int = Some _ |- _ => apply bind_Some in H as (v & Hv & Hi); destruct v; cbn in Hi; simplify_eq
  end.
  split; [done|]. split; [done|]. eexists. split; [done|]. split; [done|]. cbn [mf_length pieces_root].
  split; [done|]. split; [done|].
  match goal with H : match find_key "pieces root" ps with _ => _ end = _ |- _ => rename H into Hr end.
  destruct (find_key "pieces root" ps) as [v|]; inv_ok; [|done].
  unfold parse_v2_hash_value, parse_v2_hash_bytes in *. inv_ok.
  match goal with H : copy_from_slice _ _ = Ok _ |- _ => apply copy_from_slice_Ok in H end.
  cbn. congruence.
Qed.

Lemma file_ext (f g : MetaFile) :
  path f = path g -> mf_length f = mf_length g ->
  as_bytes <$> pieces_root f = as_bytes <$> pieces_root g -> f = g.
Proof.
  destruct f as [p l r], g as [p' l' r']. cbn. intros -> -> E. f_equal.
  destruct r, r'; cbn in E; simplify_eq; [|done]. f_equal. by apply array_eq.
Qed.

(** The files below a node, by the path from it. *)
Definition files_below (node : dict) (p : list text) (fs new : list MetaFile) (fs' : list MetaFile) : Prop :=
  fs' = fs ++ new /\ forall f, f ∈ new <-> exists rel, path f = p ++ rel /\ tree_file node rel f.

Lemma tree_file_child node k rel f :
  tree_file node (k :: rel) f <->
  k <> [] /\ exists child, get_value (Dict node) k = Some (Dict child) /\ tree_file child rel f.
Proof.
  unfold tree_file. rewrite Forall_cons. cbn [tree_at]. split.
  - intros ((Hk & Hr) & n & props & Hn & H). split; [done|].
    apply bind_Some in Hn as (child & (v & Hv & ->%as_dict_Some)%bind_Some & Hn). eauto 10.
  - intros (Hk & child & Hc & Hr & n & props & Hn & H). split; [done|]. exists n, props.
    rewrite Hc. cbn. done.
Qed.

Lemma children_spec (walk : dict -> list text -> list MetaFile -> outcome (list MetaFile)) p cs :
  (forall k child fs fs', (k, Dict child) ∈ cs -> walk child (p ++ [k]) fs = Ok fs' ->
     exists new, files_below child (p ++ [k]) fs new fs') ->
  forall fs fs',
  try_fold (fun files '(key, value) =>
    _ ← fail_if (negb (utf8_valid key))
          (MalformedTorrent "BEP 52 file-tree path component is not UTF-8");
    _ ← validate_path_component key "BEP 52 file-tree path component";
    child ← ok_or (as_dict value)
          (MalformedTorrent "BEP 52 file-tree entry must be a dictionary");
    walk child (p ++ [key]) files) fs cs = Ok fs' ->
  exists new, fs' = fs ++ new /\ forall f, f ∈ new <->
    exists k child rel, (k, Dict child) ∈ cs /\ path f = p ++ k :: rel /\ tree_file child rel f.
Proof.
  induction cs as [|[k v] cs IH]; intros Hw fs fs'; cbn [try_fold].
  { intros [= <-]. exists []. rewrite app_nil_r. split; [done|]. intros f. split; [by intros ?%not_elem_of_nil|].
    by intros (? & ? & ? & ?%not_elem_of_nil & _). }
  intros (fs1 & H1 & H2)%bind_Ok. inv_ok.
  match goal with H : as_dict _ = Some _ |- _ => apply as_dict_Some in H as -> end.
  destruct (Hw _ _ _ _ ltac:(by left) H1) as (new1 & -> & E1).
  destruct (IH ltac:(intros; eapply Hw; [by right|done]) _ _ H2) as (new2 & -> & E2).
  exists (new1 ++ new2). split; [by rewrite app_assoc|]. intros f. rewrite elem_of_app, E1, E2. split.
  - intros [(rel & Hp & Hf)|(k' & c & rel & Hin & Hp & Hf)].
    + eexists _, _, rel. split; [by left|]. split; [by rewrite Hp, <- app_assoc|done].
    + exists k', c, rel. split; [by right|done].
  - intros (k' & c & rel & [[= -> ->]|Hin]%elem_of_cons & Hp & Hf).
    + left. exists rel. split; [by rewrite Hp, <- app_assoc|done].
    + right. eauto 10.
Qed.

Lemma parse_v2_node_Ok fuel : forall node p fs fs',
  wf (Dict node) -> parse_v2_file_tree_node fuel node p fs = Ok fs' ->
  exists new, files_below node p fs new fs'.
Proof.
  induction fuel as [|fuel IH]; intros node p fs fs' Hw; cbn [parse_v2_file_tree_node]; [done|].
  intros ([ps cs] & Hs & H)%bind_Ok. pose proof (proj1 (proj1 (wf_Dict node) Hw)) as Hn.
  destruct (split_node_spec node None [] ps cs Hn Hs) as [-> Hps]. cbn [app] in H.
  destruct ps as [ps|].
  - apply parse_v2_file_Ok in H as (Hcs & _ & f0 & -> & Hp0 & Hl & H0 & Hr).
    destruct (proj1 (Hps ps) eq_refl) as [Hin|[? _]]; [|done].
    apply (get_value_In node [] (Dict ps) Hn) in Hin. exists [f0]. split; [done|].
    intros f. rewrite list_elem_of_singleton. split.
    + intros ->. exists []. rewrite app_nil_r. split; [done|]. split; [constructor|].
      exists node, ps. done.
    + intros (rel & Hp & Hf). destruct rel as [|k rel].
      * destruct Hf as (_ & n & props & [= <-] & Hpr & Hlen & _ & Hroot). simplify_eq.
        rewrite app_nil_r in Hp. apply file_ext; congruence.
      * apply tree_file_child in Hf as (Hk & child & Hc & _).
        apply get_value_In in Hc; [|done].
        assert ((k, Dict child) ∈ filter (fun kv : list byte * Value => kv.1 <> []) node) as Hx
          by (by apply list_elem_of_filter).
        rewrite Hcs in Hx. by apply not_elem_of_nil in Hx.
  - apply children_spec in H.
    2: { intros k child gs gs' [_ Hin]%list_elem_of_filter Hc. eapply IH; [|done].
         by eapply wf_entry. }
    destruct H as (new & -> & E). exists new. split; [done|]. intros f. rewrite E. split.
    + intros (k & child & rel & [Hk Hin]%list_elem_of_filter & Hp & Hf). exists (k :: rel).
      split; [done|]. apply tree_file_child. split; [done|]. exists child.
      split; [by apply get_value_In|done].
    + intros (rel & Hp & Hf). destruct rel as [|k rel].
      * destruct Hf as (_ & n & props & [= <-] & Hpr & _). apply get_value_In in Hpr; [|done].
        pose proof (proj2 (Hps props) (or_introl Hpr)). done.
      * apply tree_file_child in Hf as (Hk & child & Hc & Hf). exists k, child, rel.
        split; [|done]. apply list_elem_of_filter. split; [done|]. by apply get_value_In in Hc.
Qed.

(** ** BEP 52 metadata *)

Definition layer_entry (e : list byte * Value) (l : V2PieceLayer) : Prop :=
  e = (as_bytes (layer_root l), Str (concat (map as_bytes (hashes l)))).

Definition v2_layout (root info : dict) (v : V2TorrentMeta) : Prop :=
  (exists tree, find_key "file tree" info = Some (Dict tree) /\
     forall f, f ∈ v2_files v <-> tree_file tree (path f) f) /\
  match find_key "piece layers" root with
  | Some layers => piece_layers_verified v = true /\
      exists ls, layers = Dict ls /\ Forall2 layer_entry ls (piece_layers v)
  | None => piece_layers_verified v = false
  end.

Lemma parse_v2_piece_layer_Ok e l : parse_v2_piece_layer e = Ok l -> layer_entry e l.
Proof.
  destruct e as [rb v]. unfold parse_v2_piece_layer, layer_entry, parse_v2_hash_bytes. intros H. inv_ok.
  match goal with H : copy_from_slice 32 rb = Ok _ |- _ => apply copy_from_slice_Ok in H as <- end.
  destruct v as [|bs| |]; cbn in *; simplify_eq. do 2 f_equal.
  match goal with H : mapM _ _ = Ok _ |- _ => apply mapM_Ok in H; rename H into Hm end.
  match goal with H : negb (_ mod 32 =? 0) = false |- _ =>
    apply negb_false_iff, Z.eqb_eq in H; rename H into H32 end.
  match type of H32 with len ?b mod 32 = 0 => rename b into bs end.
  assert (length bs = Z.to_nat (len bs / 32) * 32)%nat as Hl.
  { pose proof (Z.div_mod (len bs) 32 ltac:(lia)). pose proof (len_nonneg bs).
    assert (0 <= len bs / 32) by (apply Z.div_pos; lia). unfold len in *. lia. }
  destruct (length_as_chunks 32 bs _ ltac:(lia) Hl) as [_ Hc]. rewrite <- Hc at 1. f_equal.
  clear -Hm. induction Hm as [|c a cs hs Ha _ IH]; [done|]. cbn [map].
  inv_ok. match goal with H : copy_from_slice _ _ = _ |- _ => apply copy_from_slice_Ok in H as -> end.
  done.
Qed.

Lemma parse_v2_metadata_Ok root info p r v :
  wf (Dict info) -> parse_v2_metadata root info p r = Ok v ->
  valid_v2 v p (zsum mf_length (v2_files v)) /\ 0 < zsum mf_length (v2_files v) /\
  unsigned_files (v2_files v) /\ (r = true -> piece_layers_verified v = true) /\ v2_layout root info v.
Proof.
  intros Hw H. unfold parse_v2_metadata in H.
  apply bind_Ok in H as (u & Hp & H). apply bind_Ok in H as (tree & Ht%ok_or_Ok & H).
  pose proof (find_dict_wf _ _ _ Hw Ht) as Hwt.
  apply bind_Ok in H as (fs & Hfs & H). unfold parse_v2_file_tree in Hfs.
  apply bind_Ok in Hfs as (fs' & Hn & Hfs). inv_ok.
  apply parse_v2_node_Ok in Hn as (new & -> & E); [|done]. cbn [app] in *.
  match goal with H : total_file_length _ _ = Ok ?t |- _ => rename H into Htot; rename t into total end.
  assert (unsigned_files new) as Hu.
  { apply Forall_forall. intros f Hf. apply E in Hf as (rel & _ & _ & n & props & _ & _ & _ & ? & _). done. }
  apply total_file_length_Ok in Htot as [<- Hmax]; [|done]. cbn [v2_files piece_layers_verified].
  match goal with H : validate_v2_metadata _ _ _ = Ok _ |- _ => apply validate_v2_metadata_Ok in H; [|done] end.
  pose proof (zsum_nonneg mf_length new) as Hnn.
  assert (0 <= zsum mf_length new) as Hz.
  { apply Hnn. unfold unsigned_files in Hu. by rewrite Forall_forall in Hu. }
  split; [done|]. split; [lia|]. split; [done|].
  match goal with H : parse_v2_piece_layers _ _ = Ok (?a, ?b) |- _ =>
    rename a into ls; rename b into ver; rename H into Hl end.
  unfold parse_v2_piece_layers in Hl. unfold v2_layout. cbn [v2_files piece_layers_verified piece_layers].
  split.
  - intros ->. destruct (find_key "piece layers" root); inv_ok; done.
  - split.
    + apply bind_Some in Ht as (tv & Htv & ->%as_dict_Some). exists tree. split; [done|].
      intros f. rewrite E. split; [by intros (rel & -> & ?)|eauto].
    + destruct (find_key "piece layers" root) as [lv|]; [|by destruct r; inv_ok].
      inv_ok. match goal with H : as_dict _ = Some _ |- _ => apply as_dict_Some in H as -> end.
      split; [done|]. eexists. split; [done|].
      match goal with H : mapM _ _ = Ok _ |- _ => apply mapM_Ok in H; eapply Forall2_impl; [exact H|] end.
      apply parse_v2_piece_layer_Ok.
Qed.

(** ** The root parser *)

Definition document_read (root info : dict) (info_bytes : list byte) (m : TorrentMeta) : Prop :=
  read_common root info m /\ raw_info m = Some info_bytes /\
  match identity m with
  | Unknown => False
  | V1 h => h = sha1 info_bytes /\ info_hash m = h /\ v2 m = None /\ find_key "meta version" info = None /\
      find_key "pieces" info = Some (Str (concat (map as_bytes (pieces m)))) /\
      v1_layout info (name m) (files m) (is_multi_file m)
  | V2 h => h = sha256 info_bytes /\ info_hash m = ZERO /\ pieces m = [] /\ find_key "meta version" info = Some (Int 2) /\
      exists v, v2 m = Some v /\ files m = v2_files v /\ is_multi_file m = negb (len (v2_files v) =? 1) /\ v2_layout root info v
  | Hybrid h1 h2 => h1 = sha1 info_bytes /\ info_hash m = h1 /\ h2 = sha256 info_bytes /\
      find_key "meta version" info = Some (Int 2) /\
      find_key "pieces" info = Some (Str (concat (map as_bytes (pieces m)))) /\
      v1_layout info (name m) (files m) (is_multi_file m) /\
      exists v, v2 m = Some v /\ v2_layout root info v
  end.

Lemma parse_piece_length_Ok info p : parse_piece_length info = Ok p ->
  get_int info "piece length" = Some p /\ 0 < p <= MAX_PIECE_LENGTH.
Proof. unfold parse_piece_length. intros H. inv_ok. split; [done|lia]. Qed.

Lemma parse_v2_torrent_root_Ok root info info_bytes r m :
  wf (Dict info) -> find_key "meta version" info = Some (Int 2) ->
  parse_v2_torrent_root root info info_bytes r = Ok m ->
  unsigned m /\ requires_v2_data_plane m = true /\ (r = true -> valid_meta m) /\
  document_read root info info_bytes m.
Proof.
  intros Hw Hmv H. unfold parse_v2_torrent_root in H.
  apply bind_Ok in H as (n & Hn%parse_name_Ok & H).
  apply bind_Ok in H as (p & [Hp Hpos]%parse_piece_length_Ok & H).
  apply bind_Ok in H as (u & _ & H). apply bind_Ok in H as (v & Hv & H).
  apply parse_v2_metadata_Ok in Hv as (Hvv & Hz & Hu & Hr & Hl); [|done].
  apply bind_Ok in H as (t & Ht & H). apply total_file_length_Ok in Ht as [<- Ht]; [|done].
  apply bind_Ok in H as (u' & _ & H). cbv zeta in H. set (meta := mkMeta _ _ _ _ _ _ _ _ _ _ _ _ _ _ _ _ _) in H.
  apply bind_Ok in H as (u2 & Hval & [= <-]).
  assert (unsigned meta) as Hum.
  { split; [cbn; lia|]. split; [cbn; lia|]. split; [done|]. by intros v' [= <-]. }
  split; [done|]. split; [done|]. split.
  { intros ->. by apply validate_Ok in Hval. }
  split; [|split; [done|]].
  - split; try done. apply parse_private_true.
  - cbn [identity meta]. do 4 (split; [done|]). by exists v.
Qed.

Lemma parse_torrent_root_Ok root info_bytes r m :
  info_decoded root -> parse_torrent_root root info_bytes r = Ok m ->
  exists info, find_key "info" root = Some (Dict info) /\ unsigned m /\
    (r = true \/ requires_v2_data_plane m = false -> valid_meta m) /\
    document_read root info info_bytes m.
Proof.
  intros Hw H. unfold parse_torrent_root, find_info_dict in H.
  apply bind_Ok in H as (info & Hi%ok_or_Ok & H). destruct (Hw info Hi) as [Hwi _].
  pose proof Hi as (iv & Hiv & ->%as_dict_Some)%bind_Some. exists info. split; [done|].
  destruct (find_key "meta version" info) as [mv|] eqn:Emv.
  2: { destruct (parse_v1_sound root info info_bytes m Hw Hi H) as (H1 & H2 & H3 & H4 & H5 & H6 & H7 & H8).
       split; [done|]. split; [done|]. split; [done|]. split; [done|]. rewrite H4.
       destruct H2 as [_ _ _ _ _ _ Hid]. unfold valid_identity in Hid. rewrite H4 in Hid.
       destruct Hid as (Hi1 & _). by split_and!. }
  apply bind_Ok in H as (mvi & Hmv%ok_or_Ok & H). apply bind_Ok in H as ([] & H2%fail_if_Ok & H).
  apply negb_false_iff, Z.eqb_eq in H2 as ->. destruct mv; cbn in Hmv; simplify_eq. cbv zeta in H.
  destruct (_ || _).
  - apply bind_Ok in H as ([] & _ & H). apply bind_Ok in H as (m1 & H1 & H).
    destruct (parse_v1_sound root info info_bytes m1 Hw Hi H1) as (U1 & V1' & R1 & I1 & N1 & C1 & P1 & L1).
    apply bind_Ok in H as (v & Hv & H). apply parse_v2_metadata_Ok in Hv as (Hvv & Hz & Hu & Hr & Hl); [|done].
    apply bind_Ok in H as ([] & _ & H). apply bind_Ok in H as ([] & Hval & [= <-]).
    destruct U1 as (Ua & Ub & Uc & _). destruct C1.
    assert (unsigned (set_v2 m1 (Hybrid (info_hash m1) (v2_from_info_bencoded info_bytes)) v)) as Hum.
    { split; [done|]. split; [done|]. split; [done|]. by intros v' [= <-]. }
    split; [done|]. split; [intros _; by apply validate_Ok in Hval|].
    split; [by split|]. split; [done|]. cbn [identity set_v2 pieces files is_multi_file name v2 info_hash].
    destruct V1' as [_ _ _ _ _ _ Hid]. unfold valid_identity in Hid. rewrite I1 in Hid.
    destruct Hid as (<- & _). do 6 (split; [done|]). by exists v.
  - destruct (parse_v2_torrent_root_Ok _ _ _ _ _ Hwi Emv H) as (H1 & H2 & H3 & H4).
    split; [done|]. split; [|done]. intros [->|?]; [auto|congruence].
Qed.
End sound.

(** ** The entry points *)

Section entry.
Context {D : Digests}.

Lemma decode_sound_dict bytes root :
  decode bytes = Ok (Dict root) -> info_decoded root.
Proof. intros [_ (Hw & Hd & _)]%decode_sound. by apply decoded_info. Qed.

Lemma find_app_key key d d' :
  find_key key (d ++ d') = match find_key key d with Some v => Some v | None => find_key key d' end.
Proof.
  unfold find_key. induction d as [|[k v] d IH]; [done|]. cbn [app List.find fst].
  by destruct (bool_decide _).
Qed.

Lemma magnet_root_info info trackers :
  find_key "info" (magnet_root_with_trackers info trackers) = Some info.
Proof.
  unfold magnet_root_with_trackers. rewrite find_app_key.
  assert (find_key "info" (match trackers with [] => [] | p :: _ => [(bytes_of "announce", Str p)] end) = None)
    as -> by by destruct trackers.
  rewrite find_app_key. by destruct (1 <? len trackers).
Qed.

Lemma decode_info_Ok b v : decode_info b = Ok v -> exists info, v = Dict info /\ decode b = Ok (Dict info).
Proof.
  unfold decode_info. intros H. inv_ok.
  match goal with H : bool_decide _ = false |- _ => apply bool_decide_eq_false in H end.
  destruct v; try done. by eexists.
Qed.

Lemma magnet_root_decoded b info trackers extra :
  decode b = Ok (Dict info) -> info_decoded (magnet_root_with_trackers (Dict info) trackers ++ extra).
Proof.
  intros [_ (Hw & Hd & _)]%decode_sound info' H.
  rewrite find_app_key, magnet_root_info in H. cbn in H. by injection H as <-.
Qed.

Lemma decode_info_returns b : returns (decode_info b).
Proof.
  unfold decode_info. apply bind_returns; [|intros v _; returns_tac].
  unfold decode. apply bind_returns; [apply decode_prefix_returns|]. intros [v n] _. returns_tac.
Qed.

Lemma parse_error_weaken {A} (m : outcome A) : err_only metainfo_error m -> err_only parse_error m.
Proof. apply err_only_weaken. by right. Qed.

Lemma decode_info_errors b : err_only parse_error (decode_info b).
Proof.
  unfold decode_info. apply err_only_bind.
  - eapply err_only_weaken; [|apply decode_errors]. by left.
  - intros v. apply parse_error_weaken. err_only_tac.
Qed.

Lemma concat_arrays_inj {n} (hs hs' : list (array n)) :
  (0 < n)%nat -> concat (map as_bytes hs) = concat (map as_bytes hs') -> hs = hs'.
Proof.
  intros Hn. revert hs'. induction hs as [|h hs IH]; intros [|h' hs'] E; cbn [map concat] in E.
  - done.
  - apply (f_equal length) in E. rewrite length_app, array_length in E. cbn in E. lia.
  - apply (f_equal length) in E. rewrite length_app, array_length in E. cbn in E. lia.
  - apply app_inj_1 in E as [Eh Et]; [|by rewrite !array_length].
    f_equal; [by apply array_eq|by apply IH].
Qed.

Lemma layer_entries layers parsed :
  Forall2 layer_entry (map (fun layer =>
    (as_bytes (layer_root layer), Str (concat (map as_bytes (hashes layer))))) layers) parsed ->
  parsed = layers.
Proof.
  revert parsed. induction layers as [|l layers IH]; intros parsed H; cbn [map] in H.
  { by apply Forall2_nil_inv_l in H. }
  apply Forall2_cons_inv_l in H as (p & ps & Hp & Hps & ->). f_equal; [|by apply IH].
  unfold layer_entry in Hp. injection Hp as Hr Hh. destruct l as [r hs], p as [r' hs']. cbn in *.
  apply concat_arrays_inj in Hh as ->; [|lia]. f_equal. by apply array_eq.
Qed.

Lemma magnet_root_no_layers info trackers :
  find_key "piece layers" (magnet_root_with_trackers info trackers) = None.
Proof.
  unfold magnet_root_with_trackers. rewrite find_app_key.
  assert (find_key "piece layers" (match trackers with [] => [] | p :: _ => [(bytes_of "announce", Str p)] end) = None)
    as -> by by destruct trackers.
  rewrite find_app_key. by destruct (1 <? len trackers).
Qed.

(** On every input the parsers of documents and of BEP 9 dictionaries return
    a value or an error — no panic, no missing fuel — and the error is always one
    of bencode or metainfo. *)
Theorem parsers_return_parse_errors bytes trackers layers :
  let ok A (m : outcome A) := returns m /\ err_only parse_error m in
  ok _ (parse_torrent bytes) /\ ok _ (parse_info_dict bytes trackers) /\
  ok _ (inspect_bep9_v2_info bytes) /\ ok _ (parse_info_dict_with_piece_layers bytes trackers layers).
Proof.
  intros ok.
  assert (forall A (k : Value -> outcome A),
    (forall info, decode bytes = Ok (Dict info) -> returns (k (Dict info))) ->
    (forall v, err_only metainfo_error (k v)) -> ok _ (v ← decode_info bytes; k v)) as Hinfo.
  { intros A k Hr He. split.
    - apply bind_returns; [apply decode_info_returns|]. intros v (info & -> & E)%decode_info_Ok. auto.
    - apply err_only_bind; [apply decode_info_errors|]. intros v. by apply parse_error_weaken. }
  split; [|split; [|split]].
  - split; unfold parse_torrent.
    + apply bind_returns.
      { unfold decode. apply bind_returns; [apply decode_prefix_returns|]. intros [v n] _. returns_tac. }
      intros v Hv. apply bind_returns; [auto|intros root ->%ok_or_Ok%as_dict_Some].
      apply bind_returns; [apply extract_value_bytes_returns|intros ib _].
      apply bind_returns; [auto|intros b _]. apply parse_torrent_root_returns.
      by eapply decode_sound_dict.
    + apply err_only_bind; [eapply err_only_weaken; [|apply decode_errors]; by left|].
      intros v. apply parse_error_weaken.
      pose proof parse_torrent_root_errors. err_only_tac.
  - apply Hinfo.
    + intros info E. apply bind_returns; [|intros m _; returns_tac].
      apply parse_torrent_root_returns.
      pose proof (magnet_root_decoded _ _ trackers [] E) as Hd. by rewrite app_nil_r in Hd.
    + intros v. pose proof parse_torrent_root_errors. err_only_tac.
  - apply Hinfo.
    + intros info E. apply bind_returns.
      * apply parse_torrent_root_returns. exact (magnet_root_decoded _ _ [] [] E).
      * intros m _. destruct (v2_info_hash _); returns_tac.
    + intros v. pose proof parse_torrent_root_errors. err_only_tac.
  - apply Hinfo.
    + intros info E. apply parse_torrent_root_returns. by apply (magnet_root_decoded bytes).
    + intros v. apply parse_torrent_root_errors.
Qed.

Lemma info_dict_sound bytes trackers m :
  parse_info_dict bytes trackers = Ok m ->
  valid_meta m /\ requires_v2_data_plane m = false /\ exists info, decode bytes = Ok (Dict info) /\
    document_read (magnet_root_with_trackers (Dict info) trackers) info bytes m.
Proof.
  intros H.
  unfold parse_info_dict in H. apply bind_Ok in H as (v & (info & -> & E)%decode_info_Ok & H).
  apply bind_Ok in H as (m' & H & H'). inv_ok.
  apply parse_torrent_root_Ok in H as (info' & Hi & Hu & Hval & Hdoc).
  2: { pose proof (magnet_root_decoded _ _ trackers [] E) as Hd. by rewrite app_nil_r in Hd. }
  rewrite magnet_root_info in Hi. injection Hi as <-. split; [auto|]. split; [done|]. by exists info.
Qed.

(** The root a magnet download parses: the dictionary, the trackers, the fetched layers. *)
Definition layered_root (info : dict) (trackers : list text) (layers : list V2PieceLayer) : dict :=
  magnet_root_with_trackers (Dict info) trackers
  ++ [(bytes_of "piece layers", Dict (map (fun layer =>
         (as_bytes (layer_root layer), Str (concat (map as_bytes (hashes layer))))) layers))].

Lemma info_dict_layers_sound bytes trackers layers m :
  parse_info_dict_with_piece_layers bytes trackers layers = Ok m ->
  valid_meta m /\ exists info, decode bytes = Ok (Dict info) /\
    document_read (layered_root info trackers layers) info bytes m /\
    forall v, v2 m = Some v -> piece_layers v = layers.
Proof.
  intros H.
  unfold parse_info_dict_with_piece_layers in H.
  apply bind_Ok in H as (v & (info & -> & E)%decode_info_Ok & H).
  apply parse_torrent_root_Ok in H as (info' & Hi & Hu & Hval & Hdoc); [|by apply (magnet_root_decoded bytes)].
  rewrite find_app_key, magnet_root_info in Hi. injection Hi as <-.
  split; [auto|]. exists info. split; [done|]. split; [exact Hdoc|]. destruct Hdoc as (_ & Hraw & Hid). intros w Hw.
  assert (forall w', v2 m = Some w' ->
    v2_layout (layered_root info trackers layers) info w' -> piece_layers w' = layers) as Hlay.
  { intros w' _ [_ Hl]. unfold layered_root in Hl. rewrite find_app_key, magnet_root_no_layers in Hl.
    destruct Hl as (_ & ls & [= <-] & Hf). by apply layer_entries. }
  destruct (identity m) eqn:Em; [done| | |].
  + destruct Hval as [_ _ _ _ _ _ Hi]; [by left|]. unfold valid_identity in Hi. rewrite Em in Hi.
    destruct Hi as (_ & Hn & _). congruence.
  + destruct Hid as (_ & _ & _ & _ & w' & Hw' & _ & _ & Hl). simplify_eq. eauto.
  + destruct Hid as (_ & _ & _ & _ & _ & _ & w' & Hw' & Hl). simplify_eq. eauto.
Qed.

(** C6: a record any parser returns is executable metadata ([valid_meta]: exactly
    what [validate] accepts, so safe distinct paths, exact piece counts, verified
    piece layers), its identity is explicit and is the SHA-1 / SHA-256 of the
    [info] bytes it retains, which are the bytes of the [info] entry of the decoded
    document, and every field of it is read off the document ([document_read]): name,
    piece length, private flag, piece hashes, the v1 files in order with their paths and
    lengths, exactly the files of the BEP 52 tree, the layers, trackers, web seeds,
    comment, author and the creation date modulo 2^64.  For the two parsers of a magnet
    the document is the info dictionary with the magnet's trackers and, for the second,
    the fetched layers, which are the record's layers. *)
Theorem parsed_metadata_valid bytes trackers layers m :
  (parse_torrent bytes = Ok m ->
    valid_meta m /\ exists root info, decode bytes = Ok (Dict root) /\
      find_key "info" root = Some (Dict info) /\ document_read root info (print (Dict info)) m) /\
  (parse_info_dict bytes trackers = Ok m ->
    valid_meta m /\ requires_v2_data_plane m = false /\ exists info, decode bytes = Ok (Dict info) /\
      document_read (magnet_root_with_trackers (Dict info) trackers) info bytes m) /\
  (parse_info_dict_with_piece_layers bytes trackers layers = Ok m ->
    valid_meta m /\ exists info, decode bytes = Ok (Dict info) /\
      document_read (layered_root info trackers layers) info bytes m /\
      forall v, v2 m = Some v -> piece_layers v = layers).
Proof.
  split; [|split]; intros H.
  - unfold parse_torrent in H. apply bind_Ok in H as (v & Hv & H).
    apply bind_Ok in H as (root & ->%ok_or_Ok%as_dict_Some & H).
    rewrite (extract_value_bytes_sound _ _ _ Hv), bind_ret in H.
    apply bind_Ok in H as (ib & Hib%ok_or_Ok & H).
    apply parse_torrent_root_Ok in H as (info & Hi & Hu & Hval & Hdoc); [|by eapply decode_sound_dict].
    split; [auto|]. exists root, info. split; [done|]. split; [done|].
    rewrite <- find_key_get, Hi in Hib. cbn [fmap option_fmap option_map] in Hib. by injection Hib as <-.
  - by apply info_dict_sound.
  - by apply (info_dict_layers_sound bytes trackers).
Qed.
End entry.

(** A v1 document with one file of three bytes. *)
Definition sample_document : text :=
  bytes_of "d4:infod6:lengthi3e4:name1:a12:piece lengthi2e6:pieces40:0123456789abcdefghij0123456789abcdefghijee".

Lemma parsed_metadata_valid_witness : exists m,
  @parse_torrent toy_digests sample_document = Ok m /\ @valid_meta toy_digests m /\
  exists root info, decode sample_document = Ok (Dict root) /\ find_key "info" root = Some (Dict info).
Proof.
  destruct (@parse_torrent toy_digests sample_document) as [m| | |] eqn:E; [|vm_compute in E; discriminate E..].
  exists m. split; [done|].
  destruct (proj1 (@parsed_metadata_valid toy_digests sample_document [] [] m) E) as (Hm & root & info & H1 & H2 & _).
  eauto.
Defined.
