(* ===== verification/MetaBuild.v ===== *)
(** * Building and reading metadata: [crates/swarmotter-core/src/meta.rs]

    The builders of small torrents and their theorem: a built torrent parses back
    to what it was built from.  The bounded readers are in [MetaFile]. *)

From S2P Require Import Prelude Text Bencode BencodeCorrect Hash Merkle Meta MetaParse MetaCorrect ParseCorrect.

Local Open Scope byte_scope.
Local Open Scope Z_scope.

(** ** Builders *)

Definition write_str (out s : list byte) : list byte := out ++ print_dec (len s) ++ [":"%byte] ++ s.
Definition write_int (out : list byte) (n : Z) : list byte :=
  out ++ ["i"%byte] ++ print_dec n ++ ["e"%byte].

Definition write_webseeds (out : list byte) (webseeds : list text) : list byte :=
  match webseeds with
  | [] => out
  | [webseed] => write_str (write_str out (bytes_of "url-list")) webseed
  | _ => foldl write_str (write_str out (bytes_of "url-list") ++ ["l"%byte]) webseeds ++ ["e"%byte]
  end.

Section build.
Context {D : Digests}.

(** [while offset < content.len()]: with a zero piece length the loop does not
    advance. *)
Fixpoint hash_pieces (fuel : nat) (content : list byte) (piece_length offset : Z) (pieces : list byte)
  : outcome (list byte) :=
  match fuel with
  | O => OutOfFuel
  | S fuel =>
      if offset <? len content then
        let end_ := Z.min (wrap 64 (offset + piece_length)) (len content) in
        s ← slice content offset end_;
        hash_pieces fuel content piece_length end_ (pieces ++ as_bytes (sha1 s))
      else Ok pieces
  end.

Definition write_announce (out : list byte) (announce : option text) : list byte :=
  match announce with
  | Some a => write_str (write_str out (bytes_of "announce")) a
  | None => out
  end.

Definition build_single_file_torrent_with_webseeds (name : text) (content : list byte)
    (piece_length : Z) (announce : option text) (private : bool) (webseeds : list text)
  : outcome (list byte) :=
  pieces ← hash_pieces (S (length content)) content piece_length 0 [];
  let pieces := if len content =? 0 then pieces ++ as_bytes (sha1 []) else pieces in
  let out := write_announce ["d"%byte] announce in
  let out := write_str out (bytes_of "info") in
  let info := ["d"%byte] in
  let info := write_int (write_str info (bytes_of "length")) (len content) in
  let info := write_str (write_str info (bytes_of "name")) name in
  let info := write_int (write_str info (bytes_of "piece length")) piece_length in
  let info := write_str (write_str info (bytes_of "pieces")) pieces in
  let info := if private then write_int (write_str info (bytes_of "private")) 1 else info in
  let info := info ++ ["e"%byte] in
  Ok (write_webseeds (out ++ info) webseeds ++ ["e"%byte]).

Definition build_single_file_torrent (name : text) (content : list byte) (piece_length : Z)
    (announce : option text) (private : bool) : outcome (list byte) :=
  build_single_file_torrent_with_webseeds name content piece_length announce private [].

Definition write_file (info : list byte) (file : list text * Z) : list byte :=
  let '(path, length) := file in
  let info := info ++ ["d"%byte] in
  let info := write_int (write_str info (bytes_of "length")) length in
  let info := write_str info (bytes_of "path") ++ ["l"%byte] in
  foldl write_str info path ++ ["e"%byte] ++ ["e"%byte].

(** [assert_eq!(files.len(), contents.len())] panics. *)
Definition build_multi_file_torrent_with_webseeds (name : text) (files : list (list text * Z))
    (contents : list (list byte)) (piece_length : Z) (announce : option text) (webseeds : list text)
  : outcome (list byte) :=
  if negb (len files =? len contents) then Panic
  else
    let all := concat contents in
    pieces ← hash_pieces (S (length all)) all piece_length 0 [];
    let out := write_announce ["d"%byte] announce in
    let out := write_str out (bytes_of "info") in
    let info := ["d"%byte] in
    let info := write_str (write_str info (bytes_of "name")) name in
    let info := write_int (write_str info (bytes_of "piece length")) piece_length in
    let info := write_str (write_str info (bytes_of "pieces")) pieces in
    let info := write_str info (bytes_of "files") ++ ["l"%byte] in
    let info := foldl write_file info files ++ ["e"%byte] ++ ["e"%byte] in
    Ok (write_webseeds (out ++ info) webseeds ++ ["e"%byte]).

Definition build_multi_file_torrent (name : text) (files : list (list text * Z))
    (contents : list (list byte)) (piece_length : Z) (announce : option text) : outcome (list byte) :=
  build_multi_file_torrent_with_webseeds name files contents piece_length announce [].
End build.

(** ** The text a builder writes is the text of a value *)

Lemma write_str_print out s : write_str out s = out ++ print (Str s).
Proof. unfold write_str. cbn [print]. unfold print_str. done. Qed.

Lemma write_int_print out n : 0 <= n -> write_int out n = out ++ print (Int n).
Proof.
  intros Hn. unfold write_int. cbn [print]. unfold print_i64.
  rewrite (proj2 (Z.ltb_ge _ _)) by done. done.
Qed.

Lemma write_strs_print out l : foldl write_str out l = out ++ print_items (map Str l).
Proof.
  revert out. induction l as [|s l IH]; intros out; cbn [foldl map].
  { by rewrite app_nil_r. }
  rewrite IH, write_str_print. unfold print_items. cbn [map concat]. by rewrite <- app_assoc.
Qed.

Definition webseeds_entry (webseeds : list text) : dict :=
  match webseeds with
  | [] => []
  | [w] => [(bytes_of "url-list", Str w)]
  | _ => [(bytes_of "url-list", List (map Str webseeds))]
  end.

Lemma write_webseeds_print out webseeds :
  write_webseeds out webseeds = out ++ print_entries (webseeds_entry webseeds).
Proof.
  unfold write_webseeds, webseeds_entry, print_entries.
  destruct webseeds as [|w [|w' ws]]; cbn [map concat fst snd].
  - by rewrite app_nil_r.
  - rewrite !write_str_print, app_nil_r, <- app_assoc. done.
  - rewrite write_strs_print, write_str_print, app_nil_r.
    change (print (List (map Str (w :: w' :: ws))))
      with ("l"%byte :: print_items (map Str (w :: w' :: ws)) ++ ["e"%byte]).
    rewrite <- !app_assoc. done.
Qed.

Definition announce_entry (announce : option text) : dict :=
  match announce with Some a => [(bytes_of "announce", Str a)] | None => [] end.

Definition single_info (name : text) (length piece_length : Z) (pieces : list byte) (private : bool) : dict :=
  [(bytes_of "length", Int length); (bytes_of "name", Str name);
   (bytes_of "piece length", Int piece_length); (bytes_of "pieces", Str pieces)]
  ++ (if private then [(bytes_of "private", Int 1)] else []).

Definition built_root (announce : option text) (info : dict) (webseeds : list text) : dict :=
  announce_entry announce ++ [(bytes_of "info", Dict info)] ++ webseeds_entry webseeds.

Lemma print_entries_app d d' : print_entries (d ++ d') = print_entries d ++ print_entries d'.
Proof. unfold print_entries. by rewrite map_app, concat_app. Qed.

Lemma print_Dict d : print (Dict d) = "d"%byte :: print_entries d ++ ["e"%byte].
Proof. done. Qed.

Section built.
Context {D : Digests}.

Lemma hash_pieces_eq content p : 0 < p -> p + len content < 2 ^ 64 ->
  forall fuel offset acc, 0 <= offset <= len content ->
  len content - offset < Z.of_nat fuel ->
  hash_pieces fuel content p offset acc
  = Ok (acc ++ concat (map (fun s => as_bytes (sha1 s)) (chunks (Z.to_nat p) (rest content offset)))).
Proof.
  intros Hp Hb. induction fuel as [|fuel IH]; intros offset acc Ho Hf; [lia|]. cbn [hash_pieces].
  destruct (Z.ltb_spec offset (len content)).
  - rewrite wrap_small by (unfold in_width; lia).
    rewrite slice_rest by lia. rewrite bind_ret, IH by lia.
    assert (rest content offset <> []) as Hne.
    { intros E. apply (f_equal len) in E. rewrite len_rest in E by lia. change (len []) with 0 in E. lia. }
    rewrite (chunks_step _ (rest content offset)) by (done || lia).
    pose proof (len_rest content offset ltac:(lia)) as Hl.
    assert (take (Z.to_nat (Z.min (offset + p) (len content) - offset)) (rest content offset)
      = take (Z.to_nat p) (rest content offset)) as ->.
    { destruct (Z.le_gt_cases (offset + p) (len content)).
      - replace (Z.min (offset + p) (len content) - offset) with p by lia. done.
      - unfold len in *. rewrite !take_ge by lia. done. }
    assert (rest content (Z.min (offset + p) (len content)) = drop (Z.to_nat p) (rest content offset)) as ->.
    { destruct (Z.le_gt_cases (offset + p) (len content)).
      - rewrite Z.min_l by lia. by rewrite rest_add by lia.
      - rewrite Z.min_r by lia. rewrite drop_ge by (unfold len in *; lia).
        unfold rest. apply drop_ge. unfold len. lia. }
    cbn [map concat]. by rewrite <- app_assoc.
  - assert (offset = len content) as -> by lia. f_equal.
    replace (rest content (len content)) with (@nil byte); [by rewrite app_nil_r|].
    symmetry. unfold rest. apply drop_ge. unfold len. lia.
Qed.

Lemma build_single_print name content p announce private webseeds :
  0 < p -> p + len content < 2 ^ 64 -> content <> [] ->
  build_single_file_torrent_with_webseeds name content p announce private webseeds
  = Ok (print (Dict (built_root announce
      (single_info name (len content) p
        (concat (map (fun s => as_bytes (sha1 s)) (chunks (Z.to_nat p) content))) private) webseeds))).
Proof.
  intros Hp Hb Hne. unfold build_single_file_torrent_with_webseeds.
  rewrite (hash_pieces_eq content p Hp Hb) by (pose proof (len_nonneg content); unfold len in *; lia).
  rewrite bind_ret, rest_0. cbn [app]. rewrite (proj2 (Z.eqb_neq _ _)) by by rewrite len_0.
  set (ps := concat _). f_equal. rewrite write_webseeds_print, print_Dict. unfold built_root.
  rewrite !print_entries_app.
  assert (forall out a, write_announce out a = out ++ print_entries (announce_entry a)) as Ha.
  { intros out [a|]; unfold print_entries; cbn; [|by rewrite app_nil_r].
    by rewrite !write_str_print, app_nil_r, <- app_assoc. }
  rewrite Ha, (write_str_print _ (bytes_of "info")).
  set (si := single_info _ _ _ _ _).
  assert (print_entries [(bytes_of "info", Dict si)] = print (Str (bytes_of "info")) ++ print (Dict si)) as ->.
  { unfold print_entries. cbn [map concat fst snd]. by rewrite app_nil_r. }
  match goal with |- context [(_ ++ print (Str (bytes_of "info"))) ++ ?info] =>
    assert (info = print (Dict si)) as -> end.
  { pose proof (len_nonneg content). rewrite print_Dict. unfold si, single_info. rewrite print_entries_app.
    destruct private; rewrite ?write_str_print, ?write_int_print by lia;
      unfold print_entries; cbn [map concat fst snd];
      rewrite ?app_nil_r, <- ?app_assoc; cbn [app]; rewrite <- ?app_assoc; done. }
  rewrite <- !app_assoc. cbn [app]. by rewrite <- ?app_assoc.
Qed.

(** ** Parsing what was built *)

Lemma as_chunks_concat {A} k (cs : list (list A)) :
  (0 < k)%nat -> Forall (fun c => length c = k) cs -> as_chunks k (concat cs) = cs.
Proof.
  intros Hk Hc. unfold as_chunks.
  assert (length cs <= length (concat cs))%nat as Hf.
  { induction Hc as [|c cs Hc _ IH]; cbn [concat]; [done|]. rewrite length_app. cbn [length]. lia. }
  revert Hf. generalize (length (concat cs)) as f. induction Hc as [|c cs Hc _ IH]; intros f Hf; cbn [concat].
  { destruct f; [done|]. cbn [as_chunks_fuel length]. by rewrite (proj2 (Nat.ltb_lt _ _)). }
  destruct f as [|f]; [cbn in Hf; lia|]. cbn [as_chunks_fuel]. rewrite length_app.
  rewrite (proj2 (Nat.ltb_ge _ _)) by lia. rewrite take_app_length', drop_app_length' by done.
  f_equal. apply IH. cbn in Hf. lia.
Qed.

(** Records of [k] bytes each. *)
Lemma compact_records {A} k (dec : list byte -> A) (enc : A -> list byte) l :
  (0 < k)%nat -> Forall (fun a => length (enc a) = k /\ dec (enc a) = a) l ->
  map dec (as_chunks k (concat (map enc l))) = l.
Proof.
  intros Hk Hl. rewrite as_chunks_concat; [|done|].
  - induction Hl as [|a l [_ Ha] _ IH]; [done|]. cbn [map]. by rewrite IH, Ha.
  - induction Hl as [|a l [Ha _] _ IH]; by constructor.
Qed.

Lemma len_concat_20 (hs : list (array 20)) : len (concat (map as_bytes hs)) = 20 * len hs.
Proof.
  induction hs as [|h hs IH]; [done|]. cbn [map concat]. rewrite len_app, len_cons, IH, array_len. lia.
Qed.

Lemma parse_v1_pieces_concat info (hs : list (array 20)) :
  find_key "pieces" info = Some (Str (concat (map as_bytes hs))) -> len hs <= MAX_TORRENT_PIECES ->
  parse_v1_pieces info = Ok hs.
Proof.
  intros Hf Hn. unfold parse_v1_pieces. rewrite Hf. cbn [mbind option_bind as_str ok_or].
  rewrite bind_ret, len_concat_20.
  assert (20 * len hs mod 20 = 0) as -> by (rewrite Z.mul_comm; apply Z.mod_mul; lia).
  assert (20 * len hs / 20 = len hs) as -> by (rewrite Z.mul_comm; apply Z.div_mul; lia).
  rewrite (proj2 (Z.ltb_ge _ _)) by done. ok_simpl. cbn [Z.eqb negb fail_if]. ok_simpl.
  rewrite as_chunks_concat; [|lia|].
  - apply mapM_Ok. clear. induction hs as [|h hs IH]; constructor; [apply array_bytes|done].
  - apply Forall_forall. intros c (h & -> & _)%list_elem_of_fmap. apply array_length.
Qed.

Lemma find_single_info name n p ps private :
  let info := single_info name n p ps private in
  find_key "length" info = Some (Int n) /\ find_key "name" info = Some (Str name) /\
  find_key "piece length" info = Some (Int p) /\ find_key "pieces" info = Some (Str ps) /\
  find_key "meta version" info = None /\ parse_private info = private.
Proof. by destruct private. Qed.

Lemma find_built_root announce info webseeds :
  let root := built_root announce info webseeds in
  find_key "info" root = Some (Dict info) /\ find_key "announce" root = Str <$> announce /\
  find_key "announce-list" root = None /\ find_key "comment" root = None /\
  find_key "created by" root = None /\ find_key "creation date" root = None /\
  find_key "url-list" root = match webseeds with
                             | [] => None | [w] => Some (Str w) | _ => Some (List (map Str webseeds)) end.
Proof. by destruct announce, webseeds as [|? [|? ?]]. Qed.

Lemma parse_url_list_built announce info webseeds :
  Forall (fun w => utf8_valid w = true) webseeds ->
  parse_url_list (built_root announce info webseeds) = retain_new ∅ webseeds.
Proof.
  intros Hw. unfold parse_url_list, get_str. destruct (find_built_root announce info webseeds) as (_ & _ & _ & _ & _ & _ & ->).
  assert (omap as_str_utf8 (map Str webseeds) = webseeds) as E.
  { induction Hw as [|w ws Hw _ IH]; [done|]. cbn. rewrite Hw. cbn. f_equal. exact IH. }
  destruct webseeds as [|w [|w' ws]]; [done| |by rewrite E].
  cbn [mbind option_bind as_str_utf8]. apply Forall_cons in Hw as [-> _]. done.
Qed.

Lemma single_info_limits name n p ps private :
  0 <= n <= i64_max -> 0 <= p <= i64_max ->
  wf (Dict (single_info name n p ps private)) /\ vdepth (Dict (single_info name n p ps private)) = 1 /\
  vnodes (Dict (single_info name n p ps private)) <= 11.
Proof.
  intros Hn Hp. assert (i64_min <= n <= i64_max /\ i64_min <= p <= i64_max) as [? ?] by (unfold i64_min; lia).
  split; [|by destruct private]. apply wf_Dict. split.
  - apply (bool_decide_eq_true_1 _). by destruct private.
  - destruct private; unfold single_info; cbn [app]; repeat apply Forall_cons_2;
      first [apply Forall_nil_2 | done].
Qed.

Lemma built_root_limits announce info webseeds :
  wf (Dict info) -> vdepth (Dict info) = 1 -> vnodes (Dict info) <= 11 -> len webseeds <= 200000 ->
  wf (Dict (built_root announce info webseeds)) /\
  vdepth (Dict (built_root announce info webseeds)) <= MAX_BENCODE_DEPTH /\
  vnodes (Dict (built_root announce info webseeds)) <= MAX_BENCODE_NODES.
Proof.
  intros Hw Hd Hn Hl. assert (forall l, wf (List (map Str l)) /\ vdepth (List (map Str l)) <= 1 /\
    vnodes (List (map Str l)) = 1 + len l) as Hlist.
  { intros l. split; [|split].
    - apply wf_List, Forall_map, Forall_forall. done.
    - apply vdepth_List; [done|]. apply Forall_map, Forall_forall. done.
    - change (1 + items_nodes (map Str l) = 1 + len l). f_equal.
      induction l as [|s l IH]; [done|]. rewrite len_cons, <- IH. done. }
  split; [|split].
  - apply wf_Dict. split.
    + apply (bool_decide_eq_true_1 _). by destruct announce, webseeds as [|? [|? ?]].
    + unfold built_root, announce_entry, webseeds_entry. apply Forall_app. split; [by destruct announce; repeat constructor|].
      constructor; [done|]. destruct webseeds as [|w [|w' ws]]; [constructor|by repeat constructor|].
      constructor; [apply Hlist|constructor].
  - apply vdepth_Dict; [done|]. unfold built_root, announce_entry, webseeds_entry.
    apply Forall_app. split; [by destruct announce; repeat constructor|].
    constructor; [cbn [snd]; rewrite Hd; done|].
    destruct webseeds as [|w [|w' ws]]; [constructor|by repeat constructor|].
    constructor; [|constructor]. cbn [snd]. pose proof (Hlist (w :: w' :: ws)) as (_ & ? & _).
    unfold MAX_BENCODE_DEPTH. lia.
  - change (1 + entries_nodes (built_root announce info webseeds) <= MAX_BENCODE_NODES).
    assert (entries_nodes (built_root announce info webseeds) <= 2 + 1 + 11 + 2 + len webseeds); [|unfold MAX_BENCODE_NODES; lia].
    unfold built_root. assert (forall d d', entries_nodes (d ++ d') = entries_nodes d + entries_nodes d') as Happ.
    { intros d d'. induction d as [|kv d IH]; [done|]. cbn [app]. unfold entries_nodes in *. cbn [foldr]. lia. }
    rewrite !Happ. assert (entries_nodes (announce_entry announce) <= 2) by by destruct announce.
    assert (entries_nodes [(bytes_of "info", Dict info)] = 1 + vnodes (Dict info)) as ->.
    { unfold entries_nodes. cbn [foldr snd]. lia. }
    assert (entries_nodes (webseeds_entry webseeds) <= 2 + len webseeds); [|lia].
    pose proof (len_nonneg webseeds).
    destruct webseeds as [|w [|w' ws]]; [cbn; lia|cbn; lia|]. unfold entries_nodes, webseeds_entry. cbn [foldr snd].
    pose proof (Hlist (w :: w' :: ws)) as (_ & _ & ->). lia.
Qed.

(** The record a single-file torrent stands for. *)
Definition single_meta (name : text) (content : list byte) (p : Z) (announce : option text)
    (private : bool) (webseeds : list text) (info_bytes : list byte) : TorrentMeta :=
  mkMeta (sha1 info_bytes) (V1 (sha1 info_bytes)) name p (map sha1 (chunks (Z.to_nat p) content))
    [mkMetaFile [name] (len content) None] (len content) private announce [] (retain_new ∅ webseeds)
    None None None false None (Some info_bytes).

Lemma single_meta_valid name content p announce private webseeds info_bytes :
  content <> [] -> 0 < p <= MAX_PIECE_LENGTH -> safe_component name ->
  div_ceil (len content) p <= MAX_TORRENT_PIECES -> len info_bytes <= MAX_TORRENT_METADATA_BYTES ->
  validate (single_meta name content p announce private webseeds info_bytes) = Ok ().
Proof.
  intros Hne Hp Hn Hd Hs. pose proof (len_nonneg content). rewrite <- len_0 in Hne.
  assert (len content <= u64_max) as Hmax.
  { pose proof (proj1 (div_ceil_spec (len content) p _ ltac:(lia)) eq_refl).
    unfold u64_max, MAX_PIECE_LENGTH, MAX_TORRENT_PIECES in *. nia. }
  apply validate_Ok.
  { split; [cbn; lia|]. split; [cbn; lia|]. split; [|done]. by repeat constructor. }
  split; cbn [single_meta files total_length Meta.name piece_length is_multi_file]; try done; try lia.
  - split; [done| | |by rewrite zsum_single|done].
    + apply Forall_singleton. split; [done|]. by apply Forall_singleton.
    + cbn. apply NoDup_singleton.
  - unfold valid_identity, valid_v1_layout. cbn [identity single_meta pieces total_length piece_length info_hash v2].
    split; [done|]. split; [done|].
    assert (len (map sha1 (chunks (Z.to_nat p) content)) = div_ceil (len content) p) as ->.
    { unfold len at 1. rewrite length_map. fold (len (chunks (Z.to_nat p) content)).
      rewrite len_chunks by lia. by rewrite Z2Nat.id by lia. }
    done.
Qed.

(** What the parser reads back of the [info] dictionary. *)
Lemma parse_name_built name len_ p pieces private :
  safe_component name -> utf8_valid name = true ->
  parse_name (single_info name len_ p pieces private) = Ok name.
Proof.
  intros Hn Hu8. destruct (find_single_info name len_ p pieces private) as (_ & G2 & _).
  unfold parse_name, get_str. rewrite G2. cbn [mbind option_bind as_str_utf8]. rewrite Hu8. cbn [ok_or].
  rewrite bind_ret, (proj2 (validate_path_component_Ok _ _ ()) Hn), bind_ret.
  by rewrite (proj2 (Z.eqb_neq _ _)) by (rewrite len_0; by destruct Hn).
Qed.

Lemma parse_piece_length_built name len_ p pieces private :
  0 < p <= MAX_PIECE_LENGTH -> parse_v1_piece_length (single_info name len_ p pieces private) = Ok p.
Proof.
  intros Hp. destruct (find_single_info name len_ p pieces private) as (_ & _ & G3 & _).
  unfold parse_v1_piece_length, get_int. rewrite G3. cbn [mbind option_bind as_int ok_or]. rewrite bind_ret.
  rewrite (proj2 (Z.leb_gt _ _)) by lia. cbn [fail_if]. rewrite bind_ret.
  rewrite wrap_small by (unfold in_width, MAX_PIECE_LENGTH in *; lia).
  by rewrite (proj2 (Z.ltb_ge _ _)) by lia.
Qed.

Lemma parse_files_built name len_ p pieces private :
  0 <= len_ ->
  parse_v1_files name (single_info name len_ p pieces private) = Ok ([mkMetaFile [name] len_ None], len_, false).
Proof.
  intros Hl. destruct (find_single_info name len_ p pieces private) as (G1 & _).
  unfold parse_v1_files. rewrite G1. cbn [as_int ok_or]. rewrite bind_ret.
  unfold non_negative_length. by rewrite (proj2 (Z.ltb_ge _ _)) by lia.
Qed.

Lemma check_piece_count_built total p :
  0 < total -> 0 < p -> div_ceil total p <= MAX_TORRENT_PIECES ->
  check_v1_piece_count (div_ceil total p) total p = Ok ().
Proof.
  intros Ht Hp Hd. unfold check_v1_piece_count, u64_div_ceil, usize_try_from.
  rewrite (proj2 (Z.eqb_neq total 0)), (proj2 (Z.eqb_neq p 0)) by lia. cbn [fail_if]. rewrite !bind_ret.
  rewrite (proj2 (Z.ltb_ge _ _)) by lia. cbn [fail_if]. rewrite bind_ret.
  rewrite (proj2 (Z.leb_le _ _)) by (unfold MAX_TORRENT_PIECES, usize_max in *; lia). cbn [ok_or].
  by rewrite bind_ret, Z.eqb_refl.
Qed.

Lemma built_info_shorter announce info webseeds :
  len (print (Dict info)) <= len (print (Dict (built_root announce info webseeds))).
Proof.
  rewrite (print_Dict (built_root announce info webseeds)). unfold built_root.
  rewrite !print_entries_app. unfold print_entries at 2. cbn [map concat fst snd].
  rewrite !len_cons, !len_app. pose proof (len_nonneg (print_entries (announce_entry announce))).
  pose proof (len_nonneg (print_entries (webseeds_entry webseeds))). pose proof (len_nonneg (print_str (bytes_of "info"))).
  rewrite len_cons, !len_nil. lia.
Qed.

(** The single-file builder and the parser are inverse: from a safe name,
    non-empty content, a piece length within bounds and UTF-8 URLs it writes a
    document that parses — when it fits the limits — to a record with exactly
    these fields, one SHA-1 hash per piece of the content, the web seeds without
    empty and repeated ones, and as identity the hash of the [info] dictionary it
    wrote. *)
Theorem build_parse_roundtrip name content p announce private webseeds :
  content <> [] -> 0 < p <= MAX_PIECE_LENGTH -> safe_component name -> utf8_valid name = true ->
  (forall a, announce = Some a -> utf8_valid a = true) ->
  Forall (fun w => utf8_valid w = true) webseeds -> len webseeds <= 200000 ->
  div_ceil (len content) p <= MAX_TORRENT_PIECES ->
  exists bytes info_bytes,
    build_single_file_torrent_with_webseeds name content p announce private webseeds = Ok bytes /\
    (len bytes <= MAX_TORRENT_METADATA_BYTES ->
     parse_torrent bytes = Ok (single_meta name content p announce private webseeds info_bytes) /\
     extract_value_bytes bytes (bytes_of "info") = Ok (Some info_bytes)).
Proof.
  intros Hne Hp Hn Hu8 Ha Hws Hl Hd.
  assert (len content <= i64_max) as Hmax.
  { pose proof (proj1 (div_ceil_spec (len content) p _ ltac:(lia)) eq_refl).
    unfold i64_max, MAX_PIECE_LENGTH, MAX_TORRENT_PIECES in *. nia. }
  pose proof (len_nonneg content).
  set (hs := map sha1 (chunks (Z.to_nat p) content)).
  set (info := single_info name (len content) p (concat (map as_bytes hs)) private).
  set (root := built_root announce info webseeds).
  exists (print (Dict root)), (print (Dict info)).
  rewrite build_single_print by (done || (unfold MAX_PIECE_LENGTH, i64_max in *; lia)).
  assert (map (fun s => as_bytes (sha1 s)) (chunks (Z.to_nat p) content) = map as_bytes hs) as ->.
  { unfold hs. by rewrite map_map. }
  split; [done|]. intros Hsize.
  destruct (single_info_limits name (len content) p (concat (map as_bytes hs)) private) as (W1 & W2 & W3);
    [lia|unfold MAX_PIECE_LENGTH, i64_max in *; lia|]. fold info in W1, W2, W3.
  destruct (built_root_limits announce info webseeds W1 W2 W3 Hl) as (V1' & V2' & V3').
  assert (decode (print (Dict root)) = Ok (Dict root)) as Hdec by (by apply decode_complete).
  destruct (find_built_root announce info webseeds) as (F1 & F2 & F3 & F4 & F5 & F6 & F7). fold root in F1, F2, F3, F4, F5, F6, F7.
  destruct (find_single_info name (len content) p (concat (map as_bytes hs)) private) as (G1 & G2 & G3 & G4 & G5 & G6).
  fold info in G1, G2, G3, G4, G5, G6.
  assert (extract_value_bytes (print (Dict root)) (bytes_of "info") = Ok (Some (print (Dict info)))) as Hext.
  { rewrite (extract_value_bytes_sound _ _ _ Hdec), <- find_key_get, F1. done. }
  split; [|done]. unfold parse_torrent. rewrite Hdec, bind_ret. cbn [as_dict ok_or]. rewrite bind_ret, Hext.
  rewrite bind_ret. cbn [ok_or]. rewrite bind_ret. unfold parse_torrent_root, find_info_dict.
  rewrite F1. cbn [mbind option_bind as_dict ok_or]. rewrite bind_ret, G5.
  unfold parse_v1_torrent_root. rewrite F1. cbn [mbind option_bind as_dict ok_or]. rewrite bind_ret.
  assert (len hs = div_ceil (len content) p) as Hlen.
  { unfold hs, len at 1. rewrite length_map. fold (len (chunks (Z.to_nat p) content)).
    rewrite len_chunks by lia. by rewrite Z2Nat.id by lia. }
  rewrite (parse_name_built name _ p _ private Hn Hu8 : parse_name info = Ok name), bind_ret.
  rewrite (parse_piece_length_built name (len content) _ _ private Hp : parse_v1_piece_length info = Ok p), bind_ret.
  rewrite (parse_v1_pieces_concat info hs G4), bind_ret, G6 by lia. cbv zeta.
  rewrite (parse_files_built name (len content) p _ private ltac:(lia) : parse_v1_files name info = _), bind_ret.
  rewrite <- len_0 in Hne. rewrite Hlen, check_piece_count_built, bind_ret by lia. rewrite len_0 in Hne.
  unfold parse_announce_list, get_str, get_int. rewrite F2, F3, F4, F5, F6.
  rewrite (parse_url_list_built announce info webseeds Hws : parse_url_list root = _).
  assert ((Str <$> announce) ≫= as_str_utf8 = announce) as Hann.
  { destruct announce as [a|]; [|done]. cbn. by rewrite Ha. }
  rewrite Hann. cbn [mbind option_bind fmap option_fmap option_map].
  match goal with |- (_ ← validate ?m; _) = Ok ?m' => change m with m' end.
  rewrite (single_meta_valid name content p announce private webseeds (print (Dict info)) Hne Hp Hn Hd); [done|].
  etransitivity; [apply built_info_shorter|exact Hsize].
Qed.
End built.

Lemma build_parse_roundtrip_witness :
  let name := bytes_of "a" in let content := bytes_of "hello" in
  exists bytes info_bytes,
    @build_single_file_torrent_with_webseeds toy_digests name content 2 None true [] = Ok bytes /\
    len bytes <= MAX_TORRENT_METADATA_BYTES /\
    @parse_torrent toy_digests bytes
      = Ok (@single_meta toy_digests name content 2 None true [] info_bytes).
Proof.
  intros name content.
  destruct (@build_parse_roundtrip toy_digests name content 2 None true []) as (bytes & info & E & H);
    [done|done| |done|done|by constructor|done|done|].
  { apply (validate_path_component_Ok _ "name"%string ()). reflexivity. }
  exists bytes, info. split; [done|].
  assert (len bytes <= MAX_TORRENT_METADATA_BYTES) as Hb.
  { vm_compute in E. injection E as <-. by apply (bool_decide_eq_true_1 _). }
  split; [done|]. by apply H.
Defined.
