(* ===== verification/MetaFile.v ===== *)
(** * Metadata files: the bounded readers of [crates/swarmotter-core/src/meta.rs]

    [read_torrent_file] reads a metadata file that another process may be writing;
    [hex_piece_hashes] decodes persisted piece hashes.  The file system and the
    deserializer are interfaces.  The theorems: a file that does not change is read
    whole when it fits [MAX_TORRENT_METADATA_BYTES] and rejected otherwise, whatever
    the sizes of the partial reads; persisted hashes round-trip up to the piece
    limit and never panic. *)

From S2P Require Import Prelude Text Bencode Hash Meta.

(** ** The file system *)

(** [std::fs::symlink_metadata(path).len()], [File::open], [File::metadata().len()]
    and [Read::read] into a buffer of a given size.  [R] is an open file. *)
Class FileSystem (R : Type) := {
  symlink_metadata_len : list byte -> outcome Z;
  open : list byte -> outcome R;
  metadata_len : R -> outcome Z;
  read : R -> Z -> outcome (list byte) * R }.

Section reader.
Context {R : Type} `{FileSystem R}.

Definition validate_torrent_file_length (len : Z) : outcome () :=
  fail_if (MAX_TORRENT_METADATA_BYTES <? len)
    (MalformedTorrent "torrent file size exceeds maximum").

(** The [while] loop of [read_bounded_torrent_bytes]: each iteration reads at least
    one byte, so [read_limit] bytes of fuel and one more are enough.  A reader that
    claims more bytes than it was given room for panics in [&chunk[..count]]. *)
Fixpoint read_loop (fuel : nat) (read_limit : Z) (reader : R) (buf : list byte)
  : outcome (list byte * R) :=
  match fuel with
  | O => OutOfFuel
  | S fuel =>
      if len buf <? read_limit then
        let remaining := read_limit - len buf in
        let to_read := Z.min remaining 8192 in
        let '(res, reader) := read reader to_read in
        bytes ← res;
        let count := len bytes in
        if count =? 0 then Ok (buf, reader)
        else
          _ ← ok_or (checked_add (len buf) count)
                (MalformedTorrent "metadata read length overflow");
          if to_read <? count then Panic else read_loop fuel read_limit reader (buf ++ bytes)
      else Ok (buf, reader)
  end.

Definition read_bounded_torrent_bytes (fuel : nat) (reader : R) : outcome (list byte * R) :=
  read_limit ← ok_or (checked_add MAX_TORRENT_METADATA_BYTES 1)
    (MalformedTorrent "metadata read limit overflow");
  '(buf, reader) ← read_loop fuel read_limit reader [];
  _ ← fail_if (MAX_TORRENT_METADATA_BYTES <? len buf)
    (MalformedTorrent "torrent file grew during read, exceeding maximum");
  Ok (buf, reader).

Definition validate_completed_torrent_read (initial_len final_len read_len : Z) : outcome () :=
  fail_if (negb (initial_len =? final_len) || negb (final_len =? read_len))
    (MalformedTorrent "torrent file changed during read").

Definition read_torrent_file (fuel : nat) (path : list byte) : outcome (list byte) :=
  path_len ← symlink_metadata_len path;
  _ ← validate_torrent_file_length path_len;
  file ← open path;
  initial_len ← metadata_len file;
  _ ← validate_torrent_file_length initial_len;
  _ ← fail_if (negb (initial_len =? path_len))
        (MalformedTorrent "torrent file changed between metadata check and open");
  _ ← ok_or (usize_try_from initial_len)
        (MalformedTorrent "torrent file size exceeds platform usize");
  '(buf, file) ← read_bounded_torrent_bytes fuel file;
  final_len ← metadata_len file;
  _ ← validate_torrent_file_length final_len;
  _ ← validate_completed_torrent_read initial_len final_len (len buf);
  Ok buf.
End reader.

(** What an open file that nobody changes does: [remaining] is what has not been
    read; a read returns a non-empty prefix of it that fits, until it is empty. *)
Class StableFile (R : Type) `{FileSystem R} (path : list byte) (content : list byte) := {
  remaining : R -> list byte;
  live : R -> Prop;
  stable_symlink : symlink_metadata_len path = Ok (len content);
  stable_open : exists r, open path = Ok r /\ live r /\ remaining r = content;
  stable_len : forall r, live r -> metadata_len r = Ok (len content);
  stable_read : forall r n, live r -> 0 < n -> exists bs r',
    read r n = (Ok bs, r') /\ live r' /\ len bs <= n /\ remaining r = bs ++ remaining r' /\
    (bs = [] -> remaining r = []) }.

Section stable.
Context {R : Type} `{FileSystem R} {path content : list byte} `{!StableFile R path content}.

(** What the loop has when it stops: all of the file, or exactly the limit. *)
Lemma read_loop_stable limit fuel : forall r buf,
  live r -> limit < 2 ^ 63 -> len buf <= limit ->
  limit - len buf < Z.of_nat fuel ->
  exists r', read_loop fuel limit r buf = Ok (take (Z.to_nat limit) (buf ++ remaining r), r') /\ live r'.
Proof.
  induction fuel as [|fuel IH]; intros r buf Hr Hlim Hb Hf; [lia|]. cbn [read_loop].
  destruct (Z.ltb_spec (len buf) limit) as [Hlt|Hge].
  - destruct (stable_read r (Z.min (limit - len buf) 8192) Hr) as (bs & r' & -> & Hr' & Hn & Erem & Hend); [lia|].
    rewrite bind_ret. destruct (Z.eqb_spec (len bs) 0) as [E|E].
    + apply len_0 in E as ->. rewrite (Hend eq_refl), app_nil_r.
      exists r'. split; [|done]. rewrite take_ge by (unfold len in *; lia). done.
    + pose proof (len_nonneg bs). pose proof (len_nonneg buf).
      rewrite (proj2 (checked_add_Some (len buf) (len bs) (len buf + len bs))) by (unfold usize_max; lia).
      cbn [ok_or]. rewrite bind_ret, (proj2 (Z.ltb_ge _ _)) by lia.
      destruct (IH r' (buf ++ bs) Hr' Hlim) as (r2 & -> & Hr2); [rewrite len_app; lia|rewrite len_app; lia|].
      exists r2. split; [|done]. by rewrite <- app_assoc, <- Erem.
  - exists r. split; [|done]. assert (len buf = limit) as E by lia.
    rewrite take_app_le by (unfold len in E; lia). rewrite take_ge by (unfold len in E; lia). done.
Qed.

(** A file that nobody changes is read exactly when it fits the limit: the
    result is its content, however the reads split it, and a larger file is
    rejected before it is opened.  The fuel is one step per byte of the limit. *)
Theorem read_torrent_file_exact (fuel : nat) :
  MAX_TORRENT_METADATA_BYTES + 1 < Z.of_nat fuel ->
  read_torrent_file fuel path =
    if MAX_TORRENT_METADATA_BYTES <? len content
    then Err (MalformedTorrent "torrent file size exceeds maximum") else Ok content.
Proof.
  intros Hf. unfold read_torrent_file, validate_torrent_file_length.
  rewrite stable_symlink, bind_ret.
  destruct (Z.ltb_spec MAX_TORRENT_METADATA_BYTES (len content)) as [|Hfit]; [done|]. cbn [fail_if]. rewrite bind_ret.
  destruct stable_open as (r & -> & Hr & Erem). rewrite bind_ret, stable_len, bind_ret by done.
  rewrite (proj2 (Z.ltb_ge _ _)) by done. cbn [fail_if]. rewrite bind_ret, Z.eqb_refl. cbn [negb fail_if].
  pose proof (len_nonneg content).
  rewrite bind_ret. unfold usize_try_from.
  rewrite (proj2 (Z.leb_le _ _)) by (unfold MAX_TORRENT_METADATA_BYTES, usize_max in *; lia).
  cbn [ok_or]. rewrite bind_ret. unfold read_bounded_torrent_bytes.
  rewrite (proj2 (checked_add_Some MAX_TORRENT_METADATA_BYTES 1 _)) by (split; [reflexivity|done]).
  cbn [ok_or]. rewrite bind_ret.
  destruct (read_loop_stable (MAX_TORRENT_METADATA_BYTES + 1) fuel r []) as (r' & -> & Hr');
    [done|done|done|change (len (@nil byte)) with 0; lia|].
  rewrite bind_ret, Erem. cbn [app].
  assert (take (Z.to_nat (MAX_TORRENT_METADATA_BYTES + 1)) content = content) as ->.
  { apply take_ge. unfold len in *. lia. }
  rewrite (proj2 (Z.ltb_ge _ _)) by done. cbn [fail_if]. rewrite bind_ret. rewrite bind_ret.
  rewrite stable_len, bind_ret by done. rewrite (proj2 (Z.ltb_ge _ _)) by done. cbn [fail_if]. rewrite bind_ret.
  unfold validate_completed_torrent_read. by rewrite Z.eqb_refl.
Qed.

(** Whatever the file system does, what is returned fits the limit and has the
    length the path and the open file reported. *)
Lemma read_torrent_file_bounded (fuel : nat) p buf :
  read_torrent_file fuel p = Ok buf ->
  len buf <= MAX_TORRENT_METADATA_BYTES /\ symlink_metadata_len p = Ok (len buf).
Proof.
  unfold read_torrent_file, validate_torrent_file_length, validate_completed_torrent_read. intros H'. inv_ok.
  repeat match goal with
  | H : _ || _ = false |- _ => apply orb_false_iff in H as [??]
  | H : negb _ = false |- _ => apply negb_false_iff, Z.eqb_eq in H
  end. subst. split; [lia|done].
Qed.
End stable.

(** A file in memory: the content and how far it has been read; every read
    returns at most three bytes. *)
Definition memory_files (content : list byte) : FileSystem (list byte) := {|
  symlink_metadata_len := fun _ => Ok (len content);
  open := fun _ => Ok content;
  metadata_len := fun _ => Ok (len content);
  read := fun r n => (Ok (take (Z.to_nat (Z.min n 3)) r), drop (Z.to_nat (Z.min n 3)) r) |}.

#[program] Definition memory_stable (path content : list byte) :
  @StableFile (list byte) (memory_files content) path content := {|
  remaining := fun r => r; live := fun _ => True |}.
Next Obligation. done. Qed.
Next Obligation. intros. cbn. eauto. Qed.
Next Obligation. done. Qed.
Next Obligation.
  intros path content r n _ Hn. eexists _, _. split; [reflexivity|]. split; [done|].
  assert (0 < Z.to_nat (Z.min n 3))%nat by lia. split; [|split].
  - unfold len. rewrite length_take. lia.
  - by rewrite take_drop.
  - destruct r as [|b r]; [done|]. destruct (Z.to_nat (Z.min n 3)); [lia|done].
Qed.

Lemma read_torrent_file_exact_witness :
  let content := bytes_of "d4:infodee" in
  @read_torrent_file _ (memory_files content) (Z.to_nat (MAX_TORRENT_METADATA_BYTES + 2)) (bytes_of "a.torrent")
  = Ok content.
Proof.
  intros content.
  refine (@read_torrent_file_exact _ (memory_files content) _ _ (memory_stable (bytes_of "a.torrent") content)
    (Z.to_nat (MAX_TORRENT_METADATA_BYTES + 2)) _).
  rewrite Z2Nat.id by done. unfold MAX_TORRENT_METADATA_BYTES. lia.
Defined.

(** ** [hex_piece_hashes] *)

Section piece_hashes.
Context {X : HexCodec}.

(** An element of the sequence a deserializer offers: a string, or something
    [next_element::<String>] rejects.  The error is the deserializer's text. *)
Abbreviation element := (option (list byte)).

Definition serialize (v : list (array 20)) : list element := map (fun h => Some (hex_encode (as_bytes h))) v.

Fixpoint visit_loop (sequence : list element) (hashes : list (array 20))
  : outcome (string + list (array 20)) :=
  if len hashes =? MAX_TORRENT_PIECES then
    match sequence with
    | [] => Ok (inr hashes)
    | _ :: _ => Ok (inl "piece hash count exceeds maximum"%string)
    end
  else
    match sequence with
    | [] => Ok (inr hashes)
    | None :: _ => Ok (inl "invalid type"%string)
    | Some encoded :: sequence =>
        if negb (len encoded =? 40) then
          if len encoded mod 2 =? 0
          then Ok (inl "SHA-1 hashes must be exactly 20 bytes"%string)
          else Ok (inl "odd encoded length; expected 40 hex characters"%string)
        else
          match hex_decode encoded with
          | None => Ok (inl "piece hash is not valid hex"%string)
          | Some b => hash ← copy_from_slice 20 b; visit_loop sequence (hashes ++ [hash])
          end
    end.

Definition visit_seq (size_hint : option Z) (sequence : list element) : outcome (string + list (array 20)) :=
  match size_hint with
  | Some size =>
      if MAX_TORRENT_PIECES <? size then Ok (inl "piece hash count exceeds maximum"%string)
      else visit_loop sequence []
  | None => visit_loop sequence []
  end.

Lemma visit_loop_serialize v : forall acc,
  len acc <= MAX_TORRENT_PIECES ->
  visit_loop (serialize v) acc =
    if len acc + len v <=? MAX_TORRENT_PIECES then Ok (inr (acc ++ v))
    else Ok (inl "piece hash count exceeds maximum"%string).
Proof.
  induction v as [|h v IH]; intros acc Hacc; cbn [serialize map visit_loop].
  - change (len []) with 0. rewrite (proj2 (Z.leb_le _ _)) by lia. rewrite app_nil_r. by destruct (_ =? _).
  - rewrite len_cons. pose proof (len_nonneg v). destruct (Z.eqb_spec (len acc) MAX_TORRENT_PIECES).
    + by rewrite (proj2 (Z.leb_gt _ _)) by lia.
    + rewrite hex_encode_len, array_len, hex_decode_encode. cbn [Z.of_nat Z.mul Z.eqb negb].
      change (negb (2 * Z.of_nat 20 =? 40)) with false. cbn iota.
      rewrite array_bytes, bind_ret. fold (serialize v). rewrite IH by (rewrite len_app, len_cons; change (len (@nil (array 20))) with 0; lia).
      rewrite len_app, <- app_assoc. change (len [h]) with 1.
      by replace (len acc + 1 + len v) with (len acc + (1 + len v)) by lia.
Qed.

Lemma visit_loop_sound seq : forall acc v,
  len acc <= MAX_TORRENT_PIECES -> visit_loop seq acc = Ok (inr v) ->
  len v <= MAX_TORRENT_PIECES /\ exists w, v = acc ++ w /\ length w = length seq.
Proof.
  induction seq as [|[e|] seq IH]; intros acc v Hacc; cbn [visit_loop].
  - destruct (_ =? _); intros [= <-]; split; try done; exists []; by rewrite app_nil_r.
  - destruct (Z.eqb_spec (len acc) MAX_TORRENT_PIECES) as [|E]; [done|].
    destruct (negb _); [by destruct (_ =? _)|]. destruct (hex_decode e); [|done].
    intros (h & _ & H)%bind_Ok. apply IH in H as (Hv & w & -> & Hw).
    + split; [done|]. exists (h :: w). split; [by rewrite <- app_assoc|]. cbn. by rewrite Hw.
    + rewrite len_app. change (len [h]) with 1. lia.
  - by destruct (_ =? _).
Qed.

Lemma visit_loop_returns seq : forall acc, returns (visit_loop seq acc).
Proof.
  induction seq as [|[e|] seq IH]; intros acc; cbn [visit_loop]; [by destruct (_ =? _)| |by destruct (_ =? _)].
  destruct (_ =? _); [done|]. destruct (Z.eqb_spec (len e) 40) as [E|E]; cbn [negb]; [|by destruct (_ =? _)].
  destruct (hex_decode e) as [b|] eqn:Eb; [|done]. apply hex_decode_len in Eb.
  apply bind_returns; [|auto]. destruct (copy_from_slice_total 20 b) as (a & -> & _); [|done].
  unfold len in *. lia.
Qed.

(** Persisted piece hashes: what is written is read back up to the piece
    limit and rejected above it, with and without a size hint; on any sequence the
    reader returns without a panic, and what it accepts has one hash per element
    and respects the limit. *)
Theorem piece_hashes_roundtrip (v : list (array 20)) hint seq w :
  (hint = None \/ hint = Some (len v)) ->
  visit_seq hint (serialize v) =
    (if len v <=? MAX_TORRENT_PIECES then Ok (inr v) else Ok (inl "piece hash count exceeds maximum"%string))
  /\ returns (visit_seq hint seq)
  /\ (visit_seq hint seq = Ok (inr w) -> length w = length seq /\ len w <= MAX_TORRENT_PIECES).
Proof.
  intros Hh. pose proof (visit_loop_serialize v [] ltac:(done)) as Hs.
  change (len []) with 0 in Hs. rewrite Z.add_0_l in Hs. cbn [app] in Hs.
  split; [|split].
  - destruct Hh as [->| ->]; cbn [visit_seq]; [done|].
    destruct (Z.ltb_spec MAX_TORRENT_PIECES (len v)); [by rewrite (proj2 (Z.leb_gt _ _)) by lia|done].
  - unfold visit_seq. destruct hint; [destruct (_ <? _); [done|]|]; apply visit_loop_returns.
  - intros H. assert (visit_loop seq [] = Ok (inr w)) as H'.
    { unfold visit_seq in H. destruct hint; [destruct (_ <? _); [done|]|]; done. }
    apply visit_loop_sound in H' as (? & w' & -> & ?); [|done]. done.
Qed.
End piece_hashes.

Lemma piece_hashes_roundtrip_witness :
  let v := [pad_array 20 (bytes_of "a"); pad_array 20 (bytes_of "b")] in
  @visit_seq plain_hex (Some 2) (@serialize plain_hex v) = Ok (inr v).
Proof.
  intros v. exact (proj1 (@piece_hashes_roundtrip plain_hex v (Some 2) [] [] (or_intror eq_refl))).
Defined.
