(* ===== verification/Extensions.v ===== *)
(** * The extension protocol: [crates/swarmotter-core/src/extensions.rs]

    BEP 10 handshakes, peer exchange (BEP 11) and the metadata exchange (BEP 9):
    the encoders and parsers of their payloads.  The theorems: what an encoder
    writes parses back to the same message, and every parser returns on every
    payload. *)

From S2P Require Import Prelude Text Addr Bencode BencodeCorrect Merkle Meta MetaParse MetaBuild.

Local Open Scope byte_scope.
Local Open Scope Z_scope.

(** ** Encoders *)

Definition write_bytes (out b : list byte) : list byte := out ++ print_dec (len b) ++ [":"] ++ b.

(** [out.push(b'i'); out.extend_from_slice(n.to_string().as_bytes()); out.push(b'e')]. *)
Definition write_number (out : list byte) (n : Z) : list byte := out ++ ["i"] ++ print_dec n ++ ["e"].

Definition UT_PEX_NAME : text := bytes_of "ut_pex".
Definition UT_METADATA_NAME : text := bytes_of "ut_metadata".
Definition LOCAL_EXTENSION_REQQ : Z := 250.

Definition encode_extension_handshake_payload (extensions : list (text * Z)) (client_version : text)
    (metadata_size reqq : option Z) : list byte :=
  let out := ["d"] in
  let exts := sort_by (fun a b => bytes_le a.1 b.1) extensions in
  let out := write_bytes out (bytes_of "m") in
  let out := out ++ ["d"] in
  let out := foldl (fun out e => write_number (write_bytes out e.1) e.2) out exts in
  let out := out ++ ["e"] in
  let out := write_bytes out (bytes_of "v") in
  let out := write_bytes out client_version in
  let out := match metadata_size with
             | Some size => write_number (write_bytes out (bytes_of "metadata_size")) size
             | None => out
             end in
  let out := match reqq with
             | Some reqq => if 0 <? reqq then write_number (write_bytes out (bytes_of "reqq")) reqq else out
             | None => out
             end in
  out ++ ["e"].

Definition encode_extension_handshake (extensions : list (text * Z)) (client_version : text)
    (metadata_size : option Z) : list byte :=
  encode_extension_handshake_payload extensions client_version metadata_size None.
Definition encode_extension_handshake_with_reqq (extensions : list (text * Z)) (client_version : text)
    (metadata_size : option Z) : list byte :=
  encode_extension_handshake_payload extensions client_version metadata_size (Some LOCAL_EXTENSION_REQQ).

(** ** The extension handshake *)

Record ExtensionHandshake : Type := mkExtensionHandshake {
  extensions : list (text * Z); client_version : option text; metadata_size : option Z; reqq : option Z }.

(** [try_from] of an [i64] to an unsigned type of [w] bits. *)
Definition unsigned_try_from (w value : Z) : option Z :=
  if (0 <=? value) && (value <? 2 ^ w) then Some value else None.

(** One entry of the [m] dictionary. *)
Definition push_extension (extensions : list (text * Z)) (entry : list byte * Value) : outcome (list (text * Z)) :=
  let '(k, v) := entry in
  match utf8_valid k, as_int v with
  | true, Some id =>
      id ← ok_or (unsigned_try_from 8 id) (Parse "extension id out of range");
      Ok (extensions ++ [(k, id)])
  | _, _ => Ok extensions
  end.

Definition parse_extension_handshake (payload : list byte) : outcome ExtensionHandshake :=
  root ← decode payload;
  dict ← ok_or (as_dict root) (Parse "extension handshake not a dict");
  extensions ← match find_key "m" dict with
               | Some m => match as_dict m with
                           | Some mdict => try_fold push_extension [] mdict
                           | None => Ok []
                           end
               | None => Ok []
               end;
  let client_version := find_key "v" dict ≫= as_str_utf8 in
  metadata_size ← match find_key "metadata_size" dict ≫= as_int with
                  | Some value => v ← ok_or (unsigned_try_from 64 value) (Parse "metadata_size out of range"); Ok (Some v)
                  | None => Ok None
                  end;
  reqq ← match find_key "reqq" dict ≫= as_int with
         | None => Ok None
         | Some value =>
             if value =? 0 then Ok None
             else v ← ok_or (unsigned_try_from 64 value) (Parse "reqq out of range"); Ok (Some v)
         end;
  Ok (mkExtensionHandshake extensions client_version metadata_size reqq).

Definition id_for (h : ExtensionHandshake) (name : text) : option Z :=
  snd <$> List.find (fun e => bool_decide (e.1 = name)) (extensions h).

(** ** Peer exchange *)

(** [PeerAddr] is an address and a port. *)
Abbreviation PeerAddr := SocketAddr.

Record PexMessage : Type := mkPex {
  added : list PeerAddr; dropped : list PeerAddr; added6 : list PeerAddr; dropped6 : list PeerAddr }.

Definition encode_compact_ipv4 (peers : list PeerAddr) : list byte :=
  foldl (fun out p => match ip p with V4 v4 => (out ++ to_be 4 v4) ++ to_be 2 (port p) | V6 _ => out end) [] peers.
Definition encode_compact_ipv6 (peers : list PeerAddr) : list byte :=
  foldl (fun out p => match ip p with V6 v6 => (out ++ to_be 16 v6) ++ to_be 2 (port p) | V4 _ => out end) [] peers.

(** A chunk has all its bytes: nothing is indexed out of range. *)
Definition parse_compact_ipv4 (bytes : list byte) : list PeerAddr :=
  map (fun chunk => mkSocketAddr (V4 (of_be (take 4 chunk))) (of_be (drop 4 chunk))) (as_chunks 6 bytes).
Definition parse_compact_ipv6 (bytes : list byte) : list PeerAddr :=
  map (fun chunk => mkSocketAddr (V6 (of_be (take 16 chunk))) (of_be (drop 16 chunk))) (as_chunks 18 bytes).

Definition encode_pex (msg : PexMessage) : list byte :=
  let out := ["d"] in
  let out := write_bytes out (bytes_of "added") in
  let out := write_bytes out (encode_compact_ipv4 (added msg)) in
  let out := write_bytes out (bytes_of "added.f") in
  let out := write_bytes out (replicate (length (added msg)) x00) in
  let out := write_bytes out (bytes_of "dropped") in
  let out := write_bytes out (encode_compact_ipv4 (dropped msg)) in
  let out := write_bytes out (bytes_of "added6") in
  let out := write_bytes out (encode_compact_ipv6 (added6 msg)) in
  let out := write_bytes out (bytes_of "added6.f") in
  let out := write_bytes out (replicate (length (added6 msg)) x00) in
  let out := write_bytes out (bytes_of "dropped6") in
  let out := write_bytes out (encode_compact_ipv6 (dropped6 msg)) in
  out ++ ["e"].

Definition parse_pex (payload : list byte) : outcome PexMessage :=
  root ← decode payload;
  dict ← ok_or (as_dict root) (Parse "pex message not a dict");
  let list_of key parse := default [] (parse <$> (find_key key dict ≫= as_str)) in
  Ok (mkPex (list_of "added"%string parse_compact_ipv4) (list_of "dropped"%string parse_compact_ipv4)
        (list_of "added6"%string parse_compact_ipv6) (list_of "dropped6"%string parse_compact_ipv6)).

(** ** Metadata exchange *)

Definition METADATA_PIECE_SIZE : Z := 16 * 1024.

Inductive MetadataMsgType : Type := Request | Data | Reject.

Record MetadataMessage : Type := mkMetadata {
  msg_type : MetadataMsgType; piece : Z; total_size : option Z; data : list byte }.

(** The dictionaries of requests and rejections differ in one digit. *)
Definition encode_metadata_request (piece : Z) : list byte :=
  let out := ["d"] in
  let out := write_bytes out (bytes_of "msg_type") in
  let out := out ++ ["i"] ++ ["0"] ++ ["e"] in
  let out := write_bytes out (bytes_of "piece") in
  let out := write_number out piece in
  out ++ ["e"].

Definition encode_metadata_reject (piece : Z) : list byte :=
  let out := ["d"] in
  let out := write_bytes out (bytes_of "msg_type") in
  let out := out ++ ["i"] ++ ["2"] ++ ["e"] in
  let out := write_bytes out (bytes_of "piece") in
  let out := write_number out piece in
  out ++ ["e"].

Definition encode_metadata_data (piece total_size : Z) (data : list byte) : list byte :=
  let out := ["d"] in
  let out := write_bytes out (bytes_of "msg_type") in
  let out := out ++ ["i"] ++ ["1"] ++ ["e"] in
  let out := write_bytes out (bytes_of "piece") in
  let out := write_number out piece in
  let out := write_bytes out (bytes_of "total_size") in
  let out := write_number out total_size in
  let out := out ++ ["e"] in
  out ++ data.

Definition parse_metadata_message (payload : list byte) : outcome MetadataMessage :=
  '(root, consumed) ← decode_prefix payload;
  dict ← match root with Dict dict => Ok dict | _ => Err (Parse "metadata message not a dict") end;
  msg_type ← ok_or (find_key "msg_type" dict ≫= as_int) (Parse "metadata message missing msg_type");
  msg_type ← (if msg_type =? 0 then Ok Request else if msg_type =? 1 then Ok Data
              else if msg_type =? 2 then Ok Reject else Err (Parse "bad metadata msg_type"));
  piece ← ok_or (find_key "piece" dict ≫= as_int) (Parse "metadata message missing piece");
  piece ← ok_or (unsigned_try_from 32 piece) (Parse "metadata piece out of range");
  total_size ← match find_key "total_size" dict ≫= as_int with
               | Some value => v ← ok_or (unsigned_try_from 64 value) (Parse "metadata total_size out of range"); Ok (Some v)
               | None => Ok None
               end;
  data ← slice_from payload consumed;
  Ok (mkMetadata msg_type piece total_size data).

Definition metadata_pieces (total_size : Z) : Z := div_ceil total_size METADATA_PIECE_SIZE.

(** ** What the encoders write *)

Lemma push_bytes_print out b : write_bytes out b = out ++ print (Str b).
Proof. done. Qed.

Lemma write_number_print out n : 0 <= n -> write_number out n = out ++ print (Int n).
Proof. apply write_int_print. Qed.

Lemma print_entry k v : print_entries [(k, v)] = print (Str k) ++ print v.
Proof. unfold print_entries. cbn [map concat fst snd]. by rewrite app_nil_r. Qed.

Lemma print_entries_cons k v d : print_entries ((k, v) :: d) = print (Str k) ++ print v ++ print_entries d.
Proof. unfold print_entries. cbn [map concat fst snd]. by rewrite app_assoc. Qed.

(** Bring both sides of an encoding to a flat concatenation. *)
Ltac flat_tac :=
  change (print_entries []) with (@nil byte);
  repeat first [progress rewrite ?push_bytes_print, ?print_Dict, ?print_entries_app, ?print_entries_cons
    | progress change (print_entries []) with (@nil byte) | progress rewrite <- ?app_assoc
    | progress cbn [app] | progress rewrite ?app_nil_r]; try done.

Definition optional (key : string) (n : option Z) : dict :=
  match n with Some n => [(bytes_of key, Int n)] | None => [] end.

Definition handshake_value (exts : list (text * Z)) (version : text) (size reqq : option Z) : dict :=
  [(bytes_of "m", Dict (map (fun e => (e.1, Int e.2)) exts)); (bytes_of "v", Str version)]
  ++ optional "metadata_size" size ++ optional "reqq" reqq.

Definition by_name (exts : list (text * Z)) : list (text * Z) := sort_by (fun a b => bytes_le a.1 b.1) exts.

Lemma handshake_print exts version size reqq :
  Forall (fun e => 0 <= e.2) exts -> (forall n, size = Some n -> 0 <= n) -> (forall n, reqq = Some n -> 0 < n) ->
  encode_extension_handshake_payload exts version size reqq
  = print (Dict (handshake_value (by_name exts) version size reqq)).
Proof.
  intros He Hs Hq. unfold encode_extension_handshake_payload. fold (by_name exts).
  assert (Forall (fun e => 0 <= e.2) (by_name exts)) as He'.
  { unfold by_name. by rewrite sort_by_perm. }
  assert (forall out, foldl (fun out e => write_number (write_bytes out e.1) e.2) out (by_name exts)
    = out ++ print_entries (map (fun e => (e.1, Int e.2)) (by_name exts))) as Hf.
  { revert He'. generalize (by_name exts) as l. clear. induction 1 as [|e l He _ IH]; intros out; cbn [foldl map].
    { unfold print_entries. by rewrite app_nil_r. }
    rewrite IH, write_number_print by done. flat_tac. }
  cbv zeta. rewrite Hf. unfold handshake_value.
  destruct size as [n|]; [specialize (Hs n eq_refl)|]; (destruct reqq as [q|]; [specialize (Hq q eq_refl);
    rewrite (proj2 (Z.ltb_lt 0 q)) by done|]); cbn [optional];
    rewrite ?write_number_print by lia; flat_tac.
Qed.

Lemma find_handshake exts version size reqq :
  let d := handshake_value exts version size reqq in
  find_key "m" d = Some (Dict (map (fun e => (e.1, Int e.2)) exts)) /\ find_key "v" d = Some (Str version) /\
  find_key "metadata_size" d = Int <$> size /\ find_key "reqq" d = Int <$> reqq.
Proof. by destruct size, reqq. Qed.

Lemma unsigned_try_from_ok w x : 0 <= x < 2 ^ w -> unsigned_try_from w x = Some x.
Proof.
  intros Hx. unfold unsigned_try_from. by rewrite (proj2 (Z.leb_le 0 x)), (proj2 (Z.ltb_lt x (2 ^ w))) by lia.
Qed.

Lemma push_extension_ok acc k i :
  utf8_valid k = true -> 0 <= i < 256 -> push_extension acc (k, Int i) = Ok (acc ++ [(k, i)]).
Proof.
  intros Hu Hi. unfold push_extension. rewrite Hu. cbn [as_int].
  by rewrite unsigned_try_from_ok by lia.
Qed.

Lemma extensions_read exts : forall acc,
  Forall (fun e => utf8_valid e.1 = true /\ 0 <= e.2 < 256) exts ->
  try_fold push_extension acc (map (fun e => (e.1, Int e.2)) exts) = Ok (acc ++ exts).
Proof.
  induction exts as [|[k i] exts IH]; intros acc; cbn [map try_fold]; [by rewrite app_nil_r|].
  intros [[Hu Hi] He]%Forall_cons. cbn [fst snd] in *.
  rewrite push_extension_ok, bind_ret, IH by done. by rewrite <- app_assoc.
Qed.

Lemma optional_read msg (n : option Z) :
  (forall x, n = Some x -> 0 <= x <= i64_max) ->
  match (Int <$> n) ≫= as_int with
  | Some value => v ← ok_or (unsigned_try_from 64 value) (Parse msg); Ok (Some v)
  | None => Ok None
  end = Ok n.
Proof.
  intros Hn. destruct n as [x|]; [|done]. specialize (Hn x eq_refl). cbn. unfold unsigned_try_from.
  unfold i64_max in Hn. by rewrite (proj2 (Z.leb_le _ _)), (proj2 (Z.ltb_lt _ _)) by lia.
Qed.

(** The depth and size of a handshake. *)
Lemma handshake_limits exts version size reqq :
  Forall (fun e => 0 <= e.2 < 256) exts -> NoDup exts.*1 -> len exts <= 100000 ->
  (forall n, size = Some n -> 0 <= n <= i64_max) -> (forall n, reqq = Some n -> 0 < n <= i64_max) ->
  wf (Dict (handshake_value exts version size reqq)) /\
  vdepth (Dict (handshake_value exts version size reqq)) <= MAX_BENCODE_DEPTH /\
  vnodes (Dict (handshake_value exts version size reqq)) <= MAX_BENCODE_NODES.
Proof.
  intros He Hn Hl Hs Hq. unfold i64_max in *.
  assert (wf (Dict (map (fun e => (e.1, Int e.2)) exts))) as Hm.
  { apply wf_Dict. split.
    - rewrite <- list_fmap_compose. done.
    - apply Forall_forall. intros kv (e & -> & Hin)%list_elem_of_fmap. rewrite Forall_forall in He.
      specialize (He e Hin). cbn. unfold i64_min, i64_max. lia. }
  assert (vdepth (Dict (map (fun e => (e.1, Int e.2)) exts)) <= 1) as Hd.
  { apply vdepth_Dict; [done|]. apply Forall_forall. by intros kv (e & -> & _)%list_elem_of_fmap. }
  assert (vnodes (Dict (map (fun e => (e.1, Int e.2)) exts)) = 1 + 2 * len exts) as Hv.
  { change (1 + entries_nodes (map (fun e : text * Z => (e.1, Int e.2)) exts) = 1 + 2 * len exts). f_equal. clear.
    induction exts as [|e l IH]; [done|]. rewrite len_cons. unfold entries_nodes in *. cbn [map foldr snd vnodes]. lia. }
  assert (forall a b, optional a b = [] \/ exists n, b = Some n /\ optional a b = [(bytes_of a, Int n)]) as Ho.
  { intros a [n|]; [right; by exists n|by left]. }
  split; [|split].
  - apply wf_Dict. split; [by apply (bool_decide_eq_true_1 _); destruct size, reqq|].
    unfold handshake_value. rewrite !Forall_app. split; [by repeat (apply Forall_cons; split)|]. unfold i64_max in *.
    split; [destruct (Ho "metadata_size"%string size) as [->|(n & E & ->)]|destruct (Ho "reqq"%string reqq) as [->|(n & E & ->)]];
      try done; apply Forall_singleton; cbn; unfold i64_min, i64_max;
      [specialize (Hs n E)|specialize (Hq n E)]; lia.
  - assert (vdepth (Dict (handshake_value exts version size reqq)) <= 2); [|unfold MAX_BENCODE_DEPTH; lia].
    apply vdepth_Dict; [done|]. unfold handshake_value. rewrite !Forall_app.
    split; [apply Forall_cons; split; [cbn [snd]; lia|by apply Forall_singleton]|].
    split; [destruct (Ho "metadata_size"%string size) as [->|(n & E & ->)]|destruct (Ho "reqq"%string reqq) as [->|(n & E & ->)]];
      try done; by apply Forall_singleton.
  - change (1 + entries_nodes (handshake_value exts version size reqq) <= MAX_BENCODE_NODES).
    unfold handshake_value, entries_nodes, MAX_BENCODE_NODES.
    destruct size, reqq; cbn [optional app foldr snd]; rewrite Hv; cbn [vnodes]; lia.
Qed.

Lemma find_pair {A} (l : list (text * A)) k (v : A) :
  NoDup l.*1 -> (k, v) ∈ l -> snd <$> List.find (fun e => bool_decide (e.1 = k)) l = Some v.
Proof.
  induction l as [|[k' v'] l IH]; cbn [List.find fst]; [by intros _ ?%not_elem_of_nil|].
  intros [Hk Hn]%NoDup_cons [[= -> ->]|Hin]%elem_of_cons; [by rewrite bool_decide_eq_true_2|].
  rewrite bool_decide_eq_false_2; [by apply IH|]. intros ->. apply Hk. apply list_elem_of_fmap. by exists (k, v).
Qed.

Lemma decode_returns bytes : returns (decode bytes).
Proof.
  unfold decode. apply bind_returns; [apply decode_prefix_returns|]. intros [v n] _. returns_tac.
Qed.

Lemma parse_handshake_returns payload : returns (parse_extension_handshake payload).
Proof.
  unfold parse_extension_handshake. apply bind_returns.
    { apply decode_returns. }
    intros v _. apply bind_returns; [auto|]. intros d _. apply bind_returns.
    { destruct (find_key "m" d) as [m|]; [|done]. destruct (as_dict m) as [md|]; [|done].
      apply try_fold_returns. intros acc [k w] _. unfold push_extension. destruct (utf8_valid k), (as_int w); returns_tac. }
    intros es _. apply bind_returns; [destruct (_ ≫= as_int); returns_tac|]. intros ms _.
    apply bind_returns; [|done]. destruct (_ ≫= as_int) as [x|]; [|done]. destruct (x =? 0); returns_tac.
Qed.

(** A handshake is read back as it was sent: for distinct UTF-8 names, ids of
    one byte, a UTF-8 version and optional sizes that fit, parsing what the
    encoder wrote gives the extensions in name order, the version, the metadata
    size and the request limit, and every name resolves to its id; parsing any
    payload returns. *)
Theorem handshake_roundtrip exts version size reqq payload :
  Forall (fun e => utf8_valid e.1 = true /\ 0 <= e.2 < 256) exts -> NoDup exts.*1 -> len exts <= 100000 ->
  utf8_valid version = true ->
  (forall n, size = Some n -> 0 <= n <= i64_max) -> (forall n, reqq = Some n -> 0 < n <= i64_max) ->
  let sent := encode_extension_handshake_payload exts version size reqq in
  len sent <= MAX_TORRENT_METADATA_BYTES ->
  returns (parse_extension_handshake payload) /\
  exists h, parse_extension_handshake sent = Ok h /\
    extensions h ≡ₚ exts /\ client_version h = Some version /\ metadata_size h = size /\ Extensions.reqq h = reqq /\
    forall name id, (name, id) ∈ exts -> id_for h name = Some id.
Proof.
  intros He Hn Hl Hu Hs Hq sent Hlen. split.
  { apply parse_handshake_returns. }
  assert (by_name exts ≡ₚ exts) as Hp by apply sort_by_perm.
  assert (Forall (fun e => 0 <= e.2 < 256) (by_name exts)) as Hr.
  { rewrite Hp. eapply Forall_impl; [exact He|]. by intros e [_ ?]. }
  assert (NoDup (by_name exts).*1) as Hn' by by rewrite Hp.
  assert (sent = print (Dict (handshake_value (by_name exts) version size reqq))) as Es.
  { apply handshake_print; [eapply Forall_impl; [exact He|]; intros e [_ ?]; lia|naive_solver lia|naive_solver lia]. }
  destruct (handshake_limits (by_name exts) version size reqq Hr Hn') as (W1 & W2 & W3); [|done|done|].
  { unfold len in *. by rewrite Hp. }
  assert (decode sent = Ok (Dict (handshake_value (by_name exts) version size reqq))) as Hdec.
  { rewrite Es. apply decode_complete. rewrite Es in Hlen. done. }
  eexists. unfold parse_extension_handshake. rewrite Hdec, bind_ret.
  cbn [as_dict ok_or]. rewrite bind_ret. destruct (find_handshake (by_name exts) version size reqq) as (-> & -> & -> & ->).
  cbn [as_dict mbind option_bind as_str_utf8]. rewrite extensions_read, bind_ret by by rewrite Hp. rewrite Hu.
  rewrite (optional_read _ size), bind_ret by done.
  assert (forall msg, match (Int <$> reqq) ≫= as_int with
    | None => Ok None
    | Some value => if value =? 0 then Ok None
        else v ← ok_or (unsigned_try_from 64 value) (Parse msg); Ok (Some v) end = Ok reqq) as ->.
  { intros msg. rewrite <- (optional_read msg reqq) at 1 by naive_solver lia. destruct reqq as [q|]; [|done]. cbn.
    by rewrite (proj2 (Z.eqb_neq q 0)) by (specialize (Hq q eq_refl); lia). }
  rewrite bind_ret. split; [reflexivity|]. cbn. split; [exact Hp|]. split; [done|]. split; [done|]. split; [done|].
  intros name id Hin. apply find_pair; [done|]. by rewrite Hp.
Qed.

Lemma handshake_roundtrip_witness : exists h,
  parse_extension_handshake (encode_extension_handshake_with_reqq
    [(UT_PEX_NAME, 1); (UT_METADATA_NAME, 2)] (bytes_of "swarmotter") (Some 31235)) = Ok h /\
  id_for h UT_METADATA_NAME = Some 2 /\ Extensions.reqq h = Some 250 /\ metadata_size h = Some 31235.
Proof.
  destruct (handshake_roundtrip [(UT_PEX_NAME, 1); (UT_METADATA_NAME, 2)] (bytes_of "swarmotter") (Some 31235)
    (Some LOCAL_EXTENSION_REQQ) []) as (_ & h & E & _ & _ & H1 & H2 & H3).
  - apply Forall_cons. split; [done|]. apply Forall_singleton. done.
  - apply NoDup_cons. split; [|apply NoDup_singleton]. by intros ?%list_elem_of_singleton.
  - by vm_compute.
  - reflexivity.
  - by intros n [= <-].
  - by intros n [= <-].
  - by vm_compute.
  - exists h. split; [exact E|]. split; [apply H3; right; by left|]. split; [exact H2|exact H1].
Defined.

(** ** Peer exchange *)

Definition v4_peer (p : PeerAddr) : Prop := exists a, ip p = V4 a /\ in_width 32 a /\ in_width 16 (port p).
Definition v6_peer (p : PeerAddr) : Prop := exists a, ip p = V6 a /\ in_width 128 a /\ in_width 16 (port p).

Lemma foldl_concat {A} (g : list byte -> A -> list byte) (f : A -> list byte) l : forall out,
  (forall out a, a ∈ l -> g out a = out ++ f a) -> foldl g out l = out ++ concat (map f l).
Proof.
  induction l as [|a l IH]; intros out H; cbn [foldl map concat]; [by rewrite app_nil_r|].
  rewrite H, IH, <- app_assoc; [done| |set_solver]. intros o b Hb. apply H. set_solver.
Qed.

(** Records of [k + 2] bytes: [k] of an address and two of a port. *)
Lemma compact_roundtrip (k : nat) (mk : Z -> IpAddr) (peers : list PeerAddr) :
  Forall (fun p => exists a, ip p = mk a /\ in_width (8 * Z.of_nat k) a /\ in_width 16 (port p)) peers ->
  forall addr_of, (forall a, addr_of (mk a) = a) ->
  map (fun chunk => mkSocketAddr (mk (of_be (take k chunk))) (of_be (drop k chunk)))
    (as_chunks (k + 2) (concat (map (fun p => to_be k (addr_of (ip p)) ++ to_be 2 (port p)) peers))) = peers.
Proof.
  intros Hp addr_of Ha. apply compact_records; [lia|]. eapply Forall_impl; [exact Hp|].
  intros p (a & E & Hw & Hq). rewrite length_app, !length_to_be. split; [done|].
  rewrite take_app_length', drop_app_length' by by rewrite length_to_be. rewrite E, Ha, !of_be_to_be by done.
  destruct p as [i q]. cbn in *. by subst.
Qed.

Lemma compact_ipv4_roundtrip peers :
  Forall v4_peer peers -> parse_compact_ipv4 (encode_compact_ipv4 peers) = peers.
Proof.
  intros Hp. unfold parse_compact_ipv4, encode_compact_ipv4.
  rewrite (foldl_concat _ (fun p => to_be 4 (match ip p with V4 a | V6 a => a end) ++ to_be 2 (port p))).
  - cbn [app]. exact (compact_roundtrip 4 V4 peers Hp (fun i => match i with V4 a | V6 a => a end) (fun a => eq_refl)).
  - intros out p Hin. rewrite Forall_forall in Hp. destruct (Hp p Hin) as (a & -> & _). by rewrite <- app_assoc.
Qed.

Lemma compact_ipv6_roundtrip peers :
  Forall v6_peer peers -> parse_compact_ipv6 (encode_compact_ipv6 peers) = peers.
Proof.
  intros Hp. unfold parse_compact_ipv6, encode_compact_ipv6.
  rewrite (foldl_concat _ (fun p => to_be 16 (match ip p with V4 a | V6 a => a end) ++ to_be 2 (port p))).
  - cbn [app]. exact (compact_roundtrip 16 V6 peers Hp (fun i => match i with V4 a | V6 a => a end) (fun a => eq_refl)).
  - intros out p Hin. rewrite Forall_forall in Hp. destruct (Hp p Hin) as (a & -> & _). by rewrite <- app_assoc.
Qed.

Definition pex_value (msg : PexMessage) : dict :=
  [(bytes_of "added", Str (encode_compact_ipv4 (added msg)));
   (bytes_of "added.f", Str (replicate (length (added msg)) x00));
   (bytes_of "dropped", Str (encode_compact_ipv4 (dropped msg)));
   (bytes_of "added6", Str (encode_compact_ipv6 (added6 msg)));
   (bytes_of "added6.f", Str (replicate (length (added6 msg)) x00));
   (bytes_of "dropped6", Str (encode_compact_ipv6 (dropped6 msg)))].

Lemma pex_print msg : encode_pex msg = print (Dict (pex_value msg)).
Proof. unfold encode_pex, pex_value. flat_tac. Qed.

Lemma find_pex msg :
  find_key "added" (pex_value msg) = Some (Str (encode_compact_ipv4 (added msg))) /\
  find_key "dropped" (pex_value msg) = Some (Str (encode_compact_ipv4 (dropped msg))) /\
  find_key "added6" (pex_value msg) = Some (Str (encode_compact_ipv6 (added6 msg))) /\
  find_key "dropped6" (pex_value msg) = Some (Str (encode_compact_ipv6 (dropped6 msg))).
Proof. done. Qed.

(** Peer lists survive an exchange: a message with IPv4 peers in its IPv4 lists
    and IPv6 peers in the others parses to itself when it fits the size limit;
    parsing any payload returns. *)
Theorem pex_roundtrip msg payload :
  Forall v4_peer (added msg) -> Forall v4_peer (dropped msg) ->
  Forall v6_peer (added6 msg) -> Forall v6_peer (dropped6 msg) ->
  len (encode_pex msg) <= MAX_TORRENT_METADATA_BYTES ->
  parse_pex (encode_pex msg) = Ok msg /\ returns (parse_pex payload).
Proof.
  intros H1 H2 H3 H4 Hl. split.
  - unfold parse_pex. rewrite pex_print in Hl |- *. rewrite decode_complete.
    2: { split; [|split; [|split; [|done]]].
         - apply wf_Dict. split; [by apply (bool_decide_eq_true_1 _)|by repeat (apply Forall_cons; split)].
         - apply vdepth_Dict; [done|]. by repeat (apply Forall_cons; split).
         - done. }
    rewrite bind_ret. cbn [as_dict ok_or]. rewrite bind_ret. cbv zeta.
    destruct (find_pex msg) as (-> & -> & -> & ->).
    cbn [mbind option_bind as_str fmap option_fmap option_map default from_option id].
    rewrite !compact_ipv4_roundtrip, !compact_ipv6_roundtrip by done. by destruct msg.
  - unfold parse_pex. apply bind_returns; [apply decode_returns|]. intros v _. returns_tac.
Qed.

Lemma pex_roundtrip_witness :
  let msg := mkPex [mkSocketAddr (V4 0x7f000001) 6881] [] [mkSocketAddr (V6 1) 51413] [] in
  parse_pex (encode_pex msg) = Ok msg.
Proof.
  intros msg. refine (proj1 (pex_roundtrip msg [] _ _ _ _ _)).
  - apply Forall_singleton. by exists 0x7f000001.
  - by apply Forall_nil.
  - apply Forall_singleton. by exists 1.
  - by apply Forall_nil.
  - by vm_compute.
Defined.

(** ** Metadata exchange *)

Definition metadata_value (kind piece : Z) (total : option Z) : dict :=
  [(bytes_of "msg_type", Int kind); (bytes_of "piece", Int piece)] ++ optional "total_size" total.

Definition kind_of (t : MetadataMsgType) : Z := match t with Request => 0 | Data => 1 | Reject => 2 end.

Definition encode_metadata (msg : MetadataMessage) : list byte :=
  match msg_type msg, total_size msg with
  | Request, _ => encode_metadata_request (piece msg)
  | Reject, _ => encode_metadata_reject (piece msg)
  | Data, total => encode_metadata_data (piece msg) (default 0 total) (data msg)
  end.

(** What an encoder is called with: only data messages carry a size and bytes. *)
Definition sendable (msg : MetadataMessage) : Prop :=
  in_width 32 (piece msg) /\
  match msg_type msg with
  | Data => exists n, total_size msg = Some n /\ 0 <= n <= i64_max
  | _ => total_size msg = None /\ data msg = []
  end.

Lemma metadata_print msg :
  sendable msg ->
  encode_metadata msg = print (Dict (metadata_value (kind_of (msg_type msg)) (piece msg) (total_size msg))) ++ data msg.
Proof.
  intros [Hp Hm]. unfold in_width in Hp. unfold encode_metadata, metadata_value. destruct msg as [[] pc total bs]; cbn [msg_type piece total_size data kind_of] in *.
  - destruct Hm as [-> ->]. unfold encode_metadata_request. cbv zeta. rewrite write_number_print by lia. cbn [optional]. flat_tac.
  - destruct Hm as (n & -> & Hn). unfold encode_metadata_data. cbv zeta. cbn [default from_option id]. rewrite !write_number_print by lia. cbn [optional]. flat_tac.
  - destruct Hm as [-> ->]. unfold encode_metadata_reject. cbv zeta. rewrite write_number_print by lia. cbn [optional]. flat_tac.
Qed.

Lemma parse_metadata_returns payload : returns (parse_metadata_message payload).
Proof.
  unfold parse_metadata_message. apply bind_returns; [apply decode_prefix_returns|].
  intros [v n] ((m & ->) & -> & _)%decode_prefix_sound. apply bind_returns; [by destruct v|]. intros d _.
  apply bind_returns; [auto|]. intros t _. apply bind_returns; [by repeat case_match|]. intros ty _.
  apply bind_returns; [auto|]. intros p _. apply bind_returns; [auto|]. intros p' _.
  apply bind_returns; [destruct (_ ≫= as_int); returns_tac|]. intros sz _.
  pose proof (len_nonneg (print v)). pose proof (len_nonneg m).
  by rewrite slice_from_rest by (rewrite len_app; lia).
Qed.

(** Metadata messages survive an exchange: a request, a rejection or a data
    message — the dictionary followed by the raw bytes of the piece — parses to
    itself when it fits the size limit; parsing any payload returns. *)
Theorem metadata_message_roundtrip msg payload :
  sendable msg -> len (encode_metadata msg) <= MAX_TORRENT_METADATA_BYTES ->
  parse_metadata_message (encode_metadata msg) = Ok msg /\ returns (parse_metadata_message payload).
Proof.
  intros Hs Hl. pose proof Hs as [Hp Hm]. unfold in_width in Hp. split.
  - rewrite (metadata_print msg Hs) in Hl |- *.
    set (v := metadata_value _ _ _) in *.
    assert (forall n, total_size msg = Some n -> 0 <= n <= i64_max) as Ht.
    { intros n E. destruct (msg_type msg); [destruct Hm as [Hm _]; congruence| |destruct Hm as [Hm _]; congruence].
      destruct Hm as (n' & E' & Hn). congruence. }
    assert (wf (Dict v) /\ vdepth (Dict v) <= MAX_BENCODE_DEPTH /\ vnodes (Dict v) <= MAX_BENCODE_NODES) as (W1 & W2 & W3).
    { subst v. unfold metadata_value. unfold i64_max in *.
      assert (i64_min <= kind_of (msg_type msg) <= i64_max) by by destruct (msg_type msg).
      assert (i64_min <= piece msg <= i64_max) by (unfold i64_min, i64_max; lia).
      destruct (total_size msg) as [n|]; [specialize (Ht n eq_refl)|]; cbn [optional app].
      - assert (i64_min <= n <= i64_max) by (unfold i64_min, i64_max; lia).
        split; [|by split]. apply wf_Dict. split; [by apply (bool_decide_eq_true_1 _)|by repeat (apply Forall_cons; split)].
      - split; [|by split]. apply wf_Dict. split; [by apply (bool_decide_eq_true_1 _)|by repeat (apply Forall_cons; split)]. }
    unfold parse_metadata_message. rewrite (decode_prefix_complete _ _ W1 W2 W3 Hl), !bind_ret.
    assert (find_key "msg_type" v = Some (Int (kind_of (msg_type msg))) /\ find_key "piece" v = Some (Int (piece msg)) /\
      find_key "total_size" v = Int <$> total_size msg) as (-> & -> & ->) by (subst v; by destruct (total_size msg)).
    cbn [mbind option_bind as_int ok_or]. rewrite !bind_ret.
    assert ((if kind_of (msg_type msg) =? 0 then Ok Request else if kind_of (msg_type msg) =? 1 then Ok Data
              else if kind_of (msg_type msg) =? 2 then Ok Reject else Err (Parse "bad metadata msg_type"))
            = Ok (msg_type msg)) as -> by by destruct (msg_type msg).
    rewrite !bind_ret. rewrite (unsigned_try_from_ok 32 (piece msg)) by lia.
    cbn [andb ok_or]. rewrite bind_ret, (optional_read _ (total_size msg)), bind_ret by done.
    pose proof (len_nonneg (print (Dict v))). pose proof (len_nonneg (data msg)).
    rewrite slice_from_rest by (rewrite len_app; lia).
    rewrite (rest_app _ (print (Dict v)) (data msg) 0), bind_ret by done. by destruct msg.
  - apply parse_metadata_returns.
Qed.

Lemma metadata_message_roundtrip_witness :
  let msg := mkMetadata Data 2 (Some 40000) (bytes_of "raw e bytes") in
  parse_metadata_message (encode_metadata msg) = Ok msg.
Proof.
  intros msg. refine (proj1 (metadata_message_roundtrip msg [] _ _)); [|by vm_compute].
  split; [done|]. exists 40000. done.
Defined.
