(* ===== verification/Dht.v ===== *)
(** * The DHT: [crates/swarmotter-core/src/dht.rs]

    Node ids and the XOR distance, the bounded routing table, KRPC queries and
    responses (BEP 5) and compact node lists.  The theorems: the table keeps its
    bound and one entry per id, [closest] returns the nearest nodes, queries are
    canonical bencode that decodes to what was asked, and every datagram parses or
    is rejected without a panic.  The clock and the counter behind [random] are not
    modelled. *)

From S2P Require Import Prelude Text Bits Addr Hash Bencode BencodeCorrect Merkle Meta MetaParse ParseCorrect MetaBuild Extensions.

Local Open Scope byte_scope.
Local Open Scope Z_scope.

(** ** Node ids *)

Definition NodeId : Type := array 20.

Definition distance (a b : NodeId) : list byte :=
  zip_with (fun a b => as_u8 (Z.lxor (u8 a) (u8 b))) (as_bytes a) (as_bytes b).

Section derive.
Context {D : Digests}.
Definition derive (seed : array 20) : NodeId := sha1 (as_bytes seed).
End derive.

Record DhtNode : Type := mkNode { id : NodeId; addr : SocketAddr }.

(** ** The routing table *)

Record RoutingTable : Type := mkTable { nodes : list DhtNode; k : Z }.

Definition table_new (k : Z) : RoutingTable := mkTable [] (Z.max k 1).
(** [#[derive(Default)]]. *)
Definition table_default : RoutingTable := mkTable [] 0.

Fixpoint set_addr (node : DhtNode) (ns : list DhtNode) : option (list DhtNode) :=
  match ns with
  | [] => None
  | n :: ns =>
      if bool_decide (id n = id node) then Some (mkNode (id n) (addr node) :: ns)
      else cons n <$> set_addr node ns
  end.

(** [Vec::remove(0)] panics on an empty vector. *)
Definition insert (t : RoutingTable) (node : DhtNode) : outcome RoutingTable :=
  match set_addr node (nodes t) with
  | Some ns => Ok (mkTable ns (k t))
  | None =>
      ns ← (if wrap 64 (k t * 8) <=? len (nodes t)
            then match nodes t with [] => Panic | _ :: ns => Ok ns end
            else Ok (nodes t));
      Ok (mkTable (ns ++ [node]) (k t))
  end.

Definition closest (t : RoutingTable) (target : NodeId) (k : Z) : list DhtNode :=
  let scored := map (fun n => (distance (id n) target, n)) (nodes t) in
  let scored := sort_by (fun a b => bytes_le a.1 b.1) scored in
  map snd (take (Z.to_nat k) scored).

(** ** Queries *)

Definition TransactionId : Type := array 2.

Inductive KrpcMethod : Type := Ping | FindNode | GetPeers | AnnouncePeer.

Definition method_name (m : KrpcMethod) : text :=
  bytes_of match m with
           | Ping => "ping" | FindNode => "find_node" | GetPeers => "get_peers" | AnnouncePeer => "announce_peer"
           end.

Definition from_name (s : text) : option KrpcMethod :=
  if bool_decide (s = bytes_of "ping") then Some Ping
  else if bool_decide (s = bytes_of "find_node") then Some FindNode
  else if bool_decide (s = bytes_of "get_peers") then Some GetPeers
  else if bool_decide (s = bytes_of "announce_peer") then Some AnnouncePeer
  else None.

Record KrpcArgs : Type := mkArgs {
  args_id : NodeId; target : option PeerInfoHash; args_port : option Z; args_token : option (list byte) }.

(** [dht::write_str]. *)
Definition write_str (out b : list byte) : list byte := out ++ print_dec (len b) ++ [":"] ++ b.

Definition encode_args (out : list byte) (method : KrpcMethod) (args : KrpcArgs) : list byte :=
  let out := out ++ ["d"] in
  let out := write_str out (bytes_of "id") in
  let out := write_str out (as_bytes (args_id args)) in
  let out := match target args with
             | Some t =>
                 match method with
                 | FindNode => write_str (write_str out (bytes_of "target")) (as_bytes (wire_hash t))
                 | GetPeers | AnnouncePeer =>
                     write_str (write_str out (bytes_of "info_hash")) (as_bytes (wire_hash t))
                 | Ping => out
                 end
             | None => out
             end in
  let out := match args_port args with
             | Some port => write_str out (bytes_of "port") ++ ["i"] ++ print_dec port ++ ["e"]
             | None => out
             end in
  let out := match args_token args with
             | Some token => write_str (write_str out (bytes_of "token")) token
             | None => out
             end in
  out ++ ["e"].

Definition encode_query (txn : TransactionId) (method : KrpcMethod) (args : KrpcArgs) : list byte :=
  let out := ["d"] in
  let out := write_str out (bytes_of "a") in
  let out := encode_args out method args in
  let out := write_str out (bytes_of "q") in
  let out := write_str out (method_name method) in
  let out := write_str out (bytes_of "t") in
  let out := write_str out (as_bytes txn) in
  let out := write_str out (bytes_of "y") in
  let out := write_str out (bytes_of "q") in
  out ++ ["e"].

Definition build_get_peers (txn : TransactionId) (self_id : NodeId) (info_hash : PeerInfoHash) : list byte :=
  encode_query txn GetPeers (mkArgs self_id (Some info_hash) None None).
Definition build_find_node (txn : TransactionId) (self_id target : NodeId) : list byte :=
  encode_query txn FindNode (mkArgs self_id (Some (mkPeerInfoHash target)) None None).
Definition build_ping (txn : TransactionId) (self_id : NodeId) : list byte :=
  encode_query txn Ping (mkArgs self_id None None None).
Definition build_announce_peer (txn : TransactionId) (self_id : NodeId) (info_hash : PeerInfoHash)
    (port : Z) (token : list byte) : list byte :=
  encode_query txn AnnouncePeer (mkArgs self_id (Some info_hash) (Some port) (Some token)).

(** ** Compact nodes *)

(** Chunks have all their bytes, so the copies never panic. *)
Definition node_of (chunk : list byte) (ip : IpAddr) (port : list byte) : outcome DhtNode :=
  id ← copy_from_slice 20 (take 20 chunk);
  Ok (mkNode id (mkSocketAddr ip (of_be port))).

Definition parse_compact_nodes (bytes : list byte) : outcome (list DhtNode) :=
  mapM (fun chunk => node_of chunk (V4 (of_be (take 4 (drop 20 chunk)))) (drop 24 chunk)) (as_chunks 26 bytes).
Definition parse_compact_nodes6 (bytes : list byte) : outcome (list DhtNode) :=
  mapM (fun chunk => node_of chunk (V6 (of_be (take 16 (drop 20 chunk)))) (drop 36 chunk)) (as_chunks 38 bytes).

Definition encode_compact_nodes (ns : list DhtNode) : list byte :=
  foldl (fun out n =>
    ((out ++ as_bytes (id n))
     ++ match ip (addr n) with V4 v4 => to_be 4 v4 | V6 _ => [x00; x00; x00; x00] end)
    ++ to_be 2 (port (addr n))) [] ns.

Definition parse_one_peer (bytes : list byte) : option PeerAddr :=
  if len bytes =? 6 then Some (mkSocketAddr (V4 (of_be (take 4 bytes))) (of_be (drop 4 bytes)))
  else if len bytes =? 18 then Some (mkSocketAddr (V6 (of_be (take 16 bytes))) (of_be (drop 16 bytes)))
  else None.

(** ** Responses *)

Record KrpcResponse : Type := mkResponse {
  txn : TransactionId; sender_id : option NodeId; resp_nodes : list DhtNode; peers : list PeerAddr;
  token : option (list byte); error : option (Z * text) }.

(** The first two bytes of a transaction id, zeros where it is shorter. *)
Definition read_txn (txn_bytes : list byte) : outcome TransactionId :=
  if 2 <=? len txn_bytes then bs ← slice txn_bytes 0 2; copy_from_slice 2 bs
  else match txn_bytes with b :: _ => copy_from_slice 2 [b; x00] | [] => Ok (zero_array 2) end.

(** The [y = "r"] arm on a response without fields. *)
Definition read_result (txn : TransactionId) (r : dict) : outcome KrpcResponse :=
  sender_id ← match find_key "id" r ≫= as_str with
              | Some id => if len id =? 20 then arr ← copy_from_slice 20 id; Ok (Some arr) else Ok None
              | None => Ok None
              end;
  let token := find_key "token" r ≫= as_str in
  nodes ← match find_key "nodes" r ≫= as_str with Some ns => parse_compact_nodes ns | None => Ok [] end;
  nodes6 ← match find_key "nodes6" r ≫= as_str with Some ns => parse_compact_nodes6 ns | None => Ok [] end;
  let peers := match find_key "values" r ≫= as_list with
               | Some values => omap (fun v => as_str v ≫= parse_one_peer) values
               | None => []
               end in
  Ok (mkResponse txn sender_id (nodes ++ nodes6) peers token None).

(** The [y = "e"] arm. *)
Definition read_error (txn : TransactionId) (dict : dict) : KrpcResponse :=
  let error := match find_key "e" dict ≫= as_list with
               | Some e =>
                   let code := default 0 (get e 0 ≫= as_int) in
                   let msg := default [] (get e 1 ≫= as_str_utf8) in
                   Some (code, msg)
               | None => None
               end in
  mkResponse txn None [] [] None error.

Definition parse_response (buf : list byte) : outcome KrpcResponse :=
  root ← decode buf;
  dict ← ok_or (as_dict root) (Parse "krpc message not a dict");
  txn_bytes ← ok_or (find_key "t" dict ≫= as_str) (Parse "krpc missing transaction id");
  txn ← read_txn txn_bytes;
  let y := find_key "y" dict ≫= as_str in
  if bool_decide (y = Some (bytes_of "r")) then
    r ← ok_or (find_key "r" dict ≫= as_dict) (Parse "krpc response missing r");
    read_result txn r
  else if bool_decide (y = Some (bytes_of "e")) then Ok (read_error txn dict)
  else Err (Parse "krpc unknown message type").


(** ** The XOR metric *)

(** Ids as 160-bit numbers, and their distance. *)
Definition number {n} (a : array n) : Z := of_be (as_bytes a).
Definition metric (a b : NodeId) : Z := Z.lxor (number a) (number b).

Lemma lxor_digits a b c d k :
  0 <= k -> 0 <= b < 2 ^ k -> 0 <= d < 2 ^ k ->
  Z.lxor (a * 2 ^ k + b) (c * 2 ^ k + d) = Z.lxor a c * 2 ^ k + Z.lxor b d.
Proof.
  intros Hk Hb Hd. set (x := a * 2 ^ k + b). set (y := c * 2 ^ k + d).
  assert (forall q r, 0 <= r < 2 ^ k -> Z.shiftr (q * 2 ^ k + r) k = q /\ Z.land (q * 2 ^ k + r) (Z.ones k) = r) as Hqr.
  { intros q r Hr. rewrite Z.shiftr_div_pow2, Z.land_ones by lia.
    rewrite Z.div_add_l, Z.div_small by lia. split; [lia|].
    rewrite Z.add_comm, Z_mod_plus_full. by apply Z.mod_small. }
  destruct (Hqr a b Hb) as [Ex1 Ex2], (Hqr c d Hd) as [Ey1 Ey2]. fold x in Ex1, Ex2. fold y in Ey1, Ey2.
  rewrite <- Ex1, <- Ey1, <- Ex2, <- Ey2, <- Z.shiftr_lxor. 
  assert (Z.lxor (Z.land x (Z.ones k)) (Z.land y (Z.ones k)) = Z.land (Z.lxor x y) (Z.ones k)) as ->.
  { apply Z.bits_inj'. intros n _. rewrite !Z.lxor_spec, !Z.land_spec, Z.lxor_spec.
    by destruct (Z.testbit x n), (Z.testbit y n), (Z.testbit (Z.ones k) n). }
  rewrite Z.land_ones, Z.shiftr_div_pow2, Z.mul_comm by lia. apply Z.div_mod. lia.
Qed.

Lemma u8_xor a b : u8 (as_u8 (Z.lxor (u8 a) (u8 b))) = Z.lxor (u8 a) (u8 b).
Proof.
  rewrite u8_as_u8. apply wrap_small.
  assert (forallb (fun a => forallb (fun b => (0 <=? Z.lxor (u8 a) (u8 b)) && (Z.lxor (u8 a) (u8 b) <? 256)) all_bytes)
    all_bytes = true) as H by (vm_compute; reflexivity).
  pose proof (byte_check _ H a) as Hb. apply (fun x => byte_check _ x b) in Hb.
  cbn beta in Hb. unfold in_width. change (2 ^ 8) with 256. lia.
Qed.

Lemma of_be_xor a : forall b,
  length a = length b ->
  of_be (zip_with (fun a b => as_u8 (Z.lxor (u8 a) (u8 b))) a b) = Z.lxor (of_be a) (of_be b).
Proof.
  induction a as [|x a IH]; intros [|y b] E; try done. cbn [length] in E. injection E as E.
  cbn [zip_with]. rewrite !of_be_cons, IH, u8_xor by done.
  assert (len (zip_with (fun a b => as_u8 (Z.lxor (u8 a) (u8 b))) a b) = len a) as ->.
  { unfold len. rewrite length_zip_with_l_eq by done. done. }
  assert (len a = len b) as El by (unfold len; by rewrite E).
  pose proof (of_be_bound a). pose proof (of_be_bound b). rewrite <- El in *. symmetry.
  apply lxor_digits; [pose proof (len_nonneg a); lia|done|done].
Qed.

Lemma distance_number a b : of_be (distance a b) = metric a b.
Proof. apply of_be_xor. by rewrite !array_length. Qed.

Lemma bytes_le_number a : forall b,
  length a = length b -> bytes_le a b = (of_be a <=? of_be b).
Proof.
  induction a as [|x a IH]; intros [|y b] E; try done. cbn [length] in E. injection E as E.
  cbn [bytes_le]. rewrite !of_be_cons, IH by done.
  assert (len a = len b) as El by (unfold len; by rewrite E). rewrite <- El.
  pose proof (of_be_bound a). pose proof (of_be_bound b). rewrite <- El in *.
  set (m := 2 ^ (8 * len a)) in *.
  destruct (Z.ltb_spec (u8 x) (u8 y)).
  { symmetry. apply Z.leb_le. nia. }
  destruct (Z.eqb_spec (u8 x) (u8 y)) as [->|]; [|symmetry; apply Z.leb_gt; nia].
  destruct (Z.leb_spec (of_be a) (of_be b)); symmetry; [apply Z.leb_le|apply Z.leb_gt]; lia.
Qed.

Lemma number_inj {n} (a b : array n) : number a = number b -> a = b.
Proof.
  intros E. apply array_eq. rewrite <- (to_be_of_be n (as_bytes a)), <- (to_be_of_be n (as_bytes b)) by apply array_length.
  unfold number in E. by rewrite E.
Qed.

(** ** The table *)

Definition wf_table (t : RoutingTable) : Prop :=
  1 <= k t /\ k t * 8 <= usize_max /\ NoDup (map id (nodes t)) /\ len (nodes t) <= k t * 8.

Lemma set_addr_Some node ns ns' :
  set_addr node ns = Some ns' ->
  exists a old b, ns = a ++ old :: b /\ ns' = a ++ node :: b /\ id old = id node /\ id node ∉ map id a.
Proof.
  revert ns'. induction ns as [|n ns IH]; intros ns' E; [done|]. cbn [set_addr] in E.
  case_bool_decide as Hid.
  - injection E as <-. exists [], n, ns. split; [done|]. split; [by rewrite Hid; destruct node|].
    split; [done|]. by intros ?%not_elem_of_nil.
  - destruct (set_addr node ns) as [k|]; [|done]. injection E as <-.
    destruct (IH k eq_refl) as (a & old & b & -> & -> & E & Hn). exists (n :: a), old, b. repeat split; [done|].
    cbn [map]. rewrite not_elem_of_cons. split; [congruence|done].
Qed.

Lemma set_addr_None node ns : set_addr node ns = None <-> id node ∉ map id ns.
Proof.
  induction ns as [|n ns IH]; cbn [set_addr map]; [split; [intros _ ?%not_elem_of_nil|]; done|].
  rewrite not_elem_of_cons. case_bool_decide as Hid; [by split; [|intros [H _]; congruence]|].
  destruct (set_addr node ns); cbn [fmap option_fmap option_map].
  - split; [done|]. intros [_ H]. apply IH in H. done.
  - split; [|done]. intros _. split; [congruence|]. by apply IH.
Qed.

(** What an insertion does to a table: the entry of the id gets the new address in
    place, a new id goes to the end, and the oldest entry leaves a full table. *)
Definition inserted (t t' : RoutingTable) (node : DhtNode) : Prop :=
  (exists a old b, nodes t = a ++ old :: b /\ nodes t' = a ++ node :: b /\ id old = id node) \/
  ((id node ∉ map id (nodes t)) /\
   ((len (nodes t) < k t * 8 /\ nodes t' = nodes t ++ [node]) \/
    (len (nodes t) = k t * 8 /\ exists old b, nodes t = old :: b /\ nodes t' = b ++ [node]))).

Lemma insert_exact t node :
  wf_table t -> exists t', insert t node = Ok t' /\ k t' = k t /\ wf_table t' /\ inserted t t' node.
Proof.
  intros (Hk & Hm & Hd & Hl). unfold insert. destruct (set_addr node (nodes t)) as [ns|] eqn:E.
  - destruct (set_addr_Some _ _ _ E) as (a & old & b & En & -> & Eid & _).
    eexists. split; [reflexivity|]. split; [done|]. split.
    + rewrite En in Hd, Hl. split; [done|]. split; [done|]. cbn [nodes k]. rewrite map_app in *. cbn [map] in *.
      rewrite Eid in Hd. split; [done|]. rewrite len_app, len_cons in *. done.
    + left. by exists a, old, b.
  - apply set_addr_None in E. rewrite wrap_small by (unfold in_width, usize_max in *; lia).
    assert (forall b c, nodes t = b ++ c -> len c < k t * 8 -> wf_table (mkTable (c ++ [node]) (k t))) as Hw.
    { intros b c En Hc. split; [done|]. split; [done|]. cbn [nodes k]. rewrite len_app. change (len [node]) with 1.
      split; [|lia]. rewrite En in Hd, E. rewrite map_app in *. cbn [map]. apply NoDup_app in Hd as (_ & _ & Hd).
      apply NoDup_app. split; [done|]. split; [|apply NoDup_singleton].
      intros x Hx ->%list_elem_of_singleton. apply E, elem_of_app. by right. }
    destruct (Z.leb_spec (k t * 8) (len (nodes t))) as [Hf|Hf].
    + destruct (nodes t) as [|old b] eqn:En; [change (len []) with 0 in Hf; lia|]. rewrite bind_ret.
      rewrite len_cons in *. eexists. split; [reflexivity|]. split; [done|].
      split; [apply (Hw [old] b); [done|lia]|]. right. rewrite En. split; [done|]. right. rewrite len_cons. split; [lia|].
      by exists old, b.
    + rewrite bind_ret. eexists. split; [reflexivity|]. split; [done|].
      split; [by apply (Hw [] (nodes t))|]. right. split; [done|]. by left.
Qed.

Lemma inserts_exact ns : forall t,
  wf_table t -> exists t', try_fold insert t ns = Ok t' /\ k t' = k t /\ wf_table t'.
Proof.
  induction ns as [|n ns IH]; intros t Hw; cbn [try_fold]; [by exists t|].
  destruct (insert_exact t n Hw) as (t1 & -> & Ek & Hw1 & _). rewrite bind_ret.
  destruct (IH t1 Hw1) as (t2 & E & Ek2 & Hw2). exists t2. split; [exact E|]. split; [congruence|done].
Qed.

(** The routing table stays well formed however it is filled: from a new table
    of parameter [k], any sequence of insertions returns, and the table then keeps
    one entry per node id and at most [8 * max k 1] entries; one more insertion
    replaces the address of a known id in place, appends a new id, and drops the
    oldest entry exactly when the table is full.  The empty table of
    [RoutingTable::default] has no such invariant: inserting into it panics. *)
Theorem routing_table_exact k0 ns node :
  Z.max k0 1 * 8 <= usize_max ->
  insert table_default node = Panic /\
  exists t t', try_fold insert (table_new k0) ns = Ok t /\ wf_table t /\ k t = Z.max k0 1 /\
    insert t node = Ok t' /\ wf_table t' /\ k t' = k t /\ inserted t t' node.
Proof.
  intros Hk. split; [done|].
  destruct (inserts_exact ns (table_new k0)) as (t & E & Ek & Hw).
  { split; [cbn; lia|]. split; [done|]. split; [apply NoDup_nil_2|]. cbn [nodes table_new k]. change (len []) with 0. lia. }
  destruct (insert_exact t node Hw) as (t' & E' & Ek' & Hw' & Hi). by exists t, t'.
Qed.

Definition loop_node (b : byte) (port : Z) : DhtNode :=
  mkNode (pad_array 20 [b]) (mkSocketAddr (V4 0x7f000001) port).

Lemma routing_table_exact_witness :
  Z.max 0 1 * 8 <= usize_max /\
  exists t t', try_fold insert (table_new 0) (map (fun i => loop_node (as_u8 i) 1) (seqZ 0 9)) = Ok t /\
    wf_table t /\ insert t (loop_node (as_u8 3) 2) = Ok t' /\ wf_table t'.
Proof.
  split; [by vm_compute|].
  destruct (routing_table_exact 0 (map (fun i => loop_node (as_u8 i) 1) (seqZ 0 9)) (loop_node (as_u8 3) 2))
    as (_ & t & t' & H1 & H2 & _ & H3 & H4 & _); [by vm_compute|]. by exists t, t'.
Defined.

(** ** The closest nodes *)

Definition nearer (target : NodeId) (a b : DhtNode) : Prop := metric (id a) target <= metric (id b) target.

Lemma sort_by_key {A B} (key : A -> B) (le : B -> B -> bool) (l : list A) :
  map snd (sort_by (fun a b => le a.1 b.1) (map (fun a => (key a, a)) l)) = sort_by (fun a b => le (key a) (key b)) l.
Proof.
  rewrite (sort_by_map (fun a b => le (key a) (key b))) by done. rewrite <- list_fmap_compose.
  apply list_fmap_id.
Qed.

Lemma closest_sort t target n :
  closest t target n
  = take (Z.to_nat n) (sort_by (fun a b => metric (id a) target <=? metric (id b) target) (nodes t)).
Proof.
  unfold closest. cbv zeta. rewrite fmap_take. f_equal.
  rewrite (sort_by_key (fun n => distance (id n) target)).
  apply sort_by_ext. intros a b. rewrite <- !distance_number. apply bytes_le_number.
  unfold distance. by rewrite !length_zip_with, !array_length.
Qed.

Lemma sorted_nearer target ns :
  StronglySorted (nearer target) (sort_by (fun a b => metric (id a) target <=? metric (id b) target) ns).
Proof.
  apply Sorted_StronglySorted; [intros a b c; unfold nearer; lia|].
  pose proof (sort_by_sorted (fun a b => metric (id a) target <=? metric (id b) target) ns ltac:(intros x y; cbn beta; lia)) as H.
  induction H as [|a l _ IH Ha]; [constructor|]. constructor; [done|].
  destruct Ha as [|b l Ha]; constructor. unfold nearer. cbn beta in Ha. lia.
Qed.

Lemma metric_inj a b target : metric a target = metric b target -> a = b.
Proof.
  unfold metric. intros E. apply number_inj. apply (f_equal (fun x => Z.lxor x (number target))) in E.
  by rewrite !Z.lxor_assoc, !Z.lxor_nilpotent, !Z.lxor_0_r in E.
Qed.

(** [closest] returns the nearest nodes by the XOR distance of the 160-bit ids:
    [min k (number of nodes)] nodes of the table, in order of distance, and every
    node that is left out is strictly farther from the target than every node
    returned. *)
Theorem closest_nearest t target n :
  wf_table t -> 0 <= n ->
  let r := closest t target n in
  (len r = Z.min n (len (nodes t))) /\ NoDup (map id r) /\ StronglySorted (nearer target) r /\
  (forall a, a ∈ r -> a ∈ nodes t) /\
  (forall a b, a ∈ nodes t -> (a ∉ r) -> b ∈ r -> metric (id b) target < metric (id a) target).
Proof.
  intros (_ & _ & Hd & _) Hn r. subst r. rewrite closest_sort.
  pose proof (sorted_nearer target (nodes t)) as Hs. revert Hs.
  set (l := sort_by _ (nodes t)). assert (l ≡ₚ nodes t) as Hp by apply sort_by_perm. intros Hs.
  rewrite <- Hp in Hd. assert (len l = len (nodes t)) as <- by (unfold len; by rewrite Hp).
  assert (forall a, a ∈ l <-> a ∈ nodes t) as Hin by (intros a; by rewrite Hp).
  pose proof (take_drop (Z.to_nat n) l) as Hl.
  split; [|split; [|split; [|split]]].
  - unfold len. rewrite length_take. lia.
  - rewrite <- Hl, map_app in Hd. by apply NoDup_app in Hd as [Hd _].
  - rewrite <- Hl in Hs. by apply StronglySorted_app in Hs as (_ & Hs & _).
  - intros a Ha. apply Hin. rewrite <- Hl. apply elem_of_app. by left.
  - intros a b Ha Hna Hb. apply Hin in Ha. rewrite <- Hl in Ha. apply elem_of_app in Ha as [Ha|Ha]; [done|].
    rewrite <- Hl in Hs. apply StronglySorted_app in Hs as (Hs & _ & _). specialize (Hs b a Hb Ha). unfold nearer in Hs.
    assert (metric (id b) target <> metric (id a) target); [|lia]. intros E%metric_inj.
    rewrite <- Hl, map_app in Hd. apply NoDup_app in Hd as (_ & Hd & _).
    apply (Hd (id b)); [by apply list_elem_of_fmap_2|]. rewrite E. by apply list_elem_of_fmap_2.
Qed.

Lemma closest_nearest_witness :
  let t := mkTable (map (fun i => loop_node (as_u8 i) 1) [9; 4; 7; 5]) 8 in
  wf_table t /\ let r := closest t (pad_array 20 [x04]) 2 in len r = 2 /\ NoDup (map id r).
Proof.
  intros t. assert (wf_table t) as Hw.
  { split; [done|]. split; [by vm_compute|]. split; [|by vm_compute].
    apply (NoDup_fmap_1 number). by apply (bool_decide_eq_true_1 (NoDup _)). }
  split; [exact Hw|]. destruct (closest_nearest t (pad_array 20 [x04]) 2 Hw) as (H1 & H2 & _); [lia|].
  split; [exact H1|exact H2].
Defined.

(** ** Queries *)

Definition args_value (method : KrpcMethod) (args : KrpcArgs) : dict :=
  [(bytes_of "id", Str (as_bytes (args_id args)))]
  ++ match target args, method with
     | Some t, FindNode => [(bytes_of "target", Str (as_bytes (wire_hash t)))]
     | Some t, GetPeers | Some t, AnnouncePeer => [(bytes_of "info_hash", Str (as_bytes (wire_hash t)))]
     | _, _ => []
     end
  ++ match args_port args with Some port => [(bytes_of "port", Int port)] | None => [] end
  ++ match args_token args with Some token => [(bytes_of "token", Str token)] | None => [] end.

Definition query_value (txn : TransactionId) (method : KrpcMethod) (args : KrpcArgs) : Value :=
  Dict [(bytes_of "a", Dict (args_value method args)); (bytes_of "q", Str (method_name method));
        (bytes_of "t", Str (as_bytes txn)); (bytes_of "y", Str (bytes_of "q"))].

Lemma push_str_print out b : write_str out b = out ++ print (Str b).
Proof. done. Qed.

Lemma print_int n : 0 <= n -> print (Int n) = ["i"] ++ print_dec n ++ ["e"].
Proof. intros Hn. symmetry. exact (write_int_print [] n Hn). Qed.

Lemma encode_args_print out method args :
  (forall p, args_port args = Some p -> 0 <= p) ->
  encode_args out method args = out ++ print (Dict (args_value method args)).
Proof.
  intros Hp. unfold encode_args, args_value. rewrite !push_str_print.
  destruct args as [i [t|] [p|] [tok|]]; destruct method; cbn [args_id target args_port args_token] in *;
    rewrite ?push_str_print, <- ?print_int by auto; flat_tac.
Qed.

Lemma encode_query_print txn method args :
  (forall p, args_port args = Some p -> 0 <= p) ->
  encode_query txn method args = print (query_value txn method args).
Proof.
  intros Hp. unfold encode_query, query_value. cbv zeta. rewrite !push_str_print.
  rewrite encode_args_print by done. flat_tac.
Qed.

Lemma args_value_limits method args :
  (forall p, args_port args = Some p -> in_width 16 p) ->
  wf (Dict (args_value method args)) /\ vdepth (Dict (args_value method args)) <= 1 /\
  vnodes (Dict (args_value method args)) <= 9.
Proof.
  intros Hp. destruct args as [i t p tok]. cbn [args_port] in Hp.
  assert (forall x, p = Some x -> i64_min <= x <= i64_max) as Hp'.
  { intros x E. specialize (Hp x E). unfold in_width in Hp. unfold i64_min, i64_max. lia. }
  unfold args_value. cbn [args_id target args_port args_token].
  destruct t as [t|], method, p as [p|], tok as [tok|]; cbn [app];
    (split; [apply wf_Dict; split; [by apply (bool_decide_eq_true_1 (NoDup _))|
              repeat (apply Forall_cons; split); cbn [snd wf]; try done; by apply Hp']|by split]).
Qed.

Lemma args_value_canonical method args :
  (method = FindNode -> args_port args = None) -> canonical (Dict (args_value method args)).
Proof.
  intros Hm. destruct args as [i t p tok]. cbn [args_port] in Hm. unfold args_value. cbn [args_id target args_port args_token].
  destruct method; try (rewrite Hm by done); destruct t, tok; try destruct p; cbn [app];
    (split; [repeat constructor|done]).
Qed.

(** Every KRPC query is read back as what was asked: the datagram decodes to
    the dictionary of the arguments, the method name, the transaction id and the
    query marker, and the name determines the method.  With the arguments the
    builders pass the encoding is canonical (sorted keys at both levels), and only
    [get_peers] and [announce_peer] name the torrent as [info_hash]. *)
Theorem krpc_query_exact txn method args :
  (forall p, args_port args = Some p -> in_width 16 p) ->
  len (encode_query txn method args) <= MAX_TORRENT_METADATA_BYTES ->
  decode (encode_query txn method args) = Ok (query_value txn method args) /\
  from_name (method_name method) = Some method /\
  ((method = FindNode -> args_port args = None) -> canonical (query_value txn method args)) /\
  find_key "info_hash" (args_value method args)
  = match method with
    | GetPeers | AnnouncePeer => (fun t => Str (as_bytes (wire_hash t))) <$> target args
    | Ping | FindNode => None
    end.
Proof.
  intros Hp Hl. destruct (args_value_limits method args Hp) as (W1 & W2 & W3).
  rewrite encode_query_print in Hl |- * by (intros p E; specialize (Hp p E); unfold in_width in Hp; lia).
  split; [|split; [|split]].
  - apply decode_complete. unfold query_value in *. split; [|split; [|split; [|done]]].
    + apply wf_Dict. split; [by apply (bool_decide_eq_true_1 (NoDup _))|]. by repeat (apply Forall_cons; split).
    + apply vdepth_Dict; [done|]. apply Forall_cons. split; [cbn [snd]; unfold MAX_BENCODE_DEPTH; lia|].
      by repeat (apply Forall_cons; split).
    + change (1 + entries_nodes (("a" :: [], Dict (args_value method args)) ::
        [(bytes_of "q", Str (method_name method)); (bytes_of "t", Str (as_bytes txn)); (bytes_of "y", Str (bytes_of "q"))])
        <= MAX_BENCODE_NODES).
      unfold entries_nodes, MAX_BENCODE_NODES. cbn [foldr snd vnodes] in *. cbn [vnodes] in W3. lia.
  - by destruct method.
  - intros Hm. apply args_value_canonical in Hm. split; [repeat constructor|]. by split.
  - by destruct args as [i [t|] [p|] [tok|]], method.
Qed.

Lemma krpc_query_exact_witness :
  let txn := pad_array 2 [x01; x02] in
  let args := mkArgs (pad_array 20 [x07]) (Some (mkPeerInfoHash (pad_array 20 [x08]))) (Some 6881) (Some [xaa]) in
  decode (encode_query txn AnnouncePeer args) = Ok (query_value txn AnnouncePeer args).
Proof.
  intros txn args. apply (krpc_query_exact txn AnnouncePeer args); [by intros p [= <-]|by vm_compute].
Defined.

(** ** Compact nodes and responses *)

Definition v4_node (n : DhtNode) : Prop := v4_peer (addr n).

Lemma compact_nodes_roundtrip ns :
  Forall v4_node ns -> parse_compact_nodes (encode_compact_nodes ns) = Ok ns.
Proof.
  intros Hn. unfold parse_compact_nodes, encode_compact_nodes.
  rewrite (foldl_concat _ (fun n => as_bytes (id n) ++ to_be 4 (match ip (addr n) with V4 a | V6 a => a end) ++ to_be 2 (port (addr n)))).
  2: { intros out n Hin. rewrite Forall_forall in Hn. destruct (Hn n Hin) as (a & -> & _). by rewrite <- !app_assoc. }
  cbn [app]. rewrite as_chunks_concat; [|lia|].
  2: { apply Forall_forall. intros c (n & -> & _)%list_elem_of_fmap. by rewrite !length_app, array_length, !length_to_be. }
  apply mapM_Ok. induction Hn as [|n ns (a & E & Hw & Hq) _ IH]; cbn [map]; constructor; [|done].
  destruct n as [i [p q]]. cbn [id addr ip port] in *. subst p. unfold node_of.
  rewrite take_app_length' by by rewrite array_length.
  rewrite array_bytes, bind_ret.
  rewrite (app_assoc (as_bytes i)), (drop_app_length' _ _ 24) by by rewrite length_app, array_length, length_to_be.
  rewrite <- app_assoc, (drop_app_length' (as_bytes i)) by by rewrite array_length.
  rewrite take_app_length' by by rewrite length_to_be. by rewrite !of_be_to_be by done.
Qed.

Lemma parse_compact_nodes_returns bytes : returns (parse_compact_nodes bytes) /\ returns (parse_compact_nodes6 bytes).
Proof.
  split; apply mapM_returns; intros c Hc%as_chunks_length; try lia; unfold node_of;
    (destruct (copy_from_slice_total 20 (take 20 c)) as (a & -> & _); [rewrite length_take; lia|done]).
Qed.

Lemma read_txn_returns bytes : returns (read_txn bytes).
Proof.
  unfold read_txn. destruct (Z.leb_spec 2 (len bytes)) as [Hl|Hl]; [|by destruct bytes].
  destruct bytes as [|a [|b m]]; [by vm_compute in Hl..|]. 
  unfold slice. rewrite (proj2 (Z.leb_le 2 _)) by done. done.
Qed.

Definition krpc_error (e : CoreError) : Prop := bencode_error e \/ exists msg, e = Parse msg.

Lemma krpc_error_bencode {A} (m : outcome A) : err_only bencode_error m -> err_only krpc_error m.
Proof. apply err_only_weaken. by left. Qed.
Lemma krpc_error_parse msg : krpc_error (Parse msg).
Proof. right. by exists msg. Qed.
#[local] Hint Resolve krpc_error_parse krpc_error_bencode decode_errors copy_from_slice_errors slice_errors : err_only.

Lemma parse_response_errors buf : err_only krpc_error (parse_response buf).
Proof.
  assert (forall c ip p, err_only krpc_error (node_of c ip p)) as Hn by (intros; unfold node_of; err_only_tac).
  assert (forall b, err_only krpc_error (parse_compact_nodes b) /\ err_only krpc_error (parse_compact_nodes6 b)) as Hc.
  { intros b. split; by apply err_only_mapM. }
  unfold parse_response, read_txn, read_result. err_only_tac; apply Hc.
Qed.

Lemma parse_response_returns buf : returns (parse_response buf).
Proof.
  unfold parse_response. apply bind_returns; [apply decode_returns|intros v _].
  apply bind_returns; [auto|intros d _]. apply bind_returns; [auto|intros tb _].
  apply bind_returns; [apply read_txn_returns|intros t _].
  destruct (bool_decide _); [|by destruct (bool_decide _)]. apply bind_returns; [auto|intros r _].
  unfold read_result. apply bind_returns.
  { destruct (_ ≫= as_str) as [i|]; [|done]. destruct (Z.eqb_spec (len i) 20) as [Hl|]; [|done].
    destruct (copy_from_slice_total 20 i) as (a & -> & _); [unfold len in Hl; lia|done]. }
  intros s _. apply bind_returns; [destruct (_ ≫= as_str); [apply parse_compact_nodes_returns|done]|intros n4 _].
  apply bind_returns; [destruct (_ ≫= as_str); [apply parse_compact_nodes_returns|done]|done].
Qed.

(** A [values] entry of an IPv4 or an IPv6 peer. *)
Definition compact_peer (p : PeerAddr) : list byte :=
  match ip p with V4 a => to_be 4 a | V6 a => to_be 16 a end ++ to_be 2 (port p).

Lemma parse_one_peer_compact p : v4_peer p \/ v6_peer p -> parse_one_peer (compact_peer p) = Some p.
Proof.
  destruct p as [i q]. unfold parse_one_peer, compact_peer, v4_peer, v6_peer. cbn [ip port].
  intros [(a & -> & Hw & Hq)|(a & -> & Hw & Hq)]; unfold len; rewrite length_app, !length_to_be.
  - change (Z.of_nat (4 + 2) =? 6) with true. cbn iota.
    rewrite take_app_length', drop_app_length' by by rewrite length_to_be. by rewrite !of_be_to_be by done.
  - change (Z.of_nat (16 + 2) =? 6) with false. change (Z.of_nat (16 + 2) =? 18) with true. cbn iota.
    rewrite take_app_length', drop_app_length' by by rewrite length_to_be. by rewrite !of_be_to_be by done.
Qed.

Lemma read_txn_bytes (t : TransactionId) : read_txn (as_bytes t) = Ok t.
Proof.
  unfold read_txn. rewrite array_len. change (2 <=? Z.of_nat 2) with true. cbn iota.
  rewrite <- (app_nil_r (as_bytes t)) at 1.
  pose proof (array_length t). destruct (as_bytes t) as [|a [|b [|]]] eqn:E; try done.
  change (slice ([a; b] ++ []) 0 2) with (Ok [a; b]). rewrite bind_ret, <- E. apply array_bytes.
Qed.

(** A KRPC response is read exactly: a datagram whose dictionary answers with
    an id, a compact node list and a list of compact peers, wherever the keys stand
    and whatever other keys there are, parses to the transaction id, the sender,
    those nodes and peers, and the token; an error answer gives its code and text;
    and every datagram parses or is rejected with a bencode or KRPC error — there is
    no panic. *)
Theorem krpc_response_exact d t buf :
  within_limits (Dict d) -> find_key "t" d = Some (Str (as_bytes t)) ->
  (forall r a ns ps tok,
    find_key "y" d = Some (Str (bytes_of "r")) -> find_key "r" d = Some (Dict r) ->
    find_key "id" r = Some (Str (as_bytes a)) -> find_key "token" r = Str <$> tok ->
    find_key "nodes" r = Some (Str (encode_compact_nodes ns)) -> Forall v4_node ns ->
    find_key "nodes6" r = None ->
    find_key "values" r = Some (List (map (fun p => Str (compact_peer p)) ps)) ->
    Forall (fun p => v4_peer p \/ v6_peer p) ps ->
    parse_response (print (Dict d)) = Ok (mkResponse t (Some a) ns ps tok None)) /\
  (forall code msg more,
    find_key "y" d = Some (Str (bytes_of "e")) -> utf8_valid msg = true ->
    find_key "e" d = Some (List (Int code :: Str msg :: more)) ->
    parse_response (print (Dict d)) = Ok (mkResponse t None [] [] None (Some (code, msg)))) /\
  returns (parse_response buf) /\ err_only krpc_error (parse_response buf).
Proof.
  intros Hd Ht.
  assert (forall m : outcome KrpcResponse,
    (let y := find_key "y" d ≫= as_str in
     if bool_decide (y = Some (bytes_of "r")) then
       r ← ok_or (find_key "r" d ≫= as_dict) (Parse "krpc response missing r"); read_result t r
     else if bool_decide (y = Some (bytes_of "e")) then Ok (read_error t d)
     else Err (Parse "krpc unknown message type")) = m -> parse_response (print (Dict d)) = m) as Hrun.
  { intros m <-. unfold parse_response. rewrite decode_complete, bind_ret by done. cbn [as_dict ok_or].
    rewrite bind_ret, Ht. cbn [mbind option_bind as_str ok_or]. rewrite bind_ret, read_txn_bytes, bind_ret. done. }
  split; [|split; [|split; [apply parse_response_returns|apply parse_response_errors]]].
  - intros r a ns ps tok Hy Hr Hi Htok Hn Hns Hn6 Hv Hps. apply Hrun. cbv zeta. rewrite Hy, Hr.
    cbn [mbind option_bind as_str as_dict ok_or]. rewrite bool_decide_eq_true_2, bind_ret by done.
    unfold read_result. rewrite Hi, Htok, Hn, Hn6, Hv. cbn [mbind option_bind as_str as_list].
    rewrite array_len. change (Z.of_nat 20 =? 20) with true. cbn iota.
    rewrite array_bytes, !bind_ret, compact_nodes_roundtrip, !bind_ret by done. cbv zeta.
    rewrite app_nil_r. f_equal. f_equal; [|by destruct tok].
    clear Hv. induction Hps as [|p ps Hp _ IH]; [done|]. cbn [map omap list_omap mbind option_bind as_str].
    rewrite parse_one_peer_compact by done. cbn iota. by rewrite IH.
  - intros code msg more Hy Hu He. apply Hrun. cbv zeta. rewrite Hy. cbn [mbind option_bind as_str].
    rewrite bool_decide_eq_false_2, bool_decide_eq_true_2 by done.
    unfold read_error. rewrite He. cbn [mbind option_bind as_list].
    change (get (Int code :: Str msg :: more) 0) with (Some (Int code)).
    change (get (Int code :: Str msg :: more) 1) with (Some (Str msg)).
    cbn [mbind option_bind as_int as_str_utf8]. by rewrite Hu.
Qed.

Lemma krpc_response_exact_witness :
  let a := pad_array 20 [x09] in let t := pad_array 2 [x01; x02] in
  let d := [(bytes_of "r", Dict [(bytes_of "id", Str (as_bytes a));
      (bytes_of "nodes", Str (encode_compact_nodes [loop_node x03 6881]));
      (bytes_of "token", Str [xaa]);
      (bytes_of "values", List [Str (compact_peer (mkSocketAddr (V6 1) 51413))])]);
    (bytes_of "t", Str (as_bytes t)); (bytes_of "y", Str (bytes_of "r"))] in
  parse_response (print (Dict d))
  = Ok (mkResponse t (Some a) [loop_node x03 6881] [mkSocketAddr (V6 1) 51413] (Some [xaa]) None).
Proof.
  intros a t d.
  refine (proj1 (krpc_response_exact d t [] _ _) _ a [loop_node x03 6881] [mkSocketAddr (V6 1) 51413] (Some [xaa])
    _ _ _ _ _ _ _ _ _); try reflexivity.
  - split; [|split; [done|split; [done|by vm_compute]]].
    apply wf_Dict. split; [by apply (bool_decide_eq_true_1 (NoDup _))|].
    repeat (apply Forall_cons; split); try done. cbn [snd]. apply wf_Dict.
    split; [by apply (bool_decide_eq_true_1 (NoDup _))|by repeat (apply Forall_cons; split)].
  - apply Forall_singleton. by exists 0x7f000001.
  - apply Forall_singleton. right. by exists 1.
Defined.
