(* ===== verification/V2.v ===== *)
(** * BEP 52 payload layout: [crates/swarmotter-core/src/v2.rs]

    The file-aligned piece space of a v2 torrent ([V2PieceLayout]) and the
    verification of a piece against its SHA-256 subtree root.  The reference is
    [layout_of]: every non-empty file cut into pieces, in order.  The theorems:
    valid metadata has exactly that layout, it covers every byte of every file
    once, and a piece verifies exactly when it is the file's data, or gives two
    different strings of one hash among those that are hashed ([Merkle.collides]). *)

From S2P Require Import Prelude Text Hash Merkle Meta MetaCorrect.

Record V2Piece : Type := mkV2Piece {
  index_ : Z; file_index : Z; offset : Z; piece_len : Z; file_length : Z;
  piece_root : V2InfoHash; expected_hash : V2InfoHash }.

Record V2PieceLayout : Type := mkLayout { layout_piece_length : Z; layout_pieces : list V2Piece }.

(** One file of [validate_storage_file_mapping]. *)
Definition check_storage_file (multi : bool) (pair : MetaFile * MetaFile) : outcome () :=
  let '(storage_file, v2_file) := pair in
  _ ← fail_if (negb (mf_length storage_file =? mf_length v2_file))
        (MalformedTorrent "BEP 52 file length differs from payload storage layout");
  let exact := bool_decide (path storage_file = path v2_file) in
  let relative_hybrid :=
    multi && (len (path storage_file) =? saturating_add usize_max (len (path v2_file)) 1)
    && (0 <? len (path storage_file)) && bool_decide (drop 1 (path storage_file) = path v2_file) in
  fail_if (negb exact && negb relative_hybrid)
    (MalformedTorrent "BEP 52 file path differs from payload storage layout").

Definition validate_storage_file_mapping (meta : TorrentMeta) (v2_files : list MetaFile) : outcome () :=
  _ ← fail_if (negb (len (files meta) =? len v2_files))
        (MalformedTorrent "BEP 52 file tree cannot be mapped to payload storage files");
  for_each (check_storage_file (is_multi_file meta)) (zip (files meta) v2_files).

Definition insert_layer (layers : gmap V2InfoHash (list V2InfoHash)) (layer : V2PieceLayer)
  : outcome (gmap V2InfoHash (list V2InfoHash)) :=
  _ ← fail_if (bool_decide (is_Some (layers !! layer_root layer)))
        (MalformedTorrent "duplicate BEP 52 piece-layer root");
  Ok (<[layer_root layer := hashes layer]> layers).

(** [u64::checked_mul]. *)
Definition checked_mul (a b : Z) : option Z := if a * b <=? u64_max then Some (a * b) else None.

(** One iteration of the loop over the pieces of a file. *)
Definition push_piece (piece_length : Z) (file_index : Z) (file : MetaFile) (root : V2InfoHash)
    (layer : option (list V2InfoHash)) (pieces : list V2Piece) (within_file : Z) : outcome (list V2Piece) :=
  offset ← ok_or (checked_mul within_file piece_length) (MalformedTorrent "piece offset overflow");
  let length := Z.min (saturating_sub (mf_length file) offset) piece_length in
  expected_hash ← match layer with Some hashes => index hashes within_file | None => Ok root end;
  Ok (pieces ++ [mkV2Piece (len pieces) file_index offset length (mf_length file) root expected_hash]).

Definition push_file (piece_length : Z) (layers : gmap V2InfoHash (list V2InfoHash))
    (pieces : list V2Piece) (entry : Z * MetaFile) : outcome (list V2Piece) :=
  let '(file_index, file) := entry in
  if mf_length file =? 0 then Ok pieces
  else
    root ← ok_or (pieces_root file)
      (MalformedTorrent "non-empty BEP 52 file is missing pieces root");
    count_u64 ← u64_div_ceil (mf_length file) piece_length;
    count ← ok_or (usize_try_from count_u64)
      (MalformedTorrent "BEP 52 file piece count exceeds platform limits");
    new_count ← ok_or (checked_add (len pieces) count) (MalformedTorrent "BEP 52 piece count overflow");
    _ ← fail_if (MAX_TORRENT_PIECES <? new_count)
          (MalformedTorrent "BEP 52 piece count exceeds maximum");
    layer ← (if piece_length <? mf_length file
             then hashes ← ok_or (layers !! root)
                    (MalformedTorrent "BEP 52 file larger than piece length is missing a piece layer");
                  Ok (Some hashes)
             else Ok None);
    _ ← match layer with
        | Some layer => fail_if (negb (len layer =? count))
            (MalformedTorrent "BEP 52 piece layer has an unexpected number of hashes")
        | None => Ok ()
        end;
    try_fold (push_piece piece_length file_index file root layer) pieces (seqZ 0 count).

Definition from_meta (meta : TorrentMeta) : outcome V2PieceLayout :=
  v2 ← ok_or (v2 meta) (UnsupportedTorrentFeature "torrent has no BEP 52 file-tree metadata");
  _ ← fail_if (bool_decide (v2_info_hash (identity meta) = None))
        (UnsupportedTorrentFeature "torrent has no BEP 52 identity");
  _ ← fail_if (negb (piece_layers_verified v2))
        (UnsupportedTorrentFeature "BEP 52 payload transfer requires verified top-level piece layers");
  _ ← validate_storage_file_mapping meta (v2_files v2);
  layers ← try_fold insert_layer ∅ (piece_layers v2);
  pieces ← try_fold (push_file (piece_length meta) layers) [] (enumerate (v2_files v2));
  _ ← fail_if (len pieces =? 0)
        (MalformedTorrent "BEP 52 torrent has no non-empty payload pieces");
  Ok (mkLayout (piece_length meta) pieces).

Definition layout_piece_count (l : V2PieceLayout) : Z := len (layout_pieces l).
Definition piece (l : V2PieceLayout) (index : Z) : option V2Piece := get (layout_pieces l) index.

(** [TorrentMeta::v2_piece_layout] and [TorrentMeta::data_piece_count]. *)
Definition v2_piece_layout (meta : TorrentMeta) : outcome V2PieceLayout := from_meta meta.
Definition data_piece_count (meta : TorrentMeta) : outcome Z :=
  if requires_v2_data_plane meta then layout_piece_count <$> v2_piece_layout meta
  else Ok (meta_piece_count meta).

Section verify.
Context {D : Digests}.

Definition verify_piece (l : V2PieceLayout) (index : Z) (data : list byte) : outcome bool :=
  match piece l index with
  | None => Ok false
  | Some piece =>
      if negb (len data =? piece_len piece) then Ok false
      else
        let actual :=
          if file_length piece <=? layout_piece_length l then v2_file_root data
          else v2_piece_root data (layout_piece_length l) in
        match actual with
        | Ok root => Ok (bool_decide (root = expected_hash piece))
        | Err _ => Ok false
        | Panic => Panic
        | OutOfFuel => OutOfFuel
        end
  end.
End verify.

(** ** The specification *)

Section spec.
Variables (p : Z) (layers : list V2PieceLayer).

Definition layer_hashes (root : V2InfoHash) : list V2InfoHash :=
  match List.find (fun l => bool_decide (layer_root l = root)) layers with Some l => hashes l | None => [] end.
Definition layer_hash (root : V2InfoHash) (k : Z) : V2InfoHash := default V2_ZERO (get (layer_hashes root) k).

(** The [k]-th piece of a file. *)
Definition piece_of (start file_index : Z) (file : MetaFile) (root : V2InfoHash) (k : Z) : V2Piece :=
  mkV2Piece (start + k) file_index (k * p) (Z.min (mf_length file - k * p) p) (mf_length file) root
    (if p <? mf_length file then layer_hash root k else root).

Definition pieces_of (start file_index : Z) (file : MetaFile) : list V2Piece :=
  match pieces_root file with
  | Some root =>
      if mf_length file =? 0 then []
      else map (piece_of start file_index file root) (seqZ 0 (div_ceil (mf_length file) p))
  | None => []
  end.

Fixpoint layout_of (start file_index : Z) (fs : list MetaFile) : list V2Piece :=
  match fs with
  | [] => []
  | file :: fs =>
      let ps := pieces_of start file_index file in
      ps ++ layout_of (start + len ps) (file_index + 1) fs
  end.
End spec.

(** ** The layout of the reference *)

Section layout.
Variables (p : Z) (layers : list V2PieceLayer).
Hypothesis p_pos : 0 < p.

Lemma pieces_of_len start fi f root :
  0 < mf_length f -> pieces_root f = Some root -> len (pieces_of p layers start fi f) = div_ceil (mf_length f) p.
Proof.
  intros Hf Hr. unfold pieces_of. rewrite Hr, (proj2 (Z.eqb_neq _ _)) by lia.
  pose proof (proj1 (div_ceil_spec (mf_length f) p _ p_pos) eq_refl).
  unfold len. rewrite length_map, length_seqZ, Z2Nat.id; [done|nia].
Qed.

Lemma elem_of_pieces_of start fi f q :
  q ∈ pieces_of p layers start fi f <->
  exists root k, pieces_root f = Some root /\ mf_length f <> 0 /\
    0 <= k < div_ceil (mf_length f) p /\ q = piece_of p layers start fi f root k.
Proof.
  unfold pieces_of. destruct (pieces_root f) as [root|]; [|split; [by intros ?%not_elem_of_nil|naive_solver]].
  destruct (Z.eqb_spec (mf_length f) 0); [split; [by intros ?%not_elem_of_nil|naive_solver]|].
  rewrite list_elem_of_fmap. setoid_rewrite elem_of_seqZ. split.
  - intros (k & -> & Hk). exists root, k. split; [done|]. split; [done|]. split; [lia|done].
  - intros (root' & k & [= <-] & _ & Hk & ->). exists k. split; [done|lia].
Qed.

(** Where the pieces of the [j]-th file start. *)
Definition start_of (start fi : Z) (fs : list MetaFile) (j : nat) : Z :=
  start + len (layout_of p layers start fi (take j fs)).

Lemma elem_of_layout start fi fs q :
  q ∈ layout_of p layers start fi fs <->
  exists j f root k, fs !! j = Some f /\ pieces_root f = Some root /\ mf_length f <> 0 /\
    0 <= k < div_ceil (mf_length f) p /\
    q = piece_of p layers (start_of start fi fs j) (fi + Z.of_nat j) f root k.
Proof.
  revert start fi. induction fs as [|g fs IH]; intros start fi; cbn [layout_of].
  { split; [by intros ?%not_elem_of_nil|]. by intros (? & ? & ? & ? & ? & _). }
  rewrite elem_of_app, elem_of_pieces_of, IH. unfold start_of. split.
  - intros [(root & k & Hr & Hf & Hk & ->)|(j & f & root & k & Hj & Hr & Hf & Hk & ->)].
    + exists 0%nat, g, root, k. cbn [take layout_of]. change (len (@nil V2Piece)) with 0.
      rewrite !Z.add_0_r. done.
    + exists (S j), f, root, k. cbn [take layout_of]. rewrite len_app.
      split; [done|]. split; [done|]. split; [done|]. split; [done|]. f_equal; lia.
  - intros ([|j] & f & root & k & Hj & Hr & Hf & Hk & ->).
    + left. injection Hj as ->. exists root, k. cbn [take layout_of]. change (len (@nil V2Piece)) with 0.
      rewrite !Z.add_0_r. done.
    + right. exists j, f, root, k. cbn [take layout_of]. rewrite len_app.
      split; [done|]. split; [done|]. split; [done|]. split; [done|]. f_equal; lia.
Qed.

Lemma lookup_layout start fi fs i q :
  layout_of p layers start fi fs !! i = Some q -> index_ q = start + Z.of_nat i.
Proof.
  revert start fi i. induction fs as [|f fs IH]; intros start fi i; cbn [layout_of]; [done|].
  intros [H|[Hi H]]%lookup_app_Some.
  - unfold pieces_of in H. destruct (pieces_root f); [|done]. destruct (_ =? _); [done|].
    rewrite list_lookup_fmap in H. apply fmap_Some in H as (k & Hk & ->).
    apply lookup_seqZ in Hk as [-> _]. done.
  - apply IH in H as ->. unfold len. lia.
Qed.

(** The bytes of a piece. *)
Lemma piece_of_bounds f k :
  0 < mf_length f -> 0 <= k < div_ceil (mf_length f) p ->
  0 < Z.min (mf_length f - k * p) p <= p /\ k * p + Z.min (mf_length f - k * p) p <= mf_length f /\
  (k * p + Z.min (mf_length f - k * p) p = Z.min (mf_length f) ((k + 1) * p)).
Proof.
  intros Hf Hk. pose proof (proj1 (div_ceil_spec (mf_length f) p _ p_pos) eq_refl). nia.
Qed.

Lemma zsum_pieces_of start fi f root :
  0 <= mf_length f -> pieces_root f = Some root \/ mf_length f = 0 ->
  zsum piece_len (pieces_of p layers start fi f) = mf_length f.
Proof.
  intros Hf Hr. unfold pieces_of. destruct (Z.eqb_spec (mf_length f) 0) as [E|E].
  { destruct (pieces_root f); by rewrite zsum_nil. }
  destruct Hr as [->|]; [|done]. rewrite zsum_map. cbn [piece_len piece_of].
  set (n := div_ceil (mf_length f) p).
  pose proof (proj1 (div_ceil_spec (mf_length f) p n p_pos) eq_refl) as Hn.
  assert (forall m : nat, Z.of_nat m <= n ->
    zsum (fun k => Z.min (mf_length f - k * p) p) (seqZ 0 (Z.of_nat m)) = Z.min (mf_length f) (Z.of_nat m * p)) as H.
  { induction m as [|m IH]; intros Hm.
    - change (seqZ 0 (Z.of_nat 0)) with (@nil Z). rewrite zsum_nil. lia.
    - replace (Z.of_nat (S m)) with (Z.of_nat m + 1) by lia.
      rewrite seqZ_app by lia. rewrite zsum_app, IH by lia.
      rewrite Z.add_0_l. change (seqZ (Z.of_nat m) 1) with [0 + Z.of_nat m]. rewrite zsum_single. nia. }
  specialize (H (Z.to_nat n)). rewrite Z2Nat.id in H by nia. rewrite H by lia. nia.
Qed.

Lemma zsum_layout start fi fs :
  Forall (fun f => 0 <= mf_length f /\ (mf_length f = 0 \/ is_Some (pieces_root f))) fs ->
  zsum piece_len (layout_of p layers start fi fs) = zsum mf_length fs.
Proof.
  intros Hf. revert start fi. induction Hf as [|f fs [H0 Hr] _ IH]; intros start fi; [done|].
  cbn [layout_of]. rewrite zsum_app, zsum_cons, IH. f_equal.
  destruct Hr as [E|[root Er]]; [apply (zsum_pieces_of _ _ _ V2_ZERO); auto|apply (zsum_pieces_of _ _ _ root); auto].
Qed.

Lemma len_layout start fi fs :
  Forall (fun f => 0 <= mf_length f /\ (mf_length f = 0 \/ is_Some (pieces_root f))) fs ->
  len (layout_of p layers start fi fs) = zsum (fun f => div_ceil (mf_length f) p) fs.
Proof.
  intros Hf. revert start fi. induction Hf as [|f fs [H0 Hr] _ IH]; intros start fi; [done|].
  cbn [layout_of]. rewrite len_app, zsum_cons, IH. f_equal.
  destruct (Z.eq_dec (mf_length f) 0) as [E|E].
  - unfold pieces_of. rewrite E. assert (div_ceil 0 p = 0) as -> by (apply div_ceil_spec; lia).
    by destruct (pieces_root f).
  - destruct Hr as [|[root Er]]; [done|]. apply pieces_of_len with root; [lia|done].
Qed.

(** Every byte of every file lies in exactly one piece. *)
Lemma layout_covers start fi fs j f root x :
  fs !! j = Some f -> pieces_root f = Some root -> 0 <= x < mf_length f ->
  exists q, (q ∈ layout_of p layers start fi fs /\ file_index q = fi + Z.of_nat j /\
      offset q <= x < offset q + piece_len q) /\
    forall q', q' ∈ layout_of p layers start fi fs -> file_index q' = fi + Z.of_nat j ->
      offset q' <= x < offset q' + piece_len q' -> q' = q.
Proof.
  intros Hj Hr Hx. pose proof (proj1 (div_ceil_spec (mf_length f) p _ p_pos) eq_refl) as Hn.
  pose proof (Z.div_mod x p ltac:(lia)). pose proof (Z.mod_pos_bound x p p_pos).
  assert (0 <= x / p < div_ceil (mf_length f) p) as Hk by (split; [apply Z.div_pos; lia|nia]).
  exists (piece_of p layers (start_of start fi fs j) (fi + Z.of_nat j) f root (x / p)). split.
  - split; [apply elem_of_layout; exists j, f, root, (x / p); split; [done|]; split; [done|]; split; [lia|done]|].
    split; [done|]. cbn [offset piece_len piece_of]. nia.
  - intros q' (j' & f' & root' & k & Hj' & Hr' & Hf' & Hk' & ->)%elem_of_layout Efi Hin.
    cbn [file_index offset piece_len piece_of] in *. assert (j' = j) as -> by lia. simplify_eq.
    f_equal. assert (k = x / p); [|done]. apply Z.div_unique with (r := x - k * p); [|lia]. nia.
Qed.
End layout.

(** ** The code computes the reference *)

Lemma find_layer layers l :
  NoDup (map layer_root layers) -> l ∈ layers ->
  List.find (fun k => bool_decide (layer_root k = layer_root l)) layers = Some l.
Proof.
  induction layers as [|k layers IH]; cbn [map List.find]; [by intros _ ?%not_elem_of_nil|].
  intros [Hk Hn]%NoDup_cons [->|Hl]%elem_of_cons.
  - by rewrite bool_decide_eq_true_2.
  - rewrite bool_decide_eq_false_2; [by apply IH|]. intros E. apply Hk. apply list_elem_of_fmap. by exists l.
Qed.

Lemma insert_layers_total ls : forall acc,
  NoDup (map layer_root ls) -> Forall (fun l => acc !! layer_root l = None) ls ->
  exists acc', try_fold insert_layer acc ls = Ok acc' /\
    (forall l, l ∈ ls -> acc' !! layer_root l = Some (hashes l)) /\
    (forall r hs, acc !! r = Some hs -> acc' !! r = Some hs).
Proof.
  induction ls as [|k ls IH]; intros acc; cbn [map try_fold].
  { intros _ _. exists acc. split; [done|]. split; [|done]. by intros l ?%not_elem_of_nil. }
  intros [Hk Hn]%NoDup_cons [Hk' Hn']%Forall_cons.
  assert (insert_layer acc k = Ok (<[layer_root k := hashes k]> acc)) as ->.
  { unfold insert_layer. by rewrite Hk', bool_decide_eq_false_2 by by intros []. }
  rewrite bind_ret. destruct (IH (<[layer_root k := hashes k]> acc) Hn) as (acc' & -> & H1 & H2).
  { rewrite Forall_forall in Hn' |- *. intros l Hl. rewrite lookup_insert_ne; [by apply Hn'|].
    intros E. apply Hk. apply list_elem_of_fmap. by exists l. }
  exists acc'. split; [done|]. split.
  - intros l [->|Hl]%elem_of_cons; [|by apply H1]. apply H2, lookup_insert_eq.
  - intros r hs Hr. apply H2. rewrite lookup_insert_ne; [done|]. intros <-. congruence.
Qed.

Section correct.
Variables (p : Z) (layers : list V2PieceLayer).
Hypothesis p_pos : 0 < p.

(** What valid metadata says about a file. *)
Definition file_ok (f : MetaFile) : Prop :=
  0 <= mf_length f <= u64_max /\
  (mf_length f = 0 \/ exists root, pieces_root f = Some root /\
     (p < mf_length f -> exists l, l ∈ layers /\ layer_root l = root /\ len (hashes l) = div_ceil (mf_length f) p)).

Lemma push_pieces fi f root layer n : forall m pieces,
  0 <= m -> m + Z.of_nat n <= div_ceil (mf_length f) p -> 0 < mf_length f <= u64_max ->
  (forall k, 0 <= k < div_ceil (mf_length f) p ->
     match layer with Some hs => index hs k | None => Ok root end
     = Ok (if p <? mf_length f then layer_hash layers root k else root)) ->
  try_fold (push_piece p fi f root layer) pieces (seqZ m (Z.of_nat n))
  = Ok (pieces ++ map (piece_of p layers (len pieces - m) fi f root) (seqZ m (Z.of_nat n))).
Proof.
  pose proof (proj1 (div_ceil_spec (mf_length f) p _ p_pos) eq_refl) as Hn.
  induction n as [|n IH]; intros m pieces Hm Hmn Hf Hl.
  { change (seqZ m (Z.of_nat 0)) with (@nil Z). by rewrite app_nil_r. }
  rewrite seqZ_cons by lia. cbn [try_fold map].
  assert (push_piece p fi f root layer pieces m
    = Ok (pieces ++ [piece_of p layers (len pieces - m) fi f root m])) as ->.
  { unfold push_piece, checked_mul. rewrite (proj2 (Z.leb_le _ _)) by nia. cbn [ok_or]. rewrite bind_ret.
    rewrite Hl, bind_ret by lia. do 3 f_equal. unfold piece_of, saturating_sub. f_equal; [lia|nia]. }
  rewrite bind_ret. replace (Z.pred (Z.of_nat (S n))) with (Z.of_nat n) by lia.
  rewrite IH by (try lia; done). rewrite <- app_assoc. cbn [app]. do 3 f_equal.
  rewrite len_app. change (len [_]) with 1. apply list_fmap_ext. intros i k Hk. f_equal. lia.
Qed.

Lemma push_all_pieces fi f root layer pieces :
  0 < mf_length f <= u64_max ->
  (forall k, 0 <= k < div_ceil (mf_length f) p ->
     match layer with Some hs => index hs k | None => Ok root end
     = Ok (if p <? mf_length f then layer_hash layers root k else root)) ->
  try_fold (push_piece p fi f root layer) pieces (seqZ 0 (div_ceil (mf_length f) p))
  = Ok (pieces ++ map (piece_of p layers (len pieces) fi f root) (seqZ 0 (div_ceil (mf_length f) p))).
Proof.
  intros Hf Hl. pose proof (proj1 (div_ceil_spec (mf_length f) p _ p_pos) eq_refl) as Hn.
  pose proof (push_pieces fi f root layer (Z.to_nat (div_ceil (mf_length f) p)) 0 pieces) as H.
  rewrite Z2Nat.id, Z.sub_0_r in H by nia. by apply H.
Qed.

Variable map_ : gmap V2InfoHash (list V2InfoHash).
Hypothesis map_layers : forall l, l ∈ layers -> map_ !! layer_root l = Some (hashes l).
Hypothesis layers_unique : NoDup (map layer_root layers).

(** Pushing a file appends its pieces, unless the piece limit is exceeded. *)
Definition pushes (pieces add : list V2Piece) (m : outcome (list V2Piece)) : Prop :=
  if len pieces + len add <=? MAX_TORRENT_PIECES then m = Ok (pieces ++ add)
  else exists msg, m = Err (MalformedTorrent msg).

Lemma push_file_eq pieces fi f :
  file_ok f -> len pieces <= MAX_TORRENT_PIECES ->
  pushes pieces (pieces_of p layers (len pieces) fi f) (push_file p map_ pieces (fi, f)).
Proof.
  intros (Hf & Hr) Hmax. unfold push_file, pushes. destruct (Z.eqb_spec (mf_length f) 0) as [E|E].
  { assert (pieces_of p layers (len pieces) fi f = []) as ->.
    { unfold pieces_of. rewrite E. by destruct (pieces_root f). }
    change (len (@nil V2Piece)) with 0. rewrite app_nil_r. by rewrite (proj2 (Z.leb_le _ _)) by lia. }
  destruct Hr as [|(root & Hroot & Hl)]; [done|].
  rewrite (pieces_of_len p layers p_pos _ _ _ root) by (done || lia).
  pose proof (proj1 (div_ceil_spec (mf_length f) p _ p_pos) eq_refl) as Hn.
  rewrite Hroot. cbn [ok_or]. rewrite bind_ret. unfold u64_div_ceil. rewrite (proj2 (Z.eqb_neq p 0)) by lia.
  rewrite bind_ret. set (n := div_ceil (mf_length f) p) in *. unfold usize_try_from.
  assert (n <= u64_max) by nia. change usize_max with u64_max.
  rewrite (proj2 (Z.leb_le n u64_max)) by lia. cbn [ok_or]. rewrite bind_ret.
  pose proof (len_nonneg pieces). unfold checked_add. change usize_max with u64_max.
  destruct (Z.leb_spec (len pieces + n) MAX_TORRENT_PIECES) as [Hle|Hgt].
  2: { destruct (_ <=? u64_max); cbn [ok_or]; [|by eexists]. rewrite bind_ret.
       rewrite (proj2 (Z.ltb_lt MAX_TORRENT_PIECES (len pieces + n))) by lia. by eexists. }
  rewrite (proj2 (Z.leb_le _ u64_max)) by (unfold u64_max, MAX_TORRENT_PIECES in *; lia). cbn [ok_or].
  rewrite bind_ret, (proj2 (Z.ltb_ge MAX_TORRENT_PIECES (len pieces + n))) by lia.
  cbn [fail_if]. rewrite bind_ret.
  assert (pieces_of p layers (len pieces) fi f = map (piece_of p layers (len pieces) fi f root) (seqZ 0 n)) as ->.
  { unfold pieces_of. by rewrite Hroot, (proj2 (Z.eqb_neq _ _)) by lia. }
  destruct (Z.ltb_spec p (mf_length f)) as [Hlarge|Hsmall].
  - destruct (Hl Hlarge) as (l & Hin & Hlr & Hlen).
    assert (map_ !! root = Some (hashes l)) as -> by (rewrite <- Hlr; by apply map_layers).
    cbn [ok_or]. rewrite !bind_ret, Hlen, Z.eqb_refl. cbn [negb fail_if]. rewrite bind_ret.
    apply push_all_pieces; [lia|]. intros k Hk. rewrite (proj2 (Z.ltb_lt _ _)) by done.
    unfold layer_hash, layer_hashes. rewrite <- Hlr, (find_layer layers l layers_unique Hin). unfold index.
    destruct (index_returns_in (hashes l) k) as [h Eh]; [unfold n in Hlen; lia|]. unfold index in Eh.
    by destruct (get (hashes l) k).
  - rewrite !bind_ret. apply push_all_pieces; [lia|]. intros k Hk.
    by rewrite (proj2 (Z.ltb_ge _ _)) by done.
Qed.

Lemma push_files_eq fs : forall pieces fi,
  Forall file_ok fs -> len pieces <= MAX_TORRENT_PIECES ->
  pushes pieces (layout_of p layers (len pieces) fi fs)
    (try_fold (push_file p map_) pieces (imap (fun i f => (fi + Z.of_nat i, f)) fs)).
Proof.
  induction fs as [|f fs IH]; intros pieces fi; cbn [imap try_fold layout_of].
  { intros _ Hp. unfold pushes. change (len (@nil V2Piece)) with 0. rewrite app_nil_r.
    by rewrite (proj2 (Z.leb_le _ _)) by lia. }
  intros [Hf Hfs]%Forall_cons Hp. rewrite Z.add_0_r.
  pose proof (push_file_eq pieces fi f Hf Hp) as H1. unfold pushes in *.
  set (ps := pieces_of p layers (len pieces) fi f) in *. rewrite len_app.
  pose proof (len_nonneg (layout_of p layers (len pieces + len ps) (fi + 1) fs)).
  destruct (Z.leb_spec (len pieces + len ps) MAX_TORRENT_PIECES) as [Hle|Hgt].
  - rewrite H1, bind_ret. specialize (IH (pieces ++ ps) (fi + 1) Hfs ltac:(rewrite len_app; lia)).
    rewrite len_app in IH. rewrite Z.add_assoc, app_assoc.
    assert (imap (fun i f => (fi + 1 + Z.of_nat i, f)) fs = imap ((fun i f => (fi + Z.of_nat i, f)) ∘ S) fs) as <-; [|done].
    apply imap_ext. intros i x _. cbn. f_equal. lia.
  - destruct H1 as [msg ->]. rewrite (proj2 (Z.leb_gt _ _)) by lia. by exists msg.
Qed.
End correct.

(** ** The layout of valid metadata *)

Section theorems.
Context {D : Digests}.

Lemma storage_mapping_ok m vs :
  hybrid_layout (files m) vs (is_multi_file m) ->
  Forall (fun f => path f <> []) (files m) -> Forall (fun f => len (path f) < u64_max) vs ->
  validate_storage_file_mapping m vs = Ok ().
Proof.
  intros [Hlen Hpath] Hne Hbound. unfold validate_storage_file_mapping.
  assert (len (files m) = len vs) as ->.
  { apply (f_equal length) in Hlen. rewrite !length_map in Hlen. unfold len. lia. }
  rewrite Z.eqb_refl. cbn [negb fail_if]. rewrite bind_ret. apply for_each_Ok, Forall_forall.
  intros [f v] [i Hi]%list_elem_of_lookup. apply lookup_zip_with_Some in Hi as (f' & v' & [= <- <-] & Hf & Hv).
  rewrite Forall_forall in Hne, Hbound.
  specialize (Hne f (list_elem_of_lookup_2 _ _ _ Hf)). specialize (Hbound v (list_elem_of_lookup_2 _ _ _ Hv)).
  assert (forall A (h g : MetaFile -> A), map h (files m) = map g vs -> h f = g v) as Hat.
  { intros A h g E. apply (f_equal (lookup i)) in E.
    change (map h (files m)) with (h <$> files m) in E. change (map g vs) with (g <$> vs) in E.
    rewrite !list_lookup_fmap, Hf, Hv in E. by injection E. }
  unfold check_storage_file. rewrite (Hat _ _ _ Hlen), Z.eqb_refl. cbn [negb fail_if]. rewrite bind_ret.
  apply fail_if_Ok. destruct Hpath as [Hp|[-> Hp]].
  - apply Hat in Hp. by rewrite (bool_decide_eq_true_2 _ Hp).
  - apply Hat in Hp. apply andb_false_iff. right. apply negb_false_iff.
    rewrite Hp, (bool_decide_eq_true_2 (path v = path v)) by done.
    assert (len (path f) = len (path v) + 1) as ->.
    { rewrite <- Hp. destruct (path f) as [|c cs]; [done|]. rewrite len_cons. change (drop 1 (c :: cs)) with cs. lia. }
    pose proof (len_nonneg (path v)). unfold saturating_add. change usize_max with u64_max.
    rewrite Z.min_r by lia. rewrite Z.eqb_refl. by rewrite (proj2 (Z.ltb_lt _ _)) by lia.
Qed.

Lemma files_ok v p total :
  unsigned_files (v2_files v) -> valid_v2 v p total -> piece_layers_verified v = true ->
  Forall (file_ok p (piece_layers v)) (v2_files v).
Proof.
  intros Hu [_ _ Hf Hroots _ _ _ Hw _ Hpres] Hver. apply Forall_forall. intros f Hin.
  specialize (Hpres Hver). unfold unsigned_files in Hu. rewrite !Forall_forall in *.
  split; [split; [by apply Hu|apply (valid_files_bound (v2_files v) total); [|done|done]; unfold unsigned_files; by rewrite Forall_forall]|].
  destruct (Hroots f Hin) as [|[root Hr]]; [by left|right]. exists root. split; [done|]. intros Hlarge.
  destruct (Hpres f Hin) as [|(l & Hl & El)]; [lia|]. exists l. split; [done|]. split; [congruence|].
  specialize (Hw l Hl). rewrite Forall_forall in Hw. apply Hw. apply elem_of_large. split; [done|]. split; [congruence|done].
Qed.

(** What [from_meta] computes on valid metadata whose storage files are those of
    the file tree. *)
Lemma from_meta_eq m v :
  unsigned m -> v2 m = Some v -> v2_info_hash (identity m) <> None -> piece_layers_verified v = true ->
  valid_v2 v (piece_length m) (total_length m) -> 0 < total_length m ->
  hybrid_layout (files m) (v2_files v) (is_multi_file m) ->
  Forall (fun f => path f <> []) (files m) -> Forall (fun f => len (path f) < u64_max) (v2_files v) ->
  let ps := layout_of (piece_length m) (piece_layers v) 0 0 (v2_files v) in
  if len ps <=? MAX_TORRENT_PIECES then from_meta m = Ok (mkLayout (piece_length m) ps)
  else exists msg, from_meta m = Err (MalformedTorrent msg).
Proof.
  intros (_ & _ & _ & Hu) Ev Hid Hver Hv Ht Hh Hne Hb ps. specialize (Hu v Ev).
  pose proof (files_ok v _ _ Hu Hv Hver) as Hok. pose proof (valid_v2_positive _ (v2_piece_length _ _ _ Hv)) as Hp.
  unfold from_meta. rewrite Ev. cbn [ok_or]. rewrite bind_ret, (bool_decide_eq_false_2 _ Hid), Hver.
  cbn [negb fail_if]. rewrite !bind_ret, storage_mapping_ok, bind_ret by done.
  destruct (insert_layers_total (piece_layers v) ∅ (v2_layers_unique _ _ _ Hv)) as (mp & -> & Hmp & _).
  { apply Forall_forall. intros l _. apply lookup_empty. }
  rewrite bind_ret.
  pose proof (push_files_eq _ _ Hp mp Hmp (v2_layers_unique _ _ _ Hv) (v2_files v) [] 0 Hok ltac:(done)) as Hpush.
  unfold pushes in Hpush. change (len (@nil V2Piece)) with 0 in Hpush. rewrite Z.add_0_l in Hpush. fold ps in Hpush.
  rewrite (enumerate_from (v2_files v)).
  destruct (len ps <=? MAX_TORRENT_PIECES).
  - rewrite Hpush, bind_ret. cbn [app]. assert (len ps <> 0) as Hn.
    { intros E%len_0. pose proof (zsum_layout _ (piece_layers v) Hp 0 0 (v2_files v)) as Hz. fold ps in Hz.
      rewrite E, zsum_nil in Hz. destruct Hv as [_ _ [_ _ _ Htot _] Hroots _ _ _ _ _ _].
      rewrite Htot in Hz. enough (0 = total_length m) by lia. apply Hz.
      unfold unsigned_files in Hu. rewrite Forall_forall in *. auto. }
    by rewrite (proj2 (Z.eqb_neq _ _)).
  - destruct Hpush as [msg ->]. by exists msg.
Qed.

(** A layout [from_meta] returns is the reference one. *)
Lemma from_meta_layout m v lay :
  unsigned m -> v2 m = Some v -> valid_v2 v (piece_length m) (total_length m) -> from_meta m = Ok lay ->
  piece_layers_verified v = true /\
  lay = mkLayout (piece_length m) (layout_of (piece_length m) (piece_layers v) 0 0 (v2_files v)).
Proof.
  intros (_ & _ & _ & Hu) Ev Hv. specialize (Hu v Ev). pose proof (valid_v2_positive _ (v2_piece_length _ _ _ Hv)) as Hp.
  unfold from_meta. rewrite Ev. cbn [ok_or]. rewrite bind_ret.
  destruct (bool_decide _); [done|]. cbn [fail_if]. rewrite bind_ret.
  destruct (piece_layers_verified v) eqn:Hver; [|done]. cbn [negb fail_if]. rewrite bind_ret.
  pose proof (files_ok v _ _ Hu Hv Hver) as Hok.
  destruct (validate_storage_file_mapping _ _) as [[]| | |]; [|done..]. rewrite bind_ret.
  destruct (insert_layers_total (piece_layers v) ∅ (v2_layers_unique _ _ _ Hv)) as (mp & -> & Hmp & _).
  { apply Forall_forall. intros l _. apply lookup_empty. }
  rewrite bind_ret.
  pose proof (push_files_eq _ _ Hp mp Hmp (v2_layers_unique _ _ _ Hv) (v2_files v) [] 0 Hok ltac:(done)) as Hpush.
  unfold pushes in Hpush. change (len (@nil V2Piece)) with 0 in Hpush. rewrite Z.add_0_l in Hpush.
  rewrite (enumerate_from (v2_files v)). destruct (_ <=? MAX_TORRENT_PIECES).
  - rewrite Hpush, bind_ret. destruct (_ =? 0); [done|]. cbn [fail_if]. rewrite bind_ret. by intros [= <-].
  - by destruct Hpush as [msg ->].
Qed.

Lemma valid_meta_v2 m v :
  valid_meta m -> v2 m = Some v -> v2_info_hash (identity m) <> None ->
  valid_v2 v (piece_length m) (total_length m).
Proof.
  intros [_ _ _ _ _ _ Hid] Ev Hi. unfold valid_identity in Hid.
  destruct (identity m); try done.
  - destruct Hid as (_ & _ & v' & Ev' & Hv & _). congruence.
  - destruct Hid as (_ & _ & v' & Ev' & Hv & _). congruence.
Qed.

(** Valid BEP 52 metadata has a layout exactly when the piece limit allows it,
    and the layout partitions the payload: piece [i] has index [i] and lies inside
    one file, every byte of every file belongs to exactly one piece, and the piece
    lengths add up to the torrent's length. *)
Theorem v2_layout_partition m v :
  unsigned m -> valid_meta m -> v2 m = Some v -> v2_info_hash (identity m) <> None ->
  piece_layers_verified v = true -> hybrid_layout (files m) (v2_files v) (is_multi_file m) ->
  Forall (fun f => len (path f) < u64_max) (v2_files v) ->
  let n := zsum (fun f => div_ceil (mf_length f) (piece_length m)) (v2_files v) in
  if MAX_TORRENT_PIECES <? n then exists msg, from_meta m = Err (MalformedTorrent msg)
  else exists lay, from_meta m = Ok lay /\ layout_piece_count lay = n /\
    (forall i q, piece lay i = Some q ->
       index_ q = i /\ 0 < piece_len q <= piece_length m /\ 0 <= offset q /\
       exists f, get (v2_files v) (file_index q) = Some f /\ pieces_root f = Some (piece_root q) /\
         file_length q = mf_length f /\ offset q + piece_len q <= mf_length f) /\
    (forall j f x, get (v2_files v) j = Some f -> 0 <= x < mf_length f ->
       exists q, (q ∈ layout_pieces lay /\ file_index q = j /\ offset q <= x < offset q + piece_len q) /\
         forall q', q' ∈ layout_pieces lay -> file_index q' = j ->
           offset q' <= x < offset q' + piece_len q' -> q' = q) /\
    zsum piece_len (layout_pieces lay) = total_length m.
Proof.
  intros Hu Hm Ev Hid Hver Hh Hb n. pose proof (valid_meta_v2 m v Hm Ev Hid) as Hv.
  pose proof Hm as [_ Hpl Ht [_ Hpaths _ _ _] _ _ _]. pose proof Hu as (_ & _ & _ & Huv). specialize (Huv v Ev).
  assert (0 < piece_length m) as Hp by lia.
  assert (Forall (fun f => path f <> []) (files m)) as Hne.
  { eapply Forall_impl; [exact Hpaths|]. by intros f []. }
  pose proof (from_meta_eq m v Hu Ev Hid Hver Hv ltac:(lia) Hh Hne Hb) as H. cbv zeta in H.
  set (ps := layout_of _ _ _ _ _) in H.
  pose proof Hv as [_ _ [_ _ _ Htot _] Hroots _ _ _ _ _ _].
  assert (Forall (fun f => 0 <= mf_length f /\ (mf_length f = 0 \/ is_Some (pieces_root f))) (v2_files v)) as Hfs.
  { unfold unsigned_files in Huv. rewrite Forall_forall in *. auto. }
  assert (len ps = n) as Hn by (apply len_layout; done).
  rewrite Hn in H. destruct (Z.leb_spec n MAX_TORRENT_PIECES) as [Hle|Hgt].
  2: { by rewrite (proj2 (Z.ltb_lt _ _)). }
  rewrite (proj2 (Z.ltb_ge _ _)) by done. exists (mkLayout (piece_length m) ps).
  split; [done|]. split; [done|]. split; [|split].
  - intros i q Hi. unfold piece, get in Hi. cbn [layout_pieces] in Hi. revert Hi.
    destruct (Z.ltb_spec i 0); [done|]. intros Hi. pose proof (lookup_layout _ _ _ _ _ _ _ Hi) as Hidx.
    split; [lia|]. apply list_elem_of_lookup_2, elem_of_layout in Hi as (j & f & root & k & Hj & Hr & Hf & Hk & ->).
    pose proof (proj1 (Forall_forall _ _) Hfs f (list_elem_of_lookup_2 _ _ _ Hj)) as [Hnn _].
    destruct (piece_of_bounds _ Hp f k ltac:(lia) Hk) as (B1 & B2 & _).
    cbn [piece_len offset file_index piece_root file_length piece_of]. split; [done|]. split; [nia|].
    exists f. split; [|done]. unfold get. rewrite (proj2 (Z.ltb_ge _ _)) by lia. by rewrite Z.add_0_l, Nat2Z.id.
  - intros j f x Hj Hx. unfold get in Hj. revert Hj. destruct (Z.ltb_spec j 0); [done|]. intros Hj.
    pose proof (proj1 (Forall_forall _ _) Hfs f (list_elem_of_lookup_2 _ _ _ Hj)) as [_ [?|[root Hr]]]; [lia|].
    pose proof (layout_covers _ (piece_layers v) Hp 0 0 (v2_files v) (Z.to_nat j) f root x Hj Hr Hx) as Hc.
    by rewrite Z.add_0_l, Z2Nat.id in Hc by lia.
  - rewrite <- Htot. by apply zsum_layout.
Qed.

(** The data of a piece inside its file. *)
Definition piece_data (q : V2Piece) (data : list byte) : list byte :=
  take (Z.to_nat (piece_len q)) (rest data (offset q)).

Lemma verify_piece_returns l i x : exists b, verify_piece l i x = Ok b.
Proof.
  unfold verify_piece. destruct (piece l i) as [q|]; [|by eexists]. destruct (negb _); [by eexists|].
  pose proof (v2_file_root_returns x). pose proof (v2_piece_root_returns x (layout_piece_length l)).
  destruct (_ <=? _); [destruct (v2_file_root x)|destruct (v2_piece_root x _)]; done || by eexists.
Qed.

(** What verification compares. *)
Lemma verify_piece_true l i q x :
  piece l i = Some q ->
  verify_piece l i x = Ok true <-> len x = piece_len q /\
    (if file_length q <=? layout_piece_length l then v2_file_root x else v2_piece_root x (layout_piece_length l))
    = Ok (expected_hash q).
Proof.
  intros Hq. unfold verify_piece. rewrite Hq. destruct (Z.eqb_spec (len x) (piece_len q)) as [E|E]; cbn [negb].
  2: { split; [done|]. by intros [? _]. }
  destruct (if _ <=? _ then _ else _) as [r|e| |] eqn:Er; [|naive_solver..].
  split; [intros [= H%bool_decide_eq_true]; by subst|]. intros [_ [= ->]]. by rewrite bool_decide_eq_true_2.
Qed.

(** The strings hashed to check a piece. *)
Definition checked_texts (l : V2PieceLayout) (q : V2Piece) (x : list byte) : list (list byte) :=
  if file_length q <=? layout_piece_length l then file_texts x else piece_texts (layout_piece_length l) x.

Section file.
Variables (v : V2TorrentMeta) (p total j : Z) (f : MetaFile) (root : V2InfoHash) (data : list byte).
Hypothesis Hu : unsigned_files (v2_files v).
Hypothesis Hv : valid_v2 v p total.
Hypothesis Hver : piece_layers_verified v = true.
Hypothesis Hf : get (v2_files v) j = Some f.
Hypothesis Hroot : pieces_root f = Some root.
Hypothesis Hdata : len data = mf_length f.
Hypothesis Hmax : len data <= i64_max.
Hypothesis Hfile : v2_file_root data = Ok root.

Lemma data_nonempty : 0 < len data.
Proof.
  pose proof Hfile as E. unfold v2_file_root in E. pose proof (len_nonneg data).
  destruct (Z.eqb_spec (len data) 0); [done|lia].
Qed.

(** Two strings that were hashed at one place for the layer in the metadata and for the
    layer of the data differ and have one hash. *)
Definition layer_collides : bool :=
  (p <? mf_length f) && collides (layer_texts p (layer_hashes (piece_layers v) root)) (layer_texts p (piece_hashes p data)).

(** The layer hashes are the roots of the file's pieces. *)
Lemma layer_hash_data k :
  p < mf_length f -> 0 <= k < div_ceil (mf_length f) p ->
  v2_piece_root (take (Z.to_nat (Z.min (mf_length f - k * p) p)) (rest data (k * p))) p
    = Ok (layer_hash (piece_layers v) root k) \/ layer_collides = true.
Proof.
  intros Hlarge Hk. pose proof (valid_v2_positive p (v2_piece_length _ _ _ Hv)) as Hp.
  assert (f ∈ v2_files v) as Hin.
  { unfold get in Hf. destruct (j <? 0); [done|]. by eapply list_elem_of_lookup_2. }
  pose proof (files_ok v p total Hu Hv Hver) as Hok. rewrite Forall_forall in Hok.
  destruct (Hok f Hin) as (_ & [?|(root' & Er' & Hl)]); [lia|].
  rewrite Hroot in Er'. injection Er' as <-. destruct (Hl Hlarge) as (l & Hll & Hlr & Hlen).
  pose proof (v2_layers_root _ _ _ Hv) as Hlroot. rewrite Forall_forall in Hlroot. specialize (Hlroot l Hll).
  destruct (v2_piece_length _ _ _ Hv) as [kk Ekk].
  assert (validate_v2_piece_length p = Ok ()) as Hvp by (rewrite Ekk; apply valid_piece_length_pow).
  destruct (piece_layer_file_root data p Hvp ltac:(lia)) as (hs & r & Hhs & Hr & Hfr).
  rewrite Hfile in Hfr. injection Hfr as <-. unfold layer_collides, piece_hashes. rewrite Hhs, (proj2 (Z.ltb_lt _ _)) by done. apply mapM_Ok in Hhs.
  assert (len hs = div_ceil (mf_length f) p) as Hlhs.
  { unfold len. rewrite <- (Forall2_length _ _ _ Hhs). fold (len (chunks (Z.to_nat p) data)).
    rewrite len_chunks by lia. by rewrite Z2Nat.id, Hdata by lia. }
  destruct (v2_piece_layer_root_binds (hashes l) hs p root) as [Ehs|]; [lia|unfold i64_max; pose proof (proj1 (div_ceil_spec (mf_length f) p _ Hp) eq_refl); unfold i64_max in *; nia| | |left|right].
  { by rewrite Hlr in Hlroot. } { done. }
  2: { unfold layer_hashes. by rewrite <- Hlr, (find_layer _ l (v2_layers_unique _ _ _ Hv) Hll). }
  unfold layer_hash, layer_hashes. rewrite <- Hlr, (find_layer _ l (v2_layers_unique _ _ _ Hv) Hll), Ehs.
  destruct (lookup_lt_is_Some_2 hs (Z.to_nat k)) as [h Eh]; [unfold len in Hlhs; lia|].
  destruct (Forall2_lookup_r _ _ _ _ _ Hhs Eh) as (c & Hc & Ec).
  apply lookup_chunks in Hc as ->; [|lia]. unfold get. rewrite (proj2 (Z.ltb_ge _ _)), Eh by lia. cbn [default from_option id].
  rewrite <- Ec. f_equal. unfold rest.
  replace (Z.to_nat (k * p)) with (Z.to_nat k * Z.to_nat p)%nat by nia.
  destruct (Z.le_gt_cases p (mf_length f - k * p)).
  - by rewrite Z.min_r by lia.
  - rewrite Z.min_l by lia. rewrite !take_ge; [done| |]; rewrite length_drop; unfold len in Hdata; nia.
Qed.

Lemma verify_piece_file lay i q :
  layout_piece_length lay = p -> piece lay i = Some q ->
  (exists start k, 0 <= k < div_ceil (mf_length f) p /\ q = piece_of p (piece_layers v) start j f root k) ->
  (verify_piece lay i (piece_data q data) = Ok true \/ layer_collides = true) /\
  forall x, verify_piece lay i x = Ok true ->
    x = piece_data q data \/ collides (checked_texts lay q x) (checked_texts lay q (piece_data q data)) = true \/ layer_collides = true.
Proof.
  intros Hlp Hq (start & k & Hk & Eq). pose proof (valid_v2_positive p (v2_piece_length _ _ _ Hv)) as Hp.
  pose proof data_nonempty as H0. destruct (piece_of_bounds p Hp f k ltac:(lia) Hk) as (B1 & B2 & _).
  assert (len (piece_data q data) = piece_len q) as Hl.
  { unfold piece_data. rewrite Eq. cbn [piece_len offset piece_of].
    pose proof (len_rest data (k * p) ltac:(nia)) as Hr. unfold len in *. rewrite length_take. nia. }
  assert ((if file_length q <=? layout_piece_length lay then v2_file_root (piece_data q data)
           else v2_piece_root (piece_data q data) (layout_piece_length lay)) = Ok (expected_hash q) \/ layer_collides = true) as Hgood.
  { rewrite Hlp. unfold piece_data. rewrite Eq. cbn [file_length piece_len offset expected_hash piece_of].
    destruct (Z.leb_spec (mf_length f) p) as [Hs|Hs].
    - left. rewrite (proj2 (Z.ltb_ge _ _)) by done.
      assert (k = 0) as ->. { pose proof (proj1 (div_ceil_spec (mf_length f) p _ Hp) eq_refl). nia. }
      rewrite Z.mul_0_l, rest_0, take_ge; [done|]. unfold len in Hdata. lia.
    - rewrite (proj2 (Z.ltb_lt _ _)) by done. by apply layer_hash_data. }
  split.
  - destruct Hgood as [Hg|]; [left|by right]. by apply (verify_piece_true _ _ _ _ Hq).
  - intros x Hx. apply (verify_piece_true _ _ _ _ Hq) in Hx as [Hxl Hx].
    destruct Hgood as [Hg|]; [|by right; right]. enough (x = piece_data q data \/ collides (checked_texts lay q x) (checked_texts lay q (piece_data q data)) = true) by tauto.
    unfold checked_texts. destruct (_ <=? _).
    + eapply v2_file_root_binds; [by rewrite Hxl, Hl| |exact Hx|exact Hg].
      rewrite Hxl, Eq. cbn [piece_len piece_of]. lia.
    + eapply v2_piece_root_binds; [by rewrite Hxl, Hl|exact Hx|exact Hg].
Qed.
End file.

(** C22: for valid metadata, a file's data whose Merkle root is the file root, and any
    piece of that file.  The piece's slice of the data verifies, unless the metadata's
    layer for the file and the layer of the data have different strings of one hash at
    one place of their two trees.  Whatever else verifies gives such a pair too: there,
    or between the strings hashed to check it and those hashed to check the slice; both
    are finite lists, computed from the two inputs.  Verification says yes or no on every
    input. *)
Theorem verify_piece_exact m v lay i q f root data :
  unsigned m -> valid_meta m -> v2 m = Some v -> v2_info_hash (identity m) <> None ->
  from_meta m = Ok lay -> piece lay i = Some q ->
  get (v2_files v) (file_index q) = Some f -> pieces_root f = Some root ->
  len data = mf_length f -> len data <= i64_max -> v2_file_root data = Ok root ->
  (verify_piece lay i (piece_data q data) = Ok true \/ layer_collides v (piece_length m) f root data = true) /\
  (forall x, verify_piece lay i x = Ok true -> x = piece_data q data
     \/ collides (checked_texts lay q x) (checked_texts lay q (piece_data q data)) = true
     \/ layer_collides v (piece_length m) f root data = true) /\
  forall k x, exists b, verify_piece lay k x = Ok b.
Proof.
  intros Hu Hm Ev Hid Hfrom Hq Hf Hroot Hdata Hmax Hfile.
  pose proof (valid_meta_v2 m v Hm Ev Hid) as Hv. destruct (from_meta_layout m v lay Hu Ev Hv Hfrom) as [Hver ->].
  pose proof Hu as (_ & _ & _ & Huv). specialize (Huv v Ev).
  unfold piece, get in Hq. cbn [layout_pieces] in Hq. destruct (i <? 0) eqn:Ei; [done|].
  assert (exists start k, 0 <= k < div_ceil (mf_length f) (piece_length m) /\
    q = piece_of (piece_length m) (piece_layers v) start (file_index q) f root k) as Hex.
  { pose proof Hq as (j & f' & root' & k & Hj & Hr & _ & Hk & Eq)%list_elem_of_lookup_2%elem_of_layout.
    assert (file_index q = Z.of_nat j) as Efi by (rewrite Eq; cbn [file_index piece_of]; lia).
    rewrite Efi, get_of_nat in Hf. simplify_eq. rewrite Efi. eexists _, k. split; [done|].
    by rewrite Z.add_0_l. }
  assert (piece (mkLayout (piece_length m) (layout_of (piece_length m) (piece_layers v) 0 0 (v2_files v))) i = Some q) as Hq'.
  { unfold piece, get. cbn [layout_pieces]. by rewrite Ei. }
  destruct (verify_piece_file v (piece_length m) (total_length m) (file_index q) f root data
    Huv Hv Hver Hf Hroot Hdata Hmax Hfile (mkLayout (piece_length m) _) i q eq_refl Hq' Hex) as [H1 H2].
  split; [done|]. split; [done|]. apply verify_piece_returns.
Qed.
End theorems.

Lemma sample_paths : Forall (fun f => len (path f) < u64_max) (v2_files sample_v2).
Proof. by apply Forall_singleton. Qed.

Lemma v2_layout_partition_witness :
  let n := zsum (fun f => div_ceil (mf_length f) (piece_length sample)) (v2_files sample_v2) in
  n = 1 /\ exists lay, from_meta sample = Ok lay /\ layout_piece_count lay = n.
Proof.
  split; [done|].
  destruct (@v2_layout_partition toy_digests sample sample_v2 sample_unsigned sample_valid eq_refl
    ltac:(done) eq_refl (conj eq_refl (or_introl eq_refl)) sample_paths) as (lay & H & Hn & _).
  by exists lay.
Defined.

Definition sample_layout : V2PieceLayout :=
  match from_meta sample with Ok lay => lay | _ => mkLayout 0 [] end.
Definition sample_piece : V2Piece :=
  match piece sample_layout 0 with Some q => q | None => mkV2Piece 0 0 0 0 0 V2_ZERO V2_ZERO end.

Lemma verify_piece_exact_witness :
  piece_data sample_piece sample_data = sample_data /\
  @verify_piece toy_digests sample_layout 0 (piece_data sample_piece sample_data) = Ok true /\
  @verify_piece toy_digests sample_layout 0 (bytes_of "abd") = Ok false.
Proof.
  split; [vm_compute; reflexivity|]. split; [|vm_compute; reflexivity].
  destruct (@verify_piece_exact toy_digests sample sample_v2 sample_layout 0 sample_piece sample_file
    sample_root sample_data sample_unsigned sample_valid eq_refl) as [[H|H] _];
    [done|vm_compute; reflexivity..|done|vm_compute; reflexivity|exact H|vm_compute in H; discriminate H].
Defined.
