(* ===== verification/Storage.v ===== *)
(** * Storage layout: [crates/swarmotter-core/src/storage/{mod,layout,resume}.rs]

    The map from pieces to files ([piece_file_ranges], [FileLayout],
    [StorageLayout]), the v1 verification of a piece, the persisted bitfield
    ([PieceBitfield]) and the progress record ([PieceProgress]).  The theorems: the
    slices of a piece, read in order, are the payload bytes of that piece; the
    slices of all pieces are the payload; a progress record counts exactly the
    pieces it has. *)

From S2P Require Import Prelude Text Bits Hash Merkle Meta MetaCorrect.

(** ** [layout.rs] *)

Record FileSlice : Type := mkFileSlice { file_index : Z; offset_in_file : Z; slice_length : Z }.

Record LayoutFile : Type := mkLayoutFile { lf_path : text; lf_length : Z }.

Record StorageLayout : Type := mkStorageLayout {
  download_dir : text; incomplete_dir : option text; layout_name : text;
  layout_files : list LayoutFile; layout_piece_length : Z; layout_total_length : Z }.

(** [ends_with('/')]. *)
Definition ends_with_byte (b : byte) (s : text) : bool :=
  match last s with Some c => Byte.eqb c b | None => false end.

Definition join_path (base name file_path : text) : text :=
  let s := base in
  let s := if negb (ends_with_byte "/" s) then s ++ ["/"%byte] else s in
  let s := s ++ name in
  if negb (len file_path =? 0) then s ++ ["/"%byte] ++ file_path else s.

Definition file_path (l : StorageLayout) (index : Z) (complete : bool) : option text :=
  match get (layout_files l) index with
  | None => None
  | Some file =>
      let base := if complete then download_dir l else default (download_dir l) (incomplete_dir l) in
      Some (join_path base (layout_name l) (lf_path file))
  end.

Definition has_unsafe_path (l : StorageLayout) : bool :=
  existsb (fun f => existsb (fun seg => bool_decide (seg = bytes_of "..")) (split_byte "/" (lf_path f)))
    (layout_files l).

Record FileLayout : Type := mkFileLayout { fl_files : list (Z * Z * Z) }.

(** The loop of [FileLayout::from_lengths]: the entries so far and the offset. *)
Definition push_length (acc : list (Z * Z * Z) * Z) (file : Z * Z) : outcome (list (Z * Z * Z) * Z) :=
  let '(out, offset) := acc in
  let '(index, length) := file in
  end_ ← ok_or (checked_add offset length) (MalformedTorrent "file offset overflow");
  Ok (out ++ [(index, offset, end_)], end_).

Definition from_lengths (files : list (Z * Z)) : outcome FileLayout :=
  '(out, _) ← try_fold push_length ([], 0) files;
  Ok (mkFileLayout out).

Definition overlapping (l : FileLayout) (start end_ : Z) : list Z :=
  map (fun e => e.1.1)
    (List.filter (fun e => (start <? e.2) && (e.1.2 <? end_)) (fl_files l)).

(** ** [mod.rs]: pieces and files *)

(** The loop of [piece_file_ranges]: the slices so far and the offset. *)
Definition push_slice (start end_ : Z) (acc : list FileSlice * Z) (entry : Z * MetaFile)
  : outcome (list FileSlice * Z) :=
  let '(out, offset) := acc in
  let '(file_index, file) := entry in
  file_end ← ok_or (checked_add offset (mf_length file)) (MalformedTorrent "file offset overflow");
  if (start <? file_end) && (offset <? end_) then
    let slice_start := Z.max offset start - offset in
    let slice_end := Z.min file_end end_ - offset in
    Ok (out ++ [mkFileSlice file_index slice_start (slice_end - slice_start)], file_end)
  else Ok (out, file_end).

Definition piece_file_ranges (meta : TorrentMeta) (piece_index : Z) : outcome (list FileSlice) :=
  match piece_byte_range meta piece_index with
  | None => Ok []
  | Some (start, end_) =>
      '(out, _) ← try_fold (push_slice start end_) ([], 0) (enumerate (files meta));
      Ok out
  end.

Section verify.
Context {D : Digests}.

Definition verify_piece (meta : TorrentMeta) (index : Z) (data : list byte) : bool :=
  match get (pieces meta) index with
  | None => false
  | Some expected => bool_decide (sha1 data = expected)
  end.
End verify.

(** ** [resume.rs]: the piece bitfield *)

Record PieceBitfield : Type := mkPieceBitfield { bf_bytes : list byte }.

Definition bf_new (piece_count : Z) : PieceBitfield :=
  mkPieceBitfield (replicate (Z.to_nat (div_ceil piece_count 8)) x00).
Definition bf_from_bytes (bytes : list byte) : PieceBitfield := mkPieceBitfield bytes.

(** [1 << bit] in [u8], where [bit] is below 8. *)
Definition bit_mask (index : Z) : Z := Z.shiftl 1 (7 - index mod 8).

(** One byte of the vector: out of range the code leaves the vector alone. *)
Definition update_byte (f : PieceBitfield) (index : Z) (g : Z -> Z) : PieceBitfield :=
  let byte := index / 8 in
  match get (bf_bytes f) byte with
  | Some b => mkPieceBitfield (<[Z.to_nat byte := as_u8 (g (u8 b))]> (bf_bytes f))
  | None => f
  end.

Definition bf_set (f : PieceBitfield) (index : Z) : PieceBitfield :=
  update_byte f index (fun b => Z.lor b (bit_mask index)).
(** [!(1 << bit)] in [u8]. *)
Definition bf_clear (f : PieceBitfield) (index : Z) : PieceBitfield :=
  update_byte f index (fun b => Z.land b (255 - bit_mask index)).

Definition bf_has (f : PieceBitfield) (index : Z) : bool :=
  match get (bf_bytes f) (index / 8) with
  | Some b => negb (Z.land (u8 b) (bit_mask index) =? 0)
  | None => false
  end.

Definition bf_count (f : PieceBitfield) (total : Z) : Z :=
  let full := total / 8 in
  let rem := total mod 8 in
  let count := zsum (fun b => count_ones (u8 b)) (take (Z.to_nat full) (bf_bytes f)) in
  if 0 <? rem then
    match get (bf_bytes f) full with
    | Some b => let mask := wrap 8 (Z.shiftl 255 (8 - rem)) in count + count_ones (Z.land (u8 b) mask)
    | None => count
    end
  else count.

(** ** [mod.rs]: [PieceProgress] *)

Record PieceProgress : Type := mkProgress { bitfield : PieceBitfield; total : Z; have_count : Z }.

Definition progress_new (total : Z) : PieceProgress := mkProgress (bf_new total) total 0.

Definition have_piece (p : PieceProgress) (index : Z) : PieceProgress :=
  if (index <? total p) && negb (bf_has (bitfield p) index)
  then mkProgress (bf_set (bitfield p) index) (total p) (have_count p + 1)
  else p.

Definition replace_from_bitfield (p : PieceProgress) (b : PieceBitfield) (total : Z) : PieceProgress :=
  mkProgress b total (bf_count b total).

Definition pieces_have (p : PieceProgress) : Z := have_count p.
Definition is_complete (p : PieceProgress) : bool := have_count p =? total p.

(** ** Pieces and files: the slices of a piece are its bytes *)

(** The part of [data], which starts at [off] in the payload, inside [[s, e)]. *)
Definition window (s e off : Z) (data : list byte) : list byte :=
  take (Z.to_nat (e - Z.max s off)) (drop (Z.to_nat (s - off)) data).

Lemma window_app s e off c d :
  window s e off (c ++ d) = window s e off c ++ window s e (off + len c) d.
Proof.
  unfold window. rewrite skipn_app, firstn_app, length_drop. unfold len.
  destruct (Z.le_gt_cases s (off + Z.of_nat (length c))) as [H|H].
  - f_equal. replace (Z.to_nat (s - off) - length c)%nat with 0%nat by lia.
    replace (Z.to_nat (s - (off + Z.of_nat (length c)))) with 0%nat by lia. f_equal. lia.
  - rewrite (drop_ge c) by lia. cbn [length]. rewrite !firstn_nil. cbn [app].
    f_equal; [lia|]. f_equal. lia.
Qed.

Lemma window_disjoint s e off c : off + len c <= s \/ e <= off -> window s e off c = [].
Proof.
  unfold window, len. intros [H|H].
  - by rewrite drop_ge, firstn_nil by lia.
  - replace (Z.to_nat (e - Z.max s off)) with 0%nat by lia. done.
Qed.

Definition slice_of (s e k off : Z) (f : MetaFile) : list FileSlice :=
  if (s <? off + mf_length f) && (off <? e)
  then [mkFileSlice k (Z.max off s - off) (Z.min (off + mf_length f) e - off - (Z.max off s - off))]
  else [].

Lemma push_slice_eq s e out off k f :
  off + mf_length f <= u64_max ->
  push_slice s e (out, off) (k, f) = Ok (out ++ slice_of s e k off f, off + mf_length f).
Proof.
  intros H. unfold push_slice, slice_of.
  rewrite (proj2 (checked_add_Some off (mf_length f) (off + mf_length f))) by (unfold usize_max, u64_max in *; lia).
  cbn [ok_or]. rewrite bind_ret. destruct (_ && _); [done|by rewrite app_nil_r].
Qed.

(** The slices the loop pushes for the files from [k] on, which start at [off]. *)
Fixpoint slices_from (s e k off : Z) (fs : list MetaFile) : list FileSlice :=
  match fs with
  | [] => []
  | f :: fs =>
      slice_of s e k off f ++ slices_from s e (k + 1) (off + mf_length f) fs
  end.

Lemma push_slices s e fs : forall k off out,
  0 <= off -> unsigned_files fs -> off + zsum mf_length fs <= u64_max ->
  try_fold (push_slice s e) (out, off) (imap (fun i f => (k + Z.of_nat i, f)) fs)
  = Ok (out ++ slices_from s e k off fs, off + zsum mf_length fs).
Proof.
  induction fs as [|f fs IH]; intros k off out Hoff Hu Hsum.
  { cbn [imap try_fold slices_from]. rewrite zsum_nil, app_nil_r, Z.add_0_r. done. }
  apply Forall_cons in Hu as [Hf Hu]. rewrite zsum_cons in Hsum |- *.
  assert (0 <= zsum mf_length fs).
  { apply zsum_nonneg. intros a Ha. unfold unsigned_files in Hu. rewrite Forall_forall in Hu. auto. }
  rewrite imap_from_cons. cbn [try_fold slices_from].
  rewrite push_slice_eq, bind_ret, (IH (k + 1)), <- app_assoc by (done || lia). by rewrite Z.add_assoc.
Qed.

Definition slice_data (contents : list (list byte)) (sl : FileSlice) : list byte :=
  take (Z.to_nat (slice_length sl)) (rest (default [] (get contents (file_index sl))) (offset_in_file sl)).

Definition file_contents (fs : list MetaFile) (contents : list (list byte)) : Prop :=
  Forall2 (fun f c => len c = mf_length f) fs contents.

Lemma slices_data s e fs : forall k off before cs,
  file_contents fs cs -> len before = k ->
  concat (map (slice_data (before ++ cs)) (slices_from s e k off fs)) = window s e off (concat cs).
Proof.
  induction fs as [|f fs IH]; intros k off before cs Hc Hk; apply Forall2_cons_inv_l in Hc || inversion Hc; subst.
  { cbn. unfold window. by rewrite skipn_nil, firstn_nil. }
  destruct Hc as (c & cs' & Hlen & Hcs & ->). cbn [slices_from concat].
  rewrite map_app, concat_app, window_app, Hlen. f_equal.
  - unfold slice_of. destruct (Z.ltb_spec s (off + mf_length f)) as [H1|H1]; cbn [andb];
      [destruct (Z.ltb_spec off e) as [H2|H2]|]; [|by rewrite window_disjoint by lia..].
    cbn [map concat]. rewrite app_nil_r. unfold slice_data. cbn [slice_length file_index offset_in_file].
    rewrite (proj2 (get_Some (before ++ c :: cs') (len before) c)).
    2: { split; [done|]. unfold len. rewrite Nat2Z.id. by apply list_lookup_middle. }
    cbn [default from_option id]. unfold window, rest.
    replace (Z.max off s - off) with (Z.max 0 (s - off)) by lia.
    replace (Z.to_nat (Z.max 0 (s - off))) with (Z.to_nat (s - off)) by lia.
    destruct (Z.le_gt_cases e (off + mf_length f)).
    + f_equal. lia.
    + rewrite !take_ge; [done|rewrite length_drop; unfold len in Hlen; lia..].
  - rewrite <- (IH (len before + 1) (off + mf_length f) (before ++ [c]) cs' Hcs) by by rewrite len_app.
    by rewrite <- app_assoc.
Qed.

Lemma piece_byte_range_valid m i :
  valid_v1_layout m -> 0 < piece_length m <= MAX_PIECE_LENGTH -> 0 <= i < len (pieces m) ->
  piece_byte_range m i = Some (i * piece_length m, Z.min (i * piece_length m + piece_length m) (total_length m))
  /\ i * piece_length m < total_length m.
Proof.
  intros [Hn Hmax] Hp Hi. unfold piece_byte_range. rewrite (proj2 (Z.leb_gt _ _)) by lia.
  pose proof (proj1 (div_ceil_spec (total_length m) (piece_length m) _ ltac:(lia)) (eq_sym Hn)) as Hd.
  assert (i * piece_length m + piece_length m <= MAX_TORRENT_PIECES * MAX_PIECE_LENGTH) as Hb.
  { transitivity ((i + 1) * piece_length m); [lia|]. apply Z.mul_le_mono_nonneg; lia. }
  assert (MAX_TORRENT_PIECES * MAX_PIECE_LENGTH < 2 ^ 64) by done. pose proof (Z.mul_nonneg_nonneg i (piece_length m)).
  rewrite !wrap_small by (unfold in_width; rewrite ?wrap_small by (unfold in_width; lia); lia).
  split; [done|]. nia.
Qed.

(** The bytes of piece [i]. *)
Definition payload_piece (m : TorrentMeta) (payload : list byte) (i : Z) : list byte :=
  take (Z.to_nat (piece_length m)) (rest payload (i * piece_length m)).

(** A slice is a part of the file it names; only an empty file has an empty one. *)
Definition slice_inside (fs : list MetaFile) (sl : FileSlice) : Prop :=
  0 <= offset_in_file sl /\
  exists f, get fs (file_index sl) = Some f /\ 0 <= slice_length sl /\ (slice_length sl = 0 -> mf_length f = 0) /\
    offset_in_file sl + slice_length sl <= mf_length f.

Lemma slices_inside s e fs : forall k off before,
  0 <= s < e -> unsigned_files fs -> len before = k ->
  Forall (slice_inside (before ++ fs)) (slices_from s e k off fs).
Proof.
  induction fs as [|f fs IH]; intros k off before Hs Hu Hk; [constructor|].
  apply Forall_cons in Hu as [Hf Hu]. cbn [slices_from]. apply Forall_app. split.
  - unfold slice_of. destruct (Z.ltb_spec s (off + mf_length f)); cbn [andb]; [|constructor].
    destruct (Z.ltb_spec off e); [|constructor]. apply Forall_singleton.
    unfold slice_inside. cbn [slice_length offset_in_file file_index].
    split; [lia|]. exists f. split; [|lia]. apply get_Some. split; [subst; auto|].
    subst k. unfold len. rewrite Nat2Z.id. by apply list_lookup_middle.
  - rewrite (cons_middle f before fs), app_assoc. apply IH; [done|done|]. rewrite len_app. subst k. done.
Qed.

(** The pieces of a payload cover it. *)
Lemma payload_pieces m payload (k : nat) :
  0 < piece_length m ->
  concat (map (payload_piece m payload) (seqZ 0 (Z.of_nat k)))
  = take (Z.to_nat (Z.of_nat k * piece_length m)) payload.
Proof.
  intros Hp. induction k as [|k IH]; [done|]. replace (Z.of_nat (S k)) with (Z.of_nat k + 1) by lia.
  rewrite seqZ_app, map_app, concat_app, IH by lia. rewrite Z.add_0_l.
  change (seqZ (Z.of_nat k) 1) with [0 + Z.of_nat k]. cbn [map concat]. rewrite app_nil_r, Z.add_0_l.
  unfold payload_piece, rest. replace (Z.to_nat ((Z.of_nat k + 1) * piece_length m))
    with (Z.to_nat (Z.of_nat k * piece_length m) + Z.to_nat (piece_length m))%nat by nia.
  rewrite <- take_take_drop. done.
Qed.

(** C16: the files of a torrent and its pieces divide the same payload.  For valid
    v1 metadata and files with the recorded lengths, the slices of a piece lie
    inside their files, and read in order they are exactly the bytes of the piece;
    indices past the last piece have no slices; and the pieces, in order, are the
    whole payload. *)
Theorem piece_slices_payload m contents :
  valid_files (files m) (total_length m) -> valid_v1_layout m -> 0 < piece_length m <= MAX_PIECE_LENGTH ->
  file_contents (files m) contents ->
  let payload := concat contents in
  (forall i, 0 <= i < len (pieces m) -> exists slices,
     piece_file_ranges m i = Ok slices /\ Forall (slice_inside (files m)) slices /\
     concat (map (slice_data contents) slices) = payload_piece m payload i /\
     payload_piece m payload i <> []) /\
  (forall i, len (pieces m) <= i -> piece_file_ranges m i = Ok []) /\
  concat (map (payload_piece m payload) (seqZ 0 (len (pieces m)))) = payload.
Proof.
  intros [_ _ _ Htot Hr] Hv Hp Hc payload.
  assert (unsigned_files (files m)) as Hu.
  { apply Forall_forall. intros f [i Hi]%list_elem_of_lookup. destruct (Forall2_lookup_l _ _ _ _ _ Hc Hi) as (c & _ & <-). auto. }
  assert (len payload = total_length m) as Hlen.
  { rewrite <- Htot. unfold payload. clear -Hc. induction Hc as [|f c fs cs E _ IH]; [done|].
    cbn [concat]. by rewrite len_app, zsum_cons, E, IH. }
  pose proof Hv as [Hn _].
  pose proof (proj1 (div_ceil_spec (total_length m) (piece_length m) _ ltac:(lia)) (eq_sym Hn)) as Hd.
  split; [|split].
  - intros i Hi. destruct (piece_byte_range_valid m i Hv Hp Hi) as [E Hlt]. unfold piece_file_ranges. rewrite E.
    rewrite enumerate_from, (push_slices _ _ (files m) 0 0 []) by (done || lia). rewrite bind_ret.
    eexists. split; [reflexivity|]. cbn [app]. split; [|split].
    + apply (slices_inside _ _ (files m) 0 0 []); [nia|done|done].
    + rewrite (slices_data _ _ (files m) 0 0 [] contents Hc eq_refl). unfold window, payload_piece, rest.
      fold payload. rewrite Z.sub_0_r, Z.max_l by nia.
      destruct (Z.le_gt_cases (i * piece_length m + piece_length m) (total_length m)).
      * f_equal. lia.
      * rewrite !take_ge; [done|rewrite length_drop; unfold len in Hlen; nia..].
    + intros E'. apply (f_equal length) in E'. unfold payload_piece, rest in E'.
      rewrite length_take, length_drop in E'. cbn in E'. unfold len in Hlen. nia.
  - intros i Hi. unfold piece_file_ranges, piece_byte_range. by rewrite (proj2 (Z.leb_le _ _)) by lia.
  - pose proof (payload_pieces m payload (length (pieces m)) ltac:(lia)) as H.
    fold (len (pieces m)) in H. rewrite H. apply take_ge. unfold len in Hlen at 1. nia.
Qed.

(** Two files of three and two bytes in pieces of two bytes. *)
Definition two_files : TorrentMeta :=
  mkMeta ZERO Unknown (bytes_of "d") 2 (replicate 3 (zero_array 20))
    [mkMetaFile [bytes_of "a"] 3 None; mkMetaFile [bytes_of "b"] 2 None] 5 false None [] [] None None None true None None.

Lemma two_files_valid : valid_files (files two_files) (total_length two_files).
Proof.
  apply (validate_file_list_Ok _ _ "torrent" tt); [by repeat constructor|reflexivity].
Qed.

Lemma piece_slices_payload_witness :
  let contents := [bytes_of "abc"; bytes_of "de"] in
  piece_file_ranges two_files 1 = Ok [mkFileSlice 0 2 1; mkFileSlice 1 0 1] /\
  exists slices, piece_file_ranges two_files 1 = Ok slices /\
    concat (map (slice_data contents) slices) = bytes_of "cd".
Proof.
  intros contents. split; [reflexivity|].
  assert (valid_v1_layout two_files) as Hv by (split; [reflexivity|by vm_compute]).
  assert (0 < piece_length two_files <= MAX_PIECE_LENGTH) as Hp by by vm_compute.
  assert (file_contents (files two_files) contents) as Hc.
  { apply Forall2_cons. split; [reflexivity|]. apply Forall2_cons. split; [reflexivity|]. by apply Forall2_nil. }
  destruct (proj1 (piece_slices_payload two_files contents two_files_valid Hv Hp Hc) 1 ltac:(by vm_compute))
    as (slices & E & _ & H & _).
  exists slices. split; [exact E|exact H].
Defined.

(** ** Bitfields and progress *)

Lemma bit_mask_eq i : bit_mask i = Z.shiftr 128 (i mod 8).
Proof. apply shift_bit. Qed.

Lemma bf_has_bit f i :
  bf_has f i = match get (bf_bytes f) (i / 8) with Some b => piece_bit b i | None => false end.
Proof. unfold bf_has, piece_bit. by rewrite bit_mask_eq. Qed.

Lemma bf_has_bound f i : 0 <= i -> bf_has f i = true -> i < 8 * len (bf_bytes f).
Proof.
  intros Hi. rewrite bf_has_bit. destruct (get _ _) as [b|] eqn:E; [|done]. intros _.
  apply get_Some in E as [_ E]. apply lookup_lt_Some in E. unfold len.
  pose proof (Z.div_mod i 8 ltac:(lia)). pose proof (Z.mod_pos_bound i 8 ltac:(lia)). lia.
Qed.

Lemma update_byte_len f i g : len (bf_bytes (update_byte f i g)) = len (bf_bytes f).
Proof. unfold update_byte. destruct (get _ _); [|done]. cbn. unfold len. by rewrite length_insert. Qed.

(** Setting or clearing one bit, for a byte operation with that effect. *)
Lemma update_byte_has f i j g (h : bool -> bool) :
  0 <= i < 8 * len (bf_bytes f) -> 0 <= j ->
  (forall b, piece_bit (as_u8 (g (u8 b))) j = if i mod 8 =? j mod 8 then h (piece_bit b j) else piece_bit b j) ->
  bf_has (update_byte f i g) j = if i =? j then h (bf_has f j) else bf_has f j.
Proof.
  intros Hi Hj Hg. rewrite !bf_has_bit. unfold update_byte.
  pose proof (Z.div_mod i 8 ltac:(lia)). pose proof (Z.mod_pos_bound i 8 ltac:(lia)).
  pose proof (Z.div_mod j 8 ltac:(lia)). pose proof (Z.mod_pos_bound j 8 ltac:(lia)).
  assert (0 <= i / 8 < len (bf_bytes f)) as Hd by lia.
  destruct (lookup_lt_is_Some_2 (bf_bytes f) (Z.to_nat (i / 8))) as [b Eb]; [unfold len in Hd; lia|].
  rewrite (proj2 (get_Some _ _ _) (conj (proj1 Hd) Eb)). cbn [bf_bytes]. unfold get.
  rewrite !(proj2 (Z.ltb_ge (j / 8) 0)) by lia.
  destruct (Z.eq_dec (i / 8) (j / 8)) as [E|E].
  - rewrite <- E, list_lookup_insert_eq, Eb, Hg by (unfold len in Hd; lia).
    destruct (Z.eqb_spec (i mod 8) (j mod 8)), (Z.eqb_spec i j); (done || lia).
  - rewrite list_lookup_insert_ne by lia. destruct (Z.eqb_spec i j); [subst; done|done].
Qed.

Lemma bf_set_has f i j :
  0 <= i < 8 * len (bf_bytes f) -> 0 <= j -> bf_has (bf_set f i) j = bf_has f j || (i =? j).
Proof.
  intros Hi Hj. unfold bf_set. rewrite (update_byte_has f i j _ (fun _ => true) Hi Hj).
  2: { intros b. rewrite bit_mask_eq, piece_bit_set. destruct (_ =? _); [apply orb_true_r|apply orb_false_r]. }
  destruct (i =? j); [by rewrite orb_true_r|by rewrite orb_false_r].
Qed.

Lemma bf_clear_has f i j :
  0 <= i < 8 * len (bf_bytes f) -> 0 <= j -> bf_has (bf_clear f i) j = bf_has f j && negb (i =? j).
Proof.
  intros Hi Hj. unfold bf_clear. rewrite (update_byte_has f i j _ (fun _ => false) Hi Hj).
  2: { intros b. rewrite bit_mask_eq, piece_bit_clear. destruct (_ =? _); [apply andb_false_r|apply andb_true_r]. }
  destruct (i =? j); [by rewrite andb_false_r|by rewrite andb_true_r].
Qed.

(** Out of range nothing changes. *)
Lemma update_byte_out f i g : 8 * len (bf_bytes f) <= i -> update_byte f i g = f.
Proof.
  intros Hi. unfold update_byte, get. pose proof (Z.div_mod i 8 ltac:(lia)). pose proof (Z.mod_pos_bound i 8 ltac:(lia)).
  pose proof (len_nonneg (bf_bytes f)).
  rewrite (proj2 (Z.ltb_ge _ _)), lookup_ge_None_2 by (unfold len in *; lia). done.
Qed.

Lemma bf_new_has n i : 0 <= i -> bf_has (bf_new n) i = false.
Proof.
  intros Hi. rewrite bf_has_bit. destruct (get _ _) as [b|] eqn:E; [|done].
  apply get_Some in E as [_ E]. apply lookup_replicate in E as [-> _]. unfold piece_bit. by rewrite Z.land_0_l.
Qed.

Definition b2z (b : bool) : Z := if b then 1 else 0.

(** The pieces of byte [m] of a bitfield. *)
Lemma count_byte f (m k : Z) b :
  0 <= m -> 0 <= k <= 8 -> get (bf_bytes f) m = Some b ->
  zsum (fun i => b2z (bf_has f i)) (seqZ (8 * m) k) = zsum (bit_value b) (seqZ 0 k).
Proof.
  intros Hm Hk Hb. replace (8 * m) with (8 * m + 0) by lia.
  rewrite <- fmap_add_seqZ. unfold fmap. change (list_fmap Z Z) with (@map Z Z).
  rewrite zsum_map. apply zsum_ext. intros i Hi%elem_of_seqZ. rewrite bf_has_bit.
  replace ((8 * m + i) / 8) with m by (rewrite Z.mul_comm, Z.div_add_l, Z.div_small by lia; lia).
  rewrite Hb. unfold bit_value, b2z, piece_bit.
  replace ((8 * m + i) mod 8) with (i mod 8); [done|]. rewrite Z.add_comm, Z.mul_comm, Z.mod_add by lia. done.
Qed.

Lemma count_absent f a k :
  8 * len (bf_bytes f) <= a -> zsum (fun i => b2z (bf_has f i)) (seqZ a k) = 0.
Proof.
  intros Ha. transitivity (zsum (fun _ : Z => 0) (seqZ a k)).
  - apply zsum_ext. intros i Hi%elem_of_seqZ. destruct (bf_has f i) eqn:E; [|done].
    pose proof (len_nonneg (bf_bytes f)). apply bf_has_bound in E; lia.
  - induction (seqZ a k) as [|x l IH]; [done|]. by rewrite zsum_cons, IH.
Qed.

Lemma count_bytes f (m : nat) :
  zsum (fun b => count_ones (u8 b)) (take m (bf_bytes f))
  = zsum (fun i => b2z (bf_has f i)) (seqZ 0 (8 * Z.of_nat m)).
Proof.
  induction m as [|m IH]; [done|]. replace (8 * Z.of_nat (S m)) with (8 * Z.of_nat m + 8) by lia.
  rewrite (seqZ_app 0 (8 * Z.of_nat m) 8), zsum_app, <- IH, Z.add_0_l by lia.
  destruct (bf_bytes f !! m) as [b|] eqn:Hb.
  - rewrite (take_S_r _ _ _ Hb), zsum_app, zsum_single, count_ones_bits.
    rewrite (count_byte f (Z.of_nat m) 8 b); [done|lia|lia|by rewrite get_of_nat].
  - apply lookup_ge_None in Hb. rewrite count_absent by (unfold len; lia).
    rewrite !take_ge by lia. lia.
Qed.

(** [count]: the pieces below [total], the spare bits of the last byte left out. *)
Lemma bf_count_has f total :
  0 <= total -> bf_count f total = zsum (fun i => b2z (bf_has f i)) (seqZ 0 total).
Proof.
  intros Ht. unfold bf_count. pose proof (Z.div_mod total 8 ltac:(lia)) as E.
  pose proof (Z.mod_pos_bound total 8 ltac:(lia)) as B. pose proof (Z.div_pos total 8 ltac:(lia) ltac:(lia)) as P.
  assert (zsum (fun i => b2z (bf_has f i)) (seqZ 0 total)
    = zsum (fun b => count_ones (u8 b)) (take (Z.to_nat (total / 8)) (bf_bytes f))
      + zsum (fun i => b2z (bf_has f i)) (seqZ (8 * (total / 8)) (total mod 8))) as ->.
  { rewrite count_bytes, Z2Nat.id by done. rewrite <- zsum_app. f_equal.
    rewrite E at 1. by rewrite seqZ_app by lia. }
  destruct (Z.ltb_spec 0 (total mod 8)) as [Hr|Hr].
  - destruct (get (bf_bytes f) (total / 8)) as [b|] eqn:Hb.
    + rewrite count_ones_masked by lia. by rewrite (count_byte f (total / 8) _ b) by (done || lia).
    + rewrite count_absent; [lia|]. unfold get in Hb. rewrite (proj2 (Z.ltb_ge _ _)) in Hb by lia.
      apply lookup_ge_None in Hb. unfold len. lia.
  - replace (total mod 8) with 0 by lia. change (zsum _ (seqZ _ 0)) with 0. lia.
Qed.

(** A progress record whose count is right and whose bitfield has room. *)
Definition progress_ok (p : PieceProgress) : Prop :=
  0 <= total p <= 8 * len (bf_bytes (bitfield p)) /\
  have_count p = zsum (fun i => b2z (bf_has (bitfield p) i)) (seqZ 0 (total p)).

Lemma zsum_update (g h : Z -> Z) (a n i : Z) :
  a <= i < a + n -> (forall j, a <= j < a + n -> j <> i -> g j = h j) ->
  zsum g (seqZ a n) = zsum h (seqZ a n) - h i + g i.
Proof.
  intros Hi Hg. assert (seqZ a n = seqZ a (i - a) ++ i :: seqZ (i + 1) (a + n - (i + 1))) as ->.
  { replace n with ((i - a) + (1 + (a + n - (i + 1)))) at 1 by lia.
    rewrite seqZ_app by lia. f_equal. replace (a + (i - a)) with i by lia.
    rewrite seqZ_app by lia. change (seqZ i 1) with [0 + i]. done. }
  rewrite !zsum_app, !zsum_cons.
  rewrite (zsum_ext g h (seqZ a _)) by (intros j Hj%elem_of_seqZ; apply Hg; lia).
  rewrite (zsum_ext g h (seqZ (i + 1) _)) by (intros j Hj%elem_of_seqZ; apply Hg; lia). lia.
Qed.

Lemma progress_new_ok n : 0 <= n -> progress_ok (progress_new n).
Proof.
  intros Hn. pose proof (proj1 (div_ceil_spec n 8 (div_ceil n 8) ltac:(lia)) eq_refl).
  split; cbn [progress_new total bitfield have_count].
  - unfold len. cbn [bf_new bf_bytes]. rewrite length_replicate. lia.
  - symmetry. transitivity (zsum (fun _ : Z => 0) (seqZ 0 n)).
    + apply zsum_ext. intros i Hi%elem_of_seqZ. by rewrite bf_new_has by lia.
    + induction (seqZ 0 n) as [|x l IH]; [done|]. by rewrite zsum_cons, IH.
Qed.

Lemma have_piece_ok p i : 0 <= i -> progress_ok p -> progress_ok (have_piece p i).
Proof.
  intros Hi [Ht Hc]. unfold have_piece. destruct (Z.ltb_spec i (total p)) as [Hlt|]; cbn [andb]; [|by split].
  destruct (bf_has (bitfield p) i) eqn:E; cbn [negb]; [by split|].
  split; cbn [total bitfield have_count].
  - unfold bf_set. by rewrite update_byte_len.
  - rewrite (zsum_update _ (fun j => b2z (bf_has (bitfield p) j)) 0 (total p) i), <- Hc.
    + rewrite bf_set_has, E, Z.eqb_refl by lia. cbn. lia.
    + lia.
    + intros j Hj Hne. rewrite bf_set_has by lia. rewrite (proj2 (Z.eqb_neq i j)) by done. by rewrite orb_false_r.
Qed.

(** The pieces below [n] a bitfield has. *)
Definition had (f : PieceBitfield) (n : Z) : gset Z :=
  list_to_set (base.filter (fun i => bf_has f i = true) (seqZ 0 n)).

Lemma elem_of_had f n i : i ∈ had f n <-> bf_has f i = true /\ 0 <= i < n.
Proof. unfold had. rewrite elem_of_list_to_set, list_elem_of_filter, elem_of_seqZ. rewrite Z.add_0_l. done. Qed.

Lemma size_had f n : Z.of_nat (size (had f n)) = zsum (fun i => b2z (bf_has f i)) (seqZ 0 n).
Proof.
  unfold had. rewrite size_list_to_set by (apply NoDup_filter, NoDup_seqZ).
  induction (seqZ 0 n) as [|i l IH]; [done|]. rewrite zsum_cons, <- IH, filter_cons. unfold b2z.
  destruct (decide (bf_has f i = true)) as [->|E]; [cbn; lia|]. destruct (bf_has f i); [done|lia].
Qed.

Lemma had_complete f n :
  0 <= n -> Z.of_nat (size (had f n)) = n <-> forall i, 0 <= i < n -> i ∈ had f n.
Proof.
  intros Hn. set (all := list_to_set (C := gset Z) (seqZ 0 n)).
  assert (forall i, i ∈ all <-> 0 <= i < n) as Hall.
  { intros i. unfold all. rewrite elem_of_list_to_set, elem_of_seqZ. by rewrite Z.add_0_l. }
  assert (size all = Z.to_nat n) as Hsize.
  { unfold all. by rewrite size_list_to_set, length_seqZ by apply NoDup_seqZ. }
  assert (had f n ⊆ all) as Hsub by (intros i [_ Hi]%elem_of_had; by apply Hall).
  split.
  - intros Hs. assert (had f n = all) as -> by (apply (set_subseteq_size_eq _ _ Hsub); lia). apply Hall.
  - intros H. assert (had f n = all) as ->; [|lia]. apply set_eq. intros i. split; [apply Hsub|].
    intros Hi. by apply H, Hall.
Qed.

(** The operations of a progress record, and what they do to the set of pieces. *)
Inductive progress_op : Type := Have (index : Z) | Replace (f : PieceBitfield) (total : Z).

Definition progress_step (p : PieceProgress) (op : progress_op) : PieceProgress :=
  match op with Have i => have_piece p i | Replace f total => replace_from_bitfield p f total end.
Definition pieces_step (st : Z * gset Z) (op : progress_op) : Z * gset Z :=
  match op with
  | Have i => if i <? st.1 then (st.1, {[i]} ∪ st.2) else st
  | Replace f total => (total, had f total)
  end.

(** A replacement has a byte for every piece. *)
Definition op_ok (op : progress_op) : Prop :=
  match op with Have i => 0 <= i | Replace f total => 0 <= total <= 8 * len (bf_bytes f) end.

Lemma progress_step_refines p op :
  op_ok op -> progress_ok p ->
  progress_ok (progress_step p op) /\
  (total (progress_step p op), had (bitfield (progress_step p op)) (total (progress_step p op)))
  = pieces_step (total p, had (bitfield p) (total p)) op.
Proof.
  intros Hop Hp. destruct op as [i|f n]; cbn [progress_step pieces_step op_ok fst snd] in *.
  - split; [by apply have_piece_ok|]. unfold have_piece. destruct (Z.ltb_spec i (total p)) as [Hi|]; cbn [andb]; [|done].
    destruct (bf_has (bitfield p) i) eqn:E; cbn [negb total bitfield]; f_equal; apply set_eq; intros j;
      rewrite elem_of_union, elem_of_singleton, !elem_of_had.
    + split; [by right|]. intros [->|?]; [|done]. split; [done|lia].
    + destruct Hp as [Hr _]. split.
      * intros [Hj Hjn]. rewrite bf_set_has in Hj by lia. apply orb_true_iff in Hj as [|Hj%Z.eqb_eq]; [by right|by left].
      * intros [->|[Hj Hjn]]; (split; [|lia]); rewrite bf_set_has by lia; [by rewrite Z.eqb_refl, orb_true_r|by rewrite Hj].
  - split; [|done]. split; cbn; [done|]. by rewrite bf_count_has by lia.
Qed.

(** A progress record refines a set of pieces: from [new], through any sequence
    of [have_piece] and [replace_from_bitfield], it has exactly the pieces put in
    since the last replacement, out-of-range and repeated ones not counted twice,
    the cached count is the size of that set, and the record is complete exactly
    when every piece is in it. *)
Theorem progress_refines (n : Z) (ops : list progress_op) :
  0 <= n -> Forall op_ok ops ->
  let p := foldl progress_step (progress_new n) ops in
  let '(m, s) := foldl pieces_step (n, ∅) ops in
  total p = m /\ (forall i, 0 <= i < m -> bf_has (bitfield p) i = bool_decide (i ∈ s)) /\
  pieces_have p = Z.of_nat (size s) /\
  (is_complete p = true <-> forall i, 0 <= i < m -> i ∈ s).
Proof.
  intros Hn Hops p.
  assert (progress_ok p /\ (total p, had (bitfield p) (total p)) = foldl pieces_step (n, ∅) ops) as [Hp <-].
  { subst p. assert ((n, ∅) = (total (progress_new n), had (bitfield (progress_new n)) (total (progress_new n)))) as ->.
    { cbn [progress_new total bitfield]. f_equal. symmetry. apply set_eq. intros i. rewrite elem_of_had.
      split; [|set_solver]. intros [E Hi]. by rewrite bf_new_has in E by lia. }
    pose proof (progress_new_ok n Hn) as Hp. revert Hp. generalize (progress_new n) as q. clear Hn.
    induction Hops as [|op ops Hop _ IH]; intros q Hq; [done|]. cbn [foldl].
    destruct (progress_step_refines q op Hop Hq) as [Hq' <-]. by apply IH. }
  destruct Hp as [Ht Hc]. split; [done|]. split; [|split].
  - intros i Hi. destruct (bf_has (bitfield p) i) eqn:E; symmetry.
    + apply bool_decide_eq_true, elem_of_had. done.
    + apply bool_decide_eq_false. rewrite elem_of_had, E. by intros [].
  - unfold pieces_have. by rewrite Hc, size_had.
  - unfold is_complete. rewrite Z.eqb_eq, Hc, <- size_had, had_complete by lia. reflexivity.
Qed.

Lemma progress_refines_witness :
  let p := foldl progress_step (progress_new 10) [Have 9; Have 12; Have 9; Have 2] in
  pieces_have p = 2 /\ is_complete p = false /\ forall i, 0 <= i < 10 -> bf_has (bitfield p) i = bool_decide (i ∈ ({[2; 9]} : gset Z)).
Proof.
  assert (Forall op_ok [Have 9; Have 12; Have 9; Have 2]) as Hops.
  { repeat (apply Forall_cons; split; [cbn; lia|]). by apply Forall_nil. }
  pose proof (progress_refines 10 [Have 9; Have 12; Have 9; Have 2] ltac:(lia) Hops) as H.
  destruct H as (_ & H & _). split; [reflexivity|]. split; [reflexivity|].
  intros i Hi. rewrite (H i Hi). apply bool_decide_ext. cbn. set_solver.
Defined.
