(* ===== verification/Torrent.v ===== *)
(** * Torrent records and the registry: [crates/swarmotter-core/src/torrent.rs]

    The identity of a record ([key], [keys]), the progress of its files and the
    registry of all records by full key, with the alias of a hybrid.  The
    theorems: the bytes credited to the files are exactly those of the verified
    pieces, and the registry refines a directory from keys to records.

    A record has the fields these operations read or write; the others are of an
    abstract type, [other]. *)

From S2P Require Import Prelude Text Bits Hash Merkle Meta MetaCorrect V2 Storage.

Inductive FilePriority : Type := Unwanted | Low | Normal | High.

Record TorrentFile : Type := mkTorrentFile {
  tf_index : Z; tf_path : text; tf_length : Z; bytes_completed : Z; priority : FilePriority; wanted : bool }.

Definition set_bytes (f : TorrentFile) (n : Z) : TorrentFile :=
  mkTorrentFile (tf_index f) (tf_path f) (tf_length f) n (priority f) (wanted f).

Record Torrent (O : Type) : Type := mkTorrent {
  meta : TorrentMeta; progress : PieceProgress; rows : list TorrentFile;
  magnet_info_hash : option InfoHash; magnet_identity : option TorrentIdentity; other : O }.
Arguments mkTorrent {O}. Arguments meta {O}. Arguments progress {O}. Arguments rows {O}.
Arguments magnet_info_hash {O}. Arguments magnet_identity {O}. Arguments other {O}.

(** [u64::saturating_mul]. *)
Definition saturating_mul (a b : Z) : Z := Z.min u64_max (a * b).

(** [join("/")]. *)
Fixpoint join_slash (path : list text) : text :=
  match path with
  | [] => []
  | [seg] => seg
  | seg :: path => seg ++ ["/"%byte] ++ join_slash path
  end.

(** [unwrap_or_else] on a result. *)
Definition unwrap_or {A} (m : outcome A) (a : A) : outcome A :=
  match m with Err _ => Ok a | m => m end.

Section torrent.
Context {O : Type}.
Implicit Types t : Torrent O.

Definition torrent_new (meta : TorrentMeta) (other : O) : outcome (Torrent O) :=
  piece_count ← unwrap_or (data_piece_count meta) (meta_piece_count meta);
  let rows := map (fun '(i, f) => mkTorrentFile i (join_slash (path f)) (mf_length f) 0 Normal true)
                (enumerate (files meta)) in
  Ok (mkTorrent meta (progress_new piece_count) rows None None other).

Definition torrent_info_hash t : InfoHash := default (info_hash (meta t)) (magnet_info_hash t).
Definition torrent_identity t : TorrentIdentity := default (identity (meta t)) (magnet_identity t).
Definition torrent_key t : TorrentKey :=
  default (KeyV1 (torrent_info_hash t)) (primary_key (torrent_identity t)).
Definition torrent_keys t : list TorrentKey :=
  let keys := keys (torrent_identity t) in
  if len keys =? 0 then [KeyV1 (torrent_info_hash t)] else keys.

(** ** Progress *)

Definition verified_bytes (meta : TorrentMeta) (bitfield : PieceBitfield) : outcome Z :=
  if requires_v2_data_plane meta then
    match v2_piece_layout meta with
    | Err _ => Ok 0
    | Panic => Panic
    | OutOfFuel => OutOfFuel
    | Ok layout =>
        Ok (wrap 64 (zsum piece_len
          (omap (piece layout) (List.filter (bf_has bitfield) (seqZ 0 (layout_piece_count layout))))))
    end
  else
    Ok (wrap 64 (zsum (fun range => saturating_sub range.2 range.1)
      (omap (piece_byte_range meta) (List.filter (bf_has bitfield) (seqZ 0 (meta_piece_count meta)))))).

Definition torrent_bytes_completed t : outcome Z := verified_bytes (meta t) (bitfield (progress t)).

(** [get_mut(i)] and an update of what it found. *)
Definition update_at {A} (l : list A) (i : Z) (f : A -> A) : list A :=
  match get l i with Some a => <[Z.to_nat i := f a]> l | None => l end.

(** One piece of the BEP 52 branch. *)
Definition credit_v2 (layout : V2PieceLayout) (bitfield : PieceBitfield) (rows : list TorrentFile) (index : Z)
  : list TorrentFile :=
  if negb (bf_has bitfield index) then rows
  else match piece layout index with
       | Some mapping => update_at rows (V2.file_index mapping) (fun row =>
           set_bytes row (Z.min (saturating_add u64_max (bytes_completed row) (piece_len mapping)) (tf_length row)))
       | None => rows
       end.

(** One piece of a file, and a file, of the v1 branch. *)
Definition credit_piece (bitfield : PieceBitfield) (piece_length total_length file_start file_end : Z)
    (completed piece : Z) : Z :=
  if bf_has bitfield piece then
    let piece_start := saturating_mul piece piece_length in
    let piece_end := Z.min (saturating_add u64_max piece_start piece_length) total_length in
    saturating_add u64_max completed
      (saturating_sub (Z.min file_end piece_end) (Z.max file_start piece_start))
  else completed.

Definition credit_file (bitfield : PieceBitfield) (piece_length total_length : Z)
    (acc : list TorrentFile * Z) (entry : Z * MetaFile) : list TorrentFile * Z :=
  let '(rows, file_start) := acc in
  let '(index, file) := entry in
  let file_end := saturating_add u64_max file_start (mf_length file) in
  let completed :=
    if (0 <? mf_length file) && (0 <? piece_length) then
      let first_piece := file_start / piece_length in
      let last_piece := (file_end - 1) / piece_length in
      foldl (credit_piece bitfield piece_length total_length file_start file_end) 0
        (seqZ first_piece (last_piece - first_piece + 1))
    else 0 in
  (update_at rows index (fun row => set_bytes row (Z.min completed (mf_length file))), file_end).

Definition recompute_file_bytes_completed t : outcome (Torrent O) :=
  let set_rows rows := mkTorrent (meta t) (progress t) rows (magnet_info_hash t) (magnet_identity t) (other t) in
  let bf := bitfield (progress t) in
  if requires_v2_data_plane (meta t) then
    let cleared := map (fun row => set_bytes row 0) (rows t) in
    match v2_piece_layout (meta t) with
    | Err _ => Ok (set_rows cleared)
    | Panic => Panic
    | OutOfFuel => OutOfFuel
    | Ok layout =>
        Ok (set_rows (foldl (credit_v2 layout bf) cleared (seqZ 0 (layout_piece_count layout))))
    end
  else
    Ok (set_rows (foldl (credit_file bf (piece_length (meta t)) (total_length (meta t)))
      (rows t, 0) (enumerate (files (meta t)))).1).

(** ** The registry *)

Record TorrentRegistry : Type := mkRegistry {
  torrents : gmap TorrentKey (Torrent O); aliases : gmap TorrentKey TorrentKey }.

Definition registry_default : TorrentRegistry := mkRegistry ∅ ∅.

(** A key that some record already answers to. *)
Definition taken (r : TorrentRegistry) (key : TorrentKey) : bool :=
  bool_decide (is_Some (torrents r !! key)) || bool_decide (is_Some (aliases r !! key)).

Definition add (r : TorrentRegistry) (t : Torrent O) : TorrentRegistry * (TorrentKey + ()) :=
  let primary := torrent_key t in
  let keys := torrent_keys t in
  match List.find (taken r) keys with
  | Some key => (r, inl key)
  | None =>
      let torrents := <[primary := t]> (torrents r) in
      let aliases := foldl (fun aliases key =>
        if bool_decide (key = primary) then aliases else <[key := primary]> aliases) (aliases r) keys in
      (mkRegistry torrents aliases, inr ())
  end.

Definition canonical_key (r : TorrentRegistry) (key : TorrentKey) : option TorrentKey :=
  if bool_decide (is_Some (torrents r !! key)) then Some key else aliases r !! key.

Definition remove (r : TorrentRegistry) (key : TorrentKey) : TorrentRegistry * option (Torrent O) :=
  match canonical_key r key with
  | None => (r, None)
  | Some primary =>
      (mkRegistry (delete primary (torrents r)) (base.filter (fun kt => kt.2 <> primary) (aliases r)),
       torrents r !! primary)
  end.

Definition registry_get (r : TorrentRegistry) (key : TorrentKey) : option (Torrent O) :=
  canonical_key r key ≫= fun primary => torrents r !! primary.

(** [get_mut], and what the caller does with the record. *)
Definition modify (r : TorrentRegistry) (key : TorrentKey) (f : Torrent O -> Torrent O) : TorrentRegistry :=
  match canonical_key r key with
  | None => r
  | Some primary => mkRegistry (alter f primary (torrents r)) (aliases r)
  end.

Definition contains (r : TorrentRegistry) (key : TorrentKey) : bool := bool_decide (is_Some (canonical_key r key)).
End torrent.
Arguments TorrentRegistry : clear implicits.

(** ** The registry is a directory *)

Section registry.
Context {O : Type}.
Implicit Types (t u : Torrent O) (r : TorrentRegistry O).

Lemma torrent_keys_head t : exists ks, torrent_keys t = torrent_key t :: ks.
Proof.
  unfold torrent_keys, torrent_key. destruct (torrent_identity t); cbn; eauto.
Qed.

Lemma key_in_keys t : torrent_key t ∈ torrent_keys t.
Proof. destruct (torrent_keys_head t) as [ks ->]. by left. Qed.

(** Every record is filed under its key, the other keys of a record are its
    aliases, and no two records share a key. *)
Record registry_ok r : Prop := {
  ro_primary : forall p t, torrents r !! p = Some t -> torrent_key t = p;
  ro_alias : forall k p, aliases r !! k = Some p <->
    exists t, torrents r !! p = Some t /\ k ∈ torrent_keys t /\ k <> p;
  ro_disjoint : forall p q t u k, torrents r !! p = Some t -> torrents r !! q = Some u ->
    k ∈ torrent_keys t -> k ∈ torrent_keys u -> p = q }.

Lemma canonical_Some r k p :
  registry_ok r -> canonical_key r k = Some p <-> exists t, torrents r !! p = Some t /\ k ∈ torrent_keys t.
Proof.
  intros [H1 H2 H3]. unfold canonical_key. destruct (torrents r !! k) as [u|] eqn:Ek.
  - rewrite bool_decide_eq_true_2 by done. pose proof (H1 _ _ Ek) as Hu. pose proof (key_in_keys u) as Hin. rewrite Hu in Hin.
    split; [intros [= <-]; by exists u|]. intros (t & Ht & Hk). by rewrite (H3 p k t u k).
  - rewrite bool_decide_eq_false_2 by by intros []. rewrite H2. split; [naive_solver|].
    intros (t & Ht & Hk). exists t. split; [done|]. split; [done|]. intros ->. congruence.
Qed.

(** Which record answers to a key. *)
Lemma get_Some_iff r k t :
  registry_ok r -> registry_get r k = Some t <-> torrents r !! torrent_key t = Some t /\ k ∈ torrent_keys t.
Proof.
  intros Hr. unfold registry_get. rewrite bind_Some. setoid_rewrite (canonical_Some r k _ Hr). split.
  - intros (p & (u & Hu & Hk) & Ht). assert (u = t) as -> by congruence. by rewrite (ro_primary r Hr p t).
  - intros [Ht Hk]. exists (torrent_key t). split; [by exists t|done].
Qed.

Lemma taken_get r k : registry_ok r -> taken r k = true <-> is_Some (registry_get r k).
Proof.
  intros Hr. unfold taken. rewrite orb_true_iff, !bool_decide_eq_true. split.
  - intros [[t Ht]|[p (t & Ht & Hk & _)%(ro_alias r Hr)]]; exists t; apply get_Some_iff; try done.
    + pose proof (ro_primary r Hr _ _ Ht) as E. subst k. split; [done|apply key_in_keys].
    + by rewrite (ro_primary r Hr _ _ Ht).
  - intros [t (Ht & Hk)%(get_Some_iff r k t Hr)]. destruct (decide (k = torrent_key t)) as [->|Hn]; [left; by exists t|right].
    exists (torrent_key t). apply (ro_alias r Hr). by exists t.
Qed.

Lemma add_aliases_lookup (p : TorrentKey) ks : forall (m : gmap TorrentKey TorrentKey) k,
  foldl (fun m key => if bool_decide (key = p) then m else <[key := p]> m) m ks !! k
  = if bool_decide (k ∈ ks /\ k <> p) then Some p else m !! k.
Proof.
  induction ks as [|a ks IH]; intros m k; cbn [foldl].
  { by rewrite bool_decide_eq_false_2 by by intros [?%not_elem_of_nil _]. }
  rewrite IH. destruct (decide (k ∈ ks /\ k <> p)) as [Hk|Hk].
  { rewrite !bool_decide_eq_true_2; [done|set_solver|done]. }
  rewrite (bool_decide_eq_false_2 _ Hk). destruct (decide (a = p)) as [->|Ha].
  - rewrite (bool_decide_eq_true_2 (p = p)), bool_decide_eq_false_2 by set_solver. done.
  - rewrite (bool_decide_eq_false_2 (a = p)) by done. destruct (decide (k = a)) as [->|Hne].
    + rewrite lookup_insert_eq, bool_decide_eq_true_2 by set_solver. done.
    + rewrite lookup_insert_ne, bool_decide_eq_false_2 by set_solver. done.
Qed.

Lemma find_Some_first {A} (f : A -> bool) l a :
  List.find f l = Some a <-> exists l1 l2, l = l1 ++ a :: l2 /\ Forall (fun x => f x = false) l1 /\ f a = true.
Proof.
  induction l as [|b l IH]; cbn [List.find].
  - split; [done|]. by intros ([|] & ? & ? & _).
  - destruct (f b) eqn:E.
    + split; [intros [= <-]; by exists [], l|]. intros ([|c l1] & l2 & [= <- H] & Hf & Ha); [done|].
      apply Forall_cons in Hf as [Hb _]. congruence.
    + rewrite IH. split; [intros (l1 & l2 & -> & Hf & Ha); exists (b :: l1), l2; by repeat constructor|].
      intros ([|c l1] & l2 & [= <- H] & Hf & Ha); [congruence|]. apply Forall_cons in Hf as [_ Hf]. eauto.
Qed.

Lemma find_None_all {A} (f : A -> bool) l : List.find f l = None <-> Forall (fun x => f x = false) l.
Proof.
  induction l as [|b l IH]; cbn [List.find]; [by split|]. rewrite Forall_cons. destruct (f b); [naive_solver|]. rewrite IH. naive_solver.
Qed.

(** Adding a record none of whose keys is taken. *)
Lemma add_ok r t :
  registry_ok r -> Forall (fun k => taken r k = false) (torrent_keys t) ->
  let r' := (add r t).1 in
  registry_ok r' /\ (add r t).2 = inr () /\
  forall k, registry_get r' k = if bool_decide (k ∈ torrent_keys t) then Some t else registry_get r k.
Proof.
  intros Hr Hf. unfold add. rewrite (proj2 (find_None_all _ _) Hf). cbn [fst snd].
  set (p := torrent_key t).
  assert (forall k u, k ∈ torrent_keys t -> torrents r !! torrent_key u = Some u -> k ∉ torrent_keys u) as Hnew.
  { intros k u Hk Hu Hku. rewrite Forall_forall in Hf. specialize (Hf k Hk).
    assert (taken r k = true); [|congruence]. apply taken_get; [done|]. exists u. by apply get_Some_iff. }
  assert (torrents r !! p = None) as Hp.
  { destruct (torrents r !! p) as [u|] eqn:E; [|done]. pose proof (ro_primary r Hr _ _ E) as Eu.
    destruct (Hnew p u (key_in_keys t)); [by rewrite Eu|]. rewrite <- Eu. apply key_in_keys. }
  assert (registry_ok (mkRegistry (<[p:=t]> (torrents r)) (foldl (fun aliases key =>
     if bool_decide (key = p) then aliases else <[key:=p]> aliases) (aliases r) (torrent_keys t)))) as Hr'.
  { split; cbn [torrents aliases].
    - intros q u [[<- <-]|[Hne Hu]]%lookup_insert_Some; [done|]. by apply (ro_primary r Hr).
    - intros k q. rewrite add_aliases_lookup. destruct (decide (k ∈ torrent_keys t /\ k <> p)) as [[Hk Hkp]|Hn].
      + rewrite bool_decide_eq_true_2 by done. split.
        * intros [= <-]. exists t. by rewrite lookup_insert_eq.
        * intros (u & [[<- <-]|[Hne Hu]]%lookup_insert_Some & Hku & _); [done|].
          destruct (Hnew k u Hk); [by rewrite (ro_primary r Hr _ _ Hu)|done].
      + rewrite bool_decide_eq_false_2 by done. rewrite (ro_alias r Hr). split.
        * intros (u & Hu & Hku & Hkq). exists u. rewrite lookup_insert_ne by congruence. done.
        * intros (u & [[<- <-]|[Hne Hu]]%lookup_insert_Some & Hku & Hkq); [by destruct Hn|]. eauto.
    - intros q q' u u' k [[<- <-]|[Hne Hu]]%lookup_insert_Some [[<- <-]|[Hne' Hu']]%lookup_insert_Some Hk Hk'; [done|..].
      + destruct (Hnew k u' Hk); [by rewrite (ro_primary r Hr _ _ Hu')|done].
      + destruct (Hnew k u Hk'); [by rewrite (ro_primary r Hr _ _ Hu)|done].
      + by apply (ro_disjoint r Hr q q' u u' k). }
  split; [done|]. split; [done|]. intros k. apply option_eq. intros u. rewrite get_Some_iff by done. cbn [torrents].
  rewrite lookup_insert_Some. case_bool_decide as Hk.
  - split; [|intros [= <-]; naive_solver]. intros [[[_ ->]|[Hne Hu]] Hku]; [done|]. by destruct (Hnew k u Hk Hu).
  - rewrite get_Some_iff by done. split; [intros [[[_ ->]|[_ ?]] ?]; [done|by split]|]. intros [Hu Hku].
    split; [right|done]. split; [|done]. fold p. intros E. rewrite <- E in Hu. congruence.
Qed.

(** Removing the record that answers to a key. *)
Lemma remove_ok r k :
  registry_ok r ->
  let r' := (remove r k).1 in
  registry_ok r' /\ (remove r k).2 = registry_get r k /\
  forall k', registry_get r' k' =
    match registry_get r k with
    | Some t => if bool_decide (k' ∈ torrent_keys t) then None else registry_get r k'
    | None => registry_get r k'
    end.
Proof.
  intros Hr. unfold remove. destruct (canonical_key r k) as [p|] eqn:Ep; cbn [fst snd].
  2: { assert (registry_get r k = None) as -> by (unfold registry_get; by rewrite Ep). done. }
  assert (registry_get r k = torrents r !! p) as -> by (unfold registry_get; by rewrite Ep).
  apply (canonical_Some r k p Hr) in Ep as (t & Ht & Hk). rewrite Ht. pose proof (ro_primary r Hr _ _ Ht) as Etp.
  assert (registry_ok (mkRegistry (delete p (torrents r)) (base.filter (fun kt => kt.2 <> p) (aliases r)))) as Hr'.
  { split; cbn [torrents aliases].
    - intros q u [_ Hu]%lookup_delete_Some. by apply (ro_primary r Hr).
    - intros j q. rewrite map_lookup_filter_Some, (ro_alias r Hr). cbn [snd]. split.
      + intros [(u & Hu & Hj) Hq]. exists u. by rewrite lookup_delete_ne.
      + intros (u & [Hq Hu]%lookup_delete_Some & Hj). split; [by exists u|done].
    - intros q q' u u' j [_ Hu]%lookup_delete_Some [_ Hu']%lookup_delete_Some. by apply (ro_disjoint r Hr q q' u u'). }
  split; [done|]. split; [done|]. intros k'. apply option_eq. intros u. rewrite get_Some_iff by done. cbn [torrents].
  rewrite lookup_delete_Some. case_bool_decide as Hk'.
  - split; [|done]. intros [[Hne Hu] Hku]. destruct Hne.
    by apply (ro_disjoint r Hr p (torrent_key u) t u k').
  - rewrite get_Some_iff by done. split; [naive_solver|]. intros [Hu Hku]. split; [|done]. split; [|done].
    intros E. rewrite <- E, Ht in Hu. injection Hu as <-. done.
Qed.

(** A change of a record that keeps its keys. *)
Lemma modify_ok r k f :
  registry_ok r -> (forall t, torrent_keys (f t) = torrent_keys t) ->
  registry_ok (modify r k f) /\
  forall k', registry_get (modify r k f) k' =
    match registry_get r k with
    | Some t => if bool_decide (k' ∈ torrent_keys t) then Some (f t) else registry_get r k'
    | None => registry_get r k'
    end.
Proof.
  intros Hr Hf. unfold modify. destruct (canonical_key r k) as [p|] eqn:Ep; cbn [fst snd].
  2: { assert (registry_get r k = None) as -> by (unfold registry_get; by rewrite Ep). done. }
  assert (registry_get r k = torrents r !! p) as -> by (unfold registry_get; by rewrite Ep).
  apply (canonical_Some r k p Hr) in Ep as (t & Ht & Hk). rewrite Ht. pose proof (ro_primary r Hr _ _ Ht) as Etp.
  assert (forall u, torrent_key (f u) = torrent_key u) as Hfk.
  { intros u. destruct (torrent_keys_head u) as [ks E], (torrent_keys_head (f u)) as [ks' E']. rewrite Hf, E in E'. by injection E'. }
  assert (forall (b : bool) u, torrent_keys (if b then f u else u) = torrent_keys u) as Hfi by (by intros []).
  assert (forall q u, alter f p (torrents r) !! q = Some u <->
    exists u0, torrents r !! q = Some u0 /\ u = if bool_decide (p = q) then f u0 else u0) as Halt.
  { intros q u. destruct (decide (p = q)) as [<-|Hne].
    - rewrite lookup_alter_eq, bool_decide_eq_true_2 by done. rewrite fmap_Some. done.
    - rewrite lookup_alter_ne, bool_decide_eq_false_2 by done. naive_solver. }
  assert (registry_ok (mkRegistry (alter f p (torrents r)) (aliases r))) as Hr'.
  { split; cbn [torrents aliases].
    - intros q u (u0 & Hu & ->)%Halt. case_bool_decide; rewrite ?Hfk; by apply (ro_primary r Hr).
    - intros j q. rewrite (ro_alias r Hr). setoid_rewrite Halt. split.
      + intros (u & Hu & Hj & Hjq). eexists. split; [by exists u|]. by rewrite Hfi.
      + intros (u & (u0 & Hu & ->) & Hj & Hjq). exists u0. by rewrite Hfi in Hj.
    - intros q q' u u' j (u0 & Hu & ->)%Halt (u1 & Hu' & ->)%Halt Hj Hj'. rewrite Hfi in Hj, Hj'.
      by apply (ro_disjoint r Hr q q' u0 u1 j). }
  split; [done|]. intros k'. apply option_eq. intros u. rewrite get_Some_iff by done. cbn [torrents]. rewrite Halt.
  destruct (bool_decide_reflect (k' ∈ torrent_keys t)) as [Hk'|Hk'].
  - split.
    + intros [(u0 & Hu & E) Hku]. assert (p = torrent_key u) as Ep.
      { apply (ro_disjoint r Hr p (torrent_key u) t u0 k'); [done|done|done|]. revert Hku. by rewrite E, Hfi. }
      rewrite bool_decide_eq_true_2 in E by done. rewrite <- Ep, Ht in Hu. naive_solver.
    + intros [= <-]. rewrite Hfk, Hf, Etp. split; [|done]. exists t. by rewrite bool_decide_eq_true_2.
  - rewrite get_Some_iff by done. split.
    + intros [(u0 & Hu & E) Hku]. destruct (bool_decide_reflect (p = torrent_key u)) as [Epu|]; [|by subst]. subst u.
      rewrite Hf in Hku. rewrite <- Epu, Ht in Hu. injection Hu as <-. done.
    + intros [Hu Hku]. split; [|done]. exists u. rewrite bool_decide_eq_false_2; [done|]. intros E.
      rewrite <- E, Ht in Hu. injection Hu as <-. done.
Qed.

(** Operations on the registry, and the directory they stand for: a function from
    every full key to the record that answers to it. *)
Inductive registry_op : Type :=
  | Add (t : Torrent O) | Remove (k : TorrentKey) | Modify (k : TorrentKey) (f : Torrent O -> Torrent O).
Inductive registry_reply : Type :=
  | Added (result : TorrentKey + ()) | Removed (record : option (Torrent O)) | Modified.

Definition registry_step r (op : registry_op) : TorrentRegistry O * registry_reply :=
  match op with
  | Add t => let '(r, result) := add r t in (r, Added result)
  | Remove k => let '(r, record) := remove r k in (r, Removed record)
  | Modify k f => (modify r k f, Modified)
  end.

Abbreviation directory := (TorrentKey -> option (Torrent O)).

(** Let the keys of [t] answer [v]. *)
Definition rebind (d : directory) t (v : option (Torrent O)) : directory :=
  fun k => if bool_decide (k ∈ torrent_keys t) then v else d k.

Definition directory_step (d : directory) (op : registry_op) : directory * registry_reply :=
  match op with
  | Add t =>
      match List.find (fun k => bool_decide (is_Some (d k))) (torrent_keys t) with
      | Some k => (d, Added (inl k))
      | None => (rebind d t (Some t), Added (inr ()))
      end
  | Remove k => (match d k with Some t => rebind d t None | None => d end, Removed (d k))
  | Modify k f => (match d k with Some t => rebind d t (Some (f t)) | None => d end, Modified)
  end.

(** Run a sequence and collect the replies. *)
Fixpoint run {S : Type} (step : S -> registry_op -> S * registry_reply) (s : S) (ops : list registry_op)
  : S * list registry_reply :=
  match ops with
  | [] => (s, [])
  | op :: ops =>
      let '(s, reply) := step s op in
      let '(s, replies) := run step s ops in
      (s, reply :: replies)
  end.

Definition keeps_keys (op : registry_op) : Prop :=
  match op with Modify _ f => forall t, torrent_keys (f t) = torrent_keys t | _ => True end.

Definition same_directory r (d : directory) : Prop := forall k, registry_get r k = d k.

Lemma find_ext {A} (f g : A -> bool) l : (forall x, f x = g x) -> List.find f l = List.find g l.
Proof. intros H. induction l as [|a l IH]; [done|]. cbn. by rewrite H, IH. Qed.

Lemma registry_step_refines r d op :
  registry_ok r -> same_directory r d -> keeps_keys op ->
  registry_ok (registry_step r op).1 /\
  same_directory (registry_step r op).1 (directory_step d op).1 /\
  (registry_step r op).2 = (directory_step d op).2.
Proof.
  intros Hr Hd Hk. destruct op as [t|k|k f]; cbn [registry_step directory_step].
  - assert (forall k, bool_decide (is_Some (d k)) = taken r k) as Ht.
    { intros k. apply eq_true_iff_eq. rewrite bool_decide_eq_true, taken_get, <- Hd by done. done. }
    rewrite (find_ext _ _ _ Ht). destruct (List.find (taken r) (torrent_keys t)) as [k|] eqn:Ef.
    + unfold add. by rewrite Ef.
    + destruct (add_ok r t Hr) as (H1 & H2 & H3); [by apply find_None_all|].
      destruct (add r t) as [r' res]. cbn [fst snd] in *. subst res. split; [done|]. split; [|done].
      intros k. by rewrite H3, Hd.
  - destruct (remove_ok r k Hr) as (H1 & H2 & H3). destruct (remove r k) as [r' res]. cbn [fst snd] in *.
    split; [done|]. rewrite H2, <- Hd. split; [|done]. intros k'. rewrite H3.
    destruct (registry_get r k); [|done]. unfold rebind. by rewrite Hd.
  - destruct (modify_ok r k f Hr Hk) as [H1 H2]. cbn [fst snd]. split; [done|]. split; [|done].
    intros k'. rewrite H2, <- Hd. destruct (registry_get r k); [|done]. unfold rebind. by rewrite Hd.
Qed.

(** C33: the registry refines a directory from full keys to records.  For every
    sequence of insertions, removals and changes that keep the keys of a record,
    the replies are the directory's — an insertion is refused exactly when one of
    its keys already answers, naming the first such key, and a removal by any key
    returns the record — and afterwards every key, the alias of a hybrid included,
    resolves to exactly the record the directory has for it. *)
Theorem registry_refines (ops : list registry_op) :
  Forall keeps_keys ops ->
  let '(r, replies) := run registry_step registry_default ops in
  let '(d, expected) := run directory_step (fun _ => None) ops in
  replies = expected /\
  forall k, registry_get r k = d k /\ contains r k = bool_decide (is_Some (d k)) /\
    canonical_key r k = torrent_key <$> d k.
Proof.
  intros Hops.
  assert (registry_ok (registry_default (O := O))) as Hr.
  { split; cbn; [done| |done]. intros k p. rewrite lookup_empty. split; [done|]. intros (t & Ht & _). done. }
  assert (same_directory registry_default (fun _ => None)) as Hd by done.
  revert Hr Hd. generalize (registry_default (O := O)) as r, (fun _ : TorrentKey => @None (Torrent O)) as d.
  induction Hops as [|op ops Hop _ IH]; intros r d Hr Hd; cbn [run].
  - split; [done|]. intros k. rewrite <- Hd. split; [done|]. unfold contains.
    assert (canonical_key r k = torrent_key <$> registry_get r k) as ->.
    { unfold registry_get. destruct (canonical_key r k) as [p|] eqn:Ep; [|done]. cbn [mbind option_bind].
      apply (canonical_Some r k p Hr) in Ep as (t & Ht & _). rewrite Ht. cbn. by rewrite (ro_primary r Hr _ _ Ht). }
    split; [|done]. apply bool_decide_ext. by rewrite fmap_is_Some.
  - destruct (registry_step_refines r d op Hr Hd Hop) as (Hr' & Hd' & Hrep).
    destruct (registry_step r op) as [r1 rep], (directory_step d op) as [d1 rep']. cbn [fst snd] in *. subst rep'.
    specialize (IH r1 d1 Hr' Hd'). destruct (run registry_step r1 ops), (run directory_step d1 ops). naive_solver.
Qed.
End registry.

(** A hybrid record, and one that collides with its v2 alias. *)
Definition hybrid_record : Torrent () :=
  mkTorrent two_files (progress_new 3) [] None (Some (Hybrid ZERO V2_ZERO)) ().
Definition v2_record : Torrent () :=
  mkTorrent two_files (progress_new 3) [] None (Some (V2 V2_ZERO)) ().

Lemma registry_refines_witness :
  let ops := [Add hybrid_record; Add v2_record; Remove (KeyV2 V2_ZERO); Add v2_record] in
  let '(r, replies) := run registry_step registry_default ops in
  replies = [Added (inr ()); Added (inl (KeyV2 V2_ZERO)); Removed (Some hybrid_record); Added (inr ())] /\
  registry_get r (KeyV1 ZERO) = None /\ registry_get r (KeyV2 V2_ZERO) = Some v2_record.
Proof.
  assert (Forall keeps_keys [Add hybrid_record; Add v2_record; Remove (KeyV2 V2_ZERO); Add v2_record]) as Hk
    by by repeat constructor.
  pose proof (registry_refines _ Hk) as H. cbv zeta.
  destruct (run registry_step _ _) as [r replies].
  destruct (run directory_step _ _) as [d expected] eqn:E. destruct H as [-> H].
  vm_compute in E. injection E as <- <-. split; [reflexivity|]. rewrite !(proj1 (H _)). split; reflexivity.
Defined.

(** ** Progress of files *)

(** The bytes of [[a, e)] whose piece is verified, for pieces of [p] bytes. *)
Definition verified_in (bf : PieceBitfield) (p a e : Z) : Z :=
  zsum (fun x => b2z (bf_has bf (x / p))) (seqZ a (e - a)).

Lemma verified_split bf p a b e :
  a <= b <= e -> verified_in bf p a e = verified_in bf p a b + verified_in bf p b e.
Proof.
  intros H. unfold verified_in. rewrite <- zsum_app. f_equal.
  replace (e - a) with ((b - a) + (e - b)) by lia. rewrite seqZ_app by lia.
  by replace (a + (b - a)) with b by lia.
Qed.

Lemma verified_piece bf p k a e :
  0 < p -> k * p <= a <= e -> e <= (k + 1) * p -> verified_in bf p a e = b2z (bf_has bf k) * (e - a).
Proof.
  intros Hp Ha He. unfold verified_in.
  transitivity (zsum (fun _ : Z => b2z (bf_has bf k)) (seqZ a (e - a))).
  - apply zsum_ext. intros x Hx%elem_of_seqZ. replace (x / p) with k; [done|].
    apply Z.div_unique with (x - k * p); [left|]; lia.
  - assert (e - a = Z.of_nat (length (seqZ a (e - a)))) as E by (rewrite length_seqZ; lia).
    rewrite E at 2. generalize (seqZ a (e - a)) as l. clear. induction l as [|x l IH]; [by rewrite Z.mul_0_r|].
    rewrite zsum_cons, IH. cbn [length]. lia.
Qed.

Lemma verified_bound bf p a e : a <= e -> 0 <= verified_in bf p a e <= e - a.
Proof.
  intros H. unfold verified_in. assert (e - a = Z.of_nat (length (seqZ a (e - a)))) as E by (rewrite length_seqZ; lia).
  rewrite E at 3. generalize (seqZ a (e - a)) as l. clear. induction l as [|x l IH]; [done|].
  rewrite zsum_cons. cbn [length]. destruct (bf_has bf (x / p)); cbn [b2z]; lia.
Qed.

(** The bytes of [[a, e)] that piece [k] holds. *)
Definition overlap (p a e k : Z) : Z := Z.max 0 (Z.min e ((k + 1) * p) - Z.max a (k * p)).

(** Bytes counted piece by piece, from the piece of [a] on. *)
Lemma verified_pieces bf p a e k0 (n : nat) :
  0 < p -> k0 * p <= a <= e ->
  zsum (fun k => b2z (bf_has bf k) * overlap p a e k) (seqZ k0 (Z.of_nat n))
  = verified_in bf p a (Z.max a (Z.min e ((k0 + Z.of_nat n) * p))).
Proof.
  intros Hp Ha. induction n as [|n IH].
  { change (zsum _ (seqZ k0 (Z.of_nat 0))) with 0. rewrite Z.max_l by lia.
    unfold verified_in. by rewrite Z.sub_diag. }
  replace (Z.of_nat (S n)) with (Z.of_nat n + 1) by lia. rewrite seqZ_app, zsum_app, IH by lia.
  change (seqZ (k0 + Z.of_nat n) 1) with [0 + (k0 + Z.of_nat n)]. rewrite zsum_single, Z.add_0_l.
  set (k := k0 + Z.of_nat n). replace (k0 + (Z.of_nat n + 1)) with (k + 1) by lia.
  assert ((k + 1) * p = k * p + p) as Ek by lia. unfold overlap. rewrite Ek.
  rewrite (verified_split bf p a (Z.max a (Z.min e (k * p))) (Z.max a (Z.min e (k * p + p)))) by lia.
  f_equal. assert (forall x, verified_in bf p x x = 0) as Hxx by (intros x; unfold verified_in; by rewrite Z.sub_diag).
  destruct (Z.le_gt_cases e (k * p)).
  - replace (Z.max a (Z.min e (k * p))) with e by lia. replace (Z.max a (Z.min e (k * p + p))) with e by lia.
    rewrite Hxx, Z.max_l; lia.
  - destruct (Z.le_gt_cases (k * p + p) a).
    + replace (Z.max a (Z.min e (k * p))) with a by lia. replace (Z.max a (Z.min e (k * p + p))) with a by lia.
      rewrite Hxx, Z.max_l; lia.
    + rewrite (verified_piece bf p k) by lia. f_equal. lia.
Qed.

Lemma credit_pieces bf p total fs fe k0 (n : nat) : forall c,
  0 < p -> 0 <= k0 -> 0 <= fs <= fe -> fe <= total <= u64_max - p ->
  k0 * p <= fs -> (k0 + Z.of_nat n) * p <= fe + p -> 0 <= c ->
  c + verified_in bf p fs (Z.max fs (Z.min fe ((k0 + Z.of_nat n) * p))) <= u64_max ->
  foldl (credit_piece bf p total fs fe) c (seqZ k0 (Z.of_nat n))
  = c + zsum (fun k => b2z (bf_has bf k) * overlap p fs fe k) (seqZ k0 (Z.of_nat n)).
Proof.
  intros c Hp Hk0 Hfs Hfe Hk Hn Hc. rewrite <- verified_pieces by lia. revert Hn. induction n as [|n IH]; intros Hn.
  { intros _. change (seqZ k0 (Z.of_nat 0)) with (@nil Z). rewrite zsum_nil, Z.add_0_r. done. }
  replace (Z.of_nat (S n)) with (Z.of_nat n + 1) in * by lia. rewrite seqZ_app, foldl_app, zsum_app by lia.
  change (seqZ (k0 + Z.of_nat n) 1) with [0 + (k0 + Z.of_nat n)]. rewrite zsum_single, Z.add_0_l.
  set (k := k0 + Z.of_nat n) in *. intros Hb.
  assert (0 <= b2z (bf_has bf k) * overlap p fs fe k) by (unfold overlap; destruct (bf_has bf k); cbn [b2z]; lia).
  rewrite IH by nia. cbn [foldl]. unfold credit_piece, saturating_mul, saturating_add, saturating_sub, overlap in *.
  destruct (bf_has bf k); cbn [b2z] in *; [|lia].
  rewrite (Z.min_r u64_max (k * p)), (Z.min_r u64_max (k * p + p)) by nia.
  replace (Z.min fe (Z.min (k * p + p) total)) with (Z.min fe ((k + 1) * p)) by nia.
  rewrite Z.min_r by lia. lia.
Qed.

Section v1_progress.
Variables (bf : PieceBitfield) (p total : Z).
Hypothesis p_pos : 0 < p.
Hypothesis total_range : total <= u64_max - p.

(** What the loop over the pieces of a file computes. *)
Lemma credit_file_eq rows i off f :
  0 <= off -> 0 <= mf_length f -> off + mf_length f <= total ->
  credit_file bf p total (rows, off) (i, f)
  = (update_at rows i (fun row => set_bytes row (verified_in bf p off (off + mf_length f))), off + mf_length f).
Proof.
  intros Hoff Hf Hsum. unfold credit_file, saturating_add. rewrite (Z.min_r u64_max (off + mf_length f)) by lia.
  f_equal. f_equal. enough ((if (0 <? mf_length f) && (0 <? p)
    then foldl (credit_piece bf p total off (off + mf_length f)) 0
      (seqZ (off / p) ((off + mf_length f - 1) / p - off / p + 1)) else 0)
    = verified_in bf p off (off + mf_length f)) as ->.
  { pose proof (verified_bound bf p off (off + mf_length f) ltac:(lia)). by rewrite Z.min_l by lia. }
  rewrite (proj2 (Z.ltb_lt 0 p)) by lia. rewrite andb_true_r. destruct (Z.ltb_spec 0 (mf_length f)) as [Hpos|].
  2: { replace (mf_length f) with 0 by lia. rewrite Z.add_0_r. unfold verified_in. by rewrite Z.sub_diag. }
  set (fe := off + mf_length f) in *.
  pose proof (Z.div_mod off p ltac:(lia)). pose proof (Z.mod_pos_bound off p p_pos).
  pose proof (Z.div_mod (fe - 1) p ltac:(lia)). pose proof (Z.mod_pos_bound (fe - 1) p p_pos).
  pose proof (Z.div_pos off p ltac:(lia) p_pos). pose proof (Z.div_le_mono off (fe - 1) p p_pos ltac:(lia)).
  set (n := (fe - 1) / p - off / p + 1).
  assert ((off / p + Z.of_nat (Z.to_nat n)) * p = fe - 1 - (fe - 1) mod p + p) as Hend.
  { rewrite Z2Nat.id by lia. unfold n. nia. }
  pose proof (verified_bound bf p off fe ltac:(lia)). rewrite <- (Z2Nat.id n) by lia.
  rewrite credit_pieces, verified_pieces by (try rewrite Hend; (done || lia || (rewrite Z.max_r, Z.min_l by lia; lia))).
  rewrite Hend, Z.max_r, Z.min_l by lia. lia.
Qed.

Fixpoint credited (off : Z) (fs : list MetaFile) (rows : list TorrentFile) : list TorrentFile :=
  match fs, rows with
  | f :: fs, row :: rows =>
      set_bytes row (verified_in bf p off (off + mf_length f)) :: credited (off + mf_length f) fs rows
  | _, _ => rows
  end.

Lemma credit_files_eq fs : forall k off before rows,
  0 <= off -> unsigned_files fs -> off + zsum mf_length fs <= total ->
  length rows = length fs -> len before = k ->
  foldl (credit_file bf p total) (before ++ rows, off) (imap (fun i f => (k + Z.of_nat i, f)) fs)
  = (before ++ credited off fs rows, off + zsum mf_length fs).
Proof.
  induction fs as [|f fs IH]; intros k off before rows Hoff Hu Hs Hl Hk.
  { destruct rows; [|done]. cbn. by rewrite zsum_nil, Z.add_0_r. }
  destruct rows as [|row rows]; [done|]. apply Forall_cons in Hu as [Hf Hu]. rewrite zsum_cons in Hs |- *.
  assert (0 <= zsum mf_length fs).
  { apply zsum_nonneg. intros a Ha. unfold unsigned_files in Hu. rewrite Forall_forall in Hu. auto. }
  rewrite imap_from_cons. cbn [foldl credited]. rewrite credit_file_eq by lia. unfold update_at.
  rewrite (proj2 (get_Some (before ++ row :: rows) k row)).
  2: { subst k. split; [auto|]. unfold len. rewrite Nat2Z.id. by apply list_lookup_middle. }
  replace (Z.to_nat k) with (length before + 0)%nat by (unfold len in Hk; lia). rewrite insert_app_r. cbn.
  rewrite cons_middle, app_assoc, (IH (k + 1)).
  - by rewrite <- app_assoc, Z.add_assoc.
  - lia.
  - done.
  - lia.
  - by injection Hl.
  - rewrite len_app. subst k. done.
Qed.

Lemma credited_lookup fs : forall off rows i f row,
  fs !! i = Some f -> rows !! i = Some row ->
  credited off fs rows !! i
  = Some (set_bytes row (verified_in bf p (off + zsum mf_length (take i fs)) (off + zsum mf_length (take (S i) fs)))).
Proof.
  induction fs as [|g fs IH]; intros off [|r rows] [|i] f row; try done; cbn [credited].
  - intros [= ->] [= ->]. cbn. rewrite !take_0, !zsum_cons, !zsum_nil, !Z.add_0_r. done.
  - intros Hf Hr. rewrite !firstn_cons, !zsum_cons, !Z.add_assoc. exact (IH _ _ _ f row Hf Hr).
Qed.

Lemma credited_sum fs : forall off rows,
  length rows = length fs -> unsigned_files fs ->
  zsum bytes_completed (credited off fs rows) = verified_in bf p off (off + zsum mf_length fs).
Proof.
  induction fs as [|f fs IH]; intros off [|r rows] Hl Hu; try done.
  - unfold verified_in. by rewrite zsum_nil, Z.add_0_r, Z.sub_diag.
  - apply Forall_cons in Hu as [Hf Hu]. cbn [credited]. rewrite !zsum_cons, IH by (by injection Hl || done).
    assert (0 <= zsum mf_length fs).
    { apply zsum_nonneg. intros a Ha. unfold unsigned_files in Hu. rewrite Forall_forall in Hu. auto. }
    rewrite (verified_split bf p off (off + mf_length f) (off + (mf_length f + zsum mf_length fs))) by lia.
    cbn. by rewrite Z.add_assoc.
Qed.
End v1_progress.

Lemma zsum_omap_filter {A B} (g : B -> Z) (h : A -> option B) (P : A -> bool) l :
  zsum g (omap h (List.filter P l)) = zsum (fun x => if P x then match h x with Some b => g b | None => 0 end else 0) l.
Proof.
  induction l as [|a l IH]; [done|]. cbn [List.filter]. rewrite zsum_cons. destruct (P a); [|by rewrite IH].
  change (omap h (a :: List.filter P l)) with (match h a with Some b => b :: omap h (List.filter P l) | None => omap h (List.filter P l) end).
  destruct (h a); rewrite ?zsum_cons, IH; lia.
Qed.

Lemma verified_bytes_v1 m bf :
  valid_v1_layout m -> 0 < piece_length m <= MAX_PIECE_LENGTH -> 0 <= total_length m ->
  requires_v2_data_plane m = false ->
  verified_bytes m bf = Ok (verified_in bf (piece_length m) 0 (total_length m)).
Proof.
  intros Hv Hp Ht Hd. unfold verified_bytes. rewrite Hd, zsum_omap_filter. f_equal.
  pose proof Hv as [Hn Hmax]. unfold meta_piece_count.
  pose proof (proj1 (div_ceil_spec (total_length m) (piece_length m) _ ltac:(lia)) (eq_sym Hn)) as Hc.
  pose proof (verified_bound bf (piece_length m) 0 (total_length m) Ht).
  assert (total_length m <= MAX_TORRENT_PIECES * MAX_PIECE_LENGTH) as Hb.
  { transitivity (len (pieces m) * piece_length m); [lia|]. apply Z.mul_le_mono_nonneg; auto; lia. }
  assert (MAX_TORRENT_PIECES * MAX_PIECE_LENGTH < 2 ^ 64) by done.
  enough (zsum (fun k => if bf_has bf k then match piece_byte_range m k with
      | Some b => saturating_sub b.2 b.1 | None => 0 end else 0) (seqZ 0 (len (pieces m)))
    = verified_in bf (piece_length m) 0 (total_length m)) as ->.
  { apply wrap_small. unfold in_width. lia. }
  pose proof (verified_pieces bf (piece_length m) 0 (total_length m) 0 (length (pieces m)) ltac:(lia) ltac:(lia)) as H'.
  fold (len (pieces m)) in H'. rewrite (Z.max_r 0), Z.min_l in H' by (try lia; nia). rewrite <- H'.
  apply zsum_ext. intros k Hk%elem_of_seqZ. destruct (bf_has bf k); cbn [b2z]; [|lia].
  destruct (piece_byte_range_valid m k Hv Hp ltac:(lia)) as [-> Hlt]. cbn [fst snd].
  unfold saturating_sub, overlap. nia.
Qed.

(** Where the bytes of the [i]-th file start and end in the payload. *)
Definition file_range (fs : list MetaFile) (i : nat) : Z * Z :=
  (zsum mf_length (take i fs), zsum mf_length (take (S i) fs)).

(** For a v1 or hybrid torrent, recomputing the progress of the files credits
    to each file exactly the bytes of it that lie in verified pieces, boundary
    pieces split between the files they cover, and changes nothing else; the
    credited bytes add up to [verified_bytes], which is the number of payload
    bytes in verified pieces, the short last piece counted at its real length. *)
Theorem file_progress_exact {O} (t : Torrent O) :
  let m := meta t in let bf := bitfield (progress t) in let p := piece_length m in
  requires_v2_data_plane m = false -> valid_files (files m) (total_length m) -> unsigned_files (files m) ->
  valid_v1_layout m -> 0 < p <= MAX_PIECE_LENGTH -> length (rows t) = length (files m) ->
  exists rows', recompute_file_bytes_completed t
      = Ok (mkTorrent m (progress t) rows' (magnet_info_hash t) (magnet_identity t) (other t)) /\
    length rows' = length (files m) /\
    (forall i row, rows t !! i = Some row ->
       let '(a, e) := file_range (files m) i in rows' !! i = Some (set_bytes row (verified_in bf p a e))) /\
    torrent_bytes_completed t = Ok (verified_in bf p 0 (total_length m)) /\
    zsum bytes_completed rows' = verified_in bf p 0 (total_length m).
Proof.
  intros m bf p Hd [_ _ _ Htot Hr] Hu Hv Hp Hl.
  assert (0 <= total_length m) as Ht.
  { rewrite <- Htot. apply zsum_nonneg. intros f Hf. unfold unsigned_files in Hu. rewrite Forall_forall in Hu. auto. }
  assert (total_length m <= u64_max - p) as Hmax.
  { pose proof Hv as [Hn Hc]. pose proof (proj1 (div_ceil_spec (total_length m) p _ ltac:(lia)) (eq_sym Hn)).
    assert (total_length m <= MAX_TORRENT_PIECES * MAX_PIECE_LENGTH).
    { transitivity (len (pieces m) * p); [unfold p in *; lia|]. apply Z.mul_le_mono_nonneg; auto; lia. }
    unfold u64_max, MAX_TORRENT_PIECES, MAX_PIECE_LENGTH in *. lia. }
  exists (credited bf p 0 (files m) (rows t)).
  pose proof (credit_files_eq bf p (total_length m) ltac:(lia) Hmax (files m) 0 0 [] (rows t)
    ltac:(done) Hu ltac:(lia) Hl eq_refl) as Hc. cbn [app] in Hc.
  assert (length (credited bf p 0 (files m) (rows t)) = length (files m)) as Hlen.
  { revert Hl. generalize 0, (rows t), (files m). clear. intros off rows fs. revert off rows.
    induction fs as [|f fs IH]; intros off [|r rows] H; try done. cbn. f_equal. apply IH. by injection H. }
  split; [|split; [done|split; [|split]]].
  - unfold recompute_file_bytes_completed. fold m. rewrite Hd, enumerate_from. fold bf p. by rewrite Hc.
  - intros i row Hi. unfold file_range.
    destruct (lookup_lt_is_Some_2 (files m) i) as [f Hf]; [rewrite <- Hl; by eapply lookup_lt_Some|].
    rewrite (credited_lookup bf p (files m) 0 (rows t) i f row Hf Hi). by rewrite !Z.add_0_l.
  - apply verified_bytes_v1; done.
  - rewrite (credited_sum bf p (files m) 0 (rows t) Hl Hu). by rewrite Z.add_0_l, Htot.
Qed.

(** Two files of three and two bytes, with pieces of two bytes: the second piece
    covers the end of the first file and the start of the second. *)
Definition half_done : Torrent () :=
  mkTorrent two_files (foldl progress_step (progress_new 3) [Have 1])
    [mkTorrentFile 0 (bytes_of "a") 3 0 Normal true; mkTorrentFile 1 (bytes_of "b") 2 0 Normal true] None None ().

Lemma file_progress_exact_witness :
  exists rows', recompute_file_bytes_completed half_done
      = Ok (mkTorrent two_files (progress half_done) rows' None None ()) /\
    map bytes_completed rows' = [1; 1] /\ torrent_bytes_completed half_done = Ok 2.
Proof.
  assert (unsigned_files (files two_files)) as Hu by by repeat constructor.
  assert (valid_v1_layout two_files) as Hv by (split; [reflexivity|by vm_compute]).
  assert (0 < piece_length two_files <= MAX_PIECE_LENGTH) as Hp by by vm_compute.
  destruct (file_progress_exact half_done eq_refl two_files_valid Hu Hv Hp eq_refl)
    as (rows' & E & Hl & Hr & Hb & _).
  exists rows'. split; [exact E|]. split; [|rewrite Hb; reflexivity].
  destruct rows' as [|r0 [|r1 [|]]]; [discriminate Hl..| |discriminate Hl].
  pose proof (Hr 0%nat _ eq_refl) as H0. pose proof (Hr 1%nat _ eq_refl) as H1.
  injection H0 as ->. injection H1 as ->. reflexivity.
Defined.
