(* ===== verification/PeerFilter.v ===== *)
(** * Peer admission: [crates/swarmotter-core/src/peer_filter.rs]

    Address rules (single addresses, CIDR blocks, inclusive ranges), their parser
    and the parser of imported blocklists, the compiled filter and its decisions
    with their counters.  The file system is an interface.  The theorems: a rule
    selects exactly an interval of addresses of one family; a filter admits exactly
    the addresses that no ban, configured rule or imported rule selects. *)

From S2P Require Import Prelude Text Bits Addr Hash Meta.

Definition MAX_BLOCKLIST_FILE_BYTES : Z := 32 * 1024 * 1024.
Definition MAX_PEER_FILTER_RULES : Z := 250000.
Definition MAX_BLOCKLIST_LINE_BYTES : Z := 4 * 1024.

Record ManualPeerBan : Type := mkManualPeerBan { ban_ip : text; ban_reason : option text }.

Record PeerFilterConfig : Type := mkPeerFilterConfig {
  cfg_enabled : bool; cfg_rules : list text; blocklist_paths : list text;
  cfg_manual_bans : list ManualPeerBan; cfg_blocked_client_ids : list text }.

Definition ban_parse (ban : ManualPeerBan) : outcome IpAddr :=
  ip ← ok_or (parse_ip (trim (ban_ip ban))) (InvalidConfig "peer_filter.manual_bans.ip");
  _ ← fail_if (match ban_reason ban with
               | Some reason => bool_decide (trim reason = []) || (240 <? len reason)
               | None => false
               end)
        (InvalidConfig "peer_filter.manual_bans.reason must be 1 to 240 characters when set");
  Ok ip.

(** ** Rules *)

Inductive PeerIpRule : Type :=
  | Single (expected : IpAddr) | Cidr (network : IpAddr) (prefix : Z) | Range (start end_ : IpAddr).

Definition parse_rule_ip (value : text) : outcome IpAddr :=
  ok_or (parse_ip (trim value)) (InvalidConfig "peer filter rule has invalid IP").

Definition same_family (left right : IpAddr) : bool :=
  match left, right with V4 _, V4 _ | V6 _, V6 _ => true | _, _ => false end.

(** [<[u8]>::cmp]. *)
Fixpoint compare_bytes (a b : list byte) : comparison :=
  match a, b with
  | [], [] => Eq
  | [], _ :: _ => Lt
  | _ :: _, [] => Gt
  | x :: a, y :: b => match u8 x ?= u8 y with Eq => compare_bytes a b | c => c end
  end.

Definition compare_ip (left right : IpAddr) : comparison :=
  match left, right with
  | V4 l, V4 r => compare_bytes (to_be 4 l) (to_be 4 r)
  | V6 l, V6 r => compare_bytes (to_be 16 l) (to_be 16 r)
  | V4 _, V6 _ => Lt
  | V6 _, V4 _ => Gt
  end.
Definition is_greater (c : comparison) : bool := match c with Gt => true | _ => false end.

Definition bytes_prefix_match (network candidate : list byte) (prefix : Z) : outcome bool :=
  let whole_bytes := prefix / 8 in
  let remaining_bits := prefix mod 8 in
  n ← slice network 0 whole_bytes;
  c ← slice candidate 0 whole_bytes;
  if negb (bool_decide (n = c)) then Ok false
  else if remaining_bits =? 0 then Ok true
  else
    let mask := wrap 8 (Z.shiftl 255 (8 - remaining_bits)) in
    Ok (match get network whole_bytes, get candidate whole_bytes with
        | Some l, Some r => Z.land (u8 l) mask =? Z.land (u8 r) mask
        | _, _ => false
        end).

Definition cidr_matches (network : IpAddr) (prefix : Z) (candidate : IpAddr) : outcome bool :=
  match network, candidate with
  | V4 network, V4 candidate => bytes_prefix_match (to_be 4 network) (to_be 4 candidate) prefix
  | V6 network, V6 candidate => bytes_prefix_match (to_be 16 network) (to_be 16 candidate) prefix
  | _, _ => Ok false
  end.

Definition matches (rule : PeerIpRule) (ip : IpAddr) : outcome bool :=
  match rule with
  | Single expected => Ok (bool_decide (expected = ip))
  | Range start end_ =>
      Ok (same_family start ip && negb (is_greater (compare_ip start ip)) && negb (is_greater (compare_ip ip end_)))
  | Cidr network prefix => cidr_matches network prefix ip
  end.

Definition parse_range (start end_ : text) : outcome PeerIpRule :=
  _ ← fail_if (contains_byte "-" end_) (InvalidConfig "peer filter range contains more than one '-'");
  start ← parse_rule_ip start;
  end_ ← parse_rule_ip end_;
  _ ← fail_if (negb (same_family start end_)) (InvalidConfig "peer filter range mixes IPv4 and IPv6");
  _ ← fail_if (is_greater (compare_ip start end_)) (InvalidConfig "peer filter range has an end before its start");
  Ok (Range start end_).

Definition parse_cidr (network prefix : text) : outcome PeerIpRule :=
  _ ← fail_if (contains_byte "/" prefix) (InvalidConfig "peer filter CIDR contains more than one '/'");
  network ← parse_rule_ip network;
  prefix ← ok_or (parse_unsigned 255 (trim prefix)) (InvalidConfig "peer filter CIDR prefix");
  let max := match network with V4 _ => 32 | V6 _ => 128 end in
  _ ← fail_if (max <? prefix) (InvalidConfig "peer filter CIDR prefix is too long");
  Ok (Cidr network prefix).

Definition rule_parse (value : text) : outcome PeerIpRule :=
  let value := trim value in
  _ ← fail_if (bool_decide (value = [])) (InvalidConfig "peer filter rule must not be empty");
  match split_once "-" value with
  | Some (start, end_) => parse_range start end_
  | None =>
      match split_once "/" value with
      | Some (network, prefix) => parse_cidr network prefix
      | None => ip ← parse_rule_ip value; Ok (Single ip)
      end
  end.

(** ** Imported blocklists *)

(** The result of a line: nothing for a comment, or the rule with its text, or a
    line to skip. *)
Inductive line_result : Type := NoRule | LineRule (rule : PeerIpRule) (display : text) | BadLine.

Definition try_rule (s : text) (otherwise : outcome line_result) : outcome line_result :=
  match rule_parse s with
  | Ok rule => Ok (LineRule rule s)
  | Err _ => otherwise
  | Panic => Panic
  | OutOfFuel => OutOfFuel
  end.

Definition starts_with (p s : text) : bool := match strip_prefix p s with Some _ => true | None => false end.

Definition parse_blocklist_line (line : text) : outcome line_result :=
  let line := trim line in
  if bool_decide (line = []) || starts_with (bytes_of "#") line || starts_with (bytes_of ";") line
     || starts_with (bytes_of "//") line then Ok NoRule
  else
    try_rule line (
      let comma_candidate := trim (default [] (head (split_byte "," line))) in
      try_rule comma_candidate (
        match rsplit_once ":" line with
        | Some (_, candidate) => try_rule (trim candidate) (Ok BadLine)
        | None => Ok BadLine
        end)).

Record ImportedBlocklist : Type := mkImported {
  imported_rules : list (PeerIpRule * text); rule_count : Z; skipped_lines : Z }.

Definition import_line (acc : list (PeerIpRule * text) * Z) (line : text)
  : outcome (list (PeerIpRule * text) * Z) :=
  let '(rules, skipped_lines) := acc in
  _ ← fail_if (MAX_BLOCKLIST_LINE_BYTES <? len line)
        (InvalidConfig "peer_filter.blocklist_paths line exceeds the limit");
  r ← parse_blocklist_line line;
  match r with
  | NoRule => Ok (rules, skipped_lines)
  | LineRule rule display =>
      _ ← fail_if (MAX_PEER_FILTER_RULES <=? len rules)
            (InvalidConfig "peer_filter.blocklist_paths exceeds the rule limit");
      Ok (rules ++ [(rule, display)], skipped_lines)
  | BadLine => Ok (rules, Z.min usize_max (skipped_lines + 1))
  end.

(** [std::fs::metadata] (is it a file, and its length) and [std::fs::read]. *)
Class BlocklistFiles := {
  fs_metadata : text -> outcome (bool * Z);
  fs_read : text -> outcome (list byte) }.

(** Any error of the operating system is reported as a configuration error. *)
Definition io_error {A} (m : outcome A) : outcome A :=
  match m with Err _ => Err (InvalidConfig "peer_filter.blocklist_paths") | _ => m end.

Section import.
Context `{BlocklistFiles}.

Definition load_blocklist (path : text) : outcome ImportedBlocklist :=
  '(is_file, length) ← io_error (fs_metadata path);
  _ ← fail_if (negb is_file) (InvalidConfig "peer_filter.blocklist_paths is not a regular file");
  _ ← fail_if (MAX_BLOCKLIST_FILE_BYTES <? length) (InvalidConfig "peer_filter.blocklist_paths exceeds the size limit");
  bytes ← io_error (fs_read path);
  _ ← fail_if (negb (utf8_valid bytes)) (InvalidConfig "peer_filter.blocklist_paths must be UTF-8 text");
  '(rules, skipped_lines) ← try_fold import_line ([], 0) (lines bytes);
  Ok (mkImported rules (len rules) skipped_lines).
End import.

(** ** The compiled filter *)

Inductive RuleOrigin : Type := Configured | Imported.
Record CompiledRule : Type := mkCompiledRule { rule : PeerIpRule; display : text; origin : RuleOrigin }.
Record CompiledManualBan : Type := mkCompiledBan { configured : ManualPeerBan; compiled_ip : IpAddr }.

Inductive PeerAdmissionDecision : Type :=
  | Allowed
  | Disabled
  | BlockedByManualBan (reason : option text)
  | BlockedByConfiguredRule (rule : text)
  | BlockedByImportedRule (rule : text)
  | BlockedByClientId (prefix : text)
  | FailClosed (detail : text).

Definition is_allowed (d : PeerAdmissionDecision) : bool :=
  match d with Allowed | Disabled => true | _ => false end.

Definition audit_reason (d : PeerAdmissionDecision) : text :=
  bytes_of match d with
           | Allowed => "allowed" | Disabled => "filter_disabled" | BlockedByManualBan _ => "manual_ban"
           | BlockedByConfiguredRule _ => "configured_rule" | BlockedByImportedRule _ => "imported_rule"
           | BlockedByClientId _ => "client_id" | FailClosed _ => "filter_load_failure"
           end.

Definition rejection_message (d : PeerAdmissionDecision) : option text :=
  match d with
  | Allowed | Disabled => None
  | BlockedByManualBan (Some reason) => Some (bytes_of "peer rejected by manual ban: " ++ reason)
  | BlockedByManualBan None => Some (bytes_of "peer rejected by manual ban")
  | BlockedByConfiguredRule rule => Some (bytes_of "peer rejected by configured rule " ++ rule)
  | BlockedByImportedRule rule => Some (bytes_of "peer rejected by imported blocklist rule " ++ rule)
  | BlockedByClientId prefix => Some (bytes_of "peer rejected by client-id prefix " ++ prefix)
  | FailClosed detail => Some (bytes_of "peer filter is fail-closed after load failure: " ++ detail)
  end.

Record PeerFilterCounters : Type := mkCounters {
  ip_checks : Z; client_id_checks : Z; manual_bans_hit : Z; configured_rules : Z; imported_hits : Z;
  client_ids : Z; fail_closed_hits : Z }.
Definition counters_default : PeerFilterCounters := mkCounters 0 0 0 0 0 0 0.

Record BlocklistSourceStatus : Type := mkSource { path : text; rules_loaded : Z; source_skipped : Z }.

(** The counters, shared by all clones, are passed separately. *)
Record PeerFilter : Type := mkPeerFilter {
  enabled : bool; rules : list CompiledRule; manual_bans : list CompiledManualBan;
  blocked_client_ids : list text; sources : list BlocklistSourceStatus; fail_closed_detail : option text }.
Definition filter_default : PeerFilter := mkPeerFilter false [] [] [] [] None.
Definition fail_closed (detail : text) : PeerFilter := mkPeerFilter true [] [] [] [] (Some detail).

Section from_config.
Context `{BlocklistFiles}.

Definition compile_rule (rules : list CompiledRule) (configured : text) : outcome (list CompiledRule) :=
  r ← rule_parse configured;
  Ok (rules ++ [mkCompiledRule r (trim configured) Configured]).

Definition import_source (acc : list CompiledRule * list BlocklistSourceStatus) (configured_path : text)
  : outcome (list CompiledRule * list BlocklistSourceStatus) :=
  let '(rules, sources) := acc in
  let path := trim configured_path in
  _ ← fail_if (bool_decide (path = [])) (InvalidConfig "peer_filter.blocklist_paths entries must not be empty");
  imported ← load_blocklist path;
  _ ← fail_if (MAX_PEER_FILTER_RULES <? Z.min usize_max (len rules + len (imported_rules imported)))
        (InvalidConfig "peer_filter imports too many rules");
  let compiled := map (fun rd => mkCompiledRule rd.1 rd.2 Imported) (imported_rules imported) in
  Ok (rules ++ compiled, sources ++ [mkSource path (rule_count imported) (skipped_lines imported)]).

Definition compile_ban (bans : list CompiledManualBan) (ban : ManualPeerBan) : outcome (list CompiledManualBan) :=
  ip ← ban_parse ban;
  Ok (bans ++ [mkCompiledBan (mkManualPeerBan (fmt_ip ip) (trim <$> ban_reason ban)) ip]).

Definition compile_client_id (ids : list text) (prefix : text) : outcome (list text) :=
  let prefix := trim prefix in
  _ ← fail_if (bool_decide (prefix = []) || (20 <? len prefix) || negb (forallb is_ascii_graphic prefix))
        (InvalidConfig "peer_filter.blocked_client_ids entries must be 1 to 20 printable ASCII characters");
  Ok (ids ++ [prefix]).

Definition from_config (config : PeerFilterConfig) : outcome PeerFilter :=
  let entries := Z.min usize_max (Z.min usize_max (len (cfg_rules config) + len (cfg_manual_bans config))
                                  + len (cfg_blocked_client_ids config)) in
  _ ← fail_if (MAX_PEER_FILTER_RULES <? entries) (InvalidConfig "peer_filter contains too many configured entries");
  rules ← try_fold compile_rule [] (cfg_rules config);
  '(rules, sources) ← try_fold import_source (rules, []) (blocklist_paths config);
  manual_bans ← try_fold compile_ban [] (cfg_manual_bans config);
  blocked_client_ids ← try_fold compile_client_id [] (cfg_blocked_client_ids config);
  Ok (mkPeerFilter (cfg_enabled config) rules manual_bans blocked_client_ids sources None).

(** [PeerFilterConfig::validate]. *)
Definition config_validate (config : PeerFilterConfig) : outcome () :=
  _ ← from_config config; Ok ().
End from_config.

(** ** Decisions *)

(** [fetch_add(1)] on each counter. *)
Definition count_ip_check (c : PeerFilterCounters) : PeerFilterCounters :=
  mkCounters (wrap 64 (ip_checks c + 1)) (client_id_checks c) (manual_bans_hit c) (configured_rules c)
    (imported_hits c) (client_ids c) (fail_closed_hits c).
Definition count_client_id_check (c : PeerFilterCounters) : PeerFilterCounters :=
  mkCounters (ip_checks c) (wrap 64 (client_id_checks c + 1)) (manual_bans_hit c) (configured_rules c)
    (imported_hits c) (client_ids c) (fail_closed_hits c).
Definition count_rejection (d : PeerAdmissionDecision) (c : PeerFilterCounters) : PeerFilterCounters :=
  let add (hit : bool) n := if hit then wrap 64 (n + 1) else n in
  mkCounters (ip_checks c) (client_id_checks c)
    (add match d with BlockedByManualBan _ => true | _ => false end (manual_bans_hit c))
    (add match d with BlockedByConfiguredRule _ => true | _ => false end (configured_rules c))
    (add match d with BlockedByImportedRule _ => true | _ => false end (imported_hits c))
    (add match d with BlockedByClientId _ => true | _ => false end (client_ids c))
    (add match d with FailClosed _ => true | _ => false end (fail_closed_hits c)).

Fixpoint find_rule (ip : IpAddr) (rs : list CompiledRule) : outcome (option CompiledRule) :=
  match rs with
  | [] => Ok None
  | r :: rs => hit ← matches (rule r) ip; if hit : bool then Ok (Some r) else find_rule ip rs
  end.

Definition admit_ip (f : PeerFilter) (c : PeerFilterCounters) (ip : IpAddr)
  : outcome (PeerAdmissionDecision * PeerFilterCounters) :=
  let c := count_ip_check c in
  match fail_closed_detail f with
  | Some detail => Ok (FailClosed detail, count_rejection (FailClosed detail) c)
  | None =>
      if negb (enabled f) then Ok (Disabled, c)
      else
        match List.find (fun ban => bool_decide (compiled_ip ban = ip)) (manual_bans f) with
        | Some ban =>
            let d := BlockedByManualBan (ban_reason (configured ban)) in Ok (d, count_rejection d c)
        | None =>
            hit ← find_rule ip (rules f);
            match hit with
            | Some rule =>
                let d := match origin rule with
                         | Configured => BlockedByConfiguredRule (display rule)
                         | Imported => BlockedByImportedRule (display rule)
                         end in
                Ok (d, count_rejection d c)
            | None => Ok (Allowed, c)
            end
        end
  end.

Definition admit_client_id (f : PeerFilter) (c : PeerFilterCounters) (peer_id : array 20)
  : PeerAdmissionDecision * PeerFilterCounters :=
  let c := count_client_id_check c in
  match fail_closed_detail f with
  | Some detail => (FailClosed detail, count_rejection (FailClosed detail) c)
  | None =>
      if negb (enabled f) then (Disabled, c)
      else match List.find (fun prefix => starts_with prefix (as_bytes peer_id)) (blocked_client_ids f) with
           | Some prefix => (BlockedByClientId prefix, count_rejection (BlockedByClientId prefix) c)
           | None => (Allowed, c)
           end
  end.

Record PeerFilterStatus : Type := mkStatus {
  st_enabled : bool; st_rules : list text; st_blocklist_paths : list text; configured_rule_count : Z;
  imported_rule_count : Z; st_manual_bans : list ManualPeerBan; st_blocked_client_ids : list text;
  st_sources : list BlocklistSourceStatus; rejections : PeerFilterCounters; st_fail_closed_detail : option text }.

Definition is_configured (r : CompiledRule) : bool := match origin r with Configured => true | Imported => false end.

Definition status (f : PeerFilter) (c : PeerFilterCounters) : PeerFilterStatus :=
  let configured_rule_count := len (List.filter is_configured (rules f)) in
  mkStatus (enabled f) (map display (List.filter is_configured (rules f))) (map path (sources f))
    configured_rule_count (Z.max 0 (len (rules f) - configured_rule_count)) (map configured (manual_bans f))
    (blocked_client_ids f) (sources f) c (fail_closed_detail f).

(** ** What a rule selects *)

(** The family of a rule, as the bits of its addresses, and its interval. *)
Definition rule_bits (r : PeerIpRule) : Z :=
  match r with Single a | Cidr a _ | Range a _ => ip_bits a end.
Definition host_size (network : IpAddr) (prefix : Z) : Z := 2 ^ (ip_bits network - prefix).
Definition rule_low (r : PeerIpRule) : Z :=
  match r with
  | Single a => ip_number a
  | Range start _ => ip_number start
  | Cidr network prefix => ip_number network / host_size network prefix * host_size network prefix
  end.
Definition rule_high (r : PeerIpRule) : Z :=
  match r with
  | Single a => ip_number a
  | Range _ end_ => ip_number end_
  | Cidr network prefix => rule_low (Cidr network prefix) + host_size network prefix - 1
  end.
Definition selects (r : PeerIpRule) (ip : IpAddr) : Prop :=
  ip_bits ip = rule_bits r /\ rule_low r <= ip_number ip <= rule_high r.

Definition wf_rule (r : PeerIpRule) : Prop :=
  match r with
  | Single a => valid_ip a
  | Cidr network prefix => valid_ip network /\ 0 <= prefix <= ip_bits network
  | Range start end_ => valid_ip start /\ valid_ip end_ /\ ip_bits start = ip_bits end_ /\ ip_number start <= ip_number end_
  end.

Definition octets (a : IpAddr) : list byte := match a with V4 a => to_be 4 a | V6 a => to_be 16 a end.

Lemma octets_number a : valid_ip a -> of_be (octets a) = ip_number a.
Proof. intros H. destruct a; by apply of_be_to_be. Qed.
Lemma octets_len a : len (octets a) * 8 = ip_bits a.
Proof. by destruct a; unfold len, octets; rewrite length_to_be. Qed.
Lemma ip_eq a b : ip_bits a = ip_bits b -> ip_number a = ip_number b -> a = b.
Proof. destruct a, b; cbn; congruence. Qed.

Lemma same_family_bits a b : same_family a b = true <-> ip_bits a = ip_bits b.
Proof. by destruct a, b. Qed.

Lemma compare_bytes_number a : forall b,
  length a = length b -> compare_bytes a b = (of_be a ?= of_be b).
Proof.
  induction a as [|x a IH]; intros [|y b] E; try done. cbn [length] in E. injection E as E.
  cbn [compare_bytes]. rewrite !of_be_cons, IH by done.
  assert (len a = len b) as El by (unfold len; by rewrite E).
  pose proof (of_be_bound a). pose proof (of_be_bound b). rewrite <- El in *.
  set (m := 2 ^ (8 * len a)) in *. symmetry.
  destruct (Z.compare_spec (u8 x) (u8 y)) as [->|Hl|Hg].
  - apply Z.add_compare_mono_l.
  - apply Z.compare_lt_iff. nia.
  - apply Z.compare_gt_iff. nia.
Qed.

Lemma compare_ip_number a b :
  valid_ip a -> valid_ip b -> ip_bits a = ip_bits b -> compare_ip a b = (ip_number a ?= ip_number b).
Proof.
  intros Ha Hb E. rewrite <- (octets_number a), <- (octets_number b) by done.
  destruct a, b; try done; (rewrite <- compare_bytes_number; [done|unfold octets; by rewrite !length_to_be]).
Qed.

Lemma is_greater_compare a b : is_greater (a ?= b) = (b <? a).
Proof. destruct (Z.compare_spec a b); destruct (Z.ltb_spec b a); done || lia. Qed.

(** Masking the low [8 - r] bits of a byte away keeps its quotient. *)
Lemma mask_quotient x y r :
  0 < r < 8 ->
  (Z.land (u8 x) (wrap 8 (Z.shiftl 255 (8 - r))) =? Z.land (u8 y) (wrap 8 (Z.shiftl 255 (8 - r))))
  = (u8 x / 2 ^ (8 - r) =? u8 y / 2 ^ (8 - r)).
Proof.
  intros Hr.
  assert (forall b, Z.land (u8 b) (wrap 8 (Z.shiftl 255 (8 - r))) = u8 b / 2 ^ (8 - r) * 2 ^ (8 - r)) as H.
  { intros b. assert (forallb (fun b => forallb (fun r => (r =? 0) ||
      (Z.land (u8 b) (wrap 8 (Z.shiftl 255 (8 - r))) =? u8 b / 2 ^ (8 - r) * 2 ^ (8 - r))) small_ints) all_bytes = true) as Hc
      by (vm_compute; reflexivity).
    apply (fun H => byte_check _ H b) in Hc. cbn beta in Hc. rewrite forallb_forall in Hc.
    specialize (Hc r). cbn beta in Hc. destruct (Z.eqb_spec r 0); [lia|]. apply Z.eqb_eq, Hc.
    apply list_elem_of_In. replace r with (r mod 8) by (apply Z.mod_small; lia). apply mod8_small. }
  rewrite !H. pose proof (Z.pow_pos_nonneg 2 (8 - r)).
  destruct (Z.eqb_spec (u8 x / 2 ^ (8 - r)) (u8 y / 2 ^ (8 - r))) as [->|Hn]; [by rewrite Z.eqb_refl|].
  apply Z.eqb_neq. nia.
Qed.

(** The quotient of a number by the weight of its low bytes, or of its low bits. *)
Lemma of_be_split a x b r :
  0 <= r <= 8 ->
  of_be (a ++ x :: b) / 2 ^ (8 * (1 + len b) - r) = of_be a * 2 ^ r + u8 x / 2 ^ (8 - r).
Proof.
  intros Hr. pose proof (len_nonneg b). pose proof (of_be_bound b).
  assert (of_be (a ++ x :: b) = (of_be a * 2 ^ 8 + u8 x) * 2 ^ (8 * len b) + of_be b) as ->.
  { rewrite of_be_app, of_be_cons, len_cons. rewrite Z.mul_add_distr_r, <- Z.mul_assoc, <- Z.pow_add_r by lia.
    replace (8 + 8 * len b) with (8 * (1 + len b)) by lia. lia. }
  replace (8 * (1 + len b) - r) with (8 * len b + (8 - r)) by lia.
  rewrite Z.pow_add_r, <- Z.div_div by lia. rewrite Z.div_add_l, (Z.div_small (of_be b)), Z.add_0_r by lia.
  replace (2 ^ 8) with (2 ^ r * 2 ^ (8 - r)) by (rewrite <- Z.pow_add_r by lia; f_equal; lia).
  rewrite Z.mul_assoc, Z.div_add_l by lia. done.
Qed.

Lemma slice_take (l : list byte) n : 0 <= n <= len l -> slice l 0 n = Ok (take (Z.to_nat n) l).
Proof.
  intros Hn. unfold slice. rewrite (proj2 (Z.leb_le 0 n)), (proj2 (Z.leb_le n (len l))) by lia. cbn [andb Z.leb Z.compare].
  by rewrite Z.sub_0_r, drop_0.
Qed.

Lemma of_be_inj a b : length a = length b -> of_be a = of_be b -> a = b.
Proof. intros Hl E. by rewrite <- (to_be_of_be (length b) a Hl), E, to_be_of_be. Qed.

Lemma bytes_prefix_match_exact n c p :
  length n = length c -> 0 <= p <= 8 * len n ->
  bytes_prefix_match n c p = Ok (of_be n / 2 ^ (8 * len n - p) =? of_be c / 2 ^ (8 * len n - p)).
Proof.
  intros Hl Hp. assert (len c = len n) as Ec by (unfold len; by rewrite Hl).
  pose proof (Z.mod_pos_bound p 8 ltac:(lia)) as Hm. pose proof (Z.div_mod p 8 ltac:(lia)) as Ep.
  set (w := p / 8) in *. set (r := p mod 8) in *.
  unfold bytes_prefix_match. fold w r. rewrite !slice_take, !bind_ret by lia.
  assert (forall a, of_be a = of_be (take (Z.to_nat w) a ++ drop (Z.to_nat w) a)) as Hs by (intros a; by rewrite take_drop).
  rewrite (Hs n), (Hs c). clear Hs.
  set (n1 := take _ n). set (c1 := take _ c).
  assert (length n1 = length c1) as L1 by (unfold n1, c1; rewrite !length_take; lia).
  assert (len n1 = w) as Lw by (unfold n1, len in *; rewrite length_take; lia).
  destruct (Z.eqb_spec r 0) as [Hr|Hr].
  - assert (forall a, of_be (take (Z.to_nat w) a ++ drop (Z.to_nat w) a) / 2 ^ (8 * len (drop (Z.to_nat w) a))
      = of_be (take (Z.to_nat w) a)) as Hq.
    { intros a. rewrite of_be_app. pose proof (of_be_bound (drop (Z.to_nat w) a)).
      rewrite Z.div_add_l, Z.div_small by lia. lia. }
    unfold n1, c1. assert (8 * len n - p = 8 * len (drop (Z.to_nat w) n)) as -> by (unfold len; rewrite length_drop; unfold len in *; lia).
    rewrite Hq. replace (len (drop (Z.to_nat w) n)) with (len (drop (Z.to_nat w) c)) by (unfold len; rewrite !length_drop; lia).
    rewrite Hq. fold n1 c1. destruct (bool_decide_reflect (n1 = c1)) as [->|Hn]; cbn [negb].
    + by rewrite Z.eqb_refl.
    + rewrite (proj2 (Z.eqb_neq _ _)); [done|]. intros E. by apply Hn, of_be_inj.
  - assert (forall a : text, len a = len n -> exists x b, drop (Z.to_nat w) a = x :: b /\ get a w = Some x /\ len b = len n - w - 1) as Hx.
    { intros a La. destruct (drop (Z.to_nat w) a) as [|x b] eqn:Ed.
      - apply (f_equal length) in Ed. rewrite length_drop in Ed. cbn in Ed. unfold len in *. lia.
      - exists x, b. split; [done|]. split.
        + apply get_Some. split; [lia|]. rewrite <- (Nat.add_0_r (Z.to_nat w)), <- lookup_drop, Ed. done.
        + apply (f_equal length) in Ed. rewrite length_drop in Ed. cbn in Ed. unfold len in *. lia. }
    destruct (Hx n eq_refl) as (x & b & -> & -> & Lb), (Hx c Ec) as (y & d & -> & -> & Ld).
    cbv zeta. rewrite mask_quotient by lia.
    replace (8 * len n - p) with (8 * (1 + len b) - r) by lia. rewrite of_be_split by lia.
    rewrite Lb, <- Ld, of_be_split by lia.
    pose proof (u8_range x) as Rx. pose proof (u8_range y) as Ry. unfold in_width in Rx, Ry.
    assert (forall z, 0 <= z < 256 -> 0 <= z / 2 ^ (8 - r) < 2 ^ r) as Hq.
    { intros z Hz. split; [apply Z.div_pos; lia|]. apply Z.div_lt_upper_bound; [lia|].
      rewrite <- Z.pow_add_r by lia. replace (8 - r + r) with 8 by lia. lia. }
    pose proof (Hq (u8 x) ltac:(lia)). pose proof (Hq (u8 y) ltac:(lia)).
    destruct (bool_decide_reflect (n1 = c1)) as [->|Hn]; cbn [negb].
    + f_equal. destruct (Z.eqb_spec (u8 x / 2 ^ (8 - r)) (u8 y / 2 ^ (8 - r))) as [->|]; symmetry;
        [apply Z.eqb_refl|apply Z.eqb_neq; lia].
    + f_equal. symmetry. apply Z.eqb_neq. intros E. apply Hn, of_be_inj; [done|]. nia.
Qed.

Lemma matches_exact r a :
  wf_rule r -> valid_ip a -> exists b, matches r a = Ok b /\ (b = true <-> selects r a).
Proof.
  intros Hr Ha. destruct r as [e|n p|s e]; cbn [wf_rule] in Hr; unfold selects; cbn [rule_bits rule_low rule_high matches].
  - eexists. split; [reflexivity|]. rewrite bool_decide_eq_true. split; [intros ->; lia|].
    intros [E1 E2]. apply ip_eq; [done|lia].
  - destruct Hr as [Hn Hp]. unfold host_size.
    assert (forall x, 0 < x -> ip_number n / x * x <= ip_number a <= ip_number n / x * x + x - 1
      <-> ip_number n / x = ip_number a / x) as Hq.
    { intros x Hx. pose proof (Z.div_mod (ip_number a) x ltac:(lia)). pose proof (Z.mod_pos_bound (ip_number a) x Hx).
      split; [|intros ->; lia]. intros Hi. apply Z.div_unique with (r := ip_number a - ip_number n / x * x); lia. }
    pose proof (Z.pow_pos_nonneg 2 (ip_bits n - p) ltac:(lia) ltac:(lia)) as Hx.
    assert (forall k, ip_bits n = 8 * Z.of_nat k -> len (octets n) = Z.of_nat k -> ip_bits a = ip_bits n ->
      exists b, bytes_prefix_match (octets n) (octets a) p = Ok b /\
      (b = true <-> ip_bits a = ip_bits n /\ ip_number n / 2 ^ (ip_bits n - p) * 2 ^ (ip_bits n - p) <= ip_number a
         <= ip_number n / 2 ^ (ip_bits n - p) * 2 ^ (ip_bits n - p) + 2 ^ (ip_bits n - p) - 1)) as Hb.
    { intros k Ek El Ea. pose proof (octets_len n) as Ln. pose proof (octets_len a) as La.
      rewrite bytes_prefix_match_exact; [|unfold len in *; lia|lia]. eexists. split; [reflexivity|].
      rewrite !octets_number, Z.eqb_eq by done. replace (8 * len (octets n)) with (ip_bits n) by lia.
      rewrite (Hq _ Hx). tauto. }
    destruct n as [n|n], a as [a|a]; cbn [cidr_matches octets] in *;
      try (eexists; split; [reflexivity|]; split; [done|intros [? _]; done]).
    + by apply (Hb 4%nat).
    + by apply (Hb 16%nat).
  - destruct Hr as (Hs & He & Eb & Hle). eexists. split; [reflexivity|].
    destruct (same_family s a) eqn:Ef; cbn [andb].
    + apply same_family_bits in Ef. rewrite !compare_ip_number by (done || congruence).
      rewrite !is_greater_compare. lia.
    + split; [done|]. intros [E _]. symmetry in E. apply same_family_bits in E. congruence.
Qed.

(** ** The parsers *)

Definition config_error (e : CoreError) : Prop := exists msg, e = InvalidConfig msg.
Lemma config_error_intro msg : config_error (InvalidConfig msg).
Proof. by exists msg. Qed.
#[local] Hint Resolve config_error_intro : err_only.

Lemma parse_rule_ip_valid s a : parse_rule_ip s = Ok a -> valid_ip a.
Proof. unfold parse_rule_ip. intros H%ok_or_Ok. by apply parse_ip_valid in H. Qed.

Lemma parse_unsigned_range max s n : parse_unsigned max s = Some n -> 0 <= n <= max.
Proof.
  unfold parse_unsigned. cbv zeta. set (ds := match s with x2b :: (_ :: _ as ds) => ds | _ => s end).
  destruct (bool_decide (ds = [])); [done|]. destruct (forallb is_ascii_digit ds) eqn:E; [|done]. cbn [orb negb].
  destruct (Z.leb_spec (dec_value ds) max); [|done]. intros [= <-]. split; [|done].
  apply dec_value_nonneg. by apply all_digits_Forall.
Qed.

Lemma rule_parse_wf s r : rule_parse s = Ok r -> wf_rule r.
Proof.
  unfold rule_parse, parse_range, parse_cidr. intros H. apply bind_Ok in H as ([] & _ & H).
  destruct (split_once "-" (trim s)) as [[x y]|]; [|destruct (split_once "/" (trim s)) as [[x y]|]]; inv_ok;
    repeat match goal with H : parse_rule_ip _ = Ok _ |- _ => apply parse_rule_ip_valid in H end; cbn [wf_rule]; [| |done].
  - rename select (negb _ = false) into Hf. apply negb_false_iff, same_family_bits in Hf.
    rewrite compare_ip_number, is_greater_compare in * by done.
    split; [done|]. split; [done|]. split; [done|lia].
  - rename select (parse_unsigned _ _ = Some _) into Hp. apply parse_unsigned_range in Hp. split; [done|].
    destruct (_ : IpAddr); cbn [ip_bits] in *; lia.
Qed.

Lemma rule_parse_returns s : returns (rule_parse s).
Proof.
  unfold rule_parse, parse_range, parse_cidr, parse_rule_ip.
  apply bind_returns; [auto|intros _ _]. destruct (split_once "-" (trim s)) as [[x y]|]; [returns_tac|].
  destruct (split_once "/" (trim s)) as [[x y]|]; returns_tac.
Qed.

Lemma rule_parse_errors s : err_only config_error (rule_parse s).
Proof. unfold rule_parse, parse_range, parse_cidr, parse_rule_ip. err_only_tac. Qed.

Lemma parse_line_wf line r d : parse_blocklist_line line = Ok (LineRule r d) -> wf_rule r.
Proof.
  assert (forall s m, (forall r' d', m = Ok (LineRule r' d') -> wf_rule r') ->
    forall r' d', try_rule s m = Ok (LineRule r' d') -> wf_rule r') as Ht.
  { intros s m Hm r' d'. unfold try_rule. destruct (rule_parse s) eqn:E; try done; [|by apply Hm].
    intros [= <- <-]. by apply rule_parse_wf in E. }
  unfold parse_blocklist_line. cbv zeta. destruct (_ || _); [done|]. revert r d.
  do 2 apply Ht. destruct (rsplit_once _ _) as [[x y]|]; [|done]. by apply Ht.
Qed.

Lemma parse_line_returns line : returns (parse_blocklist_line line).
Proof.
  assert (forall s m, returns m -> returns (try_rule s m)) as Ht.
  { intros s m Hm. unfold try_rule. pose proof (rule_parse_returns s). by destruct (rule_parse s). }
  unfold parse_blocklist_line. cbv zeta. destruct (_ || _); [done|]. do 2 apply Ht.
  destruct (rsplit_once _ _) as [[x y]|]; [|done]. by apply Ht.
Qed.

Lemma parse_line_errors line : err_only config_error (parse_blocklist_line line).
Proof.
  assert (forall s m, err_only config_error m -> err_only config_error (try_rule s m)) as Ht.
  { intros s m Hm. unfold try_rule. by destruct (rule_parse s). }
  unfold parse_blocklist_line. cbv zeta. destruct (_ || _); [done|]. do 2 apply Ht.
  destruct (rsplit_once _ _) as [[x y]|]; [|done]. by apply Ht.
Qed.

(** The rules of the lines of a text, in order. *)
Definition line_rules (ls : list text) : list (PeerIpRule * text) :=
  omap (fun l => match parse_blocklist_line l with Ok (LineRule r d) => Some (r, d) | _ => None end) ls.

Lemma import_lines ls : forall acc rs n,
  try_fold import_line acc ls = Ok (rs, n) -> rs = acc.1 ++ line_rules ls.
Proof.
  unfold line_rules. induction ls as [|l ls IH]; intros [rs0 n0] rs n; cbn [try_fold omap list_omap fst].
  { intros [= <- <-]. by rewrite app_nil_r. }
  intros (a & Hl & H)%bind_Ok. apply IH in H. unfold import_line in Hl. inv_ok.
  rename select (parse_blocklist_line l = Ok _) into E. rewrite E. destruct (_ : line_result); inv_ok; cbn [fst]; try done.
  by rewrite <- app_assoc.
Qed.

Section filter.
Context `{BlocklistFiles}.

Lemma io_error_Ok {A} (m : outcome A) a : io_error m = Ok a <-> m = Ok a.
Proof. by destruct m. Qed.

Lemma load_blocklist_Ok p imp :
  load_blocklist p = Ok imp -> exists bytes, fs_read p = Ok bytes /\ imported_rules imp = line_rules (lines bytes).
Proof.
  unfold load_blocklist. intros Hl. apply bind_Ok in Hl as ([f n] & _ & Hl). inv_ok.
  rename select (io_error (fs_read p) = Ok _) into Hr. apply (proj1 (io_error_Ok _ _)) in Hr.
  rename select (try_fold _ _ _ = Ok _) into Hf. apply import_lines in Hf. cbn [fst] in Hf.
  eexists. split; [exact Hr|]. by rewrite Hf.
Qed.

(** The rules of the configuration, in its order. *)
Definition configured_of (ts : list text) : list CompiledRule :=
  omap (fun t => match rule_parse t with Ok r => Some (mkCompiledRule r (trim t) Configured) | _ => None end) ts.
Definition imported_of (paths : list text) : list CompiledRule :=
  concat (map (fun p => match fs_read (trim p) with
    | Ok bytes => map (fun rd => mkCompiledRule rd.1 rd.2 Imported) (line_rules (lines bytes))
    | _ => []
    end) paths).

Lemma compile_rules_Ok ts : forall acc rs,
  try_fold compile_rule acc ts = Ok rs -> rs = acc ++ configured_of ts.
Proof.
  unfold configured_of. induction ts as [|t ts IH]; intros acc rs; cbn [try_fold omap list_omap].
  { intros [= <-]. by rewrite app_nil_r. }
  intros (a & Hc & Hr)%bind_Ok. apply IH in Hr as ->. unfold compile_rule in Hc. inv_ok.
  rename select (rule_parse t = Ok _) into E. rewrite E. by rewrite <- app_assoc.
Qed.

Lemma import_sources_Ok ps : forall acc rs ss,
  try_fold import_source acc ps = Ok (rs, ss) -> rs = acc.1 ++ imported_of ps.
Proof.
  unfold imported_of. induction ps as [|p ps IH]; intros [rs0 ss0] rs ss; cbn [try_fold map concat fst].
  { intros [= <- <-]. by rewrite app_nil_r. }
  intros (a & Hc & Hr)%bind_Ok. apply IH in Hr. unfold import_source in Hc. inv_ok.
  rename select (load_blocklist _ = Ok _) into E. apply load_blocklist_Ok in E as (bytes & -> & ->). cbn [fst].
  by rewrite <- app_assoc.
Qed.

Lemma compile_bans_Ok bs : forall acc rs,
  try_fold compile_ban acc bs = Ok rs ->
  exists new, rs = acc ++ new /\
    Forall2 (fun b c => parse_ip (trim (ban_ip b)) = Some (compiled_ip c) /\ ban_reason (configured c) = trim <$> ban_reason b) bs new.
Proof.
  induction bs as [|b bs IH]; intros acc rs; cbn [try_fold].
  { intros [= <-]. exists []. by rewrite app_nil_r. }
  intros (a & Hc & Hr)%bind_Ok. apply IH in Hr as (new & -> & Hf). unfold compile_ban, ban_parse in Hc. inv_ok.
  eexists (_ :: new). rewrite <- app_assoc. split; [reflexivity|]. by constructor.
Qed.

Lemma from_config_Ok cfg f :
  from_config cfg = Ok f ->
  enabled f = cfg_enabled cfg /\ fail_closed_detail f = None /\
  rules f = configured_of (cfg_rules cfg) ++ imported_of (blocklist_paths cfg) /\
  Forall2 (fun b c => parse_ip (trim (ban_ip b)) = Some (compiled_ip c) /\ ban_reason (configured c) = trim <$> ban_reason b)
    (cfg_manual_bans cfg) (manual_bans f).
Proof.
  unfold from_config. cbv zeta. intros Hf. apply bind_Ok in Hf as ([] & _ & Hf).
  apply bind_Ok in Hf as (rs & H1%compile_rules_Ok & Hf). apply bind_Ok in Hf as ([rs' ss] & H2%import_sources_Ok & Hf).
  apply bind_Ok in Hf as (bs & H3%compile_bans_Ok & Hf). inv_ok.
  destruct H3 as (new & -> & H3). by subst.
Qed.

Lemma rules_wf cfg : Forall (fun r => wf_rule (rule r)) (configured_of (cfg_rules cfg) ++ imported_of (blocklist_paths cfg)).
Proof.
  apply Forall_app. split; apply Forall_forall; intros r Hr.
  - apply list_elem_of_omap in Hr as (t & _ & Ht). destruct (rule_parse t) eqn:E; try done.
    injection Ht as <-. by apply rule_parse_wf in E.
  - apply list_elem_of_In, in_concat in Hr as (l & (p & <- & _)%in_map_iff & Hin).
    destruct (fs_read (trim p)) as [bytes| | |]; try done.
    apply in_map_iff in Hin as ([x d] & <- & Hin). apply list_elem_of_In, list_elem_of_omap in Hin as (ln & _ & El).
    destruct (parse_blocklist_line ln) as [[| |]| | |] eqn:E; try done. injection El as -> ->.
    by apply parse_line_wf in E.
Qed.

Lemma find_rule_first a rs :
  Forall (fun r => wf_rule (rule r)) rs -> valid_ip a ->
  exists o, find_rule a rs = Ok o /\
    match o with
    | Some r => exists x y, rs = x ++ r :: y /\ selects (rule r) a /\ Forall (fun r => ~ selects (rule r) a) x
    | None => Forall (fun r => ~ selects (rule r) a) rs
    end.
Proof.
  intros Hw Ha. induction Hw as [|r rs Hr _ (o & IH & Ho)]; cbn [find_rule]; [by exists None|].
  destruct (matches_exact (rule r) a Hr Ha) as ([] & -> & Hs); rewrite bind_ret.
  - exists (Some r). split; [done|]. exists [], rs. split; [done|]. split; [by apply Hs|constructor].
  - rewrite IH. exists o. split; [done|]. assert (~ selects (rule r) a) as Hn by (intros ?%Hs; done).
    destruct o as [r'|]; [|by constructor]. destruct Ho as (x & y & -> & H1 & H2). exists (r :: x), y. split; [done|].
    split; [done|by constructor].
Qed.

Definition banned (cfg : PeerFilterConfig) (a : IpAddr) : Prop :=
  exists b, b ∈ cfg_manual_bans cfg /\ parse_ip (trim (ban_ip b)) = Some a.
Definition configured_selects (cfg : PeerFilterConfig) (a : IpAddr) (t : text) : Prop :=
  t ∈ cfg_rules cfg /\ exists r, rule_parse t = Ok r /\ selects r a.
Definition imported_selects (cfg : PeerFilterConfig) (a : IpAddr) (d : text) : Prop :=
  exists p bytes line r, p ∈ blocklist_paths cfg /\ fs_read (trim p) = Ok bytes /\ line ∈ lines bytes /\
    parse_blocklist_line line = Ok (LineRule r d) /\ selects r a.

Lemma configured_of_in cfg r a :
  r ∈ configured_of (cfg_rules cfg) -> selects (rule r) a ->
  exists t, configured_selects cfg a t /\ origin r = Configured /\ display r = trim t.
Proof.
  intros (t & Ht & E)%list_elem_of_omap Hs. destruct (rule_parse t) as [x| | |] eqn:Ep; try done. injection E as <-.
  exists t. split; [|done]. split; [done|]. by exists x.
Qed.

Lemma in_configured_of cfg a t :
  configured_selects cfg a t -> exists r, r ∈ configured_of (cfg_rules cfg) /\ selects (rule r) a.
Proof.
  intros (Ht & r & E & Hs). exists (mkCompiledRule r (trim t) Configured). split; [|done].
  apply list_elem_of_omap. exists t. by rewrite E.
Qed.

Lemma imported_of_in cfg r a :
  r ∈ imported_of (blocklist_paths cfg) -> selects (rule r) a ->
  exists d, imported_selects cfg a d /\ origin r = Imported /\ display r = d.
Proof.
  intros Hr Hs. apply list_elem_of_In, in_concat in Hr as (l & (p & <- & Hp)%in_map_iff & Hin).
  destruct (fs_read (trim p)) as [bytes| | |] eqn:Ef; try done.
  apply in_map_iff in Hin as ([x d] & <- & Hin). apply list_elem_of_In, list_elem_of_omap in Hin as (ln & Hl & El).
  destruct (parse_blocklist_line ln) as [[| |]| | |] eqn:E; try done. injection El as -> ->.
  exists d. split; [|done]. exists p, bytes, ln, x. by rewrite list_elem_of_In.
Qed.

Lemma in_imported_of cfg a d :
  imported_selects cfg a d -> exists r, r ∈ imported_of (blocklist_paths cfg) /\ selects (rule r) a.
Proof.
  intros (p & bytes & ln & r & Hp & Ef & Hl & E & Hs). exists (mkCompiledRule r d Imported). split; [|done].
  apply list_elem_of_In, in_concat. exists (map (fun rd => mkCompiledRule rd.1 rd.2 Imported) (line_rules (lines bytes))).
  split; [apply in_map_iff; exists p; by rewrite Ef, <- list_elem_of_In|].
  apply in_map_iff. exists (r, d). split; [done|]. apply list_elem_of_In, list_elem_of_omap. exists ln. by rewrite E.
Qed.

Lemma count_no_rejection c : count_rejection Allowed c = c /\ count_rejection Disabled c = c.
Proof. by destruct c. Qed.

(** The decision a configuration stands for: nothing when it is disabled, then the
    manual bans, then the rules of the configuration, then the imported ones. *)
Definition decides (cfg : PeerFilterConfig) (a : IpAddr) (d : PeerAdmissionDecision) : Prop :=
  match d with
  | Disabled => cfg_enabled cfg = false
  | Allowed => cfg_enabled cfg = true /\ ~ banned cfg a /\ (forall t, ~ configured_selects cfg a t) /\
               (forall t, ~ imported_selects cfg a t)
  | BlockedByManualBan reason => cfg_enabled cfg = true /\
      exists b, b ∈ cfg_manual_bans cfg /\ parse_ip (trim (ban_ip b)) = Some a /\ reason = trim <$> ban_reason b
  | BlockedByConfiguredRule s => cfg_enabled cfg = true /\ ~ banned cfg a /\ exists t, configured_selects cfg a t /\ s = trim t
  | BlockedByImportedRule s => cfg_enabled cfg = true /\ ~ banned cfg a /\ (forall t, ~ configured_selects cfg a t) /\
                               imported_selects cfg a s
  | BlockedByClientId _ | FailClosed _ => False
  end.

Lemma find_ban cfg bans a :
  Forall2 (fun b c => parse_ip (trim (ban_ip b)) = Some (compiled_ip c) /\ ban_reason (configured c) = trim <$> ban_reason b)
    (cfg_manual_bans cfg) bans ->
  match List.find (fun ban => bool_decide (compiled_ip ban = a)) bans with
  | Some c => exists b, b ∈ cfg_manual_bans cfg /\ parse_ip (trim (ban_ip b)) = Some a /\
                        ban_reason (configured c) = trim <$> ban_reason b
  | None => ~ banned cfg a
  end.
Proof.
  unfold banned. generalize (cfg_manual_bans cfg) as bs. intros bs Hf.
  induction Hf as [|b c bs cs [H1 H2] _ IH]; cbn [List.find]; [by intros (b & ?%not_elem_of_nil & _)|].
  case_bool_decide as E; [subst; exists b; split; [by left|done]|].
  destruct (List.find _ cs) as [c'|].
  - destruct IH as (b' & Hb & ?). exists b'. split; [by right|done].
  - intros (b' & [->|Hb]%elem_of_cons & E'); [congruence|]. apply IH. by exists b'.
Qed.

(** C21: the peer filter admits exactly the peers it should: for a configuration that
    compiles and any address, the check returns and its decision is the one the
    configuration stands for — disabled, else the manual ban of that address, else
    the first configured rule whose interval holds the address, else a rule of an
    imported line, else allowed — and the counters count that decision; a filter
    that failed to load denies every address; every rule and every line of a
    blocklist is parsed or rejected as a configuration error. *)
Theorem admission_exact cfg f c a s :
  from_config cfg = Ok f -> valid_ip a ->
  (exists d, admit_ip f c a = Ok (d, count_rejection d (count_ip_check c)) /\ decides cfg a d) /\
  (exists d, admit_ip (fail_closed s) c a = Ok (d, count_rejection d (count_ip_check c)) /\ is_allowed d = false) /\
  (returns (rule_parse s) /\ err_only config_error (rule_parse s)) /\
  (returns (parse_blocklist_line s) /\ err_only config_error (parse_blocklist_line s)).
Proof.
  intros (He & Hd & Hr & Hb)%from_config_Ok Ha. split; [|split; [by eexists|split; split]];
    [|apply rule_parse_returns|apply rule_parse_errors|apply parse_line_returns|apply parse_line_errors].
  unfold admit_ip. cbv zeta. rewrite Hd, He, Hr. destruct (count_no_rejection (count_ip_check c)) as [E1 E2].
  destruct (cfg_enabled cfg) eqn:En; cbn [negb]; [|exists Disabled; by rewrite E2].
  pose proof (find_ban cfg _ a Hb) as Hf. destruct (List.find _ (manual_bans f)) as [ban|].
  { eexists. split; [reflexivity|]. split; [done|]. exact Hf. }
  destruct (find_rule_first a _ (rules_wf cfg) Ha) as (o & -> & Ho). rewrite bind_ret.
  destruct o as [r|].
  - destruct Ho as (x & y & Exy & Hs & Hx).
    assert (r ∈ configured_of (cfg_rules cfg) \/
      (r ∈ imported_of (blocklist_paths cfg) /\ forall t, ~ configured_selects cfg a t)) as [Hin|[Hin Hno]].
    { apply app_eq_inv in Exy as [(k & Ec & Ek)|(k & Ex & Ei)].
      - rewrite Ec. destruct k as [|r' k]; [|left; injection Ek as <- _; set_solver].
        right. cbn [app] in Ek. rewrite <- Ek. split; [by left|].
        intros t (r' & Hr' & Hs')%in_configured_of. rewrite Ec, app_nil_r in Hr'. rewrite Forall_forall in Hx. by eapply Hx.
      - right. rewrite Ei. split; [set_solver|]. intros t (r' & Hr' & Hs')%in_configured_of.
        rewrite Ex, Forall_app in Hx. destruct Hx as [Hx _]. rewrite Forall_forall in Hx. by eapply Hx. }
    + apply (configured_of_in cfg r a) in Hin as (t & Ht & Eo & Ed); [|done].
      rewrite Eo. eexists. split; [reflexivity|]. split; [done|]. split; [done|]. by exists t.
    + apply (imported_of_in cfg r a) in Hin as (t & Ht & Eo & Ed); [|done].
      rewrite Eo. eexists. split; [reflexivity|]. split; [done|]. split; [done|]. split; [done|]. by rewrite Ed.
  - apply Forall_app in Ho as [Ho1 Ho2]. rewrite Forall_forall in Ho1, Ho2. exists Allowed. rewrite E1. split; [done|].
    split; [done|]. split; [done|]. split.
    + intros t (r & Hin & Hs)%in_configured_of. by eapply Ho1.
    + intros t (r & Hin & Hs)%in_imported_of. by eapply Ho2.
Qed.
End filter.

(** A blocklist of one CIDR line, a comment and a line that is no rule. *)
Definition one_blocklist : BlocklistFiles := {|
  fs_metadata p := Ok (true, 64);
  fs_read p := Ok (bytes_of "# list" ++ [x0a] ++ bytes_of "lab:198.51.100.0/24" ++ [x0d; x0a] ++ bytes_of "noise") |}.

Lemma admission_exact_witness :
  let cfg := mkPeerFilterConfig true [bytes_of "203.0.113.0 - 203.0.113.9"] [bytes_of "/etc/list"]
    [mkManualPeerBan (bytes_of "10.0.0.1") None] [bytes_of "-XL"] in
  exists f d, @from_config one_blocklist cfg = Ok f /\
    admit_ip f counters_default (V4 0xc6336463) = Ok (d, count_rejection d (count_ip_check counters_default)) /\
    @decides one_blocklist cfg (V4 0xc6336463) d.
Proof.
  intros cfg.
  set (f := match @from_config one_blocklist cfg with Ok f => f | _ => filter_default end).
  assert (@from_config one_blocklist cfg = Ok f) as E by (vm_compute; reflexivity).
  assert (valid_ip (V4 0xc6336463)) as Hv by (vm_compute; split; congruence).
  destruct (@admission_exact one_blocklist cfg f counters_default (V4 0xc6336463) [] E Hv) as ((d & H1 & H2) & _).
  exists f, d. split; [exact E|]. split; [exact H1|exact H2].
Defined.
