(* ===== verification/Escape.v ===== *)
(** * Percent-encoding

    The escapes of [magnet.rs] and [tracker.rs] — one loop over the bytes that keeps
    some of them and writes the others as [%XX] — and what the URL standard says a
    reader of the result does: split at separators, then decode the escapes. *)

From S2P Require Import Prelude Text Bits Addr Hash Meta.

Local Open Scope byte_scope.
Local Open Scope Z_scope.

(** [format!("%{:02X}", b)]. *)
Definition hex_upper (d : Z) : byte := if d <? 10 then as_u8 (48 + d) else as_u8 (55 + d).
Definition percent (b : byte) : text := ["%"; hex_upper (u8 b / 16); hex_upper (u8 b mod 16)].

(** The loop over the bytes of a string, for a condition on the bytes that are kept. *)
Definition escape_with (keep : byte -> bool) (s : text) : text :=
  concat (map (fun b => if keep b then [b] else percent b) s).

(** [join(sep)]. *)
Fixpoint join (sep : text) (l : list text) : text :=
  match l with [] => [] | [x] => x | x :: l => x ++ sep ++ join sep l end.

(** The percent-decoding of the URL standard. *)
Fixpoint percent_decode (s : text) : text :=
  match s with
  | [] => []
  | c :: t =>
      match Byte.eqb c "%", t with
      | true, a :: b :: r =>
          match to_digit 16 a, to_digit 16 b with
          | Some x, Some y => as_u8 (16 * x + y) :: percent_decode r
          | _, _ => c :: percent_decode t
          end
      | _, _ => c :: percent_decode t
      end
  end.

Lemma percent_char b c : c ∈ percent b -> c = "%" \/ is_ascii_alphanumeric c = true.
Proof.
  intros Hc. assert (forallb (fun b => forallb (fun c => Byte.eqb c "%" || is_ascii_alphanumeric c) (percent b)) all_bytes = true) as H
    by (vm_compute; reflexivity).
  apply (fun H => byte_check _ H b) in H. cbn beta in H. rewrite forallb_forall in H.
  specialize (H c ltac:(by apply list_elem_of_In)). cbn beta in H. apply orb_true_iff in H as [H%byte_eqb_eq|H]; auto.
Qed.

Lemma escape_cons keep b s : escape_with keep (b :: s) = (if keep b then [b] else percent b) ++ escape_with keep s.
Proof. done. Qed.
Lemma escape_app keep s t : escape_with keep (s ++ t) = escape_with keep s ++ escape_with keep t.
Proof. unfold escape_with. by rewrite map_app, concat_app. Qed.

Lemma escape_kept keep v : Forall (fun b => keep b = true) v -> escape_with keep v = v.
Proof. induction 1 as [|b v Hb _ IH]; [done|]. by rewrite escape_cons, Hb, IH. Qed.

(** A property of the characters that are kept and of the letters, digits and
    percent signs. *)
Lemma escape_chars keep (P : byte -> bool) v :
  forallb (fun b => negb (is_ascii_alphanumeric b || Byte.eqb b "%") || P b) all_bytes = true ->
  Forall (fun b => P b = true \/ keep b = false) v -> Forall (fun b => P b = true) (escape_with keep v).
Proof.
  intros HP Hv. induction Hv as [|b v Hb _ IH]; [constructor|]. rewrite escape_cons. apply Forall_app. split; [|done].
  destruct (keep b) eqn:E; [apply Forall_singleton; naive_solver|]. apply Forall_forall. intros c Hc.
  apply (fun H => byte_check _ H c) in HP. cbn beta in HP. apply percent_char in Hc as [->|Hc].
  - rewrite byte_eqb_refl, orb_true_r in HP. done.
  - by rewrite Hc in HP.
Qed.

Lemma decode_percent b t : percent_decode (percent b ++ t) = b :: percent_decode t.
Proof.
  unfold percent. cbn [app percent_decode]. rewrite byte_eqb_refl.
  assert (forallb (fun b => bool_decide (to_digit 16 (hex_upper (u8 b / 16)) = Some (u8 b / 16) /\
    to_digit 16 (hex_upper (u8 b mod 16)) = Some (u8 b mod 16))) all_bytes = true) as H by (vm_compute; reflexivity).
  apply (fun H => byte_check _ H b) in H. cbn beta in H. apply bool_decide_eq_true_1 in H as [-> ->].
  by rewrite <- Z.div_mod, as_u8_u8.
Qed.
Lemma percent_decode_escape keep v :
  Forall (fun b => keep b = true -> b <> "%") v -> percent_decode (escape_with keep v) = v.
Proof.
  induction 1 as [|b v Hb _ IH]; [done|]. rewrite escape_cons. destruct (keep b) eqn:E; [|by rewrite decode_percent, IH].
  cbn [app percent_decode]. assert (Byte.eqb b "%" = false) as ->; [|by rewrite IH].
  by apply byte_eqb_neq, Hb.
Qed.

(** ** Splitting and joining *)

Lemma split_once_first b k v : b ∉ k -> split_once b (k ++ b :: v) = Some (k, v).
Proof.
  induction k as [|c k IH]; cbn [split_once app]; [by rewrite byte_eqb_refl|].
  intros [Hc Hk]%not_elem_of_cons. rewrite (proj2 (byte_eqb_neq c b)) by done. by rewrite IH.
Qed.

Lemma split_once_none b s : b ∉ s -> split_once b s = None.
Proof.
  induction s as [|c s IH]; [done|]. intros [Hc Hs]%not_elem_of_cons. cbn [split_once].
  rewrite (proj2 (byte_eqb_neq c b)) by done. by rewrite IH.
Qed.

Lemma split_byte_none b s : b ∉ s -> split_byte b s = [s].
Proof.
  induction s as [|c s IH]; [done|]. intros [Hc Hs]%not_elem_of_cons. cbn [split_byte]. rewrite IH by done.
  by rewrite (proj2 (byte_eqb_neq c b)).
Qed.

Lemma split_byte_app b s t : b ∉ s -> split_byte b (s ++ b :: t) = s :: split_byte b t.
Proof.
  induction s as [|c s IH]; cbn [split_byte app].
  - intros _. rewrite byte_eqb_refl. destruct (split_byte b t) eqn:E; [|done]. destruct t; [done|].
    cbn [split_byte] in E. by repeat case_match.
  - intros [Hc Hs]%not_elem_of_cons. rewrite IH by done. by rewrite (proj2 (byte_eqb_neq c b)).
Qed.

Lemma split_byte_join b l :
  l <> [] -> Forall (fun s => b ∉ s) l -> split_byte b (join [b] l) = l.
Proof.
  intros Hne Hl. induction Hl as [|s l Hs Hl IH]; [done|]. destruct l as [|t l]; [by apply split_byte_none|].
  change (join [b] (s :: t :: l)) with (s ++ [b] ++ join [b] (t :: l)). cbn [app].
  rewrite split_byte_app by done. by rewrite IH.
Qed.

Lemma join_nonempty sep l : l <> [] -> Forall (fun s => s <> []) l -> join sep l <> [].
Proof.
  intros Hne Hl. destruct Hl as [|s l Hs _]; [done|]. destruct l; cbn [join]; [done|]. by destruct s.
Qed.

Lemma join_Forall (P : byte -> Prop) sep l : Forall P sep -> Forall (Forall P) l -> Forall P (join sep l).
Proof.
  intros Hs Hl. induction Hl as [|s l H _ IH]; [constructor|]. destruct l as [|t l]; [done|].
  change (join sep (s :: t :: l)) with (s ++ sep ++ join sep (t :: l)). by rewrite !Forall_app.
Qed.

Lemma join_snoc sep l x : l <> [] -> join sep (l ++ [x]) = join sep l ++ sep ++ x.
Proof.
  induction l as [|y l IH]; [done|]. intros _. destruct l as [|z l]; [done|].
  change (join sep ((y :: z :: l) ++ [x])) with (y ++ sep ++ join sep ((z :: l) ++ [x])). rewrite IH by done.
  change (join sep (y :: z :: l)) with (y ++ sep ++ join sep (z :: l)). by rewrite <- !app_assoc.
Qed.
