(* ===== verification/Magnet.v ===== *)
(** * Magnet links: [crates/swarmotter-core/src/magnet.rs]

    The parser of magnet URIs, their canonical form, and the validation and use of
    file selections and direct peers.  The [url] crate is an interface.  The
    theorems: a parsed magnet satisfies its own validators, and the canonical form
    of a magnet parses back to it. *)

From S2P Require Import Prelude Text Bits Addr Hash Meta Torrent Escape.

Local Open Scope byte_scope.
Local Open Scope Z_scope.

Definition MAX_MAGNET_SELECT_ONLY_INDICES : Z := MAX_TORRENT_FILES.
Definition MAX_MAGNET_DIRECT_PEERS : Z := 256.

(** A direct peer is an address and a port; [socket_addr] puts them together. *)
Abbreviation MagnetDirectPeer := SocketAddr.
Definition socket_addr (p : MagnetDirectPeer) : SocketAddr := mkSocketAddr (ip p) (port p).

Record Magnet : Type := mkMagnet {
  identity : TorrentIdentity; display_name : option text; trackers : list text; exact_length : option Z;
  webseeds : list text; select_only_file_indices : list Z; direct_peers : list MagnetDirectPeer; raw : text }.

(** What is read of a [url::Url]: its scheme, its query and the pairs of the query. *)
Record ParsedUrl : Type := mkUrl { scheme : text; query : option text; query_pairs : list (text * text) }.

(** ** Parsing *)

Inductive ExactTopic : Type := TopicV1 (hash : InfoHash) | TopicV2 (hash : V2InfoHash) | Other.

Definition parse_select_only_index (value : text) : outcome Z :=
  _ ← fail_if (bool_decide (value = []) || negb (forallb is_ascii_digit value))
        (MalformedMagnet "invalid BEP 53 so file index");
  ok_or (parse_usize value) (MalformedMagnet "BEP 53 so file index is too large").

(** [BTreeSet::insert], on the ascending list of its elements. *)
Fixpoint set_insert (x : Z) (l : list Z) : list Z :=
  match l with
  | [] => [x]
  | y :: l' => if x <? y then x :: l else if x =? y then l else y :: set_insert x l'
  end.

Definition select_index (selected : list Z) (index : Z) : outcome (list Z) :=
  let selected := set_insert index selected in
  _ ← fail_if (MAX_MAGNET_SELECT_ONLY_INDICES <? len selected)
        (MalformedMagnet "BEP 53 so selection exceeds the maximum");
  Ok selected.

Definition parse_term (term : text) : outcome (Z * Z) :=
  match split_once "-" term with
  | Some (start, end_) =>
      if negb (contains_byte "-" end_) then
        a ← parse_select_only_index start; b ← parse_select_only_index end_; Ok (a, b)
      else Err (MalformedMagnet "invalid BEP 53 so range")
  | None => index ← parse_select_only_index term; Ok (index, index)
  end.

Definition select_term (selected : list Z) (term : text) : outcome (list Z) :=
  _ ← fail_if (bool_decide (term = [])) (MalformedMagnet "empty item in BEP 53 so file selection");
  '(first, last) ← parse_term term;
  _ ← fail_if (last <? first) (MalformedMagnet "descending BEP 53 so range");
  range_len ← ok_or (length ← checked_sub last first; checked_add length 1)
                (MalformedMagnet "BEP 53 so range is too large");
  _ ← fail_if (MAX_MAGNET_SELECT_ONLY_INDICES <? range_len) (MalformedMagnet "BEP 53 so range exceeds the maximum");
  try_fold select_index selected (seqZ first (last - first + 1)).

Definition parse_select_only (value : text) (selected : list Z) : outcome (list Z) :=
  _ ← fail_if (bool_decide (value = [])) (MalformedMagnet "empty BEP 53 so file selection");
  try_fold select_term selected (split_byte "," value).

Definition parse_direct_peer (value : text) : outcome MagnetDirectPeer :=
  endpoint ← ok_or (parse_socket_addr value) (MalformedMagnet "invalid x.pe direct peer; expected an IP literal");
  _ ← fail_if ((port endpoint =? 0) || is_unspecified (ip endpoint))
        (MalformedMagnet "invalid x.pe direct peer endpoint");
  Ok (mkSocketAddr (ip endpoint) (port endpoint)).

Section magnet.
Context {D : Digests} {X : HexCodec}.

Definition parse_xt (value : text) : outcome ExactTopic :=
  match split_once ":" value with
  | None => Ok Other
  | Some (urn, rest) =>
      match split_once ":" rest with
      | None => Ok Other
      | Some (kind, body) =>
          if negb (eq_ignore_ascii_case urn (bytes_of "urn")) then Ok Other
          else if eq_ignore_ascii_case kind (bytes_of "btih") then
            if len body =? 40 then h ← from_hex body; Ok (TopicV1 h)
            else if len body =? 32 then h ← from_base32 body; Ok (TopicV1 h)
            else Err (MalformedMagnet "invalid btih hash length in xt")
          else if eq_ignore_ascii_case kind (bytes_of "btmh") then
            match from_magnet_multihash body with
            | Ok h => Ok (TopicV2 h)
            | Err _ => Err (MalformedMagnet "invalid info hash")
            | Panic => Panic
            | OutOfFuel => OutOfFuel
            end
          else Ok Other
      end
  end.

(** [set_unique_v1], [set_unique_v2]. *)
Definition set_unique {H} `{EqDecision H} (msg : string) (slot : option H) (hash : H) : outcome (option H) :=
  match slot with
  | Some existing => if bool_decide (existing = hash) then Ok slot else Err (MalformedMagnet msg)
  | None => Ok (Some hash)
  end.
Definition set_unique_v1 : option InfoHash -> InfoHash -> outcome (option InfoHash) :=
  set_unique "magnet contains conflicting v1 btih identities".
Definition set_unique_v2 : option V2InfoHash -> V2InfoHash -> outcome (option V2InfoHash) :=
  set_unique "magnet contains conflicting v2 btmh identities".

(** The local variables of the loop over the query pairs. *)
Record Fields : Type := mkFields {
  f_v1 : option InfoHash; f_v2 : option V2InfoHash; f_name : option text; f_trackers : list text;
  f_length : option Z; f_webseeds : list text; f_selected : list Z; f_peers : list MagnetDirectPeer }.
Definition no_fields : Fields := mkFields None None None [] None [] [] [].

Definition add_peer (peers : list MagnetDirectPeer) (peer : MagnetDirectPeer) : outcome (list MagnetDirectPeer) :=
  if bool_decide (peer ∈ peers) then Ok peers
  else
    _ ← fail_if (len peers =? MAX_MAGNET_DIRECT_PEERS) (MalformedMagnet "magnet contains too many x.pe direct peers");
    Ok (peers ++ [peer]).

Definition read_pair (f : Fields) (pair : text * text) : outcome Fields :=
  let '(key, value) := pair in
  let '(mkFields v1 v2 name trs xl wss sel peers) := f in
  if bool_decide (key = bytes_of "xt") then
    topic ← parse_xt value;
    match topic with
    | TopicV1 hash => v1 ← set_unique_v1 v1 hash; Ok (mkFields v1 v2 name trs xl wss sel peers)
    | TopicV2 hash => v2 ← set_unique_v2 v2 hash; Ok (mkFields v1 v2 name trs xl wss sel peers)
    | Other => Ok f
    end
  else if bool_decide (key = bytes_of "dn") then Ok (mkFields v1 v2 (Some value) trs xl wss sel peers)
  else if bool_decide (key = bytes_of "tr") then Ok (mkFields v1 v2 name (trs ++ [value]) xl wss sel peers)
  else if bool_decide (key = bytes_of "xl") then
    Ok (mkFields v1 v2 name trs (parse_unsigned u64_max value) wss sel peers)
  else if bool_decide (key = bytes_of "ws") then Ok (mkFields v1 v2 name trs xl (wss ++ [value]) sel peers)
  else if bool_decide (key = bytes_of "so") then
    sel ← parse_select_only value sel; Ok (mkFields v1 v2 name trs xl wss sel peers)
  else if bool_decide (key = bytes_of "x.pe") then
    peer ← parse_direct_peer value;
    peers ← add_peer peers peer;
    Ok (mkFields v1 v2 name trs xl wss sel peers)
  else Ok f.

(** [url::Url::parse] belongs to the url crate. *)
Variable url_parse : text -> option ParsedUrl.

Definition parse (s : text) : outcome Magnet :=
  let trimmed := trim s in
  _ ← fail_if (bool_decide (trimmed = [])) (MalformedMagnet "empty magnet");
  url ← ok_or (url_parse trimmed) (MalformedMagnet "url parse");
  _ ← fail_if (negb (eq_ignore_ascii_case (scheme url) (bytes_of "magnet")))
        (MalformedMagnet "must use the 'magnet:' scheme");
  _ ← ok_or (query url) (MalformedMagnet "magnet URI is missing a query string");
  f ← try_fold read_pair no_fields (query_pairs url);
  identity ← match f_v1 f, f_v2 f with
             | Some v1, Some v2 => Ok (Hybrid v1 v2)
             | Some v1, None => Ok (V1 v1)
             | None, Some v2 => Ok (V2 v2)
             | None, None => Err (MalformedMagnet "missing a supported 'xt' torrent identity")
             end;
  Ok (mkMagnet identity (f_name f) (f_trackers f) (f_length f) (f_webseeds f) (f_selected f) (f_peers f) trimmed).

Definition magnet_v1_info_hash (m : Magnet) : option InfoHash := v1_info_hash (identity m).
Definition magnet_v2_info_hash (m : Magnet) : option V2InfoHash := v2_info_hash (identity m).
Definition magnet_requires_v2 (m : Magnet) : bool := negb (supports_v1_data_plane (identity m)).

(** ** The canonical form *)

Definition kept (b : byte) : bool :=
  is_ascii_alphanumeric b || existsb (Byte.eqb b) (bytes_of "-_.~:/?#[]@!$&'()*+,;=").
Definition url_encode (s : text) : text := escape_with kept s.

(** One term of [format_select_only]: the end of the run that starts the list, and
    the rest. *)
Fixpoint run_end (end_ : Z) (l : list Z) : Z * list Z :=
  match l with
  | x :: l' => if x =? Z.min usize_max (end_ + 1) then run_end x l' else (end_, l)
  | [] => (end_, [])
  end.
Fixpoint select_terms (fuel : nat) (l : list Z) : list text :=
  match fuel, l with
  | S fuel, start :: l =>
      let '(end_, rest) := run_end start l in
      (if start =? end_ then print_dec start else print_dec start ++ ["-"] ++ print_dec end_)
      :: select_terms fuel rest
  | _, _ => []
  end.

(** [Vec::dedup]. *)
Fixpoint dedup (l : list Z) : list Z :=
  match l with
  | [] => []
  | x :: l => match dedup l with
              | [] => [x]
              | y :: d => if x =? y then y :: d else x :: y :: d
              end
  end.

(** Every term takes at least one index: the number of indices is enough fuel. *)
Definition format_select_only (indices : list Z) : text :=
  let sorted := dedup (sort_by Z.leb indices) in
  join [","] (select_terms (length sorted) sorted).

Definition to_uri (m : Magnet) : text :=
  let topics := match magnet_v1_info_hash m with
                | Some v1 => [bytes_of "xt=urn:btih:" ++ to_hex v1]
                | None => []
                end
                ++ match magnet_v2_info_hash m with
                   | Some v2 => [bytes_of "xt=urn:btmh:" ++ to_magnet_multihash v2]
                   | None => []
                   end in
  let s := bytes_of "magnet:?" ++ join ["&"] topics in
  let s := match display_name m with Some name => s ++ bytes_of "&dn=" ++ url_encode name | None => s end in
  let s := match select_only_file_indices m with
           | [] => s
           | indices => s ++ bytes_of "&so=" ++ url_encode (format_select_only indices)
           end in
  let s := foldl (fun s tr => s ++ bytes_of "&tr=" ++ url_encode tr) s (trackers m) in
  let s := foldl (fun s ws => s ++ bytes_of "&ws=" ++ url_encode ws) s (webseeds m) in
  foldl (fun s p => s ++ bytes_of "&x.pe=" ++ url_encode (fmt_socket_addr (socket_addr p))) s (direct_peers m).
End magnet.

(** ** Validation and use of a selection *)

(** [Result<(), String>]: the message without its interpolated values. *)
Definition validate_select_only_file_indices (indices : list Z) (file_count : Z) : () + string :=
  if MAX_MAGNET_SELECT_ONLY_INDICES <? len indices then inr "magnet select-only list exceeds the maximum"%string
  else if existsb (fun pair => pair.2 <=? pair.1) (zip indices (tail indices)) then
    inr "magnet select-only file indices must be sorted and unique"%string
  else if existsb (fun index => file_count <=? index) indices then
    inr "magnet select-only list contains an index outside this torrent's file list"%string
  else inl ().

Definition validate_direct_peers (peers : list MagnetDirectPeer) : () + string :=
  if MAX_MAGNET_DIRECT_PEERS <? len peers then inr "magnet direct-peer list exceeds the maximum"%string
  else if existsb (fun p => (port p =? 0) || is_unspecified (ip p)) peers then inr "invalid magnet direct peer"%string
  else if existsb (fun ip => bool_decide (ip.2 ∈ take (Z.to_nat ip.1) peers)) (enumerate peers) then
    inr "magnet direct-peer list contains duplicates"%string
  else inl ().

(** [binary_search] on a sorted slice, which is what the selection is. *)
Definition binary_search_is_err (selected : list Z) (index : Z) : bool := negb (bool_decide (index ∈ selected)).

Definition apply_select_only_file_indices (priorities : list FilePriority) (wanted : list bool) (selected : list Z)
  : list FilePriority * list bool :=
  foldl (fun pw index =>
    if binary_search_is_err selected index then
      (update_at pw.1 index (fun _ => Unwanted), update_at pw.2 index (fun _ => false))
    else pw) (priorities, wanted) (seqZ 0 (len wanted)).

(** ** Parsed magnets are valid *)

Definition ascending (l : list Z) : Prop := StronglySorted Z.lt l.

Lemma set_insert_elem x l y : y ∈ set_insert x l <-> y = x \/ y ∈ l.
Proof.
  induction l as [|z l IH]; cbn [set_insert]; [set_solver|].
  destruct (x <? z); [set_solver|]. destruct (Z.eqb_spec x z) as [->|]; [set_solver|].
  rewrite !elem_of_cons, IH. tauto.
Qed.

Lemma set_insert_ascending x l : ascending l -> ascending (set_insert x l).
Proof.
  induction 1 as [|y l Hs IH Hy]; cbn [set_insert]; [by repeat constructor|].
  destruct (Z.ltb_spec x y) as [Hx|Hx].
  - constructor; [by constructor|]. constructor; [done|]. eapply Forall_impl; [exact Hy|]. lia.
  - destruct (Z.eqb_spec x y) as [->|]; [by constructor|]. constructor; [done|].
    apply Forall_forall. intros z [->|Hz]%set_insert_elem; [lia|]. by eapply Forall_forall in Hy.
Qed.

Lemma windows_ascending l :
  existsb (fun pair => pair.2 <=? pair.1) (zip l (tail l)) = false <-> ascending l.
Proof.
  unfold ascending. induction l as [|x l IH]; [by split; [constructor|]|].
  destruct l as [|y l]; [by split; [repeat constructor|]|].
  change (zip (x :: y :: l) (tail (x :: y :: l))) with ((x, y) :: zip (y :: l) (tail (y :: l))).
  cbn [existsb fst snd]. rewrite orb_false_iff, IH, Z.leb_gt. split.
  - intros [Hxy Hs]. constructor; [done|]. constructor; [done|]. apply StronglySorted_inv in Hs as [_ Hy].
    eapply Forall_impl; [exact Hy|]. lia.
  - intros [Hs Hx]%StronglySorted_inv. apply Forall_cons in Hx as [Hx _]. done.
Qed.

Lemma ascending_NoDup l : ascending l -> NoDup l.
Proof.
  induction 1 as [|x l _ IH Hx]; constructor; [|done]. intros Hin. eapply Forall_forall in Hx; [|exact Hin]. lia.
Qed.

Lemma select_only_valid l n :
  ascending l -> len l <= MAX_MAGNET_SELECT_ONLY_INDICES ->
  validate_select_only_file_indices l n = inl () <-> forall i, i ∈ l -> i < n.
Proof.
  intros Ha Hl. unfold validate_select_only_file_indices. rewrite (proj2 (Z.ltb_ge _ _)) by done.
  rewrite (proj2 (windows_ascending l) Ha). destruct (existsb _ l) eqn:E.
  - split; [done|]. intros H. apply existsb_exists in E as (i & Hi & Hn). apply list_elem_of_In in Hi. specialize (H i Hi). lia.
  - split; [|done]. intros _ i Hi. apply list_elem_of_In in Hi. destruct (Z.ltb_spec i n); [done|].
    assert (existsb (fun index => n <=? index) l = true); [|congruence]. apply existsb_exists. exists i. split; [done|lia].
Qed.

Definition peers_ok (peers : list MagnetDirectPeer) : Prop :=
  len peers <= MAX_MAGNET_DIRECT_PEERS /\ NoDup peers /\
  Forall (fun p => port p <> 0 /\ is_unspecified (ip p) = false) peers.

Lemma duplicates_NoDup {A} `{EqDecision A} (l : list A) :
  existsb (fun ip => bool_decide (ip.2 ∈ take (Z.to_nat ip.1) l)) (enumerate l) = false <-> NoDup l.
Proof.
  rewrite NoDup_alt, <- not_true_iff_false, existsb_exists. split.
  - intros Hn i j x Hi Hj. destruct (decide (i = j)) as [|Hij]; [done|]. exfalso. apply Hn.
    assert (exists a b : nat, (a < b)%nat /\ l !! a = Some x /\ l !! b = Some x) as (a & b & Hab & Ha & Hb).
    { destruct (decide (i < j)%nat); [by exists i, j|exists j, i; repeat split; try done; lia]. }
    exists (Z.of_nat b, x). split.
    + apply list_elem_of_In, list_elem_of_lookup. exists b. unfold enumerate. by rewrite list_lookup_imap, Hb.
    + apply bool_decide_eq_true_2. cbn [fst snd]. rewrite Nat2Z.id. apply list_elem_of_lookup. exists a.
      by rewrite lookup_take_lt.
  - intros Hn ([i x] & Hin & Hd%bool_decide_eq_true_1). cbn [fst snd] in Hd.
    apply list_elem_of_In, list_elem_of_lookup in Hin as (k & Hk). unfold enumerate in Hk.
    rewrite list_lookup_imap in Hk. destruct (l !! k) as [y|] eqn:Ek; [|done]. injection Hk as <- <-.
    rewrite Nat2Z.id in Hd. apply list_elem_of_lookup in Hd as (j & Hj). apply lookup_take_Some in Hj as [Hj Hlt].
    pose proof (Hn j k y Hj Ek). lia.
Qed.

Lemma direct_peers_valid peers : validate_direct_peers peers = inl () <-> peers_ok peers.
Proof.
  unfold validate_direct_peers, peers_ok. rewrite <- duplicates_NoDup.
  destruct (Z.ltb_spec MAX_MAGNET_DIRECT_PEERS (len peers)); [split; [done|intros (? & _); lia]|].
  assert (existsb (fun p => (port p =? 0) || is_unspecified (ip p)) peers = false <->
    Forall (fun p => port p <> 0 /\ is_unspecified (ip p) = false) peers) as Hf.
  { rewrite <- not_true_iff_false, existsb_exists, Forall_forall. split.
    - intros Hn p Hp. split; [intros E|destruct (is_unspecified (ip p)) eqn:E; [|done]];
        (exfalso; apply Hn; exists p; rewrite <- list_elem_of_In; split; [done|]; rewrite E; done || apply orb_true_r).
    - intros Hp (p & Hin & Hc). apply list_elem_of_In, Hp in Hin as [H1 H2]. rewrite H2 in Hc. lia. }
  destruct (existsb _ peers) eqn:E1.
  - split; [done|]. intros (_ & _ & H2). apply Hf in H2. done.
  - apply proj1 in Hf. specialize (Hf eq_refl). destruct (existsb _ (enumerate peers)); [split; [done|intros (_ & ? & _); done]|].
    done.
Qed.

Definition fields_ok (f : Fields) : Prop :=
  ascending (f_selected f) /\ len (f_selected f) <= MAX_MAGNET_SELECT_ONLY_INDICES /\ peers_ok (f_peers f).

Lemma select_index_ok sel i sel' :
  select_index sel i = Ok sel' -> ascending sel ->
  ascending sel' /\ len sel' <= MAX_MAGNET_SELECT_ONLY_INDICES.
Proof.
  unfold select_index. intros H Ha. inv_ok. rename select (_ = false) into Hl. apply Z.ltb_ge in Hl.
  split; [by apply set_insert_ascending|done].
Qed.

Lemma parse_select_only_ok value sel sel' :
  parse_select_only value sel = Ok sel' ->
  ascending sel /\ len sel <= MAX_MAGNET_SELECT_ONLY_INDICES ->
  ascending sel' /\ len sel' <= MAX_MAGNET_SELECT_ONLY_INDICES.
Proof.
  unfold parse_select_only. intros H Ha. apply bind_Ok in H as ([] & _ & H).
  refine (try_fold_inv (fun sel => ascending sel /\ len sel <= MAX_MAGNET_SELECT_ONLY_INDICES) _ _ _ _ _ Ha H).
  clear. intros b term b' _ Hb Ht. unfold select_term in Ht.
  apply bind_Ok in Ht as ([] & _ & Ht). apply bind_Ok in Ht as ([x y] & _ & Ht). inv_ok.
  refine (try_fold_inv (fun sel => ascending sel /\ len sel <= MAX_MAGNET_SELECT_ONLY_INDICES) _ _ _ _ _ _ Ht); [|by split].
  intros c i c' _ [Hc _] Hs. by eapply select_index_ok.
Qed.

Lemma add_peer_ok value peer peers peers' :
  parse_direct_peer value = Ok peer -> add_peer peers peer = Ok peers' -> peers_ok peers -> peers_ok peers'.
Proof.
  unfold parse_direct_peer, add_peer, peers_ok. intros Hp Ha (Hl & Hn & Hf). inv_ok.
  rename select (_ || _ = false) into Hz. apply orb_false_iff in Hz as [Hz Hu].
  case_bool_decide as Hin; [by inv_ok|]. inv_ok. rename select (_ = false) into Hm.
  rewrite len_app. change (len [_]) with 1. apply Z.eqb_neq in Hm, Hz. split; [lia|]. split.
  - apply NoDup_app. split; [done|]. split; [|apply NoDup_singleton]. by intros q Hq ->%list_elem_of_singleton.
  - apply Forall_app. split; [done|]. by apply Forall_singleton.
Qed.

Section valid.
Context {D : Digests} {X : HexCodec} (url_parse : text -> option ParsedUrl).
Abbreviation parse := (parse url_parse).

Lemma read_pair_ok f pair f' : read_pair f pair = Ok f' -> fields_ok f -> fields_ok f'.
Proof.
  destruct pair as [key value], f as [v1 v2 name trs xl wss sel peers]. unfold read_pair, fields_ok. cbn [f_selected f_peers].
  intros H (H1 & H2 & H3).
  destruct (bool_decide (key = bytes_of "xt")).
  { apply bind_Ok in H as (topic & _ & H). destruct topic; inv_ok; by cbn [f_selected f_peers]. }
  do 4 (destruct (bool_decide _); [by inv_ok|]).
  destruct (bool_decide _).
  { apply bind_Ok in H as (s & Hs & H). apply parse_select_only_ok in Hs; [|done]. inv_ok. by cbn [f_selected f_peers]. }
  destruct (bool_decide _); [|by inv_ok].
  apply bind_Ok in H as (p & Hp & H). apply bind_Ok in H as (ps & Hps & H). inv_ok. cbn [f_selected f_peers].
  split; [done|]. split; [done|]. by eapply add_peer_ok.
Qed.

Lemma parse_ok s m :
  parse s = Ok m ->
  identity m <> Unknown /\ ascending (select_only_file_indices m) /\
  len (select_only_file_indices m) <= MAX_MAGNET_SELECT_ONLY_INDICES /\ peers_ok (direct_peers m).
Proof.
  unfold parse. cbv zeta. intros H. apply bind_Ok in H as ([] & _ & H). apply bind_Ok in H as (u & _ & H).
  apply bind_Ok in H as ([] & _ & H). apply bind_Ok in H as (q & _ & H). apply bind_Ok in H as (f & Hf & H).
  apply bind_Ok in H as (i & Hi & H). injection H as <-.
  assert (fields_ok f) as (H1 & H2 & H3).
  { refine (try_fold_inv fields_ok _ _ _ _ _ _ Hf); [intros b p b' _ Hb Hr; by eapply read_pair_ok|].
    split; [constructor|]. split; [done|]. split; [done|]. split; constructor. }
  split; [|done]. cbn [identity]. by destruct (f_v1 f), (f_v2 f); inv_ok.
Qed.

Definition magnet_error (e : CoreError) : Prop :=
  exists msg, e = MalformedMagnet msg \/ e = InvalidInfoHash msg.
Lemma magnet_error_1 msg : magnet_error (MalformedMagnet msg).
Proof. exists msg. by left. Qed.
Lemma magnet_error_2 msg : magnet_error (InvalidInfoHash msg).
Proof. exists msg. by right. Qed.
Lemma copy_magnet_errors n s : err_only magnet_error (copy_from_slice n s).
Proof. unfold copy_from_slice. by case_match. Qed.
#[local] Hint Resolve magnet_error_1 magnet_error_2 copy_magnet_errors : err_only.

Lemma base32_errors s : forall out buffer bits, err_only magnet_error (base32_loop s out buffer bits).
Proof.
  induction s as [|c s IH]; intros out buffer bits; cbn [base32_loop]; [done|]. err_only_tac; apply IH.
Qed.

Lemma parse_xt_errors value : err_only magnet_error (parse_xt value).
Proof.
  pose proof base32_errors as Hb.
  unfold parse_xt, from_magnet_multihash, v2_from_hex, from_hex, from_base32, base32_decode. err_only_tac.
Qed.

Lemma select_index_errors sel i : err_only magnet_error (select_index sel i).
Proof. unfold select_index. err_only_tac. Qed.
Lemma parse_term_errors t : err_only magnet_error (parse_term t).
Proof. unfold parse_term, parse_select_only_index. err_only_tac. Qed.
#[local] Hint Resolve select_index_errors parse_term_errors parse_xt_errors : err_only.
Lemma select_term_errors sel t : err_only magnet_error (select_term sel t).
Proof. unfold select_term. err_only_tac. Qed.
#[local] Hint Resolve select_term_errors : err_only.

Lemma read_pair_errors f pair : err_only magnet_error (read_pair f pair).
Proof.
  unfold read_pair, parse_select_only, parse_direct_peer, set_unique_v1, set_unique_v2, set_unique, add_peer. err_only_tac.
Qed.
#[local] Hint Resolve read_pair_errors : err_only.

Lemma parse_magnet_errors s : err_only magnet_error (parse s).
Proof. unfold parse. err_only_tac. Qed.
Lemma parse_xt_returns value : returns (parse_xt value).
Proof.
  unfold parse_xt. destruct (split_once ":" value) as [[urn rest]|]; [|done].
  destruct (split_once ":" rest) as [[kind body]|]; [|done]. destruct (negb _); [done|].
  destruct (from_hex_returns body) as [Hh _]. destruct (from_base32_exact body) as [H32 _].
  destruct (eq_ignore_ascii_case kind (bytes_of "btih")).
  { destruct (len body =? 40); [by apply bind_returns|]. destruct (len body =? 32); [by apply bind_returns|done]. }
  destruct (eq_ignore_ascii_case kind _); [|done]. unfold from_magnet_multihash.
  destruct (strip_prefix _ body) as [d|]; [|done]. destruct (from_hex_returns d) as [_ H2]. by destruct (v2_from_hex d).
Qed.

Lemma parse_select_only_returns value sel : returns (parse_select_only value sel).
Proof.
  unfold parse_select_only. apply bind_returns; [auto|intros _ _]. apply try_fold_returns. intros b t _.
  unfold select_term. apply bind_returns; [auto|intros _ _]. apply bind_returns.
  - assert (forall v, returns (parse_select_only_index v)) as Hi by (intros v; unfold parse_select_only_index; returns_tac).
    unfold parse_term. destruct (split_once "-" t) as [[x y]|]; [destruct (negb _)|]; try done.
    + do 2 (apply bind_returns; [apply Hi|intros ? _]). done.
    + by apply bind_returns.
  - intros [x y] _. do 3 (apply bind_returns; [auto|intros ? _]). apply try_fold_returns. intros c i _.
    unfold select_index. returns_tac.
Qed.

Lemma parse_returns s : returns (parse s).
Proof.
  unfold parse. cbv zeta. do 4 (apply bind_returns; [auto|intros ? _]). apply bind_returns.
  - apply try_fold_returns. intros [v1 v2 name trs xl wss sel peers] [key value] _. unfold read_pair.
    destruct (bool_decide _).
    { apply bind_returns; [apply parse_xt_returns|]. intros [h|h|] _; [| |done]; (apply bind_returns; [|done]);
        unfold set_unique_v1, set_unique_v2, set_unique; [by destruct v1; [case_bool_decide|]|by destruct v2; [case_bool_decide|]]. }
    do 4 (destruct (bool_decide _); [done|]).
    destruct (bool_decide _); [apply bind_returns; [apply parse_select_only_returns|done]|].
    destruct (bool_decide _); [|done]. apply bind_returns; [unfold parse_direct_peer; returns_tac|intros p _].
    apply bind_returns; [|done]. unfold add_peer. destruct (bool_decide _); [done|]. returns_tac.
  - intros f _. apply bind_returns; [by destruct (f_v1 f), (f_v2 f)|done].
Qed.

(** A magnet that parses is usable as it is: it names a torrent, its file
    selection passes the validator for exactly the torrents that have all its files
    (sorted, unique, bounded), and its direct peers pass theirs (bounded, distinct,
    with an address and a port); every text parses or is rejected as a malformed
    magnet or a bad hash, whatever the url crate does. *)
Theorem parsed_magnet_valid s m :
  parse s = Ok m ->
  identity m <> Unknown /\
  (forall n, validate_select_only_file_indices (select_only_file_indices m) n = inl ()
             <-> forall i, i ∈ select_only_file_indices m -> i < n) /\
  ascending (select_only_file_indices m) /\
  validate_direct_peers (direct_peers m) = inl () /\
  (forall s, returns (parse s) /\ err_only magnet_error (parse s)).
Proof.
  intros (H1 & H2 & H3 & H4)%parse_ok. split; [done|]. split; [intros n; by apply select_only_valid|].
  split; [done|]. split; [by apply direct_peers_valid|]. intros s'. split; [apply parse_returns|apply parse_magnet_errors].
Qed.
End valid.

(** ** What the canonical form says *)

(** [form_urlencoded::parse] as the URL standard words it: what the url crate
    documents for the pairs of a query. *)
Definition form_decode (s : text) : text :=
  from_utf8_lossy (percent_decode (map (fun b => if Byte.eqb b "+" then " " else b) s)).
Definition form_pair (seg : text) : text * text :=
  match split_once "=" seg with
  | Some (k, v) => (form_decode k, form_decode v)
  | None => (form_decode seg, [])
  end.
Definition form_parse (q : text) : list (text * text) :=
  map form_pair (List.filter (fun seg => negb (bool_decide (seg = []))) (split_byte "&" q)).

(** The characters of a canonical magnet that are not its fragment mark. *)
Definition uri_char (b : byte) : bool := (kept b || Byte.eqb b "%") && negb (Byte.eqb b "#").

(** Text that [url_encode] carries: valid UTF-8 without the three characters it
    leaves alone although they mean something else in a query. *)
Definition plain (v : text) : Prop :=
  utf8_valid v = true /\ Forall (fun b => b <> "&" /\ b <> "#" /\ b <> "+") v.

Lemma url_encode_kept v : Forall (fun b => kept b = true) v -> url_encode v = v.
Proof. apply escape_kept. Qed.

Lemma percent_decode_url v : percent_decode (url_encode v) = v.
Proof. apply percent_decode_escape, Forall_forall. by intros b _ Hb ->. Qed.

Lemma form_decode_encode v : plain v -> form_decode (url_encode v) = v.
Proof.
  intros [Hu Hp]. unfold form_decode.
  assert (map (fun b => if Byte.eqb b "+" then " " else b) (url_encode v) = url_encode v) as ->.
  { assert (Forall (fun b => negb (Byte.eqb b "+") = true) (url_encode v)) as Hf.
    { apply escape_chars; [by vm_compute|]. eapply Forall_impl; [exact Hp|]. intros b (_ & _ & Hb). left.
      by rewrite (proj2 (byte_eqb_neq b _)). }
    rewrite <- (map_id (url_encode v)) at 2. apply map_ext_Forall. eapply Forall_impl; [exact Hf|].
    intros b Hb. cbn beta in Hb |- *. destruct (Byte.eqb b "+"); done. }
  by rewrite percent_decode_url, from_utf8_lossy_valid.
Qed.

(** One term of the query. *)
Definition segment (kv : text * text) : text := kv.1 ++ ["="] ++ url_encode kv.2.
Definition known_keys : list text := map bytes_of ["xt"; "dn"; "tr"; "ws"; "so"; "x.pe"]%string.

Lemma form_pair_segment kv : kv.1 ∈ known_keys -> plain kv.2 -> form_pair (segment kv) = kv.
Proof.
  destruct kv as [k v]. cbn [fst snd]. intros Hk Hv. unfold form_pair, segment. cbn [fst snd app].
  assert (forallb (fun k => forallb (fun b => negb (Byte.eqb b "=")) k && bool_decide (form_decode k = k)) known_keys = true) as H
    by (vm_compute; reflexivity).
  rewrite forallb_forall in H. specialize (H k ltac:(by apply list_elem_of_In)). cbn beta in H.
  apply andb_true_iff in H as [H1 H2%bool_decide_eq_true_1]. rewrite split_once_first; [by rewrite H2, form_decode_encode|].
  intros Hin. rewrite forallb_forall in H1. apply list_elem_of_In, H1 in Hin. by rewrite byte_eqb_refl in Hin.
Qed.

(** ** Selections *)

Lemma dedup_ascending l : ascending l -> dedup l = l.
Proof.
  induction 1 as [|x l _ IH Hx]; [done|]. cbn [dedup]. rewrite IH. destruct l as [|y l]; [done|].
  apply Forall_cons in Hx as [Hx _]. by rewrite (proj2 (Z.eqb_neq x y)) by lia.
Qed.

Lemma sort_ascending l : ascending l -> sort_by Z.leb l = l.
Proof.
  induction 1 as [|x l _ IH Hx]; [done|]. unfold sort_by in *. cbn [foldr]. rewrite IH.
  destruct l as [|y l]; [done|]. apply Forall_cons in Hx as [Hx _]. cbn [insert_by].
  by rewrite (proj2 (Z.leb_le x y)) by lia.
Qed.

(** A run is consecutive indices, and what is left starts behind a gap. *)
Lemma run_end_spec l : forall x,
  0 <= x -> ascending (x :: l) -> Forall (fun i => i <= usize_max) l ->
  exists e, run_end x l = (e, drop (Z.to_nat (e - x)) l) /\ x <= e /\ e - x <= len l /\
    take (Z.to_nat (e - x)) l = seqZ (x + 1) (e - x).
Proof.
  induction l as [|y l IH]; intros x H0 Ha Hm; cbn [run_end].
  { exists x. rewrite Z.sub_diag. split; [done|]. split; [lia|]. by split. }
  apply StronglySorted_inv in Ha as [Ha Hx]. apply Forall_cons in Hx as [Hx _]. apply Forall_cons in Hm as [Hy Hm].
  destruct (Z.eqb_spec y (Z.min usize_max (x + 1))) as [Ey|Ey].
  - destruct (IH y ltac:(lia) Ha Hm) as (e & -> & He & Hl & Ht). exists e.
    assert (y = x + 1) as -> by lia. rewrite len_cons.
    assert (Z.to_nat (e - x) = S (Z.to_nat (e - (x + 1)))) as -> by lia. split; [done|]. split; [lia|]. split; [lia|].
    cbn [take]. rewrite Ht, (seqZ_cons (x + 1) (e - x)) by lia. f_equal. f_equal; lia.
  - exists x. rewrite Z.sub_diag. split; [done|]. split; [lia|]. split; [|done]. pose proof (len_nonneg (y :: l)). lia.
Qed.

Lemma set_insert_end l x : Forall (fun y => y < x) l -> set_insert x l = l ++ [x].
Proof.
  induction 1 as [|y l Hy _ IH]; [done|]. cbn [set_insert app].
  rewrite (proj2 (Z.ltb_ge x y)), (proj2 (Z.eqb_neq x y)) by lia. by rewrite IH.
Qed.

Lemma select_index_end sel x :
  Forall (fun y => y < x) sel -> len sel + 1 <= MAX_MAGNET_SELECT_ONLY_INDICES -> select_index sel x = Ok (sel ++ [x]).
Proof.
  intros Hs Hl. unfold select_index. cbv zeta. rewrite set_insert_end by done.
  rewrite len_app. change (len [x]) with 1. by rewrite (proj2 (Z.ltb_ge _ _)) by lia.
Qed.

Lemma select_run n : forall sel x,
  Forall (fun y => y < x) sel -> len sel + Z.of_nat n <= MAX_MAGNET_SELECT_ONLY_INDICES ->
  try_fold select_index sel (seqZ x (Z.of_nat n)) = Ok (sel ++ seqZ x (Z.of_nat n)).
Proof.
  induction n as [|n IH]; intros sel x Hs Hl; [by rewrite app_nil_r|].
  rewrite seqZ_cons by lia. cbn [try_fold]. rewrite select_index_end, bind_ret by (done || lia).
  replace (Z.pred (Z.of_nat (S n))) with (Z.of_nat n) by lia. replace (Z.succ x) with (x + 1) by lia. rewrite IH.
  - by rewrite <- app_assoc.
  - apply Forall_app. split; [eapply Forall_impl; [exact Hs|]; intros; cbn in *; lia|apply Forall_singleton; lia].
  - rewrite len_app. change (len [x]) with 1. lia.
Qed.

Lemma digits_not ds b : Forall (fun c => is_ascii_digit c = true) ds -> is_ascii_digit b = false -> b ∉ ds.
Proof. intros Hd Hb Hin. rewrite Forall_forall in Hd. specialize (Hd b Hin). congruence. Qed.

Lemma print_dec_digits n : 0 <= n <= usize_max -> Forall (fun c => is_ascii_digit c = true) (print_dec n).
Proof. intros Hn. apply print_dec_canonical. unfold u64_max, usize_max in *. lia. Qed.

Lemma print_dec_nonempty n : 0 <= n <= usize_max -> print_dec n <> [].
Proof. intros Hn. apply print_dec_canonical. unfold u64_max, usize_max in *. lia. Qed.

Lemma parse_index_print n : 0 <= n <= usize_max -> parse_select_only_index (print_dec n) = Ok n.
Proof.
  intros Hn. unfold parse_select_only_index. rewrite bool_decide_eq_false_2 by by apply print_dec_nonempty.
  rewrite (proj2 (all_digits_Forall _)) by by apply print_dec_digits. cbn [orb negb fail_if]. rewrite bind_ret.
  apply ok_or_Ok, parse_usize_Some. rewrite print_dec_value by (unfold u64_max, usize_max in *; lia). lia.
Qed.

Definition term_text (x e : Z) : text := if x =? e then print_dec x else print_dec x ++ ["-"] ++ print_dec e.

Lemma parse_term_text x e : 0 <= x <= e -> e <= usize_max -> parse_term (term_text x e) = Ok (x, e).
Proof.
  intros Hx He. unfold parse_term, term_text. destruct (Z.eqb_spec x e) as [->|Hne].
  - rewrite split_once_none by (apply digits_not; [apply print_dec_digits; lia|done]). by rewrite parse_index_print by lia.
  - cbn [app]. rewrite split_once_first by (apply digits_not; [apply print_dec_digits; lia|done]).
    assert (contains_byte "-" (print_dec e) = false) as ->; [|cbn [negb]; rewrite !parse_index_print by lia; done].
    apply not_true_iff_false. unfold contains_byte. rewrite existsb_exists. intros (c & Hin & <-%byte_eqb_eq).
    apply list_elem_of_In in Hin. revert Hin. apply digits_not; [apply print_dec_digits; lia|done].
Qed.

Lemma term_text_chars x e :
  0 <= x <= e -> e <= usize_max ->
  term_text x e <> [] /\ Forall (fun c => is_ascii_digit c = true \/ c = "-") (term_text x e).
Proof.
  intros Hx He. unfold term_text. pose proof (print_dec_nonempty x ltac:(lia)).
  assert (forall n, 0 <= n <= usize_max -> Forall (fun c => is_ascii_digit c = true \/ c = "-") (print_dec n)) as Hd.
  { intros n Hn. eapply Forall_impl; [exact (print_dec_digits n Hn)|]. by left. }
  destruct (x =? e); [split; [done|apply Hd; lia]|]. split; [by destruct (print_dec x)|].
  rewrite !Forall_app. split; [apply Hd; lia|]. split; [apply Forall_singleton; by right|apply Hd; lia].
Qed.

Lemma select_term_text sel x e :
  0 <= x <= e -> e <= usize_max -> Forall (fun y => y < x) sel ->
  len sel + (e - x + 1) <= MAX_MAGNET_SELECT_ONLY_INDICES ->
  select_term sel (term_text x e) = Ok (sel ++ seqZ x (e - x + 1)).
Proof.
  intros Hx He Hs Hl. pose proof (len_nonneg sel). destruct (term_text_chars x e Hx He) as [Hne _].
  unfold select_term. rewrite bool_decide_eq_false_2 by done. cbn [fail_if]. rewrite bind_ret, parse_term_text, bind_ret by done.
  rewrite (proj2 (Z.ltb_ge e x)) by lia. cbn [fail_if]. rewrite bind_ret.
  assert (100000 <= usize_max) by done. unfold MAX_MAGNET_SELECT_ONLY_INDICES, MAX_TORRENT_FILES in *.
  unfold checked_sub, checked_add. rewrite (proj2 (Z.leb_le x e)) by lia. cbn [mbind option_bind].
  rewrite (proj2 (Z.leb_le (e - x + 1) _)) by lia. cbn [ok_or]. rewrite bind_ret.
  rewrite (proj2 (Z.ltb_ge 100000 _)) by lia. cbn [fail_if]. rewrite bind_ret.
  pose proof (select_run (Z.to_nat (e - x + 1)) sel x Hs) as Hr. rewrite Z2Nat.id in Hr by lia. apply Hr. 
  unfold MAX_MAGNET_SELECT_ONLY_INDICES, MAX_TORRENT_FILES. lia.
Qed.

Lemma select_terms_read f : forall l sel,
  (length l <= f)%nat -> ascending (sel ++ l) -> Forall (fun i => 0 <= i <= usize_max) l ->
  len sel + len l <= MAX_MAGNET_SELECT_ONLY_INDICES ->
  Forall (fun t => t <> [] /\ Forall (fun c => is_ascii_digit c = true \/ c = "-") t) (select_terms f l) /\
  try_fold select_term sel (select_terms f l) = Ok (sel ++ l).
Proof.
  induction f as [|f IH]; intros l sel Hf Ha Hi Hl.
  { destruct l; [|cbn in Hf; lia]. cbn [select_terms try_fold]. rewrite app_nil_r. by split. }
  destruct l as [|x l]; [cbn [select_terms try_fold]; rewrite app_nil_r; by split|].
  apply Forall_cons in Hi as [Hx Hi]. rewrite len_cons in Hl. cbn [length] in Hf.
  apply StronglySorted_app in Ha as (Hsx & Hs & Hxl).
  destruct (run_end_spec l x ltac:(lia) Hxl) as (e & Er & He & Hel & Ht).
  { eapply Forall_impl; [exact Hi|]. intros; cbn in *; lia. }
  cbn [select_terms]. rewrite Er. fold (term_text x e).
  assert (x :: l = seqZ x (e - x + 1) ++ drop (Z.to_nat (e - x)) l) as El.
  { rewrite seqZ_cons by lia. replace (Z.pred (e - x + 1)) with (e - x) by lia. replace (Z.succ x) with (x + 1) by lia.
    rewrite <- Ht. cbn [app]. by rewrite take_drop. }
  assert (e <= usize_max) as Hem.
  { assert (e ∈ x :: l) as Hin. { rewrite El. apply elem_of_app. left. apply elem_of_seqZ. lia. }
    assert (Forall (fun i => 0 <= i <= usize_max) (x :: l)) as Hall by by constructor.
    rewrite Forall_forall in Hall. by apply Hall. }
  assert (Forall (fun y => y < x) sel) as Hsel.
  { apply Forall_forall. intros y Hy. apply (Hsx y x Hy). by left. }
  assert (len (drop (Z.to_nat (e - x)) l) = len l - (e - x)) as Ld by (unfold len in *; rewrite length_drop; lia).
  pose proof (len_nonneg (drop (Z.to_nat (e - x)) l)).
  destruct (IH (drop (Z.to_nat (e - x)) l) (sel ++ seqZ x (e - x + 1))) as [IH1 IH2].
  - rewrite length_drop. lia.
  - rewrite <- app_assoc, <- El. by apply StronglySorted_app.
  - by apply Forall_drop.
  - rewrite len_app. unfold len at 2. rewrite length_seqZ. lia.
  - split; [constructor; [apply term_text_chars; lia|done]|].
    cbn [try_fold]. rewrite select_term_text, bind_ret, IH2 by (done || lia). by rewrite <- app_assoc, <- El.
Qed.

Lemma ascii_plain (v : text) :
  Forall (fun b => u8 b < 128 /\ b <> "&" /\ b <> "#" /\ b <> "+") v -> plain v.
Proof.
  intros Hv. split; [apply utf8_valid_ascii|]; (eapply Forall_impl; [exact Hv|]); by intros b (? & ? & ? & ?).
Qed.

(** Any text of digits, letters and a few marks is plain. *)
Lemma plain_by (P : byte -> bool) v :
  forallb (fun b => negb (P b) || ((u8 b <? 128) && negb (Byte.eqb b "&" || Byte.eqb b "#" || Byte.eqb b "+"))) all_bytes = true ->
  Forall (fun b => P b = true) v -> plain v.
Proof.
  intros HP Hv. apply ascii_plain. eapply Forall_impl; [exact Hv|]. intros b Hb. cbn beta in Hb.
  apply (fun H => byte_check _ H b) in HP. cbn beta in HP. rewrite Hb in HP. cbn [negb orb] in HP.
  apply andb_true_iff in HP as [H1 H2]. rewrite !negb_orb in H2.
  apply andb_true_iff in H2 as [[H2%negb_true_iff H3%negb_true_iff]%andb_true_iff H4%negb_true_iff].
  split; [lia|]. split; [|split]; by apply byte_eqb_neq.
Qed.

Lemma selection_roundtrip l :
  l <> [] -> ascending l -> Forall (fun i => 0 <= i <= usize_max) l -> len l <= MAX_MAGNET_SELECT_ONLY_INDICES ->
  plain (format_select_only l) /\ parse_select_only (format_select_only l) [] = Ok l.
Proof.
  intros Hne Ha Hi Hl. unfold format_select_only. rewrite sort_ascending, dedup_ascending by done. cbv zeta.
  destruct (select_terms_read (length l) l [] ltac:(done) Ha Hi ltac:(change (len []) with 0; lia)) as [Ht Hr].
  assert (select_terms (length l) l <> []) as Hn.
  { destruct l as [|x l]; [done|]. cbn [length select_terms]. by destruct (run_end x l). }
  assert (Forall (fun c => (is_ascii_digit c || Byte.eqb c "-" || Byte.eqb c ",") = true) (join [","] (select_terms (length l) l))) as Hc.
  { apply join_Forall; [by apply Forall_singleton|]. eapply Forall_impl; [exact Ht|]. intros t [_ Hd].
    eapply Forall_impl; [exact Hd|]. intros c [Hc|Hc]; cbn beta; rewrite Hc; [done|by rewrite byte_eqb_refl, orb_true_r]. }
  split; [refine (plain_by _ _ _ Hc); vm_compute; reflexivity|].
  unfold parse_select_only. rewrite bool_decide_eq_false_2.
  2: { apply join_nonempty; [done|]. eapply Forall_impl; [exact Ht|]. by intros t [? _]. }
  cbn [fail_if]. rewrite bind_ret, split_byte_join; [exact Hr|done|].
  eapply Forall_impl; [exact Ht|]. intros t [_ Hd] Hin. rewrite Forall_forall in Hd.
  destruct (Hd _ Hin) as [E|E]; by vm_compute in E.
Qed.

(** ** The round trip *)

(** A loop that appends one term per element. *)
Lemma append_terms {A} (key : text) (value : A -> text) (l : list A) : forall segs pre,
  segs <> [] ->
  foldl (fun s a => s ++ ("&" :: key ++ ["="]) ++ url_encode (value a)) (pre ++ join ["&"] segs) l
  = pre ++ join ["&"] (segs ++ map (fun a => segment (key, value a)) l).
Proof.
  induction l as [|a l IH]; intros segs pre Hne; cbn [foldl map]; [by rewrite app_nil_r|].
  assert ((pre ++ join ["&"] segs) ++ ("&" :: key ++ ["="]) ++ url_encode (value a)
    = pre ++ join ["&"] (segs ++ [segment (key, value a)])) as ->.
  { rewrite join_snoc by done. unfold segment. cbn [fst snd app]. by rewrite <- !app_assoc. }
  rewrite IH by (by destruct segs). by rewrite <- app_assoc.
Qed.

Definition keyed (key : string) (values : list text) : list (text * text) := map (fun v => (bytes_of key, v)) values.

Section roundtrip.
Context {D : Digests} {X : HexCodec}.
Variable url_parse : text -> option ParsedUrl.
(** The url crate documents that an opaque query is kept as it is when it has only
    characters a query may have, and gives its form pairs; the hex crate that it
    writes letters and digits. *)
Hypothesis url_parse_magnet : forall q,
  Forall (fun b => uri_char b = true) q ->
  url_parse (bytes_of "magnet:?" ++ q) = Some (mkUrl (bytes_of "magnet") (Some q) (form_parse q)).
Hypothesis hex_encode_alnum : forall b, Forall (fun c => is_ascii_alphanumeric c = true) (hex_encode b).
Abbreviation parse := (parse url_parse).

(** The pairs of a canonical magnet, in its order. *)
Definition topic_pairs (i : TorrentIdentity) : list (text * text) :=
  match v1_info_hash i with Some v1 => [(bytes_of "xt", bytes_of "urn:btih:" ++ to_hex v1)] | None => [] end
  ++ match v2_info_hash i with Some v2 => [(bytes_of "xt", bytes_of "urn:btmh:" ++ to_magnet_multihash v2)] | None => [] end.
Definition uri_pairs (m : Magnet) : list (text * text) :=
  topic_pairs (identity m)
  ++ keyed "dn" (match display_name m with Some name => [name] | None => [] end)
  ++ keyed "so" (match select_only_file_indices m with [] => [] | l => [format_select_only l] end)
  ++ keyed "tr" (trackers m) ++ keyed "ws" (webseeds m) ++ keyed "x.pe" (map fmt_socket_addr (direct_peers m)).

Definition peer_text (p : MagnetDirectPeer) : Prop :=
  parse_socket_addr (fmt_socket_addr p) = Some p /\ plain (fmt_socket_addr p).

(** Magnets whose canonical form keeps everything. *)
Record canonical_magnet (m : Magnet) : Prop := {
  has_identity : identity m <> Unknown;
  plain_name : forall name, display_name m = Some name -> plain name;
  plain_trackers : Forall plain (trackers m);
  plain_webseeds : Forall plain (webseeds m);
  selection_sorted : ascending (select_only_file_indices m);
  selection_range : Forall (fun i => 0 <= i <= usize_max) (select_only_file_indices m);
  selection_len : len (select_only_file_indices m) <= MAX_MAGNET_SELECT_ONLY_INDICES;
  peers_valid : peers_ok (direct_peers m);
  peers_text : Forall peer_text (direct_peers m) }.

Lemma alnum_kept v : Forall (fun c => is_ascii_alphanumeric c = true) v -> Forall (fun b => kept b = true) v.
Proof. intros H. eapply Forall_impl; [exact H|]. intros b Hb. cbn beta in *. unfold kept. by rewrite Hb. Qed.

Lemma topic_value_kept p (s : text) :
  Forall (fun b => kept b = true) p -> url_encode (p ++ hex_encode s) = p ++ hex_encode s.
Proof. intros Hp. apply url_encode_kept, Forall_app. split; [done|by apply alnum_kept]. Qed.

Lemma literal_kept (s : string) : forallb kept (bytes_of s) = true -> Forall (fun b => kept b = true) (bytes_of s).
Proof. intros H. apply Forall_forall. intros b Hb. rewrite forallb_forall in H. by apply H, list_elem_of_In. Qed.

Lemma to_uri_text m :
  identity m <> Unknown -> to_uri m = bytes_of "magnet:?" ++ join ["&"] (map segment (uri_pairs m)).
Proof.
  intros Hi. unfold to_uri. cbv zeta. unfold magnet_v1_info_hash, magnet_v2_info_hash.
  set (topics := match v1_info_hash (identity m) with Some _ => _ | None => _ end ++ _).
  assert (topics = map segment (topic_pairs (identity m))) as ->.
  { assert (forall v1 : InfoHash, bytes_of "xt=urn:btih:" ++ to_hex v1 = segment (bytes_of "xt", bytes_of "urn:btih:" ++ to_hex v1)) as H1.
    { intros v1. unfold segment, to_hex. cbn [fst snd]. rewrite topic_value_kept by by apply literal_kept. done. }
    assert (forall v2 : V2InfoHash, bytes_of "xt=urn:btmh:" ++ to_magnet_multihash v2
      = segment (bytes_of "xt", bytes_of "urn:btmh:" ++ to_magnet_multihash v2)) as H2.
    { intros v2. unfold segment, to_magnet_multihash, to_hex. cbn [fst snd]. rewrite url_encode_kept; [done|].
      rewrite !Forall_app. split; [by apply literal_kept|]. split; [by apply literal_kept|by apply alnum_kept]. }
    subst topics. unfold topic_pairs. destruct (v1_info_hash (identity m)), (v2_info_hash (identity m)); cbn [app map]; by rewrite ?H1, ?H2. }
  assert (map segment (topic_pairs (identity m)) <> []) as Hne by (by destruct (identity m)).
  unfold uri_pairs. generalize dependent (topic_pairs (identity m)). intros tp Hne.
  rewrite !map_app, !app_assoc.
  assert (forall key values, map segment (keyed key values) = map (fun v => segment (bytes_of key, v)) values) as Hk.
  { intros key values. unfold keyed. by rewrite map_map. }
  rewrite !Hk. rewrite (map_map fmt_socket_addr).
  assert (forall (s : text) segs o, segs <> [] ->
    match o with Some name => (s ++ join ["&"] segs) ++ bytes_of "&dn=" ++ url_encode name | None => s ++ join ["&"] segs end
    = s ++ join ["&"] (segs ++ map (fun v => segment (bytes_of "dn", v)) (match o with Some name => [name] | None => [] end))) as Hdn.
  { intros s segs o Hs. destruct o as [name|]; [|by rewrite app_nil_r].
    exact (append_terms (bytes_of "dn") (fun n => n) [name] segs s Hs). }
  rewrite Hdn by done. clear Hdn. set (segs := map segment tp ++ _).
  assert (segs <> []) as Hs by (subst segs; by destruct (map segment tp)). clearbody segs. clear Hne.
  assert (forall (s : text) l,
    match l with [] => s ++ join ["&"] segs | indices => (s ++ join ["&"] segs) ++ bytes_of "&so=" ++ url_encode (format_select_only indices) end
    = s ++ join ["&"] (segs ++ map (fun v => segment (bytes_of "so", v)) (match l with [] => [] | l => [format_select_only l] end))) as Hso.
  { intros s l. destruct l as [|x l]; [by rewrite app_nil_r|].
    exact (append_terms (bytes_of "so") (fun n => n) [format_select_only (x :: l)] segs s Hs). }
  pose proof (append_terms (bytes_of "tr") (fun n => n) (trackers m)) as Htr.
  pose proof (append_terms (bytes_of "ws") (fun n => n) (webseeds m)) as Hws.
  pose proof (append_terms (bytes_of "x.pe") fmt_socket_addr (direct_peers m)) as Hpe.
  assert (forall p, socket_addr p = p) as Hp by (by intros []).
  assert (forall l s, foldl (fun s p => s ++ bytes_of "&x.pe=" ++ url_encode (fmt_socket_addr (socket_addr p))) s l
    = foldl (fun s a => s ++ ("&" :: bytes_of "x.pe" ++ ["="]) ++ url_encode (fmt_socket_addr a)) s l) as ->.
  { induction l as [|p l IH]; intros s; [done|]. cbn [foldl]. by rewrite Hp, IH. }
  specialize (Hso (bytes_of "magnet:?") (select_only_file_indices m)).
  assert (forall segs' s, segs' <> [] -> s = bytes_of "magnet:?" ++ join ["&"] segs' ->
    foldl (fun s a => s ++ ("&" :: bytes_of "x.pe" ++ ["="]) ++ url_encode (fmt_socket_addr a))
      (foldl (fun s ws => s ++ bytes_of "&ws=" ++ url_encode ws)
        (foldl (fun s tr => s ++ bytes_of "&tr=" ++ url_encode tr) s (trackers m)) (webseeds m)) (direct_peers m)
    = bytes_of "magnet:?" ++ join ["&"] (((segs' ++ map (fun v => segment (bytes_of "tr", v)) (trackers m))
        ++ map (fun v => segment (bytes_of "ws", v)) (webseeds m))
        ++ map (fun a => segment (bytes_of "x.pe", fmt_socket_addr a)) (direct_peers m))) as Hend.
  { intros segs' s Hs' ->. rewrite <- Hpe by by destruct segs'. f_equal. rewrite <- Hws by by destruct segs'. f_equal.
    by rewrite <- Htr. }
  destruct (select_only_file_indices m) as [|x l]; (apply Hend; [by destruct segs|exact Hso]).
Qed.
(** The pairs are known keys with plain values. *)
Definition good_pair (kv : text * text) : Prop := kv.1 ∈ known_keys /\ plain kv.2.

Lemma keyed_good key values : bytes_of key ∈ known_keys -> Forall plain values -> Forall good_pair (keyed key values).
Proof. intros Hk Hv. apply Forall_forall. intros kv (v & -> & Hin)%list_elem_of_fmap. rewrite Forall_forall in Hv. by split; [|apply Hv]. Qed.

Lemma alnum_mark_plain v :
  Forall (fun b => (is_ascii_alphanumeric b || Byte.eqb b ":") = true) v -> plain v.
Proof. intros Hv. refine (plain_by _ _ _ Hv). vm_compute. reflexivity. Qed.

Lemma topic_good i : Forall good_pair (topic_pairs i).
Proof.
  assert (forall (p s : text), Forall (fun b => (is_ascii_alphanumeric b || Byte.eqb b ":") = true) p ->
    good_pair (bytes_of "xt", p ++ hex_encode s)) as H.
  { intros p s Hp. split; [by apply (bool_decide_eq_true_1 (_ ∈ known_keys))|]. apply alnum_mark_plain, Forall_app. split; [done|].
    eapply Forall_impl; [exact (hex_encode_alnum s)|]. intros b Hb. cbn beta in *. by rewrite Hb. }
  unfold topic_pairs. apply Forall_app. split.
  - destruct (v1_info_hash i) as [v1|]; [|done]. apply Forall_singleton, H. by repeat constructor.
  - destruct (v2_info_hash i) as [v2|]; [|done]. apply Forall_singleton. unfold to_magnet_multihash, to_hex. rewrite app_assoc.
    apply H. by repeat constructor.
Qed.

Lemma uri_pairs_good m : canonical_magnet m -> Forall good_pair (uri_pairs m).
Proof.
  intros [H1 H2 H3 H4 H5 H6 H7 H8 H9]. unfold uri_pairs. rewrite !Forall_app.
  split; [apply topic_good|].
  split; [apply keyed_good; [by apply (bool_decide_eq_true_1 (_ ∈ known_keys))|]|].
  { destruct (display_name m) as [n|]; [|done]. by apply Forall_singleton, H2. }
  split; [apply keyed_good; [by apply (bool_decide_eq_true_1 (_ ∈ known_keys))|]|].
  { destruct (select_only_file_indices m) as [|x l]; [done|]. apply Forall_singleton. by apply selection_roundtrip. }
  split; [by apply keyed_good; [apply (bool_decide_eq_true_1 (_ ∈ known_keys))|]|].
  split; [by apply keyed_good; [apply (bool_decide_eq_true_1 (_ ∈ known_keys))|]|].
  apply keyed_good; [by apply (bool_decide_eq_true_1 (_ ∈ known_keys))|].
  apply Forall_forall. intros t (p & -> & Hp)%list_elem_of_fmap. rewrite Forall_forall in H9. by apply H9.
Qed.

Lemma known_key_chars k : k ∈ known_keys -> k <> [] /\ Forall (fun b => (is_ascii_alphanumeric b || Byte.eqb b ".") = true) k.
Proof.
  intros Hk. assert (forallb (fun k => negb (bool_decide (k = [])) && forallb (fun b => is_ascii_alphanumeric b || Byte.eqb b ".") k) known_keys = true) as H
    by (vm_compute; reflexivity).
  rewrite forallb_forall in H. specialize (H k ltac:(by apply list_elem_of_In)). cbn beta in H.
  apply andb_true_iff in H as [H1 H2]. split; [by intros ->|]. apply Forall_forall. intros b Hb.
  rewrite forallb_forall in H2. by apply H2, list_elem_of_In.
Qed.

(** A segment has the characters of a query and no separator. *)
Lemma segment_chars kv : good_pair kv -> Forall (fun b => (uri_char b && negb (Byte.eqb b "&")) = true) (segment kv).
Proof.
  intros [Hk [_ Hp]]. destruct (known_key_chars kv.1 Hk) as [_ Hc]. unfold segment. rewrite !Forall_app. split; [|split].
  - eapply Forall_impl; [exact Hc|]. intros b Hb. cbn beta in *.
    assert (forallb (fun b => negb (is_ascii_alphanumeric b || Byte.eqb b ".") || (uri_char b && negb (Byte.eqb b "&"))) all_bytes = true) as H
      by (vm_compute; reflexivity).
    apply (fun H => byte_check _ H b) in H. cbn beta in H. by rewrite Hb in H.
  - by apply Forall_singleton.
  - apply escape_chars; [vm_compute; reflexivity|]. eapply Forall_impl; [exact Hp|]. intros b (H1 & H2 & _). cbn beta.
    destruct (kept b) eqn:E; [left|by right]. unfold uri_char. rewrite E.
    by rewrite (proj2 (byte_eqb_neq b "#")), (proj2 (byte_eqb_neq b "&")) by done.
Qed.

Lemma uri_query_chars ps : Forall good_pair ps -> Forall (fun b => uri_char b = true) (join ["&"] (map segment ps)).
Proof.
  intros Hp. apply join_Forall; [by apply Forall_singleton|]. apply Forall_forall. intros t (kv & -> & Hin)%list_elem_of_fmap.
  rewrite Forall_forall in Hp. eapply Forall_impl; [exact (segment_chars kv (Hp kv Hin))|].
  intros b Hb. cbn beta in *. by apply andb_true_iff in Hb as [Hb _].
Qed.

Lemma form_parse_segments ps :
  ps <> [] -> Forall good_pair ps -> form_parse (join ["&"] (map segment ps)) = ps.
Proof.
  intros Hne Hp. unfold form_parse. rewrite split_byte_join.
  - clear Hne. induction Hp as [|kv ps [Hk Hv] _ IH]; [done|]. cbn [map List.filter].
    rewrite bool_decide_eq_false_2.
    + cbn [negb map]. by rewrite form_pair_segment, IH.
    + unfold segment. destruct (known_key_chars kv.1 Hk) as [Hn _]. by destruct kv.1.
  - by destruct ps.
  - apply Forall_forall. intros t (kv & -> & Hin)%list_elem_of_fmap Hc. rewrite Forall_forall in Hp.
    pose proof (segment_chars kv (Hp kv Hin)) as Hs. rewrite Forall_forall in Hs. specialize (Hs _ Hc). by vm_compute in Hs.
Qed.

Lemma to_uri_trim q : Forall (fun b => uri_char b = true) q -> trim (bytes_of "magnet:?" ++ q) = bytes_of "magnet:?" ++ q.
Proof.
  intros Hq. assert (Forall (fun b => in_range 33 126 b = true) (bytes_of "magnet:?" ++ q)) as Hg.
  { apply Forall_app. split; [by repeat constructor|]. eapply Forall_impl; [exact Hq|]. intros b Hb. cbn beta in *.
    assert (forallb (fun b => negb (uri_char b) || in_range 33 126 b) all_bytes = true) as H by (vm_compute; reflexivity).
    apply (fun H => byte_check _ H b) in H. cbn beta in H. by rewrite Hb in H. }
  set (s := bytes_of "magnet:?" ++ q) in *.
  assert (List.last s x00 ∈ s) as Hl.
  { assert (s <> []) as Hne by done. rewrite (app_removelast_last x00 Hne) at 2. set_solver. }
  apply (trim_graphic s "m" (List.last s x00) (tail s)); [done|done|done|].
  rewrite Forall_forall in Hg. specialize (Hg _ Hl). unfold in_range in Hg. lia.
Qed.
(** Reading the pairs back, one kind after the other. *)
Lemma split_literal (s : string) v : ":" ∉ bytes_of s -> split_once ":" (bytes_of s ++ ":" :: v) = Some (bytes_of s, v).
Proof. apply split_once_first. Qed.

Lemma parse_xt_btih (h : InfoHash) : parse_xt (bytes_of "urn:btih:" ++ to_hex h) = Ok (TopicV1 h).
Proof.
  unfold parse_xt. change (bytes_of "urn:btih:" ++ to_hex h) with (bytes_of "urn" ++ ":" :: (bytes_of "btih" ++ ":" :: to_hex h)).
  do 2 (rewrite split_literal by by apply (bool_decide_eq_true_1 (_ ∉ _))). change (eq_ignore_ascii_case (bytes_of "urn") (bytes_of "urn")) with true.
  change (eq_ignore_ascii_case (bytes_of "btih") (bytes_of "btih")) with true. cbn [negb].
  rewrite len_to_hex. change (2 * Z.of_nat 20 =? 40) with true. cbn iota. by rewrite from_hex_to_hex.
Qed.

Lemma parse_xt_btmh (h : V2InfoHash) : parse_xt (bytes_of "urn:btmh:" ++ to_magnet_multihash h) = Ok (TopicV2 h).
Proof.
  unfold parse_xt. change (bytes_of "urn:btmh:" ++ to_magnet_multihash h)
    with (bytes_of "urn" ++ ":" :: (bytes_of "btmh" ++ ":" :: to_magnet_multihash h)).
  do 2 (rewrite split_literal by by apply (bool_decide_eq_true_1 (_ ∉ _))). change (eq_ignore_ascii_case (bytes_of "urn") (bytes_of "urn")) with true.
  change (eq_ignore_ascii_case (bytes_of "btmh") (bytes_of "btih")) with false.
  change (eq_ignore_ascii_case (bytes_of "btmh") (bytes_of "btmh")) with true. cbn [negb].
  unfold from_magnet_multihash, to_magnet_multihash.
  assert (forall p s, strip_prefix p (p ++ s) = Some s) as ->.
  { induction p as [|b p IH]; intros s; cbn [strip_prefix app]; [done|]. by rewrite byte_eqb_refl. }
  by rewrite v2_from_hex_to_hex.
Qed.

Lemma read_xt v1 v2 name trs xl wss sel peers value :
  read_pair (mkFields v1 v2 name trs xl wss sel peers) (bytes_of "xt", value)
  = (topic ← parse_xt value;
     match topic with
     | TopicV1 hash => v1 ← set_unique_v1 v1 hash; Ok (mkFields v1 v2 name trs xl wss sel peers)
     | TopicV2 hash => v2 ← set_unique_v2 v2 hash; Ok (mkFields v1 v2 name trs xl wss sel peers)
     | Other => Ok (mkFields v1 v2 name trs xl wss sel peers)
     end).
Proof. done. Qed.

Lemma read_topics i :
  i <> Unknown ->
  try_fold read_pair no_fields (topic_pairs i)
  = Ok (mkFields (v1_info_hash i) (v2_info_hash i) None [] None [] [] []).
Proof.
  intros Hi. unfold topic_pairs, no_fields. destruct i as [|w1|w2|w1 w2]; [done|..]; cbn [v1_info_hash v2_info_hash app try_fold].
  - by rewrite read_xt, parse_xt_btih.
  - by rewrite read_xt, parse_xt_btmh.
  - rewrite read_xt, parse_xt_btih, bind_ret. change (set_unique_v1 None w1) with (Ok (Some w1)). rewrite !bind_ret.
    by rewrite read_xt, parse_xt_btmh.
Qed.

Lemma read_lists v1 v2 name xl sel : forall trs wss peers ps,
  Forall peer_text ps -> peers_ok (peers ++ ps) ->
  forall values values',
  try_fold read_pair (mkFields v1 v2 name trs xl wss sel peers)
    (keyed "tr" values ++ keyed "ws" values' ++ keyed "x.pe" (map fmt_socket_addr ps))
  = Ok (mkFields v1 v2 name (trs ++ values) xl (wss ++ values') sel (peers ++ ps)).
Proof.
  intros trs wss peers ps Hps Hok values. revert trs. induction values as [|v values IH]; intros trs values'; cbn [keyed map app].
  2: { cbn [try_fold]. change (read_pair _ _) with (Ok (mkFields v1 v2 name (trs ++ [v]) xl wss sel peers)).
       rewrite bind_ret. fold (keyed "tr" values). rewrite IH. by rewrite <- app_assoc. }
  rewrite app_nil_r. revert wss. induction values' as [|v values' IH]; intros wss; cbn [keyed map app].
  2: { cbn [try_fold]. change (read_pair _ _) with (Ok (mkFields v1 v2 name trs xl (wss ++ [v]) sel peers)).
       rewrite bind_ret. fold (keyed "ws" values'). rewrite IH. by rewrite <- app_assoc. }
  rewrite app_nil_r. revert peers Hok. induction Hps as [|p ps [Hp _] _ IH]; intros peers (Hl & Hn & Hf); cbn [keyed map try_fold].
  { by rewrite app_nil_r. }
  apply Forall_app in Hf as [Hf [Hz Hf']%Forall_cons]. destruct Hz as [Hz Hu].
  change (read_pair (mkFields v1 v2 name trs xl wss sel peers) (bytes_of "x.pe", fmt_socket_addr p))
    with (peer ← parse_direct_peer (fmt_socket_addr p); peers ← add_peer peers peer; Ok (mkFields v1 v2 name trs xl wss sel peers)).
  unfold parse_direct_peer. rewrite Hp. cbn [ok_or]. rewrite bind_ret, (proj2 (Z.eqb_neq _ _)), Hu by done. cbn [orb fail_if].
  rewrite !bind_ret. assert (mkSocketAddr (ip p) (port p) = p) as -> by by destruct p.
  apply NoDup_app in Hn as (Hn1 & Hn2 & Hn3). unfold add_peer. rewrite bool_decide_eq_false_2.
  2: { intros Hin. apply (Hn2 p Hin). by left. }
  rewrite len_app, len_cons in Hl. pose proof (len_nonneg ps). rewrite (proj2 (Z.eqb_neq _ _)) by lia. cbn [fail_if].
  rewrite !bind_ret. fold (keyed "x.pe" (map fmt_socket_addr ps)). rewrite IH; [by rewrite <- app_assoc|].
  rewrite <- app_assoc. cbn [app]. split; [rewrite len_app, len_cons; lia|]. split.
  - by apply NoDup_app.
  - apply Forall_app. split; [done|]. by constructor.
Qed.

Lemma read_uri_pairs m :
  canonical_magnet m ->
  try_fold read_pair no_fields (uri_pairs m)
  = Ok (mkFields (v1_info_hash (identity m)) (v2_info_hash (identity m)) (display_name m) (trackers m) None (webseeds m)
          (select_only_file_indices m) (direct_peers m)).
Proof.
  intros [H1 H2 H3 H4 H5 H6 H7 H8 H9]. unfold uri_pairs. rewrite try_fold_app, read_topics, bind_ret by done.
  set (v1 := v1_info_hash _). set (v2 := v2_info_hash _).
  rewrite try_fold_app. replace (try_fold read_pair (mkFields v1 v2 None [] None [] [] []) _)
    with (Ok (mkFields v1 v2 (display_name m) [] None [] [] [])) by by destruct (display_name m).
  rewrite bind_ret, try_fold_app.
  replace (try_fold read_pair (mkFields v1 v2 (display_name m) [] None [] [] []) _)
    with (Ok (mkFields v1 v2 (display_name m) [] None [] (select_only_file_indices m) [])).
  2: { destruct (select_only_file_indices m) as [|x l] eqn:E; [done|]. cbn [keyed map try_fold].
       change (read_pair ?f (bytes_of "so", ?v)) with (sel ← parse_select_only v []; Ok (mkFields v1 v2 (display_name m) [] None [] sel [])).
       destruct (selection_roundtrip (x :: l)) as [_ ->]; done. }
  rewrite bind_ret. by apply (read_lists v1 v2 (display_name m) None (select_only_file_indices m) [] [] [] (direct_peers m)).
Qed.

(** C40: for a magnet whose name and URLs are UTF-8 without ampersand, number sign or
    plus (which [url_encode] leaves alone), with an identity, a sorted selection in range
    and valid peers, the canonical form parses back to the magnet: identity, name,
    trackers, web seeds, file selection and direct peers survive, and the exact length,
    which is not written, is lost. *)
Theorem magnet_roundtrip m :
  canonical_magnet m ->
  parse (to_uri m)
  = Ok (mkMagnet (identity m) (display_name m) (trackers m) None (webseeds m) (select_only_file_indices m)
          (direct_peers m) (to_uri m)).
Proof.
  intros Hm. pose proof (uri_pairs_good m Hm) as Hg. pose proof (read_uri_pairs m Hm) as Hr.
  pose proof (has_identity m Hm) as Hi. assert (uri_pairs m <> []) as Hne by (unfold uri_pairs; by destruct (identity m)).
  rewrite to_uri_text by done. set (q := join ["&"] (map segment (uri_pairs m))).
  assert (Forall (fun b => uri_char b = true) q) as Hq by by apply uri_query_chars.
  unfold parse. cbv zeta. rewrite to_uri_trim by done. rewrite bool_decide_eq_false_2 by done. cbn [fail_if].
  rewrite bind_ret, url_parse_magnet by done. cbn [ok_or]. rewrite bind_ret. cbn [scheme query query_pairs].
  change (eq_ignore_ascii_case (bytes_of "magnet") (bytes_of "magnet")) with true. cbn [negb fail_if ok_or]. rewrite !bind_ret.
  subst q. rewrite form_parse_segments, Hr, bind_ret by done. cbn [f_v1 f_v2 f_name f_trackers f_length f_webseeds f_selected f_peers].
  by destruct (identity m).
Qed.
End roundtrip.

(** The canonical form of a magnet is not faithful to names with an ampersand:
    a display name that contains [&tr=] is written as if the text after it were a
    tracker, so the URI is the one of a magnet with another name and one more
    tracker. *)
Theorem name_injects_tracker {D : Digests} {X : HexCodec} i a b trs xl wss peers r :
  to_uri (mkMagnet i (Some (a ++ bytes_of "&tr=" ++ b)) trs xl wss [] peers r)
  = to_uri (mkMagnet i (Some a) (b :: trs) xl wss [] peers r).
Proof.
  unfold to_uri. cbv zeta. cbn [display_name trackers webseeds select_only_file_indices direct_peers foldl].
  unfold magnet_v1_info_hash, magnet_v2_info_hash. cbn [identity]. do 3 f_equal.
  unfold url_encode. rewrite !escape_app. change (escape_with kept (bytes_of "&tr=")) with (bytes_of "&tr="). by rewrite <- !app_assoc.
Qed.

(** ** Instances *)

(** A url crate that knows magnets only. *)
Definition magnet_urls (s : text) : option ParsedUrl :=
  q ← strip_prefix (bytes_of "magnet:?") s; Some (mkUrl (bytes_of "magnet") (Some q) (form_parse q)).

Lemma plain_hex_alnum b : Forall (fun c => is_ascii_alphanumeric c = true) (@hex_encode plain_hex b).
Proof.
  change (Forall (fun c => is_ascii_alphanumeric c = true) (encode_hex b)). unfold encode_hex.
  induction b as [|x b IH]; [constructor|]. cbn [map concat]. apply Forall_app. split; [|done].
  assert (forallb (fun x => forallb is_ascii_alphanumeric [nibble (u8 x / 16); nibble (u8 x mod 16)]) all_bytes = true) as H
    by (vm_compute; reflexivity).
  apply (fun H => byte_check _ H x) in H. cbn beta in H. apply Forall_forall. intros c Hc.
  rewrite forallb_forall in H. by apply H, list_elem_of_In.
Qed.

Definition example_magnet : Magnet :=
  mkMagnet (Hybrid (@sha1 toy_digests [xab]) (@sha256 toy_digests [xcd])) (Some (bytes_of "100% free")) [bytes_of "http://t/a?k=1"]
    None [] [1; 2; 3; 9] [mkSocketAddr (V4 168296450) 6881] [].

Lemma magnet_roundtrip_witness :
  canonical_magnet example_magnet /\
  exists m, parse (X := plain_hex) magnet_urls (to_uri (X := plain_hex) example_magnet) = Ok m /\
    identity m = identity example_magnet /\ select_only_file_indices m = [1; 2; 3; 9].
Proof.
  assert (canonical_magnet example_magnet) as Hm.
  { split; cbn; try done.
    - intros n [= <-]. split; [done|]. by repeat (apply Forall_cons; split).
    - apply Forall_singleton. split; [done|]. by repeat (apply Forall_cons; split).
    - by repeat constructor.
    - by repeat (apply Forall_cons; split).
    - split; [done|]. split; [apply NoDup_singleton|by apply Forall_singleton].
    - apply Forall_singleton. split; [reflexivity|]. split; [done|]. by repeat (apply Forall_cons; split). }
  split; [exact Hm|].
  pose proof (@magnet_roundtrip plain_hex magnet_urls ltac:(intros q _; reflexivity) plain_hex_alnum example_magnet Hm) as H.
  eexists. split; [exact H|]. by split.
Defined.

Lemma parsed_magnet_valid_witness :
  exists m, parse (X := plain_hex) magnet_urls (to_uri (X := plain_hex) example_magnet) = Ok m /\ identity m <> Unknown /\
    validate_select_only_file_indices (select_only_file_indices m) 10 = inl () /\ validate_direct_peers (direct_peers m) = inl ().
Proof.
  set (m := match parse (X := plain_hex) magnet_urls (to_uri (X := plain_hex) example_magnet) with Ok m => m | _ => example_magnet end).
  assert (parse (X := plain_hex) magnet_urls (to_uri (X := plain_hex) example_magnet) = Ok m) as E by (vm_compute; reflexivity).
  destruct (@parsed_magnet_valid plain_hex magnet_urls _ m E) as (H1 & H2 & _ & H3 & _).
  exists m. split; [exact E|]. split; [exact H1|]. split; [|exact H3]. apply H2. intros i.
  change (select_only_file_indices m) with [1; 2; 3; 9]. rewrite !elem_of_cons, elem_of_nil. lia.
Defined.
