(* ===== verification/Queue.v ===== *)
(** * Queue: [crates/swarmotter-core/src/queue.rs]

    The download queue: an ordered list of torrent keys, the list of keys that
    bypass it, and the hash sets and index map the code caches beside them.
    [QueueState] has the five fields; every method is a definition.  The
    specification is the pair of lists alone ([view]): [step_refines] shows that
    in a synchronised state every operation acts on the lists as [spec_step]
    says, leaves the caches synchronised and never indexes out of range. *)

From S2P Require Import Prelude.

(** ** Data *)

(** Positions are [usize] values below the length of a [Vec]; they are [nat]
    here, and no position arithmetic can leave that range. *)
Record QueueLimits : Type := mkLimits {
  max_active_downloads : nat;
  max_active_metadata_fetches : nat;
  max_active_seeds : nat;
  auto_start : bool }.

Definition default_max_active_downloads : nat := 5.
Definition default_max_active_metadata_fetches : nat := 100.
Definition default_max_active_seeds : nat := 5.
Definition default_auto_start : bool := true.
Definition default_limits : QueueLimits :=
  mkLimits default_max_active_downloads default_max_active_metadata_fetches
    default_max_active_seeds default_auto_start.

Record QueueMembershipSnapshot : Type := mkSnapshot {
  snap_order_index : option nat;
  snap_bypass_index : option nat }.

(** ** [Vec] operations that panic out of range *)

Definition vec_swap {A} (l : list A) (i j : nat) : outcome (list A) :=
  match l !! i, l !! j with
  | Some a, Some b => Ok (<[i := b]> (<[j := a]> l))
  | _, _ => Panic
  end.
Definition vec_index {A} (l : list A) (i : nat) : outcome A :=
  match l !! i with Some a => Ok a | None => Panic end.
Definition vec_remove {A} (l : list A) (i : nat) : outcome (A * list A) :=
  match l !! i with Some a => Ok (a, delete i l) | None => Panic end.
Definition vec_insert {A} (l : list A) (i : nat) (a : A) : outcome (list A) :=
  if (i <=? length l)%nat then Ok (take i l ++ a :: drop i l) else Panic.

(** [iter().position(|c| c == key)]. *)
Fixpoint find_index {A} `{EqDecision A} (k : A) (l : list A) : option nat :=
  match l with
  | [] => None
  | a :: l' => if decide (a = k) then Some 0%nat else S <$> find_index k l'
  end.

Section queue.
Context {K : Type} `{Countable K}.
Implicit Types (k : K) (l o b : list K) (ks : list K).

Record QueueState : Type := mkQueue {
  limits : QueueLimits;
  order : list K;
  bypass : list K;
  order_set : gset K;
  bypass_set : gset K;
  order_index : gmap K nat }.
Implicit Type s : QueueState.

(** ** Cached membership *)

Definition rebuild_order_step (acc : gset K * gmap K nat * list K) (hash : K) :=
  let '(set, index, order) := acc in
  if decide (hash ∈ set) then acc
  else ({[hash]} ∪ set, <[hash := length order]> index, order ++ [hash]).

Definition rebuild_bypass_step (acc : gset K * list K) (hash : K) :=
  let '(set, bypass) := acc in
  if decide (hash ∈ set) then acc else ({[hash]} ∪ set, bypass ++ [hash]).

Definition rebuild_membership_sets (s : QueueState) : QueueState :=
  let '(oset, index, o) := foldl rebuild_order_step (∅, ∅, []) (order s) in
  let '(bset, b) := foldl rebuild_bypass_step (∅, []) (bypass s) in
  mkQueue (limits s) o b oset bset index.

Definition sync_membership_sets (s : QueueState) : QueueState :=
  if negb (size (order_set s) =? length (order s))%nat
     || negb (size (bypass_set s) =? length (bypass s))%nat
     || negb (size (order_index s) =? length (order s))%nat
  then rebuild_membership_sets s else s.

Definition order_index_for (s : QueueState) (key : K) : option nat * QueueState :=
  let s := sync_membership_sets s in
  match order_index s !! key with
  | Some i =>
      if decide (order s !! i = Some key) then (Some i, s)
      else let s := rebuild_membership_sets s in (order_index s !! key, s)
  | None => let s := rebuild_membership_sets s in (order_index s !! key, s)
  end.

(** ** Construction *)

Definition new (lims : QueueLimits) : QueueState :=
  rebuild_membership_sets (mkQueue lims [] [] ∅ ∅ ∅).

(** The [Deserialize] instance, from the fields of [QueueStateSerde]. *)
Definition deserialize (lims : QueueLimits) (o b : option (list K)) : QueueState :=
  rebuild_membership_sets (mkQueue lims (default [] o) (default [] b) ∅ ∅ ∅).

Definition clear (s : QueueState) : QueueState :=
  rebuild_membership_sets
    (mkQueue (limits s) [] [] (order_set s) (bypass_set s) (order_index s)).

(** ** Membership *)

Definition push_key (s : QueueState) (key : K) : QueueState :=
  if decide (key ∈ order_set s) then s
  else mkQueue (limits s) (order s ++ [key]) (bypass s) ({[key]} ∪ order_set s)
         (bypass_set s) (<[key := length (order s)]> (order_index s)).

Definition add_many (s : QueueState) (keys : list K) : QueueState :=
  foldl push_key (sync_membership_sets s) keys.

Definition add (s : QueueState) (key : K) : QueueState :=
  push_key (sync_membership_sets s) key.

Definition membership_snapshot (s : QueueState) (key : K) : QueueMembershipSnapshot :=
  mkSnapshot (find_index key (order s)) (find_index key (bypass s)).

(** [if let Some(index) = .. { v.insert(index.min(v.len()), key) }]. *)
Definition insert_at (o : list K) (i : option nat) (key : K) : outcome (list K) :=
  match i with
  | Some i => vec_insert o (i `min` length o)%nat key
  | None => Ok o
  end.

Definition restore_membership (s : QueueState) (key : K)
    (snapshot : QueueMembershipSnapshot) : outcome QueueState :=
  let o := filter (fun c => c <> key) (order s) in
  let b := filter (fun c => c <> key) (bypass s) in
  o ← insert_at o (snap_order_index snapshot) key;
  b ← insert_at b (snap_bypass_index snapshot) key;
  Ok (rebuild_membership_sets
        (mkQueue (limits s) o b (order_set s) (bypass_set s) (order_index s))).

Definition remove (s : QueueState) (key : K) : QueueState :=
  let s := sync_membership_sets s in
  let s :=
    if decide (key ∈ order_set s)
    then rebuild_membership_sets
           (mkQueue (limits s) (filter (fun c => c <> key) (order s)) (bypass s)
              (order_set s ∖ {[key]}) (bypass_set s) (order_index s))
    else s in
  mkQueue (limits s) (order s) (filter (fun c => c <> key) (bypass s))
    (order_set s) (bypass_set s ∖ {[key]}) (order_index s).

Definition remove_many (s : QueueState) (keys : list K) : QueueState :=
  let s := sync_membership_sets s in
  let to_remove : gset K := list_to_set keys in
  if decide (to_remove = ∅) then s
  else rebuild_membership_sets
         (mkQueue (limits s) (filter (fun h => h ∉ to_remove) (order s))
            (filter (fun h => h ∉ to_remove) (bypass s))
            (order_set s) (bypass_set s) (order_index s)).

(** ** Reordering *)

Definition swap_at (s : QueueState) (i j : nat) : outcome QueueState :=
  o ← vec_swap (order s) i j;
  ki ← vec_index o i;
  kj ← vec_index o j;
  Ok (mkQueue (limits s) o (bypass s) (order_set s) (bypass_set s)
        (<[kj := j]> (<[ki := i]> (order_index s)))).

Definition move_up (s : QueueState) (key : K) : outcome QueueState :=
  let '(found, s) := order_index_for s key in
  match found with
  | Some i => if (0 <? i)%nat then swap_at s i (i - 1)%nat else Ok s
  | None => Ok s
  end.

Definition move_down (s : QueueState) (key : K) : outcome QueueState :=
  let '(found, s) := order_index_for s key in
  match found with
  | Some i => if (i + 1 <? length (order s))%nat then swap_at s i (i + 1)%nat else Ok s
  | None => Ok s
  end.

Definition move_to_top (s : QueueState) (key : K) : outcome QueueState :=
  let '(found, s) := order_index_for s key in
  match found with
  | Some i =>
      '(h, o) ← vec_remove (order s) i;
      o ← vec_insert o 0%nat h;
      Ok (rebuild_membership_sets
            (mkQueue (limits s) o (bypass s) (order_set s) (bypass_set s) (order_index s)))
  | None => Ok s
  end.

Definition move_to_bottom (s : QueueState) (key : K) : outcome QueueState :=
  let '(found, s) := order_index_for s key in
  match found with
  | Some i =>
      '(h, o) ← vec_remove (order s) i;
      Ok (rebuild_membership_sets
            (mkQueue (limits s) (o ++ [h]) (bypass s) (order_set s) (bypass_set s)
               (order_index s)))
  | None => Ok s
  end.

Definition partition_step (to_move : gset K) (acc : list K * list K) (key : K) :=
  let '(kept, moved) := acc in
  if decide (key ∈ to_move) then (kept, moved ++ [key]) else (kept ++ [key], moved).

Definition move_many_to_bottom (s : QueueState) (keys : list K) : QueueState :=
  let s := sync_membership_sets s in
  let to_move : gset K := list_to_set keys in
  if decide (to_move = ∅) then s
  else
    let '(kept, moved) := foldl (partition_step to_move) ([], []) (order s) in
    rebuild_membership_sets
      (mkQueue (limits s) (kept ++ moved) (bypass s) (order_set s) (bypass_set s)
         (order_index s)).

(** ** Bypass *)

Definition start_now (s : QueueState) (key : K) : QueueState :=
  let s := sync_membership_sets s in
  if decide (key ∈ bypass_set s) then s
  else mkQueue (limits s) (order s) (bypass s ++ [key]) (order_set s)
         ({[key]} ∪ bypass_set s) (order_index s).

Definition clear_bypass (s : QueueState) (key : K) : QueueState :=
  let s := sync_membership_sets s in
  mkQueue (limits s) (order s) (filter (fun c => c <> key) (bypass s)) (order_set s)
    (bypass_set s ∖ {[key]}) (order_index s).

Definition clear_bypass_many (s : QueueState) (keys : list K) : QueueState :=
  let s := sync_membership_sets s in
  let clear_set : gset K := list_to_set keys in
  if decide (clear_set = ∅) then s
  else mkQueue (limits s) (order s) (filter (fun h => h ∉ clear_set) (bypass s))
         (order_set s) (filter (fun h => h ∉ clear_set) (bypass_set s)) (order_index s).

(** ** Queries *)

(** 1-based. *)
Definition position (s : QueueState) (key : K) : option nat :=
  match order_index s !! key with
  | Some i =>
      if decide (order s !! i = Some key) then Some (i + 1)%nat
      else (fun i => i + 1)%nat <$> find_index key (order s)
  | None => (fun i => i + 1)%nat <$> find_index key (order s)
  end.

Fixpoint fill_slots (limit : nat) (keys : list K) (active : list K) (active_set : gset K)
    : list K :=
  match keys with
  | [] => active
  | key :: keys =>
      if (limit <=? length active)%nat then active
      else if decide (key ∈ active_set) then fill_slots limit keys active active_set
      else fill_slots limit keys (active ++ [key]) ({[key]} ∪ active_set)
  end.

Definition active_download_slots (s : QueueState) : list K :=
  let limit := max_active_downloads (limits s) in
  if (limit =? 0)%nat then order s
  else fill_slots limit (order s) (bypass s) (list_to_set (bypass s)).

(** ** Specification: the two lists alone *)

Definition view (s : QueueState) : list K * list K := (order s, bypass s).

Definition spec_add (l : list K) (k : K) : list K := if decide (k ∈ l) then l else l ++ [k].
(** The first occurrence of each key. *)
Definition spec_dedup (l : list K) : list K := foldl spec_add [] l.
Definition spec_remove (k : K) (l : list K) : list K := filter (fun c => c <> k) l.
Definition spec_remove_many (ks l : list K) : list K := filter (fun c => c ∉ ks) l.
Fixpoint spec_up (k : K) (l : list K) : list K :=
  match l with
  | a :: (b :: m) as l' => if decide (b = k) then b :: a :: m else a :: spec_up k l'
  | _ => l
  end.
Fixpoint spec_down (k : K) (l : list K) : list K :=
  match l with
  | a :: (b :: m) as l' => if decide (a = k) then b :: a :: m else a :: spec_down k l'
  | _ => l
  end.
Definition spec_top (k : K) (l : list K) : list K :=
  if decide (k ∈ l) then k :: spec_remove k l else l.
Definition spec_bottom (k : K) (l : list K) : list K :=
  if decide (k ∈ l) then spec_remove k l ++ [k] else l.
Definition spec_many_bottom (ks l : list K) : list K :=
  filter (fun c => c ∉ ks) l ++ filter (fun c => c ∈ ks) l.
(** Put a key back at a position of the list without it, or leave it out. *)
Definition spec_restore (k : K) (i : option nat) (l : list K) : list K :=
  match i with
  | Some i => take i (spec_remove k l) ++ k :: drop i (spec_remove k l)
  | None => spec_remove k l
  end.

Inductive op : Type :=
  | Clear
  | AddMany (ks : list K)
  | Add (k : K)
  | RestoreMembership (k : K) (snap : QueueMembershipSnapshot)
  | Remove (k : K)
  | RemoveMany (ks : list K)
  | MoveUp (k : K)
  | MoveDown (k : K)
  | MoveToTop (k : K)
  | MoveToBottom (k : K)
  | MoveManyToBottom (ks : list K)
  | StartNow (k : K)
  | ClearBypass (k : K)
  | ClearBypassMany (ks : list K).

Definition step (s : QueueState) (c : op) : outcome QueueState :=
  match c with
  | Clear => Ok (clear s)
  | AddMany ks => Ok (add_many s ks)
  | Add k => Ok (add s k)
  | RestoreMembership k snap => restore_membership s k snap
  | Remove k => Ok (remove s k)
  | RemoveMany ks => Ok (remove_many s ks)
  | MoveUp k => move_up s k
  | MoveDown k => move_down s k
  | MoveToTop k => move_to_top s k
  | MoveToBottom k => move_to_bottom s k
  | MoveManyToBottom ks => Ok (move_many_to_bottom s ks)
  | StartNow k => Ok (start_now s k)
  | ClearBypass k => Ok (clear_bypass s k)
  | ClearBypassMany ks => Ok (clear_bypass_many s ks)
  end.

Definition spec_step (v : list K * list K) (c : op) : list K * list K :=
  let '(o, b) := v in
  match c with
  | Clear => ([], [])
  | AddMany ks => (foldl spec_add o ks, b)
  | Add k => (spec_add o k, b)
  | RestoreMembership k snap =>
      (spec_restore k (snap_order_index snap) o, spec_restore k (snap_bypass_index snap) b)
  | Remove k => (spec_remove k o, spec_remove k b)
  | RemoveMany ks => (spec_remove_many ks o, spec_remove_many ks b)
  | MoveUp k => (spec_up k o, b)
  | MoveDown k => (spec_down k o, b)
  | MoveToTop k => (spec_top k o, b)
  | MoveToBottom k => (spec_bottom k o, b)
  | MoveManyToBottom ks => (spec_many_bottom ks o, b)
  | StartNow k => (o, spec_add b k)
  | ClearBypass k => (o, spec_remove k b)
  | ClearBypassMany ks => (o, spec_remove_many ks b)
  end.

Fixpoint steps (s : QueueState) (cs : list op) : outcome QueueState :=
  match cs with
  | [] => Ok s
  | c :: cs => s ← step s c; steps s cs
  end.

(** The index map of a list without duplicates, and the state whose caches are
    those of its lists. *)
Definition index_map (l : list K) : gmap K nat := list_to_map (imap (fun i k => (k, i)) l).
Definition synced (lims : QueueLimits) (o b : list K) : QueueState :=
  mkQueue lims o b (list_to_set o) (list_to_set b) (index_map o).
Definition queue_inv (s : QueueState) : Prop :=
  NoDup (order s) /\ NoDup (bypass s) /\ s = synced (limits s) (order s) (bypass s).

End queue.
Arguments QueueState K {_ _}.
Arguments op K : clear implicits.

(** ** The abstract lists *)

#[local] Arguments spec_remove : simpl never.
#[local] Arguments spec_add : simpl never.
#[local] Arguments spec_dedup : simpl never.

Section lists.
Context {K : Type} `{Countable K}.
Implicit Types (k : K) (l o b : list K) (ks : list K).

Lemma find_index_Some k l i :
  find_index k l = Some i <-> l !! i = Some k /\ forall j, (j < i)%nat -> l !! j <> Some k.
Proof.
  revert i. induction l as [|a l IH]; intros i; cbn; [naive_solver|].
  destruct (decide (a = k)) as [->|Hne].
  - split.
    + intros [= <-]. split; [done|]. lia.
    + intros [Hi Hj]. destruct i as [|i]; [done|]. destruct (Hj 0%nat); [lia|done].
  - rewrite fmap_Some. split.
    + intros (j & Hj & ->). apply IH in Hj as [Hj Hmin]. split; [done|].
      intros [|m] Hm; cbn; [congruence|]. apply Hmin. lia.
    + intros [Hi Hmin]. destruct i as [|i]; cbn in Hi; [congruence|].
      exists i. split; [|done]. apply IH. split; [done|].
      intros j Hj. apply (Hmin (S j)). lia.
Qed.

Lemma find_index_None k l : find_index k l = None <-> k ∉ l.
Proof.
  induction l as [|a l IH]; cbn; [set_solver|].
  rewrite not_elem_of_cons. destruct (decide (a = k)) as [->|Hne]; [naive_solver|].
  rewrite fmap_None, IH. naive_solver.
Qed.

Lemma find_index_NoDup k l i :
  NoDup l -> l !! i = Some k -> find_index k l = Some i.
Proof.
  intros Hl Hi. apply find_index_Some. split; [done|]. intros j Hj Hk.
  pose proof (NoDup_lookup _ _ _ _ Hl Hi Hk). lia.
Qed.

Lemma spec_add_NoDup l k : NoDup l -> NoDup (spec_add l k).
Proof.
  intros. unfold spec_add. case_decide; [done|].
  apply NoDup_app. split; [done|]. split; [|apply NoDup_singleton]. set_solver.
Qed.

Lemma foldl_spec_add_NoDup ks l : NoDup l -> NoDup (foldl spec_add l ks).
Proof. revert l. induction ks; cbn; auto using spec_add_NoDup. Qed.

Lemma spec_dedup_NoDup l : NoDup (spec_dedup l).
Proof. apply foldl_spec_add_NoDup, NoDup_nil_2. Qed.

Lemma elem_of_spec_add x k l : x ∈ spec_add l k <-> x ∈ l \/ x = k.
Proof. unfold spec_add. case_decide; set_solver. Qed.

Lemma elem_of_foldl_spec_add x ks l : x ∈ foldl spec_add l ks <-> x ∈ l \/ x ∈ ks.
Proof.
  revert l. induction ks as [|k ks IH]; intros l; cbn; [set_solver|].
  rewrite IH, elem_of_spec_add, elem_of_cons. tauto.
Qed.

Lemma foldl_spec_add_id ks l :
  NoDup ks -> (forall k, k ∈ ks -> k ∉ l) -> foldl spec_add l ks = l ++ ks.
Proof.
  revert l. induction ks as [|k ks IH]; intros l Hks Hl; cbn; [by rewrite app_nil_r|].
  apply NoDup_cons in Hks as [Hk Hks]. unfold spec_add at 2.
  rewrite decide_False by set_solver. rewrite IH; [by rewrite <- app_assoc|done|set_solver].
Qed.

Lemma spec_dedup_id l : NoDup l -> spec_dedup l = l.
Proof. intros. unfold spec_dedup. rewrite foldl_spec_add_id; set_solver. Qed.

Lemma spec_remove_not_in k l : k ∉ l -> spec_remove k l = l.
Proof.
  intros Hk. apply filter_all. set_solver.
Qed.

Lemma spec_remove_app k l m : spec_remove k (l ++ m) = spec_remove k l ++ spec_remove k m.
Proof. apply filter_app. Qed.

Lemma spec_remove_self k : spec_remove k [k] = [].
Proof. unfold spec_remove. rewrite filter_cons_False, filter_nil by naive_solver. done. Qed.

Lemma spec_remove_cons k l : spec_remove k (k :: l) = spec_remove k l.
Proof. apply filter_cons_False. naive_solver. Qed.

Lemma elem_of_spec_remove x k l : x ∈ spec_remove k l <-> x ∈ l /\ x <> k.
Proof. unfold spec_remove. rewrite list_elem_of_filter. tauto. Qed.

Lemma spec_remove_idemp k l : spec_remove k (spec_remove k l) = spec_remove k l.
Proof. apply spec_remove_not_in. rewrite elem_of_spec_remove. tauto. Qed.

Lemma spec_remove_NoDup k l : NoDup l -> NoDup (spec_remove k l).
Proof. apply NoDup_filter. Qed.

(** The two halves of a list around its only occurrence of a key. *)
Lemma spec_remove_split k l i :
  NoDup l -> l !! i = Some k ->
  take i l ++ k :: drop (S i) l = l /\
  spec_remove k l = take i l ++ drop (S i) l /\ k ∉ take i l ++ drop (S i) l.
Proof.
  intros Hl Hi. assert (E : take i l ++ k :: drop (S i) l = l) by by apply take_drop_middle.
  split; [done|]. rewrite <- E in Hl.
  apply NoDup_app in Hl as (_ & H1 & Hl). apply NoDup_cons in Hl as [H2 _].
  assert (Hk : k ∉ take i l ++ drop (S i) l) by set_solver.
  split; [|done]. rewrite <- E at 1.
  rewrite spec_remove_app, spec_remove_cons, <- spec_remove_app.
  by apply spec_remove_not_in.
Qed.

Lemma delete_spec_remove k l i :
  NoDup l -> l !! i = Some k -> delete i l = spec_remove k l.
Proof.
  intros Hl Hi. destruct (spec_remove_split k l i Hl Hi) as (_ & -> & _).
  apply delete_take_drop.
Qed.

Lemma vec_insert_Ok {A} (l : list A) i a :
  (i <= length l)%nat -> vec_insert l i a = Ok (take i l ++ a :: drop i l).
Proof. intros. unfold vec_insert. by rewrite (proj2 (Nat.leb_le _ _)). Qed.

Lemma insert_at_spec l i k :
  insert_at (spec_remove k l) i k = Ok (spec_restore k i l).
Proof.
  destruct i as [i|]; cbn; [|done]. rewrite vec_insert_Ok by lia. do 2 f_equal.
  - destruct (decide (i <= length (spec_remove k l))%nat).
    + by rewrite Nat.min_l.
    + rewrite Nat.min_r, !take_ge by lia. done.
  - f_equal. destruct (decide (i <= length (spec_remove k l))%nat).
    + by rewrite Nat.min_l.
    + rewrite Nat.min_r, !drop_ge by lia. done.
Qed.

Lemma spec_restore_NoDup k i l : NoDup l -> NoDup (spec_restore k i l).
Proof.
  intros Hl. pose proof (spec_remove_NoDup k l Hl) as Hr.
  destruct i as [i|]; cbn; [|done].
  rewrite <- Permutation_middle. apply NoDup_cons. rewrite take_drop.
  split; [|done]. rewrite elem_of_spec_remove. tauto.
Qed.

Lemma spec_remove_restore k i l : spec_remove k (spec_restore k i l) = spec_remove k l.
Proof.
  destruct i as [i|]; cbn; [|by apply spec_remove_idemp].
  by rewrite spec_remove_app, spec_remove_cons, <- spec_remove_app, take_drop, spec_remove_idemp.
Qed.

(** Removing a key and restoring the position it had gives the list back. *)
Lemma spec_restore_snapshot k l :
  NoDup l -> spec_restore k (find_index k l) (spec_remove k l) = l.
Proof.
  intros Hl. destruct (find_index k l) as [i|] eqn:E; cbn; rewrite spec_remove_idemp.
  - apply find_index_Some in E as [Hi _].
    destruct (spec_remove_split k l i Hl Hi) as (Hsplit & -> & _).
    assert (length (take i l) = i).
    { apply length_take_le. apply lookup_lt_Some in Hi. lia. }
    rewrite take_app_length', drop_app_length' by done. done.
  - apply spec_remove_not_in. by apply find_index_None.
Qed.

End lists.

(** ** The caches *)

Section caches.
Context {K : Type} `{Countable K}.
Implicit Types (k : K) (l o b : list K) (ks : list K) (s : QueueState K).

Lemma index_pairs_keys l : (imap (fun i k => (k, i)) l).*1 = l.
Proof.
  apply list_eq. intros i. rewrite list_lookup_fmap, list_lookup_imap. by destruct (l !! i).
Qed.

Lemma index_map_lookup l k : NoDup l -> index_map l !! k = find_index k l.
Proof.
  intros Hl. apply option_eq. intros i. unfold index_map.
  rewrite <- elem_of_list_to_map.
  - rewrite elem_of_lookup_imap. split.
    + intros (j & a & E & Hj). injection E as -> ->. by apply find_index_NoDup.
    + intros Hi%find_index_Some. exists i, k. naive_solver.
  - by rewrite index_pairs_keys.
Qed.

Lemma find_index_app k l m :
  find_index k (l ++ m) =
  match find_index k l with
  | Some i => Some i
  | None => (fun i => length l + i)%nat <$> find_index k m
  end.
Proof.
  induction l as [|a l IH]; cbn.
  { by destruct (find_index k m). }
  destruct (decide (a = k)); [done|]. rewrite IH.
  destruct (find_index k l); cbn; [done|]. by destruct (find_index k m).
Qed.

Lemma index_map_snoc l k :
  NoDup l -> k ∉ l -> <[k := length l]> (index_map l) = index_map (l ++ [k]).
Proof.
  intros Hl Hk. apply map_eq. intros x.
  rewrite (index_map_lookup (l ++ [k])), find_index_app.
  2:{ apply NoDup_app. split; [done|]. split; [set_solver|]. apply NoDup_singleton. }
  destruct (decide (k = x)) as [->|Hne].
  - rewrite lookup_insert, decide_True by done.
    rewrite (proj2 (find_index_None x l)) by done. cbn.
    rewrite decide_True by done. cbn. f_equal. lia.
  - rewrite lookup_insert_ne, index_map_lookup by done. cbn.
    rewrite decide_False by done. cbn. by destruct (find_index x l).
Qed.

Lemma index_map_swap l a c m :
  NoDup (l ++ a :: c :: m) ->
  <[a := S (length l)]> (<[c := length l]> (index_map (l ++ a :: c :: m)))
  = index_map (l ++ c :: a :: m).
Proof.
  intros Hl. assert (Hl' : NoDup (l ++ c :: a :: m)).
  { by rewrite (Permutation_swap a c m). }
  assert (Ha : a ∉ l) by (apply NoDup_app in Hl; set_solver).
  assert (Hc : c ∉ l) by (apply NoDup_app in Hl; set_solver).
  assert (Hac : a <> c).
  { apply NoDup_app in Hl as (_ & _ & [Hac _]%NoDup_cons). set_solver. }
  apply map_eq. intros x. rewrite (index_map_lookup (l ++ c :: a :: m)), find_index_app by done.
  destruct (decide (a = x)) as [->|Hax]; [|destruct (decide (c = x)) as [->|Hcx]].
  - rewrite lookup_insert, decide_True by done.
    rewrite (proj2 (find_index_None x l)) by done. cbn.
    rewrite decide_False, decide_True by done. cbn. f_equal. lia.
  - rewrite lookup_insert_ne, lookup_insert, decide_True by done.
    rewrite (proj2 (find_index_None x l)) by done. cbn.
    rewrite decide_True by done. cbn. f_equal. lia.
  - rewrite !lookup_insert_ne, index_map_lookup, find_index_app by done. cbn.
    rewrite !decide_False by done. done.
Qed.

Lemma synced_inv lims o b : NoDup o -> NoDup b -> queue_inv (synced lims o b).
Proof. done. Qed.

Lemma rebuild_order_spec l o :
  NoDup o ->
  foldl rebuild_order_step (list_to_set o, index_map o, o) l =
  (list_to_set (foldl spec_add o l), index_map (foldl spec_add o l), foldl spec_add o l).
Proof.
  revert o. induction l as [|k l IH]; intros o Ho; cbn [foldl]; [done|].
  rewrite <- IH by by apply spec_add_NoDup. f_equal.
  unfold rebuild_order_step, spec_add. destruct (decide (k ∈ o)).
  - rewrite decide_True by set_solver. done.
  - rewrite decide_False by set_solver. rewrite index_map_snoc by done.
    do 2 f_equal. set_solver.
Qed.

Lemma rebuild_bypass_spec l o :
  foldl rebuild_bypass_step (list_to_set o, o) l =
  (list_to_set (foldl spec_add o l), foldl spec_add o l).
Proof.
  revert o. induction l as [|k l IH]; intros o; cbn [foldl]; [done|].
  rewrite <- IH. f_equal. unfold rebuild_bypass_step, spec_add.
  destruct (decide (k ∈ o)).
  - rewrite decide_True by set_solver. done.
  - rewrite decide_False by set_solver. f_equal. set_solver.
Qed.

(** Whatever the caches held, a rebuild synchronises them. *)
Lemma rebuild_synced s :
  rebuild_membership_sets s =
  synced (limits s) (spec_dedup (order s)) (spec_dedup (bypass s)).
Proof.
  unfold rebuild_membership_sets.
  pose proof (rebuild_order_spec (order s) [] (NoDup_nil_2)) as E1.
  pose proof (rebuild_bypass_spec (bypass s) []) as E2.
  change (list_to_set []) with (∅ : gset K) in E1, E2.
  change (index_map []) with (∅ : gmap K nat) in E1.
  by rewrite E1, E2.
Qed.

Lemma rebuild_id lims o b os bs im :
  NoDup o -> NoDup b ->
  rebuild_membership_sets (mkQueue lims o b os bs im) = synced lims o b.
Proof. intros. rewrite rebuild_synced. cbn. by rewrite !spec_dedup_id. Qed.

Lemma sync_id lims o b :
  NoDup o -> NoDup b -> sync_membership_sets (synced lims o b) = synced lims o b.
Proof.
  intros. unfold sync_membership_sets. cbn. unfold index_map.
  rewrite !size_list_to_set by done.
  rewrite map_size_list_to_map, length_imap, !Nat.eqb_refl; [done|].
  by rewrite index_pairs_keys.
Qed.

Lemma order_index_for_synced lims o b k :
  NoDup o -> NoDup b ->
  order_index_for (synced lims o b) k = (find_index k o, synced lims o b).
Proof.
  intros Ho Hb. unfold order_index_for. rewrite sync_id by done.
  unfold synced at 1. cbn [order_index]. rewrite index_map_lookup by done.
  destruct (find_index k o) as [i|] eqn:E.
  - apply find_index_Some in E as [E _]. by rewrite decide_True.
  - unfold synced at 1 2. rewrite rebuild_id by done. cbn [synced order_index].
    rewrite index_map_lookup by done. by rewrite E.
Qed.

(** In any state, synchronised or not, a reported index is a position of the key. *)
Lemma order_index_for_sound s k i s' :
  order_index_for s k = (Some i, s') -> order s' !! i = Some k.
Proof.
  unfold order_index_for. set (t := sync_membership_sets s).
  assert (Hr : forall i, order_index (rebuild_membership_sets t) !! k = Some i ->
    order (rebuild_membership_sets t) !! i = Some k).
  { intros j. rewrite rebuild_synced. cbn [synced order order_index].
    rewrite index_map_lookup by apply spec_dedup_NoDup. by intros [? _]%find_index_Some. }
  destruct (order_index t !! k) as [j|] eqn:E.
  - case_decide; intros [= ? <-]; simplify_eq; auto.
  - intros [= ? <-]. auto.
Qed.

End caches.

(** ** Every operation on a synchronised state *)

Section refinement.
Context {K : Type} `{Countable K}.
Implicit Types (k : K) (l o b : list K) (ks : list K) (s : QueueState K).

Lemma push_key_synced lims o b k :
  NoDup o -> push_key (synced lims o b) k = synced lims (spec_add o k) b.
Proof.
  intros Ho. unfold push_key, spec_add. cbn [synced order_set order order_index].
  destruct (decide (k ∈ o)).
  - rewrite decide_True by set_solver. done.
  - rewrite decide_False by set_solver. cbn. rewrite index_map_snoc by done.
    unfold synced. f_equal. set_solver.
Qed.

Lemma push_keys_synced lims o b ks :
  NoDup o -> foldl push_key (synced lims o b) ks = synced lims (foldl spec_add o ks) b.
Proof.
  revert o. induction ks as [|k ks IH]; intros o Ho; cbn [foldl]; [done|].
  rewrite push_key_synced by done. by apply IH, spec_add_NoDup.
Qed.

Lemma retain_set ks l :
  filter (fun h => h ∉ (list_to_set ks : gset K)) l = spec_remove_many ks l.
Proof. apply list_filter_iff. set_solver. Qed.

Lemma remove_many_nil l : spec_remove_many [] l = l.
Proof. apply filter_all. set_solver. Qed.

Lemma list_to_set_empty ks : (list_to_set ks : gset K) = ∅ -> ks = [].
Proof. destruct ks; cbn; set_solver. Qed.

Lemma list_to_set_remove k l :
  (list_to_set l : gset K) ∖ {[k]} = list_to_set (spec_remove k l).
Proof.
  apply set_eq. intros x.
  rewrite elem_of_difference, !elem_of_list_to_set, elem_of_spec_remove. set_solver.
Qed.

Lemma remove_synced lims o b k :
  NoDup o -> NoDup b ->
  remove (synced lims o b) k = synced lims (spec_remove k o) (spec_remove k b).
Proof.
  intros Ho Hb. unfold remove. rewrite sync_id by done.
  cbn [synced order_set bypass_set order bypass limits order_index].
  destruct (decide (k ∈ o)) as [Hk|Hk].
  - rewrite decide_True by set_solver.
    fold (spec_remove k o). rewrite rebuild_id by auto using spec_remove_NoDup.
    cbn [synced order_set bypass_set order bypass limits order_index].
    by rewrite list_to_set_remove.
  - rewrite decide_False by set_solver.
    cbn [synced order_set bypass_set order bypass limits order_index].
    rewrite list_to_set_remove.
    by rewrite (spec_remove_not_in k o).
Qed.

Lemma remove_many_synced lims o b ks :
  NoDup o -> NoDup b ->
  remove_many (synced lims o b) ks =
  synced lims (spec_remove_many ks o) (spec_remove_many ks b).
Proof.
  intros Ho Hb. unfold remove_many. rewrite sync_id by done. case_decide as E.
  - apply list_to_set_empty in E as ->. by rewrite !remove_many_nil.
  - cbn [synced order bypass limits]. rewrite !retain_set.
    apply rebuild_id; by apply NoDup_filter.
Qed.

(** A key is first, behind another key, or absent. *)
Lemma index_cases k l :
  NoDup l ->
  (find_index k l = None /\ k ∉ l) \/
  (exists p q, (l = p ++ k :: q) /\ find_index k l = Some (length p) /\ (k ∉ p) /\ (k ∉ q)).
Proof.
  intros Hl. destruct (find_index k l) as [i|] eqn:E.
  - right. apply find_index_Some in E as [Hi _].
    exists (take i l), (drop (S i) l).
    destruct (spec_remove_split k l i Hl Hi) as (-> & _ & Hk).
    apply lookup_lt_Some in Hi. rewrite length_take_le by lia. set_solver.
  - left. split; [done|]. by apply find_index_None.
Qed.

Lemma spec_up_absent k l : k ∉ l -> spec_up k l = l.
Proof.
  induction l as [|a [|c m] IH]; cbn; [done..|]. intros Hk.
  rewrite decide_False by set_solver. f_equal. apply IH. set_solver.
Qed.

Lemma spec_up_first k l : k ∉ l -> spec_up k (k :: l) = k :: l.
Proof.
  intros Hk. destruct l as [|c m]; [done|].
  change (spec_up k (k :: c :: m)) with
    (if decide (c = k) then c :: k :: m else k :: spec_up k (c :: m)).
  rewrite decide_False by set_solver. by rewrite spec_up_absent.
Qed.

Lemma spec_up_app k p a q :
  k ∉ p -> k <> a -> spec_up k (p ++ a :: k :: q) = p ++ k :: a :: q.
Proof.
  intros Hp Ha. induction p as [|c p IH]; cbn [app].
  { cbn. by rewrite decide_True. }
  rewrite <- IH by set_solver. destruct p as [|d p]; cbn [app].
  - cbn. by rewrite decide_False, decide_True.
  - change (spec_up k (c :: d :: p ++ a :: k :: q)) with
      (if decide (d = k) then d :: c :: p ++ a :: k :: q
       else c :: spec_up k (d :: p ++ a :: k :: q)).
    by rewrite decide_False by set_solver.
Qed.

Lemma spec_down_absent k l : k ∉ l -> spec_down k l = l.
Proof.
  induction l as [|a [|c m] IH]; cbn; [done..|]. intros Hk.
  rewrite decide_False by set_solver. f_equal. apply IH. set_solver.
Qed.

Lemma spec_down_app k p q :
  k ∉ p ->
  spec_down k (p ++ k :: q) =
  p ++ match q with [] => [k] | c :: m => c :: k :: m end.
Proof.
  intros Hp. induction p as [|c p IH]; cbn [app].
  { destruct q; cbn; [done|]. by rewrite decide_True. }
  rewrite <- IH by set_solver. destruct p as [|d p]; cbn [app].
  - cbn. rewrite decide_False by set_solver. done.
  - change (spec_down k (c :: d :: p ++ k :: q)) with
      (if decide (c = k) then d :: c :: p ++ k :: q
       else c :: spec_down k (d :: p ++ k :: q)).
    by rewrite decide_False by set_solver.
Qed.

Lemma lookup_second (p : list K) a c q : (p ++ a :: c :: q) !! S (length p) = Some c.
Proof.
  rewrite lookup_app_r by lia. replace (S (length p) - length p)%nat with 1%nat by lia. done.
Qed.

Lemma vec_swap_forward (p : list K) a c q :
  vec_swap (p ++ a :: c :: q) (length p) (S (length p)) = Ok (p ++ c :: a :: q).
Proof.
  unfold vec_swap. rewrite list_lookup_middle by done. rewrite lookup_second.
  rewrite !insert_app_r_alt, Nat.sub_diag by lia.
  replace (S (length p) - length p)%nat with 1%nat by lia. done.
Qed.

Lemma vec_swap_backward (p : list K) a c q :
  vec_swap (p ++ a :: c :: q) (S (length p)) (length p) = Ok (p ++ c :: a :: q).
Proof.
  unfold vec_swap. rewrite lookup_second, list_lookup_middle by done.
  rewrite !insert_app_r_alt, Nat.sub_diag by lia.
  replace (S (length p) - length p)%nat with 1%nat by lia. done.
Qed.

Lemma vec_index_first (p : list K) a c q : vec_index (p ++ a :: c :: q) (length p) = Ok a.
Proof. unfold vec_index. by rewrite list_lookup_middle. Qed.
Lemma vec_index_second (p : list K) a c q :
  vec_index (p ++ a :: c :: q) (S (length p)) = Ok c.
Proof. unfold vec_index. by rewrite lookup_second. Qed.

Lemma swap_at_forward lims p a c q b :
  NoDup (p ++ a :: c :: q) ->
  swap_at (synced lims (p ++ a :: c :: q) b) (length p) (S (length p)) =
  Ok (synced lims (p ++ c :: a :: q) b).
Proof.
  intros Hl. unfold swap_at. cbn [synced order bypass limits order_set bypass_set order_index].
  rewrite vec_swap_forward. ok_simpl. rewrite vec_index_first. ok_simpl.
  rewrite vec_index_second. ok_simpl. rewrite index_map_swap by done.
  unfold synced. do 2 f_equal. apply list_to_set_perm_L. by rewrite (Permutation_swap a c q).
Qed.

Lemma swap_at_backward lims p a c q b :
  NoDup (p ++ a :: c :: q) ->
  swap_at (synced lims (p ++ a :: c :: q) b) (S (length p)) (length p) =
  Ok (synced lims (p ++ c :: a :: q) b).
Proof.
  intros Hl. unfold swap_at. cbn [synced order bypass limits order_set bypass_set order_index].
  rewrite vec_swap_backward. ok_simpl. rewrite vec_index_second. ok_simpl.
  rewrite vec_index_first. ok_simpl. rewrite insert_insert_ne.
  2:{ apply NoDup_app in Hl as (_ & _ & [Hac _]%NoDup_cons). set_solver. }
  rewrite index_map_swap by done.
  unfold synced. do 2 f_equal. apply list_to_set_perm_L. by rewrite (Permutation_swap a c q).
Qed.

Lemma move_up_synced lims o b k :
  NoDup o -> NoDup b ->
  move_up (synced lims o b) k = Ok (synced lims (spec_up k o) b).
Proof.
  intros Ho Hb. unfold move_up. rewrite order_index_for_synced by done.
  destruct (index_cases k o Ho) as [[-> Hk]|(p & q & -> & -> & Hp & Hq)].
  { by rewrite spec_up_absent. }
  destruct (Nat.ltb_spec 0 (length p)) as [Hlt|Hz].
  - destruct p as [|a p' _] using rev_ind; [cbn in Hlt; lia|].
    rewrite length_app in *. cbn [length]. rewrite Nat.add_1_r, Nat.sub_1_r. cbn [Nat.pred].
    rewrite <- app_assoc in *. cbn [app] in *.
    rewrite swap_at_backward by done. by rewrite spec_up_app by set_solver.
  - destruct p; [|cbn in Hz; lia]. cbn [app]. by rewrite spec_up_first.
Qed.

Lemma move_down_synced lims o b k :
  NoDup o -> NoDup b ->
  move_down (synced lims o b) k = Ok (synced lims (spec_down k o) b).
Proof.
  intros Ho Hb. unfold move_down. rewrite order_index_for_synced by done.
  destruct (index_cases k o Ho) as [[-> Hk]|(p & q & -> & -> & Hp & Hq)].
  { by rewrite spec_down_absent. }
  rewrite spec_down_app by done. cbn [synced order].
  rewrite length_app, Nat.add_1_r. destruct q as [|c m]; cbn [length].
  - rewrite (proj2 (Nat.ltb_ge _ _)) by lia. done.
  - rewrite (proj2 (Nat.ltb_lt _ _)) by lia. by apply swap_at_forward.
Qed.

Lemma vec_remove_synced k l i :
  NoDup l -> l !! i = Some k -> vec_remove l i = Ok (k, spec_remove k l).
Proof. intros Hl Hi. unfold vec_remove. rewrite Hi. by rewrite (delete_spec_remove k). Qed.

Lemma elem_of_find_index k l i : find_index k l = Some i -> k ∈ l.
Proof. intros [Hi _]%find_index_Some. by eapply list_elem_of_lookup_2. Qed.

Lemma move_to_top_synced lims o b k :
  NoDup o -> NoDup b ->
  move_to_top (synced lims o b) k = Ok (synced lims (spec_top k o) b).
Proof.
  intros Ho Hb. unfold move_to_top, spec_top. rewrite order_index_for_synced by done.
  destruct (find_index k o) as [i|] eqn:E.
  - rewrite decide_True by by eapply elem_of_find_index.
    apply find_index_Some in E as [Hi _]. cbn [synced order].
    rewrite (vec_remove_synced k) by done. ok_simpl.
    rewrite vec_insert_Ok by lia. ok_simpl. rewrite drop_0, rebuild_id; [done| |done].
    apply NoDup_cons. split; [rewrite elem_of_spec_remove; tauto|by apply spec_remove_NoDup].
  - rewrite decide_False by by apply find_index_None. done.
Qed.

Lemma move_to_bottom_synced lims o b k :
  NoDup o -> NoDup b ->
  move_to_bottom (synced lims o b) k = Ok (synced lims (spec_bottom k o) b).
Proof.
  intros Ho Hb. unfold move_to_bottom, spec_bottom. rewrite order_index_for_synced by done.
  destruct (find_index k o) as [i|] eqn:E.
  - rewrite decide_True by by eapply elem_of_find_index.
    apply find_index_Some in E as [Hi _]. cbn [synced order].
    rewrite (vec_remove_synced k) by done. ok_simpl. rewrite rebuild_id; [done| |done].
    apply NoDup_app. split; [by apply spec_remove_NoDup|].
    split; [|apply NoDup_singleton]. intros x. rewrite elem_of_spec_remove. set_solver.
  - rewrite decide_False by by apply find_index_None. done.
Qed.

Lemma partition_spec (ks : list K) (l kept moved : list K) :
  foldl (partition_step (list_to_set ks)) (kept, moved) l =
  (kept ++ filter (fun c => c ∉ ks) l, moved ++ filter (fun c => c ∈ ks) l).
Proof.
  revert kept moved. induction l as [|k l IH]; intros kept moved; cbn [foldl].
  { by rewrite !filter_nil, !app_nil_r. }
  unfold partition_step at 2. destruct (decide (k ∈ (list_to_set ks : gset K))) as [Hk|Hk];
    rewrite elem_of_list_to_set in Hk; rewrite IH, !filter_cons.
  - rewrite (decide_False (P := k ∉ ks)), (decide_True (P := k ∈ ks)) by tauto.
    by rewrite <- !app_assoc.
  - rewrite (decide_True (P := k ∉ ks)), (decide_False (P := k ∈ ks)) by tauto.
    by rewrite <- !app_assoc.
Qed.

Lemma spec_many_bottom_NoDup ks l : NoDup l -> NoDup (spec_many_bottom ks l).
Proof.
  intros Hl. apply NoDup_app. repeat split; try by apply NoDup_filter.
  intros x. rewrite !list_elem_of_filter. tauto.
Qed.

Lemma move_many_to_bottom_synced lims o b ks :
  NoDup o -> NoDup b ->
  move_many_to_bottom (synced lims o b) ks = synced lims (spec_many_bottom ks o) b.
Proof.
  intros Ho Hb. unfold move_many_to_bottom. rewrite sync_id by done. case_decide as E.
  - apply list_to_set_empty in E as ->. f_equal. unfold spec_many_bottom.
    rewrite (filter_all (fun c => c ∉ [])) by set_solver.
    rewrite (filter_none (fun c => c ∈ [])) by set_solver. by rewrite app_nil_r.
  - cbn [synced order]. rewrite partition_spec. cbn [app limits bypass].
    apply rebuild_id; [|done]. by apply spec_many_bottom_NoDup.
Qed.

End refinement.

(** ** Runs *)

Section runs.
Context {K : Type} `{Countable K}.
Implicit Types (k : K) (l o b : list K) (ks : list K) (s : QueueState K) (c : op K).

Lemma spec_step_NoDup o b c :
  NoDup o -> NoDup b -> NoDup (spec_step (o, b) c).1 /\ NoDup (spec_step (o, b) c).2.
Proof.
  intros Ho Hb.
  assert (Hup : forall k, spec_up k o ≡ₚ o).
  { intros k. destruct (index_cases k o Ho) as [[_ ?]|(p & q & -> & _ & ? & ?)].
    { by rewrite spec_up_absent. }
    destruct p as [|a p _] using rev_ind; [by cbn [app]; rewrite spec_up_first|].
    rewrite <- app_assoc. cbn [app]. rewrite spec_up_app by set_solver.
    by rewrite (Permutation_swap a k q). }
  assert (Hdown : forall k, spec_down k o ≡ₚ o).
  { intros k. destruct (index_cases k o Ho) as [[_ ?]|(p & q & -> & _ & ? & ?)].
    { by rewrite spec_down_absent. }
    rewrite spec_down_app by done. destruct q; [done|]. by rewrite Permutation_swap. }
  destruct c; cbn [spec_step fst snd]; repeat split;
    auto using spec_add_NoDup, foldl_spec_add_NoDup, spec_remove_NoDup,
      spec_restore_NoDup, NoDup_filter, NoDup_nil_2, spec_many_bottom_NoDup;
    try (apply NoDup_filter; done); try (by rewrite ?Hup, ?Hdown).
  - unfold spec_top. case_decide; [|done]. apply NoDup_cons.
    split; [rewrite elem_of_spec_remove; tauto|by apply spec_remove_NoDup].
  - unfold spec_bottom. case_decide; [|done]. apply NoDup_app.
    split; [by apply spec_remove_NoDup|]. split; [|apply NoDup_singleton].
    intros x. rewrite elem_of_spec_remove. set_solver.
Qed.

Lemma step_synced lims o b c :
  NoDup o -> NoDup b ->
  step (synced lims o b) c =
  Ok (synced lims (spec_step (o, b) c).1 (spec_step (o, b) c).2).
Proof.
  intros Ho Hb. destruct c; cbn [step spec_step fst snd].
  - done.
  - f_equal. unfold add_many. rewrite sync_id by done. by apply push_keys_synced.
  - f_equal. unfold add. rewrite sync_id by done. by apply push_key_synced.
  - unfold restore_membership. cbn [synced order bypass limits order_set bypass_set order_index].
    fold (spec_remove k o) (spec_remove k b). rewrite !insert_at_spec. ok_simpl.
    rewrite rebuild_id; auto using spec_restore_NoDup.
  - f_equal. by apply remove_synced.
  - f_equal. by apply remove_many_synced.
  - by apply move_up_synced.
  - by apply move_down_synced.
  - by apply move_to_top_synced.
  - by apply move_to_bottom_synced.
  - f_equal. by apply move_many_to_bottom_synced.
  - f_equal. unfold start_now, spec_add. rewrite sync_id by done.
    cbn [synced bypass_set]. destruct (decide (k ∈ b)).
    + by rewrite decide_True by set_solver.
    + rewrite decide_False by set_solver. unfold synced. cbn. f_equal. set_solver.
  - f_equal. unfold clear_bypass. rewrite sync_id by done. cbn [synced bypass_set].
    by rewrite list_to_set_remove.
  - f_equal. unfold clear_bypass_many. rewrite sync_id by done. case_decide as E.
    + apply list_to_set_empty in E as ->. by rewrite remove_many_nil.
    + cbn [synced bypass bypass_set limits order order_set order_index].
      rewrite retain_set. unfold synced. f_equal.
      apply set_eq. intros x. unfold spec_remove_many.
      rewrite elem_of_filter, !elem_of_list_to_set, list_elem_of_filter. tauto.
Qed.

Lemma step_refines s c :
  queue_inv s ->
  exists s', step s c = Ok s' /\ queue_inv s' /\ limits s' = limits s /\
    view s' = spec_step (view s) c.
Proof.
  intros (Ho & Hb & ->). rewrite step_synced by done. eexists. split; [done|].
  destruct (spec_step_NoDup (order s) (bypass s) c Ho Hb).
  repeat split; try done. cbn [view synced order bypass]. by destruct (spec_step _ c).
Qed.

Lemma steps_refine cs s :
  queue_inv s ->
  exists s', steps s cs = Ok s' /\ queue_inv s' /\ limits s' = limits s /\
    view s' = foldl spec_step (view s) cs.
Proof.
  revert s. induction cs as [|c cs IH]; intros s Hs; cbn [steps foldl]; [by exists s|].
  destruct (step_refines s c Hs) as (s1 & E & Hs1 & Hl & Hv).
  rewrite E. ok_simpl. destruct (IH s1 Hs1) as (s2 & ? & ? & ? & ?).
  exists s2. by rewrite <- Hv, <- Hl.
Qed.

Lemma fill_slots_spec limit l active :
  NoDup l ->
  fill_slots limit l active (list_to_set active) =
  active ++ take (limit - length active) (filter (fun k => k ∉ active) l).
Proof.
  revert active. induction l as [|k l IH]; intros active Hl; cbn [fill_slots].
  { by rewrite filter_nil, take_nil, app_nil_r. }
  apply NoDup_cons in Hl as [Hk Hl].
  destruct (Nat.leb_spec limit (length active)).
  { by replace (limit - length active)%nat with 0%nat by lia; rewrite take_0, app_nil_r. }
  destruct (decide (k ∈ active)).
  - rewrite decide_True by set_solver. rewrite filter_cons_False by tauto. by apply IH.
  - rewrite decide_False, filter_cons_True by set_solver.
    replace ({[k]} ∪ list_to_set active : gset K) with (list_to_set (active ++ [k]) : gset K)
      by set_solver.
    rewrite IH by done. rewrite length_app. cbn [length].
    replace (limit - length active)%nat with (S (limit - (length active + 1)))%nat by lia.
    cbn [take]. rewrite <- app_assoc. cbn [app]. do 3 f_equal.
    apply list_filter_iff'. intros x Hx. set_solver.
Qed.

End runs.

(** ** Properties *)

Section properties.
Context {K : Type} `{Countable K}.

(** Whatever lists a queue is restored from (duplicates included), every
    sequence of operations runs without an out-of-range index, keeps both lists
    free of duplicates and the cached sets and index map equal to those of the
    lists, leaves the limits alone, and has on the lists the effect of the
    abstract list operations. *)
Theorem queue_run_refines (lims : QueueLimits) (o b : option (list K)) (cs : list (op K)) :
  exists s, steps (deserialize lims o b) cs = Ok s /\ queue_inv s /\ limits s = lims /\
    view s = foldl spec_step (spec_dedup (default [] o), spec_dedup (default [] b)) cs.
Proof.
  unfold deserialize. rewrite rebuild_synced. cbn [limits order bypass].
  apply steps_refine. apply synced_inv; apply spec_dedup_NoDup.
Qed.

(** In any state at all, synchronised or not (the lists are public fields),
    no operation of the queue panics. *)
Theorem queue_step_returns (s : QueueState K) (c : op K) : exists s', step s c = Ok s'.
Proof.
  assert (Hi : forall (l : list K) i k, exists l', insert_at l i k = Ok l').
  { intros l [i|] k; cbn; [|by eexists]. rewrite vec_insert_Ok by lia. by eexists. }
  assert (Hs : forall s i j, is_Some (order s !! i) -> is_Some (order s !! j) ->
    exists s' : QueueState K, swap_at s i j = Ok s').
  { intros t i j [x Hx] [y Hy]. unfold swap_at, vec_swap. rewrite Hx, Hy. ok_simpl.
    unfold vec_index.
    destruct (lookup_lt_is_Some_2 (<[i:=y]> (<[j:=x]> (order t))) i) as [? ->].
    { rewrite !length_insert. by eapply lookup_lt_Some. }
    destruct (lookup_lt_is_Some_2 (<[i:=y]> (<[j:=x]> (order t))) j) as [? ->].
    { rewrite !length_insert. by eapply lookup_lt_Some. }
    by eexists. }
  destruct c; cbn [step]; try by eexists.
  - unfold restore_membership.
    edestruct Hi as [? ->]. ok_simpl. edestruct Hi as [? ->]. by eexists.
  - unfold move_up. destruct (order_index_for s k) as [[i|] t] eqn:E; [|by eexists].
    apply order_index_for_sound in E. case_match; [|by eexists]. apply Hs; [done|].
    apply lookup_lt_is_Some_2. apply lookup_lt_Some in E. lia.
  - unfold move_down. destruct (order_index_for s k) as [[i|] t] eqn:E; [|by eexists].
    apply order_index_for_sound in E. destruct (Nat.ltb_spec (i + 1) (length (order t)));
      [|by eexists]. apply Hs; [done|]. by apply lookup_lt_is_Some_2.
  - unfold move_to_top. destruct (order_index_for s k) as [[i|] t] eqn:E; [|by eexists].
    apply order_index_for_sound in E. unfold vec_remove. rewrite E. ok_simpl.
    rewrite vec_insert_Ok by lia. by eexists.
  - unfold move_to_bottom. destruct (order_index_for s k) as [[i|] t] eqn:E; [|by eexists].
    apply order_index_for_sound in E. unfold vec_remove. rewrite E. by eexists.
Qed.

(** Removing a key and restoring the membership captured before gives back
    exactly the state, caches included. *)
Theorem restore_after_remove (s : QueueState K) (k : K) (Hs : queue_inv s) :
  restore_membership (remove s k) k (membership_snapshot s k) = Ok s.
Proof.
  destruct Hs as (Ho & Hb & ->). unfold membership_snapshot.
  cbn [synced order bypass]. rewrite remove_synced by done.
  unfold restore_membership. cbn [synced order bypass limits snap_order_index snap_bypass_index].
  fold (spec_remove k (spec_remove k (order s))) (spec_remove k (spec_remove k (bypass s))).
  rewrite !insert_at_spec. ok_simpl. rewrite !spec_restore_snapshot by done.
  by rewrite rebuild_id.
Qed.

(** With a limit, the active keys are all the bypassing ones followed by
    the first queued keys that do not bypass, as many as the limit leaves; with
    no limit they are the whole queue. *)
Theorem active_download_slots_exact (s : QueueState K) (Hs : queue_inv s) :
  active_download_slots s =
  if decide (max_active_downloads (limits s) = 0%nat) then order s
  else bypass s ++ take (max_active_downloads (limits s) - length (bypass s))
         (filter (fun k => k ∉ bypass s) (order s)).
Proof.
  destruct Hs as (Ho & _ & _). unfold active_download_slots.
  destruct (Nat.eqb_spec (max_active_downloads (limits s)) 0).
  - by rewrite decide_True.
  - rewrite decide_False by done. by apply fill_slots_spec.
Qed.

(** The reported position of a key is its 1-based place in the order, and
    there is one exactly for queued keys. *)
Theorem position_exact (s : QueueState K) (k : K) (n : nat) (Hs : queue_inv s) :
  position s k = Some n <-> (1 <= n)%nat /\ order s !! (n - 1)%nat = Some k.
Proof.
  destruct Hs as (Ho & _ & E). unfold position. rewrite E at 1. cbn [synced order_index].
  rewrite index_map_lookup by done.
  trans ((fun i => i + 1)%nat <$> find_index k (order s) = Some n).
  { destruct (find_index k (order s)) as [i|] eqn:Ei; [|done].
    apply find_index_Some in Ei as [Hi _]. by rewrite decide_True. }
  rewrite fmap_Some. split.
  - intros (i & [Hi _]%find_index_Some & ->). split; [lia|].
    by replace (i + 1 - 1)%nat with i by lia.
  - intros [Hn Hk]. exists (n - 1)%nat. split; [by apply find_index_NoDup|lia].
Qed.

End properties.

(** ** Instances *)

Definition sample_queue : QueueState nat :=
  synced (mkLimits 2 100 5 true) [7; 3; 9; 4]%nat [9]%nat.

Lemma sample_queue_inv : queue_inv sample_queue.
Proof. apply synced_inv; apply (bool_decide_unpack _); vm_compute; exact I. Qed.

Example sample_run :
  view <$> steps sample_queue [MoveUp 9; RemoveMany [7]; AddMany [5; 3]; MoveToTop 4]%nat
  = Ok ([4; 9; 3; 5]%nat, [9]%nat).
Proof. vm_compute. reflexivity. Qed.

Lemma restore_after_remove_witness :
  restore_membership (remove sample_queue 9%nat) 9%nat (mkSnapshot (Some 2%nat) (Some 0%nat))
  = Ok sample_queue.
Proof. exact (restore_after_remove sample_queue 9%nat sample_queue_inv). Defined.

Lemma active_download_slots_exact_witness :
  active_download_slots sample_queue = [9; 7]%nat.
Proof. exact (active_download_slots_exact sample_queue sample_queue_inv). Defined.

Lemma position_exact_witness : position sample_queue 9%nat = Some 3%nat.
Proof.
  apply (proj2 (position_exact sample_queue 9%nat 3%nat sample_queue_inv)).
  split; [lia|reflexivity].
Defined.
