(* ===== verification/Endgame.v ===== *)
(** * Endgame: [crates/swarmotter-core/src/endgame.rs]

    The tracker of duplicate block requests near the end of a download.  The
    specification is one number per block, the requests outstanding for it
    ([spec_step]); [endgame_run] shows that the hash set and the count map
    together implement it, and that no block ever exceeds the duplicate cap. *)

From S2P Require Import Prelude.

Definition ENDGAME_THRESHOLD : Z := 4.

Definition is_endgame (remaining_pieces : Z) : bool :=
  (remaining_pieces >? 0) && (remaining_pieces <=? ENDGAME_THRESHOLD).

(** A block: piece index and byte offset within the piece, both [u32]. *)
Abbreviation block := (Z * Z)%type.

Record OutstandingRequests : Type := mkOutstanding {
  pending : gset block;
  max_duplicates : Z;
  counts : gmap block Z }.

Definition new (max_duplicates : Z) : OutstandingRequests :=
  mkOutstanding ∅ (Z.max max_duplicates 1) ∅.

(** [counts.entry(key).or_insert(0)]: the entry is there even when the cap
    refuses the request. *)
Definition request (s : OutstandingRequests) (piece offset : Z) : bool * OutstandingRequests :=
  let key := (piece, offset) in
  let count := default 0 (counts s !! key) in
  if count >=? max_duplicates s
  then (false, mkOutstanding (pending s) (max_duplicates s) (<[key := count]> (counts s)))
  else (true, mkOutstanding ({[key]} ∪ pending s) (max_duplicates s)
                (<[key := count + 1]> (counts s))).

Definition delivered (s : OutstandingRequests) (piece offset : Z) : OutstandingRequests :=
  let key := (piece, offset) in
  mkOutstanding (pending s ∖ {[key]}) (max_duplicates s) (base.delete key (counts s)).

Definition cancel_request (s : OutstandingRequests) (piece offset : Z) : OutstandingRequests :=
  let key := (piece, offset) in
  match counts s !! key with
  | None => s
  | Some count =>
      let count := saturating_sub count 1 in
      if count =? 0
      then mkOutstanding (pending s ∖ {[key]}) (max_duplicates s)
             (base.delete key (<[key := count]> (counts s)))
      else mkOutstanding (pending s) (max_duplicates s) (<[key := count]> (counts s))
  end.

(** The hash set is iterated in an unspecified order; the model lists it in
    the order of [elements]. *)
Definition outstanding_for_piece (s : OutstandingRequests) (piece : Z) : list block :=
  filter (fun k => k.1 = piece) (elements (pending s)).

Definition clear_piece (s : OutstandingRequests) (piece : Z) : OutstandingRequests :=
  mkOutstanding (filter (fun k => k.1 <> piece) (pending s)) (max_duplicates s)
    (filter (fun kv : block * Z => kv.1.1 <> piece) (counts s)).

Definition total (s : OutstandingRequests) : Z := Z.of_nat (size (pending s)).

Definition duplicate_count (s : OutstandingRequests) (piece offset : Z) : Z :=
  default 0 (counts s !! (piece, offset)).

(** ** Specification *)

Inductive op : Type :=
  | Request (piece offset : Z)
  | Delivered (piece offset : Z)
  | CancelRequest (piece offset : Z)
  | ClearPiece (piece : Z).

(** The operation, with the answer [request] gives. *)
Definition step (s : OutstandingRequests) (o : op) : option bool * OutstandingRequests :=
  match o with
  | Request p q => let '(r, s) := request s p q in (Some r, s)
  | Delivered p q => (None, delivered s p q)
  | CancelRequest p q => (None, cancel_request s p q)
  | ClearPiece p => (None, clear_piece s p)
  end.

Definition upd (f : block -> Z) (k : block) (n : Z) : block -> Z :=
  fun x => if decide (x = k) then n else f x.

Definition spec_step (cap : Z) (f : block -> Z) (o : op) : option bool * (block -> Z) :=
  match o with
  | Request p q =>
      if f (p, q) <? cap then (Some true, upd f (p, q) (f (p, q) + 1)) else (Some false, f)
  | Delivered p q => (None, upd f (p, q) 0)
  | CancelRequest p q => (None, upd f (p, q) (Z.max 0 (f (p, q) - 1)))
  | ClearPiece p => (None, fun x => if decide (x.1 = p) then 0 else f x)
  end.

Fixpoint run (s : OutstandingRequests) (os : list op) : list (option bool) * OutstandingRequests :=
  match os with
  | [] => ([], s)
  | o :: os => let '(r, s) := step s o in let '(rs, s) := run s os in (r :: rs, s)
  end.

Fixpoint spec_run (cap : Z) (f : block -> Z) (os : list op) : list (option bool) * (block -> Z) :=
  match os with
  | [] => ([], f)
  | o :: os => let '(r, f) := spec_step cap f o in
               let '(rs, f) := spec_run cap f os in (r :: rs, f)
  end.

(** The counts are positive and at most the cap, and exactly the counted
    blocks are pending. *)
Record endgame_inv (s : OutstandingRequests) : Prop := {
  inv_cap : 1 <= max_duplicates s;
  inv_count : forall k n, counts s !! k = Some n -> 1 <= n <= max_duplicates s;
  inv_pending : forall k, k ∈ pending s <-> is_Some (counts s !! k) }.

(** The state holds the outstanding numbers [f]. *)
Definition implements (s : OutstandingRequests) (f : block -> Z) : Prop :=
  forall k, default 0 (counts s !! k) = f k.

(** ** Proofs *)

Lemma new_endgame_inv m : endgame_inv (new m).
Proof.
  split; cbn; [lia|done|]. intros k. rewrite lookup_empty. split; [set_solver|by intros []].
Qed.

Lemma count_range s k :
  endgame_inv s -> 0 <= default 0 (counts s !! k) <= max_duplicates s.
Proof.
  intros [Hc Hn _]. destruct (counts s !! k) eqn:E; cbn; [|lia]. apply Hn in E. lia.
Qed.

(** What a single-entry update does to the pair of set and map. *)
Lemma insert_inv s k n :
  endgame_inv s -> 1 <= n <= max_duplicates s ->
  endgame_inv (mkOutstanding ({[k]} ∪ pending s) (max_duplicates s) (<[k := n]> (counts s))).
Proof.
  intros [Hc Hn Hp] Hle. split; cbn; [done| |].
  - intros x m Hx. apply lookup_insert_Some in Hx as [[-> ->]|[_ Hx]]; eauto.
  - intros x. rewrite elem_of_union, elem_of_singleton, Hp, lookup_insert_is_Some.
    destruct (decide (x = k)); naive_solver.
Qed.

Lemma delete_inv s k :
  endgame_inv s ->
  endgame_inv (mkOutstanding (pending s ∖ {[k]}) (max_duplicates s)
                 (base.delete k (counts s))).
Proof.
  intros [Hc Hn Hp]. split; cbn; [done| |].
  - intros x m Hx. apply lookup_delete_Some in Hx as [_ Hx]. eauto.
  - intros x. rewrite elem_of_difference, elem_of_singleton, Hp, lookup_delete_is_Some.
    naive_solver.
Qed.

Lemma implements_insert s f k n p m :
  implements s f -> implements (mkOutstanding p m (<[k := n]> (counts s))) (upd f k n).
Proof.
  intros Hf x. cbn. unfold upd. case_decide as E.
  - subst. by rewrite lookup_insert_eq.
  - rewrite lookup_insert_ne by done. apply Hf.
Qed.

Lemma implements_delete s f k p m :
  implements s f -> implements (mkOutstanding p m (base.delete k (counts s))) (upd f k 0).
Proof.
  intros Hf x. cbn. unfold upd. case_decide as E.
  - subst. by rewrite lookup_delete_eq.
  - rewrite lookup_delete_ne by done. apply Hf.
Qed.

Lemma pending_known s k n :
  endgame_inv s -> counts s !! k = Some n -> {[k]} ∪ pending s = pending s.
Proof.
  intros [_ _ Hp] E. assert (k ∈ pending s) by (apply Hp; by eexists). set_solver.
Qed.

Definition step_ok (s : OutstandingRequests) (f : block -> Z) (o : op) : Prop :=
  let '(r, s') := step s o in
  let '(r', f') := spec_step (max_duplicates s) f o in
  endgame_inv s' /\ max_duplicates s' = max_duplicates s /\ r = r' /\ implements s' f'.

Lemma request_ok s f p q :
  endgame_inv s -> implements s f -> step_ok s f (Request p q).
Proof.
  intros Hs Hf. unfold step_ok. cbn [step spec_step]. unfold request.
  rewrite Hf. pose proof (count_range s (p, q) Hs) as Hr. rewrite Hf in Hr.
  rewrite Z.geb_leb. destruct (Z.leb_spec (max_duplicates s) (f (p, q))) as [Hge|Hlt].
  - rewrite (proj2 (Z.ltb_ge _ _)) by lia. pose proof (inv_cap _ Hs).
    destruct (counts s !! (p, q)) as [n|] eqn:E.
    2:{ pose proof (Hf (p, q)) as E'. rewrite E in E'. cbn in E'. lia. }
    pose proof (Hf (p, q)) as E'. rewrite E in E'. cbn in E'. subst n.
    rewrite insert_id by done. by destruct s.
  - rewrite (proj2 (Z.ltb_lt _ _)) by lia.
    split; [apply insert_inv; [done|lia]|]. repeat split; try done.
    by apply implements_insert.
Qed.

Lemma cancel_ok s f p q :
  endgame_inv s -> implements s f -> step_ok s f (CancelRequest p q).
Proof.
  intros Hs Hf. unfold step_ok. cbn [step spec_step]. unfold cancel_request.
  pose proof (Hf (p, q)) as E'. destruct (counts s !! (p, q)) as [n|] eqn:E; cbn in E'.
  - rewrite <- E'. pose proof (inv_count _ Hs _ _ E) as Hn.
    unfold saturating_sub. destruct (Z.eqb_spec (Z.max 0 (n - 1)) 0) as [Hz|Hz].
    + rewrite Hz, delete_insert_eq. split; [by apply delete_inv|].
      repeat split; try done. by apply implements_delete.
    + rewrite <- (pending_known s (p, q) n Hs E) at 1.
      split; [apply insert_inv; [done|lia]|]. repeat split; try done.
      by apply implements_insert.
  - split; [done|]. repeat split; try done. intros x. unfold upd. rewrite <- E'.
    case_decide as Ex; [subst; by rewrite E|apply Hf].
Qed.

Lemma clear_ok s f p :
  endgame_inv s -> implements s f -> step_ok s f (ClearPiece p).
Proof.
  intros Hs Hf. unfold step_ok. cbn [step spec_step]. destruct Hs as [Hc Hn Hp].
  split; [split; cbn; [done| |]|repeat split; try done].
  - intros x m Hx. apply map_lookup_filter_Some in Hx as [Hx _]. eauto.
  - intros x. rewrite elem_of_filter, Hp. split.
    + intros [Hx [n E]]. exists n. by apply map_lookup_filter_Some.
    + intros [n [E Hx]%map_lookup_filter_Some]. split; [done|by eexists].
  - intros x. cbn. case_decide as E.
    + rewrite (proj2 (map_lookup_filter_None _ _ _)); [done|]. right. naive_solver.
    + rewrite <- Hf. destruct (counts s !! x) as [n|] eqn:Ex; cbn.
      * by rewrite (proj2 (map_lookup_filter_Some _ _ _ n)).
      * rewrite (proj2 (map_lookup_filter_None _ _ _)); [done|]. by left.
Qed.

Lemma step_implements s f o : endgame_inv s -> implements s f -> step_ok s f o.
Proof.
  intros Hs Hf. destruct o; [by apply request_ok| |by apply cancel_ok|by apply clear_ok].
  unfold step_ok. cbn [step spec_step].
  split; [by apply delete_inv|]. repeat split; try done. by apply implements_delete.
Qed.

Lemma run_implements os s f :
  endgame_inv s -> implements s f ->
  let '(rs, s') := run s os in
  let '(rs', f') := spec_run (max_duplicates s) f os in
  endgame_inv s' /\ max_duplicates s' = max_duplicates s /\ rs = rs' /\ implements s' f'.
Proof.
  revert s f. induction os as [|o os IH]; intros s f Hs Hf; cbn [run spec_run]; [done|].
  pose proof (step_implements s f o Hs Hf) as Ho. unfold step_ok in Ho.
  destruct (step s o) as [r s1], (spec_step (max_duplicates s) f o) as [r' f1].
  destruct Ho as (Hs1 & Hm & -> & Hf1). specialize (IH s1 f1 Hs1 Hf1). rewrite Hm in IH.
  destruct (run s1 os) as [rs s2], (spec_run (max_duplicates s) f1 os) as [rs' f2].
  destruct IH as (? & -> & -> & ?). done.
Qed.

(** After any sequence of requests, deliveries, cancellations and piece
    clearances, the tracker answers every request and counts every block as the
    specification (one number per block) does, the blocks it reports
    outstanding for a piece are exactly those with a request left, and no block
    has more requests outstanding than the duplicate cap. *)
Theorem endgame_run (cap : Z) (os : list op) :
  let '(rs, s) := run (new cap) os in
  let '(rs', f) := spec_run (Z.max cap 1) (fun _ => 0) os in
  rs = rs' /\
  (forall p q, duplicate_count s p q = f (p, q) /\ 0 <= f (p, q) <= Z.max cap 1) /\
  (forall p q r, (q, r) ∈ outstanding_for_piece s p <-> q = p /\ 0 < f (q, r)).
Proof.
  pose proof (run_implements os (new cap) (fun _ => 0) (new_endgame_inv cap)) as Hrun.
  change (max_duplicates (new cap)) with (Z.max cap 1) in Hrun.
  destruct (run (new cap) os) as [rs s], (spec_run (Z.max cap 1) (fun _ => 0) os) as [rs' f].
  destruct Hrun as (Hs & Hm & -> & Hf); [intros k; cbn; by rewrite lookup_empty|].
  split; [done|]. split.
  - intros p q. rewrite <- Hf. split; [done|].
    pose proof (count_range s (p, q) Hs). lia.
  - intros p q r. unfold outstanding_for_piece.
    rewrite list_elem_of_filter, elem_of_elements, (inv_pending _ Hs), <- Hf. cbn [fst].
    destruct (counts s !! (q, r)) as [n|] eqn:E; cbn.
    + pose proof (inv_count _ Hs _ _ E). split; [intros [-> _]; split; [done|lia]|].
      intros [-> _]. split; [done|by eexists].
    + split; [by intros [_ []]|]. intros [_ ?]. lia.
Qed.

Example endgame_sample :
  (run (new 2) [Request 3 0; Request 3 0; Request 3 0; CancelRequest 3 0; Request 3 16384]).1
  = [Some true; Some true; Some false; None; Some true].
Proof. vm_compute. reflexivity. Qed.
