(* ===== verification/Bandwidth.v ===== *)
(** * Bandwidth: [crates/swarmotter-core/src/bandwidth.rs]

    The limits, the lock-free token bucket and the limiters built on it.

    [pc_step] is one atomic access of a thread running [refill_and_consume] or
    [set_capacity]: every load, store and weak compare-exchange of the source is
    a step of its own ([weak] is the spurious failure the hardware may add).  The
    interleavings of any number of threads are the runs of [wstep]; memory is
    sequentially consistent.  [refill], [add_tokens], [consume] and
    [set_capacity] are the same methods run without interference
    ([alone_refill_and_consume] shows that they are), and the asynchronous
    [acquire] polls them against a list of clock readings. *)

From S2P Require Import Prelude.

(** ** Limits *)

Record BandwidthLimits : Type := mkBandwidthLimits {
  global_download : Z; global_upload : Z;
  alt_download : Z; alt_upload : Z; alt_enabled : bool;
  max_peers : Z; max_peers_per_torrent : Z }.

Definition effective_download (l : BandwidthLimits) : Z :=
  if alt_enabled l then alt_download l else global_download l.
Definition effective_upload (l : BandwidthLimits) : Z :=
  if alt_enabled l then alt_upload l else global_upload l.

(** [allowed_bytes], from the nanoseconds of the duration; [as u64] wraps. *)
Definition allowed_bytes (limit nanos : Z) : Z :=
  if limit =? 0 then u64_max else wrap 64 (limit * nanos / 1000000000).

(** ** The bucket *)

Definition REFILL_IN_PROGRESS : Z := Z.shiftl 1 63.
Definition REFILL_TIME_MASK : Z := u64_max - REFILL_IN_PROGRESS.

Record AtomicTokenBucket : Type := mkBucket {
  tokens : Z; capacity : Z; last_refill_ms : Z }.

Definition new (capacity_per_sec now_ms : Z) : AtomicTokenBucket :=
  mkBucket capacity_per_sec capacity_per_sec now_ms.

Definition set_tokens (b : AtomicTokenBucket) (t : Z) := mkBucket t (capacity b) (last_refill_ms b).
Definition set_cap (b : AtomicTokenBucket) (c : Z) := mkBucket (tokens b) c (last_refill_ms b).
Definition set_last (b : AtomicTokenBucket) (t : Z) := mkBucket (tokens b) (capacity b) t.

(** The tokens a refill window is worth, and the bucket content after it. *)
Definition refill_amount (capacity now_ms last_refill : Z) : Z :=
  capacity * saturating_sub now_ms last_refill / 1000.
Definition refilled (current add capacity : Z) : Z := Z.min (current + add) capacity.

(** ** A thread, one atomic access at a time *)

Inductive pc : Type :=
  | Call (now_ms want : Z)
  | RefillLoad (now_ms want : Z)
  | RefillCas (now_ms want last_raw : Z)
  | CapacityLoad (now_ms want last_refill : Z)
  | AddLoad (now_ms want add cap : Z)
  | AddCas (now_ms want add cap current : Z)
  | RefillStore (now_ms want : Z)
  | ConsumeLoad (want : Z)
  | ConsumeCas (want current : Z)
  | Granted (allowed : Z)
  | Unlimited (want : Z)
  | SetStore (cap : Z)
  | SetLoad (cap : Z)
  | SetCas (cap current : Z)
  | SetDone.

(** A weak compare-exchange of one field: it may fail although the value is as
    expected. *)
Definition cas (weak : bool) (value expected : Z) : bool := negb weak && (value =? expected).

Definition refill_and_consume_entry (b : AtomicTokenBucket) (now_ms want : Z) : pc :=
  if capacity b =? 0 then Unlimited want
  else RefillLoad (Z.land now_ms REFILL_TIME_MASK) want.

Definition refill_step (b : AtomicTokenBucket) (weak : bool) (p : pc)
    : option (AtomicTokenBucket * pc) :=
  match p with
  | RefillLoad now_ms want =>
      let last_raw := last_refill_ms b in
      if negb (Z.land last_raw REFILL_IN_PROGRESS =? 0) then Some (b, RefillLoad now_ms want)
      else
        let last_refill := Z.land last_raw REFILL_TIME_MASK in
        if now_ms <=? last_refill then Some (b, ConsumeLoad want)
        else Some (b, RefillCas now_ms want last_raw)
  | RefillCas now_ms want last_raw =>
      if cas weak (last_refill_ms b) last_raw
      then Some (set_last b (Z.lor now_ms REFILL_IN_PROGRESS),
                 CapacityLoad now_ms want (Z.land last_raw REFILL_TIME_MASK))
      else Some (b, RefillLoad now_ms want)
  | CapacityLoad now_ms want last_refill =>
      let cap := capacity b in
      let add := refill_amount cap now_ms last_refill in
      if (cap >? 0) && (add >? 0) then Some (b, AddLoad now_ms want add cap)
      else Some (b, RefillStore now_ms want)
  | RefillStore now_ms want => Some (set_last b now_ms, ConsumeLoad want)
  | _ => None
  end.

Definition add_tokens_step (b : AtomicTokenBucket) (weak : bool) (p : pc)
    : option (AtomicTokenBucket * pc) :=
  match p with
  | AddLoad now_ms want add cap => Some (b, AddCas now_ms want add cap (tokens b))
  | AddCas now_ms want add cap current =>
      if cas weak (tokens b) current
      then Some (set_tokens b (refilled current add cap), RefillStore now_ms want)
      else Some (b, AddLoad now_ms want add cap)
  | _ => None
  end.

Definition consume_step (b : AtomicTokenBucket) (weak : bool) (p : pc)
    : option (AtomicTokenBucket * pc) :=
  match p with
  | ConsumeLoad want => Some (b, ConsumeCas want (tokens b))
  | ConsumeCas want current =>
      let allowed := Z.min want current in
      if cas weak (tokens b) current
      then Some (set_tokens b (current - allowed), Granted allowed)
      else Some (b, ConsumeLoad want)
  | _ => None
  end.

Definition set_capacity_step (b : AtomicTokenBucket) (weak : bool) (p : pc)
    : option (AtomicTokenBucket * pc) :=
  match p with
  | SetStore cap => Some (set_cap b cap, SetLoad cap)
  | SetLoad cap =>
      let current := tokens b in
      if current <=? cap then Some (b, SetDone) else Some (b, SetCas cap current)
  | SetCas cap current =>
      if cas weak (tokens b) current then Some (set_tokens b cap, SetDone)
      else Some (b, SetLoad cap)
  | _ => None
  end.

Definition pc_step (b : AtomicTokenBucket) (weak : bool) (p : pc)
    : option (AtomicTokenBucket * pc) :=
  match p with
  | Call now_ms want => Some (b, refill_and_consume_entry b now_ms want)
  | RefillLoad _ _ | RefillCas _ _ _ | CapacityLoad _ _ _ | RefillStore _ _ =>
      refill_step b weak p
  | AddLoad _ _ _ _ | AddCas _ _ _ _ _ => add_tokens_step b weak p
  | ConsumeLoad _ | ConsumeCas _ _ => consume_step b weak p
  | SetStore _ | SetLoad _ | SetCas _ _ => set_capacity_step b weak p
  | Granted _ | Unlimited _ | SetDone => None
  end.

(** ** Interleavings

    A world is the shared bucket and the threads that ever used it, finished ones
    included.  Callers come with any clock reading up to [T] and any amount;
    capacities set at run time are at most [C]. *)
Record world : Type := mkWorld { bucket : AtomicTokenBucket; threads : list pc }.

Inductive wstep (C T : Z) (w : world) : world -> Prop :=
  | wstep_call now_ms want :
      0 <= now_ms < 2 ^ 64 -> Z.land now_ms REFILL_TIME_MASK <= T -> 0 <= want ->
      wstep C T w (mkWorld (bucket w) (threads w ++ [Call now_ms want]))
  | wstep_set cap :
      0 <= cap <= C ->
      wstep C T w (mkWorld (bucket w) (threads w ++ [SetStore cap]))
  | wstep_run i p weak b' p' :
      threads w !! i = Some p -> pc_step (bucket w) weak p = Some (b', p') ->
      wstep C T w (mkWorld b' (<[i := p']> (threads w))).

Definition start (cap now_ms : Z) : world := mkWorld (new cap now_ms) [].

(** Bytes granted out of the bucket by all threads so far. *)
Definition granted_of (p : pc) : Z := match p with Granted n => n | _ => 0 end.
Definition granted (w : world) : Z := zsum granted_of (threads w).

(** A thread between winning the refill and storing the new time. *)
Definition refilling (p : pc) : bool :=
  match p with
  | CapacityLoad _ _ _ | AddLoad _ _ _ _ | AddCas _ _ _ _ _ | RefillStore _ _ => true
  | _ => false
  end.
Definition refillers (w : world) : Z := zsum (fun p => if refilling p then 1 else 0) (threads w).

(** ** The methods without interference *)

Definition add_tokens (b : AtomicTokenBucket) (add cap : Z) : AtomicTokenBucket :=
  set_tokens b (refilled (tokens b) add cap).

Definition refill (b : AtomicTokenBucket) (now_ms : Z) : AtomicTokenBucket :=
  let last_refill := Z.land (last_refill_ms b) REFILL_TIME_MASK in
  if now_ms <=? last_refill then b
  else
    let cap := capacity b in
    let add := refill_amount cap now_ms last_refill in
    set_last (if (cap >? 0) && (add >? 0) then add_tokens b add cap else b) now_ms.

Definition consume (b : AtomicTokenBucket) (want : Z) : Z * AtomicTokenBucket :=
  let allowed := Z.min want (tokens b) in (allowed, set_tokens b (tokens b - allowed)).

Definition refill_and_consume (b : AtomicTokenBucket) (now_ms want : Z)
    : Z * AtomicTokenBucket :=
  if capacity b =? 0 then (want, b)
  else consume (refill b (Z.land now_ms REFILL_TIME_MASK)) want.

Definition set_capacity (b : AtomicTokenBucket) (cap : Z) : AtomicTokenBucket :=
  let b := set_cap b cap in if tokens b <=? cap then b else set_tokens b cap.

(** ** Limiters

    The buckets live in a store; a limiter holds their locations, so clones of
    one limiter share its buckets. *)
Inductive RateDirection : Type := Download | Upload.

Record RateLimiter : Type := mkLimiter { download_loc : nat; upload_loc : nat }.

Definition loc_of (l : RateLimiter) (dir : RateDirection) : nat :=
  match dir with Download => download_loc l | Upload => upload_loc l end.

Record ShapedLimiter : Type := mkShaped { per_torrent : RateLimiter; global : option RateLimiter }.

Abbreviation store := (gmap nat AtomicTokenBucket).

(** Residual wait of one poll, in milliseconds. *)
Definition sleep_ms (bytes cap : Z) : Z :=
  Z.min (if cap =? 0 then 1 else wrap 64 (Z.max (bytes * 1000 / cap) 1)) 500.

(** The polling loop, one clock reading per turn; the times it sleeps are
    returned.  A list that ends before the loop does is missing fuel. *)
Fixpoint acquire_loop (b : AtomicTokenBucket) (bytes : Z) (clock : list Z) (slept : list Z)
    : outcome (AtomicTokenBucket * list Z * list Z) :=
  if capacity b =? 0 then Ok (b, clock, slept)
  else
    match clock with
    | [] => OutOfFuel
    | now_ms :: clock =>
        let cap := capacity b in
        let '(allowed, b) := refill_and_consume b now_ms bytes in
        if allowed >=? bytes then Ok (b, clock, slept)
        else acquire_loop b (bytes - allowed) clock (slept ++ [sleep_ms (bytes - allowed) cap])
    end.

Definition acquire (s : store) (l : RateLimiter) (dir : RateDirection) (bytes : Z)
    (clock : list Z) : outcome (store * list Z) :=
  if bytes =? 0 then Ok (s, clock)
  else
    match s !! loc_of l dir with
    | None => Panic
    | Some b =>
        '(b, clock, _) ← acquire_loop b bytes clock [];
        Ok (<[loc_of l dir := b]> s, clock)
    end.

Definition shaped_acquire (s : store) (l : ShapedLimiter) (dir : RateDirection) (bytes : Z)
    (clock : list Z) : outcome (store * list Z) :=
  '(s, clock) ← acquire s (per_torrent l) dir bytes clock;
  match global l with
  | Some g => acquire s g dir bytes clock
  | None => Ok (s, clock)
  end.

Definition limiter_set_capacity (s : store) (l : RateLimiter) (dir : RateDirection) (cap : Z)
    : outcome store :=
  match s !! loc_of l dir with
  | None => Panic
  | Some b => Ok (<[loc_of l dir := set_capacity b cap]> s)
  end.

(** ** The flag bit *)

Lemma time_mask x : 0 <= x -> Z.land x REFILL_TIME_MASK = x mod 2 ^ 63.
Proof. intros. change REFILL_TIME_MASK with (Z.ones 63). by rewrite Z.land_ones by lia. Qed.

Lemma flag_clear x : 0 <= x < 2 ^ 63 -> Z.land x REFILL_IN_PROGRESS = 0.
Proof.
  intros Hx. change REFILL_IN_PROGRESS with (2 ^ 63). apply Z.bits_inj'. intros n Hn.
  rewrite Z.land_spec, Z.bits_0, Z.pow2_bits_eqb by lia.
  destruct (Z.eqb_spec 63 n) as [<-|]; [|apply andb_false_r].
  rewrite Z.testbit_eqb, Z.div_small by lia. done.
Qed.

Lemma flag_set x : 2 ^ 63 <= x < 2 ^ 64 -> Z.land x REFILL_IN_PROGRESS <> 0.
Proof.
  intros Hx E. apply (f_equal (fun z => Z.testbit z 63)) in E.
  change REFILL_IN_PROGRESS with (2 ^ 63) in E.
  rewrite Z.land_spec, Z.bits_0, Z.pow2_bits_eqb, andb_true_r in E by lia.
  rewrite Z.testbit_eqb in E by lia.
  replace (x / 2 ^ 63) with 1 in E by (apply (Z.div_unique _ _ _ (x - 2 ^ 63)); lia).
  done.
Qed.

Lemma flag_or x : 0 <= x < 2 ^ 63 -> Z.lor x REFILL_IN_PROGRESS = x + 2 ^ 63.
Proof.
  intros Hx. pose proof (flag_clear x Hx) as E.
  rewrite <- Z.lxor_lor, <- Z.add_nocarry_lxor by done. done.
Qed.

(** ** The accounting invariant *)

Definition stamp (b : AtomicTokenBucket) : Z := last_refill_ms b mod 2 ^ 63.

(** Thousandths of tokens a refilling thread may still add. *)
Definition pending_credit (C : Z) (p : pc) : Z :=
  match p with
  | CapacityLoad now_ms _ last_refill => C * (now_ms - last_refill)
  | AddLoad _ _ add _ | AddCas _ _ add _ _ => 1000 * add
  | _ => 0
  end.

Definition pc_ok (C T L : Z) (p : pc) : Prop :=
  match p with
  | Call now_ms want => 0 <= now_ms < 2 ^ 64 /\ Z.land now_ms REFILL_TIME_MASK <= T /\ 0 <= want
  | RefillLoad now_ms want => 0 <= now_ms < 2 ^ 63 /\ now_ms <= T /\ 0 <= want
  | RefillCas now_ms want last_raw =>
      0 <= last_raw < now_ms /\ now_ms < 2 ^ 63 /\ now_ms <= T /\ 0 <= want
  | CapacityLoad now_ms want last_refill => 0 <= last_refill < now_ms /\ now_ms = L /\ 0 <= want
  | AddLoad now_ms want add cap | AddCas now_ms want add cap _ =>
      now_ms = L /\ 0 <= add /\ 0 <= cap <= C /\ 0 <= want
  | RefillStore now_ms want => now_ms = L /\ 0 <= want
  | ConsumeLoad want | ConsumeCas want _ => 0 <= want
  | Granted n | Unlimited n => 0 <= n
  | SetStore cap | SetLoad cap => 0 <= cap <= C
  | SetCas cap current => 0 <= cap <= C /\ cap < current
  | SetDone => True
  end.

Definition is_refilling (p : pc) : Z := if refilling p then 1 else 0.

Record bucket_inv (C T t0 : Z) (w : world) : Prop := {
  inv_tokens : 0 <= tokens (bucket w) <= C;
  inv_capacity : 0 <= capacity (bucket w) <= C;
  inv_last : 0 <= last_refill_ms (bucket w) < 2 ^ 64;
  inv_stamp : stamp (bucket w) <= T;
  inv_pcs : Forall (pc_ok C T (stamp (bucket w))) (threads w);
  inv_refillers :
    zsum is_refilling (threads w) = if last_refill_ms (bucket w) <? 2 ^ 63 then 0 else 1;
  inv_credit :
    1000 * (tokens (bucket w) + zsum granted_of (threads w))
    + zsum (pending_credit C) (threads w)
    <= 1000 * C + C * (stamp (bucket w) - t0) }.

(** The effect of a step of one thread on the invariant is its effect on the
    bucket and on that thread's own summands. *)
Definition step_inv (C T : Z) (b b' : AtomicTokenBucket) (p p' : pc) : Prop :=
  0 <= tokens b' <= C /\ 0 <= capacity b' <= C /\ 0 <= last_refill_ms b' < 2 ^ 64 /\
  stamp b' <= T /\ pc_ok C T (stamp b') p' /\
  (stamp b' = stamp b \/ last_refill_ms b < 2 ^ 63) /\
  is_refilling p' - is_refilling p
  = (if last_refill_ms b' <? 2 ^ 63 then 0 else 1) - (if last_refill_ms b <? 2 ^ 63 then 0 else 1) /\
  1000 * (tokens b' - tokens b + (granted_of p' - granted_of p))
  + (pending_credit C p' - pending_credit C p) <= C * (stamp b' - stamp b).

Lemma is_refilling_range p : 0 <= is_refilling p <= 1.
Proof. unfold is_refilling. destruct (refilling p); lia. Qed.

Lemma pc_ok_stamp C T L L' p : is_refilling p = 0 -> pc_ok C T L p -> pc_ok C T L' p.
Proof. unfold is_refilling. destruct p; cbn; try done. Qed.

Lemma step_inv_world C T t0 w i p b' p' :
  bucket_inv C T t0 w -> threads w !! i = Some p -> step_inv C T (bucket w) b' p p' ->
  bucket_inv C T t0 (mkWorld b' (<[i := p']> (threads w))).
Proof.
  intros [H1 H2 H3 H4 H5 H6 H7] Hi (S1 & S2 & S3 & S4 & S5 & S6 & S7 & S8).
  split; cbn [bucket threads]; try done.
  - apply Forall_insert; [|done]. destruct S6 as [->|Hclear]; [done|].
    rewrite (proj2 (Z.ltb_lt _ _) Hclear) in H6.
    apply Forall_forall. intros q Hq. rewrite Forall_forall in H5.
    apply (pc_ok_stamp C T (stamp (bucket w))); [|by apply H5].
    apply list_elem_of_lookup in Hq as [j Hj].
    pose proof (zsum_ge is_refilling _ j q (fun a _ => proj1 (is_refilling_range a)) Hj).
    pose proof (is_refilling_range q). lia.
  - rewrite (zsum_insert _ _ _ p) by done. lia.
  - rewrite !(zsum_insert _ _ _ p) by done. lia.
Qed.

Lemma stamp_small b : 0 <= last_refill_ms b < 2 ^ 63 -> stamp b = last_refill_ms b.
Proof. apply Z.mod_small. Qed.

(** A thread that is refilling proves that the flag is set. *)
Lemma refilling_flag C T t0 w i p :
  bucket_inv C T t0 w -> threads w !! i = Some p -> refilling p = true ->
  2 ^ 63 <= last_refill_ms (bucket w).
Proof.
  intros [_ _ _ _ _ H6 _] Hi Hp.
  pose proof (zsum_ge is_refilling _ i p (fun a _ => proj1 (is_refilling_range a)) Hi) as Hge.
  unfold is_refilling at 1 in Hge. rewrite Hp in Hge.
  destruct (Z.ltb_spec (last_refill_ms (bucket w)) (2 ^ 63)); lia.
Qed.

Lemma cas_true weak v e : cas weak v e = true -> v = e.
Proof. unfold cas. destruct weak; cbn; [done|]. by intros ?%Z.eqb_eq. Qed.

(** What each step may assume of the bucket. *)
Definition bucket_ok (C T : Z) (b : AtomicTokenBucket) : Prop :=
  0 <= tokens b <= C /\ 0 <= capacity b <= C /\ 0 <= last_refill_ms b < 2 ^ 64 /\ stamp b <= T.

Lemma stamp_set_tokens b t : stamp (set_tokens b t) = stamp b.
Proof. done. Qed.
Lemma stamp_set_cap b c : stamp (set_cap b c) = stamp b.
Proof. done. Qed.

Ltac step_simpl :=
  unfold step_inv, is_refilling; rewrite ?stamp_set_tokens, ?stamp_set_cap;
  cbn [refilling granted_of pending_credit pc_ok set_tokens set_cap set_last
       tokens capacity last_refill_ms].

Lemma refill_step_inv C T b weak p b' p' :
  0 <= C -> bucket_ok C T b -> pc_ok C T (stamp b) p ->
  (refilling p = true -> 2 ^ 63 <= last_refill_ms b) ->
  refill_step b weak p = Some (b', p') -> step_inv C T b b' p p'.
Proof.
  intros HC (H1 & H2 & H3 & H4) Hp Hflag Hstep.
  destruct p as [| | | | | | |want| | | | | | |]; try done; cbn in Hstep, Hp.
  - destruct (Z.eqb_spec (Z.land (last_refill_ms b) REFILL_IN_PROGRESS) 0) as [E|E];
      cbn in Hstep; [|simplify_eq; step_simpl; repeat split; auto; lia].
    assert (Hlast : 0 <= last_refill_ms b < 2 ^ 63).
    { destruct (Z.lt_ge_cases (last_refill_ms b) (2 ^ 63)); [lia|].
      by destruct (flag_set (last_refill_ms b) ltac:(lia)). }
    rewrite time_mask, Z.mod_small in Hstep by lia.
    destruct (Z.leb_spec now_ms (last_refill_ms b)); simplify_eq; step_simpl;
      repeat split; auto; lia.
  - destruct (cas weak (last_refill_ms b) last_raw) eqn:E; simplify_eq;
      [|step_simpl; repeat split; auto; lia].
    apply cas_true in E. subst last_raw. destruct Hp as (Hr & Hn & HT & Hw).
    rewrite flag_or, time_mask, (Z.mod_small (last_refill_ms b)) by lia.
    assert (Hs : stamp (set_last b (now_ms + 2 ^ 63)) = now_ms).
    { unfold stamp. cbn. rewrite <- (Z.mul_1_l (2 ^ 63)) at 1.
      rewrite Z.mod_add by lia. apply Z.mod_small. lia. }
    rewrite (stamp_small b) in * by lia.
    unfold step_inv. rewrite Hs. step_simpl. rewrite stamp_small by lia.
    rewrite (proj2 (Z.ltb_lt (last_refill_ms b) _)), (proj2 (Z.ltb_ge (now_ms + 2 ^ 63) _)) by lia.
    repeat split; try lia.
  - destruct Hp as (Hr & -> & Hw). specialize (Hflag eq_refl).
    assert (Hadd : forall cap, 0 <= cap <= C ->
      0 <= refill_amount cap (stamp b) last_refill /\
      1000 * refill_amount cap (stamp b) last_refill <= C * (stamp b - last_refill)).
    { intros cap Hcap. unfold refill_amount, saturating_sub. rewrite Z.max_r by lia.
      split; [apply Z.div_pos; nia|].
      etransitivity; [apply Z.mul_div_le; lia|nia]. }
    destruct ((capacity b >? 0) && _) eqn:E; simplify_eq; step_simpl;
      pose proof (Hadd (capacity b') ltac:(lia)); repeat split; auto; try lia; nia.
  - destruct Hp as [-> Hw]. specialize (Hflag eq_refl). simplify_eq.
    assert (Hs : stamp (set_last b (stamp b)) = stamp b).
    { unfold stamp. cbn. apply Z.mod_mod. lia. }
    assert (0 <= stamp b < 2 ^ 63) by (apply Z.mod_pos_bound; lia).
    unfold step_inv. rewrite Hs. step_simpl.
    rewrite (proj2 (Z.ltb_lt (stamp b) _)), (proj2 (Z.ltb_ge (last_refill_ms b) _)) by lia.
    repeat split; auto; lia.
Qed.

Lemma add_tokens_step_inv C T b weak p b' p' :
  0 <= C -> bucket_ok C T b -> pc_ok C T (stamp b) p ->
  add_tokens_step b weak p = Some (b', p') -> step_inv C T b b' p p'.
Proof.
  intros HC (H1 & H2 & H3 & H4) Hp Hstep.
  destruct p; try done; cbn in Hstep, Hp.
  - simplify_eq. step_simpl. repeat split; auto; lia.
  - destruct (cas weak (tokens b) current) eqn:E; simplify_eq;
      [|step_simpl; repeat split; auto; lia].
    apply cas_true in E. subst current. unfold refilled.
    step_simpl. repeat split; auto; lia.
Qed.

Lemma consume_step_inv C T b weak p b' p' :
  0 <= C -> bucket_ok C T b -> pc_ok C T (stamp b) p ->
  consume_step b weak p = Some (b', p') -> step_inv C T b b' p p'.
Proof.
  intros HC (H1 & H2 & H3 & H4) Hp Hstep.
  destruct p; try done; cbn in Hstep, Hp.
  - simplify_eq. step_simpl. repeat split; auto; lia.
  - destruct (cas weak (tokens b) current) eqn:E; simplify_eq;
      [|step_simpl; repeat split; auto; lia].
    apply cas_true in E. subst current.
    step_simpl. repeat split; auto; lia.
Qed.

Lemma set_capacity_step_inv C T b weak p b' p' :
  0 <= C -> bucket_ok C T b -> pc_ok C T (stamp b) p ->
  set_capacity_step b weak p = Some (b', p') -> step_inv C T b b' p p'.
Proof.
  intros HC (H1 & H2 & H3 & H4) Hp Hstep.
  destruct p; try done; cbn in Hstep, Hp.
  - simplify_eq. step_simpl. repeat split; auto; lia.
  - destruct (Z.leb_spec (tokens b) cap); simplify_eq; step_simpl; repeat split; auto; lia.
  - destruct (cas weak (tokens b) current) eqn:E; simplify_eq;
      [|step_simpl; repeat split; auto; lia].
    apply cas_true in E. step_simpl. repeat split; auto; lia.
Qed.

Lemma pc_step_inv C T b weak p b' p' :
  0 <= C -> bucket_ok C T b -> pc_ok C T (stamp b) p ->
  (refilling p = true -> 2 ^ 63 <= last_refill_ms b) ->
  pc_step b weak p = Some (b', p') -> step_inv C T b b' p p'.
Proof.
  intros HC Hb Hp Hflag Hstep.
  assert (Hcall : forall now want, p = Call now want -> step_inv C T b b' p p').
  { intros now want ->. cbn in Hstep, Hp. simplify_eq. destruct Hp as (Hn & HT & Hw).
    pose proof (Z.mod_pos_bound now (2 ^ 63) ltac:(lia)).
    destruct Hb as (? & ? & ? & ?).
    unfold refill_and_consume_entry. rewrite time_mask in * by lia.
    destruct (capacity b' =? 0); step_simpl; repeat split; auto; lia. }
  destruct p; try exact (Hcall _ _ eq_refl); cbn [pc_step] in Hstep; try done;
    first [by eapply refill_step_inv | by eapply add_tokens_step_inv
          |by eapply consume_step_inv | by eapply set_capacity_step_inv].
Qed.

Lemma wstep_inv C T t0 w w' :
  0 <= C -> bucket_inv C T t0 w -> wstep C T w w' -> bucket_inv C T t0 w'.
Proof.
  intros HC Hw Hstep.
  assert (Hb : bucket_ok C T (bucket w)) by (destruct Hw; repeat split; lia).
  destruct Hstep as [now want Hn HT Hwant|cap Hcap|i p weak b' p' Hi Hp].
  - destruct Hw as [H1 H2 H3 H4 H5 H6 H7]. split; cbn [bucket threads]; try done.
    + apply Forall_app_2; [done|]. by apply Forall_singleton.
    + rewrite zsum_app, zsum_single, H6. cbn. lia.
    + rewrite !zsum_app, !zsum_single. cbn. lia.
  - destruct Hw as [H1 H2 H3 H4 H5 H6 H7]. split; cbn [bucket threads]; try done.
    + apply Forall_app_2; [done|]. by apply Forall_singleton.
    + rewrite zsum_app, zsum_single, H6. cbn. lia.
    + rewrite !zsum_app, !zsum_single. cbn. lia.
  - eapply step_inv_world; [done..|]. eapply pc_step_inv; [done..| | |done].
    + destruct Hw as [_ _ _ _ H5 _ _]. by eapply (Forall_lookup_1 _ _ _ _ H5).
    + by apply (refilling_flag C T t0 w i).
Qed.

Lemma start_inv C T cap t0 :
  0 <= cap <= C -> 0 <= t0 <= T -> t0 < 2 ^ 63 -> bucket_inv C T t0 (start cap t0).
Proof.
  intros Hc Ht Ht'. split; cbn; try done; try lia.
  - unfold stamp. cbn. rewrite Z.mod_small by lia. lia.
  - by rewrite (proj2 (Z.ltb_lt _ _)).
  - rewrite !zsum_nil. unfold stamp. cbn. rewrite Z.mod_small by lia. lia.
Qed.

Lemma runs_inv C T cap t0 w :
  0 <= cap <= C -> 0 <= t0 <= T -> t0 < 2 ^ 63 ->
  rtc (wstep C T) (start cap t0) w -> bucket_inv C T t0 w.
Proof.
  intros Hc Ht Ht' Hrun.
  cut (forall a, rtc (wstep C T) a w -> bucket_inv C T t0 a -> bucket_inv C T t0 w).
  { intros Hcut. eapply Hcut; [done|by apply start_inv]. }
  clear Hrun. induction 1; [done|]. intros Ha. apply IHrtc. eapply wstep_inv; [lia|done..].
Qed.

(** ** The methods without interference *)

(** Run one thread alone, with no spurious failure, until it finishes. *)
Fixpoint run_alone (fuel : nat) (b : AtomicTokenBucket) (p : pc) : AtomicTokenBucket * pc :=
  match fuel with
  | O => (b, p)
  | S fuel =>
      match pc_step b false p with
      | Some (b, p) => run_alone fuel b p
      | None => (b, p)
      end
  end.

Lemma run_alone_step fuel b p b' p' :
  pc_step b false p = Some (b', p') -> run_alone (S fuel) b p = run_alone fuel b' p'.
Proof. intros E. cbn [run_alone]. by rewrite E. Qed.

Lemma run_alone_consume fuel b want :
  run_alone (S (S (S fuel))) b (ConsumeLoad want)
  = ((consume b want).2, Granted (consume b want).1).
Proof.
  cbn. unfold cas. rewrite Z.eqb_refl. cbn. by destruct fuel.
Qed.

Lemma run_alone_add fuel b now want add cap :
  run_alone (S (S fuel)) b (AddLoad now want add cap)
  = run_alone fuel (add_tokens b add cap) (RefillStore now want).
Proof. cbn. unfold cas. by rewrite Z.eqb_refl. Qed.

(** The credit of a bucket in thousandths of a token: what it holds less what
    its clock has already been paid for. *)
Definition credit (b : AtomicTokenBucket) : Z :=
  1000 * tokens b - capacity b * last_refill_ms b.

Definition quiet (b : AtomicTokenBucket) : Prop :=
  0 <= last_refill_ms b < 2 ^ 63 /\ 0 < capacity b /\ 0 <= tokens b.

Lemma refill_credit b now :
  quiet b -> 0 <= now < 2 ^ 63 ->
  quiet (refill b now) /\ capacity (refill b now) = capacity b /\
  credit (refill b now) <= credit b /\ last_refill_ms (refill b now) = Z.max now (last_refill_ms b).
Proof.
  intros (H1 & H2 & H3) Hn. unfold refill. rewrite time_mask, Z.mod_small by lia.
  destruct (Z.leb_spec now (last_refill_ms b)) as [Hle|Hlt].
  { rewrite Z.max_r by lia. done. }
  assert (Ha : 0 <= refill_amount (capacity b) now (last_refill_ms b) /\
    1000 * refill_amount (capacity b) now (last_refill_ms b)
    <= capacity b * (now - last_refill_ms b)).
  { unfold refill_amount, saturating_sub. rewrite Z.max_r by lia.
    split; [apply Z.div_pos; nia|apply Z.mul_div_le; lia]. }
  unfold credit, quiet, refilled.
  destruct ((capacity b >? 0) && _); cbn; unfold refilled; repeat split; lia.
Qed.

Lemma consume_credit b want :
  quiet b -> 0 <= want ->
  0 <= (consume b want).1 <= want /\ quiet (consume b want).2 /\
  capacity (consume b want).2 = capacity b /\
  credit (consume b want).2 = credit b - 1000 * (consume b want).1.
Proof.
  intros (H1 & H2 & H3) Hw. unfold quiet, credit. cbn. lia.
Qed.

Lemma poll_credit b now want :
  quiet b -> 0 <= now < 2 ^ 64 -> 0 <= want ->
  let '(allowed, b') := refill_and_consume b now want in
  0 <= allowed <= want /\ quiet b' /\ capacity b' = capacity b /\
  credit b' <= credit b - 1000 * allowed.
Proof.
  intros Hq Hn Hw. unfold refill_and_consume. pose proof Hq as (_ & Hc & _).
  rewrite (proj2 (Z.eqb_neq _ _)) by lia. rewrite time_mask by lia.
  pose proof (Z.mod_pos_bound now (2 ^ 63) ltac:(lia)) as Hm.
  destruct (refill_credit b _ Hq Hm) as (Hq' & Hcap & Hcr & _).
  destruct (consume_credit _ want Hq' Hw) as (Ha & Hq'' & Hcap' & Hcr').
  destruct (consume _ want) as [allowed b']. cbn [fst snd] in *.
  split; [lia|]. split; [done|]. split; lia.
Qed.

Lemma acquire_loop_credit clock b bytes slept b' rest slept' :
  quiet b -> 0 <= bytes -> Forall (fun t => 0 <= t < 2 ^ 64) clock ->
  acquire_loop b bytes clock slept = Ok (b', rest, slept') ->
  quiet b' /\ capacity b' = capacity b /\ credit b' <= credit b - 1000 * bytes /\
  Forall (fun t => 0 <= t < 2 ^ 64) rest.
Proof.
  revert b bytes slept. induction clock as [|now clock IH]; intros b bytes slept Hq Hb Hc;
    cbn [acquire_loop]; pose proof Hq as (_ & Hcap & _);
    rewrite (proj2 (Z.eqb_neq _ _)) by lia; [done|].
  apply Forall_cons in Hc as [Hn Hc].
  pose proof (poll_credit b now bytes Hq Hn Hb) as Hp.
  destruct (refill_and_consume b now bytes) as [allowed b1].
  destruct Hp as (Ha & Hq1 & Hcap1 & Hcr). rewrite Z.geb_leb.
  destruct (Z.leb_spec bytes allowed); intros E.
  - injection E as -> -> _. split; [done|]. split; [lia|]. split; [lia|done].
  - destruct (IH b1 (bytes - allowed) _ Hq1 ltac:(lia) Hc E) as (? & ? & ? & ?).
    split; [done|]. split; [lia|]. split; [lia|done].
Qed.

(** Each turn of at least a second since the last refill grants a byte. *)
Lemma poll_progress b now want :
  quiet b -> last_refill_ms b + 1000 <= now < 2 ^ 63 -> 0 < want ->
  1 <= (refill_and_consume b now want).1 /\
  last_refill_ms (refill_and_consume b now want).2 = now.
Proof.
  intros (H1 & H2 & H3) Hn Hw. unfold refill_and_consume, refill.
  rewrite (proj2 (Z.eqb_neq _ _)) by lia.
  rewrite !time_mask by lia. rewrite (Z.mod_small now), (Z.mod_small (last_refill_ms b)) by lia.
  rewrite (proj2 (Z.leb_gt _ _)) by lia.
  assert (Ha : 1 <= refill_amount (capacity b) now (last_refill_ms b)).
  { unfold refill_amount, saturating_sub. rewrite Z.max_r by lia.
    apply Z.div_le_lower_bound; nia. }
  rewrite !Z.gtb_ltb, (proj2 (Z.ltb_lt 0 (capacity b))), (proj2 (Z.ltb_lt 0 _)) by lia.
  cbn. unfold refilled. lia.
Qed.

(** Clock readings at least a second apart. *)
Fixpoint spaced (last : Z) (clock : list Z) : Prop :=
  match clock with
  | [] => True
  | t :: clock => last + 1000 <= t < 2 ^ 63 /\ spaced t clock
  end.

Lemma acquire_loop_returns clock b bytes slept :
  quiet b -> 0 < bytes <= len clock -> spaced (last_refill_ms b) clock ->
  exists b' rest slept', acquire_loop b bytes clock slept = Ok (b', rest, slept').
Proof.
  revert b bytes slept. induction clock as [|now clock IH]; intros b bytes slept Hq Hb Hc;
    [unfold len in Hb; cbn in Hb; lia|]. rewrite len_cons in Hb. destruct Hc as [Hn Hc].
  cbn [acquire_loop]. pose proof Hq as (H1 & Hcap & _).
  rewrite (proj2 (Z.eqb_neq _ _)) by lia.
  pose proof (poll_credit b now bytes Hq ltac:(lia) ltac:(lia)) as Hp.
  destruct (poll_progress b now bytes Hq ltac:(lia) ltac:(lia)) as [Hone Hlast].
  destruct (refill_and_consume b now bytes) as [allowed b1].
  destruct Hp as (Ha & Hq1 & _). cbn [fst snd] in *. rewrite Z.geb_leb.
  destruct (Z.leb_spec bytes allowed); [by eexists _, _, _|].
  apply IH; [done|lia|by rewrite Hlast].
Qed.

(** A clock that advances by the half second the loop sleeps. *)
Fixpoint half_seconds (n : nat) (t : Z) : list Z :=
  match n with O => [] | S n => t :: half_seconds n (t + 500) end.

Lemma acquire_starves_from n b t bytes slept :
  capacity b = 1 -> tokens b = 0 -> last_refill_ms b + 500 = t -> 0 <= last_refill_ms b ->
  t + 500 * Z.of_nat n < 2 ^ 63 -> 0 < bytes < 2 ^ 50 ->
  acquire_loop b bytes (half_seconds n t) slept = OutOfFuel.
Proof.
  revert b t slept. induction n as [|n IH]; intros b t slept Hcap Htok Ht H0 Hn Hb;
    cbn [half_seconds acquire_loop]; rewrite Hcap; [done|]. change (1 =? 0) with false. cbn iota.
  assert (E : refill_and_consume b t bytes = (0, set_tokens (set_last b t) 0)).
  { unfold refill_and_consume, refill, refill_amount, saturating_sub. rewrite Hcap.
    change (1 =? 0) with false. cbn iota.
    rewrite !time_mask, (Z.mod_small t), (Z.mod_small (last_refill_ms b)) by lia.
    rewrite (proj2 (Z.leb_gt _ _)) by lia.
    replace (1 * Z.max 0 (t - last_refill_ms b) / 1000) with 0
      by (replace (Z.max 0 (t - last_refill_ms b)) with 500 by lia; done).
    unfold consume. cbn. rewrite Htok, Z.min_r by lia. done. }
  rewrite E, Z.geb_leb, (proj2 (Z.leb_gt bytes 0)) by lia.
  rewrite Z.sub_0_r. apply IH; cbn; try done; lia.
Qed.

(** ** Schedules, to run concrete interleavings *)

Inductive action : Type :=
  | ACall (now_ms want : Z)
  | ASet (cap : Z)
  | ARun (i : nat) (weak : bool).

Definition act (C T : Z) (w : world) (a : action) : option world :=
  match a with
  | ACall now want =>
      if (0 <=? now) && (now <? 2 ^ 64) && (Z.land now REFILL_TIME_MASK <=? T) && (0 <=? want)
      then Some (mkWorld (bucket w) (threads w ++ [Call now want])) else None
  | ASet cap =>
      if (0 <=? cap) && (cap <=? C)
      then Some (mkWorld (bucket w) (threads w ++ [SetStore cap])) else None
  | ARun i weak =>
      p ← threads w !! i;
      '(b, p) ← pc_step (bucket w) weak p;
      Some (mkWorld b (<[i := p]> (threads w)))
  end.
Fixpoint acts (C T : Z) (w : world) (l : list action) : option world :=
  match l with
  | [] => Some w
  | a :: l => w ← act C T w a; acts C T w l
  end.

Lemma act_wstep C T w a w' : act C T w a = Some w' -> wstep C T w w'.
Proof.
  destruct a as [now want|cap|i weak]; cbn.
  - destruct (_ && _) eqn:E; [|done]. intros [= <-]. constructor; lia.
  - destruct (_ && _) eqn:E; [|done]. intros [= <-]. constructor; lia.
  - destruct (threads w !! i) as [p|] eqn:Hp; [|done]. cbn.
    destruct (pc_step (bucket w) weak p) as [[b p']|] eqn:Hs; [|done]. cbn.
    intros [= <-]. by eapply wstep_run.
Qed.

Lemma acts_rtc C T l w w' : acts C T w l = Some w' -> rtc (wstep C T) w w'.
Proof.
  revert w. induction l as [|a l IH]; intros w; cbn.
  - by intros [= ->].
  - destruct (act C T w a) as [w1|] eqn:Ha; [|done]. cbn. intros Hl.
    apply act_wstep in Ha. eapply rtc_l; eauto.
Qed.

(** ** Properties *)

(** C25: In every interleaving of callers and capacity changes, with spurious
    compare-exchange failures, at most one thread is refilling, the bucket stays
    between zero and the largest capacity [C] ever set, and all bytes granted
    until the clock shows [T] are at most one full bucket plus [C] bytes for
    every second since the bucket was made: no elapsed time is counted twice. *)
Theorem token_bucket_rate (C T cap t0 : Z) (w : world)
    (Hcap : 0 <= cap <= C) (Ht : 0 <= t0 <= T) (Ht0 : t0 < 2 ^ 63)
    (Hrun : rtc (wstep C T) (start cap t0) w) :
  refillers w <= 1 /\ 0 <= tokens (bucket w) <= C /\
  1000 * granted w <= 1000 * C + C * (T - t0).
Proof.
  destruct (runs_inv C T cap t0 w Hcap Ht Ht0 Hrun) as [H1 H2 H3 H4 H5 H6 H7].
  split; [unfold refillers; fold is_refilling; rewrite H6; by destruct (_ <? _)|].
  split; [done|]. unfold granted.
  assert (0 <= zsum (pending_credit C) (threads w)).
  { apply zsum_nonneg. intros p Hp. rewrite Forall_forall in H5. specialize (H5 p Hp).
    destruct p; cbn in *; try lia; nia. }
  assert (C * (stamp (bucket w) - t0) <= C * (T - t0)) by nia. lia.
Qed.

(** Two callers race for the same window: one wins the refill, the other spins,
    and both are served from it. *)
Definition sample_schedule : list action :=
  [ACall 500 600; ACall 500 900; ARun 0 false; ARun 1 false; ARun 0 false; ARun 1 false;
   ARun 0 true; ARun 0 false; ARun 0 false; ARun 1 false; ARun 1 false; ARun 0 false;
   ARun 0 false; ARun 0 false; ARun 0 false; ARun 0 false; ARun 0 false;
   ARun 1 false; ARun 1 false; ARun 1 false].
Definition sample_world : world :=
  default (start 1000 0) (acts 1000 500 (start 1000 0) sample_schedule).
Lemma sample_world_reached : rtc (wstep 1000 500) (start 1000 0) sample_world.
Proof. apply (acts_rtc _ _ sample_schedule). vm_compute. reflexivity. Qed.
Example sample_world_threads : threads sample_world = [Granted 600; Granted 400].
Proof. vm_compute. reflexivity. Qed.

Lemma token_bucket_rate_witness :
  1000 * granted sample_world <= 1000 * 1000 + 1000 * (500 - 0).
Proof.
  exact (proj2 (proj2 (token_bucket_rate 1000 500 1000 0 sample_world
    ltac:(lia) ltac:(lia) ltac:(lia) sample_world_reached))).
Defined.

(** A caller that meets no other thread runs [refill_and_consume] to the end
    in at most eleven accesses, with the result and the bucket of the
    sequential definition. *)
Theorem alone_refill_and_consume (b : AtomicTokenBucket) (now want : Z)
    (Hb : 0 <= last_refill_ms b < 2 ^ 63) (Hn : 0 <= now < 2 ^ 64) :
  run_alone 11 b (Call now want) =
  ((refill_and_consume b now want).2,
   if capacity b =? 0 then Unlimited want else Granted (refill_and_consume b now want).1).
Proof.
  rewrite (run_alone_step _ _ _ b (refill_and_consume_entry b now want)) by done.
  unfold refill_and_consume_entry, refill_and_consume. destruct (capacity b =? 0) eqn:Ec.
  { done. }
  unfold refill. set (m := Z.land now REFILL_TIME_MASK).
  assert (Hm : 0 <= m < 2 ^ 63) by (subst m; rewrite time_mask by lia; apply Z.mod_pos_bound; lia).
  assert (Hl : Z.land (last_refill_ms b) REFILL_TIME_MASK = last_refill_ms b)
    by (rewrite time_mask by lia; apply Z.mod_small; lia).
  destruct (Z.leb_spec m (Z.land (last_refill_ms b) REFILL_TIME_MASK)) as [Hle|Hlt].
  { rewrite (run_alone_step _ _ _ b (ConsumeLoad want)); [by rewrite run_alone_consume|].
    cbn. rewrite flag_clear by lia. cbn. by rewrite (proj2 (Z.leb_le _ _)). }
  rewrite (run_alone_step _ _ _ b (RefillCas m want (last_refill_ms b))).
  2:{ cbn. rewrite flag_clear by lia. cbn. by rewrite (proj2 (Z.leb_gt _ _)) by lia. }
  erewrite run_alone_step.
  2:{ cbn [pc_step refill_step]. unfold cas. rewrite Z.eqb_refl. cbn [negb andb]. reflexivity. }
  set (add := refill_amount (capacity b) m (Z.land (last_refill_ms b) REFILL_TIME_MASK)).
  destruct ((capacity b >? 0) && (add >? 0)) eqn:Ea.
  - rewrite (run_alone_step _ _ _ (set_last b (Z.lor m REFILL_IN_PROGRESS))
      (AddLoad m want add (capacity b)))
      by (cbn [pc_step refill_step set_last capacity]; fold add; by rewrite Ea).
    rewrite run_alone_add. erewrite run_alone_step by (cbn; reflexivity).
    by rewrite run_alone_consume.
  - rewrite (run_alone_step _ _ _ (set_last b (Z.lor m REFILL_IN_PROGRESS))
      (RefillStore m want))
      by (cbn [pc_step refill_step set_last capacity]; fold add; by rewrite Ea).
    erewrite run_alone_step by (cbn; reflexivity).
    by rewrite run_alone_consume.
Qed.

Lemma alone_refill_and_consume_witness :
  run_alone 11 (mkBucket 100 1000 0) (Call 500 900) = (mkBucket 0 1000 500, Granted 600).
Proof. exact (alone_refill_and_consume (mkBucket 100 1000 0) 500 900 ltac:(cbn; lia) ltac:(lia)). Defined.

(** A shaped transfer that returns has paid for every byte out of the
    per-torrent bucket and again out of the global one: both credits (tokens
    less the time already paid for) fall by at least the bytes, and no other
    bucket changes. *)
Theorem shaped_acquire_spends (s s' : store) (lp lg : RateLimiter) (dir : RateDirection)
    (bytes : Z) (clock rest : list Z) (bp bg : AtomicTokenBucket)
    (Hp : s !! loc_of lp dir = Some bp) (Hg : s !! loc_of lg dir = Some bg)
    (Hne : loc_of lp dir <> loc_of lg dir) (Hqp : quiet bp) (Hqg : quiet bg)
    (Hbytes : 0 <= bytes) (Hclock : Forall (fun t => 0 <= t < 2 ^ 64) clock)
    (Hrun : shaped_acquire s (mkShaped lp (Some lg)) dir bytes clock = Ok (s', rest)) :
  exists bp' bg', s' = <[loc_of lg dir := bg']> (<[loc_of lp dir := bp']> s) /\
    credit bp' <= credit bp - 1000 * bytes /\ credit bg' <= credit bg - 1000 * bytes.
Proof.
  unfold shaped_acquire, acquire in Hrun. cbn [per_torrent global] in Hrun.
  destruct (Z.eqb_spec bytes 0) as [->|Hb0].
  { cbn in Hrun. simplify_eq. exists bp, bg.
    rewrite (insert_id _ (loc_of lp dir)), insert_id by done. split; [done|lia]. }
  rewrite Hp in Hrun. apply bind_Ok in Hrun as ([s1 c1] & H1 & H2).
  apply bind_Ok in H1 as ([[bp' c1'] z1] & H1 & E1). injection E1 as <- <-.
  destruct (acquire_loop_credit clock bp bytes [] bp' c1' z1 Hqp Hbytes Hclock H1)
    as (_ & _ & Hcp & Hc1).
  rewrite lookup_insert_ne, Hg in H2 by done.
  apply bind_Ok in H2 as ([[bg' c2] z2] & H2 & E2). injection E2 as <- <-.
  destruct (acquire_loop_credit c1' bg bytes [] bg' c2 z2 Hqg Hbytes Hc1 H2) as (_ & _ & Hcg & _).
  by exists bp', bg'.
Qed.

Lemma shaped_acquire_spends_witness :
  exists bp' bg',
    (<[1%nat := mkBucket 50 100 0]> (<[0%nat := mkBucket 0 1000 2]> ∅) : store)
    = <[1%nat := bg']> (<[0%nat := bp']> (<[1%nat := mkBucket 100 100 0]>
        (<[0%nat := mkBucket 48 1000 0]> ∅))) /\
    credit bp' <= credit (mkBucket 48 1000 0) - 1000 * 50 /\
    credit bg' <= credit (mkBucket 100 100 0) - 1000 * 50.
Proof.
  apply (shaped_acquire_spends
    (<[1%nat := mkBucket 100 100 0]> (<[0%nat := mkBucket 48 1000 0]> ∅))
    (<[1%nat := mkBucket 50 100 0]> (<[0%nat := mkBucket 0 1000 2]> ∅))
    (mkLimiter 0 0) (mkLimiter 1 1) Download 50 [0; 2; 0] [] (mkBucket 48 1000 0)
    (mkBucket 100 100 0)); try done; try (unfold quiet; cbn; lia).
  - repeat constructor; lia.
Defined.

(** A transfer on a limited bucket returns: [bytes] polls are enough when
    the clock moves a second or more between polls. *)
Theorem acquire_returns (b : AtomicTokenBucket) (bytes : Z) (clock : list Z)
    (Hb : quiet b) (Hbytes : 0 < bytes <= len clock)
    (Hclock : spaced (last_refill_ms b) clock) :
  exists b' rest slept, acquire_loop b bytes clock [] = Ok (b', rest, slept).
Proof. by apply acquire_loop_returns. Qed.

Lemma acquire_returns_witness :
  exists b' rest slept, acquire_loop (mkBucket 0 1 0) 2 [1000; 2000] [] = Ok (b', rest, slept).
Proof.
  apply (acquire_returns (mkBucket 0 1 0) 2 [1000; 2000]); cbn; try done.
Defined.

(** With a limit of one byte per second and an empty bucket, a transfer
    whose every sleep lasts exactly the half second the loop asks for never
    returns: each refill rounds half a token down to nothing and still moves the
    refill time on. *)
Theorem acquire_starves_at_one_byte_per_second (n : nat)
    (Hn : 500 * Z.of_nat n < 2 ^ 62) :
  sleep_ms 1 1 = 500 /\ acquire_loop (mkBucket 0 1 0) 1 (half_seconds n 500) [] = OutOfFuel.
Proof.
  split; [done|]. apply acquire_starves_from; cbn; try done; lia.
Qed.

Lemma acquire_starves_witness :
  acquire_loop (mkBucket 0 1 0) 1 (half_seconds 1000 500) [] = OutOfFuel.
Proof. exact (proj2 (acquire_starves_at_one_byte_per_second 1000 ltac:(lia))). Defined.
