(* ===== verification/Ratio.v ===== *)
(** * Ratio: [crates/swarmotter-core/src/ratio.rs]

    Seeding limits.  An [f64] is a [spec_float] of the binary64 format (53 bits of
    precision, exponents up to 1024), so the ratio and its comparison with the
    limit round as the hardware does. *)

From Stdlib Require Import Floats.SpecFloat.
From S2P Require Import Prelude.

Abbreviation f64 := spec_float.
(** [x as f64] for an unsigned [x]: round to nearest, ties to even. *)
Definition as_f64 (x : Z) : f64 := binary_normalize 53 1024 x 0 false.
Definition f64_div (x y : f64) : f64 := SFdiv 53 1024 x y.
Definition f64_eqb (x y : f64) : bool := SFeqb x y.
(** [x >= y]: false when either is not a number. *)
Definition f64_geb (x y : f64) : bool := SFleb y x.
Definition f64_zero : f64 := S754_zero false.

Record SeedingPolicy : Type := mkPolicy {
  global_ratio_limit : option f64; global_idle_limit : option Z }.
Definition default_global_ratio_limit : option f64 := Some (as_f64 2).
Definition default_global_idle_limit : option Z := Some 1800.
Definition default_policy : SeedingPolicy :=
  mkPolicy default_global_ratio_limit default_global_idle_limit.

Record TorrentSeeding : Type := mkSeeding {
  ratio_limit : option f64; idle_limit : option Z; seed_forever : bool }.

Definition option_or {A} (a b : option A) : option A :=
  match a with Some _ => a | None => b end.

Definition effective_ratio_limit (t : TorrentSeeding) (global : SeedingPolicy) : option f64 :=
  if negb (seed_forever t) then option_or (ratio_limit t) (global_ratio_limit global) else None.
Definition effective_idle_limit (t : TorrentSeeding) (global : SeedingPolicy) : option Z :=
  if negb (seed_forever t) then option_or (idle_limit t) (global_idle_limit global) else None.

Record TorrentAccounting : Type := mkAccounting {
  downloaded : Z; uploaded : Z; idle_seconds : Z }.

Definition ratio (a : TorrentAccounting) : f64 :=
  if downloaded a =? 0 then f64_zero
  else f64_div (as_f64 (uploaded a)) (as_f64 (downloaded a)).

Inductive SeedDecision : Type := Continue | StopOnRatio | StopOnIdle.

Definition ratio_reached (acc : TorrentAccounting) (limit : f64) : bool :=
  f64_eqb limit f64_zero || ((downloaded acc >? 0) && f64_geb (ratio acc) limit).

Definition evaluate_seeding (acc : TorrentAccounting) (global : SeedingPolicy)
    (per : TorrentSeeding) : SeedDecision :=
  if seed_forever per then Continue
  else
    match effective_ratio_limit per global with
    | Some limit =>
        if ratio_reached acc limit then StopOnRatio
        else
          match effective_idle_limit per global with
          | Some idle => if idle_seconds acc >=? idle then StopOnIdle else Continue
          | None => Continue
          end
    | None =>
        match effective_idle_limit per global with
        | Some idle => if idle_seconds acc >=? idle then StopOnIdle else Continue
        | None => Continue
        end
    end.

(** The limit in force for a torrent: its own, or the global one it inherits. *)
Definition in_force {A} (own global : option A) (x : A) : Prop :=
  own = Some x \/ (own = None /\ global = Some x).

Lemma effective_in_force {A} (own global : option A) x :
  option_or own global = Some x <-> in_force own global x.
Proof. unfold in_force. destruct own; cbn; naive_solver. Qed.

Ltac destruct_ex := repeat match goal with H : ex _ |- _ => destruct H as (? & ? & ?) end.

(** Seeding stops on ratio exactly when the torrent is not seeded forever and
    the ratio limit in force is zero, or something was downloaded and the rounded
    ratio is at least the limit; it stops on idleness exactly when it does not
    stop on ratio and the idle time reaches the idle limit in force. *)
Theorem evaluate_seeding_exact (acc : TorrentAccounting) (g : SeedingPolicy) (t : TorrentSeeding) :
  (evaluate_seeding acc g t = StopOnRatio <->
   seed_forever t = false /\
   exists limit, in_force (ratio_limit t) (global_ratio_limit g) limit /\
     (f64_eqb limit f64_zero = true \/
      (0 < downloaded acc /\
       f64_geb (f64_div (as_f64 (uploaded acc)) (as_f64 (downloaded acc))) limit = true))) /\
  (evaluate_seeding acc g t = StopOnIdle <->
   evaluate_seeding acc g t <> StopOnRatio /\ seed_forever t = false /\
   exists idle, in_force (idle_limit t) (global_idle_limit g) idle /\ idle <= idle_seconds acc).
Proof.
  assert (Hr : forall limit, ratio_reached acc limit = true <->
    f64_eqb limit f64_zero = true \/
    (0 < downloaded acc /\
     f64_geb (f64_div (as_f64 (uploaded acc)) (as_f64 (downloaded acc))) limit = true)).
  { intros limit. unfold ratio_reached, ratio. rewrite Z.gtb_ltb.
    destruct (Z.ltb_spec 0 (downloaded acc)).
    - rewrite (proj2 (Z.eqb_neq _ _)) by lia. rewrite orb_true_iff, andb_true_iff. naive_solver.
    - rewrite orb_false_r. naive_solver lia. }
  setoid_rewrite <- Hr. setoid_rewrite <- effective_in_force.
  unfold evaluate_seeding, effective_ratio_limit, effective_idle_limit.
  destruct (seed_forever t); cbn [negb]; [naive_solver|].
  destruct (option_or (ratio_limit t) (global_ratio_limit g)) as [limit|];
    [destruct (ratio_reached acc limit) eqn:E|];
    (destruct (option_or (idle_limit t) (global_idle_limit g)) as [idle|]);
    rewrite ?Z.geb_leb; try destruct (Z.leb_spec idle (idle_seconds acc));
    (split; (split; [intros ?; simplify_eq; eauto 10|
                    intros ?; destruct_and?; destruct_ex; simplify_eq; try done; try lia; congruence])).
Qed.

Example ratio_two : evaluate_seeding (mkAccounting 1000 2000 0) default_policy
  (mkSeeding None None false) = StopOnRatio.
Proof. vm_compute. reflexivity. Qed.
Example ratio_below : evaluate_seeding (mkAccounting 1000 1999 10) default_policy
  (mkSeeding None None false) = Continue.
Proof. vm_compute. reflexivity. Qed.
