(* ===== verification/Containment.v ===== *)
(** * Network containment: configuration and health

    [net/config.rs], [net/mod.rs] and [models/network.rs] of swarmotter-core: the
    validation of a network configuration and the evaluation of the configured
    path against a probe of the host.  [url::Host::parse] is a parameter, and the
    probe is a record of operations, as the trait is. *)

From S2P Require Import Prelude.
From S2P Require Import Text.
From S2P Require Import Addr.

Inductive NetworkContainmentMode : Type := ModeDisabled | Preferred | Strict.

Inductive NetworkContainmentStatus : Type :=
  | Healthy | Disabled | InterfaceMissing | InterfaceDown | NoInterfaceAddress
  | SourceAddressMissing | RouteInvalid | SocketBindFailed | DnsNotConstrained
  | NetworkNamespaceUnavailable | BlockedFailClosed.

#[export] Instance mode_eq_dec : EqDecision NetworkContainmentMode.
Proof. solve_decision. Defined.
#[export] Instance status_eq_dec : EqDecision NetworkContainmentStatus.
Proof. solve_decision. Defined.

Definition as_str (s : NetworkContainmentStatus) : string :=
  match s with
  | Healthy => "healthy"
  | Disabled => "disabled"
  | InterfaceMissing => "interface_missing"
  | InterfaceDown => "interface_down"
  | NoInterfaceAddress => "no_interface_address"
  | SourceAddressMissing => "source_address_missing"
  | RouteInvalid => "route_invalid"
  | SocketBindFailed => "socket_bind_failed"
  | DnsNotConstrained => "dns_not_constrained"
  | NetworkNamespaceUnavailable => "network_namespace_unavailable"
  | BlockedFailClosed => "blocked_fail_closed"
  end.

Definition status_traffic_allowed (s : NetworkContainmentStatus) : bool :=
  match s with Healthy | Disabled => true | _ => false end.
Definition is_fail_closed (s : NetworkContainmentStatus) : bool := negb (status_traffic_allowed s).

(** ** Configuration *)

Record Socks5ProxyConfig : Type := mkSocks5 {
  enabled : bool;
  host : option (list byte);
  socks_port : Z;
  username : option (list byte);
  password : option (list byte) }.

Record NetworkConfig : Type := mkNetworkConfig {
  mode : NetworkContainmentMode;
  required_interface : option (list byte);
  required_source_ipv4 : option (list byte);
  required_source_ipv6 : option (list byte);
  required_network_namespace : option (list byte);
  allow_ipv6 : bool;
  fail_closed : bool;
  validate_route : bool;
  validate_dns : bool;
  socks5 : Socks5ProxyConfig }.

Definition DEFAULT_SOCKS5_PROXY_PORT : Z := 1080.

Definition default_socks5 : Socks5ProxyConfig :=
  mkSocks5 false None DEFAULT_SOCKS5_PROXY_PORT None None.
Definition default_network_config : NetworkConfig :=
  mkNetworkConfig Strict None None None None true true false false default_socks5.

Definition is_some {A} (o : option A) : bool := match o with Some _ => true | None => false end.

(** What [url::Host::parse] returns. *)
Inductive Host : Type := Domain (d : list byte) | HostAddress (a : IpAddr).

Section Validation.
Variable host_parse : list byte -> option Host.

Definition normalized_host (c : Socks5ProxyConfig) : outcome (list byte) :=
  raw ← ok_or (host c) (InvalidConfig "network.socks5.host is required when enabled");
  let raw := trim raw in
  _ ← fail_if (len raw =? 0) (InvalidConfig "network.socks5.host must not be empty when set");
  h ← ok_or (host_parse raw) (InvalidConfig "network.socks5.host is invalid");
  match h with
  | Domain domain => Ok domain
  | HostAddress address => Ok (fmt_ip address)
  end.

Definition has_authentication (c : Socks5ProxyConfig) : bool :=
  is_some (username c) && is_some (password c).

Definition validate_socks5 (c : Socks5ProxyConfig) : outcome () :=
  _ ← fail_if (socks_port c =? 0) (InvalidConfig "network.socks5.port must be greater than 0");
  _ ← (if is_some (host c) then
         h ← normalized_host c;
         fail_if (len h >? 255) (InvalidConfig "network.socks5.host must be at most 255 bytes")
       else
         fail_if (enabled c) (InvalidConfig
           "network.socks5.host is required when network.socks5.enabled is true"));
  match username c, password c with
  | None, None => Ok ()
  | Some u, Some p =>
      _ ← fail_if ((len u =? 0) || (len u >? 255))
            (InvalidConfig "network.socks5.username must contain 1 to 255 bytes");
      fail_if ((len p =? 0) || (len p >? 255))
        (InvalidConfig "network.socks5.password must contain 1 to 255 bytes")
  | _, _ => Err (InvalidConfig
      "network.socks5.username and network.socks5.password must be set together")
  end.

Definition validate (c : NetworkConfig) : outcome () :=
  _ ← validate_socks5 (socks5 c);
  _ ← (if decide (mode c = Strict) then
         let has_path := is_some (required_interface c) || is_some (required_source_ipv4 c)
           || is_some (required_source_ipv6 c) || is_some (required_network_namespace c) in
         _ ← fail_if (negb has_path) (InvalidConfig
               "strict network containment requires a configured network path");
         fail_if (negb (allow_ipv6 c) && is_some (required_source_ipv6 c))
           (InvalidConfig "required_source_ipv6 set but allow_ipv6 is false")
       else Ok ());
  _ ← match required_source_ipv4 c with
      | Some ip => fail_if (negb (is_some (parse_ipv4 ip)))
          (InvalidConfig "required_source_ipv4 is not a valid IPv4 address")
      | None => Ok ()
      end;
  match required_source_ipv6 c with
  | Some ip => fail_if (negb (is_some (parse_ipv6 ip)))
      (InvalidConfig "required_source_ipv6 is not a valid IPv6 address")
  | None => Ok ()
  end.
End Validation.

(** ** The host *)

Inductive InterfaceStatus : Type := Up | Down | UnknownStatus.
#[export] Instance InterfaceStatus_eq_dec : EqDecision InterfaceStatus.
Proof. solve_decision. Defined.

Record InterfaceInfo : Type := mkInterfaceInfo {
  if_name : list byte; if_status : InterfaceStatus; addresses : list IpAddr }.

Record InterfaceProbe : Type := mkProbe {
  find : list byte -> option InterfaceInfo;
  source_assigned : list byte -> option (list byte) -> bool;
  route_valid : NetworkConfig -> bool;
  dns_constrained : NetworkConfig -> bool;
  namespace_available : list byte -> bool }.

(** ** Evaluation *)

Record NetworkHealth : Type := mkHealth {
  health_mode : NetworkContainmentMode;
  health_status : NetworkContainmentStatus;
  health_interface : option (list byte);
  health_ipv4 : option (list byte);
  health_ipv6 : option (list byte);
  health_allow_ipv6 : bool;
  health_fail_closed : bool;
  detail : list byte;
  traffic_allowed : bool }.

Definition blocked (m : NetworkContainmentMode) (s : NetworkContainmentStatus) (d : list byte)
    : NetworkHealth :=
  mkHealth m s None None None false (bool_decide (m = Strict)) d (status_traffic_allowed s).

Definition has_usable_interface_address (addrs : list IpAddr) (allow_ipv6 : bool) : bool :=
  existsb (fun addr =>
    match addr with
    | V4 _ => negb (is_unspecified addr)
    | V6 _ => allow_ipv6 && negb (is_unspecified addr)
    end) addrs.

(** The checks in order, each asked for by the configuration; the first that fails
    names the status. *)
Definition check_interface (c : NetworkConfig) (p : InterfaceProbe)
    : option NetworkContainmentStatus :=
  match required_interface c with
  | Some iface =>
      match find p iface with
      | None => Some InterfaceMissing
      | Some info =>
          if decide (if_status info = Up) then
            if has_usable_interface_address (addresses info) (allow_ipv6 c) then None
            else Some NoInterfaceAddress
          else Some InterfaceDown
      end
  | None => None
  end.

Definition check_namespace (c : NetworkConfig) (p : InterfaceProbe) : bool :=
  match required_network_namespace c with Some ns => namespace_available p ns | None => true end.

Definition check_sources (c : NetworkConfig) (p : InterfaceProbe) : bool :=
  match required_source_ipv4 c with
  | Some src => source_assigned p src (required_interface c)
  | None => true
  end &&
  (if allow_ipv6 c then
     match required_source_ipv6 c with
     | Some src => source_assigned p src (required_interface c)
     | None => true
     end
   else true).

Definition compute_status (c : NetworkConfig) (p : InterfaceProbe) : NetworkContainmentStatus :=
  if decide (mode c = ModeDisabled) then Disabled
  else
    match check_interface c p with
    | Some status => status
    | None =>
        if negb (check_namespace c p) then NetworkNamespaceUnavailable
        else if negb (check_sources c p) then SourceAddressMissing
        else if validate_route c && negb (route_valid p c) then RouteInvalid
        else if validate_dns c && negb (dns_constrained p c) then DnsNotConstrained
        else Healthy
    end.

Definition or_question (o : option (list byte)) : list byte :=
  match o with Some s => s | None => bytes_of "?" end.

Definition detail_for (c : NetworkConfig) (s : NetworkContainmentStatus) : list byte :=
  let iface := or_question (required_interface c) in
  match s with
  | Healthy => bytes_of "torrent data plane is healthy"
  | Disabled => bytes_of "network containment disabled"
  | InterfaceMissing =>
      bytes_of "required torrent network interface " ++ iface ++ bytes_of " is not available"
  | InterfaceDown => bytes_of "required torrent network interface " ++ iface ++ bytes_of " is down"
  | NoInterfaceAddress =>
      bytes_of "required torrent network interface " ++ iface ++ bytes_of " has no usable address"
  | SourceAddressMissing => bytes_of "required source address is not assigned"
  | RouteInvalid => bytes_of "required route is missing or invalid"
  | SocketBindFailed => bytes_of "binding torrent sockets to the configured path failed"
  | DnsNotConstrained => bytes_of "DNS behavior is not constrained as configured"
  | NetworkNamespaceUnavailable =>
      bytes_of "required network namespace " ++ or_question (required_network_namespace c)
      ++ bytes_of " is unavailable"
  | BlockedFailClosed => bytes_of "torrent networking blocked by fail-closed policy"
  end.

Definition evaluate (c : NetworkConfig) (p : InterfaceProbe) : NetworkHealth :=
  let status := compute_status c p in
  mkHealth (mode c) status (required_interface c) (required_source_ipv4 c)
    (required_source_ipv6 c) (allow_ipv6 c) (fail_closed c) (detail_for c status)
    (status_traffic_allowed status).

Definition enforce (c : NetworkConfig) (p : InterfaceProbe) : outcome NetworkHealth :=
  let health := evaluate c p in
  if bool_decide (mode c = Strict) && fail_closed c && negb (traffic_allowed health)
  then Err (NetworkBlocked "torrent data plane blocked")
  else Ok health.

(** ** What a usable path is *)

(** Everything the configuration asks of the host holds. *)
Record path_usable (c : NetworkConfig) (p : InterfaceProbe) : Prop := {
  path_interface : forall iface, required_interface c = Some iface ->
    exists info, find p iface = Some info /\ if_status info = Up /\
      exists a, a ∈ addresses info /\ is_unspecified a = false /\
        (ip_is_ipv6 a = true -> allow_ipv6 c = true);
  path_namespace : forall ns, required_network_namespace c = Some ns ->
    namespace_available p ns = true;
  path_ipv4 : forall src, required_source_ipv4 c = Some src ->
    source_assigned p src (required_interface c) = true;
  path_ipv6 : forall src, allow_ipv6 c = true -> required_source_ipv6 c = Some src ->
    source_assigned p src (required_interface c) = true;
  path_route : validate_route c = true -> route_valid p c = true;
  path_dns : validate_dns c = true -> dns_constrained p c = true }.

Lemma usable_address_iff addrs allow :
  has_usable_interface_address addrs allow = true <->
  exists a, a ∈ addrs /\ is_unspecified a = false /\ (ip_is_ipv6 a = true -> allow = true).
Proof.
  unfold has_usable_interface_address. rewrite existsb_exists. split.
  - intros (a & Hin & Ha). exists a. split; [by apply list_elem_of_In|].
    destruct a; [|apply andb_true_iff in Ha as [-> Ha]];
      apply negb_true_iff in Ha; cbn [ip_is_ipv6]; naive_solver.
  - intros (a & Hin & Ha & H6). exists a. split; [by apply list_elem_of_In|].
    destruct a; rewrite Ha; [done|]. by rewrite H6.
Qed.

Lemma check_sources_iff c p :
  check_sources c p = true <->
  (forall src, required_source_ipv4 c = Some src -> source_assigned p src (required_interface c) = true) /\
  (forall src, allow_ipv6 c = true -> required_source_ipv6 c = Some src ->
     source_assigned p src (required_interface c) = true).
Proof.
  unfold check_sources. rewrite andb_true_iff.
  destruct (required_source_ipv4 c), (allow_ipv6 c), (required_source_ipv6 c); naive_solver.
Qed.

Lemma check_namespace_iff c p :
  check_namespace c p = true <->
  forall ns, required_network_namespace c = Some ns -> namespace_available p ns = true.
Proof. unfold check_namespace. destruct (required_network_namespace c); naive_solver. Qed.

Lemma check_interface_iff c p :
  check_interface c p = None <->
  forall iface, required_interface c = Some iface ->
    exists info, find p iface = Some info /\ if_status info = Up /\
      exists a, a ∈ addresses info /\ is_unspecified a = false /\
        (ip_is_ipv6 a = true -> allow_ipv6 c = true).
Proof.
  unfold check_interface. destruct (required_interface c) as [iface|]; [|naive_solver].
  destruct (find p iface) as [info|] eqn:Ef; [|naive_solver].
  destruct (decide (if_status info = Up)) as [Hup|Hup]; [|naive_solver].
  pose proof (usable_address_iff (addresses info) (allow_ipv6 c)) as Hu.
  destruct (has_usable_interface_address _ _); naive_solver.
Qed.

Lemma implied_check (asked ok : bool) : asked && negb ok = false <-> (asked = true -> ok = true).
Proof. destruct asked, ok; naive_solver. Qed.

Lemma check_interface_status c p s :
  check_interface c p = Some s -> status_traffic_allowed s = false.
Proof. unfold check_interface. repeat case_match; naive_solver. Qed.

Lemma path_usable_iff c p :
  path_usable c p <->
  check_interface c p = None /\ check_namespace c p = true /\ check_sources c p = true /\
  validate_route c && negb (route_valid p c) = false /\
  validate_dns c && negb (dns_constrained p c) = false.
Proof.
  rewrite check_interface_iff, check_namespace_iff, check_sources_iff, !implied_check.
  split; [intros []; naive_solver|]. intros (? & ? & [? ?] & ? & ?). by split.
Qed.

Lemma status_allowed_iff c p :
  status_traffic_allowed (compute_status c p) = true <-> mode c = ModeDisabled \/ path_usable c p.
Proof.
  rewrite path_usable_iff. unfold compute_status.
  destruct (decide (mode c = ModeDisabled)); [naive_solver|].
  destruct (check_interface c p) as [s|] eqn:E.
  { rewrite (check_interface_status _ _ _ E). naive_solver. }
  destruct (check_namespace c p), (check_sources c p), (validate_route c && _),
    (validate_dns c && _); cbn; naive_solver.
Qed.

(** Traffic is allowed exactly when containment is disabled or everything the
    configuration asks of the host holds: a required interface that is up with a
    usable address, the namespace, the source addresses, the route and the DNS
    constraint.  In strict fail-closed mode [enforce] denies, with the
    network-blocked error, exactly when the path is not usable; in every other
    mode it never fails. *)
Theorem enforce_exact (c : NetworkConfig) (p : InterfaceProbe) :
  (traffic_allowed (evaluate c p) = true <-> mode c = ModeDisabled \/ path_usable c p) /\
  (enforce c p = Ok (evaluate c p) <->
     (mode c = Strict -> fail_closed c = true -> path_usable c p)) /\
  ((exists msg, enforce c p = Err (NetworkBlocked msg)) <->
     mode c = Strict /\ fail_closed c = true /\ ~ path_usable c p).
Proof.
  pose proof (status_allowed_iff c p) as H. unfold enforce. cbn [traffic_allowed evaluate].
  split; [done|].
  destruct (bool_decide_reflect (mode c = Strict)) as [E|E]; [|naive_solver].
  rewrite E in H. destruct (fail_closed c), (status_traffic_allowed (compute_status c p));
    cbn; naive_solver.
Qed.
