(* ===== verification/Gate.v ===== *)
(** * The containment gate under concurrency

    [containment_gate.rs] of swarmotterd, and the way the contained sockets of
    [netbinder.rs] use it.  Every atomic operation and every locked section is one
    step, so that any number of calls interleave at the granularity of the code
    (all orderings are SeqCst).  tokio's [Notify] is an interface with the laws
    its documentation states: a [Notified] future receives the wakeups of every
    [notify_waiters] after its creation. *)

From S2P Require Import Prelude.
From S2P Require Import Text.
From S2P Require Import Addr.
From S2P Require Import Containment.

(** ** The interface of [tokio::sync::Notify]

    A future is named by the task that owns it; creating a new one replaces the
    task's old one. *)
Class NotifyOps (N : Type) := {
  notify_new : N;
  notified_future : nat -> N -> N;
  notify_waiters : N -> N;
  is_notified : nat -> N -> bool }.

Class NotifyLaws (N : Type) `{NotifyOps N} := {
  waits : nat -> N -> Prop;
  future_waits : forall i n, waits i (notified_future i n);
  future_keeps : forall i j n, waits i n -> waits i (notified_future j n);
  notify_keeps : forall i n, waits i n -> waits i (notify_waiters n);
  notify_wakes : forall i n, waits i n -> is_notified i (notify_waiters n) = true;
  future_keeps_wake : forall i j n,
    i <> j -> is_notified i n = true -> is_notified i (notified_future j n) = true }.

(** ** The gate *)

Record ContainmentGate (N : Type) : Type := mkGate {
  allowed : bool;
  stopped : bool;
  generation : Z;
  gate_status : option NetworkContainmentStatus;
  gate_detail : list byte;
  notify : N }.
Arguments mkGate {N}.
Arguments allowed {N}.
Arguments stopped {N}.
Arguments generation {N}.
Arguments gate_status {N}.
Arguments gate_detail {N}.
Arguments notify {N}.

(** Where a call is.  [Io...] is an operation of a contained socket or listener:
    [enforce], the generation, then a biased [select] of the cancellation and the
    operation itself, which [IoDone] completed. *)
Inductive pc : Type :=
  | StopStore
  | BlockStore (s : NetworkContainmentStatus) (d : list byte)
  | BlockStatus (s : NetworkContainmentStatus) (d : list byte)
  | BlockDetail (d : list byte)
  | BlockBump
  | BlockNotify
  | AllowCheck
  | AllowSwap
  | AllowBump
  | AllowStatus
  | AllowDetail
  | AllowNotify
  | EnforceStopped
  | EnforceAllowed
  | EnforceDetail
  | EnforceStatus (d : list byte)
  | Enforced (denied : option (list byte))
  | WaitCreate (start : Z)
  | WaitLoad (start : Z)
  | WaitAwait (start : Z)
  | Cancelled
  | IoStopped
  | IoAllowed
  | IoGeneration
  | IoCreate (start : Z)
  | IoLoad (start : Z)
  | IoTry (start : Z)
  | IoPark (start : Z)
  | IoDenied
  | IoCancelled
  | IoDone
  | Finished.

#[export] Instance pc_eq_dec : EqDecision pc.
Proof. solve_decision. Defined.

Section Gate.
Context {N : Type} `{NotifyOps N}.

Definition new (traffic_allowed : bool) : ContainmentGate N :=
  mkGate traffic_allowed false 0 None [] notify_new.

Definition set_allowed (g : ContainmentGate N) (b : bool) : ContainmentGate N :=
  mkGate b (stopped g) (generation g) (gate_status g) (gate_detail g) (notify g).
Definition set_stopped (g : ContainmentGate N) : ContainmentGate N :=
  mkGate (allowed g) true (generation g) (gate_status g) (gate_detail g) (notify g).
Definition bump (g : ContainmentGate N) : ContainmentGate N :=
  mkGate (allowed g) (stopped g) (wrap 64 (generation g + 1)) (gate_status g) (gate_detail g) (notify g).
Definition set_gate_status (g : ContainmentGate N) (s : option NetworkContainmentStatus)
    : ContainmentGate N :=
  mkGate (allowed g) (stopped g) (generation g) s (gate_detail g) (notify g).
Definition set_gate_detail (g : ContainmentGate N) (d : list byte) : ContainmentGate N :=
  mkGate (allowed g) (stopped g) (generation g) (gate_status g) d (notify g).
Definition set_notify (g : ContainmentGate N) (n : N) : ContainmentGate N :=
  mkGate (allowed g) (stopped g) (generation g) (gate_status g) (gate_detail g) n.

Definition gate_traffic_allowed (g : ContainmentGate N) : bool := negb (stopped g) && allowed g.

(** [stop] stores the flag and goes on as [block]. *)
Definition stop_step (g : ContainmentGate N) (p : pc) : option (ContainmentGate N * pc) :=
  match p with
  | StopStore => Some (set_stopped g, BlockStore BlockedFailClosed (bytes_of "daemon stopping"))
  | _ => None
  end.

Definition block_step (g : ContainmentGate N) (p : pc) : option (ContainmentGate N * pc) :=
  match p with
  | BlockStore s d => Some (set_allowed g false, BlockStatus s d)
  | BlockStatus s d => Some (set_gate_status g (Some s), BlockDetail d)
  | BlockDetail d => Some (set_gate_detail g d, BlockBump)
  | BlockBump => Some (bump g, BlockNotify)
  | BlockNotify => Some (set_notify g (notify_waiters (notify g)), Finished)
  | _ => None
  end.

Definition allow_step (g : ContainmentGate N) (p : pc) : option (ContainmentGate N * pc) :=
  match p with
  | AllowCheck => Some (g, if stopped g then Finished else AllowSwap)
  | AllowSwap => Some (set_allowed g true, if allowed g then Finished else AllowBump)
  | AllowBump => Some (bump g, AllowStatus)
  | AllowStatus => Some (set_gate_status g None, AllowDetail)
  | AllowDetail => Some (set_gate_detail g [], AllowNotify)
  | AllowNotify => Some (set_notify g (notify_waiters (notify g)), Finished)
  | _ => None
  end.

(** The message of the denial. *)
Definition denial (s : option NetworkContainmentStatus) (d : list byte) : list byte :=
  bytes_of "torrent data plane blocked: "
  ++ bytes_of (as_str (match s with Some s => s | None => BlockedFailClosed end))
  ++ (if len d =? 0 then [] else bytes_of ": " ++ d).

Definition enforce_step (g : ContainmentGate N) (p : pc) : option (ContainmentGate N * pc) :=
  match p with
  | EnforceStopped => Some (g, if stopped g then EnforceDetail else EnforceAllowed)
  | EnforceAllowed => Some (g, if allowed g then Enforced None else EnforceDetail)
  | EnforceDetail => Some (g, EnforceStatus (gate_detail g))
  | EnforceStatus d => Some (g, Enforced (Some (denial (gate_status g) d)))
  | _ => None
  end.

(** [cancelled_since] of task [i]; the wait goes on only when it is woken. *)
Definition cancelled_since_step (i : nat) (g : ContainmentGate N) (p : pc)
    : option (ContainmentGate N * pc) :=
  match p with
  | WaitCreate start => Some (set_notify g (notified_future i (notify g)), WaitLoad start)
  | WaitLoad start =>
      Some (g, if generation g =? start then WaitAwait start else Cancelled)
  | WaitAwait start => if is_notified i (notify g) then Some (g, WaitCreate start) else None
  | _ => None
  end.

(** A send, receive or accept: [ready] says whether the operation completes when
    it is polled.  Parked, the task is polled again when it is woken or when the
    operation becomes ready. *)
Definition contained_io_step (i : nat) (ready : bool) (g : ContainmentGate N) (p : pc)
    : option (ContainmentGate N * pc) :=
  match p with
  | IoStopped => Some (g, if stopped g then IoDenied else IoAllowed)
  | IoAllowed => Some (g, if allowed g then IoGeneration else IoDenied)
  | IoGeneration => Some (g, IoCreate (generation g))
  | IoCreate start => Some (set_notify g (notified_future i (notify g)), IoLoad start)
  | IoLoad start => Some (g, if generation g =? start then IoTry start else IoCancelled)
  | IoTry start => Some (g, if ready then IoDone else IoPark start)
  | IoPark start =>
      if is_notified i (notify g) then Some (g, IoCreate start)
      else if ready then Some (g, IoTry start) else None
  | _ => None
  end.

Definition gate_step (i : nat) (ready : bool) (g : ContainmentGate N) (p : pc)
    : option (ContainmentGate N * pc) :=
  match p with
  | StopStore => stop_step g p
  | BlockStore _ _ | BlockStatus _ _ | BlockDetail _ | BlockBump | BlockNotify => block_step g p
  | AllowCheck | AllowSwap | AllowBump | AllowStatus | AllowDetail | AllowNotify => allow_step g p
  | EnforceStopped | EnforceAllowed | EnforceDetail | EnforceStatus _ => enforce_step g p
  | WaitCreate _ | WaitLoad _ | WaitAwait _ => cancelled_since_step i g p
  | IoStopped | IoAllowed | IoGeneration | IoCreate _ | IoLoad _ | IoTry _ | IoPark _ =>
      contained_io_step i ready g p
  | Enforced _ | Cancelled | IoDenied | IoCancelled | IoDone | Finished => None
  end.

(** The calls the daemon makes. *)
Definition entry (p : pc) : bool :=
  match p with
  | StopStore | BlockStore _ _ | AllowCheck | EnforceStopped | WaitCreate _ | IoStopped => true
  | _ => false
  end.

(** ** Interleavings *)

Record world : Type := mkWorld { gate : ContainmentGate N; tasks : list pc }.

Inductive wstep (w : world) : world -> Prop :=
  | wstep_call p : entry p = true -> wstep w (mkWorld (gate w) (tasks w ++ [p]))
  | wstep_run i ready p g' p' :
      tasks w !! i = Some p -> gate_step i ready (gate w) p = Some (g', p') ->
      wstep w (mkWorld g' (<[i := p']> (tasks w))).

Definition start (traffic_allowed : bool) : world := mkWorld (new traffic_allowed) [].
Definition reachable (w : world) : Prop := exists b, rtc wstep (start b) w.

(** A schedule: which task moves, and whether an operation it polls is ready. *)
Fixpoint run (w : world) (schedule : list (nat * bool)) : option world :=
  match schedule with
  | [] => Some w
  | (i, ready) :: schedule =>
      match tasks w !! i with
      | None => None
      | Some p =>
          match gate_step i ready (gate w) p with
          | None => None
          | Some (g', p') => run (mkWorld g' (<[i := p']> (tasks w))) schedule
          end
      end
  end.

Definition call (w : world) (p : pc) : world := mkWorld (gate w) (tasks w ++ [p]).


(** ** Shutdown *)

(** The call got past its check of [stopped]. *)
Definition passed (p : pc) : bool :=
  match p with
  | EnforceAllowed | Enforced None => true
  | IoAllowed | IoGeneration | IoCreate _ | IoLoad _ | IoTry _ | IoPark _ | IoCancelled | IoDone => true
  | _ => false
  end.

Ltac gate_cases p :=
  destruct p;
  cbn [gate_step stop_step block_step allow_step enforce_step cancelled_since_step
       contained_io_step] in *;
  repeat case_match; simplify_eq/=; try done.

Lemma step_keeps_stopped i ready g p g' p' :
  gate_step i ready g p = Some (g', p') -> stopped g = true -> stopped g' = true.
Proof. intros E Hs. gate_cases p. Qed.

Lemma step_not_passed i ready g p g' p' :
  gate_step i ready g p = Some (g', p') -> stopped g = true -> passed p = false -> passed p' = false.
Proof. intros E Hs Hp. gate_cases p. Qed.

Lemma entry_not_passed p : entry p = true -> passed p = false.
Proof. by destruct p. Qed.

Definition not_passed_at (i : nat) (w : world) : Prop :=
  forall p, tasks w !! i = Some p -> passed p = false.

Lemma wstep_stopped w w' :
  wstep w w' -> stopped (gate w) = true ->
  stopped (gate w') = true /\ forall i, not_passed_at i w -> not_passed_at i w'.
Proof.
  intros Hstep Hs. destruct Hstep as [p Hp|j ready p g' p' Hj E]; cbn [gate tasks].
  - split; [done|]. intros i Hi q Hq. apply lookup_app_Some in Hq as [Hq|[_ Hq]]; [by apply Hi|].
    apply list_lookup_singleton_Some in Hq as [_ <-]. by apply entry_not_passed.
  - split; [by eapply step_keeps_stopped|]. intros i Hi q Hq.
    apply list_lookup_insert_Some in Hq as [(-> & -> & _)|[_ Hq]]; [|by apply Hi].
    eapply step_not_passed; [done..|by apply Hi].
Qed.

Lemma steps_stopped w w' :
  rtc wstep w w' -> stopped (gate w) = true ->
  stopped (gate w') = true /\ forall i, not_passed_at i w -> not_passed_at i w'.
Proof.
  induction 1 as [w|w w1 w2 H1 _ IH]; intros Hs; [done|].
  destruct (wstep_stopped _ _ H1 Hs) as [Hs1 Hp1]. destruct (IH Hs1) as [Hs2 Hp2].
  split; [done|]. intros i Hi. by apply Hp2, Hp1.
Qed.

(** ** Cancellation *)

(** The call has advanced the generation and is yet to notify. *)
Definition notifying (p : pc) : bool :=
  match p with BlockNotify | AllowStatus | AllowDetail | AllowNotify => true | _ => false end.

(** The generation a task last found unchanged. *)
Definition settled (p : pc) : option Z :=
  match p with WaitAwait s | IoTry s | IoPark s => Some s | _ => None end.
(** The task holds a future. *)
Definition holds_future (p : pc) : bool :=
  match p with WaitLoad _ | WaitAwait _ | IoLoad _ | IoTry _ | IoPark _ => true | _ => false end.

Definition some_notifying (w : world) : Prop :=
  exists j p, tasks w !! j = Some p /\ notifying p = true.

Context `{!NotifyLaws N}.

Record gate_inv (w : world) : Prop := {
  inv_future : forall i p, tasks w !! i = Some p -> holds_future p = true -> waits i (notify (gate w));
  inv_wake : forall i p s, tasks w !! i = Some p -> settled p = Some s ->
    generation (gate w) = s \/ is_notified i (notify (gate w)) = true \/ some_notifying w }.

Lemma settled_holds p s : settled p = Some s -> holds_future p = true.
Proof. by destruct p. Qed.

(** What one step does to the futures, and to the generation. *)
Lemma step_notify i ready g p g' p' :
  gate_step i ready g p = Some (g', p') ->
  notify g' = notify g \/
  (notify g' = notified_future i (notify g) /\ holds_future p' = true) \/
  notify g' = notify_waiters (notify g).
Proof. intros E. gate_cases p; auto. Qed.

Lemma step_future i ready g p g' p' :
  gate_step i ready g p = Some (g', p') -> holds_future p' = true ->
  notify g' = notified_future i (notify g) \/ (notify g' = notify g /\ holds_future p = true).
Proof. intros E Hh. gate_cases p; auto. Qed.

Lemma step_bump i ready g p g' p' :
  gate_step i ready g p = Some (g', p') -> generation g' = generation g \/ notifying p' = true.
Proof. intros E. gate_cases p; auto. Qed.

Lemma step_settled i ready g p g' p' s :
  gate_step i ready g p = Some (g', p') -> settled p' = Some s ->
  notify g' = notify g /\ generation g' = generation g /\ (settled p = Some s \/ generation g = s).
Proof. intros E Hs. gate_cases p; rewrite ?Z.eqb_eq in *; auto. Qed.

Lemma step_notifying i ready g p g' p' :
  gate_step i ready g p = Some (g', p') -> notifying p = true ->
  notifying p' = true \/ notify g' = notify_waiters (notify g).
Proof. intros E Hn. gate_cases p; auto. Qed.

Lemma step_waits i j ready g p g' p' :
  gate_step i ready g p = Some (g', p') -> waits j (notify g) -> waits j (notify g').
Proof.
  intros E Hw. destruct (step_notify _ _ _ _ _ _ E) as [->|[[-> _]| ->]];
    eauto using future_keeps, notify_keeps.
Qed.

Lemma step_keeps_wake i j ready g p g' p' :
  gate_step i ready g p = Some (g', p') -> j <> i -> waits j (notify g) ->
  is_notified j (notify g) = true -> is_notified j (notify g') = true.
Proof.
  intros E Hne Hw Hn. destruct (step_notify _ _ _ _ _ _ E) as [->|[[-> _]| ->]];
    eauto using future_keeps_wake, notify_wakes.
Qed.

Lemma insert_notifying w i q g' :
  (forall p, tasks w !! i = Some p -> notifying p = true -> notifying q = true) ->
  some_notifying w -> some_notifying (mkWorld g' (<[i := q]> (tasks w))).
Proof.
  intros Hq (j & p & Hj & Hp). destruct (decide (j = i)) as [->|Hne].
  - exists i, q. split; [|by eapply Hq].
    cbn [tasks]. apply list_lookup_insert_eq. by apply lookup_lt_is_Some_1.
  - exists j, p. split; [|done]. cbn [tasks]. by rewrite list_lookup_insert_ne.
Qed.

(** The step of task [i] leaves a settled task [j] settled, woken, or with a task
    that is about to wake it. *)
Lemma step_wake w i j ready p g' p' q s :
  gate_inv w -> tasks w !! i = Some p -> gate_step i ready (gate w) p = Some (g', p') ->
  j <> i -> tasks w !! j = Some q -> settled q = Some s ->
  generation g' = s \/ is_notified j (notify g') = true \/
  some_notifying (mkWorld g' (<[i := p']> (tasks w))).
Proof.
  intros Hw Hi E Hne Hj Hs.
  assert (Hwait : waits j (notify (gate w))) by (eapply inv_future; eauto using settled_holds).
  destruct (notifying p') eqn:Hp'.
  { right; right. exists i, p'. split; [|done]. cbn [tasks]. apply list_lookup_insert_eq.
    by eapply lookup_lt_Some. }
  destruct (step_bump _ _ _ _ _ _ E) as [->|?]; [|congruence].
  destruct (inv_wake w Hw j q s Hj Hs) as [Hg|[Hn|Hn]]; [by left|..].
  - right; left. by eapply step_keeps_wake.
  - destruct (notifying p) eqn:Hp.
    + destruct (step_notifying _ _ _ _ _ _ E Hp) as [?| ->]; [congruence|].
      right; left. by apply notify_wakes.
    + right; right. apply insert_notifying; [|done]. intros q' Hq' ?. congruence.
Qed.

Lemma gate_start_inv b : gate_inv (start b).
Proof. split; cbn; intros i p; rewrite lookup_nil; done. Qed.

Lemma entry_holds p : entry p = true -> holds_future p = false.
Proof. by destruct p. Qed.

Lemma call_inv w p : entry p = true -> gate_inv w -> gate_inv (call w p).
Proof.
  intros Hp Hw.
  assert (Hl : forall i q, tasks (call w p) !! i = Some q -> holds_future q = true ->
    tasks w !! i = Some q).
  { intros i q Hq Hh. apply lookup_app_Some in Hq as [Hq|[_ Hq]]; [done|].
    apply list_lookup_singleton_Some in Hq as [_ <-]. rewrite entry_holds in Hh; done. }
  split; cbn [gate].
  - intros i q Hq Hh. apply (inv_future w Hw i q); auto.
  - intros i q s Hq Hs. destruct (inv_wake w Hw i q s) as [?|[?|(j & r & Hj & Hr)]];
      eauto using settled_holds. right; right. exists j, r. split; [|done].
    cbn [tasks call]. by apply lookup_app_l_Some.
Qed.

Lemma run_inv w i ready p g' p' :
  gate_inv w -> tasks w !! i = Some p -> gate_step i ready (gate w) p = Some (g', p') ->
  gate_inv (mkWorld g' (<[i := p']> (tasks w))).
Proof.
  intros Hw Hi E. split; cbn [gate tasks].
  - intros j q Hq Hh. apply list_lookup_insert_Some in Hq as [(-> & -> & _)|[Hne Hq]].
    + destruct (step_future _ _ _ _ _ _ E Hh) as [->|[-> Hp]]; [apply future_waits|].
      by apply (inv_future w Hw j p).
    + eapply step_waits; [done|]. by apply (inv_future w Hw j q).
  - intros j q s Hq Hs. apply list_lookup_insert_Some in Hq as [(-> & -> & _)|[Hne Hq]].
    + destruct (step_settled _ _ _ _ _ _ _ E Hs) as (-> & -> & [Hp|Hg]); [|by left].
      destruct (inv_wake w Hw j p s Hi Hp) as [?|[?|Hn]]; [by left|by right; left|].
      right; right. apply insert_notifying; [|done]. intros r Hr Hrn.
      rewrite Hi in Hr. injection Hr as <-. by destruct p.
    + eapply step_wake; eauto.
Qed.

Lemma reachable_inv w : reachable w -> gate_inv w.
Proof.
  intros [b Hw]. assert (Hs : gate_inv (start b)) by apply gate_start_inv. revert Hs.
  induction Hw as [|w w1 w2 Hstep _ IH]; intros Hs; [done|]. apply IH.
  destruct Hstep as [p Hp|i ready p g' p' Hi E]; [by apply call_inv|by eapply run_inv].
Qed.

(** One scheduled step of task [i]. *)
Lemma run_cons w i ready p g' p' schedule :
  tasks w !! i = Some p -> gate_step i ready (gate w) p = Some (g', p') ->
  run w ((i, ready) :: schedule) = run (mkWorld g' (<[i := p']> (tasks w))) schedule.
Proof. intros Hi E. cbn [run]. by rewrite Hi, E. Qed.

(** C26: Once [stop] has stored its flag the gate denies for good, whatever other
    calls, recoveries included, are in flight: traffic is never allowed again, and
    no check and no socket operation that had not yet got past its first check,
    every later call included, ever succeeds.  An operation already past it may still
    complete, as [late_generation_passes_block] shows for a block. *)
Theorem stop_is_final (w w' : world) (Hstop : stopped (gate w) = true)
    (Hsteps : rtc wstep w w') :
  gate_traffic_allowed (gate w') = false /\
  forall i, not_passed_at i w ->
    tasks w' !! i <> Some (Enforced None) /\ tasks w' !! i <> Some IoDone.
Proof.
  destruct (steps_stopped _ _ Hsteps Hstop) as [Hs Hp]. split.
  - unfold gate_traffic_allowed. by rewrite Hs.
  - intros i Hi. split; intros E; by specialize (Hp i Hi _ E).
Qed.

(** C29: No wakeup is lost: in every reachable state with no [block] or [allow]
    half done, a task that waits for cancellation returns, and a parked socket
    operation is cancelled without being polled again even if it is ready, as soon
    as the generation is not the one they started from; neither can be stuck. *)
Theorem cancellation_never_lost (w : world) (i : nat) (s : Z) (ready : bool)
    (Hw : reachable w) (Hs : generation (gate w) <> s) (Hquiet : ~ some_notifying w) :
  (tasks w !! i = Some (WaitAwait s) ->
     exists w', run w [(i, ready); (i, ready); (i, ready)] = Some w' /\ tasks w' !! i = Some Cancelled) /\
  (tasks w !! i = Some (IoPark s) ->
     exists w', run w [(i, ready); (i, ready); (i, ready)] = Some w' /\ tasks w' !! i = Some IoCancelled).
Proof.
  pose proof (reachable_inv w Hw) as Hinv.
  split; intros Hi; (destruct (inv_wake w Hinv i _ s Hi eq_refl) as [?|[Hn|?]]; [done| |done]);
    pose proof (lookup_lt_Some _ _ _ Hi) as Hlt;
    erewrite run_cons by (done || (cbn; rewrite Hn; done));
    erewrite run_cons by (cbn [tasks gate_step cancelled_since_step contained_io_step];
      (by apply list_lookup_insert_eq) || done);
    erewrite run_cons by (cbn [tasks]; rewrite ?length_insert; (by apply list_lookup_insert_eq;
      rewrite ?length_insert) || done);
    cbn [gate set_notify generation]; rewrite (proj2 (Z.eqb_neq _ _) Hs);
    (eexists; split; [done|]); cbn [tasks]; apply list_lookup_insert_eq; by rewrite !length_insert.
Qed.

(** A socket operation reads the generation after its check: a [block] that
    completes in between cancels nothing, and the operation goes through while
    traffic is denied. *)
Theorem late_generation_passes_block (s : NetworkContainmentStatus) (d : list byte) :
  exists w1 w2,
    run (call (call (start true) IoStopped) (BlockStore s d))
      [(0%nat, true); (0%nat, true); (1%nat, true); (1%nat, true); (1%nat, true); (1%nat, true); (1%nat, true)]
      = Some w1 /\
    tasks w1 = [IoGeneration; Finished] /\ gate_traffic_allowed (gate w1) = false /\
    run w1 [(0%nat, true); (0%nat, true); (0%nat, true); (0%nat, true)] = Some w2 /\
    tasks w2 = [IoDone; Finished] /\ gate_traffic_allowed (gate w2) = false.
Proof. do 2 eexists. repeat split. Qed.

End Gate.
Arguments world N : clear implicits.

(** ** An implementation of [Notify]: the futures and whether they were woken *)

Abbreviation futures := (gmap nat bool).

#[export] Instance futures_notify : NotifyOps futures := {
  notify_new := ∅;
  notified_future i n := <[i := false]> n;
  notify_waiters n := (fun _ => true) <$> n;
  is_notified i n := default false (n !! i) }.

Lemma futures_wake (i j : nat) (n : futures) :
  i <> j -> is_notified i n = true -> is_notified i (notified_future j n) = true.
Proof. intros Hne Hi. cbn in *. by rewrite lookup_insert_ne by done. Qed.

#[export] Instance futures_laws : NotifyLaws futures.
Proof.
  refine {| waits i n := is_Some ((n : gmap nat bool) !! i); future_keeps_wake := futures_wake |}.
  - intros i n. cbn. rewrite lookup_insert_eq. by eexists.
  - intros i j n Hi. cbn. apply lookup_insert_is_Some. destruct (decide (j = i)); auto.
  - intros i n Hi. cbn. by rewrite lookup_fmap, fmap_is_Some.
  - intros i n [b Hi]. cbn. by rewrite lookup_fmap, Hi.
Defined.

(** A schedule that runs is a sequence of steps. *)
Lemma run_steps {N} `{NotifyOps N} schedule : forall w w' : world N,
  run w schedule = Some w' -> rtc wstep w w'.
Proof.
  induction schedule as [|[i ready] schedule IH]; intros w w' E; cbn [run] in E.
  { by simplify_eq. }
  destruct (tasks w !! i) as [p|] eqn:Hi; [|done].
  destruct (gate_step i ready (gate w) p) as [[g' p']|] eqn:Hs; [|done].
  eapply rtc_l; [by eapply wstep_run|by apply IH].
Qed.

(** A recovery that has passed its check when [stop] runs, and an operation. *)
Definition racing : world futures :=
  mkWorld (set_stopped (set_allowed (new true) false))
    [BlockStatus BlockedFailClosed (bytes_of "daemon stopping"); AllowSwap; EnforceStopped].

Lemma stop_is_final_witness :
  exists w', rtc wstep racing w' /\ allowed (gate w') = true /\
    gate_traffic_allowed (gate w') = false /\ tasks w' !! 2%nat <> Some (Enforced None).
Proof.
  destruct (run racing [(1%nat, true); (2%nat, true)]) as [w'|] eqn:E; [|done].
  exists w'. assert (Hr : rtc wstep racing w') by (by eapply run_steps).
  destruct (stop_is_final racing w' eq_refl Hr) as [H1 H2].
  split; [done|]. vm_compute in E. injection E as <-. split; [done|]. split; [exact H1|].
  apply (H2 2%nat). intros p Hp. by injection Hp as <-.
Defined.

(** A waiting task and a parked operation; then one [block]. *)
Definition waiting : world futures :=
  call (call (call (start true) (WaitCreate 0)) IoStopped) (BlockStore InterfaceDown []).
Definition waiting_schedule : list (nat * bool) :=
  [(0, false); (0, false); (1, false); (1, false); (1, false); (1, false); (1, false); (1, false);
   (2, false); (2, false); (2, false); (2, false); (2, false)]%nat.

Lemma cancellation_never_lost_witness :
  exists w w1 w2, run waiting waiting_schedule = Some w /\
    run w [(0, true); (0, true); (0, true)]%nat = Some w1 /\ tasks w1 !! 0%nat = Some Cancelled /\
    run w [(1, true); (1, true); (1, true)]%nat = Some w2 /\ tasks w2 !! 1%nat = Some IoCancelled.
Proof.
  destruct (run waiting waiting_schedule) as [w|] eqn:E; [|by vm_compute in E].
  assert (Hr : reachable w).
  { exists true. apply (transitivity (y := waiting)); [|by eapply run_steps].
    do 3 (eapply rtc_r; [|by apply wstep_call]). apply rtc_refl. }
  assert (Hg : generation (gate w) <> 0) by (vm_compute in E; by injection E as <-).
  assert (Hq : ~ some_notifying w).
  { intros (j & p & Hj & Hp). vm_compute in E. injection E as <-.
    destruct j as [|[|[|j]]]; cbn in Hj; by simplify_eq. }
  destruct (cancellation_never_lost w 0 0 true Hr Hg Hq) as [H0 _].
  destruct (cancellation_never_lost w 1 0 true Hr Hg Hq) as [_ H1].
  assert (T0 : tasks w !! 0%nat = Some (WaitAwait 0)) by (vm_compute in E; by injection E as <-).
  assert (T1 : tasks w !! 1%nat = Some (IoPark 0)) by (vm_compute in E; by injection E as <-).
  destruct (H0 T0) as (w1 & R1 & C1). destruct (H1 T1) as (w2 & R2 & C2).
  by exists w, w1, w2.
Defined.
