(* ===== verification/Binder.v ===== *)
(** * The contained binder

    [netbinder.rs] of swarmotterd: how torrent sockets are created, bound to the
    configured path and put to use.  The operating system answers every call; the
    log of uses says with which bindings each socket went into service.  Values
    that [format!] interpolates into details are not part of the model. *)

From S2P Require Import Prelude.
From S2P Require Import Text.
From S2P Require Import Addr.
From S2P Require Import Containment.
From S2P Require Import Gate.

(** ** Sockets and the operating system *)

Inductive syscall : Type :=
  | SysSocket (tcp v6 : bool)
  | SysReuseAddress
  | SysOnlyV6
  | SysBindDevice (iface : list byte)
  | SysBind (addr : SocketAddr)
  | SysListen
  | SysNonblocking
  | SysRegister
  | SysConnect (addr : SocketAddr).

(** A socket with the device and the address it is bound to. *)
Record socket : Type := mkSocket {
  sock_v6 : bool; sock_device : option (list byte); sock_source : option SocketAddr }.

Inductive use : Type :=
  | UseConnect (s : socket) (addr : SocketAddr)
  | UseUdp (s : socket)
  | UseListen (s : socket)
  | UseLookup (host : list byte).

(** What a call of the system answers, by the count of calls before it. *)
Record system : Type := mkSystem {
  sys_call : nat -> syscall -> option CoreError;
  sys_lookup : nat -> list byte -> Z -> CoreError + list SocketAddr }.

(** ** Policy *)

Definition is_strict (c : NetworkConfig) : bool := bool_decide (mode c = Strict).

Definition source_ipv4 (c : NetworkConfig) : option Z := required_source_ipv4 c ≫= parse_ipv4.
Definition source_ipv6 (c : NetworkConfig) : option Z := required_source_ipv6 c ≫= parse_ipv6.

Definition source_for_addr (c : NetworkConfig) (addr : SocketAddr) : option IpAddr :=
  match ip addr with
  | V4 _ => V4 <$> source_ipv4 c
  | V6 _ => V6 <$> source_ipv6 c
  end.

Definition ensure_family_enforced (c : NetworkConfig) (addr : SocketAddr) : outcome () :=
  if is_ipv6 addr && negb (allow_ipv6 c)
  then Err (NetworkBlocked "torrent data plane blocked: IPv6 traffic is disabled")
  else if negb (is_strict c) || negb (fail_closed c) then Ok ()
  else if is_some (required_interface c) || is_some (required_network_namespace c) then Ok ()
  else if is_some (source_for_addr c addr) then Ok ()
  else Err (NetworkBlocked "torrent data plane blocked: no containment binding is configured").

Definition to_ascii_lowercase (b : byte) : byte :=
  if (65 <=? u8 b) && (u8 b <=? 90) then as_u8 (u8 b + 32) else b.
(** [host.split('.').next()]. *)
Fixpoint first_label (s : list byte) : list byte :=
  match s with
  | [] => []
  | b :: s => if Byte.eqb b "." then [] else b :: first_label s
  end.
Definition hostname_prefers_ipv6 (host : list byte) : bool :=
  bool_decide (map to_ascii_lowercase (first_label host) = bytes_of "ipv6").

Definition or_else {A} (o k : option A) : option A := match o with Some a => Some a | None => k end.

Definition select_resolved_addr (c : NetworkConfig) (host : list byte) (addrs : list SocketAddr)
    : option SocketAddr :=
  let prefer_ipv6 := allow_ipv6 c &&
    (is_some (required_source_ipv6 c) && negb (is_some (required_source_ipv4 c))
     || hostname_prefers_ipv6 host) in
  let v6 := List.find is_ipv6 addrs in
  let v4 := List.find is_ipv4 addrs in
  if prefer_ipv6 then or_else v6 v4 else or_else v4 v6.

Definition udp_bind_addr (c : NetworkConfig) (remote : option SocketAddr) : SocketAddr :=
  let use_ipv6 :=
    match remote with
    | Some addr => is_ipv6 addr
    | None => is_some (required_source_ipv6 c) && negb (is_some (required_source_ipv4 c))
    end in
  if use_ipv6 then mkSocketAddr (V6 (default 0 (source_ipv6 c))) 0
  else mkSocketAddr (V4 (default 0 (source_ipv4 c))) 0.

(** ** The binder *)

Section Binder.
Context {N : Type} `{NotifyOps N}.
Variable probe : InterfaceProbe.
Variable sys : system.

Record ContainedBinder : Type := mkBinder {
  config : NetworkConfig;
  binder_gate : option (ContainmentGate N);
  health_reports : option (list (NetworkContainmentStatus * list byte));
  calls : nat;
  uses : list use }.

Definition M (A : Type) : Type := ContainedBinder -> outcome A * ContainedBinder.
#[local] Instance M_ret : MRet M := fun _ a b => (Ok a, b).
#[local] Instance M_bind : MBind M := fun _ _ k m b =>
  match m b with
  | (Ok a, b) => k a b
  | (Err e, b) => (Err e, b)
  | (Panic, b) => (Panic, b)
  | (OutOfFuel, b) => (OutOfFuel, b)
  end.
Definition lift {A} (m : outcome A) : M A := fun b => (m, b).
Definition config_snapshot : M NetworkConfig := fun b => (Ok (config b), b).
(** Run [handler] on an error, then return it. *)
Definition on_error {A} (m : M A) (handler : CoreError -> M ()) : M A := fun b =>
  match m b with
  | (Err e, b) => (Err e, (handler e b).2)
  | r => r
  end.

Definition binder_call (c : syscall) : M () := fun b =>
  (match sys_call sys (calls b) c with None => Ok () | Some e => Err e end,
   mkBinder (config b) (binder_gate b) (health_reports b) (S (calls b)) (uses b)).
Definition log (u : use) : M () := fun b =>
  (Ok (), mkBinder (config b) (binder_gate b) (health_reports b) (calls b) (uses b ++ [u])).

(** The whole of [block], run by one task. *)
Definition block (g : ContainmentGate N) (s : NetworkContainmentStatus) (d : list byte)
    : ContainmentGate N :=
  let g := bump (set_gate_detail (set_gate_status (set_allowed g false) (Some s)) d) in
  set_notify g (notify_waiters (notify g)).

Definition report_health_status (s : NetworkContainmentStatus) (d : string) : M () := fun b =>
  if is_strict (config b) && fail_closed (config b) then
    (Ok (), mkBinder (config b) ((fun g => block g s (bytes_of d)) <$> binder_gate b)
              ((fun rs => rs ++ [(s, bytes_of d)]) <$> health_reports b) (calls b) (uses b))
  else (Ok (), b).
Definition report_bind_failure (d : string) : M () := report_health_status SocketBindFailed d.

Definition gate_enforce : M () := fun b =>
  match binder_gate b with
  | Some g => (fail_if (negb (gate_traffic_allowed g)) (NetworkBlocked "torrent data plane blocked"), b)
  | None => (Ok (), b)
  end.

Definition guard : M () :=
  _ ← gate_enforce;
  cfg ← config_snapshot;
  if decide (mode cfg = ModeDisabled) then mret ()
  else if is_strict cfg && fail_closed cfg && negb (is_some (required_interface cfg))
       && negb (is_some (required_source_ipv4 cfg)) && negb (is_some (required_source_ipv6 cfg))
       && negb (is_some (required_network_namespace cfg))
  then
    let d := "torrent data plane blocked: strict containment requires an interface, source binding, or a current network namespace"%string in
    _ ← report_health_status BlockedFailClosed d;
    lift (Err (NetworkBlocked d))
  else
    lift (fail_if (fail_closed cfg && negb (traffic_allowed (evaluate cfg probe)))
            (NetworkBlocked "torrent data plane blocked")).

Definition update_config (c : NetworkConfig) : M () := fun b =>
  (Ok (), mkBinder c (binder_gate b) (health_reports b) (calls b) (uses b)).

(** [Some iface] is bound with [SO_BINDTODEVICE], after the check for a NUL. *)
Definition bind_socket_to_interface (s : socket) (iface : option (list byte)) : M socket :=
  match iface with
  | None => mret s
  | Some iface =>
      if existsb (Byte.eqb x00) iface
      then lift (Err (InvalidConfig "network.required_interface must not contain NUL bytes"))
      else
        _ ← binder_call (SysBindDevice iface);
        mret (mkSocket (sock_v6 s) (Some iface) (sock_source s))
  end.

Definition bind_socket (s : socket) (addr : SocketAddr) : M socket :=
  _ ← binder_call (SysBind addr); mret (mkSocket (sock_v6 s) (sock_device s) (Some addr)).

Definition new_socket (tcp v6 : bool) : M socket :=
  _ ← binder_call (SysSocket tcp v6); mret (mkSocket v6 None None).

Definition create_udp_socket (bind : SocketAddr) (iface : option (list byte)) : M socket :=
  s ← new_socket false (is_ipv6 bind);
  s ← bind_socket_to_interface s iface;
  s ← bind_socket s bind;
  _ ← binder_call SysNonblocking;
  _ ← binder_call SysRegister;
  mret s.

Definition create_tcp_listener (bind : SocketAddr) (iface : option (list byte)) : M socket :=
  s ← new_socket true (is_ipv6 bind);
  _ ← binder_call SysReuseAddress;
  _ ← (if is_ipv6 bind then binder_call SysOnlyV6 else mret ());
  s ← bind_socket_to_interface s iface;
  s ← bind_socket s bind;
  _ ← binder_call SysListen;
  _ ← log (UseListen s);
  _ ← binder_call SysNonblocking;
  _ ← binder_call SysRegister;
  mret s.

(** The family check of an operation, reported when it denies. *)
Definition checked_family (cfg : NetworkConfig) (addr : SocketAddr) (d : string) : M () :=
  on_error (lift (ensure_family_enforced cfg addr)) (fun e =>
    if is_network_blocked e then report_health_status BlockedFailClosed d else mret ()).

Definition connect_peer (addr : SocketAddr) : M socket :=
  _ ← guard;
  cfg ← config_snapshot;
  _ ← checked_family cfg addr "peer address denied by containment policy";
  s ← new_socket true (is_ipv6 addr);
  s ← on_error (bind_socket_to_interface s (required_interface cfg))
        (fun _ => report_bind_failure "bind outbound peer socket to configured interface");
  s ← match source_for_addr cfg addr with
      | Some a =>
          on_error (bind_socket s (mkSocketAddr a 0))
            (fun _ => report_bind_failure "bind outbound peer socket to source")
      | None => mret s
      end;
  _ ← log (UseConnect s addr);
  _ ← binder_call (SysConnect addr);
  mret s.

Definition resolve_host (host : list byte) (port : Z) : M SocketAddr :=
  _ ← guard;
  match parse_ip host with
  | Some a => mret (mkSocketAddr a port)
  | None =>
      cfg ← config_snapshot;
      _ ← lift (fail_if (is_strict cfg && fail_closed cfg
                         && negb (is_some (required_network_namespace cfg))
                         && negb (dns_constrained probe cfg))
            (NetworkBlocked "torrent data plane blocked: hostname resolution requires DNS constrained to the configured network path or a current network namespace"));
      _ ← log (UseLookup host);
      addrs ← (fun b => (match sys_lookup sys (calls b) host port with
                         | inl e => Err e
                         | inr addrs => Ok addrs
                         end,
                         mkBinder (config b) (binder_gate b) (health_reports b) (S (calls b)) (uses b)));
      let addrs := filter (fun a => allow_ipv6 cfg || is_ipv4 a = true) addrs in
      lift (ok_or (select_resolved_addr cfg host addrs) (Internal "host has no usable address"))
  end.

Definition udp_socket_at (remote : option SocketAddr) (local_port : Z) : M socket :=
  _ ← guard;
  cfg ← config_snapshot;
  _ ← match remote with
      | Some r => checked_family cfg r "UDP address denied by containment policy"
      | None => mret ()
      end;
  let bind := mkSocketAddr (ip (udp_bind_addr cfg remote)) local_port in
  s ← on_error (create_udp_socket bind (required_interface cfg))
        (fun _ => report_bind_failure "bind UDP socket");
  _ ← log (UseUdp s);
  mret s.
Definition udp_socket_for (remote : option SocketAddr) : M socket := udp_socket_at remote 0.
Definition udp_socket_on (remote : option SocketAddr) (local_port : Z) : M socket :=
  udp_socket_at remote local_port.
Definition udp_socket : M socket := udp_socket_for None.

Definition namespace_only (c : NetworkConfig) : bool :=
  is_some (required_network_namespace c) && negb (is_some (required_interface c))
  && negb (is_some (required_source_ipv4 c)) && negb (is_some (required_source_ipv6 c)).

(** The addresses the peer listener binds, before the port. *)
Definition listens_v4 (c : NetworkConfig) : bool :=
  negb (is_some (required_source_ipv6 c) && negb (is_some (required_source_ipv4 c))
        && negb (is_some (required_interface c)) && negb (namespace_only c)).
Definition listens_v6 (c : NetworkConfig) : bool :=
  allow_ipv6 c &&
  (is_some (required_interface c) || namespace_only c || is_some (required_source_ipv6 c)).

Definition bind_one_listener (cfg : NetworkConfig) (addr : SocketAddr) (report : bool) (d : string)
    : M socket :=
  on_error (create_tcp_listener addr (required_interface cfg))
    (fun _ => if report then report_bind_failure d else mret ()).

Definition bind_peer_listener_inner (port : Z) (report_bind_failure : bool)
    : M (option socket * option socket) :=
  _ ← guard;
  cfg ← config_snapshot;
  v4 ← (if listens_v4 cfg then
          s ← bind_one_listener cfg (mkSocketAddr (V4 (default 0 (source_ipv4 cfg))) port)
                report_bind_failure "bind peer listener v4";
          mret (Some s)
        else mret None);
  v6 ← (if listens_v6 cfg then
          s ← bind_one_listener cfg (mkSocketAddr (V6 (default 0 (source_ipv6 cfg))) port)
                report_bind_failure "bind peer listener v6";
          mret (Some s)
        else mret None);
  mret (v4, v6).
Definition bind_peer_listener (port : Z) := bind_peer_listener_inner port true.
Definition bind_diagnostic_listener (port : Z) := bind_peer_listener_inner port false.

Definition binder_traffic_allowed (b : ContainedBinder) : bool :=
  match binder_gate b with Some g => gate_traffic_allowed g | None => true end &&
  (if decide (mode (config b) = ModeDisabled) then true
   else traffic_allowed (evaluate (config b) probe)).

(** ** The operations of the [NetworkBinder] trait *)

Inductive binder_op : Type :=
  | OpConnect (addr : SocketAddr)
  | OpResolve (host : list byte) (port : Z)
  | OpUdp (remote : option SocketAddr) (local_port : Z)
  | OpListen (port : Z) (report : bool).

(** What the binder holds after the operation, and whether it succeeded. *)
Definition perform (o : binder_op) (b : ContainedBinder) : bool * ContainedBinder :=
  match o with
  | OpConnect addr => let '(r, b) := connect_peer addr b in (is_ok r, b)
  | OpResolve host port => let '(r, b) := resolve_host host port b in (is_ok r, b)
  | OpUdp remote port => let '(r, b) := udp_socket_at remote port b in (is_ok r, b)
  | OpListen port report => let '(r, b) := bind_peer_listener_inner port report b in (is_ok r, b)
  end.

(** ** Contained uses *)

(** The source address the configuration gives a family. *)
Definition family_source (c : NetworkConfig) (v6 : bool) : option IpAddr :=
  if v6 then V6 <$> source_ipv6 c else V4 <$> source_ipv4 c.

(** A socket is confined to the configured path: bound to the required interface
    and to the configured source address of its family, and confined by at least
    one of the two unless the process runs in the required namespace. *)
Record socket_contained (c : NetworkConfig) (s : socket) : Prop := {
  contained_device : sock_device s = required_interface c;
  contained_source : forall a, family_source c (sock_v6 s) = Some a -> ip <$> sock_source s = Some a;
  contained_some : required_interface c = None -> required_network_namespace c = None ->
    is_some (family_source c (sock_v6 s)) = true }.

Definition use_contained (c : NetworkConfig) (u : use) : Prop :=
  match u with
  | UseConnect s _ | UseUdp s | UseListen s => socket_contained c s
  | UseLookup _ => is_some (required_network_namespace c) = true \/ dns_constrained probe c = true
  end.

Definition binder_inv (c : NetworkConfig) (b : ContainedBinder) : Prop :=
  config b = c /\ Forall (use_contained c) (uses b).

(** A piece of the binder keeps the invariant and returns what satisfies [G]. *)
Definition keeps {A} (c : NetworkConfig) (m : M A) (G : A -> Prop) : Prop :=
  forall b, binder_inv c b -> binder_inv c (m b).2 /\ forall a, (m b).1 = Ok a -> G a.

Lemma keeps_ret {A} c (a : A) (G : A -> Prop) : G a -> keeps c (mret a) G.
Proof. intros Ha b Hb. split; [done|]. intros a' E. by injection E as <-. Qed.

Lemma keeps_bind {A B} c (m : M A) (k : A -> M B) F G :
  keeps c m F -> (forall a, F a -> keeps c (k a) G) -> keeps c (m ≫= k) G.
Proof.
  intros Hm Hk b Hb. destruct (Hm b Hb) as [H1 H2]. unfold mbind, M_bind.
  destruct (m b) as [[a|e| |] b1]; cbn [fst snd] in *; try done.
  apply Hk; auto.
Qed.

Lemma keeps_lift {A} c (m : outcome A) G : (forall a, m = Ok a -> G a) -> keeps c (lift m) G.
Proof. intros Hm b Hb. by split. Qed.

Lemma keeps_weaken {A} c (m : M A) (F G : A -> Prop) :
  (forall a, F a -> G a) -> keeps c m F -> keeps c m G.
Proof. intros HFG Hm b Hb. destruct (Hm b Hb) as [H1 H2]. eauto. Qed.

Lemma keeps_call c x : keeps c (binder_call x) (fun _ => True).
Proof. intros b [Hc Hu]. by split. Qed.

Lemma keeps_log c u : use_contained c u -> keeps c (log u) (fun _ => True).
Proof.
  intros Hu b [Hc Hus]. split; [|done]. split; [done|]. cbn. by apply Forall_app_2, Forall_singleton.
Qed.

Lemma keeps_report c s d : keeps c (report_health_status s d) (fun _ => True).
Proof. intros b [Hc Hu]. unfold report_health_status. destruct (_ && _); by split. Qed.

Lemma keeps_on_error {A} c (m : M A) (h : CoreError -> M ()) G :
  keeps c m G -> (forall e, keeps c (h e) (fun _ => True)) -> keeps c (on_error m h) G.
Proof.
  intros Hm Hh b Hb. destruct (Hm b Hb) as [H1 H2]. unfold on_error.
  destruct (m b) as [[a|e| |] b1]; cbn [fst snd] in *; try done.
  split; [by apply Hh|done].
Qed.

Lemma keeps_config c : keeps c config_snapshot (fun c' => c' = c).
Proof. intros b [Hc Hu]. split; [done|]. intros a E. by injection E as <-. Qed.

Lemma keeps_guard c : keeps c guard (fun _ => True).
Proof.
  unfold guard. eapply (keeps_bind _ _ _ (fun _ => True)).
  { intros b Hb. unfold gate_enforce. destruct (binder_gate b); by split. }
  intros _ _. eapply keeps_bind; [apply keeps_config|]. intros ? ->.
  destruct (decide _); [by apply keeps_ret|]. case_match.
  - eapply keeps_bind; [apply keeps_report|]. intros _ _. by apply keeps_lift.
  - by apply keeps_lift.
Qed.

Lemma keeps_bind_interface c s iface :
  keeps c (bind_socket_to_interface s iface) (fun s' =>
    sock_v6 s' = sock_v6 s /\ sock_source s' = sock_source s /\
    (sock_device s = None -> sock_device s' = iface)).
Proof.
  unfold bind_socket_to_interface. destruct iface as [iface|]; [|by apply keeps_ret].
  destruct (existsb _ _); [by apply keeps_lift|].
  eapply keeps_bind; [apply keeps_call|]. intros _ _. by apply keeps_ret.
Qed.

Lemma keeps_bind_socket c s addr :
  keeps c (bind_socket s addr) (fun s' => s' = mkSocket (sock_v6 s) (sock_device s) (Some addr)).
Proof. eapply keeps_bind; [apply keeps_call|]. intros _ _. by apply keeps_ret. Qed.

Lemma keeps_new_socket c tcp v6 : keeps c (new_socket tcp v6) (fun s => s = mkSocket v6 None None).
Proof. eapply keeps_bind; [apply keeps_call|]. intros _ _. by apply keeps_ret. Qed.

Ltac keeps_call := eapply keeps_bind; [apply keeps_call|intros _ _].

Lemma keeps_create_udp c addr iface :
  keeps c (create_udp_socket addr iface) (fun s => s = mkSocket (is_ipv6 addr) iface (Some addr)).
Proof.
  eapply keeps_bind; [apply keeps_new_socket|]. intros ? ->.
  eapply keeps_bind; [apply keeps_bind_interface|]. cbn. intros s (H1 & H2 & H3).
  eapply keeps_bind; [apply keeps_bind_socket|]. intros ? ->.
  do 2 keeps_call. apply keeps_ret. by rewrite H1, (H3 eq_refl).
Qed.

Lemma keeps_create_listener c addr iface :
  socket_contained c (mkSocket (is_ipv6 addr) iface (Some addr)) ->
  keeps c (create_tcp_listener addr iface) (fun _ => True).
Proof.
  intros Hs. eapply keeps_bind; [apply keeps_new_socket|]. intros ? ->. keeps_call.
  eapply (keeps_bind _ _ _ (fun _ => True)).
  { destruct (is_ipv6 addr); [apply keeps_call|by apply keeps_ret]. }
  intros _ _. eapply keeps_bind; [apply keeps_bind_interface|]. cbn. intros s (H1 & H2 & H3).
  eapply keeps_bind; [apply keeps_bind_socket|]. intros ? ->. keeps_call.
  rewrite H1, (H3 eq_refl). eapply keeps_bind; [by apply keeps_log|]. intros _ _.
  do 2 keeps_call. by apply keeps_ret.
Qed.

(** ** The policy confines *)

(** What a strict fail-closed configuration that validates has. *)
Record strict_config (c : NetworkConfig) : Prop := {
  strict_mode : is_strict c = true;
  strict_closed : fail_closed c = true;
  strict_path : required_interface c = None -> required_network_namespace c = None ->
    is_some (required_source_ipv4 c) = true \/ is_some (required_source_ipv6 c) = true;
  strict_ipv4 : is_some (source_ipv4 c) = is_some (required_source_ipv4 c);
  strict_ipv6 : is_some (source_ipv6 c) = is_some (required_source_ipv6 c);
  strict_allow : is_some (required_source_ipv6 c) = true -> allow_ipv6 c = true }.

Lemma validated_strict host_parse c :
  validate host_parse c = Ok () -> mode c = Strict -> fail_closed c = true -> strict_config c.
Proof.
  intros Hv Hm Hf. unfold validate in Hv. rewrite decide_True in Hv by done.
  apply bind_Ok in Hv as ([] & _ & Hv). apply bind_Ok in Hv as ([] & Hp & Hv).
  apply bind_Ok in Hv as ([] & H4 & H6). cbv zeta in Hp.
  apply bind_Ok in Hp as ([] & Hp & Ha). apply fail_if_Ok in Hp, Ha.
  unfold source_ipv4, source_ipv6.
  split; [by apply bool_decide_true|done|..]; unfold source_ipv4, source_ipv6.
  - intros E1 E2. rewrite E1, E2 in Hp.
    destruct (required_source_ipv4 c), (required_source_ipv6 c); cbn in *; auto.
  - destruct (required_source_ipv4 c) as [x|]; [|done]. apply fail_if_Ok in H4.
    cbn. by destruct (parse_ipv4 x).
  - destruct (required_source_ipv6 c) as [x|]; [|done]. apply fail_if_Ok in H6.
    cbn. by destruct (parse_ipv6 x).
  - intros E. rewrite E in Ha. by destruct (allow_ipv6 c).
Qed.

Definition bound_ip (c : NetworkConfig) (v6 : bool) : IpAddr :=
  if v6 then V6 (default 0 (source_ipv6 c)) else V4 (default 0 (source_ipv4 c)).

Lemma bound_socket_contained c v6 port :
  (required_interface c = None -> required_network_namespace c = None ->
     is_some (family_source c v6) = true) ->
  socket_contained c
    (mkSocket v6 (required_interface c) (Some (mkSocketAddr (bound_ip c v6) port))).
Proof.
  intros Hs. split; cbn [sock_device sock_v6 sock_source]; [done| |done].
  intros a. unfold family_source, bound_ip.
  destruct v6; [destruct (source_ipv6 c)|destruct (source_ipv4 c)]; cbn; naive_solver.
Qed.

Lemma source_for_family c addr : source_for_addr c addr = family_source c (is_ipv6 addr).
Proof. unfold source_for_addr, family_source, is_ipv6. by destruct (ip addr). Qed.

Lemma enforced_family c addr :
  strict_config c -> ensure_family_enforced c addr = Ok () ->
  required_interface c = None -> required_network_namespace c = None ->
  is_some (family_source c (is_ipv6 addr)) = true.
Proof.
  intros Hc E E1 E2. unfold ensure_family_enforced in E.
  rewrite (strict_mode c Hc), (strict_closed c Hc), E1, E2, source_for_family in E.
  destruct (is_ipv6 addr && _); [done|]. cbn in E. by destruct (family_source c _).
Qed.

Lemma udp_bind_family c remote :
  ip (udp_bind_addr c remote) = bound_ip c (is_ipv6 (udp_bind_addr c remote)).
Proof. unfold udp_bind_addr. by destruct (match remote with Some _ => _ | None => _ end). Qed.

Lemma family_some c v6 :
  strict_config c ->
  is_some (family_source c v6) = is_some (if v6 then required_source_ipv6 c else required_source_ipv4 c).
Proof.
  intros Hc. unfold family_source.
  destruct v6; [rewrite <- (strict_ipv6 c Hc); by destruct (source_ipv6 c)
               |rewrite <- (strict_ipv4 c Hc); by destruct (source_ipv4 c)].
Qed.

Lemma keeps_family c addr d :
  keeps c (checked_family c addr d) (fun _ => ensure_family_enforced c addr = Ok ()).
Proof.
  apply keeps_on_error; [apply keeps_lift; by intros []|].
  intros e. destruct (is_network_blocked e); [apply keeps_report|by apply keeps_ret].
Qed.

Lemma keeps_bind_failure {A} c (m : M A) d G :
  keeps c m G -> keeps c (on_error m (fun _ => report_bind_failure d)) G.
Proof. intros Hm. apply keeps_on_error; [done|]. intros _. apply keeps_report. Qed.

Lemma keeps_connect c addr : strict_config c -> keeps c (connect_peer addr) (fun _ => True).
Proof.
  intros Hc. eapply keeps_bind; [apply keeps_guard|]. intros _ _.
  eapply keeps_bind; [apply keeps_config|]. intros ? ->.
  eapply keeps_bind; [apply keeps_family|]. intros [] Hf.
  eapply keeps_bind; [apply keeps_new_socket|]. intros ? ->.
  eapply keeps_bind; [apply keeps_bind_failure, keeps_bind_interface|]. cbn. intros s (H1 & H2 & H3).
  pose proof (enforced_family c addr Hc Hf) as Hs.
  eapply (keeps_bind _ _ _ (fun s => socket_contained c s)).
  - rewrite source_for_family. destruct (family_source c (is_ipv6 addr)) as [a|] eqn:Ef.
    + cbv beta iota. apply keeps_bind_failure. eapply keeps_weaken; [|apply keeps_bind_socket].
      intros ? ->. split; cbn; rewrite ?H1, ?Ef; auto.
    + apply keeps_ret. split; rewrite ?H1, ?Ef; auto; done.
  - intros s' Hs'. eapply keeps_bind; [by apply keeps_log|]. intros _ _.
    keeps_call. by apply keeps_ret.
Qed.

Lemma keeps_resolve c host port : strict_config c -> keeps c (resolve_host host port) (fun _ => True).
Proof.
  intros Hc. eapply keeps_bind; [apply keeps_guard|]. intros _ _.
  destruct (parse_ip host); [by apply keeps_ret|].
  eapply keeps_bind; [apply keeps_config|]. intros ? ->.
  eapply keeps_bind; [apply (keeps_lift _ _ _ (fun u Hu => Hu))|]. cbn. intros ? Hdns.
  apply fail_if_Ok in Hdns. rewrite (strict_mode c Hc), (strict_closed c Hc) in Hdns.
  eapply keeps_bind; [apply keeps_log|].
  { cbn. destruct (is_some (required_network_namespace c)); [by left|right].
    by destruct (dns_constrained probe c). }
  intros _ _. eapply (keeps_bind _ _ _ (fun _ => True)); [|intros addrs _; by apply keeps_lift].
  intros b [Hb Hu]. by split.
Qed.

Lemma keeps_udp c remote port : strict_config c -> keeps c (udp_socket_at remote port) (fun _ => True).
Proof.
  intros Hc. eapply keeps_bind; [apply keeps_guard|]. intros _ _.
  eapply keeps_bind; [apply keeps_config|]. intros ? ->.
  eapply (keeps_bind _ _ _ (fun _ => forall r, remote = Some r -> ensure_family_enforced c r = Ok ())).
  { destruct remote as [r|]; [|by apply keeps_ret].
    eapply keeps_weaken; [|apply keeps_family]. intros [] E r' Hr. by injection Hr as <-. }
  intros [] Hr. eapply keeps_bind; [apply keeps_bind_failure, keeps_create_udp|]. intros ? ->.
  eapply keeps_bind; [|intros _ _; by apply keeps_ret]. apply keeps_log. cbn [use_contained].
  change (is_ipv6 (mkSocketAddr (ip (udp_bind_addr c remote)) port)) with (is_ipv6 (udp_bind_addr c remote)).
  rewrite udp_bind_family. apply bound_socket_contained. intros E1 E2.
  destruct remote as [r|].
  - replace (is_ipv6 (udp_bind_addr c (Some r))) with (is_ipv6 r)
      by (unfold udp_bind_addr; by destruct (is_ipv6 r)).
    apply enforced_family; auto.
  - rewrite family_some by done. pose proof (strict_path c Hc E1 E2) as Hp. unfold udp_bind_addr.
    destruct (required_source_ipv4 c), (required_source_ipv6 c); cbn in *; naive_solver.
Qed.

Lemma keeps_one_listener c v6 port report d :
  strict_config c ->
  (required_interface c = None -> required_network_namespace c = None ->
     is_some (family_source c v6) = true) ->
  keeps c (bind_one_listener c (mkSocketAddr (bound_ip c v6) port) report d) (fun _ => True).
Proof.
  intros Hc Hs. apply keeps_on_error.
  - apply keeps_create_listener.
    replace (is_ipv6 (mkSocketAddr (bound_ip c v6) port)) with v6 by (by destruct v6).
    by apply bound_socket_contained.
  - intros _. destruct report; [apply keeps_report|by apply keeps_ret].
Qed.

Lemma keeps_listen c port report :
  strict_config c -> keeps c (bind_peer_listener_inner port report) (fun _ => True).
Proof.
  intros Hc. eapply keeps_bind; [apply keeps_guard|]. intros _ _.
  eapply keeps_bind; [apply keeps_config|]. intros ? ->.
  pose proof (strict_path c Hc) as Hp.
  eapply (keeps_bind _ _ _ (fun _ => True)).
  { destruct (listens_v4 c) eqn:E4; [|by apply keeps_ret].
    eapply keeps_bind; [|intros; by apply keeps_ret].
    apply (keeps_one_listener c false); [done|]. intros E1 E2. rewrite family_some by done.
    specialize (Hp E1 E2). unfold listens_v4, namespace_only in E4. rewrite E1, E2 in E4.
    destruct (required_source_ipv4 c), (required_source_ipv6 c); cbn in *; naive_solver. }
  intros v4 _. eapply (keeps_bind _ _ _ (fun _ => True)); [|intros; by apply keeps_ret].
  destruct (listens_v6 c) eqn:E6; [|by apply keeps_ret].
  eapply keeps_bind; [|intros; by apply keeps_ret].
  apply (keeps_one_listener c true); [done|]. intros E1 E2. rewrite family_some by done.
  unfold listens_v6, namespace_only in E6. rewrite E1, E2 in E6.
  destruct (allow_ipv6 c), (required_source_ipv6 c); cbn in *; naive_solver.
Qed.

Lemma perform_inv c o b : strict_config c -> binder_inv c b -> binder_inv c (perform o b).2.
Proof.
  intros Hc Hb. destruct o as [addr|host port|remote port|port report]; cbn [perform].
  - destruct (keeps_connect c addr Hc b Hb). by destruct (connect_peer addr b).
  - destruct (keeps_resolve c host port Hc b Hb). by destruct (resolve_host host port b).
  - destruct (keeps_udp c remote port Hc b Hb). by destruct (udp_socket_at remote port b).
  - destruct (keeps_listen c port report Hc b Hb). by destruct (bind_peer_listener_inner port report b).
Qed.

Lemma report_uses s d b : uses (report_health_status s d b).2 = uses b.
Proof. unfold report_health_status. by destruct (_ && _). Qed.

(** Denied by the gate or by the path, [guard] fails without any use. *)
Definition fails_unused {A} (m : M A) (b : ContainedBinder) : Prop :=
  exists e b', m b = (Err e, b') /\ uses b' = uses b.

Lemma guard_denies b :
  strict_config (config b) -> binder_traffic_allowed b = false -> fails_unused guard b.
Proof.
  intros Hc Hd. pose proof (strict_mode _ Hc) as Hm. pose proof (strict_closed _ Hc) as Hf.
  assert (Hmode : mode (config b) <> ModeDisabled).
  { apply bool_decide_eq_true in Hm. by rewrite Hm. }
  unfold binder_traffic_allowed in Hd. rewrite decide_False in Hd by done.
  unfold fails_unused, guard, mbind, M_bind, gate_enforce, config_snapshot, lift.
  destruct (binder_gate b) as [g|] eqn:Eg;
    [destruct (gate_traffic_allowed g); cbn [andb] in Hd; cbn [negb fail_if];
     [|by do 2 eexists]|cbn [andb] in Hd];
    rewrite decide_False by done; rewrite Hm, Hf, Hd;
    (destruct (_ && _ && _ && _ && _); [|by do 2 eexists]);
    do 2 eexists; (split; [|apply report_uses]); unfold report_health_status;
    by rewrite Hm, Hf.
Qed.

Lemma perform_denied o b :
  strict_config (config b) -> binder_traffic_allowed b = false ->
  (perform o b).1 = false /\ uses (perform o b).2 = uses b.
Proof.
  intros Hc Hd. destruct (guard_denies b Hc Hd) as (e & b' & E & Hu).
  destruct o; cbn [perform]; unfold connect_peer, resolve_host, udp_socket_at,
    bind_peer_listener_inner, mbind, M_bind; by rewrite E.
Qed.

Definition perform_all (ops : list binder_op) (b : ContainedBinder) : ContainedBinder :=
  foldl (fun b o => (perform o b).2) b ops.

Lemma perform_all_inv c ops : forall b,
  strict_config c -> binder_inv c b -> binder_inv c (perform_all ops b).
Proof.
  induction ops as [|o ops IH]; intros b Hc Hb; [done|]. apply IH; [done|]. by apply perform_inv.
Qed.

(** C17: With a validated strict fail-closed configuration no torrent socket ever
    goes into service outside the configured path: whatever operations are
    requested and whatever the system answers, every connection, datagram socket
    and listener is bound to the required interface and to the configured source
    address of its family, at least one of the two outside a required namespace,
    and a name is looked up only where DNS is constrained.  While the gate or the
    path denies, every operation fails and puts nothing into use. *)
Theorem strict_uses_contained (host_parse : list byte -> option Host) (b : ContainedBinder)
    (ops : list binder_op) (o : binder_op)
    (Hv : validate host_parse (config b) = Ok ()) (Hm : mode (config b) = Strict)
    (Hf : fail_closed (config b) = true) (Hu : uses b = []) :
  let b' := perform_all ops b in
  Forall (use_contained (config b)) (uses b') /\
  (binder_traffic_allowed b' = false ->
   (perform o b').1 = false /\ uses (perform o b').2 = uses b').
Proof.
  pose proof (validated_strict _ _ Hv Hm Hf) as Hc. cbv zeta.
  assert (Hb : binder_inv (config b) b) by (split; [done|by rewrite Hu]).
  destruct (perform_all_inv _ ops b Hc Hb) as [Hcfg Hus]. split; [done|].
  intros Hd. apply perform_denied; [by rewrite Hcfg|done].
Qed.

End Binder.
Arguments ContainedBinder N : clear implicits.

(** ** A concrete host: tun0 is up with the configured source address *)

Definition vpn_config : NetworkConfig :=
  mkNetworkConfig Strict (Some (bytes_of "tun0")) (Some (bytes_of "10.8.0.2")) None None
    true true false true default_socks5.
Definition vpn_probe (up : bool) : InterfaceProbe :=
  mkProbe (fun _ => Some (mkInterfaceInfo (bytes_of "tun0") (if up then Up else Down) [V4 168296450]))
    (fun _ _ => true) (fun _ => true) (fun _ => true) (fun _ => false).
Definition quiet_system : system := mkSystem (fun _ _ => None) (fun _ _ _ => inr [mkSocketAddr (V4 7) 80]).
Definition vpn_binder : ContainedBinder futures :=
  mkBinder vpn_config (Some (new true)) (Some []) 0 [].
Definition some_ops : list binder_op :=
  [OpConnect (mkSocketAddr (V4 134744072) 6881); OpUdp None 0; OpListen 6881 true;
   OpResolve (bytes_of "tracker.example") 80].

Lemma strict_uses_contained_witness :
  uses (perform_all (vpn_probe true) quiet_system some_ops vpn_binder) <> [] /\
  Forall (use_contained (vpn_probe true) vpn_config)
    (uses (perform_all (vpn_probe true) quiet_system some_ops vpn_binder)) /\
  (perform (vpn_probe false) quiet_system (OpUdp None 0) vpn_binder).1 = false.
Proof.
  split; [by vm_compute|]. split.
  - exact (proj1 (strict_uses_contained (vpn_probe true) quiet_system (fun d => Some (Domain d))
      vpn_binder some_ops (OpUdp None 0) eq_refl eq_refl eq_refl eq_refl)).
  - exact (proj1 (proj2 (strict_uses_contained (vpn_probe false) quiet_system (fun d => Some (Domain d))
      vpn_binder [] (OpUdp None 0) eq_refl eq_refl eq_refl eq_refl) eq_refl)).
Defined.

(** ** What the policy lets through *)

(** A configured source of 0.0.0.0 validates, and confines nothing: the socket is
    bound to the wildcard address of no interface. *)
Theorem unspecified_source_is_accepted :
  let c := mkNetworkConfig Strict None (Some (bytes_of "0.0.0.0")) None None
             true true false false default_socks5 in
  let probe := mkProbe (fun _ => None) (fun _ _ => true) (fun _ => false) (fun _ => false) (fun _ => false) in
  let b : ContainedBinder futures := mkBinder c (Some (new true)) (Some []) 0 [] in
  validate (fun _ => None) c = Ok () /\
  uses (perform probe quiet_system (OpConnect (mkSocketAddr (V4 134744072) 6881)) b).2
  = [UseConnect (mkSocket false None (Some (mkSocketAddr (V4 0) 0))) (mkSocketAddr (V4 134744072) 6881)].
Proof. split; vm_compute; reflexivity. Qed.

(** In preferred mode an unusable path blocks all the same. *)
Theorem preferred_mode_blocks :
  let c := mkNetworkConfig Preferred (Some (bytes_of "tun0")) None None None
             true true false false default_socks5 in
  let b : ContainedBinder futures := mkBinder c (Some (new true)) (Some []) 0 [] in
  (perform (vpn_probe false) quiet_system (OpConnect (mkSocketAddr (V4 134744072) 6881)) b).1 = false.
Proof. reflexivity. Qed.
