(* ===== verification/Permits.v ===== *)
(** * Peer-session permits

    [peer_permits.rs] of swarmotterd: the budgets of peer sessions under
    concurrency.  tokio's [Semaphore] is an interface with the laws its
    documentation states.  Taking a semaphore permit, counting the session,
    uncounting it and giving the semaphore permit back are separate steps, so that
    sessions of all torrents interleave as the code lets them. *)

From S2P Require Import Prelude.

(** ** The interface of [tokio::sync::Semaphore] *)

Class SemaphoreOps (S : Type) := {
  sem_new : Z -> S;
  sem_close : S -> S;
  try_acquire_owned : S -> option S;
  sem_release : S -> S;
  is_closed : S -> bool;
  MAX_PERMITS : Z }.

Class SemaphoreLaws (S : Type) `{SemaphoreOps S} := {
  available_permits : S -> Z;
  max_permits_range : 0 <= MAX_PERMITS < 2 ^ 64;
  new_available : forall n, available_permits (sem_new n) = n;
  new_open : forall n, is_closed (sem_new n) = false;
  close_closes : forall s, is_closed (sem_close s) = true;
  acquire_closed : forall s, is_closed s = true -> try_acquire_owned s = None;
  acquire_none : forall s, is_closed s = false -> available_permits s <= 0 -> try_acquire_owned s = None;
  acquire_some : forall s, is_closed s = false -> 0 < available_permits s ->
    exists s', try_acquire_owned s = Some s' /\ is_closed s' = false /\
      available_permits s' = available_permits s - 1;
  release_available : forall s, available_permits (sem_release s) = available_permits s + 1;
  release_closed : forall s, is_closed (sem_release s) = is_closed s }.

Definition DEFAULT_PER_TORRENT_PEER_LIMIT : Z := 64.

(** ** Pools *)

Record PeerPermitPool (S : Type) : Type := mkPool {
  limit : Z; semaphore : option S; in_use : Z }.
Arguments mkPool {S}.
Arguments limit {S}.
Arguments semaphore {S}.
Arguments in_use {S}.

Record PeerPermitSnapshot : Type := mkSnapshot {
  snap_limit : Z; snap_in_use : Z; snap_available : option Z; snap_denied : Z }.

(** A permit: its semaphore part taken, counted as in use, or uncounted with the
    semaphore part still held. *)
Inductive phase : Type := Owned | Live | Dropping.
#[export] Instance phase_eq_dec : EqDecision phase.
Proof. solve_decision. Defined.

(** A peer session: the pools it still has to acquire from, in order; whether it
    waits for capacity; and its permits. *)
Record session : Type := mkSession {
  want : list nat; waits : bool; permits : list (nat * phase) }.

(** Between taking the semaphore and counting there is no await: the session does
    nothing else. *)
Definition acquiring (t : session) : bool := existsb (fun q => bool_decide (q.2 = Owned)) (permits t).

Section Permits.
Context {S : Type} `{SemaphoreOps S}.

Definition pool_new (limit : Z) : outcome (PeerPermitPool S) :=
  _ ← fail_if (limit >? MAX_PERMITS) (InvalidConfig "peer limit exceeds runtime maximum");
  Ok (mkPool limit (if limit >? 0 then Some (sem_new limit) else None) 0).
Definition unlimited : PeerPermitPool S := mkPool 0 None 0.
Definition invalid_fail_closed (limit : Z) : PeerPermitPool S :=
  mkPool limit (Some (sem_close (sem_new 0))) 0.

(** The semaphore part of [acquire] and [try_acquire]: a pool without a semaphore
    always grants. *)
Definition take_permit (p : PeerPermitPool S) : option (PeerPermitPool S) :=
  match semaphore p with
  | Some s => s ← try_acquire_owned s; Some (mkPool (limit p) (Some s) (in_use p))
  | None => Some p
  end.
Definition count_permit (p : PeerPermitPool S) : PeerPermitPool S :=
  mkPool (limit p) (semaphore p) (wrap 64 (in_use p + 1)).
(** [Drop]: uncount, then the fields are dropped. *)
Definition uncount_permit (p : PeerPermitPool S) : PeerPermitPool S :=
  mkPool (limit p) (semaphore p) (wrap 64 (in_use p - 1)).
Definition release_permit (p : PeerPermitPool S) : PeerPermitPool S :=
  mkPool (limit p) (sem_release <$> semaphore p) (in_use p).

Definition snapshot (p : PeerPermitPool S) (denied : Z) : PeerPermitSnapshot :=
  mkSnapshot (limit p) (in_use p)
    ((fun s => if is_closed s then 0 else saturating_sub (limit p) (in_use p)) <$> semaphore p) denied.

(** ** Sessions *)

Record world : Type := mkWorld {
  pools : list (PeerPermitPool S); denied : Z; sessions : list session }.

(** The two budgets of a torrent's sessions. *)
Record PeerSessionBudget : Type := mkBudget { global : nat; torrent : nat }.

(** [acquire_outbound] waits for the torrent's budget first; an accepted socket
    tries the one budget it is given. *)
Definition acquire_outbound (b : PeerSessionBudget) : session := mkSession [torrent b; global b] true [].
Definition try_acquire (pool : nat) : session := mkSession [pool] false [].

Definition set_session (w : world) (ps : list (PeerPermitPool S)) (i : nat) (t : session) : world :=
  mkWorld ps (denied w) (<[i := t]> (sessions w)).

(** The semaphore grants, or it does not: then a session that does not wait is
    denied and one that waits goes on waiting, unless the pool is closed. *)
Definition acquire_step (w : world) (i : nat) : option world :=
  t ← sessions w !! i;
  match want t with
  | [] => None
  | k :: ks =>
      if acquiring t then None
      else
        p ← pools w !! k;
        match take_permit p with
        | Some p' => Some (set_session w (<[k := p']> (pools w)) i
                             (mkSession ks (waits t) (permits t ++ [(k, Owned)])))
        | None =>
            if negb (waits t)
            then Some (mkWorld (pools w) (wrap 64 (denied w + 1))
                         (<[i := mkSession [] false (permits t)]> (sessions w)))
            else if match semaphore p with Some s => is_closed s | None => false end
            then Some (set_session w (pools w) i (mkSession [] true (permits t)))
            else None
        end
  end.

(** The next step of the [j]-th permit of a session: counting it, and, once the
    session ends or is cancelled, uncounting it and giving it back. *)
Definition permit_step (w : world) (i j : nat) : option world :=
  t ← sessions w !! i;
  '(k, ph) ← permits t !! j;
  p ← pools w !! k;
  match ph with
  | Owned => Some (set_session w (<[k := count_permit p]> (pools w)) i
               (mkSession (want t) (waits t) (<[j := (k, Live)]> (permits t))))
  | Live =>
      if acquiring t then None
      else Some (set_session w (<[k := uncount_permit p]> (pools w)) i
             (mkSession [] (waits t) (<[j := (k, Dropping)]> (permits t))))
  | Dropping => Some (set_session w (<[k := release_permit p]> (pools w)) i
                  (mkSession (want t) (waits t) (delete j (permits t))))
  end.

Inductive wstep (w : world) : world -> Prop :=
  | wstep_outbound b :
      wstep w (mkWorld (pools w) (denied w) (sessions w ++ [acquire_outbound b]))
  | wstep_inbound k :
      wstep w (mkWorld (pools w) (denied w) (sessions w ++ [try_acquire k]))
  | wstep_acquire i w' : acquire_step w i = Some w' -> wstep w w'
  | wstep_permit i j w' : permit_step w i j = Some w' -> wstep w w'.

(** A pool as one of the constructors made it. *)
Definition fresh_pool (p : PeerPermitPool S) : Prop :=
  (exists n, 0 <= n /\ pool_new n = Ok p) \/ p = unlimited \/ exists n, p = invalid_fail_closed n.

Definition reachable (w : world) : Prop :=
  exists ps, Forall fresh_pool ps /\ rtc wstep (mkWorld ps 0 []) w.

(** ** What is held *)

Definition held_of (k : nat) (q : nat * phase) : Z := if bool_decide (q.1 = k) then 1 else 0.
Definition live_of (k : nat) (q : nat * phase) : Z :=
  if bool_decide (q = (k, Live)) then 1 else 0.
(** Permits of pool [k] whose semaphore part is held, and those counted. *)
Definition held (k : nat) (w : world) : Z := zsum (fun t => zsum (held_of k) (permits t)) (sessions w).
Definition live (k : nat) (w : world) : Z := zsum (fun t => zsum (live_of k) (permits t)) (sessions w).

Context `{!SemaphoreLaws S}.

(** What a pool records when [h] permits are held and [l] of them counted. *)
Definition pool_ok (p : PeerPermitPool S) (h l : Z) : Prop :=
  in_use p = wrap 64 l /\ 0 <= l <= h /\
  match semaphore p with
  | None => limit p = 0
  | Some s =>
      if is_closed s then h = 0
      else 0 < limit p <= MAX_PERMITS /\ 0 <= available_permits s /\ available_permits s + h = limit p
  end.

Definition permits_inv (w : world) : Prop :=
  forall k p, pools w !! k = Some p -> pool_ok p (held k w) (live k w).

Lemma fresh_pool_ok p : fresh_pool p -> pool_ok p 0 0.
Proof.
  intros [(n & Hn & E)|[->|[n ->]]].
  - unfold pool_new in E. inv_ok. unfold pool_ok. cbn.
    rewrite !Z.gtb_ltb in *. destruct (Z.ltb_spec 0 n); [|repeat split; lia].
    rewrite new_open, new_available. rewrite Z.ltb_ge in *. repeat split; lia.
  - by repeat split.
  - unfold pool_ok. cbn. rewrite close_closes. by repeat split.
Qed.

(** One session changes its permits of pool [k], and the pool with it. *)
Lemma set_session_inv w i t t' k p p' :
  permits_inv w -> sessions w !! i = Some t -> pools w !! k = Some p ->
  (forall k', k' <> k -> zsum (held_of k') (permits t') = zsum (held_of k') (permits t) /\
     zsum (live_of k') (permits t') = zsum (live_of k') (permits t)) ->
  pool_ok p' (held k w - zsum (held_of k) (permits t) + zsum (held_of k) (permits t'))
    (live k w - zsum (live_of k) (permits t) + zsum (live_of k) (permits t')) ->
  permits_inv (set_session w (<[k := p']> (pools w)) i t').
Proof.
  intros Hw Hi Hk Hother Hp k' q Hq. unfold held, live, set_session in *. cbn [pools sessions] in *.
  rewrite !(zsum_insert _ _ _ t) by done.
  apply list_lookup_insert_Some in Hq as [(<- & <- & _)|[Hne Hq]]; [done|].
  destruct (Hother k' ltac:(done)) as [-> ->]. specialize (Hw k' q Hq).
  by rewrite !Z.sub_add.
Qed.

(** A session that changes no permit. *)
Lemma same_permits_inv w i t t' d :
  permits_inv w -> sessions w !! i = Some t -> permits t' = permits t ->
  permits_inv (mkWorld (pools w) d (<[i := t']> (sessions w))).
Proof.
  intros Hw Hi E k p Hk. unfold held, live in *. cbn [sessions].
  rewrite !(zsum_insert _ _ _ t) by done. rewrite E, !Z.sub_add. by apply Hw.
Qed.

Lemma held_of_same k ph : held_of k (k, ph) = 1.
Proof. unfold held_of. by rewrite bool_decide_true. Qed.
Lemma held_of_other k k' ph : k' <> k -> held_of k' (k, ph) = 0.
Proof. intros Hne. unfold held_of. rewrite bool_decide_false; cbn; congruence. Qed.
Lemma live_of_other k k' ph : k' <> k -> live_of k' (k, ph) = 0.
Proof. intros Hne. unfold live_of. rewrite bool_decide_false; congruence. Qed.
Lemma live_of_live k : live_of k (k, Live) = 1.
Proof. unfold live_of. by rewrite bool_decide_true. Qed.
Lemma live_of_not k ph : ph <> Live -> live_of k (k, ph) = 0.
Proof. intros Hne. unfold live_of. rewrite bool_decide_false; congruence. Qed.

Lemma zsum_delete {A} (f : A -> Z) l j a : l !! j = Some a -> zsum f (delete j l) = zsum f l - f a.
Proof.
  intros Hj. rewrite delete_take_drop. rewrite <- (take_drop_middle l j a Hj) at 3.
  rewrite !zsum_app, zsum_cons. lia.
Qed.

Lemma held_bound k q : 0 <= live_of k q <= held_of k q /\ held_of k q <= 1.
Proof.
  unfold live_of, held_of. destruct (bool_decide_reflect (q = (k, Live))) as [->|].
  - by rewrite bool_decide_true by done.
  - case_bool_decide; lia.
Qed.

Lemma take_permit_ok p p' h l :
  pool_ok p h l -> take_permit p = Some p' -> pool_ok p' (h + 1) l /\ (semaphore p = None \/ h < limit p).
Proof.
  unfold pool_ok, take_permit. intros (Hu & Hl & Hs) E.
  destruct (semaphore p) as [s|] eqn:Es; cbn in E.
  - destruct (is_closed s) eqn:Ec; [by rewrite acquire_closed in E|].
    destruct Hs as (Hlim & Ha & Hsum). destruct (Z.leb_spec (available_permits s) 0).
    { by rewrite acquire_none in E by done. }
    destruct (acquire_some s Ec) as (s' & E' & Ec' & Ha'); [done|]. rewrite E' in E. simplify_eq/=.
    rewrite Ec'. repeat split; done || lia.
  - simplify_eq. rewrite Es. repeat split; try done; try lia. by left.
Qed.

Lemma wrap_succ x y : wrap 64 (wrap 64 x + y) = wrap 64 (x + y).
Proof. unfold wrap. by rewrite Zplus_mod_idemp_l. Qed.

Lemma count_ok p h l : pool_ok p h l -> l + 1 <= h -> pool_ok (count_permit p) h (l + 1).
Proof. intros (Hu & Hl & Hs) Hle. split; [|by split; [lia|]]. cbn. by rewrite Hu, wrap_succ. Qed.
Lemma uncount_ok p h l : pool_ok p h l -> 1 <= l -> pool_ok (uncount_permit p) h (l - 1).
Proof.
  intros (Hu & Hl & Hs) Hle. split; [|by split; [lia|]]. cbn. unfold Z.sub. by rewrite Hu, wrap_succ.
Qed.
Lemma release_ok p h l : pool_ok p h l -> l <= h - 1 -> pool_ok (release_permit p) (h - 1) l.
Proof.
  intros (Hu & Hl & Hs) Hle. split; [done|]. split; [lia|]. cbn.
  destruct (semaphore p) as [s|]; [|done]. cbn. rewrite release_closed, release_available.
  destruct (is_closed s); [lia|]. lia.
Qed.

(** ** Every step keeps the books *)

Lemma zsum_zero {A} (f : A -> Z) l : (forall a, a ∈ l -> f a = 0) -> zsum f l = 0.
Proof.
  induction l as [|a l IH]; intros H0; [done|].
  rewrite zsum_cons, H0, IH; [done|set_solver|set_solver].
Qed.

Lemma zsum_le {A} (f g : A -> Z) l : (forall a, f a <= g a) -> zsum f l <= zsum g l.
Proof. intros Hfg. induction l as [|a l IH]; [done|]. rewrite !zsum_cons. specialize (Hfg a). lia. Qed.

(** A permit in a phase other than counted leaves the count behind what is held. *)
Lemma uncounted_held w i t j k ph :
  sessions w !! i = Some t -> permits t !! j = Some (k, ph) -> ph <> Live ->
  live k w + 1 <= held k w.
Proof.
  intros Hi Hj Hph. unfold live, held.
  assert (Ht : zsum (live_of k) (permits t) + 1 <= zsum (held_of k) (permits t)).
  { rewrite <- (take_drop_middle _ j _ Hj), !zsum_app, !zsum_cons, live_of_not, held_of_same by done.
    pose proof (zsum_le (live_of k) (held_of k) (take j (permits t)) (fun q => proj2 (proj1 (held_bound k q)))).
    pose proof (zsum_le (live_of k) (held_of k) (drop (Datatypes.S j) (permits t))
      (fun q => proj2 (proj1 (held_bound k q)))). lia. }
  rewrite <- (take_drop_middle _ i _ Hi), !zsum_app, !zsum_cons.
  pose proof (zsum_le (fun t => zsum (live_of k) (permits t)) (fun t => zsum (held_of k) (permits t))
    (take i (sessions w)) (fun t => zsum_le _ _ _ (fun q => proj2 (proj1 (held_bound k q))))).
  pose proof (zsum_le (fun t => zsum (live_of k) (permits t)) (fun t => zsum (held_of k) (permits t))
    (drop (Datatypes.S i) (sessions w)) (fun t => zsum_le _ _ _ (fun q => proj2 (proj1 (held_bound k q))))).
  lia.
Qed.

Lemma counted_live w i t j k :
  sessions w !! i = Some t -> permits t !! j = Some (k, Live) -> 1 <= live k w.
Proof.
  intros Hi Hj. unfold live.
  pose proof (zsum_ge (live_of k) (permits t) j _ (fun q _ => proj1 (proj1 (held_bound k q))) Hj) as H1.
  rewrite live_of_live in H1.
  pose proof (zsum_ge (fun t => zsum (live_of k) (permits t)) (sessions w) i t
    (fun t _ => zsum_nonneg _ _ (fun q _ => proj1 (proj1 (held_bound k q)))) Hi). cbn beta in *. lia.
Qed.

Lemma acquire_step_inv w i w' : permits_inv w -> acquire_step w i = Some w' -> permits_inv w'.
Proof.
  intros Hw E. unfold acquire_step in E.
  destruct (sessions w !! i) as [t|] eqn:Hi; [|done]. cbn in E.
  destruct (want t) as [|k ks]; [done|]. destruct (acquiring t); [done|].
  destruct (pools w !! k) as [p|] eqn:Hk; [|done]. cbn in E.
  destruct (take_permit p) as [p'|] eqn:Ep.
  - simplify_eq/=. destruct (take_permit_ok _ _ _ _ (Hw k p Hk) Ep) as [Hp _].
    eapply set_session_inv; [done..| |]; cbn [permits].
    + intros k' Hne. rewrite !zsum_app, !zsum_single, held_of_other, live_of_other by done. lia.
    + rewrite !zsum_app, !zsum_single, held_of_same, live_of_not by done.
      replace (_ - _ + (_ + 1)) with (held k w + 1) by lia.
      by replace (_ - _ + (_ + 0)) with (live k w) by lia.
  - destruct (negb (waits t)); [|destruct (match semaphore p with Some s => _ | None => _ end)];
      simplify_eq/=; by eapply same_permits_inv.
Qed.

Lemma permit_step_inv w i j w' : permits_inv w -> permit_step w i j = Some w' -> permits_inv w'.
Proof.
  intros Hw E. unfold permit_step in E.
  destruct (sessions w !! i) as [t|] eqn:Hi; [|done]. cbn in E.
  destruct (permits t !! j) as [[k ph]|] eqn:Hj; [|done]. cbn in E.
  destruct (pools w !! k) as [p|] eqn:Hk; [|done]. cbn in E. pose proof (Hw k p Hk) as Hp.
  destruct ph; [|destruct (acquiring t); [done|]|]; simplify_eq/=;
    eapply set_session_inv; try done; cbn [permits].
  - intros k' Hne. rewrite !(zsum_insert _ _ _ _ _ Hj), !held_of_other, !live_of_other by done. lia.
  - rewrite !(zsum_insert _ _ _ _ _ Hj), !held_of_same, live_of_live, live_of_not by done.
    pose proof (uncounted_held w i t j k Owned Hi Hj ltac:(done)) as Hu.
    pose proof (count_ok p _ _ Hp Hu) as Hc.
    replace (held k w - _ + _) with (held k w) by lia. by replace (live k w - _ + _) with (live k w + 1) by lia.
  - intros k' Hne. rewrite !(zsum_insert _ _ _ _ _ Hj), !held_of_other, !live_of_other by done. lia.
  - rewrite !(zsum_insert _ _ _ _ _ Hj), !held_of_same, live_of_live, live_of_not by done.
    pose proof (uncount_ok p _ _ Hp (counted_live w i t j k Hi Hj)) as Hc.
    replace (held k w - _ + _) with (held k w) by lia. by replace (live k w - _ + _) with (live k w - 1) by lia.
  - intros k' Hne. rewrite !(zsum_delete _ _ _ _ Hj), held_of_other, live_of_other by done. lia.
  - rewrite !(zsum_delete _ _ _ _ Hj), held_of_same, live_of_not by done.
    pose proof (uncounted_held w i t j k Dropping Hi Hj ltac:(done)) as Hu.
    pose proof (release_ok p _ _ Hp ltac:(lia)) as Hc.
    replace (held k w - _ + _) with (held k w - 1) by lia. by replace (live k w - _ + _) with (live k w) by lia.
Qed.

Lemma reachable_permits w : reachable w -> permits_inv w.
Proof.
  intros (ps & Hps & Hsteps).
  assert (H0 : permits_inv (mkWorld ps 0 [])).
  { intros k p Hk. apply fresh_pool_ok. rewrite Forall_forall in Hps. apply Hps.
    by eapply list_elem_of_lookup_2. }
  revert H0. induction Hsteps as [w|w w1 w2 Hstep _ IH]; intros Hw; [done|]. apply IH.
  destruct Hstep as [b|k|i w1 E|i j w1 E].
  - intros k p Hk. unfold held, live. cbn [sessions]. rewrite !zsum_app, !zsum_single. cbn [permits acquire_outbound].
    rewrite !zsum_nil, !Z.add_0_r. by apply Hw.
  - intros k' p Hk. unfold held, live. cbn [sessions]. rewrite !zsum_app, !zsum_single. cbn [permits try_acquire].
    rewrite !zsum_nil, !Z.add_0_r. by apply Hw.
  - by eapply acquire_step_inv.
  - by eapply permit_step_inv.
Qed.

(** However peer sessions of all torrents acquire, count, end and are
    cancelled, a bounded pool never holds more permits than its limit, its in-use
    count is exactly the number of counted sessions, its snapshot reports exactly
    the rest as available, and it grants the next session exactly while fewer than
    its limit are held: no permit leaks, none is given twice.  An unlimited pool
    always grants; a fail-closed one never does. *)
Theorem permits_exact (w : world) (k : nat) (p : PeerPermitPool S)
    (Hw : reachable w) (Hk : pools w !! k = Some p) :
  match semaphore p with
  | None => is_Some (take_permit p) /\ in_use p = wrap 64 (live k w)
  | Some s =>
      if is_closed s then take_permit p = None /\ in_use p = 0
      else
        held k w <= limit p /\ in_use p = live k w /\
        snap_available (snapshot p (denied w)) = Some (limit p - live k w) /\
        (is_Some (take_permit p) <-> held k w < limit p)
  end.
Proof.
  pose proof (reachable_permits w Hw k p Hk) as (Hu & Hl & Hs). pose proof max_permits_range as Hm.
  unfold take_permit, snapshot. destruct (semaphore p) as [s|]; [|split; [by eexists|done]].
  destruct (is_closed s) eqn:Ec.
  { rewrite acquire_closed by done. split; [done|]. rewrite Hu. by replace (live k w) with 0 by lia. }
  destruct Hs as (Hlim & Ha & Hsum).
  rewrite wrap_small in Hu by (split; lia). repeat split; try lia.
  - cbn. rewrite Ec, Hu. unfold saturating_sub. f_equal. lia.
  - destruct (Z.leb_spec (available_permits s) 0); [|lia].
    rewrite acquire_none by done. by intros [].
  - intros Hh. destruct (acquire_some s Ec) as (s' & -> & _); [lia|]. by eexists.
Qed.

End Permits.
Arguments world S : clear implicits.

(** ** An implementation of [Semaphore]: the permits left and whether it is closed *)

Abbreviation counter := (Z * bool)%type.

#[export] Instance counter_semaphore : SemaphoreOps counter := {
  sem_new n := (n, false);
  sem_close s := (s.1, true);
  try_acquire_owned s := if s.2 || (s.1 <=? 0) then None else Some (s.1 - 1, s.2);
  sem_release s := (s.1 + 1, s.2);
  is_closed s := s.2;
  MAX_PERMITS := 2 ^ 61 - 1 }.

#[export] Instance counter_laws : SemaphoreLaws counter.
Proof.
  refine {| available_permits s := (s : counter).1 |}; cbn; try done.
  - by intros [n []].
  - intros [n c]. cbn. intros -> Hn. by rewrite (proj2 (Z.leb_le n 0)).
  - intros [n c]. cbn. intros -> Hn. rewrite (proj2 (Z.leb_gt n 0)) by done. by exists (n - 1, false).
Defined.

(** A torrent's budget of one session and a global budget of two: the torrent's
    first session is established, its second waits. *)
Definition two_sessions : option (world counter) :=
  let w := mkWorld [mkPool 2 (Some (sem_new 2)) 0; mkPool 1 (Some (sem_new 1)) 0] 0
             [acquire_outbound (mkBudget 0 1); acquire_outbound (mkBudget 0 1)] in
  w ← acquire_step w 0; w ← permit_step w 0 0; w ← acquire_step w 0; permit_step w 0 1.

Lemma permits_exact_witness :
  exists w p, two_sessions = Some w /\ pools w !! 1%nat = Some p /\ acquire_step w 1 = None /\
    in_use p = live 1 w /\ (is_Some (take_permit p) <-> held 1 w < limit p).
Proof.
  destruct two_sessions as [w|] eqn:E; [|by vm_compute in E].
  destruct (pools w !! 1%nat) as [p|] eqn:Ep; [|vm_compute in E; by simplify_eq].
  assert (Hr : reachable w).
  { exists [mkPool 2 (Some (sem_new 2)) 0; mkPool 1 (Some (sem_new 1)) 0]. split.
    - repeat apply Forall_cons_2; [left; by exists 2|left; by exists 1|by apply Forall_nil_2].
    - unfold two_sessions in E.
      do 2 (eapply rtc_l; [apply (wstep_outbound _ (mkBudget 0 1))|]). cbn [pools denied sessions app].
      repeat match type of E with
      | (?m ≫= _) = Some _ => destruct m as [?w|] eqn:?; [|done]; cbn [mbind option_bind] in E
      end.
      eapply rtc_l; [by eapply wstep_acquire|]. eapply rtc_l; [by eapply wstep_permit|].
      eapply rtc_l; [by eapply wstep_acquire|]. apply rtc_once. by eapply wstep_permit. }
  pose proof (permits_exact w 1 p Hr Ep) as H. exists w, p. split; [done|]. split; [done|].
  assert (Ew : acquire_step w 1 = None) by (vm_compute in E; by simplify_eq).
  split; [exact Ew|].
  assert (Es : exists n, semaphore p = Some (n, false)).
  { vm_compute in E. simplify_eq. cbn in Ep. simplify_eq. by eexists. }
  destruct Es as [n Es]. rewrite Es in H. destruct H as (_ & H1 & _ & H2). by split.
Defined.
