(* ===== verification/UtpWire.v ===== *)
(** * UtpWire: [utp/header.rs] and [utp/sack.rs] of [crates/swarmotter-core/src]

    The uTP packet header with its linked chain of extensions, and the selective
    acknowledgement bitmask.  [decode_encode] and [encode_decode] together say
    that the decoder accepts exactly the encoder's output; [offsets_from_held]
    says which sequence numbers a bitmask reports. *)

From S2P Require Import Prelude.

Local Open Scope byte_scope.
Local Open Scope Z_scope.

(** ** [utp/header.rs] *)

Definition UTP_VERSION : Z := 1.

Inductive UtpType : Type := Data | Fin | State | Reset | Syn.
#[export] Instance UtpType_eq_dec : EqDecision UtpType.
Proof. solve_decision. Defined.

Definition from_u8 (b : Z) : option UtpType :=
  match b with
  | 0 => Some Data
  | 1 => Some Fin
  | 2 => Some State
  | 3 => Some Reset
  | 4 => Some Syn
  | _ => None
  end.
Definition type_as_u8 (t : UtpType) : Z :=
  match t with Data => 0 | Fin => 1 | State => 2 | Reset => 3 | Syn => 4 end.

Record UtpExtension : Type := mkExtension { kind : Z; data : list byte }.

Record UtpHeader : Type := mkHeader {
  typ : UtpType; version : Z; extension : Z; connection_id : Z;
  timestamp_micros : Z; timestamp_delta_micros : Z; window_size : Z;
  seq_number : Z; ack_number : Z }.

Definition SIZE : Z := 20.

Definition encode_prefix (h : UtpHeader) (first_extension : Z) : list byte :=
  [as_u8 (Z.lor (Z.shiftl (type_as_u8 (typ h)) 4) (Z.land (version h) 15));
   as_u8 first_extension]
  ++ to_be 2 (connection_id h) ++ to_be 4 (timestamp_micros h)
  ++ to_be 4 (timestamp_delta_micros h) ++ to_be 4 (window_size h)
  ++ to_be 2 (seq_number h) ++ to_be 2 (ack_number h).

Definition encode (h : UtpHeader) (payload : list byte) : list byte :=
  encode_prefix h 0 ++ payload.

(** The bytes the extensions take, or the error that refuses them. *)
Fixpoint extension_bytes (total : Z) (extensions : list UtpExtension) : outcome Z :=
  match extensions with
  | [] => Ok total
  | e :: es =>
      _ ← fail_if (kind e =? 0)
            (InvalidArgument "uTP extension kind 0 is reserved for end-of-chain");
      _ ← fail_if (len (data e) >? 255) (InvalidArgument "uTP extension exceeds 255 bytes");
      total ← ok_or (checked_add total (2 + len (data e)))
                (InvalidArgument "uTP extension length overflow");
      extension_bytes total es
  end.

Definition first_kind (extensions : list UtpExtension) : Z :=
  match extensions with e :: _ => kind e | [] => 0 end.

Fixpoint encode_extensions (extensions : list UtpExtension) : list byte :=
  match extensions with
  | [] => []
  | e :: es =>
      [as_u8 (first_kind es); as_u8 (len (data e))] ++ data e ++ encode_extensions es
  end.

Definition encode_with_extensions (h : UtpHeader) (extensions : list UtpExtension)
    (payload : list byte) : outcome (list byte) :=
  _ ← extension_bytes 0 extensions;
  Ok (encode_prefix h (first_kind extensions) ++ encode_extensions extensions ++ payload).

Fixpoint decode_extensions (fuel : nat) (buf : list byte) (next_kind cursor : Z)
    (extensions : list UtpExtension) : outcome (list UtpExtension * Z) :=
  match fuel with
  | O => OutOfFuel
  | S fuel =>
      if next_kind =? 0 then Ok (extensions, cursor)
      else
        _ ← fail_if (saturating_sub (len buf) cursor <? 2)
              (Parse "uTP extension header truncated");
        following_kind ← index buf cursor;
        length ← index buf (cursor + 1);
        let cursor := cursor + 2 in
        stop ← ok_or (checked_add cursor (u8 length)) (Parse "uTP extension length overflow");
        _ ← fail_if (stop >? len buf) (Parse "uTP extension data truncated");
        bytes ← slice buf cursor stop;
        decode_extensions fuel buf (u8 following_kind) stop
          (extensions ++ [mkExtension next_kind bytes])
  end.

Definition decode_with_extensions (buf : list byte)
    : outcome (UtpHeader * list UtpExtension * list byte) :=
  _ ← fail_if (len buf <? 20) (Parse "utp packet too short");
  type_and_version ← index buf 0;
  typ ← ok_or (from_u8 (Z.shiftr (u8 type_and_version) 4)) (Parse "bad utp type");
  let version := Z.land (u8 type_and_version) 15 in
  _ ← fail_if (negb (version =? UTP_VERSION)) (Parse "unsupported utp version");
  extension ← index buf 1;
  connection_id ← be_at buf 2 2;
  timestamp_micros ← be_at buf 4 4;
  timestamp_delta_micros ← be_at buf 8 4;
  window_size ← be_at buf 12 4;
  seq_number ← be_at buf 16 2;
  ack_number ← be_at buf 18 2;
  let h := mkHeader typ version (u8 extension) connection_id timestamp_micros
             timestamp_delta_micros window_size seq_number ack_number in
  '(extensions, cursor) ← decode_extensions (S (length buf)) buf (u8 extension) SIZE [];
  payload ← slice_from buf cursor;
  Ok (h, extensions, payload).

Definition decode (buf : list byte) : outcome (UtpHeader * list byte) :=
  '(h, _, payload) ← decode_with_extensions buf;
  Ok (h, payload).

(** ** [utp/sack.rs] *)

Record Sack : Type := mkSack { words : list Z }.

Definition max_words : nat := 8.

(** One held sequence number: set its bit, if it has one. *)
Definition held_step (ack : Z) (acc : list Z * bool) (held : Z * list byte)
    : outcome (list Z * bool) :=
  let '(words, any) := acc in
  let off := wrap 16 (held.1 - ack) in
  if (off <? 2) || (off >? wrap 16 (Z.of_nat max_words * 32 + 1)) then Ok acc
  else
    let bit := off - 2 in
    let word := bit / 32 in
    let mask := wrap 32 (Z.shiftl 1 (bit mod 32)) in
    if word <? len words then
      w ← index words word;
      Ok (<[Z.to_nat word := Z.lor w mask]> words, true)
    else Ok acc.

Fixpoint held_loop (ack : Z) (acc : list Z * bool) (held : list (Z * list byte))
    : outcome (list Z * bool) :=
  match held with
  | [] => Ok acc
  | h :: held => acc ← held_step ack acc h; held_loop ack acc held
  end.

(** [while words.last() == Some(&0) { words.pop(); }]. *)
Fixpoint trim_zeros (words : list Z) : list Z :=
  match words with
  | [] => []
  | w :: ws =>
      match trim_zeros ws with
      | [] => if w =? 0 then [] else [w]
      | ws' => w :: ws'
      end
  end.

Definition from_held (ack : Z) (held : list (Z * list byte)) : outcome Sack :=
  '(words, any) ← held_loop ack (replicate max_words 0, false) held;
  if negb (any : bool) then Ok (mkSack []) else Ok (mkSack (trim_zeros words)).

Definition sack_is_empty (s : Sack) : bool := match words s with [] => true | _ => false end.

(** The set bits of one word, from bit [b] on. *)
Fixpoint word_offsets (n : nat) (wi b w : Z) : list Z :=
  match n with
  | O => []
  | S n =>
      (if negb (Z.land w (wrap 32 (Z.shiftl 1 b)) =? 0) then [wrap 16 (wi * 32 + b + 2)] else [])
      ++ word_offsets n wi (b + 1) w
  end.
Fixpoint words_offsets (wi : Z) (ws : list Z) : list Z :=
  match ws with
  | [] => []
  | w :: ws => word_offsets 32 wi 0 w ++ words_offsets (wi + 1) ws
  end.
Definition offsets (s : Sack) : list Z := words_offsets 0 (words s).

Definition encode_data (s : Sack) : list byte :=
  if sack_is_empty s then [] else flat_map (to_le 4) (words s).

(** [as_chunks::<4>().0]: the whole chunks. *)
Fixpoint chunks4 (buf : list byte) : list (list byte) :=
  match buf with
  | a :: b :: c :: d :: buf => [a; b; c; d] :: chunks4 buf
  | _ => []
  end.

Definition parse_data (buf : list byte) : outcome Sack :=
  _ ← fail_if ((len buf =? 0) || negb (len buf mod 4 =? 0))
        (Parse "uTP SACK extension length must be a non-zero multiple of 4");
  Ok (mkSack (map of_le (chunks4 buf))).

(** ** Specification *)

Definition header_wf (h : UtpHeader) : Prop :=
  version h = UTP_VERSION /\ in_width 16 (connection_id h) /\ in_width 32 (timestamp_micros h) /\
  in_width 32 (timestamp_delta_micros h) /\ in_width 32 (window_size h) /\
  in_width 16 (seq_number h) /\ in_width 16 (ack_number h).
Definition extension_wf (e : UtpExtension) : Prop := 0 < kind e < 256 /\ len (data e) < 256.
(** The header of a packet names the first extension. *)
Definition packet_wf (h : UtpHeader) (es : list UtpExtension) : Prop :=
  header_wf h /\ Forall extension_wf es /\ extension h = first_kind es.

(** ** The extension chain *)

Lemma extension_bytes_total es t :
  0 <= t -> Forall extension_wf es -> t + len (encode_extensions es) <= usize_max ->
  extension_bytes t es = Ok (t + len (encode_extensions es)).
Proof.
  intros Ht Hes. revert t Ht. induction Hes as [|e es [Hk Hl] Hes IH]; intros t Ht Hsz;
    cbn [extension_bytes encode_extensions] in *.
  { by rewrite len_nil, Z.add_0_r. }
  rewrite (proj2 (Z.eqb_neq _ _)) by lia. rewrite Z.gtb_ltb, (proj2 (Z.ltb_ge _ _)) by lia.
  ok_simpl. rewrite !len_app, !len_cons, len_nil in Hsz |- *.
  pose proof (len_nonneg (encode_extensions es)). pose proof (len_nonneg (data e)).
  unfold checked_add. rewrite (proj2 (Z.leb_le _ _)) by lia. ok_simpl.
  rewrite IH by lia. f_equal. lia.
Qed.

Lemma decode_extensions_encode es fuel buf cursor acc m :
  Forall extension_wf es -> len buf <= usize_max -> 0 <= cursor <= len buf ->
  rest buf cursor = encode_extensions es ++ m -> (length es < fuel)%nat ->
  decode_extensions fuel buf (first_kind es) cursor acc
  = Ok (acc ++ es, cursor + len (encode_extensions es)) /\
  cursor + len (encode_extensions es) <= len buf.
Proof.
  intros Hes Hsz. revert fuel cursor acc.
  induction Hes as [|e es [Hk Hl] Hes IH]; intros fuel cursor acc Hc E Hf;
    destruct fuel as [|fuel]; try (cbn in Hf; lia); cbn [decode_extensions first_kind].
  { cbn. rewrite len_nil, Z.add_0_r, app_nil_r. split; [done|lia]. }
  rewrite (proj2 (Z.eqb_neq _ _)) by lia. cbn [encode_extensions] in E |- *.
  rewrite <- !app_assoc in E. cbn [app] in E.
  assert (Hfk : in_width 8 (first_kind es)).
  { destruct Hes as [|e' es' [Hk' _] _]; unfold in_width; cbn; lia. }
  pose proof (len_nonneg (data e)) as Hd. pose proof (len_nonneg (encode_extensions es)) as Hx.
  pose proof (rest_cons _ _ _ _ (proj1 Hc) E) as E1.
  pose proof (rest_cons buf _ _ (cursor + 1) ltac:(lia) E1) as E2.
  replace (cursor + 1 + 1) with (cursor + 2) in E2 by lia.
  pose proof (rest_bound buf cursor [as_u8 (first_kind es); as_u8 (len (data e))] _ Hc E) as Hb.
  change (len [_; _]) with 2 in Hb.
  pose proof (rest_bound buf (cursor + 2) (data e) _ ltac:(lia) E2) as Hb2.
  unfold saturating_sub. rewrite (proj2 (Z.ltb_ge _ 2)) by lia. ok_simpl.
  rewrite (index_rest _ _ _ _ (proj1 Hc) E). ok_simpl.
  rewrite (index_rest buf (cursor + 1) _ _ ltac:(lia) E1). ok_simpl.
  rewrite !u8_as_u8, !wrap_small by (done || unfold in_width; lia).
  unfold checked_add. rewrite (proj2 (Z.leb_le _ usize_max)) by lia. ok_simpl.
  rewrite Z.gtb_ltb, (proj2 (Z.ltb_ge _ _)) by lia. ok_simpl.
  rewrite (slice_app buf (data e) (encode_extensions es ++ m)) by (done || lia). ok_simpl.
  destruct (IH fuel (cursor + 2 + len (data e)) (acc ++ [mkExtension (kind e) (data e)])) as [-> Hb3].
  - lia.
  - by apply rest_app; [lia|].
  - cbn in Hf. lia.
  - rewrite !len_app, !len_cons, len_nil. rewrite <- app_assoc.
    split; [|lia]. destruct e. cbn [app kind data]. do 2 f_equal. lia.
Qed.

Lemma decode_extensions_Ok fuel buf nk cursor acc es stop :
  0 <= nk < 256 -> len buf <= usize_max -> 0 <= cursor <= len buf ->
  decode_extensions fuel buf nk cursor acc = Ok (es, stop) ->
  exists es', es = acc ++ es' /\ Forall extension_wf es' /\ first_kind es' = nk /\
    rest buf cursor = encode_extensions es' ++ rest buf stop /\ 0 <= stop <= len buf.
Proof.
  intros Hnk Hsz. revert nk cursor acc Hnk. induction fuel as [|fuel IH];
    intros nk cursor acc Hnk Hc; cbn [decode_extensions]; [done|].
  destruct (Z.eqb_spec nk 0) as [->|Hnz].
  { intros [= <- <-]. exists []. by rewrite app_nil_r. }
  intros E. apply bind_Ok in E as (u & Ht & E). apply fail_if_Ok in Ht.
  unfold saturating_sub in Ht. apply Z.ltb_ge in Ht.
  apply bind_Ok in E as (fk & Hf & E). apply index_Ok in Hf as [m1 E1]; [|lia].
  apply bind_Ok in E as (lb & Hl & E). apply index_Ok in Hl as [m2 E2]; [|lia].
  pose proof (rest_cons _ _ _ _ (proj1 Hc) E1) as E1'. rewrite E2 in E1'. subst m1.
  inv_ok. rewrite Z.gtb_ltb, Z.ltb_ge in *.
  pose proof (u8_range lb) as Hlb. pose proof (u8_range fk) as Hfk. unfold in_width in *.
  rewrite slice_rest in * by lia. inv_ok.
  match goal with E : decode_extensions _ _ _ _ _ = Ok _ |- _ =>
    apply IH in E as (es' & -> & Hwf & Hfirst & Hrest & Hstop); [|lia..] end.
  set (bs := take _ _) in *.
  assert (Hbs : len bs = u8 lb).
  { subst bs. pose proof (len_rest buf (cursor + 2) ltac:(lia)). unfold len in *.
    rewrite length_take. lia. }
  exists (mkExtension nk bs :: es'). rewrite <- app_assoc. split; [done|].
  split; [constructor; [split; cbn; lia|done]|]. split; [done|]. split; [|lia].
  cbn [encode_extensions data]. rewrite Hfirst, Hbs, !as_u8_u8. cbn [app].
  rewrite E1, <- !app_assoc, <- Hrest. do 2 f_equal.
  replace (cursor + 1 + 1) with (cursor + 2) in * by lia.
  rewrite <- (rest_cons buf lb m2 (cursor + 1)) by (done || lia).
  replace (cursor + 1 + 1) with (cursor + 2) by lia. subst bs.
  rewrite (rest_add buf (cursor + 2) (u8 lb)) by lia.
  replace (cursor + 2 + u8 lb - (cursor + 2)) with (u8 lb) by lia.
  unfold rest at 3. by rewrite take_drop.
Qed.

(** ** The fixed header *)

Lemma first_byte_decode t :
  from_u8 (Z.shiftr (u8 (as_u8 (Z.lor (Z.shiftl (type_as_u8 t) 4) (Z.land UTP_VERSION 15)))) 4)
  = Some t /\
  Z.land (u8 (as_u8 (Z.lor (Z.shiftl (type_as_u8 t) 4) (Z.land UTP_VERSION 15)))) 15 = UTP_VERSION.
Proof. destruct t; done. Qed.

Lemma first_byte_encode b t :
  from_u8 (Z.shiftr (u8 b) 4) = Some t -> Z.land (u8 b) 15 = UTP_VERSION ->
  as_u8 (Z.lor (Z.shiftl (type_as_u8 t) 4) (Z.land UTP_VERSION 15)) = b.
Proof. destruct b; try discriminate 2; intros [= <-] _; done. Qed.

Lemma len_encode_prefix h k : len (encode_prefix h k) = 20.
Proof. done. Qed.

Lemma decode_encode h es p buf :
  packet_wf h es -> len buf <= usize_max ->
  buf = encode_prefix h (first_kind es) ++ encode_extensions es ++ p ->
  decode_with_extensions buf = Ok (h, es, p).
Proof.
  intros ((Hv & Hc & Ht & Hd & Hw & Hs & Ha) & Hes & He) Hsz E.
  assert (Hk : in_width 8 (first_kind es)).
  { destruct Hes as [|e' es' [Hk' _] _]; unfold in_width; cbn; lia. }
  assert (Hlen : 20 <= len buf).
  { rewrite E, len_app, len_encode_prefix. pose proof (len_nonneg (encode_extensions es ++ p)). lia. }
  unfold encode_prefix in E. rewrite Hv, <- !app_assoc in E. cbn [app] in E.
  change buf with (rest buf 0) in E.
  pose proof (rest_cons buf _ _ 0 ltac:(lia) E) as E1. change (0 + 1) with 1 in E1.
  pose proof (rest_cons buf _ _ 1 ltac:(lia) E1) as E2. change (1 + 1) with 2 in E2.
  destruct (be_at_app buf 2 2 _ _ ltac:(lia) Hc ltac:(lia) E2) as (R2 & E4 & _).
  destruct (be_at_app buf 4 4 _ _ ltac:(lia) Ht ltac:(lia) E4) as (R4 & E8 & _).
  destruct (be_at_app buf 8 4 _ _ ltac:(lia) Hd ltac:(lia) E8) as (R8 & E12 & _).
  destruct (be_at_app buf 12 4 _ _ ltac:(lia) Hw ltac:(lia) E12) as (R12 & E16 & _).
  destruct (be_at_app buf 16 2 _ _ ltac:(lia) Hs ltac:(lia) E16) as (R16 & E18 & _).
  destruct (be_at_app buf 18 2 _ _ ltac:(lia) Ha ltac:(lia) E18) as (R18 & E20 & _).
  change (18 + 2) with SIZE in E20.
  destruct (decode_extensions_encode es (S (length buf)) buf SIZE [] p Hes Hsz
    ltac:(unfold SIZE; lia) E20) as [Rx Hx].
  { assert (Hle : (length es <= length (encode_extensions es))%nat).
    { clear. induction es as [|e es IH]; cbn; [lia|]. rewrite length_app. lia. }
    pose proof (len_rest buf SIZE ltac:(unfold SIZE; lia)) as Hr. rewrite E20, len_app in Hr.
    pose proof (len_nonneg p). unfold len, SIZE in *. lia. }
  destruct (first_byte_decode (typ h)) as [Rt Rv].
  unfold decode_with_extensions. rewrite (proj2 (Z.ltb_ge _ 20)) by lia. ok_simpl.
  rewrite (index_rest buf 0 _ _ ltac:(done) E). ok_simpl. rewrite Rt. ok_simpl. rewrite Rv.
  rewrite Z.eqb_refl. ok_simpl. rewrite (index_rest buf 1 _ _ ltac:(done) E1). ok_simpl.
  rewrite R2, R4, R8, R12, R16, R18. ok_simpl.
  rewrite u8_as_u8, wrap_small, Rx by done. ok_simpl. cbn [app].
  rewrite slice_from_rest by (pose proof (len_nonneg (encode_extensions es)); unfold SIZE in *; lia).
  ok_simpl. rewrite (rest_app buf (encode_extensions es) p) by done.
  destruct h; cbn in *; by subst.
Qed.

Lemma encode_decode h es p buf :
  len buf <= usize_max -> decode_with_extensions buf = Ok (h, es, p) ->
  packet_wf h es /\ buf = encode_prefix h (first_kind es) ++ encode_extensions es ++ p.
Proof.
  intros Hsz H. unfold decode_with_extensions in H.
  apply bind_Ok in H as (u & Hlen & H). apply fail_if_Ok, Z.ltb_ge in Hlen.
  apply bind_Ok in H as (b0 & Hb0 & H). apply index_Ok in Hb0 as [m0 E0]; [|lia].
  apply bind_Ok in H as (t & Ht & H). apply ok_or_Ok in Ht.
  apply bind_Ok in H as (u' & Hv & H). apply fail_if_Ok, negb_false_iff, Z.eqb_eq in Hv.
  apply bind_Ok in H as (b1 & Hb1 & H). apply index_Ok in Hb1 as [m1 E1]; [|lia].
  apply bind_Ok in H as (cid & R2 & H). apply be_at_Ok in R2 as [E2 W2]; [|lia..].
  apply bind_Ok in H as (ts & R4 & H). apply be_at_Ok in R4 as [E4 W4]; [|lia..].
  apply bind_Ok in H as (td & R8 & H). apply be_at_Ok in R8 as [E8 W8]; [|lia..].
  apply bind_Ok in H as (ws & R12 & H). apply be_at_Ok in R12 as [E12 W12]; [|lia..].
  apply bind_Ok in H as (sn & R16 & H). apply be_at_Ok in R16 as [E16 W16]; [|lia..].
  apply bind_Ok in H as (an & R18 & H). apply be_at_Ok in R18 as [E18 W18]; [|lia..].
  apply bind_Ok in H as ([es' stop] & Rx & H).
  apply bind_Ok in H as (p' & Rp & H). injection H as <- -> ->.
  pose proof (u8_range b1) as Hk1.
  apply decode_extensions_Ok in Rx as (es' & -> & Hwf & Hfirst & Hrest & Hstop);
    [|done|done|unfold SIZE; lia].
  rewrite slice_from_rest in Rp by done. injection Rp as <-. cbn [app].
  split; [split; [|by split]; unfold header_wf; tauto|].
  unfold encode_prefix. cbn [typ version connection_id timestamp_micros timestamp_delta_micros
    window_size seq_number ack_number].
  rewrite Hv, (first_byte_encode b0) by done. rewrite Hfirst, as_u8_u8.
  rewrite <- !app_assoc. cbn [app]. rewrite <- Hrest.
  change (rest buf SIZE) with (rest buf (18 + 2)).
  change 4%nat with (Z.to_nat 4). change 2%nat with (Z.to_nat 2).
  change (rest buf (16 + 2)) with (rest buf 18) in E16.
  change (rest buf (12 + 4)) with (rest buf 16) in E12.
  change (rest buf (8 + 4)) with (rest buf 12) in E8.
  change (rest buf (4 + 4)) with (rest buf 8) in E4.
  change (rest buf (2 + 2)) with (rest buf 4) in E2.
  rewrite <- E18, <- E16, <- E12, <- E8, <- E4, <- E2.
  pose proof (rest_cons buf _ _ 0 ltac:(lia) E0) as E0'. change (0 + 1) with 1 in E0'.
  rewrite E1 in E0'. subst m0.
  pose proof (rest_cons buf _ _ 1 ltac:(lia) E1) as E1'. change (1 + 1) with 2 in E1'.
  rewrite E1'. exact E0.
Qed.

Lemma encode_with_extensions_Ok h es p buf :
  packet_wf h es -> len buf <= usize_max ->
  encode_with_extensions h es p = Ok buf <->
  buf = encode_prefix h (first_kind es) ++ encode_extensions es ++ p.
Proof.
  intros (_ & Hes & _) Hsz. unfold encode_with_extensions. split; intros E.
  - by inv_ok.
  - rewrite extension_bytes_total; [ok_simpl; by subst|lia|done|].
    rewrite E, !len_app, len_encode_prefix in Hsz. pose proof (len_nonneg p). lia.
Qed.

(** ** Properties of the packet codec *)

(** The packet decoder accepts a buffer with a header, extensions and payload
    exactly when these are well-formed and the encoder produces the buffer from
    them: every field, the whole extension chain and the payload round trip, and
    nothing else is accepted. *)
Theorem utp_packet_exact (buf p : list byte) (h : UtpHeader) (es : list UtpExtension)
    (Hsz : len buf <= usize_max) :
  decode_with_extensions buf = Ok (h, es, p) <->
  packet_wf h es /\ encode_with_extensions h es p = Ok buf.
Proof.
  split.
  - intros H. apply encode_decode in H as [Hwf E]; [|done]. split; [done|].
    by apply encode_with_extensions_Ok.
  - intros [Hwf E]. apply encode_with_extensions_Ok in E; [|done..]. by apply decode_encode.
Qed.

Definition sample_header : UtpHeader :=
  mkHeader State UTP_VERSION 1 4660 100 50 65535 7 9.
Lemma utp_packet_exact_witness :
  exists buf, len buf = 29 /\
    decode_with_extensions buf
    = Ok (sample_header, [mkExtension 1 [x05; x00; x00; x00]], [x61; x62; x63]).
Proof.
  exists (encode_prefix sample_header 1 ++ [x00; x04; x05; x00; x00; x00; x61; x62; x63]).
  split; [reflexivity|].
  apply (utp_packet_exact _ [x61; x62; x63] sample_header [mkExtension 1 [x05; x00; x00; x00]]).
  - vm_compute. discriminate.
  - split; [|reflexivity]. repeat split; try (vm_compute; reflexivity); try done.
    repeat constructor.
Defined.

Lemma decode_extensions_returns fuel buf nk cursor acc :
  0 <= cursor <= len buf -> len buf <= usize_max -> len buf - cursor < Z.of_nat fuel ->
  returns (decode_extensions fuel buf nk cursor acc) /\
  forall es stop, decode_extensions fuel buf nk cursor acc = Ok (es, stop) -> 0 <= stop <= len buf.
Proof.
  intros Hc Hsz. revert nk cursor acc Hc. induction fuel as [|fuel IH]; intros nk cursor acc Hc Hf;
    [lia|]. cbn [decode_extensions].
  destruct (nk =? 0); [split; [done|by intros ? ? [= <- <-]]|].
  destruct (saturating_sub (len buf) cursor <? 2) eqn:E; ok_simpl; [done|].
  apply Z.ltb_ge in E. unfold saturating_sub in E.
  destruct (index_returns_in buf cursor ltac:(lia)) as [fk ->]. ok_simpl.
  destruct (index_returns_in buf (cursor + 1) ltac:(lia)) as [lb ->]. ok_simpl.
  pose proof (u8_range lb) as Hlb. unfold in_width in Hlb.
  unfold checked_add. destruct (cursor + 2 + u8 lb <=? usize_max); ok_simpl; [|done].
  rewrite Z.gtb_ltb. destruct (Z.ltb_spec (len buf) (cursor + 2 + u8 lb)); ok_simpl; [done|].
  rewrite slice_rest by lia. ok_simpl. apply IH; lia.
Qed.

(** The packet decoder returns on every buffer: it never reads out of range
    and its chain loop ends within the buffer. *)
Theorem utp_decode_returns (buf : list byte) (Hsz : len buf <= usize_max) :
  returns (decode_with_extensions buf).
Proof.
  unfold decode_with_extensions. destruct (Z.ltb_spec (len buf) 20); ok_simpl; [done|].
  destruct (index_returns_in buf 0 ltac:(lia)) as [b0 ->]. ok_simpl.
  apply bind_returns; [auto|intros t _].
  apply bind_returns; [auto|intros u _].
  destruct (index_returns_in buf 1 ltac:(lia)) as [b1 ->]. ok_simpl.
  destruct (be_at_total buf 2 2) as [? ->]; [lia..|]. ok_simpl.
  destruct (be_at_total buf 4 4) as [? ->]; [lia..|]. ok_simpl.
  destruct (be_at_total buf 8 4) as [? ->]; [lia..|]. ok_simpl.
  destruct (be_at_total buf 12 4) as [? ->]; [lia..|]. ok_simpl.
  destruct (be_at_total buf 16 2) as [? ->]; [lia..|]. ok_simpl.
  destruct (be_at_total buf 18 2) as [? ->]; [lia..|]. ok_simpl.
  destruct (decode_extensions_returns (S (length buf)) buf (u8 b1) SIZE []) as [Hr Hs];
    [unfold SIZE; lia|done|unfold len, SIZE; lia|].
  apply bind_returns; [done|]. intros [es stop] E. apply Hs in E.
  by rewrite slice_from_rest.
Qed.

Lemma utp_decode_returns_witness : returns (decode_with_extensions [x21; x01; x00]).
Proof. apply utp_decode_returns. vm_compute. discriminate. Defined.

(** ** The selective acknowledgement *)

(** Bit [k] of a mask; words past the end are zero. *)
Definition bit_at (ws : list Z) (k : Z) : bool :=
  Z.testbit (default 0 (ws !! Z.to_nat (k / 32))) (k mod 32).

Lemma word_bit k : 0 <= k < 32 -> wrap 32 (Z.shiftl 1 k) = 2 ^ k.
Proof.
  intros Hk. rewrite Z.shiftl_1_l. apply wrap_small. split; [lia|].
  apply Z.pow_lt_mono_r; lia.
Qed.

Lemma bit_at_set ws j k :
  0 <= j -> 0 <= k -> j / 32 < len ws ->
  bit_at (<[Z.to_nat (j / 32) :=
    Z.lor (default 0 (ws !! Z.to_nat (j / 32))) (wrap 32 (Z.shiftl 1 (j mod 32)))]> ws) k
  = bit_at ws k || (k =? j).
Proof.
  intros Hj Hk Hl. pose proof (Z.mod_pos_bound j 32 ltac:(lia)) as Hm.
  pose proof (Z.mod_pos_bound k 32 ltac:(lia)) as Hmk.
  pose proof (Z.div_pos j 32 ltac:(lia) ltac:(lia)). pose proof (Z.div_pos k 32 ltac:(lia) ltac:(lia)).
  pose proof (Z.div_mod j 32 ltac:(lia)). pose proof (Z.div_mod k 32 ltac:(lia)).
  rewrite word_bit by done. unfold bit_at.
  destruct (decide (j / 32 = k / 32)) as [E|E].
  - rewrite E in *. rewrite list_lookup_insert_eq by (unfold len in Hl; lia). cbn [default from_option id].
    rewrite Z.lor_spec, Z.pow2_bits_eqb by lia. f_equal.
    destruct (Z.eqb_spec (j mod 32) (k mod 32)), (Z.eqb_spec k j); done || lia.
  - rewrite list_lookup_insert_ne by lia. destruct (Z.eqb_spec k j) as [->|]; [done|].
    by rewrite orb_false_r.
Qed.

(** The offset of a held sequence number and its bit, if it has one. *)
Definition held_bit (ack : Z) (h : Z * list byte) (k : Z) : bool :=
  (k + 2 =? wrap 16 (h.1 - ack)) && (0 <=? k) && (k <? 256).

Lemma held_step_spec ack ws any h :
  length ws = max_words ->
  exists ws' any', held_step ack (ws, any) h = Ok (ws', any') /\ length ws' = max_words /\
    (forall k, 0 <= k -> bit_at ws' k = bit_at ws k || held_bit ack h k) /\
    (any' = true <-> any = true \/ exists k, held_bit ack h k = true).
Proof.
  intros Hlen. unfold held_step, held_bit. set (off := wrap 16 (h.1 - ack)).
  pose proof (wrap_range 16 (h.1 - ack) ltac:(lia)) as Hoff. fold off in Hoff. unfold in_width in Hoff.
  change (wrap 16 (Z.of_nat max_words * 32 + 1)) with 257. rewrite Z.gtb_ltb.
  destruct ((off <? 2) || (257 <? off)) eqn:E.
  { exists ws, any. repeat split; try done; try (intros; by left).
    - intros k Hk. replace (_ && _) with false by lia. by rewrite orb_false_r.
    - intros [?|[k Hk]]; [done|lia]. }
  assert (Hd : 0 <= (off - 2) / 32 < 8).
  { split; [apply Z.div_pos; lia|]. apply Z.div_lt_upper_bound; lia. }
  assert (Hl : len ws = 8) by (unfold len; by rewrite Hlen).
  rewrite (proj2 (Z.ltb_lt _ _)) by lia.
  destruct (index_returns_in ws ((off - 2) / 32)) as [w Hw]; [lia|]. rewrite Hw. ok_simpl.
  assert (Hw' : default 0 (ws !! Z.to_nat ((off - 2) / 32)) = w).
  { unfold index, get in Hw. rewrite (proj2 (Z.ltb_ge _ _)) in Hw by lia.
    destruct (ws !! _); [|done]. by injection Hw as ->. }
  eexists _, true. split; [done|]. split; [by rewrite length_insert|]. split.
  - intros k Hk. rewrite <- Hw', bit_at_set by lia. f_equal. lia.
  - split; [|done]. intros _. right. exists (off - 2). lia.
Qed.

Lemma held_loop_spec ack held ws any :
  length ws = max_words ->
  exists ws' any', held_loop ack (ws, any) held = Ok (ws', any') /\ length ws' = max_words /\
    (forall k, 0 <= k -> bit_at ws' k = true <->
       bit_at ws k = true \/ exists h, h ∈ held /\ held_bit ack h k = true) /\
    (any' = true <-> any = true \/ exists h k, h ∈ held /\ held_bit ack h k = true).
Proof.
  revert ws any. induction held as [|h held IH]; intros ws any Hlen; cbn [held_loop].
  { exists ws, any. repeat split; try done; try by left.
    - intros [?|(h & Hh & _)]; [done|set_solver].
    - intros [?|(h & k & Hh & _)]; [done|set_solver]. }
  destruct (held_step_spec ack ws any h Hlen) as (ws1 & any1 & -> & Hlen1 & Hb1 & Ha1).
  ok_simpl. destruct (IH ws1 any1 Hlen1) as (ws2 & any2 & -> & Hlen2 & Hb2 & Ha2).
  exists ws2, any2. split; [done|]. split; [done|]. split.
  - intros k Hk. rewrite Hb2, Hb1, orb_true_iff by done. setoid_rewrite elem_of_cons. naive_solver.
  - rewrite Ha2, Ha1. setoid_rewrite elem_of_cons. naive_solver.
Qed.

Lemma trim_zeros_lookup ws i : default 0 (trim_zeros ws !! i) = default 0 (ws !! i).
Proof.
  revert i. induction ws as [|w ws IH]; intros i; [done|]. cbn [trim_zeros].
  destruct (trim_zeros ws) as [|w' ws'] eqn:E.
  - destruct (Z.eqb_spec w 0) as [->|]; destruct i as [|i]; cbn; rewrite <- ?IH; done.
  - destruct i as [|i]; cbn; [done|]. by rewrite <- IH.
Qed.

Lemma elem_of_word_offsets n wi b w x :
  0 <= wi < 100 -> 0 <= b -> b + Z.of_nat n <= 32 ->
  x ∈ word_offsets n wi b w <->
  exists i, b <= i < b + Z.of_nat n /\ Z.testbit w i = true /\ x = wi * 32 + i + 2.
Proof.
  revert b. induction n as [|n IH]; intros b Hwi Hb Hn; cbn [word_offsets].
  { split; [set_solver|]. intros (i & Hi & _). lia. }
  rewrite elem_of_app, IH by lia. rewrite word_bit by lia.
  assert (Hland : negb (Z.land w (2 ^ b) =? 0) = Z.testbit w b).
  { destruct (Z.testbit w b) eqn:Ew.
    - apply negb_true_iff, Z.eqb_neq. intros E. apply (f_equal (fun z => Z.testbit z b)) in E.
      rewrite Z.land_spec, Z.pow2_bits_true, Ew, Z.bits_0 in E by lia. done.
    - apply negb_false_iff, Z.eqb_eq. apply Z.bits_inj'. intros i Hi.
      rewrite Z.land_spec, Z.pow2_bits_eqb, Z.bits_0 by lia.
      destruct (Z.eqb_spec b i) as [<-|]; [by rewrite Ew|apply andb_false_r]. }
  rewrite Hland, (wrap_small 16) by (unfold in_width; lia).
  split.
  - intros [Hx|(i & Hi & Hw & ->)]; [|exists i; split; [lia|done]].
    destruct (Z.testbit w b) eqn:Ew; [|set_solver]. exists b. split; [lia|]. set_solver.
  - intros (i & Hi & Hw & ->). destruct (decide (i = b)) as [->|].
    + left. rewrite Hw. set_solver.
    + right. exists i. split; [lia|done].
Qed.

Lemma elem_of_words_offsets ws wi x :
  0 <= wi -> wi + len ws <= 100 ->
  x ∈ words_offsets wi ws <->
  exists j i, (j < length ws)%nat /\ 0 <= i < 32 /\
    Z.testbit (default 0 (ws !! j)) i = true /\ x = (wi + Z.of_nat j) * 32 + i + 2.
Proof.
  revert wi. induction ws as [|w ws IH]; intros wi Hwi Hl; cbn [words_offsets].
  { split; [set_solver|]. intros (j & i & Hj & _). cbn in Hj. lia. }
  rewrite len_cons in Hl. pose proof (len_nonneg ws).
  rewrite elem_of_app, elem_of_word_offsets, IH by lia. split.
  - intros [(i & Hi & Hw & ->)|(j & i & Hj & Hi & Hw & ->)].
    + exists 0%nat, i. cbn. repeat split; try done; lia.
    + exists (S j), i. cbn [lookup list_lookup]. cbn. repeat split; try done; lia.
  - intros ([|j] & i & Hj & Hi & Hw & ->); cbn in Hj, Hw.
    + left. exists i. repeat split; try done; lia.
    + right. exists j, i. repeat split; try done; lia.
Qed.

(** The mask built from the held sequence numbers reports exactly the
    offsets from 2 to 257 past the acknowledgement, in wrapping 16-bit sequence
    space, at which a packet is held. *)
Theorem offsets_from_held (ack : Z) (held : list (Z * list byte)) :
  exists s, from_held ack held = Ok s /\
    forall o, o ∈ offsets s <->
      2 <= o <= 257 /\ exists h, h ∈ held /\ wrap 16 (h.1 - ack) = o.
Proof.
  destruct (held_loop_spec ack held (replicate max_words 0) false) as (ws & any & E & Hlen & Hb & Ha);
    [done|].
  assert (Hz : forall k, bit_at (replicate max_words 0) k = false).
  { intros k. unfold bit_at. destruct (replicate max_words 0 !! _) as [w|] eqn:Ew; cbn.
    - apply lookup_replicate in Ew as [-> _]. apply Z.bits_0.
    - apply Z.bits_0. }
  assert (Hbit : forall o, 2 <= o <= 257 /\ (exists h, h ∈ held /\ wrap 16 (h.1 - ack) = o) <->
    0 <= o - 2 < 256 /\ bit_at ws (o - 2) = true).
  { intros o. split.
    - intros [Ho (h & Hh & Hw)]. split; [lia|]. apply Hb; [lia|]. right. exists h.
      split; [done|]. unfold held_bit. lia.
    - intros [Ho Hw]. apply Hb in Hw as [Hw|(h & Hh & Hw)]; [by rewrite Hz in Hw| |lia].
      split; [lia|]. exists h. split; [done|]. unfold held_bit in Hw. lia. }
  unfold from_held. rewrite E. ok_simpl. destruct any; cbn [negb].
  - eexists. split; [done|]. intros o. rewrite Hbit. unfold offsets. cbn [words].
    assert (Hle : (length (trim_zeros ws) <= 8)%nat).
    { change 8%nat with max_words. rewrite <- Hlen. clear. induction ws as [|w ws IH]; cbn; [lia|].
      destruct (trim_zeros ws); [destruct (w =? 0)|]; cbn in *; lia. }
    rewrite elem_of_words_offsets by (unfold len; lia). unfold bit_at.
    setoid_rewrite trim_zeros_lookup. split.
    + intros (j & i & Hj & Hi & Hw & ->).
      replace ((0 + Z.of_nat j) * 32 + i + 2 - 2) with (i + Z.of_nat j * 32) by lia.
      rewrite Z.div_add, Z.mod_add, Z.div_small, Z.mod_small, Z.add_0_l, Nat2Z.id by lia.
      split; [lia|done].
    + intros [Ho Hw]. pose proof (Z.mod_pos_bound (o - 2) 32 ltac:(lia)).
      pose proof (Z.div_mod (o - 2) 32 ltac:(lia)).
      pose proof (Z.div_pos (o - 2) 32 ltac:(lia) ltac:(lia)).
      exists (Z.to_nat ((o - 2) / 32)), ((o - 2) mod 32).
      split; [|split; [lia|split; [done|lia]]].
      destruct (decide (Z.to_nat ((o - 2) / 32) < length (trim_zeros ws))%nat) as [|Hge]; [done|].
      rewrite <- trim_zeros_lookup, lookup_ge_None_2 in Hw by lia. cbn in Hw.
      by rewrite Z.bits_0 in Hw.
  - eexists. split; [done|]. intros o. rewrite Hbit. unfold offsets. cbn. split; [set_solver|].
    intros [Ho Hw]. exfalso. apply Hb in Hw as [Hw|(h & Hh & Hw)]; [by rewrite Hz in Hw| |lia].
    destruct Ha as [_ Ha]. discriminate Ha. right. by exists h, (o - 2).
Qed.

Lemma chunks4_words ws :
  Forall (in_width 32) ws -> map of_le (chunks4 (flat_map (to_le 4) ws)) = ws.
Proof.
  induction 1 as [|w ws Hw Hws IH]; [done|].
  cbn [flat_map]. change (to_le 4 w) with
    [as_u8 w; as_u8 (Z.shiftr w 8); as_u8 (Z.shiftr (Z.shiftr w 8) 8);
     as_u8 (Z.shiftr (Z.shiftr (Z.shiftr w 8) 8) 8)].
  cbn [app chunks4 map]. rewrite IH. f_equal. exact (of_le_to_le 4 w Hw).
Qed.

Lemma chunks4_bytes n buf :
  length buf = (4 * n)%nat ->
  flat_map (to_le 4) (map of_le (chunks4 buf)) = buf /\
  Forall (in_width 32) (map of_le (chunks4 buf)) /\ length (map of_le (chunks4 buf)) = n.
Proof.
  revert buf. induction n as [|n IH]; intros buf Hl.
  { destruct buf; [done|cbn in Hl; lia]. }
  destruct buf as [|a [|b [|c [|d buf]]]]; cbn in Hl; try lia.
  cbn [chunks4 map flat_map]. destruct (IH buf) as (-> & Hw & Hn); [lia|].
  split; [|split].
  - pose proof (to_le_of_le [a; b; c; d]) as E. cbn [length] in E. by rewrite E.
  - constructor; [|done]. apply (of_le_range [a; b; c; d]).
  - cbn [length]. by rewrite Hn.
Qed.

(** The parser of selective acknowledgement data accepts exactly the encodings of
    non-empty masks of 32-bit words, and returns the mask. *)
Theorem sack_data_exact (s : Sack) (buf : list byte) :
  parse_data buf = Ok s <->
  words s <> [] /\ Forall (in_width 32) (words s) /\ encode_data s = buf.
Proof.
  assert (Hnil : forall ws, ws <> [] -> encode_data (mkSack ws) = flat_map (to_le 4) ws)
    by by intros [|w ws].
  unfold parse_data. split.
  - intros E. inv_ok. match goal with H : _ || _ = false |- _ =>
      apply orb_false_iff in H as [Hz Hm] end.
    apply Z.eqb_neq in Hz. apply negb_false_iff, Z.eqb_eq in Hm.
    destruct (chunks4_bytes (Z.to_nat (len buf / 4)) buf) as (Hf & Hw & Hn).
    { unfold len in *. pose proof (Z.div_mod (Z.of_nat (length buf)) 4 ltac:(lia)). lia. }
    cbn [words]. assert (Hne : map of_le (chunks4 buf) <> []).
    { intros E. rewrite E in Hn. cbn in Hn. pose proof (Z.div_mod (len buf) 4 ltac:(lia)).
      pose proof (len_nonneg buf). lia. }
    by rewrite Hnil.
  - destruct s as [ws]. cbn [words]. intros (Hne & Hw & <-). rewrite Hnil by done.
    assert (Hl : len (flat_map (to_le 4) ws) = 4 * len ws).
    { clear. induction ws as [|w ws IH]; [done|]. cbn [flat_map].
      rewrite len_app, len_cons, IH. change (len (to_le 4 w)) with 4. lia. }
    rewrite Hl. assert (0 < len ws) by (destruct ws; [done|rewrite len_cons; pose proof (len_nonneg ws); lia]).
    rewrite (proj2 (Z.eqb_neq _ 0)) by lia. rewrite Z.mul_comm, Z.mod_mul by lia. ok_simpl.
    by rewrite chunks4_words.
Qed.
