(* ===== verification/Ledbat.v ===== *)
(** * Ledbat: [crates/swarmotter-core/src/utp/congestion.rs]

    The delay-based congestion controller of a uTP connection.  Instants and
    durations are nanoseconds; [Instant::now()] is an argument.  All [u32]
    arithmetic is saturating in the source and written out here. *)

From S2P Require Import Prelude.

Definition TARGET_DELAY_MICROS : Z := 100 * 1000.
Definition MIN_CWND : Z := 1400.
Definition MAX_CWND : Z := 8 * 1024 * 1024.
Definition GAIN_FACTOR : Z := 1.
Definition CURRENT_HISTORY : Z := 8.
Definition BASE_HISTORY : Z := 4.
Definition millis (n : Z) : Z := n * 1000000.
Definition secs (n : Z) : Z := millis (n * 1000).

Record Ledbat : Type := mkLedbat {
  cwnd : Z; slow_start : bool; base_history : list (Z * Z); current_samples : list Z;
  last_echo_delta : Z; last_loss : option Z; rto : Z }.

Record CongestionState : Type := mkCongestionState {
  window : Z; base_delay_micros : Z; current_delay_micros : Z; in_slow_start : bool }.

Definition new : Ledbat := mkLedbat MIN_CWND true [] [] 0 None (millis 500).

Definition window_bytes (l : Ledbat) : Z := cwnd l.

(** [a.duration_since(b)] saturates at zero. *)
Definition duration_since (a b : Z) : Z := Z.max 0 (a - b).

(** [v.push(x)] on a bounded history that forgets its first element. *)
Definition push_bounded {A} (bound : Z) (l : list A) (x : A) : list A :=
  let l := l ++ [x] in if len l >? bound then tail l else l.

(** [last_mut()] of the base history, lowered to a smaller delay. *)
Fixpoint lower_last (delay : Z) (h : list (Z * Z)) : list (Z * Z) :=
  match h with
  | [] => []
  | [(t, d)] => [(t, if delay <? d then delay else d)]
  | x :: h => x :: lower_last delay h
  end.

Definition on_sample (l : Ledbat) (now peer_ts delay : Z) : Ledbat :=
  let samples := push_bounded CURRENT_HISTORY (current_samples l) delay in
  let rotation := secs 10 in
  let needs_new_bucket :=
    match last (base_history l) with
    | Some (t, _) => duration_since now t >? rotation
    | None => true
    end in
  let history :=
    if needs_new_bucket then push_bounded BASE_HISTORY (base_history l) (now, delay)
    else lower_last delay (base_history l) in
  mkLedbat (cwnd l) (slow_start l) history samples delay (last_loss l) (rto l).

(** [iter().min().unwrap_or(0)]. *)
Definition min_or_zero (l : list Z) : Z :=
  match l with [] => 0 | a :: l => foldl Z.min a l end.

Definition base_delay (l : Ledbat) : Z := min_or_zero (map snd (base_history l)).
Definition current_delay (l : Ledbat) : Z := min_or_zero (current_samples l).
Definition queuing_delay (l : Ledbat) : Z :=
  saturating_sub (current_delay l) (base_delay l).

(** The window after an acknowledgement, before the clamp, and whether slow
    start goes on. *)
Definition ack_window (l : Ledbat) : Z * bool :=
  let q := queuing_delay l in
  let target := TARGET_DELAY_MICROS in
  if slow_start l then
    if q >=? target then (saturating_add u32_max (cwnd l) (GAIN_FACTOR * 1400), false)
    else (saturating_add u32_max (cwnd l) 1400, true)
  else if q <? target then
    let headroom := saturating_sub target q in
    let gain := Z.min u32_max (1400 * headroom) / Z.max target 1 in
    (saturating_add u32_max (cwnd l) (Z.max gain 1), false)
  else
    let over := saturating_sub q target in
    let ratio := Z.min over target in
    let cut := wrap 32 (cwnd l * ratio / Z.max target 1) in
    (saturating_sub (cwnd l) (Z.max cut 1400), false).

Definition on_ack (l : Ledbat) : Ledbat :=
  let '(w, slow) := ack_window l in
  mkLedbat (Z.min (Z.max w MIN_CWND) MAX_CWND) slow (base_history l) (current_samples l)
    (last_echo_delta l) (last_loss l) (millis 500).

Definition on_loss (l : Ledbat) (now : Z) : Ledbat :=
  mkLedbat (Z.max (cwnd l / 2) MIN_CWND) false (base_history l) (current_samples l)
    (last_echo_delta l) (Some now) (Z.min (rto l * 2) (secs 8)).

Definition state (l : Ledbat) : CongestionState :=
  mkCongestionState (cwnd l) (base_delay l) (current_delay l) (slow_start l).

(** ** Bounds *)

Inductive event : Type :=
  | Sample (now peer_ts delay : Z)
  | Ack
  | Loss (now : Z).
Definition step (l : Ledbat) (e : event) : Ledbat :=
  match e with
  | Sample now ts d => on_sample l now ts d
  | Ack => on_ack l
  | Loss now => on_loss l now
  end.

Record ledbat_inv (l : Ledbat) : Prop := {
  inv_cwnd : MIN_CWND <= cwnd l <= MAX_CWND;
  inv_rto : millis 500 <= rto l <= secs 8;
  inv_samples : len (current_samples l) <= CURRENT_HISTORY;
  inv_history : len (base_history l) <= BASE_HISTORY }.

Lemma push_bounded_len {A} bound (l : list A) x :
  0 <= bound -> len l <= bound -> len (push_bounded bound l x) <= bound.
Proof.
  intros Hb Hl. unfold push_bounded. rewrite Z.gtb_ltb.
  destruct (Z.ltb_spec bound (len (l ++ [x]))) as [Hlt|]; [|lia].
  rewrite len_app, len_cons, len_nil in *. destruct l as [|a l]; cbn [app tail].
  - rewrite len_nil. lia.
  - rewrite len_app, !len_cons, len_nil in *. lia.
Qed.

Lemma lower_last_len d h : len (lower_last d h) = len h.
Proof.
  induction h as [|[t x] h IH]; [done|]. destruct h as [|y h]; [done|].
  change (lower_last d ((t, x) :: y :: h)) with ((t, x) :: lower_last d (y :: h)).
  rewrite !len_cons in *. lia.
Qed.

Lemma new_ledbat_inv : ledbat_inv new.
Proof. split; [split| split| |]; vm_compute; congruence. Qed.

Lemma step_inv l e : ledbat_inv l -> ledbat_inv (step l e).
Proof.
  intros [H1 H2 H3 H4]. destruct e as [now ts d| |now]; cbn [step].
  - split; cbn [on_sample cwnd rto current_samples base_history]; try done.
    + by apply push_bounded_len.
    + destruct (match last (base_history l) with Some (t, _) => _ | None => _ end).
      * by apply push_bounded_len.
      * by rewrite lower_last_len.
  - unfold on_ack. destruct (ack_window l) as [w slow].
    split; cbn; try done; unfold MIN_CWND, MAX_CWND, millis, secs in *; lia.
  - split; cbn; try done; unfold MIN_CWND, MAX_CWND, millis, secs in *.
    + pose proof (Z.div_le_upper_bound (cwnd l) 2 (8 * 1024 * 1024) ltac:(lia) ltac:(lia)). lia.
    + lia.
Qed.

(** Whatever samples, acknowledgements and losses arrive, the congestion
    window stays between one packet and 8 MiB, the retransmit timeout between
    half a second and eight seconds, and both delay histories keep their bounds;
    a loss never widens the window and an acknowledgement with the queuing delay
    below the target never narrows it. *)
Theorem ledbat_bounds (es : list event) :
  let l := foldl step new es in
  1400 <= cwnd l <= 8388608 /\ 500000000 <= rto l <= 8000000000 /\
  len (current_samples l) <= 8 /\ len (base_history l) <= 4 /\
  (forall now, cwnd (on_loss l now) <= cwnd l) /\
  (queuing_delay l < TARGET_DELAY_MICROS -> cwnd l <= cwnd (on_ack l)).
Proof.
  assert (H : ledbat_inv (foldl step new es)).
  { generalize new_ledbat_inv. generalize new. induction es as [|e es IH]; intros l Hl; cbn; [done|].
    apply IH. by apply step_inv. }
  cbn zeta. set (l := foldl step new es) in *. destruct H as [H1 H2 H3 H4].
  assert (H2' : 500000000 <= rto l <= 8000000000) by exact H2.
  unfold MIN_CWND, MAX_CWND in H1.
  split; [lia|]. split; [lia|]. split; [done|]. split; [done|]. split.
  - intros now. cbn. unfold MIN_CWND.
    pose proof (Z.div_le_upper_bound (cwnd l) 2 (cwnd l) ltac:(lia) ltac:(lia)). lia.
  - intros Hq. unfold on_ack, ack_window, saturating_add, u32_max.
    rewrite Z.geb_leb, (proj2 (Z.leb_gt _ _) Hq), (proj2 (Z.ltb_lt _ _) Hq).
    unfold MIN_CWND, MAX_CWND in *. destruct (slow_start l); cbn [cwnd]; lia.
Qed.
