(* ===== verification/UtpConn.v ===== *)
(** * UtpConn: [crates/swarmotter-core/src/utp/mod.rs]

    The uTP connection.  A method that awaits the socket or reads a clock runs in
    a small state-and-error monad over the connection and a [world]: the world
    numbers the clock readings and socket sends, answers each from a function of
    that number, and records the datagrams sent.  [drive] takes what the bounded
    wait for a datagram produced as an argument. *)

From S2P Require Import Prelude UtpWire Ledbat.

Definition EXT_SACK : Z := 1.
Definition MAX_PAYLOAD : Z := 1400.
Definition IDLE_TIMEOUT : Z := secs 60.
Definition SEND_BUFFER_CAP : Z := 4 * 1024 * 1024.
Definition RECV_WINDOW_DEFAULT : Z := 4 * 1024 * 1024.

Inductive RecvOutcome : Type := Delivered | Duplicate | Closed.

Record InFlight : Type := mkInFlight {
  seq : Z; payload : list byte; sent_at : Z; ts_micros : Z; transmissions : Z }.

(** ** Sequence space *)

Definition wrapping_add16 (a b : Z) : Z := wrap 16 (a + b).
Definition wrapping_sub16 (a b : Z) : Z := wrap 16 (a - b).

Definition seq_is_ahead (sequence reference : Z) : bool :=
  let distance := wrapping_sub16 sequence reference in
  negb (distance =? 0) && (distance <? 32768).

Definition seq_at_or_before (s ack : Z) : bool :=
  (wrapping_sub16 ack s <? 32768) || (s =? ack).

Definition sack_acks_sequence (sack : option Sack) (ack sequence : Z) : bool :=
  match sack with
  | None => false
  | Some sack => bool_decide (wrapping_sub16 sequence ack ∈ offsets sack)
  end.

Definition sack_from_extensions (extensions : list UtpExtension) : outcome (option Sack) :=
  match List.find (fun e => kind e =? EXT_SACK) extensions with
  | None => Ok None
  | Some e => s ← parse_data (data e); Ok (Some s)
  end.

(** ** The connection *)

Section connection.
Context {SocketAddr : Type} `{EqDecision SocketAddr}.

Record UtpConnection : Type := mkConn {
  peer : SocketAddr;
  send_conn_id : Z; recv_conn_id : Z;
  seq_next : Z; conn_ack : Z;
  recv_window : Z; peer_window : Z;
  recv_buf : list byte; ooo : list (Z * list byte);
  send_buf : list byte; in_flight : list InFlight;
  seq_max_sent : Z; ledbat : Ledbat;
  peer_fin : bool; local_fin_sent : bool; fin_transmitted : bool; closed : bool;
  last_recv : Z; last_ack_sent : Z }.

Definition set_receive (c : UtpConnection) (ack win : Z) (buf : list byte)
    (held : list (Z * list byte)) : UtpConnection :=
  mkConn (peer c) (send_conn_id c) (recv_conn_id c) (seq_next c) ack win (peer_window c) buf held
    (send_buf c) (in_flight c) (seq_max_sent c) (ledbat c) (peer_fin c) (local_fin_sent c)
    (fin_transmitted c) (closed c) (last_recv c) (last_ack_sent c).
Definition set_send (c : UtpConnection) (next : Z) (buf : list byte) (fl : list InFlight)
    (mx : Z) : UtpConnection :=
  mkConn (peer c) (send_conn_id c) (recv_conn_id c) next (conn_ack c) (recv_window c)
    (peer_window c) (recv_buf c) (ooo c) buf fl mx (ledbat c) (peer_fin c) (local_fin_sent c)
    (fin_transmitted c) (closed c) (last_recv c) (last_ack_sent c).
Definition set_control (c : UtpConnection) (win : Z) (l : Ledbat) (pf lf ft cl : bool)
    (lr la : Z) : UtpConnection :=
  mkConn (peer c) (send_conn_id c) (recv_conn_id c) (seq_next c) (conn_ack c) (recv_window c) win
    (recv_buf c) (ooo c) (send_buf c) (in_flight c) (seq_max_sent c) l pf lf ft cl lr la.

Definition set_in_flight (c : UtpConnection) (fl : list InFlight) : UtpConnection :=
  set_send c (seq_next c) (send_buf c) fl (seq_max_sent c).
Definition set_ledbat (c : UtpConnection) (l : Ledbat) : UtpConnection :=
  set_control c (peer_window c) l (peer_fin c) (local_fin_sent c) (fin_transmitted c) (closed c)
    (last_recv c) (last_ack_sent c).
Definition set_peer_window (c : UtpConnection) (w : Z) : UtpConnection :=
  set_control c w (ledbat c) (peer_fin c) (local_fin_sent c) (fin_transmitted c) (closed c)
    (last_recv c) (last_ack_sent c).
Definition set_closed (c : UtpConnection) : UtpConnection :=
  set_control c (peer_window c) (ledbat c) (peer_fin c) (local_fin_sent c) (fin_transmitted c)
    true (last_recv c) (last_ack_sent c).
Definition set_peer_fin (c : UtpConnection) : UtpConnection :=
  set_control c (peer_window c) (ledbat c) true (local_fin_sent c) (fin_transmitted c) (closed c)
    (last_recv c) (last_ack_sent c).
Definition set_fin_transmitted (c : UtpConnection) : UtpConnection :=
  set_control c (peer_window c) (ledbat c) (peer_fin c) (local_fin_sent c) true (closed c)
    (last_recv c) (last_ack_sent c).
Definition set_last_recv (c : UtpConnection) (t : Z) : UtpConnection :=
  set_control c (peer_window c) (ledbat c) (peer_fin c) (local_fin_sent c) (fin_transmitted c)
    (closed c) t (last_ack_sent c).
Definition set_last_ack_sent (c : UtpConnection) (t : Z) : UtpConnection :=
  set_control c (peer_window c) (ledbat c) (peer_fin c) (local_fin_sent c) (fin_transmitted c)
    (closed c) (last_recv c) t.

(** *** Receiving *)

(** Bytes delivered but unread, and bytes held out of order. *)
Definition held_bytes (held : list (Z * list byte)) : Z := zsum (fun h => len h.2) held.

Definition update_recv_window (c : UtpConnection) : UtpConnection :=
  let buffered :=
    foldl (fun total h => saturating_add usize_max total (len h.2)) (len (recv_buf c)) (ooo c) in
  set_receive c (conn_ack c) (saturating_sub RECV_WINDOW_DEFAULT (Z.min buffered u32_max))
    (recv_buf c) (ooo c).

(** The loop of [drain_ooo], over the list of held packets. *)
Fixpoint drain_loop (ack : Z) (buf : list byte) (held : list (Z * list byte))
    : Z * list byte * list (Z * list byte) :=
  match held with
  | [] => (ack, buf, [])
  | (s, p) :: held' =>
      let expected := wrapping_add16 ack 1 in
      if s =? expected then drain_loop expected (buf ++ p) held' else (ack, buf, held)
  end.

Definition drain_ooo (c : UtpConnection) : UtpConnection :=
  let '(ack, buf, held) := drain_loop (conn_ack c) (recv_buf c) (ooo c) in
  update_recv_window (set_receive c ack (recv_window c) buf held).

Definition handle_data (c : UtpConnection) (s : Z) (p : list byte) : RecvOutcome * UtpConnection :=
  let expected := wrapping_add16 (conn_ack c) 1 in
  if s =? expected then
    if len p >? recv_window c then (Duplicate, c)
    else
      let c := set_receive c s (recv_window c) (recv_buf c ++ p) (ooo c) in
      let c := drain_ooo c in
      (Delivered, update_recv_window c)
  else if wrapping_sub16 s (wrapping_add16 (conn_ack c) 1) =? 0 then (Duplicate, c)
  else
    let already := existsb (fun h => h.1 =? s) (ooo c) in
    if negb already && seq_is_ahead s (conn_ack c) && (len p <=? recv_window c) then
      let held :=
        sort_by (fun a b => wrapping_sub16 a.1 (conn_ack c) <=? wrapping_sub16 b.1 (conn_ack c))
          (ooo c ++ [(s, p)]) in
      (Duplicate,
       update_recv_window (set_receive c (conn_ack c) (recv_window c) (recv_buf c) held))
    else (Duplicate, c).

(** [read] into a buffer of [n] bytes. *)
Definition read (c : UtpConnection) (n : Z) : list byte * UtpConnection :=
  if (len (recv_buf c) =? 0) && peer_fin c then ([], c)
  else
    let k := Z.to_nat (Z.min (len (recv_buf c)) n) in
    (take k (recv_buf c),
     update_recv_window (set_receive c (conn_ack c) (recv_window c) (drop k (recv_buf c)) (ooo c))).

(** *** Sending *)

Definition queued_in_flight_bytes (c : UtpConnection) : Z :=
  zsum (fun p => len (payload p)) (in_flight c).

Definition ack_in_flight (c : UtpConnection) (ack : Z) (sack : option Sack) : UtpConnection :=
  set_in_flight c
    (filter (fun p => negb (seq_at_or_before (seq p) ack)
                      && negb (sack_acks_sequence sack ack (seq p)) = true) (in_flight c)).

Definition write (c : UtpConnection) (buf : list byte) : Z * UtpConnection :=
  if local_fin_sent c || closed c then (0, c)
  else if len buf =? 0 then (0, c)
  else
    let room := saturating_sub SEND_BUFFER_CAP (len (send_buf c) + queued_in_flight_bytes c) in
    if room =? 0 then (0, c)
    else
      let n := Z.min (len buf) room in
      (n, set_send c (seq_next c) (send_buf c ++ take (Z.to_nat n) buf) (in_flight c)
            (seq_max_sent c)).

Definition close (c : UtpConnection) : UtpConnection :=
  set_control c (peer_window c) (ledbat c) (peer_fin c) true (fin_transmitted c) (closed c)
    (last_recv c) (last_ack_sent c).

Definition ack_extensions (c : UtpConnection) : outcome (list UtpExtension) :=
  sack ← from_held (conn_ack c) (ooo c);
  if sack_is_empty sack then Ok [] else Ok [mkExtension EXT_SACK (encode_data sack)].

(** *** Effects *)

Record world : Type := mkWorld {
  tick : nat;
  instant : nat -> Z;
  micros : nat -> Z;
  send_result : nat -> option CoreError;
  sent : list (SocketAddr * list byte) }.

Definition M (A : Type) : Type :=
  UtpConnection * world -> outcome A * (UtpConnection * world).
#[local] Instance M_ret : MRet M := fun _ a st => (Ok a, st).
#[local] Instance M_bind : MBind M := fun _ _ k m st =>
  match m st with
  | (Ok a, st) => k a st
  | (Err e, st) => (Err e, st)
  | (Panic, st) => (Panic, st)
  | (OutOfFuel, st) => (OutOfFuel, st)
  end.

Definition self : M UtpConnection := fun '(c, w) => (Ok c, (c, w)).
Definition put (c : UtpConnection) : M () := fun '(_, w) => (Ok (), (c, w)).
Definition lift {A} (o : outcome A) : M A := fun st => (o, st).
Definition next_tick (w : world) : world :=
  mkWorld (S (tick w)) (instant w) (micros w) (send_result w) (sent w).
(** [Instant::now()], [now_micros()] and [socket.send_to]. *)
Definition instant_now : M Z := fun '(c, w) => (Ok (instant w (tick w)), (c, next_tick w)).
Definition now_micros : M Z := fun '(c, w) => (Ok (wrap 32 (micros w (tick w))), (c, next_tick w)).
Definition send_to (to : SocketAddr) (packet : list byte) : M () := fun '(c, w) =>
  match send_result w (tick w) with
  | Some e => (Err e, (c, next_tick w))
  | None =>
      (Ok (), (c, mkWorld (S (tick w)) (instant w) (micros w) (send_result w)
                    (sent w ++ [(to, packet)])))
  end.

(** The header the connection puts on a packet. *)
Definition packet_header (c : UtpConnection) (t : UtpType) (now_ts s : Z) : UtpHeader :=
  mkHeader t UTP_VERSION 0 (send_conn_id c) now_ts (last_echo_delta (ledbat c)) (recv_window c)
    s (conn_ack c).

Definition send_state : M () :=
  now_ts ← now_micros;
  c ← self;
  extensions ← lift (ack_extensions c);
  packet ← lift (encode_with_extensions (packet_header c State now_ts (seq_next c)) extensions []);
  send_to (peer c) packet.

Definition send_fin : M () :=
  c ← self;
  let s := seq_next c in
  _ ← put (set_send c (wrapping_add16 s 1) (send_buf c) (in_flight c) (seq_max_sent c));
  now_ts ← now_micros;
  c ← self;
  extensions ← lift (ack_extensions c);
  packet ← lift (encode_with_extensions (packet_header c Fin now_ts s) extensions []);
  send_to (peer c) packet.

Definition maybe_send_ack : M () :=
  now ← instant_now;
  c ← self;
  if duration_since now (last_ack_sent c) >=? millis 200 then
    _ ← send_state;
    c ← self;
    put (set_last_ack_sent c now)
  else mret ().

(** One turn of the loop of [try_send]: the bytes to take, or stop. *)
Definition next_chunk (c : UtpConnection) (send_window in_flight_bytes : Z) : Z :=
  Z.min (Z.min MAX_PAYLOAD (len (send_buf c))) (saturating_sub send_window in_flight_bytes).

Definition send_chunk (n in_flight_bytes : Z) : M Z :=
  c ← self;
  let chunk := take (Z.to_nat n) (send_buf c) in
  let s := seq_next c in
  let c := set_send c (wrapping_add16 s 1) (drop (Z.to_nat n) (send_buf c)) (in_flight c)
             (Z.max (seq_max_sent c) s) in
  _ ← put c;
  now_ts ← now_micros;
  extensions ← lift (ack_extensions c);
  packet ← lift (encode_with_extensions (packet_header c Data now_ts s) extensions chunk);
  _ ← send_to (peer c) packet;
  sent_at ← instant_now;
  c ← self;
  _ ← put (set_in_flight c (in_flight c ++ [mkInFlight s chunk sent_at now_ts 1]));
  mret (in_flight_bytes + len chunk).

Fixpoint send_loop (fuel : nat) (send_window in_flight_bytes : Z) : M () :=
  match fuel with
  | O => lift OutOfFuel
  | S fuel =>
      c ← self;
      if len (send_buf c) =? 0 then mret ()
      else
        let n := next_chunk c send_window in_flight_bytes in
        if n =? 0 then mret ()
        else in_flight_bytes ← send_chunk n in_flight_bytes; send_loop fuel send_window in_flight_bytes
  end.

(** The loop takes at least one byte per turn. *)
Definition try_send : M () :=
  c ← self;
  if local_fin_sent c && (len (send_buf c) =? 0) && (len (in_flight c) =? 0) then mret ()
  else
    let send_window := Z.min (window_bytes (ledbat c)) (peer_window c) in
    send_loop (S (length (send_buf c))) send_window (queued_in_flight_bytes c).

(** [for p in &mut self.in_flight], by position. *)
Definition retransmit_one (rto now : Z) (i : nat) : M () :=
  c ← self;
  match in_flight c !! i with
  | None => mret ()
  | Some p =>
      if duration_since now (sent_at p) >=? rto then
        now_ts ← now_micros;
        c ← self;
        let packet := encode (packet_header c Data now_ts (seq p)) (payload p) in
        _ ← send_to (peer c) packet;
        loss_at ← instant_now;
        let p := mkInFlight (seq p) (payload p) now now_ts
                   (saturating_add u32_max (transmissions p) 1) in
        put (set_ledbat (set_in_flight c (<[i := p]> (in_flight c))) (on_loss (ledbat c) loss_at))
      else mret ()
  end.

Fixpoint retransmit_loop (rto now : Z) (i n : nat) : M () :=
  match n with
  | O => mret ()
  | S n => _ ← retransmit_one rto now i; retransmit_loop rto now (S i) n
  end.

Definition retransmit : M () :=
  c ← self;
  now ← instant_now;
  retransmit_loop (rto (ledbat c)) now 0 (length (in_flight c)).

(** *** Inbound packets *)

Definition handle_packet (h : UtpHeader) (p : list byte) (sack : option Sack) : M RecvOutcome :=
  c ← self;
  if negb (connection_id h =? recv_conn_id c) && negb (bool_decide (typ h = Reset))
  then mret Duplicate
  else
    _ ← put (set_peer_window c (window_size h));
    now_ts ← now_micros;
    c ← self;
    _ ← (if negb (timestamp_delta_micros h =? 0) then
           now ← instant_now;
           put (set_ledbat c (on_sample (ledbat c) now (timestamp_micros h)
                                (wrap 32 (now_ts - timestamp_micros h))))
         else mret ());
    c ← self;
    match typ h with
    | Data =>
        let c := ack_in_flight c (ack_number h) sack in
        let '(out, c) := handle_data c (seq_number h) p in
        _ ← put (set_ledbat c (on_ack (ledbat c)));
        mret out
    | State =>
        let c := ack_in_flight c (ack_number h) sack in
        _ ← put (set_ledbat c (on_ack (ledbat c)));
        mret Delivered
    | Fin =>
        _ ← put (set_peer_fin (set_receive c (Z.max (conn_ack c) (seq_number h)) (recv_window c)
                                 (recv_buf c) (ooo c)));
        _ ← send_state;
        mret Closed
    | Reset =>
        _ ← put (set_closed (set_peer_fin c));
        mret Closed
    | Syn =>
        _ ← send_state;
        mret Duplicate
    end.

(** What the bounded wait for a datagram produced. *)
Inductive recv_result : Type :=
  | Datagram (from : SocketAddr) (bytes : list byte)
  | RecvError (e : CoreError)
  | TimedOut.

Definition receive_datagram (from : SocketAddr) (bytes : list byte) : M bool :=
  c ← self;
  if negb (bool_decide (from = peer c)) then mret true
  else if len bytes =? 0 then mret true
  else
    match decode_with_extensions bytes with
    | Ok (h, extensions, p) =>
        match sack_from_extensions extensions with
        | Ok sack =>
            now ← instant_now;
            _ ← put (set_last_recv c now);
            out ← handle_packet h p sack;
            match out with
            | Closed =>
                c ← self;
                if local_fin_sent c && fin_transmitted c
                then _ ← put (set_closed c); mret false
                else mret true
            | Delivered | Duplicate => mret true
            end
        | Err _ => mret true
        | Panic => lift Panic
        | OutOfFuel => lift OutOfFuel
        end
    | Err _ => mret true
    | Panic => lift Panic
    | OutOfFuel => lift OutOfFuel
    end.

Definition drive (incoming : recv_result) : M bool :=
  c ← self;
  if closed c then mret false
  else
    now ← instant_now;
    if duration_since now (last_recv c) >? IDLE_TIMEOUT then _ ← put (set_closed c); mret false
    else
      _ ← try_send;
      _ ← retransmit;
      _ ← maybe_send_ack;
      c ← self;
      _ ← (if local_fin_sent c && negb (fin_transmitted c) && (len (send_buf c) =? 0)
           then _ ← send_fin; c ← self; put (set_fin_transmitted c)
           else mret ());
      c ← self;
      if peer_fin c && (len (recv_buf c) =? 0) && local_fin_sent c && fin_transmitted c
      then _ ← put (set_closed c); mret false
      else
        match incoming with
        | Datagram from bytes => receive_datagram from bytes
        | RecvError e => lift (Err e)
        | TimedOut => mret true
        end.

(** *** Opening a connection *)

(** A fresh connection after the handshake. *)
Definition ready (to : SocketAddr) (send_id recv_id next ack window now now' : Z)
    : UtpConnection :=
  mkConn to send_id recv_id next ack RECV_WINDOW_DEFAULT window [] [] [] []
    1 new false false false false now now'.

Definition syn_header (syn_conn_id now_ts : Z) : UtpHeader :=
  mkHeader Syn UTP_VERSION 0 syn_conn_id now_ts 0 RECV_WINDOW_DEFAULT 1 0.

(** [connect] after the socket was granted and the SYN sent: [reply] is the
    datagram that arrived within ten seconds. *)
Definition finish_connect (to : SocketAddr) (syn_conn_id : Z)
    (reply : option (SocketAddr * list byte)) (now now' : Z) : outcome UtpConnection :=
  match reply with
  | None => Err (Internal "uTP connect: no SYN-ACK from peer")
  | Some (from, bytes) =>
      _ ← fail_if (negb (bool_decide (from = to)))
            (Internal "uTP connect: reply from wrong peer");
      '(h, _, _) ← decode_with_extensions bytes;
      _ ← fail_if (negb (bool_decide (typ h = State))) (Internal "uTP connect: expected STATE");
      _ ← fail_if (negb (ack_number h =? 1))
            (Internal "uTP connect: SYN-ACK did not ack our SYN");
      _ ← fail_if (negb (connection_id h =? syn_conn_id))
            (Internal "uTP connect: SYN-ACK connection id mismatch");
      Ok (ready to (wrapping_add16 syn_conn_id 1) syn_conn_id (wrapping_add16 1 1)
            (seq_number h) (window_size h) now now')
  end.

(** [accept_from_syn]: the STATE reply and, once it is sent, the connection. *)
Definition accept_reply (syn : UtpHeader) (now_ts : Z) : UtpHeader :=
  mkHeader State UTP_VERSION 0 (connection_id syn) now_ts
    (wrap 32 (now_ts - timestamp_micros syn)) RECV_WINDOW_DEFAULT 1 (seq_number syn).
Definition accept_from_syn (from : SocketAddr) (syn : UtpHeader) (now_ts : Z)
    (send_result : option CoreError) (now now' : Z) : outcome (UtpConnection * list byte) :=
  _ ← fail_if (negb (bool_decide (typ syn = Syn))) (Internal "accept_from_syn: not a SYN");
  match send_result with
  | Some e => Err e
  | None =>
      Ok (ready from (connection_id syn) (wrapping_add16 (connection_id syn) 1)
            (wrapping_add16 1 1) (seq_number syn) (window_size syn) now now',
          encode (accept_reply syn now_ts) [])
  end.

End connection.

(** [rand_conn_id], from the two clock readings. *)
Definition rotate_left64 (x k : Z) : Z :=
  Z.lor (wrap 64 (Z.shiftl x k)) (Z.shiftr x (64 - k)).
Definition rand_conn_id (t nanos : Z) : Z :=
  let mix := Z.lxor (Z.lxor t (rotate_left64 t 13)) nanos in
  let v := wrap 16 (Z.land mix 65535) in
  if v =? 0 then 1 else v.
