(* ===== verification/UtpReceive.v ===== *)
(** * UtpReceive: what the receiving half of a uTP connection delivers

    The sender's stream is a function [chunk] from positions 1, 2, ... to
    payloads; the packet of position [i] carries the sequence number
    [base + i] modulo 2^16.  [utp_reassembly] shows that whatever order, repetition or
    loss the packets suffer within half the sequence space, the bytes read are a
    prefix of the stream; [utp_memory_bounded] bounds the buffered bytes for
    arbitrary packets. *)

From S2P Require Import Prelude UtpWire Ledbat UtpConn.

#[local] Arguments held_bytes : simpl never.

Section receive.
Context {SocketAddr : Type} `{EqDecision SocketAddr}.
Implicit Types c : UtpConnection (SocketAddr := SocketAddr).

(** ** The window *)

Definition buffered c : Z := len (recv_buf c) + held_bytes (ooo c).

(** The advertised window is the part of the 4 MiB that is free. *)
Definition window_inv c : Prop :=
  buffered c <= RECV_WINDOW_DEFAULT /\ recv_window c = RECV_WINDOW_DEFAULT - buffered c.

Lemma held_bytes_nonneg held : 0 <= held_bytes held.
Proof. apply zsum_nonneg. auto. Qed.

Lemma fold_held n held :
  0 <= n <= usize_max ->
  foldl (fun total h => saturating_add usize_max total (len h.2)) n held
  = Z.min usize_max (n + held_bytes held).
Proof.
  revert n. induction held as [|h held IH]; intros n Hn; cbn [foldl].
  { change (held_bytes []) with 0. lia. }
  change (held_bytes (h :: held)) with (len (snd h) + held_bytes held).
  pose proof (held_bytes_nonneg held). pose proof (len_nonneg h.2).
  unfold saturating_add. rewrite IH by lia. lia.
Qed.

Lemma update_window c :
  buffered c <= RECV_WINDOW_DEFAULT ->
  recv_window (update_recv_window c) = RECV_WINDOW_DEFAULT - buffered c /\
  window_inv (update_recv_window c).
Proof.
  intros Hb.
  assert (E : recv_window (update_recv_window c) = RECV_WINDOW_DEFAULT - buffered c).
  { unfold update_recv_window. cbn [recv_window set_receive].
    pose proof (held_bytes_nonneg (ooo c)). pose proof (len_nonneg (recv_buf c)).
    unfold buffered, RECV_WINDOW_DEFAULT in *.
    rewrite fold_held by (unfold usize_max; lia).
    unfold saturating_sub, usize_max, u32_max. lia. }
  split; [done|]. split; [done|exact E].
Qed.

Lemma update_fields c :
  let c' := update_recv_window c in
  conn_ack c' = conn_ack c /\ recv_buf c' = recv_buf c /\ ooo c' = ooo c /\
  buffered c' = buffered c.
Proof. done. Qed.

Lemma drain_loop_bytes ack buf held :
  let '(_, buf', held') := drain_loop ack buf held in
  len buf' + held_bytes held' = len buf + held_bytes held.
Proof.
  revert ack buf. induction held as [|[s p] held IH]; intros ack buf; cbn [drain_loop]; [done|].
  destruct (s =? wrapping_add16 ack 1); [|done].
  specialize (IH (wrapping_add16 ack 1) (buf ++ p)).
  destruct (drain_loop _ _ held) as [[a b] h]. rewrite IH, len_app.
  change (held_bytes ((s, p) :: held)) with (len p + held_bytes held). lia.
Qed.

Lemma drain_ooo_buffered c : buffered (drain_ooo c) = buffered c.
Proof.
  unfold drain_ooo. pose proof (drain_loop_bytes (conn_ack c) (recv_buf c) (ooo c)) as H.
  destruct (drain_loop _ _ _) as [[a b] h]. unfold buffered. cbn. done.
Qed.

Lemma handle_data_window c s p : window_inv c -> window_inv (handle_data c s p).2.
Proof.
  intros [Hb Hw]. unfold handle_data. rewrite Z.gtb_ltb.
  destruct (s =? wrapping_add16 (conn_ack c) 1).
  - destruct (Z.ltb_spec (recv_window c) (len p)) as [|Hp]; [done|]. cbn [snd].
    apply update_window. rewrite drain_ooo_buffered.
    unfold buffered in *. cbn. rewrite len_app. lia.
  - destruct (wrapping_sub16 _ _ =? 0); [done|].
    destruct (negb _ && _ && (len p <=? recv_window c)) eqn:E; [|done]. cbn [snd].
    apply update_window. unfold buffered, held_bytes in *. cbn [recv_buf ooo set_receive].
    rewrite (zsum_perm _ _ _ (sort_by_perm _ _)), zsum_app, zsum_cons.
    change (zsum _ []) with 0. cbn [snd].
    apply andb_prop in E as [_ E%Z.leb_le]. lia.
Qed.

Lemma read_window c n : 0 <= n -> window_inv c -> window_inv (read c n).2.
Proof.
  intros Hn [Hb Hw]. unfold read. destruct ((len (recv_buf c) =? 0) && peer_fin c); [done|].
  cbn [snd]. apply update_window. unfold buffered in *. cbn.
  unfold len in *. rewrite length_drop. lia.
Qed.

(** ** Runs of the receiving half *)

Inductive event : Type :=
  | Packet (s : Z) (p : list byte)
  | Read (n : Z).

(** The connection, and all bytes read so far. *)
Definition receive_step (st : UtpConnection (SocketAddr := SocketAddr) * list byte) (e : event) :=
  match e with
  | Packet s p => ((handle_data st.1 s p).2, st.2)
  | Read n => let '(bs, c) := read st.1 (Z.max 0 n) in (c, st.2 ++ bs)
  end.

Lemma receive_window es c out : window_inv c -> window_inv (foldl receive_step (c, out) es).1.
Proof.
  revert c out. induction es as [|e es IH]; intros c out Hc; cbn [foldl]; [done|].
  destruct e as [s p|n]; cbn [receive_step fst snd].
  - by apply IH, handle_data_window.
  - pose proof (read_window c (Z.max 0 n) ltac:(lia) Hc) as H.
    destruct (read c (Z.max 0 n)) as [bs c']. by apply IH.
Qed.

(** ** The stream *)

Section stream.
Variable base : Z.
Variable chunk : Z -> list byte.

Definition seq_of (i : Z) : Z := wrap 16 (base + i).
Definition tag (i : Z) : Z * list byte := (seq_of i, chunk i).
(** The bytes of positions 1 to [n]. *)
Definition stream (n : Z) : list byte := concat (map chunk (seqZ 1 n)).

Lemma stream_0 : stream 0 = [].
Proof. done. Qed.

Lemma stream_succ n : 0 <= n -> stream (n + 1) = stream n ++ chunk (n + 1).
Proof.
  intros Hn. unfold stream.
  rewrite (seqZ_app 1 n 1) by lia. rewrite map_app, concat_app.
  change (seqZ (1 + n) 1) with [0 + (1 + n)]. cbn [map concat].
  rewrite app_nil_r. do 2 f_equal. lia.
Qed.

Lemma seq_of_sub i j : wrapping_sub16 (seq_of i) (seq_of j) = wrap 16 (i - j).
Proof.
  unfold wrapping_sub16, seq_of, wrap. rewrite <- Zminus_mod. f_equal. lia.
Qed.

Lemma seq_of_succ n : wrapping_add16 (seq_of n) 1 = seq_of (n + 1).
Proof.
  unfold wrapping_add16, seq_of, wrap. rewrite Zplus_mod_idemp_l. f_equal. lia.
Qed.

Lemma seq_of_inj i j : Z.abs (i - j) < 2 ^ 16 -> seq_of i = seq_of j -> i = j.
Proof.
  intros Hd E. unfold seq_of, wrap in E.
  assert (Hz : (i - j) mod 2 ^ 16 = 0).
  { replace (i - j) with ((base + i) - (base + j)) by lia. by rewrite Zminus_mod, E, Z.sub_diag. }
  apply Z.mod_divide in Hz as [k Hk]; [|done]. assert (k = 0) by nia. lia.
Qed.

Lemma seq_of_eqb i j : Z.abs (i - j) < 2 ^ 16 -> (seq_of i =? seq_of j) = (i =? j).
Proof.
  intros Hd. destruct (Z.eqb_spec i j) as [->|Hne]; [apply Z.eqb_refl|].
  apply Z.eqb_neq. intros E. by apply Hne, seq_of_inj.
Qed.

Lemma seq_ahead i n :
  n - 2 ^ 15 < i < n + 2 ^ 15 -> seq_is_ahead (seq_of i) (seq_of n) = (n <? i).
Proof.
  intros Hi. unfold seq_is_ahead. rewrite seq_of_sub. unfold wrap.
  destruct (Z.ltb_spec n i).
  - rewrite Z.mod_small by lia. rewrite (proj2 (Z.eqb_neq _ _)), (proj2 (Z.ltb_lt _ _)) by lia. done.
  - destruct (decide (i = n)) as [->|].
    { rewrite Z.sub_diag. done. }
    replace ((i - n) mod 2 ^ 16) with (i - n + 2 ^ 16).
    2:{ apply (Z.mod_unique _ _ (-1)); lia. }
    rewrite (proj2 (Z.ltb_ge _ 32768)) by lia. apply andb_false_r.
Qed.

(** Held positions: ahead of the gap, within the window, in increasing order. *)
Definition ahead (n : Z) (idx : list Z) : Prop :=
  StronglySorted Z.lt idx /\ Forall (fun i => n + 1 < i < n + 2 ^ 15) idx.

Record receive_inv c (out : list byte) (n : Z) (idx : list Z) : Prop := {
  ri_n : 0 <= n;
  ri_ack : conn_ack c = seq_of n;
  ri_ooo : ooo c = map tag idx;
  ri_idx : ahead n idx;
  ri_bytes : out ++ recv_buf c = stream n }.

Lemma drain_loop_spec idx n buf :
  0 <= n -> StronglySorted Z.lt idx -> Forall (fun i => n < i < n + 2 ^ 15) idx ->
  exists n' idx' bs, drain_loop (seq_of n) buf (map tag idx) = (seq_of n', buf ++ bs, map tag idx') /\
    n <= n' /\ ahead n' idx' /\ stream n' = stream n ++ bs /\ (n' = n \/ n' ∈ idx).
Proof.
  revert n buf. induction idx as [|i idx IH]; intros n buf Hn Hs Hr; cbn [map drain_loop].
  { exists n, [], []. rewrite !app_nil_r. repeat split; try done; try lia; try constructor; done. }
  apply Forall_cons in Hr as [Hi Hr]. inversion Hs as [|? ? Hs' Hlt]; subst.
  unfold tag at 1. rewrite seq_of_succ, seq_of_eqb by lia.
  destruct (Z.eqb_spec i (n + 1)) as [->|Hne].
  - destruct (IH (n + 1) (buf ++ chunk (n + 1))) as (n' & idx' & bs & E & Hle & Hah & Hst & Hor);
      [lia|done| |].
    { apply Forall_forall. intros j Hj. rewrite Forall_forall in Hlt, Hr.
      specialize (Hlt j Hj). specialize (Hr j Hj). cbn in *. lia. }
    exists n', idx', (chunk (n + 1) ++ bs). rewrite E, <- app_assoc.
    split; [done|]. split; [lia|]. split; [done|].
    split; [by rewrite Hst, stream_succ, <- app_assoc|]. set_solver.
  - exists n, (i :: idx), []. rewrite !app_nil_r. split; [done|]. split; [lia|].
    split; [|split; [done|by left]]. split; [done|]. constructor; [lia|].
    apply Forall_forall. intros j Hj. rewrite Forall_forall in Hlt, Hr.
    specialize (Hlt j Hj). specialize (Hr j Hj). cbn in *. lia.
Qed.

Lemma already_held idx n i :
  ahead n idx -> n < i < n + 2 ^ 15 ->
  existsb (fun h => h.1 =? seq_of i) (map tag idx) = bool_decide (i ∈ idx).
Proof.
  intros [_ Hr] Hi. induction idx as [|j idx IH]; cbn [map existsb].
  { by rewrite bool_decide_false by set_solver. }
  apply Forall_cons in Hr as [Hj Hr]. rewrite IH by done. unfold tag at 1. cbn [fst].
  rewrite seq_of_eqb by lia. destruct (Z.eqb_spec j i) as [->|Hne].
  - symmetry. apply bool_decide_true, elem_of_cons. by left.
  - cbn [orb]. apply bool_decide_ext. rewrite elem_of_cons. clear -Hne. naive_solver.
Qed.

(** The sort by distance from the acknowledgement keeps the positions in order. *)
Lemma sort_held idx n i :
  ahead n idx -> n + 1 < i < n + 2 ^ 15 -> i ∉ idx ->
  exists idx', ahead n idx' /\
    sort_by (fun a b => wrapping_sub16 a.1 (seq_of n) <=? wrapping_sub16 b.1 (seq_of n))
      (map tag idx ++ [tag i]) = map tag idx'.
Proof.
  intros [Hs Hr] Hi Hnot. set (le := fun a b : Z * list byte => _ <=? _).
  assert (Hperm : sort_by le (map tag idx ++ [tag i]) ≡ₚ map tag (idx ++ [i])).
  { rewrite map_app. apply sort_by_perm. }
  apply Permutation_map_inv in Hperm as (idx' & E & Hp).
  exists idx'. split; [|done].
  assert (Hr' : Forall (fun i => n + 1 < i < n + 2 ^ 15) idx').
  { rewrite <- Hp. apply Forall_app. split; [done|]. by constructor. }
  split; [|done].
  assert (Hnd : NoDup idx').
  { rewrite <- Hp. apply NoDup_app. split; [|split; [set_solver|apply NoDup_singleton]].
    clear -Hs. induction Hs as [|a l Hl IH Ha]; constructor; [|done].
    intros Hin. rewrite Forall_forall in Ha. specialize (Ha a Hin). lia. }
  assert (Hsort : Sorted (fun a b => le a b = true) (map tag idx')).
  { rewrite <- E. apply sort_by_sorted. intros x y. unfold le.
    rewrite Z.leb_gt, Z.leb_le. lia. }
  apply Sorted_StronglySorted in Hsort; [|intros a b d; unfold le; rewrite !Z.leb_le; lia].
  clear E Hp. induction idx' as [|j idx' IH]; [constructor|].
  cbn [map] in Hsort. inversion Hsort as [|? ? Hs' Hall]; subst.
  apply Forall_cons in Hr' as [Hj Hr']. apply NoDup_cons in Hnd as [Hj' Hnd].
  constructor; [by apply IH|]. apply Forall_forall. intros k Hk.
  rewrite Forall_forall in Hr'. specialize (Hr' k Hk). cbn in Hr'.
  rewrite List.Forall_forall in Hall.
  specialize (Hall (tag k) ltac:(apply in_map; by apply list_elem_of_In)).
  unfold le, tag in Hall. cbn [fst] in Hall. rewrite !seq_of_sub in Hall.
  unfold wrap in Hall. rewrite !Z.mod_small, Z.leb_le in Hall by lia.
  assert (j <> k) by by intros ->. lia.
Qed.

Lemma handle_packet_inv c out n idx i :
  receive_inv c out n idx -> 1 <= i -> n - 2 ^ 15 < i < n + 2 ^ 15 ->
  exists n' idx', receive_inv (handle_data c (seq_of i) (chunk i)).2 out n' idx' /\
    n <= n' < n + 2 ^ 15.
Proof.
  intros [Hn Hack Hooo Hidx Hbytes] H1 Hi. unfold handle_data. rewrite Hack, seq_of_succ.
  rewrite seq_of_eqb, Z.gtb_ltb by lia.
  destruct (Z.eqb_spec i (n + 1)) as [->|Hne].
  - destruct (Z.ltb_spec (recv_window c) (len (chunk (n + 1)))); [exists n, idx; split; [done|lia]|].
    cbn [snd]. unfold drain_ooo. cbn [conn_ack recv_buf ooo set_receive recv_window].
    rewrite Hooo. destruct Hidx as [Hs Hr].
    destruct (drain_loop_spec idx (n + 1) (recv_buf c ++ chunk (n + 1)))
      as (n' & idx' & bs & -> & Hle & Hah & Hst & Hor); [lia|done| |].
    { apply Forall_forall. intros j Hj. rewrite Forall_forall in Hr.
      specialize (Hr j Hj). cbn in *. lia. }
    exists n', idx'. split.
    2:{ rewrite Forall_forall in Hr. split; [lia|]. destruct Hor as [->|Hor]; [lia|].
        specialize (Hr n' Hor). cbn in Hr. lia. }
    split; cbn; try done; [lia|].
    rewrite Hst, stream_succ, <- Hbytes, <- !app_assoc by lia. done.
  - rewrite seq_of_sub. destruct (wrap 16 (i - (n + 1)) =? 0) eqn:Ez; [exists n, idx; split; [done|lia]|].
    rewrite seq_ahead by lia. destruct (Z.ltb_spec n i) as [Hlt|]; cbn [andb];
      [|rewrite andb_false_r; exists n, idx; split; [done|lia]].
    rewrite Hooo, (already_held idx n) by (done || lia).
    destruct (decide (i ∈ idx)) as [Hin|Hnot].
    { rewrite bool_decide_true by done. exists n, idx; split; [done|lia]. }
    rewrite bool_decide_false by done. cbn [negb andb].
    destruct (len (chunk i) <=? recv_window c); [|exists n, idx; split; [done|lia]]. cbn [snd].
    destruct (sort_held idx n i Hidx ltac:(lia) Hnot) as (idx' & Hah & E).
    exists n, idx'. split; [|lia]. unfold tag in E at 2. rewrite E.
    split; cbn; done.
Qed.

Lemma read_inv c out n idx k :
  0 <= k -> receive_inv c out n idx ->
  receive_inv (read c k).2 (out ++ (read c k).1) n idx.
Proof.
  intros Hk [Hn Hack Hooo Hidx Hbytes]. unfold read.
  destruct ((len (recv_buf c) =? 0) && peer_fin c); cbn [fst snd].
  { rewrite app_nil_r. by split. }
  split; cbn; try done. by rewrite <- app_assoc, take_drop.
Qed.

(** A run whose packets are chunks of the stream, each within half the sequence
    space of the position acknowledged when it arrives.  The number counts the
    positions acknowledged so far. *)
Inductive stream_run : UtpConnection (SocketAddr := SocketAddr) * list byte -> Z -> Prop :=
  | run_start c : conn_ack c = seq_of 0 -> recv_buf c = [] -> ooo c = [] -> stream_run (c, []) 0
  | run_packet st n i :
      stream_run st n -> 1 <= i -> n - 2 ^ 15 < i < n + 2 ^ 15 ->
      let st' := receive_step st (Packet (seq_of i) (chunk i)) in
      stream_run st' (n + wrapping_sub16 (conn_ack st'.1) (conn_ack st.1))
  | run_read st n k : stream_run st n -> stream_run (receive_step st (Read k)) n.

Lemma stream_run_inv st n :
  stream_run st n -> exists idx, receive_inv st.1 st.2 n idx.
Proof.
  induction 1 as [c Ha Hb Ho|st n i Hrun [idx IH] H1 Hi|st n k Hrun [idx IH]].
  - exists []. split; cbn; try done; try (by rewrite Hb); split; constructor.
  - destruct (handle_packet_inv st.1 st.2 n idx i IH H1 Hi) as (n' & idx' & Hinv & Hn').
    subst st'. cbn [receive_step fst snd]. exists idx'.
    rewrite (ri_ack _ _ _ _ Hinv), (ri_ack _ _ _ _ IH), seq_of_sub, wrap_small
      by (unfold in_width; lia).
    by replace (n + (n' - n)) with n' by lia.
  - exists idx. pose proof (read_inv st.1 st.2 n idx (Z.max 0 k) ltac:(lia) IH) as Hr.
    cbn [receive_step]. by destruct (read st.1 (Z.max 0 k)).
Qed.

End stream.

(** ** Properties *)

(** C19: Whatever order the packets of a stream arrive in, with losses and
    repetitions, as long as each arrives within half the sequence space of the
    acknowledged position, the bytes read followed by the bytes waiting are
    exactly the payloads of positions 1 to [n] in order, and [n] is the position
    the acknowledgement number stands for. *)
Theorem utp_reassembly (base : Z) (chunk : Z -> list byte)
    (st : UtpConnection (SocketAddr := SocketAddr) * list byte) (n : Z)
    (Hrun : stream_run base chunk st n) :
  0 <= n /\ conn_ack st.1 = wrap 16 (base + n) /\
  st.2 ++ recv_buf st.1 = concat (map chunk (seqZ 1 n)).
Proof.
  apply stream_run_inv in Hrun as [idx [Hn Ha _ _ Hb]]. done.
Qed.

(** When the packet after the acknowledged position arrives in such a run and
    fits the window, it is delivered, together with every held packet that
    follows it without a gap: the position moves up to just before the first
    position that is neither it nor held. *)
Theorem utp_progress (base : Z) (chunk : Z -> list byte)
    (st : UtpConnection (SocketAddr := SocketAddr) * list byte) (n : Z)
    (Hrun : stream_run base chunk st n)
    (Hfit : len (chunk (n + 1)) <= recv_window st.1) :
  let '(outcome, c) := handle_data st.1 (wrap 16 (base + (n + 1))) (chunk (n + 1)) in
  outcome = Delivered /\
  exists n', n + 1 <= n' /\ conn_ack c = wrap 16 (base + n') /\
    (forall p, (wrap 16 (base + (n' + 1)), p) ∉ ooo c) /\
    st.2 ++ recv_buf c = concat (map chunk (seqZ 1 n')).
Proof.
  apply stream_run_inv in Hrun as [idx [Hn Hack Hooo Hidx Hbytes]]. unfold handle_data.
  fold (seq_of base (n + 1)). rewrite Hack, seq_of_succ, Z.eqb_refl.
  rewrite Z.gtb_ltb, (proj2 (Z.ltb_ge _ _)) by lia.
  unfold drain_ooo. cbn [conn_ack recv_buf ooo set_receive recv_window]. rewrite Hooo.
  destruct Hidx as [Hs Hr].
  destruct (drain_loop_spec base chunk idx (n + 1) (recv_buf st.1 ++ chunk (n + 1)))
    as (n' & idx' & bs & -> & Hle & [Hs' Hr'] & Hst & _); [lia|done| |].
  { apply Forall_forall. intros j Hj. rewrite Forall_forall in Hr.
    specialize (Hr j Hj). cbn in *. lia. }
  split; [done|]. exists n'. split; [done|]. split; [done|]. split; cbn.
  - intros p Hp. apply list_elem_of_fmap in Hp as (j & E & Hj). injection E as E _.
    rewrite Forall_forall in Hr'. specialize (Hr' j Hj). cbn in Hr'.
    apply (seq_of_inj base) in E; lia.
  - rewrite !app_assoc, Hbytes, <- stream_succ by lia. symmetry. exact Hst.
Qed.

(** Against a peer that sends any packets whatever, in any order and with
    any reads in between, the delivered and held bytes together never exceed the
    4 MiB receive window, and the window advertised is exactly what is left. *)
Theorem utp_memory_bounded (c : UtpConnection (SocketAddr := SocketAddr)) (es : list event)
    (Hb : recv_buf c = []) (Ho : ooo c = []) (Hw : recv_window c = RECV_WINDOW_DEFAULT) :
  let c' := (foldl receive_step (c, []) es).1 in
  len (recv_buf c') + held_bytes (ooo c') <= RECV_WINDOW_DEFAULT /\
  recv_window c' = RECV_WINDOW_DEFAULT - (len (recv_buf c') + held_bytes (ooo c')).
Proof.
  apply receive_window. unfold window_inv, buffered. rewrite Hb, Ho, Hw.
  change (held_bytes []) with 0. rewrite (@len_nil byte). unfold RECV_WINDOW_DEFAULT. lia.
Qed.

End receive.

(** ** Instances *)

Definition sample_conn : UtpConnection (SocketAddr := nat) := ready 7%nat 11 10 2 65534 100000 0 0.
Definition sample_chunk (i : Z) : list byte := [as_u8 (64 + i); as_u8 (96 + i)].

(** Positions 2, 1, 1, 3 arrive in that order (their numbers wrap around zero),
    with a read in between. *)
Definition sample_events : list event :=
  [Packet 0 (sample_chunk 2); Packet 65535 (sample_chunk 1); Read 1;
   Packet 65535 (sample_chunk 1); Packet 1 (sample_chunk 3)].
Lemma sample_stream_run :
  stream_run 65534 sample_chunk (foldl receive_step (sample_conn, []) sample_events) 3.
Proof.
  pose proof (run_start 65534 sample_chunk sample_conn eq_refl eq_refl eq_refl) as R.
  apply (run_packet _ _ _ _ 2) in R; [|lia..].
  apply (run_packet _ _ _ _ 1) in R; [|lia|vm_compute; split; reflexivity].
  apply (run_read _ _ _ _ 1) in R.
  apply (run_packet _ _ _ _ 1) in R; [|lia|vm_compute; split; reflexivity].
  apply (run_packet _ _ _ _ 3) in R; [|lia|vm_compute; split; reflexivity].
  exact R.
Qed.

Lemma utp_reassembly_witness :
  let st := foldl receive_step (sample_conn, []) sample_events in
  st.2 = [x41] /\ st.2 ++ recv_buf st.1 = [x41; x61; x42; x62; x43; x63].
Proof.
  split; [reflexivity|].
  exact (proj2 (proj2 (utp_reassembly 65534 sample_chunk _ 3 sample_stream_run))).
Defined.

Lemma utp_progress_witness :
  (handle_data (foldl receive_step (sample_conn, []) sample_events).1 2 (sample_chunk 4)).1
  = Delivered.
Proof.
  pose proof (utp_progress 65534 sample_chunk _ 3 sample_stream_run
    ltac:(vm_compute; discriminate)) as H.
  change (wrap 16 (65534 + (3 + 1))) with 2 in H. change (3 + 1) with 4 in H.
  destruct (handle_data _ 2 (sample_chunk 4)) as [out c]. exact (proj1 H).
Defined.

Lemma utp_memory_bounded_witness :
  let c := (foldl receive_step (sample_conn, []) sample_events).1 in
  recv_window c = RECV_WINDOW_DEFAULT - 5.
Proof.
  exact (proj2 (utp_memory_bounded sample_conn sample_events eq_refl eq_refl eq_refl)).
Defined.
