(* ===== verification/UtpSend.v ===== *)
(** * UtpSend: what the sending half of a uTP connection transmits

    [try_send_exact] says which packets one call of [try_send] puts on the wire
    and in flight; [drive_window] lifts the receive bound to whole calls of
    [drive]; [ack_removes_exactly] and [write_bounded] are about the
    acknowledgement of packets and the send buffer.  The last section runs two
    endpoints through a lost packet and a [close]. *)

From S2P Require Import Prelude UtpWire Ledbat UtpConn UtpReceive.

#[local] Arguments held_bytes : simpl never.
#[local] Existing Instance UtpConn.M_ret.
#[local] Existing Instance UtpConn.M_bind.

Section send.
Context {SocketAddr : Type} `{EqDecision SocketAddr}.
Abbreviation conn := (UtpConnection (SocketAddr := SocketAddr)).
Abbreviation env := (world (SocketAddr := SocketAddr)).
Implicit Types (c : conn) (w : env).

(** ** Running the monad *)

(** [Q] holds of the result, the connection and the world after [m]. *)
Definition wp {A} (m : M A) (Q : outcome A -> conn -> env -> Prop) c w : Prop :=
  Q (m (c, w)).1 (m (c, w)).2.1 (m (c, w)).2.2.

Lemma wp_bind {A B} (m : M A) (k : A -> M B) Q c w :
  wp m (fun r c' w' =>
    match r with
    | Ok a => wp (k a) Q c' w'
    | Err e => Q (Err e) c' w'
    | Panic => Q Panic c' w'
    | OutOfFuel => Q OutOfFuel c' w'
    end) c w ->
  wp (m ≫= k) Q c w.
Proof.
  unfold wp, mbind, M_bind. destruct (m (c, w)) as [[a|e| |] [c' w']]; done.
Qed.

Lemma wp_mono {A} (m : M A) (Q Q' : outcome A -> conn -> env -> Prop) c w :
  (forall r c' w', Q r c' w' -> Q' r c' w') -> wp m Q c w -> wp m Q' c w.
Proof. unfold wp. auto. Qed.

Lemma wp_self Q c w : Q (Ok c) c w -> wp self Q c w.
Proof. done. Qed.
Lemma wp_put Q c c' w : Q (Ok ()) c' w -> wp (put c') Q c w.
Proof. done. Qed.
Lemma wp_ret {A} (a : A) Q c w : Q (Ok a) c w -> wp (mret a) Q c w.
Proof. done. Qed.
Lemma wp_lift {A} (o : outcome A) Q c w : Q o c w -> wp (lift o) Q c w.
Proof. done. Qed.
Lemma wp_instant Q c w :
  (forall t, Q (Ok t) c (next_tick w)) -> wp instant_now Q c w.
Proof. intros H. apply H. Qed.
Lemma wp_micros Q c w :
  (forall t, in_width 32 t -> Q (Ok t) c (next_tick w)) -> wp now_micros Q c w.
Proof. intros H. apply H. by apply wrap_range. Qed.

(** A world in which some more time and sends have passed. *)
Definition later w w' (packets : list (SocketAddr * list byte)) : Prop :=
  sent w' = sent w ++ packets /\ send_result w' = send_result w.

Lemma later_tick w : later w (next_tick w) [].
Proof. split; cbn; [by rewrite app_nil_r|done]. Qed.
Lemma later_refl w : later w w [].
Proof. split; [by rewrite app_nil_r|done]. Qed.
Lemma later_trans w1 w2 w3 p q : later w1 w2 p -> later w2 w3 q -> later w1 w3 (p ++ q).
Proof. intros [E1 F1] [E2 F2]. split; [by rewrite E2, E1, app_assoc|by rewrite F2, F1]. Qed.

Lemma wp_send to packet Q c w :
  (forall e w', later w w' [] -> (exists i, send_result w i = Some e) -> Q (Err e) c w') ->
  (forall w', later w w' [(to, packet)] -> Q (Ok ()) c w') ->
  wp (send_to to packet) Q c w.
Proof.
  intros Herr Hok. unfold wp, send_to. destruct (send_result w (tick w)) as [e|] eqn:E; cbn.
  - apply Herr; [apply later_tick|by eexists].
  - by apply Hok.
Qed.

(** ** Acknowledgement extensions always encode *)

Lemma trim_zeros_length ws : (length (trim_zeros ws) <= length ws)%nat.
Proof.
  induction ws as [|a ws IH]; cbn; [lia|].
  destruct (trim_zeros ws); [destruct (a =? 0)|]; cbn in *; lia.
Qed.

Lemma from_held_total ack held :
  exists s, from_held ack held = Ok s /\ len (encode_data s) <= 32.
Proof.
  unfold from_held.
  destruct (held_loop_spec ack held (replicate max_words 0) false) as (ws & any & -> & Hl & _ & _);
    [done|]. ok_simpl.
  assert (Hlen : forall ws, len (flat_map (to_le 4) ws) = 4 * len ws).
  { clear. intros ws. induction ws as [|w ws IH]; [done|]. cbn [flat_map].
    rewrite len_app, len_cons, IH. change (len (to_le 4 w)) with 4. lia. }
  destruct any; cbn [negb]; eexists; (split; [done|]); [|vm_compute; discriminate].
  unfold encode_data. destruct (sack_is_empty _); [vm_compute; discriminate|].
  cbn [words]. rewrite Hlen. pose proof (trim_zeros_length ws) as Ht.
  unfold len. rewrite Hl in Ht. unfold max_words in Ht. lia.
Qed.

Lemma ack_extensions_total c :
  exists es, ack_extensions c = Ok es /\ Forall extension_wf es /\ len (encode_extensions es) <= 34.
Proof.
  unfold ack_extensions. destruct (from_held_total (conn_ack c) (ooo c)) as (s & -> & Hs).
  ok_simpl. destruct (sack_is_empty s); eexists; (split; [done|]).
  - split; [constructor|]. vm_compute. discriminate.
  - split; [repeat constructor; cbn; lia|]. cbn [encode_extensions data first_kind].
    rewrite !len_app, !len_cons, !len_nil. lia.
Qed.

Lemma encode_total h es p :
  Forall extension_wf es -> len (encode_extensions es) <= 34 ->
  exists packet, encode_with_extensions h es p = Ok packet.
Proof.
  intros Hes Hl. unfold encode_with_extensions.
  rewrite extension_bytes_total; [by eexists|lia|done|]. unfold usize_max. lia.
Qed.

(** ** One chunk *)

(** A DATA packet for a chunk put in flight, with the acknowledgement and window
    of the connection that sent it. *)
Definition data_packet c (p : InFlight) (d : SocketAddr * list byte) : Prop :=
  d.1 = peer c /\
  exists h es, typ h = Data /\ seq_number h = seq p /\ ack_number h = conn_ack c /\
    window_size h = recv_window c /\ connection_id h = send_conn_id c /\
    encode_with_extensions h es (payload p) = Ok d.2.

(** Everything but the fields of the sending half is as it was. *)
Definition same_but_send c c' : Prop :=
  peer c' = peer c /\ send_conn_id c' = send_conn_id c /\ recv_conn_id c' = recv_conn_id c /\
  conn_ack c' = conn_ack c /\ recv_window c' = recv_window c /\ recv_buf c' = recv_buf c /\
  ooo c' = ooo c /\ ledbat c' = ledbat c /\ peer_window c' = peer_window c.

Lemma send_chunk_spec n b c w :
  0 < n <= len (send_buf c) ->
  wp (send_chunk n b) (fun r c' w' =>
    same_but_send c c' /\
    match r with
    | Ok b' =>
        b' = b + n /\ exists p d, later w w' [d] /\ data_packet c p d /\
          in_flight c' = in_flight c ++ [p] /\ seq p = seq_next c /\
          seq_next c' = wrapping_add16 (seq_next c) 1 /\ len (payload p) = n /\
          transmissions p = 1 /\ send_buf c = payload p ++ send_buf c'
    | Err e => exists i, send_result w i = Some e
    | _ => False
    end) c w.
Proof.
  intros Hn. unfold send_chunk. apply wp_bind, wp_self, wp_bind, wp_put, wp_bind, wp_micros.
  intros ts _. apply wp_bind, wp_lift.
  destruct (ack_extensions_total (set_send c (wrapping_add16 (seq_next c) 1)
    (drop (Z.to_nat n) (send_buf c)) (in_flight c) (Z.max (seq_max_sent c) (seq_next c))))
    as (es & -> & Hwf & Hl).
  apply wp_bind, wp_lift.
  set (h := packet_header _ _ _ _). set (chunk := take (Z.to_nat n) (send_buf c)).
  destruct (encode_total h es chunk Hwf Hl) as [packet Hp]. rewrite Hp.
  apply wp_bind, wp_send.
  { intros e w' Hw He. split; [done|]. exact He. }
  intros w1 Hw1. apply wp_bind, wp_instant. intros at_. apply wp_bind, wp_self, wp_bind, wp_put, wp_ret.
  assert (Hc : len chunk = n).
  { subst chunk. unfold len in *. rewrite length_take. lia. }
  split; [done|]. rewrite Hc. split; [done|].
  exists (mkInFlight (seq_next c) chunk at_ ts 1), (peer c, packet).
  split.
  { pose proof (later_trans w (next_tick w) _ _ _ (later_tick w) Hw1) as Hl2.
    exact (later_trans _ _ _ _ _ Hl2 (later_tick w1)). }
  split; [split; [done|by exists h, es]|].
  repeat split; try done. cbn. symmetry. apply take_drop.
Qed.

(** ** The loop *)

(** What a successful [try_send] did: the new packets in flight, their
    datagrams, and the bytes taken off the send buffer. *)
Record sent_chunks c w c' w' (new : list InFlight) : Prop := {
  sc_same : same_but_send c c';
  sc_in_flight : in_flight c' = in_flight c ++ new;
  sc_bytes : send_buf c = concat (map payload new) ++ send_buf c';
  sc_sizes : Forall (fun p => 0 < len (payload p) <= MAX_PAYLOAD /\ transmissions p = 1) new;
  sc_seqs : forall i p, new !! i = Some p -> seq p = wrap 16 (seq_next c + Z.of_nat i);
  sc_wire : exists packets, later w w' packets /\ Forall2 (data_packet c) new packets }.

Lemma sent_nothing c w : sent_chunks c w c w [].
Proof.
  split; try done; [by rewrite app_nil_r|].
  exists []. split; [apply later_refl|constructor].
Qed.

Lemma data_packet_same c c' p d : same_but_send c c' -> data_packet c' p d -> data_packet c p d.
Proof.
  intros (E1 & E2 & _ & E3 & E4 & _) (Hd & h & es & H1 & H2 & H3 & H4 & H5 & H6).
  split; [congruence|]. exists h, es. repeat split; try done; congruence.
Qed.

Lemma same_but_send_trans c1 c2 c3 :
  same_but_send c1 c2 -> same_but_send c2 c3 -> same_but_send c1 c3.
Proof. unfold same_but_send. intros; intuition congruence. Qed.

Lemma sent_cons c w c1 w1 c' w' p d new :
  same_but_send c c1 -> later w w1 [d] -> data_packet c p d ->
  in_flight c1 = in_flight c ++ [p] -> seq p = seq_next c -> in_width 16 (seq_next c) ->
  seq_next c1 = wrapping_add16 (seq_next c) 1 -> 0 < len (payload p) <= MAX_PAYLOAD ->
  transmissions p = 1 -> send_buf c = payload p ++ send_buf c1 ->
  sent_chunks c1 w1 c' w' new -> sent_chunks c w c' w' (p :: new).
Proof.
  intros Hs Hw Hd Hf Hq Hwd Hn Hl Ht Hb [S1 S2 S3 S4 S5 (packets & Hp1 & Hp2)]. split.
  - by eapply same_but_send_trans.
  - by rewrite S2, Hf, <- app_assoc.
  - cbn [map concat]. by rewrite Hb, S3, app_assoc.
  - by constructor.
  - intros [|i] q Hi; cbn in Hi.
    + injection Hi as <-. by rewrite Hq, Z.add_0_r, wrap_small.
    + rewrite (S5 i q Hi), Hn. unfold wrapping_add16, wrap.
      rewrite Zplus_mod_idemp_l. f_equal. lia.
  - exists (d :: packets). split; [exact (later_trans _ _ _ [d] _ Hw Hp1)|].
    constructor; [done|]. eapply Forall2_impl; [exact Hp2|].
    intros q e. by apply data_packet_same.
Qed.

Definition chunk_bytes (new : list InFlight) : Z := zsum (fun p => len (payload p)) new.

Lemma send_loop_spec fuel win b c w :
  (length (send_buf c) < fuel)%nat -> in_width 16 (seq_next c) ->
  wp (send_loop fuel win b) (fun r c' w' =>
    same_but_send c c' /\
    match r with
    | Ok _ => exists new, sent_chunks c w c' w' new /\
        b + chunk_bytes new <= Z.max b win /\
        (send_buf c' = [] \/ win <= b + chunk_bytes new)
    | Err e => exists i, send_result w i = Some e
    | _ => False
    end) c w.
Proof.
  revert b c w. induction fuel as [|fuel IH]; intros b c w Hf Hs; [lia|].
  cbn [send_loop]. apply wp_bind, wp_self. pose proof (len_nonneg (send_buf c)) as H0.
  destruct (Z.eqb_spec (len (send_buf c)) 0) as [Hz|Hz].
  { apply wp_ret. split; [done|]. exists []. split; [apply sent_nothing|].
    unfold chunk_bytes. change (zsum _ []) with 0. split; [lia|]. left.
    unfold len in Hz. destruct (send_buf c); [done|cbn in Hz; lia]. }
  set (n := next_chunk c win b).
  assert (Hn : n = Z.min (Z.min MAX_PAYLOAD (len (send_buf c))) (Z.max 0 (win - b))) by done.
  unfold MAX_PAYLOAD in Hn. destruct (Z.eqb_spec n 0) as [Hn0|Hn0].
  { apply wp_ret. split; [done|]. exists []. split; [apply sent_nothing|].
    unfold chunk_bytes. change (zsum _ []) with 0. split; [lia|]. right. lia. }
  apply wp_bind. eapply wp_mono; [|apply (send_chunk_spec n b c w); lia].
  intros [b1|e| |] c1 w1 [Hsame H]; try done.
  destruct H as (-> & p & d & Hw & Hd & Hfl & Hq & Hnx & Hl & Ht & Hb).
  eapply wp_mono; [|apply (IH (b + n) c1 w1)].
  - intros [u|e| |] c2 w2 [Hsame2 H2]; (split; [by eapply same_but_send_trans|]); try done.
    + destruct H2 as (new & Hnew & Hmax & Hor). exists (p :: new).
      split; [eapply sent_cons; try done; unfold MAX_PAYLOAD; lia|].
      unfold chunk_bytes in *. rewrite zsum_cons, Hl. split; [lia|].
      destruct Hor; [by left|right; lia].
    + destruct H2 as [i Hi]. exists i. destruct Hw as [_ <-]. done.
  - apply (f_equal length) in Hb. rewrite length_app in Hb. unfold len in *. lia.
  - rewrite Hnx. by apply wrap_range.
Qed.

(** ** The receiving half under the other calls *)

Definition same_receive c c' : Prop :=
  recv_window c' = recv_window c /\ recv_buf c' = recv_buf c /\ ooo c' = ooo c.

Lemma same_receive_window c c' : same_receive c c' -> window_inv c -> window_inv c'.
Proof. intros (E1 & E2 & E3). unfold window_inv, buffered. by rewrite E1, E2, E3. Qed.

Lemma same_receive_trans c1 c2 c3 :
  same_receive c1 c2 -> same_receive c2 c3 -> same_receive c1 c3.
Proof. unfold same_receive. intuition congruence. Qed.

Definition keeps_receive {A} (m : M A) : Prop :=
  forall c w, wp m (fun _ c' _ => same_receive c c') c w.

Lemma rx_bind {A B} (m : M A) (k : A -> M B) :
  keeps_receive m -> (forall a, keeps_receive (k a)) -> keeps_receive (m ≫= k).
Proof.
  intros Hm Hk c w. apply wp_bind. eapply wp_mono; [|apply Hm].
  intros [a|e| |] c' w' Hc; try done. eapply wp_mono; [|apply Hk].
  intros r c2 w2 Hc2. by eapply same_receive_trans.
Qed.

Lemma rx_self_bind {A} (k : conn -> M A) :
  (forall c w, wp (k c) (fun _ c' _ => same_receive c c') c w) -> keeps_receive (self ≫= k).
Proof. intros Hk c w. apply wp_bind, wp_self, Hk. Qed.

Lemma rx_ret {A} (a : A) : keeps_receive (mret a).
Proof. done. Qed.
Lemma rx_lift {A} (o : outcome A) : keeps_receive (lift o).
Proof. done. Qed.
Lemma rx_micros : keeps_receive now_micros.
Proof. done. Qed.
Lemma rx_instant : keeps_receive instant_now.
Proof. done. Qed.
Lemma rx_send_to a p : keeps_receive (send_to a p).
Proof. intros c w. by apply wp_send. Qed.
Hint Resolve rx_ret rx_lift rx_micros rx_instant rx_send_to : core.

Lemma rx_put_self {A} (f : conn -> conn) (k : M A) :
  (forall c, same_receive c (f c)) -> keeps_receive k ->
  forall c w, wp (_ ← put (f c); k) (fun _ c' _ => same_receive c c') c w.
Proof.
  intros Hf Hk c w. apply wp_bind, wp_put. eapply wp_mono; [|apply Hk].
  intros r c2 w2 Hc2. by eapply same_receive_trans.
Qed.

Lemma rx_send_state : keeps_receive send_state.
Proof.
  unfold send_state. apply rx_bind; [auto|intros ts].
  apply rx_self_bind. intros c w. apply rx_bind; [auto|intros es].
  apply rx_bind; auto.
Qed.
Hint Resolve rx_send_state : core.

Lemma rx_send_fin : keeps_receive send_fin.
Proof.
  unfold send_fin. apply rx_self_bind. intros c w.
  apply (rx_put_self (fun c => set_send c (wrapping_add16 (seq_next c) 1) (send_buf c)
    (in_flight c) (seq_max_sent c))); [done|].
  apply rx_bind; [auto|intros ts]. apply rx_self_bind. intros c' w'.
  apply rx_bind; [auto|intros es]. apply rx_bind; auto.
Qed.

Lemma rx_maybe_send_ack : keeps_receive maybe_send_ack.
Proof.
  unfold maybe_send_ack. apply rx_bind; [auto|intros now]. apply rx_self_bind. intros c w.
  destruct (_ >=? _); [|done]. apply rx_bind; [auto|intros []].
  apply rx_self_bind. done.
Qed.

Lemma rx_retransmit : keeps_receive retransmit.
Proof.
  unfold retransmit. apply rx_self_bind. intros c w. apply rx_bind; [auto|intros now].
  generalize 0%nat as i, (length (in_flight c)) as n. intros i n. revert i.
  induction n as [|n IH]; intros i; cbn [retransmit_loop]; [done|].
  apply rx_bind; [|auto]. unfold retransmit_one. apply rx_self_bind. intros c1 w1.
  destruct (in_flight c1 !! i) as [p|]; [|done]. destruct (_ >=? _); [|done].
  apply rx_bind; [auto|intros ts]. apply rx_self_bind. intros c2 w2.
  apply wp_bind, wp_send; [done|]. intros w3 _. apply wp_bind, wp_instant. done.
Qed.

Lemma rx_try_send c w :
  in_width 16 (seq_next c) -> wp try_send (fun _ c' _ => same_receive c c') c w.
Proof.
  intros Hs. unfold try_send. apply wp_bind, wp_self.
  destruct (_ && _ && _); [done|].
  eapply wp_mono; [|apply send_loop_spec; [lia|done]].
  by intros r c' w' [(_ & _ & _ & _ & E1 & E2 & E3 & _) _].
Qed.

Lemma handle_packet_window h p sack c w :
  window_inv c -> wp (handle_packet h p sack) (fun _ c' _ => window_inv c') c w.
Proof.
  intros Hc. unfold handle_packet. apply wp_bind, wp_self. destruct (_ && _); [done|].
  apply wp_bind, wp_put, wp_bind, wp_micros. intros ts _. apply wp_bind, wp_self, wp_bind.
  set (c1 := set_peer_window c (window_size h)).
  assert (Hc1 : window_inv c1) by done.
  apply (wp_mono _ (fun r c' _ => window_inv c' /\ match r with Ok _ => True | _ => False end)).
  2:{ destruct (negb _); [|done]. apply wp_bind, wp_instant. intros t. by apply wp_put. }
  intros [u|e| |] c2 w2 [Hc2 Hr]; try done. apply wp_bind, wp_self. destruct (typ h).
  - pose proof (handle_data_window (ack_in_flight c2 (ack_number h) sack) (seq_number h) p Hc2) as Hd.
    destruct (handle_data _ _ _) as [out c3]. by apply wp_bind, wp_put.
  - apply wp_bind, wp_put, wp_bind. eapply wp_mono; [|apply rx_send_state].
    intros r c3 w3 Hc3. assert (window_inv c3) by (eapply same_receive_window; [exact Hc3|exact Hc2]).
    by destruct r.
  - by apply wp_bind, wp_put.
  - by apply wp_bind, wp_put.
  - apply wp_bind. eapply wp_mono; [|apply rx_send_state].
    intros r c3 w3 Hc3. assert (window_inv c3) by (eapply same_receive_window; [exact Hc3|exact Hc2]).
    by destruct r.
Qed.

Lemma receive_datagram_window from bytes c w :
  window_inv c -> wp (receive_datagram from bytes) (fun _ c' _ => window_inv c') c w.
Proof.
  intros Hc. unfold receive_datagram. apply wp_bind, wp_self.
  destruct (negb _); [done|]. destruct (_ =? 0); [done|].
  destruct (decode_with_extensions bytes) as [[[h es] p]|e| |]; try done.
  destruct (sack_from_extensions es) as [sack|e| |]; try done.
  apply wp_bind, wp_instant. intros t. apply wp_bind, wp_put, wp_bind.
  eapply wp_mono; [|apply (handle_packet_window h p sack); exact Hc].
  intros [out|e| |] c1 w1 Hc1; try done. destruct out; try done.
  apply wp_bind, wp_self. destruct (_ && _); [|done]. by apply wp_bind, wp_put.
Qed.

(** Run a step that keeps the receiving half, under the window invariant. *)
Lemma window_bind {A B} (m : M A) (k : A -> M B) c w :
  window_inv c -> wp m (fun _ c' _ => same_receive c c') c w ->
  (forall a c' w', window_inv c' -> wp (k a) (fun _ c'' _ => window_inv c'') c' w') ->
  wp (m ≫= k) (fun _ c' _ => window_inv c') c w.
Proof.
  intros Hc Hm Hk. apply wp_bind. eapply wp_mono; [|exact Hm]. intros r c' w' Hs.
  cbn beta in Hs. pose proof (same_receive_window c c' Hs Hc). destruct r; auto.
Qed.

Lemma drive_window_wp incoming c w :
  window_inv c -> in_width 16 (seq_next c) ->
  wp (drive incoming) (fun _ c' _ => window_inv c') c w.
Proof.
  intros Hc Hs. unfold drive. apply wp_bind, wp_self. destruct (closed c); [done|].
  apply wp_bind, wp_instant. intros now. destruct (_ >? _); [by apply wp_bind, wp_put|].
  apply window_bind; [done|by apply rx_try_send|]. intros _ c1 w1 Hc1.
  apply window_bind; [done|apply rx_retransmit|]. intros _ c2 w2 Hc2.
  apply window_bind; [done|apply rx_maybe_send_ack|]. intros _ c3 w3 Hc3.
  apply wp_bind, wp_self. apply window_bind; [done| |].
  { destruct (_ && _ && _); [|done].
    apply rx_bind; [apply rx_send_fin|intros []]. by apply rx_self_bind. }
  intros _ c4 w4 Hc4. apply wp_bind, wp_self. destruct (_ && _ && _ && _).
  { by apply wp_bind, wp_put. }
  destruct incoming; [by apply receive_datagram_window|done|done].
Qed.

End send.

(** ** Properties *)

Section properties.
Context {SocketAddr : Type} `{EqDecision SocketAddr}.

(** One call of [try_send] either fails with an error of the socket, or cuts
    a prefix of the send buffer into packets of 1 to 1400 bytes numbered
    consecutively (modulo 2^16) from the next sequence number, puts exactly these
    in flight and on the wire in order, stays within the smaller of the
    congestion window and the window the peer advertised (what was in flight
    already apart), and stops only when the buffer is empty or that window is
    full; nothing else of the connection changes. *)
Theorem try_send_exact (c : UtpConnection (SocketAddr := SocketAddr)) (w : world)
    (Hs : in_width 16 (seq_next c)) :
  let '(r, (c', w')) := try_send (c, w) in
  let win := Z.min (cwnd (ledbat c)) (peer_window c) in
  match r with
  | Ok _ => exists new, sent_chunks c w c' w' new /\
      queued_in_flight_bytes c' <= Z.max (queued_in_flight_bytes c) win /\
      (send_buf c' = [] \/ win <= queued_in_flight_bytes c')
  | Err e => exists i, send_result w i = Some e
  | Panic | OutOfFuel => False
  end.
Proof.
  assert (Hwp : wp try_send (fun r c' w' =>
    let win := Z.min (cwnd (ledbat c)) (peer_window c) in
    match r with
    | Ok _ => exists new, sent_chunks c w c' w' new /\
        queued_in_flight_bytes c' <= Z.max (queued_in_flight_bytes c) win /\
        (send_buf c' = [] \/ win <= queued_in_flight_bytes c')
    | Err e => exists i, send_result w i = Some e
    | Panic | OutOfFuel => False
    end) c w).
  { unfold try_send. apply wp_bind, wp_self.
    destruct (local_fin_sent c && (len (send_buf c) =? 0) && (len (in_flight c) =? 0)) eqn:E.
    { apply wp_ret. exists []. split; [apply sent_nothing|]. split; [lia|]. left.
      apply andb_prop in E as [[_ E%Z.eqb_eq]%andb_prop _]. unfold len in E.
      destruct (send_buf c); [done|cbn in E; lia]. }
    eapply wp_mono; [|apply send_loop_spec; [lia|done]].
    intros [u|e| |] c' w' [Hsame H]; try done.
    destruct H as (new & Hnew & Hmax & Hor). exists new. split; [done|].
    unfold queued_in_flight_bytes in *. rewrite (sc_in_flight _ _ _ _ _ Hnew), zsum_app.
    fold (chunk_bytes new). unfold window_bytes in *. split; [lia|].
    destruct Hor; [by left|right; lia]. }
  unfold wp in Hwp. by destruct (try_send (c, w)) as [r [c' w']].
Qed.

(** A whole call of [drive], whatever datagram it receives and however the
    socket fails, keeps the buffered bytes within the receive window and the
    advertised window equal to what is left of it. *)
Theorem drive_window (c : UtpConnection (SocketAddr := SocketAddr)) (w : world)
    (incoming : recv_result) (Hc : window_inv c) (Hs : in_width 16 (seq_next c)) :
  window_inv (drive incoming (c, w)).2.1.
Proof. exact (drive_window_wp incoming c w Hc Hs). Qed.

End properties.

(** ** A closed connection that loses its last packet *)

Definition quiet_world : world (SocketAddr := nat) :=
  mkWorld 0 (fun _ => 0) (fun _ => 0) (fun _ => None) [].
Definition alice : UtpConnection (SocketAddr := nat) := ready 2%nat 11 10 2 1 100000 0 0.
Definition bob : UtpConnection (SocketAddr := nat) := ready 1%nat 10 11 2 1 100000 0 0.

Definition result_of {A} (r : outcome A * (UtpConnection (SocketAddr := nat) * world (SocketAddr := nat))) :
  option A := match r.1 with Ok a => Some a | _ => None end.
Definition conn_of {A} (r : outcome A * (UtpConnection (SocketAddr := nat) * world (SocketAddr := nat))) := r.2.1.
Definition datagrams {A} (r : outcome A * (UtpConnection (SocketAddr := nat) * world (SocketAddr := nat))) :
  list (list byte) := map snd (sent r.2.2).

Definition message : list byte := [x61; x62; x63].

(** Alice writes and closes; one [drive] sends the DATA packet and the FIN. *)
Definition alice_sent := drive TimedOut (close (write alice message).2, quiet_world).
Definition data_datagram : list byte := default [] (datagrams alice_sent !! 0%nat).
Definition fin_datagram : list byte := default [] (datagrams alice_sent !! 1%nat).
(** The DATA packet is lost; Bob gets the FIN and acknowledges it. *)
Definition bob_after_fin := drive (Datagram 1%nat fin_datagram) (bob, quiet_world).
Definition ack_datagram : list byte := default [] (datagrams bob_after_fin !! 0%nat).
Definition alice_after_ack :=
  drive (Datagram 2%nat ack_datagram) (conn_of alice_sent, quiet_world).
(** The DATA packet arrives late after all. *)
Definition bob_after_data :=
  drive (Datagram 1%nat data_datagram) (conn_of bob_after_fin, quiet_world).

(** A FIN that overtakes a lost DATA packet acknowledges it: [drive] sends
    the FIN while the packet is unacknowledged, the receiver moves its
    acknowledgement to the FIN's number, the sender drops the packet from flight,
    the receiver reports end of stream without the bytes, and refuses the packet
    when it arrives after all. *)
Theorem fin_truncates_stream :
  map payload (in_flight (conn_of alice_sent)) = [message] /\
  length (datagrams alice_sent) = 2%nat /\
  peer_fin (conn_of bob_after_fin) = true /\ recv_buf (conn_of bob_after_fin) = [] /\
  in_flight (conn_of alice_after_ack) = [] /\ send_buf (conn_of alice_after_ack) = [] /\
  recv_buf (conn_of bob_after_data) = [] /\ ooo (conn_of bob_after_data) = [].
Proof. vm_compute. repeat split. Qed.

Lemma try_send_exact_witness :
  exists new, sent_chunks (write alice message).2 quiet_world
    (conn_of (try_send ((write alice message).2, quiet_world)))
    (try_send ((write alice message).2, quiet_world)).2.2 new.
Proof.
  pose proof (try_send_exact (write alice message).2 quiet_world
    ltac:(vm_compute; split; congruence)) as H.
  destruct (try_send ((write alice message).2, quiet_world)) as [[u|e| |] [c' w']].
  - destruct H as (new & Hnew & _). exists new. exact Hnew.
  - destruct H as [i Hi]. discriminate Hi.
  - destruct H.
  - destruct H.
Defined.

Lemma drive_window_witness : window_inv (conn_of bob_after_fin).
Proof.
  apply (drive_window bob quiet_world (Datagram 1%nat fin_datagram)).
  - split; vm_compute; congruence.
  - vm_compute. split; congruence.
Defined.
