(* ===== verification/Peer.v ===== *)
(** * Peer: [crates/swarmotter-core/src/peer.rs]

    The peer wire protocol: handshakes, message frames, bitfields, the assembly
    of a piece from blocks, and the framed reader.  The byte stream a
    [PeerReader] reads from is the list of what its reads produce: segments of
    bytes, cut wherever the transport cuts them, and errors; its end is end of
    file. *)

From S2P Require Import Prelude Bits.

Local Open Scope byte_scope.
Local Open Scope Z_scope.

Definition PSTR : list byte :=
  [x42; x69; x74; x54; x6f; x72; x72; x65; x6e; x74; x20;
   x70; x72; x6f; x74; x6f; x63; x6f; x6c].
Definition RESERVED : list byte := replicate 8 x00.
Definition V2_RESERVED_BYTE_INDEX : Z := 7.
Definition V2_RESERVED_BIT : Z := 8.
Definition BLOCK_SIZE : Z := 16 * 1024.
Definition MAX_MESSAGE_LEN : Z := 4 * 1024 * 1024.

(** [reserved[i] |= bit]. *)
Definition or_byte (l : list byte) (i : Z) (bit : Z) : outcome (list byte) :=
  b ← index l i;
  Ok (<[Z.to_nat i := as_u8 (Z.lor (u8 b) bit)]> l).

Definition with_v2_support (reserved : list byte) : outcome (list byte) :=
  or_byte reserved V2_RESERVED_BYTE_INDEX V2_RESERVED_BIT.

(** ** Handshakes

    [Handshake] and [V2Handshake] have the same fields: a 20-byte identity (the
    v1 info hash, or the neutral peer identity of BEP 52), the peer id and the
    reserved bytes. *)
Record Handshake : Type := mkHandshake {
  info_hash : list byte; peer_id : list byte; reserved : list byte }.
Record V2Handshake : Type := mkV2Handshake {
  v2_info_hash : list byte; v2_peer_id : list byte; v2_reserved : list byte }.

Definition handshake_new (info_hash peer_id : list byte) : Handshake :=
  mkHandshake info_hash peer_id RESERVED.
Definition v2_handshake_new (info_hash peer_id : list byte) : outcome V2Handshake :=
  r ← with_v2_support RESERVED; Ok (mkV2Handshake info_hash peer_id r).

Definition handshake_encode (h : Handshake) : list byte :=
  as_u8 (len PSTR) :: PSTR ++ reserved h ++ info_hash h ++ peer_id h.
Definition v2_handshake_encode (h : V2Handshake) : list byte :=
  as_u8 (len PSTR) :: PSTR ++ v2_reserved h ++ v2_info_hash h ++ v2_peer_id h.

(** The protocol string is checked only when the length byte is 19. *)
Definition wrong_pstr (buf : list byte) : outcome bool :=
  pstrlen ← index buf 0;
  if negb (u8 pstrlen =? 19) then Ok true
  else pstr ← slice buf 1 20; Ok (negb (bool_decide (pstr = PSTR))).

Definition handshake_decode (buf : list byte) : outcome Handshake :=
  _ ← fail_if (len buf <? 68) (Parse "handshake too short");
  wrong ← wrong_pstr buf;
  _ ← fail_if wrong (Parse "handshake has wrong pstr");
  reserved ← slice buf 20 28;
  info ← slice buf 28 48;
  peer_id ← slice buf 48 68;
  Ok (mkHandshake info peer_id reserved).
Definition v2_handshake_decode (buf : list byte) : outcome V2Handshake :=
  _ ← fail_if (len buf <? 68) (Parse "handshake too short");
  wrong ← wrong_pstr buf;
  _ ← fail_if wrong (Parse "handshake has wrong pstr");
  reserved ← slice buf 20 28;
  info ← slice buf 28 48;
  peer_id ← slice buf 48 68;
  Ok (mkV2Handshake info peer_id reserved).

Definition has_reserved_bit (reserved : list byte) (i bit : Z) : outcome bool :=
  b ← index reserved i; Ok (negb (Z.land (u8 b) bit =? 0)).
Definition supports_extensions (h : Handshake) : outcome bool :=
  has_reserved_bit (reserved h) 5 16.
Definition supports_v2 (h : Handshake) : outcome bool :=
  has_reserved_bit (reserved h) V2_RESERVED_BYTE_INDEX V2_RESERVED_BIT.
Definition v2_supports_extensions (h : V2Handshake) : outcome bool :=
  has_reserved_bit (v2_reserved h) 5 16.
Definition v2_supports_v2 (h : V2Handshake) : outcome bool :=
  has_reserved_bit (v2_reserved h) V2_RESERVED_BYTE_INDEX V2_RESERVED_BIT.

(** ** Messages *)

Inductive MessageId : Type :=
  | IdChoke | IdUnchoke | IdInterested | IdNotInterested | IdHave | IdBitfield
  | IdRequest | IdPiece | IdCancel | IdReject | IdHashRequest | IdHashes | IdHashReject.

Definition message_id (b : Z) : option MessageId :=
  match b with
  | 0 => Some IdChoke
  | 1 => Some IdUnchoke
  | 2 => Some IdInterested
  | 3 => Some IdNotInterested
  | 4 => Some IdHave
  | 5 => Some IdBitfield
  | 6 => Some IdRequest
  | 7 => Some IdPiece
  | 8 => Some IdCancel
  | 16 => Some IdReject
  | 21 => Some IdHashRequest
  | 22 => Some IdHashes
  | 23 => Some IdHashReject
  | _ => None
  end.

(** The five fields every BEP 52 hash message starts with. *)
Record HashRange : Type := mkRange {
  pieces_root : list byte; base_layer : Z; range_index : Z; range_length : Z; proof_layers : Z }.

Inductive Message : Type :=
  | Keepalive
  | Choke
  | Unchoke
  | Interested
  | NotInterested
  | Have (piece : Z)
  | Bitfield (bits : list byte)
  | Request (piece offset length : Z)
  | Piece (piece offset : Z) (block : list byte)
  | Cancel (piece offset length : Z)
  | Reject (piece offset length : Z)
  | HashRequest (r : HashRange)
  | Hashes (r : HashRange) (hashes : list (list byte))
  | HashReject (r : HashRange)
  | Extended (id : byte) (payload : list byte)
  | Unknown (id : byte) (payload : list byte).

(** A length is cast to [u32] and added in [u32]. *)
Definition len_prefix (n : Z) (body : list byte) : list byte := to_be 4 n ++ body.
Definition concat_id_payload (id : byte) (payload : list byte) : list byte := id :: payload.
Definition as_u32 (n : Z) : Z := wrap 32 n.
Definition add_u32 (a b : Z) : Z := wrap 32 (a + b).

(** The payload shared by Request, Cancel and Reject. *)
Definition three_u32 (id : byte) (piece offset length : Z) : list byte :=
  [id] ++ to_be 4 piece ++ to_be 4 offset ++ to_be 4 length.

Definition v2_hash_message_payload (id : byte) (r : HashRange) (hashes : list (list byte))
    : list byte :=
  [id] ++ pieces_root r ++ to_be 4 (base_layer r) ++ to_be 4 (range_index r)
  ++ to_be 4 (range_length r) ++ to_be 4 (proof_layers r) ++ concat hashes.

Definition encode (m : Message) : list byte :=
  match m with
  | Keepalive => len_prefix 0 []
  | Choke => len_prefix 1 [x00]
  | Unchoke => len_prefix 1 [x01]
  | Interested => len_prefix 1 [x02]
  | NotInterested => len_prefix 1 [x03]
  | Have piece => len_prefix 5 (concat_id_payload x04 (to_be 4 piece))
  | Bitfield bits => len_prefix (add_u32 1 (as_u32 (len bits))) (concat_id_payload x05 bits)
  | Request piece offset length => len_prefix 13 (three_u32 x06 piece offset length)
  | Piece piece offset block =>
      len_prefix (add_u32 9 (as_u32 (len block)))
        ([x07] ++ to_be 4 piece ++ to_be 4 offset ++ block)
  | Cancel piece offset length => len_prefix 13 (three_u32 x08 piece offset length)
  | Reject piece offset length => len_prefix 13 (three_u32 x10 piece offset length)
  | HashRequest r => len_prefix 49 (v2_hash_message_payload x15 r [])
  | Hashes r hashes =>
      let payload := v2_hash_message_payload x16 r hashes in
      len_prefix (as_u32 (len payload)) payload
  | HashReject r => len_prefix 49 (v2_hash_message_payload x17 r [])
  | Extended id payload =>
      let p := [x14; id] ++ payload in len_prefix (as_u32 (len p)) p
  | Unknown id payload =>
      let p := [id] ++ payload in len_prefix (as_u32 (len p)) p
  end.

Definition decode_v2_hash_message_header (payload : list byte) : outcome HashRange :=
  _ ← fail_if (negb (len payload =? 48)) (Parse "BEP 52 hash message header length");
  root ← slice payload 0 32;
  base_layer ← be_at payload 32 4;
  index ← be_at payload 36 4;
  length ← be_at payload 40 4;
  proof_layers ← be_at payload 44 4;
  Ok (mkRange root base_layer index length proof_layers).

Definition is_power_of_two (x : Z) : bool := (0 <? x) && (Z.land x (x - 1) =? 0).
(** [a.is_multiple_of(b)]: of zero, only zero is. *)
Definition is_multiple_of (a b : Z) : bool := if b =? 0 then a =? 0 else a mod b =? 0.

Definition validate_v2_hash_request (index length : Z) : outcome () :=
  fail_if ((length <? 2) || negb (is_power_of_two length) || negb (is_multiple_of index length))
    (Parse "invalid BEP 52 hash request range").

(** [as_chunks::<32>().0]: the whole chunks. *)
Fixpoint chunks32 (n : nat) (l : list byte) : list (list byte) :=
  match n with O => [] | S n => take 32 l :: chunks32 n (drop 32 l) end.

(** The guarded arms of the match on the message id, in order: [None] falls
    through to the arms for id 20 and for unknown messages. *)
Definition decode_known (id : option MessageId) (payload : list byte)
    : option (outcome Message) :=
  let n := len payload in
  match id with
  | Some IdChoke => if n =? 0 then Some (Ok Choke) else None
  | Some IdUnchoke => if n =? 0 then Some (Ok Unchoke) else None
  | Some IdInterested => if n =? 0 then Some (Ok Interested) else None
  | Some IdNotInterested => if n =? 0 then Some (Ok NotInterested) else None
  | Some IdHave => if n =? 4 then Some (p ← be_at payload 0 4; Ok (Have p)) else None
  | Some IdBitfield => Some (Ok (Bitfield payload))
  | Some IdRequest =>
      if n =? 12 then
        Some (p ← be_at payload 0 4; o ← be_at payload 4 4; l ← be_at payload 8 4;
              Ok (Request p o l))
      else None
  | Some IdPiece =>
      if n >=? 8 then
        Some (p ← be_at payload 0 4; o ← be_at payload 4 4; b ← slice_from payload 8;
              Ok (Piece p o b))
      else None
  | Some IdCancel =>
      if n =? 12 then
        Some (p ← be_at payload 0 4; o ← be_at payload 4 4; l ← be_at payload 8 4;
              Ok (Cancel p o l))
      else None
  | Some IdReject =>
      if n =? 12 then
        Some (p ← be_at payload 0 4; o ← be_at payload 4 4; l ← be_at payload 8 4;
              Ok (Reject p o l))
      else None
  | Some IdHashRequest =>
      if n =? 48 then
        Some (r ← decode_v2_hash_message_header payload;
              _ ← validate_v2_hash_request (range_index r) (range_length r);
              Ok (HashRequest r))
      else None
  | Some IdHashes =>
      if (n >=? 48) && is_multiple_of (n - 48) 32 then
        Some (head ← slice payload 0 48;
              r ← decode_v2_hash_message_header head;
              _ ← validate_v2_hash_request (range_index r) (range_length r);
              tail ← slice_from payload 48;
              Ok (Hashes r (chunks32 (Z.to_nat ((n - 48) / 32)) tail)))
      else None
  | Some IdHashReject =>
      if n =? 48 then
        Some (r ← decode_v2_hash_message_header payload;
              _ ← validate_v2_hash_request (range_index r) (range_length r);
              Ok (HashReject r))
      else None
  | None => None
  end.

Definition decode_body (id : byte) (payload : list byte) : outcome Message :=
  match decode_known (message_id (u8 id)) payload with
  | Some m => m
  | None =>
      if (u8 id =? 20) && negb (len payload =? 0) then
        ext_id ← index payload 0;
        rest ← slice_from payload 1;
        Ok (Extended ext_id rest)
      else Ok (Unknown id payload)
  end.

Definition decode_frame (frame : list byte) : outcome Message :=
  _ ← fail_if (len frame <? 4) (Parse "message frame too short");
  n ← be_at frame 0 4;
  _ ← fail_if (n >? MAX_MESSAGE_LEN) (Parse "peer message too large");
  _ ← fail_if (negb (len frame =? 4 + n)) (Parse "message frame length mismatch");
  if n =? 0 then Ok Keepalive
  else
    id ← index frame 4;
    payload ← slice frame 5 (4 + n);
    decode_body id payload.

(** ** Bitfields *)

Record BitfieldBits : Type := mkBitfield { bits : list byte; piece_count : Z }.

Definition bitfield_new (piece_count : Z) : BitfieldBits :=
  mkBitfield (replicate (Z.to_nat (div_ceil piece_count 8)) x00) piece_count.

Definition bitfield_from_bytes (bits : list byte) (piece_count : Z) : outcome BitfieldBits :=
  let max_len := div_ceil piece_count 8 in
  bits ← (if len bits >? max_len then slice bits 0 max_len else Ok bits);
  Ok (mkBitfield bits piece_count).

Definition bitfield_set (f : BitfieldBits) (i : Z) : outcome BitfieldBits :=
  if i <? piece_count f then
    let byte := i / 8 in
    if byte <? len (bits f) then
      bits ← or_byte (bits f) byte (Z.shiftr 128 (i mod 8));
      Ok (mkBitfield bits (piece_count f))
    else Ok f
  else Ok f.

Definition bitfield_has (f : BitfieldBits) (i : Z) : outcome bool :=
  if i >=? piece_count f then Ok false
  else
    let byte := i / 8 in
    if byte >=? len (bits f) then Ok false
    else b ← index (bits f) byte; Ok (negb (Z.land (u8 b) (Z.shiftr 128 (i mod 8)) =? 0)).

Definition bitfield_count (f : BitfieldBits) : Z :=
  let full := piece_count f / 8 in
  let rem := piece_count f mod 8 in
  let count := zsum (fun b => count_ones (u8 b)) (take (Z.to_nat full) (bits f)) in
  if rem >? 0 then
    match get (bits f) full with
    | Some b => count + count_ones (Z.land (u8 b) (wrap 8 (Z.shiftl 255 (8 - rem))))
    | None => count
    end
  else count.

Definition encode_message (f : BitfieldBits) : Message := Bitfield (bits f).

Fixpoint filter_outcome {A} (p : A -> outcome bool) (l : list A) : outcome (list A) :=
  match l with
  | [] => Ok []
  | a :: l => b ← p a; r ← filter_outcome p l; Ok (if b : bool then a :: r else r)
  end.

Definition missing_from (f have : BitfieldBits) : outcome (list Z) :=
  filter_outcome
    (fun i => a ← bitfield_has f i;
              if a : bool then b ← bitfield_has have i; Ok (negb b) else Ok false)
    (seqZ 0 (piece_count f)).

(** ** Piece assembly *)

Definition blocks_for (piece_length : Z) : Z := div_ceil piece_length BLOCK_SIZE.

Record PieceAssembler : Type := mkAssembler {
  piece_index : Z; piece_length : Z; buf : list byte; received : list bool;
  received_count : Z }.

Definition assembler_new (piece_index piece_length : Z) : PieceAssembler :=
  mkAssembler piece_index piece_length (replicate (Z.to_nat piece_length) x00)
    (replicate (Z.to_nat (blocks_for piece_length)) false) 0.

(** [self.buf[off..end].copy_from_slice(block)]. *)
Definition copy_into (buf : list byte) (off : Z) (block : list byte) : outcome (list byte) :=
  if (0 <=? off) && (off + len block <=? len buf)
  then Ok (take (Z.to_nat off) buf ++ block ++ drop (Z.to_nat (off + len block)) buf)
  else Panic.

Definition add_block (a : PieceAssembler) (offset : Z) (block : list byte)
    : outcome (bool * PieceAssembler) :=
  _ ← fail_if (offset >=? piece_length a) (Parse "block offset out of range");
  let stop := offset + len block in
  _ ← fail_if (stop >? piece_length a) (Parse "block end exceeds piece length");
  buf ← copy_into (buf a) offset block;
  let block_index := offset / BLOCK_SIZE in
  '(received, received_count) ←
    (if block_index <? len (received a) then
       seen ← index (received a) block_index;
       if negb (seen : bool)
       then Ok (<[Z.to_nat block_index := true]> (received a), received_count a + 1)
       else Ok (received a, received_count a)
     else Ok (received a, received_count a));
  Ok (received_count =? len received,
      mkAssembler (piece_index a) (piece_length a) buf received received_count).

Definition assembler_data (a : PieceAssembler) : outcome (list byte) :=
  slice (buf a) 0 (piece_length a).

(** The [while] loop of [block_requests]; every turn moves the offset on. *)
Fixpoint block_requests_loop (fuel : nat) (piece_length offset : Z) (out : list (Z * Z))
    : outcome (list (Z * Z)) :=
  match fuel with
  | O => OutOfFuel
  | S fuel =>
      if offset <? piece_length then
        let n := Z.min BLOCK_SIZE (piece_length - offset) in
        block_requests_loop fuel piece_length (offset + n) (out ++ [(offset, n)])
      else Ok out
  end.
Definition block_requests (piece_length : Z) : outcome (list (Z * Z)) :=
  block_requests_loop (S (Z.to_nat (blocks_for piece_length))) piece_length 0 [].

(** ** The framed reader *)

(** What successive reads of the stream produce. *)
Inductive arrival : Type :=
  | Segment (bytes : list byte)
  | ReadError (unexpected_eof : bool) (e : CoreError).

(** One [read] into a buffer of [n] bytes: at most one segment. *)
Definition read (n : Z) (s : list arrival) : (list byte + bool * CoreError) * list arrival :=
  match s with
  | [] => (inl [], [])
  | Segment bs :: s =>
      if len bs <=? n then (inl bs, s)
      else (inl (take (Z.to_nat n) bs), Segment (drop (Z.to_nat n) bs) :: s)
  | ReadError eof e :: s => (inr (eof, e), s)
  end.

(** tokio's [read_exact]: end of file before [n] bytes is an error. *)
Fixpoint read_exact (fuel : nat) (n : Z) (out : list byte) (s : list arrival)
    : outcome (list byte) * list arrival :=
  match fuel with
  | O => (OutOfFuel, s)
  | S fuel =>
      if n =? 0 then (Ok out, s)
      else
        match read n s with
        | (inl [], s) => (Err (Io "early eof"), s)
        | (inl bs, s) => read_exact fuel (n - len bs) (out ++ bs) s
        | (inr (_, e), s) => (Err e, s)
        end
  end.

Definition reader_read_exact (n : Z) (s : list arrival) : outcome (list byte) * list arrival :=
  read_exact (S (Z.to_nat n)) n [] s.

Definition read_handshake (s : list arrival) : outcome Handshake * list arrival :=
  match reader_read_exact 68 s with
  | (Ok buf, s) => (handshake_decode buf, s)
  | (Err e, s) => (Err e, s)
  | (Panic, s) => (Panic, s)
  | (OutOfFuel, s) => (OutOfFuel, s)
  end.
Definition read_v2_handshake (s : list arrival) : outcome V2Handshake * list arrival :=
  match reader_read_exact 68 s with
  | (Ok buf, s) => (v2_handshake_decode buf, s)
  | (Err e, s) => (Err e, s)
  | (Panic, s) => (Panic, s)
  | (OutOfFuel, s) => (OutOfFuel, s)
  end.

(** The loop that fills the length buffer: [None] is a clean end of file. *)
Fixpoint read_length (fuel : nat) (filled : list byte) (s : list arrival)
    : outcome (option (list byte)) * list arrival :=
  match fuel with
  | O => (OutOfFuel, s)
  | S fuel =>
      match read (4 - len filled) s with
      | (inl [], s) =>
          if len filled =? 0 then (Ok None, s)
          else (Err (Parse "peer stream EOF mid-length"), s)
      | (inl bs, s) =>
          let filled := filled ++ bs in
          if len filled =? 4 then (Ok (Some filled), s) else read_length fuel filled s
      | (inr (eof, e), s) =>
          if eof && (len filled =? 0) then (Ok None, s) else (Err e, s)
      end
  end.

Definition read_message (s : list arrival) : outcome (option Message) * list arrival :=
  match read_length 4 [] s with
  | (Ok None, s) => (Ok None, s)
  | (Ok (Some len_buf), s) =>
      let n := of_be len_buf in
      if n >? MAX_MESSAGE_LEN then (Err (Parse "peer message too large"), s)
      else if n =? 0 then (Ok (Some Keepalive), s)
      else
        match reader_read_exact n s with
        | (Ok body, s) => (Some <$> decode_frame (len_buf ++ body), s)
        | (Err e, s) => (Err e, s)
        | (Panic, s) => (Panic, s)
        | (OutOfFuel, s) => (OutOfFuel, s)
        end
  | (Err e, s) => (Err e, s)
  | (Panic, s) => (Panic, s)
  | (OutOfFuel, s) => (OutOfFuel, s)
  end.

(** [write_message] and the handshake writers hand the encoding to [write_all]. *)
Definition write_message (out : list byte) (m : Message) : list byte := out ++ encode m.
Definition write_handshake (out : list byte) (h : Handshake) : list byte :=
  out ++ handshake_encode h.
Definition write_v2_handshake (out : list byte) (h : V2Handshake) : list byte :=
  out ++ v2_handshake_encode h.
