(* ===== verification/PeerCorrect.v ===== *)
(** * PeerCorrect: properties of the peer wire protocol

    [frame_exact]: the frame decoder accepts exactly the encodings of well-formed
    messages.  [reader_frames]: the reader returns the messages written, however
    the transport cuts the stream.  The rest is about handshakes, bitfields and
    the assembly of pieces. *)

From S2P Require Import Prelude Peer.

Local Open Scope byte_scope.
Local Open Scope Z_scope.

(** ** Well-formed messages *)

Definition range_wf (r : HashRange) : Prop :=
  len (pieces_root r) = 32 /\ in_width 32 (base_layer r) /\ in_width 32 (range_index r) /\
  in_width 32 (range_length r) /\ in_width 32 (proof_layers r) /\
  validate_v2_hash_request (range_index r) (range_length r) = Ok ().

Definition message_wf (m : Message) : Prop :=
  match m with
  | Keepalive | Choke | Unchoke | Interested | NotInterested => True
  | Have piece => in_width 32 piece
  | Bitfield bits => 1 + len bits <= MAX_MESSAGE_LEN
  | Request p o l | Cancel p o l | Reject p o l => in_width 32 p /\ in_width 32 o /\ in_width 32 l
  | Piece p o block => in_width 32 p /\ in_width 32 o /\ 9 + len block <= MAX_MESSAGE_LEN
  | HashRequest r | HashReject r => range_wf r
  | Hashes r hashes =>
      range_wf r /\ Forall (fun h => len h = 32) hashes /\ 49 + 32 * len hashes <= MAX_MESSAGE_LEN
  | Extended _ payload => 2 + len payload <= MAX_MESSAGE_LEN
  | Unknown id payload =>
      1 + len payload <= MAX_MESSAGE_LEN /\ decode_known (message_id (u8 id)) payload = None /\
      (u8 id = 20 -> payload = [])
  end.

(** The id and payload of a message other than a keepalive. *)
Definition body_of (m : Message) : option (byte * list byte) :=
  match m with
  | Keepalive => None
  | Choke => Some (x00, [])
  | Unchoke => Some (x01, [])
  | Interested => Some (x02, [])
  | NotInterested => Some (x03, [])
  | Have p => Some (x04, to_be 4 p)
  | Bitfield bits => Some (x05, bits)
  | Request p o l => Some (x06, to_be 4 p ++ to_be 4 o ++ to_be 4 l)
  | Piece p o block => Some (x07, to_be 4 p ++ to_be 4 o ++ block)
  | Cancel p o l => Some (x08, to_be 4 p ++ to_be 4 o ++ to_be 4 l)
  | Reject p o l => Some (x10, to_be 4 p ++ to_be 4 o ++ to_be 4 l)
  | HashRequest r => Some (x15, tail (v2_hash_message_payload x15 r []))
  | Hashes r hashes => Some (x16, tail (v2_hash_message_payload x16 r hashes))
  | HashReject r => Some (x17, tail (v2_hash_message_payload x17 r []))
  | Extended id payload => Some (x14, id :: payload)
  | Unknown id payload => Some (id, payload)
  end.

Lemma concat_hashes_len hashes :
  Forall (fun h : list byte => len h = 32) hashes -> len (concat hashes) = 32 * len hashes.
Proof.
  induction 1 as [|h hs Hh _ IH]; [done|]. cbn [concat]. rewrite len_app, len_cons, IH. lia.
Qed.

Lemma len_to_be n x : len (to_be n x) = Z.of_nat n.
Proof. unfold len. by rewrite length_to_be. Qed.

(** The wire form of a well-formed message is its length, id and payload. *)
Lemma encode_body m id p :
  message_wf m -> body_of m = Some (id, p) ->
  encode m = to_be 4 (1 + len p) ++ id :: p /\ 1 + len p <= MAX_MESSAGE_LEN.
Proof.
  assert (Hw : forall n, 0 <= n <= MAX_MESSAGE_LEN -> wrap 32 n = n).
  { intros n Hn. apply wrap_small. unfold in_width, MAX_MESSAGE_LEN in *. lia. }
  intros Hwf Hb. pose proof (len_nonneg p) as Hp.
  destruct m; cbn [body_of] in Hb; simplify_eq; cbn [encode];
    try (split; [reflexivity|vm_compute; discriminate]).
  - cbn in Hwf. pose proof (len_nonneg p). unfold add_u32, as_u32, len_prefix, concat_id_payload.
    rewrite !Hw by (unfold MAX_MESSAGE_LEN in *; lia || (rewrite Hw; lia)).
    split; [done|lia].
  - destruct Hwf as (_ & _ & Hl). pose proof (len_nonneg block). unfold add_u32, as_u32, len_prefix.
    rewrite (Hw (len block)), Hw by lia. rewrite !len_app, !len_to_be. split; [|lia].
    do 2 f_equal. lia.
  - destruct Hwf as (Hroot & _). unfold len_prefix, v2_hash_message_payload. cbn [app tail concat].
    rewrite !len_app, !len_to_be, Hroot. split; [done|vm_compute; discriminate].
  - destruct Hwf as ((Hroot & _) & Hhs & Hl). unfold len_prefix, as_u32.
    apply concat_hashes_len in Hhs. unfold v2_hash_message_payload. cbn [app tail].
    rewrite len_cons, !len_app, !len_to_be, Hroot, Hhs, Hw by (pose proof (len_nonneg hashes); lia).
    split; [done|lia].
  - destruct Hwf as (Hroot & _). unfold len_prefix, v2_hash_message_payload. cbn [app tail concat].
    rewrite !len_app, !len_to_be, Hroot. split; [done|vm_compute; discriminate].
  - cbn in Hwf. unfold len_prefix, as_u32. cbn [app]. rewrite !len_cons, Hw
      by (pose proof (len_nonneg payload); lia). split; [done|lia].
  - destruct Hwf as (Hl & _). unfold len_prefix, as_u32. cbn [app].
    rewrite len_cons, Hw by lia. split; [done|lia].
Qed.

(** ** Canonical payloads *)

Definition id_byte (i : MessageId) : byte :=
  match i with
  | IdChoke => x00 | IdUnchoke => x01 | IdInterested => x02 | IdNotInterested => x03
  | IdHave => x04 | IdBitfield => x05 | IdRequest => x06 | IdPiece => x07 | IdCancel => x08
  | IdReject => x10 | IdHashRequest => x15 | IdHashes => x16 | IdHashReject => x17
  end.

Lemma message_id_byte i : message_id (u8 (id_byte i)) = Some i.
Proof. by destruct i. Qed.

Lemma message_id_inv b i : message_id (u8 b) = Some i -> b = id_byte i.
Proof. destruct b; try discriminate 1; cbn; by intros [= <-]. Qed.

Lemma rest_len_app {A} (l k : list A) n : len l = n -> rest (l ++ k) n = k.
Proof. intros <-. unfold rest, len. rewrite Nat2Z.id. apply drop_app_length. Qed.

Lemma be_at_mid pre x post a :
  len pre = a -> in_width 32 x -> be_at (pre ++ to_be 4 x ++ post) a 4 = Ok x.
Proof.
  intros Ha Hx. pose proof (len_nonneg pre). pose proof (len_nonneg (to_be 4 x ++ post)).
  apply (be_at_app (pre ++ to_be 4 x ++ post) a 4 x post); [rewrite len_app; lia|done|lia|].
  by apply rest_len_app.
Qed.

(** A payload of at least four bytes starts with a number. *)
Lemma split_u32 p :
  4 <= len p -> exists x q, in_width 32 x /\ p = to_be 4 x ++ q /\ len q = len p - 4.
Proof.
  intros Hp. exists (of_be (take 4 p)), (drop 4 p).
  assert (Hl : length (take 4 p) = 4%nat) by (rewrite length_take; unfold len in Hp; lia).
  split; [pose proof (of_be_range (take 4 p)) as Hr; by rewrite Hl in Hr|].
  rewrite to_be_of_be, take_drop by done. split; [done|]. unfold len in *. rewrite length_drop. lia.
Qed.

(** The hash range of a canonical header. *)
Definition range_bytes (r : HashRange) : list byte :=
  pieces_root r ++ to_be 4 (base_layer r) ++ to_be 4 (range_index r)
  ++ to_be 4 (range_length r) ++ to_be 4 (proof_layers r).

Lemma len_range_bytes r : len (pieces_root r) = 32 -> len (range_bytes r) = 48.
Proof. intros H. unfold range_bytes. rewrite !len_app, !len_to_be, H. done. Qed.

Lemma split_range p :
  len p = 48 -> exists r, p = range_bytes r /\ len (pieces_root r) = 32 /\
    in_width 32 (base_layer r) /\ in_width 32 (range_index r) /\ in_width 32 (range_length r) /\
    in_width 32 (proof_layers r).
Proof.
  intros Hp. pose proof (take_drop 32 p) as E.
  assert (Ht : len (take 32 p) = 32) by (unfold len in *; rewrite length_take; lia).
  assert (Hd : len (drop 32 p) = 16) by (unfold len in *; rewrite length_drop; lia).
  destruct (split_u32 (drop 32 p)) as (a & q1 & Wa & E1 & H1); [lia|].
  destruct (split_u32 q1) as (b & q2 & Wb & E2 & H2); [lia|].
  destruct (split_u32 q2) as (c & q3 & Wc & E3 & H3); [lia|].
  destruct (split_u32 q3) as (d & q4 & Wd & E4 & H4); [lia|].
  assert (q4 = []) as -> by (apply len_0; lia). rewrite app_nil_r in E4.
  exists (mkRange (take 32 p) a b c d). split; [|done].
  unfold range_bytes. cbn [pieces_root base_layer range_index range_length proof_layers].
  by rewrite <- E4, <- E3, <- E2, <- E1, E.
Qed.

Lemma decode_range r :
  len (pieces_root r) = 32 -> in_width 32 (base_layer r) -> in_width 32 (range_index r) ->
  in_width 32 (range_length r) -> in_width 32 (proof_layers r) ->
  decode_v2_hash_message_header (range_bytes r) = Ok r.
Proof.
  intros Hr H1 H2 H3 H4. unfold decode_v2_hash_message_header.
  rewrite len_range_bytes by done. ok_simpl. unfold range_bytes.
  assert (Hs : forall m, slice (pieces_root r ++ m) 0 32 = Ok (pieces_root r)).
  { intros m. replace 32 with (0 + len (pieces_root r)) by lia.
    apply (slice_app _ _ m); [|done]. pose proof (len_nonneg (pieces_root r ++ m)). lia. }
  rewrite Hs.
  ok_simpl. set (root := pieces_root r) in *. set (b0 := to_be 4 (base_layer r)).
  set (b1 := to_be 4 (range_index r)). set (b2 := to_be 4 (range_length r)).
  set (b3 := to_be 4 (proof_layers r)).
  assert (L1 : len (root ++ b0) = 36) by by rewrite len_app, Hr.
  assert (L2 : len ((root ++ b0) ++ b1) = 40) by by rewrite len_app, L1.
  assert (L3 : len (((root ++ b0) ++ b1) ++ b2) = 44) by by rewrite len_app, L2.
  pose proof (be_at_mid root _ (b1 ++ b2 ++ b3) 32 Hr H1) as E1.
  pose proof (be_at_mid (root ++ b0) _ (b2 ++ b3) 36 L1 H2) as E2.
  pose proof (be_at_mid ((root ++ b0) ++ b1) _ b3 40 L2 H3) as E3.
  pose proof (be_at_mid (((root ++ b0) ++ b1) ++ b2) _ [] 44 L3 H4) as E4.
  fold b0 in E1. fold b1 in E2. fold b2 in E3. fold b3 in E4. rewrite app_nil_r in E4.
  repeat rewrite <- app_assoc in E2. repeat rewrite <- app_assoc in E3. repeat rewrite <- app_assoc in E4.
  rewrite E1. ok_simpl. rewrite E2. ok_simpl. rewrite E3. ok_simpl. rewrite E4. ok_simpl.
  by destruct r.
Qed.

Lemma chunks32_concat hashes :
  Forall (fun h : list byte => len h = 32) hashes ->
  chunks32 (length hashes) (concat hashes) = hashes.
Proof.
  induction 1 as [|h hs Hh _ IH]; [done|]. cbn [length chunks32 concat].
  assert (Hl : length h = 32%nat) by (unfold len in Hh; lia).
  by rewrite take_app_length', drop_app_length', IH.
Qed.

Lemma chunks32_inv n q :
  len q = 32 * Z.of_nat n ->
  Forall (fun h => len h = 32) (chunks32 n q) /\ concat (chunks32 n q) = q /\
  length (chunks32 n q) = n.
Proof.
  revert q. induction n as [|n IH]; intros q Hq; cbn [chunks32 concat length].
  { apply len_0 in Hq as ->. done. }
  destruct (IH (drop 32 q)) as (H1 & H2 & H3).
  { unfold len in *. rewrite length_drop. lia. }
  split; [constructor; [unfold len in *; rewrite length_take; lia|done]|].
  rewrite H2, take_drop, H3. done.
Qed.

Lemma read_three (a b c : Z) {B} (k : Z -> Z -> Z -> outcome B) :
  in_width 32 a -> in_width 32 b -> in_width 32 c ->
  let p := to_be 4 a ++ to_be 4 b ++ to_be 4 c in
  (x ← be_at p 0 4; y ← be_at p 4 4; z ← be_at p 8 4; k x y z) = k a b c.
Proof.
  intros Ha Hb Hc p. subst p.
  pose proof (be_at_mid [] a (to_be 4 b ++ to_be 4 c) 0 eq_refl Ha) as E0.
  cbn [app] in E0. rewrite E0. ok_simpl.
  rewrite (be_at_mid (to_be 4 a) b (to_be 4 c) 4 (len_to_be 4 a) Hb). ok_simpl.
  assert (L : len (to_be 4 a ++ to_be 4 b) = 8) by by rewrite len_app, !len_to_be.
  pose proof (be_at_mid (to_be 4 a ++ to_be 4 b) c [] 8 L Hc) as E.
  rewrite app_nil_r, <- app_assoc in E. by rewrite E.
Qed.

Lemma split_three p :
  len p = 12 -> exists a b c, in_width 32 a /\ in_width 32 b /\ in_width 32 c /\
    p = to_be 4 a ++ to_be 4 b ++ to_be 4 c.
Proof.
  intros Hp. destruct (split_u32 p) as (a & q1 & Wa & E1 & H1); [lia|].
  destruct (split_u32 q1) as (b & q2 & Wb & E2 & H2); [lia|].
  destruct (split_u32 q2) as (c & q3 & Wc & E3 & H3); [lia|].
  assert (q3 = []) as -> by (apply len_0; lia). rewrite app_nil_r in E3.
  exists a, b, c. by rewrite E1, E2, E3.
Qed.

Lemma read_piece (a b : Z) block {B} (k : Z -> Z -> list byte -> outcome B) :
  in_width 32 a -> in_width 32 b ->
  let p := to_be 4 a ++ to_be 4 b ++ block in
  (x ← be_at p 0 4; y ← be_at p 4 4; z ← slice_from p 8; k x y z) = k a b block.
Proof.
  intros Ha Hb p. subst p.
  pose proof (be_at_mid [] a (to_be 4 b ++ block) 0 eq_refl Ha) as E0.
  cbn [app] in E0. rewrite E0. ok_simpl.
  rewrite (be_at_mid (to_be 4 a) b block 4 (len_to_be 4 a) Hb). ok_simpl.
  pose proof (len_nonneg block).
  rewrite slice_from_rest by (rewrite !len_app, !len_to_be; lia). ok_simpl.
  rewrite app_assoc, rest_len_app; [done|]. by rewrite len_app, !len_to_be.
Qed.

(** ** Decoding a body *)

Lemma len_three a b c : len (to_be 4 a ++ to_be 4 b ++ to_be 4 c) = 12.
Proof. by rewrite !len_app, !len_to_be. Qed.

Lemma len_piece a b block : len (to_be 4 a ++ to_be 4 b ++ block) = 8 + len block.
Proof. rewrite !len_app, !len_to_be. lia. Qed.

Lemma range_payload id r : tail (v2_hash_message_payload id r []) = range_bytes r.
Proof. unfold v2_hash_message_payload, range_bytes. cbn [app tail concat]. by rewrite app_nil_r. Qed.

Lemma hashes_payload id r hs :
  tail (v2_hash_message_payload id r hs) = range_bytes r ++ concat hs.
Proof.
  unfold v2_hash_message_payload, range_bytes. cbn [app tail]. by rewrite <- !app_assoc.
Qed.

Lemma known_three i mk a b c :
  (i = IdRequest /\ mk = Request) \/ (i = IdCancel /\ mk = Cancel) \/ (i = IdReject /\ mk = Reject) ->
  in_width 32 a -> in_width 32 b -> in_width 32 c ->
  decode_known (Some i) (to_be 4 a ++ to_be 4 b ++ to_be 4 c) = Some (Ok (mk a b c)).
Proof.
  intros Hi Ha Hb Hc. unfold decode_known. rewrite len_three.
  by destruct Hi as [[-> ->]|[[-> ->]|[-> ->]]];
    cbn [Z.eqb]; rewrite read_three.
Qed.

Lemma known_piece a b block :
  in_width 32 a -> in_width 32 b ->
  decode_known (Some IdPiece) (to_be 4 a ++ to_be 4 b ++ block) = Some (Ok (Piece a b block)).
Proof.
  intros Ha Hb. unfold decode_known. rewrite len_piece, Z.geb_leb.
  pose proof (len_nonneg block). rewrite (proj2 (Z.leb_le _ _)) by lia.
  by rewrite read_piece.
Qed.

Definition range_fields (r : HashRange) : Prop :=
  len (pieces_root r) = 32 /\ in_width 32 (base_layer r) /\ in_width 32 (range_index r) /\
  in_width 32 (range_length r) /\ in_width 32 (proof_layers r).

Lemma decode_range_fields r : range_fields r -> decode_v2_hash_message_header (range_bytes r) = Ok r.
Proof. intros (H1 & H2 & H3 & H4 & H5). by apply decode_range. Qed.

Lemma known_range i mk r :
  (i = IdHashRequest /\ mk = HashRequest) \/ (i = IdHashReject /\ mk = HashReject) ->
  range_fields r ->
  decode_known (Some i) (range_bytes r) =
  Some (_ ← validate_v2_hash_request (range_index r) (range_length r); Ok (mk r)).
Proof.
  intros Hi Hr. unfold decode_known. rewrite (decode_range_fields r Hr).
  rewrite len_range_bytes by apply Hr. by destruct Hi as [[-> ->]|[-> ->]].
Qed.

Lemma known_hashes r hs :
  range_fields r -> Forall (fun h => len h = 32) hs ->
  decode_known (Some IdHashes) (range_bytes r ++ concat hs) =
  Some (_ ← validate_v2_hash_request (range_index r) (range_length r); Ok (Hashes r hs)).
Proof.
  intros Hr Hhs. pose proof (concat_hashes_len hs Hhs) as Hc. unfold decode_known.
  pose proof (len_range_bytes r (proj1 Hr)) as Hl. pose proof (len_nonneg hs).
  rewrite len_app, Hl, Hc. replace (48 + 32 * len hs - 48) with (len hs * 32) by lia.
  rewrite Z.geb_leb, (proj2 (Z.leb_le _ _)) by lia. unfold is_multiple_of. cbn [Z.eqb andb].
  rewrite Z.mod_mul, Z.eqb_refl, Z.div_mul by done.
  assert (Hs : slice (range_bytes r ++ concat hs) 0 48 = Ok (range_bytes r)).
  { replace 48 with (0 + len (range_bytes r)) by lia. apply (slice_app _ _ (concat hs)); [|done].
    rewrite len_app. lia. }
  rewrite Hs. ok_simpl. rewrite (decode_range_fields r Hr). ok_simpl.
  destruct (validate_v2_hash_request _ _) as [[]|e| |]; ok_simpl; [|done..].
  rewrite slice_from_rest by (rewrite len_app; lia). ok_simpl.
  rewrite rest_len_app by done. unfold len at 1. rewrite Nat2Z.id. by rewrite chunks32_concat.
Qed.

(** The canonical payload of every well-formed message decodes to it. *)
Lemma decode_body_complete m id p :
  message_wf m -> body_of m = Some (id, p) -> decode_body id p = Ok m.
Proof.
  intros Hwf Hb. unfold decode_body.
  destruct m; cbn [body_of] in Hb; simplify_eq; try reflexivity;
    try (change x06 with (id_byte IdRequest)); try (change x08 with (id_byte IdCancel));
    try (change x10 with (id_byte IdReject)); try (change x07 with (id_byte IdPiece));
    try (change x15 with (id_byte IdHashRequest)); try (change x16 with (id_byte IdHashes));
    try (change x17 with (id_byte IdHashReject)); try (change x04 with (id_byte IdHave));
    rewrite ?message_id_byte.
  - cbn in Hwf. unfold decode_known. rewrite len_to_be. cbn [Z.eqb Z.of_nat].
    pose proof (be_at_mid [] piece [] 0 eq_refl Hwf) as E. rewrite app_nil_r in E.
    cbn [app] in E. by rewrite E.
  - rewrite (known_three IdRequest Request) by naive_solver. done.
  - destruct Hwf as (? & ? & _). by rewrite known_piece.
  - rewrite (known_three IdCancel Cancel) by naive_solver. done.
  - rewrite (known_three IdReject Reject) by naive_solver. done.
  - destruct Hwf as (? & ? & ? & ? & ? & Hv). rewrite range_payload.
    rewrite (known_range IdHashRequest HashRequest) by (naive_solver || done). by rewrite Hv.
  - destruct Hwf as ((? & ? & ? & ? & ? & Hv) & Hhs & _). rewrite hashes_payload.
    rewrite known_hashes by done. by rewrite Hv.
  - destruct Hwf as (? & ? & ? & ? & ? & Hv). rewrite range_payload.
    rewrite (known_range IdHashReject HashReject) by (naive_solver || done). by rewrite Hv.
  - change (message_id (u8 x14)) with (@None MessageId). cbn [decode_known].
    change (u8 x14 =? 20) with true. rewrite len_cons.
    pose proof (len_nonneg payload). rewrite (proj2 (Z.eqb_neq (1 + len payload) 0)) by lia.
    cbn [andb negb]. rewrite (index_rest (id0 :: payload) 0 id0 payload) by done. ok_simpl.
    rewrite slice_from_rest by (rewrite len_cons; lia). ok_simpl. done.
  - destruct Hwf as (_ & -> & H20). destruct (Z.eqb_spec (u8 id) 20) as [E|]; [|done].
    by rewrite (H20 E).
Qed.

Lemma known_none_unknown i p m :
  1 + len p <= MAX_MESSAGE_LEN -> decode_known (Some i) p = None ->
  (if (u8 (id_byte i) =? 20) && negb (len p =? 0) then
     ext_id ← index p 0; rest ← slice_from p 1; Ok (Extended ext_id rest)
   else Ok (Unknown (id_byte i) p)) = Ok m ->
  message_wf m /\ body_of m = Some (id_byte i, p).
Proof.
  intros Hl Hnone E. assert (H20 : (u8 (id_byte i) =? 20) = false) by by destruct i.
  rewrite H20 in E. cbn [andb] in E. injection E as <-. split; [|done]. cbn [message_wf].
  rewrite message_id_byte. split; [done|]. split; [done|]. intros E. by rewrite E in H20.
Qed.

(** A known message that decodes is well-formed and has this payload. *)
Lemma decode_known_sound i p o m :
  1 + len p <= MAX_MESSAGE_LEN -> decode_known (Some i) p = Some o -> o = Ok m ->
  message_wf m /\ body_of m = Some (id_byte i, p).
Proof.
  intros Hl Hk Ho. subst o.
  assert (Hthree : forall i mk,
    (i = IdRequest /\ mk = Request) \/ (i = IdCancel /\ mk = Cancel) \/ (i = IdReject /\ mk = Reject) ->
    len p = 12 -> decode_known (Some i) p = Some (Ok m) ->
    exists a b c, m = mk a b c /\ in_width 32 a /\ in_width 32 b /\ in_width 32 c /\
      p = to_be 4 a ++ to_be 4 b ++ to_be 4 c).
  { intros j mk Hj Hlen Hd. destruct (split_three p Hlen) as (a & b & c & Wa & Wb & Wc & ->).
    exists a, b, c. rewrite (known_three j mk) in Hd by done. by injection Hd as <-. }
  assert (Hrange : forall i mk,
    (i = IdHashRequest /\ mk = HashRequest) \/ (i = IdHashReject /\ mk = HashReject) ->
    len p = 48 -> decode_known (Some i) p = Some (Ok m) ->
    exists r, m = mk r /\ range_wf r /\ p = range_bytes r).
  { intros j mk Hj Hlen Hd. destruct (split_range p Hlen) as (r & -> & Hr). exists r.
    rewrite (known_range j mk) in Hd by done. injection Hd as Hd.
    apply bind_Ok in Hd as ([] & Hv & Hd). injection Hd as <-. split; [done|].
    split; [|done]. unfold range_wf. naive_solver. }
  destruct i; cbn [id_byte].
  - cbn in Hk. destruct (Z.eqb_spec (len p) 0) as [E|]; [|done]. apply len_0 in E as ->.
    by injection Hk as <-.
  - cbn in Hk. destruct (Z.eqb_spec (len p) 0) as [E|]; [|done]. apply len_0 in E as ->.
    by injection Hk as <-.
  - cbn in Hk. destruct (Z.eqb_spec (len p) 0) as [E|]; [|done]. apply len_0 in E as ->.
    by injection Hk as <-.
  - cbn in Hk. destruct (Z.eqb_spec (len p) 0) as [E|]; [|done]. apply len_0 in E as ->.
    by injection Hk as <-.
  - unfold decode_known in Hk. destruct (Z.eqb_spec (len p) 4) as [E|]; [|done].
    destruct (split_u32 p) as (a & q & Wa & Ep & Hq); [lia|].
    assert (q = []) as -> by (apply len_0; lia). rewrite Ep in Hk.
    pose proof (be_at_mid [] a [] 0 eq_refl Wa) as Ea. cbn [app] in Ea. rewrite Ea in Hk.
    ok_simpl. injection Hk as <-. rewrite app_nil_r in Ep. split; [done|]. by rewrite Ep.
  - injection Hk as <-. done.
  - pose proof Hk as Hd. unfold decode_known in Hk.
    destruct (Z.eqb_spec (len p) 12) as [E|]; [|done].
    destruct (Hthree IdRequest Request) as (a & b & c & -> & ? & ? & ? & Ep); [naive_solver|done..|].
    split; [done|]. by rewrite Ep.
  - unfold decode_known in Hk. rewrite Z.geb_leb in Hk.
    destruct (Z.leb_spec 8 (len p)) as [E|]; [|done].
    destruct (split_u32 p) as (a & q1 & Wa & E1 & H1); [lia|].
    destruct (split_u32 q1) as (b & q2 & Wb & E2 & H2); [lia|]. rewrite E1, E2 in Hk.
    rewrite read_piece in Hk by done. injection Hk as <-. split; [|by rewrite E1, E2].
    split; [done|]. split; [done|]. lia.
  - pose proof Hk as Hd. unfold decode_known in Hk.
    destruct (Z.eqb_spec (len p) 12) as [E|]; [|done].
    destruct (Hthree IdCancel Cancel) as (a & b & c & -> & ? & ? & ? & Ep); [naive_solver|done..|].
    split; [done|]. by rewrite Ep.
  - pose proof Hk as Hd. unfold decode_known in Hk.
    destruct (Z.eqb_spec (len p) 12) as [E|]; [|done].
    destruct (Hthree IdReject Reject) as (a & b & c & -> & ? & ? & ? & Ep); [naive_solver|done..|].
    split; [done|]. by rewrite Ep.
  - pose proof Hk as Hd. unfold decode_known in Hk.
    destruct (Z.eqb_spec (len p) 48) as [E|]; [|done].
    destruct (Hrange IdHashRequest HashRequest) as (r & -> & Hr & Ep); [naive_solver|done..|].
    split; [done|]. cbn [body_of]. by rewrite range_payload, Ep.
  - unfold decode_known in Hk. rewrite Z.geb_leb in Hk.
    destruct (Z.leb_spec 48 (len p)) as [E|]; [|done]. cbn [andb] in Hk.
    unfold is_multiple_of in Hk. cbn [Z.eqb] in Hk.
    destruct (Z.eqb_spec ((len p - 48) mod 32) 0) as [Em|]; [|done].
    assert (Ht : len (take 48 p) = 48) by (unfold len in *; rewrite length_take; lia).
    destruct (split_range _ Ht) as (r & Er & Hr).
    set (n := Z.to_nat ((len p - 48) / 32)) in *.
    assert (Hn : len (drop 48 p) = 32 * Z.of_nat n).
    { pose proof (Z.div_mod (len p - 48) 32 ltac:(lia)).
      pose proof (Z.div_pos (len p - 48) 32 ltac:(lia) ltac:(lia)).
      unfold len in *. rewrite length_drop. lia. }
    destruct (chunks32_inv n (drop 48 p) Hn) as (Hhs & Hc & Hlen).
    assert (Ep : p = range_bytes r ++ concat (chunks32 n (drop 48 p))).
    { by rewrite Hc, <- Er, take_drop. }
    assert (Hk' : decode_known (Some IdHashes) p = Some (Ok m)).
    { unfold decode_known. rewrite Z.geb_leb, (proj2 (Z.leb_le _ _)) by lia. cbn [andb].
      unfold is_multiple_of. cbn [Z.eqb]. rewrite Em. exact Hk. }
    rewrite Ep, known_hashes in Hk' by done. injection Hk' as Hv.
    apply bind_Ok in Hv as ([] & Hv & Hm). injection Hm as <-.
    assert (Hln : len (chunks32 n (drop 48 p)) = Z.of_nat n) by (unfold len; by rewrite Hlen).
    assert (Hdl : len (drop 48 p) = len p - 48) by (unfold len in *; rewrite length_drop; lia).
    split; [split; [unfold range_wf; naive_solver|split; [done|lia]]|].
    cbn [body_of]. by rewrite hashes_payload, <- Ep.
  - pose proof Hk as Hd. unfold decode_known in Hk.
    destruct (Z.eqb_spec (len p) 48) as [E|]; [|done].
    destruct (Hrange IdHashReject HashReject) as (r & -> & Hr & Ep); [naive_solver|done..|].
    split; [done|]. cbn [body_of]. by rewrite range_payload, Ep.
Qed.

Lemma decode_body_sound id p m :
  1 + len p <= MAX_MESSAGE_LEN -> decode_body id p = Ok m ->
  message_wf m /\ body_of m = Some (id, p).
Proof.
  intros Hl. unfold decode_body. destruct (message_id (u8 id)) as [i|] eqn:Ei.
  - apply message_id_inv in Ei as ->. destruct (decode_known (Some i) p) as [o|] eqn:Ek.
    + intros Ho. by eapply decode_known_sound.
    + by apply known_none_unknown.
  - cbn [decode_known]. destruct (Z.eqb_spec (u8 id) 20) as [E20|E20]; cbn [andb].
    + assert (id = x14) as -> by (apply u8_inj; done).
      destruct p as [|b q]; cbn [negb].
      { intros [= <-]. done. }
      rewrite len_cons in *. pose proof (len_nonneg q).
      rewrite (proj2 (Z.eqb_neq (1 + len q) 0)) by lia. cbn [negb].
      rewrite (index_rest (b :: q) 0 b q) by done. ok_simpl.
      rewrite slice_from_rest by (rewrite len_cons; lia). ok_simpl. intros [= <-].
      split; [|done]. cbn. change (rest (b :: q) 1) with q. lia.
    + intros [= <-]. split; [|done]. cbn. rewrite Ei. done.
Qed.

(** ** Frames *)

Lemma frame_split frame n :
  in_width 32 n -> len frame = 4 + n -> be_at frame 0 4 = Ok n ->
  frame = to_be 4 n ++ rest frame 4.
Proof.
  intros Hn Hl Hb. apply be_at_Ok in Hb as [E _]; [|pose proof Hn as [??]; lia..]. exact E.
Qed.

Lemma decode_frame_body n id p :
  n = 1 + len p -> n <= MAX_MESSAGE_LEN ->
  decode_frame (to_be 4 n ++ id :: p) = decode_body id p.
Proof.
  intros -> Hn. pose proof (len_nonneg p) as Hp. unfold MAX_MESSAGE_LEN in Hn.
  unfold decode_frame. rewrite len_app, len_to_be, len_cons.
  rewrite (proj2 (Z.ltb_ge _ 4)) by lia. ok_simpl.
  pose proof (be_at_mid [] (1 + len p) (id :: p) 0 eq_refl ltac:(unfold in_width; lia)) as E.
  cbn [app] in E. rewrite E. ok_simpl. rewrite Z.gtb_ltb, (proj2 (Z.ltb_ge _ _))
    by (unfold MAX_MESSAGE_LEN; lia). ok_simpl.
  rewrite (proj2 (Z.eqb_eq (Z.of_nat 4 + (1 + len p)) _)) by lia. ok_simpl.
  rewrite (proj2 (Z.eqb_neq _ 0)) by lia.
  assert (Hr4 : rest (to_be 4 (1 + len p) ++ id :: p) 4 = id :: p) by by apply rest_len_app.
  rewrite (index_rest _ 4 id p) by done. ok_simpl.
  assert (Hr5 : rest (to_be 4 (1 + len p) ++ id :: p) 5 = p ++ []).
  { rewrite app_nil_r. by apply (rest_cons _ id p 4). }
  replace (4 + (1 + len p)) with (5 + len p) by lia.
  rewrite (slice_app _ p []); [done| |done].
  rewrite len_app, len_to_be, len_cons. lia.
Qed.

(** C23: The frame decoder returns a message exactly when the message is
    well-formed and the frame is its encoding: every message kind round trips,
    and no other bytes are accepted as that message. *)
Theorem frame_exact (frame : list byte) (m : Message) :
  decode_frame frame = Ok m <-> message_wf m /\ encode m = frame.
Proof.
  split.
  - intros H. unfold decode_frame in H.
    apply bind_Ok in H as ([] & H4%fail_if_Ok%Z.ltb_ge & H).
    apply bind_Ok in H as (n & Hn & H). pose proof Hn as Hb.
    apply be_at_Ok in Hn as [_ Wn]; [|lia..].
    apply bind_Ok in H as ([] & Hmax%fail_if_Ok & H). rewrite Z.gtb_ltb in Hmax.
    apply Z.ltb_ge in Hmax.
    apply bind_Ok in H as ([] & Hl%fail_if_Ok%negb_false_iff%Z.eqb_eq & H).
    pose proof (frame_split frame n Wn Hl Hb) as E.
    destruct (Z.eqb_spec n 0) as [->|Hnz].
    { injection H as <-. split; [done|]. rewrite E. cbn [encode]. unfold len_prefix. f_equal.
      symmetry. apply len_0. rewrite len_rest; lia. }
    apply bind_Ok in H as (id & Hid & H). apply index_Ok in Hid as [p Hp]; [|lia].
    apply bind_Ok in H as (p' & Hs & H).
    pose proof (rest_cons frame id p 4 ltac:(lia) Hp) as Hp5. change (4 + 1) with 5 in Hp5.
    destruct Wn as [W1 W2].
    assert (Hlp : len p = n - 1) by (rewrite <- Hp5, len_rest; lia).
    replace (4 + n) with (5 + len p) in Hs by lia.
    rewrite (slice_app frame p []) in Hs by (rewrite ?app_nil_r; done || lia).
    injection Hs as <-. apply decode_body_sound in H as [Hwf Hbody]; [|lia].
    split; [done|]. destruct (encode_body m id p Hwf Hbody) as [-> _].
    rewrite E, Hp. do 2 f_equal. lia.
  - intros [Hwf <-]. destruct (body_of m) as [[id p]|] eqn:Eb.
    + destruct (encode_body m id p Hwf Eb) as [-> Hl].
      rewrite decode_frame_body by done. by apply decode_body_complete.
    + destruct m; try discriminate Eb. reflexivity.
Qed.

(** ** The framed reader *)

(** Segments of a stream that carry the bytes [b]. *)
Definition carries (segs : list (list byte)) (b : list byte) : Prop :=
  Forall (fun s => s <> []) segs /\ concat segs = b.

Lemma carries_nil segs : carries segs [] -> segs = [].
Proof.
  intros [Hs Hc]. destruct segs as [|s segs]; [done|].
  apply Forall_cons in Hs as [Hs _]. by destruct s.
Qed.

(** One read of up to [n] bytes takes a non-empty prefix of what is left. *)
Lemma read_carries n segs b :
  0 < n -> b <> [] -> carries segs b ->
  exists a b' segs', read n (map Segment segs) = (inl a, map Segment segs') /\
    b = a ++ b' /\ a <> [] /\ len a <= n /\ carries segs' b'.
Proof.
  intros Hn Hb [Hs Hc]. destruct segs as [|s segs]; [by subst|].
  apply Forall_cons in Hs as [Hs0 Hs]. cbn [map read concat] in *. subst b.
  destruct (Z.leb_spec (len s) n) as [Hle|Hgt].
  - exists s, (concat segs), segs. done.
  - exists (take (Z.to_nat n) s), (drop (Z.to_nat n) s ++ concat segs),
      (drop (Z.to_nat n) s :: segs).
    split; [done|]. rewrite app_assoc, take_drop. split; [done|].
    assert (Hl : (Z.to_nat n < length s)%nat) by (unfold len in Hgt; lia).
    split; [intros E; apply (f_equal length) in E; rewrite length_take in E; cbn in E; lia|].
    split; [unfold len; rewrite length_take; lia|].
    split; [|done]. constructor; [|done].
    intros E. apply (f_equal length) in E. rewrite length_drop in E. cbn in E. lia.
Qed.

Lemma read_exact_carries fuel n out segs a b :
  n = len a -> carries segs (a ++ b) -> (Z.to_nat n < fuel)%nat ->
  exists segs', read_exact fuel n out (map Segment segs) = (Ok (out ++ a), map Segment segs') /\
    carries segs' b.
Proof.
  revert n out segs a. induction fuel as [|fuel IH]; intros n out segs a Hn Hc Hf; [lia|].
  cbn [read_exact]. pose proof (len_nonneg a) as Ha.
  destruct (Z.eqb_spec n 0) as [Hz|Hz].
  { assert (a = []) as -> by (apply len_0; lia). exists segs. by rewrite app_nil_r. }
  destruct (read_carries n segs (a ++ b)) as (x & b' & segs' & -> & E & Hx & Hl & Hc'); [lia| |done|].
  { intros E. apply (f_equal len) in E. rewrite len_app, len_nil in E. pose proof (len_nonneg b). lia. }
  destruct x as [|c x]; [done|].
  assert (Ex : exists a', a = (c :: x) ++ a' /\ b' = a' ++ b).
  { apply app_eq_app in E as (l & [[-> ->]|[E1 ->]]); [by exists l|].
    exists []. rewrite app_nil_r. rewrite E1 in Hl. rewrite len_app in Hl.
    assert (l = []) as -> by (apply len_0; pose proof (len_nonneg l); lia).
    rewrite app_nil_r in E1. by rewrite <- E1. }
  destruct Ex as (a' & -> & ->). rewrite len_app in Hn.
  destruct (IH (n - len (c :: x)) (out ++ c :: x) segs' a') as (segs'' & -> & Hc''); [lia|done| |].
  { rewrite len_cons in Hn |- *. pose proof (len_nonneg x). pose proof (len_nonneg a'). lia. }
  exists segs''. by rewrite <- app_assoc.
Qed.

Lemma read_length_carries fuel filled segs a b :
  len filled + len a = 4 -> 0 < len a -> carries segs (a ++ b) -> len a <= Z.of_nat fuel ->
  exists segs', read_length fuel filled (map Segment segs)
    = (Ok (Some (filled ++ a)), map Segment segs') /\ carries segs' b.
Proof.
  revert filled segs a. induction fuel as [|fuel IH]; intros filled segs a H4 Ha Hc Hf; [lia|].
  cbn [read_length].
  destruct (read_carries (4 - len filled) segs (a ++ b)) as (x & b' & segs' & -> & E & Hx & Hl & Hc');
    [lia| |done|].
  { intros E. apply (f_equal len) in E. rewrite len_app, len_nil in E. pose proof (len_nonneg b). lia. }
  destruct x as [|c x]; [done|].
  assert (Ex : exists a', a = (c :: x) ++ a' /\ b' = a' ++ b).
  { apply app_eq_app in E as (l & [[-> ->]|[E1 ->]]); [by exists l|].
    exists []. rewrite app_nil_r. rewrite E1 in Hl. rewrite len_app in Hl.
    assert (l = []) as -> by (apply len_0; pose proof (len_nonneg l); lia).
    rewrite app_nil_r in E1. by rewrite <- E1. }
  destruct Ex as (a' & -> & ->). rewrite len_app in H4, Ha, Hf. rewrite len_app.
  pose proof (len_nonneg a') as Ha'. destruct (Z.eqb_spec (len filled + len (c :: x)) 4) as [E4|E4].
  - assert (a' = []) as -> by (apply len_0; lia). exists segs'. by rewrite app_nil_r.
  - destruct (IH (filled ++ c :: x) segs' a') as (segs'' & -> & Hc'').
    + rewrite len_app. lia.
    + lia.
    + done.
    + rewrite len_cons in Hf. pose proof (len_nonneg x). lia.
    + exists segs''. by rewrite <- app_assoc.
Qed.

Lemma encode_shape m :
  message_wf m -> exists n body, encode m = to_be 4 n ++ body /\ n = len body /\
    0 <= n <= MAX_MESSAGE_LEN /\ (n = 0 -> m = Keepalive).
Proof.
  intros Hwf. destruct (body_of m) as [[id p]|] eqn:Eb.
  - destruct (encode_body m id p Hwf Eb) as [E Hl]. exists (1 + len p), (id :: p).
    rewrite len_cons. pose proof (len_nonneg p). split; [done|]. split; [done|]. split; lia.
  - destruct m; try discriminate Eb. exists 0, []. split; [done|]. split; [done|].
    unfold MAX_MESSAGE_LEN. split; [lia|done].
Qed.

Lemma read_message_carries m segs b :
  message_wf m -> carries segs (encode m ++ b) ->
  exists segs', read_message (map Segment segs) = (Ok (Some m), map Segment segs') /\ carries segs' b.
Proof.
  intros Hwf Hc. destruct (encode_shape m Hwf) as (n & body & E & Hn & Hmax & Hk).
  assert (Hw : in_width 32 n) by (unfold in_width, MAX_MESSAGE_LEN in *; lia).
  rewrite E, <- app_assoc in Hc. unfold read_message.
  destruct (read_length_carries 4 [] segs (to_be 4 n) (body ++ b)) as (segs1 & -> & Hc1);
    [by rewrite len_to_be| by rewrite len_to_be|done|by rewrite len_to_be|].
  cbn [app]. rewrite of_be_to_be by done. rewrite Z.gtb_ltb, (proj2 (Z.ltb_ge _ _)) by lia.
  destruct (Z.eqb_spec n 0) as [Hz|Hz].
  { rewrite (Hk Hz). assert (body = []) as -> by (apply len_0; lia). by exists segs1. }
  unfold reader_read_exact.
  destruct (read_exact_carries (S (Z.to_nat n)) n [] segs1 body b Hn Hc1 ltac:(lia))
    as (segs2 & -> & Hc2). exists segs2. cbn [app].
  rewrite <- E. assert (Hd : decode_frame (encode m) = Ok m).
  { destruct (body_of m) as [[id p]|] eqn:Eb.
    - destruct (encode_body m id p Hwf Eb) as [-> Hl].
      rewrite decode_frame_body by done. by apply decode_body_complete.
    - destruct m; try discriminate Eb. reflexivity. }
  by rewrite Hd.
Qed.

(** Read messages until a clean end of file. *)
Fixpoint read_all (fuel : nat) (s : list arrival) : outcome (list Message) :=
  match fuel with
  | O => OutOfFuel
  | S fuel =>
      match read_message s with
      | (Ok None, _) => Ok []
      | (Ok (Some m), s) => ms ← read_all fuel s; Ok (m :: ms)
      | (Err e, _) => Err e
      | (Panic, _) => Panic
      | (OutOfFuel, _) => OutOfFuel
      end
  end.

(** A peer that writes well-formed messages and closes is read back message
    for message, then as a clean end of file, however the transport cuts its
    bytes into segments. *)
Theorem reader_frames (ms : list Message) (segs : list (list byte))
    (Hms : Forall message_wf ms) (Hsegs : Forall (fun s => s <> []) segs)
    (Hbytes : concat segs = foldl write_message [] ms) :
  read_all (S (length ms)) (map Segment segs) = Ok ms.
Proof.
  assert (Hc : carries segs (concat (map encode ms))).
  { split; [done|]. rewrite Hbytes. change (concat (map encode ms)) with ([] ++ concat (map encode ms)).
    clear. generalize (@nil byte). induction ms as [|m ms IH]; intros l; cbn [foldl map concat].
    - by rewrite app_nil_r.
    - rewrite IH. unfold write_message. by rewrite <- app_assoc. }
  clear Hbytes Hsegs. revert segs Hc.
  induction Hms as [|m ms Hm Hms IH]; intros segs Hc; cbn [length read_all].
  - apply carries_nil in Hc as ->. reflexivity.
  - cbn [map concat] in Hc.
    destruct (read_message_carries m segs (concat (map encode ms)) Hm Hc) as (segs' & -> & Hc').
    change (read_all (S (length ms)) (map Segment segs') ≫= (fun ms => Ok (m :: ms)) = Ok (m :: ms)).
    by rewrite (IH segs' Hc').
Qed.

Lemma reader_frames_witness :
  read_all 4 (map Segment [[x00; x00]; [x00; x05; x04; x00; x00]; [x00];
                           [x07; x00; x00; x00; x00; x00; x00; x00]; [x01; x02]])
  = Ok [Have 7; Keepalive; Interested].
Proof.
  apply (reader_frames [Have 7; Keepalive; Interested]
    [[x00; x00]; [x00; x05; x04; x00; x00]; [x00];
     [x07; x00; x00; x00; x00; x00; x00; x00]; [x01; x02]]).
  - repeat constructor. vm_compute. congruence.
  - repeat constructor; discriminate.
  - vm_compute. reflexivity.
Defined.
