(* ===== verification/PieceCorrect.v ===== *)
(** * PieceCorrect: bitfields, piece assembly and handshakes of [peer.rs]

    [assembly_correct]: a piece fed the blocks [block_requests] asks for, in any
    order and with repetitions, reports completion exactly when no block is
    missing and then holds the piece.  [bitfield_tracks]: a bitfield is the set of
    the indices put into it. *)

From S2P Require Import Prelude Bits Peer.

Local Open Scope byte_scope.
Local Open Scope Z_scope.

(** ** Block requests *)

(** Block [i] of a piece of length [n]: its offset and length. *)
Definition block_at (n i : Z) : Z * Z := (i * BLOCK_SIZE, Z.min BLOCK_SIZE (n - i * BLOCK_SIZE)).

Lemma blocks_for_bound n i : 0 <= i < blocks_for n -> i * BLOCK_SIZE < n.
Proof.
  unfold blocks_for, div_ceil, BLOCK_SIZE. intros Hi.
  pose proof (Z.mul_div_le (n + 16 * 1024 - 1) (16 * 1024) ltac:(lia)). nia.
Qed.

Lemma blocks_for_index n k : 0 <= k < n -> 0 <= k / BLOCK_SIZE < blocks_for n.
Proof.
  unfold blocks_for, div_ceil, BLOCK_SIZE. intros Hk. split; [apply Z.div_pos; lia|].
  assert (k / (16 * 1024) + 1 <= (n + 16 * 1024 - 1) / (16 * 1024)); [|lia].
  apply Z.div_le_lower_bound; [lia|]. pose proof (Z.mul_div_le k (16 * 1024) ltac:(lia)). lia.
Qed.

Lemma blocks_for_nonneg n : 0 <= n -> 0 <= blocks_for n.
Proof. intros. unfold blocks_for, div_ceil, BLOCK_SIZE. apply Z.div_pos; lia. Qed.

Lemma block_requests_loop_spec m fuel n i out :
  0 <= n -> 0 <= i -> i + Z.of_nat m = blocks_for n -> (m < fuel)%nat ->
  block_requests_loop fuel n (Z.min n (i * BLOCK_SIZE)) out
  = Ok (out ++ map (block_at n) (seqZ i (Z.of_nat m))).
Proof.
  revert fuel i out. induction m as [|m IH]; intros fuel i out Hn Hi Hm Hf;
    (destruct fuel as [|fuel]; [lia|]); cbn [block_requests_loop].
  - assert (Hge : n <= i * BLOCK_SIZE).
    { destruct (Z.le_gt_cases n (i * BLOCK_SIZE)) as [|Hlt]; [done|].
      pose proof (blocks_for_index n (i * BLOCK_SIZE) ltac:(unfold BLOCK_SIZE in *; lia)) as Hb.
      rewrite Z.div_mul in Hb by done. unfold BLOCK_SIZE in *. lia. }
    rewrite Z.min_l, Z.ltb_irrefl by done. by rewrite app_nil_r.
  - pose proof (blocks_for_bound n i ltac:(lia)) as Hlt.
    rewrite Z.min_r, (proj2 (Z.ltb_lt _ _)) by lia.
    replace (i * BLOCK_SIZE + Z.min BLOCK_SIZE (n - i * BLOCK_SIZE))
      with (Z.min n ((i + 1) * BLOCK_SIZE)) by lia.
    rewrite IH by lia. rewrite <- app_assoc. do 2 f_equal. cbn [app].
    rewrite Nat2Z.inj_succ, (seqZ_cons i), Z.pred_succ by lia. done.
Qed.

Lemma block_requests_spec n :
  0 <= n -> block_requests n = Ok (map (block_at n) (seqZ 0 (blocks_for n))).
Proof.
  intros Hn. pose proof (blocks_for_nonneg n Hn). unfold block_requests.
  pose proof (block_requests_loop_spec (Z.to_nat (blocks_for n)) (S (Z.to_nat (blocks_for n))) n 0 [])
    as E.
  rewrite Z.mul_0_l, Z.min_r in E by lia. rewrite E by lia. rewrite Z2Nat.id by lia. done.
Qed.

(** ** Feeding a piece *)

(** The bytes of block [i] of the piece [data]. *)
Definition block_bytes (data : list byte) (i : Z) : list byte :=
  take (Z.to_nat (block_at (len data) i).2) (drop (Z.to_nat (block_at (len data) i).1) data).

Definition feed (a : PieceAssembler) (data : list byte) (i : Z) : outcome (bool * PieceAssembler) :=
  add_block a (block_at (len data) i).1 (block_bytes data i).

(** Feed blocks in order; the answers of [add_block] and the final state. *)
Fixpoint feed_all (a : PieceAssembler) (data : list byte) (ks : list Z)
    : outcome (list bool * PieceAssembler) :=
  match ks with
  | [] => Ok ([], a)
  | i :: ks =>
      '(r, a) ← feed a data i;
      '(rs, a) ← feed_all a data ks;
      Ok (r :: rs, a)
  end.

Definition count_true (l : list bool) : Z := zsum (fun b : bool => if b then 1 else 0) l.

Lemma count_true_le l : 0 <= count_true l <= len l.
Proof.
  unfold count_true. induction l as [|b l IH]; [done|]. rewrite zsum_cons, len_cons.
  destruct b; lia.
Qed.

Lemma count_true_all l : count_true l = len l <-> forall i b, l !! i = Some b -> b = true.
Proof.
  unfold count_true. induction l as [|b l IH]; [done|]. rewrite zsum_cons, len_cons.
  pose proof (count_true_le l) as Hle. unfold count_true in Hle. split.
  - intros E. assert (b = true) as -> by (destruct b; [done|lia]).
    intros [|i] c Hc; [by injection Hc|]. apply (proj1 IH ltac:(lia) i c Hc).
  - intros Hall. assert (b = true) as -> by apply (Hall 0%nat b eq_refl).
    rewrite (proj2 IH); [lia|]. intros i c Hc. by apply (Hall (S i)).
Qed.

Lemma count_true_insert l i :
  l !! i = Some false -> count_true (<[i := true]> l) = count_true l + 1.
Proof. intros Hi. unfold count_true. rewrite (zsum_insert _ _ _ false) by done. lia. Qed.

(** What the assembler holds after the blocks [ks]. *)
Record assembled (a : PieceAssembler) (data : list byte) (ks : list Z) : Prop := {
  as_length : piece_length a = len data;
  as_buf : len (buf a) = len data;
  as_received : len (received a) = blocks_for (len data);
  as_seen : forall i, 0 <= i < blocks_for (len data) ->
    received a !! Z.to_nat i = Some (bool_decide (i ∈ ks));
  as_count : received_count a = count_true (received a);
  as_bytes : forall k, (k < length data)%nat -> Z.of_nat k / BLOCK_SIZE ∈ ks ->
    buf a !! k = data !! k }.

Lemma assembler_new_spec j data : assembled (assembler_new j (len data)) data [].
Proof.
  pose proof (len_nonneg data) as H0. pose proof (blocks_for_nonneg (len data) H0) as Hb.
  split; cbn [assembler_new piece_length buf received received_count].
  - done.
  - unfold len. rewrite length_replicate. lia.
  - unfold len at 1. rewrite length_replicate. lia.
  - intros i Hi. by rewrite lookup_replicate_2 by lia.
  - unfold count_true. symmetry. generalize (Z.to_nat (blocks_for (len data))). intros n.
    induction n as [|n IH]; [done|]. cbn [replicate]. rewrite zsum_cons, IH. done.
  - set_solver.
Qed.

Lemma copy_into_lookup buf off block buf' k :
  0 <= off -> copy_into buf off block = Ok buf' ->
  len buf' = len buf /\
  buf' !! k = if decide (Z.to_nat off <= k < Z.to_nat off + length block)%nat
              then block !! (k - Z.to_nat off)%nat else buf !! k.
Proof.
  intros Hoff. unfold copy_into. destruct (_ && _) eqn:E; [|done]. intros [= <-].
  apply andb_prop in E as [_ E%Z.leb_le].
  assert (Ht : length (take (Z.to_nat off) buf) = Z.to_nat off)
    by (rewrite length_take; unfold len in E; lia).
  split.
  - unfold len in *. rewrite !length_app, Ht, length_drop. lia.
  - destruct (decide (k < Z.to_nat off)%nat) as [Hk|Hk].
    { rewrite lookup_app_l by lia. rewrite decide_False by lia. by apply lookup_take_lt. }
    rewrite lookup_app_r, Ht by lia. case_decide as Hin.
    + by rewrite lookup_app_l by lia.
    + rewrite lookup_app_r by lia. rewrite lookup_drop. f_equal. unfold len. lia.
Qed.

Lemma block_bytes_len data i :
  0 <= i < blocks_for (len data) -> len (block_bytes data i) = (block_at (len data) i).2.
Proof.
  intros Hi. pose proof (blocks_for_bound (len data) i Hi) as Hlt.
  unfold block_bytes, block_at, len in *. cbn [fst snd]. rewrite length_take, length_drop.
  unfold BLOCK_SIZE in *. lia.
Qed.

Lemma div_block_iff i k n :
  0 <= i -> 0 <= k < n ->
  k / BLOCK_SIZE = i <-> i * BLOCK_SIZE <= k < i * BLOCK_SIZE + (block_at n i).2.
Proof.
  intros Hi Hk. unfold block_at. cbn [snd]. unfold BLOCK_SIZE.
  pose proof (Z.div_mod k (16 * 1024) ltac:(lia)) as E.
  pose proof (Z.mod_pos_bound k (16 * 1024) ltac:(lia)) as B. split.
  - intros <-. lia.
  - intros H. symmetry. apply (Z.div_unique_pos k (16 * 1024) i (k - i * (16 * 1024))); lia.
Qed.

Lemma feed_spec a data ks i :
  assembled a data ks -> 0 <= i < blocks_for (len data) ->
  exists r a', feed a data i = Ok (r, a') /\ assembled a' data (i :: ks) /\
    (r = true <-> forall j, 0 <= j < blocks_for (len data) -> j ∈ i :: ks).
Proof.
  intros [H1 H2 H3 H4 H5 H6] Hi. pose proof (blocks_for_bound (len data) i Hi) as Hlt.
  pose proof (block_bytes_len data i Hi) as Hbl.
  assert (Ho : 0 <= i * BLOCK_SIZE) by (unfold BLOCK_SIZE; lia).
  assert (Hfit : i * BLOCK_SIZE + (block_at (len data) i).2 <= len data)
    by (unfold block_at; cbn; lia).
  unfold feed, add_block. cbn [block_at fst]. rewrite H1.
  rewrite Z.geb_leb, (proj2 (Z.leb_gt _ _)) by lia. ok_simpl.
  rewrite Hbl, Z.gtb_ltb, (proj2 (Z.ltb_ge (len data) _)) by lia. ok_simpl.
  destruct (copy_into (buf a) (i * BLOCK_SIZE) (block_bytes data i)) as [buf'|e| |] eqn:Ec;
    try (exfalso; unfold copy_into in Ec; rewrite H2, Hbl in Ec;
         rewrite (proj2 (Z.leb_le _ _) Ho), (proj2 (Z.leb_le _ _) Hfit) in Ec; discriminate Ec).
  ok_simpl. rewrite Z.div_mul by done. rewrite H3, (proj2 (Z.ltb_lt _ _)) by lia.
  assert (Hidx : index (received a) i = Ok (bool_decide (i ∈ ks))).
  { unfold index, get. rewrite (proj2 (Z.ltb_ge _ _)) by lia. by rewrite H4. }
  rewrite Hidx. ok_simpl.
  set (rec := if negb (bool_decide (i ∈ ks)) then <[Z.to_nat i := true]> (received a) else received a).
  set (cnt := count_true rec).
  assert (Hpair : (if negb (bool_decide (i ∈ ks))
    then Ok (<[Z.to_nat i:=true]> (received a), received_count a + 1)
    else Ok (received a, received_count a)) = Ok (rec, cnt)).
  { subst cnt rec. rewrite H5. destruct (bool_decide (i ∈ ks)) eqn:Eb; cbn [negb]; [done|].
    by rewrite count_true_insert by by rewrite H4, Eb. }
  rewrite Hpair. ok_simpl.
  assert (Hrl : len rec = blocks_for (len data)).
  { subst rec. destruct (negb _); [|done]. unfold len. rewrite length_insert. exact H3. }
  assert (Hrec : forall j, 0 <= j < blocks_for (len data) ->
    rec !! Z.to_nat j = Some (bool_decide (j ∈ i :: ks))).
  { intros j Hj. destruct (decide (j = i)) as [->|Hne].
    - rewrite (bool_decide_true (i ∈ i :: ks)) by set_solver. subst rec.
      destruct (bool_decide (i ∈ ks)) eqn:Eb; cbn [negb]; [by rewrite H4, Eb|].
      apply list_lookup_insert_eq. unfold len in *. lia.
    - rewrite (bool_decide_ext (j ∈ i :: ks) (j ∈ ks)) by set_solver. subst rec.
      destruct (negb _); [rewrite list_lookup_insert_ne by lia|]; by apply H4. }
  exists (cnt =? len rec), (mkAssembler (piece_index a) (len data) buf' rec cnt).
  split; [done|]. split.
  - split; cbn; try done.
    + destruct (copy_into_lookup _ _ _ _ 0 Ho Ec) as [-> _]. done.
    + intros k Hk Hin. destruct (copy_into_lookup _ _ _ _ k Ho Ec) as [_ ->].
      pose proof (div_block_iff i (Z.of_nat k) (len data) ltac:(lia) ltac:(unfold len; lia)) as Hd.
      assert (Hl : length (block_bytes data i) = Z.to_nat (block_at (len data) i).2)
        by (pose proof Hbl as Hbl'; unfold len at 1 in Hbl'; lia).
      rewrite Hl.
      destruct (decide (Z.to_nat (i * BLOCK_SIZE) <= k <
        Z.to_nat (i * BLOCK_SIZE) + Z.to_nat (block_at (len data) i).2)%nat) as [Hk'|Hk'].
      * unfold block_bytes, block_at in *. cbn [fst snd] in *. rewrite lookup_take_lt by lia.
        rewrite lookup_drop. f_equal. lia.
      * apply H6; [done|]. apply elem_of_cons in Hin as [Hin|]; [|done].
        apply Hd in Hin. lia.
  - rewrite Z.eqb_eq. subst cnt. rewrite count_true_all. split.
    + intros Hall j Hj. specialize (Hall _ _ (Hrec j Hj)).
      by apply bool_decide_eq_true in Hall.
    + intros Hall j b Hb. assert (Hj : 0 <= Z.of_nat j < blocks_for (len data)).
      { apply lookup_lt_Some in Hb. unfold len at 1 in Hrl. lia. }
      specialize (Hrec _ Hj). rewrite Nat2Z.id, Hb in Hrec. injection Hrec as ->.
      apply bool_decide_eq_true. by apply Hall.
Qed.

Lemma feed_all_spec a data ks js :
  assembled a data ks -> (forall j, j ∈ js -> 0 <= j < blocks_for (len data)) ->
  exists rs a', feed_all a data js = Ok (rs, a') /\ assembled a' data (rev js ++ ks) /\
    length rs = length js /\
    (forall n, rs !! n = Some true <->
       (n < length js)%nat /\
       forall j, 0 <= j < blocks_for (len data) -> j ∈ ks \/ j ∈ take (S n) js).
Proof.
  revert a ks. induction js as [|i js IH]; intros a ks Ha Hjs; cbn [feed_all].
  { exists [], a. split; [done|]. split; [done|]. split; [done|].
    intros n. split; [done|]. intros [Hn _]. cbn in Hn. lia. }
  destruct (feed_spec a data ks i Ha) as (r & a1 & -> & Ha1 & Hr); [apply Hjs; set_solver|].
  ok_simpl. destruct (IH a1 (i :: ks) Ha1) as (rs & a2 & -> & Ha2 & Hl & Hrs); [set_solver|].
  ok_simpl. exists (r :: rs), a2. split; [done|]. cbn [rev length].
  split; [by rewrite <- app_assoc|]. split; [lia|].
  intros [|n].
  - cbn. split.
    + intros [= ->]. split; [lia|]. intros j Hj. pose proof (proj1 Hr eq_refl j Hj). set_solver.
    + intros [_ H]. f_equal. apply Hr. intros j Hj. specialize (H j Hj). set_solver.
  - cbn [lookup list_lookup]. change (rs !! n = Some true <->
      (S n < S (length js))%nat /\ forall j, 0 <= j < blocks_for (len data) ->
        j ∈ ks \/ j ∈ i :: take (S n) js).
    rewrite Hrs. split; intros [H1 H2]; (split; [lia|]); intros j Hj; specialize (H2 j Hj); set_solver.
Qed.

(** C35: For a piece of any length the requests are its blocks in order: 16 KiB
    each but the last, without gap or overlap, covering it exactly.  Fed any
    sequence of them (any order, repetitions), the assembler never fails, answers
    "complete" after exactly those blocks by which every requested block has come,
    and when the last answer is "complete" its data is the piece. *)
Theorem assembly_correct (j : Z) (data : list byte) (js : list Z)
    (Hjs : forall i, i ∈ js -> 0 <= i < blocks_for (len data)) :
  block_requests (len data) = Ok (map (block_at (len data)) (seqZ 0 (blocks_for (len data)))) /\
  concat (map (block_bytes data) (seqZ 0 (blocks_for (len data)))) = data /\
  exists rs a, feed_all (assembler_new j (len data)) data js = Ok (rs, a) /\
    length rs = length js /\
    (forall n, rs !! n = Some true <->
       (n < length js)%nat /\
       forall i, 0 <= i < blocks_for (len data) -> i ∈ take (S n) js) /\
    (last rs = Some true -> assembler_data a = Ok data).
Proof.
  pose proof (len_nonneg data) as H0. split; [by apply block_requests_spec|].
  split.
  { assert (Hpre : forall m : nat, Z.of_nat m <= blocks_for (len data) ->
      concat (map (block_bytes data) (seqZ 0 (Z.of_nat m))) = take (Z.to_nat (Z.of_nat m * BLOCK_SIZE)) data).
    { intros m. induction m as [|m IH]; intros Hm; [done|].
      rewrite Nat2Z.inj_succ, <- Z.add_1_r, seqZ_app, map_app, concat_app, IH by lia.
      change (seqZ (0 + Z.of_nat m) 1) with [0 + (0 + Z.of_nat m)]. cbn [map concat].
      rewrite app_nil_r. pose proof (blocks_for_bound (len data) (Z.of_nat m) ltac:(lia)) as Hb.
      unfold block_bytes, block_at. cbn [fst snd]. rewrite !Z.add_0_l.
      unfold BLOCK_SIZE, len in *.
      rewrite <- (take_drop (Z.to_nat (Z.of_nat m * (16 * 1024)))
        (take (Z.to_nat ((Z.of_nat m + 1) * (16 * 1024))) data)).
      rewrite take_take, Nat.min_l by lia. f_equal.
      rewrite skipn_firstn_comm.
      destruct (Z.le_gt_cases (16 * 1024) (Z.of_nat (length data) - Z.of_nat m * (16 * 1024))).
      - f_equal. lia.
      - rewrite !take_ge; rewrite ?length_drop; try lia. done. }
    specialize (Hpre (Z.to_nat (blocks_for (len data)))).
    pose proof (blocks_for_nonneg (len data) H0). rewrite Z2Nat.id in Hpre by lia.
    rewrite Hpre by lia. apply take_ge.
    destruct (decide (len data = 0)) as [E|E]; [unfold len in E; lia|].
    pose proof (blocks_for_index (len data) (len data - 1) ltac:(lia)) as Hb.
    pose proof (Z.div_mod (len data - 1) BLOCK_SIZE ltac:(done)).
    pose proof (Z.mod_pos_bound (len data - 1) BLOCK_SIZE ltac:(done)).
    unfold len, BLOCK_SIZE in *. nia. }
  destruct (feed_all_spec _ data [] js (assembler_new_spec j data) Hjs)
    as (rs & a & E & Ha & Hl & Hrs).
  exists rs, a. split; [done|]. split; [done|]. split.
  { intros n. rewrite Hrs. split; intros [H1 H2]; (split; [done|]); intros i Hi;
      specialize (H2 i Hi); set_solver. }
  intros Hlast. rewrite last_lookup in Hlast. apply Hrs in Hlast as [Hn Hall].
  destruct Ha as [A1 A2 _ _ _ A6]. unfold assembler_data. rewrite A1.
  rewrite slice_rest by lia. f_equal. change (rest (buf a) 0) with (buf a).
  rewrite take_ge by (unfold len in *; lia). apply list_eq. intros k.
  destruct (decide (k < length data)%nat) as [Hk|Hk].
  - apply A6; [done|]. rewrite app_nil_r.
    destruct (Hall (Z.of_nat k / BLOCK_SIZE)) as [Hin|Hin]; [|set_solver|].
    { apply blocks_for_index. unfold len. lia. }
    apply list_elem_of_In, in_rev. rewrite rev_involutive. apply list_elem_of_In.
    rewrite <- (take_drop (S (Nat.pred (length rs))) js). set_solver.
  - rewrite !lookup_ge_None_2; [done|lia|unfold len in A2; lia].
Qed.

(** A piece of 40,000 bytes (two full blocks and a shorter one). *)
Definition sample_piece : list byte := replicate (Z.to_nat 40000) x5a.

Lemma assembly_correct_witness :
  exists rs a, feed_all (assembler_new 0 (len sample_piece)) sample_piece [2; 0; 0; 1] = Ok (rs, a) /\
    length rs = 4%nat.
Proof.
  destruct (assembly_correct 0 sample_piece [2; 0; 0; 1]) as (_ & _ & rs & a & E & Hl & _).
  - change (blocks_for (len sample_piece)) with 3. intros i Hi.
    repeat (apply elem_of_cons in Hi as [->|Hi]; [lia|]). by apply elem_of_nil in Hi.
  - exists rs, a. exact (conj E Hl).
Defined.

(** ** Bitfields *)

Lemma or_byte_Ok l i bit :
  0 <= i < len l -> exists b, l !! Z.to_nat i = Some b /\
    or_byte l i bit = Ok (<[Z.to_nat i := as_u8 (Z.lor (u8 b) bit)]> l).
Proof.
  intros Hi. unfold or_byte, index, get. rewrite (proj2 (Z.ltb_ge _ _)) by lia.
  destruct (lookup_lt_is_Some_2 l (Z.to_nat i)) as [b Hb]; [unfold len in Hi; lia|].
  exists b. by rewrite Hb.
Qed.

(** A bitfield with a byte for every piece, and the pieces set in it. *)
Record bitfield_is (f : BitfieldBits) (n : Z) (ks : list Z) : Prop := {
  bf_count : piece_count f = n;
  bf_len : len (bits f) = div_ceil n 8;
  bf_bits : forall i b, 0 <= i < n -> bits f !! Z.to_nat (i / 8) = Some b ->
    piece_bit b i = bool_decide (i ∈ ks) }.

Lemma div8_index n i : 0 <= i < n -> 0 <= i / 8 < div_ceil n 8.
Proof.
  intros Hi. unfold div_ceil. split; [apply Z.div_pos; lia|].
  assert (i / 8 + 1 <= (n + 8 - 1) / 8); [|lia].
  apply Z.div_le_lower_bound; [lia|]. pose proof (Z.mul_div_le i 8 ltac:(lia)). lia.
Qed.

Lemma bitfield_new_is n : 0 <= n -> bitfield_is (bitfield_new n) n [].
Proof.
  intros Hn. assert (0 <= div_ceil n 8) by (unfold div_ceil; apply Z.div_pos; lia).
  split; cbn [bitfield_new bits piece_count]; [done| |].
  - unfold len. rewrite length_replicate. lia.
  - intros i b Hi Hb. apply lookup_replicate in Hb as [-> _].
    rewrite bool_decide_false by set_solver. unfold piece_bit. by rewrite Z.land_0_l.
Qed.

Lemma bitfield_set_is f n ks i :
  0 <= i -> bitfield_is f n ks ->
  exists f', bitfield_set f i = Ok f' /\ bitfield_is f' n (if i <? n then i :: ks else ks).
Proof.
  intros Hi [Hc Hl Hb]. unfold bitfield_set. rewrite Hc.
  destruct (Z.ltb_spec i n) as [Hlt|]; [|by exists f].
  pose proof (div8_index n i ltac:(lia)) as Hd. rewrite Hl, (proj2 (Z.ltb_lt _ _)) by lia.
  destruct (or_byte_Ok (bits f) (i / 8) (Z.shiftr 128 (i mod 8)) ltac:(lia)) as (b & Eb & ->).
  ok_simpl. eexists. split; [done|]. split; cbn; [done|unfold len; by rewrite length_insert|].
  intros j c Hj Hcj. destruct (decide (Z.to_nat (j / 8) = Z.to_nat (i / 8))) as [E|E].
  - pose proof (div8_index n j Hj). assert (Ej : j / 8 = i / 8) by lia.
    rewrite E, list_lookup_insert_eq in Hcj by (unfold len in Hl; lia). injection Hcj as <-.
    rewrite piece_bit_set, (Hb j b Hj) by by rewrite E.
    pose proof (Z.div_mod i 8 ltac:(lia)). pose proof (Z.div_mod j 8 ltac:(lia)).
    destruct (Z.eqb_spec (i mod 8) (j mod 8)) as [Em|Em].
    + assert (j = i) as -> by lia. rewrite orb_true_r. by rewrite bool_decide_true by set_solver.
    + rewrite orb_false_r. apply bool_decide_ext. assert (j <> i) by by intros ->. set_solver.
  - rewrite list_lookup_insert_ne in Hcj by done. rewrite (Hb j c Hj Hcj).
    apply bool_decide_ext. assert (j <> i) by by intros ->. set_solver.
Qed.

Lemma bitfield_has_is f n ks i :
  0 <= i -> bitfield_is f n ks -> bitfield_has f i = Ok (bool_decide (i ∈ ks /\ i < n)).
Proof.
  intros Hi [Hc Hl Hb]. unfold bitfield_has. rewrite Hc, Z.geb_leb.
  destruct (Z.leb_spec n i); [by rewrite bool_decide_false by lia|].
  pose proof (div8_index n i ltac:(lia)) as Hd.
  rewrite Hl, Z.geb_leb, (proj2 (Z.leb_gt _ _)) by lia.
  unfold index, get. rewrite (proj2 (Z.ltb_ge _ _)) by lia.
  destruct (lookup_lt_is_Some_2 (bits f) (Z.to_nat (i / 8))) as [b E]; [unfold len in Hl; lia|].
  rewrite E. ok_simpl. fold (piece_bit b i). rewrite (Hb i b ltac:(lia) E).
  f_equal. apply bool_decide_ext. naive_solver lia.
Qed.

(** How many pieces below [n] are in the list. *)
Definition members (ks : list Z) (i : Z) : Z := if bool_decide (i ∈ ks) then 1 else 0.

Lemma members_of_byte f n ks m b k :
  bitfield_is f n ks -> 0 <= m -> 0 <= k <= 8 -> 8 * m + k <= n ->
  bits f !! Z.to_nat m = Some b ->
  zsum (members ks) (seqZ (8 * m) k) = zsum (bit_value b) (seqZ 0 k).
Proof.
  intros Hf Hm Hk Hn Hb. replace (8 * m) with (8 * m + 0) by lia.
  rewrite <- fmap_add_seqZ. unfold fmap. change (list_fmap Z Z) with (@map Z Z).
  rewrite zsum_map. apply zsum_ext. intros i Hi. apply elem_of_seqZ in Hi.
  unfold members, bit_value.
  rewrite <- (bf_bits _ _ _ Hf (8 * m + i) b); [|lia|].
  - unfold piece_bit. replace ((8 * m + i) mod 8) with (i mod 8); [done|].
    rewrite Z.add_comm, Z.mul_comm, Z.mod_add by lia. done.
  - replace ((8 * m + i) / 8) with m; [done|].
    rewrite Z.mul_comm, Z.div_add_l, Z.div_small by lia. lia.
Qed.

Lemma count_full_bytes f n ks (m : nat) :
  bitfield_is f n ks -> 8 * Z.of_nat m <= n ->
  zsum (fun b => count_ones (u8 b)) (take m (bits f)) = zsum (members ks) (seqZ 0 (8 * Z.of_nat m)).
Proof.
  intros Hf. induction m as [|m IH]; intros Hm; [done|].
  pose proof (div8_index n (8 * Z.of_nat m) ltac:(lia)) as Hd.
  rewrite Z.mul_comm, Z.div_mul in Hd by lia. pose proof (bf_len _ _ _ Hf) as Hl.
  destruct (lookup_lt_is_Some_2 (bits f) m) as [b Hb]; [unfold len in Hl; lia|].
  rewrite (take_S_r _ _ _ Hb), zsum_app, IH, zsum_cons, count_ones_bits by lia.
  replace (8 * Z.of_nat (S m)) with (8 * Z.of_nat m + 8) by lia.
  rewrite (seqZ_app 0 (8 * Z.of_nat m) 8), zsum_app, Z.add_0_l by lia.
  rewrite (members_of_byte f n ks (Z.of_nat m) b 8) by (rewrite ?Nat2Z.id; done || lia).
  change (zsum _ []) with 0. lia.
Qed.

Lemma bitfield_count_is f n ks :
  0 <= n -> bitfield_is f n ks -> bitfield_count f = zsum (members ks) (seqZ 0 n).
Proof.
  intros Hn Hf. unfold bitfield_count. rewrite (bf_count _ _ _ Hf).
  pose proof (Z.div_mod n 8 ltac:(lia)) as E. pose proof (Z.mod_pos_bound n 8 ltac:(lia)) as B.
  pose proof (Z.div_pos n 8 ltac:(lia) ltac:(lia)) as P.
  assert (Es : zsum (members ks) (seqZ 0 n) =
    zsum (members ks) (seqZ 0 (8 * (n / 8))) + zsum (members ks) (seqZ (8 * (n / 8)) (n mod 8))).
  { rewrite <- zsum_app. f_equal.
    pose proof (seqZ_app 0 (8 * (n / 8)) (n mod 8) ltac:(lia) ltac:(lia)) as Ha.
    rewrite <- E in Ha. rewrite Ha. by rewrite Z.add_0_l. }
  rewrite Es, (count_full_bytes f n ks (Z.to_nat (n / 8)) Hf) by lia. rewrite Z2Nat.id by lia.
  rewrite Z.gtb_ltb. destruct (Z.ltb_spec 0 (n mod 8)) as [Hr|Hr].
  - pose proof (div8_index n (n - 1) ltac:(lia)) as Hd.
    assert (E1 : (n - 1) / 8 = n / 8).
    { symmetry. apply (Z.div_unique_pos (n - 1) 8 (n / 8) (n mod 8 - 1)); lia. }
    rewrite E1 in Hd. pose proof (bf_len _ _ _ Hf) as Hl. unfold get.
    rewrite (proj2 (Z.ltb_ge _ _)) by lia.
    destruct (lookup_lt_is_Some_2 (bits f) (Z.to_nat (n / 8))) as [b Hb]; [unfold len in Hl; lia|].
    rewrite Hb, count_ones_masked by lia.
    by rewrite (members_of_byte f n ks (n / 8) b) by (done || lia).
  - replace (n mod 8) with 0 by lia. change (zsum _ (seqZ _ 0)) with 0. lia.
Qed.

(** Set a list of indices, one after the other. *)
Fixpoint set_all (f : BitfieldBits) (ks : list Z) : outcome BitfieldBits :=
  match ks with
  | [] => Ok f
  | i :: ks => f ← bitfield_set f i; set_all f ks
  end.

Lemma set_all_is n ks : forall ms f,
  (forall i, i ∈ ks -> 0 <= i) -> bitfield_is f n ms ->
  exists f' ms', set_all f ks = Ok f' /\ bitfield_is f' n ms' /\
    forall i, i < n -> i ∈ ms' <-> i ∈ ks \/ i ∈ ms.
Proof.
  induction ks as [|i ks IH]; intros ms f Hks Hf; cbn [set_all].
  { exists f, ms. split; [done|]. split; [done|]. set_solver. }
  destruct (bitfield_set_is f n ms i) as (f1 & -> & Hf1); [apply Hks; set_solver|done|].
  ok_simpl. destruct (IH _ f1 ltac:(set_solver) Hf1) as (f2 & ms' & -> & Hf2 & Hms).
  exists f2, ms'. split; [done|]. split; [done|]. intros j Hj. rewrite Hms by done.
  destruct (Z.ltb_spec i n); set_solver by lia.
Qed.

(** What a bitfield built from the list [ks] is. *)
Lemma set_all_new n ks :
  0 <= n -> (forall i, i ∈ ks -> 0 <= i) ->
  exists f ms, set_all (bitfield_new n) ks = Ok f /\ bitfield_is f n ms /\
    (forall i, i < n -> i ∈ ms <-> i ∈ ks) /\
    forall i, 0 <= i -> bitfield_has f i = Ok (bool_decide (i ∈ ks /\ i < n)).
Proof.
  intros Hn Hks.
  destruct (set_all_is n ks [] (bitfield_new n) Hks (bitfield_new_is n Hn)) as (f & ms & Ef & Hf & Hms).
  exists f, ms. split; [done|]. split; [done|]. split; [set_solver|].
  intros i Hi. rewrite (bitfield_has_is f n ms i Hi Hf). f_equal. apply bool_decide_ext.
  split; intros [H1 H2]; (split; [|done]); specialize (Hms i H2); set_solver.
Qed.

Lemma members_filter (ms ks l : list Z) :
  (forall i, i ∈ l -> i ∈ ms <-> i ∈ ks) ->
  zsum (members ms) l = len (filter (fun i => i ∈ ks) l).
Proof.
  unfold len. induction l as [|i l IH]; intros Hin; [done|]. rewrite zsum_cons, IH by set_solver.
  pose proof (Hin i ltac:(set_solver)) as Hi. unfold members. rewrite filter_cons.
  destruct (decide (i ∈ ks)).
  - rewrite bool_decide_true by tauto. cbn [length]. lia.
  - rewrite bool_decide_false by tauto. lia.
Qed.

Lemma missing_loop n f g (ks hs l : list Z) :
  (forall i, 0 <= i -> bitfield_has f i = Ok (bool_decide (i ∈ ks /\ i < n))) ->
  (forall i, 0 <= i -> bitfield_has g i = Ok (bool_decide (i ∈ hs /\ i < n))) ->
  (forall i, i ∈ l -> 0 <= i < n) ->
  filter_outcome (fun i => a ← bitfield_has f i;
    if a : bool then b ← bitfield_has g i; Ok (negb b) else Ok false) l
  = Ok (filter (fun i => i ∈ ks /\ i ∉ hs) l).
Proof.
  intros Hf Hg. induction l as [|i l IH]; intros Hin; [done|]. cbn [filter_outcome].
  pose proof (Hin i ltac:(set_solver)) as Hi.
  rewrite Hf, Hg by lia. ok_simpl. rewrite filter_cons.
  rewrite (bool_decide_ext (i ∈ ks /\ i < n) (i ∈ ks)) by (split; [tauto|split; [done|lia]]).
  rewrite (bool_decide_ext (i ∈ hs /\ i < n) (i ∈ hs)) by (split; [tauto|split; [done|lia]]).
  destruct (decide (i ∈ ks)); [rewrite bool_decide_true by done|rewrite bool_decide_false by done];
    ok_simpl; rewrite IH by set_solver; ok_simpl.
  - destruct (decide (i ∈ hs)).
    + rewrite bool_decide_true by done. by rewrite decide_False by tauto.
    + rewrite bool_decide_false by done. by rewrite decide_True by tauto.
  - by rewrite decide_False by tauto.
Qed.

(** A bitfield for [n] pieces into which any indices were put (out of range
    ones included) never panics, has exactly the indices below [n] that were put
    in, counts them without the spare bits of the last byte, and lists as missing
    from another bitfield exactly what the other lacks. *)
Theorem bitfield_tracks (n : Z) (ks hs : list Z) (Hn : 0 <= n)
    (Hks : forall i, i ∈ ks -> 0 <= i) (Hhs : forall i, i ∈ hs -> 0 <= i) :
  exists f g, set_all (bitfield_new n) ks = Ok f /\ set_all (bitfield_new n) hs = Ok g /\
    (forall i, 0 <= i -> bitfield_has f i = Ok (bool_decide (i ∈ ks /\ i < n))) /\
    bitfield_count f = len (filter (fun i => i ∈ ks) (seqZ 0 n)) /\
    missing_from f g = Ok (filter (fun i => i ∈ ks /\ i ∉ hs) (seqZ 0 n)).
Proof.
  destruct (set_all_new n ks Hn Hks) as (f & ms & Ef & Hf & Hms & Hhas).
  destruct (set_all_new n hs Hn Hhs) as (g & os & Eg & _ & _ & Hhasg).
  exists f, g. split; [done|]. split; [done|]. split; [done|]. split.
  - rewrite (bitfield_count_is f n ms Hn Hf). apply members_filter.
    intros i Hi%elem_of_seqZ. apply Hms. lia.
  - unfold missing_from. rewrite (bf_count _ _ _ Hf). apply (missing_loop n); [done|done|].
    intros i Hi%elem_of_seqZ. lia.
Qed.

Lemma bitfield_tracks_witness :
  exists f g, set_all (bitfield_new 10) [9; 3; 12; 3] = Ok f /\ set_all (bitfield_new 10) [3] = Ok g /\
    bitfield_count f = 2 /\ missing_from f g = Ok [9].
Proof.
  destruct (bitfield_tracks 10 [9; 3; 12; 3] [3]) as (f & g & Ef & Eg & _ & Hc & Hm).
  - lia.
  - intros i Hi. repeat (apply elem_of_cons in Hi as [->|Hi]; [lia|]). by apply elem_of_nil in Hi.
  - intros i Hi. repeat (apply elem_of_cons in Hi as [->|Hi]; [lia|]). by apply elem_of_nil in Hi.
  - exists f, g. split; [exact Ef|]. split; [exact Eg|]. split; [exact Hc|exact Hm].
Defined.
