(* ===== verification/UdpTracker.v ===== *)
(** * UDP tracker announces (BEP 15)

    [udp_tracker.rs] of swarmotter-core.  The contained socket is a world that
    delivers datagrams with their arrival times and answers sends; transaction
    ids, which the program derives from the clock and its process id, are a
    parameter.  [url::Url::parse] is a parameter, and the binder is an interface. *)

From S2P Require Import Prelude.
From S2P Require Import Text.
From S2P Require Import Addr.

Definition CONNECT_MAGIC : Z := 0x041727101980.
Definition ACTION_CONNECT : Z := 0.
Definition ACTION_ANNOUNCE : Z := 1.
Definition ACTION_SCRAPE : Z := 2.
Definition ACTION_ERROR : Z := 3.

Record PeerAddr : Type := mkPeerAddr { peer_ip : IpAddr; peer_port : Z }.

Inductive AnnounceEvent : Type := Empty | Started | Stopped | Completed.

Record AnnounceRequest : Type := mkAnnounceRequest {
  tracker_url : list byte;
  info_hash : list byte;
  peer_id : list byte;
  req_port : Z;
  uploaded : Z;
  downloaded : Z;
  left : Z;
  event : AnnounceEvent;
  numwant : option Z;
  compact : bool }.

Record AnnounceResponse : Type := mkAnnounceResponse {
  interval : Z;
  min_interval : option Z;
  seeders : Z;
  leechers : Z;
  peers : list PeerAddr;
  failure_reason : option (list byte);
  tracker_id : option (list byte) }.

Definition default_response : AnnounceResponse := mkAnnounceResponse 0 None 0 0 [] None None.

(** ** The wire format *)

Definition encode_connect (txn : Z) : list byte :=
  to_be 8 CONNECT_MAGIC ++ to_be 4 ACTION_CONNECT ++ to_be 4 txn.

Definition decode_connect (buf : list byte) (expected_txn : Z) : outcome Z :=
  _ ← fail_if (len buf <? 16) (Parse "udp connect response too short");
  action ← be_at buf 0 4;
  txn ← be_at buf 4 4;
  _ ← fail_if (negb (txn =? expected_txn)) (Parse "udp connect response transaction id mismatch");
  _ ← fail_if (action =? ACTION_ERROR) (Internal "udp tracker connect error");
  _ ← fail_if (negb (action =? ACTION_CONNECT)) (Parse "udp connect response unexpected action");
  be_at buf 8 8.

Definition event_code (e : AnnounceEvent) : Z :=
  match e with Empty => 0 | Completed => 1 | Started => 2 | Stopped => 3 end.

(** [n as i32]. *)
Definition as_i32 (n : Z) : Z := if n <? 2 ^ 31 then n else n - 2 ^ 32.

Definition encode_announce (req : AnnounceRequest) (connection_id txn key : Z) : list byte :=
  to_be 8 connection_id ++ to_be 4 ACTION_ANNOUNCE ++ to_be 4 txn
  ++ info_hash req ++ peer_id req
  ++ to_be 8 (downloaded req) ++ to_be 8 (left req) ++ to_be 8 (uploaded req)
  ++ to_be 4 (event_code (event req)) ++ to_be 4 0 ++ to_be 4 key
  ++ to_be 4 (match numwant req with Some n => as_i32 n | None => -1 end)
  ++ to_be 2 (req_port req).

Fixpoint parse_compact_ipv4_udp (bytes : list byte) : list PeerAddr :=
  match bytes with
  | a :: b :: c :: d :: p :: q :: bytes =>
      mkPeerAddr (V4 (of_be [a; b; c; d])) (of_be [p; q]) :: parse_compact_ipv4_udp bytes
  | _ => []
  end.

Definition decode_announce (buf : list byte) (expected_txn : Z) : outcome AnnounceResponse :=
  _ ← fail_if (len buf <? 8) (Parse "udp announce response too short");
  action ← be_at buf 0 4;
  txn ← be_at buf 4 4;
  _ ← fail_if (negb (txn =? expected_txn)) (Parse "udp announce response transaction id mismatch");
  if action =? ACTION_ERROR then
    msg ← slice_from buf 8;
    Ok (mkAnnounceResponse 0 None 0 0 [] (Some (from_utf8_lossy msg)) None)
  else
    _ ← fail_if (negb (action =? ACTION_ANNOUNCE)) (Parse "udp announce response unexpected action");
    _ ← fail_if (len buf <? 20) (Parse "udp announce response missing fixed fields");
    interval ← be_at buf 8 4;
    leechers ← be_at buf 12 4;
    seeders ← be_at buf 16 4;
    peers_bytes ← slice_from buf 20;
    Ok (mkAnnounceResponse interval None seeders leechers (parse_compact_ipv4_udp peers_bytes) None None).

(** ** Transactions over a contained socket *)

(** What [recv_from] will see: datagrams with the time they arrive, in
    milliseconds, or an error of the socket. *)
Inductive arrival : Type :=
  | Datagram (time : Z) (from : SocketAddr) (data : list byte)
  | RecvError (e : CoreError).

Record udp_world : Type := mkUdp {
  now : Z; inbox : list arrival; sent : list (SocketAddr * list byte); draws : nat }.

Definition RESPONSE_TIMEOUT : Z := 15000.

Section Transactions.
(** The [n]-th transaction id drawn, and the answer to the [n]-th send. *)
Variable random_txn_id : nat -> Z.
Variable send_result : nat -> option CoreError.

Definition draw (w : udp_world) : Z * udp_world :=
  (random_txn_id (draws w), mkUdp (now w) (inbox w) (sent w) (S (draws w))).

Definition send_to (addr : SocketAddr) (data : list byte) (w : udp_world) : outcome () * udp_world :=
  match send_result (length (sent w)) with
  | Some e => (Err e, w)
  | None => (Ok (), mkUdp (now w) (inbox w) (sent w ++ [(addr, data)]) (draws w))
  end.

(** The receive loop: datagrams from elsewhere, short ones and those of other
    transactions are passed over. *)
Fixpoint recv_loop (deadline : Z) (addr : SocketAddr) (expected_action expected_txn max_read : Z)
    (now : Z) (ins : list arrival) : outcome (list byte) * Z * list arrival :=
  if deadline <=? now then (Err (Internal "udp tracker response timed out"), now, ins)
  else
    match ins with
    | [] => (Err (Internal "udp tracker response timed out"), deadline, [])
    | RecvError e :: ins => (Err e, now, ins)
    | Datagram time from data :: ins' =>
        if deadline <=? time then (Err (Internal "udp tracker response timed out"), deadline, ins)
        else
          let now := Z.max now time in
          let buf := take (Z.to_nat max_read) data in
          if negb (bool_decide (from = addr)) || (len buf <? 8)
          then recv_loop deadline addr expected_action expected_txn max_read now ins'
          else
            match be_at buf 0 4, be_at buf 4 4 with
            | Ok action, Ok txn =>
                if negb (txn =? expected_txn)
                then recv_loop deadline addr expected_action expected_txn max_read now ins'
                else if negb (action =? expected_action) && negb (action =? ACTION_ERROR)
                then (Err (Parse "udp tracker response unexpected action"), now, ins')
                else (Ok buf, now, ins')
            | _, _ => (Panic, now, ins')
            end
    end.

Definition send_recv (addr : SocketAddr) (payload : list byte)
    (expected_action expected_txn max_read : Z) (w : udp_world) : outcome (list byte) * udp_world :=
  match send_to addr payload w with
  | (Ok _, w) =>
      let '(r, t, ins) := recv_loop (now w + RESPONSE_TIMEOUT) addr expected_action expected_txn
                            max_read (now w) (inbox w) in
      (r, mkUdp t ins (sent w) (draws w))
  | (Err e, w) => (Err e, w)
  | (Panic, w) => (Panic, w)
  | (OutOfFuel, w) => (OutOfFuel, w)
  end.

(** The second half of [run_one_transaction], with the connection id. *)
Definition announce_with (addr : SocketAddr) (req : AnnounceRequest) (conn_id : Z) (w : udp_world)
    : outcome AnnounceResponse * udp_world :=
  let '(txn, w) := draw w in
  let '(key, w) := draw w in
  match send_recv addr (encode_announce req conn_id txn key) ACTION_ANNOUNCE txn 2048 w with
  | (Ok buf, w) => (decode_announce buf txn, w)
  | (Err e, w) => (Err e, w)
  | (Panic, w) => (Panic, w)
  | (OutOfFuel, w) => (OutOfFuel, w)
  end.

Definition run_one_transaction (addr : SocketAddr) (req : AnnounceRequest) (w : udp_world)
    : outcome AnnounceResponse * udp_world :=
  let '(txn, w) := draw w in
  match send_recv addr (encode_connect txn) ACTION_CONNECT txn 2048 w with
  | (Ok buf, w) =>
      if bool_decide (take 4 buf = to_be 4 ACTION_ERROR) then (decode_announce buf txn, w)
      else
        match decode_connect buf txn with
        | Ok conn_id => announce_with addr req conn_id w
        | Err e => (Err e, w)
        | Panic => (Panic, w)
        | OutOfFuel => (OutOfFuel, w)
        end
  | (Err e, w) => (Err e, w)
  | (Panic, w) => (Panic, w)
  | (OutOfFuel, w) => (OutOfFuel, w)
  end.

(** [for _ in 0..=retries]. *)
Fixpoint transactions (attempts : nat) (addr : SocketAddr) (req : AnnounceRequest) (w : udp_world)
    : outcome AnnounceResponse * udp_world :=
  match attempts with
  | O => (Err (Internal "udp tracker failed after retries"), w)
  | S attempts =>
      match run_one_transaction addr req w with
      | (Err _, w) => transactions attempts addr req w
      | r => r
      end
  end.

(** What [url::Url::parse] returns, as far as it is read. *)
Record Url : Type := mkUrl { scheme : list byte; host_str : option (list byte); url_port : option Z }.
Variable url_parse : list byte -> option Url.

(** What the binder promises the tracker client. *)
Record NetworkBinder : Type := mkNetworkBinder {
  binder_resolve_host : list byte -> Z -> outcome SocketAddr;
  binder_udp_socket_for : option SocketAddr -> outcome () }.

Definition resolve_udp_tracker (binder : NetworkBinder) (url : list byte) : outcome SocketAddr :=
  parsed ← ok_or (url_parse url) (Internal "bad udp tracker url");
  _ ← fail_if (negb (bool_decide (scheme parsed = bytes_of "udp")))
        (Internal "udp tracker url is not udp scheme");
  host ← ok_or (host_str parsed) (Internal "udp tracker url missing host");
  port ← ok_or (url_port parsed) (Internal "udp tracker url missing port");
  binder_resolve_host binder host port.

Definition udp_announce_with_iters (binder : NetworkBinder) (req : AnnounceRequest) (retries : Z)
    (w : udp_world) : outcome AnnounceResponse * udp_world :=
  match resolve_udp_tracker binder (tracker_url req) with
  | Ok addr =>
      match binder_udp_socket_for binder (Some addr) with
      | Ok _ => transactions (S (Z.to_nat retries)) addr req w
      | Err e => (Err e, w)
      | Panic => (Panic, w)
      | OutOfFuel => (OutOfFuel, w)
      end
  | Err e => (Err e, w)
  | Panic => (Panic, w)
  | OutOfFuel => (OutOfFuel, w)
  end.

Definition udp_announce (binder : NetworkBinder) (req : AnnounceRequest) (w : udp_world)
    : outcome AnnounceResponse * udp_world := udp_announce_with_iters binder req 2 w.
End Transactions.

(** ** A conforming tracker *)

Definition peer_bytes (p : PeerAddr) : list byte :=
  match peer_ip p with V4 a | V6 a => to_be 4 a ++ to_be 2 (peer_port p) end.
Definition ipv4_peer (p : PeerAddr) : Prop :=
  exists a, peer_ip p = V4 a /\ in_width 32 a /\ in_width 16 (peer_port p).

Definition connect_reply (txn conn_id : Z) : list byte :=
  to_be 4 ACTION_CONNECT ++ to_be 4 txn ++ to_be 8 conn_id.
Definition announce_reply (txn interval leechers seeders : Z) (ps : list PeerAddr) : list byte :=
  to_be 4 ACTION_ANNOUNCE ++ to_be 4 txn ++ to_be 4 interval ++ to_be 4 leechers
  ++ to_be 4 seeders ++ concat (map peer_bytes ps).

(** A datagram the client must pass over while it waits for [txn] until
    [deadline]: from elsewhere, too short, or of another transaction. *)
Definition stray (addr : SocketAddr) (txn deadline : Z) (a : arrival) : Prop :=
  match a with
  | Datagram time from data =>
      time < deadline /\ (from <> addr \/ len data < 8 \/ be_at data 4 4 <> Ok txn)
  | RecvError _ => False
  end.

Lemma len_to_be' n x : len (to_be n x) = Z.of_nat n.
Proof. unfold len. by rewrite length_to_be. Qed.

Lemma header_fields a txn m :
  in_width 32 a -> in_width 32 txn ->
  let buf := to_be 4 a ++ to_be 4 txn ++ m in
  be_at buf 0 4 = Ok a /\ be_at buf 4 4 = Ok txn /\ rest buf 8 = m /\ len buf = 8 + len m.
Proof.
  intros Ha Ht buf.
  assert (Hl : len buf = 8 + len m) by (unfold buf; rewrite !len_app, !len_to_be'; lia).
  pose proof (len_nonneg m).
  destruct (be_at_app buf 0 4 a (to_be 4 txn ++ m)) as (H0 & R4 & _); [lia|done|lia|done|].
  destruct (be_at_app buf 4 4 txn m) as (H4 & R8 & _); [lia|done|lia|exact R4|]. done.
Qed.

Lemma decode_connect_reply txn conn_id :
  in_width 32 txn -> in_width 64 conn_id -> decode_connect (connect_reply txn conn_id) txn = Ok conn_id.
Proof.
  intros Ht Hc. destruct (header_fields ACTION_CONNECT txn (to_be 8 conn_id)) as (H0 & H4 & R8 & Hl);
    [done|done|]. fold (connect_reply txn conn_id) in *. unfold decode_connect.
  rewrite len_to_be' in Hl. rewrite (proj2 (Z.ltb_ge _ 16)), H0, H4 by lia. ok_simpl.
  rewrite !Z.eqb_refl. ok_simpl.
  destruct (be_at_app (connect_reply txn conn_id) 8 8 conn_id []) as (H8 & _);
    [lia|done|lia|by rewrite R8, app_nil_r|exact H8].
Qed.

Lemma parse_peer_bytes p m :
  ipv4_peer p -> parse_compact_ipv4_udp (peer_bytes p ++ m) = p :: parse_compact_ipv4_udp m.
Proof.
  intros (a & Ea & Ha & Hp). destruct p as [ip port]. cbn [peer_ip peer_port] in *. subst ip.
  unfold peer_bytes. cbn [peer_ip peer_port].
  pose proof (length_to_be 4 a) as L4. pose proof (length_to_be 2 port) as L2.
  pose proof (of_be_to_be 4 a Ha) as V. pose proof (of_be_to_be 2 port Hp) as W.
  destruct (to_be 4 a) as [|b1 [|b2 [|b3 [|b4 [|]]]]]; try done.
  destruct (to_be 2 port) as [|c1 [|c2 [|]]]; try done.
  cbn [app parse_compact_ipv4_udp]. by rewrite V, W.
Qed.

Lemma parse_peers ps :
  Forall ipv4_peer ps -> parse_compact_ipv4_udp (concat (map peer_bytes ps)) = ps.
Proof.
  induction 1 as [|p ps Hp _ IH]; [done|]. cbn [map concat]. by rewrite parse_peer_bytes, IH.
Qed.

Lemma len_peer_bytes ps : len (concat (map peer_bytes ps)) = 6 * len ps.
Proof.
  induction ps as [|p ps IH]; [done|]. cbn [map concat]. rewrite len_app, len_cons, IH.
  unfold peer_bytes. destruct (peer_ip p); rewrite len_app, !len_to_be'; lia.
Qed.

Lemma announce_reply_header txn i l s ps :
  in_width 32 txn ->
  be_at (announce_reply txn i l s ps) 0 4 = Ok ACTION_ANNOUNCE /\
  be_at (announce_reply txn i l s ps) 4 4 = Ok txn /\
  rest (announce_reply txn i l s ps) 8
  = to_be 4 i ++ to_be 4 l ++ to_be 4 s ++ concat (map peer_bytes ps) /\
  len (announce_reply txn i l s ps) = 20 + 6 * len ps.
Proof.
  intros Ht.
  destruct (header_fields ACTION_ANNOUNCE txn
    (to_be 4 i ++ to_be 4 l ++ to_be 4 s ++ concat (map peer_bytes ps))) as (H0 & H4 & R8 & Hl);
    [done|done|]. fold (announce_reply txn i l s ps) in *.
  rewrite !len_app, !len_to_be', len_peer_bytes in Hl. repeat split; try done. lia.
Qed.

Lemma decode_announce_reply txn i l s ps :
  in_width 32 txn -> in_width 32 i -> in_width 32 l -> in_width 32 s -> Forall ipv4_peer ps ->
  decode_announce (announce_reply txn i l s ps) txn = Ok (mkAnnounceResponse i None s l ps None None).
Proof.
  intros Ht Hi Hl Hs Hps. destruct (announce_reply_header txn i l s ps Ht) as (H0 & H4 & R8 & L).
  pose proof (len_nonneg ps). set (buf := announce_reply txn i l s ps) in *.
  destruct (be_at_app buf 8 4 i _ ltac:(lia) Hi ltac:(lia) R8) as (H8 & R12 & _).
  destruct (be_at_app buf 12 4 l _ ltac:(lia) Hl ltac:(lia) R12) as (H12 & R16 & _).
  destruct (be_at_app buf 16 4 s _ ltac:(lia) Hs ltac:(lia) R16) as (H16 & R20 & _).
  unfold decode_announce. rewrite (proj2 (Z.ltb_ge _ 8)), H0, H4 by lia. ok_simpl.
  rewrite !Z.eqb_refl. ok_simpl.
  change (ACTION_ANNOUNCE =? ACTION_ERROR) with false. cbv iota. ok_simpl. rewrite (proj2 (Z.ltb_ge _ 20)), H8, H12, H16 by lia. ok_simpl.
  rewrite slice_from_rest by lia. ok_simpl.
  change (16 + 4) with 20 in R20. by rewrite R20, parse_peers.
Qed.

(** ** The receive loop *)

Lemma be_at_prefix buf n a k : 0 <= a -> 0 <= k -> a + k <= n -> a + k <= len (take (Z.to_nat n) buf) ->
  be_at (take (Z.to_nat n) buf) a k = be_at buf a k.
Proof.
  intros Ha Hk Hn Hl. unfold be_at.
  assert (len (take (Z.to_nat n) buf) <= len buf) by (unfold len; rewrite length_take; lia).
  rewrite !slice_rest by lia. do 2 f_equal. unfold rest. rewrite skipn_firstn_comm, take_take.
  f_equal. lia.
Qed.

Lemma recv_stray addr action txn deadline ins noise : forall now,
  now < deadline -> Forall (stray addr txn deadline) noise ->
  exists now', now <= now' < deadline /\
    recv_loop deadline addr action txn 2048 now (noise ++ ins)
    = recv_loop deadline addr action txn 2048 now' ins.
Proof.
  induction noise as [|a noise IH]; intros now Hnow Hn; [by exists now|].
  apply Forall_cons in Hn as [Ha Hn]. destruct a as [time from data|]; [|done].
  destruct Ha as [Ht Ha]. destruct (IH (Z.max now time) ltac:(lia) Hn) as (now' & Hb & E).
  exists now'. split; [lia|]. rewrite <- E. cbn [app recv_loop].
  rewrite (proj2 (Z.leb_gt deadline now)), (proj2 (Z.leb_gt deadline time)) by lia.
  set (buf := take _ data). destruct (bool_decide_reflect (from = addr)) as [->|]; [|done].
  destruct (Z.ltb_spec (len buf) 8) as [|Hl]; [done|]. cbn [negb orb].
  assert (len buf <= len data) by (unfold buf, len; rewrite length_take; lia).
  destruct (be_at_total buf 0 4) as [x ->]; [lia..|]. destruct (be_at_total buf 4 4) as [y Ey]; [lia..|].
  rewrite Ey. destruct (Z.eqb_spec y txn) as [->|]; [|done].
  exfalso. destruct Ha as [?|[?|Hne]]; [done|lia|]. apply Hne. rewrite <- Ey. symmetry.
  by apply be_at_prefix.
Qed.

Lemma recv_reply addr action txn deadline now time data ins :
  now < deadline -> time < deadline -> 8 <= len data <= 2048 ->
  be_at data 0 4 = Ok action -> be_at data 4 4 = Ok txn ->
  recv_loop deadline addr action txn 2048 now (Datagram time addr data :: ins)
  = (Ok data, Z.max now time, ins).
Proof.
  intros Hn Ht Hl Ha Htx. cbn [recv_loop].
  rewrite (proj2 (Z.leb_gt deadline now)), (proj2 (Z.leb_gt deadline time)) by lia.
  rewrite take_ge by (unfold len in Hl; lia). rewrite bool_decide_true by done.
  rewrite (proj2 (Z.ltb_ge _ 8)) by lia. cbn [negb orb]. by rewrite Ha, Htx, !Z.eqb_refl.
Qed.

(** ** One transaction *)

Section Exchange.
Variable random_txn_id : nat -> Z.
Variable send_result : nat -> option CoreError.
Hypothesis random_range : forall n, in_width 32 (random_txn_id n).
Hypothesis sends_succeed : forall n, send_result n = None.

(** A request amid strays, answered within the timeout. *)
Lemma send_recv_reply addr payload action txn w noise time data ins :
  inbox w = noise ++ Datagram time addr data :: ins ->
  Forall (stray addr txn (now w + RESPONSE_TIMEOUT)) noise -> time < now w + RESPONSE_TIMEOUT ->
  8 <= len data <= 2048 -> be_at data 0 4 = Ok action -> be_at data 4 4 = Ok txn ->
  exists now', time <= now' /\ send_recv send_result addr payload action txn 2048 w
    = (Ok data, mkUdp now' ins (sent w ++ [(addr, payload)]) (draws w)).
Proof.
  intros Hin Hn Ht Hl Ha Htx. unfold send_recv, send_to. rewrite sends_succeed.
  cbn [now inbox sent draws]. rewrite Hin.
  destruct (recv_stray addr action txn (now w + RESPONSE_TIMEOUT) (Datagram time addr data :: ins) noise (now w)) as (now' & Hb & ->);
    [unfold RESPONSE_TIMEOUT; lia|done|].
  rewrite recv_reply by (done || lia). exists (Z.max now' time). split; [lia|done].
Qed.

(** However many stray datagrams (from other addresses, truncated, or of other
    transactions) arrive in between, an announce to a tracker that answers within
    the timeout returns exactly the interval, the counts and the peers the tracker
    sent; it sent one connect and one announce request, the latter with the
    connection id the tracker gave. *)
Theorem udp_transaction_exact (addr : SocketAddr) (req : AnnounceRequest) (w : udp_world)
    (noise1 noise2 ins : list arrival) (t1 t2 conn_id i l s : Z) (ps : list PeerAddr)
    (Hin : inbox w = noise1 ++ Datagram t1 addr (connect_reply (random_txn_id (draws w)) conn_id)
      :: noise2 ++ Datagram t2 addr (announce_reply (random_txn_id (S (draws w))) i l s ps) :: ins)
    (Hn1 : Forall (stray addr (random_txn_id (draws w)) (now w + RESPONSE_TIMEOUT)) noise1)
    (Hn2 : Forall (stray addr (random_txn_id (S (draws w))) (t1 + RESPONSE_TIMEOUT)) noise2)
    (Ht1 : t1 < now w + RESPONSE_TIMEOUT) (Ht2 : t2 < t1 + RESPONSE_TIMEOUT)
    (Hc : in_width 64 conn_id) (Hi : in_width 32 i) (Hl : in_width 32 l) (Hs : in_width 32 s)
    (Hps : Forall ipv4_peer ps) (Hlen : 20 + 6 * len ps <= 2048) :
  exists w', run_one_transaction random_txn_id send_result addr req w
    = (Ok (mkAnnounceResponse i None s l ps None None), w') /\
    inbox w' = ins /\
    sent w' = sent w ++ [(addr, encode_connect (random_txn_id (draws w)));
      (addr, encode_announce req conn_id (random_txn_id (S (draws w)))
               (random_txn_id (S (S (draws w)))))].
Proof.
  pose proof (random_range (draws w)) as R0. pose proof (random_range (S (draws w))) as R1.
  pose proof (len_nonneg ps).
  unfold run_one_transaction, draw at 1. cbv beta iota.
  destruct (header_fields ACTION_CONNECT _ (to_be 8 conn_id) ltac:(done) R0) as (C0 & C4 & _ & CL).
  rewrite len_to_be' in CL.
  destruct (send_recv_reply addr (encode_connect (random_txn_id (draws w))) ACTION_CONNECT
    (random_txn_id (draws w)) (mkUdp (now w) (inbox w) (sent w) (S (draws w))) noise1 t1 _ _ Hin Hn1 Ht1)
    as (now1 & Hnow1 & ->); [unfold connect_reply; lia|done|done|].
  cbn [sent draws]. rewrite bool_decide_false by (vm_compute take; done).
  rewrite decode_connect_reply by done. unfold announce_with, draw. cbn [now inbox sent draws].
  destruct (announce_reply_header _ i l s ps R1) as (A0 & A4 & _ & AL).
  destruct (send_recv_reply addr (encode_announce req conn_id (random_txn_id (S (draws w)))
      (random_txn_id (S (S (draws w))))) ACTION_ANNOUNCE (random_txn_id (S (draws w)))
    (mkUdp now1 (noise2 ++ Datagram t2 addr (announce_reply (random_txn_id (S (draws w))) i l s ps) :: ins)
       (sent w ++ [(addr, encode_connect (random_txn_id (draws w)))]) (S (S (S (draws w)))))
    noise2 t2 _ _ eq_refl) as (now2 & _ & ->);
    [|cbn [now]; lia|lia|done|done|].
  { eapply Forall_impl; [exact Hn2|]. intros [time from data|e]; [|done].
    cbn [stray now]. intros [Hlt ?]. split; [lia|done]. }
  rewrite decode_announce_reply by done. eexists. split; [done|]. cbn [inbox sent].
  split; [done|]. by rewrite <- app_assoc.
Qed.
End Exchange.

Definition sample_request : AnnounceRequest :=
  mkAnnounceRequest (bytes_of "udp://10.0.0.1:80") (replicate 20 x12) (replicate 20 x2d) 6881 0 0 1024
    Started (Some 50) true.
Definition sample_tracker : SocketAddr := mkSocketAddr (V4 167772161) 80.
Definition sample_peer : PeerAddr := mkPeerAddr (V4 168296450) 6881.
(** A reply forged from another address, the true ones, and a late duplicate. *)
Definition sample_udp : udp_world :=
  mkUdp 100 [Datagram 110 (mkSocketAddr (V4 1) 80) (connect_reply 0 5);
             Datagram 120 sample_tracker (connect_reply 0 77);
             Datagram 130 sample_tracker (connect_reply 0 77);
             Datagram 140 sample_tracker (announce_reply 1 1800 3 9 [sample_peer])] [] 0.

Lemma udp_transaction_exact_witness :
  exists w', run_one_transaction (fun n => wrap 32 (Z.of_nat n)) (fun _ => None) sample_tracker
      sample_request sample_udp
    = (Ok (mkAnnounceResponse 1800 None 9 3 [sample_peer] None None), w') /\ inbox w' = [] /\
    length (sent w') = 2%nat.
Proof.
  assert (Hr : forall n, in_width 32 (wrap 32 (Z.of_nat n))) by (intros n; apply wrap_range; lia).
  destruct (udp_transaction_exact (fun n => wrap 32 (Z.of_nat n)) (fun _ => None) Hr (fun _ => eq_refl)
    sample_tracker sample_request sample_udp
    [Datagram 110 (mkSocketAddr (V4 1) 80) (connect_reply 0 5)]
    [Datagram 130 sample_tracker (connect_reply 0 77)] [] 120 140 77 1800 3 9 [sample_peer])
    as (w' & E & Hi & Hs).
  - reflexivity.
  - constructor; [|constructor]. split; [by vm_compute|]. left. discriminate.
  - constructor; [|constructor]. split; [by vm_compute|]. right; right. vm_compute. discriminate.
  - by vm_compute.
  - by vm_compute.
  - by split.
  - by split.
  - by split.
  - by split.
  - constructor; [|constructor]. exists 168296450. by repeat split.
  - vm_compute. discriminate.
  - exists w'. split; [exact E|]. split; [exact Hi|]. by rewrite Hs.
Defined.
