(* ===== verification/Tracker.v ===== *)
(** * HTTP trackers: [crates/swarmotter-core/src/tracker.rs]

    The announce URL, announce and scrape answers, the scrape URL and the order of
    tracker tiers.  The [url] crate, the binder's HTTP client and the tracker itself
    are parameters.  The theorems: a tracker reads from the announce URL what the
    request says, answers are read exactly, and a scrape gives counts for every
    requested hash or fails. *)

From S2P Require Import Prelude Text Bits Addr Hash Bencode BencodeCorrect Merkle Meta MetaParse ParseCorrect MetaBuild Extensions UdpTracker Escape.

Local Open Scope byte_scope.
Local Open Scope Z_scope.

#[export] Instance PeerInfoHash_eq_dec : EqDecision PeerInfoHash.
Proof. solve_decision. Defined.
#[export] Instance PeerInfoHash_countable : Countable PeerInfoHash.
Proof. by refine (inj_countable' wire_hash mkPeerInfoHash _); intros []. Defined.

(** ** The announce URL *)

Definition event_str (e : AnnounceEvent) : text :=
  match e with
  | Empty => []
  | Started => bytes_of "started"
  | Stopped => bytes_of "stopped"
  | Completed => bytes_of "completed"
  end.

Definition bytes_kept (b : byte) : bool := is_ascii_alphanumeric b || existsb (Byte.eqb b) (bytes_of "-_.~").
Definition bytes_escape (bytes : list byte) : text := escape_with bytes_kept bytes.

Definition query_kept (b : byte) : bool := is_ascii_alphanumeric b || existsb (Byte.eqb b) (bytes_of "-_.~%:").
Definition escape_query (s : text) : text := escape_with query_kept s.

Fixpoint serde_urlencoded (pairs : list (text * text)) : text :=
  match pairs with
  | [] => []
  | [(k, v)] => escape_query k ++ ["="] ++ escape_query v
  | (k, v) :: pairs => escape_query k ++ ["="] ++ escape_query v ++ ["&"] ++ serde_urlencoded pairs
  end.

(** What is read of a [url::Url]. *)
Record TrackerUrl : Type := mkTrackerUrl {
  url_scheme : text; url_host : option text; tracker_port : option Z; url_path : text;
  url_query : option text; url_pairs : list (text * text) }.

(** The pairs [build_url] adds to the ones of the tracker's URL. *)
Definition announce_pairs (r : AnnounceRequest) : list (text * text) :=
  [(bytes_of "info_hash", bytes_escape (info_hash r)); (bytes_of "peer_id", bytes_escape (peer_id r));
   (bytes_of "port", print_dec (req_port r)); (bytes_of "uploaded", print_dec (uploaded r));
   (bytes_of "downloaded", print_dec (downloaded r)); (bytes_of "left", print_dec (UdpTracker.left r));
   (bytes_of "compact", if compact r then bytes_of "1" else bytes_of "0")]
  ++ match event r with Empty => [] | e => [(bytes_of "event", event_str e)] end
  ++ match numwant r with Some n => [(bytes_of "numwant", print_dec n)] | None => [] end.

Section announce_url.
(** [url::Url::parse] belongs to the url crate. *)
Variable url_parse : text -> option TrackerUrl.

Definition build_url (r : AnnounceRequest) : outcome text :=
  base ← ok_or (url_parse (tracker_url r)) (Internal "bad tracker url");
  let pairs := url_pairs base ++ announce_pairs r in
  let query := serde_urlencoded pairs in
  let host := default [] (url_host base) in
  let host_port := match tracker_port base with Some p => host ++ [":"] ++ print_dec p | None => host end in
  Ok (url_scheme base ++ bytes_of "://" ++ host_port ++ url_path base ++ ["?"] ++ query).
End announce_url.

(** ** Announce answers *)

(** [parse_compact_ipv4], [parse_compact_ipv6]; a chunk has all its bytes. *)
Definition parse_compact_ipv4 (bytes : list byte) : list PeerAddr :=
  map (fun chunk => mkPeerAddr (V4 (of_be (take 4 chunk))) (of_be (drop 4 chunk))) (as_chunks 6 bytes).
Definition parse_compact_ipv6 (bytes : list byte) : list PeerAddr :=
  map (fun chunk => mkPeerAddr (V6 (of_be (take 16 chunk))) (of_be (drop 16 chunk))) (as_chunks 18 bytes).

(** An entry of a list of dictionaries: [port as u16]. *)
Definition peer_entry (entry : Value) : option PeerAddr :=
  ip ← (get_value entry (bytes_of "ip") ≫= as_str_utf8);
  port ← (get_value entry (bytes_of "port") ≫= as_int);
  ip ← parse_ip ip;
  Some (mkPeerAddr ip (wrap 16 port)).

(** [and_then(as_int).map(|i| i as u64)]. *)
Definition int_field (key : string) (d : dict) : option Z := wrap 64 <$> (find_key key d ≫= as_int).

Definition parse_announce_response (body : list byte) : outcome AnnounceResponse :=
  root ← decode body;
  dict ← ok_or (as_dict root) (Parse "tracker response not a dict");
  let failure_reason := find_key "failure reason" dict ≫= as_str_utf8 in
  match failure_reason with
  | Some fr => Ok (mkAnnounceResponse 0 None 0 0 [] (Some fr) None)
  | None =>
      let interval := default 0 (int_field "interval" dict) in
      let min_interval := int_field "min interval" dict in
      let seeders := default 0 (int_field "complete" dict) in
      let leechers := default 0 (int_field "incomplete" dict) in
      let tracker_id := find_key "tracker id" dict ≫= as_str_utf8 in
      let peers := match find_key "peers" dict ≫= as_str with
                   | Some peers_bytes => parse_compact_ipv4 peers_bytes
                   | None => match find_key "peers" dict ≫= as_list with
                             | Some l => omap peer_entry l
                             | None => []
                             end
                   end in
      let peers6 := match find_key "peers6" dict ≫= as_str with Some b => parse_compact_ipv6 b | None => [] end in
      Ok (mkAnnounceResponse interval min_interval seeders leechers (peers ++ peers6) None tracker_id)
  end.

Definition announce_tiers (announce : option text) (announce_list : list (list text)) : list (list text) :=
  match announce_list with
  | [] => match announce with Some url => [[url]] | None => [] end
  | _ => List.filter (fun tier => negb (bool_decide (tier = []))) announce_list
  end.

(** ** Scraping *)

Record ScrapeCounts : Type := mkScrapeCounts { sc_seeders : Z; sc_leechers : Z; sc_downloads : Z }.
Inductive ScrapeOutcome : Type := Unsupported | Success (counts : gmap PeerInfoHash ScrapeCounts).

Definition scrape_nonnegative_count (entry : dict) (field : string) : outcome Z :=
  value ← ok_or (find_key field entry ≫= as_int) (Parse "tracker scrape field is missing or not an integer");
  ok_or (unsigned_try_from 64 value) (Parse "tracker scrape field is negative").

Definition scrape_entry (files : dict) (parsed : gmap PeerInfoHash ScrapeCounts) (hash : PeerInfoHash)
  : outcome (gmap PeerInfoHash ScrapeCounts) :=
  entry ← ok_or ((snd <$> List.find (fun kv => bool_decide (kv.1 = as_bytes (wire_hash hash))) files) ≫= as_dict)
            (Parse "tracker scrape response has no dictionary for info hash");
  s ← scrape_nonnegative_count entry "complete";
  l ← scrape_nonnegative_count entry "incomplete";
  d ← scrape_nonnegative_count entry "downloaded";
  Ok (<[hash := mkScrapeCounts s l d]> parsed).

Definition parse_scrape_response (body : list byte) (info_hashes : list PeerInfoHash)
  : outcome (gmap PeerInfoHash ScrapeCounts) :=
  _ ← fail_if (bool_decide (info_hashes = [])) (InvalidArgument "tracker scrape requires at least one info hash");
  root ← decode body;
  root ← ok_or (as_dict root) (Parse "tracker scrape response is not a dictionary");
  _ ← fail_if (bool_decide (is_Some (find_key "failure reason" root ≫= as_str_utf8))) (Parse "tracker scrape failure");
  files ← ok_or (find_key "files" root ≫= as_dict) (Parse "tracker scrape response has no files dictionary");
  try_fold (scrape_entry files) ∅ info_hashes.

Definition distinct_hash (distinct : gset PeerInfoHash) (hash : PeerInfoHash) : outcome (gset PeerInfoHash) :=
  if bool_decide (hash ∈ distinct) then Err (InvalidArgument "tracker scrape contains duplicate info hash")
  else Ok ({[hash]} ∪ distinct).

(** [path.rsplit_once('/').unwrap_or(("", path))]. *)
Definition last_segment (path : text) : text * text := default ([], path) (rsplit_once "/" path).

Section scrape_url.
Variable url_parse : text -> option TrackerUrl.
(** [set_path], [set_fragment(None)], [set_query] and [to_string] on the parsed URL,
    and the first key of [form_urlencoded::parse]. *)
Variable url_with : TrackerUrl -> text -> text -> text.
Variable form_first_key : text -> option text.

Definition raw_query_key_is_info_hash (component : text) : bool :=
  let raw_key := default component (fst <$> split_once "=" component) in
  bool_decide (form_first_key raw_key = Some (bytes_of "info_hash")).

Definition build_scrape_url (tracker_url : text) (info_hashes : list PeerInfoHash) : outcome (option text) :=
  _ ← fail_if (bool_decide (info_hashes = [])) (InvalidArgument "tracker scrape requires at least one info hash");
  _ ← try_fold distinct_hash ∅ info_hashes;
  url ← ok_or (url_parse tracker_url) (InvalidArgument "bad tracker URL");
  if negb (bool_decide (url_scheme url = bytes_of "http") || bool_decide (url_scheme url = bytes_of "https")) then Ok None
  else
    let '(directory, final_segment) := last_segment (url_path url) in
    match strip_prefix (bytes_of "announce") final_segment with
    | None => Ok None
    | Some suffix =>
        let scrape_path := directory ++ bytes_of "/scrape" ++ suffix in
        let query_components := match url_query url with
                                | Some query => List.filter (fun c => negb (raw_query_key_is_info_hash c)) (split_byte "&" query)
                                | None => []
                                end in
        let query_components := query_components
              ++ map (fun hash => bytes_of "info_hash=" ++ bytes_escape (as_bytes (wire_hash hash))) info_hashes in
        Ok (Some (url_with url scrape_path (join ["&"] query_components)))
    end.

(** [NetworkBinder::http_get] and [ContainedHttpClient::get_tracker]: a status and
    a body, or a body. *)
Definition http_announce (http_get : text -> outcome (Z * list byte)) (req : AnnounceRequest) : outcome AnnounceResponse :=
  url ← build_url url_parse req;
  '(status, body) ← http_get url;
  if 400 <=? status then Err (Internal "tracker returned an HTTP error") else parse_announce_response body.

Definition http_scrape (get_tracker : text -> outcome (list byte)) (tracker_url : text) (info_hashes : list PeerInfoHash)
  : outcome ScrapeOutcome :=
  scrape_url ← build_scrape_url tracker_url info_hashes;
  match scrape_url with
  | None => Ok Unsupported
  | Some url => body ← get_tracker url; counts ← parse_scrape_response body info_hashes; Ok (Success counts)
  end.
End scrape_url.

(** ** What a tracker reads of a URL *)

(** The form decoding of the URL standard: components split at ampersands, names
    from values at the first equals sign, plus signs are spaces, percent-decoding. *)
Definition form_decode (s : text) : text := percent_decode (map (fun c => if Byte.eqb c "+" then " "%byte else c) s).
Definition form_pair (c : text) : text * text :=
  match split_once "=" c with Some (k, v) => (form_decode k, form_decode v) | None => (form_decode c, []) end.
Definition read_query (q : text) : list (text * text) := map form_pair (split_byte "&" q).

(** The request as the pairs a tracker is to read: info hash and peer id are raw bytes. *)
Definition announce_fields (r : AnnounceRequest) : list (text * text) :=
  [(bytes_of "info_hash", info_hash r); (bytes_of "peer_id", peer_id r)] ++ drop 2 (announce_pairs r).

Definition no_percent (s : text) : Prop := Forall (fun b => b <> "%"%byte) s.

Lemma form_decode_escaped s : Forall (fun b => b <> "+"%byte) s -> form_decode s = percent_decode s.
Proof.
  intros Hs. unfold form_decode. f_equal. induction Hs as [|b s Hb _ IH]; [done|]. cbn [map].
  by rewrite IH, (proj2 (byte_eqb_neq _ _)).
Qed.

Lemma escape_query_chars s : Forall (fun b => query_kept b = true) (escape_query s).
Proof.
  apply (escape_chars query_kept query_kept); [by vm_compute|]. apply Forall_forall. intros b _. destruct (query_kept b); auto.
Qed.
Lemma bytes_escape_chars s : Forall (fun b => query_kept b = true) (bytes_escape s).
Proof.
  apply (escape_chars bytes_kept query_kept); [by vm_compute|]. apply Forall_forall. intros b _.
  assert (forallb (fun b => negb (bytes_kept b) || query_kept b) all_bytes = true) as H by (vm_compute; reflexivity).
  apply (fun H => byte_check _ H b) in H. cbn beta in H. destruct (query_kept b), (bytes_kept b); auto.
Qed.

Lemma kept_not (c : byte) s : query_kept c = false -> Forall (fun b => query_kept b = true) s -> Forall (fun b => b <> c) s.
Proof. intros Hc Hs. eapply Forall_impl; [exact Hs|]. cbn beta. congruence. Qed.
Lemma kept_not_in (c : byte) s : query_kept c = false -> Forall (fun b => query_kept b = true) s -> c ∉ s.
Proof. intros Hc Hs Hin. eapply Forall_forall in Hs; [|exact Hin]. cbn beta in Hs. congruence. Qed.

Lemma form_decode_query s : form_decode (escape_query s) = percent_decode (escape_query s).
Proof. apply form_decode_escaped, kept_not, escape_query_chars. done. Qed.

Lemma escape_query_bytes s : escape_query (bytes_escape s) = bytes_escape s.
Proof. apply escape_kept, bytes_escape_chars. Qed.
Lemma decode_bytes_escape s : percent_decode (bytes_escape s) = s.
Proof. apply percent_decode_escape, Forall_forall. intros b _ Hb ->. discriminate Hb. Qed.
Lemma decode_escape_query s : no_percent s -> percent_decode (escape_query s) = s.
Proof. intros Hs. apply percent_decode_escape. eapply Forall_impl; [exact Hs|]. auto. Qed.

Lemma decode_step c t : percent_decode (c :: t) =
  match Byte.eqb c "%", t with
  | true, a :: b :: r =>
      match to_digit 16 a, to_digit 16 b with Some x, Some y => as_u8 (16 * x + y) :: percent_decode r | _, _ => c :: percent_decode t end
  | _, _ => c :: percent_decode t
  end.
Proof. done. Qed.
Lemma decode_plain c t : c <> "%" -> percent_decode (c :: t) = c :: percent_decode t.
Proof. intros Hc. by rewrite decode_step, (proj2 (byte_eqb_neq _ _) Hc). Qed.
Lemma decode_first a t : to_digit 16 a = None -> percent_decode ("%" :: a :: t) = "%" :: percent_decode (a :: t).
Proof. intros Ha. rewrite decode_step, byte_eqb_refl. destruct t as [|b t]; [done|]. by rewrite Ha. Qed.
Lemma decode_second a b t : to_digit 16 b = None -> percent_decode ("%" :: a :: b :: t) = "%" :: percent_decode (a :: b :: t).
Proof. intros Hb. rewrite decode_step, byte_eqb_refl, Hb. by destruct (to_digit 16 a). Qed.
Lemma query_kept_digit a x : to_digit 16 a = Some x -> query_kept a = true.
Proof.
  assert (forallb (fun a => query_kept a || bool_decide (to_digit 16 a = None)) all_bytes = true) as H by (vm_compute; reflexivity).
  apply (fun H => byte_check _ H a) in H. cbn beta in H. intros E. rewrite E, orb_false_r in H. done.
Qed.
(** The escaped text starts with a digit exactly when the text does. *)
Lemma escape_query_digit a t x : to_digit 16 a = Some x -> escape_query (a :: t) = a :: escape_query t.
Proof. intros Ha. unfold escape_query. by rewrite escape_cons, (query_kept_digit a x Ha). Qed.
Lemma escape_query_other a t : to_digit 16 a = None -> exists c l, escape_query (a :: t) = c :: l /\ to_digit 16 c = None.
Proof. intros Ha. unfold escape_query. rewrite escape_cons. destruct (query_kept a); [by eexists a, _|]. by eexists "%", _. Qed.

(** Escaping keeps percent signs, so reading decodes the text itself. *)
Lemma decode_escape_again s : percent_decode (escape_query s) = percent_decode s.
Proof.
  remember (length s) as n eqn:En. assert (length s <= n)%nat as Hn by lia. clear En. revert s Hn.
  induction n as [|n IH]; intros [|c t] Hn; [done|cbn in Hn; lia|done|]. cbn [length] in Hn.
  destruct (decide (c = "%")) as [->|Hc].
  2: { rewrite (decode_plain c t Hc), <- (IH t) by lia. unfold escape_query. rewrite escape_cons.
       destruct (query_kept c); [by apply decode_plain|apply decode_percent]. }
  assert (escape_query ("%" :: t) = "%" :: escape_query t) as -> by done.
  destruct t as [|a t]; [done|]. cbn [length] in Hn. destruct (to_digit 16 a) as [x|] eqn:Ea.
  2: { destruct (escape_query_other a t Ea) as (c & l & E & Ec). rewrite E, decode_first, <- E, (IH (a :: t)) by (done || cbn; lia). by rewrite decode_first. }
  rewrite (escape_query_digit a t x Ea). destruct t as [|b t]; [done|]. cbn [length] in Hn. destruct (to_digit 16 b) as [y|] eqn:Eb.
  - rewrite (escape_query_digit b t y Eb), !decode_step, byte_eqb_refl, Ea, Eb, (IH t) by lia. done.
  - destruct (escape_query_other b t Eb) as (c & l & E & Ec). rewrite E, decode_second, <- E by done.
    rewrite <- (escape_query_digit a (b :: t) x Ea), (IH (a :: b :: t)) by (cbn; lia). by rewrite decode_second.
Qed.

Definition sent (s : text) : text := percent_decode (escape_query s).

Lemma serde_urlencoded_join pairs :
  serde_urlencoded pairs = join ["&"] (map (fun kv => escape_query kv.1 ++ ["="] ++ escape_query kv.2) pairs).
Proof.
  induction pairs as [|[k v] pairs IH]; [done|]. destruct pairs as [|p pairs]; [done|].
  change (serde_urlencoded ((k, v) :: p :: pairs))
    with (escape_query k ++ ["="] ++ escape_query v ++ ["&"] ++ serde_urlencoded (p :: pairs)).
  rewrite IH. cbn [map join fst snd]. by rewrite <- !app_assoc.
Qed.

Lemma serde_urlencoded_chars c pairs :
  query_kept c = false -> c <> "=" -> c <> "&" -> c ∉ serde_urlencoded pairs.
Proof.
  intros Hc H1 H2. rewrite serde_urlencoded_join.
  enough (Forall (fun b => b <> c) (join ["&"] (map (fun kv => escape_query kv.1 ++ ["="] ++ escape_query kv.2) pairs))) as Hf.
  { intros Hin. by eapply Forall_forall in Hf. }
  apply join_Forall; [by apply Forall_singleton|]. apply Forall_forall. intros s (kv & -> & _)%list_elem_of_fmap.
  apply Forall_app. split; [apply kept_not, escape_query_chars; done|].
  apply Forall_cons. split; [done|]. apply kept_not, escape_query_chars. done.
Qed.

Lemma form_pair_escaped k v : form_pair (escape_query k ++ ["="] ++ escape_query v) = (sent k, sent v).
Proof.
  unfold form_pair. cbn [app]. rewrite split_once_first by (apply kept_not_in; [done|apply escape_query_chars]).
  by rewrite !form_decode_query.
Qed.

Lemma read_query_sent pairs :
  pairs <> [] -> read_query (serde_urlencoded pairs) = map (fun kv => (sent kv.1, sent kv.2)) pairs.
Proof.
  intros Hne. rewrite serde_urlencoded_join. unfold read_query. rewrite split_byte_join.
  - rewrite map_map. apply map_ext. intros [k v]. apply form_pair_escaped.
  - by destruct pairs.
  - apply Forall_forall. intros c (kv & -> & _)%list_elem_of_fmap.
    rewrite !elem_of_app, list_elem_of_singleton. intros [H|[H|H]]; [|done|];
      (eapply kept_not_in; [..|exact H]; [done|apply escape_query_chars]).
Qed.

Lemma digits_sent s : Forall (fun c => is_ascii_digit c = true) s -> sent s = s.
Proof.
  intros Hs. apply decode_escape_query. eapply Forall_impl; [exact Hs|]. cbn beta. intros b Hb ->. discriminate Hb.
Qed.
Lemma print_dec_sent n : 0 <= n -> sent (print_dec n) = print_dec n.
Proof. intros Hn. by apply digits_sent, print_dec_fuel_digits. Qed.

(** The unsigned fields of a request. *)
Definition request_ok (r : AnnounceRequest) : Prop :=
  0 <= req_port r /\ 0 <= uploaded r /\ 0 <= downloaded r /\ 0 <= UdpTracker.left r /\ 0 <= default 0 (numwant r).

Definition sent_pair (kv : text * text) : text * text := (sent kv.1, sent kv.2).
Lemma announce_pairs_sent r : request_ok r -> map sent_pair (announce_pairs r) = announce_fields r.
Proof.
  intros (H1 & H2 & H3 & H4 & H5). unfold announce_fields, announce_pairs, sent_pair. cbn [app map drop fst snd].
  unfold sent at 2 4. rewrite !escape_query_bytes, !decode_bytes_escape, !print_dec_sent by done. f_equal. f_equal.
  rewrite map_app. by destruct (compact r), (event r), (numwant r); cbn [map app fst snd]; rewrite ?print_dec_sent by done.
Qed.

(** C37: The tracker reads from the announce URL the request exactly: after the pairs of
    the URL the torrent names, the raw bytes of the info hash and the peer id, the port,
    the counters, the compact flag, the event and the number of peers wanted; the rest of
    the URL is the scheme, host, port and path it came with.  The named URL's own pairs,
    which the URL's parser has already decoded, are read percent-decoded once more: as
    they are when they have no percent sign. *)
Theorem announce_url_exact url_parse r base :
  url_parse (tracker_url r) = Some base -> request_ok r ->
  exists q,
    build_url url_parse r =
      Ok (url_scheme base ++ bytes_of "://" ++ default [] (url_host base)
          ++ match tracker_port base with Some p => [":"] ++ print_dec p | None => [] end
          ++ url_path base ++ ["?"] ++ q) /\
    ("?" ∉ q) /\ ("#" ∉ q) /\
    read_query q = map (fun kv => (percent_decode kv.1, percent_decode kv.2)) (url_pairs base) ++ announce_fields r /\
    (Forall (fun kv => no_percent kv.1 /\ no_percent kv.2) (url_pairs base) -> read_query q = url_pairs base ++ announce_fields r).
Proof.
  intros Hu Hr. exists (serde_urlencoded (url_pairs base ++ announce_pairs r)). unfold build_url. rewrite Hu. split.
  { cbn [ok_or]. rewrite bind_ret. by destruct (tracker_port base); rewrite <- ?app_assoc. }
  split; [apply serde_urlencoded_chars; done|]. split; [apply serde_urlencoded_chars; done|].
  assert (read_query (serde_urlencoded (url_pairs base ++ announce_pairs r)) = map sent_pair (url_pairs base) ++ announce_fields r) as ->.
  { rewrite read_query_sent by by destruct (url_pairs base).
    change (fun kv : text * text => (sent kv.1, sent kv.2)) with sent_pair. by rewrite map_app, announce_pairs_sent. }
  split; [f_equal; apply map_ext; intros [k v]; unfold sent_pair, sent; by rewrite !decode_escape_again|].
  intros Hb. f_equal. induction Hb as [|[k v] l [Hk Hv] _ IH]; [done|]. cbn [map]. rewrite IH. f_equal. unfold sent_pair, sent.
  by rewrite !decode_escape_query.
Qed.

Lemma announce_url_exact_witness :
  let base := mkTrackerUrl (bytes_of "http") (Some (bytes_of "t.example")) (Some 8080) (bytes_of "/announce") None
                [(bytes_of "key", bytes_of "a b")] in
  let r := mkAnnounceRequest (bytes_of "u") [x00; x26; xff] (bytes_of "-SW-%") 6881 0 5 7 Started (Some 50) true in
  exists q, read_query q = url_pairs base ++ announce_fields r.
Proof.
  intros base r. destruct (announce_url_exact (fun _ => Some base) r base) as (q & _ & _ & _ & _ & Hq); [done|done|].
  exists q. apply Hq, Forall_singleton. split; by repeat constructor.
Defined.

(** A percent sign of the tracker's own query is not escaped again: what was the
    value [%41] is read as [A]. *)
Lemma percent_is_not_escaped :
  read_query (serde_urlencoded [(bytes_of "key", bytes_of "%41")]) = [(bytes_of "key", bytes_of "A")].
Proof. by vm_compute. Qed.

(** ** Answers are read exactly *)

Definition parse_error (e : CoreError) : Prop := (exists m, e = Parse m) \/ (exists m, e = MalformedTorrent m).

(** A compact list as a tracker writes it. *)
Definition compact_peers (peers : list PeerAddr) : list byte :=
  concat (map (fun p => match peer_ip p with V4 a => to_be 4 a | V6 a => to_be 16 a end ++ to_be 2 (peer_port p)) peers).
Definition v4_peers (l : list PeerAddr) : Prop :=
  Forall (fun p => exists a, peer_ip p = V4 a /\ in_width 32 a /\ in_width 16 (peer_port p)) l.
Definition v6_peers (l : list PeerAddr) : Prop :=
  Forall (fun p => exists a, peer_ip p = V6 a /\ in_width 128 a /\ in_width 16 (peer_port p)) l.

Lemma compact_peers_v4 l : v4_peers l -> parse_compact_ipv4 (compact_peers l) = l.
Proof.
  intros Hl. apply compact_records; [lia|]. eapply Forall_impl; [exact Hl|]. intros [i q] (a & E & Hw & Hq).
  cbn [peer_ip peer_port] in *. subst. rewrite length_app, !length_to_be. split; [done|].
  rewrite take_app_length', drop_app_length' by by rewrite length_to_be. by rewrite !of_be_to_be.
Qed.
Lemma compact_peers_v6 l : v6_peers l -> parse_compact_ipv6 (compact_peers l) = l.
Proof.
  intros Hl. apply compact_records; [lia|]. eapply Forall_impl; [exact Hl|]. intros [i q] (a & E & Hw & Hq).
  cbn [peer_ip peer_port] in *. subst. rewrite length_app, !length_to_be. split; [done|].
  rewrite take_app_length', drop_app_length' by by rewrite length_to_be. by rewrite !of_be_to_be.
Qed.

(** An entry that names a peer. *)
Definition names_peer (e : Value) (p : PeerAddr) : Prop :=
  exists s, get_value e (bytes_of "ip") = Some (Str s) /\ utf8_valid s = true /\ parse_ip s = Some (peer_ip p) /\
    get_value e (bytes_of "port") = Some (Int (peer_port p)) /\ in_width 16 (peer_port p).

Lemma peer_entry_names e p : names_peer e p -> peer_entry e = Some p.
Proof.
  intros (s & H1 & H2 & H3 & H4 & H5). unfold peer_entry. rewrite H1, H4. cbn [mbind option_bind as_str_utf8 as_int].
  rewrite H2. cbn [mbind option_bind]. rewrite H3. cbn [mbind option_bind]. rewrite wrap_small by done. by destruct p.
Qed.

Lemma int_field_found key d i : find_key key d = Some (Int i) -> in_width 64 i -> int_field key d = Some i.
Proof. intros H Hi. unfold int_field. rewrite H. cbn [mbind option_bind as_int fmap option_fmap option_map]. by rewrite wrap_small. Qed.

Lemma peers_found d p4 entries dicts p6 :
  find_key "peers" d = match entries with Some es => Some (List es) | None => Some (Str (compact_peers p4)) end ->
  match entries with Some es => Forall2 names_peer es dicts | None => v4_peers p4 /\ dicts = p4 end ->
  find_key "peers6" d = Str ∘ compact_peers <$> p6 -> v6_peers (default [] p6) ->
  (match find_key "peers" d ≫= as_str with
   | Some b => parse_compact_ipv4 b
   | None => match find_key "peers" d ≫= as_list with Some l => omap peer_entry l | None => [] end
   end ++ match find_key "peers6" d ≫= as_str with Some b => parse_compact_ipv6 b | None => [] end)
  = dicts ++ default [] p6.
Proof.
  intros H1 Hd H2 H6. rewrite H1, H2. f_equal.
  - destruct entries as [es|]; cbn [mbind option_bind as_str as_list].
    + clear H1. induction Hd as [|e p es ps He _ IH]; [done|]. cbn [omap list_omap]. change (match peer_entry e with Some y => y :: omap peer_entry es | None => omap peer_entry es end = p :: ps).
      rewrite (peer_entry_names e p He). by rewrite IH.
    + destruct Hd as [H4 ->]. by apply compact_peers_v4.
  - destruct p6 as [l|]; [|done]. by apply compact_peers_v6.
Qed.

(** An announce answer is read exactly.  Every text is answered with a response
    or a bencode or tracker error, never a panic.  A dictionary with a failure reason
    gives the reason and nothing else; without one the interval, the minimal interval,
    the counts, the tracker id and the peers are the ones the tracker wrote, as a
    compact list or as a list of dictionaries, followed by its compact IPv6 peers. *)
Theorem announce_answer_exact d body :
  within_limits (Dict d) ->
  (forall fr, find_key "failure reason" d = Some (Str fr) -> utf8_valid fr = true ->
    parse_announce_response (print (Dict d)) = Ok (mkAnnounceResponse 0 None 0 0 [] (Some fr) None)) /\
  (forall i m s l tid p4 entries ps p6,
    find_key "failure reason" d = None ->
    find_key "interval" d = Some (Int i) -> find_key "min interval" d = Int <$> m ->
    find_key "complete" d = Some (Int s) -> find_key "incomplete" d = Some (Int l) ->
    Forall (in_width 64) [i; default 0 m; s; l] ->
    find_key "tracker id" d = Str <$> tid -> utf8_valid (default [] tid) = true ->
    find_key "peers" d = match entries with Some es => Some (List es) | None => Some (Str (compact_peers p4)) end ->
    match entries with Some es => Forall2 names_peer es ps | None => v4_peers p4 /\ ps = p4 end ->
    find_key "peers6" d = Str ∘ compact_peers <$> p6 -> v6_peers (default [] p6) ->
    parse_announce_response (print (Dict d)) = Ok (mkAnnounceResponse i m s l (ps ++ default [] p6) None tid)) /\
  returns (parse_announce_response body) /\
  err_only (fun e => bencode_error e \/ e = Parse "tracker response not a dict") (parse_announce_response body).
Proof.
  intros Hd. split; [|split; [|split]].
  - intros fr Hf Hu. unfold parse_announce_response. rewrite decode_complete by done. rewrite bind_ret.
    cbn [as_dict ok_or]. rewrite bind_ret, Hf. cbn [mbind option_bind as_str_utf8]. by rewrite Hu.
  - intros i m s l tid p4 entries ps p6 Hf Hi Hm Hs Hl Hw Ht Hu Hp Hps H6 Hv6.
    unfold parse_announce_response. rewrite decode_complete by done. rewrite bind_ret. cbn [as_dict ok_or].
    rewrite bind_ret, Hf. cbn [mbind option_bind]. cbv zeta.
    repeat (apply Forall_cons in Hw as [? Hw]).
    rewrite (int_field_found _ _ _ Hi), (int_field_found _ _ _ Hs), (int_field_found _ _ _ Hl) by done.
    rewrite (peers_found d p4 entries ps p6) by done. f_equal. f_equal.
    + destruct m as [m|]; [by apply int_field_found|]. unfold int_field. by rewrite Hm.
    + rewrite Ht. destruct tid as [t|]; [|done]. cbn [fmap option_fmap option_map mbind option_bind as_str_utf8].
      change (utf8_valid t = true) in Hu. by rewrite Hu.
  - unfold parse_announce_response. apply bind_returns; [apply decode_returns|]. intros v _.
    apply bind_returns; [by destruct v|]. intros d' _. by case_match.
  - unfold parse_announce_response. apply err_only_bind.
    + eapply err_only_weaken; [|apply decode_errors]. auto.
    + intros v. apply err_only_bind; [apply err_only_ok_or; auto|]. intros d'. by case_match.
Qed.

Lemma announce_answer_exact_witness :
  let entry := Dict [(bytes_of "ip", Str (bytes_of "::1")); (bytes_of "port", Int 6881)] in
  let d := [(bytes_of "complete", Int 3); (bytes_of "incomplete", Int 4); (bytes_of "interval", Int 1800);
    (bytes_of "peers", List [entry]); (bytes_of "peers6", Str (compact_peers [mkPeerAddr (V6 2) 7]))] in
  parse_announce_response (print (Dict d)) =
    Ok (mkAnnounceResponse 1800 None 3 4 [mkPeerAddr (V6 1) 6881; mkPeerAddr (V6 2) 7] None None).
Proof.
  intros entry d.
  refine (proj1 (proj2 (announce_answer_exact d [] _)) 1800 None 3 4 None [] (Some [entry]) [mkPeerAddr (V6 1) 6881]
    (Some [mkPeerAddr (V6 2) 7]) _ _ _ _ _ _ _ _ _ _ _ _); try reflexivity.
  - split; [|split; [done|split; [done|by vm_compute]]]. apply wf_Dict.
    split; [by apply (bool_decide_eq_true_1 (NoDup _))|]. repeat (apply Forall_cons; split); try done.
    apply wf_List. apply Forall_singleton. apply wf_Dict.
    split; [by apply (bool_decide_eq_true_1 (NoDup _))|by repeat (apply Forall_cons; split)].
  - by repeat (apply Forall_cons; split).
  - apply Forall2_cons. split; [|constructor]. by exists (bytes_of "::1").
  - apply Forall_singleton. by exists 2.
Defined.

(** A negative interval is read as an enormous one. *)
Lemma negative_interval_wraps :
  parse_announce_response (bytes_of "d8:intervali-1ee") = Ok (mkAnnounceResponse (2 ^ 64 - 1) None 0 0 [] None None).
Proof. by vm_compute. Qed.

(** ** A scrape gives all the counts or fails *)

(** The counts a [files] dictionary gives for a hash. *)
Definition counts_in (files : dict) (h : PeerInfoHash) (c : ScrapeCounts) : Prop :=
  exists entry, (snd <$> List.find (fun kv => bool_decide (kv.1 = as_bytes (wire_hash h))) files) = Some (Dict entry) /\
    find_key "complete" entry = Some (Int (sc_seeders c)) /\ 0 <= sc_seeders c < 2 ^ 64 /\
    find_key "incomplete" entry = Some (Int (sc_leechers c)) /\ 0 <= sc_leechers c < 2 ^ 64 /\
    find_key "downloaded" entry = Some (Int (sc_downloads c)) /\ 0 <= sc_downloads c < 2 ^ 64.

Lemma as_int_Some v i : as_int v = Some i -> v = Int i.
Proof. by destruct v; intros [= ->]. Qed.

Lemma scrape_count_Ok entry field n :
  scrape_nonnegative_count entry field = Ok n <-> find_key field entry = Some (Int n) /\ 0 <= n < 2 ^ 64.
Proof.
  unfold scrape_nonnegative_count, unsigned_try_from. split.
  - intros H. apply bind_Ok in H as (v & Hv & H). destruct (find_key field entry) as [w|]; [|done].
    cbn [mbind option_bind] in Hv. destruct (as_int w) as [i|] eqn:E; [|done]. injection Hv as ->.
    apply as_int_Some in E as ->. destruct ((0 <=? v) && (v <? 2 ^ 64)) eqn:Eb; [|done]. injection H as <-.
    split; [done|lia].
  - intros [-> Hn]. cbn [mbind option_bind as_int ok_or]. rewrite bind_ret.
    assert ((0 <=? n) && (n <? 2 ^ 64) = true) as -> by lia. done.
Qed.

Lemma scrape_entry_Ok files acc h p :
  scrape_entry files acc h = Ok p <-> exists c, counts_in files h c /\ p = <[h := c]> acc.
Proof.
  unfold scrape_entry, counts_in. split.
  - intros H. apply bind_Ok in H as (entry & He & H). apply bind_Ok in H as (s & Hs & H).
    apply bind_Ok in H as (l & Hl & H). apply bind_Ok in H as (d & Hd & H). injection H as <-.
    apply scrape_count_Ok in Hs, Hl, Hd. exists (mkScrapeCounts s l d). split; [|done]. exists entry.
    destruct (snd <$> _) as [v|]; [|done]. cbn [mbind option_bind] in He. destruct v; try done. injection He as ->.
    cbn [sc_seeders sc_leechers sc_downloads]. naive_solver.
  - intros ([s l d] & (entry & E & Hs1 & Hs2 & Hl1 & Hl2 & Hd1 & Hd2) & ->).
    cbn [sc_seeders sc_leechers sc_downloads] in *. rewrite E. cbn [mbind option_bind as_dict ok_or]. rewrite bind_ret.
    rewrite (proj2 (scrape_count_Ok entry "complete" s)), bind_ret by done.
    rewrite (proj2 (scrape_count_Ok entry "incomplete" l)), bind_ret by done.
    by rewrite (proj2 (scrape_count_Ok entry "downloaded" d)), bind_ret.
Qed.

Lemma counts_in_fun files h c c' : counts_in files h c -> counts_in files h c' -> c = c'.
Proof. destruct c, c'. unfold counts_in. cbn. naive_solver. Qed.

Lemma scrape_fold files l : forall acc parsed,
  try_fold (scrape_entry files) acc l = Ok parsed <->
  dom parsed = dom acc ∪ list_to_set l /\
  forall h c, parsed !! h = Some c -> if bool_decide (h ∈ l) then counts_in files h c else acc !! h = Some c.
Proof.
  induction l as [|h l IH]; intros acc parsed; cbn [try_fold list_to_set foldr].
  { split; [intros [= <-]; split; [set_solver|by intros h c]|]. intros [Hd Hl]. f_equal. apply map_eq. intros h.
    destruct (parsed !! h) as [c|] eqn:E; [by apply Hl in E|].
    apply not_elem_of_dom in E. apply not_elem_of_dom. set_solver. }
  split.
  - intros H. apply bind_Ok in H as (acc' & H1 & H). apply scrape_entry_Ok in H1 as (c & Hc & ->).
    apply IH in H as [Hd Hl]. split; [rewrite Hd, dom_insert_L; set_solver|].
    intros g e Hg. apply Hl in Hg. case_bool_decide as H1.
    + rewrite bool_decide_eq_true_2 by set_solver. done.
    + destruct (decide (g = h)) as [->|Hn].
      * rewrite lookup_insert_eq in Hg. injection Hg as ->. rewrite bool_decide_eq_true_2 by set_solver. done.
      * rewrite lookup_insert_ne in Hg by done. rewrite bool_decide_eq_false_2 by set_solver. done.
  - intros [Hd Hl]. assert (h ∈ dom parsed) as [c Hc]%elem_of_dom by set_solver.
    assert (counts_in files h c) as Hin.
    { apply Hl in Hc. rewrite bool_decide_eq_true_2 in Hc by set_solver. done. }
    rewrite (proj2 (scrape_entry_Ok files acc h (<[h := c]> acc))) by eauto. rewrite bind_ret. apply IH. split.
    + rewrite Hd, dom_insert_L. set_solver.
    + intros g e Hg. pose proof (Hl g e Hg) as Hg'. destruct (decide (g = h)) as [->|Hn].
      * assert (e = c) as -> by congruence. clear Hg'. case_bool_decide; [done|]. apply lookup_insert_eq.
      * rewrite lookup_insert_ne by done. case_bool_decide as H1; case_bool_decide as H2; try done; set_solver.
Qed.

(** A scrape answer is all or nothing.  It is accepted exactly when it is a
    bencode dictionary without a failure reason whose [files] dictionary has, for
    every requested hash, a dictionary with the three counts as unsigned numbers; the
    result then has those counts, for the requested hashes and no other.  Parsing
    returns on every body. *)
Theorem scrape_all_or_nothing body hashes parsed :
  (parse_scrape_response body hashes = Ok parsed <->
   hashes <> [] /\ exists root files,
     decode body = Ok (Dict root) /\ (find_key "failure reason" root ≫= as_str_utf8) = None /\
     find_key "files" root = Some (Dict files) /\
     dom parsed = list_to_set hashes /\ (forall h c, parsed !! h = Some c -> counts_in files h c)) /\
  returns (parse_scrape_response body hashes).
Proof.
  split.
  - unfold parse_scrape_response. split.
    + intros H. apply bind_Ok in H as ([] & H1 & H). apply fail_if_Ok in H1. apply bool_decide_eq_false in H1.
      apply bind_Ok in H as (v & Hv & H). apply bind_Ok in H as (root & Hr & H).
      apply bind_Ok in H as ([] & Hf & H). apply fail_if_Ok in Hf. apply bool_decide_eq_false in Hf.
      apply bind_Ok in H as (files & Hfs & H). apply scrape_fold in H as [Hd Hl].
      split; [done|]. exists root, files. destruct v; try done. injection Hr as ->.
      split; [done|]. split; [by apply eq_None_not_Some|].
      split. { destruct (find_key "files" root) as [w|]; [|done]. destruct w; try done. by injection Hfs as ->. }
      split; [set_solver|]. intros h c Hc. pose proof (Hl h c Hc) as H2. case_bool_decide as H3; [done|].
      by rewrite lookup_empty in H2.
    + intros (Hne & root & files & -> & Hf & Hfs & Hd & Hl). rewrite bool_decide_eq_false_2 by done.
      cbn [fail_if]. rewrite !bind_ret. cbn [as_dict ok_or]. rewrite bind_ret, Hf, Hfs.
      rewrite bool_decide_eq_false_2 by by intros []. cbn [fail_if]. rewrite bind_ret.
      cbn [mbind option_bind as_dict ok_or]. rewrite bind_ret. apply scrape_fold. split; [set_solver|].
      intros h c Hc. rewrite bool_decide_eq_true_2; [by apply Hl|].
      apply (elem_of_list_to_set (C := gset PeerInfoHash)). rewrite <- Hd. by apply elem_of_dom.
  - unfold parse_scrape_response. apply bind_returns; [auto|]. intros _ _.
    apply bind_returns; [apply decode_returns|]. intros v _. apply bind_returns; [by destruct v|]. intros root _.
    apply bind_returns; [auto|]. intros _ _. apply bind_returns; [auto|]. intros files _.
    apply try_fold_returns. intros acc h _. unfold scrape_entry.
    repeat (apply bind_returns; [unfold scrape_nonnegative_count; returns_tac|intros ? _]). done.
Qed.

Lemma scrape_all_or_nothing_witness :
  let h := mkPeerInfoHash (pad_array 20 [x01]) in
  let c := mkScrapeCounts 5 6 7 in
  let files := [(as_bytes (wire_hash h),
    Dict [(bytes_of "complete", Int 5); (bytes_of "downloaded", Int 7); (bytes_of "incomplete", Int 6)])] in
  parse_scrape_response (print (Dict [(bytes_of "files", Dict files)])) [h] = Ok {[h := c]}.
Proof.
  intros h c files.
  apply (proj1 (scrape_all_or_nothing (print (Dict [(bytes_of "files", Dict files)])) [h] {[h := c]})).
  split; [done|]. exists [(bytes_of "files", Dict files)], files.
  split; [by vm_compute|]. split; [done|]. split; [done|]. split; [rewrite dom_singleton_L; set_solver|].
  intros g e [<- <-]%lookup_singleton_Some. eexists. split; [reflexivity|]. by cbn [sc_seeders sc_leechers sc_downloads].
Defined.

(** ** The scrape URL *)

Lemma rsplit_once_last b x y : b ∉ y -> rsplit_once b (x ++ b :: y) = Some (x, y).
Proof.
  intros Hy. unfold rsplit_once. replace (rev (x ++ b :: y)) with (rev y ++ b :: rev x).
  - rewrite split_once_first by by rewrite list_elem_of_In, <- in_rev, <- list_elem_of_In. by rewrite !rev_involutive.
  - rewrite rev_app_distr. cbn [rev]. by rewrite <- app_assoc.
Qed.

Lemma distinct_fold l : forall seen,
  (exists s, try_fold distinct_hash seen l = Ok s) <-> NoDup l /\ forall h, h ∈ l -> h ∉ seen.
Proof.
  induction l as [|h l IH]; intros seen; cbn [try_fold].
  { split; [intros _; split; [constructor|set_solver]|eauto]. }
  destruct (decide (h ∈ seen)) as [Hh|Hh].
  - replace (distinct_hash seen h) with (@Err (gset PeerInfoHash) (InvalidArgument "tracker scrape contains duplicate info hash"))
      by (unfold distinct_hash; by rewrite bool_decide_eq_true_2).
    split; [by intros []|]. intros [_ H]. exfalso. apply (H h); set_solver.
  - replace (distinct_hash seen h) with (Ok ({[h]} ∪ seen)) by (unfold distinct_hash; by rewrite bool_decide_eq_false_2).
    rewrite bind_ret, IH, NoDup_cons. set_solver.
Qed.

Lemma distinct_errors l seen :
  err_only (fun e => e = InvalidArgument "tracker scrape contains duplicate info hash") (try_fold distinct_hash seen l) /\
  returns (try_fold distinct_hash seen l).
Proof.
  split; [apply err_only_try_fold; intros|apply try_fold_returns; intros]; unfold distinct_hash; by case_bool_decide.
Qed.

Lemma split_byte_nonempty b s : split_byte b s <> [].
Proof. destruct s as [|a s]; cbn [split_byte]; [done|]. destruct (split_byte b s); [done|]. by case_match. Qed.

Lemma components_free b s : Forall (fun c => b ∉ c) (split_byte b s).
Proof.
  induction s as [|a s IH]; cbn [split_byte]; [by repeat constructor; set_solver|].
  pose proof (split_byte_nonempty b s). destruct (split_byte b s) as [|c l]; [done|].
  destruct (Byte.eqb a b) eqn:E; [constructor; [set_solver|done]|].
  apply byte_eqb_neq in E. apply Forall_cons in IH as [Hc Hl]. constructor; [set_solver|done].
Qed.

Section scrape_url_theorems.
Context (url_parse : text -> option TrackerUrl) (url_with : TrackerUrl -> text -> text -> text) (form_first_key : text -> option text).
(** The form decoder of the url crate on one component without a value. *)
Hypothesis form_first_key_decodes :
  forall c, "&" ∉ c -> "=" ∉ c -> form_first_key c = Some (bytes_of "info_hash") <-> form_decode c = bytes_of "info_hash".

Lemma split_once_key c : "=" ∉ default c (fst <$> split_once "=" c).
Proof.
  induction c as [|b c IH]; [set_solver|]. cbn [split_once]. destruct (Byte.eqb b "=") eqn:E; [set_solver|].
  apply byte_eqb_neq in E. destruct (split_once "=" c) as [[k v]|]; cbn in *; set_solver.
Qed.
Lemma split_once_key_incl b c : b ∈ default c (fst <$> split_once "=" c) -> b ∈ c.
Proof.
  induction c as [|a c IH]; [done|]. cbn [split_once]. destruct (Byte.eqb a "=") eqn:E; [set_solver|].
  destruct (split_once "=" c) as [[k v]|]; cbn in *; set_solver.
Qed.

Lemma raw_key_reads c :
  "&" ∉ c -> raw_query_key_is_info_hash form_first_key c = bool_decide ((form_pair c).1 = bytes_of "info_hash").
Proof.
  intros Hc. unfold raw_query_key_is_info_hash. apply bool_decide_ext. rewrite form_first_key_decodes.
  - unfold form_pair. destruct (split_once "=" c) as [[k v]|]; done.
  - intros Hin%split_once_key_incl. done.
  - apply split_once_key.
Qed.


Definition old_components (u : TrackerUrl) : list text :=
  match url_query u with Some query => split_byte "&" query | None => [] end.
Definition hash_pair (h : PeerInfoHash) : text * text := (bytes_of "info_hash", as_bytes (wire_hash h)).
Definition hash_component (h : PeerInfoHash) : text := bytes_of "info_hash=" ++ bytes_escape (as_bytes (wire_hash h)).
Definition is_hash_key (c : text) : bool := bool_decide ((form_pair c).1 = bytes_of "info_hash").

Lemma hash_component_reads h : form_pair (hash_component h) = hash_pair h.
Proof.
  unfold form_pair, hash_component, hash_pair.
  change (bytes_of "info_hash=" ++ bytes_escape (as_bytes (wire_hash h)))
    with (bytes_of "info_hash" ++ "="%byte :: bytes_escape (as_bytes (wire_hash h))).
  rewrite split_once_first by (apply (bool_decide_eq_true_1 _); by vm_compute). f_equal.
  rewrite form_decode_escaped; [apply decode_bytes_escape|]. by apply kept_not, bytes_escape_chars.
Qed.

Lemma scrape_query_reads u hashes :
  hashes <> [] ->
  let q := join ["&"] (List.filter (fun c => negb (is_hash_key c)) (old_components u) ++ map hash_component hashes) in
  split_byte "&" q = List.filter (fun c => negb (is_hash_key c)) (old_components u) ++ map hash_component hashes /\
  List.filter (fun kv => bool_decide (kv.1 = bytes_of "info_hash")) (read_query q) = map hash_pair hashes.
Proof.
  intros Hne q.
  assert (split_byte "&" q = List.filter (fun c => negb (is_hash_key c)) (old_components u) ++ map hash_component hashes) as E.
  { apply split_byte_join; [by destruct (List.filter _ _), hashes|]. apply Forall_app. split.
    - apply Forall_forall. intros c [Hc _]%list_elem_of_In%filter_In. apply list_elem_of_In in Hc. unfold old_components in Hc.
      destruct (url_query u) as [o|]; [|by apply elem_of_nil in Hc]. pose proof (components_free "&" o) as Hf.
      by eapply Forall_forall in Hf.
    - apply Forall_forall. intros c (h & -> & _)%list_elem_of_fmap. unfold hash_component. rewrite elem_of_app.
      intros [H|H]; [by apply (bool_decide_eq_true_2 _) in H; vm_compute in H|].
      revert H. apply kept_not_in; [done|apply bytes_escape_chars]. }
  split; [exact E|]. unfold read_query. rewrite E, map_app, List.filter_app.
  replace (List.filter _ (map form_pair (List.filter _ _))) with (@nil (text * text)).
  - cbn [app]. rewrite map_map. clear E q Hne. induction hashes as [|h hs IH]; [done|]. cbn [map List.filter].
    rewrite hash_component_reads. unfold hash_pair at 1. cbn [fst]. rewrite bool_decide_eq_true_2 by done. by rewrite IH.
  - clear E q. induction (old_components u) as [|c l IH]; [done|]. cbn [List.filter]. destruct (is_hash_key c) eqn:Ec; cbn [negb]; [exact IH|].
    cbn [map List.filter]. unfold is_hash_key in Ec. by rewrite Ec.
Qed.

Abbreviation scrape_url := (build_scrape_url url_parse url_with form_first_key).

(** The scrape URL asks for the requested hashes and nothing else.  Distinct
    hashes for a tracker at [<dir>/announce<suffix>] over HTTP give [<dir>/scrape<suffix>]
    with a query that keeps the raw components of the old one in order, except those
    that name a hash, and whose form-decoded [info_hash] values are the requested
    hashes, in order; a tracker of another scheme or path is unsupported, and no
    hash or a repeated one is refused. *)
Theorem scrape_url_exact tracker hashes u dir suffix :
  url_parse tracker = Some u -> hashes <> [] -> "/" ∉ suffix ->
  (NoDup hashes -> url_scheme u = bytes_of "http" \/ url_scheme u = bytes_of "https" ->
   url_path u = dir ++ bytes_of "/announce" ++ suffix -> exists q,
     scrape_url tracker hashes = Ok (Some (url_with u (dir ++ bytes_of "/scrape" ++ suffix) q)) /\
     split_byte "&" q = List.filter (fun c => negb (is_hash_key c)) (old_components u) ++ map hash_component hashes /\
     List.filter (fun kv => bool_decide (kv.1 = bytes_of "info_hash")) (read_query q) = map hash_pair hashes) /\
  (NoDup hashes -> url_scheme u <> bytes_of "http" /\ url_scheme u <> bytes_of "https" \/
   url_path u = dir ++ ["/"%byte] ++ suffix /\ strip_prefix (bytes_of "announce") suffix = None ->
   scrape_url tracker hashes = Ok None) /\
  (~ NoDup hashes -> exists m, scrape_url tracker hashes = Err (InvalidArgument m)).
Proof.
  intros Hu Hne Hs. unfold build_scrape_url. rewrite bool_decide_eq_false_2 by done. cbn [fail_if]. rewrite bind_ret.
  split; [|split].
  - intros Hn Hsch Hp. destruct (proj2 (distinct_fold hashes ∅)) as [seen ->]; [set_solver|]. rewrite bind_ret, Hu.
    cbn [ok_or]. rewrite bind_ret.
    assert (bool_decide (url_scheme u = bytes_of "http") || bool_decide (url_scheme u = bytes_of "https") = true) as ->
      by (apply orb_true_iff; by rewrite !bool_decide_eq_true).
    cbn [negb]. unfold last_segment.
    assert (rsplit_once "/" (url_path u) = Some (dir, bytes_of "announce" ++ suffix)) as ->.
    { rewrite Hp. apply (rsplit_once_last "/" dir (bytes_of "announce" ++ suffix)). rewrite elem_of_app.
      intros [H|H]; [|done]. by apply (bool_decide_eq_true_2 _) in H; vm_compute in H. }
    cbn [default from_option id]. change (strip_prefix (bytes_of "announce") (bytes_of "announce" ++ suffix)) with (Some suffix).
    cbv iota beta.
    eexists. split; [reflexivity|].
    replace (match url_query u with Some _ => _ | None => _ end)
      with (List.filter (fun c => negb (is_hash_key c)) (old_components u)); [by apply scrape_query_reads|].
    unfold old_components. destruct (url_query u) as [o|]; [|done]. apply filter_ext_in. intros c Hc.
    apply list_elem_of_In in Hc. unfold is_hash_key. by rewrite raw_key_reads by
      (pose proof (components_free "&" o) as Hf; by eapply Forall_forall in Hf).
  - intros Hn Hc. destruct (proj2 (distinct_fold hashes ∅)) as [seen ->]; [set_solver|]. rewrite bind_ret, Hu.
    cbn [ok_or]. rewrite bind_ret. destruct Hc as [[H1 H2]|[Hp Hx]].
    + by rewrite !bool_decide_eq_false_2.
    + destruct (negb _); [done|]. unfold last_segment. rewrite Hp. cbn [app]. rewrite rsplit_once_last by done.
      cbn [default from_option id]. cbv iota beta. by rewrite Hx.
  - intros Hn. destruct (distinct_errors hashes ∅) as [He Hr]. pose proof (distinct_fold hashes ∅) as Hd.
    destruct (try_fold _ _ _) as [s|e| |]; [|cbn in He; subst; by eexists|done..].
    exfalso. apply Hn, Hd. by exists s.
Qed.
End scrape_url_theorems.

Lemma scrape_url_exact_witness :
  let u := mkTrackerUrl (bytes_of "http") None None (bytes_of "/t/announce.php") (Some (bytes_of "k=v&info%5Fhash=x&a+b")) [] in
  let h := mkPeerInfoHash (pad_array 20 [x26]) in
  exists q, build_scrape_url (fun _ => Some u) (fun _ p q => p ++ ["?"%byte] ++ q) (fun c => Some (form_decode c)) [] [h]
              = Ok (Some (bytes_of "/t/scrape.php?" ++ q)) /\
    List.filter (fun kv => bool_decide (kv.1 = bytes_of "info_hash")) (read_query q) = [hash_pair h].
Proof.
  intros u h.
  destruct (proj1 (scrape_url_exact (fun _ => Some u) (fun _ p q => p ++ ["?"%byte] ++ q) (fun c => Some (form_decode c))
    ltac:(intros; split; [by intros [= ->]|by intros ->]) [] [h] u (bytes_of "/t") (bytes_of ".php")
    eq_refl ltac:(done) ltac:(apply (bool_decide_eq_true_1 _); by vm_compute)) (NoDup_singleton h) (or_introl eq_refl) eq_refl)
    as (q & Hq & _ & Hf).
  exists q. split; [exact Hq|exact Hf].
Defined.
