(* ===== verification/Talk.v ===== *)
(** * Dialogues over a byte stream

    Async code that writes to a stream and reads from it, run by one task: what it
    returns and what is left of the stream.  [write_all] and [read_exact] of tokio take
    the error their caller maps a failure to. *)

From S2P Require Import Prelude.

Local Open Scope Z_scope.

(** The bytes that arrive before the end of the stream, the bytes written, and how
    many more are taken before writing fails. *)
Record Stream : Type := mkStream { rx : list byte; tx : list byte; room : Z }.

Definition talk (A : Type) : Type := Stream -> outcome A * Stream.
#[export] Instance talk_ret : MRet talk := fun _ a s => (Ok a, s).
#[export] Instance talk_bind : MBind talk := fun _ _ k m s =>
  match m s with
  | (Ok a, s) => k a s
  | (Err e, s) => (Err e, s)
  | (Panic, s) => (Panic, s)
  | (OutOfFuel, s) => (OutOfFuel, s)
  end.
Definition pure {A} (m : outcome A) : talk A := fun s => (m, s).

Definition write_all (e : CoreError) (bytes : list byte) : talk () := fun s =>
  if len bytes <=? room s then (Ok (), mkStream (rx s) (tx s ++ bytes) (room s - len bytes))
  else (Err e, mkStream (rx s) (tx s ++ take (Z.to_nat (room s)) bytes) 0).
Definition read_exact (e : CoreError) (n : Z) : talk (list byte) := fun s =>
  if n <=? len (rx s) then
    (Ok (take (Z.to_nat n) (rx s)), mkStream (drop (Z.to_nat n) (rx s)) (tx s) (room s))
  else (Err e, mkStream [] (tx s) (room s)).

(** ** Laws *)

Lemma talk_bind_Ok {A B} (m : talk A) (k : A -> talk B) s b s' :
  (m ≫= k) s = (Ok b, s') <-> exists a s1, m s = (Ok a, s1) /\ k a s1 = (Ok b, s').
Proof. unfold mbind, talk_bind. destruct (m s) as [[a|e| |] s1]; naive_solver. Qed.
Lemma talk_seq_Ok {B} (m : talk ()) (k : talk B) s b s' :
  (_ ← m; k) s = (Ok b, s') <-> exists s1, m s = (Ok (), s1) /\ k s1 = (Ok b, s').
Proof. rewrite talk_bind_Ok. split; [intros ([] & H); done|intros H; by exists tt]. Qed.
Lemma talk_step {A B} (m : talk A) (k : A -> talk B) s a s1 : m s = (Ok a, s1) -> (m ≫= k) s = k a s1.
Proof. intros H. unfold mbind, talk_bind. by rewrite H. Qed.
Lemma pure_Ok {A} (m : outcome A) s a s' : pure m s = (Ok a, s') <-> m = Ok a /\ s' = s.
Proof. unfold pure. naive_solver. Qed.
Lemma ret_Ok {A} (a : A) s b s' : mret (M := talk) a s = (Ok b, s') <-> b = a /\ s' = s.
Proof. unfold mret, talk_ret. naive_solver. Qed.

Lemma write_all_Ok e bytes s u s' :
  write_all e bytes s = (Ok u, s') <-> len bytes <= room s /\ s' = mkStream (rx s) (tx s ++ bytes) (room s - len bytes).
Proof. unfold write_all. destruct u, (Z.leb_spec (len bytes) (room s)); naive_solver lia. Qed.

Lemma read_exact_Ok e n s a s' :
  0 <= n ->
  read_exact e n s = (Ok a, s') <-> len a = n /\ exists t, rx s = a ++ t /\ s' = mkStream t (tx s) (room s).
Proof.
  intros Hn. unfold read_exact, len. destruct (Z.leb_spec n (Z.of_nat (length (rx s)))) as [Hl|Hl].
  - split.
    + intros [= <- <-]. rewrite length_take. split; [lia|]. exists (drop (Z.to_nat n) (rx s)). by rewrite take_drop.
    + intros [Ha (t & E & ->)]. rewrite E. rewrite take_app_length', drop_app_length' by lia. done.
  - split; [done|]. intros [Ha (t & E & _)]. apply (f_equal length) in E. rewrite length_app in E. lia.
Qed.
