(* ===== verification/Socks5.v ===== *)
(** * The SOCKS5 binder: [crates/swarmotter-core/src/net/socks5.rs]

    The [NetworkBinder] trait as a class, the contained binder as an instance, and the
    proxy layer as an instance over any other.  Streams are those of Talk.v.
    The theorems: the handshake takes exactly the proxy's reply
    off the stream, and the layer over the contained binder reaches the proxy and
    nothing else. *)

From S2P Require Import Prelude Text Addr Containment Gate Binder Talk.

Local Open Scope byte_scope.
Local Open Scope Z_scope.

(** ** The handshake *)

(** [write_proxy] and [read_proxy]. *)
Definition write_proxy : list byte -> talk () := write_all (Proxy "SOCKS5 proxy connection write failed").
Definition read_proxy : Z -> talk (list byte) := read_exact (Proxy "SOCKS5 proxy response was truncated").

Definition SOCKS5_VERSION : byte := x05.
Definition SOCKS5_AUTH_VERSION : byte := x01.
Definition SOCKS5_NO_AUTH : byte := x00.
Definition SOCKS5_USERNAME_PASSWORD : byte := x02.
Definition SOCKS5_NO_ACCEPTABLE_METHODS : byte := xff.
Definition SOCKS5_COMMAND_CONNECT : byte := x01.
Definition SOCKS5_ATYP_IPV4 : byte := x01.
Definition SOCKS5_ATYP_DOMAIN : byte := x03.
Definition SOCKS5_ATYP_IPV6 : byte := x04.

Inductive Socks5Target : Type := TargetSocket (a : SocketAddr) | TargetDomain (host : list byte) (port : Z).

Definition u8_try_from (n : Z) : option byte := if n <=? 255 then Some (as_u8 n) else None.

Definition authenticate_username_password (c : Socks5ProxyConfig) : talk () :=
  username ← pure (ok_or (username c) (InvalidConfig "network.socks5 username/password configuration is incomplete"));
  password ← pure (ok_or (password c) (InvalidConfig "network.socks5 username/password configuration is incomplete"));
  username_len ← pure (ok_or (u8_try_from (len username)) (InvalidConfig "network.socks5.username must contain 1 to 255 bytes"));
  password_len ← pure (ok_or (u8_try_from (len password)) (InvalidConfig "network.socks5.password must contain 1 to 255 bytes"));
  _ ← write_proxy ([SOCKS5_AUTH_VERSION; username_len] ++ username ++ [password_len] ++ password);
  response ← read_proxy 2;
  r0 ← pure (index response 0);
  r1 ← pure (index response 1);
  pure (fail_if (negb (Byte.eqb r0 SOCKS5_AUTH_VERSION) || negb (Byte.eqb r1 x00))
          (Proxy "SOCKS5 username/password authentication was rejected")).

Definition negotiate_authentication (c : Socks5ProxyConfig) : talk () :=
  let method := if has_authentication c then SOCKS5_USERNAME_PASSWORD else SOCKS5_NO_AUTH in
  _ ← write_proxy [SOCKS5_VERSION; x01; method];
  response ← read_proxy 2;
  r0 ← pure (index response 0);
  _ ← pure (fail_if (negb (Byte.eqb r0 SOCKS5_VERSION)) (Proxy "SOCKS5 proxy returned an unsupported protocol version"));
  r1 ← pure (index response 1);
  _ ← pure (fail_if (Byte.eqb r1 SOCKS5_NO_ACCEPTABLE_METHODS)
              (Proxy "SOCKS5 proxy accepted no offered authentication method"));
  _ ← pure (fail_if (negb (Byte.eqb r1 method))
              (Proxy "SOCKS5 proxy selected an authentication method not permitted by configuration"));
  if Byte.eqb method SOCKS5_USERNAME_PASSWORD then authenticate_username_password c else mret ().

Definition push_socket_target (a : SocketAddr) : list byte :=
  match ip a with
  | V4 x => [SOCKS5_ATYP_IPV4] ++ to_be 4 x
  | V6 x => [SOCKS5_ATYP_IPV6] ++ to_be 16 x
  end ++ to_be 2 (port a).

Definition send_connect_request (target : Socks5Target) : talk () :=
  address ← (match target with
             | TargetSocket a => mret (push_socket_target a)
             | TargetDomain host port =>
                 match parse_ip host with
                 | Some a => mret (push_socket_target (mkSocketAddr a port))
                 | None =>
                     length ← pure (ok_or (u8_try_from (len host))
                                      (Proxy "SOCKS5 target hostname exceeds the protocol's 255-byte limit"));
                     _ ← pure (fail_if (Byte.eqb length x00) (Proxy "SOCKS5 target hostname must not be empty"));
                     mret ([SOCKS5_ATYP_DOMAIN; length] ++ host ++ to_be 2 port)
                 end
             end);
  write_proxy ([SOCKS5_VERSION; SOCKS5_COMMAND_CONNECT; x00] ++ address).

Definition consume_bound_address (atyp : byte) : talk () :=
  if Byte.eqb atyp SOCKS5_ATYP_IPV4 then _ ← read_proxy 6; mret ()
  else if Byte.eqb atyp SOCKS5_ATYP_IPV6 then _ ← read_proxy 18; mret ()
  else if Byte.eqb atyp SOCKS5_ATYP_DOMAIN then
    length ← read_proxy 1;
    l0 ← pure (index length 0);
    _ ← read_proxy (u8 l0 + 2);
    mret ()
  else pure (Err (Proxy "SOCKS5 proxy returned an unsupported CONNECT address type")).

Definition connect_reply_name (reply : byte) : string :=
  match u8 reply with
  | 1 => "general failure" | 2 => "connection not allowed" | 3 => "network unreachable" | 4 => "host unreachable"
  | 5 => "connection refused" | 6 => "TTL expired" | 7 => "command unsupported" | 8 => "address type unsupported"
  | _ => "unknown failure"
  end.

Definition read_connect_response : talk () :=
  header ← read_proxy 4;
  h0 ← pure (index header 0);
  _ ← pure (fail_if (negb (Byte.eqb h0 SOCKS5_VERSION)) (Proxy "SOCKS5 proxy returned an unsupported CONNECT response version"));
  h2 ← pure (index header 2);
  _ ← pure (fail_if (negb (Byte.eqb h2 x00)) (Proxy "SOCKS5 proxy returned a malformed CONNECT response"));
  h1 ← pure (index header 1);
  _ ← pure (fail_if (negb (Byte.eqb h1 x00))
              (Proxy (String.append "SOCKS5 proxy CONNECT was refused: " (connect_reply_name h1))));
  h3 ← pure (index header 3);
  consume_bound_address h3.

Section handshake.
Variable host_parse : list byte -> option Host.

Definition socks5_connect (c : Socks5ProxyConfig) (target : Socks5Target) : talk () :=
  _ ← pure (validate_socks5 host_parse c);
  _ ← negotiate_authentication c;
  _ ← send_connect_request target;
  read_connect_response.
End handshake.

(** ** The trait *)

(** [NetworkBinder]: over a state [W], connections carry a stream, listeners and
    datagram sockets are of types [L] and [U]. *)
Class NetworkBinder (W L U : Type) : Type := mkNetworkBinder {
  nb_connect_peer : SocketAddr -> W -> outcome (socket * Stream) * W;
  nb_connect_host : list byte -> Z -> W -> outcome (socket * Stream) * W;
  nb_resolve_host : list byte -> Z -> W -> outcome SocketAddr * W;
  nb_udp_socket : W -> outcome U * W;
  nb_udp_socket_for : option SocketAddr -> W -> outcome U * W;
  nb_udp_socket_on : option SocketAddr -> Z -> W -> outcome U * W;
  nb_bind_peer_listener : Z -> W -> outcome L * W;
  nb_bind_diagnostic_listener : Z -> W -> outcome L * W;
  nb_traffic_allowed : W -> bool }.

(** The operations of the trait, for statements about all of them. *)
Inductive trait_op : Type :=
  | TConnectPeer (a : SocketAddr) | TConnectHost (host : list byte) (port : Z) | TResolve (host : list byte) (port : Z)
  | TUdp | TUdpFor (remote : option SocketAddr) | TUdpOn (remote : option SocketAddr) (local_port : Z)
  | TListen (port : Z) | TDiagnostic (port : Z).

Definition trait_perform {W L U} `{NetworkBinder W L U} (o : trait_op) (w : W) : W :=
  match o with
  | TConnectPeer a => (nb_connect_peer a w).2
  | TConnectHost host port => (nb_connect_host host port w).2
  | TResolve host port => (nb_resolve_host host port w).2
  | TUdp => (nb_udp_socket w).2
  | TUdpFor remote => (nb_udp_socket_for remote w).2
  | TUdpOn remote port => (nb_udp_socket_on remote port w).2
  | TListen port => (nb_bind_peer_listener port w).2
  | TDiagnostic port => (nb_bind_diagnostic_listener port w).2
  end.

(** State passing with errors. *)
Definition then_ {W A B} (r : outcome A * W) (k : A -> W -> outcome B * W) : outcome B * W :=
  match r with
  | (Ok a, w) => k a w
  | (Err e, w) => (Err e, w)
  | (Panic, w) => (Panic, w)
  | (OutOfFuel, w) => (OutOfFuel, w)
  end.

Section contained.
Context {N : Type} `{NotifyOps N} (probe : InterfaceProbe) (sys : system).
(** The stream of a connection, by the count of system calls when it was made. *)
Variable traffic : nat -> Stream.

Definition contained_connect (a : SocketAddr) (b : ContainedBinder N) : outcome (socket * Stream) * ContainedBinder N :=
  let '(r, b) := connect_peer probe sys a b in ((fun s => (s, traffic (calls b))) <$> r, b).

(** The contained binder, with the trait's own [connect_host]. *)
Definition contained_binder : NetworkBinder (ContainedBinder N) (option socket * option socket) socket := {|
  nb_connect_peer := contained_connect;
  nb_connect_host := fun host port b =>
    then_ (resolve_host probe sys host port b) (fun addr b => contained_connect addr b);
  nb_resolve_host := resolve_host probe sys;
  nb_udp_socket := udp_socket probe sys;
  nb_udp_socket_for := udp_socket_for probe sys;
  nb_udp_socket_on := udp_socket_on probe sys;
  nb_bind_peer_listener := bind_peer_listener probe sys;
  nb_bind_diagnostic_listener := bind_diagnostic_listener probe sys;
  nb_traffic_allowed := binder_traffic_allowed probe |}.
End contained.

(** ** The proxy layer *)

Section socks5.
Context {W L U : Type} (inner : NetworkBinder W L U) (host_parse : list byte -> option Host).
(** Whether a handshake takes longer than ten seconds. *)
Variable too_slow : Stream -> bool.
Variable c : Socks5ProxyConfig.

Definition open_proxy_stream (w : W) : outcome (socket * Stream) * W :=
  match normalized_host host_parse c with
  | Ok host => then_ (nb_resolve_host host (socks_port c) w) (fun proxy w => nb_connect_peer proxy w)
  | Err e => (Err e, w)
  | Panic => (Panic, w)
  | OutOfFuel => (OutOfFuel, w)
  end.

Definition connect_target (target : Socks5Target) (w : W) : outcome (socket * Stream) * W :=
  then_ (open_proxy_stream w) (fun '(s, stream) w =>
    if too_slow stream then (Err (Proxy "SOCKS5 proxy handshake timed out"), w)
    else let '(r, stream) := socks5_connect host_parse c target stream in ((fun _ => (s, stream)) <$> r, w)).

Definition udp_blocked_error : CoreError :=
  Proxy "SOCKS5 proxy support is TCP CONNECT only; UDP tracker, DHT, and uTP traffic is blocked rather than sent directly".
Definition target_resolution_blocked_error : CoreError :=
  Proxy "SOCKS5 proxy support uses remote DNS only for TCP CONNECT targets; direct target hostname resolution is blocked".

Definition socks5_binder : NetworkBinder W L U := {|
  nb_connect_peer := fun addr => connect_target (TargetSocket addr);
  nb_connect_host := fun host port => connect_target (TargetDomain host port);
  nb_resolve_host := fun _ _ w => (Err target_resolution_blocked_error, w);
  nb_udp_socket := fun w => (Err udp_blocked_error, w);
  nb_udp_socket_for := fun _ w => (Err udp_blocked_error, w);
  nb_udp_socket_on := fun _ _ w => (Err udp_blocked_error, w);
  nb_bind_peer_listener := nb_bind_peer_listener;
  nb_bind_diagnostic_listener := nb_bind_diagnostic_listener;
  nb_traffic_allowed := nb_traffic_allowed |}.
End socks5.

(** ** Which binder the daemon uses *)

Definition make_binder {N} `{NotifyOps N} (probe : InterfaceProbe) (sys : system) (traffic : nat -> Stream)
    (host_parse : list byte -> option Host) (too_slow : Stream -> bool) (c : NetworkConfig)
  : NetworkBinder (ContainedBinder N) (option socket * option socket) socket :=
  let contained := contained_binder probe sys traffic in
  if enabled (socks5 c) then socks5_binder contained host_parse too_slow (socks5 c) else contained.

(** ** The handshake is exact *)

Lemma fail_if_not_Ok b e u : fail_if (negb b) e = Ok u <-> b = true.
Proof. rewrite fail_if_Ok. by destruct b. Qed.

Lemma two_bytes (l : list byte) : len l = 2 -> exists a b, l = [a; b].
Proof. unfold len. destruct l as [|a [|b [|]]]; cbn; try lia. eauto. Qed.
Lemma four_bytes (l : list byte) : len l = 4 -> exists a b c d, l = [a; b; c; d].
Proof. unfold len. destruct l as [|a [|b [|c [|d [|]]]]]; cbn; try lia. eauto 6. Qed.

(** What the client says, by RFC 1928 and RFC 1929. *)
Definition method_of (c : Socks5ProxyConfig) : byte := if has_authentication c then x02 else x00.
Definition auth_request (c : Socks5ProxyConfig) : list byte :=
  match username c, password c with
  | Some u, Some p => [x01; as_u8 (len u)] ++ u ++ [as_u8 (len p)] ++ p
  | _, _ => []
  end.
Definition target_bytes (t : Socks5Target) : list byte :=
  match t with
  | TargetSocket a => push_socket_target a
  | TargetDomain host port =>
      match parse_ip host with
      | Some a => push_socket_target (mkSocketAddr a port)
      | None => [x03; as_u8 (len host)] ++ host ++ to_be 2 port
      end
  end.
Definition greeting (c : Socks5ProxyConfig) : list byte := [x05; x01; method_of c].
Definition request (c : Socks5ProxyConfig) (t : Socks5Target) : list byte :=
  greeting c ++ auth_request c ++ [x05; x01; x00] ++ target_bytes t.
Definition target_ok (t : Socks5Target) : Prop :=
  match t with TargetDomain host _ => parse_ip host = None -> 1 <= len host <= 255 | TargetSocket _ => True end.

(** What a proxy says that grants the connection. *)
Definition auth_reply (c : Socks5ProxyConfig) : list byte := if has_authentication c then [x01; x00] else [].
Definition bound_address (atyp : byte) (bound : list byte) : Prop :=
  atyp = x01 /\ len bound = 6 \/ atyp = x04 /\ len bound = 18 \/
  atyp = x03 /\ exists n rest, bound = n :: rest /\ len rest = u8 n + 2.
Definition grants (c : Socks5ProxyConfig) (r : list byte) : Prop :=
  exists atyp bound, r = [x05; method_of c] ++ auth_reply c ++ [x05; x00; x00; atyp] ++ bound /\ bound_address atyp bound.

Lemma u8_try_from_ok n : n <= 255 -> u8_try_from n = Some (as_u8 n).
Proof. intros Hn. unfold u8_try_from. by rewrite (proj2 (Z.leb_le n 255)). Qed.

Lemma authenticate_Ok c u p r t m s' :
  username c = Some u -> password c = Some p -> len u <= 255 -> len p <= 255 ->
  authenticate_username_password c (mkStream r t m) = (Ok (), s') <->
  exists r', r = [x01; x00] ++ r' /\ len (auth_request c) <= m /\
    s' = mkStream r' (t ++ auth_request c) (m - len (auth_request c)).
Proof.
  intros Hu Hp Lu Lp. unfold authenticate_username_password, auth_request. rewrite Hu, Hp.
  repeat setoid_rewrite talk_bind_Ok. repeat setoid_rewrite pure_Ok. setoid_rewrite write_all_Ok.
  split.
  - intros (u' & ? & [E1 ->] & p' & ? & [E2 ->] & lu & ? & [E3 ->] & lp & ? & [E4 ->] & [] & ? & [Hm ->] & resp & ? & Hr & H).
    injection E1 as <-. injection E2 as <-. rewrite u8_try_from_ok in E3, E4 by done.
    injection E3 as <-. injection E4 as <-.
    apply read_exact_Ok in Hr as (Hlen & r' & E & ->); [|done]. cbn [rx tx room] in *.
    destruct (two_bytes _ Hlen) as (a & b & ->). destruct H as (? & ? & [E0 ->] & ? & ? & [E1 ->] & E2 & ->).
    injection E0 as <-. injection E1 as <-. apply fail_if_Ok, orb_false_iff in E2 as [Ha Hb].
    apply negb_false_iff, byte_eqb_eq in Ha, Hb. subst. by exists r'.
  - intros (r' & -> & Hm & ->).
    do 2 eexists. split; [done|]. do 2 eexists. split; [done|].
    do 2 (do 2 eexists; split; [by rewrite u8_try_from_ok|]).
    exists tt. eexists. split; [by split|]. exists [x01; x00]. eexists. split; [apply read_exact_Ok; [done|]; split; [done|]; by eexists|].
    do 2 eexists. split; [done|]. do 2 eexists. split; [done|]. done.
Qed.

(** Configurations that validate: both credentials of 1 to 255 bytes, or none. *)
Lemma validated_credentials host_parse c :
  validate_socks5 host_parse c = Ok () ->
  (username c = None /\ password c = None /\ has_authentication c = false) \/
  (exists u p, username c = Some u /\ password c = Some p /\ has_authentication c = true /\ len u <= 255 /\ len p <= 255).
Proof.
  unfold validate_socks5, has_authentication. intros H. apply bind_Ok in H as ([] & _ & H). apply bind_Ok in H as ([] & _ & H).
  destruct (username c) as [u|], (password c) as [p|]; try done; [|by left].
  apply bind_Ok in H as ([] & Hu & Hp). apply fail_if_Ok, orb_false_iff in Hu as [_ Hu], Hp as [_ Hp].
  right. exists u, p. repeat split; lia.
Qed.

Lemma negotiate_Ok host_parse c r t m s' :
  validate_socks5 host_parse c = Ok () ->
  negotiate_authentication c (mkStream r t m) = (Ok (), s') <->
  exists r', r = [x05; method_of c] ++ auth_reply c ++ r' /\ len (greeting c ++ auth_request c) <= m /\
    s' = mkStream r' (t ++ greeting c ++ auth_request c) (m - len (greeting c ++ auth_request c)).
Proof.
  intros Hv. unfold negotiate_authentication. repeat setoid_rewrite talk_bind_Ok. repeat setoid_rewrite pure_Ok.
  setoid_rewrite write_all_Ok. fold (method_of c).
  pose proof (len_nonneg (auth_request c)) as Ha. rewrite (len_app (greeting c)). change (len (greeting c)) with 3.
  assert (forall r2 t2 m2 s2, (if Byte.eqb (method_of c) SOCKS5_USERNAME_PASSWORD then authenticate_username_password c else mret ())
      (mkStream r2 t2 m2) = (Ok (), s2) <->
    exists r', r2 = auth_reply c ++ r' /\ (len (auth_request c) <= m2 \/ has_authentication c = false) /\
      s2 = mkStream r' (t2 ++ auth_request c) (m2 - len (auth_request c))) as Hauth.
  { intros r2 t2 m2 s2. unfold method_of, auth_reply.
    destruct (validated_credentials _ _ Hv) as [(Hu & Hp & ->)|(u & p & Hu & Hp & -> & Lu & Lp)].
    - change (Byte.eqb x00 SOCKS5_USERNAME_PASSWORD) with false. cbv iota. rewrite ret_Ok. unfold auth_request. rewrite Hu. rewrite app_nil_r, Z.sub_0_r. cbn [app]. naive_solver.
    - change (Byte.eqb x02 SOCKS5_USERNAME_PASSWORD) with true. cbv iota. rewrite (authenticate_Ok c u p r2 t2 m2 s2) by done. naive_solver. }
  assert (has_authentication c = false -> len (auth_request c) = 0) as Hnone.
  { intros Hn. destruct (validated_credentials _ _ Hv) as [(Hu & Hp & _)|(u & p & _ & _ & ? & _)]; [|congruence].
    unfold auth_request. by rewrite Hu. }
  split.
  - intros ([] & ? & [Hm ->] & resp & ? & Hr & H). change (len [_; _; _]) with 3 in *.
    apply read_exact_Ok in Hr as (Hlen & r1 & E & ->); [|done]. cbn [rx tx room] in *.
    destruct (two_bytes _ Hlen) as (a & b & ->). destruct H as (? & ? & [E0 ->] & ? & ? & [E1 ->] & ? & ? & [E2 ->] & H).
    injection E0 as <-. injection E2 as <-. destruct H as (? & ? & [E3 ->] & ? & ? & [E4 ->] & H).
    apply fail_if_not_Ok, byte_eqb_eq in E1, E4. subst a b. apply Hauth in H as (r' & -> & Hl & ->).
    exists r'. split; [exact E|]. split; [destruct Hl as [|Hl%Hnone]; lia|]. f_equal; [by rewrite <- app_assoc|lia].
  - intros (r' & -> & Hm & ->). exists tt. eexists. split; [split; [change (len [_; _; _]) with 3; cbn [room]; lia|done]|].
    exists [x05; method_of c]. eexists.
    split; [apply read_exact_Ok; [done|]; split; [done|]; exists (auth_reply c ++ r'); done|].
    do 2 eexists. split; [done|]. exists tt. eexists. split; [done|]. do 2 eexists. split; [done|]. exists tt. eexists.
    split; [split; [apply fail_if_Ok; unfold method_of; by destruct (has_authentication c)|done]|].
    exists tt. eexists. split; [split; [apply fail_if_not_Ok, byte_eqb_refl|done]|]. apply Hauth. exists r'. split; [done|].
    cbn [tx room]. change (len [_; _; _]) with 3. split; [left; lia|]. f_equal; [by rewrite <- app_assoc|lia].
Qed.

Lemma send_connect_Ok target s s' :
  target_ok target ->
  send_connect_request target s = (Ok (), s') <->
  len ([x05; x01; x00] ++ target_bytes target) <= room s /\
  s' = mkStream (rx s) (tx s ++ [x05; x01; x00] ++ target_bytes target) (room s - len ([x05; x01; x00] ++ target_bytes target)).
Proof.
  intros Ht. rewrite <- (write_all_Ok (Proxy "SOCKS5 proxy connection write failed") _ s tt). unfold send_connect_request. rewrite talk_bind_Ok.
  destruct target as [a|host port]; cbn [target_bytes target_ok] in *.
  - setoid_rewrite ret_Ok. naive_solver.
  - destruct (parse_ip host) as [a|]; [setoid_rewrite ret_Ok; naive_solver|]. specialize (Ht eq_refl).
    repeat setoid_rewrite talk_bind_Ok. repeat setoid_rewrite pure_Ok. rewrite u8_try_from_ok by lia.
    assert (Byte.eqb (as_u8 (len host)) x00 = false) as Hz.
    { apply byte_eqb_neq. intros E. apply (f_equal u8) in E. rewrite u8_as_u8, wrap_small in E by (unfold in_width; lia).
      change (u8 x00) with 0 in E. lia. }
    split.
    + intros (a & s1 & (l & s2 & [E1 ->] & [] & s3 & [_ ->] & E2 & ->) & H). injection E1 as <-. by injection E2 as <-.
    + intros H. do 2 eexists. split; [|exact H]. do 2 eexists. split; [done|]. exists (), s.
      split; [split; [by apply fail_if_Ok|done]|]. done.
Qed.

Lemma bound_Ok atyp r t m s' :
  consume_bound_address atyp (mkStream r t m) = (Ok (), s') <->
  exists bound r', bound_address atyp bound /\ r = bound ++ r' /\ s' = mkStream r' t m.
Proof.
  assert (forall n, 0 <= n -> (_ ← read_proxy n; mret ()) (mkStream r t m) = (Ok (), s') <->
    exists bound r', len bound = n /\ r = bound ++ r' /\ s' = mkStream r' t m) as Hfix.
  { intros n Hn. rewrite talk_bind_Ok. split.
    - intros (b & s1 & H & H2). apply ret_Ok in H2 as [_ ->]. apply read_exact_Ok in H as (Hl & r' & E & ->); [|done]. by exists b, r'.
    - intros (b & r' & Hl & -> & ->). exists b. eexists. split; [apply read_exact_Ok; [done|]; split; [done|]; by exists r'|]. done. }
  unfold consume_bound_address, bound_address.
  destruct (Byte.eqb atyp SOCKS5_ATYP_IPV4) eqn:E4; [apply byte_eqb_eq in E4 as ->; rewrite Hfix by done; naive_solver|].
  destruct (Byte.eqb atyp SOCKS5_ATYP_IPV6) eqn:E6; [apply byte_eqb_eq in E6 as ->; rewrite Hfix by done; naive_solver|].
  apply byte_eqb_neq in E4, E6.
  destruct (Byte.eqb atyp SOCKS5_ATYP_DOMAIN) eqn:Ed; [|apply byte_eqb_neq in Ed; split; [done|]; naive_solver].
  apply byte_eqb_eq in Ed as ->. repeat setoid_rewrite talk_bind_Ok. repeat setoid_rewrite pure_Ok. split.
  - intros (b & s1 & H1 & l0 & s2 & [El ->] & b2 & s3 & H2 & [_ ->]).
    apply read_exact_Ok in H1 as (Hl & r1 & E & ->); [|done]. apply read_exact_Ok in H2 as (Hl2 & r2 & E2 & ->); [|destruct (u8_range l0); lia]. cbn [rx tx room] in *.
    unfold len in Hl. destruct b as [|n [|]]; cbn in Hl; try lia. injection El as <-. subst.
    exists (n :: b2), r2. split; [|done]. right. right. split; [done|]. by exists n, b2.
  - intros (bound & r' & [[? _]|[[? _]|[_ (n & b2 & -> & Hl)]]] & -> & ->); [done..|].
    exists [n]. eexists. split; [apply read_exact_Ok; [done|]; split; [done|]; by exists (b2 ++ r')|].
    do 2 eexists. split; [done|]. exists b2. eexists. split; [apply read_exact_Ok; [destruct (u8_range n); lia|]; split; [done|]; by exists r'|]. done.
Qed.

Lemma response_Ok r t m s' :
  read_connect_response (mkStream r t m) = (Ok (), s') <->
  exists atyp bound r', bound_address atyp bound /\ r = [x05; x00; x00; atyp] ++ bound ++ r' /\ s' = mkStream r' t m.
Proof.
  unfold read_connect_response. repeat setoid_rewrite talk_bind_Ok. repeat setoid_rewrite pure_Ok. split.
  - intros (h & s1 & Hr & h0 & ? & [E0 ->] & [] & ? & [F0 ->] & h2 & ? & [E2 ->] & [] & ? & [F2 ->] & h1 & ? & [E1 ->] &
      [] & ? & [F1 ->] & h3 & ? & [E3 ->] & H).
    apply read_exact_Ok in Hr as (Hlen & r1 & E & ->); [|done]. cbn [rx tx room] in *.
    destruct (four_bytes _ Hlen) as (a & b & c & d & ->). injection E0 as <-. injection E1 as <-. injection E2 as <-.
    injection E3 as <-. apply fail_if_not_Ok, byte_eqb_eq in F0, F1, F2. subst.
    apply bound_Ok in H as (bound & r' & Hb & -> & ->). by exists d, bound, r'.
  - intros (d & bound & r' & Hb & -> & ->). exists [x05; x00; x00; d]. eexists.
    split; [apply read_exact_Ok; [done|]; split; [done|]; by exists (bound ++ r')|].
    do 2 eexists. split; [done|]. exists tt. eexists. split; [done|]. do 2 eexists. split; [done|]. exists tt. eexists.
    split; [done|]. do 2 eexists. split; [done|]. exists tt. eexists. split; [done|]. do 2 eexists. split; [done|].
    apply bound_Ok. by exists bound, r'.
Qed.

(** The SOCKS5 handshake is exact.  With a validated configuration and a target
    that fits, it succeeds exactly when the proxy selects the configured method,
    accepts the credentials and grants the connection; it has then written the
    greeting, the credentials and one request for the target, and has taken the
    proxy's reply and not one byte of what follows off the stream. *)
Theorem socks5_connect_exact host_parse c target s s' :
  validate_socks5 host_parse c = Ok () -> target_ok target -> len (request c target) <= room s ->
  socks5_connect host_parse c target s = (Ok (), s') <->
  exists reply payload, grants c reply /\ rx s = reply ++ payload /\
    s' = mkStream payload (tx s ++ request c target) (room s - len (request c target)).
Proof.
  intros Hv Ht. unfold request. rewrite (len_app (greeting c)), (len_app (auth_request c)).
  pose proof (len_nonneg ([x05; x01; x00] ++ target_bytes target)). intros Hroom.
  unfold socks5_connect. destruct s as [r t m]. cbn [rx tx room] in *. split.
  - intros H'. apply talk_seq_Ok in H' as (s1 & H0 & H'). apply pure_Ok in H0 as [_ ->].
    apply talk_seq_Ok in H' as (s2 & H1 & H'). apply talk_seq_Ok in H' as (s3 & H2 & H3).
    apply (negotiate_Ok host_parse) in H1 as (r1 & -> & Hm & ->); [|done].
    apply send_connect_Ok in H2 as [_ ->]; [|done]. cbn [rx tx room] in H3.
    apply response_Ok in H3 as (atyp & bound & r' & Hb & -> & ->).
    exists ([x05; method_of c] ++ auth_reply c ++ [x05; x00; x00; atyp] ++ bound), r'.
    split; [by exists atyp, bound|]. split; [by rewrite <- !app_assoc|]. f_equal; [by rewrite <- !app_assoc|].
    rewrite len_app. lia.
  - intros (reply & payload & (atyp & bound & -> & Hb) & -> & ->). apply talk_seq_Ok. eexists. split; [by apply pure_Ok|].
    apply talk_seq_Ok. eexists. split; [apply (negotiate_Ok host_parse); [done|]; exists ([x05; x00; x00; atyp] ++ bound ++ payload);
      split; [by rewrite <- !app_assoc|]; split; [rewrite len_app; lia|done]|].
    apply talk_seq_Ok. eexists. split; [apply send_connect_Ok; [done|]; cbn [room]; split; [rewrite (len_app (greeting c)); lia|done]|].
    cbn [rx tx room]. apply response_Ok. exists atyp, bound, payload. split; [done|]. split; [done|].
    f_equal; [by rewrite <- !app_assoc|rewrite (len_app (greeting c)); lia].
Qed.

Lemma socks5_connect_exact_witness :
  let c := mkSocks5 true (Some (bytes_of "p")) 1080 (Some (bytes_of "u")) (Some (bytes_of "pw")) in
  let s := mkStream ([x05; x02; x01; x00; x05; x00; x00; x03; x01; x61; x00; x50] ++ bytes_of "HTTP") [] 100 in
  socks5_connect (fun d => Some (Domain d)) c (TargetDomain (bytes_of "t.example") 80) s
  = (Ok (), mkStream (bytes_of "HTTP") (request c (TargetDomain (bytes_of "t.example") 80)) 75).
Proof.
  intros c s. apply (socks5_connect_exact (fun d => Some (Domain d)) c (TargetDomain (bytes_of "t.example") 80) s
    (mkStream (bytes_of "HTTP") (request c (TargetDomain (bytes_of "t.example") 80)) 75)); [by vm_compute|by vm_compute|by vm_compute|].
  exists [x05; x02; x01; x00; x05; x00; x00; x03; x01; x61; x00; x50], (bytes_of "HTTP").
  split; [|split; [by vm_compute|by vm_compute]]. exists x03, [x01; x61; x00; x50]. split; [by vm_compute|]. right. right. split; [done|].
  by exists x01, [x61; x00; x50].
Defined.

(** ** Over the contained binder, the proxy is all that is reached *)

Lemma select_resolved_elem cfg host addrs a : select_resolved_addr cfg host addrs = Some a -> a ∈ addrs.
Proof.
  assert (forall f a', List.find f addrs = Some a' -> a' ∈ addrs) as Hf.
  { intros f a' [E _]%find_some. by apply list_elem_of_In. }
  unfold select_resolved_addr, or_else. intros Ha. destruct (List.find is_ipv6 addrs) eqn:E6, (List.find is_ipv4 addrs) eqn:E4, (_ && _);
    simplify_eq; eauto.
Qed.

Section reach.
Context {N : Type} `{NotifyOps N} (probe : InterfaceProbe) (sys : system).
Abbreviation M := (@Binder.M N).
#[local] Existing Instances M_ret M_bind.

(** A piece of the binder puts into use only what satisfies [P], and returns what
    satisfies [G]. *)
Definition adds {A} (P : use -> Prop) (m : M A) (G : A -> Prop) : Prop :=
  forall b, (exists l, uses (m b).2 = uses b ++ l /\ Forall P l) /\ forall a, (m b).1 = Ok a -> G a.

Lemma adds_ret {A} P (a : A) (G : A -> Prop) : G a -> adds P (mret (M := M) a) G.
Proof. intros Ha b. split; [exists []; by rewrite app_nil_r|]. cbn. by intros a' [= <-]. Qed.

Lemma adds_bind {A B} P (m : M A) (k : A -> M B) F G :
  adds P m F -> (forall a, F a -> adds P (k a) G) -> adds P (m ≫= k) G.
Proof.
  intros Hm Hk b. destruct (Hm b) as [(l & E & Hl) HF]. unfold mbind, M_bind. destruct (m b) as [[a|e| |] b1]; cbn [fst snd] in *.
  - destruct (Hk a (HF a eq_refl) b1) as [(l2 & E2 & Hl2) HG]. split; [|done]. exists (l ++ l2).
    rewrite E2, E, app_assoc. split; [done|]. by apply Forall_app.
  - split; [by exists l|done].
  - split; [by exists l|done].
  - split; [by exists l|done].
Qed.

Lemma adds_none {A} P (m : M A) G :
  (forall b, uses (m b).2 = uses b) -> (forall b a, (m b).1 = Ok a -> G a) -> adds P m G.
Proof. intros Hu HG b. split; [exists []; by rewrite app_nil_r|]. apply HG. Qed.

Lemma adds_lift {A} P (m : outcome A) G : (forall a, m = Ok a -> G a) -> adds P (lift m) G.
Proof. intros Hm. by apply adds_none. Qed.
Lemma adds_call P x : adds P (binder_call sys x) (fun _ => True).
Proof. by apply adds_none. Qed.
Lemma adds_log (P : use -> Prop) u : P u -> adds P (log u) (fun _ => True).
Proof. intros Hu b. split; [|done]. exists [u]. by split; [|apply Forall_singleton]. Qed.
Lemma adds_config P : adds P config_snapshot (fun _ => True).
Proof. by apply adds_none. Qed.
Lemma adds_report P s d : adds P (report_health_status s d) (fun _ => True).
Proof. apply adds_none; [apply report_uses|done]. Qed.
Lemma adds_on_error {A} P (m : M A) (h : CoreError -> M ()) G :
  adds P m G -> (forall e, adds P (h e) (fun _ => True)) -> adds P (on_error m h) G.
Proof.
  intros Hm Hh b. destruct (Hm b) as [(l & E & Hl) HG]. unfold on_error. destruct (m b) as [[a|e| |] b1]; cbn [fst snd] in *.
  - by split; [exists l|].
  - destruct (Hh e b1) as [(l2 & E2 & Hl2) _]. split; [|done]. exists (l ++ l2). rewrite E2, E, app_assoc. split; [done|].
    by apply Forall_app.
  - by split; [exists l|].
  - by split; [exists l|].
Qed.
Create HintDb adds.
#[local] Hint Resolve adds_lift adds_call adds_config adds_report : adds.

Ltac adds_step := eapply adds_bind; [solve [eauto with adds]|intros ? _].

Lemma adds_guard P : adds P (guard probe) (fun _ => True).
Proof.
  unfold guard. eapply adds_bind; [apply (adds_none _ _ (fun _ => True)); [|done]|intros _ _].
  { intros b. unfold gate_enforce. by destruct (binder_gate b). }
  adds_step. destruct (decide _); [by apply adds_ret|]. destruct (_ && _ && _ && _ && _ && _); [|by apply adds_lift].
  adds_step. by apply adds_lift.
Qed.

Lemma adds_weaken {A} (P Q : use -> Prop) (m : M A) (F G : A -> Prop) :
  (forall u, P u -> Q u) -> (forall a, F a -> G a) -> adds P m F -> adds Q m G.
Proof.
  intros HPQ HFG Hm b. destruct (Hm b) as [(l & E & Hl) HF]. split; [|auto]. exists l. split; [done|].
  eapply Forall_impl; [exact Hl|done].
Qed.

Lemma adds_interface P s iface : adds P (bind_socket_to_interface sys s iface) (fun _ => True).
Proof.
  unfold bind_socket_to_interface. destruct iface; [|by apply adds_ret]. destruct (existsb _ _); [by apply adds_lift|].
  adds_step. by apply adds_ret.
Qed.
Lemma adds_bind_socket P s a : adds P (bind_socket sys s a) (fun _ => True).
Proof. unfold bind_socket. adds_step. by apply adds_ret. Qed.
Lemma adds_new_socket P tcp v6 : adds P (new_socket sys tcp v6) (fun _ => True).
Proof. unfold new_socket. adds_step. by apply adds_ret. Qed.
#[local] Hint Resolve adds_interface adds_bind_socket adds_new_socket adds_guard adds_on_error : adds.

Lemma adds_connect addr : adds (fun u => exists s, u = UseConnect s addr) (connect_peer probe sys addr) (fun _ => True).
Proof.
  unfold connect_peer. do 2 adds_step.
  eapply adds_bind; [apply adds_on_error; [by apply (adds_lift _ _ (fun _ => True))|]|intros ? _].
  { intros e. destruct (is_network_blocked e); [apply adds_report|by apply adds_ret]. }
  adds_step. eapply adds_bind; [apply adds_on_error; [apply adds_interface|intros; apply adds_report]|intros ? _].
  eapply (adds_bind _ _ _ (fun _ => True)).
  { destruct (source_for_addr _ _); [|by apply adds_ret]. apply adds_on_error; [apply adds_bind_socket|intros; apply adds_report]. }
  intros s _. eapply adds_bind; [apply adds_log; by exists s|intros _ _]. adds_step. by apply adds_ret.
Qed.

(** The addresses a host stands for. *)
Definition host_address (host : list byte) (port : Z) (a : SocketAddr) : Prop :=
  match parse_ip host with
  | Some i => a = mkSocketAddr i port
  | None => exists n addrs, sys_lookup sys n host port = inr addrs /\ a ∈ addrs
  end.

Lemma adds_resolve host port : adds (fun u => u = UseLookup host) (resolve_host probe sys host port) (host_address host port).
Proof.
  unfold resolve_host, host_address. adds_step. destruct (parse_ip host) as [i|]; [by apply adds_ret|].
  adds_step. eapply adds_bind; [by apply (adds_lift _ _ (fun _ => True))|intros _ _].
  eapply adds_bind; [by apply adds_log|intros _ _].
  eapply (adds_bind _ _ _ (fun addrs => exists n, sys_lookup sys n host port = inr addrs)).
  { apply adds_none; [done|]. intros b addrs. cbn [fst]. destruct (sys_lookup sys (calls b) host port) eqn:E; intros [= <-].
    by exists (calls b). }
  intros addrs [n E]. apply adds_lift. intros a' Ha. apply ok_or_Ok in Ha. exists n, addrs. split; [done|].
  apply select_resolved_elem in Ha. by apply list_elem_of_filter in Ha as [_ Ha].
Qed.

Lemma adds_listen port report :
  adds (fun u => exists s, u = UseListen s) (bind_peer_listener_inner probe sys port report) (fun _ => True).
Proof.
  assert (forall cfg a d, adds (fun u => exists s, u = UseListen s) (bind_one_listener sys cfg a report d) (fun _ => True)) as Hone.
  { intros cfg a d. unfold bind_one_listener. apply adds_on_error.
    - unfold create_tcp_listener. do 2 adds_step. eapply (adds_bind _ _ _ (fun _ => True)).
      { destruct (is_ipv6 a); [apply adds_call|by apply adds_ret]. }
      intros _ _. do 3 adds_step. eapply adds_bind; [apply adds_log; by eexists|intros _ _]. do 2 adds_step. by apply adds_ret.
    - intros e. destruct report; [apply adds_report|by apply adds_ret]. }
  unfold bind_peer_listener_inner. do 2 adds_step.
  do 2 (eapply (adds_bind _ _ _ (fun _ => True));
    [match goal with |- adds _ (if ?b then _ else _) _ => destruct b end;
       [eapply adds_bind; [apply Hone|intros; by apply adds_ret]|by apply adds_ret]|intros ? _]).
  by apply adds_ret.
Qed.

(** What may be put into use behind a proxy. *)
Variable host_parse : list byte -> option Host.
Definition proxy_use (c : Socks5ProxyConfig) (u : use) : Prop :=
  match u with
  | UseConnect _ a => exists host, normalized_host host_parse c = Ok host /\ host_address host (socks_port c) a
  | UseLookup host => normalized_host host_parse c = Ok host
  | UseListen _ => True
  | UseUdp _ => False
  end.

(** From one state of the binder to a later one. *)
Variable cfg : NetworkConfig.
Definition proxy_step (b b' : ContainedBinder N) : Prop :=
  (exists l, uses b' = uses b ++ l /\ Forall (proxy_use (socks5 cfg)) l) /\ (strict_config cfg -> binder_inv probe cfg b -> binder_inv probe cfg b').

#[export] Instance proxy_step_preorder : PreOrder proxy_step.
Proof.
  split.
  - intros b. split; [exists []; by rewrite app_nil_r|done].
  - intros b1 b2 b3 [(l1 & E1 & H1) K1] [(l2 & E2 & H2) K2]. split; [|auto]. exists (l1 ++ l2).
    rewrite E2, E1, app_assoc. split; [done|]. by apply Forall_app.
Qed.

Lemma step_of {A} (P : use -> Prop) (m : M A) F G b :
  adds P m F -> (strict_config cfg -> keeps probe cfg m G) -> (forall u, P u -> proxy_use (socks5 cfg) u) -> proxy_step b (m b).2.
Proof.
  intros Ha Hk HP. destruct (Ha b) as [(l & E & Hl) _]. split; [|intros Hc; by apply Hk]. exists l. split; [done|].
  eapply Forall_impl; [exact Hl|done].
Qed.

Variables (traffic : nat -> Stream) (too_slow : Stream -> bool).
Abbreviation inner := (contained_binder probe sys traffic).

Lemma open_step b : proxy_step b (open_proxy_stream inner host_parse (socks5 cfg) b).2.
Proof.
  unfold open_proxy_stream. destruct (normalized_host host_parse (socks5 cfg)) as [h|e| |] eqn:Eh; try done.
  cbn [nb_resolve_host nb_connect_peer contained_binder].
  pose proof (step_of _ _ _ _ b (adds_resolve h (socks_port (socks5 cfg))) (keeps_resolve probe sys cfg h _)) as Hs.
  destruct (adds_resolve h (socks_port (socks5 cfg)) b) as [_ Hh].
  destruct (resolve_host probe sys h (socks_port (socks5 cfg)) b) as [[a|e| |] b1]; cbn [then_ fst snd] in *;
    try (apply Hs; by intros u ->).
  transitivity b1; [apply Hs; by intros u ->|].
  pose proof (step_of _ _ _ _ b1 (adds_connect a) (keeps_connect probe sys cfg a)) as Hc.
  unfold contained_connect. destruct (connect_peer probe sys a b1) as [r b2]. cbn [snd] in *.
  apply Hc. intros u [s ->]. exists h. split; [done|]. by apply Hh.
Qed.

Lemma connect_target_step target b : proxy_step b (connect_target inner host_parse too_slow (socks5 cfg) target b).2.
Proof.
  unfold connect_target. pose proof (open_step b) as Ho.
  destruct (open_proxy_stream _ _ _ b) as [[[s stream]|e| |] b1]; cbn [then_ fst snd] in *; try done.
  destruct (too_slow stream); [done|]. by destruct (socks5_connect _ _ _ _).
Qed.

Lemma listen_step port report b : proxy_step b (bind_peer_listener_inner probe sys port report b).2.
Proof.
  eapply step_of; [apply adds_listen|intros Hc; by apply keeps_listen|]. by intros u [s ->].
Qed.

Lemma trait_step o b :
  enabled (socks5 cfg) = true ->
  proxy_step b (trait_perform (H := make_binder probe sys traffic host_parse too_slow cfg) o b).
Proof.
  intros He. unfold make_binder. rewrite He. destruct o; cbn; try reflexivity; try apply connect_target_step; apply listen_step.
Qed.
End reach.

(** C5: With a SOCKS5 proxy configured, under any containment mode, the daemon's binder
    reaches the proxy and nothing else.  Whatever trait operations are requested of it, and
    whatever the system, the streams and the proxy answer, every connection goes to an
    address of the configured proxy host, the only name looked up is that host, no
    datagram socket is ever made, and datagram sockets and target lookups fail at once.
    When the configuration is moreover validated, strict and fail-closed, everything put
    into use is contained as it demands. *)
Theorem socks5_reaches_only_proxy {N} `{NotifyOps N} (probe : InterfaceProbe) (sys : system) (host_parse : list byte -> option Host)
    (traffic : nat -> Stream) (too_slow : Stream -> bool) (b : ContainedBinder N) (ops : list trait_op) :
  enabled (socks5 (config b)) = true -> uses b = [] ->
  let binder := make_binder probe sys traffic host_parse too_slow (config b) in
  let b' := foldl (fun b o => trait_perform (H := binder) o b) b ops in
  Forall (proxy_use sys host_parse (socks5 (config b))) (uses b') /\
  (forall w, nb_udp_socket (NetworkBinder := binder) w = (Err udp_blocked_error, w)) /\
  (forall remote port w, nb_udp_socket_on (NetworkBinder := binder) remote port w = (Err udp_blocked_error, w)) /\
  (forall host port w, nb_resolve_host (NetworkBinder := binder) host port w = (Err target_resolution_blocked_error, w)) /\
  (validate host_parse (config b) = Ok () -> mode (config b) = Strict -> fail_closed (config b) = true ->
   Forall (use_contained probe (config b)) (uses b')).
Proof.
  intros He Hu binder b'. assert (proxy_step probe sys host_parse (config b) b b') as [(l & E & Hl) Hi].
  { subst b' binder. generalize (config b) He. clear. intros cfg He. revert b.
    induction ops as [|o ops IH]; intros b; [done|]. cbn [foldl].
    etrans; [|apply IH]. by apply trait_step. }
  split; [by rewrite E, Hu|]. do 3 (split; [subst binder; unfold make_binder; by rewrite He|]).
  intros Hv Hm Hf. by destruct (Hi (validated_strict _ _ Hv Hm Hf)) as [_ Hus]; [split; [|rewrite Hu]|].
Qed.

Lemma socks5_reaches_only_proxy_witness :
  let proxy := mkSocks5 true (Some (bytes_of "10.9.9.9")) 1080 None None in
  let cfg := mkNetworkConfig Strict (Some (bytes_of "tun0")) (Some (bytes_of "10.8.0.2")) None None true true false true proxy in
  let hp := fun d => HostAddress <$> parse_ip d in
  let b : ContainedBinder futures := mkBinder cfg (Some (new true)) (Some []) 0 [] in
  let binder := make_binder (vpn_probe true) quiet_system (fun _ => mkStream [] [] 0) hp (fun _ => false) cfg in
  let b' := foldl (fun b o => trait_perform (H := binder) o b) b
              [TConnectHost (bytes_of "tracker.example") 80; TUdp; TListen 6881] in
  length (uses b') = 3%nat /\
  Forall (proxy_use quiet_system hp proxy) (uses b') /\ Forall (use_contained (vpn_probe true) cfg) (uses b').
Proof.
  intros proxy cfg hp b binder b'. split; [by vm_compute|].
  destruct (socks5_reaches_only_proxy (vpn_probe true) quiet_system hp (fun _ => mkStream [] [] 0) (fun _ => false) b
    [TConnectHost (bytes_of "tracker.example") 80; TUdp; TListen 6881] eq_refl eq_refl) as (H1 & _ & _ & _ & H2).
  split; [exact H1|]. exact (H2 eq_refl eq_refl eq_refl).
Defined.
