(* ===== verification/Big768.v ===== *)
(** * The Diffie-Hellman arithmetic of [crates/swarmotter-core/src/mse.rs]

    [Big768]: twelve 64-bit limbs, the least significant first, with modular addition,
    multiplication and exponentiation.  The theorem: modular exponentiation is
    exponentiation modulo the prime. *)

From S2P Require Import Prelude Merkle ParseCorrect MetaBuild.

Local Open Scope Z_scope.

(** ** The operations *)

Definition Big768 : Type := list Z.

Definition DH_BYTES : Z := 96.
Definition from_u64 (n : Z) : Big768 := [n; 0; 0; 0; 0; 0; 0; 0; 0; 0; 0; 0].
Definition one : Big768 := from_u64 1.
Definition DH_GENERATOR : Big768 := from_u64 2.
Definition DH_PRIME : Big768 :=
  [0xffffffffffffffff; 0xf44c42e9a63a3620; 0xe485b576625e7ec6; 0x4fe1356d6d51c245; 0x302b0a6df25f1437; 0xef9519b3cd3a431b;
   0x514a08798e3404dd; 0x020bbea63b139b22; 0x29024e088a67cc74; 0xc4c6628b80dc1cd1; 0xc90fdaa22168c234; 0xffffffffffffffff].

(** [overflowing_add] and [overflowing_sub] of [u64]. *)
Definition overflowing_add (a b : Z) : Z * bool := (wrap 64 (a + b), 2 ^ 64 <=? a + b).
Definition overflowing_sub (a b : Z) : Z * bool := (wrap 64 (a - b), a - b <? 0).

(** The limb loops of [add_mod] and [wrapping_sub]. *)
Fixpoint add_limbs (carry : bool) (a b : Big768) : Big768 * bool :=
  match a, b with
  | x :: a, y :: b =>
      let '(sum1, c1) := overflowing_add x y in
      let '(sum2, c2) := overflowing_add sum1 (Z.b2z carry) in
      let '(out, carry) := add_limbs (c1 || c2) a b in (sum2 :: out, carry)
  | _, _ => ([], carry)
  end.
Fixpoint sub_limbs (borrow : bool) (a b : Big768) : Big768 :=
  match a, b with
  | x :: a, y :: b =>
      let '(sub1, b1) := overflowing_sub x y in
      let '(sub2, b2) := overflowing_sub sub1 (Z.b2z borrow) in
      sub2 :: sub_limbs (b1 || b2) a b
  | _, _ => []
  end.
Definition wrapping_sub (a b : Big768) : Big768 := sub_limbs false a b.

(** [Ord]: the most significant limbs that differ decide. *)
Fixpoint cmp (a b : Big768) : comparison :=
  match a, b with
  | x :: a, y :: b => match cmp a b with Eq => x ?= y | ord => ord end
  | _, _ => Eq
  end.
Definition big_le (a b : Big768) : bool := match cmp a b with Gt => false | _ => true end.

Definition add_mod (a b : Big768) : Big768 :=
  let '(out, carry) := add_limbs false a b in
  if carry || big_le DH_PRIME out then wrapping_sub out DH_PRIME else out.
Definition double_mod (a : Big768) : Big768 := add_mod a a.

Definition mul_bit (limb : Z) (ra : Big768 * Big768) (bit : Z) : Big768 * Big768 :=
  let result := if Z.land (Z.shiftr limb bit) 1 =? 1 then add_mod ra.1 ra.2 else ra.1 in
  (result, double_mod ra.2).
Definition mul_limb (ra : Big768 * Big768) (limb : Z) : Big768 * Big768 := foldl (mul_bit limb) ra (seqZ 0 64).
Definition mul_mod (a b : Big768) : Big768 := (foldl mul_limb (from_u64 0, a) b).1.

Definition pow_bit (base : Big768) (b : byte) (result : Big768) (bit : Z) : Big768 :=
  let result := mul_mod result result in
  if Z.land (Z.shiftr (u8 b) bit) 1 =? 1 then mul_mod result base else result.
Definition pow_byte (base result : Big768) (b : byte) : Big768 := foldl (pow_bit base b) result (rev (seqZ 0 8)).
Definition mod_pow (base : Big768) (exponent : list byte) : Big768 := foldl (pow_byte base) one exponent.

Definition from_be_bytes (bytes : list byte) : Big768 := map of_be (rev (as_chunks 8 bytes)).
Definition to_be_bytes (a : Big768) : list byte := concat (map (to_be 8) (rev a)).

(** ** Values *)

Fixpoint value (a : Big768) : Z := match a with [] => 0 | x :: a => x + 2 ^ 64 * value a end.
Definition limbs (n : nat) (a : Big768) : Prop := length a = n /\ Forall (in_width 64) a.
Definition prime : Z := value DH_PRIME.

(** A reduced number. *)
Definition reduced (a : Big768) : Prop := limbs 12 a /\ value a < prime.

Lemma limbs_cons n x a : limbs (S n) (x :: a) <-> in_width 64 x /\ limbs n a.
Proof. unfold limbs. rewrite Forall_cons. cbn [length]. naive_solver lia. Qed.

Lemma limbs_inv n a : limbs (S n) a -> exists x a', a = x :: a' /\ in_width 64 x /\ limbs n a'.
Proof. destruct a as [|x a]; [by intros []|]. intros [Hx Ha]%limbs_cons. eauto. Qed.

Lemma value_range n a : limbs n a -> 0 <= value a < 2 ^ (64 * Z.of_nat n).
Proof.
  revert a. induction n as [|n IH]; intros a Ha.
  - destruct Ha as [Ha _]. by destruct a.
  - apply limbs_inv in Ha as (x & a' & -> & [Hx1 Hx2] & Ha). apply IH in Ha. cbn [value].
    replace (64 * Z.of_nat (S n)) with (64 + 64 * Z.of_nat n) by lia. rewrite Z.pow_add_r by lia. nia.
Qed.

Lemma overflowing_add_spec x y :
  0 <= x -> 0 <= y -> x + y < 2 * 2 ^ 64 ->
  let '(s, c) := overflowing_add x y in in_width 64 s /\ s + 2 ^ 64 * Z.b2z c = x + y.
Proof.
  unfold overflowing_add, in_width, wrap. intros Hx Hy Hs. split; [apply Z.mod_pos_bound; lia|].
  pose proof (Z.div_mod (x + y) (2 ^ 64) ltac:(lia)). pose proof (Z.mod_pos_bound (x + y) (2 ^ 64) ltac:(lia)).
  destruct (Z.leb_spec (2 ^ 64) (x + y)); cbn [Z.b2z]; nia.
Qed.
Lemma overflowing_sub_spec x y :
  in_width 64 x -> in_width 64 y ->
  let '(s, c) := overflowing_sub x y in in_width 64 s /\ s - 2 ^ 64 * Z.b2z c = x - y.
Proof.
  unfold overflowing_sub, in_width, wrap. intros Hx Hy. split; [apply Z.mod_pos_bound; lia|].
  pose proof (Z.div_mod (x - y) (2 ^ 64) ltac:(lia)). pose proof (Z.mod_pos_bound (x - y) (2 ^ 64) ltac:(lia)).
  destruct (Z.ltb_spec (x - y) 0); cbn [Z.b2z]; nia.
Qed.

Lemma b2z_bound (c : bool) : 0 <= Z.b2z c <= 1.
Proof. by destruct c. Qed.

(** Full adder and subtractor of a limb. *)
Lemma add_limb x y (c : bool) :
  in_width 64 x -> in_width 64 y ->
  let '(sum1, c1) := overflowing_add x y in
  let '(sum2, c2) := overflowing_add sum1 (Z.b2z c) in
  in_width 64 sum2 /\ sum2 + 2 ^ 64 * Z.b2z (c1 || c2) = x + y + Z.b2z c.
Proof.
  intros [Hx1 Hx2] [Hy1 Hy2]. pose proof (overflowing_add_spec x y ltac:(lia) ltac:(lia) ltac:(lia)) as H1.
  destruct (overflowing_add x y) as [s1 c1]. destruct H1 as [[Ha Hb] H1]. pose proof (b2z_bound c).
  pose proof (overflowing_add_spec s1 (Z.b2z c) ltac:(lia) ltac:(lia) ltac:(lia)) as H2.
  destruct (overflowing_add s1 (Z.b2z c)) as [s2 c2]. destruct H2 as [[Hc Hd] H2]. split; [done|].
  destruct c1, c2; cbn [Z.b2z orb] in *; lia.
Qed.
Lemma sub_limb x y (c : bool) :
  in_width 64 x -> in_width 64 y ->
  let '(sub1, b1) := overflowing_sub x y in
  let '(sub2, b2) := overflowing_sub sub1 (Z.b2z c) in
  in_width 64 sub2 /\ sub2 - 2 ^ 64 * Z.b2z (b1 || b2) = x - y - Z.b2z c.
Proof.
  intros Hx Hy. pose proof (overflowing_sub_spec x y Hx Hy) as H1. destruct Hx as [Hx1 Hx2], Hy as [Hy1 Hy2].
  destruct (overflowing_sub x y) as [s1 c1]. destruct H1 as [H1w H1]. pose proof (b2z_bound c).
  pose proof (overflowing_sub_spec s1 (Z.b2z c) H1w ltac:(split; lia)) as H2. destruct H1w as [Ha Hb].
  destruct (overflowing_sub s1 (Z.b2z c)) as [s2 c2]. destruct H2 as [[Hc Hd] H2]. split; [done|].
  destruct c1, c2; cbn [Z.b2z orb] in *; lia.
Qed.

Lemma add_limbs_value n : forall a b c, limbs n a -> limbs n b ->
  let '(out, carry) := add_limbs c a b in
  limbs n out /\ value out + 2 ^ (64 * Z.of_nat n) * Z.b2z carry = value a + value b + Z.b2z c.
Proof.
  induction n as [|n IH]; intros a b c Ha Hb.
  - destruct Ha as [Ha _], Hb as [Hb _]. destruct a, b; try done. cbn [add_limbs value]. split; [done|]. lia.
  - apply limbs_inv in Ha as (x & a' & -> & Hx & Ha), Hb as (y & b' & -> & Hy & Hb). cbn [add_limbs].
    pose proof (add_limb x y c Hx Hy) as H1. destruct (overflowing_add x y) as [s1 c1].
    destruct (overflowing_add s1 (Z.b2z c)) as [s2 c2]. destruct H1 as [Hw H1].
    specialize (IH a' b' (c1 || c2) Ha Hb). destruct (add_limbs (c1 || c2) a' b') as [out carry]. destruct IH as [Hl IH].
    split; [by apply limbs_cons|]. cbn [value].
    replace (64 * Z.of_nat (S n)) with (64 + 64 * Z.of_nat n) by lia. rewrite Z.pow_add_r by lia. nia.
Qed.

Lemma sub_limbs_value n : forall a b c, limbs n a -> limbs n b ->
  limbs n (sub_limbs c a b) /\ exists k : bool, value (sub_limbs c a b) - 2 ^ (64 * Z.of_nat n) * Z.b2z k = value a - value b - Z.b2z c.
Proof.
  induction n as [|n IH]; intros a b c Ha Hb.
  - destruct Ha as [Ha _], Hb as [Hb _]. destruct a, b; try done. split; [done|]. exists c. cbn [sub_limbs value]. lia.
  - apply limbs_inv in Ha as (x & a' & -> & Hx & Ha), Hb as (y & b' & -> & Hy & Hb). cbn [sub_limbs].
    pose proof (sub_limb x y c Hx Hy) as H1. destruct (overflowing_sub x y) as [s1 c1].
    destruct (overflowing_sub s1 (Z.b2z c)) as [s2 c2]. destruct H1 as [Hw H1].
    specialize (IH a' b' (c1 || c2) Ha Hb) as (Hl & k & IH).
    split; [by apply limbs_cons|]. exists k. cbn [value].
    replace (64 * Z.of_nat (S n)) with (64 + 64 * Z.of_nat n) by lia. rewrite Z.pow_add_r by lia. nia.
Qed.

Lemma cmp_value n : forall a b, limbs n a -> limbs n b -> cmp a b = (value a ?= value b).
Proof.
  induction n as [|n IH]; intros a b Ha Hb.
  - destruct Ha as [Ha _], Hb as [Hb _]. by destruct a, b.
  - apply limbs_inv in Ha as (x & a' & -> & [Hx1 Hx2] & Ha), Hb as (y & b' & -> & [Hy1 Hy2] & Hb). cbn [cmp value].
    rewrite (IH a' b') by done. symmetry. destruct (Z.compare_spec (value a') (value b')) as [E|E|E].
    + rewrite E. destruct (Z.compare_spec x y) as [F|F|F]; [apply Z.compare_eq_iff|apply Z.compare_lt_iff|apply Z.compare_gt_iff]; lia.
    + apply Z.compare_lt_iff. nia.
    + apply Z.compare_gt_iff. nia.
Qed.

Lemma big_le_value n a b : limbs n a -> limbs n b -> big_le a b = (value a <=? value b).
Proof.
  intros Ha Hb. unfold big_le. rewrite (cmp_value n) by done. unfold Z.leb. by destruct (value a ?= value b).
Qed.

Lemma value_inj n : forall a b, limbs n a -> limbs n b -> value a = value b -> a = b.
Proof.
  induction n as [|n IH]; intros a b Ha Hb.
  - destruct Ha as [Ha _], Hb as [Hb _]. by destruct a, b.
  - apply limbs_inv in Ha as (x & a' & -> & [Hx1 Hx2] & Ha), Hb as (y & b' & -> & [Hy1 Hy2] & Hb). cbn [value]. intros E.
    assert (x = y) as -> by nia. f_equal. apply IH; [done..|]. nia.
Qed.

(** ** The prime *)

Lemma prime_limbs : limbs 12 DH_PRIME.
Proof. split; [done|]. repeat (apply Forall_cons; split); try done. Qed.
Lemma prime_large : 2 ^ 767 < prime < 2 ^ 768.
Proof. split; by vm_compute. Qed.

Lemma add_mod_value a b :
  reduced a -> reduced b -> reduced (add_mod a b) /\ value (add_mod a b) = (value a + value b) mod prime.
Proof.
  intros [La Va] [Lb Vb]. unfold reduced, add_mod. pose proof (add_limbs_value 12 a b false La Lb) as H.
  pose proof (value_range 12 a La). pose proof (value_range 12 b Lb). pose proof prime_large.
  destruct (add_limbs false a b) as [out carry]. destruct H as [Lo H]. pose proof (value_range 12 out Lo).
  change (64 * Z.of_nat 12) with 768 in *. cbn [Z.b2z] in H. rewrite (big_le_value 12) by done || apply prime_limbs.
  fold prime. destruct (Z.leb_spec prime (value out)) as [Hp|Hp].
  - assert (carry || true = true) as -> by apply orb_true_r. destruct (sub_limbs_value 12 out DH_PRIME false Lo prime_limbs) as (Ls & k & Hs).
    change (64 * Z.of_nat 12) with 768 in *. fold prime in Hs. cbn [Z.b2z] in Hs. unfold wrapping_sub.
    pose proof (value_range 12 _ Ls). change (64 * Z.of_nat 12) with 768 in *.
    assert (value (sub_limbs false out DH_PRIME) = value a + value b - prime) as -> by (destruct carry, k; cbn [Z.b2z] in *; lia).
    split; [split; [done|lia]|]. apply Z.mod_unique with 1; lia.
  - destruct carry; cbn [orb Z.b2z] in *.
    + destruct (sub_limbs_value 12 out DH_PRIME false Lo prime_limbs) as (Ls & k & Hs).
      change (64 * Z.of_nat 12) with 768 in *. fold prime in Hs. cbn [Z.b2z] in Hs. unfold wrapping_sub.
      pose proof (value_range 12 _ Ls). change (64 * Z.of_nat 12) with 768 in *.
      assert (value (sub_limbs false out DH_PRIME) = value a + value b - prime) as -> by (destruct k; cbn [Z.b2z] in *; lia).
      split; [split; [done|lia]|]. apply Z.mod_unique with 1; lia.
    + split; [split; [done|lia]|]. rewrite Z.mod_small; lia.
Qed.

(** ** Multiplication *)

Lemma prime_pos : 0 < prime.
Proof. pose proof prime_large. lia. Qed.
Lemma reduced_small a : reduced a -> value a mod prime = value a.
Proof. intros [La Va]. pose proof (value_range 12 a La). apply Z.mod_small. lia. Qed.

Lemma land_1 x : Z.land x 1 = x mod 2.
Proof. exact (Z.land_ones x 1 ltac:(lia)). Qed.
Lemma bit_of limb n : 0 <= n -> 0 <= limb -> limb mod 2 ^ (n + 1) = limb mod 2 ^ n + 2 ^ n * Z.land (Z.shiftr limb n) 1.
Proof.
  intros Hn Hl. rewrite land_1, Z.shiftr_div_pow2, Z.pow_add_r by lia. change (2 ^ 1) with 2. rewrite Z.rem_mul_r by lia. done.
Qed.
Lemma bit_cases limb n : Z.land (Z.shiftr limb n) 1 = 0 \/ Z.land (Z.shiftr limb n) 1 = 1.
Proof. rewrite land_1. pose proof (Z.mod_pos_bound (Z.shiftr limb n) 2 ltac:(lia)). lia. Qed.

Lemma seqZ_snoc (n : nat) : seqZ 0 (Z.of_nat n + 1) = seqZ 0 (Z.of_nat n) ++ [Z.of_nat n].
Proof. rewrite seqZ_app by lia. by rewrite !Z.add_0_l. Qed.

Lemma mul_bits_value limb (n : nat) : 0 <= limb -> forall r a, reduced r -> reduced a ->
  let '(r', a') := foldl (mul_bit limb) (r, a) (seqZ 0 (Z.of_nat n)) in
  reduced r' /\ reduced a' /\ value r' = (value r + value a * (limb mod 2 ^ Z.of_nat n)) mod prime /\
  value a' = (value a * 2 ^ Z.of_nat n) mod prime.
Proof.
  intros Hl r a Hr Ha. induction n as [|n IH].
  - cbn [seqZ foldl Z.of_nat]. rewrite Z.mod_1_r, Z.mul_0_r, Z.add_0_r, Z.mul_1_r, !reduced_small by done. done.
  - rewrite Nat2Z.inj_succ, <- Z.add_1_r, seqZ_snoc, foldl_app. destruct (foldl _ _ _) as [r1 a1].
    destruct IH as (Hr1 & Ha1 & Vr & Va). unfold mul_bit. cbn [foldl fst snd].
    destruct (add_mod_value a1 a1 Ha1 Ha1) as [Hd Vd]. destruct (add_mod_value r1 a1 Hr1 Ha1) as [Hs Vs].
    fold (double_mod a1) in *.
    split; [by destruct (_ =? 1)|]. split; [done|]. split.
    + rewrite bit_of by lia. destruct (bit_cases limb (Z.of_nat n)) as [E|E]; rewrite E.
      * rewrite Z.mul_0_r, Z.add_0_r. exact Vr.
      * change (1 =? 1) with true. cbv iota. rewrite Vs, Vr, Va, <- Z.add_mod by (pose proof prime_pos; lia). f_equal. ring.
    + rewrite Vd, Va, Z.pow_add_r, <- Z.add_mod by (pose proof prime_pos; lia). f_equal. change (2 ^ 1) with 2. ring.
Qed.

Lemma mul_limbs_value b : Forall (in_width 64) b -> forall r a, reduced r -> reduced a ->
  let '(r', a') := foldl mul_limb (r, a) b in
  reduced r' /\ value r' = (value r + value a * value b) mod prime.
Proof.
  induction 1 as [|limb b [Hl1 Hl2] _ IH]; intros r a Hr Ha; cbn [foldl value].
  - rewrite Z.mul_0_r, Z.add_0_r, reduced_small by done. done.
  - unfold mul_limb at 2. pose proof (mul_bits_value limb 64 Hl1 r a Hr Ha) as H. change (Z.of_nat 64) with 64 in H.
    destruct (foldl (mul_bit limb) (r, a) (seqZ 0 64)) as [r1 a1]. destruct H as (Hr1 & Ha1 & Vr & Va).
    specialize (IH r1 a1 Hr1 Ha1). destruct (foldl mul_limb (r1, a1) b) as [r2 a2]. destruct IH as [Hr2 ->]. split; [done|].
    rewrite (Z.mod_small limb) in Vr by done. rewrite Vr, Va. pose proof prime_pos.
    rewrite Z.add_mod_idemp_l, <- Z.add_mod_idemp_r, Z.mul_mod_idemp_l, Z.add_mod_idemp_r by lia. f_equal. ring.
Qed.

Lemma reduced_0 : reduced (from_u64 0).
Proof. split; [|by vm_compute]. split; [done|]. repeat (apply Forall_cons; split); done. Qed.
Lemma reduced_1 : reduced one.
Proof. split; [|by vm_compute]. split; [done|]. repeat (apply Forall_cons; split); done. Qed.
Lemma reduced_2 : reduced DH_GENERATOR.
Proof. split; [|by vm_compute]. split; [done|]. repeat (apply Forall_cons; split); done. Qed.

Lemma mul_mod_value a b : reduced a -> reduced b ->
  reduced (mul_mod a b) /\ value (mul_mod a b) = (value a * value b) mod prime.
Proof.
  intros Ha [[Lb Hb] _]. unfold mul_mod. pose proof (mul_limbs_value b Hb (from_u64 0) a reduced_0 Ha) as H.
  destruct (foldl _ _ b) as [r a1]. cbn [fst]. change (value (from_u64 0)) with 0 in H. by rewrite Z.add_0_l in H.
Qed.

(** ** Exponentiation *)

Lemma pow_mod_l x n : 0 <= n -> (x mod prime) ^ n mod prime = x ^ n mod prime.
Proof.
  intros Hn. pose proof prime_pos. revert n Hn. apply natlike_ind; [done|]. intros n Hn IH.
  rewrite !Z.pow_succ_r by done. rewrite Z.mul_mod_idemp_l, Z.mul_mod, IH, <- Z.mul_mod by lia. done.
Qed.

Lemma pow_bits_value base b (n : nat) : reduced base -> forall r, reduced r ->
  let r' := foldl (pow_bit base b) r (rev (seqZ 0 (Z.of_nat n))) in
  reduced r' /\ value r' = (value r ^ (2 ^ Z.of_nat n) * value base ^ (u8 b mod 2 ^ Z.of_nat n)) mod prime.
Proof.
  intros Hb. destruct (u8_range b) as [Hu _]. pose proof prime_pos. induction n as [|n IH]; intros r Hr.
  - cbn [seqZ rev foldl Z.of_nat]. rewrite Z.mod_1_r. change (2 ^ 0) with 1. rewrite Z.pow_1_r, Z.pow_0_r, Z.mul_1_r, reduced_small by done. done.
  - rewrite Nat2Z.inj_succ, <- Z.add_1_r, seqZ_snoc.
    rewrite rev_app_distr. cbn [rev app foldl]. cbv zeta.
    destruct (mul_mod_value r r Hr Hr) as [Hs Vs]. destruct (mul_mod_value _ base Hs Hb) as [Hm Vm].
    assert (reduced (pow_bit base b r (Z.of_nat n)) /\
      value (pow_bit base b r (Z.of_nat n)) = (value r ^ 2 * value base ^ Z.land (Z.shiftr (u8 b) (Z.of_nat n)) 1) mod prime) as [Hp Vp].
    { unfold pow_bit. destruct (bit_cases (u8 b) (Z.of_nat n)) as [E|E]; rewrite E.
      - change (0 =? 1) with false. cbv iota. split; [done|]. rewrite Vs, Z.pow_0_r, Z.mul_1_r. f_equal. ring.
      - change (1 =? 1) with true. cbv iota. split; [done|]. rewrite Vm, Vs, Z.mul_mod_idemp_l by lia. f_equal. ring. }
    destruct (IH _ Hp) as [Hr' ->]. split; [done|]. rewrite Vp, bit_of by lia.
    pose proof (Z.mod_pos_bound (u8 b) (2 ^ Z.of_nat n) ltac:(lia)).
    assert (0 <= Z.land (Z.shiftr (u8 b) (Z.of_nat n)) 1) by (destruct (bit_cases (u8 b) (Z.of_nat n)); lia).
    rewrite <- Z.mul_mod_idemp_l, pow_mod_l, Z.mul_mod_idemp_l by lia. f_equal.
    rewrite Z.pow_mul_l, <- !Z.pow_mul_r, (Z.pow_add_r (value base)), (Z.pow_add_r 2) by lia.
    rewrite (Z.mul_comm (Z.land _ _)), (Z.mul_comm (2 ^ Z.of_nat n) (2 ^ 1)). change (2 ^ 1) with 2. ring.
Qed.

Lemma of_be_push l b : of_be (l ++ [b]) = 256 * of_be l + u8 b.
Proof. unfold of_be. rewrite rev_app_distr. cbn [rev app of_le]. rewrite Z.shiftl_mul_pow2 by lia. lia. Qed.

Lemma of_be_pos l : 0 <= of_be l.
Proof. apply of_be_range. Qed.

(** C32: The Diffie-Hellman exponentiation is exponentiation modulo the prime: for a
    reduced base and an exponent of any length, square-and-multiply over the limb
    loops of addition with carry and conditional subtraction gives the twelve limbs of
    the power, reduced. *)
Theorem mod_pow_exact base exponent :
  reduced base ->
  reduced (mod_pow base exponent) /\ value (mod_pow base exponent) = value base ^ of_be exponent mod prime.
Proof.
  intros Hb. unfold mod_pow. pose proof prime_pos. induction exponent as [|b l IH] using rev_ind.
  - cbn [foldl]. split; [apply reduced_1|]. change (of_be []) with 0. rewrite Z.pow_0_r. by vm_compute.
  - rewrite foldl_app. cbn [foldl]. destruct IH as [Hr Vr]. unfold pow_byte at 1 3.
    destruct (pow_bits_value base b 8 Hb _ Hr) as [Hp Vp]. change (Z.of_nat 8) with 8 in *. split; [done|].
    rewrite Vp, Vr, of_be_push. destruct (u8_range b) as [Hu1 Hu2]. pose proof (of_be_pos l).
    rewrite (Z.mod_small (u8 b)) by done. rewrite <- Z.mul_mod_idemp_l, pow_mod_l, Z.mul_mod_idemp_l by lia. f_equal.
    rewrite Z.pow_add_r, <- Z.pow_mul_r by lia. f_equal. f_equal. change (2 ^ 8) with 256. lia.
Qed.

Lemma mod_pow_exact_witness :
  reduced DH_GENERATOR /\ value (mod_pow DH_GENERATOR [x00; x05]) = 32.
Proof. split; [exact reduced_2|]. rewrite (proj2 (mod_pow_exact DH_GENERATOR [x00; x05] reduced_2)). by vm_compute. Defined.

(** ** Bytes *)

Lemma length_concat_8 (l : list Z) : length (concat (map (to_be 8) l)) = (8 * length l)%nat.
Proof. induction l as [|x l IH]; [done|]. cbn [map concat]. rewrite length_app, length_to_be, IH. cbn [length]. lia. Qed.

Lemma length_to_be_bytes a : limbs 12 a -> length (to_be_bytes a) = 96%nat.
Proof. intros [Hl _]. unfold to_be_bytes. by rewrite length_concat_8, length_rev, Hl. Qed.

Lemma from_to_be_bytes a : limbs 12 a -> from_be_bytes (to_be_bytes a) = a.
Proof.
  intros [_ Ha]. unfold from_be_bytes, to_be_bytes. rewrite as_chunks_concat; [|lia|].
  - rewrite <- map_rev, rev_involutive, map_map. induction Ha as [|x a Hx _ IH]; [done|]. cbn [map]. by rewrite IH, of_be_to_be.
  - apply Forall_forall. intros c (x & -> & _)%list_elem_of_fmap. apply length_to_be.
Qed.

Lemma length_as_chunks_8 n : forall bytes : list byte, length bytes = (8 * n)%nat -> length (as_chunks 8 bytes) = n.
Proof.
  intros bytes Hl. assert (bytes = concat (map (fun i => take 8 (drop (8 * i) bytes)) (seq 0 n))) as ->.
  { clear -Hl. revert bytes Hl. induction n as [|n IH]; intros bytes Hl; [by destruct bytes|]. cbn [seq map concat].
    rewrite Nat.mul_0_r, drop_0. rewrite <- (take_drop 8 bytes) at 1. f_equal. rewrite (IH (drop 8 bytes)) at 1 by (rewrite length_drop; lia).
    rewrite <- seq_shift, map_map. f_equal. apply map_ext. intros i. rewrite drop_drop. do 2 f_equal. lia. }
  rewrite as_chunks_concat; [by rewrite length_map, length_seq|lia|]. apply Forall_forall.
  intros c (i & -> & Hi)%list_elem_of_fmap. apply list_elem_of_In, in_seq in Hi. rewrite length_take, length_drop. lia.
Qed.

Lemma from_be_bytes_limbs bytes : length bytes = 96%nat -> limbs 12 (from_be_bytes bytes).
Proof.
  intros Hl. unfold from_be_bytes. split; [by rewrite length_map, length_rev, (length_as_chunks_8 12)|].
  apply Forall_forall. intros x (c & -> & Hc)%list_elem_of_fmap. apply list_elem_of_In, in_rev, list_elem_of_In in Hc.
  apply as_chunks_length in Hc; [|lia]. pose proof (of_be_range c) as Hr. rewrite Hc in Hr. exact Hr.
Qed.

(** The secret both ends compute. *)
Lemma mod_pow_agree a b : mod_pow (mod_pow DH_GENERATOR a) b = mod_pow (mod_pow DH_GENERATOR b) a.
Proof.
  destruct (mod_pow_exact _ a reduced_2) as [Ha Va], (mod_pow_exact _ b reduced_2) as [Hb Vb].
  destruct (mod_pow_exact _ b Ha) as [[L1 _] V1], (mod_pow_exact _ a Hb) as [[L2 _] V2].
  apply (value_inj 12); [done..|]. pose proof (of_be_pos a). pose proof (of_be_pos b).
  rewrite V1, V2, Va, Vb, !pow_mod_l, <- !Z.pow_mul_r by done. f_equal. f_equal. lia.
Qed.
