(* ===== verification/Mse.v ===== *)
(** * Message stream encryption: [crates/swarmotter-core/src/mse.rs]

    RC4 with its first bytes dropped, the Diffie-Hellman handshake of both ends over a
    byte stream, and the encrypted stream.  SHA-1 and the random exponents are
    parameters.  The theorems: two honest ends agree on the torrent and on both ciphers,
    and the stream carries what is written to it whatever the polls of the stream
    below answer. *)

From S2P Require Import Prelude Text Hash Talk Big768.

Local Open Scope byte_scope.
Local Open Scope Z_scope.

Definition MAX_PAD_BYTES : Z := 512.
Definition VC_LEN : Z := 8.
Definition HASH_LEN : Z := 20.
Definition CRYPTO_PLAINTEXT : Z := 1.
Definition CRYPTO_RC4 : Z := 2.
Definition RC4_DROP_BYTES : nat := 1024.

(** ** RC4 *)

(** [s] is an array of 256 bytes, which a byte indexes: no index is out of range. *)
Record Rc4Cipher : Type := mkRc4 { rc_s : list Z; rc_i : Z; rc_j : Z }.

Definition at_ (s : list Z) (i : Z) : Z := nth (Z.to_nat i) s 0.
Definition swap (s : list Z) (i j : Z) : list Z := <[Z.to_nat i := at_ s j]> (<[Z.to_nat j := at_ s i]> s).

Definition next_byte (c : Rc4Cipher) : Z * Rc4Cipher :=
  let i := wrap 8 (rc_i c + 1) in
  let j := wrap 8 (rc_j c + at_ (rc_s c) i) in
  let s := swap (rc_s c) i j in
  (at_ s (wrap 8 (at_ s i + at_ s j)), mkRc4 s i j).

Definition key_step (key : list byte) (sj : list Z * Z) (i : Z) : list Z * Z :=
  let j := wrap 8 (wrap 8 (sj.2 + at_ sj.1 i) + u8 (nth (Z.to_nat (i mod len key)) key x00)) in
  (swap sj.1 i j, j).
Definition rc4_new (key : list byte) : Rc4Cipher :=
  let '(s, _) := foldl (key_step key) (seqZ 0 256, 0) (seqZ 0 256) in
  Nat.iter RC4_DROP_BYTES (fun c => (next_byte c).2) (mkRc4 s 0 0).

Fixpoint apply (c : Rc4Cipher) (buf : list byte) : list byte * Rc4Cipher :=
  match buf with
  | [] => ([], c)
  | b :: buf =>
      let '(k, c) := next_byte c in
      let '(out, c) := apply c buf in (as_u8 (Z.lxor (u8 b) k) :: out, c)
  end.

(** ** The encrypted stream *)

Record MseStream : Type := mkMse {
  incoming : Rc4Cipher; outgoing : Rc4Cipher; read_prefix : list byte; pending_write : list byte; pending_offset : Z }.
Definition mse_new (incoming outgoing : Rc4Cipher) (prefix : list byte) : MseStream := mkMse incoming outgoing prefix [] 0.

Inductive poll (A : Type) : Type := Pending | Ready (a : A) | Failed (e : CoreError).
Arguments Pending {A}.
Arguments Ready {A} a.
Arguments Failed {A} e.

(** The buffer of a read: the bytes filled in and the capacity. *)
Record ReadBuf : Type := mkReadBuf { filled : list byte; capacity : Z }.
Definition remaining (b : ReadBuf) : Z := capacity b - len (filled b).
Definition put_slice (b : ReadBuf) (s : list byte) : ReadBuf := mkReadBuf (filled b ++ s) (capacity b).

(** The loop that empties the prefix into the buffer. *)
Fixpoint drain_prefix (prefix : list byte) (buf : ReadBuf) : list byte * ReadBuf :=
  match prefix with
  | b :: rest => if 0 <? remaining buf then drain_prefix rest (put_slice buf [b]) else (prefix, buf)
  | [] => ([], buf)
  end.

(** [inner] is what the poll of the stream below answers: bytes that fit, pending, or
    an error. *)
Definition poll_read (inner : poll (list byte)) (m : MseStream) (buf : ReadBuf) : poll () * MseStream * ReadBuf :=
  let '(prefix, buf) := drain_prefix (read_prefix m) buf in
  let m := mkMse (incoming m) (outgoing m) prefix (pending_write m) (pending_offset m) in
  if remaining buf =? 0 then (Ready (), m, buf)
  else match inner with
       | Ready bytes =>
           let bytes := take (Z.to_nat (remaining buf)) bytes in
           let '(plain, c) := apply (incoming m) bytes in
           (Ready (), mkMse c (outgoing m) (read_prefix m) (pending_write m) (pending_offset m), put_slice buf plain)
       | Pending => (Pending, m, buf)
       | Failed e => (Failed e, m, buf)
       end.

Definition write_zero : CoreError := Io "encrypted stream write returned zero bytes".

(** The answers of the stream below to the writes of one flush, and what it took; it
    is pending when it has no more to say. *)
Fixpoint poll_flush_pending (answers : list (poll Z)) (m : MseStream) (out : list byte) : poll () * MseStream * list byte :=
  if pending_offset m <? len (pending_write m) then
    match answers with
    | Ready n :: answers =>
        if n =? 0 then (Failed write_zero, m, out)
        else
          let rest := drop (Z.to_nat (pending_offset m)) (pending_write m) in
          let n := Z.max 0 (Z.min n (len rest)) in
          poll_flush_pending answers
            (mkMse (incoming m) (outgoing m) (read_prefix m) (pending_write m) (pending_offset m + n))
            (out ++ take (Z.to_nat n) rest)
    | Failed e :: _ => (Failed e, m, out)
    | Pending :: _ | [] => (Pending, m, out)
    end
  else (Ready (), mkMse (incoming m) (outgoing m) (read_prefix m) [] 0, out).

Definition poll_write (before after : list (poll Z)) (m : MseStream) (out buf : list byte) : poll Z * MseStream * list byte :=
  match poll_flush_pending before m out with
  | (Pending, m, out) => (Pending, m, out)
  | (Failed e, m, out) => (Failed e, m, out)
  | (Ready _, m, out) =>
      if len buf =? 0 then (Ready 0, m, out)
      else
        let '(encrypted, c) := apply (outgoing m) buf in
        let m := mkMse (incoming m) c (read_prefix m) encrypted 0 in
        match poll_flush_pending after m out with
        | (Failed e, m, out) => (Failed e, m, out)
        | (_, m, out) => (Ready (len buf), m, out)
        end
  end.

(** [poll_flush] and [poll_shutdown]: the pending bytes, then the stream below. *)
Definition poll_flush (answers : list (poll Z)) (below : poll ()) (m : MseStream) (out : list byte) : poll () * MseStream * list byte :=
  match poll_flush_pending answers m out with
  | (Ready _, m, out) => (below, m, out)
  | r => r
  end.

(** ** The handshake *)

Section handshake.
Context {D : Digests}.

Definition sha1_concat (parts : list (list byte)) : list byte := as_bytes (sha1 (concat parts)).
Definition xor20 (a b : list byte) : list byte := zip_with (fun x y => as_u8 (Z.lxor (u8 x) (u8 y))) a b.
Definition derive_key (label secret skey : list byte) : list byte := sha1_concat [label; secret; skey].

Definition io_error : CoreError := Io "peer stream".
Definition read_bytes (n : Z) : talk (list byte) := read_exact io_error n.
Definition write_bytes (bytes : list byte) : talk () := write_all io_error bytes.

Definition dh_secret (peer_public exponent : list byte) : outcome Big768 :=
  let peer := from_be_bytes peer_public in
  if big_le peer one || big_le DH_PRIME peer then Err (Internal "MSE peer public key out of range")
  else Ok (mod_pow peer exponent).

Definition read_decrypted_exact (n : Z) (cipher : Rc4Cipher) : talk (list byte * Rc4Cipher) :=
  raw ← read_bytes n; mret (apply cipher raw).

Definition ends_with (marker raw : list byte) : bool :=
  (length marker <=? length raw)%nat && bool_decide (drop (length raw - length marker) raw = marker).

(** The loop of [read_until_marker], [n] rounds from the end. *)
Fixpoint marker_loop (n : nat) (raw marker : list byte) : talk () :=
  match n with
  | O => pure (Err (Internal "MSE req1 marker not found"))
  | S n =>
      byte ← read_bytes 1;
      let raw := raw ++ byte in
      if ends_with marker raw then mret () else marker_loop n raw marker
  end.
Definition read_until_marker (marker : list byte) (max_pad : Z) : talk () :=
  marker_loop (Z.to_nat (max_pad + len marker)) [] marker.

(** [VC_LEN + 4 + 2] *)
Definition HEADER_LEN : Z := 14.
Definition zeros (n : Z) : list byte := replicate (Z.to_nat n) x00.
Definition vc_matches (header : list byte) : bool := bool_decide (take 8 header = zeros VC_LEN).
Definition header_crypto (header : list byte) : Z := of_be (take 4 (drop 8 header)).
Definition header_pad (header : list byte) : Z := of_be (take 2 (drop 12 header)).

Record InitiatorOffer : Type := mkOffer { crypto_provide : Z; initial_data : list byte }.

Definition read_initiator_offer (cipher : Rc4Cipher) : talk (InitiatorOffer * Rc4Cipher) :=
  '(header, cipher) ← read_decrypted_exact HEADER_LEN cipher;
  _ ← pure (fail_if (negb (vc_matches header)) (Internal "MSE verification constant mismatch"));
  let pad_len := header_pad header in
  _ ← pure (fail_if (MAX_PAD_BYTES <? pad_len) (Internal "MSE PadC length exceeded limit"));
  cipher ← (if 0 <? pad_len then '(_, cipher) ← read_decrypted_exact pad_len cipher; mret cipher else mret cipher);
  '(ia_len, cipher) ← read_decrypted_exact 2 cipher;
  let ia_len := of_be ia_len in
  '(data, cipher) ← (if 0 <? ia_len then read_decrypted_exact ia_len cipher else mret ([], cipher));
  mret (mkOffer (header_crypto header) data, cipher).

(** The scan of one round of [read_responder_selection]: the first offset at which
    the decrypted header is acceptable, with its selection and its padding. *)
Definition probe_header (cipher : Rc4Cipher) (raw : list byte) (pad_len : Z) : option (Z * Z * Z) :=
  let header := (apply cipher (take (Z.to_nat HEADER_LEN) (drop (Z.to_nat pad_len) raw))).1 in
  if vc_matches header then
    if (MAX_PAD_BYTES <? header_pad header) || (Z.land (header_crypto header) (Z.lor CRYPTO_RC4 CRYPTO_PLAINTEXT) =? 0)
    then None else Some (pad_len, header_crypto header, header_pad header)
  else None.
Fixpoint first_header (cipher : Rc4Cipher) (raw : list byte) (pads : list Z) : option (Z * Z * Z) :=
  match pads with
  | [] => None
  | p :: pads => match probe_header cipher raw p with Some r => Some r | None => first_header cipher raw pads end
  end.

Fixpoint selection_loop (n : nat) (raw : list byte) (cipher : Rc4Cipher) : talk (Z * Rc4Cipher) :=
  match n with
  | O => pure (Err (Internal "MSE responder verification constant not found"))
  | S n =>
      byte ← read_bytes 1;
      let raw := raw ++ byte in
      if len raw <? HEADER_LEN then selection_loop n raw cipher
      else
        let max_pad := Z.min (saturating_sub (len raw) HEADER_LEN) MAX_PAD_BYTES in
        match first_header cipher raw (seqZ 0 (max_pad + 1)) with
        | None => selection_loop n raw cipher
        | Some (pad_len, crypto_select, pad_d_len) =>
            let cipher := (apply cipher (take (Z.to_nat HEADER_LEN) (drop (Z.to_nat pad_len) raw))).2 in
            if 0 <? pad_d_len then '(_, cipher) ← read_decrypted_exact pad_d_len cipher; mret (crypto_select, cipher)
            else mret (crypto_select, cipher)
        end
  end.
Definition read_responder_selection (cipher : Rc4Cipher) : talk (Z * Rc4Cipher) :=
  selection_loop (Z.to_nat (MAX_PAD_BYTES + HEADER_LEN)) [] cipher.

Definition offer_plain : list byte := zeros VC_LEN ++ to_be 4 CRYPTO_RC4 ++ to_be 2 0 ++ to_be 2 0.
Definition response_plain : list byte := zeros VC_LEN ++ to_be 4 CRYPTO_RC4 ++ to_be 2 0.

Definition connect (exponent info_hash : list byte) : talk MseStream :=
  _ ← write_bytes (to_be_bytes (mod_pow DH_GENERATOR exponent));
  peer_public ← read_bytes DH_BYTES;
  secret ← pure (dh_secret peer_public exponent);
  let secret_bytes := to_be_bytes secret in
  let incoming := rc4_new (derive_key (bytes_of "keyB") secret_bytes info_hash) in
  let outgoing := rc4_new (derive_key (bytes_of "keyA") secret_bytes info_hash) in
  let req1 := sha1_concat [bytes_of "req1"; secret_bytes] in
  let req2 := xor20 (sha1_concat [bytes_of "req2"; info_hash]) (sha1_concat [bytes_of "req3"; secret_bytes]) in
  _ ← write_bytes req1;
  _ ← write_bytes req2;
  let '(offer, outgoing) := apply outgoing offer_plain in
  _ ← write_bytes offer;
  '(selected, incoming) ← read_responder_selection incoming;
  _ ← pure (fail_if (Z.land selected CRYPTO_RC4 =? 0) (Internal "MSE peer did not select RC4 encryption"));
  mret (mse_new incoming outgoing []).

Definition accept_matching (exponent : list byte) (info_hashes : list (list byte)) : talk (list byte * MseStream) :=
  peer_public ← read_bytes DH_BYTES;
  _ ← write_bytes (to_be_bytes (mod_pow DH_GENERATOR exponent));
  secret ← pure (dh_secret peer_public exponent);
  let secret_bytes := to_be_bytes secret in
  let req1 := sha1_concat [bytes_of "req1"; secret_bytes] in
  _ ← read_until_marker req1 MAX_PAD_BYTES;
  req2 ← read_bytes HASH_LEN;
  let req3 := sha1_concat [bytes_of "req3"; secret_bytes] in
  info_hash ← pure (ok_or (List.find (fun c => bool_decide (req2 = xor20 (sha1_concat [bytes_of "req2"; c]) req3)) info_hashes)
                      (Internal "MSE stream key did not match a registered torrent"));
  let incoming := rc4_new (derive_key (bytes_of "keyA") secret_bytes info_hash) in
  let outgoing := rc4_new (derive_key (bytes_of "keyB") secret_bytes info_hash) in
  '(initiator, incoming) ← read_initiator_offer incoming;
  _ ← pure (fail_if (Z.land (crypto_provide initiator) CRYPTO_RC4 =? 0) (Internal "MSE initiator did not offer RC4 encryption"));
  let '(response, outgoing) := apply outgoing response_plain in
  _ ← write_bytes response;
  mret (info_hash, mse_new incoming outgoing (initial_data initiator)).

Definition accept (exponent info_hash : list byte) : talk MseStream :=
  '(_, stream) ← accept_matching exponent [info_hash]; mret stream.
Definition accept_any (exponent : list byte) (info_hashes : list (list byte)) : talk (list byte * MseStream) :=
  if bool_decide (info_hashes = []) then pure (Err (Internal "cannot accept MSE without a registered torrent"))
  else accept_matching exponent info_hashes.
End handshake.

(** ** The cipher is its own inverse *)

Lemma xor_twice b k : as_u8 (Z.lxor (u8 (as_u8 (Z.lxor (u8 b) k))) k) = b.
Proof.
  apply u8_inj. rewrite !u8_as_u8. pose proof (u8_range b) as Hb. unfold wrap. apply Z.bits_inj'. intros n Hn.
  destruct (Z.ltb_spec n 8) as [Hn8|Hn8].
  - rewrite Z.mod_pow2_bits_low, Z.lxor_spec, Z.mod_pow2_bits_low, Z.lxor_spec by lia.
    by destruct (Z.testbit (u8 b) n), (Z.testbit k n).
  - rewrite Z.mod_pow2_bits_high by lia. symmetry. rewrite <- (Z.mod_small (u8 b) (2 ^ 8)) by apply Hb.
    apply Z.mod_pow2_bits_high. lia.
Qed.

Lemma apply_cons c b buf :
  apply c (b :: buf) = (as_u8 (Z.lxor (u8 b) (next_byte c).1) :: (apply (next_byte c).2 buf).1, (apply (next_byte c).2 buf).2).
Proof. cbn [apply]. destruct (next_byte c) as [k c1]. cbn [fst snd]. by destruct (apply c1 buf). Qed.

Lemma apply_length c buf : length (apply c buf).1 = length buf.
Proof. revert c. induction buf as [|b buf IH]; intros c; [done|]. rewrite apply_cons. cbn [fst length]. by rewrite IH. Qed.

Lemma apply_app c x y :
  apply c (x ++ y) = ((apply c x).1 ++ (apply (apply c x).2 y).1, (apply (apply c x).2 y).2).
Proof.
  revert c. induction x as [|b x IH]; intros c; cbn [app]; [cbn; by destruct (apply c y)|].
  rewrite !apply_cons, IH. done.
Qed.

Lemma apply_twice c x : apply c (apply c x).1 = (x, (apply c x).2).
Proof.
  revert c. induction x as [|b x IH]; intros c; [done|]. rewrite apply_cons. cbn [fst snd]. rewrite apply_cons, IH. cbn [fst snd].
  by rewrite xor_twice.
Qed.

Lemma decrypts c1 c2 x : c1 = c2 -> apply c1 (apply c2 x).1 = (x, (apply c2 x).2).
Proof. intros ->. apply apply_twice. Qed.

(** ** Two honest ends agree *)

Lemma write_all_room e bytes r t m : len bytes <= m ->
  write_all e bytes (mkStream r t m) = (Ok (), mkStream r (t ++ bytes) (m - len bytes)).
Proof. intros H. by apply write_all_Ok. Qed.
Lemma read_exact_app e n x r t m : len x = n -> read_exact e n (mkStream (x ++ r) t m) = (Ok x, mkStream r t m).
Proof. intros H. pose proof (len_nonneg x). apply read_exact_Ok; [lia|]. split; [done|]. by exists r. Qed.

Section agreement.
Context {D : Digests}.

Lemma sha1_concat_len parts : len (sha1_concat parts) = 20.
Proof. exact (array_len (sha1 (concat parts))). Qed.
Lemma xor20_len a b : len a = 20 -> len b = 20 -> len (xor20 a b) = 20.
Proof. unfold xor20, len. rewrite length_zip_with. lia. Qed.

Lemma xor20_inj a b k : length a = length k -> length b = length k -> xor20 a k = xor20 b k -> a = b.
Proof.
  revert b k. unfold xor20. induction a as [|x a IH]; intros [|y b] [|z k] Ha Hb; try done. cbn [zip_with]. intros [= E1 E2].
  f_equal; [|by apply (IH b k); cbn in *; try lia]. rewrite <- (xor_twice x (u8 z)), <- (xor_twice y (u8 z)). by rewrite E1.
Qed.

Lemma marker_immediate marker max_pad r t m :
  0 < len marker -> 0 <= max_pad ->
  read_until_marker marker max_pad (mkStream (marker ++ r) t m) = (Ok (), mkStream r t m).
Proof.
  intros Hm Hp. unfold read_until_marker. replace (Z.to_nat (max_pad + len marker)) with (length marker + Z.to_nat max_pad)%nat by (unfold len; lia).
  generalize (Z.to_nat max_pad) as extra. intros extra.
  assert (forall (raw todo : list byte), marker = raw ++ todo -> todo <> [] ->
    marker_loop (length todo + extra) raw marker (mkStream (todo ++ r) t m) = (Ok (), mkStream r t m)) as Hloop.
  { intros raw todo. revert raw. induction todo as [|b todo IH]; intros raw E Hne; [done|].
    cbn [length Nat.add marker_loop app]. unfold read_bytes.
    rewrite (talk_step _ _ _ [b] (mkStream (todo ++ r) t m)) by exact (read_exact_app io_error 1 [b] (todo ++ r) t m eq_refl).
    cbv zeta. destruct todo as [|b2 todo].
    - rewrite <- E. unfold ends_with. rewrite Nat.leb_refl, Nat.sub_diag, drop_0, bool_decide_eq_true_2 by done. done.
    - assert (ends_with marker (raw ++ [b]) = false) as ->.
      { unfold ends_with. rewrite (proj2 (Nat.leb_gt _ _)); [done|]. rewrite E, !length_app. cbn [length]. lia. }
      apply IH; [|done]. by rewrite <- app_assoc. }
  apply (Hloop [] marker); [done|]. by destruct marker.
Qed.

(** What a header in the clear says. *)
Lemma response_header :
  vc_matches response_plain = true /\ header_pad response_plain = 0 /\ header_crypto response_plain = CRYPTO_RC4.
Proof. split; [|split]; vm_compute; reflexivity. Qed.

Lemma selection_step n raw b c r t m :
  selection_loop (S n) raw c (mkStream (b :: r) t m) =
  (if len (raw ++ [b]) <? HEADER_LEN then selection_loop n (raw ++ [b]) c
   else match first_header c (raw ++ [b]) (seqZ 0 (Z.min (saturating_sub (len (raw ++ [b])) HEADER_LEN) MAX_PAD_BYTES + 1)) with
        | None => selection_loop n (raw ++ [b]) c
        | Some (pad_len, crypto_select, pad_d_len) =>
            let cipher := (apply c (take (Z.to_nat HEADER_LEN) (drop (Z.to_nat pad_len) (raw ++ [b])))).2 in
            if 0 <? pad_d_len then '(_, cipher) ← read_decrypted_exact pad_d_len cipher; mret (crypto_select, cipher)
            else mret (crypto_select, cipher)
        end) (mkStream r t m).
Proof.
  cbn [selection_loop]. unfold read_bytes at 1.
  by rewrite (talk_step _ _ _ [b] (mkStream r t m)) by exact (read_exact_app io_error 1 [b] r t m eq_refl).
Qed.

Lemma first_header_found c c2 e :
  len e = HEADER_LEN -> apply c e = (response_plain, c2) -> first_header c e [0] = Some (0, CRYPTO_RC4, 0).
Proof.
  intros Hl Hd. unfold first_header, probe_header. rewrite drop_0, take_ge by (unfold len in Hl; lia). rewrite Hd. cbn [fst].
  destruct response_header as (-> & -> & ->). done.
Qed.

Lemma selection_found n raw b c c2 r t m :
  len (raw ++ [b]) = HEADER_LEN -> apply c (raw ++ [b]) = (response_plain, c2) ->
  selection_loop (S n) raw c (mkStream (b :: r) t m) = (Ok (CRYPTO_RC4, c2), mkStream r t m).
Proof.
  intros Hl Hd. rewrite selection_step, Hl, Z.ltb_irrefl.
  replace (Z.min (saturating_sub HEADER_LEN HEADER_LEN) MAX_PAD_BYTES + 1) with 1 by (vm_compute; reflexivity).
  change (seqZ 0 1) with [0]. rewrite (first_header_found c c2) by done. cbv zeta. rewrite Z.ltb_irrefl.
  rewrite drop_0, take_ge by (unfold len in Hl; lia). by rewrite Hd.
Qed.

Lemma selection_immediate c r t m :
  read_responder_selection c (mkStream ((apply c response_plain).1 ++ r) t m)
  = (Ok (CRYPTO_RC4, (apply c response_plain).2), mkStream r t m).
Proof.
  assert (len (apply c response_plain).1 = HEADER_LEN) as Hl by (unfold len; by rewrite apply_length).
  pose proof (apply_twice c response_plain) as Hd. revert Hl Hd. generalize (apply c response_plain). intros [e c2] Hl Hd. cbn [fst snd] in *.
  unfold read_responder_selection. replace (MAX_PAD_BYTES + HEADER_LEN) with (len e + MAX_PAD_BYTES) by (rewrite Hl; lia).
  rewrite Z2Nat.inj_add by (unfold len; lia || done). generalize (Z.to_nat MAX_PAD_BYTES) as extra. intros extra.
  unfold len at 1. rewrite Nat2Z.id.
  assert (forall (raw todo : list byte), e = raw ++ todo -> todo <> [] ->
    selection_loop (length todo + extra) raw c (mkStream (todo ++ r) t m) = (Ok (CRYPTO_RC4, c2), mkStream r t m)) as Hloop.
  { intros raw todo. revert raw. induction todo as [|b todo IH]; intros raw E Hne; [done|].
    cbn [length Nat.add app]. destruct todo as [|b2 todo]; [subst; by apply selection_found|].
    rewrite selection_step. rewrite (proj2 (Z.ltb_lt _ _)); [apply IH; [by rewrite <- app_assoc|done]|].
    rewrite <- Hl, E. unfold len. rewrite !length_app. cbn [length]. lia. }
  apply (Hloop [] e); [done|]. by intros ->.
Qed.

Lemma offer_read c r t m :
  read_initiator_offer c (mkStream ((apply c offer_plain).1 ++ r) t m)
  = (Ok (mkOffer CRYPTO_RC4 [], (apply c offer_plain).2), mkStream r t m).
Proof.
  change offer_plain with (response_plain ++ to_be 2 0). rewrite apply_app. cbn [fst snd]. rewrite <- app_assoc.
  unfold read_initiator_offer, read_decrypted_exact, read_bytes.
  assert (len (apply c response_plain).1 = HEADER_LEN) as Hl by (unfold len; by rewrite apply_length).
  unfold mbind, talk_bind, mret, talk_ret, pure. rewrite read_exact_app by done. rewrite apply_twice.
  destruct response_header as (-> & -> & ->). cbn [negb fail_if].
  change (MAX_PAD_BYTES <? 0) with false. cbn [fail_if]. rewrite Z.ltb_irrefl. cbv iota beta.
  rewrite read_exact_app by (unfold len; by rewrite apply_length). rewrite apply_twice.
  replace (of_be (to_be 2 0)) with 0 by (vm_compute; reflexivity). rewrite Z.ltb_irrefl. done.
Qed.

(** The public key of an exponent, the secret of two. *)
Definition public (x : list byte) : Big768 := mod_pow DH_GENERATOR x.
Definition shared (a b : list byte) : list byte := to_be_bytes (mod_pow (public b) a).

Lemma shared_sym a b : shared a b = shared b a.
Proof. unfold shared. f_equal. apply mod_pow_agree. Qed.

Lemma public_limbs x : limbs 12 (public x).
Proof. apply (mod_pow_exact _ x reduced_2). Qed.
Lemma public_len x : len (to_be_bytes (public x)) = DH_BYTES.
Proof. unfold len. by rewrite length_to_be_bytes by apply public_limbs. Qed.

Lemma dh_secret_public a b : 1 < value (public b) -> dh_secret (to_be_bytes (public b)) a = Ok (mod_pow (public b) a).
Proof.
  intros Hb. unfold dh_secret. rewrite from_to_be_bytes by apply public_limbs.
  destruct (mod_pow_exact _ b reduced_2) as [[Lb Vb] _]. fold (public b) in *.
  rewrite (big_le_value 12), (big_le_value 12) by (done || apply prime_limbs || apply reduced_1).
  change (value one) with 1. fold prime. rewrite (proj2 (Z.leb_gt _ _)), (proj2 (Z.leb_gt _ _)) by done. done.
Qed.

#[local] Opaque mod_pow to_be_bytes rc4_new.

(** What each end says. *)
Definition key (label : string) (a b h : list byte) : Rc4Cipher := rc4_new (derive_key (bytes_of label) (shared a b) h).
Definition stream_key (a b h : list byte) : list byte :=
  xor20 (sha1_concat [bytes_of "req2"; h]) (sha1_concat [bytes_of "req3"; shared a b]).
Definition initiator_says (a b h : list byte) : list byte :=
  to_be_bytes (public a) ++ sha1_concat [bytes_of "req1"; shared a b] ++ stream_key a b h
  ++ (apply (key "keyA" a b h) offer_plain).1.
Definition responder_says (a b h : list byte) : list byte :=
  to_be_bytes (public b) ++ (apply (key "keyB" a b h) response_plain).1.

Lemma stream_key_len a b h : len (stream_key a b h) = HASH_LEN.
Proof. apply xor20_len; apply sha1_concat_len. Qed.

Lemma connect_agrees a b h r t m :
  1 < value (public b) -> len (initiator_says a b h) <= m ->
  connect a h (mkStream (responder_says a b h ++ r) t m) =
    (Ok (mse_new (apply (key "keyB" a b h) response_plain).2 (apply (key "keyA" a b h) offer_plain).2 []),
     mkStream r (t ++ initiator_says a b h) (m - len (initiator_says a b h))).
Proof.
  intros Hb. unfold initiator_says, responder_says. rewrite !len_app, public_len, sha1_concat_len, stream_key_len.
  assert (len (apply (key "keyA" a b h) offer_plain).1 = 16) as -> by (unfold len; by rewrite apply_length).
  change DH_BYTES with 96. change HASH_LEN with 20. intros Hm.
  unfold connect, write_bytes, read_bytes. fold (public a).
  rewrite (talk_step _ _ _ _ _ (write_all_room io_error _ _ t m ltac:(rewrite public_len; change DH_BYTES with 96; lia))).
  rewrite <- app_assoc, (talk_step _ _ _ _ _ (read_exact_app io_error DH_BYTES _ _ _ _ (public_len b))).
  rewrite (talk_step (pure (dh_secret (to_be_bytes (public b)) a)) _ _ (mod_pow (public b) a) _ ltac:(unfold pure; by rewrite dh_secret_public)).
  cbv zeta. fold (shared a b). fold (key "keyA" a b h) (key "keyB" a b h) (stream_key a b h). rewrite public_len. change DH_BYTES with 96.
  rewrite (talk_step _ _ _ _ _ (write_all_room io_error (sha1_concat [bytes_of "req1"; shared a b]) _ _ (m - 96) ltac:(rewrite sha1_concat_len; lia))). rewrite sha1_concat_len.
  rewrite (talk_step _ _ _ _ _ (write_all_room io_error (stream_key a b h) _ _ (m - 96 - 20) ltac:(rewrite stream_key_len; change HASH_LEN with 20; lia))).
  rewrite stream_key_len. change HASH_LEN with 20.
  assert (len (apply (key "keyA" a b h) offer_plain).1 = 16) as Hlo by (unfold len; by rewrite apply_length).
  destruct (apply (key "keyA" a b h) offer_plain) as [offer out]. cbn [fst snd] in *.
  rewrite (talk_step _ _ _ _ _ (write_all_room io_error offer _ _ (m - 96 - 20 - 20) ltac:(rewrite Hlo; lia))). rewrite Hlo.
  rewrite (talk_step _ _ _ _ _ (selection_immediate (key "keyB" a b h) r _ _)).
  change (Z.land CRYPTO_RC4 CRYPTO_RC4 =? 0) with false. unfold mret, talk_ret, mbind, talk_bind, pure. cbn [fail_if].
  rewrite <- !app_assoc. do 2 f_equal. lia.
Qed.

Lemma find_torrent a b h hashes :
  h ∈ hashes -> (forall c, c ∈ hashes -> sha1_concat [bytes_of "req2"; c] = sha1_concat [bytes_of "req2"; h] -> c = h) ->
  List.find (fun c => bool_decide (stream_key a b h = xor20 (sha1_concat [bytes_of "req2"; c]) (sha1_concat [bytes_of "req3"; shared a b]))) hashes = Some h.
Proof.
  intros Hin Hc. destruct (List.find _ hashes) as [c|] eqn:E.
  - apply find_some in E as [Hi E%bool_decide_eq_true_1]. f_equal. apply Hc; [by apply list_elem_of_In|].
    symmetry. refine (xor20_inj _ _ (sha1_concat [bytes_of "req3"; shared a b]) _ _ E);
      pose proof (sha1_concat_len [bytes_of "req3"; shared a b]) as H3;
      [pose proof (sha1_concat_len [bytes_of "req2"; h]) as H4|pose proof (sha1_concat_len [bytes_of "req2"; c]) as H4]; unfold len in *; lia.
  - pose proof (find_none _ _ E h (proj1 (list_elem_of_In _ _) Hin)) as Hn. cbn beta in Hn.
    by rewrite bool_decide_eq_true_2 in Hn.
Qed.

Lemma accept_agrees a b h hashes r t m :
  1 < value (public a) -> len (responder_says a b h) <= m -> h ∈ hashes ->
  (forall c, c ∈ hashes -> sha1_concat [bytes_of "req2"; c] = sha1_concat [bytes_of "req2"; h] -> c = h) ->
  accept_matching b hashes (mkStream (initiator_says a b h ++ r) t m) =
    (Ok (h, mse_new (apply (key "keyA" a b h) offer_plain).2 (apply (key "keyB" a b h) response_plain).2 []),
     mkStream r (t ++ responder_says a b h) (m - len (responder_says a b h))).
Proof.
  intros Ha. unfold initiator_says, responder_says. rewrite len_app, public_len.
  assert (len (apply (key "keyB" a b h) response_plain).1 = 14) as Hlr by (unfold len; by rewrite apply_length). rewrite Hlr.
  change DH_BYTES with 96. intros Hm Hin Hc.
  unfold accept_matching, write_bytes, read_bytes. fold (public b).
  rewrite <- app_assoc, (talk_step _ _ _ _ _ (read_exact_app io_error DH_BYTES _ _ _ _ (public_len a))).
  rewrite (talk_step _ _ _ _ _ (write_all_room io_error _ _ t m ltac:(rewrite public_len; change DH_BYTES with 96; lia))).
  rewrite (talk_step (pure (dh_secret (to_be_bytes (public a)) b)) _ _ (mod_pow (public a) b) _ ltac:(unfold pure; by rewrite dh_secret_public)).
  cbv zeta. fold (shared b a). rewrite (shared_sym b a). rewrite public_len. change DH_BYTES with 96.
  rewrite <- !app_assoc.
  rewrite (talk_step _ _ _ _ _ (marker_immediate _ MAX_PAD_BYTES _ _ _ ltac:(by rewrite sha1_concat_len) ltac:(done))).
  rewrite (talk_step _ _ _ _ _ (read_exact_app io_error HASH_LEN _ _ _ _ (stream_key_len a b h))).
  rewrite find_torrent by done. unfold pure at 1. rewrite (talk_step _ _ _ h _ eq_refl).
  fold (key "keyA" a b h) (key "keyB" a b h).
  rewrite (talk_step _ _ _ _ _ (offer_read (key "keyA" a b h) r _ _)). cbn [crypto_provide initial_data].
  change (Z.land CRYPTO_RC4 CRYPTO_RC4 =? 0) with false. rewrite (talk_step _ _ _ () _ eq_refl).
  destruct (apply (key "keyB" a b h) response_plain) as [response out]. cbn [fst snd] in *.
  rewrite (talk_step _ _ _ _ _ (write_all_room io_error response _ _ (m - 96) ltac:(rewrite Hlr; lia))). rewrite Hlr.
  unfold mret, talk_ret. rewrite <- !app_assoc. do 2 f_equal. lia.
Qed.

(** C20: Two honest ends of the handshake agree.  For any two exponents whose public
    keys are in range, a torrent among the ones registered and no other registered
    torrent with the same hashed stream key, each end succeeds on what the other says,
    the responder finds the initiator's torrent, neither takes a byte that follows the
    handshake off its stream, and what either end encrypts from then on the other
    decrypts. *)
Theorem handshake_agrees a b h hashes p q ti tr mi mr :
  1 < value (public a) -> 1 < value (public b) -> h ∈ hashes ->
  (forall c, c ∈ hashes -> sha1_concat [bytes_of "req2"; c] = sha1_concat [bytes_of "req2"; h] -> c = h) ->
  len (initiator_says a b h) <= mi -> len (responder_says a b h) <= mr ->
  exists i r,
    connect a h (mkStream (responder_says a b h ++ q) ti mi) =
      (Ok i, mkStream q (ti ++ initiator_says a b h) (mi - len (initiator_says a b h))) /\
    accept_any b hashes (mkStream (initiator_says a b h ++ p) tr mr) =
      (Ok (h, r), mkStream p (tr ++ responder_says a b h) (mr - len (responder_says a b h))) /\
    read_prefix i = [] /\ read_prefix r = [] /\
    (forall x, apply (incoming r) (apply (outgoing i) x).1 = (x, (apply (outgoing i) x).2)) /\
    (forall x, apply (incoming i) (apply (outgoing r) x).1 = (x, (apply (outgoing r) x).2)).
Proof.
  intros Ha Hb Hin Hc Hmi Hmr. pose proof (connect_agrees a b h q ti mi Hb Hmi) as H1.
  pose proof (accept_agrees a b h hashes p tr mr Ha Hmr Hin Hc) as H2. revert H1 H2.
  generalize (apply (key "keyB" a b h) response_plain).2, (apply (key "keyA" a b h) offer_plain).2. intros ci co H1 H2.
  exists (mse_new ci co []), (mse_new co ci []). split; [exact H1|]. split.
  - unfold accept_any. rewrite bool_decide_eq_false_2; [exact H2|]. intros ->. by apply elem_of_nil in Hin.
  - split; [done|]. split; [done|]. split; intros x; apply apply_twice.
Qed.
End agreement.

(** ** The stream carries what is written *)

Definition unsent (m : MseStream) : list byte := drop (Z.to_nat (pending_offset m)) (pending_write m).
Definition offset_ok (m : MseStream) : Prop := 0 <= pending_offset m.

Lemma flush_sent answers : forall m out r m' out',
  offset_ok m -> poll_flush_pending answers m out = (r, m', out') ->
  out' ++ unsent m' = out ++ unsent m /\ outgoing m' = outgoing m /\ offset_ok m' /\ (r = Ready () -> unsent m' = []).
Proof.
  assert (forall m out, len (pending_write m) <= pending_offset m ->
    out ++ unsent (mkMse (incoming m) (outgoing m) (read_prefix m) [] 0) = out ++ unsent m) as Hdone.
  { intros m out Hl. unfold unsent. f_equal. symmetry. apply drop_ge. unfold len in Hl. lia. }
  induction answers as [|a answers IH]; intros m out r m' out' Ho; cbn [poll_flush_pending];
    destruct (Z.ltb_spec (pending_offset m) (len (pending_write m))) as [Hl|Hl].
  - by intros [= <- <- <-].
  - intros [= <- <- <-]. split; [by apply Hdone|]. by split; [|split].
  - destruct a as [|n|e]; [by intros [= <- <- <-]| |by intros [= <- <- <-]].
    destruct (n =? 0); [by intros [= <- <- <-]|]. intros H. apply IH in H as (H1 & H2 & H3 & H4); [|unfold offset_ok in *; cbn [pending_offset]; lia].
    split; [|done]. rewrite H1, <- app_assoc. f_equal. unfold unsent. cbn [pending_offset pending_write].
    unfold offset_ok in Ho. rewrite Z2Nat.inj_add, <- drop_drop by lia. apply take_drop.
  - intros [= <- <- <-]. split; [by apply Hdone|]. by split; [|split].
Qed.

(** A writer's polls; it drops the stream at the first error. *)
Inductive write_op : Type :=
  | WWrite (before after : list (poll Z)) (buf : list byte)
  | WFlush (answers : list (poll Z)) (below : poll ()).
Record writer : Type := mkWriter { w_stream : MseStream; w_out : list byte; w_plain : list byte }.
Definition write_step (w : writer) (o : write_op) : option writer :=
  match o with
  | WWrite before after buf =>
      match poll_write before after (w_stream w) (w_out w) buf with
      | (Ready n, m, out) => Some (mkWriter m out (w_plain w ++ take (Z.to_nat n) buf))
      | (Pending, m, out) => Some (mkWriter m out (w_plain w))
      | (Failed _, _, _) => None
      end
  | WFlush answers below =>
      match poll_flush answers below (w_stream w) (w_out w) with
      | (Failed _, _, _) => None
      | (_, m, out) => Some (mkWriter m out (w_plain w))
      end
  end.
Fixpoint write_all_steps (w : writer) (ops : list write_op) : option writer :=
  match ops with [] => Some w | o :: ops => w ← write_step w o; write_all_steps w ops end.

(** A reader's polls, each into an empty buffer of some capacity whose bytes it
    keeps; the bytes the stream below gave it. *)
Record reader : Type := mkReader { r_stream : MseStream; r_plain : list byte; r_taken : list byte }.
Definition given (inner : poll (list byte)) (m : MseStream) (cap : Z) : list byte :=
  let buf := (drain_prefix (read_prefix m) (mkReadBuf [] cap)).2 in
  if remaining buf =? 0 then [] else match inner with Ready bytes => take (Z.to_nat (remaining buf)) bytes | _ => [] end.
Definition read_step (r : reader) (p : Z * poll (list byte)) : reader :=
  let '(_, m, buf) := poll_read p.2 (r_stream r) (mkReadBuf [] p.1) in
  mkReader m (r_plain r ++ filled buf) (r_taken r ++ given p.2 (r_stream r) p.1).
Definition read_all_steps (r : reader) (ps : list (Z * poll (list byte))) : reader := foldl read_step r ps.

Definition written (c : Rc4Cipher) (w : writer) : Prop :=
  w_out w ++ unsent (w_stream w) = (apply c (w_plain w)).1 /\ outgoing (w_stream w) = (apply c (w_plain w)).2 /\
  offset_ok (w_stream w).

Lemma write_step_written c w o w' : written c w -> write_step w o = Some w' -> written c w'.
Proof.
  destruct w as [m out plain]. intros (H1 & H2 & H3). cbn [w_stream w_out w_plain] in *. destruct o as [before after buf|answers below].
  - unfold write_step, poll_write. cbn [w_stream w_out w_plain].
    destruct (poll_flush_pending before m out) as [[r m1] out1] eqn:E1. apply flush_sent in E1 as (S1 & O1 & K1 & R1); [|done].
    destruct r as [|[]|e]; [intros [= <-]; split; [|split]; cbn [w_stream w_out w_plain]; congruence| |done].
    specialize (R1 eq_refl). rewrite R1, app_nil_r in S1.
    destruct (len buf =? 0) eqn:El.
    { intros [= <-]. unfold written. cbn [w_stream w_out w_plain]. rewrite take_0, app_nil_r, R1, app_nil_r. split; [congruence|]. by split; [congruence|]. }
    destruct (apply (outgoing m1) buf) as [enc c1] eqn:Ee.
    destruct (poll_flush_pending after _ out1) as [[r m2] out2] eqn:E2. apply flush_sent in E2 as (S2 & O2 & K2 & _); [|done].
    assert (written c (mkWriter m2 out2 (plain ++ buf))) as Hw.
    { unfold written. cbn [w_stream w_out w_plain]. rewrite apply_app. cbn [fst snd]. rewrite <- H2, <- O1, Ee. cbn [fst snd].
      split; [|done]. rewrite S2. change (unsent _) with enc. by rewrite S1, H1. }
    assert (take (Z.to_nat (len buf)) buf = buf) as Ht by (apply take_ge; unfold len; lia).
    destruct r; [intros [= <-]; by rewrite Ht..|done].
  - unfold write_step, poll_flush. cbn [w_stream w_out w_plain].
    destruct (poll_flush_pending answers m out) as [[r m1] out1] eqn:E1. apply flush_sent in E1 as (S1 & O1 & K1 & R1); [|done].
    assert (written c (mkWriter m1 out1 plain)) as Hw by (split; [|split]; cbn [w_stream w_out w_plain]; congruence).
    destruct r as [|[]|e]; [by intros [= <-]| |done]. destruct below; [by intros [= <-]..|done].
Qed.

Lemma write_all_written c ops : forall w w', written c w -> write_all_steps w ops = Some w' -> written c w'.
Proof.
  induction ops as [|o ops IH]; intros w w' Hw; cbn [write_all_steps]; [by intros [= <-]|].
  destruct (write_step w o) as [w1|] eqn:E; [|done]. apply IH. by eapply write_step_written.
Qed.

Lemma drain_spec prefix : forall buf,
  filled (drain_prefix prefix buf).2 ++ (drain_prefix prefix buf).1 = filled buf ++ prefix /\
  (0 < remaining (drain_prefix prefix buf).2 -> (drain_prefix prefix buf).1 = []).
Proof.
  induction prefix as [|b prefix IH]; intros buf; cbn [drain_prefix]; [done|].
  destruct (Z.ltb_spec 0 (remaining buf)); [|cbn [fst snd]; split; [done|lia]].
  destruct (IH (put_slice buf [b])) as [H1 H2]. split; [|done]. rewrite H1. unfold put_slice. cbn [filled]. by rewrite <- app_assoc.
Qed.

Definition received (c : Rc4Cipher) (prefix : list byte) (r : reader) : Prop :=
  r_plain r ++ read_prefix (r_stream r) = prefix ++ (apply c (r_taken r)).1 /\ incoming (r_stream r) = (apply c (r_taken r)).2.

Lemma drain_capacity prefix : forall buf, 0 <= remaining buf -> 0 <= remaining (drain_prefix prefix buf).2.
Proof.
  induction prefix as [|b prefix IH]; intros buf Hb; cbn [drain_prefix]; [done|]. destruct (Z.ltb_spec 0 (remaining buf)); [|done].
  apply IH. unfold remaining, put_slice in *. cbn [filled capacity]. rewrite len_app. change (len [b]) with 1. lia.
Qed.

Lemma read_step_received c prefix r p : 0 <= p.1 -> received c prefix r -> received c prefix (read_step r p).
Proof.
  destruct r as [m plain taken], p as [cap inner]. intros Hcap (H1 & H2). cbn [r_stream r_plain r_taken fst] in *.
  unfold read_step, poll_read, given, received. cbn [r_stream r_plain r_taken fst snd].
  destruct (drain_spec (read_prefix m) (mkReadBuf [] cap)) as [D1 D2]. cbn [filled app] in D1.
  pose proof (drain_capacity (read_prefix m) (mkReadBuf [] cap)) as D3. change (remaining (mkReadBuf [] cap)) with (cap - 0) in D3. specialize (D3 ltac:(lia)).
  destruct (drain_prefix (read_prefix m) (mkReadBuf [] cap)) as [prefix' buf]. cbn [fst snd] in *.
  assert (plain ++ filled buf ++ prefix' = prefix ++ (apply c taken).1) as Hnone by (by rewrite D1, <- app_assoc || rewrite D1).
  destruct (Z.eqb_spec (remaining buf) 0) as [E|E].
  - cbn [r_stream r_plain r_taken read_prefix incoming]. rewrite app_nil_r, <- app_assoc. done.
  - destruct inner as [|bytes|e]; cbn [r_stream r_plain r_taken read_prefix incoming]; try (rewrite app_nil_r, <- app_assoc; done).
    destruct (apply (incoming m) (take (Z.to_nat (remaining buf)) bytes)) as [pl c'] eqn:Ea.
    cbn [r_stream r_plain r_taken read_prefix incoming put_slice filled]. rewrite apply_app, <- H2, Ea. cbn [fst snd]. split; [|done].
    rewrite D2 in Hnone by lia. rewrite app_nil_r in Hnone. rewrite D2, app_nil_r by lia. by rewrite (app_assoc plain), Hnone, <- app_assoc.
Qed.

Lemma read_all_received c prefix ps : forall r, Forall (fun p => 0 <= p.1) ps -> received c prefix r -> received c prefix (read_all_steps r ps).
Proof.
  induction ps as [|p ps IH]; intros r Hp Hr; [done|]. apply Forall_cons in Hp as [Hp Hps]. cbn [read_all_steps foldl].
  apply IH; [done|]. by apply read_step_received.
Qed.

Lemma handshake_agrees_witness :
  let D := toy_digests in
  let a := [x01] in let b := [x02] in let h := replicate 20 x07 in
  exists i r,
    connect (D := D) a h (mkStream (responder_says (D := D) a b h ++ [x2a]) [] (len (initiator_says (D := D) a b h)))
      = (Ok i, mkStream [x2a] (initiator_says (D := D) a b h) 0) /\
    (accept_any (D := D) b [h] (mkStream (initiator_says (D := D) a b h ++ []) [] (len (responder_says (D := D) a b h)))).1
      = Ok (h, r) /\
    (forall x, apply (incoming r) (apply (outgoing i) x).1 = (x, (apply (outgoing i) x).2)).
Proof.
  intros D a b h.
  destruct (handshake_agrees (D := D) a b h [h] [] [x2a] [] [] (len (initiator_says (D := D) a b h)) (len (responder_says (D := D) a b h)))
    as (i & r & H1 & H2 & _ & _ & H3 & _).
  - unfold public. rewrite (proj2 (mod_pow_exact DH_GENERATOR a reduced_2)). by vm_compute.
  - unfold public. rewrite (proj2 (mod_pow_exact DH_GENERATOR b reduced_2)). by vm_compute.
  - by apply list_elem_of_singleton.
  - by intros c ->%list_elem_of_singleton.
  - done.
  - done.
  - exists i, r. split; [rewrite H1, Z.sub_diag; reflexivity|]. split; [rewrite H2; reflexivity|exact H3].
Defined.

(** An encrypted connection is a plain one.  When the writer's outgoing cipher is
    the reader's incoming cipher, then whatever the polls of the streams below answer
    to the writes, flushes and reads of either end, in whatever pieces the bytes
    arrive, a reader that keeps what each poll put into its buffer has received a prefix
    of what was written, in order; it has received all of it once the writer has
    flushed and every byte has arrived. *)
Theorem stream_faithful c mw mr wops rops w wire :
  outgoing mw = c -> unsent mw = [] -> offset_ok mw -> incoming mr = c -> read_prefix mr = [] ->
  Forall (fun p => 0 <= p.1) rops ->
  write_all_steps (mkWriter mw [] []) wops = Some w ->
  let r := read_all_steps (mkReader mr [] []) rops in
  w_out w = r_taken r ++ wire ->
  r_plain r ++ read_prefix (r_stream r) `prefix_of` w_plain w /\
  (unsent (w_stream w) = [] -> wire = [] -> r_plain r ++ read_prefix (r_stream r) = w_plain w).
Proof.
  intros Hw Hu Ho Hr Hp Hcap Hrun r Hwire.
  assert (written c w) as (W1 & _ & _) by (eapply write_all_written; [|exact Hrun]; split; [cbn; by rewrite Hu|done]).
  assert (received c [] r) as [R1 _].
  { apply read_all_received; [done|]. split; cbn [r_stream r_plain r_taken]; [by rewrite Hp|done]. }
  cbn [app] in R1. rewrite R1. clear R1. rewrite Hwire in W1. apply (f_equal (fun x => (apply c x).1)) in W1. rewrite apply_twice in W1.
  cbn [fst] in W1. rewrite <- app_assoc, apply_app in W1. cbn [fst] in W1. rewrite <- W1. split; [by eexists|].
  intros -> ->. by rewrite app_nil_r.
Qed.

Definition zero_cipher : Rc4Cipher := mkRc4 (replicate 256 7) 0 0.
Lemma stream_faithful_witness :
  let m := mse_new zero_cipher zero_cipher [] in
  let ops := [WWrite [] [Ready 1; Pending] (bytes_of "abc"); WFlush [Ready 5] (Ready ())] in
  let reads := [(2, Ready [x66; x65; x64]); (9, Pending); (9, Ready [x64])] in
  r_plain (read_all_steps (mkReader m [] []) reads) = bytes_of "abc".
Proof.
  intros m ops reads.
  destruct (write_all_steps (mkWriter m [] []) ops) as [w|] eqn:E; [|by vm_compute in E].
  assert (w = mkWriter (w_stream w) (bytes_of "fed") (bytes_of "abc") /\ unsent (w_stream w) = []) as [Ew Eu]
    by (vm_compute in E; injection E as <-; by split).
  pose proof (proj2 (stream_faithful zero_cipher m m ops reads w [] eq_refl eq_refl ltac:(done) eq_refl eq_refl
    ltac:(by repeat constructor) E ltac:(rewrite Ew; by vm_compute)) Eu eq_refl) as H. rewrite Ew in H. cbn [w_plain] in H. rewrite <- H.
  by vm_compute.
Defined.

(** [AsyncReadExt::read] of tokio polls with a fresh buffer each time: what a poll that
    answers pending put into its buffer is gone. *)
Fixpoint read_future (cap : Z) (polls : list (poll (list byte))) (m : MseStream) : poll (list byte) * MseStream :=
  match polls with
  | [] => (Pending, m)
  | inner :: polls =>
      match poll_read inner m (mkReadBuf [] cap) with
      | (Pending, m, _) => read_future cap polls m
      | (Ready _, m, buf) => (Ready (filled buf), m)
      | (Failed e, m, _) => (Failed e, m)
      end
  end.

(** Initial data can be lost.  A read into a buffer larger than what is left of
    the initial data, while the stream below is pending, moves that data into a buffer
    that the pending answer discards: the read later completes with the next bytes of
    the wire only, and the initial data is gone. *)
Theorem pending_read_loses_prefix c out prefix wire n :
  0 < len prefix < n -> len prefix + len wire <= n ->
  read_future n [Pending; Ready wire] (mse_new c out prefix) =
  (Ready (apply c wire).1, mse_new (apply c wire).2 out []).
Proof.
  intros Hn Hw. cbn [read_future]. unfold poll_read at 1. cbn [read_prefix mse_new].
  pose proof (len_nonneg wire). pose proof (len_nonneg prefix).
  assert (forall p buf, len p <= remaining buf -> drain_prefix p buf = ([], mkReadBuf (filled buf ++ p) (capacity buf))) as Hd.
  { induction p as [|b p IH]; intros buf Hl; cbn [drain_prefix]; [by rewrite app_nil_r; destruct buf|].
    rewrite len_cons in Hl. pose proof (len_nonneg p). rewrite (proj2 (Z.ltb_lt _ _)) by lia. rewrite IH.
    - unfold put_slice. cbn [filled capacity]. by rewrite <- app_assoc.
    - unfold remaining, put_slice in *. cbn [filled capacity]. rewrite len_app. change (len [b]) with 1. lia. }
  rewrite Hd by (unfold remaining; cbn [filled capacity]; change (len (@nil byte)) with 0; lia). cbn [filled capacity app].
  unfold remaining at 1. cbn [filled capacity]. rewrite (proj2 (Z.eqb_neq _ _)) by lia.
  cbn [incoming outgoing pending_write pending_offset]. unfold poll_read. cbn [read_prefix drain_prefix remaining filled capacity incoming].
  unfold remaining. cbn [filled capacity]. change (len (@nil byte)) with 0. rewrite (proj2 (Z.eqb_neq _ _)) by lia.
  rewrite take_ge by (unfold len in *; lia). cbn [incoming outgoing read_prefix pending_write pending_offset mse_new].
  by destruct (apply c wire).
Qed.

Lemma pending_read_loses_prefix_witness :
  (read_future 4 [Pending; Ready [x66]] (mse_new zero_cipher zero_cipher [x2a])).1 = Ready [x61].
Proof. rewrite (pending_read_loses_prefix zero_cipher zero_cipher [x2a] [x66] 4); [by vm_compute|done|done]. Defined.
