(* ===== verification/Intake.v ===== *)
(** * Intake and tracker rules: [crates/swarmotter-core/src/policy.rs]

    The part of the policy module that decides about one torrent's files, trackers and
    directories, with its validators, and [build_tiers] of [models/tracker.rs].  The
    URL parser is a parameter.  The theorems: patterns match as globs, tracker rules
    filter and order stably, and no profile directory leaves its root. *)

From S2P Require Import Prelude Text Bits Meta Storage Torrent.

Local Open Scope byte_scope.
Local Open Scope Z_scope.

(** ** Data *)

Inductive QueuePriority : Type := PLow | PNormal | PHigh.
Definition weight (p : QueuePriority) : Z := match p with PLow => -1 | PNormal => 0 | PHigh => 1 end.

Record TrackerHostRule : Type := mkHostRule {
  host_pattern : text; rule_enabled : option bool; rule_priority : option QueuePriority }.

Record PolicyFileExclusionRule : Type := mkExclusion {
  path_pattern : option text; suffix : option text; path_segment : option text;
  min_size_bytes : option Z; max_size_bytes : option Z }.

Record IntakePolicySnapshot : Type := mkIntake {
  intake_profile : text;
  excluded_file_patterns : list text;
  excluded_file_rules : list PolicyFileExclusionRule;
  organization_subdirectory : option text;
  incomplete_subdirectory : option text;
  force_top_level_folder : bool;
  partial_file_suffix : option text;
  unwanted_file_indices : list Z }.

(** ** Patterns *)

Definition ascii_eq (a b : byte) : bool := Byte.eqb (to_ascii_lowercase a) (to_ascii_lowercase b).

Fixpoint skip_stars (p : text) : text :=
  match p with b :: p' => if Byte.eqb b "*" then skip_stars p' else p | [] => [] end.

(** The loop of [intake_pattern_matches]: an index is the suffix that starts there;
    [star] is the pattern after the last star and the path it is retried from. *)
Fixpoint match_loop (fuel : nat) (pattern path : text) (star : option (text * text)) : outcome bool :=
  match fuel with
  | O => OutOfFuel
  | S fuel =>
      match path with
      | [] => Ok (bool_decide (skip_stars pattern = []))
      | c :: path' =>
          let retry := match star with
                       | Some (after, from) => let from := tail from in match_loop fuel after from (Some (after, from))
                       | None => Ok false
                       end in
          match pattern with
          | a :: pattern' =>
              if Byte.eqb a "?" || ascii_eq a c then match_loop fuel pattern' path' star
              else if Byte.eqb a "*" then match_loop fuel pattern' path (Some (pattern', path))
              else retry
          | [] => retry
          end
      end
  end.
(** Every round shortens the rest of the pattern or moves the retry point on. *)
Definition match_fuel (pattern path : text) : nat := (S (S (length path)) * S (length pattern))%nat.
Definition intake_pattern_matches (pattern path : text) : outcome bool :=
  let pattern := trim pattern in match_loop (match_fuel pattern path) pattern path None.

(** [any] with a condition that is computed by a loop. *)
Fixpoint any {A} (f : A -> outcome bool) (l : list A) : outcome bool :=
  match l with [] => Ok false | a :: l => b ← f a; if (b : bool) then Ok true else any f l end.
(** [a || b] and [a && b]. *)
Definition or_else_ (a b : outcome bool) : outcome bool := x ← a; if (x : bool) then Ok true else b.
Definition and_then_ (a b : outcome bool) : outcome bool := x ← a; if (x : bool) then b else Ok false.
Definition is_none_or {A} (o : option A) (f : A -> outcome bool) : outcome bool :=
  match o with None => Ok true | Some a => f a end.

(** ** File rules *)

Definition intake_file_path_matches (file : MetaFile) (pattern : text) : outcome bool :=
  or_else_ (intake_pattern_matches pattern (join_slash (path file)))
    (if 1 <? len (path file) then intake_pattern_matches pattern (join_slash (tail (path file))) else Ok false).

Definition ascii_ends_with (value suffix : text) : bool :=
  eq_ignore_ascii_case (drop (length value - length suffix) value) suffix.

Definition has_condition (r : PolicyFileExclusionRule) : bool :=
  bool_decide (is_Some (path_pattern r)) || bool_decide (is_Some (suffix r)) || bool_decide (is_Some (path_segment r))
  || bool_decide (is_Some (min_size_bytes r)) || bool_decide (is_Some (max_size_bytes r)).

Definition intake_file_rule_matches (file : MetaFile) (rule : PolicyFileExclusionRule) : outcome bool :=
  and_then_ (Ok (has_condition rule))
  (and_then_ (is_none_or (path_pattern rule) (intake_file_path_matches file))
  (and_then_ (is_none_or (suffix rule) (fun s => Ok (match last (path file) with Some name => ascii_ends_with name s | None => false end)))
  (and_then_ (is_none_or (path_segment rule) (fun s => Ok (existsb (fun component => eq_ignore_ascii_case component s) (path file))))
  (and_then_ (is_none_or (min_size_bytes rule) (fun m => Ok (m <=? mf_length file)))
             (is_none_or (max_size_bytes rule) (fun m => Ok (mf_length file <=? m))))))).

Definition file_excluded (snapshot : IntakePolicySnapshot) (index : Z) (file : MetaFile) : outcome bool :=
  or_else_ (Ok (bool_decide (index ∈ unwanted_file_indices snapshot)))
  (or_else_ (any (intake_file_path_matches file) (excluded_file_patterns snapshot))
            (any (intake_file_rule_matches file) (excluded_file_rules snapshot))).

(** [get_mut(index)] and an assignment. *)
Definition set_at {A} (l : list A) (i : Z) (a : A) : list A := <[Z.to_nat i := a]> l.

Definition select_file (snapshot : IntakePolicySnapshot) (pw : list FilePriority * list bool) (entry : Z * MetaFile)
  : outcome (list FilePriority * list bool) :=
  excluded ← file_excluded snapshot entry.1 entry.2;
  Ok (if (excluded : bool) then (set_at pw.1 entry.1 Unwanted, set_at pw.2 entry.1 false) else pw).
Definition apply_intake_selection (files : list MetaFile) (priorities : list FilePriority) (wanted : list bool)
    (snapshot : IntakePolicySnapshot) : outcome (list FilePriority * list bool) :=
  try_fold (select_file snapshot) (priorities, wanted) (enumerate files).

(** The file records take over priority and selection. *)
Definition sync_row (priorities : list FilePriority) (wanted : list bool) (index : nat) (file : TorrentFile) : TorrentFile :=
  match priorities !! index, wanted !! index with
  | Some p, Some w => mkTorrentFile (tf_index file) (tf_path file) (tf_length file) (bytes_completed file) p w
  | _, _ => file
  end.
Definition apply_intake_file_rules (snapshot : option IntakePolicySnapshot) (files : list MetaFile)
    (st : list FilePriority * list bool * list TorrentFile) : outcome (list FilePriority * list bool * list TorrentFile) :=
  match snapshot with
  | None => Ok st
  | Some snapshot =>
      '(priorities, wanted) ← apply_intake_selection files st.1.1 st.1.2 snapshot;
      Ok (priorities, wanted, imap (sync_row priorities wanted) st.2)
  end.

Definition validate_intake_selection_indices (snapshot : IntakePolicySnapshot) (file_count : Z) : () + string :=
  if existsb (fun index => file_count <=? index) (unwanted_file_indices snapshot)
  then inr "unwanted_file_indices contains an index outside this torrent's file list"%string
  else inl ().

(** ** Trackers *)

Record TrackerTier : Type := mkTier { tier : Z; tier_url : text }.
Definition build_tiers (announce : option text) (announce_list : option (list (list text))) : list TrackerTier :=
  match announce_list with
  | Some ((_ :: _) as list) => concat (imap (fun i urls => map (mkTier (Z.of_nat i)) urls) list)
  | _ => match announce with Some url => [mkTier 0 url] | None => [] end
  end.

Section trackers.
(** The host of a URL that parses and has one. *)
Variable url_host : text -> option text.

Definition tracker_host_rule_matches (url : text) (rule : TrackerHostRule) : outcome bool :=
  match url_host url with Some host => intake_pattern_matches (host_pattern rule) host | None => Ok false end.

(** [find] with a computed condition. *)
Fixpoint find_first {A} (f : A -> outcome bool) (l : list A) : outcome (option A) :=
  match l with [] => Ok None | a :: l => b ← f a; if (b : bool) then Ok (Some a) else find_first f l end.

Definition candidate (rules : list TrackerHostRule) (entry : Z * text) : outcome (option (Z * QueuePriority * text)) :=
  rule ← find_first (tracker_host_rule_matches entry.2) rules;
  Ok (if bool_decide (rule ≫= rule_enabled = Some false) then None
      else Some (entry.1, default PNormal (rule ≫= rule_priority), entry.2)).

(** The comparison of [sort_by]: by weight, heaviest first, then by index. *)
Definition before (l r : Z * QueuePriority * text) : bool :=
  match weight r.1.2 ?= weight l.1.2 with Eq => l.1.1 <=? r.1.1 | Lt => true | Gt => false end.

Definition prioritize_tracker_urls (urls : list text) (rules : list TrackerHostRule) : outcome (list text) :=
  match rules with
  | [] => Ok urls
  | _ =>
      candidates ← mapM (candidate rules) (enumerate urls);
      Ok (map snd (sort_by before (omap id candidates)))
  end.

(** One step of the fold that groups by tier: the groups up to the tracker's tier are
    made, then its URL is pushed. *)
Definition push_tier (grouped : list (list text)) (tracker : TrackerTier) : list (list text) :=
  let n := Z.to_nat (tier tracker) in
  let grouped := grouped ++ replicate (S n - length grouped) [] in
  alter (fun urls => urls ++ [tier_url tracker]) n grouped.

Definition prioritized_tracker_tiers (announce : option text) (announce_list : list (list text)) (rules : list TrackerHostRule)
  : outcome (list (list text)) :=
  let tiers := build_tiers announce (Some announce_list) in
  match rules with
  | [] => Ok (foldl push_tier [] tiers)
  | _ =>
      ordered ← prioritize_tracker_urls (map tier_url tiers) rules;
      Ok (match ordered with [] => [] | _ => [ordered] end)
  end.
End trackers.

(** ** Directories *)

(** [Path::components] on Unix: empty components are skipped, and a dot but the first. *)
Inductive Component : Type := RootDir | CurDir | ParentDir | NormalComponent (s : text).
Definition component (first : bool) (s : text) : list Component :=
  if bool_decide (s = []) then []
  else if bool_decide (s = bytes_of ".") then if first then [CurDir] else []
  else if bool_decide (s = bytes_of "..") then [ParentDir]
  else [NormalComponent s].
Definition components (p : text) : list Component :=
  match p with
  | b :: _ => if Byte.eqb b "/" then RootDir :: concat (map (component false) (split_byte "/" p))
              else concat (imap (fun i => component (i =? 0)%nat) (split_byte "/" p))
  | [] => []
  end.
Definition is_normal (c : Component) : bool := match c with NormalComponent s => negb (bool_decide (s = [])) | _ => false end.

(** [Path::join] with a relative path, then [display]. *)
Definition path_join (base sub : text) : text :=
  if bool_decide (base = []) || ends_with_byte "/" base then base ++ sub else base ++ ["/"] ++ sub.

Definition is_safe_content_subdirectory (value : text) : bool :=
  negb (bool_decide (trim value = [])) && bool_decide (trim value = value) && forallb is_normal (components value).

Definition organize_storage_path (base : text) (subdirectory : option text) : text :=
  match subdirectory with
  | None => base
  | Some sub => if is_safe_content_subdirectory sub then path_join base sub else base
  end.

Definition force_top_level_storage_path (base torrent_name : text) (is_multi_file force : bool) : text :=
  if negb force || is_multi_file || negb (is_safe_content_subdirectory torrent_name) then base
  else path_join base torrent_name.

(** ** Validators, with the messages' interpolated values left out *)

(** [char::is_control] and [char::is_whitespace] of a character of UTF-8 text. *)
Fixpoint has_control (s : text) : bool :=
  match s with
  | [] => false
  | b :: s' => (u8 b <? 32) || (u8 b =? 127)
      || ((u8 b =? 0xc2) && match s' with c :: _ => in_range 0x80 0x9f c | [] => false end) || has_control s'
  end.
Fixpoint has_whitespace (s : text) : bool :=
  match s with
  | [] => false
  | _ :: s' => (match strip_any whitespace s with Some _ => true | None => false end) || has_whitespace s'
  end.
Definition contains_any (set : text) (s : text) : bool := existsb (fun b => contains_byte b s) set.

Definition validate_partial_file_suffix (value : option text) : () + string :=
  match value with
  | None => inl ()
  | Some value =>
      if bool_decide (trim value = []) || negb (bool_decide (trim value = value)) || (64 <? len value)
         || contains_any (bytes_of "/\:") value || has_control value
      then inr "partial_file_suffix must be a trimmed non-empty suffix of at most 64 bytes without path separators, drive delimiters, or control characters"%string
      else inl ()
  end.

(** Results with string errors. *)
Definition check (b : bool) (e : string) : () + string := if b then inr e else inl ().
Definition andthen {E} (a b : () + E) : () + E := match a with inl _ => b | inr e => inr e end.
Fixpoint check_all {A} (f : A -> () + string) (l : list A) : () + string :=
  match l with [] => inl () | a :: l => andthen (f a) (check_all f l) end.
Definition check_some {A} (o : option A) (f : A -> () + string) : () + string := match o with Some a => f a | None => inl () end.

Definition validate_host_rule (rule : TrackerHostRule) : () + string :=
  andthen
    (check (bool_decide (trim (host_pattern rule) = []) || negb (bool_decide (trim (host_pattern rule) = host_pattern rule))
            || (253 <? len (host_pattern rule)) || contains_any (bytes_of "/\@#?") (host_pattern rule) || has_whitespace (host_pattern rule))
       "host_pattern must be a non-empty trimmed host glob without URL delimiters")
    (check (match rule_enabled rule, rule_priority rule with None, None => true | _, _ => false end)
       "must set enabled and/or priority").
Definition validate_tracker_host_rules (rules : list TrackerHostRule) : () + string :=
  andthen (check (128 <? len rules) "tracker.host_rules must contain at most 128 rules") (check_all validate_host_rule rules).

Definition validate_nonempty_intake_text (value : text) (maximum_bytes : Z) : () + string :=
  check (bool_decide (trim value = []) || negb (bool_decide (trim value = value)) || (maximum_bytes <? len value))
    "must be non-empty, trimmed, and at most the maximum bytes".

Definition validate_exclusion_rule (rule : PolicyFileExclusionRule) : () + string :=
  andthen (check (negb (has_condition rule)) "must contain at least one condition")
  (andthen (check_some (path_pattern rule) (fun p => validate_nonempty_intake_text p 1024))
  (andthen (check_some (suffix rule) (fun s => andthen (validate_nonempty_intake_text s 255)
      (check (contains_any (bytes_of "/\") s) "suffix must not contain a path separator")))
  (andthen (check_some (path_segment rule) (fun s => andthen (validate_nonempty_intake_text s 255)
      (check (contains_any (bytes_of "/\") s) "path_segment must not contain a path separator")))
  (check (match min_size_bytes rule, max_size_bytes rule with Some lo, Some hi => hi <? lo | _, _ => false end)
     "min_size_bytes must not exceed max_size_bytes")))).
Definition validate_file_exclusion_rules (rules : list PolicyFileExclusionRule) : () + string :=
  andthen (check (256 <? len rules) "must contain at most 256 rules") (check_all validate_exclusion_rule rules).

(** ** Patterns are globs *)

(** What a pattern means: a star any text, a question mark one byte, any other byte
    itself in either case. *)
Inductive Glob : text -> text -> Prop :=
  | Glob_nil : Glob [] []
  | Glob_star_skip p s : Glob p s -> Glob ("*" :: p) s
  | Glob_star_take p c s : Glob ("*" :: p) s -> Glob ("*" :: p) (c :: s)
  | Glob_any p c s : Glob p s -> Glob ("?" :: p) (c :: s)
  | Glob_byte p a c s : a <> "*"%byte -> ascii_eq a c = true -> Glob p s -> Glob (a :: p) (c :: s).

Lemma lower_star b : to_ascii_lowercase b = "*"%byte -> b = "*"%byte.
Proof.
  assert (forallb (fun b => negb (Byte.eqb (to_ascii_lowercase b) "*") || Byte.eqb b "*") all_bytes = true) as H by (vm_compute; reflexivity).
  apply (fun H => byte_check _ H b) in H. cbn beta in H. intros E. rewrite E, byte_eqb_refl in H. by apply byte_eqb_eq.
Qed.

Lemma ascii_eq_star a c : ascii_eq a c = true -> a = "*"%byte -> c = "*"%byte.
Proof. unfold ascii_eq. intros H%byte_eqb_eq ->. by apply lower_star. Qed.

Lemma Glob_star p s : Glob ("*" :: p) s <-> exists u w, s = u ++ w /\ Glob p w.
Proof.
  split.
  - intros H. remember ("*"%byte :: p) as q eqn:Eq. revert p Eq. induction H; intros p' Eq; try discriminate Eq.
    + injection Eq as ->. by exists [], s.
    + destruct (IHGlob p' Eq) as (u & w & -> & Hw). by exists (c :: u), w.
    + injection Eq as -> ->. done.
  - intros (u & w & -> & H). induction u as [|c u IH]; cbn [app]; [by constructor|]. by constructor.
Qed.

Lemma Glob_head a p c s :
  a <> "*"%byte -> Glob (a :: p) (c :: s) <-> (a = "?"%byte \/ ascii_eq a c = true) /\ Glob p s.
Proof.
  intros Ha. split.
  - inversion 1; subst; try done; auto.
  - intros [[->|H] Hg]; by constructor.
Qed.

Lemma Glob_length q : forall p s, "*" ∉ q -> Glob (q ++ p) s -> exists u w, s = u ++ w /\ length u = length q /\ Glob p w.
Proof.
  induction q as [|a q IH]; intros p s Hq H; [by exists [], s|]. cbn [app] in H. apply not_elem_of_cons in Hq as [Ha Hq].
  assert (exists c s', s = c :: s' /\ Glob (q ++ p) s') as (c & s' & -> & H') by (inversion H; subst; eauto; done).
  destruct (IH p s' Hq H') as (u & w & -> & Hl & Hw). exists (c :: u), w. cbn. by rewrite Hl.
Qed.

Lemma skip_stars_Glob p : skip_stars p = [] <-> Glob p [].
Proof.
  induction p as [|b p IH]; cbn [skip_stars]; [split; [constructor|done]|]. destruct (Byte.eqb b "*") eqn:E.
  - apply byte_eqb_eq in E as ->. rewrite IH, Glob_star. split; [intros H; by exists [], []|].
    intros (u & w & E & H). symmetry in E. by apply app_nil in E as [-> ->].
  - apply byte_eqb_neq in E. split; [done|]. by inversion 1.
Qed.

(** What the rest of the loop still has to find: the rest of the pattern here, or what
    follows the last star later. *)
Definition later (star : option (text * text)) : Prop :=
  match star with Some (after, from) => Glob ("*" :: after) (tail from) | None => False end.
(** Between the star and here the pattern and the path went on by the same length. *)
Definition in_step (pattern path : text) (star : option (text * text)) : Prop :=
  match star with
  | Some (after, from) => "*" ∉ from /\ exists q u, after = q ++ pattern /\ from = u ++ path /\ length q = length u /\ "*" ∉ q
  | None => True
  end.
Definition loop_measure (n : nat) (pattern path : text) (star : option (text * text)) : nat :=
  match star with Some (_, from) => length from | None => S (length path) end * S n + length pattern.

Lemma later_end pattern star : in_step pattern [] star -> later star -> Glob pattern [].
Proof.
  destruct star as [[after from]|]; [|done]. intros (_ & q & u & -> & -> & Hl & Hq) H. rewrite app_nil_r in H.
  apply Glob_star in H as (v & w & E & H). apply Glob_length in H as (x & y & -> & Hx & Hy); [|done].
  apply (f_equal length) in E. rewrite !length_app in E. destruct u as [|b u].
  - cbn [tail length] in E. assert (y = []) as -> by (destruct y; [done|cbn in E; lia]). done.
  - cbn [tail length] in *. lia.
Qed.

Lemma suffix_of_rest (u path v y : text) :
  tail (u ++ path) = v ++ y -> (length u + length y <= length (v ++ y))%nat -> exists z, path = z ++ y.
Proof.
  intros E Hl. destruct (u ++ path) as [|b r] eqn:Eu.
  - apply app_nil in Eu as [-> ->]. cbn [tail] in E. symmetry in E. apply app_nil in E as [-> ->]. by exists [].
  - cbn [tail] in E. subst r. exists (drop (length u) (b :: v)).
    rewrite <- (drop_app_le (b :: v) y) by (rewrite length_app in Hl; cbn [length]; lia). cbn [app]. rewrite <- Eu.
    by rewrite drop_app_length.
Qed.

Lemma later_star pattern path star :
  in_step ("*" :: pattern) path star -> later star -> Glob ("*" :: pattern) path.
Proof.
  destruct star as [[after from]|]; [|done]. intros (_ & q & u & -> & -> & Hl & Hq) H.
  apply Glob_star in H as (v & w & E & H). apply Glob_length in H as (x & y & -> & Hx & Hy); [|done].
  apply Glob_star in Hy as (y1 & y2 & -> & Hy). apply Glob_star.
  destruct (suffix_of_rest u path (v ++ x) (y1 ++ y2)) as (z & ->).
  - by rewrite E, <- app_assoc.
  - rewrite !length_app. lia.
  - exists (z ++ y1), y2. by rewrite <- app_assoc.
Qed.

Lemma Glob_star_step p s : Glob ("*" :: p) s <-> Glob p s \/ Glob ("*" :: p) (tail s).
Proof.
  split.
  - inversion 1; subst; auto. done.
  - intros [H|H]; [by constructor|]. destruct s; [done|]. by constructor.
Qed.

Lemma match_loop_correct n fuel : forall pattern path star,
  "*" ∉ path -> in_step pattern path star -> (loop_measure n pattern path star < fuel)%nat ->
  (length pattern <= n)%nat -> match star with Some (after, _) => (length after <= n)%nat | None => True end ->
  exists b, match_loop fuel pattern path star = Ok b /\ (b = true <-> Glob pattern path \/ later star).
Proof.
  induction fuel as [|fuel IH]; intros pattern path star Hs Hi Hm Hn Ha; [lia|].
  cbn [match_loop]. destruct path as [|c path].
  { eexists. split; [done|]. rewrite bool_decide_eq_true, skip_stars_Glob. split; [auto|]. intros [H|H]; [done|].
    by eapply later_end. }
  assert (~ Glob pattern (c :: path) -> exists b,
    match star with Some (after, from) => let from := tail from in match_loop fuel after from (Some (after, from)) | None => Ok false end = Ok b /\
    (b = true <-> Glob pattern (c :: path) \/ later star)) as Hretry.
  { intros Hng. destruct star as [[after from]|]; [|exists false; split; [done|]; split; [done|]; by intros [|]].
    destruct Hi as (Hf & q & u & -> & -> & Hl & Hq). cbv zeta.
    assert (exists b rest, u ++ c :: path = b :: rest) as (b0 & rest & E) by (destruct u; cbn [app]; eauto).
    rewrite E in *. cbn [tail length] in *. apply not_elem_of_cons in Hf as [_ Hf].
    destruct (IH (q ++ pattern) rest (Some (q ++ pattern, rest))) as (b & -> & Hb); [done| | |done|done|].
    - split; [done|]. exists [], []. split; [done|]. split; [done|]. split; [done|]. set_solver.
    - unfold loop_measure in *. cbn [length] in *. nia.
    - exists b. split; [done|]. rewrite Hb. cbn [later tail]. rewrite (Glob_star_step _ rest). tauto. }
  apply not_elem_of_cons in Hs as [Hc Hs].
  destruct pattern as [|a pattern]; [apply Hretry; by inversion 1|].
  destruct (Byte.eqb a "?" || ascii_eq a c) eqn:Em.
  - assert (a <> "*"%byte) as Ha1.
    { intros ->. apply orb_true_iff in Em as [Em|Em]; [done|]. by eapply ascii_eq_star in Em. }
    destruct (IH pattern path star) as (b & -> & Hb); [done| | |cbn in Hn; lia|done|].
    + destruct star as [[after from]|]; [|done]. destruct Hi as (Hf & q & u & -> & -> & Hl & Hq). split; [done|].
      exists (q ++ [a]), (u ++ [c]). rewrite <- !app_assoc. split; [done|]. split; [done|]. rewrite !length_app. cbn [length].
      split; [lia|]. set_solver.
    + unfold loop_measure in *. destruct star as [[after from]|]; cbn [length] in *; lia.
    + exists b. split; [done|]. rewrite Hb, Glob_head by done. apply orb_true_iff in Em.
      rewrite byte_eqb_eq in Em. tauto.
  - apply orb_false_iff in Em as [Em1 Em2]. apply byte_eqb_neq in Em1. destruct (Byte.eqb a "*") eqn:Es.
    + apply byte_eqb_eq in Es as ->.
      destruct (IH pattern (c :: path) (Some (pattern, c :: path))) as (b & -> & Hb); [set_solver| | |cbn in Hn; lia|cbn in Hn; lia|].
      * split; [set_solver|]. exists [], []. split; [done|]. split; [done|]. split; [done|]. set_solver.
      * unfold loop_measure in *. destruct star as [[after from]|].
        -- destruct Hi as (_ & q & u & _ & -> & _). rewrite length_app in Hm. cbn [length] in *. nia.
        -- cbn [length] in *. nia.
      * exists b. split; [done|]. rewrite Hb. cbn [later tail]. rewrite (Glob_star_step pattern (c :: path)). cbn [tail].
        split; [tauto|]. intros [H|H]; [done|]. by apply Glob_star_step, (later_star pattern (c :: path) star).
    + apply byte_eqb_neq in Es. apply Hretry. rewrite Glob_head by done. intros [[H|H] _]; congruence.
Qed.

Lemma match_fuel_enough pattern path : (loop_measure (length pattern) pattern path None < match_fuel pattern path)%nat.
Proof. unfold loop_measure, match_fuel. nia. Qed.

(** Patterns are globs.  On a path without a star the matcher returns, and says
    whether the trimmed pattern matches the whole path with stars for any text,
    question marks for one byte and bytes for themselves in either case. *)
Theorem pattern_matches_glob pattern path :
  "*" ∉ path ->
  exists b, intake_pattern_matches pattern path = Ok b /\ (b = true <-> Glob (trim pattern) path).
Proof.
  intros Hs. destruct (match_loop_correct (length (trim pattern)) (match_fuel (trim pattern) path) (trim pattern) path None)
    as (b & Hb & Hg); [done|done|apply match_fuel_enough|done|done|].
  exists b. split; [exact Hb|]. rewrite Hg. cbn [later]. tauto.
Qed.

Lemma pattern_matches_glob_witness :
  exists b, intake_pattern_matches (bytes_of "*/Sam?les/*.NFO ") (bytes_of "release/samples/a.nfo") = Ok b /\
    (b = true <-> Glob (trim (bytes_of "*/Sam?les/*.NFO ")) (bytes_of "release/samples/a.nfo")).
Proof. apply pattern_matches_glob. apply (bool_decide_eq_true_1 _). by vm_compute. Defined.

(** On a path with a star the matcher takes a star of the pattern for that byte. *)
Lemma star_of_the_path_hides_match :
  Glob (bytes_of "*b") (bytes_of "*ab") /\ intake_pattern_matches (bytes_of "*b") (bytes_of "*ab") = Ok false.
Proof.
  split; [|by vm_compute]. apply Glob_star. exists (bytes_of "*a"), (bytes_of "b"). split; [done|].
  apply Glob_byte; [done|by vm_compute|constructor].
Qed.

(** ** The matcher returns on every path *)

Definition from_past (path : text) (star : option (text * text)) : Prop :=
  match star with Some (_, from) => exists u, from = u ++ path | None => True end.

Lemma match_loop_returns n fuel : forall pattern path star,
  from_past path star -> (loop_measure n pattern path star < fuel)%nat ->
  (length pattern <= n)%nat -> match star with Some (after, _) => (length after <= n)%nat | None => True end ->
  exists b, match_loop fuel pattern path star = Ok b.
Proof.
  induction fuel as [|fuel IH]; intros pattern path star Hi Hm Hn Ha; [lia|].
  cbn [match_loop]. destruct path as [|c path]; [by eexists|].
  assert (exists b, match star with Some (after, from) => let from := tail from in match_loop fuel after from (Some (after, from)) | None => Ok false end = Ok b)
    as Hretry.
  { destruct star as [[after from]|]; [|by exists false]. destruct Hi as (u & ->). cbv zeta.
    assert (exists b rest, u ++ c :: path = b :: rest) as (b0 & rest & E) by (destruct u; cbn [app]; eauto).
    rewrite E in *. cbn [tail length] in *. apply IH; [by exists []| |done|done]. unfold loop_measure in *. cbn [length] in *. nia. }
  destruct pattern as [|a pattern]; [done|]. destruct (_ || _).
  - apply IH; [| |cbn in Hn; lia|done].
    + destruct star as [[after from]|]; [|done]. destruct Hi as (u & ->). exists (u ++ [c]). by rewrite <- app_assoc.
    + unfold loop_measure in *. destruct star as [[after from]|]; cbn [length] in *; lia.
  - destruct (Byte.eqb a "*"); [|done]. apply IH; [by exists []| |cbn in Hn; lia|cbn in Hn; lia].
    unfold loop_measure in *. destruct star as [[after from]|].
    + destruct Hi as (u & ->). rewrite length_app in Hm. cbn [length] in *. nia.
    + cbn [length] in *. nia.
Qed.

Lemma pattern_matches_total pattern path : exists b, intake_pattern_matches pattern path = Ok b.
Proof. apply (match_loop_returns (length (trim pattern))); [done|apply match_fuel_enough|done|done]. Qed.

Lemma any_total {A} (f : A -> outcome bool) l : (forall a, exists b, f a = Ok b) -> exists b, any f l = Ok b.
Proof.
  intros Hf. induction l as [|a l IH]; [by exists false|]. cbn [any]. destruct (Hf a) as [b ->]. rewrite bind_ret.
  destruct b; [by exists true|done].
Qed.
Lemma or_total a b : (exists x, a = Ok x) -> (exists y, b = Ok y) -> exists z, or_else_ a b = Ok z.
Proof. intros [x ->] [y ->]. unfold or_else_. rewrite bind_ret. destruct x; eauto. Qed.
Lemma and_total a b : (exists x, a = Ok x) -> (exists y, b = Ok y) -> exists z, and_then_ a b = Ok z.
Proof. intros [x ->] [y ->]. unfold and_then_. rewrite bind_ret. destruct x; eauto. Qed.
Lemma none_or_total {A} (o : option A) f : (forall a, exists b, f a = Ok b) -> exists b, is_none_or o f = Ok b.
Proof. destruct o; cbn; eauto. Qed.

Lemma path_matches_total file pattern : exists b, intake_file_path_matches file pattern = Ok b.
Proof.
  apply or_total; [apply pattern_matches_total|]. destruct (1 <? len (path file)); [apply pattern_matches_total|by eexists].
Qed.
Lemma rule_matches_total file rule : exists b, intake_file_rule_matches file rule = Ok b.
Proof.
  unfold intake_file_rule_matches. apply and_total; [by eexists|]. apply and_total; [apply none_or_total, path_matches_total|].
  apply and_total; [apply none_or_total; eauto|]. apply and_total; [apply none_or_total; eauto|].
  apply and_total; apply none_or_total; eauto.
Qed.
Lemma file_excluded_total snapshot i f : exists b, file_excluded snapshot i f = Ok b.
Proof.
  unfold file_excluded. apply or_total; [by eexists|].
  apply or_total; apply any_total; intros; [apply path_matches_total|apply rule_matches_total].
Qed.

(** ** Intake only removes *)

(** What the selection does to the value of a file. *)
Definition removed {A} (snapshot : IntakePolicySnapshot) (files : list MetaFile) (a : A) (i : nat) (old : A) : A :=
  match files !! i with
  | Some f => match file_excluded snapshot (Z.of_nat i) f with Ok true => a | _ => old end
  | None => old
  end.

Lemma enumerate_snoc {A} (l : list A) a : enumerate (l ++ [a]) = enumerate l ++ [(Z.of_nat (length l), a)].
Proof. unfold enumerate. rewrite imap_app. cbn [imap]. by rewrite Nat.add_0_r. Qed.

Lemma removed_snoc {A} snapshot files f (a : A) i old :
  removed snapshot (files ++ [f]) a i old =
  if decide (i = length files) then match file_excluded snapshot (Z.of_nat i) f with Ok true => a | _ => old end
  else removed snapshot files a i old.
Proof.
  unfold removed. destruct (decide (i = length files)) as [->|Hi]; [by rewrite lookup_app_r, Nat.sub_diag|].
  destruct (decide (i < length files)%nat); [by rewrite lookup_app_l|]. rewrite lookup_app_r by lia.
  rewrite (lookup_ge_None_2 files) by lia. destruct (i - length files)%nat eqn:E; [lia|done].
Qed.

(** One file of the selection. *)
Lemma select_one {A} snapshot files f (a : A) (l l0 : list A) b :
  file_excluded snapshot (Z.of_nat (length files)) f = Ok b ->
  (forall i, l !! i = removed snapshot files a i <$> l0 !! i) ->
  forall i, (if b then set_at l (Z.of_nat (length files)) a else l) !! i = removed snapshot (files ++ [f]) a i <$> l0 !! i.
Proof.
  intros Hb Hl i. destruct (decide (i = length files)) as [->|Hi].
  - assert (l !! length files = l0 !! length files) as E.
    { rewrite Hl. unfold removed. rewrite (lookup_ge_None_2 files) by lia. by destruct (l0 !! length files). }
    assert (removed snapshot (files ++ [f]) a (length files) <$> l0 !! length files = (fun old => if b then a else old) <$> l0 !! length files) as ->.
    { destruct (l0 !! length files) as [x|]; [|done]. cbn [fmap option_fmap option_map]. f_equal. rewrite removed_snoc, decide_True, Hb by done. by destruct b. }
    rewrite <- E. unfold set_at. rewrite Nat2Z.id. destruct b; [|by destruct (l !! length files)].
    destruct (l !! length files) as [x|] eqn:El.
    + rewrite list_lookup_insert_eq by by eapply lookup_lt_Some. done.
    + rewrite list_insert_ge by by apply lookup_ge_None. by rewrite El.
  - assert ((if b then set_at l (Z.of_nat (length files)) a else l) !! i = l !! i) as ->.
    { destruct b; [|done]. unfold set_at. rewrite Nat2Z.id. by apply list_lookup_insert_ne. }
    rewrite Hl. destruct (l0 !! i) as [x|]; [|done]. cbn [fmap option_fmap option_map]. f_equal. by rewrite removed_snoc, decide_False.
Qed.

Lemma intake_selected files priorities wanted snapshot :
  exists p w, apply_intake_selection files priorities wanted snapshot = Ok (p, w) /\
    (forall i, p !! i = removed snapshot files Unwanted i <$> priorities !! i) /\
    (forall i, w !! i = removed snapshot files false i <$> wanted !! i).
Proof.
  unfold apply_intake_selection. induction files as [|f files IH] using rev_ind.
  - exists priorities, wanted. split; [done|]. unfold removed. split; intros i; [by destruct (priorities !! i)|by destruct (wanted !! i)].
  - destruct IH as (p & w & E & Hp & Hw). rewrite enumerate_snoc, try_fold_app, E, bind_ret. cbn [try_fold].
    unfold select_file at 1. cbn [fst snd]. destruct (file_excluded_total snapshot (Z.of_nat (length files)) f) as [b Hb]. rewrite Hb, bind_ret.
    exists (if b then set_at p (Z.of_nat (length files)) Unwanted else p), (if b then set_at w (Z.of_nat (length files)) false else w).
    split; [by destruct b|]. split; by apply select_one.
Qed.

(** Intake only removes files, and removing again changes nothing.  Whatever the
    patterns, rules and indices, applying the captured decision returns; a file that it
    excludes becomes unwanted with the lowest priority, every other file and every entry
    past the files keep what they had, and a second application is the identity. *)
Theorem intake_only_removes files priorities wanted snapshot :
  exists p w, apply_intake_selection files priorities wanted snapshot = Ok (p, w) /\
    length p = length priorities /\ length w = length wanted /\
    (forall i, match files !! i with
      | Some f =>
          (file_excluded snapshot (Z.of_nat i) f = Ok true /\ p !! i = (fun _ => Unwanted) <$> priorities !! i /\ w !! i = (fun _ => false) <$> wanted !! i) \/
          (file_excluded snapshot (Z.of_nat i) f = Ok false /\ p !! i = priorities !! i /\ w !! i = wanted !! i)
      | None => p !! i = priorities !! i /\ w !! i = wanted !! i
      end) /\
    apply_intake_selection files p w snapshot = Ok (p, w).
Proof.
  destruct (intake_selected files priorities wanted snapshot) as (p & w & E & Hp & Hw). exists p, w.
  assert (forall {A} (l l0 : list A) g, (forall i, l !! i = g i <$> l0 !! i) -> length l = length l0) as Hlen.
  { intros A l l0 g H. apply Nat.le_antisymm; apply Nat.le_ngt; intros Hlt.
    - apply lookup_lt_is_Some in Hlt as [x Hx]. rewrite H in Hx. by rewrite lookup_ge_None_2 in Hx.
    - apply lookup_lt_is_Some in Hlt as [x Hx]. pose proof (H (length l)) as H'. rewrite Hx, lookup_ge_None_2 in H' by lia. done. }
  split; [done|]. split; [by eapply Hlen|]. split; [by eapply Hlen|]. split.
  - intros i. rewrite Hp, Hw. unfold removed. destruct (files !! i) as [f|] eqn:Ef.
    + destruct (file_excluded_total snapshot (Z.of_nat i) f) as [[] ->]; [left|right]; (split; [done|]);
        by destruct (priorities !! i), (wanted !! i).
    + by destruct (priorities !! i), (wanted !! i).
  - destruct (intake_selected files p w snapshot) as (p2 & w2 & -> & Hp2 & Hw2). f_equal. f_equal; apply list_eq; intros i.
    + rewrite Hp2, Hp. destruct (priorities !! i) as [x|]; [|done]. cbn [fmap option_fmap option_map]. f_equal. unfold removed.
      destruct (files !! i); [|done]. by destruct (file_excluded _ _ _) as [[]| | |].
    + rewrite Hw2, Hw. destruct (wanted !! i) as [x|]; [|done]. cbn [fmap option_fmap option_map]. f_equal. unfold removed.
      destruct (files !! i); [|done]. by destruct (file_excluded _ _ _) as [[]| | |].
Qed.

(** ** Tracker rules *)

Section tracker_order.
Variable url_host : text -> option text.

Lemma find_first_total {A} (f : A -> outcome bool) l : (forall a, exists b, f a = Ok b) -> exists o, find_first f l = Ok o.
Proof.
  intros Hf. induction l as [|a l IH]; [by eexists|]. cbn [find_first]. destruct (Hf a) as [[] ->]; rewrite bind_ret; [by eexists|done].
Qed.

(** What the rules say of a URL: nothing for a disabled host, else its priority. *)
Definition verdict (rules : list TrackerHostRule) (url : text) : option QueuePriority :=
  match find_first (tracker_host_rule_matches url_host url) rules with
  | Ok rule => if bool_decide (rule ≫= rule_enabled = Some false) then None else Some (default PNormal (rule ≫= rule_priority))
  | _ => None
  end.

Lemma candidate_verdict rules i url :
  candidate url_host rules (i, url) = Ok ((fun p => (i, p, url)) <$> verdict rules url).
Proof.
  unfold candidate, verdict. cbn [fst snd].
  destruct (find_first_total (tracker_host_rule_matches url_host url) rules) as [o ->].
  { intros r. unfold tracker_host_rule_matches. destruct (url_host url); [apply pattern_matches_total|by eexists]. }
  rewrite bind_ret. by case_bool_decide.
Qed.

Definition of_priority (p : QueuePriority) (c : Z * QueuePriority * text) : bool :=
  weight c.1.2 =? weight p.
Definition by_priority (l : list (Z * QueuePriority * text)) : list (Z * QueuePriority * text) :=
  List.filter (of_priority PHigh) l ++ List.filter (of_priority PNormal) l ++ List.filter (of_priority PLow) l.

Lemma insert_by_skip {A} (le : A -> A -> bool) a l1 l2 :
  Forall (fun b => le a b = false) l1 -> insert_by le a (l1 ++ l2) = l1 ++ insert_by le a l2.
Proof. induction 1 as [|b l1 Hb _ IH]; [done|]. cbn [app insert_by]. by rewrite Hb, IH. Qed.
Lemma insert_by_here {A} (le : A -> A -> bool) a l : Forall (fun b => le a b = true) l -> insert_by le a l = a :: l.
Proof. destruct 1 as [|b l Hb _]; [done|]. cbn [insert_by]. by rewrite Hb. Qed.

Lemma of_priority_before a p l :
  Forall (fun c => a.1.1 < c.1.1) l ->
  (weight p <= weight a.1.2 -> Forall (fun b => before a b = true) (List.filter (of_priority p) l)) /\
  (weight a.1.2 < weight p -> Forall (fun b => before a b = false) (List.filter (of_priority p) l)).
Proof.
  intros Hl. split; intros Hw; apply Forall_forall; intros c Hc; apply list_elem_of_In, filter_In in Hc as [Hc Hp];
    apply list_elem_of_In in Hc; unfold of_priority in Hp; apply Z.eqb_eq in Hp; unfold before;
    eapply Forall_forall in Hl; [|exact Hc| |exact Hc]; cbn beta in Hl; destruct (Z.compare_spec (weight c.1.2) (weight a.1.2)); try lia; try done.
Qed.

Lemma sort_before l : StronglySorted (fun a b => a.1.1 < b.1.1) l -> sort_by before l = by_priority l.
Proof.
  induction 1 as [|a l _ IH Ha]; [done|]. change (sort_by before (a :: l)) with (insert_by before a (sort_by before l)). rewrite IH.
  unfold by_priority. cbn [List.filter].
  pose proof (of_priority_before a PHigh l Ha) as [H1 H1']. pose proof (of_priority_before a PNormal l Ha) as [H2 H2'].
  pose proof (of_priority_before a PLow l Ha) as [H3 H3']. destruct a as [[i p] u]. unfold of_priority in *. cbn [fst snd] in *.
  destruct p; cbn [weight] in *.
  - change (-1 =? 1) with false. change (-1 =? 0) with false. change (-1 =? -1) with true. cbv iota.
    rewrite insert_by_skip by auto with lia. rewrite insert_by_skip by auto with lia. by rewrite insert_by_here by auto with lia.
  - change (0 =? 1) with false. change (0 =? 0) with true. change (0 =? -1) with false. cbv iota.
    rewrite insert_by_skip by auto with lia. rewrite insert_by_here; [done|]. apply Forall_app; auto with lia.
  - change (1 =? 1) with true. change (1 =? 0) with false. change (1 =? -1) with false. cbv iota.
    rewrite insert_by_here; [done|]. rewrite !Forall_app. auto with lia.
Qed.

Definition candidates_from (rules : list TrackerHostRule) (entries : list (Z * text)) : list (Z * QueuePriority * text) :=
  omap (fun e => (fun p => (e.1, p, e.2)) <$> verdict rules e.2) entries.

Lemma candidates_mapM rules entries :
  mapM (candidate url_host rules) entries = Ok (map (fun e => (fun p => (e.1, p, e.2)) <$> verdict rules e.2) entries).
Proof.
  apply mapM_Ok. induction entries as [|[i u] entries IH]; [constructor|]. constructor; [apply candidate_verdict|done].
Qed.
Lemma candidates_omap rules entries :
  omap id (map (fun e => (fun p => (e.1, p, e.2)) <$> verdict rules e.2) entries) = candidates_from rules entries.
Proof.
  unfold candidates_from. induction entries as [|[i u] entries IH]; [done|]. cbn [map omap list_omap fst snd id].
  by destruct (verdict rules u); cbn [fmap option_fmap option_map]; rewrite IH.
Qed.

Lemma candidates_sorted rules (urls : list text) : forall k,
  let l := candidates_from rules (imap (fun i u => (Z.of_nat (k + i), u)) urls) in
  StronglySorted (fun a b => a.1.1 < b.1.1) l /\ Forall (fun c => Z.of_nat k <= c.1.1) l /\
  forall p, map snd (List.filter (of_priority p) l) = List.filter (fun u => match verdict rules u with Some q => weight q =? weight p | None => false end) urls.
Proof.
  induction urls as [|u urls IH]; intros k; [split; [constructor|split; [constructor|done]]|]. cbn [imap].
  assert (imap ((fun i u => (Z.of_nat (k + i), u)) ∘ S) urls = imap (fun i u => (Z.of_nat (S k + i), u)) urls) as ->.
  { apply imap_ext. intros i x _. cbn. do 2 f_equal. lia. }
  destruct (IH (S k)) as (H1 & H2 & H3). unfold candidates_from in *. cbn [omap list_omap fst snd List.filter].
  assert (Forall (fun c : Z * QueuePriority * text => Z.of_nat k < c.1.1) (candidates_from rules (imap (fun i u => (Z.of_nat (S k + i), u)) urls))) as H4.
  { eapply Forall_impl; [exact H2|]. cbn beta. lia. }
  destruct (verdict rules u) as [q|]; cbn [fmap option_fmap option_map].
  - split; [constructor; [exact H1|]; rewrite Nat.add_0_r; exact H4|]. split.
    + constructor; [cbn; lia|]. eapply Forall_impl; [exact H2|]. cbn beta. lia.
    + intros p. cbn [List.filter]. change (of_priority p (Z.of_nat (k + 0), q, u)) with (weight q =? weight p).
      destruct (weight q =? weight p); cbn [map snd]; by rewrite H3.
  - split; [exact H1|]. split; [|exact H3]. eapply Forall_impl; [exact H2|]. cbn beta. lia.
Qed.

(** Tracker rules filter and order the trackers, stably.  With rules, every
    tracker's verdict is that of the first rule whose pattern matches its host; the
    result is the enabled trackers of high priority, then of normal, then of low, each
    group in the order of the torrent, whether the URLs come flat or as tiers. *)
Theorem tracker_rules_exact rules urls announce announce_list :
  rules <> [] ->
  let chosen p us := List.filter (fun u => match verdict rules u with Some q => weight q =? weight p | None => false end) us in
  prioritize_tracker_urls url_host urls rules = Ok (chosen PHigh urls ++ chosen PNormal urls ++ chosen PLow urls) /\
  (let us := map tier_url (build_tiers announce (Some announce_list)) in
   let l := chosen PHigh us ++ chosen PNormal us ++ chosen PLow us in
   prioritized_tracker_tiers url_host announce announce_list rules = Ok (match l with [] => [] | _ => [l] end)) /\
  (forall u, exists o, find_first (tracker_host_rule_matches url_host u) rules = Ok o).
Proof.
  intros Hr chosen.
  assert (forall us, prioritize_tracker_urls url_host us rules = Ok (chosen PHigh us ++ chosen PNormal us ++ chosen PLow us)) as Hus.
  { intros us. unfold prioritize_tracker_urls. destruct rules as [|r rules]; [done|].
    rewrite candidates_mapM, bind_ret, candidates_omap.
    destruct (candidates_sorted (r :: rules) us 0) as (H1 & _ & H3). change (imap (fun i u => (Z.of_nat (0 + i), u)) us) with (enumerate us) in *.
    rewrite sort_before by done. unfold by_priority. rewrite !map_app, !H3. done. }
  split; [apply Hus|]. split.
  - cbv zeta. unfold prioritized_tracker_tiers. destruct rules as [|r rules]; [done|]. by rewrite Hus, bind_ret.
  - intros u. apply find_first_total. intros r. unfold tracker_host_rule_matches. destruct (url_host u); [apply pattern_matches_total|by eexists].
Qed.
End tracker_order.

Lemma tracker_rules_exact_witness :
  let host := fun u => Some (drop 7 u) in
  let rules := [mkHostRule (bytes_of "*.slow") None (Some PLow); mkHostRule (bytes_of "bad*") (Some false) None;
                mkHostRule (bytes_of "x") None (Some PHigh)] in
  prioritize_tracker_urls host [bytes_of "http://a.slow"; bytes_of "http://bad"; bytes_of "http://n"; bytes_of "http://X"] rules
  = Ok [bytes_of "http://X"; bytes_of "http://n"; bytes_of "http://a.slow"].
Proof.
  intros host rules. rewrite (proj1 (tracker_rules_exact host rules _ None [] ltac:(done))). by vm_compute.
Defined.

(** Groups of trackers, with the empty ones at the end left out. *)
Definition drop_empty_end {A} (l : list (list A)) : list (list A) :=
  foldr (fun x acc => match x, acc with [], [] => [] | _, _ => x :: acc end) [] l.

Lemma drop_empty_end_snoc {A} (l : list (list A)) x :
  drop_empty_end (l ++ [x]) = match x with [] => drop_empty_end l | _ => l ++ [x] end.
Proof.
  induction l as [|y l IH]; cbn [app drop_empty_end foldr].
  - by destruct x.
  - fold (drop_empty_end (l ++ [x])). rewrite IH. destruct x as [|a x]; [done|]. destruct y; [|done]. by destruct l.
Qed.
Lemma drop_empty_end_pad {A} (l : list (list A)) :
  (length (drop_empty_end l) <= length l)%nat /\ drop_empty_end l ++ replicate (length l - length (drop_empty_end l)) [] = l.
Proof.
  induction l as [|x l [IH1 IH2]]; [done|]. cbn [drop_empty_end foldr]. fold (drop_empty_end l).
  destruct x as [|a x].
  - destruct (drop_empty_end l) as [|y r] eqn:E; cbn [length app Nat.sub] in *; [split; [lia|]|split; [lia|]].
    + cbn [replicate]. f_equal. rewrite <- IH2 at 2. by rewrite Nat.sub_0_r.
    + by rewrite IH2.
  - cbn [length app Nat.sub]. split; [lia|]. by rewrite IH2.
Qed.

(** Pushing the trackers of one tier. *)
Lemma push_tier_all n g urls : urls <> [] -> (length g <= n)%nat ->
  foldl push_tier g (map (mkTier (Z.of_nat n)) urls) = g ++ replicate (n - length g) [] ++ [urls].
Proof.
  intros Hne Hl. destruct urls as [|u urls]; [done|]. clear Hne. cbn [map foldl].
  assert (push_tier g (mkTier (Z.of_nat n) u) = g ++ replicate (n - length g) [] ++ [[u]]) as ->.
  { unfold push_tier. cbn [tier tier_url]. rewrite Nat2Z.id. replace (S n - length g)%nat with ((n - length g) + 1)%nat by lia.
    rewrite replicate_add, app_assoc. rewrite alter_app_r_alt by (rewrite length_app, length_replicate; lia).
    rewrite length_app, length_replicate. replace (n - (length g + (n - length g)))%nat with 0%nat by lia. by rewrite <- app_assoc. }
  assert (forall done_, foldl push_tier (g ++ replicate (n - length g) [] ++ [done_]) (map (mkTier (Z.of_nat n)) urls)
    = g ++ replicate (n - length g) [] ++ [done_ ++ urls]) as Hpush.
  { induction urls as [|v urls IH]; intros done_; cbn [map foldl]; [by rewrite app_nil_r|].
    assert (push_tier (g ++ replicate (n - length g) [] ++ [done_]) (mkTier (Z.of_nat n) v) = g ++ replicate (n - length g) [] ++ [done_ ++ [v]]) as ->.
    { unfold push_tier. cbn [tier tier_url]. rewrite Nat2Z.id. rewrite !length_app, length_replicate. cbn [length].
      replace (S n - (length g + (n - length g + 1)))%nat with 0%nat by lia. cbn [replicate]. rewrite app_nil_r, app_assoc.
      rewrite alter_app_r_alt by (rewrite length_app, length_replicate; lia).
      rewrite length_app, length_replicate. replace (n - (length g + (n - length g)))%nat with 0%nat by lia. by rewrite <- app_assoc. }
    rewrite IH, <- app_assoc. done. }
  exact (Hpush [u]).
Qed.

(** Without rules the tiers are those of the torrent, but for empty tiers at the end. *)
Theorem tiers_unchanged url_host announce announce_list :
  prioritized_tracker_tiers url_host announce announce_list [] =
    Ok (match announce_list with
        | [] => match announce with Some url => [[url]] | None => [] end
        | _ => drop_empty_end announce_list
        end).
Proof.
  unfold prioritized_tracker_tiers, build_tiers. destruct announce_list as [|t l]; [by destruct announce|]. f_equal. cbv iota.
  generalize (t :: l). clear. intros l. induction l as [|urls l IH] using rev_ind; [done|].
  rewrite imap_app, concat_app, foldl_app, IH, drop_empty_end_snoc. cbn [imap concat]. rewrite app_nil_r, Nat.add_0_r.
  destruct urls as [|u urls]; [done|]. destruct (drop_empty_end_pad l) as [H1 H2].
  rewrite push_tier_all by done. by rewrite app_assoc, H2.
Qed.

(** ** Directories stay below their root *)

Lemma split_byte_cut b x y : split_byte b (x ++ b :: y) = split_byte b x ++ split_byte b y.
Proof.
  induction x as [|c x IH]; cbn [app split_byte].
  - rewrite byte_eqb_refl. destruct (split_byte b y) as [|s l] eqn:E; [|done]. destruct y; [done|]. cbn [split_byte] in E. by repeat case_match.
  - rewrite IH. destruct (split_byte b x) as [|s l] eqn:E; [destruct x; [done|]; cbn [split_byte] in E; by repeat case_match|].
    cbn [app]. by destruct (Byte.eqb c b).
Qed.

Lemma split_byte_nonnil b x : split_byte b x <> [].
Proof. destruct x as [|c x]; cbn [split_byte]; [done|]. destruct (split_byte b x); [done|]. by case_match. Qed.

Definition below (sub : text) : list Component := concat (map (component false) (split_byte "/" sub)).

Lemma components_cut base sub : base <> [] -> components (base ++ "/" :: sub) = components base ++ below sub.
Proof.
  intros Hne. destruct base as [|b base]; [done|]. unfold below. cbn [components app].
  change (b :: base ++ "/"%byte :: sub) with ((b :: base) ++ "/"%byte :: sub). rewrite split_byte_cut.
  destruct (Byte.eqb b "/"); [by rewrite map_app, concat_app|]. rewrite imap_app, concat_app. f_equal. f_equal.
  pose proof (split_byte_nonnil "/" (b :: base)) as Hs. destruct (split_byte "/" (b :: base)) as [|s l]; [done|].
  rewrite <- imap_const. apply imap_ext. intros i x _. cbn. done.
Qed.

Lemma safe_components sub :
  is_safe_content_subdirectory sub = true -> components sub = below sub /\ Forall (fun c => is_normal c = true) (below sub) /\ sub <> [].
Proof.
  unfold is_safe_content_subdirectory. rewrite !andb_true_iff. intros [[H1 _] H]. apply negb_true_iff, bool_decide_eq_false in H1.
  assert (sub <> []) as Hne by (intros ->; by apply H1).
  assert (components sub = below sub) as E.
  { destruct sub as [|b sub]; [done|]. unfold below. cbn [components] in *. destruct (Byte.eqb b "/") eqn:Eb; [done|].
    destruct (split_byte "/" (b :: sub)) as [|s l]; [done|]. cbn [imap map concat] in *. rewrite forallb_app in H. apply andb_true_iff in H as [H _].
    f_equal; [|f_equal; rewrite <- imap_const; apply imap_ext; by intros].
    unfold component in *. cbn [Nat.eqb] in *. by repeat case_bool_decide. }
  split; [done|]. split; [|done]. rewrite <- E. apply Forall_forall. intros c Hc. rewrite forallb_forall in H. apply H. by apply list_elem_of_In.
Qed.

(** No profile directory and no torrent name leaves its root.  The directory
    chosen for the content has the components of the selected root followed by named
    components only: neither a parent, nor a root, nor a dot. *)
Theorem directories_below_root base sub name is_multi_file force :
  base <> [] ->
  let dir := force_top_level_storage_path (organize_storage_path base sub) name is_multi_file force in
  exists l, components dir = components base ++ l /\ Forall (fun c => is_normal c = true) l.
Proof.
  intros Hb.
  assert (forall base sub, base <> [] -> is_safe_content_subdirectory sub = true ->
    path_join base sub <> [] /\ exists l, components (path_join base sub) = components base ++ l /\ Forall (fun c => is_normal c = true) l) as Hjoin.
  { clear. intros base sub Hb Hs. destruct (safe_components sub Hs) as (_ & Hn & Hne). unfold path_join. rewrite bool_decide_eq_false_2 by done. cbn [orb].
    destruct (ends_with_byte "/" base) eqn:Ee; cbn [app]; (split; [by destruct base|]); exists (below sub); (split; [|done]).
    - unfold ends_with_byte in Ee. destruct (last base) as [c|] eqn:El; [|done]. apply byte_eqb_eq in Ee as ->.
      apply last_Some in El as [base' ->]. rewrite <- app_assoc. cbn [app]. destruct base' as [|b base'].
      { cbn [app components]. rewrite byte_eqb_refl. change (below sub) with (concat (map (component false) (split_byte "/" sub))).
        change ("/"%byte :: sub) with ([] ++ "/"%byte :: sub). by rewrite split_byte_cut. }
      rewrite components_cut by done. rewrite (components_cut (b :: base') []) by done. change (below []) with (@nil Component). by rewrite app_nil_r.
    - by apply components_cut. }
  assert (organize_storage_path base sub <> [] /\ exists l, components (organize_storage_path base sub) = components base ++ l /\ Forall (fun c => is_normal c = true) l)
    as (Ho & l1 & E1 & F1).
  { unfold organize_storage_path. destruct sub as [sub|]; [|by split; [|exists []; rewrite app_nil_r]].
    destruct (is_safe_content_subdirectory sub) eqn:Es; [by apply Hjoin|by split; [|exists []; rewrite app_nil_r]]. }
  cbv zeta. unfold force_top_level_storage_path. destruct (negb force || is_multi_file || negb (is_safe_content_subdirectory name)) eqn:E; [by exists l1|].
  apply orb_false_iff in E as [_ E]. apply negb_false_iff in E. destruct (Hjoin _ _ Ho E) as [_ (l2 & E2 & F2)].
  exists (l1 ++ l2). rewrite E2, E1, app_assoc. split; [done|]. by apply Forall_app.
Qed.

Lemma directories_below_root_witness :
  let dir := force_top_level_storage_path (organize_storage_path (bytes_of "/srv/data") (Some (bytes_of "a/b"))) (bytes_of "..") false true in
  exists l, components dir = components (bytes_of "/srv/data") ++ l /\ Forall (fun c => is_normal c = true) l.
Proof. apply directories_below_root. done. Defined.

(** A dot inside a path is not a component: it is accepted although the message of the
    validator says it is not. *)
Lemma inner_dot_is_safe : is_safe_content_subdirectory (bytes_of "a/./b") = true.
Proof. by vm_compute. Qed.
