(* ===== verification/Policy.v ===== *)
(** * Effective policy: [crates/swarmotter-core/src/policy.rs]

    Profiles, their validation, and the resolution of a torrent's effective settings.
    A [BTreeMap] is the list of its entries in key order; a [BTreeSet] is built by
    ordered insertion.  The configuration and the torrent are the parts of them that
    resolution reads.  The theorems: the source of every effective value is the layer
    that supplied it; captured values do not depend on the configuration; the profile
    does not depend on the order of labels; validated profiles make labels and names
    unambiguous. *)

From Stdlib Require Import Floats.SpecFloat.
From S2P Require Import Prelude Text Bits Bencode BencodeCorrect Meta Torrent Queue Ratio Intake.

Local Open Scope byte_scope.
Local Open Scope Z_scope.

(** ** Data *)

Inductive StartBehavior : Type := Start | Paused.
Inductive PeerEncryptionMode : Type := EncDisabled | EncPreferred | EncRequired.
Inductive PolicyProfileOrigin : Type := OriginTorrent | OriginAddRequest | OriginWatchFolder.

Record PolicyStorage : Type := mkPStorage { ps_download_dir : option text; ps_incomplete_dir : option text }.
Record PolicyQueue : Type := mkPQueue { pq_priority : option QueuePriority; pq_start_behavior : option StartBehavior }.
Record PolicySeeding : Type := mkPSeeding {
  pse_ratio_limit : option f64; pse_idle_limit : option Z; pse_seed_forever : option bool }.
Record PolicyBandwidth : Type := mkPBandwidth { pb_download_limit : option Z; pb_upload_limit : option Z }.
Record PolicyTracker : Type := mkPTracker { host_rules : list TrackerHostRule }.
Record PolicyIntake : Type := mkPIntake {
  pi_excluded_file_patterns : list text; pi_excluded_file_rules : list PolicyFileExclusionRule;
  pi_organization_subdirectory : option text; pi_incomplete_subdirectory : option text;
  pi_force_top_level_folder : bool; pi_partial_file_suffix : option text }.
Definition intake_default : PolicyIntake := mkPIntake [] [] None None false None.

Record PolicyProfile : Type := mkProfile {
  p_storage : PolicyStorage; p_queue : PolicyQueue; p_seeding : PolicySeeding; p_bandwidth : PolicyBandwidth;
  p_tracker : PolicyTracker; p_intake : PolicyIntake; p_encryption_mode : option PeerEncryptionMode }.
Definition profile_default : PolicyProfile :=
  mkProfile (mkPStorage None None) (mkPQueue None None) (mkPSeeding None None None) (mkPBandwidth None None)
    (mkPTracker []) intake_default None.

(** [BTreeMap::get]. *)
Fixpoint btree_get {V} (m : list (text * V)) (k : text) : option V :=
  match m with [] => None | (k', v) :: m => if bool_decide (k' = k) then Some v else btree_get m k end.
Definition contains_key {V} (m : list (text * V)) (k : text) : bool := bool_decide (is_Some (btree_get m k)).

Record PolicyProfilesConfig : Type := mkProfiles {
  profiles : list (text * PolicyProfile); labels : list (text * text) }.

Record PolicyStorageSnapshot : Type := mkStorageSnapshot {
  snapshot_profile : text; preserve_existing_storage : bool;
  snapshot_download_dir : option text; snapshot_incomplete_dir : option text }.

Record TorrentPolicyOverrides : Type := mkOverrides {
  o_incomplete_dir : option text; o_queue_priority : option QueuePriority; o_start_behavior : option StartBehavior;
  o_ratio_limit : option f64; o_idle_limit : option Z; o_seed_forever : option bool;
  o_download_limit : option Z; o_upload_limit : option Z; o_encryption_mode : option PeerEncryptionMode }.
Definition overrides_default : TorrentPolicyOverrides := mkOverrides None None None None None None None None None.

Record TorrentPolicy : Type := mkPolicy {
  profile : option text; profile_origin : option PolicyProfileOrigin;
  storage_snapshot : option PolicyStorageSnapshot; initial_start_behavior : option StartBehavior;
  intake_snapshot : option IntakePolicySnapshot; preview_until_started : bool;
  overrides : TorrentPolicyOverrides }.
Definition policy_default : TorrentPolicy := mkPolicy None None None None None false overrides_default.

(** The part of [Config] that resolution reads. *)
Record Config : Type := mkConfig {
  config_profiles : PolicyProfilesConfig; config_queue : QueueLimits;
  config_download_dir : option text; config_incomplete_dir : option text;
  config_seeding : SeedingPolicy; config_encryption_mode : PeerEncryptionMode }.

(** The fields of [Torrent] beside those of the module [Torrent] that policies read
    or write. *)
Record PolicyFields : Type := mkFields {
  t_labels : list text; t_policy : TorrentPolicy; t_download_dir : option text; t_seeding : TorrentSeeding;
  t_download_limit : Z; t_upload_limit : Z; t_priorities : list FilePriority; t_wanted : list bool;
  t_needs_metadata : bool }.
Abbreviation PTorrent := (Torrent PolicyFields).

Definition labels_of (t : PTorrent) : list text := t_labels (other t).
Definition policy (t : PTorrent) : TorrentPolicy := t_policy (other t).
Definition download_dir_of (t : PTorrent) : option text := t_download_dir (other t).

Inductive PolicyValueSource : Type :=
  | Global
  | Profile (profile : text) (origin : PolicyProfileOrigin)
  | Label (label profile : text)
  | SourceTorrent
  | LegacyTorrent
  | ProfileStorageSnapshot (profile : text)
  | RegistrationStorageSnapshot
  | ExistingStorageSnapshot
  | InitialAdmissionSnapshot
  | IntakeSnapshot (profile : text).

Record EffectivePolicyValue (T : Type) : Type := mkValue { value : T; source : PolicyValueSource }.
Arguments mkValue {T}. Arguments value {T}. Arguments source {T}.

Record EffectiveProfileAssignment : Type := mkAssignment { assigned : text; assigned_source : PolicyValueSource }.

Record EffectiveIntakePolicy : Type := mkEffectiveIntake {
  ei_excluded_file_patterns : EffectivePolicyValue (list text);
  ei_excluded_file_rules : EffectivePolicyValue (list PolicyFileExclusionRule);
  ei_organization_subdirectory : EffectivePolicyValue (option text);
  ei_incomplete_subdirectory : EffectivePolicyValue (option text);
  ei_force_top_level_folder : EffectivePolicyValue bool;
  ei_partial_file_suffix : EffectivePolicyValue (option text);
  ei_unwanted_file_indices : list Z;
  ei_preview_until_started : bool }.

Record EffectiveTorrentPolicy : Type := mkEffective {
  ep_profile : option EffectiveProfileAssignment;
  ep_download_dir : EffectivePolicyValue (option text);
  ep_incomplete_dir : EffectivePolicyValue (option text);
  ep_queue_priority : EffectivePolicyValue QueuePriority;
  ep_start_behavior : EffectivePolicyValue StartBehavior;
  ep_ratio_limit : EffectivePolicyValue (option f64);
  ep_idle_limit : EffectivePolicyValue (option Z);
  ep_seed_forever : EffectivePolicyValue bool;
  ep_download_limit : EffectivePolicyValue Z;
  ep_upload_limit : EffectivePolicyValue Z;
  ep_encryption_mode : EffectivePolicyValue PeerEncryptionMode;
  ep_intake : EffectiveIntakePolicy;
  ep_host_rules : EffectivePolicyValue (list TrackerHostRule) }.

(** ** Profile of a torrent *)

Definition normalize_label (label : text) : text := map to_ascii_lowercase (trim label).

(** The order of pairs of strings, and insertion into a [BTreeSet] of them. *)
Definition pair_le (a b : text * text) : bool :=
  if bool_decide (a.1 = b.1) then bytes_le a.2 b.2 else bytes_le a.1 b.1.
Fixpoint set_insert (a : text * text) (l : list (text * text)) : list (text * text) :=
  match l with
  | [] => [a]
  | b :: l' => if bool_decide (a = b) then b :: l' else if pair_le a b then a :: b :: l' else b :: set_insert a l'
  end.
Definition label_set (ls : list text) : list (text * text) :=
  foldl (fun s label => let normalized := normalize_label label in
           if bool_decide (normalized = []) then s else set_insert (normalized, trim label) s) [] ls.

(** [find_map] over the configured labels. *)
Fixpoint mapped_profile (configured : list (text * text)) (normalized : text) : option text :=
  match configured with
  | [] => None
  | (label, profile) :: rest => if bool_decide (normalize_label label = normalized) then Some profile else mapped_profile rest normalized
  end.

Fixpoint label_loop (c : PolicyProfilesConfig) (ls : list (text * text)) : option EffectiveProfileAssignment :=
  match ls with
  | [] => None
  | (normalized, display) :: ls =>
      match mapped_profile (labels c) normalized with
      | Some p => if contains_key (profiles c) p then Some (mkAssignment p (Label display p)) else label_loop c ls
      | None => label_loop c ls
      end
  end.

Definition resolve_profile (config : Config) (t : PTorrent) : option EffectiveProfileAssignment :=
  let c := config_profiles config in
  let by_label := label_loop c (label_set (labels_of t)) in
  match profile (policy t) with
  | Some name =>
      if contains_key (profiles c) name
      then Some (mkAssignment name (Profile name (default OriginTorrent (profile_origin (policy t)))))
      else by_label
  | None => by_label
  end.

(** ** Resolution *)

Definition global_option {T} (v : option T) : EffectivePolicyValue (option T) := mkValue v Global.
Definition torrent_option {T} (v : T) : EffectivePolicyValue (option T) := mkValue (Some v) SourceTorrent.
Definition legacy_option {T} (v : T) : EffectivePolicyValue (option T) := mkValue (Some v) LegacyTorrent.
Definition torrent_value {T} (v : T) : EffectivePolicyValue T := mkValue v SourceTorrent.
Definition legacy_value {T} (v : T) : EffectivePolicyValue T := mkValue v LegacyTorrent.

Definition storage_snapshot_source (s : PolicyStorageSnapshot) : PolicyValueSource :=
  if preserve_existing_storage s then ExistingStorageSnapshot
  else if bool_decide (snapshot_profile s = []) then RegistrationStorageSnapshot
  else ProfileStorageSnapshot (snapshot_profile s).
Definition intake_snapshot_source (s : IntakePolicySnapshot) : PolicyValueSource := IntakeSnapshot (intake_profile s).

Definition resolve_value {T} (torrent profile : option T) (global : T) (profile_source : option PolicyValueSource)
  : EffectivePolicyValue T :=
  match torrent with
  | Some v => torrent_value v
  | None =>
      match profile with
      | Some v => mkValue v (default Global profile_source)
      | None => mkValue global Global
      end
  end.
Definition resolve_optional_value {T} (profile global : option T) (profile_source : option PolicyValueSource)
  : EffectivePolicyValue (option T) :=
  match profile with
  | Some v => mkValue (Some v) (default Global profile_source)
  | None => global_option global
  end.

(** A storage path: explicit, captured, of the profile or global. *)
Definition resolve_path (explicit : option text) (explicit_source : PolicyValueSource)
    (snapshot : option PolicyStorageSnapshot) (captured : PolicyStorageSnapshot -> option text)
    (profile global : option text) (profile_source : option PolicyValueSource) : EffectivePolicyValue (option text) :=
  match explicit with
  | Some path => mkValue (Some path) explicit_source
  | None =>
      match snapshot with
      | Some s => mkValue (captured s) (storage_snapshot_source s)
      | None =>
          match profile with
          | Some path => mkValue (Some path) (default Global profile_source)
          | None => global_option global
          end
      end
  end.

Definition resolve_intake (p : TorrentPolicy) : EffectiveIntakePolicy :=
  match intake_snapshot p with
  | Some s =>
      let source := intake_snapshot_source s in
      mkEffectiveIntake (mkValue (excluded_file_patterns s) source) (mkValue (excluded_file_rules s) source)
        (mkValue (organization_subdirectory s) source) (mkValue (incomplete_subdirectory s) source)
        (mkValue (force_top_level_folder s) source) (mkValue (partial_file_suffix s) source)
        (unwanted_file_indices s) (preview_until_started p)
  | None =>
      mkEffectiveIntake (mkValue [] Global) (mkValue [] Global) (mkValue None Global) (mkValue None Global)
        (mkValue false Global) (mkValue None Global) [] false
  end.

Definition resolve (config : Config) (t : PTorrent) : EffectiveTorrentPolicy :=
  let profile := resolve_profile config t in
  let pv := profile ≫= fun a => btree_get (profiles (config_profiles config)) (assigned a) in
  let profile_source := assigned_source <$> profile in
  let default_start := if auto_start (config_queue config) then Start else Paused in
  let p := policy t in
  let o := overrides p in
  let download_dir := resolve_path (download_dir_of t) LegacyTorrent (storage_snapshot p) snapshot_download_dir
    (pv ≫= fun v => ps_download_dir (p_storage v)) (config_download_dir config) profile_source in
  let incomplete_dir := resolve_path (o_incomplete_dir o) SourceTorrent (storage_snapshot p) snapshot_incomplete_dir
    (pv ≫= fun v => ps_incomplete_dir (p_storage v)) (config_incomplete_dir config) profile_source in
  let queue_priority := resolve_value (o_queue_priority o) (pv ≫= fun v => pq_priority (p_queue v)) PNormal profile_source in
  let start_behavior := match initial_start_behavior p with
    | Some v => mkValue v InitialAdmissionSnapshot
    | None => resolve_value (o_start_behavior o) (pv ≫= fun v => pq_start_behavior (p_queue v)) default_start profile_source
    end in
  let ratio_limit := match o_ratio_limit o with
    | Some v => torrent_option v
    | None => match ratio_limit (t_seeding (other t)) with
      | Some v => legacy_option v
      | None => resolve_optional_value (pv ≫= fun v => pse_ratio_limit (p_seeding v)) (global_ratio_limit (config_seeding config)) profile_source
      end
    end in
  let idle_limit := match o_idle_limit o with
    | Some v => torrent_option v
    | None => match idle_limit (t_seeding (other t)) with
      | Some v => legacy_option v
      | None => resolve_optional_value (pv ≫= fun v => pse_idle_limit (p_seeding v)) (global_idle_limit (config_seeding config)) profile_source
      end
    end in
  let seed_forever := match o_seed_forever o with
    | Some v => mkValue v SourceTorrent
    | None => if seed_forever (t_seeding (other t)) then mkValue true LegacyTorrent
              else resolve_value None (pv ≫= fun v => pse_seed_forever (p_seeding v)) false profile_source
    end in
  let download_limit := match o_download_limit o with
    | Some v => torrent_value v
    | None => if negb (t_download_limit (other t) =? 0) then legacy_value (t_download_limit (other t))
              else resolve_value None (pv ≫= fun v => pb_download_limit (p_bandwidth v)) 0 profile_source
    end in
  let upload_limit := match o_upload_limit o with
    | Some v => torrent_value v
    | None => if negb (t_upload_limit (other t) =? 0) then legacy_value (t_upload_limit (other t))
              else resolve_value None (pv ≫= fun v => pb_upload_limit (p_bandwidth v)) 0 profile_source
    end in
  let encryption_mode := resolve_value (o_encryption_mode o) (pv ≫= p_encryption_mode) (config_encryption_mode config) profile_source in
  let host_rules := mkValue (default [] ((fun v => host_rules (p_tracker v)) <$> pv)) (default Global profile_source) in
  mkEffective profile download_dir incomplete_dir queue_priority start_behavior ratio_limit idle_limit seed_forever
    download_limit upload_limit encryption_mode (resolve_intake p) host_rules.

(** ** Validation, with the messages' interpolated values left out *)

(** [f64::is_finite]. *)
Definition is_finite (x : f64) : bool := match x with S754_zero _ | S754_finite _ _ _ => true | _ => false end.
Definition f64_ltb (x y : f64) : bool := SFltb x y.

Definition validate_profile (profile : PolicyProfile) : () + string :=
  let blank o := match o with Some path => bool_decide (trim path = []) | None => false end in
  andthen (check (blank (ps_download_dir (p_storage profile))) "storage.download_dir must not be empty when set")
  (andthen (check (blank (ps_incomplete_dir (p_storage profile))) "storage.incomplete_dir must not be empty when set")
  (andthen (check (match pse_ratio_limit (p_seeding profile) with Some v => negb (is_finite v) || f64_ltb v f64_zero | None => false end)
     "seeding.ratio_limit must be a finite non-negative number")
  (andthen (check_all (fun pattern => check (bool_decide (trim pattern = []) || (1024 <? len pattern))
       "must be non-empty and at most 1024 bytes") (pi_excluded_file_patterns (p_intake profile)))
  (andthen (validate_file_exclusion_rules (pi_excluded_file_rules (p_intake profile)))
  (andthen (validate_tracker_host_rules (host_rules (p_tracker profile)))
  (andthen (check_some (pi_organization_subdirectory (p_intake profile)) (fun s => check (negb (is_safe_content_subdirectory s))
       "organization_subdirectory must be a non-empty relative path without dot or parent components"))
  (andthen (check_some (pi_incomplete_subdirectory (p_intake profile)) (fun s => check (negb (is_safe_content_subdirectory s))
       "incomplete_subdirectory must be a non-empty relative path without dot or parent components"))
  (validate_partial_file_suffix (pi_partial_file_suffix (p_intake profile)))))))))).

(** The loops carry the set of the names seen so far. *)
Fixpoint validate_names (names : list text) (ps : list (text * PolicyProfile)) : () + string :=
  match ps with
  | [] => inl ()
  | (name, profile) :: ps =>
      andthen (check (bool_decide (trim name = []) || negb (bool_decide (trim name = name))) "name must be non-empty and trimmed")
      (andthen (check (bool_decide (map to_ascii_lowercase name ∈ names)) "duplicate profile name ignoring case")
      (andthen (validate_profile profile)
      (validate_names (map to_ascii_lowercase name :: names) ps)))
  end.
Fixpoint validate_labels (ps : list (text * PolicyProfile)) (seen : list text) (ls : list (text * text)) : () + string :=
  match ls with
  | [] => inl ()
  | (label, profile) :: ls =>
      let normalized := normalize_label label in
      andthen (check (bool_decide (normalized = []) || bool_decide (normalized ∈ seen)) "invalid or duplicate profiles.labels key")
      (andthen (check (negb (contains_key ps profile)) "references unknown profile")
      (validate_labels ps (normalized :: seen) ls))
  end.
Definition validate_profiles (c : PolicyProfilesConfig) : () + string :=
  andthen (validate_names [] (profiles c)) (validate_labels (profiles c) [] (labels c)).

(** ** Orders *)

Lemma bytes_le_refl a : bytes_le a a = true.
Proof. induction a as [|x a IH]; cbn [bytes_le]; [done|]. by rewrite Z.ltb_irrefl, Z.eqb_refl. Qed.
Lemma bytes_le_trans a : forall b c, bytes_le a b = true -> bytes_le b c = true -> bytes_le a c = true.
Proof.
  induction a as [|x a IH]; intros [|y b] [|z c]; cbn [bytes_le]; try done.
  destruct (Z.ltb_spec (u8 x) (u8 y)), (Z.eqb_spec (u8 x) (u8 y)), (Z.ltb_spec (u8 y) (u8 z)), (Z.eqb_spec (u8 y) (u8 z)); try done;
    destruct (Z.ltb_spec (u8 x) (u8 z)), (Z.eqb_spec (u8 x) (u8 z)); try done; try lia. apply IH.
Qed.
Lemma bytes_le_antisym a : forall b, bytes_le a b = true -> bytes_le b a = true -> a = b.
Proof.
  induction a as [|x a IH]; intros [|y b]; cbn [bytes_le]; try done.
  destruct (Z.ltb_spec (u8 x) (u8 y)), (Z.eqb_spec (u8 x) (u8 y)), (Z.ltb_spec (u8 y) (u8 x)), (Z.eqb_spec (u8 y) (u8 x)); try done; try lia.
  intros H1 H2. f_equal; [by apply u8_inj|by apply IH].
Qed.

Lemma pair_le_refl a : pair_le a a = true.
Proof. unfold pair_le. rewrite bool_decide_eq_true_2 by done. apply bytes_le_refl. Qed.
Lemma pair_le_trans a b c : pair_le a b = true -> pair_le b c = true -> pair_le a c = true.
Proof.
  unfold pair_le. destruct a as [a1 a2], b as [b1 b2], c as [c1 c2]. cbn [fst snd].
  repeat case_bool_decide; subst; try done; eauto using bytes_le_trans.
  intros H1' H2'. by destruct (bytes_le_antisym c1 b1).
Qed.
Lemma pair_le_antisym a b : pair_le a b = true -> pair_le b a = true -> a = b.
Proof.
  unfold pair_le. destruct a as [a1 a2], b as [b1 b2]. cbn [fst snd].
  repeat case_bool_decide; subst; try done; intros H1' H2'; [f_equal; by apply bytes_le_antisym|by destruct (bytes_le_antisym a1 b1)].
Qed.
Lemma pair_le_total a b : pair_le a b = false -> pair_le b a = true.
Proof.
  unfold pair_le. destruct a as [a1 a2], b as [b1 b2]. cbn [fst snd].
  repeat case_bool_decide; subst; try done; apply bytes_le_total.
Qed.

(** ** Labels *)

Abbreviation pair_sorted := (StronglySorted (fun a b => pair_le a b = true)).

Lemma pair_insert_elem a l x : x ∈ set_insert a l <-> x = a \/ x ∈ l.
Proof.
  induction l as [|b l IH]; cbn [set_insert]; [set_solver|]. case_bool_decide; [set_solver|]. destruct (pair_le a b); set_solver.
Qed.
Lemma set_insert_sorted a l : pair_sorted l -> pair_sorted (set_insert a l).
Proof.
  induction 1 as [|b l Hl IH Hb]; cbn [set_insert]; [by repeat constructor|].
  case_bool_decide; [by constructor|]. destruct (pair_le a b) eqn:E.
  - constructor; [by constructor|]. constructor; [done|]. eapply Forall_impl; [exact Hb|]. intros x. by apply pair_le_trans.
  - constructor; [done|]. apply Forall_forall. intros x [->|Hx]%pair_insert_elem; [by apply pair_le_total|].
    by apply (proj1 (Forall_forall _ _) Hb).
Qed.

Lemma label_set_spec ls :
  pair_sorted (label_set ls) /\
  forall x, x ∈ label_set ls <-> exists l, l ∈ ls /\ normalize_label l <> [] /\ x = (normalize_label l, trim l).
Proof.
  unfold label_set. induction ls as [|l ls [IH1 IH2]] using rev_ind; cbn [foldl]; [split; [constructor|set_solver]|].
  rewrite foldl_app. cbn [foldl]. cbv zeta. case_bool_decide as E.
  - split; [done|]. intros x. rewrite IH2. setoid_rewrite elem_of_app. split; [naive_solver|].
    intros (l' & [H|H%list_elem_of_singleton] & Hn & ->); [eauto|congruence].
  - split; [by apply set_insert_sorted|]. intros x. rewrite pair_insert_elem, IH2. setoid_rewrite elem_of_app. split.
    + intros [->|(l' & H & Hn)]; [|by eauto]. exists l. split; [right; by apply list_elem_of_singleton|done].
    + intros (l' & [H|H%list_elem_of_singleton] & Hn & ->); [eauto|left; congruence].
Qed.

(** A label that leads to a configured profile. *)
Definition usable (c : PolicyProfilesConfig) (label p : text) : Prop :=
  normalize_label label <> [] /\ mapped_profile (labels c) (normalize_label label) = Some p /\ contains_key (profiles c) p = true.

Lemma label_loop_spec c ls :
  pair_sorted ls ->
  match label_loop c ls with
  | Some a => exists x p, x ∈ ls /\ mapped_profile (labels c) x.1 = Some p /\ contains_key (profiles c) p = true /\
      a = mkAssignment p (Label x.2 p) /\
      forall y q, y ∈ ls -> mapped_profile (labels c) y.1 = Some q -> contains_key (profiles c) q = true -> pair_le x y = true
  | None => forall y q, y ∈ ls -> mapped_profile (labels c) y.1 = Some q -> contains_key (profiles c) q = true -> False
  end.
Proof.
  induction 1 as [|[n d] l Hl IH Hb]; cbn [label_loop]; [set_solver|].
  assert ((forall p, mapped_profile (labels c) n = Some p -> contains_key (profiles c) p = true -> False) ->
    match label_loop c l with
    | Some a => exists x p, x ∈ (n, d) :: l /\ mapped_profile (labels c) x.1 = Some p /\ contains_key (profiles c) p = true /\
        a = mkAssignment p (Label x.2 p) /\
        forall y q, y ∈ (n, d) :: l -> mapped_profile (labels c) y.1 = Some q -> contains_key (profiles c) q = true -> pair_le x y = true
    | None => forall y q, y ∈ (n, d) :: l -> mapped_profile (labels c) y.1 = Some q -> contains_key (profiles c) q = true -> False
    end) as Hskip.
  { intros Hn. destruct (label_loop c l) as [a|].
    - destruct IH as (x & p & Hx & Hp & Hc & -> & Hmin). exists x, p. split; [by right|]. do 3 (split; [done|]).
      intros y q [->|Hy]%elem_of_cons Hq Hk; [by destruct (Hn q)|by apply (Hmin y q)].
    - intros y q [->|Hy]%elem_of_cons Hq Hk; [by apply (Hn q)|by apply (IH y q)]. }
  destruct (mapped_profile (labels c) n) as [p|] eqn:Ep; [|by apply Hskip].
  destruct (contains_key (profiles c) p) eqn:Ec; [|apply Hskip; intros ? [= <-]; congruence].
  exists (n, d), p. split; [by left|]. cbn [fst snd]. do 3 (split; [done|]).
  intros y q [->|Hy]%elem_of_cons _ _; [apply pair_le_refl|]. by apply (proj1 (Forall_forall _ _) Hb).
Qed.

Lemma labels_resolve c ls :
  match label_loop c (label_set ls) with
  | Some a => exists l p, l ∈ ls /\ usable c l p /\ a = mkAssignment p (Label (trim l) p) /\
      forall l' p', l' ∈ ls -> usable c l' p' -> pair_le (normalize_label l, trim l) (normalize_label l', trim l') = true
  | None => forall l p, l ∈ ls -> ~ usable c l p
  end.
Proof.
  destruct (label_set_spec ls) as [Hs He]. pose proof (label_loop_spec c _ Hs) as H.
  destruct (label_loop c (label_set ls)) as [a|].
  - destruct H as (x & p & Hx & Hp & Hc & -> & Hmin). apply He in Hx as (l & Hl & Hn & ->). exists l, p. cbn [fst snd] in *.
    split; [done|]. split; [done|]. split; [done|]. intros l' p' Hl' (Hn' & Hp' & Hc'). apply (Hmin _ p'); [|done|done]. apply He. eauto.
  - intros l p Hl (Hn & Hp & Hc). apply (H (normalize_label l, trim l) p); [|done|done]. apply He. eauto.
Qed.

Lemma labels_order c ls ls' :
  (forall l, l ∈ ls <-> l ∈ ls') -> label_loop c (label_set ls) = label_loop c (label_set ls').
Proof.
  intros Hls. pose proof (labels_resolve c ls) as H. pose proof (labels_resolve c ls') as H'.
  destruct (label_loop c (label_set ls)) as [a|], (label_loop c (label_set ls')) as [a'|]; [|exfalso..|done].
  - destruct H as (l & p & Hl & Hu & -> & Hmin), H' as (l' & p' & Hl' & Hu' & -> & Hmin').
    assert ((normalize_label l, trim l) = (normalize_label l', trim l')) as E.
    { apply pair_le_antisym; [apply (Hmin l' p'); [by apply Hls|done]|apply (Hmin' l p); [by apply Hls|done]]. }
    injection E as En Et. destruct Hu as (_ & Hp & _), Hu' as (_ & Hp' & _). rewrite En in Hp. rewrite Et. congruence.
  - destruct H as (l & p & Hl & Hu & _). apply (H' l p); [by apply Hls|done].
  - destruct H' as (l & p & Hl & Hu & _). apply (H l p); [by apply Hls|done].
Qed.

(** The profile of a torrent is its own assignment when that profile exists, else
    that of its least label, by normalised then trimmed text, that a configured label
    maps to an existing profile; the order and repetition of its labels do not matter. *)
Theorem profile_choice_exact config (t : PTorrent) :
  let c := config_profiles config in
  let own name := profile (policy t) = Some name /\ contains_key (profiles c) name = true in
  match resolve_profile config t with
  | Some a =>
      (exists name, own name /\ a = mkAssignment name (Profile name (default OriginTorrent (profile_origin (policy t))))) \/
      (~ (exists name, own name) /\ exists l p, l ∈ labels_of t /\ usable c l p /\ a = mkAssignment p (Label (trim l) p) /\
        forall l' p', l' ∈ labels_of t -> usable c l' p' -> pair_le (normalize_label l, trim l) (normalize_label l', trim l') = true)
  | None => ~ (exists name, own name) /\ forall l p, l ∈ labels_of t -> ~ usable c l p
  end /\
  forall t' : PTorrent, (forall l, l ∈ labels_of t <-> l ∈ labels_of t') -> policy t' = policy t ->
    resolve_profile config t' = resolve_profile config t.
Proof.
  cbv zeta. split.
  - unfold resolve_profile. pose proof (labels_resolve (config_profiles config) (labels_of t)) as H.
    destruct (profile (policy t)) as [name|].
    + destruct (contains_key (profiles (config_profiles config)) name) eqn:E; [left; by exists name|].
      assert (~ exists n, Some name = Some n /\ contains_key (profiles (config_profiles config)) n = true) as Hno.
      { intros (n & [= <-] & Hn). congruence. }
      destruct (label_loop _ _); [by right|done].
    + assert (~ exists n : text, None = Some n /\ contains_key (profiles (config_profiles config)) n = true) as Hno by (by intros (? & ? & _)).
      destruct (label_loop _ _); [by right|done].
  - intros t' Hl Hp. unfold resolve_profile. by rewrite Hp, (labels_order _ (labels_of t) (labels_of t')).
Qed.

(** ** Layers *)

(** The layers of a setting, in order of precedence: the first that has a value wins,
    and is the source. *)
Fixpoint first_layer {T} (layers : list (PolicyValueSource * option T)) (global : T) : EffectivePolicyValue T :=
  match layers with
  | [] => mkValue global Global
  | (source, Some v) :: _ => mkValue v source
  | (_, None) :: layers => first_layer layers global
  end.

Section layers.
Context (config : Config) (t : PTorrent).
(** The layer of the profile: the assignment's source, and what the profile sets. *)
Definition profile_layer {T} (f : PolicyProfile -> option T) : PolicyValueSource * option T :=
  match resolve_profile config t with
  | Some a => (assigned_source a, btree_get (profiles (config_profiles config)) (assigned a) ≫= f)
  | None => (Global, None)
  end.
Definition captured_layer (f : PolicyStorageSnapshot -> option text) : PolicyValueSource * option (option text) :=
  match storage_snapshot (policy t) with
  | Some s => (storage_snapshot_source s, Some (f s))
  | None => (Global, None)
  end.
Definition some_layer {T} (l : PolicyValueSource * option T) : PolicyValueSource * option (option T) := (l.1, Some <$> l.2).
Definition nonzero (n : Z) : option Z := if n =? 0 then None else Some n.
End layers.

Lemma resolve_profile_known config t a :
  resolve_profile config t = Some a -> is_Some (btree_get (profiles (config_profiles config)) (assigned a)).
Proof.
  unfold resolve_profile. pose proof (labels_resolve (config_profiles config) (labels_of t)) as H. intros Ha.
  assert (label_loop (config_profiles config) (label_set (labels_of t)) = Some a ->
    is_Some (btree_get (profiles (config_profiles config)) (assigned a))) as Hl.
  { intros E. rewrite E in H. destruct H as (l & p & _ & (_ & _ & Hp) & -> & _). by eapply bool_decide_eq_true. }
  destruct (profile (policy t)) as [name|]; [|by apply Hl]. destruct (contains_key _ name) eqn:E; [|by apply Hl].
  injection Ha as <-. by eapply bool_decide_eq_true.
Qed.

(** Every effective setting is that of its first layer that sets it, and names that
    layer as its source: explicit values, then legacy values, then captured ones, then
    the profile's, then the global default; but a captured start decision comes first. *)
Theorem resolve_follows_layers config t :
  let e := resolve config t in let p := policy t in let o := overrides p in let s := t_seeding (other t) in
  let prof {T} (f : PolicyProfile -> option T) := profile_layer config t f in
  ep_download_dir e = first_layer [(LegacyTorrent, Some <$> download_dir_of t); captured_layer t snapshot_download_dir;
    some_layer (prof (fun v => ps_download_dir (p_storage v)))] (config_download_dir config) /\
  ep_incomplete_dir e = first_layer [(SourceTorrent, Some <$> o_incomplete_dir o); captured_layer t snapshot_incomplete_dir;
    some_layer (prof (fun v => ps_incomplete_dir (p_storage v)))] (config_incomplete_dir config) /\
  ep_queue_priority e = first_layer [(SourceTorrent, o_queue_priority o); prof (fun v => pq_priority (p_queue v))] PNormal /\
  ep_start_behavior e = first_layer [(InitialAdmissionSnapshot, initial_start_behavior p); (SourceTorrent, o_start_behavior o);
    prof (fun v => pq_start_behavior (p_queue v))] (if auto_start (config_queue config) then Start else Paused) /\
  ep_ratio_limit e = first_layer [(SourceTorrent, Some <$> o_ratio_limit o); (LegacyTorrent, Some <$> ratio_limit s);
    some_layer (prof (fun v => pse_ratio_limit (p_seeding v)))] (global_ratio_limit (config_seeding config)) /\
  ep_idle_limit e = first_layer [(SourceTorrent, Some <$> o_idle_limit o); (LegacyTorrent, Some <$> idle_limit s);
    some_layer (prof (fun v => pse_idle_limit (p_seeding v)))] (global_idle_limit (config_seeding config)) /\
  ep_seed_forever e = first_layer [(SourceTorrent, o_seed_forever o); (LegacyTorrent, if seed_forever s then Some true else None);
    prof (fun v => pse_seed_forever (p_seeding v))] false /\
  ep_download_limit e = first_layer [(SourceTorrent, o_download_limit o); (LegacyTorrent, nonzero (t_download_limit (other t)));
    prof (fun v => pb_download_limit (p_bandwidth v))] 0 /\
  ep_upload_limit e = first_layer [(SourceTorrent, o_upload_limit o); (LegacyTorrent, nonzero (t_upload_limit (other t)));
    prof (fun v => pb_upload_limit (p_bandwidth v))] 0 /\
  ep_encryption_mode e = first_layer [(SourceTorrent, o_encryption_mode o); prof p_encryption_mode] (config_encryption_mode config) /\
  ep_host_rules e = first_layer [prof (fun v => Some (host_rules (p_tracker v)))] [].
Proof.
  cbv zeta. unfold resolve, profile_layer. cbn [ep_download_dir ep_incomplete_dir ep_queue_priority ep_start_behavior ep_ratio_limit ep_idle_limit ep_seed_forever
    ep_download_limit ep_upload_limit ep_encryption_mode ep_host_rules].
  assert (forall a, resolve_profile config t = Some a -> is_Some (btree_get (profiles (config_profiles config)) (assigned a))) as Hk
    by apply resolve_profile_known.
  destruct (resolve_profile config t) as [[a src]|].
  - destruct (Hk _ eq_refl) as [v Hv]. cbn [assigned assigned_source mbind option_bind fmap option_fmap option_map] in *. rewrite Hv. cbn [mbind option_bind].
    unfold resolve_path, captured_layer, resolve_value, resolve_optional_value, some_layer, nonzero.
    repeat split; repeat (case_match; try done); by cbn in *; simplify_eq.
  - cbn [mbind option_bind fmap option_fmap option_map].
    unfold resolve_path, captured_layer, resolve_value, resolve_optional_value, some_layer, nonzero.
    repeat split; repeat (case_match; try done); by cbn in *; simplify_eq.
Qed.

(** ** Validated profiles *)

Lemma andthen_inl {E} (a b : () + E) : andthen a b = inl () <-> a = inl () /\ b = inl ().
Proof. destruct a as [[]|]; cbn [andthen]; naive_solver. Qed.
Lemma check_inl b e : check b e = inl () <-> b = false.
Proof. by destruct b. Qed.
Lemma check_all_inl {A} (f : A -> () + string) l : check_all f l = inl () <-> Forall (fun a => f a = inl ()) l.
Proof. induction l as [|a l IH]; cbn [check_all]; [by split|]. by rewrite andthen_inl, IH, Forall_cons. Qed.
Lemma check_some_inl {A} (o : option A) f : check_some o f = inl () <-> match o with Some a => f a = inl () | None => True end.
Proof. by destruct o. Qed.

Lemma seen_cons {A B} `{EqDecision B} (f : A -> B) x seen l :
  Forall (fun e => f e ∉ x :: seen) l <-> x ∉ map f l /\ Forall (fun e => f e ∉ seen) l.
Proof.
  induction l as [|a l IH]; cbn [map].
  - split; [intros _; split; [by apply not_elem_of_nil|constructor]|by constructor].
  - rewrite !Forall_cons, IH, !not_elem_of_cons. split; intros; destruct_and?; repeat split; auto.
Qed.

Lemma validate_names_inl ps : forall names,
  validate_names names ps = inl () <->
  Forall (fun e => trim e.1 <> [] /\ trim e.1 = e.1 /\ validate_profile e.2 = inl ()) ps /\
  NoDup (map (fun e => map to_ascii_lowercase e.1) ps) /\ Forall (fun e => map to_ascii_lowercase e.1 ∉ names) ps.
Proof.
  induction ps as [|[name p] ps IH]; intros names; cbn [validate_names map].
  - split; [intros _; by repeat constructor|done].
  - rewrite !andthen_inl, !check_inl, IH, orb_false_iff, negb_false_iff, !bool_decide_eq_false, bool_decide_eq_true, NoDup_cons, !Forall_cons.
    cbn [fst snd].
    rewrite (seen_cons (fun e : text * PolicyProfile => map to_ascii_lowercase e.1)). tauto.
Qed.

Lemma validate_labels_inl ps ls : forall seen,
  validate_labels ps seen ls = inl () <->
  Forall (fun e => normalize_label e.1 <> [] /\ contains_key ps e.2 = true) ls /\
  NoDup (map (fun e => normalize_label e.1) ls) /\ Forall (fun e => normalize_label e.1 ∉ seen) ls.
Proof.
  induction ls as [|[label p] ls IH]; intros seen; cbn [validate_labels map].
  - split; [intros _; by repeat constructor|done].
  - cbv zeta. rewrite !andthen_inl, !check_inl, IH, orb_false_iff, negb_false_iff, !bool_decide_eq_false, NoDup_cons, !Forall_cons.
    cbn [fst snd].
    rewrite (seen_cons (fun e : text * text => normalize_label e.1)). tauto.
Qed.

Lemma mapped_unique ls label p :
  NoDup (map (fun e : text * text => normalize_label e.1) ls) -> (label, p) ∈ ls ->
  mapped_profile ls (normalize_label label) = Some p.
Proof.
  induction ls as [|[l q] ls IH]; intros Hn Hin; [by apply not_elem_of_nil in Hin|].
  cbn [map mapped_profile] in *. apply NoDup_cons in Hn as [Hl Hn]. apply elem_of_cons in Hin as [[= <- <-]|Hin].
  - by rewrite bool_decide_eq_true_2.
  - rewrite bool_decide_eq_false_2; [by apply IH|]. intros E. apply Hl. apply list_elem_of_fmap. by exists (label, p).
Qed.
Lemma mapped_in ls n p : mapped_profile ls n = Some p -> exists label, (label, p) ∈ ls /\ normalize_label label = n.
Proof.
  induction ls as [|[l q] ls IH]; cbn [mapped_profile]; [done|]. case_bool_decide as E.
  - intros [= <-]. exists l. by split; [left|].
  - intros (label & Hl & Hn)%IH. exists label. by split; [right|].
Qed.

(** The directories and the suffix of a validated profile. *)
Lemma validate_profile_intake p :
  validate_profile p = inl () ->
  match pi_organization_subdirectory (p_intake p) with Some s => is_safe_content_subdirectory s = true | None => True end /\
  match pi_incomplete_subdirectory (p_intake p) with Some s => is_safe_content_subdirectory s = true | None => True end /\
  validate_partial_file_suffix (pi_partial_file_suffix (p_intake p)) = inl ().
Proof.
  unfold validate_profile. rewrite !andthen_inl, !check_some_inl. intros (_ & _ & _ & _ & _ & _ & H1 & H2 & H3).
  split; [|split; [|done]].
  - destruct (pi_organization_subdirectory _); [|done]. by apply check_inl, negb_false_iff in H1.
  - destruct (pi_incomplete_subdirectory _); [|done]. by apply check_inl, negb_false_iff in H2.
Qed.

(** A validated configuration is unambiguous.  No two profile names are equal in any
    case, and the labels, in any case and order of entries, are a function: each
    entry's label leads to its own profile, which exists, so that resolution by label
    does not depend on the order of the entries. *)
Theorem validated_unambiguous c :
  validate_profiles c = inl () ->
  NoDup (map (fun e => map to_ascii_lowercase e.1) (profiles c)) /\
  (forall label p l, (label, p) ∈ labels c -> normalize_label l = normalize_label label -> usable c l p) /\
  (forall l p, usable c l p -> exists label, (label, p) ∈ labels c /\ normalize_label label = normalize_label l) /\
  (forall ls, labels c ≡ₚ ls -> forall l p, usable c l p <-> usable (mkProfiles (profiles c) ls) l p).
Proof.
  unfold validate_profiles. rewrite andthen_inl, validate_names_inl, validate_labels_inl. intros ((_ & Hn & _) & (Hl & Hd & _)).
  split; [done|].
  assert (forall ls label p l, labels c ≡ₚ ls -> (label, p) ∈ ls -> normalize_label l = normalize_label label -> usable (mkProfiles (profiles c) ls) l p) as Hto.
  { intros ls label p l Hls Hin E. unfold usable. cbn [profiles labels]. rewrite E.
    destruct (proj1 (Forall_forall _ _) Hl (label, p)) as [H1 H2]; [by rewrite Hls|]. cbn [fst snd] in *.
    split; [done|]. split; [|done]. apply mapped_unique; [|done]. by rewrite <- Hls. }
  assert (forall ls l p, usable (mkProfiles (profiles c) ls) l p -> exists label, (label, p) ∈ ls /\ normalize_label label = normalize_label l) as Hfrom.
  { intros ls l p (_ & Hm & _). by apply mapped_in. }
  destruct c as [ps ls0]. cbn [profiles labels] in *. split; [intros label p l; by apply Hto|]. split; [apply Hfrom|].
  intros ls Hls l p. split; intros (label & Hin & E)%Hfrom; (eapply Hto; [| |symmetry; exact E]); [done|by rewrite <- Hls|done|by rewrite Hls].
Qed.

Definition films : PolicyProfile :=
  mkProfile (mkPStorage (Some (bytes_of "/films")) None) (mkPQueue (Some PHigh) None) (mkPSeeding None None None) (mkPBandwidth None None)
    (mkPTracker []) (mkPIntake [bytes_of "*.nfo"] [] (Some (bytes_of "movies/hd")) None true (Some (bytes_of ".part"))) None.
Definition two_profiles : PolicyProfilesConfig :=
  mkProfiles [(bytes_of "films", films); (bytes_of "other", profile_default)]
    [(bytes_of "Movie", bytes_of "films"); (bytes_of "zzz", bytes_of "other")].

Lemma validated_unambiguous_witness : usable two_profiles (bytes_of " MOVIE ") (bytes_of "films").
Proof.
  apply (proj1 (proj2 (validated_unambiguous two_profiles ltac:(by vm_compute))) (bytes_of "Movie")); [left|by vm_compute].
Defined.
