(* ===== verification/PolicyRuntime.v ===== *)
(** * Captured policy: [crates/swarmotterd/src/daemon/policy_runtime.rs]

    The daemon's use of the policy module: what it captures when a torrent is
    registered, when its profile or labels change and when the configuration is
    replaced.  A handler that takes [&mut Torrent] returns the torrent; one that locks
    the registry takes and returns it; whether the state was persisted is a parameter.
    Logging, events and the restart of engines are left out.  The theorems: a
    registered torrent's placement, files and start decision never depend on later
    configurations, and changes of profile, labels or configuration move no payload. *)

From S2P Require Import Prelude Text Bits Hash Bencode Meta Torrent Queue Ratio Intake Policy.

Local Open Scope byte_scope.
Local Open Scope Z_scope.

#[export] Instance start_eq_dec : EqDecision StartBehavior.
Proof. solve_decision. Defined.
#[export] Instance encryption_eq_dec : EqDecision PeerEncryptionMode.
Proof. solve_decision. Defined.
#[export] Instance storage_snapshot_eq_dec : EqDecision PolicyStorageSnapshot.
Proof. solve_decision. Defined.
#[export] Instance priority_eq_dec : EqDecision QueuePriority.
Proof. solve_decision. Defined.
#[export] Instance host_rule_eq_dec : EqDecision TrackerHostRule.
Proof. solve_decision. Defined.
#[export] Instance exclusion_eq_dec : EqDecision PolicyFileExclusionRule.
Proof. solve_decision. Defined.
#[export] Instance pintake_eq_dec : EqDecision PolicyIntake.
Proof. solve_decision. Defined.
#[export] Instance pstorage_eq_dec : EqDecision PolicyStorage.
Proof. solve_decision. Defined.
#[export] Instance pqueue_eq_dec : EqDecision PolicyQueue.
Proof. solve_decision. Defined.
#[export] Instance pbandwidth_eq_dec : EqDecision PolicyBandwidth.
Proof. solve_decision. Defined.
#[export] Instance ptracker_eq_dec : EqDecision PolicyTracker.
Proof. solve_decision. Defined.

(** The derived [PartialEq] of the profiles section: ratios compare as floats. *)
Definition option_eqb {A} (eqb : A -> A -> bool) (a b : option A) : bool :=
  match a, b with Some a, Some b => eqb a b | None, None => true | _, _ => false end.
Definition seeding_eqb (a b : PolicySeeding) : bool :=
  option_eqb f64_eqb (pse_ratio_limit a) (pse_ratio_limit b) &&
  bool_decide (pse_idle_limit a = pse_idle_limit b) && bool_decide (pse_seed_forever a = pse_seed_forever b).
Definition profile_eqb (a b : PolicyProfile) : bool :=
  bool_decide (p_storage a = p_storage b) && bool_decide (p_queue a = p_queue b) && seeding_eqb (p_seeding a) (p_seeding b) &&
  bool_decide (p_bandwidth a = p_bandwidth b) && bool_decide (p_tracker a = p_tracker b) &&
  bool_decide (p_intake a = p_intake b) && bool_decide (p_encryption_mode a = p_encryption_mode b).
Fixpoint entries_eqb (a b : list (text * PolicyProfile)) : bool :=
  match a, b with
  | [], [] => true
  | (k, v) :: a, (k', v') :: b => bool_decide (k = k') && profile_eqb v v' && entries_eqb a b
  | _, _ => false
  end.
Definition profiles_eqb (a b : PolicyProfilesConfig) : bool :=
  entries_eqb (profiles a) (profiles b) && bool_decide (labels a = labels b).

(** ** Updates of a torrent's policy fields *)

Definition set_other (t : PTorrent) (o : PolicyFields) : PTorrent :=
  mkTorrent (meta t) (progress t) (rows t) (magnet_info_hash t) (magnet_identity t) o.
Definition set_policy (t : PTorrent) (p : TorrentPolicy) : PTorrent :=
  let o := other t in
  set_other t (mkFields (t_labels o) p (t_download_dir o) (t_seeding o) (t_download_limit o) (t_upload_limit o)
    (t_priorities o) (t_wanted o) (t_needs_metadata o)).
Definition set_labels_field (t : PTorrent) (ls : list text) : PTorrent :=
  let o := other t in
  set_other t (mkFields ls (t_policy o) (t_download_dir o) (t_seeding o) (t_download_limit o) (t_upload_limit o)
    (t_priorities o) (t_wanted o) (t_needs_metadata o)).
Definition set_download_dir (t : PTorrent) (d : option text) : PTorrent :=
  let o := other t in
  set_other t (mkFields (t_labels o) (t_policy o) d (t_seeding o) (t_download_limit o) (t_upload_limit o)
    (t_priorities o) (t_wanted o) (t_needs_metadata o)).
Definition set_files (t : PTorrent) (ps : list FilePriority) (ws : list bool) (rs : list TorrentFile) : PTorrent :=
  let o := other t in
  mkTorrent (meta t) (progress t) rs (magnet_info_hash t) (magnet_identity t)
    (mkFields (t_labels o) (t_policy o) (t_download_dir o) (t_seeding o) (t_download_limit o) (t_upload_limit o)
      ps ws (t_needs_metadata o)).

Definition with_profile (p : TorrentPolicy) (name : option text) (origin : option PolicyProfileOrigin) : TorrentPolicy :=
  mkPolicy name origin (storage_snapshot p) (initial_start_behavior p) (intake_snapshot p) (preview_until_started p) (overrides p).
Definition with_storage (p : TorrentPolicy) (s : option PolicyStorageSnapshot) : TorrentPolicy :=
  mkPolicy (profile p) (profile_origin p) s (initial_start_behavior p) (intake_snapshot p) (preview_until_started p) (overrides p).
Definition with_start (p : TorrentPolicy) (b : option StartBehavior) : TorrentPolicy :=
  mkPolicy (profile p) (profile_origin p) (storage_snapshot p) b (intake_snapshot p) (preview_until_started p) (overrides p).
Definition with_intake (p : TorrentPolicy) (s : option IntakePolicySnapshot) : TorrentPolicy :=
  mkPolicy (profile p) (profile_origin p) (storage_snapshot p) (initial_start_behavior p) s (preview_until_started p) (overrides p).
Definition with_preview (p : TorrentPolicy) (b : bool) : TorrentPolicy :=
  mkPolicy (profile p) (profile_origin p) (storage_snapshot p) (initial_start_behavior p) (intake_snapshot p) b (overrides p).
Definition with_encryption (p : TorrentPolicy) (m : option PeerEncryptionMode) : TorrentPolicy :=
  let o := overrides p in
  mkPolicy (profile p) (profile_origin p) (storage_snapshot p) (initial_start_behavior p) (intake_snapshot p) (preview_until_started p)
    (mkOverrides (o_incomplete_dir o) (o_queue_priority o) (o_start_behavior o) (o_ratio_limit o) (o_idle_limit o)
      (o_seed_forever o) (o_download_limit o) (o_upload_limit o) m).
Definition with_incomplete_dir (p : TorrentPolicy) (d : option text) : TorrentPolicy :=
  let o := overrides p in
  mkPolicy (profile p) (profile_origin p) (storage_snapshot p) (initial_start_behavior p) (intake_snapshot p) (preview_until_started p)
    (mkOverrides d (o_queue_priority o) (o_start_behavior o) (o_ratio_limit o) (o_idle_limit o)
      (o_seed_forever o) (o_download_limit o) (o_upload_limit o) (o_encryption_mode o)).

(** ** Snapshots *)

Definition profile_name (e : EffectiveTorrentPolicy) : text :=
  match ep_profile e with Some a => assigned a | None => [] end.

Definition snapshot_registration_storage (config : Config) (t : PTorrent) : PTorrent :=
  match storage_snapshot (policy t) with
  | Some _ => t
  | None =>
      let e := resolve config t in
      set_policy t (with_storage (policy t) (Some
        (mkStorageSnapshot (profile_name e) false (value (ep_download_dir e)) (value (ep_incomplete_dir e)))))
  end.

Definition snapshot_initial_admission (config : Config) (t : PTorrent) : PTorrent :=
  match initial_start_behavior (policy t) with
  | Some _ => t
  | None => set_policy t (with_start (policy t) (Some (value (ep_start_behavior (resolve config t)))))
  end.

Definition snapshot_existing_storage (config : Config) (t : PTorrent) : PTorrent :=
  match storage_snapshot (policy t) with
  | Some _ => t
  | None =>
      let e := resolve config t in
      set_policy t (with_storage (policy t) (Some (mkStorageSnapshot [] true
        (match download_dir_of t with None => value (ep_download_dir e) | Some _ => None end)
        (match o_incomplete_dir (overrides (policy t)) with None => value (ep_incomplete_dir e) | Some _ => None end))))
  end.

(** [Vec::dedup]. *)
Fixpoint dedup (l : list Z) : list Z :=
  match l with
  | a :: (b :: _) as l' => if a =? b then dedup l' else a :: dedup l'
  | l => l
  end.

Definition push_new (rules : list PolicyFileExclusionRule) (rule : PolicyFileExclusionRule) : list PolicyFileExclusionRule :=
  if bool_decide (rule ∈ rules) then rules else rules ++ [rule].

Definition snapshot_registration_intake (config : Config) (t : PTorrent) (unwanted : list Z)
    (file_exclusion_rules : list PolicyFileExclusionRule) (suffix : option text) : PTorrent :=
  match intake_snapshot (policy t) with
  | Some _ => t
  | None =>
      let unwanted := dedup (sort_by Z.leb unwanted) in
      let e := resolve config t in
      let intake := default intake_default
        (p_intake <$> (ep_profile e ≫= fun a => btree_get (profiles (config_profiles config)) (assigned a))) in
      set_policy t (with_intake (policy t) (Some (mkIntake (profile_name e) (pi_excluded_file_patterns intake)
        (foldl push_new (pi_excluded_file_rules intake) file_exclusion_rules)
        (pi_organization_subdirectory intake) (pi_incomplete_subdirectory intake) (pi_force_top_level_folder intake)
        (match suffix with Some s => Some s | None => pi_partial_file_suffix intake end) unwanted)))
  end.

(** ** Placement *)

Section placement.
(** [temp_dir().join("swarmotter-downloads")]. *)
Variable default_dir : text.

Definition policy_storage_paths (config : Config) (t : PTorrent) : text * text :=
  let e := resolve config t in
  let complete_dir := default default_dir (value (ep_download_dir e)) in
  let active_dir := default complete_dir (value (ep_incomplete_dir e)) in
  let snapshot := intake_snapshot (policy t) in
  let organization := snapshot ≫= organization_subdirectory in
  let incomplete := snapshot ≫= fun s => match incomplete_subdirectory s with Some d => Some d | None => organization_subdirectory s end in
  let force := match snapshot with Some s => force_top_level_folder s | None => false end in
  let place base sub := force_top_level_storage_path (organize_storage_path base sub) (name (meta t)) (is_multi_file (meta t)) force in
  (place complete_dir organization, place active_dir incomplete).

Definition partial_file_suffix_for_active_storage (t : PTorrent) : option text :=
  intake_snapshot (policy t) ≫= partial_file_suffix.

(** The directories of the preview; the paths of its files are [file_path]'s. *)
Record StoragePathPreviewRequest : Type := mkPreviewRequest {
  request_profile : option text; request_download_dir : option text; request_incomplete_dir : option text }.
Definition preview_candidate (config : Config) (t : PTorrent) (request : StoragePathPreviewRequest) : outcome PTorrent :=
  t ← match request_profile request with
      | Some name =>
          _ ← fail_if (bool_decide (trim name = []) || negb (contains_key (profiles (config_profiles config)) name))
                (InvalidArgument "unknown or empty policy profile");
          let t := snapshot_existing_storage config t in
          Ok (set_policy t (with_profile (policy t) (Some name) (Some OriginTorrent)))
      | None => Ok t
      end;
  t ← match request_download_dir request with
      | Some d => _ ← fail_if (bool_decide (trim d = [])) (InvalidArgument "download_dir must not be empty when previewing placement");
                  Ok (set_download_dir t (Some d))
      | None => Ok t
      end;
  match request_incomplete_dir request with
  | Some d => _ ← fail_if (bool_decide (trim d = [])) (InvalidArgument "incomplete_dir must not be empty when previewing placement");
              Ok (set_policy t (with_incomplete_dir (policy t) (Some d)))
  | None => Ok t
  end.
Definition preview_storage_dirs (config : Config) (t : PTorrent) (request : StoragePathPreviewRequest)
  : outcome (text * text * option text) :=
  candidate ← preview_candidate config t request;
  let dirs := policy_storage_paths config candidate in
  let suffix := partial_file_suffix_for_active_storage candidate in
  match validate_partial_file_suffix suffix with
  | inr e => Err (InvalidArgument e)
  | inl _ => Ok (dirs, suffix)
  end.
End placement.

(** ** Registration *)

Record AddTorrentOptions : Type := mkAddOptions {
  a_download_dir : option text; a_incomplete_dir : option text; a_paused : bool; a_start_behavior_explicit : bool;
  a_profile : option text; a_labels : list text; a_unwanted_file_indices : list Z;
  a_file_exclusion_rules : list PolicyFileExclusionRule; a_partial_file_suffix : option text; a_preview : bool }.

(** [apply_intake_file_rules] on the record. *)
Definition apply_file_rules (t : PTorrent) : outcome PTorrent :=
  '(ps, ws, rs) ← apply_intake_file_rules (intake_snapshot (policy t)) (files (meta t)) (t_priorities (other t), t_wanted (other t), rows t);
  Ok (set_files t ps ws rs).

Definition apply_add_profile (config : Config) (t : PTorrent) (options : AddTorrentOptions) : outcome (PTorrent * bool) :=
  let t := set_labels_field t (a_labels options) in
  t ← match a_profile options with
      | Some name =>
          _ ← fail_if (negb (contains_key (profiles (config_profiles config)) name)) (InvalidArgument "unknown policy profile");
          Ok (set_policy t (with_profile (policy t) (Some name) (Some OriginAddRequest)))
      | None => Ok t
      end;
  let t := snapshot_registration_intake config t (a_unwanted_file_indices options) (a_file_exclusion_rules options) (a_partial_file_suffix options) in
  _ ← (if t_needs_metadata (other t) then Ok ()
       else
         intake ← ok_or (intake_snapshot (policy t)) (Internal "missing intake snapshot after registration policy");
         match validate_intake_selection_indices intake (len (files (meta t))) with
         | inr e => Err (InvalidArgument e)
         | inl _ => Ok ()
         end);
  let t := snapshot_registration_storage config t in
  t ← (if t_needs_metadata (other t) then Ok t else apply_file_rules t);
  if a_preview options then
    let t := set_policy t (with_start (with_preview (policy t) true) (Some Paused)) in
    Ok (t, negb (t_needs_metadata (other t)))
  else
    let e := resolve config t in
    let start := if a_start_behavior_explicit options then (if a_paused options then Paused else Start)
                 else value (ep_start_behavior e) in
    let t := set_policy t (with_start (policy t) (Some start)) in
    let requests_pause :=
      match (ep_profile e ≫= fun a => btree_get (profiles (config_profiles config)) (assigned a)) ≫= (fun p => pq_start_behavior (p_queue p)) with
      | Some Paused => true
      | _ => false
      end in
    Ok (t, if a_start_behavior_explicit options then a_paused options else requests_pause).

(** The part of [add_torrent_file_with_options] between parsing and insertion. *)
Definition register_torrent (config : Config) (t : PTorrent) (options : AddTorrentOptions) : outcome (PTorrent * bool) :=
  let t := match a_download_dir options with Some d => set_download_dir t (Some d) | None => t end in
  let t := match a_incomplete_dir options with Some d => set_policy t (with_incomplete_dir (policy t) (Some d)) | None => t end in
  apply_add_profile config t options.

(** ** Changes of a registered torrent *)

Abbreviation PRegistry := (TorrentRegistry PolicyFields).

(** A durable change: the record is replaced, the state persisted, and on failure the
    record put back. *)
Definition change_record (r : PRegistry) (hash : TorrentKey) (f : PTorrent -> PTorrent) (persisted : option CoreError)
  : PRegistry * outcome () :=
  match registry_get r hash with
  | None => (r, Err (NotFound "torrent"))
  | Some previous =>
      let r := modify r hash f in
      match persisted with
      | Some error => (modify r hash (fun _ => previous), Err error)
      | None => (r, Ok ())
      end
  end.

(** A profile or label change captures the start decision and the placement first. *)
Definition capture (config : Config) (t : PTorrent) : PTorrent :=
  snapshot_existing_storage config (snapshot_initial_admission config t).
Definition reassign (config : Config) (name : option text) (t : PTorrent) : PTorrent :=
  let t := capture config t in
  set_policy t (with_profile (policy t) name (match name with Some _ => Some OriginTorrent | None => None end)).
Definition relabel (config : Config) (ls : list text) (t : PTorrent) : PTorrent := set_labels_field (capture config t) ls.

Definition assign_torrent_profile (config : Config) (r : PRegistry) (hash : TorrentKey) (name : option text)
    (persisted : option CoreError) : PRegistry * outcome () :=
  if match name with Some n => negb (contains_key (profiles (config_profiles config)) n) | None => false end
  then (r, Err (InvalidArgument "unknown policy profile"))
  else change_record r hash (reassign config name) persisted.
Definition set_labels (config : Config) (r : PRegistry) (hash : TorrentKey) (ls : list text) (persisted : option CoreError)
  : PRegistry * outcome () := change_record r hash (relabel config ls) persisted.
Definition assign_torrent_encryption_mode (r : PRegistry) (hash : TorrentKey) (mode : option PeerEncryptionMode)
    (persisted : option CoreError) : PRegistry * outcome () :=
  change_record r hash (fun t => set_policy t (with_encryption (policy t) mode)) persisted.

Definition effective_encryption_mode_changes (previous next : Config) (ts : list PTorrent) : list TorrentKey :=
  omap (fun t => if bool_decide (value (ep_encryption_mode (resolve previous t)) = value (ep_encryption_mode (resolve next t)))
                 then None else Some (torrent_key t)) ts.

Definition effective_ratio_policy (config : Config) (t : PTorrent) : SeedingPolicy * TorrentSeeding :=
  let e := resolve config t in
  (Ratio.mkPolicy (value (ep_ratio_limit e)) (value (ep_idle_limit e)), mkSeeding None None (value (ep_seed_forever e))).

Definition validate_explicit_profile_assignments (config : Config) (ts : list PTorrent) : outcome () :=
  fail_if (existsb (fun t => match profile (policy t) with
                             | Some n => negb (contains_key (profiles (config_profiles config)) n)
                             | None => false
                             end) ts) (InvalidConfig "policy profile is still assigned to torrent").

(** ** Migration of records without snapshots *)

Record MigrationRecord : Type := mkMigration {
  r_key : TorrentKey;
  previous_storage_snapshot : option PolicyStorageSnapshot; applied_storage_snapshot : option PolicyStorageSnapshot;
  previous_initial_start : option StartBehavior; applied_initial_start : option StartBehavior }.

Definition migrate_torrent (previous : Config) (t : PTorrent) : PTorrent :=
  snapshot_initial_admission previous (snapshot_existing_storage previous t).
Definition migration_record (t t' : PTorrent) : option MigrationRecord :=
  if bool_decide (storage_snapshot (policy t) = storage_snapshot (policy t')) &&
     bool_decide (initial_start_behavior (policy t) = initial_start_behavior (policy t'))
  then None
  else Some (mkMigration (torrent_key t') (storage_snapshot (policy t)) (storage_snapshot (policy t'))
               (initial_start_behavior (policy t)) (initial_start_behavior (policy t'))).
Definition prepare_migration (previous next : Config) (ts : list PTorrent) : list PTorrent * list MigrationRecord :=
  if profiles_eqb (config_profiles previous) (config_profiles next) then (ts, [])
  else (map (migrate_torrent previous) ts, omap (fun t => migration_record t (migrate_torrent previous t)) ts).

Definition set_snapshots (s : option PolicyStorageSnapshot) (b : option StartBehavior) (t : PTorrent) : PTorrent :=
  set_policy t (with_start (with_storage (policy t) s) b).
(** The record's torrent exists and does not have the given fields. *)
Definition differs (r : PRegistry) (key : TorrentKey) (s : option PolicyStorageSnapshot) (b : option StartBehavior) : bool :=
  match registry_get r key with
  | None => false
  | Some t => negb (bool_decide (storage_snapshot (policy t) = s)) || negb (bool_decide (initial_start_behavior (policy t) = b))
  end.

Definition install_migration (r : PRegistry) (records : list MigrationRecord) : PRegistry * outcome () :=
  if existsb (fun m => differs r (r_key m) (previous_storage_snapshot m) (previous_initial_start m)) records
  then (r, Err (Internal "torrent policy changed during configuration replacement"))
  else (foldl (fun r m => modify r (r_key m) (set_snapshots (applied_storage_snapshot m) (applied_initial_start m))) r records, Ok ()).
Definition rollback_migration (r : PRegistry) (records : list MigrationRecord) : PRegistry * outcome () :=
  if existsb (fun m => differs r (r_key m) (applied_storage_snapshot m) (applied_initial_start m)) records
  then (r, Err (Internal "torrent policy changed during configuration rollback"))
  else (foldl (fun r m => modify r (r_key m) (set_snapshots (previous_storage_snapshot m) (previous_initial_start m))) r records, Ok ()).
Definition restore_migration (r : PRegistry) (records : list MigrationRecord) (persisted : option CoreError) : PRegistry * outcome () :=
  match rollback_migration r records with
  | (r, Ok _) =>
      match persisted with
      | None => (r, Ok ())
      | Some _ => let '(r, _) := install_migration r records in (r, Err (Internal "legacy policy state rollback failed"))
      end
  | (r, e) => (r, e)
  end.

(** ** What is captured does not change *)

Lemma download_value c t :
  value (ep_download_dir (resolve c t)) =
  match download_dir_of t with
  | Some d => Some d
  | None => match storage_snapshot (policy t) with
            | Some s => snapshot_download_dir s
            | None => value (ep_download_dir (resolve c t))
            end
  end.
Proof. unfold resolve. cbn [ep_download_dir]. unfold resolve_path. by repeat case_match. Qed.
Lemma incomplete_value c t :
  value (ep_incomplete_dir (resolve c t)) =
  match o_incomplete_dir (overrides (policy t)) with
  | Some d => Some d
  | None => match storage_snapshot (policy t) with
            | Some s => snapshot_incomplete_dir s
            | None => value (ep_incomplete_dir (resolve c t))
            end
  end.
Proof. unfold resolve. cbn [ep_incomplete_dir]. unfold resolve_path. by repeat case_match. Qed.
Lemma start_value c t :
  value (ep_start_behavior (resolve c t)) =
  match initial_start_behavior (policy t) with Some b => b | None => value (ep_start_behavior (resolve c t)) end.
Proof. unfold resolve. cbn [ep_start_behavior]. by repeat case_match. Qed.

(** The fields that placement is made of. *)
Record same_place (t t' : PTorrent) : Prop := {
  sp_meta : meta t = meta t'; sp_download : download_dir_of t = download_dir_of t';
  sp_incomplete : o_incomplete_dir (overrides (policy t)) = o_incomplete_dir (overrides (policy t'));
  sp_intake : intake_snapshot (policy t) = intake_snapshot (policy t') }.

#[export] Instance same_place_equivalence : Equivalence same_place.
Proof.
  split.
  - intros t. by split.
  - intros t t' []. by split.
  - intros t t' t'' [] []. split; congruence.
Qed.

Lemma paths_ext d c c' t t' :
  same_place t t' ->
  value (ep_download_dir (resolve c t)) = value (ep_download_dir (resolve c' t')) ->
  value (ep_incomplete_dir (resolve c t)) = value (ep_incomplete_dir (resolve c' t')) ->
  policy_storage_paths d c t = policy_storage_paths d c' t'.
Proof. intros [Hm _ _ Hi] H1 H2. unfold policy_storage_paths. by rewrite H1, H2, Hm, Hi. Qed.

Lemma paths_frozen d c c' t t' s :
  same_place t t' -> storage_snapshot (policy t) = Some s -> storage_snapshot (policy t') = Some s ->
  policy_storage_paths d c t = policy_storage_paths d c' t'.
Proof.
  intros Hp Hs Hs'. apply paths_ext; [done|..].
  - by rewrite download_value, (download_value c' t'), Hs, Hs', (sp_download _ _ Hp).
  - by rewrite incomplete_value, (incomplete_value c' t'), Hs, Hs', (sp_incomplete _ _ Hp).
Qed.

Lemma start_frozen c c' t t' b :
  initial_start_behavior (policy t) = Some b -> initial_start_behavior (policy t') = Some b ->
  value (ep_start_behavior (resolve c t)) = value (ep_start_behavior (resolve c' t')).
Proof. intros H H'. by rewrite start_value, (start_value c' t'), H, H'. Qed.

Lemma set_policy_place t p :
  o_incomplete_dir (overrides p) = o_incomplete_dir (overrides (policy t)) -> intake_snapshot p = intake_snapshot (policy t) ->
  same_place t (set_policy t p).
Proof. by split. Qed.

Lemma existing_place c t : same_place t (snapshot_existing_storage c t).
Proof. unfold snapshot_existing_storage. destruct (storage_snapshot (policy t)); [done|]. by apply set_policy_place. Qed.
Lemma admission_place c t : same_place t (snapshot_initial_admission c t).
Proof. unfold snapshot_initial_admission. destruct (initial_start_behavior (policy t)); [done|]. by apply set_policy_place. Qed.

Lemma existing_snapshot c t : exists s, storage_snapshot (policy (snapshot_existing_storage c t)) = Some s.
Proof. unfold snapshot_existing_storage. destruct (storage_snapshot (policy t)) eqn:E; [by eexists|by eexists]. Qed.
Lemma admission_snapshot c t : exists b, initial_start_behavior (policy (snapshot_initial_admission c t)) = Some b.
Proof. unfold snapshot_initial_admission. destruct (initial_start_behavior (policy t)) eqn:E; by eexists. Qed.

(** Capturing the placement keeps the placement. *)
Lemma existing_keeps_paths d c c' t : policy_storage_paths d c' (snapshot_existing_storage c t) = policy_storage_paths d c t.
Proof.
  destruct (storage_snapshot (policy t)) as [s|] eqn:E.
  - apply (paths_frozen _ _ _ _ _ s); [symmetry; apply existing_place| |done]. unfold snapshot_existing_storage. by rewrite E.
  - apply paths_ext; [symmetry; apply existing_place|..]; unfold snapshot_existing_storage; rewrite E.
    + rewrite download_value. cbn [storage_snapshot policy other set_policy set_other t_policy with_storage download_dir_of t_download_dir snapshot_download_dir].
      rewrite (download_value c t), E. unfold download_dir_of. by destruct (t_download_dir (other t)).
    + rewrite incomplete_value. cbn [storage_snapshot policy other set_policy set_other t_policy with_storage overrides snapshot_incomplete_dir].
      rewrite (incomplete_value c t), E. by destruct (o_incomplete_dir _).
Qed.
Lemma admission_keeps_start c c' t :
  value (ep_start_behavior (resolve c' (snapshot_initial_admission c t))) = value (ep_start_behavior (resolve c t)).
Proof.
  unfold snapshot_initial_admission. destruct (initial_start_behavior (policy t)) as [b|] eqn:E.
  - by apply (start_frozen _ _ _ _ b).
  - by rewrite start_value.
Qed.
Lemma existing_keeps_start c t :
  value (ep_start_behavior (resolve c (snapshot_existing_storage c t))) = value (ep_start_behavior (resolve c t)).
Proof. unfold snapshot_existing_storage. by destruct (storage_snapshot (policy t)). Qed.
Lemma admission_keeps_paths d c t : policy_storage_paths d c (snapshot_initial_admission c t) = policy_storage_paths d c t.
Proof. unfold snapshot_initial_admission. by destruct (initial_start_behavior (policy t)). Qed.

(** The payload stays where it was, its file policy and its start decision too, under
    every configuration. *)
Definition settled (d : text) (before : Config) (t t' : PTorrent) : Prop :=
  forall c, policy_storage_paths d c t' = policy_storage_paths d before t /\
    value (ep_start_behavior (resolve c t')) = value (ep_start_behavior (resolve before t)) /\
    ep_intake (resolve c t') = ep_intake (resolve before t) /\ meta t' = meta t.

Lemma settled_by d before t t1 t' :
  (exists s, storage_snapshot (policy t1) = Some s) -> (exists b, initial_start_behavior (policy t1) = Some b) ->
  policy_storage_paths d before t1 = policy_storage_paths d before t ->
  value (ep_start_behavior (resolve before t1)) = value (ep_start_behavior (resolve before t)) ->
  same_place t t1 -> same_place t1 t' ->
  storage_snapshot (policy t') = storage_snapshot (policy t1) -> initial_start_behavior (policy t') = initial_start_behavior (policy t1) ->
  preview_until_started (policy t') = preview_until_started (policy t) ->
  settled d before t t'.
Proof.
  intros [s Hs] [b Hb] Hp Hst H1 H2 Es Eb Epv c. split.
  { rewrite <- Hp. apply (paths_frozen _ _ _ _ _ s); [by symmetry|congruence|done]. }
  split. { rewrite <- Hst. apply (start_frozen _ _ _ _ b); congruence. }
  split; [|destruct H1, H2; congruence]. unfold resolve. cbn [ep_intake]. unfold resolve_intake. rewrite Epv.
  by rewrite <- (sp_intake _ _ H2), <- (sp_intake _ _ H1).
Qed.

Lemma existing_start_field c t : initial_start_behavior (policy (snapshot_existing_storage c t)) = initial_start_behavior (policy t).
Proof. unfold snapshot_existing_storage. by destruct (storage_snapshot (policy t)). Qed.
Lemma admission_storage_field c t : storage_snapshot (policy (snapshot_initial_admission c t)) = storage_snapshot (policy t).
Proof. unfold snapshot_initial_admission. by destruct (initial_start_behavior (policy t)). Qed.
Lemma existing_preview c t : preview_until_started (policy (snapshot_existing_storage c t)) = preview_until_started (policy t).
Proof. unfold snapshot_existing_storage. by destruct (storage_snapshot (policy t)). Qed.
Lemma admission_preview c t : preview_until_started (policy (snapshot_initial_admission c t)) = preview_until_started (policy t).
Proof. unfold snapshot_initial_admission. by destruct (initial_start_behavior (policy t)). Qed.

Lemma migrate_settled d before t : settled d before t (migrate_torrent before t).
Proof.
  unfold migrate_torrent. set (t1 := snapshot_existing_storage before t).
  assert (same_place t (snapshot_initial_admission before t1)) as Hp by (transitivity t1; [apply existing_place|apply admission_place]).
  apply (settled_by _ _ _ (snapshot_initial_admission before t1)); try done.
  - rewrite admission_storage_field. apply existing_snapshot.
  - apply admission_snapshot.
  - rewrite admission_keeps_paths. apply existing_keeps_paths.
  - rewrite admission_keeps_start. apply existing_keeps_start.
  - rewrite admission_preview. apply existing_preview.
Qed.

Lemma capture_settled d before t t' :
  same_place (capture before t) t' -> storage_snapshot (policy t') = storage_snapshot (policy (capture before t)) ->
  initial_start_behavior (policy t') = initial_start_behavior (policy (capture before t)) ->
  preview_until_started (policy t') = preview_until_started (policy (capture before t)) -> settled d before t t'.
Proof.
  unfold capture. set (t1 := snapshot_initial_admission before t). intros Hp Hs Hb Hv.
  apply (settled_by _ _ _ (snapshot_existing_storage before t1)); try done.
  - apply existing_snapshot.
  - rewrite existing_start_field. apply admission_snapshot.
  - rewrite existing_keeps_paths. apply admission_keeps_paths.
  - rewrite existing_keeps_start. apply admission_keeps_start.
  - transitivity t1; [apply admission_place|apply existing_place].
  - rewrite Hv, existing_preview. apply admission_preview.
Qed.

(** A configuration that replaces the profiles moves no payload.  When the profiles
    section changes, every registered torrent is migrated so that under every later
    configuration its complete and active directories, its file policy and its start
    decision are those it had under the replaced one; when it does not, nothing is
    migrated.  A record names exactly the torrents whose captured fields changed. *)
Theorem profile_edit_moves_nothing d previous next ts :
  let '(ts', records) := prepare_migration previous next ts in
  (profiles_eqb (config_profiles previous) (config_profiles next) = false -> Forall2 (settled d previous) ts ts') /\
  (profiles_eqb (config_profiles previous) (config_profiles next) = true -> ts' = ts /\ records = []) /\
  forall k, k ∈ map r_key records <-> exists t t', (t, t') ∈ zip ts ts' /\ k = torrent_key t' /\
    (storage_snapshot (policy t) <> storage_snapshot (policy t') \/ initial_start_behavior (policy t) <> initial_start_behavior (policy t')).
Proof.
  unfold prepare_migration. destruct (profiles_eqb _ _).
  - split; [done|]. split; [done|]. intros k. split; [by intros ?%not_elem_of_nil|].
    intros (t & t' & Hin & -> & H). assert (t = t') as ->; [|by destruct H].
    clear H. induction ts as [|u ts IH]; [by apply not_elem_of_nil in Hin|]. apply elem_of_cons in Hin as [[= -> ->]|Hin]; auto.
  - split; [intros _; induction ts; constructor; [apply migrate_settled|done]|]. split; [done|]. intros k. induction ts as [|u ts IH].
    + cbn. split; [by intros ?%not_elem_of_nil|]. intros (t & t' & Hin & _). by apply not_elem_of_nil in Hin.
    + cbn [map omap list_omap zip zip_with]. unfold migration_record at 1.
      destruct (_ && _) eqn:E.
      * rewrite IH. apply andb_true_iff in E as [E1%bool_decide_eq_true E2%bool_decide_eq_true]. setoid_rewrite elem_of_cons. naive_solver.
      * cbn [map r_key]. rewrite elem_of_cons, IH. setoid_rewrite elem_of_cons. apply andb_false_iff in E. rewrite !bool_decide_eq_false in E. naive_solver.
Qed.

(** ** Durable changes *)

Lemma existing_keys c t : torrent_keys (snapshot_existing_storage c t) = torrent_keys t.
Proof. unfold snapshot_existing_storage. by destruct (storage_snapshot (policy t)). Qed.
Lemma admission_keys c t : torrent_keys (snapshot_initial_admission c t) = torrent_keys t.
Proof. unfold snapshot_initial_admission. by destruct (initial_start_behavior (policy t)). Qed.
Lemma capture_keys c t : torrent_keys (capture c t) = torrent_keys t.
Proof. unfold capture. by rewrite existing_keys, admission_keys. Qed.

(** Putting back the record that a change replaced. *)
Lemma modify_back (r : PRegistry) hash f previous :
  registry_ok r -> (forall t, torrent_keys (f t) = torrent_keys t) -> registry_get r hash = Some previous ->
  let r' := modify (modify r hash f) hash (fun _ => previous) in
  registry_ok r' /\ forall k, registry_get r' k = registry_get r k.
Proof.
  intros Hr Hf Hg. destruct (modify_ok r hash f Hr Hf) as [Hr1 Hg1]. rewrite Hg in Hg1.
  set (g := fun t : PTorrent => if decide (torrent_keys t = torrent_keys previous) then previous else t).
  assert (forall t, torrent_keys (g t) = torrent_keys t) as Hk by (intros t; unfold g; by destruct (decide _)).
  assert (hash ∈ torrent_keys previous) as Hin by by apply (proj1 (get_Some_iff r hash previous Hr) Hg).
  assert (registry_get (modify r hash f) hash = Some (f previous)) as Hg1h by (rewrite Hg1; by rewrite bool_decide_eq_true_2).
  assert (modify (modify r hash f) hash (fun _ => previous) = modify (modify r hash f) hash g) as ->.
  { unfold registry_get in Hg1h. unfold modify at 1 3. destruct (canonical_key (modify r hash f) hash) as [p|]; [|done]. f_equal.
    apply alter_ext. intros x Hx. cbn in Hg1h. rewrite Hx in Hg1h. injection Hg1h as ->. unfold g. by rewrite decide_True by apply Hf. }
  destruct (modify_ok (modify r hash f) hash g Hr1 Hk) as [Hr2 Hg2]. split; [done|]. intros k. rewrite Hg2, Hg1h, Hf, Hg1.
  unfold g. rewrite decide_True by apply Hf. case_bool_decide as Hk'; [|done]. symmetry.
  apply get_Some_iff; [done|]. split; [|done]. by apply get_Some_iff in Hg as [Hg _].
Qed.

Lemma change_record_ok r hash f persisted :
  registry_ok r -> (forall t, torrent_keys (f t) = torrent_keys t) ->
  let '(r', o) := change_record r hash f persisted in
  registry_ok r' /\
  match registry_get r hash, persisted with
  | None, _ => o = Err (NotFound "torrent") /\ forall k, registry_get r' k = registry_get r k
  | Some t, Some e => o = Err e /\ forall k, registry_get r' k = registry_get r k
  | Some t, None => o = Ok () /\ forall k, registry_get r' k = if bool_decide (k ∈ torrent_keys t) then Some (f t) else registry_get r k
  end.
Proof.
  intros Hr Hf. unfold change_record. destruct (registry_get r hash) as [t|] eqn:Hg; [|done].
  destruct persisted as [e|].
  - by destruct (modify_back r hash f t Hr Hf Hg) as [H1 H2].
  - destruct (modify_ok r hash f Hr Hf) as [H1 H2]. by rewrite Hg in H2.
Qed.

(** Changing a torrent's profile or labels moves no payload and is all or nothing.
    On success exactly that torrent's record changes: it has the new profile or labels,
    and its directories, file policy and start decision stay what they were, under
    every later configuration.  On failure, of an unknown profile, of an unknown
    torrent or of the durable write, every record is what it was. *)
Theorem reassignment_moves_nothing d config r hash name ls persisted :
  registry_ok r ->
  let atomic (res : PRegistry * outcome ()) (changed : PTorrent -> Prop) :=
    registry_ok res.1 /\
    (res.2 <> Ok () -> forall k, registry_get res.1 k = registry_get r k) /\
    (res.2 = Ok () -> exists t t', registry_get r hash = Some t /\ settled d config t t' /\ changed t' /\
      forall k, registry_get res.1 k = if bool_decide (k ∈ torrent_keys t) then Some t' else registry_get r k) in
  atomic (assign_torrent_profile config r hash name persisted)
    (fun t' => profile (policy t') = name /\ validate_explicit_profile_assignments config [t'] = Ok ()) /\
  atomic (set_labels config r hash ls persisted) (fun t' => labels_of t' = ls).
Proof.
  intros Hr atomic.
  assert (forall f (changed : PTorrent -> Prop), (forall t, torrent_keys (f t) = torrent_keys t) -> (forall t, settled d config t (f t)) ->
    (forall t, changed (f t)) -> atomic (change_record r hash f persisted) changed) as Hchange.
  { intros f changed Hf Hs Hc. pose proof (change_record_ok r hash f persisted Hr Hf) as H. destruct (change_record r hash f persisted) as [r' o].
    destruct H as [Hr' H]. unfold atomic. cbn [fst snd]. split; [done|].
    destruct (registry_get r hash) as [t|]; [destruct persisted as [e|]|]; destruct H as [-> H]; (split; [done|]); intros E; try done.
    by exists t, (f t). }
  split.
  - unfold assign_torrent_profile. destruct (match name with Some _ => _ | None => _ end) eqn:E; [by split|].
    apply Hchange.
    + intros t. unfold reassign. apply (capture_keys config t).
    + intros t. apply capture_settled; [by apply set_policy_place|done..].
    + intros t. split; [done|]. unfold validate_explicit_profile_assignments, fail_if. cbn [existsb]. unfold reassign.
      cbn [policy other set_policy set_other t_policy with_profile profile]. by rewrite E.
  - unfold set_labels. apply Hchange; [apply capture_keys| |done]. intros t. by apply capture_settled.
Qed.

(** ** Migration is a transaction *)

Lemma set_snapshots_keys s b t : torrent_keys (set_snapshots s b t) = torrent_keys t.
Proof. done. Qed.

(** Setting the fields of records with distinct keys, one after another. *)
Lemma foldl_modify (r : PRegistry) (ms : list MigrationRecord) (f : MigrationRecord -> PTorrent -> PTorrent) :
  registry_ok r -> (forall m t, torrent_keys (f m t) = torrent_keys t) ->
  (forall m, m ∈ ms -> exists t, registry_get r (r_key m) = Some t /\ torrent_key t = r_key m) -> NoDup (map r_key ms) ->
  let r' := foldl (fun r m => modify r (r_key m) (f m)) r ms in
  registry_ok r' /\
  forall k, registry_get r' k =
    (fun t => match List.find (fun m => bool_decide (r_key m = torrent_key t)) ms with Some m => f m t | None => t end) <$> registry_get r k.
Proof.
  intros Hr Hf. revert r Hr. induction ms as [|m ms IH]; intros r Hr Hms Hn; cbn [foldl List.find].
  { split; [done|]. intros k. by destruct (registry_get r k). }
  destruct (modify_ok r (r_key m) (f m) Hr (Hf m)) as [Hr1 Hg1].
  destruct (Hms m ltac:(by left)) as (t0 & Ht0 & Hk0). rewrite Ht0 in Hg1.
  assert (forall m' t, torrent_key (f m' t) = torrent_key t) as Hkey.
  { intros m' t. destruct (torrent_keys_head t) as [ks E], (torrent_keys_head (f m' t)) as [ks' E']. rewrite Hf, E in E'. by injection E'. }
  cbn [map] in Hn. apply NoDup_cons in Hn as [Hm Hn].
  destruct (IH (modify r (r_key m) (f m)) Hr1) as [Hr2 Hg2]; [|done|].
  { intros m' Hm'. destruct (Hms m' ltac:(by right)) as (t & Ht & Hk). exists t. split; [|done]. rewrite Hg1.
    rewrite bool_decide_eq_false_2; [done|]. intros Hin. apply Hm. apply list_elem_of_fmap. exists m'. split; [|done].
    rewrite <- Hk0, <- Hk. apply get_Some_iff in Ht as [Ht Hkin]; [|done]. apply get_Some_iff in Ht0 as [Ht0 _]; [|done].
    by apply (ro_disjoint r Hr _ _ t0 t (r_key m')). }
  split; [done|]. intros k. rewrite Hg2, Hg1.
  destruct (bool_decide_reflect (k ∈ torrent_keys t0)) as [Hin|Hin].
  - assert (registry_get r k = Some t0) as ->.
    { apply get_Some_iff; [done|]. split; [|done]. by apply get_Some_iff in Ht0 as [Ht0 _]. }
    cbn [fmap option_fmap option_map]. rewrite (bool_decide_eq_true_2 (r_key m = torrent_key t0)) by done. rewrite Hkey.
    f_equal. destruct (List.find _ ms) as [m'|] eqn:E; [|done]. apply find_some in E as [Hm' Hk']. apply bool_decide_eq_true in Hk'.
    destruct Hm. apply list_elem_of_fmap. exists m'. split; [congruence|by apply list_elem_of_In].
  - destruct (registry_get r k) as [t|] eqn:E; [|done]. cbn [fmap option_fmap option_map].
    rewrite (bool_decide_eq_false_2 (r_key m = torrent_key t)); [done|]. intros Ek. apply Hin.
    apply get_Some_iff in E as [Ht Hkin]; [|done]. apply get_Some_iff in Ht0 as [Ht0 _]; [|done].
    rewrite <- Ek, <- Hk0, Ht0 in Ht. by injection Ht as ->.
Qed.

Lemma differs_present (r : PRegistry) k s b t :
  registry_get r k = Some t -> differs r k s b = false <-> storage_snapshot (policy t) = s /\ initial_start_behavior (policy t) = b.
Proof. intros Hg. unfold differs. rewrite Hg, orb_false_iff, !negb_false_iff, !bool_decide_eq_true. done. Qed.

Lemma set_snapshots_same t s b :
  storage_snapshot (policy t) = s -> initial_start_behavior (policy t) = b -> set_snapshots s b t = t.
Proof. intros <- <-. by destruct t as [m p rs mi mid [ls [pr po ss ib ik pv ov] dd sd dl ul ps ws nm]]. Qed.
Lemma set_snapshots_twice s b s' b' t : set_snapshots s' b' (set_snapshots s b t) = set_snapshots s' b' t.
Proof. done. Qed.

Lemma migrate_fields before t :
  migrate_torrent before t = set_snapshots (storage_snapshot (policy (migrate_torrent before t))) (initial_start_behavior (policy (migrate_torrent before t))) t.
Proof.
  unfold migrate_torrent, snapshot_initial_admission, snapshot_existing_storage.
  destruct t as [m p rs mi mid [ls [pr po ss ib ik pv ov] dd sd dl ul ps ws nm]].
  unfold policy. cbn [other t_policy storage_snapshot]. destruct ss; cbn [other t_policy initial_start_behavior]; by destruct ib.
Qed.

(** The torrents and the records of a migration, found by key. *)
Lemma record_key before t m : migration_record t (migrate_torrent before t) = Some m -> r_key m = torrent_key t.
Proof.
  assert (torrent_key (migrate_torrent before t) = torrent_key t) as Hk by by rewrite migrate_fields.
  unfold migration_record. destruct (_ && _); [done|]. by intros [= <-].
Qed.
Lemma find_absent {A} (f : A -> bool) l : (forall a, a ∈ l -> f a = false) -> List.find f l = None.
Proof. intros H. destruct (List.find f l) as [a|] eqn:E; [|done]. apply find_some in E as [Ha E]. rewrite H in E; [done|by apply list_elem_of_In]. Qed.

Lemma migration_find before ts t :
  t ∈ ts -> NoDup (map torrent_key ts) ->
  List.find (fun m => bool_decide (r_key m = torrent_key t)) (omap (fun t => migration_record t (migrate_torrent before t)) ts)
  = migration_record t (migrate_torrent before t).
Proof.
  induction ts as [|u ts IH]; intros Hin Hn; [by apply not_elem_of_nil in Hin|]. cbn [omap list_omap map] in *.
  apply NoDup_cons in Hn as [Hu Hn]. apply elem_of_cons in Hin as [->|Hin].
  - assert (List.find (fun m => bool_decide (r_key m = torrent_key u)) (omap (fun t => migration_record t (migrate_torrent before t)) ts) = None) as Hnone.
    { apply find_absent. intros m (v & Hv & Em)%list_elem_of_omap. apply record_key in Em. apply bool_decide_eq_false_2. intros E.
      apply Hu. apply list_elem_of_fmap. exists v. split; [congruence|done]. }
    destruct (migration_record u _) as [m|] eqn:Em; [|done]. cbn [List.find]. apply record_key in Em. by rewrite bool_decide_eq_true_2.
  - destruct (migration_record u (migrate_torrent before u)) as [m|] eqn:Em; [|by apply IH]. cbn [List.find]. apply record_key in Em.
    rewrite bool_decide_eq_false_2; [by apply IH|]. intros E. apply Hu. apply list_elem_of_fmap. exists t. split; [congruence|done].
Qed.

Lemma migration_keys before ts :
  NoDup (map torrent_key ts) -> NoDup (map r_key (omap (fun t => migration_record t (migrate_torrent before t)) ts)).
Proof.
  induction ts as [|u ts IH]; cbn [omap list_omap map]; [constructor|]. intros [Hu Hn]%NoDup_cons.
  destruct (migration_record u _) as [m|] eqn:Em; [|by apply IH]. cbn [map]. apply record_key in Em. constructor; [|by apply IH].
  rewrite Em. intros (m' & E & (v & Hv & Em')%list_elem_of_omap)%list_elem_of_fmap. apply record_key in Em'.
  apply Hu. apply list_elem_of_fmap. exists v. split; [congruence|done].
Qed.

Section transaction.
Context (r : PRegistry) (previous : Config) (ts : list PTorrent).
Hypothesis Hn : NoDup (map torrent_key ts).
Hypothesis Hall : forall k t, registry_get r k = Some t -> t ∈ ts.
Hypothesis Hts : forall t, t ∈ ts -> registry_get r (torrent_key t) = Some t.
Let ms := omap (fun t => migration_record t (migrate_torrent previous t)) ts.

Lemma records_from m : m ∈ ms -> exists t, t ∈ ts /\ r_key m = torrent_key t /\ migration_record t (migrate_torrent previous t) = Some m.
Proof. intros (t & Ht & Em)%list_elem_of_omap. exists t. by eauto using record_key. Qed.

Lemma install_exact r0 : registry_ok r0 -> (forall k, registry_get r0 k = registry_get r k) ->
    exists r1, install_migration r0 ms = (r1, Ok ()) /\ registry_ok r1 /\ forall k, registry_get r1 k = migrate_torrent previous <$> registry_get r k.
Proof.
  assert (forall t, torrent_keys (migrate_torrent previous t) = torrent_keys t) as Hmk by (intros t; by rewrite migrate_fields).
  intros Hr0 Hsame. unfold install_migration.
  destruct (existsb _ ms) eqn:E.
  { apply existsb_exists in E as (m & Hm & E). apply list_elem_of_In in Hm. destruct (records_from m Hm) as (t & Ht & Hk & Em).
    rewrite (proj2 (differs_present r0 (r_key m) _ _ t ltac:(by rewrite Hsame, Hk; apply Hts))) in E; [done|].
    unfold migration_record in Em. destruct (_ && _); [done|]. by injection Em as <-. }
  destruct (foldl_modify r0 ms (fun m => set_snapshots (applied_storage_snapshot m) (applied_initial_start m)) Hr0) as [H1 H2];
    [done| |by apply migration_keys|].
  { intros m Hm. destruct (records_from m Hm) as (t & Ht & Hk & _). exists t. rewrite Hsame, Hk. split; [by apply Hts|done]. }
  eexists. split; [done|]. split; [exact H1|]. intros k. rewrite H2, Hsame. destruct (registry_get r k) as [t|] eqn:Et; [|done].
  cbn [fmap option_fmap option_map]. f_equal. unfold ms. rewrite migration_find; [|by eapply Hall|done].
  unfold migration_record. destruct (_ && _) eqn:Eb; [|cbn beta iota; cbn [applied_storage_snapshot applied_initial_start]; symmetry; apply migrate_fields].
  apply andb_true_iff in Eb as [E1%bool_decide_eq_true E2%bool_decide_eq_true]. rewrite migrate_fields, <- E1, <- E2. symmetry. by apply set_snapshots_same.
Qed.

Lemma rollback_exact r1 : registry_ok r1 -> (forall k, registry_get r1 k = migrate_torrent previous <$> registry_get r k) ->
    exists r2, rollback_migration r1 ms = (r2, Ok ()) /\ registry_ok r2 /\ forall k, registry_get r2 k = registry_get r k.
Proof.
  assert (forall t, torrent_key (migrate_torrent previous t) = torrent_key t) as Hmk1 by (intros t; by rewrite migrate_fields).
  intros Hr1 Hg1.
  assert (forall m t, migration_record t (migrate_torrent previous t) = Some m -> t ∈ ts -> registry_get r1 (torrent_key t) = Some (migrate_torrent previous t)) as Hin.
  { intros m t _ Ht. by rewrite Hg1, Hts. }
  unfold rollback_migration. destruct (existsb _ ms) eqn:E.
  { apply existsb_exists in E as (m & Hm & E). apply list_elem_of_In in Hm. destruct (records_from m Hm) as (t & Ht & Hk & Em).
    rewrite (proj2 (differs_present r1 (r_key m) _ _ (migrate_torrent previous t) ltac:(rewrite Hk; by eapply Hin))) in E; [done|].
    unfold migration_record in Em. destruct (_ && _); [done|]. by injection Em as <-. }
  destruct (foldl_modify r1 ms (fun m => set_snapshots (previous_storage_snapshot m) (previous_initial_start m)) Hr1) as [H1 H2];
    [done| |by apply migration_keys|].
  { intros m Hm. destruct (records_from m Hm) as (t & Ht & Hk & Em). exists (migrate_torrent previous t). rewrite Hk. split; [by eapply Hin|done]. }
  eexists. split; [done|]. split; [exact H1|]. intros k. rewrite H2, Hg1. destruct (registry_get r k) as [t|] eqn:Et; [|done].
  cbn [fmap option_fmap option_map]. f_equal. rewrite Hmk1. unfold ms. rewrite migration_find; [|by eapply Hall|done].
  unfold migration_record. destruct (_ && _) eqn:Eb.
  - apply andb_true_iff in Eb as [E1%bool_decide_eq_true E2%bool_decide_eq_true]. rewrite migrate_fields, <- E1, <- E2. by apply set_snapshots_same.
  - cbn [previous_storage_snapshot previous_initial_start]. rewrite (migrate_fields previous t), set_snapshots_twice. by apply set_snapshots_same.
Qed.
End transaction.

(** The migration is a transaction.  Of the torrents of a registry, whose records are
    still those that were read, installing succeeds and gives exactly the migrated
    records; rolling back, or restoring with a durable write, then gives back every
    record; and restoring without one leaves the migrated records.  If the captured
    fields of some record were changed in between, installing fails and changes
    nothing. *)
Theorem migration_transaction (r : PRegistry) previous next ts :
  registry_ok r -> NoDup (map torrent_key ts) -> (forall k t, registry_get r k = Some t -> t ∈ ts) ->
  (forall t, t ∈ ts -> registry_get r (torrent_key t) = Some t) -> profiles_eqb (config_profiles previous) (config_profiles next) = false ->
  let records := (prepare_migration previous next ts).2 in
  (exists r1, install_migration r records = (r1, Ok ()) /\ registry_ok r1 /\
    (forall k, registry_get r1 k = migrate_torrent previous <$> registry_get r k) /\
    (exists r2, rollback_migration r1 records = (r2, Ok ()) /\ forall k, registry_get r2 k = registry_get r k) /\
    (forall e, let '(r3, o) := restore_migration r1 records e in
       match e with None => o = Ok () /\ forall k, registry_get r3 k = registry_get r k
                  | Some _ => o <> Ok () /\ forall k, registry_get r3 k = registry_get r1 k end)) /\
  forall r', (exists m, m ∈ records /\ differs r' (r_key m) (previous_storage_snapshot m) (previous_initial_start m) = true) ->
    exists e, install_migration r' records = (r', Err e).
Proof.
  intros Hr Hn Hall Hts Hdiff records. unfold records, prepare_migration in *. rewrite Hdiff in *. cbn [snd] in *. clear records Hdiff next.
  split.
  - destruct (install_exact r previous ts Hn Hall Hts r Hr) as (r1 & E1 & Hr1 & Hg1); [done|]. exists r1. do 3 (split; [done|]).
    destruct (rollback_exact r previous ts Hn Hall Hts r1 Hr1 Hg1) as (r2 & E2 & Hr2 & Hg2). split; [by exists r2|]. intros e. unfold restore_migration. rewrite E2.
    destruct e as [e|]; [|done]. destruct (install_exact r previous ts Hn Hall Hts r2 Hr2 Hg2) as (r3 & E3 & _ & Hg3). rewrite E3. split; [done|]. intros k. by rewrite Hg3, Hg1.
  - intros r' (m & Hm & E). exists (Internal "torrent policy changed during configuration replacement"). unfold install_migration.
    assert (existsb (fun m => differs r' (r_key m) (previous_storage_snapshot m) (previous_initial_start m)) (omap (fun t => migration_record t (migrate_torrent previous t)) ts) = true) as ->; [|done].
    apply existsb_exists. exists m. split; [by apply list_elem_of_In|done].
Qed.

(** ** Registration *)

Lemma registration_storage_spec c t :
  storage_snapshot (policy t) = None ->
  snapshot_registration_storage c t = set_policy t (with_storage (policy t) (Some
    (mkStorageSnapshot (profile_name (resolve c t)) false (value (ep_download_dir (resolve c t))) (value (ep_incomplete_dir (resolve c t)))))).
Proof. intros E. unfold snapshot_registration_storage. by rewrite E. Qed.

(** The snapshot holds what resolution gives without it. *)
Lemma storage_captured d c t p :
  storage_snapshot (policy t) = None -> storage_snapshot p = storage_snapshot (policy (snapshot_registration_storage c t)) ->
  o_incomplete_dir (overrides p) = o_incomplete_dir (overrides (policy t)) -> intake_snapshot p = intake_snapshot (policy t) ->
  forall c', policy_storage_paths d c' (set_policy t p) = policy_storage_paths d c t.
Proof.
  intros Hn Hs Ho Hi c'. rewrite registration_storage_spec in Hs by done. cbn [policy set_policy set_other other t_policy with_storage storage_snapshot] in Hs.
  apply paths_ext.
  - symmetry. by apply set_policy_place.
  - rewrite (download_value c'). change (policy (set_policy t p)) with p. rewrite Hs. cbn [snapshot_download_dir].
    change (download_dir_of (set_policy t p)) with (download_dir_of t). rewrite (download_value c t), Hn. by destruct (download_dir_of t).
  - rewrite (incomplete_value c'). change (policy (set_policy t p)) with p. rewrite Hs, Ho. cbn [snapshot_incomplete_dir].
    rewrite (incomplete_value c t), Hn. by destruct (o_incomplete_dir (overrides (policy t))) eqn:E; rewrite ?E.
Qed.

Lemma dedup_spec l : Sorted (fun x y => (x <=? y) = true) l -> StronglySorted Z.lt (dedup l) /\ forall x, x ∈ dedup l <-> x ∈ l.
Proof.
  intros Hs. apply Sorted_StronglySorted in Hs; [|intros ??? ?%Z.leb_le ?%Z.leb_le; apply Z.leb_le; lia].
  induction Hs as [|a l Hl [IH1 IH2] Ha]; [split; [constructor|done]|]. destruct l as [|b l].
  { cbn. split; [by repeat constructor|done]. }
  change (dedup (a :: b :: l)) with (if a =? b then dedup (b :: l) else a :: dedup (b :: l)).
  destruct (Z.eqb_spec a b) as [->|Hne].
  - split; [done|]. intros x. rewrite IH2. set_solver.
  - split; [|intros x; rewrite !(elem_of_cons _ x a), IH2; done]. constructor; [done|]. apply Forall_forall. intros x Hx%IH2.
    apply Forall_cons in Ha as [Hab Ha]. apply elem_of_cons in Hx as [->|Hx]; [apply Z.leb_le in Hab; lia|].
    apply StronglySorted_inv in Hl as [_ Hb]. apply (proj1 (Forall_forall _ _) Hb) in Hx. apply Z.leb_le in Hx, Hab. lia.
Qed.

Lemma intake_spec c t unwanted rules suffix :
  intake_snapshot (policy t) = None ->
  exists s, snapshot_registration_intake c t unwanted rules suffix = set_policy t (with_intake (policy t) (Some s)) /\
    StronglySorted Z.lt (unwanted_file_indices s) /\ forall i, i ∈ unwanted_file_indices s <-> i ∈ unwanted.
Proof.
  intros E. unfold snapshot_registration_intake. rewrite E. eexists. split; [done|]. cbn [unwanted_file_indices].
  destruct (dedup_spec (sort_by Z.leb unwanted)) as [H1 H2].
  { apply sort_by_sorted. intros x y H. apply Z.leb_gt in H. apply Z.leb_le. lia. }
  split; [done|]. intros i. rewrite H2. by rewrite sort_by_perm.
Qed.

Lemma file_rules_same t t' : apply_file_rules t = Ok t' -> exists ps ws rs, t' = set_files t ps ws rs.
Proof.
  unfold apply_file_rules. rewrite bind_Ok. intros ([[ps ws] rs] & _ & [= <-]). by exists ps, ws, rs.
Qed.

Lemma resolve_profile_ext c t t' :
  profile (policy t) = profile (policy t') -> profile_origin (policy t) = profile_origin (policy t') -> labels_of t = labels_of t' ->
  resolve_profile c t = resolve_profile c t'.
Proof. intros H1 H2 H3. unfold resolve_profile. by rewrite H1, H2, H3. Qed.

(** The same fields resolve to the same placement. *)
Lemma paths_same_fields d c t t' :
  same_place t t' -> resolve_profile c t = resolve_profile c t' -> storage_snapshot (policy t) = storage_snapshot (policy t') ->
  policy_storage_paths d c t = policy_storage_paths d c t'.
Proof.
  intros Hp Hr Hs. apply paths_ext; [done|..]; unfold resolve; cbn [ep_download_dir ep_incomplete_dir].
  - by rewrite Hr, Hs, (sp_download _ _ Hp).
  - by rewrite Hr, Hs, (sp_incomplete _ _ Hp).
Qed.

(** What a registration did to a record: the stages of [apply_add_profile]. *)
Lemma apply_add_profile_stages config t options t' paused :
  apply_add_profile config t options = Ok (t', paused) -> intake_snapshot (policy t) = None ->
  exists t1 s t3 ps ws rs b pv,
    let t2 := set_policy t1 (with_intake (policy t1) (Some s)) in
    same_place t t1 /\ labels_of t1 = a_labels options /\ storage_snapshot (policy t1) = storage_snapshot (policy t) /\
    match a_profile options with Some n => profile (policy t1) = Some n /\ contains_key (profiles (config_profiles config)) n = true | None => profile (policy t1) = profile (policy t) end /\
    StronglySorted Z.lt (unwanted_file_indices s) /\ (forall i, i ∈ unwanted_file_indices s <-> i ∈ a_unwanted_file_indices options) /\
    (t_needs_metadata (other t) = false -> Forall (fun i => i < len (files (meta t))) (unwanted_file_indices s)) /\
    t3 = snapshot_registration_storage config t2 /\
    t' = set_policy (set_files t3 ps ws rs) (with_start (with_preview (policy t3) pv) (Some b)) /\
    (a_preview options = true -> b = Paused /\ pv = true).
Proof.
  intros H Hi. unfold apply_add_profile in H. cbv zeta in H. rewrite bind_Ok in H. destruct H as (t1 & H1 & H).
  assert (exists name origin, t1 = set_policy (set_labels_field t (a_labels options)) (with_profile (policy t) name origin) /\
    match a_profile options with Some n => name = Some n /\ contains_key (profiles (config_profiles config)) n = true | None => name = profile (policy t) end)
    as (name & origin & -> & Hname).
  { destruct (a_profile options) as [n|].
    - apply bind_Ok in H1 as (? & E & [= <-]). apply fail_if_Ok, negb_false_iff in E. by exists (Some n), (Some OriginAddRequest).
    - injection H1 as <-. exists (profile (policy t)), (profile_origin (policy t)). split; [|done].
      by destruct t as [m p rs mi mid [ls [pr po ss ib ik pv ov] dd sd dl ul ps ws nm]]. }
  set (t1 := set_policy _ (with_profile _ _ _)) in *. clear H1.
  destruct (intake_spec config t1 (a_unwanted_file_indices options) (a_file_exclusion_rules options) (a_partial_file_suffix options))
    as (s & E2 & Hs1 & Hs2); [done|]. rewrite E2 in H. set (t2 := set_policy t1 (with_intake (policy t1) (Some s))) in *.
  rewrite bind_Ok in H. destruct H as (_u & Hv & H). rewrite bind_Ok in H. destruct H as (t4 & H4 & H).
  set (t3 := snapshot_registration_storage config t2) in *.
  assert (exists ps ws rs, t4 = set_files t3 ps ws rs) as (ps & ws & rs & ->).
  { destruct (t_needs_metadata (other t3)); [|by apply file_rules_same]. injection H4 as <-.
    exists (t_priorities (other t3)), (t_wanted (other t3)), (rows t3). by destruct t3 as [? ? ? ? ? []]. }
  clear H4.
  assert (exists b pv, t' = set_policy (set_files t3 ps ws rs) (with_start (with_preview (policy t3) pv) (Some b)) /\ (a_preview options = true -> b = Paused /\ pv = true))
    as (b & pv & -> & Hb).
  { destruct (a_preview options).
    - injection H as <- _. by exists Paused, true.
    - injection H as <- _. eexists _, (preview_until_started (policy t3)). split; [|done]. done. }
  exists t1, s, t3, ps, ws, rs, b, pv. cbv zeta. split; [by split|]. split; [done|]. split; [done|].
  split; [by destruct (a_profile options)|]. do 2 (split; [done|]). split; [|done].
  intros Hm. change (t_needs_metadata (other t2)) with (t_needs_metadata (other t)) in Hv. rewrite Hm in Hv.
  change (intake_snapshot (policy t2)) with (Some s) in Hv. cbn [ok_or] in Hv. rewrite bind_ret in Hv.
  unfold validate_intake_selection_indices in Hv. destruct (existsb _ _) eqn:E; [done|].
  apply Forall_forall. intros i Hin. apply Z.nle_gt. intros Hle.
  assert (existsb (fun index => len (files (meta t2)) <=? index) (unwanted_file_indices s) = true); [|congruence].
  apply existsb_exists. exists i. split; [by apply list_elem_of_In|by apply Z.leb_le].
Qed.

(** C24: Registration captures the policy for good.  A new torrent is placed where the
    configuration of its registration resolves it, and its directories, its file policy
    and its start decision stay the same under every later configuration, assigned
    profile and labels.  Its captured unwanted files are those of the request, each once
    and in order, and all are files of the torrent when its metadata is known; a preview
    is captured as paused. *)
Theorem registration_captures d config t options t' paused :
  apply_add_profile config t options = Ok (t', paused) -> intake_snapshot (policy t) = None -> storage_snapshot (policy t) = None ->
  policy_storage_paths d config t' = policy_storage_paths d config (set_policy t' (with_storage (policy t') None)) /\
  (forall c ls name origin, let t'' := set_labels_field (set_policy t' (with_profile (policy t') name origin)) ls in
     policy_storage_paths d c t'' = policy_storage_paths d config t' /\
     value (ep_start_behavior (resolve c t'')) = value (ep_start_behavior (resolve config t')) /\
     ep_intake (resolve c t'') = ep_intake (resolve config t')) /\
  (exists s, intake_snapshot (policy t') = Some s /\ StronglySorted Z.lt (unwanted_file_indices s) /\
     (forall i, i ∈ unwanted_file_indices s <-> i ∈ a_unwanted_file_indices options) /\
     (t_needs_metadata (other t) = false -> Forall (fun i => i < len (files (meta t'))) (unwanted_file_indices s))) /\
  (a_preview options = true -> value (ep_start_behavior (resolve config t')) = Paused /\ preview_until_started (policy t') = true).
Proof.
  intros H Hi Hs. destruct (apply_add_profile_stages config t options t' paused H Hi)
    as (t1 & s & t3 & ps & ws & rs & b & pv & H1 & Hl & Hs1 & _ & Hu1 & Hu2 & Hu3 & E3 & -> & Hb). clear H.
  rewrite Hs in Hs1. set (t2 := set_policy t1 (with_intake (policy t1) (Some s))) in *.
  rewrite registration_storage_spec in E3 by done. set (snap := mkStorageSnapshot _ _ _ _) in E3.
  assert (forall c, policy_storage_paths d c t3 = policy_storage_paths d config t2) as Hcap.
  { intros c. rewrite E3. apply storage_captured; [done| |done|done]. by rewrite registration_storage_spec. }
  set (t4 := set_policy _ _). assert (same_place t3 t4) as Hp by done.
  assert (storage_snapshot (policy t3) = Some snap) as Hsnap by by rewrite E3.
  split; [|split; [|split]].
  - transitivity (policy_storage_paths d config t3); [symmetry; by apply (paths_frozen _ _ _ _ _ snap)|].
    rewrite Hcap. subst t4. subst t3. apply paths_same_fields; [by split|by apply resolve_profile_ext|done].
  - intros c ls name origin. cbv zeta. split; [|split].
    + by apply (paths_frozen _ _ _ _ _ snap).
    + by apply (start_frozen _ _ _ _ b).
    + done.
  - assert (meta t4 = meta t) as -> by (subst t4; rewrite E3; symmetry; apply (sp_meta _ _ H1)).
    exists s. split; [subst t4; by rewrite E3|done].
  - intros Hpv. destruct (Hb Hpv) as [-> ->]. split; [|done]. by rewrite start_value.
Qed.

(** ** Examples *)

Definition example_config : Config :=
  mkConfig two_profiles default_limits (Some (bytes_of "/data")) None default_policy EncPreferred.
Definition plain_config : Config :=
  mkConfig (mkProfiles [] []) default_limits (Some (bytes_of "/elsewhere")) None default_policy EncRequired.
Definition example_fields : PolicyFields :=
  mkFields [bytes_of "zzz"; bytes_of " Movie"] policy_default None (mkSeeding None None false) 0 0 [Normal] [true] false.
Definition example_torrent : PTorrent :=
  mkTorrent (meta hybrid_record) (progress hybrid_record) (rows hybrid_record) None None example_fields.
Definition example_registry : PRegistry := (Torrent.add registry_default example_torrent).1.
Definition example_options : AddTorrentOptions :=
  mkAddOptions None None false false None [bytes_of "movie"] [0; 0] [] None false.

Lemma registry_default_ok : registry_ok (registry_default (O := PolicyFields)).
Proof. split; cbn; [done| |done]. intros k p. rewrite lookup_empty. split; [done|]. intros (t & Ht & _). done. Qed.

Lemma example_registry_ok : registry_ok example_registry /\ forall k, registry_get example_registry k = if bool_decide (k ∈ torrent_keys example_torrent) then Some example_torrent else None.
Proof.
  destruct (add_ok registry_default example_torrent) as (H1 & _ & H2); [apply registry_default_ok|by apply Forall_forall|].
  split; [exact H1|]. intros k. rewrite H2. done.
Qed.

Lemma reassignment_moves_nothing_witness :
  policy_storage_paths (bytes_of "/tmp") plain_config (reassign example_config None example_torrent)
  = policy_storage_paths (bytes_of "/tmp") example_config example_torrent.
Proof.
  pose proof (reassignment_moves_nothing (bytes_of "/tmp") example_config example_registry (torrent_key example_torrent) None [] None
    (proj1 example_registry_ok)) as [(_ & _ & H) _].
  destruct H as (t & t' & Hg & Hs & _ & Hk); [by vm_compute|].
  rewrite (proj2 example_registry_ok), bool_decide_eq_true_2 in Hg by apply key_in_keys. injection Hg as <-.
  specialize (Hk (torrent_key example_torrent)). rewrite bool_decide_eq_true_2 in Hk by apply key_in_keys.
  assert (t' = reassign example_config None example_torrent) as <- by (vm_compute in Hk; injection Hk as <-; by vm_compute).
  apply Hs.
Defined.

Lemma registration_captures_witness :
  exists t' paused, apply_add_profile example_config example_torrent example_options = Ok (t', paused) /\
    policy_storage_paths (bytes_of "/tmp") plain_config t' = policy_storage_paths (bytes_of "/tmp") example_config t'.
Proof.
  destruct (apply_add_profile example_config example_torrent example_options) as [[t' paused]| | |] eqn:E; [|by vm_compute in E..].
  exists t', paused. split; [done|].
  destruct (registration_captures (bytes_of "/tmp") _ _ _ _ _ E) as (_ & H & _); [done|done|].
  destruct (H plain_config (labels_of t') (profile (policy t')) (profile_origin (policy t'))) as [H' _]. rewrite <- H'.
  by destruct t' as [m p rs mi mid [ls [pr po ss ib ik pv ov] dd sd dl ul ps ws nm]].
Defined.

Lemma migration_transaction_witness :
  exists r1, install_migration example_registry (prepare_migration example_config plain_config [example_torrent]).2 = (r1, Ok ()).
Proof.
  destruct (migration_transaction example_registry example_config plain_config [example_torrent]) as [(r1 & H & _) _].
  - apply example_registry_ok.
  - apply NoDup_singleton.
  - intros k t. rewrite (proj2 example_registry_ok). case_bool_decide; [|done]. intros [= <-]. by left.
  - intros t ->%list_elem_of_singleton. rewrite (proj2 example_registry_ok). by rewrite bool_decide_eq_true_2 by apply key_in_keys.
  - by vm_compute.
  - by exists r1.
Defined.

(** The profile of the least label decides the placement. *)
Example example_place : policy_storage_paths (bytes_of "/tmp") example_config example_torrent = (bytes_of "/films", bytes_of "/films").
Proof. by vm_compute. Qed.
