(* ===== verification/Pieces.v ===== *)
(** * Piece scheduling: [crates/swarmotterd/src/engine]

    What the peer sessions of one download share and keep: [PieceSelection] of
    [mod.rs], [ParallelPieceState] and [PeerRequestWindow] of [parallel.rs], the upload
    queue of [serve.rs] and [pick_piece] of [download.rs].  A lock around the shared
    state makes each of its operations one step.  The theorems: availability counts the
    peers that have a piece, a reservation takes the best free piece, no two sessions
    ever hold the same piece, and the request window and the upload queue stay within
    their bounds. *)

From Stdlib Require Import Floats.SpecFloat.
From S2P Require Import Prelude Bits Addr Meta Storage Torrent Ratio Peer PieceCorrect.

Local Open Scope byte_scope.
Local Open Scope Z_scope.

#[export] Instance IpAddr_countable : Countable IpAddr.
Proof.
  apply (inj_countable' (fun a => match a with V4 a => inl a | V6 a => inr a end : Z + Z)
           (fun s => match s with inl a => V4 a | inr a => V6 a end)). by intros [].
Defined.
#[export] Instance SocketAddr_countable : Countable SocketAddr.
Proof. apply (inj_countable' (fun a => (ip a, port a)) (fun p => mkSocketAddr p.1 p.2)). by intros []. Defined.

#[export] Instance FilePriority_eq_dec : EqDecision FilePriority.
Proof. solve_decision. Defined.

(** [FilePriority::weight]. *)
Definition file_weight (p : FilePriority) : Z := match p with Unwanted => -1 | Low => 0 | Normal => 1 | High => 2 end.

(** [Bitfield::has]; the index is never negative, so it returns (see [bhas_total]). *)
Definition bhas (f : BitfieldBits) (i : Z) : bool := match bitfield_has f i with Ok b => b | _ => false end.

(** ** Selection *)

Record PieceSelection : Type := mkSelection { priorities : list (option Z); target_count : Z }.

Definition all_count (piece_count : Z) : PieceSelection :=
  mkSelection (replicate (Z.to_nat piece_count) (Some (file_weight Normal))) piece_count.
Definition selection_all (meta : TorrentMeta) : PieceSelection := all_count (meta_piece_count meta).

(** [max] of an iterator. *)
Definition max_of (l : list Z) : option Z := foldl (fun m x => Some (match m with Some m => Z.max m x | None => x end)) None l.

Definition slice_weight (priorities : list FilePriority) (wanted : list bool) (slice : FileSlice) : outcome (option Z) :=
  priority ← index priorities (file_index slice);
  w ← index wanted (file_index slice);
  Ok (if (w : bool) && negb (bool_decide (priority = Unwanted)) then Some (file_weight priority) else None).
Definition piece_weight (meta : TorrentMeta) (priorities : list FilePriority) (wanted : list bool) (piece : Z) : outcome (option Z) :=
  slices ← piece_file_ranges meta piece;
  ws ← mapM (slice_weight priorities wanted) slices;
  Ok (max_of (omap id ws)).
Definition from_files (meta : TorrentMeta) (priorities : list FilePriority) (wanted : list bool) : outcome PieceSelection :=
  if negb (len priorities =? len (files meta)) || negb (len wanted =? len (files meta)) then Ok (selection_all meta)
  else
    ps ← mapM (piece_weight meta priorities wanted) (seqZ 0 (meta_piece_count meta));
    Ok (mkSelection ps (len (List.filter (fun p => bool_decide (is_Some p)) ps))).

Definition includes (s : PieceSelection) (piece : Z) : bool :=
  match get (priorities s) piece with Some (Some _) => true | _ => false end.
Definition i32_min : Z := - 2 ^ 31.
Definition selection_priority (s : PieceSelection) (piece : Z) : Z :=
  match get (priorities s) piece with Some (Some p) => p | _ => i32_min end.
Definition selection_complete (s : PieceSelection) (have : PieceBitfield) : bool :=
  if target_count s =? 0 then true
  else forallb (fun e => match e.2 with None => true | Some _ => bf_has have e.1 end) (enumerate (priorities s)).
Definition selection_remaining (s : PieceSelection) (have : PieceBitfield) : Z :=
  len (List.filter (fun e => match e.2 with Some _ => negb (bf_has have e.1) | None => false end) (enumerate (priorities s))).

(** ** Picking a piece *)

(** [max_by_key]: the last of the greatest. *)
Definition max_by (key : Z -> Z) (l : list Z) : option Z :=
  foldl (fun m x => match m with Some m => if key m <=? key x then Some x else Some m | None => Some x end) None l.
Definition pick_piece (meta : TorrentMeta) (s : PieceSelection) (peer_bf : option BitfieldBits) (have : PieceBitfield) : option Z :=
  match peer_bf with
  | None => None
  | Some bf =>
      max_by (selection_priority s)
        (List.filter (fun i => includes s i && bhas bf i && negb (bf_has have i)) (seqZ 0 (meta_piece_count meta)))
  end.

(** ** The shared state *)

Record ParallelPieceState : Type := mkPieceState {
  have : PieceBitfield; reserved : gset Z; availability : list Z;
  peer_pieces : gmap SocketAddr BitfieldBits; selection : PieceSelection }.

Definition set_availability (st : ParallelPieceState) (a : list Z) (p : gmap SocketAddr BitfieldBits) : ParallelPieceState :=
  mkPieceState (have st) (reserved st) a p (selection st).
Definition set_reserved (st : ParallelPieceState) (r : gset Z) : ParallelPieceState :=
  mkPieceState (have st) r (availability st) (peer_pieces st) (selection st).

(** The hash of an address, over its bytes: [hash ^= byte], [wrapping_mul]. *)
Definition hash_byte (hash : Z) (b : byte) : Z := wrap 64 (Z.lxor hash (u8 b) * 0x100000001b3).
Definition ip_octets (a : IpAddr) : list byte := match a with V4 a => to_be 4 a | V6 a => to_be 16 a end.
Definition piece_shard (peer_addr : SocketAddr) (piece_count : Z) : Z :=
  if piece_count =? 0 then 0
  else foldl hash_byte 0xcbf29ce484222325 (ip_octets (ip peer_addr) ++ to_be 2 (port peer_addr)) mod piece_count.

Definition state_new (have : PieceBitfield) (piece_count : Z) (selection : PieceSelection) : ParallelPieceState :=
  mkPieceState have ∅ (replicate (Z.to_nat piece_count) 0) ∅ selection.

(** [self.availability[i] = f(self.availability[i])]: out of range panics. *)
Definition update (a : list Z) (i : Z) (f : Z -> Z) : outcome (list Z) :=
  v ← index a i; Ok (<[Z.to_nat i := f v]> a).
Definition u16_max : Z := 2 ^ 16 - 1.
Definition count_pieces (f : Z -> Z) (bf : BitfieldBits) (a : list Z) (piece_count : Z) : outcome (list Z) :=
  try_fold (fun a i => if bhas bf i then update a i f else Ok a) a (seqZ 0 piece_count).
Definition more (v : Z) : Z := saturating_add u16_max v 1.
Definition less (v : Z) : Z := saturating_sub v 1.

Definition note_peer_bitfield (st : ParallelPieceState) (peer : SocketAddr) (bf : BitfieldBits) (piece_count : Z)
  : outcome ParallelPieceState :=
  a ← match peer_pieces st !! peer with
      | Some previous => count_pieces less previous (availability st) piece_count
      | None => Ok (availability st)
      end;
  a ← count_pieces more bf a piece_count;
  Ok (set_availability st a (<[peer := bf]> (peer_pieces st))).

Definition note_peer_have (st : ParallelPieceState) (peer : SocketAddr) (piece piece_count : Z) : outcome ParallelPieceState :=
  if piece_count <=? piece then Ok st
  else
    let entry := default (bitfield_new piece_count) (peer_pieces st !! peer) in
    if bhas entry piece then Ok (set_availability st (availability st) (<[peer := entry]> (peer_pieces st)))
    else
      entry ← bitfield_set entry piece;
      a ← update (availability st) piece more;
      Ok (set_availability st a (<[peer := entry]> (peer_pieces st))).

Definition remove_peer (st : ParallelPieceState) (peer : SocketAddr) (piece_count : Z) : outcome ParallelPieceState :=
  match peer_pieces st !! peer with
  | None => Ok st
  | Some previous =>
      a ← count_pieces less previous (availability st) piece_count;
      Ok (set_availability st a (delete peer (peer_pieces st)))
  end.

(** The key of [min_by_key]: greater priority first, then rarer. *)
Definition rarity (st : ParallelPieceState) (i : Z) : Z := Z.max 1 (default 0 (get (availability st) i)).
Definition better (st : ParallelPieceState) (i j : Z) : bool :=
  match selection_priority (selection st) j ?= selection_priority (selection st) i with
  | Lt => true
  | Gt => false
  | Eq => rarity st i <? rarity st j
  end.
(** [min_by_key]: the first of the least. *)
Definition first_best (better : Z -> Z -> bool) (l : list Z) : option Z :=
  foldl (fun m x => match m with Some m => if better x m then Some x else Some m | None => Some x end) None l.

Definition eligible (st : ParallelPieceState) (peer_bf : BitfieldBits) (i : Z) : bool :=
  includes (selection st) i && bhas peer_bf i && negb (bf_has (have st) i) && negb (bool_decide (i ∈ reserved st)).
Definition reserve_piece (st : ParallelPieceState) (peer_bf : BitfieldBits) (peer_addr : SocketAddr) (piece_count : Z)
  : option Z * ParallelPieceState :=
  let shard := piece_shard peer_addr piece_count in
  let candidates := List.filter (eligible st peer_bf) (map (fun offset => (shard + offset) mod piece_count) (seqZ 0 piece_count)) in
  match first_best (better st) candidates with
  | None => (None, st)
  | Some piece => (Some piece, set_reserved st ({[piece]} ∪ reserved st))
  end.

Definition peer_has_missing_piece (st : ParallelPieceState) (peer_bf : BitfieldBits) (piece_count : Z) : bool :=
  existsb (fun i => includes (selection st) i && bhas peer_bf i && negb (bf_has (have st) i)) (seqZ 0 piece_count).
Definition release_piece (st : ParallelPieceState) (piece : Z) : ParallelPieceState := set_reserved st (reserved st ∖ {[piece]}).

(** A verified, written piece: [have.set] and the release under one lock. *)
Definition finish_piece (st : ParallelPieceState) (piece : Z) : ParallelPieceState :=
  release_piece (mkPieceState (if bf_has (have st) piece then have st else bf_set (have st) piece)
                   (reserved st) (availability st) (peer_pieces st) (selection st)) piece.

(** ** The request window.  Instants and durations are nanoseconds. *)

Definition NORMAL_REQUEST_FLOOR : Z := 64.
Definition NORMAL_REQUEST_FALLBACK_CAP : Z := 2000.
Definition NORMAL_REQUEST_LOCAL_CAP : Z := 4000.
Definition NORMAL_REQUEST_TARGET_BUFFER_SECS : Z := 10.
Definition NORMAL_PEER_PIECE_WINDOW : Z := 32.

Definition f64_mul (x y : f64) : f64 := SFmul 53 1024 x y.
Definition f64_add (x y : f64) : f64 := SFadd 53 1024 x y.
(** The nearest double of a decimal literal [n / 10^k]. *)
Definition f64_lit (n k : Z) : f64 := f64_div (as_f64 n) (as_f64 (10 ^ k)).
(** [x as u64]: towards zero, saturating, NaN to zero. *)
Definition f64_as_u64 (x : f64) : Z :=
  match x with
  | S754_finite false m e => Z.min u64_max (Z.shiftl (Zpos m) e)
  | S754_infinity false => u64_max
  | _ => 0
  end.
(** [Duration::as_secs_f64]. *)
Definition as_secs_f64 (nanos : Z) : f64 :=
  f64_add (as_f64 (nanos / 10 ^ 9)) (f64_div (as_f64 (nanos mod 10 ^ 9)) (as_f64 (10 ^ 9))).

Record PeerRequestWindow : Type := mkWindow {
  cap : Z; smoothed_rate_bps : Z; sample_bytes : Z; sample_started_at : Z }.

Definition clamp (lo hi x : Z) : Z := Z.max lo (Z.min hi x).
Definition positive (o : option Z) : option Z := match o with Some c => if 0 <? c then Some c else None | None => None end.
Definition window_new (remote_reqq : option Z) (now : Z) : PeerRequestWindow :=
  mkWindow (clamp 1 NORMAL_REQUEST_LOCAL_CAP (default NORMAL_REQUEST_FALLBACK_CAP (positive remote_reqq))) 0 0 now.
Definition set_remote_reqq (w : PeerRequestWindow) (remote_reqq : option Z) : PeerRequestWindow :=
  match positive remote_reqq with
  | None => w
  | Some c => mkWindow (clamp 1 NORMAL_REQUEST_LOCAL_CAP c) (smoothed_rate_bps w) (sample_bytes w) (sample_started_at w)
  end.
Definition window_record_block (w : PeerRequestWindow) (bytes now : Z) : PeerRequestWindow :=
  let sampled := saturating_add u64_max (sample_bytes w) bytes in
  let elapsed := saturating_sub now (sample_started_at w) in
  if elapsed <? 500 * 10 ^ 6 then mkWindow (cap w) (smoothed_rate_bps w) sampled (sample_started_at w)
  else
    let instantaneous := f64_as_u64 (f64_div (as_f64 sampled) (as_secs_f64 elapsed)) in
    let rate := if smoothed_rate_bps w =? 0 then instantaneous
                else f64_as_u64 (f64_add (f64_mul (as_f64 (smoothed_rate_bps w)) (f64_lit 65 2))
                                         (f64_mul (as_f64 instantaneous) (f64_lit 35 2))) in
    mkWindow (cap w) rate 0 now.
Definition desired_in_flight (w : PeerRequestWindow) : Z :=
  let floor := Z.min NORMAL_REQUEST_FLOOR (cap w) in
  let estimated := saturating_mul (smoothed_rate_bps w) NORMAL_REQUEST_TARGET_BUFFER_SECS / BLOCK_SIZE in
  Z.min (Z.max estimated floor) (cap w).

(** ** The upload queue of a download session *)

Definition MAX_INBOUND_SERVE_QUEUE : Z := 32.
Definition MAX_SERVE_BLOCK_LENGTH : Z := 128 * 1024.
Definition SERVE_DRAIN_PER_ITERATION : nat := 2.

Definition InboundUploadQueue : Type := list (Z * Z * Z).

Definition offer (q : InboundUploadQueue) (piece offset length : Z) (have : PieceBitfield) (piece_count : Z) (piece_length_of : Z -> Z)
  : bool * InboundUploadQueue :=
  if (piece_count <=? piece) || negb (bf_has have piece) then (false, q)
  else if (length =? 0) || (MAX_SERVE_BLOCK_LENGTH <? length) then (false, q)
  else if piece_length_of piece <? offset + length then (false, q)
  else if MAX_INBOUND_SERVE_QUEUE <=? len q then (false, q)
  else (true, q ++ [(piece, offset, length)]).
Definition cancel (q : InboundUploadQueue) (piece offset length : Z) : InboundUploadQueue :=
  List.filter (fun r => negb (bool_decide (r = (piece, offset, length)))) q.

(** What serving needs of its surroundings: reading a block of the payload, and whether
    the connection takes a message after those already sent; either may fail. *)
Abbreviation connection := (list Message -> Message -> option CoreError).
Definition send (write : connection) (sent : list Message) (m : Message) : outcome (list Message) :=
  match write sent m with None => Ok (sent ++ [m]) | Some e => Err e end.

Section serve.
Variable read_block : Z -> Z -> Z -> list byte + CoreError.
Variable write : connection.

(** Queue, messages sent, bytes accounted as uploaded. *)
Definition serve_one (st : InboundUploadQueue * list Message * Z) : outcome (bool * (InboundUploadQueue * list Message * Z)) :=
  let '(q, sent, uploaded) := st in
  match q with
  | [] => Ok (false, st)
  | (piece, offset, length) :: q =>
      match read_block piece offset length with
      | inl block =>
          sent ← send write sent (Piece piece offset block);
          Ok (true, (q, sent, saturating_add u64_max uploaded length))
      | inr _ => Ok (true, (q, sent, uploaded))
      end
  end.
Fixpoint serve_times (n : nat) (st : InboundUploadQueue * list Message * Z) : outcome (InboundUploadQueue * list Message * Z) :=
  match n with
  | O => Ok st
  | S n => '(more, st) ← serve_one st; if (more : bool) then serve_times n st else Ok st
  end.
Definition serve_bounded := serve_times SERVE_DRAIN_PER_ITERATION.

(** [announce_new_verified_pieces]: at most 64 [Have] messages, lowest pieces first. *)
Definition announce_step (snapshot : PieceBitfield) (st : PieceBitfield * list Message * Z) (piece : Z)
  : outcome (PieceBitfield * list Message * Z) :=
  let '(announced, out, count) := st in
  if (count <? 64) && bf_has snapshot piece && negb (bf_has announced piece) then
    p ← ok_or (if piece <=? u32_max then Some piece else None) (MalformedTorrent "piece index exceeds peer-wire range");
    out ← send write out (Have p);
    Ok (bf_set announced piece, out, count + 1)
  else Ok st.
Definition announce_new_verified_pieces (snapshot announced : PieceBitfield) (piece_count : Z) (sent : list Message)
  : outcome (PieceBitfield * list Message * Z) :=
  try_fold (announce_step snapshot) (announced, sent, 0) (seqZ 0 piece_count).
End serve.

(** ** Bitfields of peers *)

Lemma bhas_total f i : 0 <= i -> bitfield_has f i = Ok (bhas f i).
Proof.
  intros Hi. unfold bhas, bitfield_has. destruct (i >=? piece_count f); [done|]. rewrite Z.geb_leb.
  destruct (Z.leb_spec (len (bits f)) (i / 8)) as [|Hl]; [done|]. unfold index, get.
  pose proof (Z.div_pos i 8 Hi ltac:(lia)). rewrite (proj2 (Z.ltb_ge _ _)) by lia.
  destruct (lookup_lt_is_Some_2 (bits f) (Z.to_nat (i / 8))) as [b E]; [unfold len in Hl; lia|]. by rewrite E.
Qed.

(** A bitfield with a bit for each of [n] pieces. *)
Definition full_bitfield (n : Z) (f : BitfieldBits) : Prop := piece_count f = n /\ len (bits f) = div_ceil n 8.

Lemma full_is n f : full_bitfield n f -> bitfield_is f n (List.filter (bhas f) (seqZ 0 n)).
Proof.
  intros [Hc Hl]. split; [done|done|]. intros i b Hi Hb.
  assert (bhas f i = piece_bit b i) as E.
  { unfold bhas, bitfield_has. rewrite Hc, Z.geb_leb, (proj2 (Z.leb_gt _ _)) by lia. pose proof (div8_index n i Hi) as Hd.
    rewrite Hl, Z.geb_leb, (proj2 (Z.leb_gt _ _)) by lia. unfold index, get. rewrite (proj2 (Z.ltb_ge _ _)) by lia. by rewrite Hb. }
  rewrite <- E. symmetry. destruct (bhas f i) eqn:Eh.
  - apply bool_decide_eq_true_2. apply list_elem_of_In, filter_In. split; [|done]. apply list_elem_of_In, elem_of_seqZ. lia.
  - apply bool_decide_eq_false_2. intros Hin. apply list_elem_of_In, filter_In in Hin as [_ Hin]. congruence.
Qed.

Lemma full_set n f i :
  0 <= i < n -> full_bitfield n f ->
  exists f', bitfield_set f i = Ok f' /\ full_bitfield n f' /\ forall j, 0 <= j -> bhas f' j = bhas f j || (j =? i).
Proof.
  intros Hi Hf. pose proof (full_is n f Hf) as H. destruct (bitfield_set_is f n _ i ltac:(lia) H) as (f' & E & H').
  exists f'. split; [done|]. rewrite (proj2 (Z.ltb_lt _ _)) in H' by lia. split; [split; apply H'|]. intros j Hj.
  unfold bhas at 1. rewrite (bitfield_has_is f' n _ j Hj H').
  assert (bitfield_has f j = Ok (bhas f j)) as Eb by by apply bhas_total. rewrite (bitfield_has_is f n _ j Hj H) in Eb. injection Eb as Eb.
  rewrite <- Eb. destruct (Z.eqb_spec j i) as [->|Hne].
  - rewrite orb_true_r. apply bool_decide_eq_true_2. split; [by left|lia].
  - rewrite orb_false_r. apply bool_decide_ext. rewrite elem_of_cons. naive_solver.
Qed.
Lemma full_new n : 0 <= n -> full_bitfield n (bitfield_new n) /\ forall j, 0 <= j -> bhas (bitfield_new n) j = false.
Proof.
  intros Hn. pose proof (bitfield_new_is n Hn) as H. split; [split; apply H|]. intros j Hj. unfold bhas. rewrite (bitfield_has_is _ n _ j Hj H).
  apply bool_decide_eq_false_2. by intros [?%not_elem_of_nil _].
Qed.
Lemma bhas_bound f i : bhas f i = true -> i < piece_count f.
Proof. unfold bhas, bitfield_has. rewrite Z.geb_leb. destruct (Z.leb_spec (piece_count f) i); [done|lia]. Qed.

(** ** Availability counts peers *)

(** How many peers have piece [i]. *)
Definition peers_with (m : gmap SocketAddr BitfieldBits) (i : Z) : Z := zsum (fun e => b2z (bhas e.2 i)) (map_to_list m).

Lemma peers_with_bound m i : 0 <= peers_with m i <= Z.of_nat (size m).
Proof.
  unfold peers_with. rewrite <- length_map_to_list. induction (map_to_list m) as [|e l IH]; [done|]. rewrite zsum_cons. cbn [length].
  unfold b2z at 1 3. destruct (bhas e.2 i); lia.
Qed.
Lemma peers_with_fresh m p f i : m !! p = None -> peers_with (<[p := f]> m) i = b2z (bhas f i) + peers_with m i.
Proof. intros Hp. unfold peers_with. rewrite (zsum_perm _ _ _ (map_to_list_insert m p f Hp)). by rewrite zsum_cons. Qed.
Lemma peers_with_delete m p f i : m !! p = Some f -> peers_with m i = b2z (bhas f i) + peers_with (delete p m) i.
Proof.
  intros Hp. rewrite <- (peers_with_fresh (delete p m) p f) by apply lookup_delete_eq. by rewrite insert_delete_id.
Qed.
Lemma peers_with_insert m p f i :
  peers_with (<[p := f]> m) i = b2z (bhas f i) + peers_with m i - match m !! p with Some g => b2z (bhas g i) | None => 0 end.
Proof.
  destruct (m !! p) as [g|] eqn:E.
  - rewrite <- insert_delete_eq, peers_with_fresh by apply lookup_delete_eq. rewrite (peers_with_delete m p g) by done. lia.
  - rewrite peers_with_fresh by done. lia.
Qed.

Lemma count_pieces_spec f bf (n : nat) : forall a, (n <= length a)%nat ->
  exists a', count_pieces f bf a (Z.of_nat n) = Ok a' /\ length a' = length a /\
    forall k, a' !! k = (fun v => if bool_decide (k < n)%nat && bhas bf (Z.of_nat k) then f v else v) <$> a !! k.
Proof.
  unfold count_pieces. induction n as [|n IH]; intros a Ha.
  - exists a. split; [done|]. split; [done|]. intros k. rewrite bool_decide_eq_false_2 by lia. by destruct (a !! k).
  - destruct (IH a ltac:(lia)) as (a1 & E1 & Hl1 & H1). rewrite seqZ_S, try_fold_app, E1, bind_ret. cbn [try_fold]. rewrite Z.add_0_l.
    destruct (bhas bf (Z.of_nat n)) eqn:Eb; [|exists a1; split; [done|split; [done|]]].
    + unfold update, index. rewrite get_of_nat, H1, bool_decide_eq_false_2 by lia.
      destruct (lookup_lt_is_Some_2 a n) as [v Ev]; [lia|]. rewrite Ev. cbn [fmap option_fmap option_map andb]. rewrite bind_ret, Nat2Z.id.
      eexists. split; [done|]. split; [by rewrite length_insert|]. intros k. destruct (decide (k = n)) as [->|Hk].
      * rewrite list_lookup_insert_eq by lia. rewrite Ev. cbn. by rewrite bool_decide_eq_true_2, Eb by lia.
      * rewrite list_lookup_insert_ne by done. rewrite H1. assert (bool_decide (k < S n)%nat = bool_decide (k < n)%nat) as -> by (apply bool_decide_ext; lia). done.
    + intros k. rewrite H1. destruct (a !! k) as [v|]; [|done]. cbn. destruct (decide (k = n)) as [->|Hk].
      * by rewrite Eb, !andb_false_r.
      * assert (bool_decide (k < S n)%nat = bool_decide (k < n)%nat) as -> by (apply bool_decide_ext; lia). done.
Qed.

Inductive peer_op : Type :=
  | Announces (peer : SocketAddr) (bf : BitfieldBits) | Has (peer : SocketAddr) (piece : Z) | Leaves (peer : SocketAddr).
Definition peer_step (n : Z) (st : ParallelPieceState) (op : peer_op) : outcome ParallelPieceState :=
  match op with
  | Announces peer bf => note_peer_bitfield st peer bf n
  | Has peer piece => note_peer_have st peer piece n
  | Leaves peer => remove_peer st peer n
  end.
(** Messages of known peers, with a bit for every piece. *)
Definition peer_op_ok (P : gset SocketAddr) (n : Z) (op : peer_op) : Prop :=
  match op with
  | Announces peer bf => peer ∈ P /\ full_bitfield n bf
  | Has peer piece => peer ∈ P /\ 0 <= piece
  | Leaves peer => True
  end.

Record counted (P : gset SocketAddr) (n : nat) (st : ParallelPieceState) : Prop := {
  ct_len : length (availability st) = n;
  ct_count : forall k, (k < n)%nat -> availability st !! k = Some (peers_with (peer_pieces st) (Z.of_nat k));
  ct_full : forall p f, peer_pieces st !! p = Some f -> p ∈ P /\ full_bitfield (Z.of_nat n) f }.

Lemma counted_size P n st : counted P n st -> (size (peer_pieces st) <= size P)%nat.
Proof.
  intros H. rewrite <- size_dom. apply subseteq_size. intros p [f Hf]%elem_of_dom. by apply (ct_full _ _ _ H p f).
Qed.

Lemma more_small v : 0 <= v < u16_max -> more v = v + 1.
Proof. unfold more, saturating_add. lia. Qed.
Lemma less_pos v : 0 < v -> less v = v - 1.
Proof. unfold less, saturating_sub. lia. Qed.

(** One entry of the availability after counting a bitfield up or down. *)
Lemma counted_with P (n : nat) st a m :
  length a = n -> (forall k, (k < n)%nat -> a !! k = Some (peers_with m (Z.of_nat k))) ->
  (forall p f, m !! p = Some f -> p ∈ P /\ full_bitfield (Z.of_nat n) f) -> counted P n (set_availability st a m).
Proof. by split. Qed.

Section counting.
Context (P : gset SocketAddr) (n : nat) (st : ParallelPieceState).
Hypothesis HP : Z.of_nat (size P) <= u16_max.
Hypothesis Hst : counted P n st.

(** A map that only knows the peers of [P], with full bitfields. *)
Definition known (m : gmap SocketAddr BitfieldBits) : Prop := forall p f, m !! p = Some f -> p ∈ P /\ full_bitfield (Z.of_nat n) f.

Lemma known_insert p f : p ∈ P -> full_bitfield (Z.of_nat n) f -> known (<[p := f]> (peer_pieces st)).
Proof. intros Hp Hf q g [[<- <-]|[_ H]]%lookup_insert_Some; [done|by apply (ct_full _ _ _ Hst q g)]. Qed.

Lemma known_max m i : known m -> peers_with m i <= u16_max.
Proof.
  intros Hm. pose proof (peers_with_bound m i). assert (size m <= size P)%nat; [|lia]. rewrite <- size_dom. apply subseteq_size.
  intros p [f Hpf]%elem_of_dom. by apply (Hm p f).
Qed.

Lemma forget_peer peer previous :
  peer_pieces st !! peer = Some previous ->
  exists a, count_pieces less previous (availability st) (Z.of_nat n) = Ok a /\ length a = n /\
    forall k, (k < n)%nat -> a !! k = Some (peers_with (delete peer (peer_pieces st)) (Z.of_nat k)).
Proof.
  intros Hp. pose proof (ct_len _ _ _ Hst) as Hl. destruct (count_pieces_spec less previous n (availability st)) as (a & Ea & Hla & Ha); [lia|].
  exists a. split; [done|]. split; [lia|]. intros k Hk. rewrite Ha, (ct_count _ _ _ Hst) by done. cbn. rewrite bool_decide_eq_true_2 by done. cbn [andb].
  rewrite (peers_with_delete _ _ _ (Z.of_nat k) Hp). pose proof (peers_with_bound (delete peer (peer_pieces st)) (Z.of_nat k)). f_equal.
  unfold b2z. destruct (bhas previous (Z.of_nat k)); [rewrite less_pos by lia|]; lia.
Qed.

Lemma bitfield_counted peer bf :
  peer ∈ P -> full_bitfield (Z.of_nat n) bf -> exists st', note_peer_bitfield st peer bf (Z.of_nat n) = Ok st' /\ counted P n st'.
Proof.
  intros HpP Hbf. pose proof (known_insert peer bf HpP Hbf) as Hk'.
  assert (exists a, match peer_pieces st !! peer with Some previous => count_pieces less previous (availability st) (Z.of_nat n) | None => Ok (availability st) end = Ok a /\
    length a = n /\ forall k, (k < n)%nat -> a !! k = Some (peers_with (<[peer := bf]> (peer_pieces st)) (Z.of_nat k) - b2z (bhas bf (Z.of_nat k)))) as (a & Ea & Hla & Ha).
  { destruct (peer_pieces st !! peer) as [g|] eqn:E.
    - destruct (forget_peer peer g E) as (a & Ea & Hla & Ha). exists a. split; [done|]. split; [done|]. intros k Hk. rewrite Ha by done. f_equal.
      rewrite peers_with_insert, E, (peers_with_delete _ _ _ (Z.of_nat k) E). lia.
    - exists (availability st). split; [done|]. split; [apply Hst|]. intros k Hk. rewrite (ct_count _ _ _ Hst) by done. f_equal. rewrite peers_with_insert, E. lia. }
  unfold note_peer_bitfield. rewrite Ea, bind_ret. destruct (count_pieces_spec more bf n a) as (a' & Ea' & Hla' & Ha'); [lia|].
  rewrite Ea', bind_ret. eexists. split; [done|]. apply counted_with; [lia| |done]. intros k Hk. rewrite Ha', Ha by done. cbn.
  rewrite bool_decide_eq_true_2 by done. cbn [andb]. f_equal.
  pose proof (known_max _ (Z.of_nat k) Hk'). unfold b2z. rewrite peers_with_insert in *. unfold b2z in *.
  destruct (bhas bf (Z.of_nat k)); [|lia]. rewrite more_small; [lia|].
  pose proof (peers_with_bound (peer_pieces st) (Z.of_nat k)). destruct (peer_pieces st !! peer) as [g|] eqn:E; [|lia].
  pose proof (peers_with_delete _ _ _ (Z.of_nat k) E) as Hd. pose proof (peers_with_bound (delete peer (peer_pieces st)) (Z.of_nat k)). unfold b2z in Hd. lia.
Qed.

Lemma have_counted peer piece :
  peer ∈ P -> 0 <= piece -> exists st', note_peer_have st peer piece (Z.of_nat n) = Ok st' /\ counted P n st'.
Proof.
  intros HpP Hi. pose proof (ct_len _ _ _ Hst) as Hl. unfold note_peer_have. destruct (Z.leb_spec (Z.of_nat n) piece) as [|Hlt]; [by exists st|].
  set (entry := default (bitfield_new (Z.of_nat n)) (peer_pieces st !! peer)).
  assert (full_bitfield (Z.of_nat n) entry /\ forall k, 0 <= k -> match peer_pieces st !! peer with Some g => b2z (bhas g k) | None => 0 end = b2z (bhas entry k)) as [He Hek].
  { unfold entry. destruct (peer_pieces st !! peer) as [g|] eqn:E; cbn [default from_option id]; [split; [by apply (ct_full _ _ _ Hst peer)|done]|].
    destruct (full_new (Z.of_nat n)) as [H1 H2]; [lia|]. split; [done|]. intros k Hk. by rewrite H2. }
  destruct (bhas entry piece) eqn:Eb.
  - eexists. split; [done|]. apply counted_with; [done| |by apply known_insert]. intros k Hk. rewrite (ct_count _ _ _ Hst) by done. f_equal.
    rewrite peers_with_insert, Hek by lia. lia.
  - destruct (full_set (Z.of_nat n) entry piece ltac:(lia) He) as (e' & -> & He' & Hh). rewrite bind_ret. unfold update, index, get.
    rewrite (proj2 (Z.ltb_ge _ _)), (ct_count _ _ _ Hst) by lia. rewrite Z2Nat.id by lia. rewrite !bind_ret. eexists. split; [done|].
    apply counted_with; [by rewrite length_insert| |by apply known_insert]. intros k Hk.
    assert (peers_with (<[peer:=e']> (peer_pieces st)) (Z.of_nat k) = peers_with (peer_pieces st) (Z.of_nat k) + (if Z.of_nat k =? piece then 1 else 0)) as E.
    { rewrite peers_with_insert, Hek, Hh by lia. destruct (Z.eqb_spec (Z.of_nat k) piece) as [->|]; [rewrite Eb|rewrite orb_false_r]; cbn; lia. }
    destruct (decide (k = Z.to_nat piece)) as [->|Hk'].
    + rewrite list_lookup_insert_eq by lia. rewrite E. rewrite Z2Nat.id in E |- * by lia. rewrite Z.eqb_refl in E |- *. f_equal.
      apply more_small. pose proof (known_max _ piece (known_insert peer e' HpP He')). pose proof (peers_with_bound (peer_pieces st) piece). lia.
    + rewrite list_lookup_insert_ne, (ct_count _ _ _ Hst) by done. rewrite E. rewrite (proj2 (Z.eqb_neq _ _)) by lia. f_equal. lia.
Qed.

Lemma leave_counted peer : exists st', remove_peer st peer (Z.of_nat n) = Ok st' /\ counted P n st'.
Proof.
  unfold remove_peer. destruct (peer_pieces st !! peer) as [g|] eqn:E; [|by exists st].
  destruct (forget_peer peer g E) as (a & -> & Hla & Ha). rewrite bind_ret. eexists. split; [done|]. apply counted_with; [done|done|].
  intros p f [_ H]%lookup_delete_Some. by apply (ct_full _ _ _ Hst p f).
Qed.
End counting.

Lemma peer_step_counted P n st op :
  Z.of_nat (size P) <= u16_max -> counted P n st -> peer_op_ok P (Z.of_nat n) op ->
  exists st', peer_step (Z.of_nat n) st op = Ok st' /\ counted P n st'.
Proof.
  intros HP Hst Hop. destruct op as [peer bf|peer piece|peer]; cbn [peer_step peer_op_ok] in *.
  - destruct Hop. by apply bitfield_counted.
  - destruct Hop. by apply have_counted.
  - by apply leave_counted.
Qed.

(** The availability of a piece is the number of connected peers that have it.  From
    the start of a download, whatever at most 65535 peers announce with bitfields of
    full length, in any order, with repetitions and replacements, no index is out of
    range and every entry counts exactly the current peers that have the piece. *)
Theorem availability_counts have (n : nat) selection (P : gset SocketAddr) ops :
  Z.of_nat (size P) <= u16_max -> Forall (peer_op_ok P (Z.of_nat n)) ops ->
  exists st, try_fold (peer_step (Z.of_nat n)) (state_new have (Z.of_nat n) selection) ops = Ok st /\
    length (availability st) = n /\
    forall i, (i < n)%nat -> availability st !! i = Some (Z.of_nat (size (base.filter (fun e => bhas e.2 (Z.of_nat i) = true) (peer_pieces st)))).
Proof.
  intros HP Hops. assert (counted P n (state_new have (Z.of_nat n) selection)) as Hst.
  { split; cbn [availability peer_pieces state_new].
    - rewrite Nat2Z.id. apply length_replicate.
    - intros k Hk. rewrite Nat2Z.id. by rewrite lookup_replicate_2.
    - intros p f H. by rewrite lookup_empty in H. }
  revert Hst. generalize (state_new have (Z.of_nat n) selection). induction Hops as [|op ops Hop Hops IH]; intros st Hst; cbn [try_fold].
  - exists st. split; [done|]. split; [apply Hst|]. intros i Hi. rewrite (ct_count _ _ _ Hst) by done. f_equal. unfold peers_with.
    generalize (peer_pieces st) as m. intros m. induction m as [|p f m Hp IHm] using map_ind.
    + by rewrite map_to_list_empty, map_filter_empty.
    + rewrite (zsum_perm _ _ _ (map_to_list_insert m p f Hp)), zsum_cons, IHm. cbn [snd]. unfold b2z. destruct (bhas f (Z.of_nat i)) eqn:E.
      * rewrite map_filter_insert_True by done. rewrite map_size_insert_None; [lia|]. by apply map_lookup_filter_None_2; left.
      * rewrite map_filter_insert_False by (cbn; congruence). by rewrite delete_id.
  - destruct (peer_step_counted P n st op HP Hst Hop) as (st' & -> & Hst'). rewrite bind_ret. by apply IH.
Qed.

Lemma availability_counts_witness :
  let a := mkSocketAddr (V4 1) 1 in let b := mkSocketAddr (V6 2) 2 in
  exists st, try_fold (peer_step 10) (state_new (bf_new 10) 10 (all_count 10))
      [Announces a (mkBitfield [xc0; x40] 10); Has b 0; Has b 9; Has b 0; Has b 12; Announces a (mkBitfield [x80; x00] 10)] = Ok st /\
    length (availability st) = 10%nat /\
    forall i, (i < 10)%nat -> availability st !! i = Some (Z.of_nat (size (base.filter (fun e => bhas e.2 (Z.of_nat i) = true) (peer_pieces st)))).
Proof.
  intros a b. apply (availability_counts (bf_new 10) 10 (all_count 10) {[a; b]}).
  - by vm_compute.
  - repeat constructor; cbn; try set_solver; by vm_compute.
Defined.

(** A peer whose bitfield was too short is counted again with each repeated [Have]. *)
Lemma short_bitfield_inflates :
  let a := mkSocketAddr (V4 1) 1 in
  exists st, try_fold (peer_step 10) (state_new (bf_new 10) 10 (all_count 10)) [Announces a (mkBitfield [x80] 10); Has a 9; Has a 9; Leaves a] = Ok st /\
    availability st !! 9%nat = Some 2 /\ peer_pieces st = ∅.
Proof. eexists. split; [by vm_compute|]. by vm_compute. Qed.

(** ** Reservation *)

Lemma first_best_spec (lt : Z -> Z -> bool) l :
  (forall x y z, lt x y = true -> lt y z = true -> lt x z = true) -> (forall x, lt x x = false) ->
  match first_best lt l with
  | None => l = []
  | Some m => m ∈ l /\ forall x, x ∈ l -> lt x m = false
  end.
Proof.
  intros Htr Hirr. induction l as [|x l IH] using rev_ind; [done|]. unfold first_best in *. rewrite foldl_app. cbn [foldl].
  destruct (foldl _ None l) as [m|].
  - destruct IH as [Hm Hmin]. destruct (lt x m) eqn:E.
    + split; [set_solver|]. intros y [Hy| ->%list_elem_of_singleton]%elem_of_app; [|done].
      destruct (lt y x) eqn:E'; [|done]. rewrite <- (Hmin y Hy). symmetry. by eapply Htr.
    + split; [set_solver|]. intros y [Hy| ->%list_elem_of_singleton]%elem_of_app; auto.
  - subst l. split; [by apply list_elem_of_singleton|]. by intros y ->%list_elem_of_singleton.
Qed.

Lemma better_trans st x y z : better st x y = true -> better st y z = true -> better st x z = true.
Proof.
  unfold better.
  destruct (Z.compare_spec (selection_priority (selection st) y) (selection_priority (selection st) x)),
    (Z.compare_spec (selection_priority (selection st) z) (selection_priority (selection st) y)),
    (Z.compare_spec (selection_priority (selection st) z) (selection_priority (selection st) x)); intros; try done; lia.
Qed.
Lemma better_irrefl st x : better st x x = false.
Proof. unfold better. rewrite Z.compare_refl. apply Z.ltb_irrefl. Qed.

Lemma shard_all s n j : 0 < n -> j ∈ map (fun offset => (s + offset) mod n) (seqZ 0 n) <-> 0 <= j < n.
Proof.
  intros Hn. rewrite list_elem_of_fmap. setoid_rewrite elem_of_seqZ. split.
  - intros (o & -> & _). by apply Z.mod_pos_bound.
  - intros Hj. exists ((j - s) mod n). pose proof (Z.mod_pos_bound (j - s) n Hn). split; [|lia].
    rewrite Z.add_mod_idemp_r by lia. replace (s + (j - s)) with j by lia. by rewrite Z.mod_small.
Qed.

(** A reservation takes the best free piece.  It answers none exactly when no piece
    is wanted, offered by the peer, missing and unreserved; else it reserves exactly one
    such piece, and none of the others has a greater priority, or an equal one and
    fewer peers. *)
Theorem reserve_piece_best st peer_bf addr n :
  0 < n ->
  match reserve_piece st peer_bf addr n with
  | (None, st') => st' = st /\ forall i, 0 <= i < n -> eligible st peer_bf i = false
  | (Some i, st') => 0 <= i < n /\ eligible st peer_bf i = true /\ st' = set_reserved st ({[i]} ∪ reserved st) /\
      forall j, 0 <= j < n -> eligible st peer_bf j = true ->
        selection_priority (selection st) j < selection_priority (selection st) i \/
        (selection_priority (selection st) j = selection_priority (selection st) i /\ rarity st i <= rarity st j)
  end.
Proof.
  intros Hn. unfold reserve_piece. cbv zeta. set (l := List.filter _ _).
  assert (forall i, i ∈ l <-> 0 <= i < n /\ eligible st peer_bf i = true) as Hl.
  { intros i. unfold l. rewrite list_elem_of_In, filter_In, <- list_elem_of_In. by rewrite shard_all. }
  pose proof (first_best_spec (better st) l (better_trans st) (better_irrefl st)) as H.
  destruct (first_best (better st) l) as [i|].
  - destruct H as [Hi Hmin]. apply Hl in Hi as [Hi He]. split; [done|]. split; [done|]. split; [done|]. intros j Hj Hej.
    specialize (Hmin j (proj2 (Hl j) (conj Hj Hej))). unfold better in Hmin.
    destruct (Z.compare_spec (selection_priority (selection st) i) (selection_priority (selection st) j)); [|done|lia].
    right. split; [done|]. apply Z.ltb_ge in Hmin. done.
  - split; [done|]. intros i Hi. destruct (eligible st peer_bf i) eqn:E; [|done].
    assert (i ∈ l) as Hin by by apply Hl. rewrite H in Hin. by apply not_elem_of_nil in Hin.
Qed.

Lemma reserve_piece_best_witness :
  let sel := mkSelection [Some 1; Some 2; None; Some 2] 3 in
  let st := state_new (bf_new 4) 4 sel in
  exists i st', reserve_piece st (mkBitfield [xf0] 4) (mkSocketAddr (V4 7) 9) 4 = (Some i, st') /\
    forall j, 0 <= j < 4 -> eligible st (mkBitfield [xf0] 4) j = true -> selection_priority sel j <= selection_priority sel i.
Proof.
  intros sel st. pose proof (reserve_piece_best st (mkBitfield [xf0] 4) (mkSocketAddr (V4 7) 9) 4 ltac:(lia)) as H.
  assert (exists st', reserve_piece st (mkBitfield [xf0] 4) (mkSocketAddr (V4 7) 9) 4 = (Some 3, st')) as [st' E] by (eexists; by vm_compute).
  rewrite E in H. destruct H as (_ & _ & _ & H). exists 3, st'. split; [done|]. intros j Hj He. destruct (H j Hj He) as [Hlt|[Heq _]]; cbn [selection] in *; unfold st in *; cbn [selection state_new] in *; lia.
Defined.

(** ** No piece is downloaded twice *)

Section exclusive.
Variable n : Z.

(** The shared state, and the pieces each session has taken from it and not given
    back.  Every access to the shared state is one of these steps: a session only
    gives back, or finishes, a piece it took. *)
Inductive world_step : ParallelPieceState * gset (nat * Z) -> ParallelPieceState * gset (nat * Z) -> Prop :=
  | w_peer st h op st' : peer_step n st op = Ok st' -> world_step (st, h) (st', h)
  | w_reserve st h (s : nat) peer_bf addr i st' :
      reserve_piece st peer_bf addr n = (Some i, st') -> world_step (st, h) (st', {[(s, i)]} ∪ h)
  | w_release st h s i : (s, i) ∈ h -> world_step (st, h) (release_piece st i, h ∖ {[(s, i)]})
  | w_finish st h s i : (s, i) ∈ h -> world_step (st, h) (finish_piece st i, h ∖ {[(s, i)]}).

Definition exclusive (w : ParallelPieceState * gset (nat * Z)) : Prop :=
  (forall s i, (s, i) ∈ w.2 -> i ∈ reserved w.1 /\ 0 <= i < n /\ bf_has (have w.1) i = false) /\
  (forall s s' i, (s, i) ∈ w.2 -> (s', i) ∈ w.2 -> s = s') /\
  (forall i, i ∈ reserved w.1 -> exists s, (s, i) ∈ w.2).

Lemma peer_step_same st op st' : peer_step n st op = Ok st' -> have st' = have st /\ reserved st' = reserved st /\ selection st' = selection st.
Proof.
  destruct op as [peer bf|peer i|peer]; cbn [peer_step].
  - unfold note_peer_bitfield. rewrite bind_Ok. intros (a & _ & H). apply bind_Ok in H as (a' & _ & [= <-]). done.
  - unfold note_peer_have. destruct (n <=? i); [by intros [= <-]|]. destruct (bhas _ i); [by intros [= <-]|].
    rewrite bind_Ok. intros (e & _ & H). apply bind_Ok in H as (a & _ & [= <-]). done.
  - unfold remove_peer. destruct (peer_pieces st !! peer); [|by intros [= <-]]. rewrite bind_Ok. by intros (a & _ & [= <-]).
Qed.

Lemma reserve_takes st bf addr i st' :
  reserve_piece st bf addr n = (Some i, st') -> 0 <= i < n /\ eligible st bf i = true /\ st' = set_reserved st ({[i]} ∪ reserved st).
Proof.
  destruct (Z.le_gt_cases n 0) as [Hn|Hn].
  - unfold reserve_piece. rewrite (seqZ_nil 0 n) by done. done.
  - unfold reserve_piece. cbv zeta. set (l := List.filter _ _).
    pose proof (first_best_spec (better st) l (better_trans st) (better_irrefl st)) as H. destruct (first_best (better st) l) as [j|]; [|done].
    intros [= <- <-]. destruct H as [H _]. apply list_elem_of_In, filter_In in H as [H ?]. apply list_elem_of_In, shard_all in H; auto.
Qed.

Lemma finish_have st i j : 0 <= i -> 0 <= j -> bf_has (have (finish_piece st i)) j = true -> bf_has (have st) j = true \/ j = i.
Proof.
  intros Hi Hj. cbn. destruct (bf_has (have st) i); [by left|]. destruct (decide (i < 8 * len (bf_bytes (have st)))) as [Hlt|Hge].
  - rewrite bf_set_has by lia. rewrite orb_true_iff, Z.eqb_eq. naive_solver.
  - unfold bf_set. rewrite update_byte_out by lia. by left.
Qed.

Lemma world_step_exclusive w w' : exclusive w -> world_step w w' -> exclusive w'.
Proof.
  intros (H1 & H2 & H3) Hstep. destruct Hstep as [st h op st' Hop|st h s bf addr i st' Hr|st h s i Hin|st h s i Hin]; unfold exclusive in *; cbn [fst snd] in *.
  - apply peer_step_same in Hop as (-> & -> & _). done.
  - apply reserve_takes in Hr as (Hi & He & ->). cbn [reserved have set_reserved].
    unfold eligible in He. rewrite !andb_true_iff, !negb_true_iff, bool_decide_eq_false in He. destruct He as [[_ Hh] Hnr].
    assert (forall s', (s', i) ∉ h) as Hfree by (intros s' Hs'; apply Hnr; by apply (H1 s')).
    split; [|split].
    + intros s' j [[= -> ->]%elem_of_singleton|Hj]%elem_of_union; [set_solver|]. apply H1 in Hj. set_solver.
    + intros s1 s2 j Hj1 Hj2. apply elem_of_union in Hj1 as [[= -> ->]%elem_of_singleton|Hj1], Hj2 as [E%elem_of_singleton|Hj2].
      * congruence.
      * by destruct (Hfree s2).
      * injection E as -> ->. by destruct (Hfree s1).
      * by eapply H2.
    + intros j [->%elem_of_singleton|Hj]%elem_of_union; [exists s; set_solver|]. apply H3 in Hj as [s' Hs']. exists s'. set_solver.
  - cbn [release_piece set_reserved reserved have].
    assert (forall s' j, (s', j) ∈ h ∖ {[(s, i)]} -> j <> i) as Hne.
    { intros s' j Hj ->. apply elem_of_difference in Hj as [Hj Hj']. apply Hj'. rewrite (H2 s' s i) by done. by apply elem_of_singleton. }
    split; [|split].
    + intros s' j Hj. pose proof (Hne _ _ Hj). apply elem_of_difference in Hj as [Hj _]. apply H1 in Hj. set_solver.
    + intros s1 s2 j [? _]%elem_of_difference [? _]%elem_of_difference. by eapply H2.
    + intros j [Hj Hji]%elem_of_difference. apply H3 in Hj as [s' Hs']. exists s'. set_solver.
  - assert (forall s' j, (s', j) ∈ h ∖ {[(s, i)]} -> j <> i) as Hne.
    { intros s' j Hj ->. apply elem_of_difference in Hj as [Hj Hj']. apply Hj'. rewrite (H2 s' s i) by done. by apply elem_of_singleton. }
    split; [|split].
    + intros s' j Hj. pose proof (Hne _ _ Hj) as Hji. apply elem_of_difference in Hj as [Hj _]. apply H1 in Hj as (Hj1 & Hj2 & Hj3).
      split; [cbn; set_solver|]. split; [done|]. destruct (bf_has (have (finish_piece st i)) j) eqn:E; [|done].
      apply H1 in Hin as (_ & Hi & _). apply finish_have in E as [E|E]; [congruence|done|lia|lia].
    + intros s1 s2 j [? _]%elem_of_difference [? _]%elem_of_difference. by eapply H2.
    + cbn. intros j [Hj Hji]%elem_of_difference. apply H3 in Hj as [s' Hs']. exists s'. set_solver.
Qed.

(** C36: No two sessions ever download the same piece, and none a piece that is already
    there.  In every interleaving of the sessions' steps on the shared state, each
    reserved piece is held by exactly one session, is missing, and every piece a
    session holds is reserved. *)
Theorem reservations_exclusive have selection w :
  rtc world_step (state_new have n selection, ∅) w -> exclusive w.
Proof.
  intros H. assert (exclusive (state_new have n selection, ∅)) as H0 by (split; [|split]; cbn; set_solver).
  revert H0. induction H as [|w1 w2 w3 Hstep _ IH]; [done|]. intros H1. apply IH. by eapply world_step_exclusive.
Qed.
End exclusive.

Lemma reservations_exclusive_witness :
  exclusive 4 (release_piece (reserve_piece (state_new (bf_new 4) 4 (all_count 4)) (mkBitfield [xf0] 4) (mkSocketAddr (V4 7) 9) 4).2 3, {[(0%nat, 3)]} ∖ {[(0%nat, 3)]}).
Proof.
  eapply (reservations_exclusive 4 (bf_new 4) (all_count 4)).
  eapply rtc_l; [apply (w_reserve 4 _ _ 0%nat (mkBitfield [xf0] 4) (mkSocketAddr (V4 7) 9) 3); by vm_compute|].
  rewrite union_empty_r_L. apply rtc_once. apply w_release. set_solver.
Defined.

(** ** The request window *)

Definition window_ok (w : PeerRequestWindow) : Prop := 1 <= cap w <= NORMAL_REQUEST_LOCAL_CAP /\ 0 <= smoothed_rate_bps w <= u64_max.

Lemma f64_as_u64_range x : 0 <= f64_as_u64 x <= u64_max.
Proof.
  unfold f64_as_u64. assert (0 <= u64_max) by (by vm_compute). destruct x as [|[]| |[] m e]; try lia.
  assert (0 <= Z.shiftl (Z.pos m) e) by (apply Z.shiftl_nonneg; lia). lia.
Qed.

Inductive window_op : Type := Reqq (remote : option Z) | Block (bytes now : Z).
Definition window_step (w : PeerRequestWindow) (op : window_op) : PeerRequestWindow :=
  match op with Reqq r => set_remote_reqq w r | Block bytes now => window_record_block w bytes now end.

Lemma window_step_ok w op : window_ok w -> window_ok (window_step w op).
Proof.
  intros [Hc Hr]. destruct op as [r|bytes now]; cbn [window_step].
  - unfold set_remote_reqq. destruct (positive r); [|by split]. split; [|done]. cbn [cap]. unfold clamp, NORMAL_REQUEST_LOCAL_CAP. lia.
  - unfold window_record_block. destruct (_ <? _); [by split|]. split; [done|]. cbn [smoothed_rate_bps]. destruct (_ =? 0); apply f64_as_u64_range.
Qed.

(** The number of requests a session keeps in flight is bounded.  Whatever the peer
    advertises and however fast blocks arrive, it stays between one and 4000, never
    above the advertised limit once that is known and positive, and not below 64 unless
    the limit is. *)
Theorem request_window_bounds remote now ops :
  let w := foldl window_step (window_new remote now) ops in
  1 <= desired_in_flight w <= NORMAL_REQUEST_LOCAL_CAP /\
  Z.min NORMAL_REQUEST_FLOOR (cap w) <= desired_in_flight w <= cap w /\
  forall r, 0 < r -> let w' := set_remote_reqq w (Some r) in desired_in_flight w' <= r.
Proof.
  intros w. assert (window_ok w) as Hw.
  { assert (window_ok (window_new remote now)) as H0.
    { split; [|by split]. cbn. unfold clamp, NORMAL_REQUEST_LOCAL_CAP. lia. }
    unfold w. clear w. revert H0. generalize (window_new remote now). induction ops as [|op ops IH]; intros w Hw; cbn [foldl]; [done|].
    by apply IH, window_step_ok. }
  assert (forall w, window_ok w -> 1 <= desired_in_flight w <= NORMAL_REQUEST_LOCAL_CAP /\ Z.min NORMAL_REQUEST_FLOOR (cap w) <= desired_in_flight w <= cap w) as Hd.
  { intros v [Hc Hr]. unfold desired_in_flight, NORMAL_REQUEST_FLOOR in *. lia. }
  split; [by apply Hd|]. split; [by apply Hd|]. intros r Hr w'. destruct (Hd w' (window_step_ok w (Reqq (Some r)) Hw)) as [_ [_ H]].
  assert (cap w' <= r); [|lia]. unfold w', set_remote_reqq, positive. rewrite (proj2 (Z.ltb_lt _ _)) by done. cbn [cap]. unfold clamp. lia.
Qed.

Lemma request_window_bounds_witness :
  let w := foldl window_step (window_new (Some 0) 0) [Block 100000000 (10 ^ 9); Reqq (Some 250); Block 5 (3 * 10 ^ 9)] in
  0 < 100 /\ desired_in_flight (set_remote_reqq w (Some 100)) <= 100.
Proof.
  intros w. split; [lia|]. apply (request_window_bounds (Some 0) 0 [Block 100000000 (10 ^ 9); Reqq (Some 250); Block 5 (3 * 10 ^ 9)]). lia.
Defined.

(** ** Uploads *)

Section uploads.
Variables (read_block : Z -> Z -> Z -> list byte + CoreError) (piece_count : Z) (piece_length_of : Z -> Z).

(** A request with the pieces that were verified when it came, a cancellation, and a
    bounded drain whose writes may fail. *)
Inductive upload_op : Type :=
  | Asked (have : PieceBitfield) (piece offset length : Z) | Cancelled (piece offset length : Z) | Drain (write : connection).
Definition upload_step (st : InboundUploadQueue * list Message * Z) (op : upload_op) : outcome (InboundUploadQueue * list Message * Z) :=
  match op with
  | Asked have p o l => Ok ((offer st.1.1 p o l have piece_count piece_length_of).2, st.1.2, st.2)
  | Cancelled p o l => Ok (cancel st.1.1 p o l, st.1.2, st.2)
  | Drain write => serve_bounded read_block write st
  end.

(** A request inside a piece that is verified. *)
Definition servable (final : PieceBitfield) (r : Z * Z * Z) : Prop :=
  let '(p, o, l) := r in
  p < piece_count /\ bf_has final p = true /\ l <> 0 /\ l <= MAX_SERVE_BLOCK_LENGTH /\ o + l <= piece_length_of p.
Definition served (final : PieceBitfield) (m : Message) : Prop :=
  exists p o l block, m = Piece p o block /\ read_block p o l = inl block /\ servable final (p, o, l).
Definition uploads_ok (final : PieceBitfield) (st : InboundUploadQueue * list Message * Z) : Prop :=
  len st.1.1 <= MAX_INBOUND_SERVE_QUEUE /\ Forall (servable final) st.1.1 /\ Forall (served final) st.1.2.

Lemma serve_one_ok final write st b st' :
  uploads_ok final st -> serve_one read_block write st = Ok (b, st') ->
  uploads_ok final st' /\ len st'.1.2 <= len st.1.2 + 1.
Proof.
  destruct st as [[q sent] u]. intros (Hl & Hq & Hs). unfold serve_one. cbn [fst snd] in *. destruct q as [|[[p o] l] q].
  - intros [= <- <-]. split; [done|]. cbn [fst snd]. lia.
  - apply Forall_cons in Hq as [Hr Hq]. rewrite len_cons in Hl. destruct (read_block p o l) as [block|] eqn:Er.
    + rewrite bind_Ok. unfold send. destruct (write sent _); [by intros (? & [=] & _)|]. intros (w & [= <-] & [= <- <-]). cbn [fst snd]. split; [|rewrite len_app; cbn [len length]; unfold len; cbn; lia]. split; [cbn [fst snd]; lia|]. split; [done|].
      apply Forall_app. split; [done|]. constructor; [|constructor]. by exists p, o, l, block.
    + intros [= <- <-]. cbn [fst snd]. split; [|lia]. split; [cbn [fst snd]; lia|done].
Qed.
Lemma serve_times_ok final write n : forall st st',
  uploads_ok final st -> serve_times read_block write n st = Ok st' -> uploads_ok final st' /\ len st'.1.2 <= len st.1.2 + Z.of_nat n.
Proof.
  induction n as [|n IH]; intros st st' Hst; cbn [serve_times]; [intros [= <-]; split; [done|lia]|].
  rewrite bind_Ok. intros ([b st1] & E & H). destruct (serve_one_ok final write st b st1 Hst E) as [H1 H2].
  destruct b; [apply IH in H as [H3 H4]; [split; [done|lia]|done]|]. injection H as <-. split; [done|lia].
Qed.

Lemma upload_step_ok final st op st' :
  uploads_ok final st -> (forall have p o l, op = Asked have p o l -> 0 <= p /\ forall i, 0 <= i -> bf_has have i = true -> bf_has final i = true) ->
  upload_step st op = Ok st' -> uploads_ok final st'.
Proof.
  intros (Hl & Hq & Hs) Hh. destruct op as [have p o l|p o l|write]; cbn [upload_step].
  - intros [= <-]. split; [|split; [|done]]; cbn [fst snd]; unfold offer.
    + repeat case_match; cbn [snd]; try done. rewrite len_app. change (len [(p, o, l)]) with 1. match goal with H : (MAX_INBOUND_SERVE_QUEUE <=? _) = false |- _ => apply Z.leb_gt in H end. lia.
    + destruct ((piece_count <=? p) || negb (bf_has have p)) eqn:E1; [done|]. destruct ((l =? 0) || (MAX_SERVE_BLOCK_LENGTH <? l)) eqn:E2; [done|].
      destruct (piece_length_of p <? o + l) eqn:E3; [done|]. destruct (MAX_INBOUND_SERVE_QUEUE <=? len st.1.1); [done|]. cbn [snd].
      apply Forall_app. split; [done|]. constructor; [|constructor]. apply orb_false_iff in E1 as [E1 E1'], E2 as [E2 E2'].
      apply Z.leb_gt in E1. apply negb_false_iff in E1'. apply Z.eqb_neq in E2. apply Z.ltb_ge in E2', E3.
      destruct (Hh have p o l eq_refl) as [Hp Hh']. unfold servable. auto.
  - intros [= <-]. split; [|split; [|done]]; cbn [fst snd]; unfold cancel.
    + unfold len in *. pose proof (filter_length_le (fun r => negb (bool_decide (r = (p, o, l)))) st.1.1). lia.
    + apply Forall_forall. intros r Hr. apply list_elem_of_In, filter_In in Hr as [Hr _]. apply list_elem_of_In in Hr. by apply (proj1 (Forall_forall _ _) Hq).
  - intros H. by apply (serve_times_ok final write _ _ _ (conj Hl (conj Hq Hs))) in H as [H _].
Qed.

(** A download session uploads verified data only, and never more than it agreed
    to.  Whatever requests, cancellations and drains come while pieces are only added,
    the queue holds at most 32 requests; every message sent is the block of a request
    inside a verified piece, of at most 128 KiB, as it is read from storage; and a
    drain sends at most two. *)
Theorem uploads_verified final ops st :
  (forall have p o l, Asked have p o l ∈ ops -> 0 <= p /\ forall i, 0 <= i -> bf_has have i = true -> bf_has final i = true) ->
  try_fold upload_step ([], [], 0) ops = Ok st ->
  len st.1.1 <= MAX_INBOUND_SERVE_QUEUE /\ Forall (served final) st.1.2 /\
  forall write st', upload_step st (Drain write) = Ok st' -> len st'.1.2 <= len st.1.2 + 2.
Proof.
  intros Hops H. assert (uploads_ok final st) as Hst.
  { assert (uploads_ok final ([], [], 0)) as H0 by (split; [by vm_compute|split; constructor]).
    refine (try_fold_inv (uploads_ok final) _ _ _ _ _ H0 H). intros st1 op st2 Hop H1 H2.
    eapply upload_step_ok; [exact H1| |exact H2]. intros have p o l ->. by eapply Hops. }
  split; [apply Hst|]. split; [apply Hst|]. intros write st' Hd. by apply (serve_times_ok final write _ _ _ Hst) in Hd as [_ Hd].
Qed.
End uploads.

Lemma uploads_verified_witness :
  let read p o l := inl (replicate (Z.to_nat l) x61) in
  let have := bf_set (bf_new 8) 2 in
  forall st, try_fold (upload_step read 8 (fun _ => 20)) ([], [], 0)
    [Asked have 2 0 3; Asked have 3 0 3; Asked have 2 18 3; Cancelled 2 9 9; Drain (fun _ _ => None)] = Ok st ->
  Forall (served read 8 (fun _ => 20) have) st.1.2 /\ st.1.2 = [Piece 2 0 [x61; x61; x61]].
Proof.
  intros read have st H.
  destruct (fun Hops => uploads_verified read 8 (fun _ => 20) have _ st Hops H) as (_ & Hs & _).
  { intros h p o l Hin. repeat (apply elem_of_cons in Hin as [Hin|Hin]; [first [discriminate Hin|by injection Hin as -> -> -> ->]|]). by apply not_elem_of_nil in Hin. }
  split; [exact Hs|]. vm_compute in H. by injection H as <-.
Defined.

(** ** Announcing *)

Lemma bf_set_len f i : len (bf_bytes (bf_set f i)) = len (bf_bytes f).
Proof. apply update_byte_len. Qed.

(** New pieces are announced in order, at most 64 at a time and each once.  The
    messages of one call are the [Have]s of the lowest 64 pieces that are verified and
    not announced yet; those are then announced, and nothing else. *)
Theorem announces_lowest snapshot announced (n : nat) sent :
  Z.of_nat n <= 2 ^ 32 -> Z.of_nat n <= 8 * len (bf_bytes announced) ->
  let fresh := List.filter (fun i => bf_has snapshot i && negb (bf_has announced i)) (seqZ 0 (Z.of_nat n)) in
  exists announced', announce_new_verified_pieces (fun _ _ => None) snapshot announced (Z.of_nat n) sent = Ok (announced', sent ++ map Have (take 64 fresh), len (take 64 fresh)) /\
    forall j, 0 <= j -> bf_has announced' j = bf_has announced j || bool_decide (j ∈ take 64 fresh).
Proof.
  intros H32 Hlen. cbv zeta. unfold announce_new_verified_pieces.
  assert (exists announced', try_fold (announce_step (fun _ _ => None) snapshot) (announced, sent, 0) (seqZ 0 (Z.of_nat n)) =
    Ok (announced', sent ++ map Have (take 64 (List.filter (fun i => bf_has snapshot i && negb (bf_has announced i)) (seqZ 0 (Z.of_nat n)))),
        len (take 64 (List.filter (fun i => bf_has snapshot i && negb (bf_has announced i)) (seqZ 0 (Z.of_nat n))))) /\
    len (bf_bytes announced') = len (bf_bytes announced) /\
    forall j, 0 <= j -> bf_has announced' j = bf_has announced j || bool_decide (j ∈ take 64 (List.filter (fun i => bf_has snapshot i && negb (bf_has announced i)) (seqZ 0 (Z.of_nat n)))))
    as (a & Ha & _ & Hj); [|by exists a].
  induction n as [|n IH].
  - exists announced. split; [by rewrite app_nil_r|]. split; [done|]. intros j Hj. rewrite bool_decide_eq_false_2, orb_false_r; [done|]. by intros ?%not_elem_of_nil.
  - destruct (IH ltac:(lia) ltac:(lia)) as (a & Ha & Hla & Hj). clear IH. rewrite seqZ_S, try_fold_app, Ha, bind_ret, List.filter_app, Z.add_0_l. cbn [try_fold List.filter].
    set (fresh := List.filter _ (seqZ 0 (Z.of_nat n))) in *. unfold announce_step.
    assert (bf_has a (Z.of_nat n) = bf_has announced (Z.of_nat n)) as ->.
    { rewrite Hj by lia. rewrite bool_decide_eq_false_2, orb_false_r; [done|]. intros Hin%elem_of_take. destruct Hin as (i & Hin & _).
      apply list_elem_of_lookup_2, list_elem_of_In, filter_In in Hin as [Hin _]. apply list_elem_of_In, elem_of_seqZ in Hin. lia. }
    destruct (Z.ltb_spec (len (take 64 fresh)) 64) as [Hlt|Hge]; cbn [andb].
    + assert (length fresh < 64)%nat as Hl by (unfold len in Hlt; rewrite length_take in Hlt; lia).
      destruct (bf_has snapshot (Z.of_nat n) && negb (bf_has announced (Z.of_nat n))) eqn:E.
      * rewrite (proj2 (Z.leb_le (Z.of_nat n) u32_max)) by (unfold u32_max; lia). cbn [ok_or]. unfold send. rewrite !bind_ret.
        rewrite !(take_ge fresh), (take_ge (fresh ++ _)) by (rewrite ?length_app; cbn; lia). exists (bf_set a (Z.of_nat n)).
        split; [by rewrite map_app, len_app, app_assoc|]. split; [by rewrite bf_set_len|]. intros j Hj0. rewrite bf_set_has by lia. rewrite Hj by done.
        rewrite (take_ge fresh) by lia. rewrite <- orb_assoc. f_equal. destruct (Z.eqb_spec (Z.of_nat n) j) as [->|Hne].
        -- rewrite orb_true_r. symmetry. apply bool_decide_eq_true_2. set_solver.
        -- rewrite orb_false_r. apply bool_decide_ext. set_solver.
      * rewrite app_nil_r. by exists a.
    + assert (64 <= length fresh)%nat as Hl by (unfold len in Hge; rewrite length_take in Hge; lia).
      rewrite take_app_le by lia. by exists a.
Qed.

Lemma announces_lowest_witness :
  let snapshot := mkPieceBitfield [x0f; x80] in
  let fresh := List.filter (fun i => bf_has snapshot i && negb (bf_has (bf_set (bf_new 12) 5) i)) (seqZ 0 12) in
  exists a, announce_new_verified_pieces (fun _ _ => None) snapshot (bf_set (bf_new 12) 5) 12 [Interested] = Ok (a, Interested :: map Have (take 64 fresh), len (take 64 fresh)) /\
    fresh = [4; 6; 7; 8].
Proof.
  intros snapshot fresh. destruct (announces_lowest snapshot (bf_set (bf_new 12) 5) 12 [Interested] ltac:(lia) ltac:(by vm_compute)) as (a & Ha & _).
  exists a. split; [exact Ha|by vm_compute].
Defined.

(** ** Selections *)

Lemma max_of_spec l : match max_of l with None => l = [] | Some m => m ∈ l /\ forall x, x ∈ l -> x <= m end.
Proof.
  induction l as [|x l IH] using rev_ind; [done|]. unfold max_of in *. rewrite foldl_app. cbn [foldl]. destruct (foldl _ None l) as [m|].
  - destruct IH as [Hm Hmax]. split; [destruct (Z.max_spec m x) as [[_ ->]|[_ ->]]; set_solver|].
    intros y [Hy| ->%list_elem_of_singleton]%elem_of_app; [apply Hmax in Hy|]; lia.
  - subst l. split; [by apply list_elem_of_singleton|]. intros y ->%list_elem_of_singleton. lia.
Qed.

(** A selection whose count is that of its wanted pieces. *)
Definition counts_wanted (s : PieceSelection) : Prop := target_count s = len (List.filter (fun p => bool_decide (is_Some p)) (priorities s)).

Lemma imap_filter_len {A} (f : A -> bool) (l : list A) k :
  len (List.filter (fun e : Z * A => f e.2) (imap (fun i a => (k + Z.of_nat i, a)) l)) = len (List.filter f l).
Proof.
  revert k. induction l as [|a l IH]; intros k; [done|]. rewrite imap_from_cons. cbn [List.filter snd]. destruct (f a); rewrite ?len_cons, IH; done.
Qed.

Lemma complete_remaining s h : counts_wanted s -> selection_complete s h = (selection_remaining s h =? 0).
Proof.
  intros Hc. unfold selection_complete, selection_remaining.
  assert (forall l : list (Z * option Z), len (List.filter (fun e => match e.2 with Some _ => negb (bf_has h e.1) | None => false end) l) = 0 <->
    forallb (fun e => match e.2 with None => true | Some _ => bf_has h e.1 end) l = true) as Hl.
  { induction l as [|[i o] l IH]; [done|]. cbn [List.filter forallb fst snd]. destruct o as [p|]; cbn [andb]; [|done].
    destruct (bf_has h i); cbn [negb andb]; [done|]. rewrite len_cons. pose proof (len_nonneg (List.filter (fun e : Z * option Z => match e.2 with Some _ => negb (bf_has h e.1) | None => false end) l)). split; [lia|done]. }
  specialize (Hl (enumerate (priorities s))). destruct (Z.eqb_spec (target_count s) 0) as [E|E].
  - symmetry. apply Z.eqb_eq. apply Hl. rewrite Hc in E. apply len_0 in E.
    rewrite enumerate_from. generalize 0. revert E. generalize (priorities s). induction l as [|o l IH]; intros E k; [done|]. rewrite imap_from_cons.
    cbn [List.filter forallb snd fst] in *. destruct o; [done|]. cbn [andb]. by apply IH.
  - destruct (forallb _ _) eqn:Ef.
    + symmetry. by apply Z.eqb_eq, Hl.
    + symmetry. apply Z.eqb_neq. intros H. apply Hl in H. congruence.
Qed.

(** A selection of files selects exactly the pieces that hold bytes of them.  A piece
    is included when some file with bytes in it is wanted and not of the lowest
    priority; its priority is the greatest of those files'; and the selection is
    complete exactly when no included piece is missing. *)
Theorem selection_exact meta fps wanted s :
  len fps = len (files meta) -> len wanted = len (files meta) -> from_files meta fps wanted = Ok s ->
  (forall h, selection_complete s h = (selection_remaining s h =? 0)) /\
  forall piece slices, 0 <= piece < meta_piece_count meta -> piece_file_ranges meta piece = Ok slices ->
    let chosen slice p := slice ∈ slices /\ index fps (file_index slice) = Ok p /\ index wanted (file_index slice) = Ok true /\ p <> Unwanted in
    (includes s piece = true <-> exists slice p, chosen slice p) /\
    (forall slice p, chosen slice p -> file_weight p <= selection_priority s piece) /\
    (includes s piece = true -> exists slice p, chosen slice p /\ selection_priority s piece = file_weight p).
Proof.
  intros H1 H2. unfold from_files. rewrite H1, H2, !Z.eqb_refl. cbn [negb orb]. rewrite bind_Ok. intros (ps & Hps & [= <-]).
  split; [intros h; by apply complete_remaining|]. intros piece slices Hp Hsl. cbv zeta.
  apply mapM_Ok in Hps. pose proof (Forall2_lookup_l _ _ _ (Z.to_nat piece) piece Hps) as H. rewrite lookup_seqZ in H.
  destruct H as (w & Hw & Hpw); [split; [lia|]; rewrite Z2Nat.id; lia|]. unfold piece_weight in Hpw. rewrite Hsl, bind_ret in Hpw. apply bind_Ok in Hpw as (ws & Hws & [= <-]).
  assert (forall x, x ∈ omap id ws <-> exists slice p, (slice ∈ slices /\ index fps (file_index slice) = Ok p /\ index wanted (file_index slice) = Ok true /\ p <> Unwanted) /\ x = file_weight p) as Hin.
  { intros x. rewrite list_elem_of_omap. setoid_rewrite list_elem_of_lookup. apply mapM_Ok in Hws. split.
    - intros (o & [i Hi] & Ho). cbn in Ho. subst o. destruct (Forall2_lookup_r _ _ _ i _ Hws Hi) as (slice & Hs & Hsw).
      unfold slice_weight in Hsw. apply bind_Ok in Hsw as (p & Ep & Hsw). apply bind_Ok in Hsw as (b & Eb & Hsw). injection Hsw as Hsw.
      destruct b; [|done]. cbn [andb] in Hsw. destruct (bool_decide (p = Unwanted)) eqn:Eu; [done|]. injection Hsw as <-. apply bool_decide_eq_false in Eu.
      exists slice, p. split; [|done]. split; [by exists i|done].
    - intros (slice & p & ([i Hi] & Ep & Eb & Hn) & ->). destruct (Forall2_lookup_l _ _ _ i _ Hws Hi) as (o & Ho & Hsw). exists o. split; [by exists i|].
      unfold slice_weight in Hsw. rewrite Ep, bind_ret, Eb, bind_ret in Hsw. rewrite bool_decide_eq_false_2 in Hsw by done. by injection Hsw as <-. }
  unfold includes, selection_priority, get. cbn [priorities]. rewrite (proj2 (Z.ltb_ge piece 0)), Hw by lia.
  pose proof (max_of_spec (omap id ws)) as Hm. destruct (max_of (omap id ws)) as [m|].
  - destruct Hm as [Hm1 Hm2]. apply Hin in Hm1 as (slice & p & Hc & ->). split; [split; [intros _; by exists slice, p|done]|]. split.
    + intros slice' p' Hc'. apply Hm2. apply Hin. by exists slice', p'.
    + intros _. by exists slice, p.
  - split; [split; [done|]|split; [|done]].
    + intros (slice & p & Hc). assert (file_weight p ∈ omap id ws) as Hx by (apply Hin; by exists slice, p). rewrite Hm in Hx. by apply not_elem_of_nil in Hx.
    + intros slice p Hc. assert (file_weight p ∈ omap id ws) as Hx by (apply Hin; by exists slice, p). rewrite Hm in Hx. by apply not_elem_of_nil in Hx.
Qed.

Lemma selection_exact_witness :
  exists s, from_files two_files [Unwanted; High] [true; true] = Ok s /\
    selection_complete s (bf_new (meta_piece_count two_files)) = (selection_remaining s (bf_new (meta_piece_count two_files)) =? 0).
Proof.
  destruct (from_files two_files [Unwanted; High] [true; true]) as [s| | |] eqn:E; [|by vm_compute in E..].
  exists s. split; [done|]. apply (selection_exact two_files [Unwanted; High] [true; true] s); [done|done|exact E].
Defined.
