(* ===== verification/Candidates.v ===== *)
(** * Peer candidates: [crates/swarmotterd/src/engine/discovery.rs], [peer_session.rs], [parallel.rs]

    Which discovered peers a download tries and in which order, and what it keeps of
    its trackers' answers.  Asking a tracker is a parameter.  The theorems: candidates
    are exactly the admitted peers that are not cooling down, families alternate,
    rotation reaches every candidate, peer exchange stays within its cap, and trackers
    are asked tier by tier up to the first success. *)

From S2P Require Import Prelude Text Bits Addr Hash Bencode Meta UdpTracker Tracker PeerFilter Pieces.

Local Open Scope byte_scope.
Local Open Scope Z_scope.

#[export] Instance BlockReason_eq_dec : EqDecision PeerAdmissionDecision.
Proof. solve_decision. Defined.

Definition is_ipv6 (p : SocketAddr) : bool := ip_is_ipv6 (ip p).

(** [peer_filter.admit_ip(ip).is_allowed()]; the counters do not change the decision. *)
Definition admits (f : PeerFilter) (a : IpAddr) : bool :=
  match admit_ip f counters_default a with Ok (d, _) => is_allowed d | _ => false end.

Definition peer_allowed_by_config (peer : SocketAddr) (allow_ipv6 : bool) : bool :=
  negb (port peer =? 0) && (allow_ipv6 || negb (is_ipv6 peer)).

(** ** Backoff.  Instants are nanoseconds. *)

Definition PEER_IDLE_BACKOFF : Z := 20 * 10 ^ 9.
Definition PEER_FAILURE_BACKOFF : Z := 120 * 10 ^ 9.
Abbreviation backoffs := (gmap SocketAddr Z).

Definition peer_is_backed_off (backoff : backoffs) (peer : SocketAddr) (now : Z) : bool :=
  match backoff !! peer with Some until => now <? until | None => false end.
Definition backoff_peer_for (backoff : backoffs) (peer : SocketAddr) (duration now : Z) : backoffs :=
  <[peer := now + duration]> backoff.
Definition backoff_peer (backoff : backoffs) (peer : SocketAddr) (now : Z) : backoffs :=
  backoff_peer_for backoff peer PEER_IDLE_BACKOFF now.
Definition backoff_failed_peer (backoff : backoffs) (peer : SocketAddr) (now : Z) : backoffs :=
  backoff_peer_for backoff peer PEER_FAILURE_BACKOFF now.
Definition prune_peer_backoff (backoff : backoffs) (now : Z) : backoffs := filter (fun e => now < e.2) backoff.
Definition reset_failure_backoff_for_discovered (refreshed : list SocketAddr) (bad_peers : backoffs) : backoffs :=
  foldl (fun bad p => delete p bad) bad_peers refreshed.

(** ** Classification *)

Record PeerCandidateCounts : Type := mkCounts { discovered : Z; eligible : Z; filtered : Z; failed : Z; backed_off : Z }.

Definition classify_step (bad_peers peer_backoff : backoffs) (allow_ipv6 : bool) (f : PeerFilter) (now : Z)
    (st : list SocketAddr * PeerCandidateCounts) (peer : SocketAddr) : list SocketAddr * PeerCandidateCounts :=
  let '(out, mkCounts d e fi fa b) := st in
  if negb (peer_allowed_by_config peer allow_ipv6) || negb (admits f (ip peer)) then (out, mkCounts d e (fi + 1) fa b)
  else if peer_is_backed_off bad_peers peer now then (out, mkCounts d e fi (fa + 1) b)
  else if peer_is_backed_off peer_backoff peer now then (out, mkCounts d e fi fa (b + 1))
  else (out ++ [peer], mkCounts d (e + 1) fi fa b).
Definition classify_peer_candidates (discovered : list SocketAddr) (bad_peers peer_backoff : backoffs) (allow_ipv6 : bool)
    (f : PeerFilter) (now : Z) : list SocketAddr * PeerCandidateCounts :=
  foldl (classify_step bad_peers peer_backoff allow_ipv6 f now) ([], mkCounts (len discovered) 0 0 0 0) discovered.

Definition no_usable_peer_candidates (c : PeerCandidateCounts) : bool :=
  (discovered c =? 0) || ((eligible c =? 0) && (discovered c <=? saturating_add usize_max (filtered c) (failed c))).

Definition peer_scheduler_reason (c : PeerCandidateCounts) : option string :=
  if discovered c =? 0 then Some "no peers discovered"%string
  else if eligible c =? 0 then
    if (0 <? filtered c) && (failed c =? 0) && (backed_off c =? 0) then Some "all discovered peers filtered by configuration"%string
    else if (0 <? failed c) || (0 <? backed_off c) then
      Some "all discovered peers are cooling down after failures or no progress"%string
    else Some "no eligible peers after scheduler filtering"%string
  else if eligible c =? 1 then Some "one eligible peer; using serial fallback when parallel round is idle"%string
  else None.

(** ** Orders *)

Fixpoint interleave (fuel : nat) (v4 v6 : list SocketAddr) : list SocketAddr :=
  match fuel with
  | O => []
  | S fuel => match v4, v6 with
              | [], [] => []
              | _, _ => take 1 v4 ++ take 1 v6 ++ interleave fuel (drop 1 v4) (drop 1 v6)
              end
  end.
Definition balance_peer_families (peers : list SocketAddr) : list SocketAddr :=
  if len peers <? 2 then peers
  else
    let ipv6 := List.filter is_ipv6 peers in
    let ipv4 := List.filter (fun p => negb (is_ipv6 p)) peers in
    match ipv4, ipv6 with
    | [], _ | _, [] => peers
    | _, _ => interleave (length peers) ipv4 ipv6
    end.

(** The picked peers and the next cursor. *)
Definition rotated_peer_candidates (eligible : list SocketAddr) (cursor limit : Z) : outcome (list SocketAddr * Z) :=
  if bool_decide (eligible = []) || (limit =? 0) then Ok ([], cursor)
  else
    let start := cursor mod len eligible in
    let take := Z.min (len eligible) limit in
    out ← mapM (fun offset => index eligible ((start + offset) mod len eligible)) (seqZ 0 take);
    Ok (out, (start + take) mod len eligible).

(** ** Sets of peers *)

Definition dedupe_peers (peers : list SocketAddr) : list SocketAddr :=
  (foldl (fun st p => if bool_decide (p ∈ st.2) then st else (st.1 ++ [p], {[p]} ∪ st.2)) ([], ∅ : gset SocketAddr) peers).1.
Definition push_peer (found : list SocketAddr) (p : SocketAddr) : list SocketAddr :=
  if bool_decide (p ∈ found) then found else found ++ [p].
Definition merge_unique_peers (found peers : list SocketAddr) : list SocketAddr * Z :=
  let merged := foldl push_peer found peers in (merged, saturating_sub (len merged) (len found)).

Fixpoint add_pex_peers (found peers : list SocketAddr) (allow_ipv6 : bool) (f : PeerFilter) (max_peers : Z) : list SocketAddr :=
  match peers with
  | [] => found
  | peer :: peers =>
      if negb (peer_allowed_by_config peer allow_ipv6) then add_pex_peers found peers allow_ipv6 f max_peers
      else if negb (admits f (ip peer)) then add_pex_peers found peers allow_ipv6 f max_peers
      else if (0 <? max_peers) && (max_peers <=? len found) then found
      else add_pex_peers (push_peer found peer) peers allow_ipv6 f max_peers
  end.

(** Candidates of a round and the addresses seen; the flag tells whether the peer came in. *)
Definition push_parallel_candidate (candidates : list SocketAddr) (seen : gset SocketAddr) (peer : SocketAddr)
    (bad_peers peer_backoff : backoffs) (allow_ipv6 : bool) (f : PeerFilter) (now : Z)
  : bool * list SocketAddr * gset SocketAddr :=
  if negb (peer_allowed_by_config peer allow_ipv6) || negb (admits f (ip peer)) then (false, candidates, seen)
  else if peer_is_backed_off bad_peers peer now || peer_is_backed_off peer_backoff peer now then (false, candidates, seen)
  else if bool_decide (peer ∈ seen) then (false, candidates, seen)
  else (true, candidates ++ [peer], {[peer]} ∪ seen).
Definition merge_parallel_candidate_iter (candidates : list SocketAddr) (seen : gset SocketAddr) (peers : list SocketAddr)
    (bad_peers peer_backoff : backoffs) (allow_ipv6 : bool) (f : PeerFilter) (now : Z) : list SocketAddr * gset SocketAddr :=
  foldl (fun st peer => let '(_, c, s) := push_parallel_candidate st.1 st.2 peer bad_peers peer_backoff allow_ipv6 f now in (c, s))
    (candidates, seen) peers.
(** Candidates, seen addresses and the peers of this round's exchanges; what was
    exchanged is taken, so the pool is empty afterwards. *)
Definition merge_dynamic_parallel_candidates (candidates : list SocketAddr) (seen : gset SocketAddr) (discovered_pex pex_peers : list SocketAddr)
    (bad_peers peer_backoff : backoffs) (allow_ipv6 : bool) (f : PeerFilter) (now : Z)
  : list SocketAddr * gset SocketAddr * list SocketAddr :=
  foldl (fun st peer =>
           let '(c, s, d) := st in
           let '(new, c, s) := push_parallel_candidate c s peer bad_peers peer_backoff allow_ipv6 f now in
           (c, s, if (new : bool) then d ++ [peer] else d))
    (candidates, seen, discovered_pex) pex_peers.

(** ** Answers of trackers *)

Inductive TrackerStatus : Type := NotContacted | Working | Updating | StatusOk | Error | DisabledTracker.
#[export] Instance TrackerStatus_eq_dec : EqDecision TrackerStatus.
Proof. solve_decision. Defined.

Record TrackerAnnounceSnapshot : Type := mkSnapshot {
  status : TrackerStatus; explicit_failure : bool; snap_seeders : Z; snap_leechers : Z; snap_downloads : Z;
  last_error : option text; last_message : option text; last_announce : option Z }.

Record TrackerAnnounceOutcome : Type := mkOutcome {
  out_peers : list SocketAddr; out_ok : bool; message : option text; failures : Z;
  tracker_results : gmap text TrackerAnnounceSnapshot; interval_seconds : option Z }.
Definition outcome_default : TrackerAnnounceOutcome := mkOutcome [] false None 0 ∅ None.

Definition socket_addr (p : PeerAddr) : SocketAddr := mkSocketAddr (peer_ip p) (peer_port p).
Definition count_failure (n : Z) : Z := saturating_add u32_max n 1.
Definition colon (url rest : text) : text := url ++ bytes_of ": " ++ rest.

(** What a finished announce task left: its URL with the answer or the error, or a task
    that did not finish.  [error_text] is the [Display] of an error. *)
Abbreviation joined_announce := (text * (AnnounceResponse + CoreError) + text)%type.

Section announce.
Variable error_text : CoreError -> text.

Definition effective_interval (resp : AnnounceResponse) : Z :=
  clamp 30 86400 (Z.max (interval resp) (default 0 (min_interval resp))).
Definition announced_text (url : text) (resp : AnnounceResponse) : text :=
  colon url (bytes_of "announce returned " ++ print_dec (len (peers resp)) ++ bytes_of " peers (seeders=" ++
             print_dec (seeders resp) ++ bytes_of ", leechers=" ++ print_dec (leechers resp) ++ bytes_of ")").

Definition record_tracker_joined_result (o : TrackerAnnounceOutcome) (joined : joined_announce) (announce_at : Z) : TrackerAnnounceOutcome :=
  match joined with
  | inl (url, inl resp) =>
      let interval := Some (Z.max (default 0 (interval_seconds o)) (effective_interval resp)) in
      match failure_reason resp with
      | Some fr =>
          mkOutcome (out_peers o) (out_ok o) (if out_ok o then message o else Some (colon url fr)) (count_failure (failures o))
            (<[url := mkSnapshot Error true (seeders resp) (leechers resp) 0 (Some fr) None (Some announce_at)]> (tracker_results o)) interval
      | None =>
          let msg := announced_text url resp in
          mkOutcome (out_peers o ++ map socket_addr (peers resp)) true
            (if bool_decide (peers resp = []) then match message o with None => Some msg | Some m => Some m end else Some msg) (failures o)
            (<[url := mkSnapshot StatusOk false (seeders resp) (leechers resp) 0 None (Some msg) (Some announce_at)]> (tracker_results o)) interval
      end
  | inl (url, inr e) =>
      mkOutcome (out_peers o) (out_ok o) (if out_ok o then message o else Some (colon url (error_text e))) (count_failure (failures o))
        (<[url := mkSnapshot Error false 0 0 0 (Some (error_text e)) None (Some announce_at)]> (tracker_results o)) (interval_seconds o)
  | inr e =>
      mkOutcome (out_peers o) (out_ok o) (if out_ok o then message o else Some (bytes_of "tracker announce task failed: " ++ e))
        (count_failure (failures o)) (tracker_results o) (interval_seconds o)
  end.

Definition no_trackers : TrackerAnnounceOutcome := mkOutcome [] false (Some (bytes_of "no trackers configured")) 0 ∅ None.
Definition in_progress (announce_at : Z) : TrackerAnnounceSnapshot :=
  mkSnapshot Updating false 0 0 0 None (Some (bytes_of "announce in progress")) (Some announce_at).
(** [arrivals] are the finished tasks, one per tracker, in the order they finish. *)
Definition announce_trackers (trackers : list text) (arrivals : list joined_announce) (announce_at : Z) : TrackerAnnounceOutcome :=
  if bool_decide (trackers = []) then no_trackers
  else
    let o := foldl (fun o url => mkOutcome (out_peers o) (out_ok o) (message o) (failures o)
                                   (<[url := in_progress announce_at]> (tracker_results o)) (interval_seconds o))
               outcome_default trackers in
    let o := foldl (fun o joined => record_tracker_joined_result o joined announce_at) o arrivals in
    mkOutcome (dedupe_peers (out_peers o)) (out_ok o) (message o) (failures o) (tracker_results o) (interval_seconds o).

Definition merge_tracker_outcome (a o : TrackerAnnounceOutcome) : TrackerAnnounceOutcome :=
  mkOutcome (out_peers a ++ out_peers o) (out_ok a || out_ok o)
    (if out_ok o || bool_decide (message a = None) then message o else message a)
    (saturating_add u32_max (failures a) (failures o))
    (tracker_results o ∪ tracker_results a)
    (match interval_seconds o with
     | Some i => Some (match interval_seconds a with None => i | Some current => Z.min current i end)
     | None => interval_seconds a
     end).

Variable ask : text -> joined_announce.

Fixpoint announce_until (urls : list text) (announce_at : Z) (aggregate : TrackerAnnounceOutcome) : TrackerAnnounceOutcome :=
  match urls with
  | [] => aggregate
  | url :: urls =>
      let o := announce_trackers [url] [ask url] announce_at in
      let aggregate := merge_tracker_outcome aggregate o in
      if out_ok o then aggregate else announce_until urls announce_at aggregate
  end.
(** Tier after tier, tracker after tracker, until one succeeds. *)
Definition announce_tracker_tiers (tiers : list (list text)) (announce_at : Z) : TrackerAnnounceOutcome :=
  if bool_decide (tiers = []) then no_trackers
  else
    let o := announce_until (concat tiers) announce_at outcome_default in
    mkOutcome (dedupe_peers (out_peers o)) (out_ok o) (message o) (failures o) (tracker_results o) (interval_seconds o).
End announce.

(** ** What the engine keeps *)

Record EnginePeerHealth : Type := mkPeerHealth { last_valid_block : option Z; useful_recently : bool }.
Inductive TrackerScrapeStatus : Type := ScrapeNotContacted | ScrapeUpdating | ScrapeOk | ScrapeError | ScrapeUnsupported.
Record TrackerScrapeSnapshot : Type := mkScrape {
  scrape_status : TrackerScrapeStatus; scrape_seeders : option Z; scrape_leechers : option Z; scrape_downloads : option Z;
  scrape_error : option text; last_scrape : option Z }.
Definition scrape_default : TrackerScrapeSnapshot := mkScrape ScrapeNotContacted None None None None None.

(** The part of the engine's state that discovery and its verdicts use. *)
Record EngineState : Type := mkEngine {
  finished : bool; stopped_by_command : bool;
  tracker_ok : bool; tracker_swarm_populated : bool; tracker_message : option text;
  tracker_announces : gmap text TrackerAnnounceSnapshot; tracker_scrapes : gmap text TrackerScrapeSnapshot;
  engine_last_announce : option Z; tracker_interval_seconds : Z; tracker_failures_recent : Z; tracker_last_ok : option Z;
  engine_valid_block : option Z; block_last_seen : option Z; webseed_last_seen : option Z;
  dht_discovery_ok : bool; pex_discovery_ok : bool; eligible_peers : Z; peer_health : gmap SocketAddr EnginePeerHealth }.

Definition populated (o : TrackerAnnounceOutcome) : bool :=
  existsb (fun e => bool_decide (status e.2 = StatusOk) && ((0 <? snap_seeders e.2) || (0 <? snap_leechers e.2))) (map_to_list (tracker_results o)).
Definition record_tracker_announce_outcome (s : EngineState) (o : TrackerAnnounceOutcome) (now_secs now : Z) : EngineState :=
  mkEngine (finished s) (stopped_by_command s)
    (out_ok o) (if out_ok o then populated o else tracker_swarm_populated s) (message o)
    (tracker_results o ∪ tracker_announces s) (tracker_scrapes s)
    (Some now_secs) (default (tracker_interval_seconds s) (interval_seconds o))
    (let n := if out_ok o && (failures o =? 0) then 0 else tracker_failures_recent s in
     if 0 <? failures o then saturating_add u32_max n (failures o) else n)
    (if out_ok o then Some now else tracker_last_ok s)
    (engine_valid_block s) (block_last_seen s) (webseed_last_seen s)
    (dht_discovery_ok s) (pex_discovery_ok s) (eligible_peers s) (peer_health s).

Definition PEER_REFRESH_INTERVAL : Z := 30.
Definition tracker_announce_due (no_tiers : bool) (s : EngineState) (now_secs : Z) : bool :=
  if no_tiers then false
  else match engine_last_announce s with
       | None => true
       | Some last => Z.max (tracker_interval_seconds s) PEER_REFRESH_INTERVAL <=? saturating_sub now_secs last
       end.

(** Whether the engine's error is terminal; [tracker_message] goes into its text. *)
Definition terminal_tracker_error (s : EngineState) : bool :=
  if finished s || stopped_by_command s || tracker_ok s || bool_decide (is_Some (tracker_last_ok s)) || bool_decide (tracker_announces s = ∅) then false
  else if negb (forallb (fun e => bool_decide (status e.2 = Error) && explicit_failure e.2) (map_to_list (tracker_announces s))) then false
  else
    let peer_payload_received :=
      bool_decide (is_Some (engine_valid_block s)) || bool_decide (is_Some (block_last_seen s)) ||
      existsb (fun e => bool_decide (is_Some (last_valid_block e.2)) || useful_recently e.2) (map_to_list (peer_health s)) in
    negb (dht_discovery_ok s || pex_discovery_ok s || bool_decide (is_Some (webseed_last_seen s)) || peer_payload_received ||
          (0 <? eligible_peers s)).

(** ** Scrapes *)

Definition set_scrapes (s : EngineState) (scrapes : gmap text TrackerScrapeSnapshot) (fails : Z) : EngineState :=
  mkEngine (finished s) (stopped_by_command s) (tracker_ok s) (tracker_swarm_populated s) (tracker_message s)
    (tracker_announces s) scrapes (engine_last_announce s) (tracker_interval_seconds s) fails (tracker_last_ok s)
    (engine_valid_block s) (block_last_seen s) (webseed_last_seen s) (dht_discovery_ok s) (pex_discovery_ok s) (eligible_peers s) (peer_health s).
Definition edit_scrape (s : EngineState) (url : text) (f : TrackerScrapeSnapshot -> TrackerScrapeSnapshot) (fails : Z) : EngineState :=
  set_scrapes s (<[url := f (default scrape_default (tracker_scrapes s !! url))]> (tracker_scrapes s)) fails.

Definition dedupe_urls (urls : list text) : list text :=
  (foldl (fun st u => if bool_decide (u ∈ st.2) then st else (st.1 ++ [u], {[u]} ∪ st.2)) ([], ∅ : gset text) urls).1.

Definition start_scrape (s : EngineState) (url : text) : EngineState :=
  edit_scrape s url (fun p => mkScrape ScrapeUpdating (scrape_seeders p) (scrape_leechers p) (scrape_downloads p) None (last_scrape p))
    (tracker_failures_recent s).
(** A finished scrape: its answer, an error, or a task that did not finish; the last two
    with the text that is kept. *)
Definition omitted `{HexCodec} (info_hash : PeerInfoHash) : text :=
  bytes_of "tracker scrape omitted requested info hash " ++ to_hex (wire_hash info_hash).
Definition finish_scrape `{HexCodec} (info_hash : PeerInfoHash) (attempted_at : Z) (s : EngineState)
    (result : text * (ScrapeOutcome + text)) : EngineState :=
  let '(url, result) := result in
  match result with
  | inl Unsupported =>
      edit_scrape s url (fun p => mkScrape ScrapeUnsupported (scrape_seeders p) (scrape_leechers p) (scrape_downloads p) None (Some attempted_at))
        (tracker_failures_recent s)
  | inl (Success counts) =>
      match counts !! info_hash with
      | Some c => edit_scrape s url (fun _ => mkScrape ScrapeOk (Some (sc_seeders c)) (Some (sc_leechers c)) (Some (sc_downloads c)) None (Some attempted_at))
                    (tracker_failures_recent s)
      | None => edit_scrape s url (fun p => mkScrape ScrapeError (scrape_seeders p) (scrape_leechers p) (scrape_downloads p) (Some (omitted info_hash)) (Some attempted_at))
                  (count_failure (tracker_failures_recent s))
      end
  | inr error =>
      edit_scrape s url (fun p => mkScrape ScrapeError (scrape_seeders p) (scrape_leechers p) (scrape_downloads p) (Some error) (Some attempted_at))
        (count_failure (tracker_failures_recent s))
  end.
Definition run_tracker_scrapes `{HexCodec} (s : EngineState) (info_hash : PeerInfoHash) (tracker_urls : list text)
    (arrivals : list (text * (ScrapeOutcome + text))) (attempted_at : Z) : EngineState :=
  let urls := dedupe_urls tracker_urls in
  if bool_decide (urls = []) then s
  else foldl (finish_scrape info_hash attempted_at) (foldl start_scrape s urls) arrivals.

(** ** Classification is exact *)

Section classify.
Variables (bad_peers peer_backoff : backoffs) (allow_ipv6 : bool) (f : PeerFilter) (now : Z).

Definition refused (p : SocketAddr) : bool := negb (peer_allowed_by_config p allow_ipv6) || negb (admits f (ip p)).
Definition failing (p : SocketAddr) : bool := negb (refused p) && peer_is_backed_off bad_peers p now.
Definition idle (p : SocketAddr) : bool := negb (refused p) && negb (failing p) && peer_is_backed_off peer_backoff p now.
Definition usable (p : SocketAddr) : bool := negb (refused p) && negb (failing p) && negb (idle p).
Definition count_of (q : SocketAddr -> bool) (ps : list SocketAddr) : Z := len (List.filter q ps).

Lemma failing_eq p : failing p = negb (refused p) && peer_is_backed_off bad_peers p now.
Proof. done. Qed.
Lemma idle_eq p : idle p = negb (refused p) && negb (peer_is_backed_off bad_peers p now) && peer_is_backed_off peer_backoff p now.
Proof. unfold idle, failing. by destruct (refused p), (peer_is_backed_off bad_peers p now). Qed.
Lemma usable_eq p : usable p = negb (refused p) && negb (peer_is_backed_off bad_peers p now) && negb (peer_is_backed_off peer_backoff p now).
Proof. unfold usable, idle, failing. by destruct (refused p), (peer_is_backed_off bad_peers p now), (peer_is_backed_off peer_backoff p now). Qed.

Lemma count_snoc q ps p : count_of q (ps ++ [p]) = count_of q ps + (if q p then 1 else 0).
Proof. unfold count_of. rewrite List.filter_app, len_app. cbn [List.filter]. by destruct (q p). Qed.

Lemma classify_spec d ps :
  foldl (classify_step bad_peers peer_backoff allow_ipv6 f now) ([], mkCounts d 0 0 0 0) ps =
    (List.filter usable ps, mkCounts d (count_of usable ps) (count_of refused ps) (count_of failing ps) (count_of idle ps)).
Proof.
  induction ps as [|p ps IH] using rev_ind; [done|]. rewrite foldl_app, IH. cbn [foldl classify_step]. fold (refused p).
  rewrite !count_snoc, List.filter_app. cbn [List.filter]. rewrite usable_eq, idle_eq, failing_eq.
  destruct (refused p), (peer_is_backed_off bad_peers p now), (peer_is_backed_off peer_backoff p now); cbn [negb andb]; by rewrite ?app_nil_r, ?Z.add_0_r.
Qed.

Lemma count_split ps : count_of usable ps + count_of refused ps + count_of failing ps + count_of idle ps = len ps.
Proof.
  induction ps as [|p ps IH] using rev_ind; [done|]. rewrite !count_snoc, len_app, usable_eq, idle_eq, failing_eq. change (len [p]) with 1.
  destruct (refused p), (peer_is_backed_off bad_peers p now), (peer_is_backed_off peer_backoff p now); cbn [negb andb]; lia.
Qed.
Lemma count_none q ps : count_of q ps = 0 <-> forallb (fun p => negb (q p)) ps = true.
Proof.
  induction ps as [|p ps IH] using rev_ind; [done|]. rewrite count_snoc, forallb_app, andb_true_iff, <- IH. cbn [forallb].
  pose proof (len_nonneg (List.filter q ps)) as Hn. unfold count_of in *. destruct (q p); cbn [negb andb]; [split; [lia|naive_solver]|naive_solver lia].
Qed.
End classify.

(** Every discovered peer is counted once, and a peer is a candidate exactly when
    the configuration and the peer filter admit it and it is not cooling down.
    Discovery is considered exhausted exactly when every discovered peer is refused
    or suppressed after a failure; one that only idles keeps the download waiting. *)
Theorem candidates_classified bad idle_peers v6 f now ps :
  len ps <= usize_max ->
  let '(out, c) := classify_peer_candidates ps bad idle_peers v6 f now in
  out = List.filter (fun p => peer_allowed_by_config p v6 && admits f (ip p) && negb (peer_is_backed_off bad p now) && negb (peer_is_backed_off idle_peers p now)) ps /\
  eligible c = len out /\ discovered c = len ps /\ eligible c + filtered c + failed c + backed_off c = len ps /\
  (no_usable_peer_candidates c = true <->
   forall p, p ∈ ps -> peer_allowed_by_config p v6 = false \/ admits f (ip p) = false \/ peer_is_backed_off bad p now = true).
Proof.
  intros Hlen. unfold classify_peer_candidates. rewrite classify_spec. cbn [eligible discovered filtered failed backed_off].
  pose proof (count_split bad idle_peers v6 f now ps) as Hs.
  split; [apply List.filter_ext; intros p; rewrite usable_eq; unfold refused; by destruct (peer_allowed_by_config p v6), (admits f (ip p)), (peer_is_backed_off bad p now), (peer_is_backed_off idle_peers p now)|].
  split; [done|]. split; [done|]. split; [done|]. unfold no_usable_peer_candidates. cbn [eligible discovered filtered failed].
  pose proof (len_nonneg (List.filter (usable bad idle_peers v6 f now) ps)). pose proof (len_nonneg (List.filter (refused v6 f) ps)).
  pose proof (len_nonneg (List.filter (failing bad v6 f now) ps)). pose proof (len_nonneg (List.filter (idle bad idle_peers v6 f now) ps)).
  unfold saturating_add. unfold count_of in *. rewrite Z.min_r by lia.
  transitivity (count_of (usable bad idle_peers v6 f now) ps = 0 /\ count_of (idle bad idle_peers v6 f now) ps = 0).
  { unfold count_of. rewrite orb_true_iff, andb_true_iff, !Z.eqb_eq, Z.leb_le. lia. }
  rewrite !count_none, !forallb_forall. setoid_rewrite <- list_elem_of_In. unfold usable, idle, failing, refused. split.
  - intros [Hu Hi] p Hp. specialize (Hu p Hp). specialize (Hi p Hp). cbv beta in *.
    destruct (peer_allowed_by_config p v6), (admits f (ip p)), (peer_is_backed_off bad p now), (peer_is_backed_off idle_peers p now); cbn in *; auto; discriminate.
  - intros Ha. split; intros p Hp; specialize (Ha p Hp); destruct Ha as [Ha|[Ha|Ha]]; rewrite Ha;
      by destruct (peer_allowed_by_config p v6), (admits f (ip p)), (peer_is_backed_off bad p now), (peer_is_backed_off idle_peers p now).
Qed.

Definition peer4 (a p : Z) : SocketAddr := mkSocketAddr (V4 a) p.
Lemma candidates_classified_witness :
  let '(out, c) := classify_peer_candidates [peer4 1 80; peer4 2 0; peer4 3 80; mkSocketAddr (V6 7) 80] {[peer4 3 80 := 9]} ∅ false filter_default 5 in
  out = [peer4 1 80] /\ eligible c + filtered c + failed c + backed_off c = 4.
Proof.
  pose proof (candidates_classified {[peer4 3 80 := 9]} ∅ false filter_default 5 [peer4 1 80; peer4 2 0; peer4 3 80; mkSocketAddr (V6 7) 80] ltac:(by vm_compute)) as H.
  destruct (classify_peer_candidates _ _ _ _ _ _) as [out c]. destruct H as (-> & _ & _ & -> & _). by vm_compute.
Defined.

(** ** Families alternate *)

Lemma interleave_perm fuel : forall v4 v6, (length v4 + length v6 <= fuel)%nat -> interleave fuel v4 v6 ≡ₚ v4 ++ v6.
Proof.
  induction fuel as [|fuel IH]; intros v4 v6 Hf; [by destruct v4, v6; cbn in Hf; try lia|].
  destruct v4 as [|a v4], v6 as [|b v6]; cbn [length] in Hf; cbn [interleave take drop app]; rewrite ?take_0, ?drop_0; cbn [app]; [done|..].
  - rewrite IH; [done|cbn; lia].
  - rewrite IH; [done|cbn; lia].
  - rewrite IH by lia. constructor. by rewrite Permutation_middle.
Qed.
Lemma interleave_filter (q : SocketAddr -> bool) fuel : forall v4 v6, (length v4 + length v6 <= fuel)%nat ->
  Forall (fun p => q p = false) v4 -> Forall (fun p => q p = true) v6 -> List.filter q (interleave fuel v4 v6) = v6.
Proof.
  induction fuel as [|fuel IH]; intros v4 v6 Hf H4 H6; [by destruct v4, v6; cbn in Hf; try lia|].
  destruct H4 as [|a v4 Ha H4], H6 as [|b v6 Hb H6]; cbn [length] in Hf; cbn [interleave take drop app]; rewrite ?take_0, ?drop_0; cbn [app List.filter];
    rewrite ?Ha, ?Hb; [done|..].
  - f_equal. apply IH; [cbn; lia|done|done].
  - apply IH; [cbn; lia|done|done].
  - f_equal. apply IH; [lia|done|done].
Qed.
Lemma interleave_filter_l (q : SocketAddr -> bool) fuel : forall v4 v6, (length v4 + length v6 <= fuel)%nat ->
  Forall (fun p => q p = true) v4 -> Forall (fun p => q p = false) v6 -> List.filter q (interleave fuel v4 v6) = v4.
Proof.
  induction fuel as [|fuel IH]; intros v4 v6 Hf H4 H6; [by destruct v4, v6; cbn in Hf; try lia|].
  destruct H4 as [|a v4 Ha H4], H6 as [|b v6 Hb H6]; cbn [length] in Hf; cbn [interleave take drop app]; rewrite ?take_0, ?drop_0; cbn [app List.filter];
    rewrite ?Ha, ?Hb; [done|..].
  - apply IH; [cbn; lia|done|done].
  - f_equal. apply IH; [cbn; lia|done|done].
  - f_equal. apply IH; [lia|done|done].
Qed.
Lemma interleave_at k : forall fuel v4 v6, (length v4 + length v6 <= fuel)%nat -> (k < length v4)%nat -> (k < length v6)%nat ->
  interleave fuel v4 v6 !! (2 * k)%nat = v4 !! k /\ interleave fuel v4 v6 !! (2 * k + 1)%nat = v6 !! k.
Proof.
  induction k as [|k IH]; intros [|fuel] [|a v4] [|b v6] Hf H4 H6; cbn [length] in *; try lia; cbn [interleave take drop app]; rewrite ?take_0, ?drop_0; cbn [app]; [done|].
  replace (2 * S k)%nat with (S (S (2 * k))) by lia. replace (S (S (2 * k)) + 1)%nat with (S (S (2 * k + 1))) by lia. apply IH; lia.
Qed.

Lemma filter_halves (q : SocketAddr -> bool) l : (length (List.filter (fun p => negb (q p)) l) + length (List.filter q l) = length l)%nat.
Proof. induction l as [|a l IH]; [done|]. cbn [List.filter length]. destruct (q a); cbn [negb length]; lia. Qed.
Lemma filter_Forall (q : SocketAddr -> bool) l : Forall (fun p => q p = true) (List.filter q l).
Proof. apply Forall_forall. intros p Hp%list_elem_of_In. by apply filter_In in Hp as [_ Hp]. Qed.
Lemma filter_negb_Forall (q : SocketAddr -> bool) l : Forall (fun p => q p = false) (List.filter (fun p => negb (q p)) l).
Proof. eapply Forall_impl; [apply filter_Forall|]. intros p H. by apply negb_true_iff in H. Qed.
Lemma filter_negb_perm (q : SocketAddr -> bool) l : List.filter (fun p => negb (q p)) l ++ List.filter q l ≡ₚ l.
Proof.
  induction l as [|a l IH]; [done|]. cbn [List.filter]. destruct (q a); cbn [negb app]; [|by rewrite IH]. by rewrite <- Permutation_middle, IH.
Qed.

(** Balancing loses no peer and keeps the order of each family, and as long as
    both families last it takes one IPv4 peer and one IPv6 peer in turn. *)
Theorem families_alternate ps :
  let v6 := List.filter is_ipv6 ps in
  let v4 := List.filter (fun p => negb (is_ipv6 p)) ps in
  let r := balance_peer_families ps in
  r ≡ₚ ps /\ List.filter is_ipv6 r = v6 /\ List.filter (fun p => negb (is_ipv6 p)) r = v4 /\
  forall k, (k < length v4)%nat -> (k < length v6)%nat -> r !! (2 * k)%nat = v4 !! k /\ r !! (2 * k + 1)%nat = v6 !! k.
Proof.
  cbv zeta. pose proof (filter_halves is_ipv6 ps) as Hh. pose proof (filter_Forall is_ipv6 ps) as H6. pose proof (filter_negb_Forall is_ipv6 ps) as H4.
  pose proof (filter_negb_perm is_ipv6 ps) as Hperm.
  unfold balance_peer_families. destruct (Z.ltb_spec (len ps) 2) as [Hs|Hs].
  { do 3 (split; [done|]). unfold len in Hs. intros k. lia. }
  destruct (List.filter (fun p => negb (is_ipv6 p)) ps) as [|a v4] eqn:E4.
  { do 3 (split; [done|]). intros k Hk. cbn in Hk. lia. }
  destruct (List.filter is_ipv6 ps) as [|b v6] eqn:E6.
  { do 3 (split; [done|]). intros k _ Hk. cbn in Hk. lia. }
  rewrite <- E4, <- E6 in *. clear E4 E6 a v4 b v6. split; [rewrite interleave_perm by lia; done|]. split; [by apply interleave_filter; [lia|..]|]. split.
  - apply interleave_filter_l; [lia| |].
    + eapply Forall_impl; [exact H4|]. intros p Hp. cbn. by rewrite Hp.
    + eapply Forall_impl; [exact H6|]. intros p Hp. cbn. by rewrite Hp.
  - intros k Hk4 Hk6. apply interleave_at; [lia|done|done].
Qed.

(** ** Rotation *)

(** [n] rounds with the same candidates. *)
Fixpoint rotations (n : nat) (eligible : list SocketAddr) (cursor limit : Z) : outcome (list SocketAddr * Z) :=
  match n with
  | O => Ok ([], cursor)
  | S n =>
      '(out, cursor) ← rotations n eligible cursor limit;
      '(more, cursor) ← rotated_peer_candidates eligible cursor limit;
      Ok (out ++ more, cursor)
  end.

Lemma walk_index (ps : list SocketAddr) j : ps <> [] -> exists p, index ps (j mod len ps) = Ok p.
Proof.
  intros Hne. assert (0 < len ps) as Hl by (destruct ps; [done|rewrite len_cons; pose proof (len_nonneg ps); lia]).
  pose proof (Z.mod_pos_bound j (len ps) Hl). unfold index, get. rewrite (proj2 (Z.ltb_ge _ _)) by lia.
  destruct (lookup_lt_is_Some_2 ps (Z.to_nat (j mod len ps))) as [p Hp]; [unfold len in *; lia|]. exists p. by rewrite Hp.
Qed.
Definition walk (ps : list SocketAddr) (j : Z) : option SocketAddr := get ps (j mod len ps).

Lemma rotated_spec ps c limit : ps <> [] -> 0 < limit ->
  exists out, rotated_peer_candidates ps c limit = Ok (out, (c + Z.min (len ps) limit) mod len ps) /\
    map Some out = map (fun o => walk ps (c + o)) (seqZ 0 (Z.min (len ps) limit)).
Proof.
  intros Hne Hl. assert (0 < len ps) as Hn by (destruct ps; [done|rewrite len_cons; pose proof (len_nonneg ps); lia]).
  unfold rotated_peer_candidates. rewrite bool_decide_eq_false_2, (proj2 (Z.eqb_neq _ _)) by (done || lia). cbn [orb].
  set (t := Z.min (len ps) limit). generalize (seqZ 0 t). intros os.
  assert (exists out, mapM (fun o => index ps ((c mod len ps + o) mod len ps)) os = Ok out /\ map Some out = map (fun o => walk ps (c + o)) os) as (out & E & Hm).
  { induction os as [|o os (out & E & Hm)]; [by exists []|]. cbn [mapM map]. destruct (walk_index ps (c mod len ps + o) Hne) as [p Hp]. rewrite Hp, E.
    exists (p :: out). split; [done|]. cbn [map]. rewrite Hm. f_equal. unfold walk. rewrite Z.add_mod_idemp_l in Hp by lia.
    unfold index in Hp. by destruct (get ps ((c + o) mod len ps)); [injection Hp as ->|]. }
  rewrite E, bind_ret. exists out. split; [|done]. by rewrite Z.add_mod_idemp_l by lia.
Qed.

Lemma rotations_spec ps c limit (n : nat) : ps <> [] -> 0 < limit ->
  exists out c', rotations n ps c limit = Ok (out, c') /\ c' mod len ps = (c + Z.of_nat n * Z.min (len ps) limit) mod len ps /\
    map Some out = map (fun o => walk ps (c + o)) (seqZ 0 (Z.of_nat n * Z.min (len ps) limit)).
Proof.
  intros Hne Hl. assert (0 < len ps) as Hn by (destruct ps; [done|rewrite len_cons; pose proof (len_nonneg ps); lia]).
  set (t := Z.min (len ps) limit). induction n as [|n (out & c' & E & Hc & Hm)]; [exists [], c; split; [done|]; split; [f_equal; lia|done]|].
  cbn [rotations]. rewrite E, bind_ret. destruct (rotated_spec ps c' limit Hne Hl) as (more & E' & Hm'). fold t in E', Hm'. rewrite E', bind_ret.
  exists (out ++ more), ((c' + t) mod len ps). split; [done|]. split.
  - rewrite Z.mod_mod by lia. rewrite <- Z.add_mod_idemp_l, Hc, Z.add_mod_idemp_l by lia. f_equal. lia.
  - rewrite map_app, Hm, Hm'. replace (Z.of_nat (S n) * t) with (Z.of_nat n * t + t) by lia. rewrite seqZ_app, map_app by lia. f_equal.
    rewrite Z.add_0_l. replace (seqZ (Z.of_nat n * t) t) with (map (Z.add (Z.of_nat n * t)) (seqZ 0 t)) by (rewrite fmap_add_seqZ; f_equal; lia).
    rewrite map_map. apply map_ext. intros o. unfold walk. f_equal. rewrite <- (Z.add_mod_idemp_l c'), Hc, Z.add_mod_idemp_l by lia. f_equal. lia.
Qed.

(** Rotation is fair.  Rounds over the same candidates return, and walk round the
    list from the cursor without skipping anybody; so after as many rounds as the limit
    goes into their number every candidate has been tried, and no candidate comes again
    before all others have. *)
Theorem rotation_fair ps c limit (n : nat) :
  ps <> [] -> 0 < limit ->
  exists out c', rotations n ps c limit = Ok (out, c') /\
    len out = Z.of_nat n * Z.min (len ps) limit /\
    (forall i, 0 <= i < len out -> get out i = get ps ((c + i) mod len ps)) /\
    (len ps <= Z.of_nat n * limit -> forall p, p ∈ ps -> p ∈ out).
Proof.
  intros Hne Hl. assert (0 < len ps) as Hn by (destruct ps; [done|rewrite len_cons; pose proof (len_nonneg ps); lia]).
  destruct (rotations_spec ps c limit n Hne Hl) as (out & c' & E & _ & Hm). exists out, c'. split; [done|].
  assert (len out = Z.of_nat n * Z.min (len ps) limit) as Hlen.
  { apply (f_equal length) in Hm. rewrite !length_map, length_seqZ in Hm. unfold len in *. lia. }
  assert (forall i, 0 <= i < len out -> get out i = get ps ((c + i) mod len ps)) as Hat.
  { intros i Hi. apply (f_equal (fun l => l !! Z.to_nat i)) in Hm. rewrite !list_lookup_fmap, lookup_seqZ_lt in Hm by lia.
    unfold get at 1. rewrite (proj2 (Z.ltb_ge _ _)) by lia. cbn in Hm. destruct (out !! Z.to_nat i); [|done]. injection Hm as Hm. unfold walk in Hm. rewrite Hm. do 2 f_equal. lia. }
  split; [done|]. split; [done|]. intros Hcover p Hp. apply list_elem_of_lookup in Hp as [j Hj].
  pose proof (lookup_lt_Some _ _ _ Hj) as Hjl. set (i := (Z.of_nat j - c) mod len ps).
  pose proof (Z.mod_pos_bound (Z.of_nat j - c) (len ps) Hn) as Hi. fold i in Hi.
  assert (1 <= Z.of_nat n) as Hn1 by (destruct n; [lia|lia]).
  assert (i < len out) as Hio by (rewrite Hlen; destruct (Z.min_spec (len ps) limit) as [[_ ->]|[_ ->]]; nia).
  apply list_elem_of_lookup. exists (Z.to_nat i). specialize (Hat i ltac:(lia)). unfold get in Hat at 1. rewrite (proj2 (Z.ltb_ge _ _)) in Hat by lia.
  rewrite Hat. unfold i. rewrite Z.add_mod_idemp_r by lia. replace (c + (Z.of_nat j - c)) with (Z.of_nat j) by lia.
  rewrite Z.mod_small by (unfold len; lia). by rewrite get_of_nat.
Qed.

Lemma rotation_fair_witness :
  let ps := map (fun a => peer4 a 80) [1; 2; 3; 4; 5] in
  exists out c', rotations 3 ps 4 2 = Ok (out, c') /\ (forall p, p ∈ ps -> p ∈ out) /\ map (fun p => ip_number (ip p)) out = [5; 1; 2; 3; 4; 5].
Proof.
  intros ps. destruct (rotation_fair ps 4 2 3 ltac:(done) ltac:(lia)) as (out & c' & E & _ & _ & H).
  exists out, c'. split; [done|]. split; [by apply H|]. vm_compute in E. by injection E as <- <-.
Defined.

(** ** Sets of peers *)

Lemma push_peer_elem found p q : q ∈ push_peer found p <-> q ∈ found \/ q = p.
Proof. unfold push_peer. case_bool_decide; [naive_solver|]. rewrite elem_of_app, list_elem_of_singleton. naive_solver. Qed.

(** Peer exchange only adds admitted peers, each once and behind the known ones, and
    never grows a list past a positive cap; below the cap it takes every admitted peer. *)
Theorem pex_bounded v6 f max peers : forall found,
  let r := add_pex_peers found peers v6 f max in
  (exists new, r = found ++ new /\ NoDup new /\ forall p, p ∈ new -> p ∈ peers /\ p ∉ found /\ peer_allowed_by_config p v6 = true /\ admits f (ip p) = true) /\
  (0 < max -> len r <= Z.max max (len found)) /\
  (max <= 0 \/ len r < max -> forall p, p ∈ peers -> peer_allowed_by_config p v6 = true -> admits f (ip p) = true -> p ∈ r).
Proof.
  induction peers as [|a peers IH]; intros found; cbv zeta; cbn [add_pex_peers].
  { split; [exists []; rewrite app_nil_r; split; [done|]; split; [apply NoDup_nil_2|]; by intros p ?%not_elem_of_nil|]. split; [lia|]. by intros _ p ?%not_elem_of_nil. }
  assert (forall b, (exists new, add_pex_peers found peers v6 f max = found ++ new /\ NoDup new /\
      forall p, p ∈ new -> p ∈ peers /\ p ∉ found /\ peer_allowed_by_config p v6 = true /\ admits f (ip p) = true) ->
    exists new, add_pex_peers found peers v6 f max = found ++ new /\ NoDup new /\
      forall p, p ∈ new -> p ∈ b :: peers /\ p ∉ found /\ peer_allowed_by_config p v6 = true /\ admits f (ip p) = true) as Hweak.
  { intros b (new & E & Hn & Hp). exists new. split; [done|]. split; [done|]. intros p Hin. destruct (Hp p Hin) as (? & ? & ? & ?). split; [by right|done]. }
  destruct (peer_allowed_by_config a v6) eqn:Ea; cbn [negb].
  2:{ destruct (IH found) as (H1 & H2 & H3). split; [by apply Hweak|]. split; [done|]. intros Hm p [->|Hp]%elem_of_cons Hc; [congruence|by apply H3]. }
  destruct (admits f (ip a)) eqn:Ef; cbn [negb].
  2:{ destruct (IH found) as (H1 & H2 & H3). split; [by apply Hweak|]. split; [done|]. intros Hm p [->|Hp]%elem_of_cons Hc Hf; [congruence|by apply H3]. }
  destruct ((0 <? max) && (max <=? len found)) eqn:Em.
  { apply andb_true_iff in Em as [E1%Z.ltb_lt E2%Z.leb_le]. split; [exists []; rewrite app_nil_r; split; [done|]; split; [apply NoDup_nil_2|]; by intros p ?%not_elem_of_nil|].
    split; [lia|]. intros [?|?]; lia. }
  destruct (IH (push_peer found a)) as ((new & E & Hn & Hp) & H2 & H3). apply andb_false_iff in Em. rewrite Z.ltb_ge, Z.leb_gt in Em. split; [|split].
  - rewrite E. unfold push_peer in *. case_bool_decide as Hin.
    + exists new. split; [done|]. split; [done|]. intros p Hp'. destruct (Hp p Hp') as (? & ? & ? & ?). split; [by right|done].
    + exists (a :: new). split; [by rewrite <- app_assoc|]. split.
      * constructor; [|done]. intros Ha. destruct (Hp a Ha) as (_ & Hna & _). apply Hna, elem_of_app. right. by apply list_elem_of_singleton.
      * intros p [->|Hp']%elem_of_cons; [split; [by left|done]|]. destruct (Hp p Hp') as (? & Hnp & ? & ?). split; [by right|]. split; [|done]. intros Hpf. apply Hnp, elem_of_app. by left.
  - intros Hm. specialize (H2 Hm). unfold push_peer in *. case_bool_decide; [done|]. rewrite len_app in H2. change (len [a]) with 1 in H2. lia.
  - intros Hm p [->|Hin]%elem_of_cons Hc Hf; [|by apply H3]. rewrite E. apply elem_of_app. left. apply push_peer_elem. by right.
Qed.

Lemma dedupe_inv ps : forall out (seen : gset SocketAddr), (forall p, p ∈ seen <-> p ∈ out) -> NoDup out ->
  let st := foldl (fun st p => if bool_decide (p ∈ st.2) then st else (st.1 ++ [p], {[p]} ∪ st.2)) (out, seen) ps in
  NoDup st.1 /\ (forall p, p ∈ st.1 <-> p ∈ out \/ p ∈ ps).
Proof.
  induction ps as [|a ps IH]; intros out seen Hs Hn; cbn [foldl fst snd].
  { split; [done|]. intros p. rewrite elem_of_nil. naive_solver. }
  case_bool_decide as Ha.
  - destruct (IH out seen Hs Hn) as [H1 H2]. split; [done|]. intros p. rewrite H2, elem_of_cons. apply Hs in Ha. naive_solver.
  - destruct (IH (out ++ [a]) ({[a]} ∪ seen)) as [H1 H2].
    + intros p. rewrite elem_of_union, elem_of_singleton, elem_of_app, list_elem_of_singleton, Hs. naive_solver.
    + apply NoDup_app. split; [done|]. split; [|apply NoDup_singleton]. intros p Hp ->%list_elem_of_singleton. by apply Ha, Hs.
    + split; [done|]. intros p. rewrite H2, elem_of_app, list_elem_of_singleton, elem_of_cons. naive_solver.
Qed.
Lemma dedupe_spec ps : NoDup (dedupe_peers ps) /\ forall p, p ∈ dedupe_peers ps <-> p ∈ ps.
Proof.
  destruct (dedupe_inv ps [] ∅) as [H1 H2]; [intros p; set_solver|apply NoDup_nil_2|]. split; [done|]. intros p.
  unfold dedupe_peers. rewrite H2, elem_of_nil. naive_solver.
Qed.

(** The candidates of a round: their addresses are seen, each once. *)
Definition candidates_ok (st : list SocketAddr * gset SocketAddr) : Prop := NoDup st.1 /\ st.2 = list_to_set st.1.

Lemma push_candidate_ok c s p bad idle_peers v6 f now :
  candidates_ok (c, s) ->
  let '(new, c', s') := push_parallel_candidate c s p bad idle_peers v6 f now in
  candidates_ok (c', s') /\ (new = false -> c' = c) /\ (new = true -> c' = c ++ [p] /\ usable bad idle_peers v6 f now p = true).
Proof.
  intros [Hn Hs]. cbn [fst snd] in *. unfold push_parallel_candidate. fold (refused v6 f p). rewrite usable_eq.
  destruct (refused v6 f p); [done|]. destruct (peer_is_backed_off bad p now); [done|].
  destruct (peer_is_backed_off idle_peers p now); [done|]. cbn [orb]. case_bool_decide as Hin; [done|].
  split; [|done]. split; cbn [fst snd].
  - apply NoDup_app. split; [done|]. split; [|apply NoDup_singleton]. intros q Hq ->%list_elem_of_singleton. apply Hin. rewrite Hs. by apply elem_of_list_to_set.
  - rewrite list_to_set_app_L, Hs. cbn. set_solver.
Qed.

(** No session is started twice.  However peers come from discovery and exchange,
    the candidates of a round stay pairwise distinct, only grow, and every new one is
    admitted and not cooling down when it comes; those credited to peer exchange are new. *)
Theorem candidates_unique c s peers pex d bad idle_peers v6 f now :
  NoDup c -> s = list_to_set c ->
  let '(c1, s1) := merge_parallel_candidate_iter c s peers bad idle_peers v6 f now in
  let '(c2, s2, d2) := merge_dynamic_parallel_candidates c1 s1 d pex bad idle_peers v6 f now in
  NoDup c2 /\ s2 = list_to_set c2 /\
  exists new credited, c2 = c ++ new ++ credited /\ d2 = d ++ credited /\ Forall (fun p => usable bad idle_peers v6 f now p = true) (new ++ credited).
Proof.
  intros Hn Hs. unfold merge_parallel_candidate_iter.
  assert (forall ps, let st := foldl (fun st p => let '(_, c, s) := push_parallel_candidate st.1 st.2 p bad idle_peers v6 f now in (c, s)) (c, s) ps in
    candidates_ok st /\ exists new, st.1 = c ++ new /\ Forall (fun p => usable bad idle_peers v6 f now p = true) new) as H1.
  { induction ps as [|p ps IH] using rev_ind; [split; [done|]; exists []; by rewrite app_nil_r|]. cbv zeta. rewrite foldl_app. cbn [foldl].
    destruct IH as (Hok & new & Hc & Hu). destruct (foldl _ (c, s) ps) as [c1 s1]. cbn [fst snd] in *. pose proof (push_candidate_ok c1 s1 p bad idle_peers v6 f now Hok) as H.
    destruct (push_parallel_candidate _ _ _ _ _ _ _ _) as [[[] c2] s2]; destruct H as (H & H0 & H2); (split; [done|]); cbn [fst].
    - destruct (H2 eq_refl) as [-> Hp]. exists (new ++ [p]). rewrite Hc, app_assoc. split; [done|]. apply Forall_app. split; [done|by constructor].
    - rewrite (H0 eq_refl). by exists new. }
  specialize (H1 peers). destruct (foldl _ (c, s) peers) as [c1 s1]. destruct H1 as (Hok & new & Hc & Hu). cbn [fst] in Hc. unfold merge_dynamic_parallel_candidates.
  assert (forall ps, let st := foldl (fun st peer => let '(c, s, d) := st in let '(new, c, s) := push_parallel_candidate c s peer bad idle_peers v6 f now in (c, s, if (new : bool) then d ++ [peer] else d)) (c1, s1, d) ps in
    candidates_ok st.1 /\ exists more, st.1.1 = c1 ++ more /\ st.2 = d ++ more /\ Forall (fun p => usable bad idle_peers v6 f now p = true) more) as H2.
  { induction ps as [|p ps IH] using rev_ind; [split; [done|]; exists []; by rewrite !app_nil_r|]. cbv zeta. rewrite foldl_app. cbn [foldl].
    destruct IH as (Hok' & more & Hc' & Hd & Hm). destruct (foldl _ (c1, s1, d) ps) as [[c2 s2] d2]. cbn [fst snd] in *. pose proof (push_candidate_ok c2 s2 p bad idle_peers v6 f now Hok') as H.
    destruct (push_parallel_candidate _ _ _ _ _ _ _ _) as [[[] c3] s3]; destruct H as (H & H0 & H2); (split; [done|]); cbn [fst snd].
    - destruct (H2 eq_refl) as [-> Hp]. exists (more ++ [p]). rewrite Hc', Hd, !app_assoc. split; [done|]. split; [done|]. apply Forall_app. split; [done|by constructor].
    - rewrite (H0 eq_refl). by exists more. }
  specialize (H2 pex). destruct (foldl _ (c1, s1, d) pex) as [[c2 s2] d2]. destruct H2 as ([Hn2 Hs2] & more & Hc2 & Hd2 & Hm). cbn [fst snd] in *.
  split; [done|]. split; [done|]. exists new, more. rewrite Hc2, Hc, app_assoc. split; [done|]. split; [done|]. by apply Forall_app.
Qed.

Lemma candidates_unique_witness :
  let '(c1, s1) := merge_parallel_candidate_iter [peer4 1 80] {[peer4 1 80]} [peer4 1 80; peer4 2 80] ∅ ∅ true filter_default 0 in
  let '(c2, _, _) := merge_dynamic_parallel_candidates c1 s1 [] [peer4 2 80; peer4 3 80] ∅ ∅ true filter_default 0 in
  NoDup c2 /\ c2 = [peer4 1 80; peer4 2 80; peer4 3 80].
Proof.
  pose proof (candidates_unique [peer4 1 80] {[peer4 1 80]} [peer4 1 80; peer4 2 80] [peer4 2 80; peer4 3 80] [] ∅ ∅ true filter_default 0
    ltac:(apply NoDup_singleton) ltac:(by vm_compute)) as H.
  destruct (merge_parallel_candidate_iter _ _ _ _ _ _ _ _) as [c1 s1] eqn:E1.
  destruct (merge_dynamic_parallel_candidates _ _ _ _ _ _ _ _ _) as [[c2 s2] d2] eqn:E2.
  destruct H as (Hn & _ & _). split; [exact Hn|]. vm_compute in E1. injection E1 as <- <-. vm_compute in E2. by injection E2 as <- _ _.
Defined.

(** ** Trackers are asked up to the first success *)

Section tiers.
Variables (error_text : CoreError -> text) (ask : text -> joined_announce) (announce_at : Z).
(** A task answers for the tracker it was started for. *)
Hypothesis ask_url : forall u, match ask u with inl (v, _) => v = u | inr _ => True end.

Definition succeeds (u : text) : bool :=
  match ask u with inl (_, inl resp) => bool_decide (failure_reason resp = None) | _ => false end.
Definition peers_of (u : text) : list SocketAddr :=
  match ask u with inl (_, inl resp) => if succeeds u then map socket_addr (peers resp) else [] | _ => [] end.

Lemma one_tracker u : let o := announce_trackers error_text [u] [ask u] announce_at in
  out_ok o = succeeds u /\ failures o = (if succeeds u then 0 else 1) /\ dom (tracker_results o) = {[u]} /\ (forall p, p ∈ out_peers o <-> p ∈ peers_of u).
Proof.
  unfold announce_trackers, peers_of, succeeds. pose proof (ask_url u) as Hu. rewrite bool_decide_eq_false_2 by done. cbn [foldl]. cbv zeta.
  destruct (ask u) as [[v [resp|e]]|e]; [subst v|subst v|]; cbn [record_tracker_joined_result];
    [destruct (failure_reason resp) eqn:Ef|..]; cbn [out_ok failures tracker_results out_peers outcome_default];
    repeat (rewrite ?bool_decide_eq_true_2, ?bool_decide_eq_false_2 by done); (split; [done|]); (split; [done|]);
    (split; [by rewrite ?dom_insert_L, ?dom_empty_L; set_solver|]); intros p; rewrite (proj2 (dedupe_spec _)); done.
Qed.

Lemma announce_until_spec urls : forall a,
  exists asked rest, urls = asked ++ rest /\
    let o := announce_until error_text ask urls announce_at a in
    out_ok o = out_ok a || existsb succeeds asked /\
    (rest <> [] -> existsb succeeds asked = true) /\ Forall (fun u => succeeds u = false) (removelast asked) /\
    dom (tracker_results o) = dom (tracker_results a) ∪ list_to_set asked /\
    (0 <= failures a <= u32_max -> failures o = Z.min u32_max (failures a + len (List.filter (fun u => negb (succeeds u)) asked))) /\
    (forall p, p ∈ out_peers o <-> p ∈ out_peers a \/ exists u, u ∈ asked /\ p ∈ peers_of u).
Proof.
  induction urls as [|u urls IH]; intros a; cbn [announce_until].
  { exists [], []. split; [done|]. cbv zeta. cbn [existsb removelast list_to_set]. rewrite orb_false_r. split; [done|]. split; [done|]. split; [done|].
    split; [set_solver|]. split; [change (len _) with 0; lia|]. intros p. setoid_rewrite elem_of_nil. naive_solver. }
  destruct (one_tracker u) as (Hok & Hf & Hd & Hp). set (o := announce_trackers error_text [u] [ask u] announce_at) in *.
  destruct (out_ok o) eqn:Eo.
  - exists [u], urls. split; [done|]. cbv zeta. cbn [existsb removelast list_to_set List.filter]. rewrite <- Hok. rewrite <- Hok in Hf. cbn [negb orb merge_tracker_outcome out_ok tracker_results failures out_peers]. rewrite Eo.
    split; [done|]. split; [done|]. split; [done|]. split; [rewrite dom_union_L, Hd; set_solver|]. split; [intros Ha; unfold saturating_add; rewrite Hf; change (len []) with 0; change (len _) with 0; lia|].
    intros p. rewrite elem_of_app, Hp. setoid_rewrite list_elem_of_singleton. naive_solver.
  - destruct (IH (merge_tracker_outcome a o)) as (asked & rest & E & H1 & H2 & H3 & H4 & H5 & H6). exists (u :: asked), rest. split; [by rewrite E|].
    cbv zeta in *. cbn [existsb list_to_set List.filter]. rewrite <- Hok. rewrite <- Hok in Hf. cbn [negb orb]. split; [rewrite H1; cbn [merge_tracker_outcome out_ok]; rewrite Eo; by rewrite orb_false_r|].
    split; [done|]. split; [destruct asked; [constructor|]; change (removelast (u :: l :: asked)) with (u :: removelast (l :: asked)); by constructor|].
    split; [rewrite H4; cbn [merge_tracker_outcome tracker_results]; rewrite dom_union_L, Hd; set_solver|]. split.
    + intros Ha. rewrite H5; cbn [merge_tracker_outcome failures]; unfold saturating_add; rewrite Hf; [|unfold u32_max in *; lia]. rewrite len_cons. set (n := len _). assert (0 <= n) by apply len_nonneg. lia.
    + intros p. rewrite H6. cbn [merge_tracker_outcome out_peers]. rewrite elem_of_app, Hp. setoid_rewrite elem_of_cons. naive_solver.
Qed.

(** Trackers are asked one after the other, tier by tier, up to the first that
    succeeds and no further.  The outcome succeeds when that one does; it has a result for
    exactly the trackers asked, counts those that failed, and its peers are those of
    the successful answers, each once. *)
Theorem tiers_stop_at_success tiers :
  tiers <> [] ->
  let o := announce_tracker_tiers error_text ask tiers announce_at in
  exists asked rest, concat tiers = asked ++ rest /\
    out_ok o = existsb succeeds asked /\ (rest <> [] -> out_ok o = true) /\ Forall (fun u => succeeds u = false) (removelast asked) /\
    dom (tracker_results o) = list_to_set asked /\ failures o = Z.min u32_max (len (List.filter (fun u => negb (succeeds u)) asked)) /\
    NoDup (out_peers o) /\ forall p, p ∈ out_peers o <-> exists u, u ∈ asked /\ p ∈ peers_of u.
Proof.
  intros Hne. unfold announce_tracker_tiers. rewrite bool_decide_eq_false_2 by done. cbv zeta. cbn [out_ok tracker_results failures out_peers].
  destruct (announce_until_spec (concat tiers) outcome_default) as (asked & rest & E & H1 & H2 & H3 & H4 & H5 & H6). cbv zeta in *. exists asked, rest.
  cbn [outcome_default out_ok orb tracker_results failures out_peers] in *. rewrite dom_empty_L, (left_id_L ∅ (∪)) in H4. specialize (H5 ltac:(unfold u32_max; lia)).
  split; [done|]. split; [done|]. split; [intros Hr; rewrite H1; by apply H2|]. split; [done|]. split; [done|]. split; [done|].
  destruct (dedupe_spec (out_peers (announce_until error_text ask (concat tiers) announce_at outcome_default))) as [Hn Hp]. split; [done|].
  intros p. rewrite Hp, H6, elem_of_nil. naive_solver.
Qed.
End tiers.

Lemma tiers_stop_at_success_witness :
  let ask u : joined_announce := if bool_decide (u = bytes_of "b") then inl (u, inl (mkAnnounceResponse 60 None 1 2 [mkPeerAddr (V4 9) 80] None None)) else inl (u, inr (Internal "down")) in
  let o := announce_tracker_tiers (fun _ => []) ask [[bytes_of "a"; bytes_of "b"]; [bytes_of "c"]] 7 in
  (exists asked rest, [bytes_of "a"; bytes_of "b"; bytes_of "c"] = asked ++ rest /\ out_ok o = existsb (succeeds ask) asked) /\
  failures o = 1 /\ out_peers o = [peer4 9 80].
Proof.
  intros ask o. split; [|by vm_compute].
  destruct (tiers_stop_at_success (fun _ => []) ask 7 ltac:(intros u; unfold ask; by case_bool_decide) [[bytes_of "a"; bytes_of "b"]; [bytes_of "c"]] ltac:(done))
    as (asked & rest & E & H & _). exists asked, rest. split; [exact E|exact H].
Defined.

(** ** What is kept of scrapes and announces *)

Definition scrape_counts (s : EngineState) (url : text) : option Z * option Z * option Z :=
  let p := default scrape_default (tracker_scrapes s !! url) in (scrape_seeders p, scrape_leechers p, scrape_downloads p).
(** The counts a finished scrape brings. *)
Definition fresh_counts (info_hash : PeerInfoHash) (r : ScrapeOutcome + text) : option ScrapeCounts :=
  match r with inl (Success counts) => counts !! info_hash | _ => None end.

Lemma edit_counts s u url f n : (forall p, (scrape_seeders (f p), scrape_leechers (f p), scrape_downloads (f p)) = (scrape_seeders p, scrape_leechers p, scrape_downloads p)) ->
  scrape_counts (edit_scrape s u f n) url = scrape_counts s url.
Proof.
  intros Hf. unfold scrape_counts, edit_scrape, set_scrapes. cbn [tracker_scrapes]. destruct (decide (u = url)) as [->|Hne]; [|by rewrite lookup_insert_ne].
  rewrite lookup_insert_eq. cbn [default from_option id]. apply Hf.
Qed.

Section scrapes.
Context `{HexCodec}.
Lemma finish_counts h at_ s u r url :
  scrape_counts (finish_scrape h at_ s (u, r)) url =
    match fresh_counts h r with
    | Some c => if bool_decide (u = url) then (Some (sc_seeders c), Some (sc_leechers c), Some (sc_downloads c)) else scrape_counts s url
    | None => scrape_counts s url
    end.
Proof.
  unfold finish_scrape, fresh_counts. destruct r as [[|counts]|e]; [by apply edit_counts| |by apply edit_counts].
  destruct (counts !! h) as [c|]; [|by apply edit_counts]. unfold scrape_counts, edit_scrape, set_scrapes. cbn [tracker_scrapes].
  case_bool_decide as Hu; [subst; by rewrite lookup_insert_eq|by rewrite lookup_insert_ne].
Qed.

(** A scrape never loses counts.  After a round of scrapes, the counts of a tracker are
    those of the last answer that gave some for this torrent; without one, whatever
    failed or was unsupported, they are what they were. *)
Theorem scrapes_keep_counts s h urls arrivals at_ url :
  scrape_counts (run_tracker_scrapes s h urls arrivals at_) url =
    match (if bool_decide (dedupe_urls urls = []) then None else last (omap (fun a => if bool_decide (a.1 = url) then fresh_counts h a.2 else None) arrivals)) with
    | Some c => (Some (sc_seeders c), Some (sc_leechers c), Some (sc_downloads c))
    | None => scrape_counts s url
    end.
Proof.
  unfold run_tracker_scrapes. case_bool_decide; [done|].
  assert (forall us, scrape_counts (foldl start_scrape s us) url = scrape_counts s url) as Hs.
  { induction us as [|u us IH] using rev_ind; [done|]. rewrite foldl_app. cbn [foldl]. unfold start_scrape at 1. by rewrite edit_counts. }
  induction arrivals as [|[u r] arrivals IH] using rev_ind; [apply Hs|]. rewrite foldl_app, omap_app. cbn [foldl omap list_omap fst snd]. rewrite finish_counts.
  case_bool_decide as Hu.
  - destruct (fresh_counts h r) as [c|]; [by rewrite last_snoc|by rewrite app_nil_r].
  - rewrite app_nil_r. by destruct (fresh_counts h r).
Qed.
End scrapes.

(** A torrent fails for its trackers only when nothing else could help.  After any
    announces of an engine that never saw one before, the error is terminal only if none
    of them succeeded, some tracker was asked, the last answer of every tracker is its
    own rejection, and no other source has given a peer or payload. *)
Theorem terminal_only_after_rejections s os :
  tracker_announces s = ∅ -> tracker_last_ok s = None ->
  let s' := foldl (fun s o => record_tracker_announce_outcome s o.1.1 o.1.2 o.2) s os in
  terminal_tracker_error s' = true ->
  (forall o, o ∈ os -> out_ok o.1.1 = false) /\
  (exists url r, tracker_announces s' !! url = Some r) /\
  (forall url r, tracker_announces s' !! url = Some r -> status r = Error /\ explicit_failure r = true) /\
  dht_discovery_ok s = false /\ pex_discovery_ok s = false /\ webseed_last_seen s = None /\ block_last_seen s = None /\ eligible_peers s <= 0.
Proof.
  intros Ha Hl. cbv zeta. set (s' := foldl _ s os).
  assert ((tracker_last_ok s' = None -> forall o, o ∈ os -> out_ok o.1.1 = false) /\
    dht_discovery_ok s' = dht_discovery_ok s /\ pex_discovery_ok s' = pex_discovery_ok s /\ webseed_last_seen s' = webseed_last_seen s /\
    block_last_seen s' = block_last_seen s /\ eligible_peers s' = eligible_peers s) as (H1 & H2 & H3 & H4 & H5 & H6).
  { unfold s'. clear s' Ha. induction os as [|o os IH] using rev_ind; [split; [by intros _ o ?%not_elem_of_nil|done]|].
    rewrite foldl_app. cbn [foldl]. destruct IH as (IH & H2 & H3 & H4 & H5 & H6). split; [|done]. cbn [record_tracker_announce_outcome tracker_last_ok].
    destruct (out_ok o.1.1) eqn:E; [done|]. intros Hn o' [Ho| ->%list_elem_of_singleton]%elem_of_app; [by apply IH|done]. }
  unfold terminal_tracker_error. rewrite H2, H3, H4, H5, H6.
  destruct (finished s'), (stopped_by_command s'), (tracker_ok s'); cbn [orb]; try done.
  destruct (bool_decide (is_Some (tracker_last_ok s'))) eqn:Eo; cbn [orb]; [done|]. apply bool_decide_eq_false, eq_None_not_Some in Eo.
  destruct (bool_decide (tracker_announces s' = ∅)) eqn:Ee; cbn [orb]; [done|]. apply bool_decide_eq_false in Ee.
  destruct (forallb _ (map_to_list (tracker_announces s'))) eqn:Ef; cbn [negb]; [|done]. rewrite negb_true_iff, !orb_false_iff, Z.ltb_ge.
  intros ((((Hd & Hp) & Hw) & ((Hv & Hb) & Hh)) & Hel). apply bool_decide_eq_false, eq_None_not_Some in Hw, Hb.
  split; [by apply H1|]. split; [destruct (map_choose _ Ee) as (u & r & E); by exists u, r|]. split; [|done].
  intros u r E. rewrite forallb_forall in Ef. specialize (Ef (u, r) ltac:(by apply list_elem_of_In, elem_of_map_to_list)). cbn in Ef.
  apply andb_true_iff in Ef as [Es Ex]. by apply bool_decide_eq_true in Es.
Qed.

Definition idle_engine : EngineState := mkEngine false false false false None ∅ ∅ None 0 0 None None None None false false 0 ∅.
Definition rejected : TrackerAnnounceOutcome :=
  announce_tracker_tiers (fun _ => []) (fun u => inl (u, inl (mkAnnounceResponse 60 None 0 0 [] (Some (bytes_of "banned")) None))) [[bytes_of "a"]] 7.
Lemma terminal_only_after_rejections_witness :
  let s' := foldl (fun s o => record_tracker_announce_outcome s o.1.1 o.1.2 o.2) idle_engine [(rejected, 8, 9)] in
  terminal_tracker_error s' = true /\ (forall url r, tracker_announces s' !! url = Some r -> status r = Error /\ explicit_failure r = true).
Proof.
  split; [by vm_compute|]. apply (terminal_only_after_rejections idle_engine [(rejected, 8, 9)]); [done|done|by vm_compute].
Defined.
