(* ===== verification/Engine.v ===== *)
(** * The engine's bookkeeping: [crates/swarmotterd/src/engine/mod.rs], [progress.rs], [download.rs]

    Worker limits shared by all engines, the coalescing of resume checkpoints, the bytes
    completed, and the fast-resume record of [storage/resume.rs] and [storage/io/mod.rs]
    that a restart trusts or replaces by a recheck.  JSON is the [serde_json] crate's: a
    parameter that reads back what it wrote.  The theorems: the limit follows the latest
    setting, deferred checkpoints stay within the coalescing bounds, the completed bytes
    are those of the verified pieces, and resume data survives a restart. *)

From S2P Require Import Prelude Text Bits Addr Hash Bencode Merkle Meta MetaCorrect Storage Torrent Permits Pieces.

Local Open Scope byte_scope.
Local Open Scope Z_scope.

(** ** Worker limits *)

Definition DEFAULT_PEER_WORKER_LIMIT : Z := DEFAULT_PER_TORRENT_PEER_LIMIT.

Record SharedPeerWorkerLimit : Type := mkShared { default_limit : Z; generation : Z }.
Definition shared_new : SharedPeerWorkerLimit := mkShared DEFAULT_PEER_WORKER_LIMIT 0.
(** The flag tells whether the value changed; [fetch_add] wraps. *)
Definition store_default (s : SharedPeerWorkerLimit) (limit : Z) : bool * SharedPeerWorkerLimit :=
  let normalized := Z.max 1 limit in
  if default_limit s =? normalized then (false, mkShared normalized (generation s))
  else (true, mkShared normalized (wrap 64 (generation s + 1))).
Definition load_default (s : SharedPeerWorkerLimit) : Z := Z.max 1 (default_limit s).

(** The override of one engine and the generation it was set in. *)
Record WorkerLimit : Type := mkLimit { max_peer_workers : Z; peer_worker_override_generation : Z }.
Definition with_shared_peer_worker_limit (w : WorkerLimit) (shared : SharedPeerWorkerLimit) : WorkerLimit :=
  mkLimit (max_peer_workers w) (generation shared).
Definition set_peer_worker_limit (shared : option SharedPeerWorkerLimit) (max : Z) : WorkerLimit :=
  mkLimit max (match shared with Some s => generation s | None => 0 end).
Definition current_peer_worker_limit (shared : option SharedPeerWorkerLimit) (w : WorkerLimit) : Z * WorkerLimit :=
  let fallback := match shared with Some s => load_default s | None => DEFAULT_PEER_WORKER_LIMIT end in
  if 0 <? max_peer_workers w then
    if match shared with Some s => generation s =? peer_worker_override_generation w | None => true end
    then (max_peer_workers w, w)
    else (fallback, mkLimit 0 (peer_worker_override_generation w))
  else (fallback, w).

(** ** Resume checkpoints.  Instants are nanoseconds. *)

Definition RESUME_CHECKPOINT_PIECES : Z := 64.
Definition RESUME_CHECKPOINT_INTERVAL : Z := 5 * 10 ^ 9.

Record Checkpoints : Type := mkCheckpoints {
  resume_dirty_generation : Z; resume_checkpointed_generation : Z; resume_checkpoint_at : Z; resume_checkpoints_written : Z }.
Definition mark_resume_piece_verified (c : Checkpoints) : Checkpoints :=
  mkCheckpoints (wrap 64 (resume_dirty_generation c + 1)) (resume_checkpointed_generation c) (resume_checkpoint_at c) (resume_checkpoints_written c).
Definition resume_checkpoint_due (c : Checkpoints) (force : bool) (now : Z) : option Z :=
  let dirty := resume_dirty_generation c in
  if force then Some dirty
  else if dirty =? resume_checkpointed_generation c then None
  else
    let elapsed := saturating_sub now (resume_checkpoint_at c) in
    let pending_pieces := saturating_sub dirty (resume_checkpointed_generation c) in
    if (elapsed <? RESUME_CHECKPOINT_INTERVAL) && (pending_pieces <? RESUME_CHECKPOINT_PIECES) then None else Some dirty.
Definition complete_resume_checkpoint (c : Checkpoints) (observed now : Z) : Checkpoints :=
  mkCheckpoints (resume_dirty_generation c) observed now (wrap 64 (resume_checkpoints_written c + 1)).
(** [verified] pieces are verified by other tasks while the checkpoint is written. *)
Definition maybe_persist_resume (c : Checkpoints) (force : bool) (now : Z) (persist : option CoreError) (verified : nat) (later : Z)
  : outcome bool * Checkpoints :=
  match resume_checkpoint_due c force now with
  | None => (Ok false, c)
  | Some observed =>
      let c := Nat.iter verified mark_resume_piece_verified c in
      match persist with
      | Some e => (Err e, c)
      | None => (Ok true, complete_resume_checkpoint c observed later)
      end
  end.

(** ** Progress *)

Definition update_progress_state (meta : TorrentMeta) (piece_count : Z) (have : PieceBitfield) : outcome Z :=
  let complete_pieces := bf_count have piece_count in
  let completed := saturating_mul complete_pieces (piece_length meta) in
  completed ← (if (0 <? piece_count) && bf_has have (piece_count - 1) then
                 l ← last_piece_length meta; Ok (saturating_sub completed (piece_length meta - l))
               else Ok completed);
  Ok (Z.min completed (total_length meta)).

Definition engine_piece_length (meta : TorrentMeta) (index : Z) : outcome Z :=
  if index + 1 =? meta_piece_count meta then last_piece_length meta else Ok (piece_length meta).

(** ** Fast resume *)

Record ResumeFileStamp : Type := mkStamp {
  exists_ : bool; stamp_length : Z; modified_unix_nanos : option Z; device : option Z; inode : option Z;
  changed_unix_seconds : option Z; changed_subsec_nanos : option Z }.
#[export] Instance ResumeFileStamp_eq_dec : EqDecision ResumeFileStamp.
Proof. solve_decision. Defined.

Record FastResume : Type := mkResume {
  key : TorrentKey; resume_name : text; piece_bitfield : PieceBitfield; resume_piece_count : Z;
  resume_downloaded : Z; resume_uploaded : Z; resume_completed : Z; resume_total : Z;
  resume_priorities : list FilePriority; resume_wanted : list bool; file_stamps : list ResumeFileStamp;
  resume_dir : option text; date_added : Z; date_completed : option Z }.

Definition build_resume_with_wanted (key : TorrentKey) (name : text) (bitfield : PieceBitfield) (piece_count downloaded uploaded total : Z)
    (dir : option text) (added : Z) (completed : option Z) (priorities : list FilePriority) (wanted : list bool) (piece_byte_lengths : list Z) : FastResume :=
  let bytes_completed := zsum (fun i => default 0 (get piece_byte_lengths i)) (List.filter (bf_has bitfield) (seqZ 0 piece_count)) in
  mkResume key name bitfield piece_count downloaded uploaded bytes_completed total priorities wanted [] dir added completed.
Definition build_resume (key : TorrentKey) (name : text) (bitfield : PieceBitfield) (piece_count downloaded uploaded total : Z)
    (dir : option text) (added : Z) (completed : option Z) (priorities : list FilePriority) (piece_byte_lengths : list Z) : FastResume :=
  build_resume_with_wanted key name bitfield piece_count downloaded uploaded total dir added completed priorities
    (map (fun p => negb (bool_decide (p = Unwanted))) priorities) piece_byte_lengths.

(** Whether a record that was read agrees with the torrent. *)
Definition structurally_inconsistent (meta : TorrentMeta) (piece_lengths : list Z) (r : FastResume) : bool :=
  let piece_count_matches := resume_piece_count r =? len piece_lengths in
  let verified_bytes := zsum (fun i => default 0 (get piece_lengths i)) (List.filter (bf_has (piece_bitfield r)) (seqZ 0 (len piece_lengths))) in
  negb (bool_decide (resume_name r = name meta)) || negb piece_count_matches || negb (resume_total r =? total_length meta) ||
  negb (len (bf_bytes (piece_bitfield r)) =? div_ceil (resume_piece_count r) 8) || (resume_total r <? resume_completed r) ||
  negb (piece_count_matches && (verified_bytes =? resume_completed r)) ||
  (negb (bool_decide (resume_wanted r = [])) && negb (len (resume_wanted r) =? len (files meta))) ||
  (negb (bool_decide (file_stamps r = [])) && negb (len (file_stamps r) =? len (files meta))).

(** [serde_json], with its law. *)
Class ResumeJson := {
  serialize_json : FastResume -> text;
  parse_json : text -> option FastResume;
  parse_serialize r : parse_json (serialize_json r) = Some r;
  serialize_utf8 r : utf8_valid (serialize_json r) = true }.

(** The resume file: absent, unreadable, or its bytes. *)
Inductive resume_file : Type := NoFile | Unreadable (e : CoreError) | Contents (bytes : list byte).

Section resume.
Context `{ResumeJson}.

(** Nothing comes back from a missing file or, after its quarantine, from a corrupt one. *)
Definition load_resume_with_piece_lengths (meta : TorrentMeta) (file : resume_file) (expected_key : TorrentKey) (piece_lengths : list Z)
  : outcome (option FastResume) :=
  match file with
  | NoFile => Ok None
  | Unreadable e => Err e
  | Contents bytes =>
      if negb (utf8_valid bytes) then Ok None
      else match parse_json bytes with
           | None => Ok None
           | Some r =>
               if negb (bool_decide (key r = expected_key)) then Err (Storage "resume torrent key mismatch")
               else if structurally_inconsistent meta piece_lengths r then Ok None
               else Ok (Some r)
           end
  end.
Definition load_resume (meta : TorrentMeta) (file : resume_file) (expected_key : TorrentKey) : outcome (option FastResume) :=
  load_resume_with_piece_lengths meta file expected_key
    (map (fun r => r.2 - r.1) (omap (piece_byte_range meta) (seqZ 0 (meta_piece_count meta)))).

(** [TorrentEngine::persist_resume]: what the file holds afterwards.  [finished] gives
    the completion time. *)
Definition persist_resume (meta : TorrentMeta) (torrent_key : TorrentKey) (have : PieceBitfield) (downloaded uploaded state_total : Z)
    (dir : text) (now : Z) (finished : bool) (priorities : list FilePriority) (wanted : list bool) (stamps : list ResumeFileStamp) : outcome resume_file :=
  lengths ← mapM (engine_piece_length meta) (seqZ 0 (meta_piece_count meta));
  let r := build_resume_with_wanted torrent_key (name meta) have (meta_piece_count meta) downloaded uploaded state_total (Some dir) now
             (if finished then Some now else None) priorities wanted lengths in
  Ok (Contents (serialize_json (mkResume (key r) (resume_name r) (piece_bitfield r) (resume_piece_count r) (resume_downloaded r) (resume_uploaded r)
                                  (resume_completed r) (resume_total r) (resume_priorities r) (resume_wanted r) stamps (resume_dir r) (date_added r) (date_completed r)))).

(** [load_or_recheck]: the recheck is [StorageIo::recheck] over what is on disk. *)
Definition load_or_recheck (meta : TorrentMeta) (torrent_key : TorrentKey) (file : resume_file) (current : list ResumeFileStamp)
    (recheck : outcome PieceBitfield) : outcome PieceBitfield :=
  resume ← load_resume meta file torrent_key;
  match resume with
  | None => recheck
  | Some r =>
      if bool_decide (file_stamps r <> []) && (len (file_stamps r) =? len current) && bool_decide (file_stamps r = current)
      then Ok (piece_bitfield r) else recheck
  end.
End resume.

(** [StorageIo::verify_piece_on_disk] and [recheck], over reading a piece back from disk. *)
Section recheck.
Context `{Digests}.
Variable read_piece : Z -> list byte + CoreError.
Definition verify_piece_on_disk (meta : TorrentMeta) (i : Z) : outcome bool :=
  if len (pieces meta) <=? i then Ok false
  else match read_piece i with
       | inl data => Ok (verify_piece meta i data)
       | inr (Io _) => Ok false
       | inr e => Err e
       end.
Definition recheck (meta : TorrentMeta) : outcome PieceBitfield :=
  try_fold (fun bf i => b ← verify_piece_on_disk meta i; Ok (if (b : bool) then bf_set bf i else bf))
    (bf_new (meta_piece_count meta)) (seqZ 0 (meta_piece_count meta)).
End recheck.

(** ** The limit follows the latest setting *)

Inductive limit_op : Type := StoreDefault (limit : Z) | Override (max : Z) | ReadLimit.
Definition limit_step (st : SharedPeerWorkerLimit * WorkerLimit) (op : limit_op) : SharedPeerWorkerLimit * WorkerLimit :=
  match op with
  | StoreDefault n => ((store_default st.1 n).2, st.2)
  | Override n => (st.1, set_peer_worker_limit (Some st.1) n)
  | ReadLimit => (st.1, (current_peer_worker_limit (Some st.1) st.2).2)
  end.
(** The specification: a default, and an override that a new default drops. *)
Definition limit_spec (st : Z * option Z) (op : limit_op) : Z * option Z :=
  match op with
  | StoreDefault n => if st.1 =? Z.max 1 n then st else (Z.max 1 n, None)
  | Override n => (st.1, if 0 <? n then Some n else None)
  | ReadLimit => st
  end.
Definition stores (ops : list limit_op) : Z := len (List.filter (fun op => match op with StoreDefault _ => true | _ => false end) ops).

Definition limit_related (k : Z) (st : SharedPeerWorkerLimit * WorkerLimit) (sp : Z * option Z) : Prop :=
  default_limit st.1 = sp.1 /\ 1 <= sp.1 /\ 0 <= generation st.1 <= k /\ 0 <= peer_worker_override_generation st.2 <= generation st.1 /\
  match sp.2 with
  | Some v => 0 < v /\ max_peer_workers st.2 = v /\ peer_worker_override_generation st.2 = generation st.1
  | None => max_peer_workers st.2 <= 0 \/ peer_worker_override_generation st.2 < generation st.1
  end.
Lemma limit_step_related k st sp op : 0 <= k < 2 ^ 64 - 1 -> limit_related k st sp ->
  limit_related (k + match op with StoreDefault _ => 1 | _ => 0 end) (limit_step st op) (limit_spec sp op).
Proof.
  destruct st as [[d g] [m og]], sp as [sd so]. unfold limit_related. cbn [fst snd default_limit generation max_peer_workers peer_worker_override_generation].
  intros Hk (-> & Hd & Hg & Hog & Ho). destruct op as [n|n|]; cbn [limit_step limit_spec fst snd].
  - unfold store_default. cbn [default_limit generation]. destruct (Z.eqb_spec sd (Z.max 1 n)) as [E|E]; cbn [fst snd default_limit generation max_peer_workers peer_worker_override_generation].
    + do 4 (split; [lia|]). done.
    + rewrite wrap_small by (unfold in_width; lia). do 4 (split; [lia|]). right. lia.
  - unfold set_peer_worker_limit. cbn [default_limit generation max_peer_workers peer_worker_override_generation]. do 4 (split; [lia|]). destruct (Z.ltb_spec 0 n); [done|]. left. lia.
  - unfold current_peer_worker_limit. cbn [default_limit max_peer_workers peer_worker_override_generation generation].
    destruct (0 <? m); [destruct (Z.eqb_spec g og) as [E|E]|]; cbn [fst snd default_limit max_peer_workers peer_worker_override_generation generation];
      (do 4 (split; [lia|])); [done| |done]. destruct so as [v|]; [lia|by left].
Qed.

(** The worker limit an engine reads is always the latest setting that applies: the
    override of this torrent if one was set after the configured limit last changed,
    else the configured limit, of at least one.  Reading it, or storing an equal limit
    again, changes nothing. *)
Theorem worker_limit_refines ops w :
  stores ops < 2 ^ 64 - 1 -> max_peer_workers w = 0 ->
  let st := fold_left limit_step ops (shared_new, with_shared_peer_worker_limit w shared_new) in
  let sp := fold_left limit_spec ops (DEFAULT_PEER_WORKER_LIMIT, None) in
  (current_peer_worker_limit (Some st.1) st.2).1 = default sp.1 sp.2 /\ 1 <= default sp.1 sp.2.
Proof.
  intros Hn Hw. cbv zeta.
  assert (forall ops k st sp, 0 <= k -> k + stores ops < 2 ^ 64 - 1 -> limit_related k st sp -> limit_related (k + stores ops) (fold_left limit_step ops st) (fold_left limit_spec ops sp)) as H.
  { clear. induction ops as [|op ops IH]; intros k st sp Hk Hn Hr; [by replace (k + stores []) with k by (unfold stores, len; cbn; lia)|].
    assert (stores (op :: ops) = match op with StoreDefault _ => 1 | _ => 0 end + stores ops) as E by (unfold stores; cbn [List.filter]; destruct op; rewrite ?len_cons; lia).
    assert (0 <= stores ops) by apply len_nonneg. cbn [fold_left]. rewrite E, Z.add_assoc. apply IH; [destruct op; lia|lia|].
    apply limit_step_related; [destruct op; lia|done]. }
  specialize (H ops 0 (shared_new, with_shared_peer_worker_limit w shared_new) (DEFAULT_PEER_WORKER_LIMIT, None) ltac:(lia) ltac:(lia)).
  rewrite Z.add_0_l in H. destruct H as (H1 & H2 & H3 & H4 & H5); [split; [done|]; split; [by vm_compute|]; split; [done|]; split; [done|]; left; cbn; lia|].
  destruct (fold_left limit_step ops _) as [[d g] [m og]]. destruct (fold_left limit_spec ops _) as [sd so].
  cbn [fst snd default_limit generation max_peer_workers peer_worker_override_generation] in *. subst d.
  unfold current_peer_worker_limit, load_default. cbn [max_peer_workers peer_worker_override_generation generation default_limit].
  destruct so as [v|]; cbn [default from_option id].
  - destruct H5 as (Hv & -> & ->). rewrite (proj2 (Z.ltb_lt 0 v)), Z.eqb_refl by done. cbn. lia.
  - split; [|done]. destruct H5 as [Hm|Hlt].
    + rewrite (proj2 (Z.ltb_ge 0 m)) by lia. cbn. lia.
    + rewrite (proj2 (Z.eqb_neq g og)) by lia. destruct (0 <? m); cbn; lia.
Qed.

Lemma worker_limit_refines_witness :
  let st := fold_left limit_step [Override 7; StoreDefault 64; ReadLimit] (shared_new, with_shared_peer_worker_limit (mkLimit 0 9) shared_new) in
  let st' := fold_left limit_step [Override 7; StoreDefault 10; StoreDefault 10; ReadLimit] (shared_new, with_shared_peer_worker_limit (mkLimit 0 9) shared_new) in
  (current_peer_worker_limit (Some st.1) st.2).1 = 7 /\ (current_peer_worker_limit (Some st'.1) st'.2).1 = 10.
Proof.
  split.
  - apply (worker_limit_refines [Override 7; StoreDefault 64; ReadLimit] (mkLimit 0 9)); [by vm_compute|done].
  - apply (worker_limit_refines [Override 7; StoreDefault 10; StoreDefault 10; ReadLimit] (mkLimit 0 9)); [by vm_compute|done].
Defined.

(** ** Checkpoints lose little *)

Inductive checkpoint_op : Type := Verified | Persist (force : bool) (now : Z) (persist : option CoreError) (verified : nat) (later : Z).
(** The state with the number of pieces verified since the last written checkpoint began. *)
Definition checkpoint_step (st : Checkpoints * Z) (op : checkpoint_op) : Checkpoints * Z :=
  match op with
  | Verified => (mark_resume_piece_verified st.1, st.2 + 1)
  | Persist force now persist verified later =>
      match resume_checkpoint_due st.1 force now with
      | None => st
      | Some _ => ((maybe_persist_resume st.1 force now persist verified later).2,
                   match persist with Some _ => st.2 + Z.of_nat verified | None => Z.of_nat verified end)
      end
  end.
Definition verified_of (op : checkpoint_op) : Z := match op with Verified => 1 | Persist _ _ _ v _ => Z.of_nat v end.
Definition fresh_checkpoints (now : Z) : Checkpoints := mkCheckpoints 0 0 now 0.

Definition pending_ok (k : Z) (st : Checkpoints * Z) : Prop :=
  0 <= resume_checkpointed_generation st.1 /\ resume_dirty_generation st.1 <= k /\ 0 <= st.2 /\ resume_dirty_generation st.1 = resume_checkpointed_generation st.1 + st.2.

Lemma marks_add n : forall c k, 0 <= resume_dirty_generation c -> resume_dirty_generation c <= k -> k + Z.of_nat n < 2 ^ 64 ->
  let c' := Nat.iter n mark_resume_piece_verified c in
  resume_dirty_generation c' = resume_dirty_generation c + Z.of_nat n /\ resume_checkpointed_generation c' = resume_checkpointed_generation c /\
  resume_checkpoint_at c' = resume_checkpoint_at c.
Proof.
  induction n as [|n IH]; intros c k H0 Hd Hk; [cbn; lia|]. cbv zeta. destruct (IH c k H0 Hd ltac:(lia)) as (E1 & E2 & E3). cbv zeta in *. cbn [Nat.iter nat_rect]. fold (Nat.iter n mark_resume_piece_verified c).
  unfold mark_resume_piece_verified at 1 3 5. cbn [resume_dirty_generation resume_checkpointed_generation resume_checkpoint_at]. rewrite E1, E2, E3.
  rewrite wrap_small by (unfold in_width; lia). split; [lia|done].
Qed.

Lemma checkpoint_step_ok k st op : pending_ok k st -> 0 <= k -> k + verified_of op < 2 ^ 64 -> pending_ok (k + verified_of op) (checkpoint_step st op).
Proof.
  destruct st as [c p]. unfold pending_ok. cbn [fst snd]. intros (H1 & H2 & H3 & H4) Hk Hb. destruct op as [|force now persist v later]; cbn [checkpoint_step verified_of fst snd] in *.
  - unfold mark_resume_piece_verified. cbn [resume_dirty_generation resume_checkpointed_generation]. rewrite wrap_small by (unfold in_width; lia). lia.
  - unfold maybe_persist_resume. destruct (resume_checkpoint_due c force now) as [o|] eqn:E; [|cbn [fst snd]; lia].
    assert (o = resume_dirty_generation c) as -> by (unfold resume_checkpoint_due in E; repeat case_match; congruence).
    destruct (marks_add v c k ltac:(lia) ltac:(lia) ltac:(lia)) as (E1 & E2 & E3). destruct persist; cbn [fst snd complete_resume_checkpoint resume_dirty_generation resume_checkpointed_generation]; rewrite E1, ?E2; lia.
Qed.

(** Coalescing bounds what a crash can lose.  Over any verifications and checkpoint
    attempts, failed ones included, a deferred attempt means that nothing is pending, or
    fewer than 64 pieces and for less than 5 seconds since the last checkpoint; a forced
    one is never deferred; and pieces verified while a checkpoint was written stay pending. *)
Theorem checkpoints_coalesce ops started :
  zsum verified_of ops < 2 ^ 64 ->
  let '(c, pending) := fold_left checkpoint_step ops (fresh_checkpoints started, 0) in
  resume_dirty_generation c = resume_checkpointed_generation c + pending /\
  (forall now, resume_checkpoint_due c false now = None <->
     pending = 0 \/ pending < RESUME_CHECKPOINT_PIECES /\ saturating_sub now (resume_checkpoint_at c) < RESUME_CHECKPOINT_INTERVAL) /\
  forall now, resume_checkpoint_due c true now = Some (resume_dirty_generation c).
Proof.
  intros Hb. destruct (fold_left checkpoint_step ops _) as [c p] eqn:E.
  assert (pending_ok (zsum verified_of ops) (c, p)) as (H1 & H2 & H3 & H4); cbn [fst snd] in *.
  { assert (forall ops k st, 0 <= k -> pending_ok k st -> k + zsum verified_of ops < 2 ^ 64 -> pending_ok (k + zsum verified_of ops) (fold_left checkpoint_step ops st)) as H.
    { clear. induction ops as [|op ops IH]; intros k st Hk Hst Hb; [by rewrite zsum_nil, Z.add_0_r|]. rewrite zsum_cons in *.
      assert (0 <= verified_of op) by (destruct op; cbn; lia). assert (0 <= zsum verified_of ops) by (apply zsum_nonneg; intros []; cbn; lia).
      cbn [fold_left]. rewrite Z.add_assoc. apply IH; [lia| |lia]. apply checkpoint_step_ok; [done|lia|lia]. }
    rewrite <- E. rewrite <- (Z.add_0_l (zsum verified_of ops)). apply H; [lia|unfold pending_ok; cbn; lia|lia]. }
  split; [done|]. split; [|done]. intros now. unfold resume_checkpoint_due. rewrite H4. destruct (Z.eqb_spec (resume_checkpointed_generation c + p) (resume_checkpointed_generation c)).
  - split; [intros _; left; lia|done].
  - replace (saturating_sub (resume_checkpointed_generation c + p) (resume_checkpointed_generation c)) with p by (unfold saturating_sub; lia).
    destruct (Z.ltb_spec (saturating_sub now (resume_checkpoint_at c)) RESUME_CHECKPOINT_INTERVAL), (Z.ltb_spec p RESUME_CHECKPOINT_PIECES); cbn [andb]; split; naive_solver lia.
Qed.

Lemma checkpoints_coalesce_witness :
  let '(c, pending) := fold_left checkpoint_step [Verified; Verified; Persist true 3 None 1 4; Persist false 5 None 0 6] (fresh_checkpoints 0, 0) in
  pending = 1 /\ resume_checkpoint_due c true 9 = Some 3.
Proof.
  pose proof (checkpoints_coalesce [Verified; Verified; Persist true 3 None 1 4; Persist false 5 None 0 6] 0 ltac:(by vm_compute)) as H.
  destruct (fold_left checkpoint_step _ _) as [c p] eqn:E. destruct H as (_ & _ & H). vm_compute in E. injection E as <- <-. split; [done|]. exact (H 9).
Defined.

(** ** Completed bytes *)

Lemma zsum_List_filter {A} (f : A -> Z) (q : A -> bool) l : zsum f (List.filter q l) = zsum (fun x => if q x then f x else 0) l.
Proof. induction l as [|a l IH]; [done|]. cbn [List.filter]. rewrite zsum_cons, <- IH. destruct (q a); [by rewrite zsum_cons|lia]. Qed.

(** The bytes of piece [i]. *)
Definition bytes_of_piece (meta : TorrentMeta) (i : Z) : Z := Z.min (i * piece_length meta + piece_length meta) (total_length meta) - i * piece_length meta.
Definition bytes_had (meta : TorrentMeta) (have : PieceBitfield) : Z :=
  zsum (bytes_of_piece meta) (List.filter (bf_has have) (seqZ 0 (meta_piece_count meta))).

Section lengths.
Context (meta : TorrentMeta) (Hv : valid_v1_layout meta) (Hpl : 0 < piece_length meta <= MAX_PIECE_LENGTH) (Ht : 0 <= total_length meta).

Lemma layout_bounds n : n = meta_piece_count meta -> n * piece_length meta < total_length meta + piece_length meta /\ total_length meta <= n * piece_length meta.
Proof.
  intros ->. destruct Hv as [Hn _]. pose proof (proj1 (div_ceil_spec (total_length meta) (piece_length meta) (meta_piece_count meta) ltac:(lia)) (eq_sym Hn)). lia.
Qed.
Lemma bytes_of_inner i : 0 <= i < meta_piece_count meta - 1 -> bytes_of_piece meta i = piece_length meta.
Proof. intros Hi. pose proof (layout_bounds _ eq_refl). unfold bytes_of_piece. nia. Qed.
Lemma bytes_of_last : 0 < meta_piece_count meta -> last_piece_length meta = Ok (bytes_of_piece meta (meta_piece_count meta - 1)) /\ 0 < bytes_of_piece meta (meta_piece_count meta - 1) <= piece_length meta.
Proof.
  intros Hn. pose proof (layout_bounds _ eq_refl) as Hb. unfold bytes_of_piece, last_piece_length.
  set (n := meta_piece_count meta) in *. set (p := piece_length meta) in *. set (t := total_length meta) in *.
  assert (t <> 0) by nia. rewrite !(proj2 (Z.eqb_neq _ _)) by lia. cbv zeta.
  rewrite (Z.min_r _ t) by nia. split; [|nia]. f_equal. pose proof (Z.div_mod t p ltac:(lia)) as E. pose proof (Z.mod_pos_bound t p ltac:(lia)).
  destruct (Z.eqb_spec (t mod p) 0) as [E0|E0].
  - assert (t / p = n) by nia. nia.
  - assert (t / p = n - 1) by nia. nia.
Qed.
Lemma bytes_of_nonneg i : 0 <= i < meta_piece_count meta -> 0 <= bytes_of_piece meta i <= piece_length meta.
Proof.
  intros Hi. destruct (Z.eq_dec i (meta_piece_count meta - 1)) as [->|Hne]; [pose proof (bytes_of_last ltac:(lia)); lia|]. rewrite bytes_of_inner by lia. lia.
Qed.
Lemma bytes_sum (n : nat) : Z.of_nat n <= meta_piece_count meta -> zsum (bytes_of_piece meta) (seqZ 0 (Z.of_nat n)) = Z.min (Z.of_nat n * piece_length meta) (total_length meta).
Proof.
  intros Hn. pose proof (layout_bounds _ eq_refl) as Hb. induction n as [|n IH]; [change (seqZ 0 (Z.of_nat 0)) with (@nil Z); rewrite zsum_nil; lia|]. rewrite seqZ_S, zsum_app, zsum_single, IH by lia.
  unfold bytes_of_piece. rewrite !Z.add_0_l. replace (Z.of_nat (S n)) with (Z.of_nat n + 1) by lia. nia.
Qed.
Lemma bytes_had_le have : 0 <= bytes_had meta have <= total_length meta.
Proof.
  unfold bytes_had. rewrite zsum_List_filter. split.
  - apply zsum_nonneg. intros i Hi%elem_of_seqZ. destruct (bf_has have i); [|lia]. by apply bytes_of_nonneg.
  - transitivity (zsum (bytes_of_piece meta) (seqZ 0 (meta_piece_count meta))).
    + assert (forall i, i ∈ seqZ 0 (meta_piece_count meta) -> (if bf_has have i then bytes_of_piece meta i else 0) <= bytes_of_piece meta i) as H.
      { intros i Hi%elem_of_seqZ. pose proof (bytes_of_nonneg i Hi). destruct (bf_has have i); lia. }
      revert H. generalize (seqZ 0 (meta_piece_count meta)). induction l as [|i l IH]; intros H; [done|]. rewrite !zsum_cons.
      specialize (IH ltac:(intros j Hj; apply H; by right)). specialize (H i ltac:(by left)). lia.
    + unfold meta_piece_count, len. rewrite bytes_sum; [lia|unfold meta_piece_count, len; lia].
Qed.
End lengths.

(** The completed bytes shown are exactly the bytes of the verified pieces, the
    shorter last piece included, and never more than the torrent has. *)
Theorem progress_exact meta have :
  valid_v1_layout meta -> 0 < piece_length meta <= MAX_PIECE_LENGTH -> 0 <= total_length meta ->
  update_progress_state meta (meta_piece_count meta) have = Ok (bytes_had meta have) /\ 0 <= bytes_had meta have <= total_length meta.
Proof.
  intros Hv Hpl Ht. pose proof (bytes_had_le meta Hv Hpl Ht have) as Hle. split; [|done]. unfold update_progress_state.
  pose proof (layout_bounds meta Hv Hpl _ eq_refl) as Hb. pose proof (len_nonneg (pieces meta)) as Hn0. fold (meta_piece_count meta) in Hn0.
  rewrite bf_count_has by done. set (n := meta_piece_count meta) in *. set (p := piece_length meta) in *.
  assert (zsum (fun i => b2z (bf_has have i)) (seqZ 0 n) * p = bytes_had meta have + (if (0 <? n) && bf_has have (n - 1) then p - bytes_of_piece meta (n - 1) else 0)) as Hsum.
  { unfold bytes_had. fold n. rewrite zsum_List_filter. destruct (Z.ltb_spec 0 n) as [Hn|Hn]; cbn [andb]; [|by replace n with 0 by lia].
    replace n with (Z.of_nat (S (Z.to_nat (n - 1)))) at 1 2 by lia. rewrite seqZ_S, !zsum_app, !zsum_single, Z2Nat.id, Z.add_0_l by lia.
    assert (zsum (fun i => b2z (bf_has have i)) (seqZ 0 (n - 1)) * p = zsum (fun i => if bf_has have i then bytes_of_piece meta i else 0) (seqZ 0 (n - 1))) as Hin.
    { assert (forall i, i ∈ seqZ 0 (n - 1) -> bytes_of_piece meta i = p) as H by (intros i Hi%elem_of_seqZ; apply bytes_of_inner; [done|done|done|fold n; lia]).
      revert H. generalize (seqZ 0 (n - 1)). induction l as [|i l IH]; intros H; [done|]. rewrite !zsum_cons, Z.mul_add_distr_r, IH by (intros j Hj; apply H; by right).
      rewrite (H i) by by left. destruct (bf_has have i); cbn [b2z]; lia. }
    destruct (bf_has have (n - 1)); cbn [b2z]; lia. }
  assert (zsum (fun i => b2z (bf_has have i)) (seqZ 0 n) * p <= u64_max) as Hmax.
  { assert (zsum (fun i => b2z (bf_has have i)) (seqZ 0 n) <= n) as Hc.
    { replace n with (len (seqZ 0 n)) at 2 by (unfold len; rewrite length_seqZ; lia). generalize (seqZ 0 n). induction l as [|i l IH]; [done|]. rewrite zsum_cons, len_cons. destruct (bf_has have i); cbn [b2z]; lia. }
    destruct Hv as [_ Hm]. fold (meta_piece_count meta) in Hm. fold n in Hm. transitivity (MAX_TORRENT_PIECES * MAX_PIECE_LENGTH); [|by vm_compute]. nia. }
  unfold saturating_mul. rewrite (Z.min_r u64_max), Hsum by done. destruct ((0 <? n) && bf_has have (n - 1)) eqn:E.
  - apply andb_true_iff in E as [En%Z.ltb_lt _]. destruct (bytes_of_last meta Hv Hpl Ht En) as [El Hl]. fold n in El, Hl. rewrite El, !bind_ret. f_equal. unfold saturating_sub. fold p. lia.
  - rewrite bind_ret. f_equal. lia.
Qed.

Lemma progress_exact_witness :
  update_progress_state two_files (meta_piece_count two_files) (bf_set (bf_new 2) 1) = Ok (bytes_had two_files (bf_set (bf_new 2) 1)) /\
  0 <= bytes_had two_files (bf_set (bf_new 2) 1) <= total_length two_files.
Proof. apply progress_exact; [split; by vm_compute|by vm_compute|by vm_compute]. Defined.

(** ** Resume data survives *)

Section survives.
Context `{ResumeJson}.

Lemma resume_lengths meta : valid_v1_layout meta -> 0 < piece_length meta <= MAX_PIECE_LENGTH -> 0 <= total_length meta ->
  mapM (engine_piece_length meta) (seqZ 0 (meta_piece_count meta)) = Ok (map (bytes_of_piece meta) (seqZ 0 (meta_piece_count meta))) /\
  map (fun r => r.2 - r.1) (omap (piece_byte_range meta) (seqZ 0 (meta_piece_count meta))) = map (bytes_of_piece meta) (seqZ 0 (meta_piece_count meta)).
Proof.
  intros Hv Hpl Ht.
  assert (forall i, i ∈ seqZ 0 (meta_piece_count meta) -> engine_piece_length meta i = Ok (bytes_of_piece meta i) /\
    exists r, piece_byte_range meta i = Some r /\ r.2 - r.1 = bytes_of_piece meta i) as H1.
  { intros i Hi%elem_of_seqZ. split.
    - unfold engine_piece_length. destruct (Z.eqb_spec (i + 1) (meta_piece_count meta)) as [E|E].
      + replace i with (meta_piece_count meta - 1) by lia. apply (bytes_of_last meta Hv Hpl Ht). lia.
      + f_equal. symmetry. apply bytes_of_inner; [done|done|done|lia].
    - destruct (piece_byte_range_valid meta i Hv Hpl Hi) as [-> _]. by eexists. }
  revert H1. generalize (seqZ 0 (meta_piece_count meta)). induction l as [|i l IH]; intros H1; [done|].
  destruct (H1 i ltac:(by left)) as [E1 (r & E2 & E3)]. destruct IH as [I1 I2]; [intros j Hj; apply H1; by right|].
  cbn [mapM map omap list_omap]. rewrite E1, bind_ret, I1, bind_ret, E2. cbn [map]. by rewrite E3, <- I2.
Qed.

Lemma indexed_lengths (f : Z -> Z) n (q : Z -> bool) : 0 <= n ->
  zsum (fun i => default 0 (get (map f (seqZ 0 n)) i)) (List.filter q (seqZ 0 n)) = zsum f (List.filter q (seqZ 0 n)).
Proof.
  intros Hn. apply zsum_ext. intros i Hi%list_elem_of_In. apply filter_In in Hi as [Hi%list_elem_of_In%elem_of_seqZ _].
  unfold get. rewrite (proj2 (Z.ltb_ge _ _)), list_lookup_fmap, lookup_seqZ_lt by lia. cbn. f_equal. lia.
Qed.

(** Resume data survives a restart, and only while the payload is untouched.  What an
    engine persists is accepted again for the same torrent: with the files as they were
    stamped the pieces are those persisted, without reading the payload; with any other
    stamps, or none, they are what a recheck finds.  Under another torrent's key the
    record is refused. *)
Theorem resume_survives meta torrent_key have downloaded uploaded dir now finished priorities wanted stamps current rechecked other :
  valid_v1_layout meta -> 0 < piece_length meta <= MAX_PIECE_LENGTH -> 0 <= total_length meta ->
  len (bf_bytes have) = div_ceil (meta_piece_count meta) 8 -> len wanted = len (files meta) -> len stamps = len (files meta) ->
  exists file, persist_resume meta torrent_key have downloaded uploaded (total_length meta) dir now finished priorities wanted stamps = Ok file /\
    load_or_recheck meta torrent_key file current rechecked =
      (if bool_decide (stamps <> [] /\ stamps = current) then Ok have else rechecked) /\
    (other <> torrent_key -> load_or_recheck meta other file current rechecked = Err (Storage "resume torrent key mismatch")).
Proof.
  intros Hv Hpl Ht Hbf Hw Hst. destruct (resume_lengths meta Hv Hpl Ht) as [E1 E2]. pose proof (len_nonneg (pieces meta)) as Hn. fold (meta_piece_count meta) in Hn.
  unfold persist_resume. rewrite E1, bind_ret. cbv zeta. unfold build_resume_with_wanted. cbn [key resume_name piece_bitfield resume_piece_count resume_downloaded resume_uploaded resume_completed resume_total resume_priorities resume_wanted resume_dir date_added date_completed].
  eexists. split; [done|]. unfold load_or_recheck, load_resume, load_resume_with_piece_lengths. rewrite serialize_utf8, parse_serialize, E2. cbn [negb key].
  assert (forall r, key r = torrent_key -> resume_name r = name meta -> piece_bitfield r = have -> resume_piece_count r = meta_piece_count meta ->
    resume_total r = total_length meta -> resume_completed r = bytes_had meta have -> resume_wanted r = wanted -> file_stamps r = stamps ->
    structurally_inconsistent meta (map (bytes_of_piece meta) (seqZ 0 (meta_piece_count meta))) r = false) as Hc.
  { intros r R1 R2 R3 R4 R5 R6 R7 R8. pose proof (bytes_had_le meta Hv Hpl Ht have) as Hle.
    assert (len (map (bytes_of_piece meta) (seqZ 0 (meta_piece_count meta))) = meta_piece_count meta) as Hl by (unfold len; rewrite length_map, length_seqZ; lia).
    unfold structurally_inconsistent. rewrite R2, R3, R4, R5, R6, R7, R8, Hl, Hw, Hst, Hbf, !Z.eqb_refl, indexed_lengths by done. fold (bytes_had meta have).
    rewrite Z.eqb_refl, bool_decide_eq_true_2, (proj2 (Z.ltb_ge _ _)) by (done || lia). cbn [negb andb orb]. by rewrite !andb_false_r. }
  split.
  - rewrite bool_decide_eq_true_2 by done. cbn [negb]. rewrite Hc by (cbn; rewrite ?indexed_lengths by done; done). rewrite bind_ret. cbn [file_stamps piece_bitfield].
    destruct (decide (stamps = current)) as [<-|Hne].
    + rewrite Z.eqb_refl. rewrite (bool_decide_eq_true_2 (stamps = stamps)) by done. cbn [andb]. rewrite andb_true_r. by repeat case_bool_decide; naive_solver.
    + rewrite (bool_decide_eq_false_2 (stamps = current)) by done. rewrite andb_false_r, bool_decide_eq_false_2 by naive_solver. done.
  - intros Ho. rewrite bool_decide_eq_false_2 by congruence. done.
Qed.
End survives.

(** A format that reads back what it wrote: the bits of the record's number. *)
#[export] Instance FilePriority_countable : Countable FilePriority.
Proof.
  apply (inj_countable' file_weight (fun z => if z =? -1 then Unwanted else if z =? 0 then Low else if z =? 1 then Normal else High)).
  by intros [].
Defined.
#[export] Instance PieceBitfield_eq_dec : EqDecision PieceBitfield.
Proof. solve_decision. Defined.
#[export] Instance PieceBitfield_countable : Countable PieceBitfield.
Proof. apply (inj_countable' bf_bytes mkPieceBitfield). by intros []. Defined.
#[export] Instance ResumeFileStamp_countable : Countable ResumeFileStamp.
Proof.
  apply (inj_countable' (fun s => (exists_ s, stamp_length s, modified_unix_nanos s, device s, inode s, changed_unix_seconds s, changed_subsec_nanos s))
           (fun '(a, b, c, d, e, f, g) => mkStamp a b c d e f g)).
  by intros [].
Defined.
#[export] Instance FastResume_eq_dec : EqDecision FastResume.
Proof. solve_decision. Defined.
#[export] Instance FastResume_countable : Countable FastResume.
Proof.
  apply (inj_countable' (fun r => (key r, resume_name r, piece_bitfield r, resume_piece_count r, (resume_downloaded r, resume_uploaded r, resume_completed r, resume_total r),
                                   (resume_priorities r, resume_wanted r, file_stamps r), (resume_dir r, date_added r, date_completed r)))
           (fun '(a, b, c, d, (e, f, g, h), (i, j, k), (l, m, n)) => mkResume a b c d e f g h i j k l m n)).
  by intros [].
Defined.

Fixpoint bits_of (p : Pos.t) : list byte := match p with xH => [] | xO p => "0" :: bits_of p | xI p => "1" :: bits_of p end.
Fixpoint of_bits (l : list byte) : Pos.t := match l with [] => xH | b :: l => if Byte.eqb b "0" then xO (of_bits l) else xI (of_bits l) end.
Lemma of_bits_of p : of_bits (bits_of p) = p.
Proof. induction p as [p IH|p IH|]; cbn; by rewrite ?IH. Qed.
#[export] Program Instance bit_json : ResumeJson := {
  serialize_json r := bits_of (countable.encode r);
  parse_json s := countable.decode (of_bits s) }.
Next Obligation. intros r. cbv beta. by rewrite of_bits_of, decode_encode. Qed.
Next Obligation. intros r. apply utf8_valid_ascii. generalize (countable.encode r). induction p; cbn [bits_of]; constructor; done. Qed.

Lemma resume_survives_witness :
  let have := bf_set (bf_new 2) 1 in
  let stamps := [mkStamp true 3 None None None None None; mkStamp true 5 (Some 7) None None None None] in
  exists file, persist_resume two_files (KeyV1 ZERO) have 1 2 (total_length two_files) [] 9 false [] [true; false] stamps = Ok file /\
    load_or_recheck two_files (KeyV1 ZERO) file stamps (Ok (bf_new 2)) = Ok have.
Proof.
  intros have stamps.
  destruct (resume_survives two_files (KeyV1 ZERO) have 1 2 [] 9 false [] [true; false] stamps stamps (Ok (bf_new 2)) (KeyV1 ZERO)) as (file & E & El & _);
    [split; by vm_compute|by vm_compute|by vm_compute|by vm_compute|by vm_compute|by vm_compute|].
  exists file. split; [exact E|]. rewrite El. by rewrite bool_decide_eq_true_2.
Defined.

(** ** Recheck *)

(** A recheck trusts nothing it has not read.  If no read fails but by a missing or
    short file, the recheck returns, and it has exactly the pieces whose bytes on
    disk are verified; any other failure is its error. *)
Theorem recheck_exact `{Digests} meta (read_piece : Z -> list byte + CoreError) :
  (forall i e, 0 <= i < meta_piece_count meta -> read_piece i = inr e -> exists msg, e = Io msg) ->
  exists bf, recheck read_piece meta = Ok bf /\ len (bf_bytes bf) = div_ceil (meta_piece_count meta) 8 /\
    forall i, 0 <= i < meta_piece_count meta ->
      bf_has bf i = match read_piece i with inl data => verify_piece meta i data | inr _ => false end.
Proof.
  intros Hio. unfold recheck. pose proof (len_nonneg (pieces meta)) as Hn. fold (meta_piece_count meta) in Hn.
  assert (forall k : nat, Z.of_nat k <= meta_piece_count meta ->
    exists bf, try_fold (fun bf i => b ← verify_piece_on_disk read_piece meta i; Ok (if (b : bool) then bf_set bf i else bf)) (bf_new (meta_piece_count meta)) (seqZ 0 (Z.of_nat k)) = Ok bf /\
      len (bf_bytes bf) = div_ceil (meta_piece_count meta) 8 /\
      forall i, 0 <= i -> bf_has bf i = (i <? Z.of_nat k) && match read_piece i with inl data => verify_piece meta i data | inr _ => false end) as Hk.
  { induction k as [|k IH]; intros Hk.
    - exists (bf_new (meta_piece_count meta)). split; [done|]. split.
      + unfold bf_new, len. cbn [bf_bytes]. rewrite length_replicate, Z2Nat.id; [done|]. unfold div_ceil. apply Z.div_pos; lia.
      + intros i Hi. rewrite bf_new_has, (proj2 (Z.ltb_ge i _)) by lia. done.
    - destruct (IH ltac:(lia)) as (bf & E & Hl & Hh). rewrite seqZ_S, try_fold_app, E, bind_ret, Z.add_0_l. cbn [try_fold].
      assert (exists b, verify_piece_on_disk read_piece meta (Z.of_nat k) = Ok b /\ b = match read_piece (Z.of_nat k) with inl data => verify_piece meta (Z.of_nat k) data | inr _ => false end) as (b & Eb & Hb).
      { unfold verify_piece_on_disk. fold (meta_piece_count meta). rewrite (proj2 (Z.leb_gt _ _)) by lia. destruct (read_piece (Z.of_nat k)) as [d|e] eqn:Er; [by eexists|].
        destruct (Hio (Z.of_nat k) e ltac:(lia) Er) as [msg ->]. by eexists. }
      rewrite Eb, !bind_ret. exists (if b then bf_set bf (Z.of_nat k) else bf). split; [done|]. split; [by destruct b; [rewrite bf_set_len|]|].
      intros i Hi. destruct (Z.eqb_spec (Z.of_nat k) i) as [<-|Hne].
      + rewrite (proj2 (Z.ltb_lt _ _)) by lia. cbn [andb]. rewrite <- Hb. destruct b.
        * assert (Z.of_nat k < 8 * len (bf_bytes bf)) as Hin.
          { rewrite Hl. pose proof (proj1 (div_ceil_spec (meta_piece_count meta) 8 _ ltac:(lia)) eq_refl). lia. }
          rewrite bf_set_has, Z.eqb_refl by lia. by rewrite orb_true_r.
        * rewrite Hh, (proj2 (Z.ltb_ge _ _)) by lia. done.
      + assert ((i <? Z.of_nat (S k)) = (i <? Z.of_nat k)) as -> by (destruct (Z.ltb_spec i (Z.of_nat k)), (Z.ltb_spec i (Z.of_nat (S k))); lia || done).
        destruct b; [|by apply Hh]. rewrite <- Hh by done.
        assert (Z.of_nat k < 8 * len (bf_bytes bf)) as Hin by (rewrite Hl; pose proof (proj1 (div_ceil_spec (meta_piece_count meta) 8 _ ltac:(lia)) eq_refl); lia).
        rewrite bf_set_has, (proj2 (Z.eqb_neq _ _)) by lia. by rewrite orb_false_r. }
  destruct (Hk (Z.to_nat (meta_piece_count meta)) ltac:(lia)) as (bf & E & Hl & Hh). rewrite Z2Nat.id in E, Hh by done.
  exists bf. split; [exact E|]. split; [done|]. intros i Hi. rewrite Hh, (proj2 (Z.ltb_lt _ _)) by lia. done.
Qed.

Lemma recheck_exact_witness :
  let read i := if i =? 0 then inl [x61; x61; x61; x61] else inr (Io "missing") in
  exists bf, recheck (H := toy_digests) read two_files = Ok bf /\ len (bf_bytes bf) = div_ceil (meta_piece_count two_files) 8.
Proof.
  intros read. destruct (@recheck_exact toy_digests two_files read) as (bf & E & Hl & _).
  - intros i e Hi He. unfold read in He. destruct (i =? 0); [discriminate He|]. injection He as <-. by exists "missing"%string.
  - exists bf. split; [exact E|exact Hl].
Defined.
