(* ===== verification/Session.v ===== *)
(** * A peer's download session: [crates/swarmotterd/src/engine/parallel.rs]

    [parallel_peer_session] with [fill_parallel_piece_window], [ParallelPieceDownload] and
    [handle_parallel_pex_message]: the state of one session and of the download it shares,
    a state and error monad, and one definition per handler.  What arrives, the clock, the
    connection and the storage are parameters; locks and limiters order steps and are not
    part of the state, and neither are counters for display. *)

From S2P Require Import Prelude Text Bits Addr Hash Bencode Meta Extensions PeerFilter Candidates Storage Torrent Ratio Peer PieceCorrect Pieces.

Local Open Scope byte_scope.
Local Open Scope Z_scope.

(** ** The state of a session *)

Record ParallelPieceDownload : Type := mkDownload {
  d_piece : Z; reqs : list (Z * Z); next_req : Z; d_in_flight : Z; outstanding_blocks : gmap Z Z; assembler : PieceAssembler }.

Record Session : Type := mkSession {
  shared : ParallelPieceState;
  stored : list (Z * list byte);        (** the pieces written to storage *)
  sent : list Message; queue : InboundUploadQueue; uploaded : Z; announced : PieceBitfield;
  peer_bf : option BitfieldBits; peer_choking : bool; progressed : bool;
  remote_pex_id : option Z; request_window : PeerRequestWindow; pex_peers : list SocketAddr;
  downloads : gmap Z ParallelPieceDownload; global_in_flight : Z }.

Definition set_shared (s : Session) (x : ParallelPieceState) : Session :=
  mkSession x (stored s) (sent s) (queue s) (uploaded s) (announced s) (peer_bf s) (peer_choking s) (progressed s)
    (remote_pex_id s) (request_window s) (pex_peers s) (downloads s) (global_in_flight s).
Definition set_stored (s : Session) (x : list (Z * list byte)) : Session :=
  mkSession (shared s) x (sent s) (queue s) (uploaded s) (announced s) (peer_bf s) (peer_choking s) (progressed s)
    (remote_pex_id s) (request_window s) (pex_peers s) (downloads s) (global_in_flight s).
Definition set_uploads (s : Session) (m : list Message) (q : InboundUploadQueue) (u : Z) (a : PieceBitfield) : Session :=
  mkSession (shared s) (stored s) m q u a (peer_bf s) (peer_choking s) (progressed s)
    (remote_pex_id s) (request_window s) (pex_peers s) (downloads s) (global_in_flight s).
Definition set_peer (s : Session) (bf : option BitfieldBits) (c : bool) : Session :=
  mkSession (shared s) (stored s) (sent s) (queue s) (uploaded s) (announced s) bf c (progressed s)
    (remote_pex_id s) (request_window s) (pex_peers s) (downloads s) (global_in_flight s).
Definition set_progressed (s : Session) (x : bool) : Session :=
  mkSession (shared s) (stored s) (sent s) (queue s) (uploaded s) (announced s) (peer_bf s) (peer_choking s) x
    (remote_pex_id s) (request_window s) (pex_peers s) (downloads s) (global_in_flight s).
Definition set_extension (s : Session) (r : option Z) (w : PeerRequestWindow) (p : list SocketAddr) : Session :=
  mkSession (shared s) (stored s) (sent s) (queue s) (uploaded s) (announced s) (peer_bf s) (peer_choking s) (progressed s)
    r w p (downloads s) (global_in_flight s).
Definition set_downloads (s : Session) (d : gmap Z ParallelPieceDownload) (g : Z) : Session :=
  mkSession (shared s) (stored s) (sent s) (queue s) (uploaded s) (announced s) (peer_bf s) (peer_choking s) (progressed s)
    (remote_pex_id s) (request_window s) (pex_peers s) d g.

(** ** The monad: an outcome, and the state also after an error *)

Definition sess (A : Type) : Type := Session -> outcome A * Session.
#[export] Instance sess_ret : MRet sess := fun _ a s => (Ok a, s).
#[export] Instance sess_bind : MBind sess := fun _ _ k m s =>
  match m s with
  | (Ok a, s) => k a s
  | (Err e, s) => (Err e, s)
  | (Panic, s) => (Panic, s)
  | (OutOfFuel, s) => (OutOfFuel, s)
  end.
Definition gets {A} (f : Session -> A) : sess A := fun s => (Ok (f s), s).
Definition modify (f : Session -> Session) : sess () := fun s => (Ok (), f s).
Definition raise {A} (e : CoreError) : sess A := fun s => (Err e, s).
Definition lift {A} (m : outcome A) : sess A := fun s => (m, s).
Definition catch {A} (m : sess A) : sess (A + CoreError) := fun s =>
  match m s with
  | (Ok a, s) => (Ok (inl a), s)
  | (Err e, s) => (Ok (inr e), s)
  | (Panic, s) => (Panic, s)
  | (OutOfFuel, s) => (OutOfFuel, s)
  end.
(** [if let Ok(a) = m]. *)
Definition attempt {A} (m : outcome A) : sess (option A) :=
  lift (match m with Ok a => Ok (Some a) | Err _ => Ok None | Panic => Panic | OutOfFuel => OutOfFuel end).

(** What a wait for the next message gives: the instants before and after it, and a
    message, the end of the connection, an error, or nothing in time. *)
Inductive arrival : Type := Arrived (m : Message) | Closed | ReadFailed | TimedOut.
Record event : Type := mkEvent { at_ : Z; arrives : arrival; after : Z }.

(** How a turn of the inner loop ends: with a valid block or without; going on, or
    leaving the loop, with an error or without. *)
Inductive turn : Type := Next (block : bool) | Halt (block : bool) (e : option CoreError).
Inductive PeerSessionOutcome : Type := Progressed | NoProgress | NoWorkAvailable.

Definition download_new (piece_index piece_len : Z) : outcome ParallelPieceDownload :=
  rs ← block_requests piece_len;
  Ok (mkDownload piece_index rs 0 0 ∅ (assembler_new piece_index piece_len)).

Definition record_block (d : ParallelPieceDownload) (offset : Z) (block : list byte) (in_flight : Z)
  : outcome (option (bool * ParallelPieceDownload * Z)) :=
  match outstanding_blocks d !! offset with
  | None => Ok None
  | Some expected_len =>
      if negb (len block =? expected_len) then Ok None
      else
        '(complete, a) ← add_block (assembler d) offset block;
        Ok (Some (complete, mkDownload (d_piece d) (reqs d) (next_req d) (saturating_sub (d_in_flight d) 1) (delete offset (outstanding_blocks d)) a,
                  saturating_sub in_flight 1))
  end.

Section session.
Context `{Digests}.
Variables (meta : TorrentMeta) (peer_addr : SocketAddr) (allow_ipv6 : bool) (peer_filter : PeerFilter) (pex_enabled : bool)
  (pex_max_peers candidate_count deadline : Z).
(** The connection, reading a block of what is stored, and storing a piece. *)
Variables (write : connection) (read_block : list (Z * list byte) -> Z -> Z -> Z -> list byte + CoreError)
  (write_piece : list (Z * list byte) -> Z -> list byte -> option CoreError).
Let n : Z := meta_piece_count meta.

Definition put (m : Message) : sess () := fun s =>
  match send write (sent s) m with
  | Ok sent => (Ok (), set_uploads s sent (queue s) (uploaded s) (announced s))
  | Err e => (Err e, s)
  | Panic => (Panic, s)
  | OutOfFuel => (OutOfFuel, s)
  end.

(** The shared state under its lock. *)
Definition work {A} (f : ParallelPieceState -> A) : sess A := gets (fun s => f (shared s)).
Definition update_work (f : ParallelPieceState -> ParallelPieceState) : sess () := modify (fun s => set_shared s (f (shared s))).
Definition try_work (f : ParallelPieceState -> outcome ParallelPieceState) : sess () :=
  st ← work f; st ← lift st; modify (fun s => set_shared s st).

(** ** Requests *)

(** The remaining requests of a download, as far as the budget goes; the global count
    is advanced with every request sent. *)
Fixpoint send_from (rs : list (Z * Z)) (d : ParallelPieceDownload) (request_budget : Z) : sess ParallelPieceDownload :=
  match rs with
  | [] => mret d
  | (offset, length) :: rs =>
      g ← gets global_in_flight;
      if g <? request_budget then
        _ ← put (Request (d_piece d) offset length);
        _ ← modify (fun s => set_downloads s (downloads s) (global_in_flight s + 1));
        send_from rs (mkDownload (d_piece d) (reqs d) (next_req d + 1) (d_in_flight d + 1) (<[offset := length]> (outstanding_blocks d)) (assembler d)) request_budget
      else mret d
  end.
Definition send_more (d : ParallelPieceDownload) (request_budget : Z) : sess ParallelPieceDownload :=
  send_from (rest (reqs d) (next_req d)) d request_budget.

Definition insert_download (d : ParallelPieceDownload) : sess () :=
  modify (fun s => set_downloads s (<[d_piece d := d]> (downloads s)) (global_in_flight s)).

Fixpoint fill_loop (fuel : nat) (bf : BitfieldBits) (max_for_this_session request_budget : Z) (reserved_any : bool) : sess bool :=
  match fuel with
  | O => lift OutOfFuel
  | S fuel =>
      ds ← gets downloads; g ← gets global_in_flight;
      if (Z.of_nat (size ds) <? max_for_this_session) && (g <? request_budget) then
        r ← work (fun st => reserve_piece st bf peer_addr n);
        match r with
        | (None, _) => mret reserved_any
        | (Some piece_index, st) =>
            _ ← update_work (fun _ => st);
            piece_len ← lift (piece_length_for_index_u32 meta piece_index);
            d ← lift (download_new piece_index piece_len);
            r ← catch (send_more d request_budget);
            match r with
            | inr e => _ ← update_work (fun st => release_piece st piece_index); raise e
            | inl d => _ ← insert_download d; fill_loop fuel bf max_for_this_session request_budget true
            end
        end
      else mret reserved_any
  end.
Definition fill_parallel_piece_window (bf : BitfieldBits) (request_budget : Z) : sess bool :=
  remaining_pieces ← work (fun st => len (List.filter (eligible st bf) (seqZ 0 n)));
  let candidate_share := div_ceil remaining_pieces (Z.max 1 candidate_count) in
  fill_loop (S (Z.to_nat n)) bf (Z.min NORMAL_PEER_PIECE_WINDOW candidate_share) request_budget false.

(** ** Messages both loops handle *)

Definition apply_peer_have (bf : option BitfieldBits) (piece : Z) : outcome BitfieldBits :=
  bitfield_set (default (bitfield_new n) bf) piece.

Definition handle_parallel_pex_message (id : Z) (payload : list byte) : sess () :=
  if id =? 0 then
    hs ← attempt (parse_extension_handshake payload);
    match hs with
    | Some hs => modify (fun s => set_extension s (if pex_enabled then id_for hs UT_PEX_NAME else remote_pex_id s)
                                    (set_remote_reqq (request_window s) (reqq hs)) (pex_peers s))
    | None => mret ()
    end
  else if negb pex_enabled then mret ()
  else
    remote ← gets remote_pex_id;
    if negb (bool_decide (Some id = remote)) then mret ()
    else
      pex ← attempt (parse_pex payload);
      match pex with
      | Some pex => modify (fun s => set_extension s (remote_pex_id s) (request_window s)
                                       (add_pex_peers (pex_peers s) (added pex ++ added6 pex) allow_ipv6 peer_filter pex_max_peers))
      | None => mret ()
      end.

(** [piece_length_for_index_u32(index).unwrap_or(0)]. *)
Definition served_length (index : Z) : Z := match piece_length_for_index_u32 meta index with Ok l => l | _ => 0 end.

Definition control (m : Message) : sess () :=
  match m with
  | Have piece =>
      bf ← gets peer_bf;
      bf ← lift (apply_peer_have bf piece);
      _ ← modify (fun s => set_peer s (Some bf) (peer_choking s));
      try_work (fun st => note_peer_have st peer_addr piece n)
  | Bitfield bits =>
      bf ← lift (bitfield_from_bytes bits n);
      _ ← try_work (fun st => note_peer_bitfield st peer_addr bf n);
      modify (fun s => set_peer s (Some bf) (peer_choking s))
  | Extended id payload => handle_parallel_pex_message (u8 id) payload
  | Request piece offset length =>
      modify (fun s => set_uploads s (sent s) (offer (queue s) piece offset length (have (shared s)) n served_length).2 (uploaded s) (announced s))
  | Cancel piece offset length =>
      modify (fun s => set_uploads s (sent s) (cancel (queue s) piece offset length) (uploaded s) (announced s))
  | _ => mret ()
  end.

(** ** Uploading and announcing *)

Definition serve : sess bool := fun s =>
  match serve_one (read_block (stored s)) write (queue s, sent s, uploaded s) with
  | Ok (more, (q, m, u)) => (Ok more, set_uploads s m q u (announced s))
  | Err e => (Err e, set_uploads s (sent s) (drop 1 (queue s)) (uploaded s) (announced s))
  | Panic => (Panic, s)
  | OutOfFuel => (OutOfFuel, s)
  end.
Fixpoint drain (k : nat) : sess () :=
  match k with
  | O => mret ()
  | S k => more ← serve; if (more : bool) then drain k else mret ()
  end.
Fixpoint announce_from (snapshot : PieceBitfield) (pieces : list Z) (count : Z) : sess () :=
  match pieces with
  | [] => mret ()
  | piece :: pieces =>
      a ← gets announced; m ← gets sent;
      '(a, m, count) ← lift (announce_step write snapshot (a, m, count) piece);
      _ ← modify (fun s => set_uploads s m (queue s) (uploaded s) a);
      announce_from snapshot pieces count
  end.
(** The end of every turn: a bounded drain, then the announcement of new pieces. *)
Definition serve_and_announce : sess () :=
  _ ← drain SERVE_DRAIN_PER_ITERATION;
  snapshot ← work have;
  announce_from snapshot (seqZ 0 n) 0.

(** ** A piece's blocks *)

Definition finish_download (snapshot : BitfieldBits) (piece : Z) (data : list byte) : sess turn :=
  _ ← modify (fun s => set_downloads s (delete piece (downloads s)) (global_in_flight s));
  if verify_piece meta piece data then
    written ← gets stored;
    match write_piece written piece data with
    | Some e => _ ← update_work (fun st => release_piece st piece); mret (Halt true (Some e))
    | None =>
        _ ← modify (fun s => set_stored s (stored s ++ [(piece, data)]));
        known ← work (fun st => bf_has (have st) piece);
        _ ← modify (fun s => set_progressed s (progressed s || negb known));
        _ ← update_work (fun st => finish_piece st piece);
        r ← catch (put (Have piece));
        match r with
        | inr e => mret (Halt true (Some e))
        | inl _ =>
            bf ← gets peer_bf;
            w ← gets request_window;
            r ← catch (fill_parallel_piece_window (default snapshot bf) (desired_in_flight w));
            match r with
            | inr e => mret (Halt true (Some e))
            | inl _ => mret (Next true)
            end
        end
    end
  else _ ← update_work (fun st => release_piece st piece); mret (Next true).

Definition handle_block (snapshot : BitfieldBits) (piece offset : Z) (block : list byte) (now : Z) : sess turn :=
  ds ← gets downloads; g ← gets global_in_flight;
  match ds !! piece with
  | None => mret (Next false)
  | Some d =>
      r ← catch (lift (record_block d offset block g));
      match r with
      | inr e => mret (Halt false (Some e))
      | inl None => mret (Next false)
      | inl (Some (complete, d, g)) =>
          _ ← modify (fun s => set_downloads s (<[piece := d]> (downloads s)) g);
          _ ← modify (fun s => set_extension s (remote_pex_id s) (window_record_block (request_window s) (len block) now) (pex_peers s));
          if (complete : bool) then
            data ← lift (assembler_data (assembler d));
            finish_download snapshot piece data
          else
            w ← gets request_window;
            r ← catch (send_more d (desired_in_flight w));
            match r with
            | inr e => mret (Halt true (Some e))
            | inl d => _ ← modify (fun s => set_downloads s (<[piece := d]> (downloads s)) (global_in_flight s)); mret (Next true)
            end
      end
  end.

(** One message in the inner loop, up to its [break]. *)
Definition handle_window_message (snapshot : BitfieldBits) (m : Message) (now : Z) : sess turn :=
  match m with
  | Piece piece offset block => handle_block snapshot piece offset block now
  | Choke => _ ← modify (fun s => set_peer s (peer_bf s) true); mret (Halt false None)
  | Unchoke => _ ← modify (fun s => set_peer s (peer_bf s) false); mret (Next false)
  | m => _ ← control m; mret (Next false)
  end.

(** ** The loops *)

Definition PIECE_WINDOW_TIMEOUT : Z := 20 * 10 ^ 9.

(** The inner loop, over what arrives: the session error, whether any block was
    received, and what has not arrived yet. *)
Fixpoint window_loop (snapshot : BitfieldBits) (evs : list event) (err : option CoreError) (last_block_at : Z) (received_any : bool)
  : sess (option CoreError * bool * list event) :=
  match evs with
  | [] => mret (err, received_any, [])
  | e :: later =>
      ds ← gets downloads;
      if bool_decide (ds = ∅) || (saturating_sub (last_block_at + PIECE_WINDOW_TIMEOUT) (at_ e) =? 0) then mret (err, received_any, evs)
      else
        match arrives e with
        | Closed | ReadFailed | TimedOut => mret (err, received_any, later)
        | Arrived m =>
            t ← handle_window_message snapshot m (after e);
            match t with
            | Halt block e' => mret (match e' with Some x => Some x | None => err end, received_any || block, later)
            | Next block =>
                r ← catch serve_and_announce;
                match r with
                | inr x => mret (Some x, received_any || block, later)
                | inl _ => window_loop snapshot later err (if block then after e else last_block_at) (received_any || block)
                end
            end
        end
  end.

(** Leaving with an error: the peer's pieces no longer count. *)
Definition fail_session {A} (e : CoreError) : sess A :=
  _ ← try_work (fun st => remove_peer st peer_addr n); raise e.

(** A window with an unchoked peer: [None] leaves the session, with the new flag for
    missing work; [Some] goes on. *)
Definition run_window (snapshot : BitfieldBits) (now : Z) (evs : list event) : sess (bool + list event) :=
  _ ← modify (fun s => set_downloads s ∅ 0);
  w ← gets request_window;
  r ← catch (fill_parallel_piece_window snapshot (desired_in_flight w));
  let err := match r with inr e => Some e | inl _ => None end in
  ds ← gets downloads;
  if bool_decide (ds = ∅) then
    missing ← work (fun st => peer_has_missing_piece st snapshot n);
    err ← (if (missing : bool) then mret err
           else r ← catch (put NotInterested); mret (match r with inr e => Some e | inl _ => err end));
    match err with
    | Some e => fail_session e
    | None => mret (inl missing)
    end
  else
    '(err, received, later) ← window_loop snapshot evs err now false;
    ds ← gets downloads;
    _ ← update_work (fun st => set_reserved st (reserved st ∖ dom ds));
    _ ← modify (fun s => set_downloads s ∅ (global_in_flight s));
    match err with
    | Some e => fail_session e
    | None => if (received : bool) then mret (inr later) else mret (inl false)
    end.

(** One message while the peer chokes us or has not told its pieces. *)
Definition handle_waiting_message (m : Message) : sess () :=
  match m with
  | Unchoke => modify (fun s => set_peer s (peer_bf s) false)
  | Choke => modify (fun s => set_peer s (peer_bf s) true)
  | Piece _ _ _ => mret ()
  | m => control m
  end.

(** The outer loop; it returns whether work was missing.  The end of what arrives is
    the deadline. *)
Fixpoint session_loop (fuel : nat) (evs : list event) (no_work_available : bool) : sess bool :=
  match fuel with
  | O => lift OutOfFuel
  | S fuel =>
      match evs with
      | [] => mret no_work_available
      | e :: later =>
          if deadline <? at_ e then mret no_work_available
          else
            complete ← work (fun st => selection_complete (selection st) (have st));
            if (complete : bool) then mret no_work_available
            else
              choking ← gets peer_choking; bf ← gets peer_bf;
              match choking, bf with
              | false, Some snapshot =>
                  r ← run_window snapshot (at_ e) evs;
                  match r with
                  | inl missing => mret (no_work_available || missing)
                  | inr later => session_loop fuel later no_work_available
                  end
              | _, _ =>
                  match arrives e with
                  | Closed | ReadFailed | TimedOut => mret no_work_available
                  | Arrived m =>
                      _ ← handle_waiting_message m;
                      r ← catch serve_and_announce;
                      match r with
                      | inr x => fail_session x
                      | inl _ => session_loop fuel later no_work_available
                      end
                  end
              end
      end
  end.

(** ** The session *)

Definition our_bitfield (have : PieceBitfield) : outcome BitfieldBits :=
  try_fold (fun bf i => if bf_has have i then bitfield_set bf i else Ok bf) (bitfield_new n) (seqZ 0 n).

Definition CLIENT_VERSION : text := bytes_of "SwarmOtter/0.1".
Definition greet : sess () :=
  h ← work have;
  bf ← lift (our_bitfield h);
  _ ← put (encode_message bf);
  _ ← put (Extended x00 (encode_extension_handshake_with_reqq (if pex_enabled then [(UT_PEX_NAME, 1)] else []) CLIENT_VERSION None));
  _ ← put Interested;
  put Unchoke.

(** [traffic_allowed] is the binder's; [connecting] is what the session's permit and
    its connection give. *)
Definition parallel_peer_session (traffic_allowed : bool) (connecting : option CoreError) (evs : list event) : sess PeerSessionOutcome :=
  if negb traffic_allowed then mret NoProgress
  else if negb (admits peer_filter (ip peer_addr)) then mret NoProgress
  else
    match connecting with
    | Some e => raise e
    | None =>
        _ ← greet;
        _ ← modify (fun s => set_uploads s (sent s) (queue s) (uploaded s) (have (shared s)));
        no_work ← session_loop (S (length evs)) evs false;
        _ ← modify (fun s => set_uploads s (sent s) [] (uploaded s) (announced s));
        _ ← try_work (fun st => remove_peer st peer_addr n);
        p ← gets progressed;
        mret (if (p : bool) then Progressed else if (no_work : bool) then NoWorkAvailable else NoProgress)
    end.
End session.

(** A session's own state before it begins. *)
Definition session_new (shared : ParallelPieceState) (pex_peers : list SocketAddr) (now : Z) : Session :=
  mkSession shared [] [] [] 0 (bf_new 0) None true false None (window_new None now) pex_peers ∅ 0.
