(* ===== verification/SessionCorrect.v ===== *)
(** * Download sessions are safe: theorems over [Session]

    A Hoare triple for the session's monad in which every step must return, one
    invariant of the session's state that every handler keeps, and the theorems on
    whole sessions: they return; what they store is verified, and they announce,
    serve and request nothing else; they leave no reservation behind. *)

From S2P Require Import Prelude Text Bits Addr Hash Bencode BencodeCorrect Meta MetaCorrect Extensions PeerFilter Candidates Storage Torrent Ratio Peer PieceCorrect Pieces Engine Session.

Local Open Scope byte_scope.
Local Open Scope Z_scope.

(** ** Triples: the code returns, with [Q] on success and [E] on an error *)

Definition triple {A} (P : Session -> Prop) (m : sess A) (Q : A -> Session -> Prop) (E : Session -> Prop) : Prop :=
  forall s, P s -> match m s with
                   | (Ok a, s) => Q a s
                   | (Err _, s) => E s
                   | (Panic, _) | (OutOfFuel, _) => False
                   end.

Lemma triple_ret {A} (P : Session -> Prop) (a : A) Q E : (forall s, P s -> Q a s) -> triple P (mret a) Q E.
Proof. intros H s Hs. by apply H. Qed.
Lemma triple_bind {A B} P (m : sess A) (k : A -> sess B) Q Q' E :
  triple P m Q E -> (forall a, triple (Q a) (k a) Q' E) -> triple P (m ≫= k) Q' E.
Proof.
  intros Hm Hk s Hs. unfold mbind, sess_bind. specialize (Hm s Hs). destruct (m s) as [[a|e| |] s']; [by apply Hk|done..].
Qed.
Lemma triple_gets {A} P (f : Session -> A) Q E : (forall s, P s -> Q (f s) s) -> triple P (gets f) Q E.
Proof. intros H s Hs. by apply H. Qed.
Lemma triple_modify P f Q E : (forall s, P s -> Q () (f s)) -> triple P (modify f) Q E.
Proof. intros H s Hs. by apply H. Qed.
Lemma triple_raise {A} P e (Q : A -> Session -> Prop) (E : Session -> Prop) : (forall s, P s -> E s) -> triple P (raise e) Q E.
Proof. intros H s Hs. by apply H. Qed.
Lemma triple_catch {A} P (m : sess A) Q E Q' E' :
  triple P m Q E -> (forall a s, Q a s -> Q' (inl a) s) -> (forall e s, E s -> Q' (inr e) s) -> triple P (catch m) Q' E'.
Proof. intros Hm H1 H2 s Hs. unfold catch. specialize (Hm s Hs). destruct (m s) as [[a|e| |] s']; auto. Qed.
Lemma triple_lift {A} P (m : outcome A) Q (E : Session -> Prop) :
  returns m -> (forall s a, P s -> m = Ok a -> Q a s) -> (forall s, P s -> E s) -> triple P (lift m) Q E.
Proof. intros Hr H1 H2 s Hs. unfold lift. destruct m; auto. Qed.
Lemma triple_pre {A} (P P' : Session -> Prop) (m : sess A) Q E : triple P' m Q E -> (forall s, P s -> P' s) -> triple P m Q E.
Proof. intros Hm H s Hs. by apply Hm, H. Qed.
Lemma triple_post {A} P (m : sess A) (Q Q' : A -> Session -> Prop) (E E' : Session -> Prop) :
  triple P m Q E -> (forall a s, Q a s -> Q' a s) -> (forall s, E s -> E' s) -> triple P m Q' E'.
Proof. intros Hm H1 H2 s Hs. specialize (Hm s Hs). destruct (m s) as [[a|e| |] s']; auto. Qed.
Lemma triple_lift_ok {A} P (m : outcome A) Q (E : Session -> Prop) :
  is_ok m = true -> (forall s a, P s -> Q a s) -> triple P (lift m) Q E.
Proof. intros Hr H1 s Hs. unfold lift. destruct m; [by apply H1|done..]. Qed.
Lemma is_ok_bind {A B} (m : outcome A) (k : A -> outcome B) : is_ok m = true -> (forall a, m = Ok a -> is_ok (k a) = true) -> is_ok (m ≫= k) = true.
Proof. destruct m; cbn; auto. Qed.
(** A read value that the rest may depend on. *)
Lemma triple_read {A B} P (f : Session -> A) (k : A -> sess B) Q E :
  (forall a, triple (fun s => P s /\ f s = a) (k a) Q E) -> triple P (gets f ≫= k) Q E.
Proof. intros H. eapply triple_bind; [by apply triple_gets with (Q := fun a s => P s /\ f s = a)|done]. Qed.
Lemma triple_attempt {A} P (m : outcome A) Q E : returns m -> (forall s o, P s -> Q o s) -> triple P (attempt m) Q E.
Proof. intros Hr H s Hs. unfold attempt, lift. destruct m; cbn in *; auto. Qed.

(** ** Pieces of the state *)

Section invariant.
Context `{Digests}.
Variables (meta : TorrentMeta) (peer_addr : SocketAddr) (sel : PieceSelection) (have0 : PieceBitfield) (others : gmap SocketAddr BitfieldBits)
  (reserved0 : gset Z) (asked : Z * Z * Z -> Prop) (read_block : list (Z * list byte) -> Z -> Z -> Z -> list byte + CoreError).
Notation n := (meta_piece_count meta).
(** Every piece has a length, as in a validated torrent. *)
Hypothesis lengths : forall p, 0 <= p < n -> exists l, piece_length_for_index_u32 meta p = Ok l /\ 0 <= l.

Definition download_ok (k : Z) (d : ParallelPieceDownload) : Prop :=
  d_piece d = k /\ (exists l, piece_length_for_index_u32 meta k = Ok l /\ 0 <= l /\ reqs d = map (block_at l) (seqZ 0 (blocks_for l))) /\
  0 <= next_req d /\ (forall o l, outstanding_blocks d !! o = Some l -> 0 <= o) /\
  0 <= piece_length (assembler d) /\ len (buf (assembler d)) = piece_length (assembler d).

(** A request of the peer inside a verified piece, as [served_length] measures it. *)
Definition upload_ok (h : PieceBitfield) (r : Z * Z * Z) : Prop :=
  let '(p, o, l) := r in asked r /\ 0 <= p /\ 0 <= o /\ 0 < l /\ servable n (served_length meta) h (p, o, l).
(** What the session may say when the verified pieces are [h] and [w] is written. *)
Definition message_ok (h : PieceBitfield) (w : list (Z * list byte)) (m : Message) : Prop :=
  match m with
  | Bitfield bs => forall i, 0 <= i -> bhas (mkBitfield bs n) i = true -> bf_has h i = true
  | Have p => 0 <= p < n /\ bf_has h p = true
  | Piece p o block => exists l w', upload_ok h (p, o, l) /\ w' `prefix_of` w /\ read_block w' p o l = inl block
  | Request p o l => 0 <= p < n /\ includes sel p = true /\
      exists k, piece_length_for_index_u32 meta p = Ok k /\ (o, l) ∈ map (block_at k) (seqZ 0 (blocks_for k))
  | _ => True
  end.

Definition grows (h h' : PieceBitfield) : Prop := forall i, 0 <= i -> bf_has h i = true -> bf_has h' i = true.
Lemma upload_ok_grows h h' r : grows h h' -> upload_ok h r -> upload_ok h' r.
Proof. destruct r as [[p o] l]. unfold upload_ok, servable. intros Hg. naive_solver. Qed.
Lemma message_ok_grows h h' w w' m : grows h h' -> w `prefix_of` w' -> message_ok h w m -> message_ok h' w' m.
Proof.
  intros Hg Hw. destruct m; cbn [message_ok]; try done.
  - intros [Hp Hh]. split; [done|]. apply Hg; [lia|done].
  - intros Hb i Hi Hx. apply Hg; [done|]. by apply Hb.
  - intros (l & v & Hl & Hv & Hr). exists l, v. split; [by eapply upload_ok_grows|]. split; [by etrans|done].
Qed.

(** A piece to fetch when the pieces [h] are there: selected, missing, not reserved by
    another session. *)
Definition fresh (h : PieceBitfield) (k : Z) : Prop := 0 <= k < n /\ includes sel k = true /\ bf_has h k = false /\ k ∉ reserved0.

(** [R]: the pieces reserved by others. *)
Record inv (R : gset Z) (s : Session) : Prop := {
  inv_avail : len (availability (shared s)) = n;
  inv_sel : selection (shared s) = sel;
  inv_peers : delete peer_addr (peer_pieces (shared s)) = others;
  inv_reserved : reserved (shared s) = R ∪ dom (downloads s);
  inv_disjoint : R ## dom (downloads s);
  inv_kept : reserved0 ⊆ reserved (shared s);
  inv_downloads : forall k d, downloads s !! k = Some d -> fresh (have (shared s)) k /\ download_ok k d;
  inv_len : len (bf_bytes (have (shared s))) = div_ceil n 8;
  inv_have : forall i, 0 <= i -> bf_has (have (shared s)) i = bf_has have0 i || bool_decide (i ∈ map fst (stored s));
  inv_stored : Forall (fun e => fresh have0 e.1 /\ verify_piece meta e.1 e.2 = true) (stored s);
  inv_once : NoDup (map fst (stored s));
  inv_sent : Forall (message_ok (have (shared s)) (stored s)) (sent s);
  inv_queue : Forall (upload_ok (have (shared s))) (queue s);
  inv_queue_len : len (queue s) <= MAX_INBOUND_SERVE_QUEUE;
  inv_progress : progressed s = true <-> exists i, i ∈ map fst (stored s) /\ bf_has have0 i = false }.

(** With an error condition that does not matter, the step never fails. *)
Abbreviation keeps R m := (triple (inv R) m (fun _ => inv R) (inv R)).
Abbreviation holds R m := (forall E, triple (inv R) m (fun _ => inv R) E).

(** Steps that only touch what the invariant does not mention. *)
Lemma inv_same R s s' :
  inv R s -> shared s' = shared s -> stored s' = stored s -> sent s' = sent s -> queue s' = queue s -> progressed s' = progressed s ->
  downloads s' = downloads s -> inv R s'.
Proof. intros [] E1 E2 E3 E4 E5 E6. by split; rewrite ?E1, ?E2, ?E3, ?E4, ?E5, ?E6. Qed.

Lemma keeps_same R f :
  (forall s, shared (f s) = shared s /\ stored (f s) = stored s /\ sent (f s) = sent s /\ queue (f s) = queue s /\ progressed (f s) = progressed s /\ downloads (f s) = downloads s) ->
  holds R (modify f).
Proof. intros Hf E. apply triple_modify. intros s Hs. destruct (Hf s) as (? & ? & ? & ? & ? & ?). by eapply inv_same. Qed.

Lemma inv_put R s m : inv R s -> message_ok (have (shared s)) (stored s) m -> inv R (set_uploads s (sent s ++ [m]) (queue s) (uploaded s) (announced s)).
Proof. intros [] Hm. split; try done. cbn [sent set_uploads shared]. apply Forall_app. split; [done|by constructor]. Qed.
Lemma keeps_put write (P : Session -> Prop) R m :
  (forall s, P s -> inv R s /\ message_ok (have (shared s)) (stored s) m) -> triple P (put write m) (fun _ => inv R) (inv R).
Proof.
  intros HP s Hs. destruct (HP s Hs) as [Hi Hm]. unfold put, send. destruct (write (sent s) m); [done|]. by apply inv_put.
Qed.

(** ** The shared state *)

Lemma count_pieces_len f bf a : len a = n -> exists a', count_pieces f bf a n = Ok a' /\ len a' = n.
Proof.
  intros Ha. destruct (count_pieces_spec f bf (length a) a ltac:(lia)) as (a' & E & Hl & _). unfold len in Ha. rewrite Ha in E.
  exists a'. split; [done|]. unfold len. lia.
Qed.

(** Steps on what is known of peers. *)
Lemma keeps_try_work R (f : ParallelPieceState -> outcome ParallelPieceState) :
  (forall st, len (availability st) = n -> delete peer_addr (peer_pieces st) = others -> is_ok (f st) = true) ->
  (forall st st', len (availability st) = n -> f st = Ok st' ->
     len (availability st') = n /\ delete peer_addr (peer_pieces st') = delete peer_addr (peer_pieces st) /\
     have st' = have st /\ reserved st' = reserved st /\ selection st' = selection st) ->
  holds R (try_work f).
Proof.
  intros Hr Hf E s Hs. unfold try_work, work, gets, lift, modify, mbind, sess_bind. specialize (Hr (shared s) (inv_avail _ _ Hs) (inv_peers _ _ Hs)).
  destruct (f (shared s)) as [st| | |] eqn:Ef; cbn in *; try done. destruct (Hf _ _ (inv_avail _ _ Hs) Ef) as (H1 & H2 & H3 & H4 & H5).
  destruct Hs. split; cbn [set_shared shared stored sent queue progressed downloads]; rewrite ?H1, ?H2, ?H3, ?H4, ?H5; done.
Qed.

Lemma keeps_bitfield R bf : holds R (try_work (fun st => note_peer_bitfield st peer_addr bf n)).
Proof.
  apply keeps_try_work.
  - intros st Ha _. unfold note_peer_bitfield. destruct (peer_pieces st !! peer_addr) as [prev|].
    + destruct (count_pieces_len less prev (availability st) Ha) as (a & E & Hl). rewrite E, bind_ret. destruct (count_pieces_len more bf a Hl) as (a' & -> & _). done.
    + rewrite bind_ret. destruct (count_pieces_len more bf _ Ha) as (a' & -> & _). done.
  - intros st st' Ha Hst. pose proof (peer_step_same n st (Announces peer_addr bf) st' Hst) as (E1 & E2 & E3). rewrite E1, E2, E3.
    unfold note_peer_bitfield in Hst. apply bind_Ok in Hst as (a & Hst1 & Hst). apply bind_Ok in Hst as (a' & Hst2 & [= <-]). cbn [set_availability availability peer_pieces].
    assert (len a = n) as Hla.
    { destruct (peer_pieces st !! peer_addr); [|by injection Hst1 as <-]. destruct (count_pieces_len less b (availability st) Ha) as (a1 & E & Hl). rewrite E in Hst1. by injection Hst1 as <-. }
    destruct (count_pieces_len more bf a Hla) as (a2 & E & Hl). rewrite E in Hst2. injection Hst2 as <-. by rewrite delete_insert_eq.
Qed.
Lemma keeps_remove R : holds R (try_work (fun st => remove_peer st peer_addr n)).
Proof.
  apply keeps_try_work.
  - intros st Ha _. unfold remove_peer. destruct (peer_pieces st !! peer_addr) as [prev|]; [|done].
    destruct (count_pieces_len less prev (availability st) Ha) as (a & -> & _). done.
  - intros st st' Ha Hst. pose proof (peer_step_same n st (Leaves peer_addr) st' Hst) as (E1 & E2 & E3). rewrite E1, E2, E3.
    unfold remove_peer in Hst. destruct (peer_pieces st !! peer_addr) as [prev|]; [|by injection Hst as <-].
    destruct (count_pieces_len less prev (availability st) Ha) as (a & E & Hl). rewrite E, bind_ret in Hst. injection Hst as <-. cbn. by rewrite delete_delete_eq.
Qed.


Lemma bitfield_set_ok f i : 0 <= i -> is_ok (bitfield_set f i) = true.
Proof.
  intros Hi. unfold bitfield_set. destruct (i <? Peer.piece_count f); [|done]. cbv zeta. destruct (Z.ltb_spec (i / 8) (len (bits f))); [|done].
  pose proof (Z.div_pos i 8 Hi ltac:(lia)). destruct (or_byte_Ok (bits f) (i / 8) (Z.shiftr 128 (i mod 8)) ltac:(lia)) as (b & _ & ->). done.
Qed.
Lemma keeps_have R piece : 0 <= piece -> holds R (try_work (fun st => note_peer_have st peer_addr piece n)).
Proof.
  intros Hp. apply keeps_try_work.
  - intros st Ha _. unfold note_peer_have. destruct (Z.leb_spec n piece); [done|]. cbv zeta. destruct (bhas _ piece); [done|].
    apply is_ok_bind; [by apply bitfield_set_ok|]. intros f _. apply is_ok_bind; [|done]. unfold update, index, get. rewrite (proj2 (Z.ltb_ge _ _)) by lia.
    destruct (lookup_lt_is_Some_2 (availability st) (Z.to_nat piece)) as [v ->]; [unfold len in Ha; lia|done].
  - intros st st' Ha Hst. pose proof (peer_step_same n st (Has peer_addr piece) st' Hst) as (E1 & E2 & E3). rewrite E1, E2, E3.
    unfold note_peer_have in Hst. destruct (Z.leb_spec n piece); [by injection Hst as <-|]. cbv zeta in Hst. destruct (bhas _ piece).
    + injection Hst as <-. cbn. by rewrite delete_insert_eq.
    + apply bind_Ok in Hst as (f & _ & Hst). apply bind_Ok in Hst as (a & Hu & [= <-]). cbn. rewrite delete_insert_eq. split; [|done].
      unfold update in Hu. apply bind_Ok in Hu as (v & _ & [= <-]). unfold len in *. by rewrite length_insert.
Qed.

(** A message from the wire: its positions are not negative. *)
Definition asked_message (m : Message) : Prop := match m with Have p => 0 <= p | Request p o l => (0 <= p /\ 0 <= o /\ 0 <= l) /\ asked (p, o, l) | _ => True end.

Lemma offer_ok R s p o l : (0 <= p /\ 0 <= o /\ 0 <= l) /\ asked (p, o, l) -> inv R s ->
  let q := (offer (queue s) p o l (have (shared s)) n (served_length meta)).2 in
  Forall (upload_ok (have (shared s))) q /\ len q <= MAX_INBOUND_SERVE_QUEUE.
Proof.
  intros [Hp Hasked] Hs. cbv zeta. pose proof (inv_queue _ _ Hs) as Hq. pose proof (inv_queue_len _ _ Hs) as Hl. unfold offer.
  destruct ((n <=? p) || negb (bf_has (have (shared s)) p)) eqn:E1; [done|]. destruct ((l =? 0) || (MAX_SERVE_BLOCK_LENGTH <? l)) eqn:E2; [done|].
  destruct (served_length meta p <? o + l) eqn:E3; [done|]. destruct (Z.leb_spec MAX_INBOUND_SERVE_QUEUE (len (queue s))) as [|E4]; [done|]. cbn [snd].
  apply orb_false_iff in E1 as [E1 E1'], E2 as [E2 E2']. apply Z.leb_gt in E1. apply negb_false_iff in E1'. apply Z.eqb_neq in E2. apply Z.ltb_ge in E2', E3.
  split; [|rewrite len_app; change (len [(p, o, l)]) with 1; lia]. apply Forall_app. split; [done|]. constructor; [|constructor]. unfold upload_ok. split; [done|]. split; [lia|]. split; [lia|]. split; [lia|]. by repeat split.
Qed.
Lemma queue_cancel_ok h (q : InboundUploadQueue) p o l : Forall (upload_ok h) q -> Forall (upload_ok h) (cancel q p o l) /\ len (cancel q p o l) <= len q.
Proof.
  intros Hq. unfold cancel. split.
  - apply Forall_forall. intros r Hr%list_elem_of_In. apply filter_In in Hr as [Hr%list_elem_of_In _]. by apply (proj1 (Forall_forall _ _) Hq).
  - unfold len. pose proof (filter_length_le (fun r => negb (bool_decide (r = (p, o, l)))) q). lia.
Qed.
Lemma inv_uploads R s q a : inv R s -> Forall (upload_ok (have (shared s))) q -> len q <= MAX_INBOUND_SERVE_QUEUE ->
  inv R (set_uploads s (sent s) q (uploaded s) a).
Proof. intros [] Hq Hl. by split. Qed.

Lemma parse_pex_returns payload : returns (parse_pex payload).
Proof. unfold parse_pex. apply bind_returns; [apply decode_returns|]. intros v _. by apply bind_returns. Qed.

Lemma keeps_extended allow_ipv6 peer_filter pex_enabled pex_max R id payload :
  holds R (handle_parallel_pex_message allow_ipv6 peer_filter pex_enabled pex_max id payload).
Proof.
  intros E. unfold handle_parallel_pex_message. destruct (id =? 0).
  - eapply triple_bind; [apply triple_attempt with (Q := fun _ => inv R); [apply parse_handshake_returns|done]|]. intros [hs|]; [by apply keeps_same|by apply triple_ret].
  - destruct (negb pex_enabled); [by apply triple_ret|]. eapply triple_bind; [by apply triple_gets with (Q := fun _ => inv R)|]. intros remote.
    destruct (negb _); [by apply triple_ret|]. eapply triple_bind; [apply triple_attempt with (Q := fun _ => inv R); [apply parse_pex_returns|done]|].
    intros [pex|]; [by apply keeps_same|by apply triple_ret].
Qed.

Lemma keeps_control allow_ipv6 peer_filter pex_enabled pex_max R m :
  asked_message m -> holds R (control meta peer_addr allow_ipv6 peer_filter pex_enabled pex_max m).
Proof.
  intros Hm E. destruct m; cbn [control asked_message] in *; try (by apply triple_ret).
  - eapply triple_bind; [by apply triple_gets with (Q := fun _ => inv R)|]. intros bf. eapply triple_bind.
    + apply triple_lift_ok with (Q := fun _ => inv R); [unfold apply_peer_have; by apply bitfield_set_ok|done].
    + intros bf'. eapply triple_bind; [by apply keeps_same|]. intros []. by apply keeps_have.
  - eapply triple_bind.
    + apply triple_lift_ok with (Q := fun _ => inv R); [|done]. unfold bitfield_from_bytes. cbv zeta. destruct (_ >? _) eqn:El; [|done].
      apply Z.gtb_lt in El. pose proof (len_nonneg (pieces meta)). assert (0 <= div_ceil n 8) by (unfold div_ceil; apply Z.div_pos; unfold meta_piece_count; lia).
      rewrite slice_rest by lia. done.
    + intros bf. eapply triple_bind; [apply keeps_bitfield|]. intros []. by apply keeps_same.
  - apply triple_modify. intros s Hs. destruct (offer_ok R s piece offset length Hm Hs). by apply inv_uploads.
  - apply triple_modify. intros s Hs. destruct (queue_cancel_ok (have (shared s)) (queue s) piece offset length (inv_queue _ _ Hs)) as [H1 H2].
    apply inv_uploads; [done|done|]. pose proof (inv_queue_len _ _ Hs). lia.
  - apply keeps_extended.
Qed.

(** ** Uploading and announcing *)

Section steps.
Variables (allow_ipv6 : bool) (peer_filter : PeerFilter) (pex_enabled : bool) (pex_max_peers candidate_count deadline : Z).
Variables (write : connection) (write_piece : list (Z * list byte) -> Z -> list byte -> option CoreError).

Lemma keeps_serve R : keeps R (serve write read_block).
Proof.
  intros s Hs. unfold serve, serve_one. pose proof (inv_queue _ _ Hs) as Hq. pose proof (inv_queue_len _ _ Hs) as Hl.
  destruct (queue s) as [|[[p o] l] q] eqn:Eq; [by eapply inv_same|]. apply Forall_cons in Hq as [Hr Hq]. rewrite len_cons in Hl.
  assert (inv R (set_uploads s (sent s) q (uploaded s) (announced s))) as Hd by (apply inv_uploads; [done|done|lia]).
  destruct (read_block (stored s) p o l) as [block|e] eqn:Er; [|exact Hd]. unfold send. destruct (write (sent s) (Piece p o block)); [exact Hd|]. rewrite bind_ret.
  destruct Hs. split; try done; cbn [set_uploads sent shared queue]; [|lia]. apply Forall_app. split; [done|]. constructor; [|constructor]. by exists l, (stored s).
Qed.
Lemma keeps_drain R k : keeps R (drain write read_block k).
Proof.
  induction k as [|k IH]; cbn [drain]; [by apply triple_ret|]. eapply triple_bind; [apply keeps_serve|]. intros []; [done|by apply triple_ret].
Qed.

Lemma keeps_announce R snapshot ps : Forall (fun p => 0 <= p < n) ps -> forall count,
  triple (fun s => inv R s /\ have (shared s) = snapshot) (announce_from write snapshot ps count) (fun _ => inv R) (inv R).
Proof.
  induction 1 as [|p ps Hp _ IH]; intros count; cbn [announce_from]; [apply triple_ret; naive_solver|].
  intros s [Hs Hh]. unfold mbind, sess_bind, gets, lift, announce_step.
  destruct ((count <? 64) && bf_has snapshot p && negb (bf_has (announced s) p)) eqn:E.
  - apply andb_true_iff in E as [[_ Hb]%andb_true_iff _]. destruct (ok_or _ _) as [p'|e| |] eqn:Eo; cbn; [|done|by destruct (p <=? u32_max)..].
    destruct (p <=? u32_max); [|done]. injection Eo as <-. unfold send. destruct (write (sent s) (Have p)); [done|]. cbn.
    apply (IH (count + 1)). split; [|done]. destruct Hs. split; try done. cbn [set_uploads sent shared]. apply Forall_app. split; [done|]. constructor; [|constructor]. cbn. by rewrite Hh.
  - cbn. apply (IH count). split; [|done]. by eapply inv_same.
Qed.
Lemma keeps_serve_and_announce R : keeps R (serve_and_announce meta write read_block).
Proof.
  unfold serve_and_announce. eapply triple_bind; [apply keeps_drain|]. intros []. apply triple_read. intros snapshot. apply keeps_announce.
  apply Forall_forall. intros i Hi%elem_of_seqZ. lia.
Qed.

(** ** Requesting *)

Lemma keeps_send_from R k l budget sh ds rs : 0 <= k < n -> includes sel k = true -> piece_length_for_index_u32 meta k = Ok l ->
  (forall r, r ∈ rs -> r ∈ map (block_at l) (seqZ 0 (blocks_for l))) -> forall d, download_ok k d ->
  triple (fun s => inv R s /\ shared s = sh /\ downloads s = ds) (send_from write rs d budget)
    (fun d' s => (inv R s /\ shared s = sh /\ downloads s = ds) /\ download_ok k d') (fun s => inv R s /\ shared s = sh /\ downloads s = ds).
Proof.
  intros Hk Hi Hlen. induction rs as [|[o z] rs IH]; intros Hrs d Hd; cbn [send_from]; [by apply triple_ret|].
  intros s (Hs & <- & <-). unfold mbind at 1, sess_bind at 1, gets. destruct (global_in_flight s <? budget); [|done].
  assert ((o, z) ∈ map (block_at l) (seqZ 0 (blocks_for l))) as Ho by (apply Hrs; by left). destruct Hd as (Hd1 & Hd2 & Hd3 & Hd4 & Hd5 & Hd6).
  unfold put, send, mbind, sess_bind, modify. destruct (write (sent s) _); [done|]. apply IH; [intros r Hr; apply Hrs; by right| |].
  - split; [done|]. split; [done|]. cbn [next_req outstanding_blocks assembler]. split; [lia|]. split; [|done].
    intros o' z' [[<- <-]|[_ Hz]]%lookup_insert_Some; [|by eapply Hd4]. apply list_elem_of_fmap in Ho as (i & [= -> _] & Hi'%elem_of_seqZ). unfold BLOCK_SIZE. lia.
  - split; [|done]. eapply inv_same; [apply (inv_put R s (Request (d_piece d) o z) Hs)|done..]. cbn. rewrite Hd1. split; [done|]. split; [done|]. by exists l.
Qed.
Lemma keeps_send_more R k budget sh ds d : 0 <= k < n -> includes sel k = true -> download_ok k d ->
  triple (fun s => inv R s /\ shared s = sh /\ downloads s = ds) (send_more write d budget)
    (fun d' s => (inv R s /\ shared s = sh /\ downloads s = ds) /\ download_ok k d') (fun s => inv R s /\ shared s = sh /\ downloads s = ds).
Proof.
  intros Hk Hi Hd. pose proof Hd as (_ & (l & El & _ & Hr) & _). apply (keeps_send_from R k l); [done|done|done| |done].
  intros r Hin. unfold rest in Hin. rewrite Hr in Hin. by apply subseteq_drop in Hin.
Qed.

(** A state that never reserves [p] for itself but has taken it. *)
Lemma inv_reserve R s p st bf : inv R s -> reserve_piece (shared s) bf peer_addr n = (Some p, st) ->
  inv ({[p]} ∪ R) (set_shared s st) /\ fresh (have st) p /\ p ∉ R /\ p ∉ reserved (shared s) /\ reserved st = {[p]} ∪ reserved (shared s).
Proof.
  intros Hs Hr. apply reserve_takes in Hr as (Hp & He & ->). unfold eligible in He. rewrite !andb_true_iff, !negb_true_iff, bool_decide_eq_false in He. destruct He as [[[Hi _] Hb] Hn].
  rewrite (inv_sel _ _ Hs) in Hi. pose proof (inv_reserved _ _ Hs) as Hres. destruct Hs. split; [|split; [|split; [|done]]].
  - split; try done; cbn [set_shared shared reserved set_reserved downloads]; [by rewrite Hres; set_solver| |set_solver]. rewrite Hres in Hn. set_solver.
  - split; [done|]. split; [done|]. split; [done|]. set_solver.
  - rewrite Hres in Hn. set_solver.
Qed.
Lemma inv_release R s p : inv ({[p]} ∪ R) s -> p ∉ R -> p ∉ reserved0 -> inv R (set_shared s (release_piece (shared s) p)).
Proof.
  intros [] Hp Hp0. split; try done; cbn [set_shared shared reserved set_reserved release_piece downloads]; [|set_solver..].
  rewrite inv_reserved0. apply leibniz_equiv. set_solver.
Qed.
Lemma inv_insert R s p d : inv ({[p]} ∪ R) s -> p ∉ R -> fresh (have (shared s)) p -> download_ok p d ->
  inv R (set_downloads s (<[p := d]> (downloads s)) (global_in_flight s)).
Proof.
  intros [] Hp Hn Hd. split; try done; cbn [set_downloads shared downloads]; rewrite ?dom_insert_L; [rewrite inv_reserved0; set_solver|set_solver|].
  intros k d' [[<- <-]|[_ Hk]]%lookup_insert_Some; [done|by apply inv_downloads0].
Qed.

Lemma download_new_ok p l : piece_length_for_index_u32 meta p = Ok l -> 0 <= l -> exists d, download_new p l = Ok d /\ download_ok p d.
Proof.
  intros El Hl. unfold download_new. rewrite block_requests_spec, bind_ret by done. eexists. split; [done|]. split; [done|]. split; [by exists l|]. split; [done|].
  split; [intros o z; cbn [outstanding_blocks]; by rewrite lookup_empty|]. cbn [assembler assembler_new piece_length buf]. split; [done|]. unfold len. rewrite length_replicate. lia.
Qed.

Definition unreserved (sh : ParallelPieceState) : list Z := List.filter (fun i => negb (bool_decide (i ∈ reserved sh))) (seqZ 0 n).
Lemma unreserved_less sh sh' p : 0 <= p < n -> p ∉ reserved sh -> reserved sh' = {[p]} ∪ reserved sh -> (length (unreserved sh') < length (unreserved sh))%nat.
Proof.
  intros Hp Hn E. unfold unreserved. rewrite E. assert (p ∈ seqZ 0 n) as Hin by (apply elem_of_seqZ; lia). revert Hin. generalize (seqZ 0 n). 
  assert (forall l : list Z, (length (List.filter (fun i => negb (bool_decide (i ∈ ({[p]} ∪ reserved sh : gset Z)))) l) <= length (List.filter (fun i => negb (bool_decide (i ∈ reserved sh))) l))%nat) as Hle.
  { induction l as [|x l IH]; [done|]. cbn [List.filter]. repeat case_bool_decide; cbn [negb length]; try lia. set_solver. }
  induction l as [|x l IH]; [by intros ?%not_elem_of_nil|]. intros [<-|Hin]%elem_of_cons; cbn [List.filter].
  - rewrite bool_decide_eq_true_2 by set_solver. rewrite bool_decide_eq_false_2 by done. cbn [negb length]. specialize (Hle l). lia.
  - specialize (IH Hin). repeat case_bool_decide; cbn [negb length]; try lia. set_solver.
Qed.

Lemma keeps_fill R bf max budget fuel : forall any,
  triple (fun s => inv R s /\ (length (unreserved (shared s)) < fuel)%nat) (fill_loop meta peer_addr write fuel bf max budget any) (fun _ => inv R) (inv R).
Proof.
  induction fuel as [|fuel IH]; intros any; cbn [fill_loop]; [intros s [_ Hf]; lia|].
  apply triple_read. intros ds. apply triple_read. intros g. destruct (_ && _); [|apply triple_ret; naive_solver].
  unfold work at 1. apply triple_read. intros [[p|] st]; [|apply triple_ret; naive_solver].
  intros s [[[[Hs Hf] _] _] Hr]. destruct (inv_reserve R s p st bf Hs Hr) as (Hi & Hfr & HR & Hnr & Hres). pose proof Hfr as (Hp & Hinc & _ & Hp0). clear Hs.
  unfold mbind at 1, sess_bind at 1, update_work at 1, modify. destruct (lengths p Hp) as (l & El & Hl). destruct (download_new_ok p l El Hl) as (d & Ed & Hd).
  rewrite El. unfold mbind at 1, sess_bind at 1, lift at 1. rewrite Ed. unfold mbind at 1, sess_bind at 1, lift at 1.
  pose proof (keeps_send_more ({[p]} ∪ R) p budget st (downloads (set_shared s st)) d Hp Hinc Hd (set_shared s st) (conj Hi (conj eq_refl eq_refl))) as Hsend.
  unfold mbind at 1, sess_bind at 1, catch. destruct (send_more write d budget (set_shared s st)) as [[d'|e| |] s1]; [|..|done|done].
  - destruct Hsend as [(Hi1 & Esh & Eds) Hd']. unfold mbind, sess_bind, insert_download, modify. pose proof Hd' as (-> & _). apply IH. split; [apply inv_insert; [done|done|by rewrite Esh|done]|].
    cbn [set_downloads shared]. rewrite Esh. pose proof (unreserved_less (shared s) st p Hp Hnr Hres). lia.
  - destruct Hsend as (Hi1 & _ & _). cbn. by apply inv_release.
Qed.
Lemma keeps_fill_window R bf budget : keeps R (fill_parallel_piece_window meta peer_addr candidate_count write bf budget).
Proof.
  unfold fill_parallel_piece_window, work. apply triple_read. intros rem. cbv zeta. eapply triple_pre; [apply keeps_fill|]. intros s [Hs _]. split; [done|].
  unfold unreserved. pose proof (filter_length_le (fun i => negb (bool_decide (i ∈ reserved (shared s)))) (seqZ 0 n)) as Hl. rewrite length_seqZ in Hl. lia.
Qed.

(** ** Finishing a piece *)

Lemma inv_store R s p data : inv ({[p]} ∪ R) s -> p ∉ R -> fresh (have (shared s)) p -> verify_piece meta p data = true ->
  let s1 := set_progressed (set_stored s (stored s ++ [(p, data)])) (progressed s || negb (bf_has (have (shared s)) p)) in
  let s2 := set_shared s1 (finish_piece (shared s1) p) in inv R s2 /\ bf_has (have (shared s2)) p = true.
Proof.
  intros Hs HR Hfr Hv. pose proof Hfr as (Hp & Hinc & Hmiss & Hp0). cbv zeta. pose proof (inv_len _ _ Hs) as Hl. pose proof (proj1 (div_ceil_spec n 8 _ ltac:(lia)) eq_refl) as Hd.
  set (h := have (shared s)) in *. set (h' := if bf_has h p then h else bf_set h p).
  assert (forall i, 0 <= i -> bf_has h' i = bf_has h i || (p =? i)) as Hh.
  { intros i Hi. unfold h'. destruct (bf_has h p) eqn:E; [|apply bf_set_has; lia]. destruct (Z.eqb_spec p i) as [<-|]; [by rewrite E|by rewrite orb_false_r]. }
  assert (grows h h') as Hg by (intros i Hi Hb; by rewrite Hh, Hb).
  assert (bf_has have0 p = false /\ p ∉ map fst (stored s)) as [Hmiss0 Hnew].
  { pose proof (inv_have _ _ Hs p ltac:(lia)) as E. fold h in E, Hmiss. rewrite Hmiss in E. symmetry in E. apply orb_false_iff in E as [E1 E2].
    by apply bool_decide_eq_false in E2. }
  destruct Hs. split; [|cbn [set_shared shared finish_piece release_piece have set_reserved]; fold h h'; rewrite Hh, Z.eqb_refl by lia; apply orb_true_r].
  split; try done; cbn [set_shared set_stored set_progressed shared finish_piece release_piece set_reserved have reserved stored sent queue progressed downloads availability selection peer_pieces]; fold h h'.
  - rewrite inv_reserved0. apply leibniz_equiv. set_solver.
  - set_solver.
  - set_solver.
  - intros k d Hk. destruct (inv_downloads0 k d Hk) as [(Hk1 & Hk2 & Hk3 & Hk4) Hd']. split; [|done]. split; [done|]. split; [done|]. split; [|done].
    rewrite Hh by lia. fold h in Hk3. rewrite Hk3. apply Z.eqb_neq. intros ->. assert (k ∈ dom (downloads s)) by (apply elem_of_dom; by eexists). set_solver.
  - unfold h'. destruct (bf_has h p); [done|by rewrite bf_set_len].
  - intros i Hi. rewrite Hh, inv_have0, map_app, <- orb_assoc by done. f_equal. destruct (Z.eqb_spec p i) as [<-|Hne]; cbn [map fst].
    + rewrite orb_true_r. symmetry. apply bool_decide_eq_true_2. set_solver.
    + rewrite orb_false_r. apply bool_decide_ext. set_solver.
  - apply Forall_app. split; [done|]. constructor; [|constructor]. split; [|done]. exact (conj Hp (conj Hinc (conj Hmiss0 Hp0))).
  - rewrite map_app. apply NoDup_app. split; [done|]. split; [|apply NoDup_singleton]. intros i Hi ->%list_elem_of_singleton. done.
  - eapply Forall_impl; [exact inv_sent0|]. intros m. apply message_ok_grows; [done|by apply prefix_app_r].
  - eapply Forall_impl; [exact inv_queue0|]. intros r. by apply upload_ok_grows.
  - rewrite map_app, orb_true_iff, inv_progress0, negb_true_iff. cbn [map fst]. specialize (inv_have0 p ltac:(lia)). fold h in inv_have0. rewrite inv_have0. split.
    + intros [(i & Hi & Hb)|Hb]; [exists i; set_solver|]. apply orb_false_iff in Hb as [Hb _]. exists p. set_solver.
    + intros (i & [Hi| ->%list_elem_of_singleton]%elem_of_app & Hb); [left; by exists i|]. destruct (bool_decide (p ∈ map fst (stored s))) eqn:E; [|right; by rewrite Hb].
      left. exists p. split; [by apply bool_decide_eq_true in E|done].
Qed.

Lemma inv_remove R s p : inv R s -> p ∈ dom (downloads s) -> inv ({[p]} ∪ R) (set_downloads s (delete p (downloads s)) (global_in_flight s)) /\ p ∉ R /\ fresh (have (shared s)) p.
Proof.
  intros Hs Hp. pose proof Hp as [d Hd]%elem_of_dom. split; [|split; [pose proof (inv_disjoint _ _ Hs); set_solver|by apply (inv_downloads _ _ Hs p d)]].
  destruct Hs. split; try done; cbn [set_downloads shared downloads]; rewrite ?dom_delete_L.
  - rewrite inv_reserved0. apply leibniz_equiv. intros i. destruct (decide (i = p)); set_solver.
  - set_solver.
  - intros k d' [_ Hk]%lookup_delete_Some. by apply inv_downloads0.
Qed.

Lemma keeps_finish R snapshot p data E :
  triple (fun s => inv R s /\ p ∈ dom (downloads s)) (finish_download meta peer_addr candidate_count write write_piece snapshot p data) (fun _ => inv R) E.
Proof.
  intros s [Hs Hp]. destruct (inv_remove R s p Hs Hp) as (Hi & HR & Hn). pose proof Hn as (_ & _ & _ & Hp0). clear Hs Hp. unfold finish_download. unfold mbind at 1, sess_bind at 1, modify at 1.
  change (have (shared s)) with (have (shared (set_downloads s (delete p (downloads s)) (global_in_flight s)))) in Hn.
  set (s0 := set_downloads s _ _) in *. clearbody s0. clear s. destruct (verify_piece meta p data) eqn:Ev; [|by apply inv_release].
  unfold mbind at 1, sess_bind at 1, gets at 1. destruct (write_piece (stored s0) p data) as [e|]; [by apply inv_release|].
  destruct (inv_store R s0 p data Hi HR Hn Ev) as [Hs Hh].
  unfold mbind at 1, sess_bind at 1, modify at 1. unfold mbind at 1, sess_bind at 1, work, gets at 1. unfold mbind at 1, sess_bind at 1, modify at 1. unfold mbind at 1, sess_bind at 1, update_work, modify at 1.
  cbn [set_stored progressed shared] in *. revert Hs Hh. set (s2 := set_shared _ _). clearbody s2. intros Hs Hh. revert s2 Hs Hh.
  enough (triple (fun s2 => inv R s2 /\ bf_has (have (shared s2)) p = true) (r ← catch (put write (Have p));
    match r with inr e => mret (Halt true (Some e))
    | inl _ => bf ← gets peer_bf; w ← gets request_window; r ← catch (fill_parallel_piece_window meta peer_addr candidate_count write (default snapshot bf) (desired_in_flight w));
        match r with inr e => mret (Halt true (Some e)) | inl _ => mret (Next true) end end) (fun _ => inv R) E) as Ht by (intros s2 Hs Hh; by apply Ht).
  eapply triple_bind; [apply triple_catch with (Q := fun _ => inv R) (E := inv R) (Q' := fun _ => inv R); [apply keeps_put; intros s [Hs Hh]; split; [done|]; split; [apply Hn|done]|done|done]|].
  intros [[]|e]; [|by apply triple_ret]. eapply triple_bind; [by apply triple_gets with (Q := fun _ => inv R)|]. intros bf. eapply triple_bind; [by apply triple_gets with (Q := fun _ => inv R)|]. intros w.
  eapply triple_bind; [apply triple_catch with (Q := fun _ => inv R) (E := inv R) (Q' := fun _ => inv R); [apply keeps_fill_window|done|done]|].
  intros [b|e]; by apply triple_ret.
Qed.

(** ** Blocks *)

Lemma copy_into_len b off block b' : copy_into b off block = Ok b' -> len b' = len b.
Proof.
  unfold copy_into. destruct (Z.leb_spec 0 off); [|done]. destruct (Z.leb_spec (off + len block) (len b)); [|done]. intros [= <-].
  unfold len in *. rewrite !length_app, length_take, length_drop. lia.
Qed.
Lemma add_block_ok a off block : 0 <= off -> 0 <= piece_length a -> len (buf a) = piece_length a ->
  match add_block a off block with
  | Ok (_, a') => piece_length a' = piece_length a /\ len (buf a') = len (buf a)
  | Err _ => True
  | Panic | OutOfFuel => False
  end.
Proof.
  intros Ho Hp Hb. unfold add_block. destruct (off >=? piece_length a) eqn:E1; [done|]. cbn [fail_if]. rewrite bind_ret. cbv zeta.
  destruct (off + len block >? piece_length a) eqn:E2; [done|]. cbn [fail_if]. rewrite bind_ret. rewrite Z.gtb_ltb in E2. apply Z.ltb_ge in E2.
  assert (exists b, copy_into (buf a) off block = Ok b) as [b Eb] by (unfold copy_into; rewrite (proj2 (Z.leb_le 0 off)), (proj2 (Z.leb_le (off + len block) _)) by lia; by eexists).
  rewrite Eb, bind_ret. pose proof (copy_into_len _ _ _ _ Eb) as Hlen. destruct (Z.ltb_spec (off / BLOCK_SIZE) (len (received a))) as [Hlt|]; [|by rewrite bind_ret].
  pose proof (Z.div_pos off BLOCK_SIZE Ho ltac:(done)) as Hi. unfold index, get. rewrite (proj2 (Z.ltb_ge _ _)) by lia.
  destruct (lookup_lt_is_Some_2 (received a) (Z.to_nat (off / BLOCK_SIZE))) as [x ->]; [unfold len in Hlt; lia|]. rewrite bind_ret. destruct x; cbn [negb]; by rewrite bind_ret.
Qed.

Lemma record_block_ok k d off block g : download_ok k d ->
  match record_block d off block g with
  | Ok (Some (_, d', _)) => download_ok k d'
  | Ok None | Err _ => True
  | Panic | OutOfFuel => False
  end.
Proof.
  intros (H1 & H2 & H3 & H4 & H5 & H6). unfold record_block. destruct (outstanding_blocks d !! off) as [z|] eqn:E; [|done]. destruct (negb _); [done|].
  pose proof (add_block_ok (assembler d) off block (H4 _ _ E) H5 H6) as Ha. destruct (add_block (assembler d) off block) as [[c a]|e| |]; try done. rewrite bind_ret.
  destruct Ha as [Ha1 Ha2]. split; [done|]. split; [done|]. split; [done|]. cbn [outstanding_blocks assembler]. split; [intros o z' [_ Hz]%lookup_delete_Some; by eapply H4|]. rewrite Ha2, Ha1. done.
Qed.

Lemma inv_update R s k d g : inv R s -> k ∈ dom (downloads s) -> download_ok k d -> inv R (set_downloads s (<[k := d]> (downloads s)) g).
Proof.
  intros [] Hk Hd. assert (dom (<[k := d]> (downloads s)) = dom (downloads s)) as E by (rewrite dom_insert_L; set_solver).
  split; try done; cbn [set_downloads shared downloads]; rewrite ?E; [done|done|].
  intros j d' [[<- <-]|[_ Hj]]%lookup_insert_Some; [|by apply inv_downloads0]. apply elem_of_dom in Hk as [d0 Hk]. by destruct (inv_downloads0 _ _ Hk) as [? _].
Qed.

Lemma keeps_block R snapshot p off block now : holds R (handle_block meta peer_addr candidate_count write write_piece snapshot p off block now).
Proof.
  intros E s Hs. unfold handle_block. unfold mbind at 1, sess_bind at 1, gets at 1. unfold mbind at 1, sess_bind at 1, gets at 1.
  destruct (downloads s !! p) as [d|] eqn:Ed; [|done]. assert (p ∈ dom (downloads s)) as Hp by (apply elem_of_dom; by eexists).
  destruct (inv_downloads _ _ Hs p d Ed) as [(Hn & Hi & _) Hd]. pose proof (record_block_ok p d off block (global_in_flight s) Hd) as Hr.
  unfold mbind at 1, sess_bind at 1, catch, lift at 1. destruct (record_block d off block (global_in_flight s)) as [[[[c d'] g]|]|e| |]; try done.
  unfold mbind at 1, sess_bind at 1, modify at 1. unfold mbind at 1, sess_bind at 1, modify at 1. set (s1 := set_extension _ _ _ _).
  assert (inv R s1) as Hs1 by (eapply inv_same; [by apply (inv_update R s p d' g)|done..]).
  assert (downloads s1 !! p = Some d') as Ed1 by apply lookup_insert_eq. assert (p ∈ dom (downloads s1)) as Hp1 by (apply elem_of_dom; by eexists).
  clearbody s1. clear s Hs Ed Hp d Hd. destruct c.
  - pose proof Hr as (_ & _ & _ & _ & H5 & H6). unfold assembler_data. rewrite slice_rest by lia. unfold mbind, sess_bind, lift. by apply keeps_finish.
  - unfold mbind at 1, sess_bind at 1, gets at 1.
    pose proof (keeps_send_more R p (desired_in_flight (request_window s1)) (shared s1) (downloads s1) d' Hn Hi Hr s1 (conj Hs1 (conj eq_refl eq_refl))) as Hsend.
    unfold mbind at 1, sess_bind at 1, catch. destruct (send_more _ _ _ s1) as [[d2|e| |] s2]; [|by destruct Hsend|done|done].
    destruct Hsend as [(Hs2 & _ & Eds) Hd2]. unfold mbind, sess_bind, modify. apply inv_update; [done|by rewrite Eds|done].
Qed.

Lemma keeps_window_message R snapshot m now : asked_message m ->
  holds R (handle_window_message meta peer_addr allow_ipv6 peer_filter pex_enabled pex_max_peers candidate_count write write_piece snapshot m now).
Proof.
  intros Hm E. pose proof (keeps_control allow_ipv6 peer_filter pex_enabled pex_max_peers R m Hm E) as Hc. destruct m; cbn [handle_window_message];
    first [by apply keeps_block | by eapply triple_bind; [by apply keeps_same|intros []; by apply triple_ret] | by eapply triple_bind; [exact Hc|intros []; by apply triple_ret]].
Qed.
Lemma keeps_waiting_message R m : asked_message m -> holds R (handle_waiting_message meta peer_addr allow_ipv6 peer_filter pex_enabled pex_max_peers m).
Proof.
  intros Hm E. pose proof (keeps_control allow_ipv6 peer_filter pex_enabled pex_max_peers R m Hm E) as Hc. destruct m; cbn [handle_waiting_message];
    first [exact Hc | by apply triple_ret | by apply keeps_same].
Qed.

(** ** Loops *)

Definition asked_event (e : event) : Prop := match arrives e with Arrived m => asked_message m | _ => True end.

(** The window consumes events: at least one when it received a block. *)
Lemma keeps_window_loop R snapshot evs : Forall asked_event evs -> forall E err last received,
  triple (inv R) (window_loop meta peer_addr allow_ipv6 peer_filter pex_enabled pex_max_peers candidate_count write read_block write_piece snapshot evs err last received)
    (fun r s => inv R s /\ (exists used, evs = used ++ r.2 /\ (used = [] -> r.1.2 = received))) E.
Proof.
  induction 1 as [|e evs He Hevs IH]; intros E err last received; cbn [window_loop]; [apply triple_ret; intros s Hs; split; [done|]; by exists []|].
  eapply triple_bind; [by apply triple_gets with (Q := fun _ => inv R)|]. intros ds. destruct (_ || _); [apply triple_ret; intros s Hs; split; [done|]; by exists []|].
  unfold asked_event in He. destruct (arrives e) as [m| | |]; try (apply triple_ret; intros s Hs; split; [done|]; by exists [e]).
  eapply triple_bind; [by apply keeps_window_message|]. intros [block|block e']; [|apply triple_ret; intros s Hs; split; [done|]; by exists [e]].
  eapply triple_bind; [apply triple_catch with (Q := fun _ => inv R) (E := inv R) (Q' := fun _ => inv R); [apply keeps_serve_and_announce|done|done]|].
  intros [[]|x]; [|apply triple_ret; intros s Hs; split; [done|]; by exists [e]].
  eapply triple_post; [apply IH| |done]. intros r s [Hs (used & Eu & _)]. split; [done|]. exists (e :: used). by rewrite Eu.
Qed.

(** Between windows nothing is reserved; after the session its peer is gone, too. *)
Definition idle_inv (R : gset Z) (s : Session) : Prop := inv R s /\ downloads s = ∅.
Definition gone_inv (R : gset Z) (s : Session) : Prop := idle_inv R s /\ peer_pieces (shared s) = others.

(** What a step leaves alone it does not change. *)
Lemma triple_frame {A B} (f : Session -> B) P (m : sess A) Q (E : Session -> Prop) b :
  (forall s, f (m s).2 = f s) -> triple P m Q E -> triple (fun s => P s /\ f s = b) m (fun a s => Q a s /\ f s = b) (fun s => E s /\ f s = b).
Proof. intros Hf Hm s [Hs <-]. specialize (Hm s Hs). specialize (Hf s). destruct (m s) as [[a|e| |] s']; cbn in Hf; auto. Qed.
Definition steady {A B} (f : Session -> B) (m : sess A) : Prop := forall s, f (m s).2 = f s.
Lemma steady_bind {A B C} (f : Session -> C) (m : sess A) (k : A -> sess B) : steady f m -> (forall a, steady f (k a)) -> steady f (m ≫= k).
Proof.
  intros Hm Hk s. unfold mbind, sess_bind. specialize (Hm s). destruct (m s) as [[a|e| |] s']; cbn in *; [|done..]. by rewrite (Hk a s').
Qed.
Lemma steady_catch {A C} (f : Session -> C) (m : sess A) : steady f m -> steady f (catch m).
Proof. intros Hm s. unfold catch. specialize (Hm s). by destruct (m s) as [[a|e| |] s']. Qed.
Lemma steady_put {C} (f : Session -> C) m : (forall s x, f (set_uploads s x (queue s) (uploaded s) (announced s)) = f s) -> steady f (put write m).
Proof. intros Hf s. unfold put. destruct (send write (sent s) m); [apply Hf|done..]. Qed.
Lemma steady_try_work f : steady downloads (try_work f).
Proof. intros s. unfold try_work, work, gets, lift, modify, mbind, sess_bind. by destruct (f (shared s)). Qed.
Lemma steady_attempt {A C} (f : Session -> C) (m : outcome A) : steady f (attempt m).
Proof. by intros s. Qed.
Lemma steady_extended id payload : steady downloads (handle_parallel_pex_message allow_ipv6 peer_filter pex_enabled pex_max_peers id payload).
Proof.
  unfold handle_parallel_pex_message. destruct (id =? 0); [apply steady_bind; [apply steady_attempt|]; by intros []|]. destruct (negb _); [done|].
  apply steady_bind; [done|]. intros remote. destruct (negb _); [done|]. apply steady_bind; [apply steady_attempt|]. by intros [].
Qed.
Lemma steady_control m : steady downloads (control meta peer_addr allow_ipv6 peer_filter pex_enabled pex_max_peers m).
Proof.
  destruct m; cbn [control]; try done.
  - apply steady_bind; [done|]. intros bf. apply steady_bind; [done|]. intros bf'. apply steady_bind; [done|]. intros _. apply steady_try_work.
  - apply steady_bind; [done|]. intros bf. apply steady_bind; [apply steady_try_work|]. done.
  - apply steady_extended.
Qed.
Lemma steady_waiting m : steady downloads (handle_waiting_message meta peer_addr allow_ipv6 peer_filter pex_enabled pex_max_peers m).
Proof. destruct m; cbn [handle_waiting_message]; first [done | apply steady_control]. Qed.
Lemma steady_serve_and_announce : steady downloads (serve_and_announce meta write read_block).
Proof.
  unfold serve_and_announce. apply steady_bind; [|intros _; apply steady_bind; [done|]; intros snapshot].
  - generalize SERVE_DRAIN_PER_ITERATION. intros k. induction k as [|k IH]; cbn [drain]; [done|]. apply steady_bind; [|intros []; done].
    intros s. unfold serve. by destruct (serve_one _ _ _) as [[more [[q m] u]]|e| |].
  - generalize 0 at 2. generalize (seqZ 0 n). induction l as [|p ps IH]; intros count; cbn [announce_from]; [done|].
    apply steady_bind; [done|]. intros a. apply steady_bind; [done|]. intros m. apply steady_bind; [done|]. intros [[a' m'] c]. apply steady_bind; [done|]. intros _. apply IH.
Qed.

Lemma try_remove_gone s :
  match try_work (fun st => remove_peer st peer_addr n) s with (Ok _, s') => peer_pieces (shared s') !! peer_addr = None | _ => True end.
Proof.
  unfold try_work, work, gets, lift, modify, mbind, sess_bind, remove_peer. destruct (peer_pieces (shared s) !! peer_addr) eqn:E; [|done].
  destruct (count_pieces _ _ _ _); [|done..]. cbn. by rewrite lookup_delete_eq.
Qed.
Lemma remove_gone R : triple (idle_inv R) (try_work (fun st => remove_peer st peer_addr n)) (fun _ => gone_inv R) (gone_inv R).
Proof.
  intros s [Hs Hd]. pose proof (keeps_remove R (fun _ => False) s Hs) as Hk. pose proof (steady_try_work (fun st => remove_peer st peer_addr n) s) as Hst.
  pose proof (try_remove_gone s) as Hg. destruct (try_work _ s) as [[[]|e| |] s']; [|done..]. cbn [fst snd] in *.
  split; [split; [done|by rewrite Hst]|]. rewrite <- (inv_peers _ _ Hk). symmetry. by apply delete_id.
Qed.
Lemma fail_gone {A} R e (Q : A -> Session -> Prop) : triple (idle_inv R) (fail_session meta peer_addr e) Q (gone_inv R).
Proof. unfold fail_session. eapply triple_bind; [apply remove_gone|]. intros []. by apply triple_raise. Qed.

Lemma idle_start R s : idle_inv R s -> inv R (set_downloads s ∅ 0).
Proof. intros [Hs Hd]. eapply inv_same; [exact Hs|done..|]. by rewrite Hd. Qed.
Lemma idle_end R s : inv R s ->
  idle_inv R (set_downloads (set_shared s (set_reserved (shared s) (reserved (shared s) ∖ dom (downloads s)))) ∅ (global_in_flight s)).
Proof.
  intros []. split; [|done]. split; try done; cbn [set_downloads set_shared shared downloads reserved set_reserved]; rewrite ?dom_empty_L.
  - rewrite inv_reserved0. apply leibniz_equiv. set_solver.
  - intros k Hk. apply elem_of_difference. split; [by apply inv_kept0|]. intros [d Hd]%elem_of_dom.
    by destruct (inv_downloads0 k d Hd) as [(_ & _ & _ & ?) _].
Qed.

Lemma run_window_ok R snapshot now evs : Forall asked_event evs ->
  triple (idle_inv R) (run_window meta peer_addr allow_ipv6 peer_filter pex_enabled pex_max_peers candidate_count write read_block write_piece snapshot now evs)
    (fun r s => idle_inv R s /\ match r with inl _ => True | inr later => exists used, used <> [] /\ evs = used ++ later end) (gone_inv R).
Proof.
  intros Hevs. unfold run_window. eapply triple_bind; [apply triple_modify with (Q := fun _ => inv R); apply idle_start|]. intros [].
  eapply triple_bind; [by apply triple_gets with (Q := fun _ => inv R)|]. intros w.
  eapply triple_bind; [apply triple_catch with (Q := fun _ => inv R) (E := inv R) (Q' := fun _ => inv R); [apply keeps_fill_window|done|done]|].
  intros r. cbv zeta. apply triple_read. intros ds. case_bool_decide as Hds.
  - subst ds. apply triple_pre with (P' := idle_inv R); [|done]. eapply triple_bind; [by apply triple_gets with (Q := fun _ => idle_inv R)|]. intros missing.
    eapply triple_bind with (Q := fun _ => idle_inv R).
    + destruct missing; [by apply triple_ret|]. eapply triple_bind with (Q := fun _ => idle_inv R); [|intros r'; by apply triple_ret].
      apply triple_catch with (Q := fun _ => idle_inv R) (E := idle_inv R) (Q' := fun _ => idle_inv R); [|done|done].
      apply (triple_frame downloads (inv R) _ (fun _ => inv R) (inv R) ∅); [by apply steady_put|by apply keeps_put; intros s Hs; split].
    + intros [e|]; [apply fail_gone|by apply triple_ret].
  - eapply triple_bind; [eapply triple_pre; [apply (keeps_window_loop R); exact Hevs|by intros s [Hs _]]|]. intros [[err received] later]. cbn [fst snd].
    apply triple_read. intros ds'. unfold update_work, modify.
    intros s [[Hs (used & E & Hu)] <-]. unfold mbind, sess_bind. pose proof (idle_end R s Hs) as Hi. destruct err as [e|]; [exact (fail_gone R e _ _ Hi)|].
    destruct received; [|done]. split; [exact Hi|]. exists used. split; [|done]. intros Hnil. by specialize (Hu Hnil).
Qed.

Lemma session_loop_ok R fuel : forall evs no_work, Forall asked_event evs -> (length evs < fuel)%nat ->
  triple (idle_inv R) (session_loop meta peer_addr allow_ipv6 peer_filter pex_enabled pex_max_peers candidate_count deadline write read_block write_piece fuel evs no_work)
    (fun _ => idle_inv R) (gone_inv R).
Proof.
  induction fuel as [|fuel IH]; intros evs no_work Hevs Hlen; [lia|]. cbn [session_loop]. destruct evs as [|e later]; [by apply triple_ret|].
  destruct (deadline <? at_ e); [by apply triple_ret|]. eapply triple_bind; [by apply triple_gets with (Q := fun _ => idle_inv R)|]. intros [|]; [by apply triple_ret|].
  eapply triple_bind; [by apply triple_gets with (Q := fun _ => idle_inv R)|]. intros choking. eapply triple_bind; [by apply triple_gets with (Q := fun _ => idle_inv R)|]. intros bf.
  pose proof Hevs as [He Hlater]%Forall_cons. cbn [length] in Hlen.
  assert (triple (idle_inv R) (match arrives e with
      | Closed | ReadFailed | TimedOut => mret no_work
      | Arrived m => _ ← handle_waiting_message meta peer_addr allow_ipv6 peer_filter pex_enabled pex_max_peers m; r ← catch (serve_and_announce meta write read_block);
          match r with inr x => fail_session meta peer_addr x
          | inl _ => session_loop meta peer_addr allow_ipv6 peer_filter pex_enabled pex_max_peers candidate_count deadline write read_block write_piece fuel later no_work end
      end) (fun _ => idle_inv R) (gone_inv R)) as Hwait.
  { unfold asked_event in He. destruct (arrives e) as [m| | |]; try by apply triple_ret.
    eapply triple_bind with (Q := fun _ => idle_inv R); [|intros []].
    - eapply triple_post; [apply (triple_frame downloads (inv R) _ (fun _ => inv R) (fun _ => False) ∅); [apply steady_waiting|by apply keeps_waiting_message]|done|by intros s [[] _]].
    - eapply triple_bind with (Q := fun _ => idle_inv R).
      + apply triple_catch with (Q := fun _ => idle_inv R) (E := idle_inv R) (Q' := fun _ => idle_inv R); [|done|done].
        apply (triple_frame downloads (inv R) _ (fun _ => inv R) (inv R) ∅); [apply steady_serve_and_announce|apply keeps_serve_and_announce].
      + intros [[]|x]; [apply IH; [done|lia]|apply fail_gone]. }
  destruct choking; [exact Hwait|]. destruct bf as [snapshot|]; [|exact Hwait].
  eapply triple_bind; [by apply run_window_ok|]. intros [missing|later']; [apply triple_ret; naive_solver|].
  intros s [Hs (used & Hne & E)]. apply IH; [|destruct used; [done|]; injection E as _ ->; rewrite length_app in Hlen; lia|done].
  rewrite E in Hevs. by apply Forall_app in Hevs as [_ ?].
Qed.

(** ** Whole sessions *)

(** The bitfield a session opens with holds just the verified pieces. *)
Lemma our_bitfield_ok h : exists bf, our_bitfield meta h = Ok bf /\ full_bitfield n bf /\ forall i, 0 <= i -> bhas bf i = true -> bf_has h i = true.
Proof.
  assert (0 <= n) as Hn by (unfold meta_piece_count, len; lia). destruct (full_new n Hn) as [Hf Hb].
  assert (forall i, 0 <= i -> bhas (bitfield_new n) i = true -> bf_has h i = true) as Hh by (intros i Hi; by rewrite Hb). clear Hb.
  unfold our_bitfield. assert (Forall (fun i => 0 <= i < n) (seqZ 0 n)) as Hall by (apply Forall_forall; intros i Hi%elem_of_seqZ; lia).
  revert Hf Hh. generalize (bitfield_new n). induction Hall as [|k l Hk _ IH]; intros f Hf Hh; [by exists f|]. cbn [try_fold].
  destruct (bf_has h k) eqn:E; [|by apply IH]. destruct (full_set n f k Hk Hf) as (f' & -> & Hf' & Hb). rewrite bind_ret.
  apply IH; [done|]. intros i Hi. rewrite Hb by done. intros [Hx|Hx%Z.eqb_eq]%orb_true_iff; [by apply Hh|by subst i].
Qed.
Definition settled (s : Session) : gmap Z ParallelPieceDownload * gmap SocketAddr BitfieldBits := (downloads s, peer_pieces (shared s)).
Lemma keeps_greet R : triple (gone_inv R) (greet meta pex_enabled write) (fun _ => gone_inv R) (gone_inv R).
Proof.
  assert (triple (inv R) (greet meta pex_enabled write) (fun _ => inv R) (inv R)) as Hk.
  { unfold greet, work. eapply triple_bind; [by apply triple_gets with (Q := fun h s => inv R s /\ have (shared s) = h)|]. intros h.
    destruct (our_bitfield_ok h) as (bf & -> & [Hc _] & Hb).
    eapply triple_bind; [apply triple_lift with (Q := fun bf' s => (inv R s /\ have (shared s) = h) /\ bf' = bf); [done|by intros s a Hs [= <-]|by intros s [Hs _]]|].
    intros bf'. eapply triple_bind; [apply keeps_put; intros s [[Hs Hh] ->]; split; [done|]; cbn; rewrite Hh; destruct bf as [b c]; cbn in Hc; subst c; exact Hb|]. intros [].
    do 2 (eapply triple_bind; [apply keeps_put; intros s Hs; by split|]; intros []). apply keeps_put. intros s Hs. by split. }
  assert (steady settled (greet meta pex_enabled write)) as Hst.
  { unfold greet. apply steady_bind; [done|]. intros h. apply steady_bind; [done|]. intros bf. do 3 (apply steady_bind; [by apply steady_put|]; intros []). by apply steady_put. }
  eapply triple_pre; [eapply triple_post; [exact (triple_frame settled _ _ _ _ (∅, others) Hst Hk)|..]|].
  - intros [] s [Hs [= Hd Hp]]. done.
  - intros s [Hs [= Hd Hp]]. done.
  - intros s [[Hs Hd] Hp]. split; [done|]. unfold settled. by rewrite Hd, Hp.
Qed.

Lemma session_ok R traffic_allowed connecting evs : Forall asked_event evs ->
  triple (fun s => gone_inv R s /\ progressed s = false)
    (parallel_peer_session meta peer_addr allow_ipv6 peer_filter pex_enabled pex_max_peers candidate_count deadline write read_block write_piece traffic_allowed connecting evs)
    (fun r s => gone_inv R s /\ (r = Progressed <-> progressed s = true)) (gone_inv R).
Proof.
  intros Hevs. unfold parallel_peer_session.
  destruct (negb traffic_allowed); [apply triple_ret; intros s [Hs ->]; split; [done|split; done]|].
  destruct (negb (admits _ _)); [apply triple_ret; intros s [Hs ->]; split; [done|split; done]|].
  destruct connecting as [e|]; [by apply triple_raise; intros s [Hs _]|].
  eapply triple_bind; [eapply triple_pre; [apply keeps_greet|by intros s [Hs _]]|]. intros [].
  eapply triple_bind; [apply triple_modify with (Q := fun _ => idle_inv R); intros s [[Hs Hd] _]; split; [by eapply inv_same|done]|]. intros [].
  eapply triple_bind; [apply session_loop_ok; [done|lia]|]. intros no_work.
  eapply triple_bind; [apply triple_modify with (Q := fun _ => idle_inv R); intros s [Hs Hd]; split; [apply inv_uploads; [done|constructor|by vm_compute]|done]|]. intros [].
  eapply triple_bind; [apply remove_gone|]. intros []. apply triple_read. intros p. apply triple_ret. intros s [Hs Hp]. split; [done|]. rewrite Hp.
  destruct p; [done|]. by destruct no_work.
Qed.
End steps.
End invariant.

(** What arrives from the wire: positions are not negative.  And what the peer asks for. *)
Definition wire_event (e : event) : Prop :=
  match arrives e with
  | Arrived (Have p) => 0 <= p
  | Arrived (Request p o l) => 0 <= p /\ 0 <= o /\ 0 <= l
  | _ => True
  end.
Definition requested (evs : list event) (r : Z * Z * Z) : Prop :=
  exists e, e ∈ evs /\ arrives e = Arrived (Request r.1.1 r.1.2 r.2).
Lemma wire_asked evs : Forall wire_event evs -> Forall (asked_event (requested evs)) evs.
Proof.
  intros H. apply Forall_forall. intros e He. apply (proj1 (Forall_forall _ _) H) in He as Hw. unfold asked_event, wire_event in *.
  destruct (arrives e) as [[]| | |] eqn:E; try done. split; [done|]. by exists e.
Qed.

(** What a session starts from: a shared state for this torrent that does not know the
    peer yet, and a torrent whose pieces have lengths. *)
Record session_start (meta : TorrentMeta) (peer_addr : SocketAddr) (st : ParallelPieceState) : Prop := {
  start_layout : valid_v1_layout meta; start_piece : 0 < Meta.piece_length meta <= MAX_PIECE_LENGTH; start_total : 0 <= total_length meta;
  start_avail : len (availability st) = meta_piece_count meta;
  start_have : len (bf_bytes (have st)) = div_ceil (meta_piece_count meta) 8;
  start_peer : peer_pieces st !! peer_addr = None }.

Lemma piece_lengths meta : valid_v1_layout meta -> 0 < Meta.piece_length meta <= MAX_PIECE_LENGTH -> 0 <= total_length meta ->
  forall p, 0 <= p < meta_piece_count meta -> exists l, piece_length_for_index_u32 meta p = Ok l /\ 0 <= l.
Proof.
  intros Hv Hpl Ht p Hp. unfold piece_length_for_index_u32, piece_length_u32. rewrite (proj2 (Z.ltb_ge _ _)) by lia. cbn [fail_if]. rewrite bind_ret.
  assert (MAX_PIECE_LENGTH <= u32_max) as Hmax by done. unfold u32_try_from. rewrite (proj2 (Z.leb_le (Meta.piece_length meta) u32_max)) by lia. cbn [ok_or]. rewrite bind_ret, (proj2 (Z.leb_gt _ p)) by lia. cbn [fail_if]. rewrite bind_ret.
  case_bool_decide; [|exists (Meta.piece_length meta); split; [done|lia]]. destruct (bytes_of_last meta Hv Hpl Ht) as [-> Hb]; [lia|]. rewrite bind_ret, (proj2 (Z.leb_le _ _)) by lia.
  eexists. split; [done|lia].
Qed.

Section sessions.
Context `{Digests}.
Variables (meta : TorrentMeta) (peer_addr : SocketAddr) (allow_ipv6 : bool) (peer_filter : PeerFilter) (pex_enabled : bool)
  (pex_max_peers candidate_count deadline : Z) (write : connection)
  (read_block : list (Z * list byte) -> Z -> Z -> Z -> list byte + CoreError) (write_piece : list (Z * list byte) -> Z -> list byte -> option CoreError)
  (traffic_allowed : bool) (connecting : option CoreError) (evs : list event) (st : ParallelPieceState) (pex : list SocketAddr) (now : Z).
Let run := parallel_peer_session meta peer_addr allow_ipv6 peer_filter pex_enabled pex_max_peers candidate_count deadline write read_block write_piece
             traffic_allowed connecting evs (session_new st pex now).

Lemma session_run : session_start meta peer_addr st -> Forall wire_event evs ->
  returns run.1 /\ gone_inv meta peer_addr (selection st) (have st) (peer_pieces st) (reserved st) (requested evs) read_block (reserved st) run.2 /\
  (run.1 = Ok Progressed -> progressed run.2 = true) /\ (is_ok run.1 = true -> progressed run.2 = true -> run.1 = Ok Progressed).
Proof.
  intros [] Hevs%wire_asked.
  assert (gone_inv meta peer_addr (selection st) (have st) (peer_pieces st) (reserved st) (requested evs) read_block (reserved st) (session_new st pex now)) as H0.
  { split; [|done]. split; [|done]. split; try done; cbn [session_new shared stored sent queue downloads progressed].
    - by apply delete_id.
    - rewrite dom_empty_L. set_solver.
    - intros i _. change (map fst []) with (@nil Z). rewrite (bool_decide_eq_false_2 (i ∈ [])) by apply not_elem_of_nil. by rewrite orb_false_r.
    - apply NoDup_nil_2.
    - split; [done|]. by intros (i & Hi%not_elem_of_nil & _). }
  pose proof (session_ok meta peer_addr (selection st) (have st) (peer_pieces st) (reserved st) (requested evs) read_block
    (piece_lengths meta start_layout0 start_piece0 start_total0)
    allow_ipv6 peer_filter pex_enabled pex_max_peers candidate_count deadline write write_piece (reserved st) traffic_allowed connecting evs Hevs
    (session_new st pex now) (conj H0 eq_refl)) as Hr.
  fold run in Hr. destruct run as [[r|e| |] s]; cbn [fst snd] in *; [|split; [done|]; split; [done|]; by split|done|done].
  destruct Hr as [Hg Hp]. split; [done|]. split; [done|]. split; [by intros [= ->]; apply Hp|]. intros _ Hpr. f_equal. by apply Hp.
Qed.

(** A session always returns: whatever messages come in whatever order, and whatever
    reads and writes fail, it ends with an outcome or an error, without a panic.  It
    progressed exactly when it stored a piece that was missing. *)
Theorem session_returns : session_start meta peer_addr st -> Forall wire_event evs ->
  returns run.1 /\
  (forall r, run.1 = Ok r -> (r = Progressed <-> exists i, i ∈ map fst (stored run.2) /\ bf_has (have st) i = false)).
Proof.
  intros Hst Hevs. destruct (session_run Hst Hevs) as (Hr & [[Hi _] _] & H1 & H2). split; [done|]. intros r E. rewrite <- (inv_progress _ _ _ _ _ _ _ _ _ _ Hi). rewrite E in *. split.
  - intros ->. by apply H1.
  - intros Hp. specialize (H2 eq_refl Hp). by injection H2 as ->.
Qed.

(** C31: A session stores only what it should.  At the end of a session, however it ends,
    every piece it wrote to storage is verified against the torrent, was selected, was
    missing when the session began and reserved by no other session; no piece was written
    twice; and the pieces had are those had before together with those it wrote. *)
Theorem session_stores_verified : session_start meta peer_addr st -> Forall wire_event evs ->
  Forall (fun e => verify_piece meta e.1 e.2 = true /\ 0 <= e.1 < meta_piece_count meta /\ includes (selection st) e.1 = true
                   /\ bf_has (have st) e.1 = false /\ e.1 ∉ reserved st) (stored run.2)
  /\ NoDup (map fst (stored run.2))
  /\ forall i, 0 <= i -> bf_has (have (shared run.2)) i = bf_has (have st) i || bool_decide (i ∈ map fst (stored run.2)).
Proof.
  intros Hst Hevs. destruct (session_run Hst Hevs) as (_ & [[[] _] _] & _). split; [|done].
  eapply Forall_impl; [exact inv_stored0|]. intros e [Hf Hv]. by split.
Qed.

(** C34: A session says nothing false.  Every piece it announces, in its bitfield or later,
    is verified.  Every block
    it uploads answers a request [(p, o, l)] that the peer sent: it is what storage
    returned for exactly this request once the pieces [w] were written, the piece is
    verified, and the request is not empty, at most 128 KiB and inside the piece; when
    storage returns as many bytes as asked, the block itself is so.  Every block it
    requests is one of the blocks of a selected piece. *)
Theorem session_speaks_truth : session_start meta peer_addr st -> Forall wire_event evs ->
  forall m, m ∈ sent run.2 ->
    match m with
    | Bitfield bs => forall i, 0 <= i -> bhas (mkBitfield bs (meta_piece_count meta)) i = true -> bf_has (have (shared run.2)) i = true
    | Have p => 0 <= p < meta_piece_count meta /\ bf_has (have (shared run.2)) p = true
    | Piece p o block => 0 <= p < meta_piece_count meta /\ bf_has (have (shared run.2)) p = true /\
        exists l w, requested evs (p, o, l) /\ 0 < l <= MAX_SERVE_BLOCK_LENGTH /\ 0 <= o /\ o + l <= served_length meta p
          /\ w `prefix_of` stored run.2 /\ read_block w p o l = inl block
          /\ ((forall w p o l b, 0 < l -> read_block w p o l = inl b -> len b = l) ->
              0 < len block <= MAX_SERVE_BLOCK_LENGTH /\ o + len block <= served_length meta p)
    | Request p o l => 0 <= p < meta_piece_count meta /\ includes (selection st) p = true /\
        exists k, piece_length_for_index_u32 meta p = Ok k /\ (o, l) ∈ map (block_at k) (seqZ 0 (blocks_for k))
    | _ => True
    end.
Proof.
  intros Hst Hevs m Hm. destruct (session_run Hst Hevs) as (_ & [[[] _] _] & _). apply (proj1 (Forall_forall _ _) inv_sent0) in Hm.
  destruct m; try done; try exact Hm. destruct Hm as (l & w & (Ha & Hp & Ho & Hl & Hn & Hh & _ & Hmax & Hin) & Hw & Hr). split; [lia|]. split; [done|].
  exists l, w. split_and!; try done. intros Hx. rewrite (Hx _ _ _ _ _ Hl Hr). lia.
Qed.

(** A session leaves nothing behind.  However it ends, its reservations are given back
    and the others' are untouched, and its peer's pieces are no longer known. *)
Theorem session_releases : session_start meta peer_addr st -> Forall wire_event evs ->
  reserved (shared run.2) = reserved st /\ peer_pieces (shared run.2) = peer_pieces st /\ downloads run.2 = ∅.
Proof.
  intros Hst Hevs. destruct (session_run Hst Hevs) as (_ & [[Hi Hd] Hp] & _). split; [|done]. rewrite (inv_reserved _ _ _ _ _ _ _ _ _ _ Hi), Hd, dom_empty_L. set_solver.
Qed.
End sessions.

(** ** A session *)

Definition pair_meta : TorrentMeta :=
  mkMeta ZERO Hash.Unknown (bytes_of "d") 2 [pad_array 20 (bytes_of "ab"); pad_array 20 (bytes_of "cd")]
    [mkMetaFile [bytes_of "a"] 4 None] 4 false None [] [] None None None false None None.
Definition seeder : SocketAddr := peer4 1 80.
Definition arrived (m : Message) : event := mkEvent 0 (Arrived m) 0.
Definition fresh_state (n : Z) : ParallelPieceState := state_new (bf_new n) n (all_count n).
(** The peer has both pieces, sends the first and then rubbish for the second, and asks
    for a block of the first. *)
Definition pair_events : list event :=
  map arrived [Bitfield [xc0]; Unchoke; Piece 0 0 (bytes_of "ab"); Piece 1 0 (bytes_of "xx"); Request 0 1 1; Keepalive; Request 1 0 1; Keepalive].
Definition pair_run : outcome PeerSessionOutcome * Session :=
  parallel_peer_session (H := toy_digests) pair_meta seeder true filter_default true 0 1 100 (fun _ _ => None) (fun _ _ _ l => inl (replicate (Z.to_nat l) "b")) (fun _ _ _ => None)
    true None pair_events (session_new (fresh_state 2) [] 0).

Lemma pair_start : session_start pair_meta seeder (fresh_state 2).
Proof. split; by vm_compute. Qed.
Lemma pair_wire : Forall wire_event pair_events.
Proof. repeat constructor; done. Qed.

Example pair_session : pair_run.1 = Ok Progressed /\ stored pair_run.2 = [(0, bytes_of "ab")] /\
  drop 4 (sent pair_run.2) = [Request 0 0 2; Request 1 0 2; Have 0; Have 0; Request 1 0 2; Piece 0 1 (bytes_of "b")].
Proof. by vm_compute. Qed.

Lemma session_returns_witness : returns pair_run.1 /\ exists i, i ∈ map fst (stored pair_run.2) /\ bf_has (have (fresh_state 2)) i = false.
Proof.
  destruct (session_returns (H := toy_digests) pair_meta seeder true filter_default true 0 1 100 (fun _ _ => None) (fun _ _ _ l => inl (replicate (Z.to_nat l) "b")) (fun _ _ _ => None)
    true None pair_events (fresh_state 2) [] 0 pair_start pair_wire) as [Hr Hp].
  split; [exact Hr|]. apply (Hp Progressed); [by vm_compute|done].
Defined.
Lemma session_stores_verified_witness :
  Forall (fun e => @verify_piece toy_digests pair_meta e.1 e.2 = true /\ 0 <= e.1 < 2 /\ includes (selection (fresh_state 2)) e.1 = true
                   /\ bf_has (have (fresh_state 2)) e.1 = false /\ e.1 ∉ reserved (fresh_state 2)) (stored pair_run.2).
Proof.
  apply (session_stores_verified (H := toy_digests) pair_meta seeder true filter_default true 0 1 100 (fun _ _ => None) (fun _ _ _ l => inl (replicate (Z.to_nat l) "b")) (fun _ _ _ => None)
    true None pair_events (fresh_state 2) [] 0 pair_start pair_wire).
Defined.
Lemma session_speaks_truth_witness : bf_has (have (shared pair_run.2)) 0 = true.
Proof.
  apply (session_speaks_truth (H := toy_digests) pair_meta seeder true filter_default true 0 1 100 (fun _ _ => None) (fun _ _ _ l => inl (replicate (Z.to_nat l) "b")) (fun _ _ _ => None)
    true None pair_events (fresh_state 2) [] 0 pair_start pair_wire (Have 0)).
  apply list_elem_of_lookup. exists 6%nat. by vm_compute.
Defined.
Lemma session_releases_witness : reserved (shared pair_run.2) = ∅ /\ peer_pieces (shared pair_run.2) = ∅.
Proof.
  destruct (session_releases (H := toy_digests) pair_meta seeder true filter_default true 0 1 100 (fun _ _ => None) (fun _ _ _ l => inl (replicate (Z.to_nat l) "b")) (fun _ _ _ => None)
    true None pair_events (fresh_state 2) [] 0 pair_start pair_wire) as (Hr & Hp & _).
  split; [exact Hr|exact Hp].
Defined.

(** ** Observations *)

(** A piece is announced twice to the peer it came from: once when it is stored, and
    again with the pieces that became available meanwhile. *)
Lemma own_piece_announced_twice : len (List.filter (fun m => match m with Have i => i =? 0 | _ => false end) (sent pair_run.2)) = 2.
Proof. by vm_compute. Qed.


(** The window can stall.  A download is sent more requests only when one of its own
    blocks arrives.  The peer lowers its request limit from four to one while three blocks
    of piece 0 and one of piece 1 are outstanding; when piece 1's only outstanding block
    arrives, the window's budget is still used up, and nothing later asks for its two
    other blocks. *)
Definition big_meta : TorrentMeta :=
  mkMeta ZERO Hash.Unknown (bytes_of "d") (3 * BLOCK_SIZE) [pad_array 20 []; pad_array 20 []]
    [mkMetaFile [bytes_of "a"] (6 * BLOCK_SIZE) None] (6 * BLOCK_SIZE) false None [] [] None None None false None None.
Definition reqq_event (k : Z) : event := arrived (Extended x00 (encode_extension_handshake_payload [] (bytes_of "x") None (Some k))).
Definition zero_block : list byte := replicate (Z.to_nat BLOCK_SIZE) x00.
Definition stall_events : list event :=
  [reqq_event 4; arrived (Bitfield [xc0]); arrived Unchoke; reqq_event 1] ++
  map arrived ([Piece 1 0 zero_block; Piece 0 0 zero_block; Piece 0 BLOCK_SIZE zero_block; Piece 0 (2 * BLOCK_SIZE) zero_block] ++ replicate 8 Keepalive).
Definition stall_run (evs : list event) : outcome PeerSessionOutcome * Session :=
  parallel_peer_session (H := toy_digests) big_meta seeder true filter_default true 0 1 100 (fun _ _ => None) (fun _ _ _ _ => inl []) (fun _ _ _ => None)
    true None evs (session_new (fresh_state 2) [] 0).
Lemma window_stalls : (stall_run stall_events).1 = Ok Progressed /\ map fst (stored (stall_run stall_events).2) = [0] /\
  drop 4 (sent (stall_run stall_events).2) =
    [Request 0 0 BLOCK_SIZE; Request 0 BLOCK_SIZE BLOCK_SIZE; Request 0 (2 * BLOCK_SIZE) BLOCK_SIZE; Request 1 0 BLOCK_SIZE; Have 0; Have 0].
Proof. by vm_compute. Qed.
