(* ===== verification/Admission.v ===== *)
(** * Storage roots: [crates/swarmotterd/src/daemon/storage_controls.rs]

    Which configured root controls a directory ([config.rs]), the reservations of
    active engines per root, the plan made before engines start, and the permits of
    full rechecks.  Every locked section is one step; [tokio::sync::Notify] is the
    interface of [Gate].  The theorems: a directory is controlled by the one root that
    contains it most closely, a root's limits are never exceeded, a plan admits exactly
    what the controller will, permits are counted exactly and no wakeup of a waiting
    recheck is lost. *)

From S2P Require Import Prelude Text Hash Meta Storage Intake Containment Gate.

Local Open Scope byte_scope.
Local Open Scope Z_scope.

(** ** Lexical paths.  A normalised path is the list of its names below the root. *)

Definition is_absolute (p : text) : bool := match p with b :: _ => Byte.eqb b "/" | [] => false end.
Definition push_component (normalized : list text) (c : Component) : list text :=
  match c with
  | RootDir => []
  | NormalComponent s => normalized ++ [s]
  | CurDir => normalized
  | ParentDir => removelast normalized
  end.

Record StorageRootControl : Type := mkControl {
  control_path : text; max_downloads : Z; max_active_bytes : Z;
  max_write_bytes_per_second : Z; max_concurrent_rechecks : Z }.
Record StorageRootAdmission : Type := mkAdmission {
  root : list text; a_max_downloads : Z; a_max_active_bytes : Z; a_max_write : Z; a_max_rechecks : Z }.

(** The last of the elements with the greatest key. *)
Definition max_by_key {A} (key : A -> nat) (l : list A) : option A :=
  foldl (fun best a => match best with Some b => Some (if (key b <=? key a)%nat then a else b) | None => Some a end) None l.

Section paths.
(** [std::env::current_dir]; [None] is its error. *)
Variable current_dir : option text.

Definition lexical_absolute_path (path : text) : option (list text) :=
  absolute ← (if is_absolute path then Some path else cwd ← current_dir; Some (path_join cwd path));
  Some (foldl push_component [] (components absolute)).

Definition normalized_path (c : StorageRootControl) : option (list text) := lexical_absolute_path (control_path c).

(** [Path::starts_with]. *)
Definition starts_with (path root : list text) : bool := bool_decide (take (length root) path = root).

Definition containing (path : list text) (control : StorageRootControl) : option (list text * StorageRootControl) :=
  root ← normalized_path control;
  if starts_with path root then Some (root, control) else None.

Definition root_control_for_path (controls : list StorageRootControl) (path : text) : option StorageRootControl :=
  path ← lexical_absolute_path path;
  snd <$> max_by_key (fun e => length e.1) (omap (containing path) controls).

Definition storage_root_admission_for_path (controls : list StorageRootControl) (path : text) : option StorageRootAdmission :=
  control ← root_control_for_path controls path;
  root ← normalized_path control;
  Some (mkAdmission root (max_downloads control) (max_active_bytes control) (max_write_bytes_per_second control)
          (max_concurrent_rechecks control)).
End paths.

(** ** Reservations *)

Record StorageAdmissionReservation : Type := mkReservation { r_root : list text; declared_bytes : Z }.
Abbreviation reservations := (gmap TorrentKey StorageAdmissionReservation).

Definition count_other (key : TorrentKey) (root : list text) (acc : Z * Z) (e : TorrentKey * StorageAdmissionReservation) : Z * Z :=
  if negb (bool_decide (e.1 = key)) && bool_decide (r_root e.2 = root) then
    (saturating_add u64_max acc.1 1, saturating_add u64_max acc.2 (declared_bytes e.2))
  else acc.

Definition admit_reservation (m : reservations) (key : TorrentKey) (admission : StorageRootAdmission) (bytes : Z)
  : outcome reservations :=
  let '(active_downloads, active_bytes) := foldl (count_other key (root admission)) (0, 0) (map_to_list m) in
  if (0 <? a_max_downloads admission) && (a_max_downloads admission <=? active_downloads) then
    Err (Storage "storage root admission blocked: active downloads reach configured limit")
  else
    let requested_bytes := saturating_add u64_max active_bytes bytes in
    if (0 <? a_max_active_bytes admission) && (a_max_active_bytes admission <? requested_bytes) then
      Err (Storage "storage root admission blocked: declared active bytes would exceed configured limit")
    else Ok (<[key := mkReservation (root admission) bytes]> m).

(** [StorageAdmissionController]: its reservations, each method one locked section. *)
Definition reserve (m : reservations) (key : TorrentKey) (admission : StorageRootAdmission) (bytes : Z) : outcome reservations :=
  admit_reservation m key admission bytes.
Definition release (m : reservations) (key : TorrentKey) : reservations := delete key m.
Definition clear_reservations (m : reservations) : reservations := ∅.
Definition records (m : reservations) : list (TorrentKey * (list text * Z)) :=
  map (fun e => (e.1, (r_root e.2, declared_bytes e.2))) (map_to_list m).
Definition declared_bytes_can_fit (admission : StorageRootAdmission) (bytes : Z) : bool :=
  (a_max_active_bytes admission =? 0) || (bytes <=? a_max_active_bytes admission).

(** [StorageAdmissionPlan]. *)
Definition from_records (l : list (TorrentKey * (list text * Z))) : reservations :=
  foldl (fun m e => <[e.1 := mkReservation e.2.1 e.2.2]> m) ∅ l.
Definition plan_admit (m : reservations) (key : TorrentKey) (admission : StorageRootAdmission) (bytes : Z) : outcome reservations :=
  if bool_decide (is_Some (m !! key)) then Ok m else admit_reservation m key admission bytes.

(** ** A directory's control *)

Lemma max_by_key_spec {A} (key : A -> nat) (l : list A) :
  match max_by_key key l with
  | Some a => a ∈ l /\ forall b, b ∈ l -> (key b <= key a)%nat
  | None => l = []
  end.
Proof.
  unfold max_by_key. induction l as [|a l IH] using rev_ind; [done|]. rewrite foldl_app. cbn [foldl].
  destruct (foldl _ None l) as [b|] eqn:E; [|rewrite IH; split; [set_solver|]; intros b; rewrite elem_of_app, list_elem_of_singleton; intros [?| ->]; [set_solver|lia]].
  destruct IH as [Hb Hm]. destruct (Nat.leb_spec (key b) (key a)).
  - split; [set_solver|]. intros c. rewrite elem_of_app, list_elem_of_singleton. intros [Hc| ->]; [|lia]. specialize (Hm c Hc). lia.
  - split; [set_solver|]. intros c. rewrite elem_of_app, list_elem_of_singleton. intros [Hc| ->]; [by apply Hm|lia].
Qed.

Lemma starts_with_prefix path r : starts_with path r = true <-> r `prefix_of` path.
Proof.
  unfold starts_with. rewrite bool_decide_eq_true. split.
  - intros E. exists (drop (length r) path). rewrite <- E at 1. symmetry. apply take_drop.
  - intros [k ->]. by rewrite take_app_length.
Qed.

Lemma prefix_same_length (a b p : list text) : a `prefix_of` p -> b `prefix_of` p -> length a = length b -> a = b.
Proof. intros [x ->] [y E] Hl. by apply (app_inj_1 a b x y) in E as [-> _]. Qed.

(** A directory is controlled by exactly one configured root: the one that contains
    it and lies deepest.  With the distinct roots that validation asks for, the lookup
    answers that root's control, whatever the order of the configuration, and none
    exactly when no root contains the directory. *)
Theorem deepest_root_controls cwd controls path p control :
  lexical_absolute_path cwd path = Some p ->
  (forall c c', c ∈ controls -> c' ∈ controls -> is_Some (normalized_path cwd c) -> normalized_path cwd c = normalized_path cwd c' -> c = c') ->
  root_control_for_path cwd controls path = Some control <->
  control ∈ controls /\ exists r, normalized_path cwd control = Some r /\ r `prefix_of` p /\
    forall c' r', c' ∈ controls -> normalized_path cwd c' = Some r' -> r' `prefix_of` p -> (length r' <= length r)%nat.
Proof.
  intros Hp Hu. unfold root_control_for_path. rewrite Hp. cbn [mbind option_bind].
  assert (forall r c, (r, c) ∈ omap (containing cwd p) controls <-> c ∈ controls /\ normalized_path cwd c = Some r /\ r `prefix_of` p) as Hin.
  { intros r c. rewrite list_elem_of_omap. unfold containing. split.
    - intros (c' & Hc & E). destruct (normalized_path cwd c') as [r'|] eqn:Er; [|done]. cbn [mbind option_bind] in E.
      destruct (starts_with p r') eqn:Es; [|done]. apply starts_with_prefix in Es. by simplify_eq.
    - intros (Hc & Er & Hr%starts_with_prefix). exists c. rewrite Er. cbn [mbind option_bind]. by rewrite Hr. }
  pose proof (max_by_key_spec (fun e : list text * StorageRootControl => length e.1) (omap (containing cwd p) controls)) as Hm.
  destruct (max_by_key _ _) as [[r c]|]; cbn [fmap option_fmap option_map snd fst].
  - destruct Hm as [(Hc & Er & Hr)%Hin Hm]. split.
    + intros [= <-]. split; [done|]. exists r. do 2 (split; [done|]). intros c' r' Hc' Er' Hr'. by apply (Hm (r', c')), Hin.
    + intros (Hc' & r' & Er' & Hr' & Hm'). f_equal. apply Hu; [done..|by eexists|]. rewrite Er, Er'. f_equal.
      apply (prefix_same_length _ _ p); [done..|]. pose proof (Hm' c r Hc Er Hr). pose proof (Hm (r', control) (proj2 (Hin _ _) (conj Hc' (conj Er' Hr')))). cbn in *. lia.
  - split; [done|]. intros (Hc' & r' & Er' & Hr' & _). assert ((r', control) ∈ omap (containing cwd p) controls) as Hx by by apply Hin. rewrite Hm in Hx. set_solver.
Qed.

(** ** Reservations stay within the limits *)

Definition entry_of (key : TorrentKey) (r : list text) (e : TorrentKey * StorageAdmissionReservation) : bool :=
  negb (bool_decide (e.1 = key)) && bool_decide (r_root e.2 = r).
Definition root_downloads (m : reservations) (r : list text) : Z := zsum (fun e => b2z (bool_decide (r_root e.2 = r))) (map_to_list m).
Definition root_bytes (m : reservations) (r : list text) : Z :=
  zsum (fun e => if bool_decide (r_root e.2 = r) then declared_bytes e.2 else 0) (map_to_list m).

Lemma zsum_map_insert {V} (f : TorrentKey * V -> Z) (m : gmap TorrentKey V) k v :
  zsum f (map_to_list (<[k := v]> m)) = f (k, v) + zsum f (map_to_list (delete k m)).
Proof. rewrite <- insert_delete_eq, (zsum_perm f _ _ (map_to_list_insert _ _ _ (lookup_delete_eq m k))). apply zsum_cons. Qed.

Lemma zsum_map_delete {V} (f : TorrentKey * V -> Z) (m : gmap TorrentKey V) k :
  zsum f (map_to_list (delete k m)) = zsum (fun e => if bool_decide (e.1 = k) then 0 else f e) (map_to_list m).
Proof.
  assert (forall m' : gmap TorrentKey V, m' !! k = None -> zsum f (map_to_list m') = zsum (fun e => if bool_decide (e.1 = k) then 0 else f e) (map_to_list m')) as Hno.
  { intros m' Hm. apply zsum_ext. intros [k' v] Hin%elem_of_map_to_list. cbn. rewrite bool_decide_eq_false_2; [done|]. intros ->. by rewrite Hm in Hin. }
  destruct (m !! k) as [v|] eqn:E; [|rewrite delete_id by done; by apply Hno].
  rewrite <- (insert_id m k v E) at 2. rewrite zsum_map_insert. cbn [fst]. rewrite bool_decide_eq_true_2, Z.add_0_l by done.
  apply Hno, lookup_delete_eq.
Qed.

Definition bytes_nonneg (m : reservations) : Prop := forall k e, m !! k = Some e -> 0 <= declared_bytes e.

Lemma count_other_loop key r l : (forall e, e ∈ l -> 0 <= declared_bytes e.2) -> forall c b, 0 <= c <= u64_max -> 0 <= b <= u64_max ->
  foldl (count_other key r) (c, b) l =
    (Z.min u64_max (c + zsum (fun e => if bool_decide (e.1 = key) then 0 else b2z (bool_decide (r_root e.2 = r))) l),
     Z.min u64_max (b + zsum (fun e => if bool_decide (e.1 = key) then 0 else if bool_decide (r_root e.2 = r) then declared_bytes e.2 else 0) l)).
Proof.
  induction l as [|e l IH]; intros Hl c b Hc Hb; [rewrite !zsum_nil; cbn [foldl]; f_equal; lia|].
  cbn [foldl]. rewrite !zsum_cons. unfold count_other at 2. cbn [fst snd].
  assert (0 <= declared_bytes e.2) as He by (apply Hl; set_solver).
  assert (0 <= zsum (fun e => if bool_decide (e.1 = key) then 0 else b2z (bool_decide (r_root e.2 = r))) l /\
    0 <= zsum (fun e => if bool_decide (e.1 = key) then 0 else if bool_decide (r_root e.2 = r) then declared_bytes e.2 else 0) l) as [H1 H2].
  { split; apply zsum_nonneg; intros x Hx; repeat case_bool_decide; cbn; try lia. apply Hl. set_solver. }
  destruct (bool_decide (e.1 = key)), (bool_decide (r_root e.2 = r)); cbn [negb andb b2z]; rewrite IH by (unfold saturating_add; cbn in *; (lia || set_solver));
    unfold saturating_add; f_equal; lia.
Qed.

Lemma others_counted m key r : bytes_nonneg m ->
  foldl (count_other key r) (0, 0) (map_to_list m) = (Z.min u64_max (root_downloads (delete key m) r), Z.min u64_max (root_bytes (delete key m) r)).
Proof.
  intros Hm. rewrite count_other_loop; [|intros [k e] Hin%elem_of_map_to_list; by apply (Hm k)|done..].
  unfold root_downloads, root_bytes. by rewrite !zsum_map_delete, !Z.add_0_l.
Qed.

Inductive admission_op : Type :=
  | Reserve (key : TorrentKey) (admission : StorageRootAdmission) (bytes : Z)
  | Release (key : TorrentKey)
  | ClearAll.
Definition admission_step (m : reservations) (op : admission_op) : reservations :=
  match op with
  | Reserve key a bytes => match reserve m key a bytes with Ok m' => m' | _ => m end
  | Release key => release m key
  | ClearAll => clear_reservations m
  end.

(** The configured limits of each root do not change. *)
Definition under (policy : list text -> StorageRootAdmission) (op : admission_op) : Prop :=
  match op with Reserve _ a bytes => a = policy (root a) /\ 0 <= bytes | _ => True end.

Definition within (policy : list text -> StorageRootAdmission) (m : reservations) : Prop :=
  bytes_nonneg m /\ forall r,
    (0 < a_max_downloads (policy r) < u64_max -> root_downloads m r <= a_max_downloads (policy r)) /\
    (0 < a_max_active_bytes (policy r) < u64_max -> root_bytes m r <= a_max_active_bytes (policy r)).

Lemma delete_less m k r : bytes_nonneg m -> root_downloads (delete k m) r <= root_downloads m r /\ root_bytes (delete k m) r <= root_bytes m r.
Proof.
  intros Hm. destruct (m !! k) as [e|] eqn:E; [|by rewrite delete_id].
  unfold root_downloads, root_bytes. rewrite <- (insert_id m k e E) at 2 4. rewrite !zsum_map_insert. cbn [snd].
  specialize (Hm k e E). case_bool_decide; cbn [b2z]; lia.
Qed.

Lemma delete_within policy m k : within policy m -> within policy (delete k m).
Proof.
  intros [Hm Hw]. split; [intros k' e [_ He]%lookup_delete_Some; by apply (Hm k')|]. intros r.
  destruct (delete_less m k r Hm). destruct (Hw r) as [H1 H2]. split; intros Hp; [specialize (H1 Hp)|specialize (H2 Hp)]; lia.
Qed.

Lemma insert_load m k r bytes r' :
  root_downloads (<[k := mkReservation r bytes]> m) r' = b2z (bool_decide (r = r')) + root_downloads (delete k m) r' /\
  root_bytes (<[k := mkReservation r bytes]> m) r' = (if bool_decide (r = r') then bytes else 0) + root_bytes (delete k m) r'.
Proof. unfold root_downloads, root_bytes. by rewrite !zsum_map_insert. Qed.

Lemma reserve_cases m key a bytes : bytes_nonneg m -> 0 <= bytes ->
  (reserve m key a bytes = Ok (<[key := mkReservation (root a) bytes]> m) /\
     (0 < a_max_downloads a < u64_max -> root_downloads (delete key m) (root a) < a_max_downloads a) /\
     (0 < a_max_active_bytes a < u64_max -> root_bytes (delete key m) (root a) + bytes <= a_max_active_bytes a)) \/
  (exists e, reserve m key a bytes = Err (Storage e) /\
     (0 < a_max_downloads a <= root_downloads (delete key m) (root a) \/
      0 < a_max_active_bytes a < root_bytes (delete key m) (root a) + bytes)).
Proof.
  intros Hm Hb. unfold reserve, admit_reservation. rewrite others_counted by done.
  assert (0 <= root_bytes (delete key m) (root a)).
  { apply zsum_nonneg. intros [k e] [_ Hin]%elem_of_map_to_list%lookup_delete_Some. case_bool_decide; [by apply (Hm k)|done]. }
  destruct (Z.ltb_spec 0 (a_max_downloads a)), (Z.leb_spec (a_max_downloads a) (Z.min u64_max (root_downloads (delete key m) (root a)))); cbn [andb];
    try (right; eexists; split; [done|]; lia);
    (destruct (Z.ltb_spec 0 (a_max_active_bytes a)), (Z.ltb_spec (a_max_active_bytes a) (saturating_add u64_max (Z.min u64_max (root_bytes (delete key m) (root a))) bytes));
       cbn [andb]; unfold saturating_add in *; try (right; eexists; split; [done|]; lia); left; (split; [done|]); lia).
Qed.

Lemma empty_within policy : within policy ∅.
Proof. split; [intros k e He; by rewrite lookup_empty in He|]. intros r. unfold root_downloads, root_bytes. rewrite map_to_list_empty, !zsum_nil. lia. Qed.

Lemma step_within policy m op : (forall r, root (policy r) = r) -> under policy op -> within policy m -> within policy (admission_step m op).
Proof.
  intros Hp Hop Hw. destruct op as [key a bytes|key|]; cbn [admission_step]; [|by apply delete_within|].
  - destruct Hop as [Ha Hb], Hw as [Hm Hw'].
    destruct (reserve_cases m key a bytes Hm Hb) as [(-> & H1 & H2)|(e & -> & _)]; [|by split]. split.
    { intros k e He. apply lookup_insert_Some in He as [[_ <-]|[_ He]]; [done|by apply (Hm k)]. }
    intros r. destruct (insert_load m key (root a) bytes r) as [-> ->]. destruct (delete_less m key r Hm), (Hw' r) as [H3 H4].
    case_bool_decide as Er; cbn [b2z]; [|split; intros Hx; [specialize (H3 Hx)|specialize (H4 Hx)]; lia].
    subst r. rewrite <- Ha. split; intros Hx; [specialize (H1 Hx)|specialize (H2 Hx)]; lia.
  - apply empty_within.
Qed.

(** The limits of a storage root are never exceeded.  Whatever engines reserve and
    release in whatever order, the active downloads and the declared bytes of every root
    stay within its configured limits; and a reservation is refused only when it would
    exceed one of them, and then changes nothing. *)
Theorem roots_within_limits policy ops :
  (forall r, root (policy r) = r) -> Forall (under policy) ops ->
  let m := foldl admission_step ∅ ops in
  (forall r, (0 < a_max_downloads (policy r) < u64_max -> root_downloads m r <= a_max_downloads (policy r)) /\
             (0 < a_max_active_bytes (policy r) < u64_max -> root_bytes m r <= a_max_active_bytes (policy r))) /\
  forall key r bytes, 0 <= bytes ->
    reserve m key (policy r) bytes = Ok (<[key := mkReservation r bytes]> m) \/
    (exists e, reserve m key (policy r) bytes = Err (Storage e)) /\
      (0 < a_max_downloads (policy r) <= root_downloads (delete key m) r \/
       0 < a_max_active_bytes (policy r) < root_bytes (delete key m) r + bytes).
Proof.
  intros Hp Hops m. assert (within policy m) as [Hm Hw].
  { assert (within policy ∅) as H0 by (apply (step_within policy ∅ ClearAll Hp I); split; [intros k e He; by rewrite lookup_empty in He|];
      intros r; unfold root_downloads, root_bytes; rewrite map_to_list_empty, !zsum_nil; lia).
    subst m. revert H0. generalize (∅ : reservations). induction Hops as [|op ops Hop _ IH]; intros m H0; [done|].
    cbn [foldl]. apply IH. by apply step_within. }
  split; [done|]. intros key r bytes Hb.
  destruct (reserve_cases m key (policy r) bytes Hm Hb) as [(-> & _)|(e & He & H)]; rewrite Hp in *; [by left|]. right. split; [by eexists|done].
Qed.

(** ** Plans *)

Definition planned : Type := TorrentKey * StorageRootAdmission * Z.
Definition plan_step (st : reservations * list planned) (e : planned) : reservations * list planned :=
  match plan_admit st.1 e.1.1 e.1.2 e.2 with Ok m => (m, st.2 ++ [e]) | _ => st end.
Definition not_reserved (m : reservations) (e : planned) : bool := negb (bool_decide (is_Some (m !! e.1.1))).
Definition reserve_all (m : reservations) (l : list planned) : outcome reservations :=
  try_fold (fun m e => reserve m e.1.1 e.1.2 e.2) m l.

Lemma from_records_records m : from_records (records m) = m.
Proof.
  unfold from_records, records. rewrite <- (list_to_map_to_list m) at 2.
  assert (forall (l : list (TorrentKey * StorageAdmissionReservation)) (acc : reservations), NoDup l.*1 ->
    foldl (fun m e => <[e.1 := mkReservation e.2.1 e.2.2]> m) acc (map (fun e => (e.1, (r_root e.2, declared_bytes e.2))) l) = (list_to_map l : reservations) ∪ acc) as Hl.
  { induction l as [|[k [r b]] l IH]; intros acc Hn; cbn [map foldl list_to_map foldr fst snd r_root declared_bytes]; [by rewrite map_empty_union|].
    apply NoDup_cons in Hn as [Hk Hn]. rewrite IH by done. cbn [list_to_map foldr fst snd]. rewrite <- insert_union_l, <- insert_union_r; [done|].
    by apply not_elem_of_list_to_map_1. }
  rewrite (Hl _ ∅) by apply NoDup_fst_map_to_list. by rewrite map_union_empty.
Qed.

Lemma try_fold_snoc {A B} (f : A -> B -> outcome A) a l b : try_fold f a (l ++ [b]) = (a' ← try_fold f a l; f a' b).
Proof. rewrite try_fold_app. destruct (try_fold f a l); cbn [mbind outcome_bind try_fold]; [by destruct (f _ b)|done..]. Qed.

Lemma plan_steps m l : forall st,
  NoDup (map (fun e => e.1.1) (st.2 ++ l)) -> reserve_all m (List.filter (not_reserved m) st.2) = Ok st.1 ->
  (forall k, is_Some (st.1 !! k) <-> is_Some (m !! k) \/ k ∈ map (fun e => e.1.1) st.2) ->
  let st' := foldl plan_step st l in
  reserve_all m (List.filter (not_reserved m) st'.2) = Ok st'.1 /\ forall k, is_Some (m !! k) -> is_Some (st'.1 !! k).
Proof.
  induction l as [|e l IH]; intros [p adm] Hn Hr Hd; cbn [fst snd foldl] in *; [split; [done|]; intros k Hk; apply Hd; auto|].
  assert (e.1.1 ∉ map (fun e => e.1.1) adm) as Hne.
  { rewrite map_app, map_cons in Hn. apply NoDup_app in Hn as (_ & H & _). intros Hin. apply (H _ Hin). set_solver. }
  assert (NoDup (map (fun e => e.1.1) (adm ++ l))) as Hn'.
  { rewrite map_app, map_cons in Hn. rewrite map_app. apply (sublist_NoDup _ _ Hn), sublist_app; [done|]. by constructor. }
  assert (NoDup (map (fun e => e.1.1) ((adm ++ [e]) ++ l))) as Hn2 by by rewrite <- app_assoc.
  destruct (plan_step (p, adm) e) as [p1 adm1] eqn:Es. unfold plan_step, plan_admit in Es. cbn [fst snd] in Es.
  destruct (bool_decide_reflect (is_Some (p !! e.1.1))) as [Hp|Hp].
  - injection Es as <- <-. apply IH; cbn [fst snd]; [done| |].
    + rewrite List.filter_app. cbn [List.filter]. assert (not_reserved m e = false) as ->; [|by rewrite app_nil_r].
      unfold not_reserved. apply negb_false_iff, bool_decide_eq_true. apply Hd in Hp as [|]; [done|by destruct Hne].
    + intros k. rewrite map_app, elem_of_app, Hd. cbn [map]. rewrite list_elem_of_singleton. split; [tauto|]. intros [?|[?| ->]]; [tauto..|]. by apply Hd.
  - destruct (admit_reservation p e.1.1 e.1.2 e.2) as [p'| | |] eqn:E; injection Es as <- <-; try by apply IH.
    apply IH; cbn [fst snd]; [done| |].
    + rewrite List.filter_app. cbn [List.filter]. assert (not_reserved m e = true) as ->.
      { unfold not_reserved. apply negb_true_iff, bool_decide_eq_false. intros Hm. apply Hp, Hd. auto. }
      unfold reserve_all. rewrite try_fold_snoc. unfold reserve_all in Hr. rewrite Hr. exact E.
    + assert (exists v, p' = <[e.1.1 := v]> p) as [v ->].
      { unfold admit_reservation in E. destruct (foldl _ _ _). repeat case_match; simplify_eq; by eexists. }
      intros k. rewrite lookup_insert_is_Some, Hd, map_app, elem_of_app. cbn [map]. rewrite list_elem_of_singleton. destruct (decide (k = e.1.1)); naive_solver.
Qed.

(** What a plan admits, the controller admits.  A plan made from the controller's
    own records keeps every reservation there is; the engines it admits that have none
    can all be reserved, in its order, and the reservations are then those of the plan. *)
Theorem plan_is_realised m (l : list planned) :
  NoDup (map (fun e => e.1.1) l) ->
  let st := foldl plan_step (from_records (records m), []) l in
  reserve_all m (List.filter (not_reserved m) st.2) = Ok st.1 /\ forall k, is_Some (m !! k) -> is_Some (st.1 !! k).
Proof.
  intros Hn. rewrite from_records_records. apply plan_steps; [done..|]. cbn. set_solver.
Qed.

(** ** Full rechecks *)

(** Where a call of [run_root_scoped_recheck] is, or a replacement of the
    configuration; [true] for the cancellation's future being ready. *)
Inductive rpc : Type :=
  | RCheck (dir : text)
  | RResolve (dir : text)
  | RSubscribe (dir : text) (a : StorageRootAdmission)
  | RTry (dir : text) (a : StorageRootAdmission)
  | RPark (dir : text) (a : StorageRootAdmission)
  | RWork (permit : option (list text))
  | RDrop (root : list text)
  | RNotify
  | RReplace (controls : list StorageRootControl)
  | RDone.

Record rechecks (N : Type) : Type := mkRechecks { controls : list StorageRootControl; active : gmap (list text) Z; r_notify : N; calls : list rpc }.
Arguments mkRechecks {N}. Arguments controls {N}. Arguments active {N}. Arguments r_notify {N}. Arguments calls {N}.

(** [try_acquire]: the entry is made before the limit is tested. *)
Definition try_acquire (active : gmap (list text) Z) (a : StorageRootAdmission) : bool * gmap (list text) Z :=
  let count := default 0 (active !! root a) in
  let active := <[root a := count]> active in
  if (0 <? a_max_rechecks a) && (a_max_rechecks a <=? count) then (false, active)
  else (true, <[root a := saturating_add u64_max count 1]> active).
Definition drop_permit (active : gmap (list text) Z) (root : list text) : gmap (list text) Z :=
  match active !! root with
  | Some count => if saturating_sub count 1 =? 0 then delete root active else <[root := saturating_sub count 1]> active
  | None => active
  end.

Section rechecks.
Context {N : Type} `{NotifyOps N}.
Variable current_dir : option text.
Implicit Types w : rechecks N.

(** One step of call [i]: the new shared state, and where the call then is. *)
Definition recheck_step (i : nat) (cancelled : bool) w (p : rpc) : option (rechecks N * rpc) :=
  let keep q := Some (w, q) in
  match p with
  | RCheck dir => keep (if cancelled then RDone else RResolve dir)
  | RResolve dir => keep (match storage_root_admission_for_path current_dir (controls w) dir with Some a => RSubscribe dir a | None => RWork None end)
  | RSubscribe dir a => Some (mkRechecks (controls w) (active w) (notified_future i (r_notify w)) (calls w), RTry dir a)
  | RTry dir a =>
      let '(ok, active) := try_acquire (active w) a in
      Some (mkRechecks (controls w) active (r_notify w) (calls w), if ok : bool then RWork (Some (root a)) else RPark dir a)
  | RPark dir a => if cancelled then keep RDone else if is_notified i (r_notify w) then keep (RCheck dir) else None
  | RWork (Some root) => keep (RDrop root)
  | RWork None => keep RDone
  | RDrop root => Some (mkRechecks (controls w) (drop_permit (active w) root) (r_notify w) (calls w), RNotify)
  | RReplace controls => Some (mkRechecks controls (active w) (r_notify w) (calls w), RNotify)
  | RNotify => Some (mkRechecks (controls w) (active w) (notify_waiters (r_notify w)) (calls w), RDone)
  | RDone => None
  end.

(** [config_ok] for the configurations that may come. *)
Inductive rstep (config_ok : list StorageRootControl -> Prop) w : rechecks N -> Prop :=
  | rstep_call p : (exists dir, p = RCheck dir) \/ (exists cs, p = RReplace cs /\ config_ok cs) -> rstep config_ok w (mkRechecks (controls w) (active w) (r_notify w) (calls w ++ [p]))
  | rstep_run i cancelled p w' q : calls w !! i = Some p -> recheck_step i cancelled w p = Some (w', q) ->
      rstep config_ok w (mkRechecks (controls w') (active w') (r_notify w') (<[i := q]> (calls w))).

Definition rechecks_new (cs : list StorageRootControl) : rechecks N := mkRechecks cs ∅ notify_new [].

(** A schedule: who goes on, and whether its cancellation is ready. *)
Fixpoint recheck_run w (schedule : list (nat * bool)) : option (rechecks N) :=
  match schedule with
  | [] => Some w
  | (i, cancelled) :: schedule =>
      match calls w !! i with
      | None => None
      | Some p =>
          match recheck_step i cancelled w p with
          | None => None
          | Some (w', q) => recheck_run (mkRechecks (controls w') (active w') (r_notify w') (<[i := q]> (calls w))) schedule
          end
      end
  end.

(** *** Permits are counted exactly *)

Definition holds_permit (r : list text) (p : rpc) : bool :=
  match p with RWork (Some r') | RDrop r' => bool_decide (r' = r) | _ => false end.
Definition holders (l : list rpc) (r : list text) : Z := zsum (fun p => b2z (holds_permit r p)) l.
Definition counted (l : list rpc) (m : gmap (list text) Z) : Prop :=
  forall r, m !! r = if holders l r =? 0 then None else Some (holders l r).

Lemma holders_nonneg l r : 0 <= holders l r.
Proof. apply zsum_nonneg. intros p _. by destruct (holds_permit r p). Qed.
Lemma holders_le l r : holders l r <= len l.
Proof. unfold holders, len. induction l as [|p l IH]; [done|]. rewrite zsum_cons. cbn [length]. destruct (holds_permit r p); cbn [b2z]; lia. Qed.
Lemma holders_insert l i p q r : l !! i = Some p -> holders (<[i := q]> l) r = holders l r - b2z (holds_permit r p) + b2z (holds_permit r q).
Proof. intros Hi. unfold holders. rewrite (zsum_insert _ _ _ p q Hi). lia. Qed.
Lemma counted_same l m i p q : l !! i = Some p -> (forall r, holds_permit r p = holds_permit r q) -> counted l m -> counted (<[i := q]> l) m.
Proof. intros Hi Hs Hc r. rewrite (Hc r), (holders_insert l i p q r Hi), Hs. by replace (holders l r - _ + _) with (holders l r) by lia. Qed.
Lemma counted_default l m r : counted l m -> default 0 (m !! r) = holders l r.
Proof. intros Hc. rewrite (Hc r). destruct (Z.eqb_spec (holders l r) 0); cbn; lia. Qed.

Lemma acquire_counted l m i dir a : l !! i = Some (RTry dir a) -> len l <= u64_max -> counted l m ->
  let '(ok, m') := try_acquire m a in
  counted (<[i := if ok : bool then RWork (Some (root a)) else RPark dir a]> l) m' /\
  (ok = true -> 0 < a_max_rechecks a -> holders l (root a) < a_max_rechecks a) /\
  (ok = false -> 0 < a_max_rechecks a <= holders l (root a)).
Proof.
  intros Hi Hl Hc. unfold try_acquire. rewrite (counted_default l m _ Hc). pose proof (holders_nonneg l (root a)) as H0.
  assert (forall r, r <> root a -> holders (<[i := RWork (Some (root a))]> l) r = holders l r) as Hne.
  { intros r Hr. rewrite (holders_insert l i (RTry dir a) _ r Hi). cbn. rewrite bool_decide_eq_false_2 by done. cbn. lia. }
  assert (holders (<[i := RWork (Some (root a))]> l) (root a) = holders l (root a) + 1) as Heq.
  { rewrite (holders_insert l i (RTry dir a) _ _ Hi). cbn. rewrite bool_decide_eq_true_2 by done. cbn. lia. }
  pose proof (holders_le (<[i := RWork (Some (root a))]> l) (root a)) as Hle. unfold len in Hle. rewrite length_insert in Hle. fold (len l) in Hle.
  destruct (Z.ltb_spec 0 (a_max_rechecks a)), (Z.leb_spec (a_max_rechecks a) (holders l (root a))); cbn [andb];
    try (split; [|split; intros; lia]); try (intros r; rewrite insert_insert_eq; unfold saturating_add;
      destruct (decide (r = root a)) as [->|Hr]; [rewrite lookup_insert_eq, Heq; destruct (Z.eqb_spec (holders l (root a) + 1) 0); [lia|f_equal; lia]|
        rewrite lookup_insert_ne by done; by rewrite (Hc r), Hne]).
  apply (counted_same l _ i _ _ Hi); [done|]. intros r. destruct (decide (r = root a)) as [->|Hr]; [|by rewrite lookup_insert_ne].
  rewrite lookup_insert_eq. destruct (Z.eqb_spec (holders l (root a)) 0); [lia|done].
Qed.

Lemma drop_counted l m i r : l !! i = Some (RDrop r) -> counted l m -> counted (<[i := RNotify]> l) (drop_permit m r).
Proof.
  intros Hi Hc. assert (holders (<[i := RNotify]> l) r = holders l r - 1) as Heq.
  { rewrite (holders_insert l i _ _ _ Hi). cbn. rewrite bool_decide_eq_true_2 by done. cbn. lia. }
  assert (forall r', r' <> r -> holders (<[i := RNotify]> l) r' = holders l r') as Hne.
  { intros r' Hr. rewrite (holders_insert l i _ _ _ Hi). cbn. rewrite bool_decide_eq_false_2 by done. cbn. lia. }
  pose proof (holders_nonneg (<[i := RNotify]> l) r) as H0. intros r'. unfold drop_permit. rewrite (Hc r).
  destruct (Z.eqb_spec (holders l r) 0); [lia|]. unfold saturating_sub.
  destruct (Z.eqb_spec (Z.max 0 (holders l r - 1)) 0), (decide (r' = r)) as [->|Hr];
    rewrite ?lookup_delete_eq, ?lookup_insert_eq, ?lookup_delete_ne, ?lookup_insert_ne, ?Heq, ?Hne by done; try done;
    destruct (Z.eqb_spec (holders l r - 1) 0); (lia || done || (f_equal; lia)).
Qed.

(** *** What every reachable state satisfies *)

Context `{!NotifyLaws N}.

Definition subscribed (p : rpc) : bool := match p with RTry _ _ | RPark _ _ => true | _ => false end.
Definition some_notifier (l : list rpc) : Prop := exists j, l !! j = Some RNotify.

Record recheck_inv w : Prop := {
  inv_counted : counted (calls w) (active w);
  inv_subscribed : forall i p, calls w !! i = Some p -> subscribed p = true -> waits i (r_notify w);
  inv_parked : forall i dir a, calls w !! i = Some (RPark dir a) ->
    is_notified i (r_notify w) = true \/ some_notifier (calls w) \/ 0 < a_max_rechecks a <= holders (calls w) (root a) }.

Ltac recheck_cases p := destruct p as [| | | | |[]| | | |]; cbn [recheck_step] in *; repeat (case_match; simplify_eq/=); simplify_eq/=; try done.

Lemma step_notify_cases i c w p w' q : recheck_step i c w p = Some (w', q) ->
  r_notify w' = r_notify w \/ (r_notify w' = notified_future i (r_notify w) /\ subscribed q = true) \/ r_notify w' = notify_waiters (r_notify w).
Proof. intros E. recheck_cases p; auto. Qed.

Lemma step_counted i c w p w' q : len (calls w) <= u64_max -> calls w !! i = Some p -> recheck_step i c w p = Some (w', q) ->
  counted (calls w) (active w) -> counted (<[i := q]> (calls w)) (active w').
Proof.
  intros Hl Hi E Hc. destruct p as [| | |dir a| |[]|r| | |]; cbn [recheck_step] in E.
  4: { destruct (try_acquire (active w) a) as [ok m] eqn:Et. simplify_eq/=. pose proof (acquire_counted _ _ i dir a Hi Hl Hc) as Ha. rewrite Et in Ha. apply Ha. }
  7: { simplify_eq/=. by apply drop_counted. }
  all: repeat case_match; simplify_eq/=; eapply counted_same; done.
Qed.

Lemma step_holders i c w p w' q r : calls w !! i = Some p -> recheck_step i c w p = Some (w', q) -> q <> RNotify ->
  holders (calls w) r <= holders (<[i := q]> (calls w)) r.
Proof.
  intros Hi E Hq. rewrite (holders_insert _ i p q r Hi).
  assert (b2z (holds_permit r p) <= b2z (holds_permit r q)); [|lia]. recheck_cases p; repeat case_bool_decide; cbn; lia.
Qed.

Lemma step_wakes i j c w p w' q : recheck_step i c w p = Some (w', q) -> j <> i -> waits j (r_notify w) ->
  waits j (r_notify w') /\ (is_notified j (r_notify w) = true -> is_notified j (r_notify w') = true).
Proof.
  intros E Hne Hw. destruct (step_notify_cases _ _ _ _ _ _ E) as [->|[[-> _]| ->]]; [by split|..]; split;
    eauto using future_keeps, notify_keeps, future_keeps_wake, notify_wakes.
Qed.

Lemma step_parked i c w p w' q j dir a : len (calls w) <= u64_max -> recheck_inv w -> calls w !! i = Some p -> recheck_step i c w p = Some (w', q) ->
  <[i := q]> (calls w) !! j = Some (RPark dir a) ->
  is_notified j (r_notify w') = true \/ some_notifier (<[i := q]> (calls w)) \/ 0 < a_max_rechecks a <= holders (<[i := q]> (calls w)) (root a).
Proof.
  intros Hl [Hc Hf Hp] Hi E Hj. pose proof (lookup_lt_Some _ _ _ Hi) as Hlt.
  apply list_lookup_insert_Some in Hj as [(-> & -> & _)|[Hne Hj]].
  - right; right. rewrite (holders_insert _ _ p _ _ Hi). cbn [holds_permit b2z].
    destruct p as [| | |dir' a'| |[]| | | |]; cbn [recheck_step] in E; repeat case_match; simplify_eq/=.
    pose proof (acquire_counted _ _ j dir a Hi Hl Hc) as Ha.
    match goal with H : try_acquire _ _ = _ |- _ => rewrite H in Ha end. destruct Ha as (_ & _ & Ha). rewrite Z.sub_0_r, Z.add_0_r. by apply Ha.
  - assert (q = RNotify \/ q <> RNotify) as [->|Hq] by (destruct q; (by left) || by right); [right; left; exists i; by apply list_lookup_insert_eq|].
    destruct (step_wakes i j c w p w' q E ltac:(done) (Hf j _ Hj eq_refl)) as [_ Hk].
    destruct (Hp j dir a Hj) as [Hn|[[k Hk']|Hh]]; [left; by apply Hk| |].
    + destruct (decide (k = i)) as [->|Hki]; [|right; left; exists k; by rewrite list_lookup_insert_ne].
      left. rewrite Hi in Hk'. simplify_eq. cbn [recheck_step] in E. simplify_eq/=. apply notify_wakes. by apply (Hf j _ Hj).
    + right; right. pose proof (step_holders i c w p w' q (root a) Hi E Hq). lia.
Qed.

Lemma rstep_inv config_ok w w' : rstep config_ok w w' -> len (calls w') <= u64_max -> recheck_inv w -> recheck_inv w'.
Proof.
  intros Hs Hl Hw. destruct Hs as [p Hp|i c p w' q Hi E]; cbn [calls] in *.
  - assert (subscribed p = false /\ forall r, holds_permit r p = false) as [Hsub Hh] by (destruct Hp as [[dir ->]|(cs & -> & _)]; done).
    assert (forall r, holders (calls w ++ [p]) r = holders (calls w) r) as Hho by (intros r; unfold holders; rewrite zsum_app, zsum_single, Hh; cbn; lia).
    assert (forall i q, (calls w ++ [p]) !! i = Some q -> subscribed q = true -> calls w !! i = Some q) as Hold.
    { intros i q Hq Hsq. apply lookup_app_Some in Hq as [?|[_ Hq]]; [done|]. apply list_lookup_singleton_Some in Hq as [_ <-]. congruence. }
    destruct Hw as [Hc Hf Hk]. split; cbn [calls active r_notify].
    + intros r. rewrite Hho. apply Hc.
    + eauto.
    + intros i dir a Ha. rewrite Hho. destruct (Hk i dir a) as [?|[[j Hj]|?]]; auto. right; left. exists j. by apply lookup_app_l_Some.
  - unfold len in Hl. rewrite length_insert in Hl. split; cbn [calls active r_notify].
    + eapply step_counted; eauto. apply Hw.
    + intros j q' Hq Hsq. apply list_lookup_insert_Some in Hq as [(-> & -> & _)|[Hne Hq]].
      * destruct Hw as [_ Hf _]. recheck_cases p; try apply future_waits; by eapply Hf.
      * eapply step_wakes; eauto. by eapply inv_subscribed.
    + intros j dir a Hj. by eapply (step_parked i c w p w' q).
Qed.

Lemma rsteps_inv config_ok cs w : rtc (rstep config_ok) (rechecks_new cs) w -> len (calls w) <= u64_max -> recheck_inv w.
Proof.
  intros Hr. apply rtc_ind_r with (P := fun w => len (calls w) <= u64_max -> recheck_inv w) in Hr; [done| |].
  - intros _. split; cbn [calls active r_notify rechecks_new]; [intros r; by rewrite lookup_empty|by intros i p; rewrite lookup_nil|by intros i d a; rewrite lookup_nil].
  - intros w1 w2 _ Hs IH Hl. eapply rstep_inv; [done..|]. apply IH. destruct Hs as [p _|]; cbn [calls] in Hl; unfold len in *; [rewrite length_app in Hl; cbn in Hl; lia|by rewrite length_insert in Hl].
Qed.

(** Every configuration has a limit of at most [k] for the root [r]. *)
Definition capped (r : list text) (k : Z) (cs : list StorageRootControl) : Prop :=
  forall c, c ∈ cs -> normalized_path current_dir c = Some r -> 0 < max_concurrent_rechecks c <= k.
Definition admission_of (p : rpc) : option StorageRootAdmission :=
  match p with RSubscribe _ a | RTry _ a | RPark _ a => Some a | _ => None end.
Record capped_inv (r : list text) (k : Z) w : Prop := {
  capped_controls : capped r k (controls w);
  capped_calls : forall i p, calls w !! i = Some p -> forall cs, p = RReplace cs -> capped r k cs;
  capped_admissions : forall i p a, calls w !! i = Some p -> admission_of p = Some a -> root a = r -> 0 < a_max_rechecks a <= k;
  capped_holders : holders (calls w) r <= k }.

Lemma resolved_capped r k cs dir a : capped r k cs -> storage_root_admission_for_path current_dir cs dir = Some a -> root a = r -> 0 < a_max_rechecks a <= k.
Proof.
  intros Hc E Hr. unfold storage_root_admission_for_path, root_control_for_path in E.
  destruct (lexical_absolute_path current_dir dir) as [p|]; [|done]. cbn [mbind option_bind] in E.
  pose proof (max_by_key_spec (fun e : list text * StorageRootControl => length e.1) (omap (containing current_dir p) cs)) as Hm.
  destruct (max_by_key _ _) as [[r' c]|]; [|done]. cbn [fmap option_fmap option_map snd mbind option_bind] in E. destruct Hm as [Hin _].
  apply list_elem_of_omap in Hin as (c' & Hc' & E'). unfold containing in E'. destruct (normalized_path current_dir c') as [r2|] eqn:En; [|done].
  cbn [mbind option_bind] in E'. destruct (starts_with p r2); simplify_eq. rewrite En in E. simplify_eq/=. by apply Hc.
Qed.

Lemma rstep_capped r k w w' : rstep (capped r k) w w' -> len (calls w) <= u64_max -> recheck_inv w -> capped_inv r k w -> capped_inv r k w'.
Proof.
  intros Hs Hl Hw [H1 H2 H3 H4]. destruct Hs as [p Hp|i c p w' q Hi E].
  - assert (admission_of p = None /\ holds_permit r p = false) as [Ha Hh] by (destruct Hp as [[dir ->]|(cs & -> & _)]; done).
    assert (forall i q, (calls w ++ [p]) !! i = Some q -> calls w !! i = Some q \/ q = p) as Hold.
    { intros i q Hq. apply lookup_app_Some in Hq as [?|[_ Hq]]; [by left|]. apply list_lookup_singleton_Some in Hq as [_ <-]. by right. }
    split; cbn [controls calls]; [done|..].
    + intros i q Hq cs ->. destruct (Hold _ _ Hq) as [Hq'|<-]; [by eapply H2|]. destruct Hp as [[dir [=]]|(cs' & [= <-] & Hcs)]. done.
    + intros i q a Hq Haq. destruct (Hold _ _ Hq) as [Hq'| ->]; [by eapply H3|congruence].
    + unfold holders. rewrite zsum_app, zsum_single, Hh. cbn [b2z]. unfold holders in H4. lia.
  - split; cbn [controls calls].
    + recheck_cases p. by eapply H2.
    + intros j p' Hj cs ->. apply list_lookup_insert_Some in Hj as [(-> & Hq & _)|[_ Hj]]; [|by eapply H2]. recheck_cases p.
    + intros j p' a Hj Ha. apply list_lookup_insert_Some in Hj as [(-> & -> & _)|[_ Hj]]; [|by eapply H3].
      destruct p as [|dir| | | |[]| | | |]; cbn [recheck_step] in E; repeat (case_match; simplify_eq/=); simplify_eq/=; try done; try by eapply (H3 j).
      intros Hr. by eapply resolved_capped.
    + destruct p as [| | |dir a| |[]| | | |]; cbn [recheck_step] in E; rewrite (holders_insert _ i _ _ _ Hi); cbn [holds_permit b2z].
      4: { pose proof (acquire_counted _ _ i dir a Hi Hl (inv_counted w Hw)) as Hacq.
           destruct (try_acquire (active w) a) as [[] m] eqn:Et; simplify_eq/=; [|lia]. destruct Hacq as (_ & Ha & _).
           case_bool_decide as Er; cbn [b2z]; [|lia]. destruct (H3 i _ a Hi eq_refl Er). subst r. specialize (Ha eq_refl). lia. }
      all: repeat case_match; simplify_eq/=; try lia; repeat case_bool_decide; cbn [b2z]; lia.
Qed.

(** Rechecks of a storage root are counted exactly and bounded.  In every
    interleaving, cancellations and replacements of the configuration included, the count
    of a root is the number of rechecks that hold its permit, with no entry left for
    none; and if every configuration bounds the root by [k], there are at most [k]. *)
Theorem rechecks_bounded cs r k w :
  capped r k cs -> 0 <= k -> rtc (rstep (capped r k)) (rechecks_new cs) w -> len (calls w) <= u64_max ->
  (active w !! r = if holders (calls w) r =? 0 then None else Some (holders (calls w) r)) /\ holders (calls w) r <= k.
Proof.
  intros Hcs Hk Hr Hl. pose proof (rsteps_inv _ _ _ Hr Hl) as Hw. split; [apply Hw|].
  assert (len (calls w) <= u64_max -> capped_inv r k w) as Hci; [|by apply Hci].
  clear Hl Hw. apply rtc_ind_r with (P := fun w => len (calls w) <= u64_max -> capped_inv r k w) in Hr; [done| |].
  - intros _. split; cbn [calls controls rechecks_new]; [done|intros i p; by rewrite lookup_nil..|unfold holders; by rewrite zsum_nil].
  - intros w1 w2 H1 Hs IH Hl. assert (len (calls w1) <= u64_max) as Hl1.
    { destruct Hs as [p _|]; cbn [calls] in Hl; unfold len in *; [rewrite length_app in Hl; cbn in Hl; lia|by rewrite length_insert in Hl]. }
    eapply rstep_capped; eauto. by eapply rsteps_inv.
Qed.

(** A waiting recheck is never forgotten.  Whenever a recheck is parked and no
    release or replacement is half done, it has been woken, or another recheck still
    holds a permit of its root and wakes it when it ends. *)
Theorem parked_recheck_wakes config_ok cs w i dir a :
  rtc (rstep config_ok) (rechecks_new cs) w -> len (calls w) <= u64_max ->
  calls w !! i = Some (RPark dir a) -> ~ some_notifier (calls w) ->
  is_notified i (r_notify w) = true \/ exists j p, j <> i /\ calls w !! j = Some p /\ holds_permit (root a) p = true.
Proof.
  intros Hr Hl Hi Hq. destruct (inv_parked w (rsteps_inv _ _ _ Hr Hl) i dir a Hi) as [?|[?|Hh]]; [by left|done|]. right.
  assert (exists p, p ∈ calls w /\ holds_permit (root a) p = true) as (p & Hp & Hb).
  { assert (0 < holders (calls w) (root a)) as Hpos by lia. revert Hpos. unfold holders. generalize (calls w). induction l as [|p l IH]; [done|].
    rewrite zsum_cons. destruct (holds_permit (root a) p) eqn:Eb; [exists p; split; [left|done]|]. cbn [b2z]. intros Hpos. destruct IH as (p' & ? & ?); [lia|]. exists p'. split; [by right|done]. }
  apply list_elem_of_lookup in Hp as [j Hj]. exists j, p. split; [|done]. intros ->. by simplify_eq.
Qed.
End rechecks.

(** ** Concrete values *)

Definition one_recheck (path : text) (n : Z) : StorageRootControl := mkControl path 2 100 0 n.
Definition two_roots : list StorageRootControl := [one_recheck (bytes_of "/srv/hdd") 1; one_recheck (bytes_of "/srv") 0].

Lemma deepest_root_controls_witness :
  root_control_for_path None two_roots (bytes_of "/srv/./hdd/x/../y") = Some (one_recheck (bytes_of "/srv/hdd") 1).
Proof.
  apply (deepest_root_controls None two_roots (bytes_of "/srv/./hdd/x/../y") [bytes_of "srv"; bytes_of "hdd"; bytes_of "y"]).
  - by vm_compute.
  - intros c c' Hc Hc' _. set_unfold in Hc. set_unfold in Hc'. destruct Hc as [->|[->|[]]], Hc' as [->|[->|[]]]; by vm_compute.
  - split; [set_solver|]. exists [bytes_of "srv"; bytes_of "hdd"]. split; [by vm_compute|]. split; [by exists [bytes_of "y"]|].
    intros c' r' Hc E _. set_unfold in Hc. destruct Hc as [->|[->|[]]]; vm_compute in E; injection E as <-; cbn; lia.
Defined.

Definition flat_policy (r : list text) : StorageRootAdmission := mkAdmission r 2 100 0 1.
Definition key_of (n : Z) : TorrentKey := KeyV1 (pad_array 20 [as_u8 n]).
Lemma roots_within_limits_witness :
  let m := foldl admission_step ∅ [Reserve (key_of 1) (flat_policy []) 60; Reserve (key_of 2) (flat_policy []) 50; Reserve (key_of 3) (flat_policy []) 40] in
  root_bytes m [] = 100 /\ root_bytes m [] <= 100.
Proof.
  pose proof (roots_within_limits flat_policy [Reserve (key_of 1) (flat_policy []) 60; Reserve (key_of 2) (flat_policy []) 50; Reserve (key_of 3) (flat_policy []) 40]) as H.
  destruct H as [H _]; [done|by repeat constructor|]. split; [by vm_compute|]. apply (H []). by vm_compute.
Defined.

Definition two_starts : list planned := [(key_of 1, flat_policy [], 60); (key_of 2, flat_policy [], 50); (key_of 3, flat_policy [], 40)].
Lemma plan_is_realised_witness :
  let st := foldl plan_step (from_records (records ∅), []) two_starts in map (fun e => e.1.1) st.2 = [key_of 1; key_of 3] /\ reserve_all ∅ (List.filter (not_reserved ∅) st.2) = Ok st.1.
Proof.
  destruct (plan_is_realised ∅ two_starts) as [H _]; [by apply (bool_decide_unpack _); vm_compute|]. split; [by vm_compute|exact H].
Defined.

Definition srv : text := bytes_of "/srv".
Definition recheck_start (n : Z) : rechecks futures := rechecks_new [one_recheck srv n].
Definition with_calls (w : rechecks futures) (l : list rpc) : rechecks futures := mkRechecks (controls w) (active w) (r_notify w) l.

Lemma calls_reach config_ok w l : Forall (fun p => (exists dir, p = RCheck dir) \/ (exists cs, p = RReplace cs /\ config_ok cs)) l ->
  rtc (rstep None config_ok) w (mkRechecks (controls w) (active w) (r_notify w) (calls w ++ l)).
Proof.
  intros Hl. revert w. induction Hl as [|p l Hp _ IH]; intros w; [rewrite app_nil_r; by destruct w|].
  eapply rtc_l; [by apply rstep_call|]. specialize (IH (mkRechecks (controls w) (active w) (r_notify w) (calls w ++ [p]))). cbn in IH. by rewrite <- app_assoc in IH.
Qed.
Lemma recheck_run_steps config_ok schedule : forall w w' : rechecks futures,
  recheck_run None w schedule = Some w' -> rtc (rstep None config_ok) w w'.
Proof.
  induction schedule as [|[i c] schedule IH]; intros w w' E; cbn [recheck_run] in E; [by simplify_eq|].
  destruct (calls w !! i) as [p|] eqn:Hi; [|done]. destruct (recheck_step None i c w p) as [[w1 q]|] eqn:Hs; [|done].
  eapply rtc_l; [by eapply rstep_run|by apply IH].
Qed.

(** The first recheck works; the second is parked. *)
Definition parked_schedule : list (nat * bool) := [(0, false); (0, false); (0, false); (0, false); (1, false); (1, false); (1, false); (1, false)]%nat.
Definition parked : option (rechecks futures) := recheck_run None (with_calls (recheck_start 1) [RCheck srv; RCheck srv]) parked_schedule.

Lemma parked_reach config_ok w : parked = Some w -> rtc (rstep None config_ok) (recheck_start 1) w.
Proof.
  intros E. apply (transitivity (y := with_calls (recheck_start 1) [RCheck srv; RCheck srv])); [|by eapply recheck_run_steps].
  apply (calls_reach config_ok (recheck_start 1) [RCheck srv; RCheck srv]). repeat (apply Forall_cons_2; [left; by eexists|]). apply Forall_nil_2.
Qed.

Lemma rechecks_bounded_witness : exists w, parked = Some w /\ active w !! [bytes_of "srv"] = Some 1 /\ holders (calls w) [bytes_of "srv"] <= 1.
Proof.
  destruct parked as [w|] eqn:E; [|by vm_compute in E]. exists w. split; [done|].
  destruct (rechecks_bounded None [one_recheck srv 1] [bytes_of "srv"] 1 w) as [_ H]; [|done|by apply parked_reach|vm_compute in E; injection E as <-; by vm_compute|].
  - intros c Hc _. set_unfold in Hc. destruct Hc as [->|[]]; cbn; lia.
  - split; [vm_compute in E; by injection E as <-|exact H].
Defined.

Lemma parked_recheck_wakes_witness : exists w, parked = Some w /\
  exists j p, j <> 1%nat /\ calls w !! j = Some p /\ holds_permit [bytes_of "srv"] p = true.
Proof.
  destruct parked as [w|] eqn:E; [|by vm_compute in E]. exists w. split; [done|].
  destruct (parked_recheck_wakes None (fun _ => True) [one_recheck srv 1] w 1 srv (mkAdmission [bytes_of "srv"] 2 100 0 1)) as [H|H];
    [by apply parked_reach|vm_compute in E; injection E as <-; by vm_compute..| | |exact H].
  - intros [j Hj]. vm_compute in E. injection E as <-. destruct j as [|[|j]]; done.
  - exfalso. vm_compute in E. injection E as <-. by vm_compute in H.
Defined.

(** ** Observations *)

(** A replacement of the configuration can be missed.  The limit is read before the
    subscription; a replacement between the two wakes nobody, and the recheck waits for
    a limit that is no longer there until another recheck ends. *)
Lemma replacement_missed : exists w,
  recheck_run None (with_calls (recheck_start 1) [RCheck srv; RCheck srv; RReplace [one_recheck srv 0]])
    [(0, false); (0, false); (0, false); (0, false); (1, false); (1, false); (2, false); (2, false); (1, false); (1, false)]%nat = Some w /\
  calls w = [RWork (Some [bytes_of "srv"]); RPark srv (mkAdmission [bytes_of "srv"] 2 100 0 1); RDone] /\
  recheck_step None 1 false w (RPark srv (mkAdmission [bytes_of "srv"] 2 100 0 1)) = None /\
  storage_root_admission_for_path None (controls w) srv = Some (mkAdmission [bytes_of "srv"] 2 100 0 0).
Proof. eexists. split; [by vm_compute|]. by vm_compute. Qed.
