(* ===== verification/Scheduler.v ===== *)
(** * The download scheduler: [crates/swarmotterd/src/daemon/scheduler.rs]

    Which torrents should be downloading, over the queue, the registry, the effective
    policies and the admission plan of storage roots; the sweeps that recover torrents
    without an engine; the coalescing of reconciliation requests.  A handler that locks
    the registry or the queue takes and returns it.  The theorems: the limits hold, a
    torrent waits only for those before it or for its storage root, what is planned can be
    started, and no request for reconciliation is lost. *)

From S2P Require Import Prelude Text Hash Meta Storage Torrent Queue Ratio Intake Policy PolicyRuntime Admission.

Local Open Scope byte_scope.
Local Open Scope Z_scope.

Inductive TorrentState : Type :=
  | Queued | Checking | DownloadingMetadata | Downloading | Seeding | PausedState | Completed | ErrorState
  | NetworkBlockedState | StorageErrorState | TrackerErrorState.
#[export] Instance TorrentState_eq_dec : EqDecision TorrentState.
Proof. solve_decision. Defined.

(** A record with the fields scheduling reads or writes. *)
Record RunFields : Type := mkRun { t_state : TorrentState; t_error : option text }.
Abbreviation DTorrent := (Torrent (PolicyFields * RunFields)).
Definition policy_view (t : DTorrent) : PTorrent :=
  mkTorrent (meta t) (progress t) (rows t) (magnet_info_hash t) (magnet_identity t) (other t).1.
Definition state_of (t : DTorrent) : TorrentState := t_state (other t).2.
Definition set_run (t : DTorrent) (s : TorrentState) (e : option text) : DTorrent :=
  mkTorrent (meta t) (progress t) (rows t) (magnet_info_hash t) (magnet_identity t) ((other t).1, mkRun s e).
Abbreviation DRegistry := (@TorrentRegistry (PolicyFields * RunFields)).
Abbreviation DQueue := (QueueState TorrentKey).

Definition is_downloading (s : TorrentState) : bool := match s with Downloading | DownloadingMetadata => true | _ => false end.
Definition is_schedulable (s : TorrentState) : bool := match s with Queued | Downloading | DownloadingMetadata => true | _ => false end.

(** ** The selection *)

Record Selection : Type := mkSel {
  s_active : list TorrentKey; active_set : gset TorrentKey;
  active_downloads : nat; active_metadata_fetches : nat; storage_plan : reservations; full : bool }.

Section selection.
Variables (current_dir : option text) (default_dir : text) (config : Config) (root_controls : list StorageRootControl)
  (retry_after : gmap TorrentKey Z) (now : Z) (reg : DRegistry) (excluded : option TorrentKey).

Definition storage_root_admission_for_torrent (t : DTorrent) : option StorageRootAdmission :=
  storage_root_admission_for_path current_dir root_controls (policy_storage_paths default_dir config (policy_view t)).2.

Definition queue_weight (hash : TorrentKey) : Z :=
  match registry_get reg hash with
  | Some t => weight (value (ep_queue_priority (resolve config (policy_view t))))
  | None => weight PNormal
  end.
(** The comparison of [sort_by]: by weight, heaviest first, then by position. *)
Definition order_before (l r : TorrentKey * Z * Z) : bool :=
  match r.2 ?= l.2 with Lt => true | Eq => l.1.2 <=? r.1.2 | Gt => false end.
Definition prioritized_order (order : list TorrentKey) : list TorrentKey :=
  map (fun e => e.1.1) (sort_by order_before (map (fun e => (e.2, e.1, queue_weight e.2)) (enumerate order))).

Definition retrying (hash : TorrentKey) : bool := match retry_after !! hash with Some at_ => now <? at_ | None => false end.
Definition metadata_preview (t : DTorrent) : bool := preview_until_started (policy (policy_view t)) && t_needs_metadata (other t).1.
Definition auto_startable (bypass : bool) (t : DTorrent) : bool :=
  bool_decide (value (ep_start_behavior (resolve config (policy_view t))) = Start) || bypass || is_downloading (state_of t) || metadata_preview t.

Definition slots_full (limit active : nat) : bool := (0 <? limit)%nat && (limit <=? active)%nat.

(** The plan with the torrent, unless its storage root has no room for it. *)
Definition charge (plan : reservations) (hash : TorrentKey) (t : DTorrent) : option reservations :=
  if metadata_preview t then Some plan
  else match storage_root_admission_for_torrent t with
       | None => Some plan
       | Some admission => match plan_admit plan hash admission (total_length (meta t)) with Ok plan => Some plan | _ => None end
       end.

Definition select_step (limits : QueueLimits) (bypass_set : gset TorrentKey) (st : Selection) (hash : TorrentKey) : Selection :=
  if full st then st
  else if bool_decide (excluded = Some hash) then st
  else
    let download_slots_full := slots_full (max_active_downloads limits) (active_downloads st) in
    let metadata_slots_full := slots_full (max_active_metadata_fetches limits) (active_metadata_fetches st) in
    if download_slots_full && metadata_slots_full then
      mkSel (s_active st) (active_set st) (active_downloads st) (active_metadata_fetches st) (storage_plan st) true
    else if bool_decide (hash ∈ active_set st) then st
    else
      let st := mkSel (s_active st) ({[hash]} ∪ active_set st) (active_downloads st) (active_metadata_fetches st) (storage_plan st) false in
      if retrying hash then st
      else match registry_get reg hash with
      | None => st
      | Some t =>
          if auto_startable (bool_decide (hash ∈ bypass_set)) t && is_schedulable (state_of t) then
            let metadata_fetch := t_needs_metadata (other t).1 in
            if if metadata_fetch then metadata_slots_full else download_slots_full then st
            else
              match charge (storage_plan st) hash t with
              | None => st
              | Some plan =>
                  mkSel (s_active st ++ [hash]) (active_set st)
                    (if metadata_fetch then active_downloads st else S (active_downloads st))
                    (if metadata_fetch then S (active_metadata_fetches st) else active_metadata_fetches st) plan false
              end
          else st
      end.

(** The queue without the keys no record answers to, and the torrents to download. *)
Definition desired_download_hashes_excluding (queue : DQueue) (records : list (TorrentKey * (list text * Z)))
  : list TorrentKey * DQueue :=
  let queue := mkQueue (config_queue config) (order queue) (bypass queue) (order_set queue) (Queue.bypass_set queue) (order_index queue) in
  let stale := List.filter (fun hash => negb (contains reg hash)) (order queue ++ bypass queue) in
  let queue := remove_many queue stale in
  let candidates := bypass queue ++ prioritized_order (order queue) in
  let st := foldl (select_step (limits queue) (list_to_set (bypass queue))) (mkSel [] ∅ 0 0 (from_records records) false) candidates in
  (s_active st, queue).

(** ** What the selection guarantees *)

Definition startable (bypassed : gset TorrentKey) (h : TorrentKey) (t : DTorrent) : Prop :=
  excluded <> Some h /\ retrying h = false /\ registry_get reg h = Some t /\
  auto_startable (bool_decide (h ∈ bypassed)) t = true /\ is_schedulable (state_of t) = true.
Definition is_metadata (h : TorrentKey) : bool := match registry_get reg h with Some t => t_needs_metadata (other t).1 | None => false end.
Definition count_kind (m : bool) (l : list TorrentKey) : nat := length (List.filter (fun h => Bool.eqb (is_metadata h) m) l).
Definition limit_of (limits : QueueLimits) (m : bool) : nat := if m then max_active_metadata_fetches limits else max_active_downloads limits.
Definition counter (st : Selection) (m : bool) : nat := if m then active_metadata_fetches st else active_downloads st.

(** The storage root of the torrent has no room for it. *)
Definition no_room (plan : reservations) (h : TorrentKey) (t : DTorrent) : Prop :=
  metadata_preview t = false /\ exists a, storage_root_admission_for_torrent t = Some a /\
  (0 < a_max_downloads a <= root_downloads (delete h plan) (root a) \/
   0 < a_max_active_bytes a < root_bytes (delete h plan) (root a) + total_length (meta t)).

(** The reservations the active torrents need. *)
Definition planned_start (h : TorrentKey) : option planned :=
  match registry_get reg h with
  | Some t => if metadata_preview t then None else (fun a => (h, a, total_length (meta t))) <$> storage_root_admission_for_torrent t
  | None => None
  end.

Section invariant.
Variables (limits : QueueLimits) (bypassed : gset TorrentKey) (m : reservations).
Hypothesis (m_nonneg : bytes_nonneg m) (lengths : forall h t, registry_get reg h = Some t -> 0 <= total_length (meta t)).

Record sel_inv (seen : list TorrentKey) (st : Selection) : Prop := {
  sel_nodup : NoDup (s_active st);
  sel_seen : forall h, h ∈ active_set st -> h ∈ seen;
  sel_startable : forall h, h ∈ s_active st -> h ∈ active_set st /\ exists t, startable bypassed h t;
  sel_counter : forall k, counter st k = count_kind k (s_active st);
  sel_limit : forall k, (0 < limit_of limits k)%nat -> (counter st k <= limit_of limits k)%nat;
  sel_full : full st = true -> forall k, slots_full (limit_of limits k) (counter st k) = true;
  sel_skipped : forall h t, h ∈ seen -> startable bypassed h t -> h ∉ s_active st ->
    slots_full (limit_of limits (is_metadata h)) (counter st (is_metadata h)) = true \/ no_room (storage_plan st) h t;
  sel_nonneg : bytes_nonneg (storage_plan st);
  sel_plan : reserve_all m (List.filter (not_reserved m) (omap planned_start (s_active st))) = Ok (storage_plan st);
  sel_reserved : forall k, is_Some (storage_plan st !! k) <-> is_Some (m !! k) \/ exists e, planned_start k = Some e /\ k ∈ s_active st }.

Lemma slots_full_mono limit n n' : (n <= n')%nat -> slots_full limit n = true -> slots_full limit n' = true.
Proof. unfold slots_full. rewrite !andb_true_iff, !Nat.ltb_lt, !Nat.leb_le. lia. Qed.

Lemma room_mono plan h t k r bytes : bytes_nonneg plan -> 0 <= bytes -> plan !! k = None ->
  no_room plan h t -> no_room (<[k := mkReservation r bytes]> plan) h t.
Proof.
  intros Hp Hb Hk (Hm & a & Ha & Hl). split; [done|]. exists a. split; [done|].
  assert (root_downloads (delete h plan) (root a) <= root_downloads (delete h (<[k := mkReservation r bytes]> plan)) (root a) /\
    root_bytes (delete h plan) (root a) <= root_bytes (delete h (<[k := mkReservation r bytes]> plan)) (root a)) as [H1 H2]; [|lia].
  destruct (decide (h = k)) as [->|Hne]; [by rewrite delete_insert_eq, (delete_id plan k) by done|].
  rewrite delete_insert_ne by done. destruct (insert_load (delete h plan) k r bytes (root a)) as [-> ->].
  rewrite (delete_id (delete h plan) k) by (by rewrite lookup_delete_ne). case_bool_decide; cbn; lia.
Qed.

Lemma charge_spec plan h t : bytes_nonneg plan -> registry_get reg h = Some t ->
  match charge plan h t with
  | Some plan' =>
      (plan' = plan /\ forall e, planned_start h = Some e -> is_Some (plan !! h)) \/
      exists a, planned_start h = Some (h, a, total_length (meta t)) /\ plan !! h = None /\
        reserve plan h a (total_length (meta t)) = Ok plan' /\ plan' = <[h := mkReservation (root a) (total_length (meta t))]> plan
  | None => no_room plan h t
  end.
Proof.
  intros Hp Ht. unfold charge, planned_start, no_room. rewrite Ht.
  destruct (metadata_preview t); [by left|]. destruct (storage_root_admission_for_torrent t) as [a|]; cbn [fmap option_fmap option_map]; [|by left].
  unfold plan_admit. destruct (bool_decide_reflect (is_Some (plan !! h))) as [Hs|Hs]; [left; by split; [|intros e [= <-]]|].
  destruct (reserve_cases plan h a (total_length (meta t)) Hp (lengths h t Ht)) as [(E & _)|(e & E & H)]; unfold reserve in *; rewrite E.
  - right. exists a. split; [done|]. split; [by apply eq_None_not_Some|]. by rewrite E.
  - split; [done|]. exists a. by split.
Qed.

(** The candidate is skipped. *)
Lemma sel_skip seen st h set : sel_inv seen st -> (set = active_set st \/ set = {[h]} ∪ active_set st) -> full st = false ->
  (forall t, startable bypassed h t -> h ∉ s_active st ->
     slots_full (limit_of limits (is_metadata h)) (counter st (is_metadata h)) = true \/ no_room (storage_plan st) h t) ->
  sel_inv (seen ++ [h]) (mkSel (s_active st) set (active_downloads st) (active_metadata_fetches st) (storage_plan st) false).
Proof.
  intros [H1 H2 H3 H4 H5 H6 H7 H8 H9 H10] Hset Hf Hsk. split; cbn [s_active active_set storage_plan full]; try done.
  - intros x Hx. apply elem_of_app. destruct Hset as [->| ->]; [left; by apply H2|]. apply elem_of_union in Hx as [->%elem_of_singleton|Hx]; [right; by left|left; by apply H2].
  - intros x Hx. destruct (H3 x Hx) as [Hs Ht]. split; [|done]. destruct Hset as [->| ->]; set_solver.
  - intros x t Hx Ht Hn. apply elem_of_app in Hx as [Hx|Hx%list_elem_of_singleton]; [by apply H7|subst x; by apply Hsk].
Qed.

Lemma sel_unchanged seen st h : sel_inv seen st ->
  (forall t, startable bypassed h t -> h ∉ s_active st ->
     slots_full (limit_of limits (is_metadata h)) (counter st (is_metadata h)) = true \/ no_room (storage_plan st) h t) ->
  sel_inv (seen ++ [h]) st.
Proof.
  intros [H1 H2 H3 H4 H5 H6 H7 H8 H9 H10] Hsk. split; try done.
  - intros x Hx. apply elem_of_app. left. by apply H2.
  - intros x t Hx Ht Hn. apply elem_of_app in Hx as [Hx|Hx%list_elem_of_singleton]; [by apply H7|subst x; by apply Hsk].
Qed.

Lemma count_kind_snoc k l h : count_kind k (l ++ [h]) = (count_kind k l + if Bool.eqb (is_metadata h) k then 1 else 0)%nat.
Proof. unfold count_kind. rewrite List.filter_app, length_app. cbn [List.filter]. by destruct (Bool.eqb _ _). Qed.

(** The candidate is taken. *)
Lemma sel_take seen st h t plan : sel_inv seen st -> full st = false -> h ∉ active_set st -> startable bypassed h t ->
  slots_full (limit_of limits (is_metadata h)) (counter st (is_metadata h)) = false -> charge (storage_plan st) h t = Some plan ->
  sel_inv (seen ++ [h]) (mkSel (s_active st ++ [h]) ({[h]} ∪ active_set st)
    (if is_metadata h then active_downloads st else S (active_downloads st))
    (if is_metadata h then S (active_metadata_fetches st) else active_metadata_fetches st) plan false).
Proof.
  intros [H1 H2 H3 H4 H5 H6 H7 H8 H9 H10] Hf Hh Ht Hs Hc.
  assert (h ∉ s_active st) as Hna by (intros Hin; by apply H3 in Hin as [Hin _]).
  pose proof (charge_spec (storage_plan st) h t H8 ltac:(apply Ht)) as Hch. rewrite Hc in Hch.
  assert (forall k, counter (mkSel (s_active st ++ [h]) ({[h]} ∪ active_set st) (if is_metadata h then active_downloads st else S (active_downloads st))
    (if is_metadata h then S (active_metadata_fetches st) else active_metadata_fetches st) plan false) k = (counter st k + if Bool.eqb (is_metadata h) k then 1 else 0)%nat) as Hcnt.
  { intros []; cbn; destruct (is_metadata h); cbn; lia. }
  split; cbn [s_active active_set storage_plan full]; try done.
  - apply NoDup_app. split; [done|]. split; [intros x Hx ->%list_elem_of_singleton; done|apply NoDup_singleton].
  - intros x [->%elem_of_singleton|Hx]%elem_of_union; apply elem_of_app; [right; by left|left; by apply H2].
  - intros x [Hx| ->%list_elem_of_singleton]%elem_of_app; [destruct (H3 x Hx); split; [set_solver|done]|split; [set_solver|by exists t]].
  - intros k. rewrite Hcnt, count_kind_snoc, H4. done.
  - intros k Hk. rewrite Hcnt. specialize (H5 k Hk). destruct (Bool.eqb_spec (is_metadata h) k) as [<-|]; [|lia].
    unfold slots_full in Hs. apply andb_false_iff in Hs as [Hs%Nat.ltb_ge|Hs%Nat.leb_gt]; lia.
  - intros x t' Hx Ht' Hn. apply not_elem_of_app in Hn as [Hn Hxh]. apply elem_of_app in Hx as [Hx|Hx]; [|done].
    destruct (H7 x t' Hx Ht' Hn) as [Hfull|Hroom]; [left|right].
    + eapply slots_full_mono; [|exact Hfull]. rewrite Hcnt. lia.
    + destruct Hch as [[-> _]|(a & _ & Hno & _ & ->)]; [done|]. apply room_mono; try done. apply (lengths h), Ht.
  - destruct Hch as [[-> _]|(a & _ & Hno & _ & ->)]; [done|]. intros k e He. apply lookup_insert_Some in He as [[_ <-]|[_ He]]; [|by apply (H8 k)].
    apply (lengths h), Ht.
  - rewrite omap_app, List.filter_app. cbn [omap list_omap]. destruct Hch as [[-> Hin]|(a & Hps & Hno & Hr & ->)].
    + destruct (planned_start h) as [e|] eqn:Ep; cbn [List.filter]; [|by rewrite app_nil_r].
      assert (not_reserved m e = false) as ->; [|by rewrite app_nil_r]. specialize (Hin e eq_refl).
      assert (e.1.1 = h) as Eh by (unfold planned_start in Ep; repeat case_match; try done; destruct (storage_root_admission_for_torrent _); cbn in Ep; by simplify_eq).
      unfold not_reserved. rewrite Eh. apply negb_false_iff, bool_decide_eq_true. apply H10 in Hin as [?|(_ & _ & ?)]; done.
    + rewrite Hps. cbn [List.filter]. assert (not_reserved m (h, a, total_length (meta t)) = true) as ->.
      { unfold not_reserved. cbn [fst]. apply negb_true_iff, bool_decide_eq_false. intros Hm. assert (is_Some (storage_plan st !! h)) as [? Hx] by (apply H10; by left). by rewrite Hno in Hx. }
      unfold reserve_all. rewrite try_fold_snoc. unfold reserve_all in H9. by rewrite H9.
  - intros k. destruct Hch as [[-> Hin]|(a & Hps & Hno & Hr & ->)].
    + rewrite H10. split; [intros [?|(e & ? & ?)]; [by left|right; exists e; set_solver]|]. intros [?|(e & He & [Hk| ->%list_elem_of_singleton]%elem_of_app)]; [by left|right; by exists e|].
      apply H10. by apply (Hin e).
    + rewrite lookup_insert_is_Some, H10. split.
      * intros [<-|[_ [?|(e & ? & ?)]]]; [right; eexists; split; [done|set_solver]|by left|right; exists e; set_solver].
      * intros Hk. destruct (decide (h = k)) as [->|Hne]; [by left|]. right. split; [done|]. destruct Hk as [?|(e & He & Hk)]; [by left|]. right. exists e.
        split; [done|]. apply elem_of_app in Hk as [?|Hk%list_elem_of_singleton]; [done|congruence].
Qed.

Lemma sel_set_full seen st : sel_inv seen st -> (forall k, slots_full (limit_of limits k) (counter st k) = true) ->
  sel_inv seen (mkSel (s_active st) (active_set st) (active_downloads st) (active_metadata_fetches st) (storage_plan st) true).
Proof. intros [H1 H2 H3 H4 H5 H6 H7 H8 H9 H10] Hf. by split. Qed.

Definition grows (st st' : Selection) : Prop :=
  (exists extra, s_active st' = s_active st ++ extra) /\ forall h t, no_room (storage_plan st) h t -> no_room (storage_plan st') h t.
Lemma grows_same st st' : s_active st' = s_active st -> storage_plan st' = storage_plan st -> grows st st'.
Proof. intros E1 E2. split; [exists []; by rewrite app_nil_r|by rewrite E2]. Qed.

Lemma sel_step seen st h : sel_inv seen st ->
  let st' := select_step limits bypassed st h in
  sel_inv (seen ++ [h]) st' /\ grows st st'.
Proof.
  intros Hi. cbv zeta. unfold select_step. assert (grows st st) as Hnil by by apply grows_same.
  destruct (full st) eqn:Ef.
  { split; [|done]. apply sel_unchanged; [done|]. intros t _ _. left. by apply (sel_full _ _ Hi). }
  destruct (bool_decide_reflect (excluded = Some h)) as [Hx|Hx]; [split; [apply sel_unchanged; [done|intros t (? & _); done]|done]|].
  destruct (slots_full (max_active_downloads limits) (active_downloads st) && slots_full (max_active_metadata_fetches limits) (active_metadata_fetches st)) eqn:Eb.
  { apply andb_true_iff in Eb as [E1 E2]. assert (forall k, slots_full (limit_of limits k) (counter st k) = true) as Hk by by intros [].
    split; [|by apply grows_same]. apply sel_set_full; [|done]. apply sel_unchanged; [done|]. intros t _ _. left. apply Hk. }
  destruct (bool_decide_reflect (h ∈ active_set st)) as [Hin|Hin].
  { split; [|done]. apply sel_unchanged; [done|]. intros t Ht Hn. apply (sel_skipped _ _ Hi h t); [by apply (sel_seen _ _ Hi)|done..]. }
  assert (forall P : Prop, (forall t, startable bypassed h t -> h ∉ s_active st ->
    slots_full (limit_of limits (is_metadata h)) (counter st (is_metadata h)) = true \/ no_room (storage_plan st) h t) ->
    sel_inv (seen ++ [h]) (mkSel (s_active st) ({[h]} ∪ active_set st) (active_downloads st) (active_metadata_fetches st) (storage_plan st) false)) as Hmark.
  { intros _ Hs. apply sel_skip; auto. }
  destruct (retrying h) eqn:Er; [split; [apply (Hmark True); intros t (_ & Hr & _); congruence|by apply grows_same]|].
  destruct (registry_get reg h) as [t|] eqn:Et; [|split; [apply (Hmark True); intros t (_ & _ & Hr & _); congruence|by apply grows_same]].
  destruct (auto_startable _ t && is_schedulable (state_of t)) eqn:Ea; [|split; [apply (Hmark True); intros t' (_ & _ & Hr & Ha & Hb); rewrite Et in Hr; injection Hr as <-; by rewrite Ha, Hb in Ea|by apply grows_same]].
  apply andb_true_iff in Ea as [Ea1 Ea2]. assert (startable bypassed h t) as Ht by done.
  assert (is_metadata h = t_needs_metadata (other t).1) as Em by (unfold is_metadata; by rewrite Et). cbn [active_downloads active_metadata_fetches storage_plan s_active].
  destruct (if t_needs_metadata (other t).1 then _ else _) eqn:Esl.
  { split; [|by apply grows_same]. apply (Hmark True). intros t' _ _. left. rewrite Em. by destruct (t_needs_metadata _). }
  destruct (charge (storage_plan st) h t) as [plan|] eqn:Ec.
  - pose proof (charge_spec (storage_plan st) h t (sel_nonneg _ _ Hi) Et) as Hc. rewrite Ec in Hc.
    split; [|split; [by exists [h]|]; intros h' t' Hr; cbn [storage_plan]; destruct Hc as [[-> _]|(a & _ & Hno & _ & ->)]; [done|apply room_mono; try done; [apply Hi|by apply (lengths h)]]].
    cbn [active_set]. rewrite <- Em. apply (sel_take seen st h t plan); try done. rewrite Em. by destruct (t_needs_metadata _).
  - split; [|by apply grows_same]. apply (Hmark True). intros t' (_ & _ & Ht' & _) _. right. rewrite Et in Ht'. injection Ht' as <-.
    pose proof (charge_spec (storage_plan st) h t (sel_nonneg _ _ Hi) Et) as Hc. by rewrite Ec in Hc.
Qed.

Lemma sel_run l : forall seen st, sel_inv seen st ->
  let st' := foldl (select_step limits bypassed) st l in
  sel_inv (seen ++ l) st' /\ grows st st'.
Proof.
  induction l as [|h l IH]; intros seen st Hi; [rewrite app_nil_r; split; [done|by apply grows_same]|].
  cbn [foldl]. destruct (sel_step seen st h Hi) as [H1 [[e1 E1] R1]]. destruct (IH _ _ H1) as [H2 [[e2 E2] R2]].
  rewrite <- app_assoc in H2. split; [done|]. split; [exists (e1 ++ e2); by rewrite E2, E1, app_assoc|auto].
Qed.

Lemma sel_start : sel_inv [] (mkSel [] ∅ 0 0 m false).
Proof.
  split; cbn [s_active active_set storage_plan full]; try done; try set_solver.
  - constructor.
  - by intros [].
  - intros [] _; cbn; lia.
Qed.

(** Who is skipped without need is behind everybody of his kind that was taken. *)
Lemma sel_behind l l1 h l2 t : l = l1 ++ h :: l2 ->
  let st := foldl (select_step limits bypassed) (mkSel [] ∅ 0 0 m false) l in
  startable bypassed h t -> h ∉ s_active st ->
  no_room (storage_plan st) h t \/
  (0 < limit_of limits (is_metadata h))%nat /\ count_kind (is_metadata h) (s_active st) = limit_of limits (is_metadata h) /\
  forall h', h' ∈ s_active st -> is_metadata h' = is_metadata h -> h' ∈ l1.
Proof.
  intros -> st Ht Hn. assert (l1 ++ h :: l2 = (l1 ++ [h]) ++ l2) as El by by rewrite <- app_assoc.
  pose proof (sel_run (l1 ++ [h]) [] _ sel_start) as [Hi1 _]. cbn [app] in Hi1.
  set (st1 := foldl (select_step limits bypassed) (mkSel [] ∅ 0 0 m false) (l1 ++ [h])) in *.
  pose proof (sel_run l2 _ _ Hi1) as [Hi [[extra Ee] Hmono]].
  assert (st = foldl (select_step limits bypassed) st1 l2) as Est by (unfold st, st1; by rewrite El, foldl_app).
  rewrite <- Est in Hi, Ee, Hmono. clearbody st st1.
  assert (h ∉ s_active st1) as Hn1 by (rewrite Ee in Hn; set_solver).
  destruct (sel_skipped _ _ Hi1 h t ltac:(set_solver) Ht Hn1) as [Hfull|Hroom]; [|left; by apply Hmono]. right.
  unfold slots_full in Hfull. apply andb_true_iff in Hfull as [Hpos%Nat.ltb_lt Hge%Nat.leb_le]. split; [done|].
  pose proof (sel_limit _ _ Hi _ Hpos) as Hle. rewrite (sel_counter _ _ Hi1) in Hge. rewrite (sel_counter _ _ Hi), Ee in Hle.
  assert (count_kind (is_metadata h) (s_active st1 ++ extra) = (count_kind (is_metadata h) (s_active st1) + count_kind (is_metadata h) extra)%nat) as Ec.
  { unfold count_kind. by rewrite List.filter_app, length_app. }
  split; [rewrite Ee; lia|]. intros h' Hh' Hk. rewrite Ee in Hh'. apply elem_of_app in Hh' as [Hh'|Hh'].
  - apply (sel_startable _ _ Hi1) in Hh' as Hs. destruct Hs as [Hs _]. apply (sel_seen _ _ Hi1) in Hs.
    apply elem_of_app in Hs as [?|Hs%list_elem_of_singleton]; [done|]. by subst h'.
  - assert (count_kind (is_metadata h) extra = 0%nat) as E0 by lia. unfold count_kind in E0. apply nil_length_inv in E0.
    assert (h' ∈ List.filter (fun x => Bool.eqb (is_metadata x) (is_metadata h)) extra) as Hin; [|rewrite E0 in Hin; set_solver].
    apply list_elem_of_In, filter_In. rewrite <- list_elem_of_In, Hk. split; [done|by destruct (is_metadata h)].
Qed.
End invariant.
End selection.

(** ** The order of the candidates *)

Lemma order_before_total l r : order_before l r = false -> order_before r l = true.
Proof. unfold order_before. destruct (Z.compare_spec r.2 l.2), (Z.compare_spec l.2 r.2); try done; lia. Qed.
Lemma order_before_spec l r : order_before l r = true <-> r.2 < l.2 \/ (r.2 = l.2 /\ l.1.2 <= r.1.2).
Proof. unfold order_before. destruct (Z.compare_spec r.2 l.2); rewrite ?Z.leb_le; split; try done; try lia. Qed.

(** [h'] is before [h] in the queue's order of priorities. *)
Definition outranks config reg (order : list TorrentKey) (h' h : TorrentKey) : Prop :=
  queue_weight config reg h < queue_weight config reg h' \/
  (queue_weight config reg h = queue_weight config reg h' /\ exists i j, get order i = Some h' /\ get order j = Some h /\ i <= j).

Lemma prioritized_perm config reg order : prioritized_order config reg order ≡ₚ order.
Proof.
  unfold prioritized_order. rewrite sort_by_perm, map_map. cbn [fst]. unfold enumerate.
  match goal with |- ?l ≡ₚ _ => assert (l = order) as ->; [|done] end. apply list_eq. intros i.
  rewrite list_lookup_fmap, list_lookup_imap. by destruct (order !! i).
Qed.
Lemma prioritized_outranks config reg order l1 h l2 h' :
  prioritized_order config reg order = l1 ++ h :: l2 -> h' ∈ l1 -> outranks config reg order h' h.
Proof.
  unfold prioritized_order. set (l := map _ (enumerate order)). intros E Hh'.
  assert (StronglySorted (fun x y => order_before x y = true) (sort_by order_before l)) as Hs.
  { apply Sorted_StronglySorted; [|apply sort_by_sorted, order_before_total]. intros x y z. rewrite !order_before_spec. lia. }
  assert (forall e, e ∈ sort_by order_before l -> e.2 = queue_weight config reg e.1.1 /\ get order e.1.2 = Some e.1.1) as Hl.
  { intros e He. rewrite sort_by_perm in He. apply list_elem_of_In, in_map_iff in He as ([i x] & <- & He%list_elem_of_In). cbn. split; [done|].
    unfold enumerate in He. apply elem_of_lookup_imap_1 in He as (j & y & [= -> ->] & Hj). by rewrite get_of_nat. }
  apply fmap_app_inv in E as (k1 & k2 & -> & E2 & E). symmetry in E2. apply fmap_cons_inv in E2 as (e & k3 & -> & -> & ->).
  apply list_elem_of_fmap in Hh' as (e' & -> & He'). rewrite E in Hs, Hl.
  assert (order_before e' e = true) as Hb.
  { clear -Hs He'. induction k1 as [|x k1 IH]; [set_solver|]. cbn in Hs. apply StronglySorted_inv in Hs as [Hs Hx]. apply elem_of_cons in He' as [->|He']; [|by apply IH].
    rewrite Forall_forall in Hx. apply Hx. set_solver. }
  destruct (Hl e ltac:(set_solver)) as [W1 G1], (Hl e' ltac:(set_solver)) as [W2 G2]. apply order_before_spec in Hb. rewrite W1, W2 in Hb.
  destruct Hb as [?|[? ?]]; [by left|right]. split; [done|]. by exists e'.1.2, e.1.2.
Qed.

(** ** The theorems on selections *)

Section desired.
Variables (current_dir : option text) (default_dir : text) (config : Config) (root_controls : list StorageRootControl)
  (retry_after : gmap TorrentKey Z) (now : Z) (reg : DRegistry) (excluded : option TorrentKey) (queue : DQueue) (m : reservations).
Hypothesis (queue_ok : queue_inv queue) (m_nonneg : bytes_nonneg m)
  (lengths : forall h t, registry_get reg h = Some t -> 0 <= total_length (meta t)).

Let run := desired_download_hashes_excluding current_dir default_dir config root_controls retry_after now reg excluded queue (records m).
Let limits := config_queue config.
Let may_start (queue' : DQueue) := startable config retry_after now reg excluded (list_to_set (bypass queue')).
Let candidates (queue' : DQueue) := bypass queue' ++ prioritized_order config reg (order queue').

Lemma desired_queue : order run.2 = List.filter (contains reg) (order queue) /\ bypass run.2 = List.filter (contains reg) (bypass queue) /\
  queue_inv run.2 /\ Queue.limits run.2 = limits.
Proof.
  unfold run, desired_download_hashes_excluding. cbn [snd].
  set (q := mkQueue _ _ _ _ _ _). set (stale := List.filter _ _).
  assert (queue_inv q) as Hq.
  { destruct queue_ok as (Ho & Hb & E). split; [done|]. split; [done|]. unfold q. rewrite E. done. }
  destruct (step_refines q (RemoveMany stale) Hq) as (q' & [= <-] & Hi & Hl & Hv). unfold view in Hv. cbn [spec_step] in Hv.
  injection Hv as Ho Hb. assert (forall l, (forall h, h ∈ l -> h ∈ order queue ++ bypass queue) -> spec_remove_many stale l = List.filter (contains reg) l) as Hf.
  { induction l as [|h l IH]; intros Hin; [done|]. unfold spec_remove_many in *. rewrite filter_cons. cbn [List.filter].
    rewrite IH by set_solver. assert (h ∈ stale <-> contains reg h = false) as Hs.
    { unfold stale. rewrite list_elem_of_In, filter_In, <- list_elem_of_In, negb_true_iff. cbn [order bypass q]. split; [by intros [_ ?]|intros ?; split; [apply Hin; left|done]]. }
    destruct (contains reg h) eqn:Ec; [rewrite decide_True by (intros Hx; by apply Hs in Hx); done|rewrite decide_False; [done|]; intros Hx; by apply Hx, Hs]. }
  rewrite Ho, Hb, Hl. split; [apply Hf; set_solver|]. split; [apply Hf; set_solver|done].
Qed.

Let final (queue' : DQueue) := foldl (select_step current_dir default_dir config root_controls retry_after now reg excluded limits (list_to_set (bypass queue')))
  (mkSel [] ∅ 0 0 m false) (candidates queue').

Lemma desired_run : run.1 = s_active (final run.2) /\
  sel_inv current_dir default_dir config root_controls retry_after now reg excluded limits (list_to_set (bypass run.2)) m (candidates run.2) (final run.2).
Proof.
  pose proof desired_queue as (_ & _ & _ & Hl). split.
  - unfold final, candidates. rewrite <- Hl. unfold run, desired_download_hashes_excluding. cbn [fst snd]. by rewrite from_records_records.
  - apply (sel_run current_dir default_dir config root_controls retry_after now reg excluded limits (list_to_set (bypass run.2)) m m_nonneg lengths (candidates run.2) [] _ ltac:(by apply sel_start)).
Qed.

(** C27: The scheduler keeps every limit.  The torrents it wants downloading are distinct
    entries of the queue that may start now; there are at most as many downloads and as
    many metadata fetches as their limits say; and the storage roots admit all of them, in
    order, on top of what is reserved.  The queue loses the keys without a record and
    nothing else. *)
Theorem desired_downloads_limited :
  order run.2 = List.filter (contains reg) (order queue) /\ bypass run.2 = List.filter (contains reg) (bypass queue) /\ queue_inv run.2 /\
  NoDup run.1 /\ (forall h, h ∈ run.1 -> h ∈ candidates run.2 /\ exists t, may_start run.2 h t) /\
  (forall k, (0 < limit_of limits k)%nat -> (count_kind reg k run.1 <= limit_of limits k)%nat) /\
  exists plan, reserve_all m (List.filter (not_reserved m) (omap (planned_start current_dir default_dir config root_controls reg) run.1)) = Ok plan.
Proof.
  destruct desired_queue as (Ho & Hb & Hq & _). destruct desired_run as [-> Hi]. do 3 (split; [done|]). split; [apply Hi|]. split; [|split].
  - intros h Hh. destruct (sel_startable _ _ _ _ _ _ _ _ _ _ _ _ _ Hi h Hh) as [Hs Ht]. split; [|done]. by apply (sel_seen _ _ _ _ _ _ _ _ _ _ _ _ _ Hi).
  - intros k Hk. pose proof (sel_limit _ _ _ _ _ _ _ _ _ _ _ _ _ Hi k Hk) as Hle. by rewrite (sel_counter _ _ _ _ _ _ _ _ _ _ _ _ _ Hi) in Hle.
  - eexists. apply Hi.
Qed.

(** C28: Nobody waits without reason.  A torrent that may start and is not wanted has a
    storage root without room for it, or the limit of its kind is used up by torrents
    that come before it: those that bypass the queue, then the others by priority and,
    within one priority, by their position in the queue. *)
Theorem desired_downloads_fair l1 h l2 t :
  candidates run.2 = l1 ++ h :: l2 -> may_start run.2 h t -> h ∉ run.1 ->
  (exists plan, reserve_all m (List.filter (not_reserved m) (omap (planned_start current_dir default_dir config root_controls reg) run.1)) = Ok plan /\
     no_room current_dir default_dir config root_controls plan h t) \/
  (0 < limit_of limits (is_metadata reg h))%nat /\ count_kind reg (is_metadata reg h) run.1 = limit_of limits (is_metadata reg h) /\
  forall h', h' ∈ run.1 -> is_metadata reg h' = is_metadata reg h ->
    h' ∈ l1 /\ (h ∈ bypass run.2 \/ h' ∈ bypass run.2 \/ outranks config reg (order run.2) h' h).
Proof.
  intros Hc Ht Hn. destruct desired_run as [E Hi]. rewrite E in *.
  destruct (sel_behind current_dir default_dir config root_controls retry_after now reg excluded limits (list_to_set (bypass run.2)) m m_nonneg lengths
    (candidates run.2) l1 h l2 t Hc Ht Hn) as [Hr|(Hp & He & Hl)]; [left|right].
  - exists (storage_plan (final run.2)). split; [apply Hi|exact Hr].
  - do 2 (split; [done|]). intros h' Hh' Hk. specialize (Hl h' Hh' Hk). split; [done|].
    unfold candidates in Hc. destruct (app_eq_app _ _ _ _ Hc) as (k & [[E1 E2]|[E1 E2]]).
    + destruct k as [|x k]; [|left; rewrite E1; injection E2 as <- _; set_solver].
      right. rewrite app_nil_r in E1. left. by rewrite E1.
    + rewrite E1 in Hl. apply elem_of_app in Hl as [Hl|Hl]; [by right; left|]. right; right. by eapply prioritized_outranks.
Qed.
End desired.

(** ** Recovery of torrents without an engine *)

Definition STALE_ACTIVE_RECOVERY_MESSAGE : text := bytes_of "active torrent had no running engine; queued for lifecycle recovery".

(** The registry's half, over the map's entries. *)
Definition stale_active (running : gset TorrentKey) (e : TorrentKey * DTorrent) : bool :=
  is_downloading (state_of e.2) && negb (bool_decide (e.1 ∈ running)).
Definition recover (running : gset TorrentKey) (hash : TorrentKey) (t : DTorrent) : DTorrent :=
  if stale_active running (hash, t) then set_run t Queued (Some STALE_ACTIVE_RECOVERY_MESSAGE) else t.
Definition sweep_stale_active_torrents (running : gset TorrentKey) (reg : DRegistry) (queue : DQueue) : nat * DRegistry * DQueue :=
  let recovered := map fst (List.filter (stale_active running) (map_to_list (torrents reg))) in
  let reg' := mkRegistry (map_imap (fun hash t => Some (recover running hash t)) (torrents reg)) (aliases reg) in
  if bool_decide (recovered = []) then (0%nat, reg', queue)
  else (length recovered, reg', move_many_to_bottom (clear_bypass_many (add_many queue recovered) recovered) recovered).

(** [queue_torrent_for_retry]; the instant is [now]. *)
Definition queue_torrent_for_retry (reg : DRegistry) (queue : DQueue) (retry_after : gmap TorrentKey Z) (hash : TorrentKey)
    (message : text) (delay now : Z) : outcome (bool * DRegistry * DQueue * gmap TorrentKey Z) :=
  match registry_get reg hash with
  | None => Ok (false, reg, queue, retry_after)
  | Some t =>
      if is_schedulable (state_of t) then
        queue ← move_to_bottom (clear_bypass (add queue hash) hash) hash;
        Ok (true, modify reg hash (fun t => set_run t Queued (Some message)), queue, <[hash := now + delay]> retry_after)
      else Ok (false, reg, queue, retry_after)
  end.

Lemma recover_stale running k t : stale_active running (k, recover running k t) = false.
Proof.
  unfold recover. destruct (stale_active running (k, t)) eqn:E; [done|exact E].
Qed.

Lemma spec_add_all (ks : list TorrentKey) : forall o, exists extra, foldl spec_add o ks = o ++ extra /\ (forall k, k ∈ extra -> k ∈ ks) /\ forall k, k ∈ ks -> k ∈ o ++ extra.
Proof.
  induction ks as [|k ks IH]; intros o; cbn [foldl]; [exists []; rewrite app_nil_r; split; [done|]; split; set_solver|].
  destruct (IH (spec_add o k)) as (extra & E & H1 & H2). unfold spec_add in E, H2. case_decide as Hk.
  - exists extra. unfold spec_add. rewrite decide_True by done. split; [done|]. split; set_solver.
  - exists (k :: extra). unfold spec_add. rewrite decide_False, E by done. split; [by rewrite <- app_assoc|]. split; set_solver.
Qed.

Definition swept (running : gset TorrentKey) (reg : DRegistry) (k : TorrentKey) : bool :=
  match torrents reg !! k with Some t => stale_active running (k, t) | None => false end.
Definition without (ks l : list TorrentKey) : list TorrentKey := filter (fun k => k ∉ ks) l.

Lemma recovered_swept running (reg : DRegistry) k :
  k ∈ map fst (List.filter (stale_active running) (map_to_list (torrents reg))) <-> swept running reg k = true.
Proof.
  unfold swept. rewrite list_elem_of_In, in_map_iff. split.
  - intros ([k' t] & <- & [Hin Hs]%filter_In). apply list_elem_of_In, elem_of_map_to_list in Hin. cbn. by rewrite Hin.
  - destruct (torrents reg !! k) as [t|] eqn:E; [|done]. intros Hs. exists (k, t). split; [done|]. apply filter_In. split; [|done].
    by apply list_elem_of_In, elem_of_map_to_list.
Qed.

Lemma sweep_queue (queue : DQueue) ks : queue_inv queue ->
  let queue' := move_many_to_bottom (clear_bypass_many (add_many queue ks) ks) ks in
  queue_inv queue' /\ bypass queue' = without ks (bypass queue) /\
  exists last, order queue' = without ks (order queue) ++ last /\ forall k, k ∈ last <-> k ∈ ks.
Proof.
  intros Hq queue'. destruct (steps_refine [AddMany ks; ClearBypassMany ks; MoveManyToBottom ks] queue Hq) as (q & E & Hi & _ & Hv).
  cbn in E. injection E as <-. split; [done|]. cbn in Hv. injection Hv as Ho Hb. split; [exact Hb|].
  destruct (spec_add_all ks (order queue)) as (extra & Ee & H1 & H2). rewrite Ee in Ho. unfold spec_many_bottom in Ho.
  exists (filter (fun k => k ∈ ks) (order queue ++ extra)). split.
  - fold queue' in Ho. rewrite Ho. f_equal. rewrite filter_app. assert (filter (fun c => c ∉ ks) extra = []) as ->; [|by rewrite app_nil_r].
    clear -H1. induction extra as [|k extra IH]; [done|]. rewrite filter_cons, decide_False by (intros Hn; apply Hn, H1; by left). apply IH. set_solver.
  - intros k. rewrite list_elem_of_filter. split; [by intros [? _]|]. intros Hk. split; [done|by apply H2].
Qed.

(** A sweep leaves nobody behind.  Afterwards every torrent that counts as downloading
    has an engine; the recovered ones are queued, are last in the queue in place of
    wherever they were, and no longer bypass it; no other torrent and no other entry of
    the queue changes. *)
Theorem sweep_leaves_none running (reg : DRegistry) (queue : DQueue) :
  queue_inv queue ->
  let '(n, reg', queue') := sweep_stale_active_torrents running reg queue in
  (forall k t, torrents reg' !! k = Some t -> is_downloading (state_of t) = true -> k ∈ running) /\
  (forall k, torrents reg' !! k =
     if swept running reg k then (fun t => set_run t Queued (Some STALE_ACTIVE_RECOVERY_MESSAGE)) <$> (torrents reg !! k) else torrents reg !! k) /\
  queue_inv queue' /\
  exists last, (forall k, k ∈ last <-> swept running reg k = true) /\
    order queue' = without last (order queue) ++ last /\ bypass queue' = without last (bypass queue).
Proof.
  intros Hq. unfold sweep_stale_active_torrents. set (ks := map fst _). set (reg' := mkRegistry _ _).
  assert (forall k, torrents reg' !! k = (if swept running reg k then (fun t => set_run t Queued (Some STALE_ACTIVE_RECOVERY_MESSAGE)) <$> (torrents reg !! k) else torrents reg !! k)) as Hr.
  { intros k. unfold reg', swept. cbn [torrents]. rewrite map_lookup_imap. destruct (torrents reg !! k) as [t|]; [|done]. cbn [mbind option_bind fmap option_fmap option_map].
    unfold recover. by destruct (stale_active running (k, t)). }
  assert (forall k t, torrents reg' !! k = Some t -> is_downloading (state_of t) = true -> k ∈ running) as Hnone.
  { intros k t Ht Hd. rewrite Hr in Ht. unfold swept in Ht. destruct (torrents reg !! k) as [u|]; [|by destruct (_ : bool)].
    destruct (stale_active running (k, u)) eqn:Es; cbn in Ht; injection Ht as <-; [done|]. unfold stale_active in Es. cbn [fst snd] in Es.
    rewrite Hd in Es. cbn [andb] in Es. by apply negb_false_iff, bool_decide_eq_true in Es. }
  assert (forall l l' : list TorrentKey, (forall k, k ∈ l <-> k ∈ l') -> forall o, without l o = without l' o) as Hw.
  { intros l l' Hl o. unfold without. apply list_filter_iff. intros k. by rewrite Hl. }
  case_bool_decide as Ek.
  - split; [done|]. split; [done|]. split; [done|]. exists []. split; [intros k; by rewrite <- recovered_swept; fold ks; rewrite Ek|].
    assert (forall l, without [] l = l) as Hnil by (intros l; unfold without; induction l as [|k l IH]; [done|]; rewrite filter_cons, decide_True, IH by set_solver; done).
    by rewrite app_nil_r, !Hnil.
  - destruct (sweep_queue queue ks Hq) as (Hi & Hb & last & Ho & Hl). split; [done|]. split; [done|]. split; [done|].
    exists last. split; [intros k; by rewrite Hl, <- recovered_swept|]. rewrite Ho, Hb. split; [f_equal|]; apply Hw; intros k; by rewrite Hl.
Qed.

(** ** Coalesced reconciliation *)

(** Where a call of [schedule_reconcile_queue] ([Ask]) or the task it spawns is. *)
Inductive qpc : Type := Ask | Debounce | ClearDirty | StartPass | Reconciling | CheckDirty | Finished.
Inductive qevent : Type := Requested | PassStarted.
(** [QueueReconcileState], the tasks, and what happened, the latest first. *)
Record Reconciler : Type := mkReconciler { scheduled : bool; dirty : bool; q_tasks : list qpc; history : list qevent }.

(** One locked section or one await of task [i]; the second part is a spawned task. *)
Definition reconcile_step (r : Reconciler) (p : qpc) : option (Reconciler * qpc * list qpc) :=
  match p with
  | Ask =>
      if scheduled r then Some (mkReconciler (scheduled r) true (q_tasks r) (Requested :: history r), Finished, [])
      else Some (mkReconciler true false (q_tasks r) (Requested :: history r), Finished, [Debounce])
  | Debounce => Some (r, ClearDirty, [])
  | ClearDirty => Some (mkReconciler (scheduled r) false (q_tasks r) (history r), StartPass, [])
  | StartPass => Some (mkReconciler (scheduled r) (dirty r) (q_tasks r) (PassStarted :: history r), Reconciling, [])
  | Reconciling => Some (r, CheckDirty, [])
  | CheckDirty =>
      if dirty r then Some (mkReconciler (scheduled r) false (q_tasks r) (history r), ClearDirty, [])
      else Some (mkReconciler false (dirty r) (q_tasks r) (history r), Finished, [])
  | Finished => None
  end.
Inductive qstep (r : Reconciler) : Reconciler -> Prop :=
  | qstep_call : qstep r (mkReconciler (scheduled r) (dirty r) (q_tasks r ++ [Ask]) (history r))
  | qstep_run i p r' q spawned : q_tasks r !! i = Some p -> reconcile_step r p = Some (r', q, spawned) ->
      qstep r (mkReconciler (scheduled r') (dirty r') (<[i := q]> (q_tasks r) ++ spawned) (history r')).
Definition idle : Reconciler := mkReconciler false false [] [].

Definition running_pass (p : qpc) : bool := match p with Ask | Finished => false | _ => true end.
Definition before_pass (p : qpc) : bool := match p with Debounce | ClearDirty | StartPass => true | _ => false end.
Definition runners (l : list qpc) : Z := zsum (fun p => b2z (running_pass p)) l.
Definition unserved (r : Reconciler) : bool := match history r with Requested :: _ => true | _ => false end.

Record reconciler_inv (r : Reconciler) : Prop := {
  inv_runner : runners (q_tasks r) = b2z (scheduled r);
  inv_unserved : unserved r = true -> scheduled r = true /\ (dirty r = true \/ exists i p, q_tasks r !! i = Some p /\ before_pass p = true) }.

Lemma runner_unique l i j p q : runners l <= 1 -> l !! i = Some p -> l !! j = Some q -> running_pass p = true -> running_pass q = true -> i = j.
Proof.
  intros Hr Hi Hj Hp Hq. destruct (decide (i = j)) as [|Hne]; [done|]. exfalso.
  assert (runners l = runners (<[j := Ask]> (<[i := Ask]> l)) + 2) as E.
  { unfold runners. rewrite (zsum_insert _ _ _ q Ask) by (by rewrite list_lookup_insert_ne). rewrite (zsum_insert _ _ _ p Ask) by done. rewrite Hp, Hq. cbn. lia. }
  assert (0 <= runners (<[j := Ask]> (<[i := Ask]> l))) by (apply zsum_nonneg; intros x _; by destruct (running_pass x)). lia.
Qed.

Lemma runner_scheduled r i p : runners (q_tasks r) = b2z (scheduled r) -> q_tasks r !! i = Some p -> running_pass p = true -> scheduled r = true.
Proof.
  intros Hr Hi Hp. destruct (scheduled r); [done|]. exfalso.
  assert (b2z (running_pass p) <= runners (q_tasks r)) as Hg.
  { apply (zsum_ge (fun p => b2z (running_pass p)) (q_tasks r) i p); [|done]. intros a _. by destruct (running_pass a). }
  rewrite Hp, Hr in Hg. cbn in Hg. lia.
Qed.

Lemma step_runners r i p r' q spawned : reconciler_inv r -> q_tasks r !! i = Some p -> reconcile_step r p = Some (r', q, spawned) ->
  runners (<[i := q]> (q_tasks r) ++ spawned) = b2z (scheduled r').
Proof.
  intros [Hr _] Hi E.
  assert (runners (<[i := q]> (q_tasks r) ++ spawned) = b2z (scheduled r) - b2z (running_pass p) + b2z (running_pass q) + runners spawned) as ->.
  { rewrite <- Hr. unfold runners. rewrite zsum_app, (zsum_insert _ _ _ p q Hi). lia. }
  pose proof (runner_scheduled r i p Hr Hi) as Hs.
  destruct p; cbn [reconcile_step] in E; repeat (case_match; simplify_eq/=); simplify_eq/=; unfold runners; rewrite ?zsum_nil, ?zsum_single; cbn [running_pass b2z] in *;
    try (rewrite Hs by done); repeat match goal with H : scheduled r = _ |- _ => rewrite H end; cbn [b2z]; lia.
Qed.

Lemma step_unserved r i p r' q spawned : reconciler_inv r -> q_tasks r !! i = Some p -> reconcile_step r p = Some (r', q, spawned) ->
  unserved r' = true ->
  scheduled r' = true /\ (dirty r' = true \/ exists j x, (<[i := q]> (q_tasks r) ++ spawned) !! j = Some x /\ before_pass x = true).
Proof.
  intros [Hr Hu] Hi E Hun. pose proof (lookup_lt_Some _ _ _ Hi) as Hlt. pose proof (runner_scheduled r i p Hr Hi) as Hs.
  assert ((<[i := q]> (q_tasks r) ++ spawned) !! i = Some q) as Hself by (apply lookup_app_l_Some; by apply list_lookup_insert_eq).
  assert (forall j x, j <> i -> q_tasks r !! j = Some x -> (<[i := q]> (q_tasks r) ++ spawned) !! j = Some x) as Hkeep.
  { intros j x Hne Hj. apply lookup_app_l_Some. by rewrite list_lookup_insert_ne. }
  destruct p; cbn [reconcile_step] in E.
  - destruct (scheduled r); simplify_eq/=; (split; [done|]); [by left|right]. exists (length (q_tasks r)), Debounce. split; [|done].
    rewrite lookup_app_r by (by rewrite length_insert). by rewrite length_insert, Nat.sub_diag.
  - simplify_eq/=. split; [by apply Hs|]. right. by exists i, ClearDirty.
  - simplify_eq/=. split; [by apply Hs|]. right. by exists i, StartPass.
  - by simplify_eq/=.
  - simplify_eq/=. destruct (Hu Hun) as [? [?|(j & x & Hj & Hx)]]; (split; [done|]); [by left|right]. exists j, x. split; [|done]. apply Hkeep; [|done]. intros ->. by simplify_eq.
  - destruct (dirty r) eqn:Ed; simplify_eq/=; [split; [by apply Hs|]; right; by exists i, ClearDirty|].
    destruct (Hu Hun) as [? [?|(j & x & Hj & Hx)]]; [congruence|]. exfalso.
    assert (i = j) as <-; [|by simplify_eq]. apply (runner_unique (q_tasks r) i j CheckDirty x); try done; [rewrite Hr; by destruct (scheduled r)|by destruct x].
  - done.
Qed.

Lemma reconciler_reach r : rtc qstep idle r -> reconciler_inv r.
Proof.
  intros Hr. apply rtc_ind_r with (P := reconciler_inv) in Hr; [done|by split|]. intros r1 r2 _ Hs Hi.
  destruct Hs as [|i p r' q spawned Hp E].
  - destruct Hi as [Hn Hu]. split; cbn [q_tasks scheduled dirty history]; [unfold runners in *; rewrite zsum_app, zsum_single; cbn; lia|].
    intros H. destruct (Hu H) as [? [?|(i & p & Hi & Hp)]]; (split; [done|]); [by left|right]. exists i, p. split; [by apply lookup_app_l_Some|done].
  - split; cbn [q_tasks scheduled dirty history]; [by eapply step_runners|]. intros H. by eapply step_unserved.
Qed.

(** No request for reconciliation is lost and no two passes overlap.  However requests
    and the debounced task interleave, at most one task runs passes, and when none does a
    whole pass has begun after the last request. *)
Theorem reconciliation_coalesces r : rtc qstep idle r ->
  (forall i j p q, q_tasks r !! i = Some p -> q_tasks r !! j = Some q -> running_pass p = true -> running_pass q = true -> i = j) /\
  ((forall i p, q_tasks r !! i = Some p -> running_pass p = false) -> unserved r = false).
Proof.
  intros Hr. destruct (reconciler_reach r Hr) as [Hn Hu]. split.
  - intros i j p q Hi Hj Hp Hq. apply (runner_unique (q_tasks r) i j p q); try done. rewrite Hn. by destruct (scheduled r).
  - intros Hnone. destruct (unserved r) eqn:Eu; [|done]. exfalso. destruct (Hu eq_refl) as [Hs _]. rewrite Hs in Hn.
    unfold runners in Hn. rewrite (zsum_ext _ (fun _ => 0)) in Hn.
    + assert (forall l, zsum (fun _ : qpc => 0) l = 0) as E0 by (intros l; induction l as [|x l IH]; [done|]; rewrite zsum_cons; lia). by rewrite E0 in Hn.
    + intros x [i Hx]%list_elem_of_lookup. by rewrite (Hnone i x Hx).
Qed.

(** ** A daemon *)

Definition plain_fields : PolicyFields := mkFields [] policy_default None (mkSeeding None None false) 0 0 [] [] false.
Definition queued (n length : Z) (s : TorrentState) : TorrentKey * DTorrent :=
  (key_of n, mkTorrent (mkMeta (pad_array 20 [as_u8 n]) Hash.Unknown (bytes_of "t") 16384 [] [mkMetaFile [bytes_of "t"] length None] length false None [] [] None None None false None None)
     (progress_new 1) [] None None (plain_fields, mkRun s None)).
Definition small_registry : DRegistry :=
  mkRegistry (list_to_map [queued 1 60 Queued; queued 2 50 Queued; queued 3 40 Queued; queued 4 10 Downloading; queued 5 1 Queued]) ∅.
Definition small_queue : DQueue := synced default_limits (map key_of [1; 2; 3; 4; 5; 9]) [key_of 5].
Definition small_config : Config := mkConfig (mkProfiles [] []) (mkLimits 3 1 5 true) (Some (bytes_of "/srv/hdd")) None default_policy EncRequired.
Definition small_roots : list StorageRootControl := [mkControl (bytes_of "/srv") 3 110 0 1].
Definition small_run : list TorrentKey * DQueue :=
  desired_download_hashes_excluding None [] small_config small_roots ∅ 0 small_registry None small_queue (records ∅).

(** The last entry bypasses the queue, the second has no room, the limit is three. *)
Example small_desired : small_run.1 = map key_of [5; 1; 3] /\ order small_run.2 = map key_of [1; 2; 3; 4; 5].
Proof. by vm_compute. Qed.

Lemma small_queue_inv : queue_inv small_queue.
Proof. split; [by apply (bool_decide_unpack _); vm_compute|]. split; [by apply (bool_decide_unpack _); vm_compute|done]. Qed.
Lemma small_lengths h t : registry_get small_registry h = Some t -> 0 <= total_length (meta t).
Proof.
  unfold registry_get. intros (p & _ & Hp)%bind_Some. apply elem_of_list_to_map_2 in Hp.
  assert (Forall (fun e => 0 <= total_length (meta e.2)) [queued 1 60 Queued; queued 2 50 Queued; queued 3 40 Queued; queued 4 10 Downloading; queued 5 1 Queued]) as Hf by (repeat constructor; cbn; lia).
  by apply (proj1 (Forall_forall _ _) Hf (p, t)).
Qed.
Lemma no_bytes : bytes_nonneg ∅.
Proof. intros k e He. by rewrite lookup_empty in He. Qed.

Lemma desired_downloads_limited_witness : (count_kind small_registry false small_run.1 <= 3)%nat.
Proof.
  destruct (desired_downloads_limited None [] small_config small_roots ∅ 0 small_registry None small_queue ∅ small_queue_inv no_bytes small_lengths)
    as (_ & _ & _ & _ & _ & H & _). apply (H false). by vm_compute; lia.
Defined.

Lemma desired_downloads_fair_witness :
  (exists plan, no_room None [] small_config small_roots plan (key_of 2) (queued 2 50 Queued).2) \/ count_kind small_registry false small_run.1 = 3%nat.
Proof.
  destruct (desired_downloads_fair None [] small_config small_roots ∅ 0 small_registry None small_queue ∅ small_queue_inv no_bytes small_lengths
    [key_of 5; key_of 1] (key_of 2) [key_of 3; key_of 4; key_of 5] (queued 2 50 Queued).2) as [(plan & _ & H)|(_ & H & _)].
  - by vm_compute.
  - split; [done|]. by vm_compute.
  - intros Hin. apply (bool_decide_pack _) in Hin. by vm_compute in Hin.
  - left. by exists plan.
  - right. exact H.
Defined.

Lemma sweep_leaves_none_witness :
  let '(n, reg', queue') := sweep_stale_active_torrents ∅ small_registry small_queue in
  n = 1%nat /\ order queue' = map key_of [1; 2; 3; 5; 9; 4] /\ queue_inv queue'.
Proof.
  assert ((sweep_stale_active_torrents ∅ small_registry small_queue).1.1 = 1%nat /\
    order (sweep_stale_active_torrents ∅ small_registry small_queue).2 = map key_of [1; 2; 3; 5; 9; 4]) as Hv by by vm_compute.
  pose proof (sweep_leaves_none ∅ small_registry small_queue small_queue_inv) as H.
  destruct (sweep_stale_active_torrents ∅ small_registry small_queue) as [[n reg'] queue']. cbn [fst snd] in Hv.
  destruct H as (_ & _ & Hq & _). destruct Hv as [Hn Ho]. split; [exact Hn|]. split; [exact Ho|exact Hq].
Defined.

(** A schedule: a new request, or the task that goes on. *)
Fixpoint reconcile_run (r : Reconciler) (schedule : list (option nat)) : option Reconciler :=
  match schedule with
  | [] => Some r
  | None :: schedule => reconcile_run (mkReconciler (scheduled r) (dirty r) (q_tasks r ++ [Ask]) (history r)) schedule
  | Some i :: schedule =>
      match q_tasks r !! i with
      | None => None
      | Some p =>
          match reconcile_step r p with
          | None => None
          | Some (r', q, spawned) => reconcile_run (mkReconciler (scheduled r') (dirty r') (<[i := q]> (q_tasks r) ++ spawned) (history r')) schedule
          end
      end
  end.
Lemma reconcile_run_steps schedule : forall r r', reconcile_run r schedule = Some r' -> rtc qstep r r'.
Proof.
  induction schedule as [|[i|] schedule IH]; intros r r' E; cbn [reconcile_run] in E; [by simplify_eq| |eapply rtc_l; [apply qstep_call|by apply IH]].
  destruct (q_tasks r !! i) as [p|] eqn:Hi; [|done]. destruct (reconcile_step r p) as [[[r1 q] spawned]|] eqn:Hs; [|done].
  eapply rtc_l; [by eapply qstep_run|by apply IH].
Qed.

(** Two requests before the pass, and one during it: two passes. *)
Definition three_requests : list (option nat) :=
  [None; Some 0; None; Some 2; Some 1; Some 1; Some 1; None; Some 3; Some 1; Some 1; Some 1; Some 1; Some 1; Some 1]%nat.
Lemma reconciliation_coalesces_witness : exists r, reconcile_run idle three_requests = Some r /\ unserved r = false /\
  history r = [PassStarted; Requested; PassStarted; Requested; Requested].
Proof.
  assert (reconcile_run idle three_requests = Some (mkReconciler false false [Finished; Finished; Finished; Finished] [PassStarted; Requested; PassStarted; Requested; Requested])) as E by by vm_compute.
  eexists. split; [exact E|]. split; [|done]. apply (reconciliation_coalesces _ (reconcile_run_steps _ _ _ E)).
  clear E. intros i p Hi. do 4 (destruct i as [|i]; [by injection Hi as <-|]). done.
Defined.
