(* ===== verification/PieceLayers.v ===== *)
(** * BEP 52 piece layers on the wire

    How a pure-v2 magnet gets the hashes its info dictionary leaves out:
    [v2_hash_response] of [crates/swarmotterd/src/seeder.rs] answers a request for a range
    of a piece layer, [fetch_v2_piece_layers] and [read_piece_layer_response] of
    [crates/swarmotterd/src/metadata.rs] ask for whole layers and check them.  The trees
    are those of [Merkle], the messages those of [Peer].

    What a served range folds to with its uncle hashes is the root the file tree names;
    whatever a peer answers, a fetched layer folds to the root the file tree names, and is
    that of any content with this root (or the trees over the two show a collision); and
    from a peer that runs [v2_hash_response] the fetch returns exactly the layers of its
    record. *)

From S2P Require Import Prelude Text Hash Merkle Meta MetaParse MetaCorrect Peer Pieces.

Local Open Scope Z_scope.

(** [let a = o?;] in a function that returns an [Option] and may panic. *)
Definition option_or_return {A B} (o : option A) (k : A -> outcome (option B)) : outcome (option B) :=
  match o with Some a => k a | None => Ok None end.
Notation "x ←? o ; k" := (option_or_return o (fun x => k))
  (at level 20, o at level 100, k at level 200, only parsing).
(** [if b { return None; }]. *)
Definition return_if {B} (b : bool) (k : outcome (option B)) : outcome (option B) :=
  if b then Ok None else k.
(** [Result::ok()]. *)
Definition result_ok {A} (m : outcome A) : outcome (option A) :=
  match m with Ok a => Ok (Some a) | Err _ => Ok None | Panic => Panic | OutOfFuel => OutOfFuel end.

Section layers.
Context {D : Digests}.

(** ** Serving *)

Definition METADATA_HASH_REQUEST_MAX : Z := 512.

(** [while layers.last()?.len() > 1 { layers.push(next) }]. *)
Fixpoint tree_layers (fuel : nat) (level : list V2InfoHash) : outcome (list (list V2InfoHash)) :=
  match fuel with
  | O => OutOfFuel
  | S fuel =>
      if 1 <? len level then layers ← tree_layers fuel (hash_level v2_hash_pair level); Ok (level :: layers)
      else Ok [level]
  end.

(** The loop over [relative_layer in requested_depth..proof_layers]. *)
Fixpoint uncle_hashes (layers : list (list V2InfoHash)) (start : Z) (n : nat) (layer_index : Z)
  : option (list V2InfoHash) :=
  match n with
  | O => Some []
  | S n =>
      match get layers layer_index with
      | None => Some []
      | Some layer =>
          if len layer <=? 1 then Some []
          else
            h ← get layer (Z.lxor (Z.shiftr start layer_index) 1);
            hs ← uncle_hashes layers start n (layer_index + 1);
            Some (h :: hs)
      end
  end.

Definition v2_hash_response (meta : TorrentMeta) (pieces_root : V2InfoHash)
    (base_layer index length proof_layers : Z) : outcome (option Message) :=
  return_if ((length <? 2) || negb (Merkle.is_power_of_two length) || negb (index mod length =? 0) || (512 <? length))
  (let piece_layer := trailing_zeros (Meta.piece_length meta / V2_BLOCK_LENGTH) in
  return_if (negb (base_layer =? piece_layer))
  (v2 ←? v2 meta;
  return_if (negb (piece_layers_verified v2))
  (piece_layer_hashes ←? List.find (fun layer => bool_decide (layer_root layer = pieces_root)) (piece_layers v2);
  root ← result_ok (v2_piece_layer_root (hashes piece_layer_hashes) (Meta.piece_length meta));
  root ←? root;
  return_if (negb (bool_decide (root = pieces_root)))
  (width ←? checked_next_power_of_two (len (hashes piece_layer_hashes));
  end_ ←? checked_add index length;
  return_if (width <? end_)
  (layers ← tree_layers (S (Z.to_nat width)) (resize (Z.to_nat width) (zero_subtree piece_layer) (hashes piece_layer_hashes));
  top ←? (last layers ≫= head);
  return_if (negb (bool_decide (top = pieces_root)))
  (first ←? head layers;
  requested ← slice first index end_;
  let requested_depth := trailing_zeros length in
  uncles ←? uncle_hashes layers index (Z.to_nat (proof_layers - requested_depth)) requested_depth;
  Ok (Some (Hashes (mkRange (as_bytes pieces_root) base_layer index length proof_layers)
                   (map as_bytes (requested ++ uncles)))))))))).

(** ** Fetching *)

(** What one wait of fifteen seconds for a message gives, and the milliseconds since the
    request when it began. *)
Inductive answer : Type := Answers (m : Message) | Closes | Fails (e : CoreError) | Elapses.
Record wait : Type := mkWait { began : Z; brings : answer }.

(** The hashes of a message are arrays of 32 bytes. *)
Definition hash_arrays (hs : list (list byte)) : outcome (list V2InfoHash) := mapM (copy_from_slice 32) hs.

Definition same_range (r s : HashRange) : bool :=
  bool_decide (pieces_root r = pieces_root s) && (base_layer r =? base_layer s)
  && (range_index r =? range_index s) && (range_length r =? range_length s)
  && (proof_layers r =? proof_layers s).

(** Also what is left of the peer's messages.  A peer that sends nothing more lets the
    deadline pass. *)
Fixpoint read_piece_layer_response (request : HashRange) (inbox : list wait)
  : outcome (list V2InfoHash) * list wait :=
  match inbox with
  | [] => (Err (Internal "metadata peer timed out during BEP 52 piece-layer exchange"), [])
  | w :: inbox' =>
      if 30000 <=? began w
      then (Err (Internal "metadata peer timed out during BEP 52 piece-layer exchange"), inbox)
      else
        match brings w with
        | Answers (Hashes r hs) =>
            if negb (same_range r request)
            then (Err (MalformedTorrent "metadata peer returned a mismatched BEP 52 hash response"), inbox')
            else (hash_arrays hs, inbox')
        | Answers (HashReject r) =>
            if same_range r request
            then (Err (Internal "metadata peer rejected a required BEP 52 piece-layer request"), inbox')
            else (Err (MalformedTorrent "metadata peer returned a mismatched BEP 52 hash rejection"), inbox')
        | Answers _ => read_piece_layer_response request inbox'
        | Closes => (Err (Internal "metadata peer closed during BEP 52 piece-layer exchange"), inbox')
        | Fails e => (Err e, inbox')
        | Elapses => read_piece_layer_response request inbox'
        end
  end.

(** What was written and what is still to be read. *)
Record dialogue : Type := mkDialogue { written : list Message; inbox : list wait }.

Section fetch.
(** The peer: whether it takes a message after those written, and what it sends then. *)
Variables (write : connection) (reply : list Message -> list wait).

Definition ask (request : HashRange) (d : dialogue) : outcome (list V2InfoHash) * dialogue :=
  match send write (written d) (HashRequest request) with
  | Ok w =>
      let '(r, rest) := read_piece_layer_response request (inbox d ++ reply w) in (r, mkDialogue w rest)
  | Err e => (Err e, d)
  | Panic => (Panic, d)
  | OutOfFuel => (OutOfFuel, d)
  end.

(** The hashes of one answer that lie before the end of the layer. *)
Fixpoint push_hashes (start expected_count offset : Z) (response hashes : list V2InfoHash) : list V2InfoHash :=
  match response with
  | [] => hashes
  | h :: response =>
      push_hashes start expected_count (offset + 1) response
        (if start + offset <? expected_count then hashes ++ [h] else hashes)
  end.

(** The loop over [(0..logical_width).step_by(request_length)]. *)
Fixpoint fetch_ranges (root : V2InfoHash) (piece_layer expected_count request_length full_layer_depth : Z)
    (starts : list Z) (hashes : list V2InfoHash) (d : dialogue) : outcome (list V2InfoHash) * dialogue :=
  match starts with
  | [] => (Ok hashes, d)
  | start :: starts =>
      match u32_try_from start with
      | None => (Err (MalformedTorrent "BEP 52 piece-layer index exceeds u32 range"), d)
      | Some index =>
          match ask (mkRange (as_bytes root) piece_layer index request_length full_layer_depth) d with
          | (Ok response, d) =>
              let proof_hashes := saturating_sub full_layer_depth (trailing_zeros request_length) in
              if negb (len response =? request_length + proof_hashes)
              then (Err (MalformedTorrent "BEP 52 piece-layer response contained another number of hashes"), d)
              else
                fetch_ranges root piece_layer expected_count request_length full_layer_depth starts
                  (push_hashes start expected_count 0 (take (Z.to_nat request_length) response) hashes) d
          | (Err e, d) => (Err e, d)
          | (Panic, d) => (Panic, d)
          | (OutOfFuel, d) => (OutOfFuel, d)
          end
      end
  end.

(** One root of the file tree; [piece_length] is the record's. *)
Definition fetch_layer (piece_length : Z) (pieces_root : V2InfoHash) (expected_count : Z) (d : dialogue)
  : outcome V2PieceLayer * dialogue :=
  if negb ((2 <=? expected_count) && (expected_count <=? MAX_TORRENT_PIECES))
  then (Err (MalformedTorrent "BEP 52 piece layer has invalid expected count"), d)
  else
    match checked_next_power_of_two expected_count with
    | None => (Err (MalformedTorrent "BEP 52 piece-layer width exceeds platform limits"), d)
    | Some logical_width =>
        let request_length := Z.min logical_width METADATA_HASH_REQUEST_MAX in
        let full_layer_depth := trailing_zeros logical_width in
        let starts := map (fun i => i * request_length) (seqZ 0 (div_ceil logical_width request_length)) in
        match fetch_ranges pieces_root (trailing_zeros (piece_length / V2_BLOCK_LENGTH)) expected_count
                request_length full_layer_depth starts [] d with
        | (Ok hashes, d) =>
            (_ ← fail_if (negb (len hashes =? expected_count))
                   (MalformedTorrent "BEP 52 piece-layer assembly contained another number of hashes");
             computed_root ← v2_piece_layer_root hashes piece_length;
             _ ← fail_if (negb (bool_decide (computed_root = pieces_root)))
                   (MalformedTorrent "BEP 52 piece-layer hashes do not match the file-tree root");
             Ok (mkLayer pieces_root hashes), d)
        | (Err e, d) => (Err e, d)
        | (Panic, d) => (Panic, d)
        | (OutOfFuel, d) => (OutOfFuel, d)
        end
    end.

Fixpoint fetch_layers (piece_length : Z) (required : list (V2InfoHash * Z)) (d : dialogue)
  : outcome (list V2PieceLayer) * dialogue :=
  match required with
  | [] => (Ok [], d)
  | (pieces_root, expected_count) :: required =>
      match fetch_layer piece_length pieces_root expected_count d with
      | (Ok layer, d) =>
          let '(r, d) := fetch_layers piece_length required d in (layers ← r; Ok (layer :: layers), d)
      | (Err e, d) => (Err e, d)
      | (Panic, d) => (Panic, d)
      | (OutOfFuel, d) => (OutOfFuel, d)
      end
  end.

Definition fetch_v2_piece_layers (info_bytes : list byte) (expected_identity : TorrentIdentity) (d : dialogue)
  : outcome (list V2PieceLayer) * dialogue :=
  match (inspection ← inspect_bep9_v2_info info_bytes;
         inspection ← ok_or inspection
           (MalformedTorrent "pure-v2 metadata did not contain a BEP 52 file-tree identity");
         expected_v2 ← ok_or (Hash.v2_info_hash expected_identity)
           (InvalidArgument "BEP 52 piece-layer exchange requires a full v2 magnet identity");
         _ ← fail_if (negb (bool_decide (bep9_identity inspection = expected_v2)))
           (MalformedTorrent "BEP 9 v2 identity changed before piece-layer exchange");
         required ← required_piece_layers inspection;
         Ok (bep9_piece_length inspection, required)) with
  | Ok (piece_length, required) => fetch_layers piece_length required d
  | Err e => (Err e, d)
  | Panic => (Panic, d)
  | OutOfFuel => (OutOfFuel, d)
  end.
End fetch.

(** How the seeder's loop answers one request. *)
Definition serve_hash_request (meta : TorrentMeta) (r : HashRange) : outcome Message :=
  root ← copy_from_slice 32 (pieces_root r);
  response ← v2_hash_response meta root (base_layer r) (range_index r) (range_length r) (proof_layers r);
  Ok (default (HashReject r) response).
End layers.

(** ** Nodes, siblings and proofs *)

Section proofs.
Context {D : Digests}.

(** The reference: from a node to an ancestor, with the siblings on the way. *)
Fixpoint fold_uncles (node : Z) (h : V2InfoHash) (uncles : list V2InfoHash) : V2InfoHash :=
  match uncles with
  | [] => h
  | u :: uncles => fold_uncles (node / 2) (if Z.odd node then hash_v2_pair u h else hash_v2_pair h u) uncles
  end.

Lemma lxor_1 x : 0 <= x -> Z.lxor x 1 = if Z.odd x then x - 1 else x + 1.
Proof. intros Hx. destruct x as [|[p|p|]|p]; try done; try lia; cbn; lia. Qed.

Lemma length_level d j l :
  length l = (2 ^ d)%nat -> (j <= d)%nat -> length (levels hash_v2_pair j l) = (2 ^ (d - j))%nat.
Proof.
  intros Hl Hj. apply length_levels. rewrite Hl, <- Nat.pow_add_r. f_equal. lia.
Qed.

Lemma lookup_hash_level n l : length l = (n * 2)%nat -> forall i a b,
  l !! (2 * i)%nat = Some a -> l !! (2 * i + 1)%nat = Some b ->
  hash_level hash_v2_pair l !! i = Some (hash_v2_pair a b).
Proof.
  revert n l. refine (list_even_ind _ _ _); [done|]. intros x y l n IH [|i] a b Ha Hb.
  - cbn in Ha, Hb. by simplify_eq.
  - replace (2 * S i)%nat with (S (S (2 * i))) in Ha by lia.
    replace (2 * S i + 1)%nat with (S (S (2 * i + 1))) in Hb by lia. cbn [lookup list_lookup hash_level] in *.
    by apply IH.
Qed.

Lemma levels_S j l : levels hash_v2_pair (S j) l = hash_level hash_v2_pair (levels hash_v2_pair j l).
Proof. rewrite <- Nat.add_1_r. by rewrite levels_levels. Qed.

(** A node's sibling, and the node above both. *)
Lemma sibling d j l x :
  length l = (2 ^ d)%nat -> (j < d)%nat -> (x < 2 ^ (d - j))%nat ->
  exists u, get (levels hash_v2_pair j l) (Z.lxor (Z.of_nat x) 1) = Some u
    /\ forall h, levels hash_v2_pair j l !! x = Some h ->
       levels hash_v2_pair (S j) l !! (x / 2)%nat
         = Some (if Z.odd (Z.of_nat x) then hash_v2_pair u h else hash_v2_pair h u).
Proof.
  intros Hl Hj Hx. pose proof (length_level d j l Hl ltac:(lia)) as Hn.
  replace (d - j)%nat with (S (d - S j)) in Hn, Hx by lia. rewrite Nat.pow_succ_r' in Hn, Hx.
  rewrite lxor_1 by lia. unfold get. rewrite levels_S.
  pose proof (Nat.div_mod_eq x 2) as Hd. pose proof (Nat.mod_upper_bound x 2 ltac:(lia)) as Hm.
  destruct (Z.odd (Z.of_nat x)) eqn:Ho.
  - assert (x mod 2 = 1)%nat as Hr.
    { apply Z.odd_spec in Ho as [q Hq]. lia. }
    destruct (lookup_lt_is_Some_2 (levels hash_v2_pair j l) (2 * (x / 2))%nat ltac:(lia)) as [u Hu].
    exists u. replace (Z.of_nat x - 1) with (Z.of_nat (2 * (x / 2))) by lia.
    rewrite (proj2 (Z.ltb_ge _ _)), Nat2Z.id by lia. split; [done|]. intros h Hh.
    apply (lookup_hash_level (2 ^ (d - S j))); [lia|done|]. by replace (2 * (x / 2) + 1)%nat with x by lia.
  - assert (x mod 2 = 0)%nat as Hr.
    { rewrite <- Z.negb_even in Ho. apply negb_false_iff, Z.even_spec in Ho as [q Hq]. lia. }
    destruct (lookup_lt_is_Some_2 (levels hash_v2_pair j l) (2 * (x / 2) + 1)%nat ltac:(lia)) as [u Hu].
    exists u. replace (Z.of_nat x + 1) with (Z.of_nat (2 * (x / 2) + 1)) by lia.
    rewrite (proj2 (Z.ltb_ge _ _)), Nat2Z.id by lia. split; [done|]. intros h Hh.
    apply (lookup_hash_level (2 ^ (d - S j))); [lia| |done]. by replace (2 * (x / 2))%nat with x by lia.
Qed.

Definition all_levels (d : nat) (l : list V2InfoHash) : list (list V2InfoHash) :=
  map (fun i => levels hash_v2_pair i l) (seq 0 (S d)).

Lemma tree_layers_eq d f l :
  length l = (2 ^ d)%nat -> (d < f)%nat -> tree_layers f l = Ok (all_levels d l).
Proof.
  revert f l. induction d as [|d IH]; intros [|f] l Hl Hf; try lia; cbn [tree_layers].
  { unfold len. by rewrite Hl. }
  assert (1 < len l) as ->%Z.ltb_lt.
  { unfold len. rewrite Hl, Nat.pow_succ_r'. pose proof (Nat.pow_nonzero 2 d ltac:(lia)). lia. }
  rewrite (IH f (hash_level v2_hash_pair l)); [|rewrite Nat.pow_succ_r' in Hl; apply length_hash_level; lia|lia].
  ok_simpl. f_equal. unfold all_levels. change (seq 0 (S (S d))) with (0%nat :: seq 1 (S d)). cbn [map].
  by rewrite <- seq_shift, map_map.
Qed.

Lemma lookup_all_levels d l j :
  get (all_levels d l) (Z.of_nat j) = if (j <=? d)%nat then Some (levels hash_v2_pair j l) else None.
Proof.
  unfold get, all_levels. rewrite (proj2 (Z.ltb_ge _ _)), Nat2Z.id by lia.
  rewrite list_lookup_fmap. destruct (Nat.leb_spec j d).
  - by rewrite lookup_seq_lt by lia.
  - by rewrite lookup_seq_ge by lia.
Qed.

Lemma shiftr_nat s j : Z.shiftr (Z.of_nat s) (Z.of_nat j) = Z.of_nat (s / 2 ^ j).
Proof. rewrite Z.shiftr_div_pow2 by lia. by rewrite Nat2Z.inj_div, Nat2Z.inj_pow. Qed.

(** The uncles the loop collects lead from the node to an ancestor [n] layers up, or to
    the root when the tree ends first. *)
Lemma uncle_hashes_eq d l s n j :
  length l = (2 ^ d)%nat -> (j <= d)%nat -> (s < 2 ^ d)%nat ->
  exists us, uncle_hashes (all_levels d l) (Z.of_nat s) n (Z.of_nat j) = Some us
    /\ length us = Nat.min n (d - j)
    /\ forall h, levels hash_v2_pair j l !! (s / 2 ^ j)%nat = Some h ->
       levels hash_v2_pair (j + length us) l !! (s / 2 ^ (j + length us))%nat
         = Some (fold_uncles (Z.of_nat (s / 2 ^ j)) h us).
Proof.
  intros Hl. revert j. induction n as [|n IH]; intros j Hj Hs; cbn [uncle_hashes].
  { exists []. split; [done|]. split; [done|]. intros h. by rewrite Nat.add_0_r. }
  rewrite lookup_all_levels, (proj2 (Nat.leb_le _ _)) by done.
  pose proof (length_level d j l Hl Hj) as Hlen. unfold len. rewrite Hlen.
  pose proof (Nat.pow_nonzero 2 j ltac:(lia)) as H0.
  destruct (decide (j = d)) as [->|Hd].
  { rewrite Nat.sub_diag. cbn. exists []. split; [done|]. split; [cbn; lia|]. intros h. by rewrite Nat.add_0_r. }
  replace (d - j)%nat with (S (d - S j)) by lia. rewrite Nat.pow_succ_r'.
  pose proof (Nat.pow_nonzero 2 (d - S j) ltac:(lia)). rewrite (proj2 (Z.leb_gt _ _)) by lia.
  assert (s / 2 ^ j < 2 ^ (d - j))%nat as Hx.
  { apply Nat.Div0.div_lt_upper_bound. rewrite <- Nat.pow_add_r. by replace (j + (d - j))%nat with d by lia. }
  rewrite shiftr_nat. destruct (sibling d j l _ Hl ltac:(lia) Hx) as (u & -> & Hu). cbn [mbind option_bind].
  replace (Z.of_nat j + 1) with (Z.of_nat (S j)) by lia.
  destruct (IH (S j) ltac:(lia) Hs) as (us & -> & Hus & Hr). exists (u :: us). split; [done|].
  split; [cbn [length]; lia|]. intros h Hh. apply Hu in Hh. rewrite Nat.Div0.div_div in Hh.
  replace (2 ^ j * 2)%nat with (2 ^ S j)%nat in Hh by (rewrite Nat.pow_succ_r'; lia).
  cbn [length fold_uncles]. replace (j + S (length us))%nat with (S j + length us)%nat by lia. rewrite (Hr _ Hh). do 2 f_equal.
  rewrite Nat.pow_succ_r', Nat.mul_comm, <- Nat.Div0.div_div. rewrite Nat2Z.inj_div. done.
Qed.

(** A range aligned to its length is a subtree. *)
Lemma range_node d k i l :
  length l = (2 ^ d)%nat -> ((i + 1) * 2 ^ k <= 2 ^ d)%nat ->
  exists h, levels hash_v2_pair k (take (2 ^ k) (drop (i * 2 ^ k) l)) = [h]
    /\ levels hash_v2_pair k l !! i = Some h.
Proof.
  intros Hl Hi. set (t := drop (i * 2 ^ k) l).
  assert (length (take (2 ^ k) t) = 1 * 2 ^ k)%nat as Ht.
  { rewrite length_take. unfold t. rewrite length_drop. lia. }
  pose proof (length_levels hash_v2_pair k _ 1 Ht) as H1.
  destruct (levels hash_v2_pair k (take (2 ^ k) t)) as [|h [|]] eqn:E; [done| |done].
  exists h. split; [done|].
  assert (length (take (i * 2 ^ k) l) = i * 2 ^ k)%nat as Hb by (rewrite length_take; lia).
  rewrite <- (take_drop (i * 2 ^ k) l). fold t. rewrite (levels_app _ _ _ _ i Hb).
  rewrite <- (take_drop (2 ^ k) t), (levels_app _ _ _ _ 1 Ht), E.
  rewrite lookup_app_r by (rewrite (length_levels _ _ _ _ Hb); lia).
  by rewrite (length_levels _ _ _ _ Hb), Nat.sub_diag.
Qed.

(** ** What is served *)

(** The record serves the layer of [root]: [d] is the height of the tree over the pieces,
    [q] that of a piece. *)
Record serves (meta : TorrentMeta) (root : V2InfoHash) (layer : list V2InfoHash) (q d : nat) : Prop := mkServes {
  serves_v2 : exists v l, v2 meta = Some v /\ piece_layers_verified v = true
    /\ List.find (fun l => bool_decide (layer_root l = root)) (piece_layers v) = Some l /\ hashes l = layer;
  serves_length : Meta.piece_length meta = 2 ^ Z.of_nat q * V2_BLOCK_LENGTH;
  serves_count : 0 < len layer;
  serves_width : checked_next_power_of_two (len layer) = Some (2 ^ Z.of_nat d);
  serves_root : v2_piece_layer_root layer (Meta.piece_length meta) = Ok root }.

(** The bottom of the tree. *)
Definition padded_layer (q d : nat) (layer : list V2InfoHash) : list V2InfoHash :=
  resize (2 ^ d) (zero_subtree (Z.of_nat q)) layer.

Lemma serves_tree meta root layer q d :
  serves meta root layer q d -> levels hash_v2_pair d (padded_layer q d layer) = [root].
Proof.
  intros [_ Hp Hc Hw Hr]. rewrite Hp in Hr. unfold v2_piece_layer_root in Hr. rewrite Hw in Hr.
  revert Hr. rewrite (proj2 (Z.eqb_neq _ _)) by lia. ok_simpl. rewrite valid_piece_length_pow. ok_simpl.
  rewrite piece_length_blocks, trailing_zeros_pow2 by lia. rewrite pow2_nat.
  destruct (hash_levels_root hash_v2_pair d (2 ^ d) (padded_layer q d layer)) as (h' & E' & Eh).
  { unfold padded_layer. by rewrite length_resize. }
  { lia. }
  unfold padded_layer in E'. rewrite E'. by intros [= <-].
Qed.

Lemma serves_height meta root layer q d : serves meta root layer q d -> (d < 64)%nat.
Proof.
  intros [_ _ _ Hw _]. unfold checked_next_power_of_two in Hw.
  destruct (Z.leb_spec (2 ^ Z.log2_up (len layer)) usize_max) as [Hl|]; [|done]. injection Hw as Hw.
  rewrite Hw in Hl. apply Nat2Z.inj_lt. apply (Z.pow_lt_mono_r_iff 2); [lia|lia|]. unfold usize_max in Hl. lia.
Qed.

Lemma range_length_pow k :
  (1 <= k <= 9)%nat -> let n := 2 ^ Z.of_nat k in
  (n <? 2) = false /\ Merkle.is_power_of_two n = true /\ (512 <? n) = false /\ trailing_zeros n = Z.of_nat k.
Proof.
  intros Hk n. split_and!.
  - apply Z.ltb_ge. apply (Z.pow_le_mono_r 2 1); lia.
  - apply Merkle.is_power_of_two_spec. exists (Z.of_nat k). split; [lia|done].
  - apply Z.ltb_ge. apply (Z.pow_le_mono_r 2 _ 9); lia.
  - apply trailing_zeros_pow2. lia.
Qed.

Lemma last_head_levels d l root :
  levels hash_v2_pair d l = [root] -> (last (all_levels d l) ≫= head) = Some root.
Proof. intros E. unfold all_levels. rewrite seq_S, map_app. cbn [map]. rewrite last_snoc. cbn. by rewrite E. Qed.

Lemma served_range meta root layer q d k i pl :
  serves meta root layer q d -> (1 <= k <= 9)%nat -> ((i + 1) * 2 ^ k <= 2 ^ d)%nat ->
  exists us h, v2_hash_response meta root (Z.of_nat q) (Z.of_nat (i * 2 ^ k)) (2 ^ Z.of_nat k) pl
      = Ok (Some (Hashes (mkRange (as_bytes root) (Z.of_nat q) (Z.of_nat (i * 2 ^ k)) (2 ^ Z.of_nat k) pl)
                         (map as_bytes (take (2 ^ k) (drop (i * 2 ^ k) (padded_layer q d layer)) ++ us))))
    /\ length us = Nat.min (Z.to_nat (pl - Z.of_nat k)) (d - k)
    /\ levels hash_v2_pair k (take (2 ^ k) (drop (i * 2 ^ k) (padded_layer q d layer))) = [h]
    /\ (Z.of_nat d <= pl -> fold_uncles (Z.of_nat i) h us = root).
Proof.
  intros Hs Hk Hi. pose proof (serves_tree _ _ _ _ _ Hs) as Ht. pose proof (serves_height _ _ _ _ _ Hs) as Hd.
  destruct Hs as [(v & l & Hv & Hver & Hf & <-) Hp Hc Hw Hr].
  set (T := padded_layer q d (hashes l)) in *.
  assert (length T = 2 ^ d)%nat as HT by (unfold T, padded_layer; by rewrite length_resize).
  pose proof (Nat.pow_nonzero 2 k ltac:(lia)) as Hk0.
  assert (k <= d)%nat as Hkd by (apply (Nat.pow_le_mono_r_iff 2); nia).
  destruct (uncle_hashes_eq d T (i * 2 ^ k) (Z.to_nat (pl - Z.of_nat k)) k HT Hkd ltac:(nia)) as (us & Eus & Lus & Hus).
  destruct (range_node d k i T HT Hi) as (h & Hh & Hn). exists us, h.
  rewrite Nat.div_mul in Hus by done. specialize (Hus h Hn).
  destruct (range_length_pow k Hk) as (L1 & L2 & L3 & L4).
  assert (forall n, 2 ^ Z.of_nat n = Z.of_nat (2 ^ n)) as Hpow by (intros n; by rewrite Nat2Z.inj_pow).
  split; [|split; [done|split; [done|]]].
  - unfold v2_hash_response. rewrite L1, L2, L3. cbn [negb orb].
    replace (Z.of_nat (i * 2 ^ k) mod 2 ^ Z.of_nat k) with 0
      by (rewrite Hpow, Nat2Z.inj_mul, Z.mod_mul; [done|lia]).
    rewrite Hp, piece_length_blocks, trailing_zeros_pow2 by lia. rewrite <- Hp. cbn [negb orb return_if Z.eqb].
    rewrite Z.eqb_refl, Hv. cbn [negb return_if option_or_return]. rewrite Hver. cbn [negb return_if option_or_return].
    rewrite Hf. cbn [option_or_return]. rewrite Hr. cbn [result_ok]. rewrite bind_ret. cbn [option_or_return].
    rewrite bool_decide_true by done. cbn [negb return_if]. rewrite Hw. cbn [option_or_return].
    assert (Z.of_nat (i * 2 ^ k) + 2 ^ Z.of_nat k = Z.of_nat ((i + 1) * 2 ^ k)) as Ee by (rewrite Hpow; lia).
    assert (2 ^ Z.of_nat d <= 2 ^ 63) as Hmax by (apply Z.pow_le_mono_r; lia).
    unfold checked_add. rewrite Ee, (proj2 (Z.leb_le _ _)) by (rewrite Hpow in Hmax; unfold usize_max; lia).
    cbn [option_or_return]. rewrite (proj2 (Z.ltb_ge _ _)) by (rewrite Hpow; lia). cbn [return_if].
    rewrite pow2_nat. fold (padded_layer q d (hashes l)). fold T. rewrite (tree_layers_eq d) by (done || (pose proof (Nat.pow_gt_lin_r 2 d); lia)).
    rewrite bind_ret, (last_head_levels _ _ _ Ht). cbn [option_or_return]. rewrite bool_decide_true by done. cbn [negb return_if].
    change (head (all_levels d T)) with (Some T). cbn [option_or_return].
    unfold slice, len. rewrite HT, (proj2 (Z.leb_le 0 _)), (proj2 (Z.leb_le (Z.of_nat (i * 2 ^ k)) _)), (proj2 (Z.leb_le _ (Z.of_nat (2 ^ d)))) by lia.
    cbn [andb]. rewrite bind_ret, L4, Eus. cbn [option_or_return]. rewrite Nat2Z.id.
    replace (Z.to_nat (Z.of_nat ((i + 1) * 2 ^ k) - Z.of_nat (i * 2 ^ k))) with (2 ^ k)%nat by lia. done.
  - intros Hpl. rewrite Lus in Hus. replace (Nat.min (Z.to_nat (pl - Z.of_nat k)) (d - k)) with (d - k)%nat in Hus by lia.
    replace (k + (d - k))%nat with d in Hus by lia. rewrite Ht in Hus.
    rewrite Nat.div_small in Hus by nia. cbn in Hus. congruence.
Qed.

Lemma return_if_Some {B} b (k : outcome (option B)) a : return_if b k = Ok (Some a) <-> b = false /\ k = Ok (Some a).
Proof. destruct b; cbn; naive_solver. Qed.
Lemma option_or_return_Some {A B} (o : option A) (k : A -> outcome (option B)) b :
  option_or_return o k = Ok (Some b) <-> exists a, o = Some a /\ k a = Ok (Some b).
Proof. destruct o; cbn; naive_solver. Qed.
Lemma result_ok_Some {A} (m : outcome A) a : result_ok m = Ok (Some a) <-> m = Ok a.
Proof. destruct m; cbn; naive_solver. Qed.

Lemma power_of_two_nat n : Merkle.is_power_of_two n = true -> exists k : nat, n = 2 ^ Z.of_nat k.
Proof. intros (k & Hk & ->)%Merkle.is_power_of_two_spec. exists (Z.to_nat k). by rewrite Z2Nat.id. Qed.

(** A request that is answered is for an aligned range of a served layer. *)
Lemma response_inv meta root bl index length pl m :
  0 <= index -> v2_hash_response meta root bl index length pl = Ok (Some m) ->
  exists layer q d k i, serves meta root layer q d /\ bl = Z.of_nat q /\ (1 <= k <= 9)%nat
    /\ length = 2 ^ Z.of_nat k /\ index = Z.of_nat (i * 2 ^ k) /\ ((i + 1) * 2 ^ k <= 2 ^ d)%nat.
Proof.
  intros Hi H. unfold v2_hash_response in H.
  apply return_if_Some in H as [[[[H1%Z.ltb_ge H2%negb_false_iff]%orb_false_iff H3%negb_false_iff]%orb_false_iff H4%Z.ltb_ge]%orb_false_iff H].
  apply return_if_Some in H as [Hbl%negb_false_iff%Z.eqb_eq H].
  apply option_or_return_Some in H as (v & Hv & H). apply return_if_Some in H as [Hver%negb_false_iff H].
  apply option_or_return_Some in H as (l & Hl & H). apply bind_Ok in H as (r & Hr & H).
  apply option_or_return_Some in H as (root' & -> & H). apply (proj1 (result_ok_Some _ _)) in Hr.
  apply return_if_Some in H as [He%negb_false_iff%bool_decide_eq_true H]. subst root'.
  apply option_or_return_Some in H as (w & Hw & H). apply option_or_return_Some in H as (e & He & H).
  apply checked_add_Some in He as [-> _]. apply return_if_Some in H as [Hle%Z.ltb_ge _].
  assert (0 < len (hashes l) /\ validate_v2_piece_length (Meta.piece_length meta) = Ok ()) as [H0 Hp].
  { pose proof Hr as H. unfold v2_piece_layer_root in H. pose proof (len_nonneg (hashes l)).
    apply bind_Ok in H as ([] & E1%fail_if_Ok%Z.eqb_neq & H). apply bind_Ok in H as ([] & E2 & _). split; [lia|done]. }
  apply valid_piece_length in Hp as [q Hp]. rewrite Hp, piece_length_blocks, trailing_zeros_pow2 in Hbl by lia.
  pose proof Hw as Hw'. apply next_power_of_two_Some in Hw' as (d & Hd & -> & _); [|done].
  rewrite <- (Z2Nat.id d) in Hw, Hle by done. apply power_of_two_nat in H2 as [k ->].
  apply Z.eqb_eq in H3. exists (hashes l), q, (Z.to_nat d), k, (Z.to_nat (index / 2 ^ Z.of_nat k)).
  assert (forall n, 2 ^ Z.of_nat n = Z.of_nat (2 ^ n)) as Hpow by (intros n; by rewrite Nat2Z.inj_pow).
  assert (index = Z.of_nat (Z.to_nat (index / 2 ^ Z.of_nat k) * 2 ^ k)) as Hindex.
  { rewrite Nat2Z.inj_mul, Z2Nat.id by (apply Z.div_pos; lia). rewrite <- Hpow.
    pose proof (Z.div_mod index (2 ^ Z.of_nat k) ltac:(lia)). lia. }
  split; [by split; [exists v, l|..]|]. split; [done|].
  split; [split; (apply Nat2Z.inj_le, (Z.pow_le_mono_r_iff 2); lia)|].
  split; [done|]. split; [done|]. rewrite !Hpow in Hle. lia.
Qed.

Lemma serves_depth meta root layer q d : serves meta root layer q d -> Z.of_nat d = Z.log2_up (len layer).
Proof.
  intros [_ _ _ Hw _]. unfold checked_next_power_of_two in Hw.
  destruct (2 ^ Z.log2_up (len layer) <=? usize_max); [|done]. injection Hw as Hw.
  symmetry. apply (Z.pow_inj_r 2); [lia|apply Z.log2_up_nonneg|lia|done].
Qed.

Lemma serves_bound meta root layer q d : serves meta root layer q d -> (length layer <= 2 ^ d)%nat.
Proof.
  intros [_ _ H0 Hw _]. apply next_power_of_two_Some in Hw as (d' & _ & _ & Hl & _); [|done].
  unfold len in Hl. change 2 with (Z.of_nat 2) in Hl. rewrite <- Nat2Z.inj_pow in Hl. lia.
Qed.

(** Whatever request the seeder answers with hashes, the answer is a proof: the
    requested hashes are those of the layer (with the padding of an empty subtree after
    its end), and when all layers up to the root are asked for, their subtree folds with
    the uncle hashes to the root of the request. *)
Theorem served_hashes_prove meta root base_layer index length proof_layers m :
  0 <= index -> v2_hash_response meta root base_layer index length proof_layers = Ok (Some m) ->
  exists v l hs us h, m = Hashes (mkRange (as_bytes root) base_layer index length proof_layers) (map as_bytes (hs ++ us))
    /\ v2 meta = Some v /\ l ∈ piece_layers v /\ layer_root l = root
    /\ len hs = length /\ (forall j, index + j < len (hashes l) -> 0 <= j < length -> get hs j = get (hashes l) (index + j))
    /\ levels hash_v2_pair (Z.to_nat (Z.log2 length)) hs = [h]
    /\ (Z.log2_up (len (hashes l)) <= proof_layers -> fold_uncles (index / length) h us = root).
Proof.
  intros Hi H. destruct (response_inv _ _ _ _ _ _ _ Hi H) as (layer & q & d & k & i & Hs & -> & Hk & -> & -> & Hle).
  destruct (served_range meta root layer q d k i proof_layers Hs Hk Hle) as (us & h & E & _ & Hh & Hf).
  rewrite E in H. injection H as <-. rewrite (serves_depth _ _ _ _ _ Hs) in Hf.
  destruct Hs as [(v & l & Hv & _ & Hl & <-) _ H0 Hw _].
  apply List.find_some in Hl as [Hin%list_elem_of_In Hroot%bool_decide_eq_true].
  exists v, l, (take (2 ^ k) (drop (i * 2 ^ k) (padded_layer q d (hashes l)))), us, h.
  assert (forall n, 2 ^ Z.of_nat n = Z.of_nat (2 ^ n)) as Hpow by (intros n; by rewrite Nat2Z.inj_pow).
  apply next_power_of_two_Some in Hw as (d' & _ & _ & Hlen & _); [|done]. rewrite Hpow in Hlen. unfold len in Hlen.
  rewrite Nat.mul_add_distr_r in Hle. split_and!; try done.
  - unfold len. rewrite length_take, length_drop. unfold padded_layer. rewrite length_resize, Hpow. lia.
  - intros j Hj [Hj0 Hj1]. unfold get. rewrite (proj2 (Z.ltb_ge j 0)), (proj2 (Z.ltb_ge (Z.of_nat (i * 2 ^ k) + j) 0)) by lia. unfold len in Hj. rewrite Hpow in Hj1.
    rewrite lookup_take_lt by lia. rewrite lookup_drop. unfold padded_layer. rewrite resize_ge by lia.
    clear E Hh. set (a := (i * 2 ^ k)%nat) in *. clearbody a. rewrite lookup_app_l by (unfold V2InfoHash in *; lia). f_equal. lia.
  - rewrite Z.log2_pow2 by lia. by rewrite Nat2Z.id.
  - intros Hp. rewrite Hpow, Nat2Z.inj_mul, Z.div_mul by (pose proof (Nat.pow_nonzero 2 k); lia). by apply Hf.
Qed.
End proofs.

(** ** What must be fetched *)

Section required.
Context {D : Digests}.

Definition needs (piece_length : Z) (files : list MetaFile) (root : V2InfoHash) (count : Z) : Prop :=
  exists f, f ∈ files /\ piece_length < mf_length f /\ Meta.pieces_root f = Some root
    /\ div_ceil (mf_length f) piece_length = count.

Lemma require_layer_Ok p layers f layers' :
  require_layer p layers f = Ok layers' ->
  (mf_length f <= p /\ layers' = layers) \/
  (p < mf_length f /\ exists root, Meta.pieces_root f = Some root
     /\ layers' = <[root := div_ceil (mf_length f) p]> layers
     /\ forall c, layers !! root = Some c -> c = div_ceil (mf_length f) p).
Proof.
  unfold require_layer. destruct (Z.leb_spec (mf_length f) p); [intros [= <-]; by left|]. intros E. right.
  split; [done|]. inv_ok. match goal with H : u64_div_ceil _ _ = _ |- _ => rename H into Hn end.
  unfold u64_div_ceil in Hn. destruct (p =? 0); [done|]. injection Hn as <-.
  match goal with H : usize_try_from _ = Some _ |- _ => unfold usize_try_from in H; destruct (_ <=? _); [injection H as <-|done] end.
  eexists. split; [done|]. destruct (layers !! _) eqn:El; [|naive_solver].
  destruct (Z.eqb_spec z (div_ceil (mf_length f) p)); [|done]. cbn [negb] in E. naive_solver.
Qed.

Lemma require_layers_Ok p files acc layers :
  try_fold (require_layer p) acc files = Ok layers ->
  (forall root c, layers !! root = Some c -> acc !! root = Some c \/ needs p files root c)
  /\ (forall root c, acc !! root = Some c \/ needs p files root c -> layers !! root = Some c).
Proof.
  revert acc. induction files as [|f files IH]; intros acc; cbn [try_fold].
  { intros [= <-]. split; [by left|]. intros r c [|(f & ? & _)]; [done|]. set_solver. }
  intros (acc' & Ea & E)%bind_Ok. destruct (IH _ E) as [H1 H2]. apply require_layer_Ok in Ea.
  assert (forall root c, needs p files root c -> needs p (f :: files) root c) as Hw.
  { intros root c (g & Hg & ?). exists g. split; [set_solver|done]. }
  destruct Ea as [[Hf ->]|(Hf & r & Hr & -> & Hc)].
  - split; [intros root c [|]%H1; auto|]. intros root c [|(g & Hg & Hl & Hrest)]; [auto|].
    apply H2. right. exists g. apply elem_of_cons in Hg as [->|]; [lia|done].
  - split.
    + intros root c [Hi|]%H1; [|auto]. rewrite lookup_insert in Hi. case_decide as Hd; [|auto].
      injection Hi as <-. subst root. right. exists f. split; [set_solver|done].
    + intros root c Hor. apply H2. rewrite lookup_insert.
      destruct Hor as [Hi|(g & Hg & Hl & Hgr & Hgc)].
      * left. case_decide as Hd; [|done]. subst root. f_equal. symmetry. by apply Hc.
      * apply elem_of_cons in Hg as [->|Hg]; [left|right; by exists g].
        rewrite Hr in Hgr. injection Hgr as <-. by rewrite decide_True, Hgc.
Qed.

Lemma require_layers_rooted p files acc layers f :
  try_fold (require_layer p) acc files = Ok layers -> f ∈ files -> p < mf_length f -> is_Some (Meta.pieces_root f).
Proof.
  revert acc. induction files as [|g files IH]; intros acc; cbn [try_fold]; [set_solver|].
  intros (acc' & Ea & E)%bind_Ok [->|Hf]%elem_of_cons Hl; [|by apply (IH acc')].
  apply require_layer_Ok in Ea as [[? _]|(_ & r & -> & _)]; [lia|done].
Qed.

Lemma required_has_root b required f :
  required_piece_layers b = Ok required -> f ∈ bep9_files b -> bep9_piece_length b < mf_length f ->
  exists root, Meta.pieces_root f = Some root.
Proof. intros (layers & E & _)%bind_Ok Hf Hl. by destruct (require_layers_rooted _ _ _ _ f E Hf Hl) as [r Hr]; exists r. Qed.

Lemma Forall2_lookup_elem {A B} (P : A -> B -> Prop) l k a :
  Forall2 P l k -> a ∈ l -> exists b, b ∈ k /\ P a b.
Proof.
  induction 1 as [|x y l k Hxy _ IH]; [by intros ?%elem_of_nil|].
  intros [->|Ha]%elem_of_cons; [exists y; split; [by left|done]|].
  destruct (IH Ha) as (b & ? & ?). exists b. split; [by right|done].
Qed.

Lemma Forall2_lookup_elem' {A B} (P : A -> B -> Prop) l k b :
  Forall2 P l k -> b ∈ k -> exists a, a ∈ l /\ P a b.
Proof. intros Hf%Forall2_flip Hb. by apply (Forall2_lookup_elem _ _ _ _ Hf). Qed.

Lemma required_piece_layers_Ok b required root c :
  required_piece_layers b = Ok required ->
  (root, c) ∈ required <-> needs (bep9_piece_length b) (bep9_files b) root c.
Proof.
  intros (layers & E & [= <-])%bind_Ok. rewrite sort_by_perm, elem_of_map_to_list.
  destruct (require_layers_Ok _ _ _ _ E) as [H1 H2]. split.
  - intros [Hi|]%H1; [|done]. by rewrite lookup_empty in Hi.
  - intros Hn. apply H2. by right.
Qed.
End required.

(** ** Whatever a peer answers *)

Section any_peer.
Context {D : Digests}.
Variables (write : connection) (reply : list Message -> list wait).

Lemma fetch_layer_Ok p root count d layer d' :
  fetch_layer write reply p root count d = (Ok layer, d') ->
  layer_root layer = root /\ len (hashes layer) = count /\ 2 <= count <= MAX_TORRENT_PIECES
  /\ v2_piece_layer_root (hashes layer) p = Ok root.
Proof.
  unfold fetch_layer. destruct (negb _) eqn:Hc; [done|]. apply negb_false_iff, andb_true_iff in Hc as [H1%Z.leb_le H2%Z.leb_le].
  destruct (checked_next_power_of_two count) as [w|]; [|done].
  destruct (fetch_ranges _ _ _ _ _ _ _ _ _ _) as [[hs| | |] d1]; [|done..]. intros [= E _].
  apply bind_Ok in E as ([] & Hl%fail_if_Ok%negb_false_iff%Z.eqb_eq & E). apply bind_Ok in E as (r & Hr & E).
  apply bind_Ok in E as ([] & He%fail_if_Ok%negb_false_iff%bool_decide_eq_true & [= <-]). subst r. done.
Qed.

Lemma fetch_layers_Ok p required d layers d' :
  fetch_layers write reply p required d = (Ok layers, d') ->
  Forall2 (fun rc layer => layer_root layer = rc.1 /\ len (hashes layer) = rc.2 /\ 2 <= rc.2 <= MAX_TORRENT_PIECES
    /\ v2_piece_layer_root (hashes layer) p = Ok rc.1) required layers.
Proof.
  revert d layers. induction required as [|[root c] required IH]; intros d layers; cbn [fetch_layers].
  { intros [= <- _]. constructor. }
  destruct (fetch_layer _ _ _ _ _ _) as [[layer| | |] d1] eqn:E1; [|done..].
  destruct (fetch_layers _ _ _ _ _) as [r d2] eqn:E2. intros [= E ->].
  destruct r as [ls| | |]; [|done..]. injection E as <-. constructor; [by apply fetch_layer_Ok in E1|by apply (IH d1)].
Qed.

Lemma fetch_v2_piece_layers_Ok info identity d layers d' :
  fetch_v2_piece_layers write reply info identity d = (Ok layers, d') ->
  exists b required, inspect_bep9_v2_info info = Ok (Some b) /\ Hash.v2_info_hash identity = Some (bep9_identity b)
    /\ required_piece_layers b = Ok required /\ fetch_layers write reply (bep9_piece_length b) required d = (Ok layers, d').
Proof.
  unfold fetch_v2_piece_layers. intros E.
  match type of E with match ?m with _ => _ end = _ => destruct m as [[p required]| | |] eqn:Em end; [|done..].
  apply bind_Ok in Em as (o & Ho & Em). apply bind_Ok in Em as (b & Hb%ok_or_Ok & Em). subst o.
  apply bind_Ok in Em as (h & Hh%ok_or_Ok & Em).
  apply bind_Ok in Em as ([] & He%fail_if_Ok%negb_false_iff%bool_decide_eq_true & Em). subst h.
  apply bind_Ok in Em as (required' & Hr & [= <- <-]). by exists b, required'.
Qed.

(** C14: whatever a peer sends, layers that the fetch returns are the right ones: the info
    dictionary has the identity of the magnet, every layer is that of a file longer than a
    piece, and every such file has a layer of its length whose tree folds to the root of the file, and for any content of the
    file that has this root the layer holds exactly the hashes of its pieces, unless at
    one place of the tree over the layer and of the tree over these hashes there are
    different strings with one hash. *)
Theorem fetched_layers_genuine info identity d layers d' :
  fetch_v2_piece_layers write reply info identity d = (Ok layers, d') ->
  exists b, inspect_bep9_v2_info info = Ok (Some b) /\ Hash.v2_info_hash identity = Some (bep9_identity b)
    /\ (forall layer, layer ∈ layers -> exists f, f ∈ bep9_files b /\ bep9_piece_length b < mf_length f /\ Meta.pieces_root f = Some (layer_root layer))
    /\ forall f, f ∈ bep9_files b -> bep9_piece_length b < mf_length f ->
       exists root layer, Meta.pieces_root f = Some root /\ layer ∈ layers /\ layer_root layer = root
         /\ len (hashes layer) = div_ceil (mf_length f) (bep9_piece_length b)
         /\ v2_piece_layer_root (hashes layer) (bep9_piece_length b) = Ok root
         /\ forall data, len data = mf_length f -> len data <= i64_max -> v2_file_root data = Ok root ->
            mapM (fun piece => v2_piece_root piece (bep9_piece_length b)) (chunks (Z.to_nat (bep9_piece_length b)) data)
              = Ok (hashes layer)
            \/ collides (layer_texts (bep9_piece_length b) (piece_hashes (bep9_piece_length b) data))
                 (layer_texts (bep9_piece_length b) (hashes layer)) = true.
Proof.
  intros (b & required & Hb & Hi & Hr & E)%fetch_v2_piece_layers_Ok. exists b. split; [done|]. split; [done|].
  apply fetch_layers_Ok in E. split.
  { intros layer Hl. destruct (Forall2_lookup_elem' _ _ _ _ E Hl) as ([root c] & Hin & Hlr & _). cbn [fst] in Hlr. subst root.
    apply (required_piece_layers_Ok _ _ _ _ Hr) in Hin as (f & Hf & Hlen & Hroot & _). by exists f. }
  intros f Hf Hlen.
  assert (exists root, Meta.pieces_root f = Some root) as [root Hroot].
  { destruct (Meta.pieces_root f) as [root|] eqn:Hroot; [by exists root|].
    destruct (required_has_root b required f Hr Hf Hlen) as [root Hx]. congruence. }
  assert ((root, div_ceil (mf_length f) (bep9_piece_length b)) ∈ required) as Hin.
  { apply (required_piece_layers_Ok _ _ _ _ Hr). by exists f. }
  destruct (Forall2_lookup_elem _ _ _ _ E Hin) as (layer & Hl & (H1 & H2 & H3 & H4)). cbn [fst snd] in *.
  exists root, layer. split_and!; [done..|]. intros data Hd Hmax Hfile.
  assert (validate_v2_piece_length (bep9_piece_length b) = Ok ()) as Hv.
  { pose proof H4 as Hx. unfold v2_piece_layer_root in Hx. apply bind_Ok in Hx as ([] & _ & Hx).
    by apply bind_Ok in Hx as ([] & ? & _). }
  destruct (piece_layer_file_root data (bep9_piece_length b) Hv ltac:(lia)) as (hs & r & Hhs & Hr1 & Hr2).
  rewrite Hfile in Hr2. injection Hr2 as <-. unfold piece_hashes. rewrite Hhs.
  assert (len hs = len (hashes layer)) as Hll.
  { apply mapM_Ok, Forall2_length in Hhs. rewrite H2, <- Hd. unfold len at 1. rewrite <- Hhs.
    change (Z.of_nat (length ?x)) with (len x). rewrite len_chunks, Z2Nat.id; [done|..].
    all: apply valid_piece_length in Hv as [k ->]; pose proof (Z.pow_pos_nonneg 2 (Z.of_nat k)); unfold V2_BLOCK_LENGTH; lia. }
  destruct (v2_piece_layer_root_binds hs (hashes layer) (bep9_piece_length b) root) as [->|]; try done; [|by left|by right].
  rewrite Hll, H2. unfold MAX_TORRENT_PIECES, i64_max in *. lia.
Qed.
End any_peer.

(** ** A peer that runs the seeder's code *)

Section honest.
Context {D : Digests}.
Variable meta : TorrentMeta.

(** It takes every message and answers a hash request at once. *)
Definition open_connection : connection := fun _ _ => None.
Definition answers_hashes (reply : list Message -> list wait) : Prop :=
  forall w r m, serve_hash_request meta r = Ok m -> reply (w ++ [HashRequest r]) = [mkWait 0 (Answers m)].

Definition seeder_reply (written : list Message) : list wait :=
  match last written with
  | Some (HashRequest r) => match serve_hash_request meta r with Ok m => [mkWait 0 (Answers m)] | _ => [] end
  | _ => []
  end.
Lemma seeder_answers : answers_hashes seeder_reply.
Proof. intros w r m E. unfold seeder_reply. by rewrite last_snoc, E. Qed.

Variable reply : list Message -> list wait.
Hypothesis Hreply : answers_hashes reply.

Lemma push_hashes_eq start n off rs hs :
  push_hashes start n off rs hs = hs ++ take (Z.to_nat (n - start - off)) rs.
Proof.
  revert off hs. induction rs as [|h rs IH]; intros off hs; cbn [push_hashes].
  { by rewrite take_nil, app_nil_r. }
  rewrite IH. destruct (Z.ltb_spec (start + off) n).
  - replace (Z.to_nat (n - start - off)) with (S (Z.to_nat (n - start - (off + 1)))) by lia.
    cbn [take]. by rewrite <- app_assoc.
  - replace (Z.to_nat (n - start - off)) with 0%nat by lia. by replace (Z.to_nat (n - start - (off + 1))) with 0%nat by lia.
Qed.

Lemma hash_arrays_bytes hs : hash_arrays (map as_bytes hs) = Ok hs.
Proof. apply mapM_Ok. induction hs; constructor; [apply array_bytes|done]. Qed.

Lemma same_range_refl r : same_range r r = true.
Proof. unfold same_range. rewrite bool_decide_true by done. by rewrite !Z.eqb_refl. Qed.

(** The part of a layer received so far, and the next block of it. *)
Lemma layer_prefix q d k a layer :
  (length layer <= 2 ^ d)%nat -> ((a + 1) * 2 ^ k <= 2 ^ d)%nat ->
  take (Nat.min (a * 2 ^ k) (length layer)) layer
    ++ take (Z.to_nat (len layer - Z.of_nat (a * 2 ^ k) - 0)) (take (2 ^ k) (drop (a * 2 ^ k) (padded_layer q d layer)))
  = take (Nat.min (S a * 2 ^ k) (length layer)) layer.
Proof.
  intros Hl Ha. set (s := (a * 2 ^ k)%nat) in *. rewrite Nat.mul_succ_l. fold s.
  assert (s + 2 ^ k <= 2 ^ d)%nat as Hs by (unfold s; lia). clearbody s. clear Ha.
  unfold padded_layer. rewrite resize_ge by done. rewrite take_take.
  destruct (Nat.le_gt_cases (length layer) s) as [Hc|Hc].
  - replace (Z.to_nat (len layer - Z.of_nat s - 0)) with 0%nat by (unfold len; lia).
    rewrite Nat.min_0_l, app_nil_r, !Nat.min_r by lia. done.
  - rewrite drop_app_le, take_app_le by (rewrite ?length_drop; unfold len; lia).
    replace (Z.to_nat (len layer - Z.of_nat s - 0)) with (length layer - s)%nat by (unfold len; lia).
    rewrite Nat.min_l by lia. rewrite take_take_drop. f_equal. lia.
Qed.

Lemma ask_seeder root layer q d k i w :
  serves meta root layer q d -> (1 <= k <= 9)%nat -> ((i + 1) * 2 ^ k <= 2 ^ d)%nat ->
  exists us w', ask open_connection reply (mkRange (as_bytes root) (Z.of_nat q) (Z.of_nat (i * 2 ^ k)) (2 ^ Z.of_nat k) (Z.of_nat d)) (mkDialogue w [])
      = (Ok (take (2 ^ k) (drop (i * 2 ^ k) (padded_layer q d layer)) ++ us), mkDialogue w' [])
    /\ length us = (d - k)%nat.
Proof.
  intros Hs Hk Hi. destruct (served_range meta root layer q d k i (Z.of_nat d) Hs Hk Hi) as (us & h & E & Hl & _).
  exists us. eexists. split; [|rewrite Hl; lia]. unfold ask, send, open_connection. cbn [written inbox app].
  erewrite Hreply; [|unfold serve_hash_request; cbn [Peer.pieces_root Peer.base_layer Peer.range_index Peer.range_length Peer.proof_layers];
    by rewrite array_bytes, bind_ret, E, bind_ret].
  cbn [default id read_piece_layer_response began brings].
  rewrite same_range_refl. cbn [Z.leb Z.compare negb]. by rewrite hash_arrays_bytes.
Qed.

Lemma fetch_ranges_seeder root layer q d k n : forall a w,
  serves meta root layer q d -> (1 <= k <= 9)%nat -> ((a + n) * 2 ^ k <= 2 ^ d)%nat -> (d <= 32)%nat ->
  exists w', fetch_ranges open_connection reply root (Z.of_nat q) (len layer) (2 ^ Z.of_nat k) (Z.of_nat d)
    (map (fun i => i * 2 ^ Z.of_nat k) (seqZ (Z.of_nat a) (Z.of_nat n))) (take (Nat.min (a * 2 ^ k) (length layer)) layer) (mkDialogue w [])
  = (Ok (take (Nat.min ((a + n) * 2 ^ k) (length layer)) layer), mkDialogue w' []).
Proof.
  induction n as [|n IH]; intros a w Hs Hk Hle Hd.
  { rewrite Nat.add_0_r. by exists w. }
  rewrite seqZ_cons by lia. cbn [map fetch_ranges].
  assert (forall n, 2 ^ Z.of_nat n = Z.of_nat (2 ^ n)) as Hpow by (intros m; by rewrite Nat2Z.inj_pow).
  assert (Z.of_nat a * 2 ^ Z.of_nat k = Z.of_nat (a * 2 ^ k)) as Ea by (rewrite Hpow; lia). rewrite Ea.
  assert ((a + 1) * 2 ^ k <= 2 ^ d)%nat as Ha by nia.
  pose proof (Nat.pow_nonzero 2 k ltac:(lia)) as Hk0.
  assert (2 ^ Z.of_nat d <= 2 ^ 32) as Hmax by (apply Z.pow_le_mono_r; lia). rewrite Hpow in Hmax.
  unfold u32_try_from at 1. rewrite (proj2 (Z.leb_le _ u32_max)) by (unfold u32_max; nia).
  destruct (ask_seeder root layer q d k a w Hs Hk Ha) as (us & w1 & -> & Hus).
  destruct (range_length_pow k Hk) as (_ & _ & _ & ->). set (T := padded_layer q d layer).
  assert (length T = 2 ^ d)%nat as HT by (unfold T, padded_layer; by rewrite length_resize).
  set (block := take (2 ^ k) (drop (a * 2 ^ k) T)).
  assert (length block = 2 ^ k)%nat as Hb by (unfold block; rewrite length_take, length_drop; nia).
  assert (k <= d)%nat as Hkd by (apply (Nat.pow_le_mono_r_iff 2); nia).
  unfold saturating_sub. rewrite (proj2 (Z.eqb_eq (len _) _)) by (rewrite len_app; unfold len; rewrite Hb, Hus, Hpow; lia).
  cbn [negb]. rewrite push_hashes_eq, pow2_nat, take_app_length' by done.
  replace (Z.succ (Z.of_nat a)) with (Z.of_nat (S a)) by lia. replace (Z.pred (Z.of_nat (S n))) with (Z.of_nat n) by lia.
  destruct (IH (S a) w1 Hs Hk ltac:(lia) Hd) as (w2 & E).
  exists w2. replace (a + S n)%nat with (S a + n)%nat by lia. rewrite <- E. f_equal.
  apply layer_prefix; [by apply serves_bound in Hs|lia].
Qed.

Lemma fetch_layer_seeder root layer q d w :
  serves meta root layer q d -> 2 <= len layer <= MAX_TORRENT_PIECES ->
  exists w', fetch_layer open_connection reply (Meta.piece_length meta) root (len layer) (mkDialogue w [])
    = (Ok (mkLayer root layer), mkDialogue w' []).
Proof.
  intros Hs [H2 Hm]. pose proof Hs as [_ Hp _ Hw Hr]. pose proof (serves_bound _ _ _ _ _ Hs) as Hb.
  unfold fetch_layer. rewrite (proj2 (Z.leb_le 2 _)), (proj2 (Z.leb_le (len layer) _)) by done. cbn [negb andb]. rewrite Hw.
  assert (d <= 20)%nat as Hd.
  { pose proof (serves_depth _ _ _ _ _ Hs) as E. apply Nat2Z.inj_le. rewrite E.
    transitivity (Z.log2_up MAX_TORRENT_PIECES); [by apply Z.log2_up_le_mono|done]. }
  assert (1 <= d)%nat as Hd1.
  { destruct d; [|lia]. cbn in Hb. unfold len in H2. lia. }
  set (k := Nat.min d 9). assert (Z.min (2 ^ Z.of_nat d) METADATA_HASH_REQUEST_MAX = 2 ^ Z.of_nat k) as ->.
  { unfold k. change METADATA_HASH_REQUEST_MAX with (2 ^ 9). destruct (Nat.le_gt_cases d 9).
    - rewrite Nat.min_l, Z.min_l; [done|apply Z.pow_le_mono_r; lia|lia].
    - rewrite Nat.min_r, Z.min_r; [done|apply Z.pow_le_mono_r; lia|lia]. }
  rewrite Hp, piece_length_blocks, !trailing_zeros_pow2 by lia. rewrite <- Hp.
  assert (div_ceil (2 ^ Z.of_nat d) (2 ^ Z.of_nat k) = Z.of_nat (2 ^ (d - k))) as ->.
  { pose proof (Z.pow_pos_nonneg 2 (Z.of_nat k)). apply div_ceil_spec; [lia|].
    replace (2 ^ Z.of_nat d) with (2 ^ Z.of_nat k * Z.of_nat (2 ^ (d - k))).
    - split; nia.
    - rewrite Nat2Z.inj_pow, <- Z.pow_add_r by lia. f_equal. unfold k. lia. }
  destruct (fetch_ranges_seeder root layer q d k (2 ^ (d - k)) 0 w Hs ltac:(unfold k; lia)) as (w' & E).
  { cbn [Nat.add]. rewrite <- Nat.pow_add_r. apply Nat.pow_le_mono_r; [lia|unfold k; lia]. }
  { lia. }
  change (Z.of_nat 0) with 0 in E. change (take (Nat.min (0 * 2 ^ k) (length layer)) layer) with (@nil V2InfoHash) in E.
  rewrite E. exists w'.
  assert (Nat.min ((0 + 2 ^ (d - k)) * 2 ^ k) (length layer) = length layer) as ->.
  { apply Nat.min_r. cbn [Nat.add]. rewrite <- Nat.pow_add_r. by replace (d - k + k)%nat with d by (unfold k; lia). }
  rewrite take_ge by done. rewrite Z.eqb_refl. ok_simpl. rewrite Hr. ok_simpl. by rewrite bool_decide_true.
Qed.

(** The roots of a valid record are distinct, so that looking for one finds its layer. *)
Lemma layer_found l ls :
  NoDup (map layer_root ls) -> l ∈ ls -> List.find (fun x => bool_decide (layer_root x = layer_root l)) ls = Some l.
Proof.
  induction ls as [|x ls IH]; intros Hn Hin; [by apply elem_of_nil in Hin|]. cbn [map] in Hn. apply NoDup_cons in Hn as [Hx Hn].
  cbn [List.find]. case_bool_decide as Hd.
  - apply elem_of_cons in Hin as [->|Hin]; [done|]. destruct Hx. rewrite Hd. apply list_elem_of_fmap. by exists l.
  - apply elem_of_cons in Hin as [->|Hin]; [done|]. by apply IH.
Qed.

(** A verified record serves the layer of every file longer than a piece. *)
Lemma valid_serves v root c :
  v2 meta = Some v -> valid_v2 v (Meta.piece_length meta) (total_length meta) -> piece_layers_verified v = true ->
  needs (Meta.piece_length meta) (v2_files v) root c ->
  exists l q d, l ∈ piece_layers v /\ layer_root l = root /\ len (hashes l) = c /\ serves meta root (hashes l) q d.
Proof.
  intros Hv Hval Hver (f & Hf & Hl & Hr & Hc). pose proof (v2_layers_present _ _ _ Hval Hver) as Hpres.
  rewrite Forall_forall in Hpres. destruct (Hpres f Hf) as [|(l & Hin & Hroot)]; [lia|].
  rewrite Hr in Hroot. injection Hroot as ->. destruct (v2_piece_length _ _ _ Hval) as [q Hq].
  assert (len (hashes l) = c) as Hlen.
  { pose proof (v2_layers_width _ _ _ Hval) as Hw. rewrite Forall_forall in Hw. specialize (Hw l Hin).
    rewrite Forall_forall in Hw. rewrite (Hw f); [done|]. by apply list_elem_of_filter. }
  pose proof (v2_layers_root _ _ _ Hval) as Hroots. rewrite Forall_forall in Hroots. specialize (Hroots l Hin).
  assert (0 < len (hashes l)) as H0.
  { pose proof Hroots as Hx. unfold v2_piece_layer_root in Hx. apply bind_Ok in Hx as ([] & H1%fail_if_Ok%Z.eqb_neq & _).
    pose proof (len_nonneg (hashes l)). lia. }
  destruct (checked_next_power_of_two (len (hashes l))) as [w|] eqn:Hw.
  2:{ unfold v2_piece_layer_root in Hroots. rewrite Hw in Hroots. inv_ok. }
  pose proof Hw as Hd. apply next_power_of_two_Some in Hd as (d & Hd0 & -> & _); [|done].
  exists l, q, (Z.to_nat d). split_and!; try done. split; try done; [|by rewrite Z2Nat.id].
  exists v, l. split_and!; try done. apply layer_found; [apply Hval|done].
Qed.

Lemma fetch_layers_seeder v required w :
  v2 meta = Some v -> valid_v2 v (Meta.piece_length meta) (total_length meta) -> piece_layers_verified v = true ->
  Forall (fun l => len (hashes l) <= MAX_TORRENT_PIECES) (piece_layers v) ->
  Forall (fun rc => needs (Meta.piece_length meta) (v2_files v) rc.1 rc.2) required ->
  exists layers w', fetch_layers open_connection reply (Meta.piece_length meta) required (mkDialogue w [])
      = (Ok layers, mkDialogue w' [])
    /\ Forall2 (fun rc l => l ∈ piece_layers v /\ layer_root l = rc.1) required layers.
Proof.
  intros Hv Hval Hver Hmax Hneeds. revert w. induction Hneeds as [|[root c] required Hn _ IH]; intros w.
  { by exists [], w. }
  cbn [fst snd] in Hn. destruct (valid_serves v root c Hv Hval Hver Hn) as (l & q & d & Hin & Hroot & Hlen & Hs).
  assert (2 <= len (hashes l) <= MAX_TORRENT_PIECES) as Hlen2.
  { rewrite Forall_forall in Hmax. split; [|by apply Hmax]. rewrite Hlen. destruct Hn as (f & _ & Hf & _ & <-).
    destruct (v2_piece_length _ _ _ Hval) as [q' Hq]. pose proof (valid_v2_positive _ (v2_piece_length _ _ _ Hval)) as Hpos.
    unfold div_ceil. apply Z.div_le_lower_bound; cbn [fst snd] in *; lia. }
  destruct (fetch_layer_seeder root (hashes l) q d w Hs Hlen2) as (w1 & E). destruct (IH w1) as (layers & w2 & E2 & Hls).
  cbn [fetch_layers]. rewrite <- Hlen, E, E2. ok_simpl. exists (mkLayer root (hashes l) :: layers), w2. split; [done|].
  constructor; [|done]. cbn [fst layer_root]. split; [|done]. rewrite <- Hroot. by destruct l.
Qed.

Lemma require_layers_total p files fs acc :
  p <> 0 -> (forall f, f ∈ files -> p < mf_length f -> exists root c, Meta.pieces_root f = Some root /\ div_ceil (mf_length f) p = c /\ c <= usize_max) ->
  (forall root c c', needs p fs root c -> needs p fs root c' -> c = c') ->
  (forall f, f ∈ files -> f ∈ fs) -> (forall root c, acc !! root = Some c -> needs p fs root c) ->
  exists layers, try_fold (require_layer p) acc files = Ok layers.
Proof.
  intros Hp. revert acc. induction files as [|f files IH]; intros acc Hfs Huniq Hin Hacc; cbn [try_fold]; [by exists acc|].
  assert (exists acc', require_layer p acc f = Ok acc' /\ forall root c, acc' !! root = Some c -> needs p fs root c) as (acc' & -> & Hacc').
  2:{ ok_simpl. apply IH; [|done| |done]; intros g Hg; [apply Hfs|apply Hin]; by right. }
  unfold require_layer. destruct (Z.leb_spec (mf_length f) p); [by exists acc|].
  destruct (Hfs f) as (root & c & Hroot & Hc & Hmax); [by left|done|]. rewrite Hroot. ok_simpl. unfold u64_div_ceil.
  rewrite (proj2 (Z.eqb_neq _ _)), Hc by done. ok_simpl. unfold usize_try_from. rewrite (proj2 (Z.leb_le _ _)) by done. ok_simpl.
  assert (needs p fs root c) as Hn.
  { exists f. split; [apply Hin; by left|done]. }
  assert (forall r x, <[root := c]> acc !! r = Some x -> needs p fs r x) as Hins.
  { intros r x. rewrite lookup_insert. case_decide as Hd; [intros [= <-]; by subst r|apply Hacc]. }
  destruct (acc !! root) as [c'|] eqn:E; [|by eexists].
  rewrite (Huniq root c' c) by auto. rewrite Z.eqb_refl. by eexists.
Qed.

Lemma required_total v b :
  v2 meta = Some v -> valid_v2 v (Meta.piece_length meta) (total_length meta) -> piece_layers_verified v = true ->
  Forall (fun l => len (hashes l) <= MAX_TORRENT_PIECES) (piece_layers v) ->
  bep9_files b = v2_files v -> bep9_piece_length b = Meta.piece_length meta ->
  exists required, required_piece_layers b = Ok required.
Proof.
  intros Hv Hval Hver Hmax Hf Hp. pose proof (valid_v2_positive _ (v2_piece_length _ _ _ Hval)) as Hpos.
  rewrite Forall_forall in Hmax. unfold required_piece_layers. rewrite Hf, Hp.
  destruct (require_layers_total (Meta.piece_length meta) (v2_files v) (v2_files v) ∅) as [layers ->]; [lia| | |done| |].
  - intros f Hin Hl. pose proof (v2_roots _ _ _ Hval) as Hr. rewrite Forall_forall in Hr.
    destruct (Hr f Hin) as [|[root Hroot]]; [lia|]. exists root. eexists. split; [done|]. split; [done|].
    destruct (valid_serves v root _ Hv Hval Hver ltac:(by exists f)) as (l & q & d & Hl' & _ & <- & _).
    specialize (Hmax l Hl'). unfold MAX_TORRENT_PIECES, usize_max in *. lia.
  - intros root c c' Hc Hc'. destruct (valid_serves v root c Hv Hval Hver Hc) as (l & _ & _ & Hl & Hr & <- & _).
    destruct (valid_serves v root c' Hv Hval Hver Hc') as (l' & _ & _ & Hl' & Hr' & <- & _).
    pose proof (v2_layers_unique _ _ _ Hval) as Hn. pose proof (layer_found l _ Hn Hl) as E. pose proof (layer_found l' _ Hn Hl') as E'.
    rewrite Hr in E. rewrite Hr', E in E'. by injection E' as ->.
  - intros root c Hc. by rewrite lookup_empty in Hc.
  - by eexists.
Qed.

(** From a peer that runs the seeder's code on a verified record, the fetch returns,
    and what it returns are layers of that record, one for every file longer than a piece. *)
Theorem seeder_provides_layers info identity v b w :
  v2 meta = Some v -> valid_v2 v (Meta.piece_length meta) (total_length meta) -> piece_layers_verified v = true ->
  Forall (fun l => len (hashes l) <= MAX_TORRENT_PIECES) (piece_layers v) ->
  inspect_bep9_v2_info info = Ok (Some b) -> Hash.v2_info_hash identity = Some (bep9_identity b) ->
  bep9_files b = v2_files v -> bep9_piece_length b = Meta.piece_length meta ->
  exists layers w', fetch_v2_piece_layers open_connection reply info identity (mkDialogue w [])
      = (Ok layers, mkDialogue w' [])
    /\ Forall (fun l => l ∈ piece_layers v) layers
    /\ forall f, f ∈ v2_files v -> Meta.piece_length meta < mf_length f ->
       exists l, l ∈ layers /\ Meta.pieces_root f = Some (layer_root l).
Proof.
  intros Hv Hval Hver Hmax Hb Hi Hf Hp.
  destruct (required_total v b Hv Hval Hver Hmax Hf Hp) as [required Er].
  unfold fetch_v2_piece_layers. rewrite Hb. ok_simpl. rewrite Hi. ok_simpl. rewrite bool_decide_true by done. ok_simpl.
  rewrite Er. ok_simpl. rewrite Hp.
  destruct (fetch_layers_seeder v required w Hv Hval Hver Hmax) as (layers & w' & E & Hls).
  { apply Forall_forall. intros [root c] Hin. apply (required_piece_layers_Ok _ _ _ _ Er) in Hin. by rewrite Hf, Hp in Hin. }
  exists layers, w'. split; [done|]. split.
  { apply Forall_forall. intros l Hl. destruct (Forall2_lookup_elem' _ _ _ _ Hls Hl) as (rc & _ & ? & _). done. }
  intros f Hfin Hlen. destruct (required_has_root b required f Er) as [root Hroot]; [by rewrite Hf|by rewrite Hp|].
  assert ((root, div_ceil (mf_length f) (Meta.piece_length meta)) ∈ required) as Hin.
  { apply (required_piece_layers_Ok _ _ _ _ Er). rewrite Hf, Hp. by exists f. }
  destruct (Forall2_lookup_elem _ _ _ _ Hls Hin) as (l & Hl & _ & Hx).
  exists l. split; [done|]. by rewrite Hroot, Hx.
Qed.
End honest.

(** ** Witnesses *)

Section examples.
#[local] Existing Instance toy_digests.
Definition hash_a : V2InfoHash := sha256 (repeat "A"%byte 32).
Definition hash_b : V2InfoHash := sha256 (repeat "B"%byte 32).

(** A file of two pieces; the toy digest makes the root of two hashes the first one. *)
Definition info_example : list byte :=
  bytes_of "d9:file treed1:ad0:d6:lengthi20000e11:pieces root32:" ++ as_bytes hash_a
  ++ bytes_of "eee12:meta versioni2e4:name1:a12:piece lengthi16384ee".
Definition files_example : list MetaFile := [mkMetaFile [bytes_of "a"] 20000 (Some hash_a)].
Definition layer_example : V2PieceLayer := mkLayer hash_a [hash_a; hash_b].
Definition v2_example : V2TorrentMeta := mkV2Meta 2 files_example [layer_example] true.
Definition meta_example : TorrentMeta :=
  mkMeta ZERO (V2 (sha256 info_example)) (bytes_of "a") 16384 [] files_example 20000 false None [] [] None None None false
    (Some v2_example) (Some info_example).
Definition bep9_example : Bep9V2Info := mkBep9 (sha256 info_example) 16384 files_example.

Lemma valid_example : valid_v2 v2_example 16384 20000.
Proof.
  apply (validate_v2_metadata_Ok _ _ _ ()); [|by vm_compute].
  unfold unsigned_files. repeat constructor; cbn; lia.
Qed.

Lemma bep9_eq i i' p p' f f' : i = i' -> p = p' -> f = f' -> mkBep9 i p f = mkBep9 i' p' f'.
Proof. by intros -> -> ->. Qed.

Lemma inspect_example : inspect_bep9_v2_info info_example = Ok (Some bep9_example).
Proof.
  destruct (inspect_bep9_v2_info info_example) as [[b|]| | |] eqn:E; vm_compute in E; try discriminate E.
  injection E as <-. unfold bep9_example, files_example.
  apply (f_equal (fun x => Ok (Some x))), bep9_eq; [by apply array_eq; vm_compute|done|].
  apply (f_equal (fun h => [mkMetaFile [bytes_of "a"] 20000 (Some h)])). by apply array_eq; vm_compute.
Qed.

Lemma served_hashes_prove_witness :
  exists v l hs us h, Hashes (mkRange (as_bytes hash_a) 0 0 2 1) (map as_bytes [hash_a; hash_b])
      = Hashes (mkRange (as_bytes hash_a) 0 0 2 1) (map as_bytes (hs ++ us))
    /\ v2 meta_example = Some v /\ l ∈ piece_layers v /\ layer_root l = hash_a
    /\ len hs = 2 /\ (forall j, 0 + j < len (hashes l) -> 0 <= j < 2 -> get hs j = get (hashes l) (0 + j))
    /\ levels hash_v2_pair (Z.to_nat (Z.log2 2)) hs = [h]
    /\ (Z.log2_up (len (hashes l)) <= 1 -> fold_uncles (0 / 2) h us = hash_a).
Proof. apply served_hashes_prove; [lia|by vm_compute]. Defined.

Lemma seeder_provides_layers_witness :
  exists layers w', fetch_v2_piece_layers open_connection (seeder_reply meta_example) info_example (V2 (sha256 info_example)) (mkDialogue [] [])
      = (Ok layers, mkDialogue w' [])
    /\ Forall (fun l => l ∈ piece_layers v2_example) layers
    /\ forall f, f ∈ v2_files v2_example -> Meta.piece_length meta_example < mf_length f ->
       exists l, l ∈ layers /\ Meta.pieces_root f = Some (layer_root l).
Proof.
  apply (seeder_provides_layers meta_example (seeder_reply meta_example) (seeder_answers meta_example) info_example (V2 (sha256 info_example)) v2_example bep9_example []);
    [done|apply valid_example|done|by repeat constructor|apply inspect_example|done..].
Defined.

Local Abbreviation fetched_example :=
  (fetch_v2_piece_layers open_connection (seeder_reply meta_example) info_example (V2 (sha256 info_example)) (mkDialogue [] [])).
Definition layers_of (r : outcome (list V2PieceLayer)) : list V2PieceLayer := match r with Ok ls => ls | _ => [] end.
Lemma fetched_Ok (r : outcome (list V2PieceLayer) * dialogue) :
  is_ok (fst r) = true -> r = (Ok (layers_of (fst r)), snd r).
Proof. by destruct r as [[| | |] d]. Qed.
Lemma fetched_example_is_ok : is_ok (fst fetched_example) = true.
Proof. by vm_compute. Qed.
Lemma fetched_layers_genuine_witness :
  map (fun l => map as_bytes (hashes l)) (layers_of (fst fetched_example)) = [map as_bytes [hash_a; hash_b]]
  /\ exists b, inspect_bep9_v2_info info_example = Ok (Some b) /\ Hash.v2_info_hash (V2 (sha256 info_example)) = Some (bep9_identity b)
    /\ (forall layer, layer ∈ layers_of (fst fetched_example) ->
        exists f, f ∈ bep9_files b /\ bep9_piece_length b < mf_length f /\ Meta.pieces_root f = Some (layer_root layer))
    /\ forall f, f ∈ bep9_files b -> bep9_piece_length b < mf_length f ->
       exists root layer, Meta.pieces_root f = Some root /\ layer ∈ layers_of (fst fetched_example) /\ layer_root layer = root
         /\ len (hashes layer) = div_ceil (mf_length f) (bep9_piece_length b)
         /\ v2_piece_layer_root (hashes layer) (bep9_piece_length b) = Ok root
         /\ forall data, len data = mf_length f -> len data <= i64_max -> v2_file_root data = Ok root ->
            mapM (fun piece => v2_piece_root piece (bep9_piece_length b)) (chunks (Z.to_nat (bep9_piece_length b)) data)
              = Ok (hashes layer)
            \/ collides (layer_texts (bep9_piece_length b) (piece_hashes (bep9_piece_length b) data))
                 (layer_texts (bep9_piece_length b) (hashes layer)) = true.
Proof.
  split; [by vm_compute|].
  apply (fetched_layers_genuine open_connection (seeder_reply meta_example) info_example (V2 (sha256 info_example)) (mkDialogue [] [])
    (layers_of (fst fetched_example)) (snd fetched_example)).
  apply fetched_Ok, fetched_example_is_ok.
Defined.
End examples.
