(* ===== verification/StateError.v ===== *)
(** * Handlers: state and errors

    A handler of the daemon changes a state and returns, fails or panics; what it changed
    before an error stays changed.  [holds P m Q]: from a state with [P], the handler [m]
    ends in a state with [Q], whatever it returns; [always I m] keeps an invariant. *)

From S2P Require Import Prelude.

Definition handler (S A : Type) : Type := S -> outcome A * S.
#[export] Instance handler_ret {S} : MRet (handler S) := fun _ a s => (Ok a, s).
#[export] Instance handler_bind {S} : MBind (handler S) := fun _ _ k m s =>
  match m s with
  | (Ok a, s) => k a s
  | (Err e, s) => (Err e, s)
  | (Panic, s) => (Panic, s)
  | (OutOfFuel, s) => (OutOfFuel, s)
  end.

Section handlers.
Context {S : Type}.

Definition gets {A} (f : S -> A) : handler S A := fun s => (Ok (f s), s).
Definition modify (f : S -> S) : handler S () := fun s => (Ok (), f s).
Definition lift {A} (m : outcome A) : handler S A := fun s => (m, s).

(** [for a in l { f(a)?; }]. *)
Fixpoint each {A} (f : A -> handler S ()) (l : list A) : handler S () :=
  match l with [] => mret () | a :: l => _ ← f a; each f l end.

Definition holds {A} (P : S -> Prop) (m : handler S A) (Q : S -> Prop) : Prop := forall s, P s -> Q (m s).2.
Definition always {A} (I : S -> Prop) (m : handler S A) : Prop := holds I m I.
(** A relation between the states before and after. *)
Definition relates {A} (R : S -> S -> Prop) (m : handler S A) : Prop := forall s, R s (m s).2.

Lemma bind_run {A B} (m : handler S A) (k : A -> handler S B) s :
  (m ≫= k) s = match m s with
               | (Ok a, s) => k a s
               | (Err e, s) => (Err e, s)
               | (Panic, s) => (Panic, s)
               | (OutOfFuel, s) => (OutOfFuel, s)
               end.
Proof. done. Qed.
Lemma bind_run_Ok {A B} (m : handler S A) (k : A -> handler S B) s a s' : m s = (Ok a, s') -> (m ≫= k) s = k a s'.
Proof. intros E. by rewrite bind_run, E. Qed.
Lemma bind_Ok_inv {A B} (m : handler S A) (k : A -> handler S B) s b s' :
  (m ≫= k) s = (Ok b, s') -> exists a s1, m s = (Ok a, s1) /\ k a s1 = (Ok b, s').
Proof. rewrite bind_run. destruct (m s) as [[a| | |] s1]; [by exists a, s1|done..]. Qed.

Lemma always_bind {A B} I (m : handler S A) (k : A -> handler S B) :
  always I m -> (forall a, always I (k a)) -> always I (m ≫= k).
Proof.
  intros Hm Hk s Hs. rewrite bind_run. specialize (Hm s Hs). destruct (m s) as [[a| | |] s1]; cbn in *; [by apply Hk|done..].
Qed.
Lemma always_ret {A} I (a : A) : always I (mret a : handler S A).
Proof. by intros s Hs. Qed.
Lemma always_gets {A} I (f : S -> A) : always I (gets f).
Proof. by intros s Hs. Qed.
Lemma always_lift {A} I (m : outcome A) : always I (lift m).
Proof. by intros s Hs. Qed.
(** A computation that succeeds, with what it returned. *)
Lemma always_lift_bind {A B} I (m : outcome A) (k : A -> handler S B) :
  (forall a, m = Ok a -> always I (k a)) -> always I (lift m ≫= k).
Proof. intros Hk s Hs. rewrite bind_run. unfold lift. destruct m; [by apply (Hk _ eq_refl)|done..]. Qed.
Lemma always_modify I f : (forall s, I s -> I (f s)) -> always I (modify f).
Proof. intros Hf s Hs. by apply Hf. Qed.
Lemma always_each {A} I (f : A -> handler S ()) l : (forall a, a ∈ l -> always I (f a)) -> always I (each f l).
Proof.
  induction l as [|a l IH]; intros Hf; cbn [each]; [apply always_ret|].
  apply always_bind; [apply Hf; by left|]. intros _. apply IH. intros b Hb. apply Hf. by right.
Qed.

Lemma relates_bind {A B} R `{!Transitive R} (m : handler S A) (k : A -> handler S B) :
  relates R m -> (forall a, relates R (k a)) -> relates R (m ≫= k).
Proof.
  intros Hm Hk s. rewrite bind_run. specialize (Hm s). destruct (m s) as [[a| | |] s1]; cbn in *; [|done..].
  etransitivity; [done|]. apply Hk.
Qed.
Lemma relates_ret {A} R `{!Reflexive R} (a : A) : relates R (mret a : handler S A).
Proof. by intros s. Qed.
Lemma relates_gets {A} R `{!Reflexive R} (f : S -> A) : relates R (gets f).
Proof. by intros s. Qed.
Lemma relates_lift {A} R `{!Reflexive R} (m : outcome A) : relates R (lift m).
Proof. by intros s. Qed.
Lemma relates_modify R f : (forall s, R s (f s)) -> relates R (modify f).
Proof. intros Hf s. apply Hf. Qed.
Lemma relates_each {A} R `{!PreOrder R} (f : A -> handler S ()) l : (forall a, a ∈ l -> relates R (f a)) -> relates R (each f l).
Proof.
  induction l as [|a l IH]; intros Hf; cbn [each]; [apply relates_ret, _|].
  apply relates_bind; [apply _|apply Hf; by left|]. intros _. apply IH. intros b Hb. apply Hf. by right.
Qed.
End handlers.

Create HintDb handlers.
#[export] Hint Resolve always_ret always_gets always_lift : handlers.

(** Split a handler into its steps; what is left are the updates. *)
Ltac always_tac :=
  repeat first
    [ solve [eauto with handlers]
    | match goal with
      | |- always _ (_ ≫= _) => apply always_bind; [|intros ?]
      | |- always _ (match ?x with _ => _ end) => destruct x eqn:?
      | |- always _ (if ?x then _ else _) => destruct x eqn:?
      | |- always _ (modify _) => apply always_modify; intros ? ?
      | |- always _ (each _ _) => apply always_each; intros ? ?
      end
    | progress cbv zeta ].
