(* ===== verification/Seeding.v ===== *)
(** * Serving peers: [crates/swarmotterd/src/seeder.rs]

    The registry of seeding torrents and the routing of inbound connections, and the four
    sessions that serve pieces: a complete torrent with SHA-1 pieces or with BEP 52 pieces
    ([serve_peer_session], [serve_v2_peer_session]) and a torrent that is still downloading
    ([serve_downloader_peer], [serve_downloader_v2_peer]).

    A session is a handler over what it has sent and accounted.  The verified pieces are
    the engine's: each message comes with the bitfield read while it is handled.  Storage
    and the connection are parameters; rate limiters order steps and change no state. *)

From S2P Require Import Prelude Text Bencode Hash Meta V2 Storage PeerFilter Extensions Peer PieceCorrect Pieces Policy PieceLayers StateError.

Local Open Scope byte_scope.
Local Open Scope Z_scope.

#[export] Instance PeerInfoHash_eq_dec : EqDecision PeerInfoHash.
Proof. solve_decision. Defined.
#[export] Instance PeerInfoHash_countable : Countable PeerInfoHash.
Proof. by refine (inj_countable' wire_hash mkPeerInfoHash _); intros []. Defined.

(** ** The registry *)

(** What a registration carries beyond the record and the encryption mode (storage, the
    engine's state, limiters, permits, the shutdown watch) is its [ctx_handles]. *)
Section registry.
Context {H : Type}.

Record PeerServeContext : Type := mkContext {
  ctx_meta : TorrentMeta; ctx_handles : H; ctx_encryption_mode : option PeerEncryptionMode }.
Record SeedRegistration : Type := mkRegistration { reg_key : TorrentKey; reg_context : PeerServeContext }.

Definition context_key (c : PeerServeContext) : TorrentKey :=
  default (KeyV1 (Meta.info_hash (ctx_meta c))) (primary_key (identity (ctx_meta c))).
Definition registration_new (meta : TorrentMeta) (handles : H) : SeedRegistration :=
  let c := mkContext meta handles None in mkRegistration (context_key c) c.
Definition with_encryption_mode (r : SeedRegistration) (mode : PeerEncryptionMode) : SeedRegistration :=
  mkRegistration (reg_key r) (mkContext (ctx_meta (reg_context r)) (ctx_handles (reg_context r)) (Some mode)).
Definition with_key (r : SeedRegistration) (key : TorrentKey) : SeedRegistration := mkRegistration key (reg_context r).
Definition expected_key (r : SeedRegistration) : TorrentKey := context_key (reg_context r).

Record SeedRegistry : Type := mkSeedRegistry {
  contexts : gmap TorrentKey PeerServeContext; wire_index : gmap PeerInfoHash TorrentKey; mse_index : gmap PeerInfoHash TorrentKey }.
Definition seed_registry_default : SeedRegistry := mkSeedRegistry ∅ ∅ ∅.

(** [retain(|_, mapped| *mapped != key)]. *)
Definition forget (key : TorrentKey) (m : gmap PeerInfoHash TorrentKey) : gmap PeerInfoHash TorrentKey :=
  filter (fun e => e.2 <> key) m.

Definition register (r : SeedRegistry) (registration : SeedRegistration) : outcome SeedRegistry :=
  let key := reg_key registration in
  _ ← fail_if (negb (bool_decide (key = expected_key registration)))
        (InvalidArgument "seeder registration key does not match metainfo primary key");
  wire_hash ← key_peer_info_hash key;
  _ ← fail_if (match wire_index r !! wire_hash with Some existing => negb (bool_decide (existing = key)) | None => false end)
        (DuplicateTorrent "peer-wire identity is already registered by another torrent");
  let r := match contexts r !! key with
           | Some previous =>
               mkSeedRegistry (delete key (contexts r)) (forget (context_key previous) (wire_index r))
                 (forget (context_key previous) (mse_index r))
           | None => r
           end in
  Ok (mkSeedRegistry (<[key := reg_context registration]> (contexts r)) (<[wire_hash := key]> (wire_index r))
        (<[wire_hash := key]> (mse_index r))).

Definition unregister (r : SeedRegistry) (key : TorrentKey) : SeedRegistry :=
  match contexts r !! key with
  | Some _ => mkSeedRegistry (delete key (contexts r)) (forget key (wire_index r)) (forget key (mse_index r))
  | None => r
  end.
Definition clear : SeedRegistry := seed_registry_default.
Definition update_encryption_mode (r : SeedRegistry) (key : TorrentKey) (mode : PeerEncryptionMode) : SeedRegistry :=
  match contexts r !! key with
  | Some c => mkSeedRegistry (<[key := mkContext (ctx_meta c) (ctx_handles c) (Some mode)]> (contexts r)) (wire_index r) (mse_index r)
  | None => r
  end.
Definition context_for_wire (r : SeedRegistry) (wire_hash : PeerInfoHash) : option (TorrentKey * PeerServeContext) :=
  key ← wire_index r !! wire_hash; context ← contexts r !! key; Some (key, context).
Definition context_for_mse (r : SeedRegistry) (wire_hash : PeerInfoHash) : option (TorrentKey * PeerServeContext) :=
  key ← mse_index r !! wire_hash; context ← contexts r !! key; Some (key, context).
Definition mse_wire_hashes (r : SeedRegistry) : list PeerInfoHash := map fst (map_to_list (mse_index r)).

(** ** Routing an inbound connection *)

(** A torrent that downloads and may serve; its registry is keyed by torrent. *)
Inductive InboundTarget : Type := Seeder (c : PeerServeContext) | Downloader (c : PeerServeContext).

(** [v1_peer_info_hash().or_else(|| v2_peer_info_hash())]. *)
Definition downloader_wire_hash (c : PeerServeContext) : outcome (option PeerInfoHash) :=
  match v1_peer_info_hash (identity (ctx_meta c)) with
  | Some h => Ok (Some h)
  | None => v2_peer_info_hash (identity (ctx_meta c))
  end.

(** The stream keys an encrypted connection may use. *)
Definition offered_hashes (r : SeedRegistry) (downloaders : list PeerServeContext) : outcome (list PeerInfoHash) :=
  hs ← mapM downloader_wire_hash downloaders; Ok (mse_wire_hashes r ++ omap (fun h => h) hs).

(** The downloading torrents with a wire identity, in the map's order. *)
Fixpoint matching_downloaders (downloaders : list PeerServeContext) (hash : PeerInfoHash) : outcome (list PeerServeContext) :=
  match downloaders with
  | [] => Ok []
  | c :: downloaders =>
      h ← downloader_wire_hash c;
      matched ← matching_downloaders downloaders hash;
      Ok (if bool_decide (h = Some hash) then c :: matched else matched)
  end.

Definition route_target (r : SeedRegistry) (downloaders : list PeerServeContext) (encrypted_hash : option PeerInfoHash)
    (hash : PeerInfoHash) : outcome InboundTarget :=
  _ ← fail_if (match encrypted_hash with Some h => negb (bool_decide (h = hash)) | None => false end)
        (Internal "encrypted inbound peer handshake did not match its stream key");
  match (match encrypted_hash with Some h => context_for_mse r h | None => context_for_wire r hash end) with
  | Some (_, context) => Ok (Seeder context)
  | None =>
      matched ← matching_downloaders downloaders hash;
      _ ← fail_if (1 <? len matched) (DuplicateTorrent "ambiguous 20-byte inbound downloader identity");
      match head matched with
      | Some c => Ok (Downloader c)
      | None => Err (NotFound "registered inbound torrent")
      end
  end.

Definition target_context (t : InboundTarget) : PeerServeContext := match t with Seeder c | Downloader c => c end.

(** What a routed connection runs; the permits are the torrent's. *)
Inductive InboundSession : Type := SeederV1 (c : PeerServeContext) | SeederV2 (c : PeerServeContext) | DownloaderV1 (c : PeerServeContext) | DownloaderV2 (c : PeerServeContext).

Definition route_to_seeder (c : PeerServeContext) (hash : PeerInfoHash) (their_hs : V2Handshake) : outcome InboundSession :=
  if requires_v2_data_plane (ctx_meta c) then
    v2 ← v2_supports_v2 their_hs;
    _ ← fail_if (negb v2) (Parse "pure-v2 inbound peer did not advertise BEP 52 capability");
    expected ← v2_peer_info_hash (identity (ctx_meta c));
    expected ← ok_or expected (Internal "pure-v2 seeder lacks a v2 identity");
    _ ← fail_if (negb (bool_decide (hash = expected))) (Internal "inbound pure-v2 peer handshake hash mismatch");
    _ ← v2_piece_layout (ctx_meta c);
    Ok (SeederV2 c)
  else Ok (SeederV1 c).

Definition route_to_downloader (c : PeerServeContext) (hash : PeerInfoHash) (their_hs : V2Handshake) : outcome InboundSession :=
  expected ← downloader_wire_hash c;
  expected ← ok_or expected (Internal "downloader serving lacks a wire identity");
  _ ← fail_if (negb (bool_decide (hash = expected))) (Internal "inbound downloader info hash mismatch");
  if requires_v2_data_plane (ctx_meta c) then
    wire ← v2_peer_info_hash (identity (ctx_meta c));
    wire ← ok_or wire (Internal "pure-v2 downloader lacks a v2 identity");
    v2 ← v2_supports_v2 their_hs;
    _ ← fail_if (negb (bool_decide (hash = wire)) || negb v2) (Internal "inbound pure-v2 downloader handshake mismatch");
    _ ← v2_piece_layout (ctx_meta c);
    Ok (DownloaderV2 c)
  else Ok (DownloaderV1 c).

(** [serve_routed_peer], after the handshake has been read: [encrypted_hash] is the stream
    key of an encrypted connection, [None] for plaintext. *)
Definition serve_routed_peer (r : SeedRegistry) (downloaders : list PeerServeContext) (listener_mode : PeerEncryptionMode)
    (encrypted_hash : option PeerInfoHash) (their_hs : V2Handshake) (decision : PeerAdmissionDecision) (permit : bool)
  : outcome InboundSession :=
  hash ← copy_from_slice 20 (Peer.v2_info_hash their_hs);
  let hash := mkPeerInfoHash hash in
  target ← route_target r downloaders encrypted_hash hash;
  let mode := default listener_mode (ctx_encryption_mode (target_context target)) in
  _ ← match encrypted_hash, mode with
      | None, EncRequired => Err (Internal "plaintext inbound peer rejected by required encryption mode")
      | Some _, EncDisabled => Err (Internal "encrypted inbound peer rejected by disabled encryption mode")
      | _, _ => Ok ()
      end;
  _ ← fail_if (negb (is_allowed decision)) (Internal "peer rejected by admission policy");
  _ ← fail_if (negb permit) (Internal "per-torrent peer session limit reached");
  match target with
  | Downloader c => route_to_downloader c hash their_hs
  | Seeder c => route_to_seeder c hash their_hs
  end.
End registry.

(** ** The registry routes to the torrent with the wire identity *)

Section registry_proofs.
Context {H : Type}.
Implicit Types (r : @SeedRegistry H) (c : @PeerServeContext H).

Inductive registry_op : Type :=
  | Register (reg : @SeedRegistration H) | Unregister (key : TorrentKey) | Clear
  | UpdateEncryption (key : TorrentKey) (mode : PeerEncryptionMode).
(** A refused registration leaves the registry as it was. *)
Definition registry_step r (op : registry_op) : @SeedRegistry H :=
  match op with
  | Register reg => match register r reg with Ok r' => r' | _ => r end
  | Unregister key => unregister r key
  | Clear => clear
  | UpdateEncryption key mode => update_encryption_mode r key mode
  end.

Record registry_ok r : Prop := {
  ok_keys : forall k c, contexts r !! k = Some c -> context_key c = k;
  ok_wire : forall w k, wire_index r !! w = Some k <-> is_Some (contexts r !! k) /\ key_peer_info_hash k = Ok w;
  ok_mse : mse_index r = wire_index r }.

Lemma lookup_forget key m w k : forget key m !! w = Some k <-> m !! w = Some k /\ k <> key.
Proof. unfold forget. rewrite map_lookup_filter_Some. naive_solver. Qed.

Lemma seed_registry_default_ok : registry_ok seed_registry_default.
Proof.
  split; cbn.
  - intros k c. by rewrite lookup_empty.
  - intros w k. rewrite !lookup_empty. split; [done|]. by intros [[? ?] _].
  - done.
Qed.

Lemma forget_ok r key : registry_ok r -> is_Some (contexts r !! key) ->
  registry_ok (mkSeedRegistry (delete key (contexts r)) (forget key (wire_index r)) (forget key (mse_index r))).
Proof.
  intros [Hk Hw Hm] _. split; cbn.
  - intros k c [_ Hc]%lookup_delete_Some. by apply Hk.
  - intros w k. rewrite lookup_forget, Hw. destruct (decide (k = key)) as [->|Hne].
    + rewrite lookup_delete_eq. split; [naive_solver|]. by intros [[? ?] _].
    + rewrite lookup_delete_ne by done. naive_solver.
  - by rewrite Hm.
Qed.

Lemma register_step_ok r reg r' : registry_ok r -> register r reg = Ok r' ->
  registry_ok r' /\ contexts r' = <[reg_key reg := reg_context reg]> (contexts r)
  /\ reg_key reg = expected_key reg.
Proof.
  intros Hok E. unfold register in E. apply bind_Ok in E as ([] & Hkey%fail_if_Ok%negb_false_iff%bool_decide_eq_true & E).
  apply bind_Ok in E as (w & Hw & E). apply bind_Ok in E as ([] & Hfree%fail_if_Ok & E). set (key := reg_key reg) in *.
  assert (forall k, wire_index r !! w = Some k -> k = key) as Hfree'.
  { intros k Hk. rewrite Hk in Hfree. by apply negb_false_iff, bool_decide_eq_true in Hfree. }
  clear Hfree. set (r0 := match contexts r !! key with Some _ => _ | None => r end) in E. injection E as <-.
  assert (registry_ok r0 /\ contexts r0 = delete key (contexts r)
    /\ forall k, wire_index r0 !! w = Some k -> k = key) as (Hok0 & Hc0 & Hf0).
  { unfold r0. destruct (contexts r !! key) as [c|] eqn:Ec.
    - rewrite (ok_keys _ Hok _ _ Ec). split; [apply forget_ok; by rewrite ?Ec|]. split; [done|].
      cbn. intros k [Hk _]%lookup_forget. by apply Hfree'.
    - split; [done|]. split; [by rewrite delete_id|done]. }
  assert (contexts r0 !! key = None) as Hnone by (rewrite Hc0; apply lookup_delete_eq).
  clearbody r0. destruct Hok0 as [Hk0 Hw0 Hm0]. split; [split; cbn|split; [|done]].
  - intros k c [[<- <-]|[_ Hc]]%lookup_insert_Some; [by symmetry|by apply Hk0].
  - intros w' k. rewrite lookup_insert_Some. rewrite Hw0. rewrite lookup_insert. case_decide as Hkk.
    + subst k. rewrite Hnone. rewrite Hw. split; [|intros [_ [= <-]]; by left].
      intros [[<- _]|[_ [[? ?] _]]]; [by split; [eexists|]|done].
    + split.
      * intros [[_ ->]|[_ ?]]; [done|done].
      * intros [Hs Hh]. right. split; [|done]. intros <-. apply Hkk. symmetry. apply Hf0, Hw0. by split.
  - by rewrite Hm0.
  - cbn. rewrite Hc0. by rewrite insert_delete_eq.
Qed.

Lemma registry_step_ok r op : registry_ok r -> registry_ok (registry_step r op).
Proof.
  intros Hok. destruct op as [reg|key| |key mode]; cbn [registry_step].
  - destruct (register r reg) as [r'| | |] eqn:E; [|done..]. by apply (register_step_ok r reg r').
  - unfold unregister. destruct (contexts r !! key) eqn:E; [|done]. apply forget_ok; [done|by rewrite E].
  - apply seed_registry_default_ok.
  - unfold update_encryption_mode. destruct (contexts r !! key) as [c|] eqn:E; [|done]. destruct Hok as [Hk Hw Hm].
    split; cbn; [| |done].
    + intros k c' [[<- <-]|[_ Hc]]%lookup_insert_Some; [unfold context_key; cbn; by apply Hk|by apply Hk].
    + intros w k. rewrite Hw, lookup_insert_is_Some. destruct (decide (key = k)) as [<-|]; [|naive_solver].
      rewrite E. naive_solver.
Qed.

Lemma registry_run_ok r ops : registry_ok r -> registry_ok (foldl registry_step r ops).
Proof. revert r. induction ops as [|op ops IH]; intros r Hok; [done|]. by apply IH, registry_step_ok. Qed.

Lemma context_for_wire_ok r w k c : registry_ok r ->
  context_for_wire r w = Some (k, c) <-> contexts r !! k = Some c /\ key_peer_info_hash k = Ok w.
Proof.
  intros Hok. unfold context_for_wire. split.
  - destruct (wire_index r !! w) as [k'|] eqn:E; [|done]. cbn. destruct (contexts r !! k') as [c'|] eqn:Ec; [|done]. cbn.
    intros [= <- <-]. split; [done|]. by apply (ok_wire _ Hok) in E as [_ ?].
  - intros [Hc Hw]. assert (wire_index r !! w = Some k) as ->; [apply (ok_wire _ Hok); split; [by rewrite Hc|done]|]. cbn. by rewrite Hc.
Qed.

(** Whatever torrents are registered, registered again, removed and reconfigured, an
    inbound wire identity leads, over plaintext and encrypted alike, to exactly the
    registered torrent that has it, and no two have the same. *)
Theorem registry_routes_exact ops w k c :
  let r := foldl registry_step seed_registry_default ops in
  (context_for_wire r w = Some (k, c) <-> contexts r !! k = Some c /\ key_peer_info_hash k = Ok w)
  /\ context_for_mse r w = context_for_wire r w
  /\ (w ∈ mse_wire_hashes r <-> exists k c, contexts r !! k = Some c /\ key_peer_info_hash k = Ok w)
  /\ (forall k' c', contexts r !! k = Some c -> contexts r !! k' = Some c' ->
      key_peer_info_hash k = Ok w -> key_peer_info_hash k' = Ok w -> k = k').
Proof.
  intros r. assert (registry_ok r) as Hok by apply registry_run_ok, seed_registry_default_ok.
  split; [by apply context_for_wire_ok|]. split; [|split].
  - unfold context_for_mse, context_for_wire. by rewrite (ok_mse _ Hok).
  - unfold mse_wire_hashes. rewrite (ok_mse _ Hok), list_elem_of_fmap. split.
    + intros ([w' k'] & -> & Hin%elem_of_map_to_list%(ok_wire _ Hok)). destruct Hin as [[c' Hc] Hw]. by exists k', c'.
    + intros (k' & c' & Hc & Hw). exists (w, k'). split; [done|]. apply elem_of_map_to_list, (ok_wire _ Hok). by rewrite Hc.
  - intros k' c' Hc Hc' Hw Hw'.
    assert (wire_index r !! w = Some k) as E by (apply (ok_wire _ Hok); by rewrite Hc).
    assert (wire_index r !! w = Some k') as E' by (apply (ok_wire _ Hok); by rewrite Hc').
    rewrite E in E'. by injection E'.
Qed.

Definition session_context (s : @InboundSession H) : @PeerServeContext H :=
  match s with SeederV1 c | SeederV2 c | DownloaderV1 c | DownloaderV2 c => c end.
Definition speaks_v2 (s : @InboundSession H) : bool := match s with SeederV2 _ | DownloaderV2 _ => true | _ => false end.

Lemma matching_downloaders_Ok ds w matched : matching_downloaders ds w = Ok matched ->
  Forall (fun c => c ∈ ds /\ downloader_wire_hash c = Ok (Some w)) matched
  /\ forall c, c ∈ ds -> downloader_wire_hash c = Ok (Some w) -> c ∈ matched.
Proof.
  revert matched. induction ds as [|d ds IH]; intros matched E; cbn [matching_downloaders] in E.
  { injection E as <-. split; [constructor|]. by intros c ?%elem_of_nil. }
  apply bind_Ok in E as (h & Eh & E). apply bind_Ok in E as (m & Em & E). injection E as <-.
  destruct (IH m Em) as [H1 H2].
  assert (Forall (fun c => c ∈ d :: ds /\ downloader_wire_hash c = Ok (Some w)) m) as H1'.
  { eapply Forall_impl; [exact H1|]. intros c [? ?]. split; [by right|done]. }
  case_bool_decide as Hd.
  - split; [constructor; [split; [by left|congruence]|done]|].
    intros c [->|Hc]%elem_of_cons Hw; [by left|right; by apply H2].
  - split; [done|]. intros c [->|Hc]%elem_of_cons Hw; [congruence|by apply H2].
Qed.

Lemma route_target_Ok r ds enc w t : registry_ok r -> route_target r ds enc w = Ok t ->
  (forall h, enc = Some h -> h = w)
  /\ match t with
     | Seeder c => contexts r !! context_key c = Some c /\ key_peer_info_hash (context_key c) = Ok w
     | Downloader c => c ∈ ds /\ downloader_wire_hash c = Ok (Some w)
         /\ (forall k c, contexts r !! k = Some c -> key_peer_info_hash k <> Ok w)
         /\ forall c', c' ∈ ds -> downloader_wire_hash c' = Ok (Some w) -> c' = c
     end.
Proof.
  intros Hok E. unfold route_target in E. apply bind_Ok in E as ([] & He%fail_if_Ok & E).
  assert (forall h, enc = Some h -> h = w) as Henc.
  { intros h ->. by apply negb_false_iff, bool_decide_eq_true in He. }
  split; [done|]. clear He.
  assert (match enc with Some h => context_for_mse r h | None => context_for_wire r w end = context_for_wire r w) as Hx.
  { destruct enc as [h|]; [|done]. rewrite (Henc h eq_refl). unfold context_for_mse, context_for_wire. by rewrite (ok_mse _ Hok). }
  rewrite Hx in E. clear Hx. destruct (context_for_wire r w) as [[k c]|] eqn:Ew.
  { injection E as <-. apply (context_for_wire_ok r w k c Hok) in Ew as [Hc Hw]. by rewrite (ok_keys _ Hok _ _ Hc). }
  apply bind_Ok in E as (matched & Em & E). apply bind_Ok in E as ([] & Hlen%fail_if_Ok%Z.ltb_ge & E).
  apply matching_downloaders_Ok in Em as [H1 H2].
  destruct matched as [|c [|c2 matched]]; cbn [head] in E; [done| |unfold len in Hlen; cbn [length] in Hlen; lia].
  injection E as <-. apply Forall_singleton in H1 as [Hin Hw]. split_and!; [done|done| |].
  - intros k c' Hc Hk. assert (context_for_wire r w = Some (k, c')) as E by by apply context_for_wire_ok. congruence.
  - intros c' Hc' Hw'. specialize (H2 c' Hc' Hw'). by apply list_elem_of_singleton in H2.
Qed.

(** C12: an inbound connection is served only for the torrent whose wire identity its
    handshake names: a registered seeder, or else the one downloading torrent that has it.
    The connection is encrypted when the torrent's mode requires it and plain when the
    mode forbids encryption, its stream key is that identity, the filter admitted its
    client, a permit was free, and BEP 52 is spoken for exactly the torrents that need it,
    with peers that announced it. *)
Theorem inbound_sessions_admitted ops ds listener_mode enc their_hs decision permit s :
  let r := foldl registry_step seed_registry_default ops in
  serve_routed_peer r ds listener_mode enc their_hs decision permit = Ok s ->
  exists w, Hash.as_bytes (wire_hash w) = Peer.v2_info_hash their_hs
    /\ (match s with
        | SeederV1 c | SeederV2 c => contexts r !! context_key c = Some c /\ key_peer_info_hash (context_key c) = Ok w
        | DownloaderV1 c | DownloaderV2 c => c ∈ ds /\ downloader_wire_hash c = Ok (Some w)
            /\ (forall k c, contexts r !! k = Some c -> key_peer_info_hash k <> Ok w)
            /\ forall c', c' ∈ ds -> downloader_wire_hash c' = Ok (Some w) -> c' = c
        end)
    /\ (forall h, enc = Some h -> h = w)
    /\ (let mode := default listener_mode (ctx_encryption_mode (session_context s)) in
        (mode = EncRequired -> enc = Some w) /\ (mode = EncDisabled -> enc = None))
    /\ is_allowed decision = true /\ permit = true
    /\ speaks_v2 s = requires_v2_data_plane (ctx_meta (session_context s))
    /\ (speaks_v2 s = true -> v2_supports_v2 their_hs = Ok true).
Proof.
  intros r E. assert (registry_ok r) as Hok by apply registry_run_ok, seed_registry_default_ok. clearbody r.
  unfold serve_routed_peer in E. apply bind_Ok in E as (a & Ha & E). apply copy_from_slice_Ok in Ha.
  apply bind_Ok in E as (t & Ht & E). apply bind_Ok in E as ([] & Hm & E).
  apply bind_Ok in E as ([] & Hd%fail_if_Ok%negb_false_iff & E). apply bind_Ok in E as ([] & Hp%fail_if_Ok%negb_false_iff & E).
  exists (mkPeerInfoHash a). destruct (route_target_Ok _ _ _ _ _ Hok Ht) as [Henc Htarget].
  assert (forall mode, (match enc, mode with
      | None, EncRequired => Err (Internal "plaintext inbound peer rejected by required encryption mode")
      | Some _, EncDisabled => Err (Internal "encrypted inbound peer rejected by disabled encryption mode")
      | _, _ => Ok ()
      end = Ok ()) -> (mode = EncRequired -> enc = Some (mkPeerInfoHash a)) /\ (mode = EncDisabled -> enc = None)) as Hmode.
  { intros mode Hx. destruct enc as [h|], mode; try discriminate Hx; split; intros; try done. f_equal. by apply Henc. }
  specialize (Hmode _ Hm). clear Hm.
  destruct t as [c|c]; cbn [target_context] in *.
  - unfold route_to_seeder in E. destruct (requires_v2_data_plane (ctx_meta c)) eqn:Hv.
    + apply bind_Ok in E as (v2 & Hv2 & E). apply bind_Ok in E as ([] & Hb%fail_if_Ok%negb_false_iff & E). subst v2.
      apply bind_Ok in E as (e & _ & E). apply bind_Ok in E as (e' & _ & E). apply bind_Ok in E as ([] & _ & E).
      apply bind_Ok in E as (l & _ & [= <-]). by refine (conj Ha (conj Htarget (conj Henc (conj Hmode (conj Hd (conj Hp _)))))).
    + injection E as <-. by refine (conj Ha (conj Htarget (conj Henc (conj Hmode (conj Hd (conj Hp _)))))).
  - unfold route_to_downloader in E. apply bind_Ok in E as (e & _ & E). apply bind_Ok in E as (e' & _ & E).
    apply bind_Ok in E as ([] & _ & E). destruct (requires_v2_data_plane (ctx_meta c)) eqn:Hv.
    + apply bind_Ok in E as (w & _ & E). apply bind_Ok in E as (w' & _ & E). apply bind_Ok in E as (v2 & Hv2 & E).
      apply bind_Ok in E as ([] & [_ Hb%negb_false_iff]%fail_if_Ok%orb_false_iff & E). subst v2.
      apply bind_Ok in E as (l & _ & [= <-]). by refine (conj Ha (conj Htarget (conj Henc (conj Hmode (conj Hd (conj Hp _)))))).
    + injection E as <-. by refine (conj Ha (conj Htarget (conj Henc (conj Hmode (conj Hd (conj Hp _)))))).
Qed.
End registry_proofs.

(** ** Sessions *)

(** What a session has sent, the bytes it has accounted, whether it chokes the peer, the
    extension id the peer chose, and the pieces it has announced. *)
Record Serving : Type := mkServing {
  out : list Message; uploaded : Z; choking : bool; remote_id : option Z; announced : BitfieldBits }.
Definition set_out (s : Serving) (o : list Message) : Serving := mkServing o (uploaded s) (choking s) (remote_id s) (announced s).
Definition set_uploaded (s : Serving) (u : Z) : Serving := mkServing (out s) u (choking s) (remote_id s) (announced s).
Definition set_choking (s : Serving) (b : bool) : Serving := mkServing (out s) (uploaded s) b (remote_id s) (announced s).
Definition set_remote_id (s : Serving) (i : option Z) : Serving := mkServing (out s) (uploaded s) (choking s) i (announced s).
Definition set_announced (s : Serving) (b : BitfieldBits) : Serving := mkServing (out s) (uploaded s) (choking s) (remote_id s) b.

Definition EXTENSION_RESERVED : list byte := [x00; x00; x00; x00; x00; x10; x00; x00].
Definition EXTENSION_HANDSHAKE_ID : byte := x00.

(** The handshakes every session of the daemon begins with. *)
Definition session_handshake (info_hash : InfoHash) (peer_id : list byte) : Handshake :=
  mkHandshake (Hash.as_bytes info_hash) peer_id EXTENSION_RESERVED.
Definition session_v2_handshake (wire : PeerInfoHash) (peer_id : list byte) : outcome V2Handshake :=
  reserved ← with_v2_support EXTENSION_RESERVED; Ok (mkV2Handshake (Hash.as_bytes (wire_hash wire)) peer_id reserved).

(** The verified pieces as the message announces them. *)
Definition verified_bitfield (piece_count : Z) (have : PieceBitfield) : outcome BitfieldBits :=
  try_fold (fun bits i => if Storage.bf_has have i then bitfield_set bits i else Ok bits) (bitfield_new piece_count) (seqZ 0 piece_count).

Section sessions.
Context {D : Digests}.
Variable meta : TorrentMeta.
(** Storage: the block of a piece at an offset, read from the completed payload when the
    first argument holds; the connection; whether the completed payload has its own storage. *)
Variables (read_block : bool -> Z -> Z -> Z -> list byte + CoreError) (write : connection) (has_complete_storage : bool).

Definition put (m : Message) : handler Serving () := fun s =>
  match send write (out s) m with
  | Ok o => (Ok (), set_out s o)
  | Err e => (Err e, s)
  | Panic => (Panic, s)
  | OutOfFuel => (OutOfFuel, s)
  end.
Definition account (bytes : Z) : handler Serving () := modify (fun s => set_uploaded s (saturating_add u64_max (uploaded s) bytes)).

(** [serve_peer_session]: the first messages. *)
Definition open_peer_session (have : PieceBitfield) : handler Serving () :=
  bf ← lift (verified_bitfield (meta_piece_count meta) have);
  _ ← put (encode_message bf);
  put (Extended EXTENSION_HANDSHAKE_ID (encode_extension_handshake [(UT_PEX_NAME, 1)] (bytes_of "SwarmOtter/0.1") None)).

Definition learn_id (name : text) (id : byte) (payload : list byte) : handler Serving () :=
  if bool_decide (id = EXTENSION_HANDSHAKE_ID) then
    match parse_extension_handshake payload with
    | Ok hs => modify (fun s => set_remote_id s (id_for hs name))
    | Err _ => mret ()
    | Panic => lift Panic
    | OutOfFuel => lift OutOfFuel
    end
  else mret ().

(** One message, and the verified pieces while it is handled. *)
Definition serve_message (have : PieceBitfield) (m : Message) : handler Serving () :=
  let piece_count := meta_piece_count meta in
  match m with
  | Interested => _ ← put Unchoke; modify (fun s => set_choking s false)
  | Peer.Request p offset length =>
      our_choking ← gets choking;
      if our_choking : bool then mret ()
      else if piece_count <=? p then mret ()
      else if negb (Storage.bf_has have p) then mret ()
      else
        let fully_complete := Storage.bf_count have piece_count =? piece_count in
        match read_block (fully_complete && has_complete_storage) p offset length with
        | inr _ => mret ()
        | inl block => _ ← account (len block); put (Piece p offset block)
        end
  | Bitfield bits => _ ← lift (bitfield_from_bytes bits piece_count); mret ()
  | Extended id payload => learn_id UT_PEX_NAME id payload
  | _ => mret ()
  end.

(** The messages that arrive until the connection ends, fails or is idle. *)
Definition serve_peer_session (have : PieceBitfield) (messages : list (PieceBitfield * Message)) : handler Serving () :=
  _ ← open_peer_session have; each (fun e => serve_message e.1 e.2) messages.

(** ** BEP 52 seeding *)

Definition LOCAL_UT_METADATA_ID : Z := 3.
Definition metadata_info : option (list byte) :=
  match raw_info meta with
  | Some info => if negb (len info =? 0) && (len info <=? MAX_TORRENT_METADATA_BYTES) then Some info else None
  | None => None
  end.

Definition open_v2_session (layout : V2PieceLayout) (have : PieceBitfield) : handler Serving () :=
  bf ← lift (verified_bitfield (layout_piece_count layout) have);
  _ ← put (encode_message bf);
  match metadata_info with
  | Some info =>
      put (Extended EXTENSION_HANDSHAKE_ID
        (encode_extension_handshake [(UT_METADATA_NAME, LOCAL_UT_METADATA_ID)] (bytes_of "SwarmOtter/2.0") (Some (len info))))
  | None => mret ()
  end.

(** The response to a metadata message; [None] goes on without one. *)
Definition metadata_response (info payload : list byte) : outcome (option (list byte)) :=
  match parse_metadata_message payload with
  | Ok message =>
      match msg_type message with
      | Extensions.Request =>
          let start := Extensions.piece message * METADATA_PIECE_SIZE in
          if start <? len info then
            data ← slice info start (Z.min (start + METADATA_PIECE_SIZE) (len info));
            Ok (Some (encode_metadata_data (Extensions.piece message) (len info) data))
          else Ok (Some (encode_metadata_reject (Extensions.piece message)))
      | _ => Ok None
      end
  | Err _ => Ok None
  | Panic => Panic
  | OutOfFuel => OutOfFuel
  end.

Definition serve_v2_request (layout : V2PieceLayout) (have : PieceBitfield) (p offset length : Z) : handler Serving () :=
  match V2.piece layout p with
  | None => put (Peer.Reject p offset length)
  | Some mapping =>
      choking ← gets choking;
      let valid_block := negb choking && (0 <? length) && (length <=? BLOCK_SIZE) && (offset + length <=? piece_len mapping) in
      let piece_count := layout_piece_count layout in
      let fully_complete := Storage.bf_count have piece_count =? piece_count in
      if negb valid_block || negb (Storage.bf_has have p) then put (Peer.Reject p offset length)
      else
        match read_block (fully_complete && has_complete_storage) p offset length with
        | inr _ => put (Peer.Reject p offset length)
        | inl block => _ ← account (len block); put (Piece p offset block)
        end
  end.

Definition serve_v2_message (layout : V2PieceLayout) (have : PieceBitfield) (m : Message) : handler Serving () :=
  match m with
  | Interested => _ ← put Unchoke; modify (fun s => set_choking s false)
  | Peer.Request p offset length => serve_v2_request layout have p offset length
  | HashRequest r => response ← lift (serve_hash_request meta r); put response
  | Extended id payload =>
      if bool_decide (id = EXTENSION_HANDSHAKE_ID) then learn_id UT_METADATA_NAME id payload
      else if negb (u8 id =? LOCAL_UT_METADATA_ID) then mret ()
      else
        remote ← gets remote_id;
        match metadata_info, remote with
        | Some info, Some remote_id =>
            response ← lift (metadata_response info payload);
            match response with
            | Some response => put (Extended (as_u8 remote_id) response)
            | None => mret ()
            end
        | _, _ => mret ()
        end
  | _ => mret ()
  end.
Definition serve_v2_peer_session (layout : V2PieceLayout) (have : PieceBitfield) (messages : list (PieceBitfield * Message)) : handler Serving () :=
  _ ← open_v2_session layout have; each (fun e => serve_v2_message layout e.1 e.2) messages.

(** ** Torrents that download *)

(** What the [select!] of a serving loop sees: the watch changed to a value or lost its
    sender, the availability tick, 120 idle seconds, a message, or the end of the stream. *)
Inductive serve_event : Type := ShutdownIs (stop : bool) | ShutdownClosed | Tick | IdleTimeout | Incoming (m : Message) | StreamEnds.

Definition open_downloader_session (piece_count : Z) (unchoke : bool) (have : PieceBitfield) : handler Serving () :=
  bf ← lift (verified_bitfield piece_count have);
  _ ← modify (fun s => set_announced s bf);
  _ ← put (encode_message bf);
  if unchoke then put Unchoke else mret ().

(** Newly verified pieces are announced, at most 64 at a time. *)
Fixpoint announce_verified (have : PieceBitfield) (pieces : list Z) (sent : nat) : handler Serving () :=
  match pieces with
  | [] => mret ()
  | p :: pieces =>
      a ← gets announced;
      has ← lift (bitfield_has a p);
      if Storage.bf_has have p && negb has then
        _ ← put (Have (wrap 32 p));
        a ← lift (bitfield_set a p);
        _ ← modify (fun s => set_announced s a);
        if (64 <=? S sent)%nat then mret () else announce_verified have pieces (S sent)
      else announce_verified have pieces sent
  end.

(** Whether the turn goes on to announce. *)
Definition serve_downloader_request (have : PieceBitfield) (p offset length : Z) : handler Serving bool :=
  if negb (Storage.bf_has have p) || (meta_piece_count meta <=? p) then mret false
  else if (length =? 0) || (128 * 1024 <? length) then mret false
  else
    match read_block false p offset length with
    | inr _ => mret false
    | inl block => _ ← put (Piece p offset block); _ ← account length; mret true
    end.

(** [None] ends the session. *)
Definition downloader_turn (have : PieceBitfield) (e : serve_event) : handler Serving (option bool) :=
  match e with
  | ShutdownIs true => mret None
  | ShutdownIs false | ShutdownClosed | Tick => mret (Some true)
  | IdleTimeout | StreamEnds => mret None
  | Incoming (Peer.Request p offset length) => b ← serve_downloader_request have p offset length; mret (Some b)
  | Incoming Interested => _ ← put Unchoke; mret (Some true)
  | Incoming _ => mret (Some true)
  end.

Definition serve_downloader_v2_request (layout : V2PieceLayout) (have : PieceBitfield) (p offset length : Z) : handler Serving bool :=
  match V2.piece layout p with
  | None => _ ← put (Peer.Reject p offset length); mret false
  | Some mapping =>
      choking ← gets choking;
      let valid := negb choking && (0 <? length) && (length <=? BLOCK_SIZE) && (offset + length <=? piece_len mapping) && Storage.bf_has have p in
      if negb valid then _ ← put (Peer.Reject p offset length); mret false
      else
        match read_block false p offset length with
        | inr _ => _ ← put (Peer.Reject p offset length); mret false
        | inl block => _ ← put (Piece p offset block); _ ← account (len block); mret true
        end
  end.

Definition downloader_v2_turn (layout : V2PieceLayout) (have : PieceBitfield) (e : serve_event) : handler Serving (option bool) :=
  match e with
  | ShutdownIs true | ShutdownClosed => mret None
  | ShutdownIs false | Tick => mret (Some true)
  | IdleTimeout | StreamEnds => mret None
  | Incoming Interested => _ ← put Unchoke; _ ← modify (fun s => set_choking s false); mret (Some true)
  | Incoming (Peer.Request p offset length) => b ← serve_downloader_v2_request layout have p offset length; mret (Some b)
  | Incoming NotInterested => _ ← modify (fun s => set_choking s true); mret (Some true)
  | Incoming _ => mret (Some true)
  end.

(** Each turn reads the verified pieces once for a request and once to announce. *)
Record turn_input : Type := mkTurn { event : serve_event; at_request : PieceBitfield; at_announce : PieceBitfield }.
Fixpoint serve_turns (turn : PieceBitfield -> serve_event -> handler Serving (option bool)) (piece_count : Z) (turns : list turn_input) : handler Serving () :=
  match turns with
  | [] => mret ()
  | t :: turns =>
      r ← turn (at_request t) (event t);
      match r with
      | None => mret ()
      | Some announce =>
          _ ← (if announce : bool then announce_verified (at_announce t) (seqZ 0 piece_count) 0 else mret ());
          serve_turns turn piece_count turns
      end
  end.

Definition serve_downloader_peer (have : PieceBitfield) (turns : list turn_input) : handler Serving () :=
  _ ← open_downloader_session (meta_piece_count meta) true have; serve_turns downloader_turn (meta_piece_count meta) turns.
Definition serve_downloader_v2_peer (layout : V2PieceLayout) (have : PieceBitfield) (turns : list turn_input) : handler Serving () :=
  _ ← open_downloader_session (layout_piece_count layout) false have; serve_turns (downloader_v2_turn layout) (layout_piece_count layout) turns.
End sessions.

(** ** Only verified pieces are served *)

Lemma verified_bitfield_spec n have :
  0 <= n -> exists bf, verified_bitfield n have = Ok bf /\ full_bitfield n bf
    /\ forall i, 0 <= i -> bhas bf i = (i <? n) && Storage.bf_has have i.
Proof.
  intros Hn. unfold verified_bitfield. destruct (full_new n Hn) as [Hf Hb].
  assert (forall m, 0 <= m <= n -> exists bf,
    try_fold (fun bits i => if Storage.bf_has have i then bitfield_set bits i else Ok bits) (bitfield_new n) (seqZ 0 m) = Ok bf
    /\ full_bitfield n bf /\ forall i, 0 <= i -> bhas bf i = (i <? m) && Storage.bf_has have i) as H.
  2:{ apply (H n). lia. }
  intros m [Hm Hmn]. revert Hmn. pattern m. apply natlike_ind; [| |done]; clear m Hm.
  - intros _. exists (bitfield_new n). split; [done|]. split; [done|]. intros i Hi. rewrite Hb by done.
    by rewrite (proj2 (Z.ltb_ge i 0)).
  - intros m Hm IH Hmn. destruct (IH ltac:(lia)) as (bf & E & Hbf & Hs). unfold Z.succ. rewrite seqZ_app by lia. rewrite try_fold_app, E.
    rewrite Z.add_0_l. change (seqZ m 1) with [0 + m]. rewrite Z.add_0_l.
    cbn [try_fold]. ok_simpl. destruct (Storage.bf_has have m) eqn:Eh.
    + destruct (full_set n bf m ltac:(lia) Hbf) as (bf' & -> & Hbf' & Hs'). exists bf'. split; [done|]. split; [done|].
      intros i Hi. rewrite Hs', Hs by done. destruct (Z.eqb_spec i m) as [->|Hne].
      * rewrite Eh. rewrite (proj2 (Z.ltb_lt m (m + 1))) by lia. by rewrite orb_true_r.
      * rewrite orb_false_r. f_equal. apply eq_true_iff_eq. rewrite !Z.ltb_lt. lia.
    + exists bf. split; [done|]. split; [done|]. intros i Hi. rewrite Hs by done.
      destruct (Z.eqb_spec i m) as [->|Hne]; [by rewrite Eh, !andb_false_r|]. f_equal. apply eq_true_iff_eq. rewrite !Z.ltb_lt. lia.
Qed.

(** The answer to a hash request is about the requested range. *)
Lemma serve_hash_request_Ok {D : Digests} meta r m : serve_hash_request meta r = Ok m -> (exists hs, m = Hashes r hs) \/ m = HashReject r.
Proof.
  intros (root & Hr%copy_from_slice_Ok & E)%bind_Ok. apply bind_Ok in E as ([response|] & E & [= <-]); [left|by right].
  cbn [default]. unfold v2_hash_response in E.
  repeat first [apply return_if_Some in E as [_ E]|apply option_or_return_Some in E as (? & _ & E)|apply bind_Ok in E as (? & _ & E)].
  injection E as <-. rewrite Hr. eexists. cbn. by destruct r.
Qed.

Section served.
Context {D : Digests}.
Variables (meta : TorrentMeta) (read_block : bool -> Z -> Z -> Z -> list byte + CoreError) (write : connection) (has_complete_storage : bool).
(** The pieces verified so far and later, and what a served block keeps to. *)
Variables (verified : Z -> Prop) (bounds : Z -> Z -> Z -> Prop) (piece_count : Z).

Definition backed (m : Message) : Prop :=
  match m with
  | Piece p o b => verified p /\ exists complete length, read_block complete p o length = inl b /\ bounds p o length
  | Have i => exists p, i = wrap 32 p /\ 0 <= p < piece_count /\ verified p
  | Bitfield bits => forall i, 0 <= i -> bhas (mkBitfield bits piece_count) i = true -> verified i
  | _ => True
  end.
Definition all_backed (s : Serving) : Prop := Forall backed (out s).
Definition only_verified (have : PieceBitfield) : Prop := forall i, Storage.bf_has have i = true -> verified i.

Lemma put_backed m : backed m -> always all_backed (put write m).
Proof.
  intros Hm s Hs. unfold put, send. destruct (write (out s) m); [done|]. cbn. unfold all_backed. cbn.
  apply Forall_app. split; [done|]. by constructor.
Qed.
Lemma update_backed f : (forall s, out (f s) = out s) -> always all_backed (modify f).
Proof. intros Hf. apply always_modify. intros s Hs. unfold all_backed. by rewrite Hf. Qed.
Lemma account_backed n : always all_backed (account n).
Proof. by apply update_backed. Qed.

Lemma put_bitfield have bf : 0 <= piece_count -> only_verified have -> verified_bitfield piece_count have = Ok bf ->
  always all_backed (put write (encode_message bf)).
Proof.
  intros Hn Hv E. apply put_backed. destruct (verified_bitfield_spec piece_count have Hn) as (bf' & E' & [Hc _] & Hb).
  rewrite E in E'. injection E' as <-. unfold encode_message, backed. intros i Hi.
  replace (mkBitfield (bits bf) piece_count) with bf by (destruct bf; cbn in *; by subst). rewrite Hb by done.
  intros [_ Hh]%andb_true_iff. by apply (Hv i).
Qed.

Lemma learn_id_backed name id payload : always all_backed (learn_id name id payload).
Proof. unfold learn_id. always_tac. Qed.

Lemma announce_backed have ps sent :
  only_verified have -> (forall p, p ∈ ps -> 0 <= p < piece_count) -> always all_backed (announce_verified write have ps sent).
Proof.
  intros Hv. revert sent. induction ps as [|p ps IH]; intros sent Hps; cbn [announce_verified]; [apply always_ret|].
  assert (0 <= p < piece_count) as Hp by (apply Hps; by left).
  assert (forall sent, always all_backed (announce_verified write have ps sent)) as IH'.
  { intros n. apply IH. intros q Hq. apply Hps. by right. }
  apply always_bind; [apply always_gets|]. intros a. apply always_bind; [apply always_lift|]. intros has.
  destruct (Storage.bf_has have p && negb has) eqn:E; [|apply IH']. apply andb_true_iff in E as [E _].
  apply always_bind; [apply put_backed; exists p; split; [done|]; split; [done|]; by apply (Hv p)|]. intros _.
  apply always_bind; [apply always_lift|]. intros a'. apply always_bind; [by apply update_backed|]. intros _.
  destruct (64 <=? S sent)%nat; [apply always_ret|apply IH'].
Qed.

Lemma turns_backed turn ts :
  (forall have e, only_verified have -> always all_backed (turn have e)) ->
  Forall (fun t => only_verified (at_request t) /\ only_verified (at_announce t)) ts ->
  always all_backed (serve_turns write turn piece_count ts).
Proof.
  intros Hturn Hts. induction Hts as [|t ts [H1 H2] _ IH]; cbn [serve_turns]; [apply always_ret|].
  apply always_bind; [by apply Hturn|]. intros [announce|]; [|apply always_ret].
  apply always_bind; [|done]. destruct announce; [|apply always_ret].
  apply announce_backed; [done|]. intros p Hp%elem_of_seqZ. lia.
Qed.

Definition started (uploaded : Z) (bits : BitfieldBits) : Serving := mkServing [] uploaded true None bits.
Lemma started_backed u bits : all_backed (started u bits).
Proof. constructor. Qed.
End served.

Section sessions_served.
Context {D : Digests}.
Variables (meta : TorrentMeta) (read_block : bool -> Z -> Z -> Z -> list byte + CoreError) (write : connection) (has_complete_storage : bool).
Variable verified : Z -> Prop.

Definition in_record (p o length : Z) : Prop := p < meta_piece_count meta.
Definition in_piece (p o length : Z) : Prop := p < meta_piece_count meta /\ length <> 0 /\ length <= 128 * 1024.
Definition in_v2_piece (layout : V2PieceLayout) (p o length : Z) : Prop :=
  exists mapping, V2.piece layout p = Some mapping /\ 0 < length <= BLOCK_SIZE /\ o + length <= piece_len mapping.

Lemma serve_message_backed have m :
  only_verified verified have -> always (all_backed read_block verified in_record (meta_piece_count meta)) (serve_message meta read_block write has_complete_storage have m).
Proof.
  intros Hv. destruct m; cbn [serve_message]; try apply always_ret.
  - apply always_bind; [by apply put_backed|]. intros _. by apply update_backed.
  - apply always_bind; [apply always_lift|]. intros _. apply always_ret.
  - apply always_bind; [apply always_gets|]. intros []; [apply always_ret|].
    destruct (Z.leb_spec (meta_piece_count meta) piece); [apply always_ret|].
    destruct (Storage.bf_has have piece) eqn:Eh; [|apply always_ret].
    destruct (read_block _ piece offset length) as [b|e] eqn:Er; [|apply always_ret].
    apply always_bind; [by apply update_backed|]. intros _. apply put_backed. split; [by apply (Hv piece)|]. eauto.
  - apply learn_id_backed.
Qed.

Lemma serve_v2_message_backed layout have m :
  only_verified verified have -> always (all_backed read_block verified (in_v2_piece layout) (layout_piece_count layout)) (serve_v2_message meta read_block write has_complete_storage layout have m).
Proof.
  intros Hv. destruct m; cbn [serve_v2_message]; try apply always_ret.
  - apply always_bind; [by apply put_backed|]. intros _. by apply update_backed.
  - unfold serve_v2_request. destruct (V2.piece layout piece) as [mapping|] eqn:Em; [|by apply put_backed].
    apply always_bind; [apply always_gets|]. intros c. cbv zeta.
    destruct (negb (_ && _) || _) eqn:E; [by apply put_backed|]. apply orb_false_iff in E as [E1%negb_false_iff E2%negb_false_iff].
    apply andb_true_iff in E1 as [E1 Hle%Z.leb_le]. apply andb_true_iff in E1 as [E1 Hb%Z.leb_le]. apply andb_true_iff in E1 as [_ H0%Z.ltb_lt].
    destruct (read_block _ piece offset length) as [b|e] eqn:Er; [|by apply put_backed].
    apply always_bind; [by apply update_backed|]. intros _. apply put_backed. split; [by apply (Hv piece)|].
    do 2 eexists. split; [done|]. by exists mapping.
  - apply always_lift_bind. intros response [[hs ->]| ->]%serve_hash_request_Ok; by apply put_backed.
  - destruct (bool_decide _); [apply learn_id_backed|]. destruct (negb _); [apply always_ret|].
    apply always_bind; [apply always_gets|]. intros remote. destruct (metadata_info meta); [|apply always_ret].
    destruct remote; [|apply always_ret]. apply always_bind; [apply always_lift|]. intros [|]; [by apply put_backed|apply always_ret].
Qed.

Lemma downloader_turn_backed have e :
  only_verified verified have -> always (all_backed read_block verified in_piece (meta_piece_count meta)) (downloader_turn meta read_block write have e).
Proof.
  intros Hv. destruct e as [[]| | | |m|]; cbn [downloader_turn]; try apply always_ret. destruct m; try apply always_ret.
  - apply always_bind; [by apply put_backed|]. intros _. apply always_ret.
  - apply always_bind; [|intros b; apply always_ret]. unfold serve_downloader_request.
    destruct (Storage.bf_has have piece) eqn:Eh; [|apply always_ret]. cbn [negb orb].
    destruct (Z.leb_spec (meta_piece_count meta) piece); [apply always_ret|].
    destruct (_ || _) eqn:E; [apply always_ret|]. apply orb_false_iff in E as [E1%Z.eqb_neq E2%Z.ltb_ge].
    destruct (read_block _ piece offset length) as [b|e] eqn:Er; [|apply always_ret].
    apply always_bind; [apply put_backed|intros _; apply always_bind; [by apply update_backed|intros _; apply always_ret]].
    split; [by apply (Hv piece)|]. by do 2 eexists.
Qed.

Lemma downloader_v2_turn_backed layout have e :
  only_verified verified have ->
  always (all_backed read_block verified (in_v2_piece layout) (layout_piece_count layout)) (downloader_v2_turn read_block write layout have e).
Proof.
  intros Hv. destruct e as [[]| | | |m|]; cbn [downloader_v2_turn]; try apply always_ret. destruct m; try apply always_ret.
  - apply always_bind; [by apply put_backed|]. intros _. apply always_bind; [by apply update_backed|]. intros _. apply always_ret.
  - apply always_bind; [by apply update_backed|]. intros _. apply always_ret.
  - apply always_bind; [|intros b; apply always_ret]. unfold serve_downloader_v2_request.
    assert (forall r : bool, always (all_backed read_block verified (in_v2_piece layout) (layout_piece_count layout))
      (_ ← put write (Peer.Reject piece offset length); mret r : handler Serving bool)) as Hrej.
    { intros r. apply always_bind; [by apply put_backed|]. intros _. apply always_ret. }
    destruct (V2.piece layout piece) as [mapping|] eqn:Em; [|apply Hrej]. apply always_bind; [apply always_gets|]. intros c. cbv zeta.
    destruct (negb _) eqn:E; [apply Hrej|]. apply negb_false_iff in E. apply andb_true_iff in E as [E Eh]. apply andb_true_iff in E as [E Hle%Z.leb_le].
    apply andb_true_iff in E as [E Hb%Z.leb_le]. apply andb_true_iff in E as [_ H0%Z.ltb_lt].
    destruct (read_block _ piece offset length) as [b|e] eqn:Er; [|apply Hrej].
    apply always_bind; [apply put_backed|intros _; apply always_bind; [by apply update_backed|intros _; apply always_ret]].
    split; [by apply (Hv piece)|]. do 2 eexists. split; [done|]. by exists mapping.
Qed.

Lemma open_downloader_backed bounds n unchoke have :
  0 <= n -> only_verified verified have -> always (all_backed read_block verified bounds n) (open_downloader_session write n unchoke have).
Proof.
  intros Hn Hv. unfold open_downloader_session. apply always_lift_bind. intros bf E.
  apply always_bind; [by apply update_backed|]. intros _. apply always_bind; [by apply (put_bitfield _ _ _ _ _ have)|]. intros _.
  destruct unchoke; [by apply put_backed|apply always_ret].
Qed.

(** C13: in each of the four sessions, whatever the peer sends and whenever pieces become
    verified, every block sent was read from a verified piece at the requested place and
    within the bounds of the session, and every piece announced is verified. *)
Theorem only_verified_served layout u bits have messages turns :
  only_verified verified have ->
  Forall (fun e => only_verified verified e.1) messages ->
  Forall (fun t => only_verified verified (at_request t) /\ only_verified verified (at_announce t)) turns ->
  all_backed read_block verified in_record (meta_piece_count meta)
    (serve_peer_session meta read_block write has_complete_storage have messages (started u bits)).2
  /\ all_backed read_block verified (in_v2_piece layout) (layout_piece_count layout)
    (serve_v2_peer_session meta read_block write has_complete_storage layout have messages (started u bits)).2
  /\ all_backed read_block verified in_piece (meta_piece_count meta)
    (serve_downloader_peer meta read_block write have turns (started u bits)).2
  /\ all_backed read_block verified (in_v2_piece layout) (layout_piece_count layout)
    (serve_downloader_v2_peer read_block write layout have turns (started u bits)).2.
Proof.
  intros Hv Hm Ht. rewrite Forall_forall in Hm.
  assert (0 <= meta_piece_count meta /\ 0 <= layout_piece_count layout) as [Hn Hn'] by (split; apply len_nonneg).
  split_and!.
  - apply (always_bind _ (open_peer_session meta write have)); [|intros _; apply always_each; intros [h m] Hin; by apply serve_message_backed, (Hm (h, m))|apply started_backed].
    unfold open_peer_session. apply always_lift_bind. intros bf E. apply always_bind; [by apply (put_bitfield _ _ _ _ _ have)|].
    intros _. by apply put_backed.
  - apply (always_bind _ (open_v2_session meta write layout have)); [|intros _; apply always_each; intros [h m] Hin; by apply serve_v2_message_backed, (Hm (h, m))|apply started_backed].
    unfold open_v2_session. apply always_lift_bind. intros bf E. apply always_bind; [by apply (put_bitfield _ _ _ _ _ have)|].
    intros _. destruct (metadata_info meta); [by apply put_backed|apply always_ret].
  - apply (always_bind _ (open_downloader_session write (meta_piece_count meta) true have)); [by apply open_downloader_backed| |apply started_backed].
    intros _. apply (turns_backed _ _ verified); [|done]. intros h e. apply downloader_turn_backed.
  - apply (always_bind _ (open_downloader_session write (layout_piece_count layout) false have)); [by apply open_downloader_backed| |apply started_backed].
    intros _. apply (turns_backed _ _ verified); [|done]. intros h e. apply downloader_v2_turn_backed.
Qed.
End sessions_served.

(** ** Every request of a BEP 52 peer is answered *)

Section answered.
Context {D : Digests}.
Variables (meta : TorrentMeta) (read_block : bool -> Z -> Z -> Z -> list byte + CoreError) (write : connection) (has_complete_storage : bool).

Definition answers (m : Message) (rs : list Message) : Prop :=
  match m with
  | Interested => rs = [Unchoke]
  | Peer.Request p o length => rs = [Peer.Reject p o length] \/ exists b, rs = [Piece p o b]
  | HashRequest r => rs = [HashReject r] \/ exists hs, rs = [Hashes r hs]
  | Extended _ _ => rs = [] \/ exists id payload, rs = [Extended id payload]
  | _ => rs = []
  end.
Definition block_bytes (m : Message) : Z := match m with Piece _ _ b => len b | _ => 0 end.
Definition bytes_sent (ms : list Message) : Z := zsum block_bytes ms.

Lemma bytes_sent_nonneg ms : 0 <= bytes_sent ms.
Proof. apply zsum_nonneg. intros m _. destruct m; cbn; first [lia|apply len_nonneg]. Qed.

(** A step that sent [rs] and accounted their blocks. *)
Definition sends (rs : list Message) (s s' : Serving) : Prop :=
  out s' = out s ++ rs /\ uploaded s' = Z.min u64_max (uploaded s + bytes_sent rs).

Lemma sends_refl s : uploaded s <= u64_max -> sends [] s s.
Proof. intros Hu. split; [by rewrite app_nil_r|]. unfold bytes_sent. rewrite zsum_nil. lia. Qed.
Lemma sends_trans rs rs' s1 s2 s3 : sends rs s1 s2 -> sends rs' s2 s3 -> sends (rs ++ rs') s1 s3.
Proof.
  intros [H1 H2] [H3 H4]. split; [by rewrite H3, H1, app_assoc|]. rewrite H4, H2. unfold bytes_sent. rewrite zsum_app.
  pose proof (bytes_sent_nonneg rs). pose proof (bytes_sent_nonneg rs'). unfold bytes_sent in *. lia.
Qed.

Lemma put_Ok m s u s' : put write m s = (Ok u, s') -> s' = set_out s (out s ++ [m]).
Proof. unfold put, send. destruct (write (out s) m); [done|]. by intros [= _ <-]. Qed.

Lemma put_sends m s u s' : block_bytes m = 0 -> uploaded s <= u64_max -> put write m s = (Ok u, s') -> sends [m] s s'.
Proof.
  intros Hm Hu ->%put_Ok. split; [done|]. unfold bytes_sent. rewrite zsum_single, Hm. cbn. lia.
Qed.

Lemma learn_id_sends name id payload s u s' : uploaded s <= u64_max -> learn_id name id payload s = (Ok u, s') -> sends [] s s'.
Proof.
  intros Hu. unfold learn_id. destruct (bool_decide _); [|by intros [= _ <-]; apply sends_refl].
  destruct (parse_extension_handshake payload); try (by intros [= _ <-]; apply sends_refl); [|done..].
  intros [= _ <-]. destruct (sends_refl s Hu). by split.
Qed.

Lemma block_sends p o b s s' :
  (_ ← account (len b); put write (Piece p o b)) s = (Ok (), s') -> sends [Piece p o b] s s'.
Proof.
  intros (? & s1 & [= _ <-] & ->%put_Ok)%bind_Ok_inv. split; [done|]. unfold bytes_sent. rewrite zsum_single. done.
Qed.

Lemma serve_v2_request_sends layout have p o length s s' : uploaded s <= u64_max ->
  serve_v2_request read_block write has_complete_storage layout have p o length s = (Ok (), s') ->
  exists rs, sends rs s s' /\ (rs = [Peer.Reject p o length] \/ exists b, rs = [Piece p o b]).
Proof.
  intros Hu. unfold serve_v2_request.
  assert (put write (Peer.Reject p o length) s = (Ok (), s') ->
    exists rs, sends rs s s' /\ (rs = [Peer.Reject p o length] \/ exists b, rs = [Piece p o b])) as Hrej.
  { intros E. exists [Peer.Reject p o length]. split; [by apply put_sends in E|by left]. }
  destruct (V2.piece layout p); [|done]. intros (c & s1 & [= <- <-] & E)%bind_Ok_inv.
  cbv zeta in E. destruct (_ || _) in E; [by apply Hrej|].
  destruct (read_block _ p o length) as [b|e]; [|by apply Hrej].
  exists [Piece p o b]. split; [by apply block_sends|eauto].
Qed.

Lemma serve_v2_message_sends layout have m s s' : uploaded s <= u64_max ->
  serve_v2_message meta read_block write has_complete_storage layout have m s = (Ok (), s') ->
  exists rs, sends rs s s' /\ answers m rs.
Proof.
  intros Hu. destruct m; cbn [serve_v2_message answers];
    try (intros [= <-]; exists []; split; [by apply sends_refl|done]).
  - intros (? & s1 & E & [= <-])%bind_Ok_inv. exists [Unchoke]. apply put_sends in E; [|done..]. by split.
  - by apply serve_v2_request_sends.
  - intros (m & s1 & [= Em <-] & E)%bind_Ok_inv. apply serve_hash_request_Ok in Em as [[hs ->]| ->].
    + exists [Hashes r hs]. apply put_sends in E; [|done..]. eauto.
    + exists [HashReject r]. apply put_sends in E; [|done..]. eauto.
  - assert (forall s', (Ok (), s) = (Ok (), s') -> exists rs, sends rs s s' /\ (rs = [] \/ exists id payload, rs = [Extended id payload])) as Hnone.
    { intros s2 [= <-]. exists []. split; [by apply sends_refl|by left]. }
    destruct (bool_decide _); [intros E; exists []; split; [by apply learn_id_sends in E|by left]|].
    destruct (negb _); [apply Hnone|]. intros (i & s1 & [= <- <-] & E)%bind_Ok_inv.
    destruct (metadata_info meta); [|by apply Hnone]. destruct (remote_id s) as [i|]; [|by apply Hnone].
    apply bind_Ok_inv in E as (r & s1 & [= Er <-] & E). destruct r as [r|]; [|by apply Hnone].
    eexists. split; [by apply put_sends in E|eauto].
Qed.

(** A BEP 52 session that has not failed has answered its peer: after the opening
    messages it sent, for each message received and in their order, one rejection or one
    block for a request, one hash answer or rejection about the same range for a hash
    request, an unchoke for interest, at most one extension message for an extension
    message and nothing otherwise, and it accounted exactly the bytes of its blocks. *)
Theorem v2_requests_answered layout u bits have messages s :
  0 <= u <= u64_max ->
  serve_v2_peer_session meta read_block write has_complete_storage layout have messages (started u bits) = (Ok (), s) ->
  exists opening replies, out s = opening ++ concat replies
    /\ Forall2 (fun e rs => answers e.2 rs) messages replies
    /\ Forall (fun m => block_bytes m = 0) opening
    /\ uploaded s = Z.min u64_max (u + bytes_sent (out s)).
Proof.
  intros Hu (? & s1 & Eo & E)%bind_Ok_inv.
  assert (exists opening, sends opening (started u bits) s1 /\ Forall (fun m => block_bytes m = 0) opening) as (opening & Hs1 & Ho).
  { unfold open_v2_session in Eo. apply bind_Ok_inv in Eo as (bf & s0 & [= _ <-] & Eo).
    apply bind_Ok_inv in Eo as (? & s0 & E0 & Eo). apply put_sends in E0; [|done|cbn; lia].
    destruct (metadata_info meta) as [info|].
    - apply put_sends in Eo; [|done|destruct E0 as [_ ->]; lia]. eexists. split; [by eapply sends_trans|]. by repeat constructor.
    - injection Eo as _ <-. eexists. split; [done|]. by repeat constructor. }
  assert (uploaded s1 <= u64_max) as Hu1 by (destruct Hs1 as [_ ->]; lia).
  assert (exists replies, sends (concat replies) s1 s /\ Forall2 (fun e rs => answers e.2 rs) messages replies) as (replies & Hs & Ha).
  { clear Eo Hs1. revert s1 Hu1 E. induction messages as [|[h m] ms IH]; intros s1 Hu1 E; cbn [each] in E.
    - injection E as <-. exists []. split; [by apply sends_refl|constructor].
    - apply bind_Ok_inv in E as ([] & s2 & E1 & E). apply serve_v2_message_sends in E1 as (rs & Hrs & Ham); [|done].
      destruct (IH s2) as (replies & Hr & Hf); [destruct Hrs as [_ ->]; lia|done|].
      exists (rs :: replies). split; [by eapply sends_trans|by constructor]. }
  pose proof (sends_trans _ _ _ _ _ Hs1 Hs) as [H1 H2]. cbn [started out uploaded app] in H1, H2. exists opening, replies.
  rewrite H2, H1. done.
Qed.
End answered.

(** ** Announcements of a downloading torrent *)

Section announcements.
Context {D : Digests}.
Variables (meta : TorrentMeta) (read_block : bool -> Z -> Z -> Z -> list byte + CoreError) (write : connection).
Variables (n : Z) (initial : PieceBitfield).
Hypothesis count_ok : 0 <= n <= 2 ^ 32.

Definition have_of (m : Message) : option Z := match m with Have p => Some p | _ => None end.
Definition haves (ms : list Message) : list Z := omap have_of ms.

(** Announced are the pieces of the first bitfield and those of the messages, once each. *)
Record announced_ok (s : Serving) : Prop := {
  ao_full : full_bitfield n (announced s);
  ao_nodup : NoDup (haves (out s));
  ao_new : forall i, i ∈ haves (out s) -> 0 <= i < n /\ Storage.bf_has initial i = false;
  ao_bits : forall i, 0 <= i < n -> bhas (announced s) i = true <-> Storage.bf_has initial i = true \/ i ∈ haves (out s) }.

Lemma put_announced m : have_of m = None -> always announced_ok (put write m).
Proof.
  intros Hm s Hs. unfold put, send. destruct (write (out s) m); [done|]. cbn.
  assert (haves (out s ++ [m]) = haves (out s)) as E.
  { unfold haves. rewrite omap_app. cbn. by rewrite Hm, app_nil_r. }
  destruct Hs. split; cbn [set_out announced out]; rewrite ?E; done.
Qed.
Lemma update_announced f : (forall s, out (f s) = out s) -> (forall s, announced (f s) = announced s) -> always announced_ok (modify f).
Proof. intros Ho Ha. apply always_modify. intros s []. split; rewrite ?Ho, ?Ha; done. Qed.

(** One announcement: after it the invariant holds again. *)
Lemma announce_one p s : 0 <= p < n -> announced_ok s -> bhas (announced s) p = false ->
  exists bf, bitfield_set (announced s) p = Ok bf
    /\ announced_ok (set_announced (set_out s (out s ++ [Have (wrap 32 p)])) bf)
    /\ haves (out s ++ [Have (wrap 32 p)]) = haves (out s) ++ [p]
    /\ (forall i, 0 <= i -> bhas bf i = bhas (announced s) i || (i =? p)).
Proof.
  intros Hp [Hf Hn Hnew Hb] Hno. destruct (full_set n _ p Hp Hf) as (bf & Ebf & Hf' & Hs). exists bf. split; [done|].
  assert (haves (out s ++ [Have (wrap 32 p)]) = haves (out s) ++ [p]) as E.
  { unfold haves. rewrite omap_app. cbn. rewrite wrap_small by (unfold in_width; lia). done. }
  split; [|done]. split; cbn [set_announced set_out announced out]; rewrite ?E.
  - done.
  - apply NoDup_app. split; [done|]. split; [|apply NoDup_singleton].
    intros x Hx ->%list_elem_of_singleton. assert (bhas (announced s) p = true) by (apply Hb; [done|by right]). congruence.
  - intros i [Hi| ->%list_elem_of_singleton]%elem_of_app; [by apply Hnew|]. split; [done|].
    destruct (Storage.bf_has initial p) eqn:Ei; [|done]. assert (bhas (announced s) p = true) by (apply Hb; [done|by left]). congruence.
  - intros i Hi. rewrite Hs, orb_true_iff, Hb, Z.eqb_eq, elem_of_app, list_elem_of_singleton by (done || lia). tauto.
Qed.

Lemma announce_step_run have p ps sent s : 0 <= p < n -> announced_ok s ->
  announce_verified write have (p :: ps) sent s
  = if Storage.bf_has have p && negb (bhas (announced s) p) then
      match write (out s) (Have (wrap 32 p)) with
      | Some e => (Err e, s)
      | None => match bitfield_set (announced s) p with
                | Ok bf =>
                    let s' := set_announced (set_out s (out s ++ [Have (wrap 32 p)])) bf in
                    if (64 <=? S sent)%nat then (Ok (), s') else announce_verified write have ps (S sent) s'
                | _ => (Panic, s)
                end
      end
    else announce_verified write have ps sent s.
Proof.
  intros Hp Hs. cbn [announce_verified]. unfold mbind, handler_bind, gets, lift, modify, put, send.
  rewrite bhas_total by lia. destruct (Storage.bf_has have p && negb (bhas (announced s) p)) eqn:E; [|done].
  destruct (write (out s) _); [done|]. apply andb_true_iff in E as [_ E%negb_true_iff].
  destruct (announce_one p s Hp Hs E) as (bf & Ebf & _). cbn [set_out announced]. rewrite Ebf. by destruct (64 <=? S sent)%nat.
Qed.

Lemma announce_ok have ps sent : (forall p, p ∈ ps -> 0 <= p < n) -> always announced_ok (announce_verified write have ps sent).
Proof.
  revert sent. induction ps as [|p ps IH]; intros sent Hps; [apply always_ret|]. intros s Hs.
  assert (0 <= p < n) as Hp by (apply Hps; by left). rewrite announce_step_run by done.
  assert (forall sent, always announced_ok (announce_verified write have ps sent)) as IH'.
  { intros k. apply IH. intros q Hq. apply Hps. by right. }
  destruct (_ && _) eqn:E; [|by apply IH']. destruct (write _ _); [done|].
  apply andb_true_iff in E as [_ E%negb_true_iff]. destruct (announce_one p s Hp Hs E) as (bf & -> & Hok & _). cbv zeta.
  destruct (64 <=? S sent)%nat; [done|by apply IH'].
Qed.

(** A turn that ends well leaves every verified piece announced, or has announced 64. *)
Lemma announce_complete have ps sent s s' : (forall p, p ∈ ps -> 0 <= p < n) -> (sent < 64)%nat -> announced_ok s ->
  announce_verified write have ps sent s = (Ok (), s') ->
  (length (haves (out s')) + sent = length (haves (out s)) + 64)%nat
  \/ (forall i, 0 <= i -> bhas (announced s) i = true -> bhas (announced s') i = true)
     /\ forall p, p ∈ ps -> Storage.bf_has have p = true -> bhas (announced s') p = true.
Proof.
  revert sent s. induction ps as [|p ps IH]; intros sent s Hps Hsent Hs E.
  { injection E as <-. right. split; [done|]. by intros p ?%elem_of_nil. }
  assert (0 <= p < n) as Hp by (apply Hps; by left). rewrite announce_step_run in E by done.
  assert (forall q, q ∈ ps -> 0 <= q < n) as Hps' by (intros q Hq; apply Hps; by right).
  destruct (_ && _) eqn:Ec.
  - destruct (write _ _); [done|]. apply andb_true_iff in Ec as [_ Ec%negb_true_iff].
    destruct (announce_one p s Hp Hs Ec) as (bf & Ebf & Hok & Hh & Hb). rewrite Ebf in E. cbv zeta in E.
    destruct (Nat.leb_spec 64 (S sent)).
    + injection E as <-. left. cbn [out set_announced set_out]. rewrite Hh, length_app. cbn. lia.
    + destruct (IH (S sent) _ Hps' ltac:(lia) Hok E) as [Hl|[Hm Hv]].
      * left. cbn [out set_announced set_out] in Hl. rewrite Hh, length_app in Hl. cbn in Hl. lia.
      * right. cbn [announced set_announced] in Hm. split.
        { intros i Hi Hi'. apply Hm; [done|]. by rewrite Hb, Hi'. }
        intros q [->|Hq]%elem_of_cons Hq'; [|by apply Hv]. apply Hm; [lia|]. by rewrite Hb, Z.eqb_refl, orb_true_r by lia.
  - destruct (IH sent s Hps' Hsent Hs E) as [Hl|[Hm Hv]]; [by left|right]. split; [done|].
    intros q [->|Hq]%elem_of_cons Hq'; [|by apply Hv]. apply Hm; [lia|]. rewrite Hq' in Ec. by apply negb_false_iff in Ec.
Qed.

Lemma turns_announced turn ts :
  (forall have e, always announced_ok (turn have e)) -> always announced_ok (serve_turns write turn n ts).
Proof.
  intros Hturn. induction ts as [|t ts IH]; cbn [serve_turns]; [apply always_ret|].
  apply always_bind; [apply Hturn|]. intros [announce|]; [|apply always_ret]. apply always_bind; [|done].
  destruct announce; [|apply always_ret]. apply announce_ok. intros p Hp%elem_of_seqZ. lia.
Qed.

Lemma put_turn {A} m (r : A) : have_of m = None -> always announced_ok (_ ← put write m; mret r).
Proof. intros Hm. apply always_bind; [by apply put_announced|]. intros _. apply always_ret. Qed.

Lemma downloader_turn_announced have e : always announced_ok (downloader_turn meta read_block write have e).
Proof.
  destruct e as [[]| | | |m|]; cbn [downloader_turn]; try apply always_ret. destruct m; try apply always_ret; [by apply put_turn|].
  apply always_bind; [|intros b; apply always_ret]. unfold serve_downloader_request.
  destruct (_ || _); [apply always_ret|]. destruct (_ || _); [apply always_ret|]. destruct (read_block _ _ _ _); [|apply always_ret].
  apply always_bind; [by apply put_announced|]. intros _. apply always_bind; [by apply update_announced|]. intros _. apply always_ret.
Qed.

Lemma downloader_v2_turn_announced layout have e : always announced_ok (downloader_v2_turn read_block write layout have e).
Proof.
  destruct e as [[]| | | |m|]; cbn [downloader_v2_turn]; try apply always_ret. destruct m; try apply always_ret.
  - apply always_bind; [by apply put_announced|]. intros _. apply always_bind; [by apply update_announced|]. intros _. apply always_ret.
  - apply always_bind; [by apply update_announced|]. intros _. apply always_ret.
  - apply always_bind; [|intros b; apply always_ret]. unfold serve_downloader_v2_request.
    destruct (V2.piece layout piece); [|by apply put_turn]. apply always_bind; [apply always_gets|]. intros c. cbv zeta.
    destruct (negb _); [by apply put_turn|]. destruct (read_block _ _ _ _); [|by apply put_turn].
    apply always_bind; [by apply put_announced|]. intros _. apply always_bind; [by apply update_announced|]. intros _. apply always_ret.
Qed.

Lemma open_announced unchoke u bits : holds (fun s => s = started u bits) (open_downloader_session write n unchoke initial) announced_ok.
Proof.
  intros s ->. unfold open_downloader_session. destruct (verified_bitfield_spec n initial ltac:(lia)) as (bf & E & Hf & Hb).
  rewrite bind_run. unfold lift. rewrite E. rewrite bind_run. cbn [modify].
  apply (always_bind announced_ok (put write (encode_message bf))); [by apply put_announced| |].
  { intros _. destruct unchoke; [by apply put_announced|apply always_ret]. }
  split; cbn; [done|constructor|by intros i ?%elem_of_nil|]. intros i Hi. rewrite Hb by lia.
  rewrite (proj2 (Z.ltb_lt _ _)) by lia. cbn. split; [by left|]. intros [|?%elem_of_nil]; done.
Qed.
End announcements.

(** A downloading torrent announces each piece at most once, and only pieces that were
    not in the bitfield its session began with. *)
Theorem downloader_announces_once meta layout read_block write have turns u bits :
  meta_piece_count meta <= 2 ^ 32 -> layout_piece_count layout <= 2 ^ 32 ->
  let v1 := haves (out (serve_downloader_peer meta read_block write have turns (started u bits)).2) in
  let v2 := haves (out (serve_downloader_v2_peer read_block write layout have turns (started u bits)).2) in
  (NoDup v1 /\ forall i, i ∈ v1 -> 0 <= i < meta_piece_count meta /\ Storage.bf_has have i = false)
  /\ (NoDup v2 /\ forall i, i ∈ v2 -> 0 <= i < layout_piece_count layout /\ Storage.bf_has have i = false).
Proof.
  intros H1 H2 v1 v2. pose proof (len_nonneg (pieces meta)) as P1. pose proof (len_nonneg (layout_pieces layout)) as P2.
  assert (forall n unchoke turn, 0 <= n <= 2 ^ 32 ->
    (forall h e, always (announced_ok n have) (turn h e)) ->
    announced_ok n have (((_ ← open_downloader_session write n unchoke have; serve_turns write turn n turns) : handler Serving ()) (started u bits)).2) as Hrun.
  { intros n unchoke turn Hn Hturn. rewrite bind_run. pose proof (open_announced write n have Hn unchoke u bits _ eq_refl) as Ho.
    destruct (open_downloader_session write n unchoke have (started u bits)) as [[[]| | |] s]; [|done..].
    by apply (turns_announced write n have Hn). }
  split.
  - destruct (Hrun (meta_piece_count meta) true (downloader_turn meta read_block write)) as [_ Hn Hi _]; [by split| |by split].
    intros h e. apply downloader_turn_announced.
  - destruct (Hrun (layout_piece_count layout) false (downloader_v2_turn read_block write layout)) as [_ Hn Hi _]; [by split| |by split].
    intros h e. apply downloader_v2_turn_announced.
Qed.

(** ** Observations *)

(** The two downloading sessions treat a shutdown watch whose sender is gone differently:
    the BEP 52 session ends, the other goes on, and as the closed watch is always ready,
    its loop never waits again. *)
Lemma closed_watch_ignored meta read_block write layout have s :
  downloader_turn meta read_block write have ShutdownClosed s = (Ok (Some true), s)
  /\ downloader_v2_turn read_block write layout have ShutdownClosed s = (Ok None, s).
Proof. done. Qed.

(** A block that the connection refuses is accounted by the seeding sessions and not by
    the downloading ones. *)
Lemma refused_block_accounted block :
  let refuse : connection := fun _ _ => Some (Io "closed") in
  let meta := mkMeta ZERO Hash.Unknown [] 16384 [ZERO] [] 16384 false None [] [] None None None false None None in
  let have := mkPieceBitfield [xff] in
  let s := mkServing [] 0 false None (mkBitfield [] 0) in
  len block <= u64_max ->
  uploaded (serve_message meta (fun _ _ _ _ => inl block) refuse false have (Peer.Request 0 0 1) s).2 = len block
  /\ uploaded (downloader_turn meta (fun _ _ _ _ => inl block) refuse have (Incoming (Peer.Request 0 0 1)) s).2 = 0.
Proof.
  intros refuse meta have s Hb. split; [|done]. change (saturating_add u64_max 0 (len block) = len block).
  unfold saturating_add. lia.
Qed.

(** ** Witnesses *)

Section examples.
#[local] Existing Instance toy_digests.

Definition meta_v1 : TorrentMeta :=
  mkMeta ZERO (V1 ZERO) (bytes_of "a") 16384 [ZERO] [mkMetaFile [bytes_of "a"] 5 None] 5 false None [] [] None None None false None None.
Definition context_v1 : @PeerServeContext () := mkContext meta_v1 () (Some EncRequired).
Definition their_example : V2Handshake := mkV2Handshake (replicate 20 x00) (replicate 20 x01) RESERVED.
Definition ops_example : list (@registry_op ()) :=
  [Register (with_encryption_mode (registration_new meta_v1 ()) EncRequired)].

Lemma inbound_sessions_admitted_witness :
  let r := foldl registry_step seed_registry_default ops_example in
  exists w, Hash.as_bytes (wire_hash w) = Peer.v2_info_hash their_example
    /\ (contexts r !! context_key context_v1 = Some context_v1 /\ key_peer_info_hash (context_key context_v1) = Ok w)
    /\ (forall h, Some (mkPeerInfoHash ZERO) = Some h -> h = w)
    /\ (let mode := default EncPreferred (Some EncRequired) in
        (mode = EncRequired -> Some (mkPeerInfoHash ZERO) = Some w) /\ (mode = EncDisabled -> Some (mkPeerInfoHash ZERO) = None))
    /\ is_allowed Allowed = true /\ true = true
    /\ false = requires_v2_data_plane meta_v1
    /\ (false = true -> v2_supports_v2 their_example = Ok true).
Proof.
  apply (inbound_sessions_admitted ops_example [] EncPreferred (Some (mkPeerInfoHash ZERO)) their_example Allowed true (SeederV1 context_v1)).
  by vm_compute.
Defined.

Definition read_example : bool -> Z -> Z -> Z -> list byte + CoreError := fun _ _ _ length => inl (replicate (Z.to_nat length) x07).
Definition have_all : PieceBitfield := mkPieceBitfield [xff].
Definition messages_example : list (PieceBitfield * Message) :=
  [(have_all, Interested); (have_all, Peer.Request 0 0 5); (have_all, Peer.Request 9 0 5); (have_all, HashRequest (mkRange (Hash.as_bytes hash_a) 0 0 2 1))].
Definition layout_example : V2PieceLayout :=
  mkLayout 16384 [mkV2Piece 0 0 0 16384 20000 hash_a hash_a; mkV2Piece 1 0 16384 3616 20000 hash_a hash_b].
Definition nothing : BitfieldBits := mkBitfield [] 0.

Lemma only_verified_served_witness :
  let write : connection := fun _ _ => None in
  let turns := [mkTurn Tick have_all have_all] in
  let verified := fun p => 0 <= p in
  all_backed read_example verified (in_record meta_v1) (meta_piece_count meta_v1)
    (serve_peer_session meta_v1 read_example write false have_all messages_example (started 0 nothing)).2
  /\ all_backed read_example verified (in_v2_piece layout_example) (layout_piece_count layout_example)
    (serve_v2_peer_session meta_v1 read_example write false layout_example have_all messages_example (started 0 nothing)).2
  /\ all_backed read_example verified (in_piece meta_v1) (meta_piece_count meta_v1)
    (serve_downloader_peer meta_v1 read_example write have_all turns (started 0 nothing)).2
  /\ all_backed read_example verified (in_v2_piece layout_example) (layout_piece_count layout_example)
    (serve_downloader_v2_peer read_example write layout_example have_all turns (started 0 nothing)).2.
Proof.
  intros write turns verified.
  assert (only_verified verified have_all) as Hv.
  { intros i Hi. unfold verified. destruct (Z.le_gt_cases 0 i) as [|Hn]; [done|]. unfold Storage.bf_has, get in Hi.
    rewrite (proj2 (Z.ltb_lt (i / 8) 0)) in Hi; [done|]. apply Z.div_lt_upper_bound; lia. }
  apply (only_verified_served meta_v1 read_example write false verified); [done|by repeat constructor|by repeat constructor].
Defined.

Lemma v2_requests_answered_witness :
  exists s opening replies, (serve_v2_peer_session meta_example read_example (fun _ _ => None) false layout_example have_all messages_example (started 0 nothing)) = (Ok (), s)
    /\ out s = opening ++ concat replies
    /\ Forall2 (fun e rs => answers e.2 rs) messages_example replies
    /\ Forall (fun m => block_bytes m = 0) opening
    /\ uploaded s = Z.min u64_max (0 + bytes_sent (out s)).
Proof.
  destruct (serve_v2_peer_session meta_example read_example (fun _ _ => None) false layout_example have_all messages_example (started 0 nothing))
    as [[[]| | |] s] eqn:E; [|exfalso; apply (f_equal fst) in E; vm_compute in E; discriminate E..].
  exists s. destruct (v2_requests_answered meta_example read_example (fun _ _ => None) false layout_example 0 nothing have_all messages_example s)
    as (opening & replies & H); [by vm_compute|exact E|]. by exists opening, replies.
Defined.
End examples.
