(* ===== verification/MagnetFetch.v ===== *)
(** * Metadata of a magnet: [crates/swarmotterd/src/metadata.rs]

    A magnet names a torrent by its hash; the info dictionary comes from a peer, in pieces
    of the extension protocol (BEP 9), and for pure BEP 52 torrents the piece layers after
    it on the same connection ([PieceLayers]).  One definition per function:
    [fetch_metadata_over_stream] (the dialogue), [fetch_metadata_via_transport] and
    [fetch_metadata_with_goal] (transports and encryption), [fetch_resolved_metadata] (the
    record) and the race over candidates.

    Whatever peers send, a resolved record is executable and has the magnet's identity; and
    from a peer that runs the seeding session of [Seeding] the dialogue returns the info
    dictionary and the layers of its record. *)

From S2P Require Import Prelude Text Bencode Hash Merkle Meta MetaParse MetaCorrect ParseCorrect V2 Storage Addr PeerFilter Extensions Peer PieceCorrect Pieces Policy PieceLayers StateError Seeding.

Local Open Scope byte_scope.
Local Open Scope Z_scope.

Section fetch.
Context {D : Digests}.

(** ** The dialogue *)

Inductive MetadataHandshake : Type := HandshakeV1 (h : InfoHash) | HandshakeV2 (h : PeerInfoHash).
Inductive MetadataFetchGoal : Type := Raw | Resolved.
Record FetchedMetadata : Type := mkFetched { fetched_info : list byte; fetched_layers : list V2PieceLayer }.

Definition for_identity (identity : TorrentIdentity) : outcome MetadataHandshake :=
  match identity with
  | V1 v1 | Hybrid v1 _ => Ok (HandshakeV1 v1)
  | V2 v2 => h ← peer_info_hash v2; Ok (HandshakeV2 h)
  | Hash.Unknown => Err (InvalidArgument "magnet metadata exchange requires an explicit v1, v2, or hybrid identity")
  end.
Definition wire_info_hash (h : MetadataHandshake) : PeerInfoHash :=
  match h with HandshakeV1 h => from_v1 h | HandshakeV2 h => h end.

(** A connected stream: whether it takes our handshake, the handshake that comes back
    (within fifteen seconds), whether it takes a message and what arrives after it, and
    what arrives before the first. *)
Record PeerStream : Type := mkPeerStream {
  takes_handshake : option CoreError; their_v1 : outcome Handshake; their_v2 : outcome V2Handshake;
  takes : connection; replies : list Message -> list wait; first_messages : list wait }.

(** Our message, and what arrives after it. *)
Definition tell (st : PeerStream) (m : Message) : handler dialogue () := fun d =>
  match send (takes st) (written d) m with
  | Ok w => (Ok (), mkDialogue w (inbox d ++ replies st w))
  | Err e => (Err e, d)
  | Panic => (Panic, d)
  | OutOfFuel => (OutOfFuel, d)
  end.

(** The peer id and whether it supports extensions. *)
Definition exchange_handshakes (st : PeerStream) (h : MetadataHandshake) : outcome (list byte * bool) :=
  _ ← match takes_handshake st with None => Ok () | Some e => Err e end;
  match h with
  | HandshakeV1 info_hash =>
      remote ← their_v1 st;
      _ ← fail_if (negb (bool_decide (Peer.info_hash remote = Hash.as_bytes info_hash))) (Internal "metadata peer v1 info hash mismatch");
      ext ← supports_extensions remote;
      Ok (Peer.peer_id remote, ext)
  | HandshakeV2 wire =>
      remote ← their_v2 st;
      _ ← fail_if (negb (bool_decide (Peer.v2_info_hash remote = Hash.as_bytes (wire_hash wire)))) (Internal "metadata peer v2 wire hash mismatch");
      ext ← v2_supports_extensions remote;
      Ok (v2_peer_id remote, ext)
  end.

Definition local_metadata_id : Z := 3.
Definition our_extension_handshake : Message :=
  Extended EXTENSION_HANDSHAKE_ID (encode_extension_handshake [(UT_METADATA_NAME, local_metadata_id)] (bytes_of "SwarmOtter/0.1") None).

(** The wait for the peer's extension handshake, thirty seconds at most: its metadata id
    and the size of the metadata. *)
Fixpoint await_extensions (inbox : list wait) : outcome (option Z * option Z) * list wait :=
  match inbox with
  | [] => (Err (Internal "metadata peer timed out"), [])
  | w :: inbox' =>
      if 30000 <=? began w then (Ok (None, None), inbox)
      else
        match brings w with
        | Answers (Extended id payload) =>
            if bool_decide (id = EXTENSION_HANDSHAKE_ID) then
              match parse_extension_handshake payload with
              | Ok hs => (Ok (id_for hs UT_METADATA_NAME, metadata_size hs), inbox')
              | Err _ => (Ok (None, None), inbox')
              | Panic => (Panic, inbox')
              | OutOfFuel => (OutOfFuel, inbox')
              end
            else await_extensions inbox'
        | Answers _ => await_extensions inbox'
        | Closes | Fails _ | Elapses => (Err (Internal "metadata peer timed out"), inbox')
        end
  end.

(** The wait for one piece of the metadata. *)
Fixpoint await_piece (piece total : Z) (assembled : list byte) (inbox : list wait) : outcome (list byte) * list wait :=
  match inbox with
  | [] => (Err (Internal "metadata piece not received"), [])
  | w :: inbox' =>
      if 30000 <=? began w then (Err (Internal "metadata piece not received"), inbox)
      else
        match brings w with
        | Answers (Extended id payload) =>
            if negb (u8 id =? local_metadata_id) then await_piece piece total assembled inbox'
            else
              match parse_metadata_message payload with
              | Ok m =>
                  match msg_type m with
                  | Data =>
                      if Extensions.piece m =? piece then
                        (room ← ok_or (checked_sub total (len assembled)) (MalformedTorrent "assembled metadata exceeds advertised size");
                         _ ← fail_if (room <? len (data m)) (MalformedTorrent "metadata piece data exceeds advertised size");
                         _ ← fail_if (match total_size m with Some t => negb (t =? total) | None => false end)
                               (MalformedTorrent "metadata total_size does not match advertised");
                         Ok (assembled ++ data m), inbox')
                      else await_piece piece total assembled inbox'
                  | Extensions.Reject => (Err (Internal "metadata piece rejected by peer"), inbox')
                  | Extensions.Request => await_piece piece total assembled inbox'
                  end
              | Err _ => await_piece piece total assembled inbox'
              | Panic => (Panic, inbox')
              | OutOfFuel => (OutOfFuel, inbox')
              end
        | Answers _ => await_piece piece total assembled inbox'
        | Closes | Fails _ | Elapses => (Err (Internal "metadata piece not received"), inbox')
        end
  end.

Definition receiving {A} (f : list wait -> outcome A * list wait) : handler dialogue A := fun d =>
  let '(r, rest) := f (inbox d) in (r, mkDialogue (written d) rest).

(** [for piece in 0..pieces]. *)
Fixpoint fetch_pieces (st : PeerStream) (remote_id total : Z) (pieces : list Z) (assembled : list byte) : handler dialogue (list byte) :=
  match pieces with
  | [] => mret assembled
  | piece :: pieces =>
      piece_index ← lift (ok_or (u32_try_from piece) (MalformedTorrent "metadata piece index exceeds u32 range"));
      _ ← tell st (Extended (as_u8 remote_id) (encode_metadata_request piece_index));
      assembled ← receiving (await_piece piece total assembled);
      fetch_pieces st remote_id total pieces assembled
  end.

Definition is_pure_v2 (identity : TorrentIdentity) : bool := match identity with V2 _ => true | _ => false end.

Definition fetch_metadata_over_stream (st : PeerStream) (handshake : MetadataHandshake) (identity : TorrentIdentity)
    (goal : MetadataFetchGoal) (client_filter : list byte -> PeerAdmissionDecision) : handler dialogue FetchedMetadata :=
  '(peer, ext) ← lift (exchange_handshakes st handshake);
  _ ← lift (fail_if (negb (is_allowed (client_filter peer))) (Internal "peer rejected by admission policy"));
  _ ← lift (fail_if (negb ext) (Internal "metadata peer does not support BEP 10 extensions"));
  _ ← tell st our_extension_handshake;
  '(remote_id, size) ← receiving await_extensions;
  remote_id ← lift (ok_or remote_id (Internal "metadata peer does not support ut_metadata"));
  total ← lift (ok_or size (MalformedTorrent "metadata peer did not report metadata_size"));
  _ ← lift (fail_if (total =? 0) (MalformedTorrent "metadata size must be greater than zero"));
  _ ← lift (fail_if (MAX_TORRENT_METADATA_BYTES <? total) (MalformedTorrent "metadata size exceeds maximum"));
  assembled ← fetch_pieces st remote_id total (seqZ 0 (Z.max 1 (metadata_pieces total))) [];
  _ ← lift (fail_if (negb (len assembled =? total)) (MalformedTorrent "assembled metadata length does not match advertised"));
  _ ← lift (fail_if (negb (matches_info_bencoded identity assembled)) (MalformedTorrent "BEP 9 metadata does not match the magnet identity"));
  layers ← (match goal with
            | Resolved => if is_pure_v2 identity then fetch_v2_piece_layers (takes st) (replies st) assembled identity else mret []
            | Raw => mret []
            end);
  mret (mkFetched assembled layers).

Definition run_stream (st : PeerStream) (handshake : MetadataHandshake) (identity : TorrentIdentity) (goal : MetadataFetchGoal)
    (client_filter : list byte -> PeerAdmissionDecision) : outcome FetchedMetadata :=
  (fetch_metadata_over_stream st handshake identity goal client_filter (mkDialogue [] (first_messages st))).1.

(** ** Transports *)

Inductive PeerTransport : Type := Tcp | Utp.

Definition peer_transport_order (utp_enabled utp_prefer_tcp : bool) : list PeerTransport :=
  if negb utp_enabled then [Tcp] else if utp_prefer_tcp then [Tcp; Utp] else [Utp; Tcp].

Record MetadataFetchContext : Type := mkFetchContext {
  ctx_identity : TorrentIdentity; utp_enabled : bool; utp_prefer_tcp : bool; ctx_encryption : PeerEncryptionMode }.
Record ResolvedMagnetMetadata : Type := mkResolved { resolved_info : list byte; resolved_meta : TorrentMeta }.

Section transports.
Variable context : MetadataFetchContext.
(** Whether traffic may leave, the filter's decisions for the address and for a client id,
    a permit for an outbound session; opening a stream, for the first time and again after
    encryption failed; and negotiating encryption on it for a stream key, within ten
    seconds. *)
Variables (traffic_allowed : bool) (admit_address : PeerAdmissionDecision) (admit_client : list byte -> PeerAdmissionDecision)
  (acquire_outbound : outcome ()) (connect : PeerTransport -> bool -> outcome PeerStream) (encrypt : PeerStream -> PeerInfoHash -> outcome PeerStream).

Definition fetch_metadata_via_transport (transport : PeerTransport) (handshake : MetadataHandshake) (goal : MetadataFetchGoal)
  : outcome FetchedMetadata :=
  stream ← connect transport false;
  stream ← match ctx_encryption context with
           | EncDisabled => Ok stream
           | EncRequired => encrypt stream (wire_info_hash handshake)
           | EncPreferred =>
               match encrypt stream (wire_info_hash handshake) with
               | Ok encrypted => Ok encrypted
               | Err _ => connect transport true
               | Panic => Panic
               | OutOfFuel => OutOfFuel
               end
           end;
  run_stream stream handshake (ctx_identity context) goal admit_client.

(** [last_error] is what the loop has when no transport is left. *)
Fixpoint try_transports (transports : list PeerTransport) (handshake : MetadataHandshake) (goal : MetadataFetchGoal) (last_error : option CoreError)
  : outcome FetchedMetadata :=
  match transports with
  | [] => Err (default (Internal "no metadata transport configured") last_error)
  | t :: transports =>
      match fetch_metadata_via_transport t handshake goal with
      | Ok m => Ok m
      | Err e => try_transports transports handshake goal (Some e)
      | Panic => Panic
      | OutOfFuel => OutOfFuel
      end
  end.

Definition fetch_metadata_with_goal (goal : MetadataFetchGoal) : outcome FetchedMetadata :=
  handshake ← for_identity (ctx_identity context);
  _ ← fail_if (negb traffic_allowed) (NetworkBlocked "torrent data plane blocked; cannot fetch metadata");
  _ ← fail_if (negb (is_allowed admit_address)) (Internal "peer rejected by admission policy");
  _ ← acquire_outbound;
  try_transports (peer_transport_order (utp_enabled context) (utp_prefer_tcp context)) handshake goal None.

Definition build_meta_from_info (info_bytes : list byte) (trackers : list text) : outcome TorrentMeta :=
  parse_info_dict info_bytes trackers.

Definition fetch_resolved_metadata (trackers : list text) : outcome ResolvedMagnetMetadata :=
  fetched ← fetch_metadata_with_goal Resolved;
  meta ← match ctx_identity context with
         | V2 _ => parse_info_dict_with_piece_layers (fetched_info fetched) trackers (fetched_layers fetched)
         | V1 _ | Hybrid _ _ => build_meta_from_info (fetched_info fetched) trackers
         | Hash.Unknown => Err (InvalidArgument "magnet metadata exchange requires an explicit torrent identity")
         end;
  _ ← fail_if (negb (bool_decide (identity meta = ctx_identity context)))
        (MalformedTorrent "resolved metadata identity does not match the magnet identity");
  Ok (mkResolved (fetched_info fetched) meta).
End transports.

(** ** The race over candidates *)

Definition METADATA_CANDIDATE_CONCURRENCY : nat := 32.

(** The first occurrence of each address. *)
Fixpoint distinct (seen : gset PeerAddr) (candidates : list PeerAddr) : list PeerAddr :=
  match candidates with
  | [] => []
  | p :: candidates => if bool_decide (p ∈ seen) then distinct seen candidates else p :: distinct ({[p]} ∪ seen) candidates
  end.

Inductive race : Type := Racing (waiting running : list PeerAddr) | Won (m : ResolvedMagnetMetadata) | Lost.

(** Tasks are started while there are candidates and fewer than 32 of them run. *)
Definition fill (waiting running : list PeerAddr) : list PeerAddr * list PeerAddr :=
  let k := (METADATA_CANDIDATE_CONCURRENCY - length running)%nat in (drop k waiting, running ++ take k waiting).
Definition racing (wr : list PeerAddr * list PeerAddr) : race := match wr.2 with [] => Lost | _ => Racing wr.1 wr.2 end.
Definition race_start (candidates : list PeerAddr) : race := racing (fill (distinct ∅ candidates) []).

(** The task at a position finishes, with the result of its candidate. *)
Definition race_finish (attempt : PeerAddr -> outcome ResolvedMagnetMetadata) (i : nat) (r : race) : option race :=
  match r with
  | Racing waiting running =>
      p ← running !! i;
      Some (match attempt p with
            | Ok m => Won m
            | _ => racing (fill waiting (delete i running))
            end)
  | _ => None
  end.
End fetch.

(** ** Whatever peers send *)

Section genuine.
Context {D : Digests}.

Lemma receiving_Ok {A} (f : list wait -> outcome A * list wait) d a d' :
  receiving f d = (Ok a, d') -> exists rest, f (inbox d) = (Ok a, rest) /\ d' = mkDialogue (written d) rest.
Proof. unfold receiving. destruct (f (inbox d)) as [r rest]. intros [= -> <-]. by exists rest. Qed.

Lemma lift_Ok {S A} (m : outcome A) (s : S) a s' : lift m s = (Ok a, s') -> m = Ok a /\ s' = s.
Proof. unfold lift. by intros [= -> ->]. Qed.

Lemma run_stream_Ok st h identity goal client_filter f :
  run_stream st h identity goal client_filter = Ok f ->
  matches_info_bencoded identity (fetched_info f) = true /\ 0 < len (fetched_info f) <= MAX_TORRENT_METADATA_BYTES.
Proof.
  unfold run_stream. destruct (fetch_metadata_over_stream _ _ _ _ _ _) as [r d] eqn:E. cbn [fst]. intros ->.
  unfold fetch_metadata_over_stream in E. apply bind_Ok_inv in E as ([peer ext] & d1 & _ & E).
  apply bind_Ok_inv in E as (? & d2 & _ & E). apply bind_Ok_inv in E as (? & d3 & _ & E). apply bind_Ok_inv in E as (? & d4 & _ & E).
  apply bind_Ok_inv in E as ([ri size] & d5 & _ & E). apply bind_Ok_inv in E as (ri' & d6 & _ & E).
  apply bind_Ok_inv in E as (total & d7 & _ & E). apply bind_Ok_inv in E as ([] & d8 & [H0%fail_if_Ok%Z.eqb_neq _]%lift_Ok & E).
  apply bind_Ok_inv in E as ([] & d9 & [Hm%fail_if_Ok%Z.ltb_ge _]%lift_Ok & E). apply bind_Ok_inv in E as (a & d10 & _ & E).
  apply bind_Ok_inv in E as ([] & d11 & [Hl%fail_if_Ok%negb_false_iff%Z.eqb_eq _]%lift_Ok & E).
  apply bind_Ok_inv in E as ([] & d12 & [Hi%fail_if_Ok%negb_false_iff _]%lift_Ok & E).
  apply bind_Ok_inv in E as (layers & d13 & _ & E). injection E as <- _. cbn [fetched_info].
  split; [done|]. pose proof (len_nonneg a). lia.
Qed.

Section context.
Variables (context : MetadataFetchContext) (traffic_allowed : bool) (admit_address : PeerAdmissionDecision) (admit_client : list byte -> PeerAdmissionDecision)
  (acquire_outbound : outcome ()) (connect : PeerTransport -> bool -> outcome PeerStream) (encrypt : PeerStream -> PeerInfoHash -> outcome PeerStream).

Lemma via_transport_Ok t h goal f :
  fetch_metadata_via_transport context admit_client connect encrypt t h goal = Ok f ->
  exists st, run_stream st h (ctx_identity context) goal admit_client = Ok f
    /\ (ctx_encryption context = EncRequired -> exists plain, connect t false = Ok plain /\ encrypt plain (wire_info_hash h) = Ok st)
    /\ (ctx_encryption context = EncDisabled -> connect t false = Ok st).
Proof.
  intros (plain & Hp & E)%bind_Ok. apply bind_Ok in E as (st & Hst & E). exists st. split; [done|].
  destruct (ctx_encryption context); split; intros [=]; [congruence|by exists plain].
Qed.

Lemma try_transports_Ok ts h goal last_error f :
  try_transports context admit_client connect encrypt ts h goal last_error = Ok f ->
  exists t, t ∈ ts /\ fetch_metadata_via_transport context admit_client connect encrypt t h goal = Ok f.
Proof.
  revert last_error. induction ts as [|t ts IH]; intros last_error; cbn [try_transports]; [done|].
  destruct (fetch_metadata_via_transport _ _ _ _ _ _ _) eqn:E; try done.
  - intros [= ->]. exists t. split; [by left|done].
  - intros (t' & ? & ?)%IH. exists t'. split; [by right|done].
Qed.

(** C11: a resolved magnet is genuine, whatever the peer sent: traffic was allowed and the
    filter admitted the address, the info dictionary hashes to the magnet's identity, the
    record is executable and has that identity, a pure BEP 52 record keeps exactly these
    bytes, and a stream was used that the encryption mode allows. *)
Theorem resolved_magnet_genuine trackers r :
  fetch_resolved_metadata context traffic_allowed admit_address admit_client acquire_outbound connect encrypt trackers = Ok r ->
  traffic_allowed = true /\ is_allowed admit_address = true /\ acquire_outbound = Ok ()
  /\ matches_info_bencoded (ctx_identity context) (resolved_info r) = true
  /\ valid_meta (resolved_meta r) /\ identity (resolved_meta r) = ctx_identity context
  /\ (exists info, decode (resolved_info r) = Ok (Dict info))
  /\ (is_pure_v2 (ctx_identity context) = true -> raw_info (resolved_meta r) = Some (resolved_info r))
  /\ exists h t st goal f, for_identity (ctx_identity context) = Ok h /\ run_stream st h (ctx_identity context) goal admit_client = Ok f
    /\ fetched_info f = resolved_info r
    /\ (ctx_encryption context = EncRequired -> exists plain, connect t false = Ok plain /\ encrypt plain (wire_info_hash h) = Ok st)
    /\ (ctx_encryption context = EncDisabled -> connect t false = Ok st).
Proof.
  intros (f & Ef & E)%bind_Ok. apply bind_Ok in E as (m & Em & E).
  apply bind_Ok in E as ([] & Hid%fail_if_Ok%negb_false_iff%bool_decide_eq_true & [= <-]). cbn [resolved_info resolved_meta].
  unfold fetch_metadata_with_goal in Ef. apply bind_Ok in Ef as (h & Hh & Ef).
  apply bind_Ok in Ef as ([] & Ht%fail_if_Ok%negb_false_iff & Ef). apply bind_Ok in Ef as ([] & Ha%fail_if_Ok%negb_false_iff & Ef).
  apply bind_Ok in Ef as ([] & Hp & Ef). apply try_transports_Ok in Ef as (t & _ & Ef).
  apply via_transport_Ok in Ef as (st & Est & Henc). pose proof (run_stream_Ok _ _ _ _ _ _ Est) as [Hmatch _].
  assert (valid_meta m /\ (exists info, decode (fetched_info f) = Ok (Dict info))
    /\ (is_pure_v2 (ctx_identity context) = true -> raw_info m = Some (fetched_info f))) as (Hv & Hd & Hraw).
  { destruct (ctx_identity context); [done| | |].
    - apply info_dict_sound in Em as (? & _ & info & ? & _). split; [done|]. split; [by exists info|done].
    - apply info_dict_layers_sound in Em as (? & info & ? & (_ & ? & _) & _). split; [done|]. split; [by exists info|done].
    - apply info_dict_sound in Em as (? & _ & info & ? & _). split; [done|]. split; [by exists info|done]. }
  refine (conj Ht (conj Ha (conj Hp (conj Hmatch (conj Hv (conj Hid (conj Hd (conj Hraw _)))))))).
  exists h, t, st, Resolved, f. by repeat split; try apply Henc.
Qed.
End context.

(** Blocked traffic or a rejected address opens no stream. *)
Lemma blocked_opens_nothing context traffic_allowed admit_address admit_client acquire connect connect' encrypt encrypt' goal :
  traffic_allowed = false \/ is_allowed admit_address = false ->
  fetch_metadata_with_goal context traffic_allowed admit_address admit_client acquire connect encrypt goal
  = fetch_metadata_with_goal context traffic_allowed admit_address admit_client acquire connect' encrypt' goal.
Proof.
  intros H. unfold fetch_metadata_with_goal. destruct (for_identity _); [|done..]. rewrite !bind_ret.
  destruct traffic_allowed; [|done]. destruct H as [|H]; [done|]. by rewrite H.
Qed.
End genuine.

(** ** The race *)

Section race_proofs.
Context {D : Digests}.
Variable attempt : PeerAddr -> outcome ResolvedMagnetMetadata.

Definition failed (p : PeerAddr) : Prop := is_ok (attempt p) = false.

(** Every candidate waits, runs or has failed. *)
Definition race_ok (candidates : list PeerAddr) (r : race) : Prop :=
  match r with
  | Racing waiting running =>
      (0 < length running <= METADATA_CANDIDATE_CONCURRENCY)%nat
      /\ (waiting = [] \/ length running = METADATA_CANDIDATE_CONCURRENCY)
      /\ NoDup (waiting ++ running)
      /\ (forall p, p ∈ waiting ++ running -> p ∈ candidates)
      /\ (forall p, p ∈ candidates -> p ∈ waiting ++ running \/ failed p)
  | Won m => exists p, p ∈ candidates /\ attempt p = Ok m
  | Lost => forall p, p ∈ candidates -> failed p
  end.

(** Tasks that have not finished. *)
Definition unfinished (r : race) : nat := match r with Racing waiting running => length (waiting ++ running) | _ => 0 end.

Fixpoint race_run (finishes : list nat) (r : race) : option race :=
  match finishes with [] => Some r | i :: finishes => r ← race_finish attempt i r; race_run finishes r end.

Lemma distinct_spec seen candidates :
  NoDup (distinct seen candidates) /\ forall p, p ∈ distinct seen candidates <-> p ∈ candidates /\ p ∉ seen.
Proof.
  revert seen. induction candidates as [|q candidates IH]; intros seen; cbn [distinct].
  { split; [constructor|]. intros p. set_solver. }
  case_bool_decide as Hq.
  - destruct (IH seen) as [H1 H2]. split; [done|]. intros p. rewrite H2, elem_of_cons. naive_solver.
  - destruct (IH ({[q]} ∪ seen)) as [H1 H2]. split.
    + constructor; [|done]. rewrite H2. set_solver.
    + intros p. rewrite !elem_of_cons, H2. destruct (decide (p = q)); set_solver.
Qed.

Lemma fill_perm waiting running : (fill waiting running).1 ++ (fill waiting running).2 ≡ₚ waiting ++ running.
Proof.
  unfold fill. cbn [fst snd]. set (k := (_ - _)%nat). rewrite <- (take_drop k waiting) at 3.
  rewrite <- app_assoc, (Permutation_app_comm running). rewrite !app_assoc. apply Permutation_app_tail. apply Permutation_app_comm.
Qed.

Lemma fill_length waiting running : (length running <= METADATA_CANDIDATE_CONCURRENCY)%nat ->
  (length (fill waiting running).2 <= METADATA_CANDIDATE_CONCURRENCY)%nat
  /\ ((fill waiting running).1 = [] \/ length (fill waiting running).2 = METADATA_CANDIDATE_CONCURRENCY).
Proof.
  intros Hl. unfold fill. cbn [fst snd]. rewrite length_app, length_take. split; [lia|].
  destruct (Nat.le_gt_cases (length waiting) (METADATA_CANDIDATE_CONCURRENCY - length running)).
  - left. by apply drop_ge.
  - right. lia.
Qed.

Lemma racing_ok candidates waiting running :
  (length running <= METADATA_CANDIDATE_CONCURRENCY)%nat -> NoDup (waiting ++ running) ->
  (forall p, p ∈ waiting ++ running -> p ∈ candidates) -> (forall p, p ∈ candidates -> p ∈ waiting ++ running \/ failed p) ->
  race_ok candidates (racing (fill waiting running)) /\ (unfinished (racing (fill waiting running)) <= length (waiting ++ running))%nat.
Proof.
  intros Hl Hn Hin Hall. pose proof (fill_perm waiting running) as Hp. destruct (fill_length waiting running Hl) as [H1 H2].
  destruct (fill waiting running) as [w r]. cbn [fst snd] in *. unfold racing. cbn [fst snd]. destruct r as [|p r].
  - split; [|cbn; lia]. destruct H2 as [->|H2]; [|done]. cbn in Hp. symmetry in Hp. apply Permutation_nil_r in Hp as Hw.
    intros p Hc. destruct (Hall p Hc) as [Hx|]; [|done]. rewrite Hw in Hx. by apply elem_of_nil in Hx.
  - split; [|cbn [unfinished]; by rewrite Hp]. cbn [race_ok]. refine (conj _ (conj H2 (conj _ (conj _ _)))).
    + cbn [length] in *. lia.
    + by rewrite Hp.
    + intros q. rewrite Hp. apply Hin.
    + intros q. rewrite Hp. apply Hall.
Qed.

Lemma race_finish_ok candidates i r r' : race_ok candidates r -> race_finish attempt i r = Some r' ->
  race_ok candidates r' /\ (unfinished r' < unfinished r)%nat.
Proof.
  destruct r as [waiting running| |]; [|done..]. intros (Hl & _ & Hn & Hin & Hall). cbn [race_finish].
  destruct (running !! i) as [p|] eqn:Hi; [|done]. cbn [mbind option_bind]. intros [= <-].
  pose proof (delete_Permutation _ _ _ Hi) as Hp.
  assert (length running = S (length (delete i running))) as Hlen by (by rewrite Hp at 1).
  assert (failed p -> race_ok candidates (racing (fill waiting (delete i running)))
    /\ (unfinished (racing (fill waiting (delete i running))) < unfinished (Racing waiting running))%nat) as Hfail.
  { intros Hf. destruct (racing_ok candidates waiting (delete i running)) as [H1 H2].
    - lia.
    - rewrite Hp in Hn. rewrite <- Permutation_middle in Hn. by apply NoDup_cons in Hn as [_ ?].
    - intros q Hq. apply Hin. rewrite Hp, <- Permutation_middle. by right.
    - intros q Hq. destruct (Hall q Hq) as [Hx|]; [|by right]. rewrite Hp, <- Permutation_middle in Hx.
      apply elem_of_cons in Hx as [->|]; [by right|by left].
    - split; [done|]. cbn [unfinished]. rewrite length_app in *. lia. }
  unfold failed in Hfail. destruct (attempt p) as [m| | |] eqn:E; try by apply Hfail.
  split; [|cbn; rewrite length_app; lia]. exists p. split; [|done]. apply Hin, elem_of_app. right. by apply list_elem_of_lookup_2 with i.
Qed.

(** In whatever order the tasks finish, no address is tried twice, at most 32 are
    tried at once and as many as there are while any wait, a win is the result of a
    candidate, the race is lost only when every candidate has failed, and it ends after at
    most as many tasks as there are addresses. *)
Theorem candidate_race_exact candidates finishes r :
  race_run finishes (race_start candidates) = Some r ->
  race_ok candidates r /\ (length finishes + unfinished r <= length (distinct ∅ candidates))%nat.
Proof.
  destruct (distinct_spec ∅ candidates) as [Hn Hd].
  assert (race_ok candidates (race_start candidates) /\ (unfinished (race_start candidates) <= length (distinct ∅ candidates))%nat) as [Hok Hu].
  { unfold race_start. destruct (racing_ok candidates (distinct ∅ candidates) []) as [H1 H2]; rewrite ?app_nil_r; [cbn; lia|done| | |].
    - intros p Hp. by apply Hd in Hp as [? _].
    - intros p Hp. left. apply Hd. set_solver.
    - rewrite app_nil_r in H2. done. }
  revert Hok Hu. generalize (race_start candidates) as r0. generalize (length (distinct ∅ candidates)) as n.
  induction finishes as [|i finishes IH]; intros n r0 Hok Hu; cbn [race_run].
  { intros [= <-]. split; [done|]. cbn. lia. }
  destruct (race_finish attempt i r0) as [r1|] eqn:E; [|done]. cbn [mbind option_bind]. intros Hr.
  destruct (race_finish_ok candidates i r0 r1 Hok E) as [Hok1 Hu1]. destruct (IH (n - 1)%nat r1 Hok1 ltac:(lia) Hr) as [H1 H2].
  split; [done|]. cbn [length]. lia.
Qed.
End race_proofs.

(** ** A peer that runs the seeding session *)

Section seeder.
Context {D : Digests}.
Variables (meta : TorrentMeta) (read_block : bool -> Z -> Z -> Z -> list byte + CoreError) (has_complete_storage : bool)
  (layout : V2PieceLayout) (have : PieceBitfield) (bits : BitfieldBits).

(** The session as a peer: its opening messages, its state after the messages it has
    received, and what it sends on the last of them. *)
Definition opened : outcome () * Serving := open_v2_session meta open_connection layout have (started 0 bits).
Definition session_after (messages : list Message) : Serving :=
  foldl (fun s m => (serve_v2_message meta read_block open_connection has_complete_storage layout have m s).2) opened.2 messages.
Definition arrives (m : Message) : wait := mkWait 0 (Answers m).
Definition session_reply (written : list Message) : list wait :=
  map arrives (drop (length (out (session_after (removelast written)))) (out (session_after written))).
Definition seeder_stream (their : V2Handshake) : PeerStream :=
  mkPeerStream None (Err (Internal "v2 only")) (Ok their) open_connection session_reply (map arrives (out opened.2)).

Lemma session_after_snoc w m :
  session_after (w ++ [m]) = (serve_v2_message meta read_block open_connection has_complete_storage layout have m (session_after w)).2.
Proof. unfold session_after. by rewrite foldl_app. Qed.

Lemma session_reply_snoc w m rs :
  out (session_after (w ++ [m])) = out (session_after w) ++ rs -> session_reply (w ++ [m]) = map arrives rs.
Proof. intros E. unfold session_reply. rewrite List.removelast_last, E. by rewrite drop_app_length. Qed.

Lemma session_answers : answers_hashes meta session_reply.
Proof.
  intros w r m E. rewrite (session_reply_snoc w _ [m]); [done|]. rewrite session_after_snoc. cbn [serve_v2_message].
  rewrite bind_run. unfold lift. by rewrite E.
Qed.

(** An extension message other than the handshake keeps what the session knows. *)
Lemma learned_id_kept payload s :
  remote_id (serve_v2_message meta read_block open_connection has_complete_storage layout have (Extended (as_u8 3) payload) s).2 = remote_id s.
Proof.
  cbn [serve_v2_message]. rewrite bool_decide_false by (by vm_compute). change (negb (u8 (as_u8 3) =? LOCAL_UT_METADATA_ID)) with false.
  cbn [negb]. rewrite bind_run. cbn [gets]. destruct (metadata_info meta), (remote_id s) eqn:E; try done.
  rewrite bind_run. unfold lift. destruct (metadata_response _ _) as [[r|]| | |]; done.
Qed.

Definition our_handshake_parsed : exists hs,
  parse_extension_handshake (encode_extension_handshake [(UT_METADATA_NAME, local_metadata_id)] (bytes_of "SwarmOtter/0.1") None) = Ok hs
  /\ id_for hs UT_METADATA_NAME = Some 3.
Proof. eexists. split; [vm_compute; reflexivity|by vm_compute]. Qed.

Lemma session_learns : out (session_after [our_extension_handshake]) = out (session_after []) /\ remote_id (session_after [our_extension_handshake]) = Some 3.
Proof.
  change [our_extension_handshake] with ([] ++ [our_extension_handshake]). rewrite session_after_snoc. unfold our_extension_handshake.
  cbn [serve_v2_message]. rewrite bool_decide_true by done. unfold learn_id. rewrite bool_decide_true by done.
  destruct our_handshake_parsed as (hs & -> & Hid). cbn [modify snd set_remote_id out remote_id]. done.
Qed.

Lemma session_knows_us requests : remote_id (session_after (our_extension_handshake :: map (Extended (as_u8 3)) requests)) = Some 3.
Proof.
  induction requests as [|r requests IH] using rev_ind; [apply session_learns|].
  rewrite map_app, app_comm_cons. cbn [map]. by rewrite session_after_snoc, learned_id_kept.
Qed.

(** *** The metadata pieces *)

Variable info : list byte.
Hypothesis Hinfo : metadata_info meta = Some info.

Lemma info_bounds : 0 < len info <= MAX_TORRENT_METADATA_BYTES.
Proof.
  unfold metadata_info in Hinfo. destruct (raw_info meta) as [i|]; [|done].
  destruct (negb (len i =? 0) && (len i <=? MAX_TORRENT_METADATA_BYTES)) eqn:E; [|done]. injection Hinfo as ->.
  apply andb_true_iff in E as [H1%negb_true_iff%Z.eqb_neq H2%Z.leb_le]. pose proof (len_nonneg info). lia.
Qed.

Lemma print_dec_len n : len (print_dec n) <= 20.
Proof.
  unfold print_dec, len. assert (forall f n, (length (print_dec_fuel f n) <= f)%nat) as H; [|specialize (H 20%nat n); lia].
  induction f as [|f IH]; intros k; cbn [print_dec_fuel]; [done|]. destruct (k <? 10); [cbn; lia|].
  rewrite length_app. specialize (IH (k / 10)). cbn. lia.
Qed.

(** The length of what the encoders write, up to the numbers. *)
Ltac encoded_len :=
  rewrite !len_app;
  repeat match goal with
  | |- context [len (print_dec ?n)] => let H := fresh in pose proof (print_dec_len n) as H; revert H; generalize (len (print_dec n)); intros ? ?
  end;
  repeat match goal with
  | |- context [len (bytes_of ?s)] => let v := eval vm_compute in (len (bytes_of s)) in change (len (bytes_of s)) with v
  | |- context [len [?b]] => change (len [b]) with 1
  end.

Definition info_piece (k : Z) : list byte :=
  take (Z.to_nat (Z.min (k * METADATA_PIECE_SIZE + METADATA_PIECE_SIZE) (len info) - k * METADATA_PIECE_SIZE)) (drop (Z.to_nat (k * METADATA_PIECE_SIZE)) info).

Lemma request_parsed k : 0 <= k < 2 ^ 32 -> parse_metadata_message (encode_metadata_request k) = Ok (mkMetadata Extensions.Request k None []).
Proof.
  intros Hk. apply (metadata_message_roundtrip (mkMetadata Extensions.Request k None []) []); [by split|].
  unfold encode_metadata. cbn [msg_type Extensions.piece]. unfold encode_metadata_request, write_bytes, write_number. cbv zeta.
  encoded_len. unfold MAX_TORRENT_METADATA_BYTES. lia.
Qed.

Lemma data_parsed k bs : 0 <= k < 2 ^ 32 -> len bs <= METADATA_PIECE_SIZE ->
  parse_metadata_message (encode_metadata_data k (len info) bs) = Ok (mkMetadata Data k (Some (len info)) bs).
Proof.
  intros Hk Hb. pose proof info_bounds as Hi. apply (metadata_message_roundtrip (mkMetadata Data k (Some (len info)) bs) []).
  - split; [done|]. exists (len info). split; [done|]. unfold MAX_TORRENT_METADATA_BYTES, i64_max in *. lia.
  - unfold encode_metadata. cbn [msg_type Extensions.piece total_size data default from_option id]. unfold encode_metadata_data, write_bytes, write_number. cbv zeta.
    encoded_len. unfold METADATA_PIECE_SIZE, MAX_TORRENT_METADATA_BYTES in *. lia.
Qed.

Lemma len_info_piece k : 0 <= k -> k * METADATA_PIECE_SIZE < len info -> len (info_piece k) <= METADATA_PIECE_SIZE.
Proof. intros Hk Hl. unfold info_piece, len in *. rewrite length_take. unfold METADATA_PIECE_SIZE in *. lia. Qed.

Lemma take_info_piece k : 0 <= k -> k * METADATA_PIECE_SIZE < len info ->
  take (Z.to_nat (k * METADATA_PIECE_SIZE)) info ++ info_piece k = take (Z.to_nat ((k + 1) * METADATA_PIECE_SIZE)) info.
Proof.
  intros Hk Hl. unfold info_piece. rewrite take_take_drop. rewrite Z.mul_add_distr_r, Z.mul_1_l.
  destruct (Z.le_gt_cases (k * METADATA_PIECE_SIZE + METADATA_PIECE_SIZE) (len info)).
  - f_equal. unfold METADATA_PIECE_SIZE in *. lia.
  - unfold len in *. rewrite !take_ge; [done|..]; unfold METADATA_PIECE_SIZE in *; lia.
Qed.

Lemma response_exact k : 0 <= k < 2 ^ 32 -> k * METADATA_PIECE_SIZE < len info ->
  metadata_response info (encode_metadata_request k) = Ok (Some (encode_metadata_data k (len info) (info_piece k))).
Proof.
  intros Hk Hl. unfold metadata_response. rewrite request_parsed by done. cbn [msg_type Extensions.piece].
  rewrite (proj2 (Z.ltb_lt _ _)) by done. unfold slice. unfold METADATA_PIECE_SIZE in *.
  rewrite (proj2 (Z.leb_le 0 _)), (proj2 (Z.leb_le (k * (16 * 1024)) _)), (proj2 (Z.leb_le _ (len info))) by lia. done.
Qed.

Definition asks (requests : list (list byte)) : list Message := our_extension_handshake :: map (Extended (as_u8 3)) requests.

Lemma tell_piece their requests k : 0 <= k < 2 ^ 32 -> k * METADATA_PIECE_SIZE < len info ->
  tell (seeder_stream their) (Extended (as_u8 3) (encode_metadata_request k)) (mkDialogue (asks requests) [])
  = (Ok (), mkDialogue (asks (requests ++ [encode_metadata_request k])) [arrives (Extended (as_u8 3) (encode_metadata_data k (len info) (info_piece k)))]).
Proof.
  intros Hk Hl. unfold tell, send. cbn [seeder_stream takes replies written inbox app]. unfold open_connection at 1. cbv iota beta.
  assert (asks requests ++ [Extended (as_u8 3) (encode_metadata_request k)] = asks (requests ++ [encode_metadata_request k])) as Hw
    by (unfold asks; by rewrite map_app).
  rewrite (session_reply_snoc _ _ [Extended (as_u8 3) (encode_metadata_data k (len info) (info_piece k))]); [by rewrite Hw|].
  rewrite session_after_snoc. cbn [serve_v2_message]. rewrite bool_decide_false by (by vm_compute).
  change (negb (u8 (as_u8 3) =? LOCAL_UT_METADATA_ID)) with false. cbn [negb]. rewrite bind_run. cbn [gets].
  rewrite Hinfo. unfold asks. rewrite session_knows_us, bind_run. unfold lift. by rewrite response_exact.
Qed.

Lemma await_piece_seeder k : 0 <= k < 2 ^ 32 -> k * METADATA_PIECE_SIZE < len info ->
  await_piece k (len info) (take (Z.to_nat (k * METADATA_PIECE_SIZE)) info) [arrives (Extended (as_u8 3) (encode_metadata_data k (len info) (info_piece k)))]
  = (Ok (take (Z.to_nat ((k + 1) * METADATA_PIECE_SIZE)) info), []).
Proof.
  intros Hk Hl. cbn [await_piece arrives began brings]. change (30000 <=? 0) with false. cbv iota.
  change (u8 (as_u8 3) =? local_metadata_id) with true. cbn [negb].
  rewrite data_parsed by (done || (apply len_info_piece; lia)). cbn [msg_type Extensions.piece data total_size]. rewrite Z.eqb_refl.
  assert (len (take (Z.to_nat (k * METADATA_PIECE_SIZE)) info) + len (info_piece k) <= len info) as Hroom.
  { rewrite <- len_app, take_info_piece by lia. unfold len. rewrite length_take. lia. }
  pose proof (len_nonneg (info_piece k)). unfold checked_sub. rewrite (proj2 (Z.leb_le _ _)) by lia. ok_simpl.
  rewrite (proj2 (Z.ltb_ge _ _)) by lia. ok_simpl. rewrite Z.eqb_refl. ok_simpl. by rewrite take_info_piece by lia.
Qed.

Lemma fetch_pieces_seeder their n : forall k requests, 0 <= k -> k + Z.of_nat n <= 2 ^ 32 ->
  (k + Z.of_nat n - 1) * METADATA_PIECE_SIZE < len info ->
  exists requests', fetch_pieces (seeder_stream their) 3 (len info) (seqZ k (Z.of_nat n)) (take (Z.to_nat (k * METADATA_PIECE_SIZE)) info) (mkDialogue (asks requests) [])
    = (Ok (take (Z.to_nat ((k + Z.of_nat n) * METADATA_PIECE_SIZE)) info), mkDialogue (asks requests') []).
Proof.
  induction n as [|n IH]; intros k requests Hk H32 Hl.
  { exists requests. rewrite Z.add_0_r. done. }
  assert (k * METADATA_PIECE_SIZE < len info) as Hkl by (unfold METADATA_PIECE_SIZE in *; lia).
  destruct (IH (k + 1) (requests ++ [encode_metadata_request k])) as [requests' E]; [lia|lia|unfold METADATA_PIECE_SIZE in *; lia|].
  exists requests'. rewrite seqZ_cons by lia. cbn [fetch_pieces]. rewrite bind_run. unfold lift.
  unfold u32_try_from. rewrite (proj2 (Z.leb_le k u32_max)) by (unfold u32_max; lia). cbn [ok_or].
  rewrite bind_run, tell_piece by lia. rewrite bind_run. unfold receiving at 1. cbn [inbox written]. rewrite await_piece_seeder by lia.
  replace (Z.succ k) with (k + 1) by lia. replace (Z.pred (Z.of_nat (S n))) with (Z.of_nat n) by lia.
  rewrite E. do 3 f_equal. lia.
Qed.

(** *** The dialogue *)

Lemma seeder_handshake_parsed : exists hs,
  parse_extension_handshake (encode_extension_handshake [(UT_METADATA_NAME, LOCAL_UT_METADATA_ID)] (bytes_of "SwarmOtter/2.0") (Some (len info))) = Ok hs
  /\ id_for hs UT_METADATA_NAME = Some 3 /\ metadata_size hs = Some (len info).
Proof.
  pose proof info_bounds as Hi. pose proof (len_nonneg info).
  destruct (handshake_roundtrip [(UT_METADATA_NAME, LOCAL_UT_METADATA_ID)] (bytes_of "SwarmOtter/2.0") (Some (len info)) None [])
    as (_ & hs & E & _ & _ & Hs & _ & Hid).
  - by repeat constructor.
  - apply NoDup_singleton.
  - done.
  - by vm_compute.
  - intros n [= <-]. unfold MAX_TORRENT_METADATA_BYTES, i64_max in *. lia.
  - done.
  - unfold encode_extension_handshake_payload, write_bytes, write_number. cbn [sort_by foldl]. cbv zeta.
    change (sort_by _ [(UT_METADATA_NAME, LOCAL_UT_METADATA_ID)]) with [(UT_METADATA_NAME, LOCAL_UT_METADATA_ID)]. cbn [foldl fst snd].
    unfold UT_METADATA_NAME. encoded_len. unfold MAX_TORRENT_METADATA_BYTES. lia.
  - exists hs. split; [exact E|]. split; [apply Hid; by left|done].
Qed.

Lemma opened_Ok bf : verified_bitfield (layout_piece_count layout) have = Ok bf ->
  opened = (Ok (), mkServing [encode_message bf; Extended EXTENSION_HANDSHAKE_ID
    (encode_extension_handshake [(UT_METADATA_NAME, LOCAL_UT_METADATA_ID)] (bytes_of "SwarmOtter/2.0") (Some (len info)))] 0 true None bits).
Proof.
  intros E. unfold opened, open_v2_session. rewrite bind_run. unfold lift. rewrite E. rewrite bind_run.
  unfold put, send, open_connection. by rewrite Hinfo.
Qed.

Lemma await_extensions_seeder : await_extensions (map arrives (out opened.2)) = (Ok (Some 3, Some (len info)), []).
Proof.
  destruct (verified_bitfield_spec (layout_piece_count layout) have (len_nonneg _)) as (bf & E & _).
  rewrite (opened_Ok bf E). cbn [snd out map await_extensions arrives began brings]. change (30000 <=? 0) with false. cbv iota.
  unfold encode_message. rewrite bool_decide_true by done. destruct seeder_handshake_parsed as (hs & -> & -> & ->). done.
Qed.

Lemma exchange_seeder wire pid their : session_v2_handshake wire pid = Ok their ->
  exchange_handshakes (seeder_stream their) (HandshakeV2 wire) = Ok (pid, true).
Proof.
  intros (r & Hr & [= <-])%bind_Ok. vm_compute in Hr. injection Hr as <-.
  unfold exchange_handshakes. cbn [takes_handshake seeder_stream their_v2]. rewrite !bind_ret. cbn [Peer.v2_info_hash v2_peer_id].
  by rewrite bool_decide_true.
Qed.

Lemma tell_first their :
  tell (seeder_stream their) our_extension_handshake (mkDialogue [] (first_messages (seeder_stream their)))
  = (Ok (), mkDialogue (asks []) (map arrives (out opened.2))).
Proof.
  unfold tell, send. cbn [seeder_stream takes replies written inbox first_messages]. unfold open_connection at 1. cbv iota beta.
  change ([] ++ [our_extension_handshake]) with (asks []) at 1.
  rewrite (session_reply_snoc [] our_extension_handshake []) by (rewrite app_nil_r; apply session_learns). cbn [map]. by rewrite app_nil_r.
Qed.

(** C10: a magnet of a pure BEP 52 torrent is resolved by a peer that runs the seeding
    session on a valid, verified record: the dialogue returns the record's own info
    dictionary, and its piece layers for every file longer than a piece. *)
Theorem seeder_resolves_magnet identity wire pid their client_filter v b :
  identity = V2 (sha256 info) -> for_identity identity = Ok (HandshakeV2 wire) -> session_v2_handshake wire pid = Ok their -> is_allowed (client_filter pid) = true ->
  v2 meta = Some v -> valid_v2 v (Meta.piece_length meta) (total_length meta) -> piece_layers_verified v = true ->
  Forall (fun l => len (hashes l) <= MAX_TORRENT_PIECES) (piece_layers v) ->
  inspect_bep9_v2_info info = Ok (Some b) -> bep9_identity b = sha256 info ->
  bep9_files b = v2_files v -> bep9_piece_length b = Meta.piece_length meta ->
  exists layers, run_stream (seeder_stream their) (HandshakeV2 wire) identity Resolved client_filter = Ok (mkFetched info layers)
    /\ Forall (fun l => l ∈ piece_layers v) layers
    /\ forall f, f ∈ v2_files v -> Meta.piece_length meta < mf_length f ->
       exists l, l ∈ layers /\ Meta.pieces_root f = Some (layer_root l).
Proof.
  intros -> Hwire Htheir Hadmit Hv Hval Hver Hmax Hb Hbi Hbf Hbp. pose proof info_bounds as Hi.
  assert (exists requests', fetch_pieces (seeder_stream their) 3 (len info) (seqZ 0 (Z.max 1 (metadata_pieces (len info)))) [] (mkDialogue (asks []) [])
    = (Ok info, mkDialogue (asks requests') [])) as [requests Epieces].
  { unfold metadata_pieces. pose proof (proj1 (div_ceil_spec (len info) METADATA_PIECE_SIZE _ eq_refl) eq_refl) as Hd.
    set (n := div_ceil (len info) METADATA_PIECE_SIZE) in *.
    assert (1 <= n) as Hn by (unfold METADATA_PIECE_SIZE, MAX_TORRENT_METADATA_BYTES in *; lia).
    destruct (fetch_pieces_seeder their (Z.to_nat n) 0 []) as [requests E]; [lia|unfold METADATA_PIECE_SIZE, MAX_TORRENT_METADATA_BYTES in *; lia|unfold METADATA_PIECE_SIZE in *; lia|].
    rewrite Z2Nat.id in E by lia. exists requests. rewrite Z.max_r by lia. change (take (Z.to_nat (0 * METADATA_PIECE_SIZE)) info) with (@nil byte) in E.
    rewrite E. rewrite take_ge; [done|]. unfold METADATA_PIECE_SIZE, len in *. lia. }
  destruct (seeder_provides_layers meta session_reply session_answers info (V2 (sha256 info)) v b (asks requests)) as (layers & w & El & Hin & Hall);
    [done..|by cbn; rewrite Hbi|done|done|]. exists layers. split; [|done].
  unfold run_stream, fetch_metadata_over_stream.
  erewrite bind_run_Ok by (unfold lift; by rewrite (exchange_seeder wire pid their Htheir)). cbv beta iota.
  rewrite Hadmit. erewrite bind_run_Ok by done. erewrite bind_run_Ok by done. erewrite bind_run_Ok by apply tell_first.
  erewrite bind_run_Ok by (unfold receiving; cbn [inbox]; by rewrite await_extensions_seeder). cbv beta iota.
  erewrite bind_run_Ok by done. erewrite bind_run_Ok by done.
  erewrite bind_run_Ok by (rewrite (proj2 (Z.eqb_neq (len info) 0)) by lia; done).
  erewrite bind_run_Ok by (rewrite (proj2 (Z.ltb_ge _ (len info))) by lia; done).
  erewrite bind_run_Ok by exact Epieces. erewrite bind_run_Ok by (rewrite Z.eqb_refl; done).
  erewrite bind_run_Ok by (cbn [matches_info_bencoded]; unfold v2_from_info_bencoded; rewrite bool_decide_true by done; done).
  cbn [is_pure_v2]. by erewrite bind_run_Ok by exact El.
Qed.
End seeder.

(** ** Witnesses *)

Section examples.
#[local] Existing Instance toy_digests.

Definition example_wire : PeerInfoHash := mkPeerInfoHash (pad_array 20 (take 20 (Hash.as_bytes (sha256 info_example)))).

Lemma example_handshake : for_identity (V2 (sha256 info_example)) = Ok (HandshakeV2 example_wire).
Proof.
  unfold for_identity, peer_info_hash. destruct (slice (Hash.as_bytes (sha256 info_example)) 0 20) as [l| | |] eqn:E; [|by vm_compute in E..].
  rewrite bind_ret. assert (l = Hash.as_bytes (wire_hash example_wire)) as ->.
  { vm_compute in E. injection E as <-. by vm_compute. }
  by rewrite array_bytes.
Qed.

Lemma seeder_resolves_magnet_witness :
  exists their layers, session_v2_handshake example_wire (replicate 20 x01) = Ok their
    /\ run_stream (seeder_stream meta_example (fun _ _ _ _ => inr (Internal "no storage")) false layout_example have_all nothing their)
      (HandshakeV2 example_wire) (V2 (sha256 info_example)) Resolved (fun _ => Allowed) = Ok (mkFetched info_example layers)
    /\ Forall (fun l => l ∈ piece_layers v2_example) layers
    /\ forall f, f ∈ v2_files v2_example -> Meta.piece_length meta_example < mf_length f ->
       exists l, l ∈ layers /\ Meta.pieces_root f = Some (layer_root l).
Proof.
  eexists. assert (session_v2_handshake example_wire (replicate 20 x01) = Ok (mkV2Handshake (Hash.as_bytes (wire_hash example_wire)) (replicate 20 x01)
    [x00; x00; x00; x00; x00; x10; x00; x08])) as Ht by by vm_compute.
  destruct (seeder_resolves_magnet meta_example (fun _ _ _ _ => inr (Internal "no storage")) false layout_example have_all nothing info_example ltac:(by vm_compute)
    (V2 (sha256 info_example)) example_wire (replicate 20 x01) _ (fun _ => Allowed) v2_example bep9_example eq_refl example_handshake Ht) as (layers & H);
    [done|done|apply valid_example|done|by repeat constructor|apply inspect_example|done|done|done|].
  exists layers. split; [exact Ht|exact H].
Defined.

Lemma candidate_race_exact_witness :
  let attempt := fun p : PeerAddr => if port p =? 2 then Ok (mkResolved [] meta_example) else Err (Internal "no") in
  let candidates := [mkSocketAddr (V4 1) 1; mkSocketAddr (V4 1) 2; mkSocketAddr (V4 1) 1] in
  race_ok attempt candidates (Won (mkResolved [] meta_example))
  /\ (length [0%nat; 0%nat] + 0 <= length (distinct ∅ candidates))%nat.
Proof. intros attempt candidates. apply (candidate_race_exact attempt candidates [0%nat; 0%nat]). by vm_compute. Defined.

Definition example_context : MetadataFetchContext := mkFetchContext (V2 (sha256 info_example)) true false EncDisabled.
Local Abbreviation resolved_example :=
  (fetch_resolved_metadata example_context true Allowed (fun _ => Allowed) (Ok ())
    (fun t _ => match t with
                | Utp => Err (Internal "unreachable")
                | Tcp => Ok (seeder_stream meta_example (fun _ _ _ _ => inr (Internal "no storage")) false layout_example have_all nothing
                    (mkV2Handshake (Hash.as_bytes (wire_hash example_wire)) (replicate 20 x01) [x00; x00; x00; x00; x00; x10; x00; x08]))
                end)
    (fun st _ => Ok st) []).

Lemma resolved_magnet_genuine_witness :
  exists r, resolved_example = Ok r /\ valid_meta (resolved_meta r) /\ identity (resolved_meta r) = V2 (sha256 info_example)
    /\ raw_info (resolved_meta r) = Some (resolved_info r) /\ matches_info_bencoded (V2 (sha256 info_example)) (resolved_info r) = true.
Proof.
  destruct resolved_example as [r| | |] eqn:E; [|exfalso; vm_compute in E; discriminate E..].
  exists r. split; [done|].
  destruct (resolved_magnet_genuine example_context true Allowed (fun _ => Allowed) (Ok ()) _ _ _ _ E) as (_ & _ & _ & H1 & H2 & H3 & _ & H4 & _).
  split; [exact H2|]. split; [exact H3|]. split; [by apply H4|exact H1].
Defined.
End examples.
