(* ===== verification/FileSys.v ===== *)
(** * The file system that [std::fs] and [tokio::fs] show

    A disk is its nodes by path and the faults to come: each call takes the next fault
    and either works as the operating system documents it or breaks with an error of its
    own, a transfer of bytes after some of them.  A path is absolute and normal, as the
    list of its names; there are no concurrent users.  A second link to a file is a node
    with the same content: nothing writes while a file has two names.  Neither a regular
    file nor a directory is a [SpecialNode], on which every call but the inspection
    fails. *)

From S2P Require Import Prelude Meta StateError.

Local Open Scope Z_scope.

Abbreviation fpath := (list text).

(** [std::io::ErrorKind], as far as the source looks at it. *)
Inductive ErrorKind : Type := NotFound | AlreadyExists | OtherKind.
Inductive node : Type := FileNode (content : list byte) | DirNode | SpecialNode.
Inductive fault : Type := Works | Breaks (amount : nat).
Record disk : Type := mkDisk { nodes : gmap fpath node; faults : list fault }.
Definition set_nodes (d : disk) (m : gmap fpath node) : disk := mkDisk m (faults d).

#[export] Instance ErrorKind_eq_dec : EqDecision ErrorKind.
Proof. solve_decision. Defined.
#[export] Instance node_eq_dec : EqDecision node.
Proof. solve_decision. Defined.

(** A call returns a value or the kind of its error. *)
Abbreviation call A := (handler disk (A + ErrorKind)%type).

Definition next_fault (d : disk) : fault * disk :=
  match faults d with [] => (Works, d) | f :: fs => (f, mkDisk (nodes d) fs) end.
Definition syscall {A} (effect : gmap fpath node -> A * gmap fpath node + ErrorKind) : call A := fun d =>
  match next_fault d with
  | (Breaks _, d) => (Ok (inr OtherKind), d)
  | (Works, d) => match effect (nodes d) with
                  | inl (a, m) => (Ok (inl a), set_nodes d m)
                  | inr e => (Ok (inr e), d)
                  end
  end.

(** [?] with the conversion from [io::Error]. *)
Definition io {A} (c : call A) : handler disk A :=
  r ← c; match r with inl a => mret a | inr _ => lift (Err (Io "I/O error")) end.
(** [let _ = c.await]. *)
Definition ignore {A} (c : call A) : handler disk () := _ ← c; mret ().

(** ** Paths *)

Definition parent (p : fpath) : option fpath := match p with [] => None | _ => Some (removelast p) end.
Definition is_dir (m : gmap fpath node) (p : fpath) : bool :=
  bool_decide (p = []) || match m !! p with Some DirNode => true | _ => false end.
Definition has_parent (m : gmap fpath node) (p : fpath) : bool :=
  match parent p with Some q => is_dir m q | None => false end.
(** A path and its ancestors below the root, the shortest first. *)
Definition ancestors (p : fpath) : list fpath := map (fun k => take k p) (seq 1 (length p)).

(** ** Calls *)

Definition symlink_metadata (p : fpath) : call node :=
  syscall (fun m => match m !! p with Some n => inl (n, m) | None => inr NotFound end).

Definition hard_link (source destination : fpath) : call () :=
  syscall (fun m => match m !! destination, m !! source with
                    | Some _, _ => inr AlreadyExists
                    | None, None => inr NotFound
                    | None, Some (FileNode c) =>
                        if has_parent m destination then inl ((), <[destination := FileNode c]> m) else inr NotFound
                    | None, Some _ => inr OtherKind
                    end).

Definition remove_file (p : fpath) : call () :=
  syscall (fun m => match m !! p with
                    | None => inr NotFound
                    | Some DirNode => inr OtherKind
                    | Some _ => inl ((), delete p m)
                    end).

Definition remove_dir (p : fpath) : call () :=
  syscall (fun m => match m !! p with
                    | None => inr NotFound
                    | Some DirNode =>
                        if forallb (fun e => negb (bool_decide (parent e.1 = Some p))) (map_to_list m)
                        then inl ((), delete p m) else inr OtherKind
                    | Some _ => inr OtherKind
                    end).

(** [OpenOptions::create_new(true).write(true).open]. *)
Definition create_new (p : fpath) : call () :=
  syscall (fun m => match m !! p with
                    | Some _ => inr AlreadyExists
                    | None => if has_parent m p then inl ((), <[p := FileNode []]> m) else inr NotFound
                    end).

(** [File::open], and the length of the file it opened. *)
Definition open_file (p : fpath) : call Z :=
  syscall (fun m => match m !! p with
                    | Some (FileNode c) => inl (len c, m)
                    | Some _ => inr OtherKind
                    | None => inr NotFound
                    end).
Definition open_dir (p : fpath) : call () :=
  syscall (fun m => if is_dir m p then inl ((), m) else inr NotFound).
Definition read_all (p : fpath) : call (list byte) :=
  syscall (fun m => match m !! p with Some (FileNode c) => inl (c, m) | Some _ => inr OtherKind | None => inr NotFound end).
(** [flush], [sync_all], [set_permissions], [metadata] of an open file. *)
Definition effectless : call () := syscall (fun m => inl ((), m)).

(** The directories are made from the root on, and [false] is a file in the way. *)
Fixpoint mkdirs (ps : list fpath) (m : gmap fpath node) : bool * gmap fpath node :=
  match ps with
  | [] => (true, m)
  | p :: ps => match m !! p with
               | Some DirNode => mkdirs ps m
               | None => mkdirs ps (<[p := DirNode]> m)
               | Some _ => (false, m)
               end
  end.
Definition create_dir_all (p : fpath) : call () := fun d =>
  match next_fault d with
  | (Breaks n, d) => (Ok (inr OtherKind), set_nodes d (mkdirs (take n (ancestors p)) (nodes d)).2)
  | (Works, d) =>
      let '(made, m) := mkdirs (ancestors p) (nodes d) in
      (Ok (if made then inl () else inr OtherKind), set_nodes d m)
  end.

(** The bytes of a file after a write at an offset: a gap reads as zeros. *)
Definition overwrite (content : list byte) (offset : nat) (data : list byte) : list byte :=
  take offset (content ++ replicate (offset - length content) x00) ++ data ++ drop (offset + length data) content.
(** [write_all] at an offset of an open file. *)
Definition write_at (p : fpath) (offset : Z) (data : list byte) : call () := fun d =>
  let '(f, d) := next_fault d in
  let data' := match f with Works => data | Breaks n => take n data end in
  match nodes d !! p with
  | Some (FileNode c) =>
      (Ok (match f with Works => inl () | Breaks _ => inr OtherKind end),
       set_nodes d (<[p := FileNode (overwrite c (Z.to_nat offset) data')]> (nodes d)))
  | _ => (Ok (inr OtherKind), d)
  end.
(** [read_exact] at an offset of an open file. *)
Definition read_exact (p : fpath) (offset length : Z) : call (list byte) :=
  syscall (fun m => match m !! p with
                    | Some (FileNode c) =>
                        if offset + length <=? len c then inl (take (Z.to_nat length) (drop (Z.to_nat offset) c), m)
                        else inr OtherKind
                    | _ => inr OtherKind
                    end).
Definition set_len (p : fpath) (length : Z) : call () :=
  syscall (fun m => match m !! p with
                    | Some (FileNode c) =>
                        inl ((), <[p := FileNode (take (Z.to_nat length) (c ++ replicate (Z.to_nat length - List.length c) x00))]> m)
                    | _ => inr OtherKind
                    end).
Definition rename (source destination : fpath) : call () :=
  syscall (fun m => match m !! source, m !! destination with
                    | None, _ => inr NotFound
                    | Some (FileNode c), (None | Some (FileNode _)) =>
                        if has_parent m destination then inl ((), <[destination := FileNode c]> (delete source m)) else inr NotFound
                    | _, _ => inr OtherKind
                    end).

(** ** What the calls do *)

Definition file_at (d : disk) (p : fpath) : option (list byte) :=
  match nodes d !! p with Some (FileNode c) => Some c | _ => None end.
Definition same_file_at (d d' : disk) (p : fpath) : Prop := file_at d' p = file_at d p.

Lemma next_fault_nodes d f d' : next_fault d = (f, d') -> nodes d' = nodes d.
Proof. unfold next_fault. destruct (faults d); by intros [= <- <-]. Qed.

(** A call gives a value and its effect, or an error and none. *)
Lemma syscall_inv {A} (effect : gmap fpath node -> A * gmap fpath node + ErrorKind) d r d' : syscall effect d = (r, d') ->
  (exists a, r = Ok (inl a) /\ effect (nodes d) = inl (a, nodes d')) \/ (exists e, r = Ok (inr e) /\ nodes d' = nodes d).
Proof.
  unfold syscall. destruct (next_fault d) as [f d1] eqn:E. apply next_fault_nodes in E. rewrite <- E.
  destruct f as [|n]; [|intros [= <- <-]; right; by eexists].
  destruct (effect (nodes d1)) as [[a m]|e] eqn:Ee; intros [= <- <-]; [left|right]; by eexists.
Qed.
Lemma symlink_metadata_inv p d r d' : symlink_metadata p d = (r, d') ->
  nodes d' = nodes d /\ ((exists n, r = Ok (inl n) /\ nodes d !! p = Some n) \/ r = Ok (inr NotFound) /\ nodes d !! p = None \/ r = Ok (inr OtherKind)).
Proof.
  unfold symlink_metadata, syscall. destruct (next_fault d) as [f d1] eqn:E. apply next_fault_nodes in E. rewrite <- E.
  destruct f; [|intros [= <- <-]; auto]. destruct (nodes d1 !! p) eqn:Ep; intros [= <- <-]; split; eauto 6.
Qed.
Lemma effectless_inv d r d' : effectless d = (r, d') -> nodes d' = nodes d.
Proof. intros [(a & -> & [= _ H])|(e & -> & H)]%syscall_inv; by rewrite H. Qed.
Lemma open_dir_inv p d r d' : open_dir p d = (r, d') -> nodes d' = nodes d.
Proof. intros [(a & -> & H)|(e & -> & H)]%syscall_inv; [|done]. destruct is_dir; [by injection H|done]. Qed.
Lemma open_file_inv p d r d' : open_file p d = (r, d') ->
  nodes d' = nodes d /\ ((exists c, r = Ok (inl (len c)) /\ nodes d !! p = Some (FileNode c)) \/ exists e, r = Ok (inr e)).
Proof.
  intros [(a & -> & H)|(e & -> & H)]%syscall_inv; [|by split; [|right; exists e]].
  destruct (nodes d !! p) as [[]|]; try done. injection H as <- <-. split; [done|left]. by eexists.
Qed.
Lemma hard_link_inv s t d r d' : hard_link s t d = (r, d') ->
  (exists c, r = Ok (inl ()) /\ nodes d !! s = Some (FileNode c) /\ nodes d !! t = None /\ nodes d' = <[t := FileNode c]> (nodes d))
  \/ (exists e, r = Ok (inr e) /\ nodes d' = nodes d).
Proof.
  intros [([] & -> & H)|H]%syscall_inv; [left|by right].
  destruct (nodes d !! t) eqn:Et; [done|]. destruct (nodes d !! s) as [[c| |]|] eqn:Es; try done.
  destruct has_parent; [|done]. injection H as H. by exists c.
Qed.
Lemma remove_file_inv p d r d' : remove_file p d = (r, d') ->
  (exists n, r = Ok (inl ()) /\ nodes d !! p = Some n /\ n <> DirNode /\ nodes d' = delete p (nodes d))
  \/ (exists e, r = Ok (inr e) /\ nodes d' = nodes d).
Proof.
  intros [([] & -> & H)|H]%syscall_inv; [left|by right].
  destruct (nodes d !! p) as [[c| |]|] eqn:Ep; try done; injection H as H; by eexists.
Qed.
Lemma create_new_inv p d r d' : create_new p d = (r, d') ->
  (r = Ok (inl ()) /\ nodes d !! p = None /\ nodes d' = <[p := FileNode []]> (nodes d))
  \/ (exists e, r = Ok (inr e) /\ nodes d' = nodes d).
Proof.
  intros [([] & -> & H)|H]%syscall_inv; [left|by right].
  destruct (nodes d !! p) as [n|] eqn:Ep; [done|]. destruct has_parent; [|done]. by injection H.
Qed.
Lemma write_at_inv p o data d r d' : write_at p o data d = (r, d') ->
  (exists c, r = Ok (inl ()) /\ nodes d !! p = Some (FileNode c) /\ nodes d' = <[p := FileNode (overwrite c (Z.to_nat o) data)]> (nodes d))
  \/ (exists e, r = Ok (inr e) /\ (nodes d' = nodes d
      \/ exists c n, nodes d !! p = Some (FileNode c) /\ nodes d' = <[p := FileNode (overwrite c (Z.to_nat o) (take n data))]> (nodes d))).
Proof.
  unfold write_at. destruct (next_fault d) as [f d1] eqn:E. apply next_fault_nodes in E. rewrite E.
  destruct (nodes d !! p) as [[c| |]|] eqn:Ep.
  - destruct f as [|n]; intros [= <- <-]; [left; by exists c|right]. eexists. split; [done|right]. by exists c, n.
  - intros [= <- <-]. right. eexists. by split; [|left].
  - intros [= <- <-]. right. eexists. by split; [|left].
  - intros [= <- <-]. right. eexists. by split; [|left].
Qed.

(** Making and removing directories leaves every file alone. *)
Lemma mkdirs_files ps m p c : (mkdirs ps m).2 !! p = Some (FileNode c) <-> m !! p = Some (FileNode c).
Proof.
  revert m. induction ps as [|q ps IH]; intros m; [done|]. cbn [mkdirs].
  destruct (m !! q) as [[]|] eqn:Eq; [done| |done|]; rewrite IH; [done|].
  destruct (decide (q = p)) as [->|]; [by rewrite lookup_insert_eq, Eq|by rewrite lookup_insert_ne].
Qed.
Lemma file_at_spec d p c : file_at d p = Some c <-> nodes d !! p = Some (FileNode c).
Proof. unfold file_at. destruct (nodes d !! p) as [[]|]; split; intros H; try done; congruence. Qed.
Lemma file_at_ext d d' p : (forall c, nodes d' !! p = Some (FileNode c) <-> nodes d !! p = Some (FileNode c)) -> same_file_at d d' p.
Proof.
  intros H. unfold same_file_at. destruct (file_at d p) as [c|] eqn:E.
  - by apply file_at_spec, H, file_at_spec.
  - destruct (file_at d' p) as [c|] eqn:E'; [|done]. apply file_at_spec, H, file_at_spec in E'. congruence.
Qed.
Lemma file_at_nodes d d' p : nodes d' !! p = nodes d !! p -> same_file_at d d' p.
Proof. unfold same_file_at, file_at. by intros ->. Qed.
Lemma create_dir_all_files q d r d' p : create_dir_all q d = (r, d') -> same_file_at d d' p.
Proof.
  unfold create_dir_all. destruct (next_fault d) as [f d1] eqn:E. apply next_fault_nodes in E.
  intros H. apply file_at_ext. intros c. rewrite <- E. destruct f as [|n].
  - destruct (mkdirs (ancestors q) (nodes d1)) as [b m] eqn:Em. injection H as _ <-. cbn [set_nodes nodes].
    change m with (b, m).2. rewrite <- Em. apply mkdirs_files.
  - injection H as _ <-. cbn [set_nodes nodes]. apply mkdirs_files.
Qed.
Lemma remove_dir_files q d r d' p : remove_dir q d = (r, d') -> same_file_at d d' p.
Proof.
  intros [([] & -> & H)|(e & -> & H)]%syscall_inv; [|apply file_at_nodes; by rewrite H].
  apply file_at_ext. intros c. destruct (nodes d !! q) as [[]|] eqn:Eq; try done.
  destruct forallb; [|done]. injection H as <-.
  destruct (decide (q = p)) as [->|]; [by rewrite lookup_delete_eq, Eq|by rewrite lookup_delete_ne].
Qed.
