(* ===== verification/StorageIo.v ===== *)
(** * A torrent's storage: [crates/swarmotter-core/src/storage/io/mod.rs]

    The paths a torrent owns and the moves of its payload between directories, over the
    disk of [FileSys].  The cache of writable handles is not part of the state: a move
    begins when no handle has bytes to flush.  The copy-on-write strategy is the
    conservative one, which asks nothing of the file system; metrics and the write
    limiter change no file.  The theorems: whatever calls fail, a move loses no payload
    and overwrites no file; a move that returns has moved exactly the payload; a move
    that fails without reporting a failed rollback has put every file back. *)

From S2P Require Import Prelude Text Hash Meta MetaCorrect Intake Storage StateError FileSys.

Local Open Scope Z_scope.

(** ** Paths *)

Definition validate_component (value : text) : outcome () :=
  _ ← fail_if (bool_decide (value = [])) (Storage "empty path component");
  _ ← fail_if (bool_decide (value = bytes_of ".") || bool_decide (value = bytes_of "..")) (Storage "path component is relative traversal");
  _ ← fail_if (starts_with_byte "/" value || starts_with_byte "\" value) (Storage "path component is absolute");
  fail_if (contains_byte "/" value || contains_byte "\" value || contains_byte ":" value)
    (Storage "path component contains forbidden path characters").

Definition join (base path_components : fpath) : outcome fpath :=
  _ ← for_each validate_component path_components; Ok (base ++ path_components).

Definition starts_with (path root : fpath) : bool := bool_decide (root `prefix_of` path).
Definition paths_overlap (left right : fpath) : bool :=
  bool_decide (left = right) || starts_with left right || starts_with right left.

Definition can_pop (normalized : list Component) : bool :=
  match last normalized with Some (NormalComponent _) => true | _ => false end.
Definition has_root (normalized : list Component) : bool := match normalized with RootDir :: _ => true | _ => false end.
Definition normalize_step (normalized : list Component) (c : Component) : list Component :=
  match c with
  | CurDir => normalized
  | ParentDir =>
      if can_pop normalized then removelast normalized
      else if negb (has_root normalized) then normalized ++ [ParentDir] else normalized
  | RootDir => [RootDir]
  | NormalComponent s => normalized ++ [NormalComponent s]
  end.
Definition normalize_lexical_path (path : list Component) : list Component := foldl normalize_step [] path.

(** [Ord for Path]: names in order, each by its bytes. *)
Fixpoint name_le (a b : text) : bool :=
  match a, b with
  | [], _ => true
  | _ :: _, [] => false
  | x :: a, y :: b => (u8 x <? u8 y) || ((u8 x =? u8 y) && name_le a b)
  end.
Fixpoint path_le (p q : fpath) : bool :=
  match p, q with
  | [], _ => true
  | _ :: _, [] => false
  | x :: p, y :: q => if bool_decide (x = y) then path_le p q else name_le x y
  end.

(** ** [StorageIo] *)

Record StorageIo : Type := mkStorageIo {
  meta : TorrentMeta; torrent_key : TorrentKey; download_dir : fpath;
  partial_file_suffix : option text; resume_dir : option fpath }.
Record StoragePathOwnership : Type := mkOwnership {
  own_key : TorrentKey; base_dir : fpath; payload_paths : list fpath; own_resume_path : fpath }.

Definition storage_new (m : TorrentMeta) (dir : fpath) : StorageIo :=
  mkStorageIo m (default (KeyV1 (info_hash m)) (primary_key (identity m))) dir None None.
Definition with_resume_dir (s : StorageIo) (dir : option fpath) : StorageIo :=
  mkStorageIo (meta s) (torrent_key s) (download_dir s) (partial_file_suffix s) dir.
Definition with_torrent_key (s : StorageIo) (key : TorrentKey) : StorageIo :=
  mkStorageIo (meta s) key (download_dir s) (partial_file_suffix s) (resume_dir s).
Definition with_partial_file_suffix (s : StorageIo) (suffix : option text) : StorageIo :=
  mkStorageIo (meta s) (torrent_key s) (download_dir s) suffix (resume_dir s).

Definition file_path (s : StorageIo) (index : Z) : outcome fpath :=
  file ← ok_or (get (files (meta s)) index) (Storage "file index out of range");
  p ← join (download_dir s) (path file);
  match partial_file_suffix s with
  | None => Ok p
  | Some suffix =>
      _ ← match validate_partial_file_suffix (Some suffix) with inl _ => Ok () | inr e => Err (Storage e) end;
      name ← ok_or (last p) (Storage "payload path does not have a UTF-8 file name");
      Ok (removelast p ++ [name ++ suffix])
  end.

Definition shares_storage_root_with (s other : StorageIo) : bool := bool_decide (download_dir s = download_dir other).

Inductive MoveEntryKind : Type := Existing | CreateEmpty | Absent.
Record MovePlanEntry : Type := mkEntry { source : fpath; destination : fpath; entry_kind : MoveEntryKind }.
#[export] Instance MoveEntryKind_eq_dec : EqDecision MoveEntryKind.
Proof. solve_decision. Defined.
#[export] Instance MovePlanEntry_eq_dec : EqDecision MovePlanEntry.
Proof. solve_decision. Defined.

Section storage.
Context {X : HexCodec}.

Definition resume_path (s : StorageIo) : fpath :=
  default (download_dir s) (resume_dir s) ++ [to_locator (torrent_key s) ++ bytes_of ".swarmotter.resume"].
Definition checked_resume_path (s : StorageIo) : outcome fpath :=
  _ ← validate_component (name (meta s)); Ok (resume_path s).

Definition own_path (s : StorageIo) (payload_paths : list fpath) (index : Z) : outcome (list fpath) :=
  p ← file_path s index;
  _ ← fail_if (existsb (fun existing => paths_overlap existing p) payload_paths) (Storage "overlapping payload paths owned by torrent");
  Ok (payload_paths ++ [p]).
Definition path_ownership (s : StorageIo) : outcome StoragePathOwnership :=
  _ ← validate_component (name (meta s));
  paths ← try_fold (own_path s) [] (seqZ 0 (len (files (meta s))));
  let paths := sort_by path_le paths in
  _ ← fail_if (existsb (fun p => paths_overlap p (resume_path s)) paths)
        (Storage "payload path collides with fast-resume path for torrent");
  Ok (mkOwnership (torrent_key s) (download_dir s) paths (resume_path s)).

Definition owned (o : StoragePathOwnership) : list fpath := payload_paths o ++ [own_resume_path o].
Definition conflicts_with (a b : StoragePathOwnership) : bool :=
  if bool_decide (own_key a = own_key b) then false
  else existsb (fun p => existsb (paths_overlap p) (owned b)) (owned a).
Definition ensure_compatible_with (a b : StoragePathOwnership) : outcome () :=
  fail_if (conflicts_with a b) (Storage "storage path ownership conflict").

(** ** The plan of a move *)

Definition path_lexists (p : fpath) : handler disk bool :=
  r ← symlink_metadata p;
  match r with
  | inl _ => mret true
  | inr NotFound => mret false
  | inr _ => lift (Err (Io "I/O error"))
  end.

Definition plan_entry (s target : StorageIo) (e : Z * MetaFile) : handler disk (option MovePlanEntry) :=
  p ← lift (file_path s e.1);
  q ← lift (file_path target e.1);
  if bool_decide (p = q) then mret None
  else
    exists_ ← path_lexists q;
    _ ← lift (fail_if exists_ (Storage "destination file already exists while moving torrent data"));
    r ← symlink_metadata p;
    match r with
    | inl (FileNode c) =>
        _ ← lift (fail_if (mf_length e.2 <? len c) (Storage "source file length exceeds expected while moving torrent data"));
        mret (Some (mkEntry p q Existing))
    | inl _ => lift (Err (Storage "source payload path is not a file"))
    | inr NotFound => mret (Some (mkEntry p q (if mf_length e.2 =? 0 then CreateEmpty else Absent)))
    | inr _ => lift (Err (Io "I/O error"))
    end.
Fixpoint plan_entries (s target : StorageIo) (l : list (Z * MetaFile)) : handler disk (list MovePlanEntry) :=
  match l with
  | [] => mret []
  | e :: l =>
      entry ← plan_entry s target e;
      plan ← plan_entries s target l;
      mret (match entry with Some entry => entry :: plan | None => plan end)
  end.
Definition build_move_plan (s target : StorageIo) : handler disk (list MovePlanEntry) :=
  _ ← lift (path_ownership s);
  _ ← lift (path_ownership target);
  target_resume ← lift (checked_resume_path target);
  source_resume ← lift (checked_resume_path s);
  taken ← (if negb (bool_decide (target_resume = source_resume)) then path_lexists target_resume else mret false);
  _ ← lift (fail_if taken (Storage "destination resume file already exists while moving torrent data"));
  plan_entries s target (enumerate (files (meta s))).

(** ** Its execution *)

(** A result kept as a value. *)
Definition attempt {S A} (m : handler S A) : handler S (A + CoreError) := fun st =>
  match m st with
  | (Ok a, st) => (Ok (inl a), st)
  | (Err e, st) => (Ok (inr e), st)
  | (Panic, st) => (Panic, st)
  | (OutOfFuel, st) => (OutOfFuel, st)
  end.

Definition sync_parent_directory (p : fpath) : handler disk () :=
  match parent p with
  | None => mret ()
  | Some directory => _ ← io (open_dir directory); io effectless
  end.
Definition sync_move_entry_parents (e : MovePlanEntry) : handler disk () :=
  match entry_kind e with
  | Existing =>
      _ ← sync_parent_directory (source e);
      if negb (bool_decide (parent (source e) = parent (destination e))) then sync_parent_directory (destination e) else mret ()
  | CreateEmpty => sync_parent_directory (destination e)
  | Absent => mret ()
  end.

Definition copy_contents (from to : fpath) (expected : Z) : handler disk () :=
  content ← io (read_all from);
  _ ← io (write_at to 0 content);
  _ ← lift (fail_if (negb (len content =? expected)) (Storage "copied another number of bytes"));
  _ ← io effectless; _ ← io effectless; io effectless.
Definition copy_file_exclusive (from to : fpath) : handler disk () :=
  expected ← io (open_file from);
  _ ← io effectless;
  created ← create_new to;
  match created with
  | inr _ => lift (Err (Storage "failed to move: link failed; exclusive copy create failed"))
  | inl _ =>
      copied ← attempt (copy_contents from to expected);
      match copied with
      | inr e => _ ← ignore (remove_file to); lift (Err e)
      | inl _ =>
          removed ← remove_file from;
          match removed with
          | inl _ => mret ()
          | inr _ => _ ← ignore (remove_file to); lift (Err (Storage "copied but failed to remove source"))
          end
      end
  end.
Definition move_file_exclusive (from to : fpath) : handler disk () :=
  exists_ ← path_lexists to;
  _ ← lift (fail_if exists_ (Storage "destination file already exists"));
  linked ← hard_link from to;
  match linked with
  | inl _ =>
      removed ← remove_file from;
      match removed with
      | inl _ => mret ()
      | inr _ => _ ← ignore (remove_file to); lift (Err (Storage "failed to remove source after linking"))
      end
  | inr _ => copy_file_exclusive from to
  end.
Definition create_empty_file_exclusive (p : fpath) : handler disk () := _ ← io (create_new p); io effectless.
Definition ensure_move_path_absent (p : fpath) : handler disk () :=
  exists_ ← path_lexists p; lift (fail_if exists_ (Storage "file appeared after move preflight")).

(** The directories from one up to the bound that are empty. *)
Fixpoint cleanup_from (n : nat) (current stop_at : fpath) : handler disk () :=
  if bool_decide (current = stop_at) then mret ()
  else
    removed ← remove_dir current;
    match removed, n with
    | inl _, S n => cleanup_from n (removelast current) stop_at
    | _, _ => mret ()
    end.
Definition cleanup_empty_parents (p : option fpath) (stop_at : fpath) : handler disk () :=
  match p with None => mret () | Some current => cleanup_from (length current) current stop_at end.

Definition undo_entry (e : MovePlanEntry) : handler disk () :=
  _ ← match entry_kind e with
      | Existing => move_file_exclusive (destination e) (source e)
      | CreateEmpty =>
          r ← remove_file (destination e);
          match r with inl _ | inr NotFound => mret () | inr _ => lift (Err (Io "I/O error")) end
      | Absent => mret ()
      end;
  sync_move_entry_parents e.
(** Whether some entry could not be put back. *)
Fixpoint undo (target_root : fpath) (entries : list MovePlanEntry) : handler disk bool :=
  match entries with
  | [] => mret false
  | e :: entries =>
      r ← attempt (undo_entry e);
      _ ← cleanup_empty_parents (parent (destination e)) target_root;
      failures ← undo target_root entries;
      mret (match r with inl _ => failures | inr _ => true end)
  end.
Definition rollback_failed : CoreError := Storage "move rollback also failed".
Definition rollback_move_plan (completed : list MovePlanEntry) (target_root : fpath) (original : CoreError) : handler disk () :=
  failures ← undo target_root (rev completed);
  lift (Err (if failures : bool then rollback_failed else original)).

Definition or_rollback (completed : list MovePlanEntry) (target_root : fpath) (m : handler disk ()) : handler disk () :=
  r ← attempt m;
  match r with inl _ => mret () | inr e => rollback_move_plan completed target_root e end.
Fixpoint execute_move_plan (plan completed : list MovePlanEntry) (target_root : fpath) : handler disk () :=
  match plan with
  | [] => mret ()
  | e :: plan =>
      match entry_kind e with
      | Absent =>
          _ ← or_rollback completed target_root (ensure_move_path_absent (source e));
          _ ← or_rollback completed target_root (ensure_move_path_absent (destination e));
          execute_move_plan plan completed target_root
      | kind =>
          _ ← (if bool_decide (kind = CreateEmpty)
               then or_rollback completed target_root (ensure_move_path_absent (source e)) else mret ());
          _ ← match parent (destination e) with
              | Some p => or_rollback completed target_root (io (create_dir_all p))
              | None => mret ()
              end;
          _ ← or_rollback completed target_root
                (if bool_decide (kind = Existing) then move_file_exclusive (source e) (destination e)
                 else create_empty_file_exclusive (destination e));
          _ ← or_rollback (completed ++ [e]) target_root (sync_move_entry_parents e);
          execute_move_plan plan (completed ++ [e]) target_root
      end
  end.

Definition remove_resume (s : StorageIo) : handler disk () :=
  p ← lift (checked_resume_path s);
  r ← remove_file p;
  match r with
  | inl _ => sync_parent_directory p
  | inr NotFound => mret ()
  | inr _ => lift (Err (Storage "failed to remove resume"))
  end.

Definition cleanup_sources (s : StorageIo) (plan : list MovePlanEntry) : handler disk () :=
  each (fun e => match entry_kind e with
                 | Existing => cleanup_empty_parents (parent (source e)) (download_dir s)
                 | _ => mret ()
                 end) plan.
Definition rewrite_partial_file_suffix (s target : StorageIo) : handler disk StorageIo :=
  plan ← build_move_plan s target;
  _ ← execute_move_plan plan [] (download_dir target);
  _ ← cleanup_sources s plan;
  mret target.
Definition moved_storage (s : StorageIo) (destination_dir : fpath) (suffix : option text) : StorageIo :=
  with_partial_file_suffix (with_resume_dir (with_torrent_key (storage_new (meta s) destination_dir) (torrent_key s)) (resume_dir s)) suffix.
Definition move_to_with_partial_file_suffix (s : StorageIo) (destination_dir : fpath) (suffix : option text) : handler disk StorageIo :=
  let target := moved_storage s destination_dir suffix in
  if shares_storage_root_with s target then
    if negb (bool_decide (partial_file_suffix s = partial_file_suffix target)) then rewrite_partial_file_suffix s target
    else mret target
  else
    plan ← build_move_plan s target;
    _ ← remove_resume s;
    _ ← execute_move_plan plan [] (download_dir target);
    _ ← cleanup_sources s plan;
    mret target.
Definition move_to (s : StorageIo) (destination_dir : fpath) : handler disk StorageIo :=
  move_to_with_partial_file_suffix s destination_dir None.
Definition finalize_partial_file_suffix (s : StorageIo) : handler disk StorageIo :=
  let target := moved_storage s (download_dir s) None in
  match partial_file_suffix s with
  | None => mret target
  | Some _ => rewrite_partial_file_suffix s target
  end.

(** [remove_all]: every file, then the resume file; failures are collected. *)
Fixpoint remove_files (s : StorageIo) (indices : list Z) : handler disk bool :=
  match indices with
  | [] => mret false
  | i :: indices =>
      p ← lift (file_path s i);
      r ← remove_file p;
      _ ← match r with
          | inl _ | inr NotFound => cleanup_empty_parents (parent p) (download_dir s)
          | inr _ => mret ()
          end;
      failures ← remove_files s indices;
      mret (match r with inl _ | inr NotFound => failures | inr _ => true end)
  end.
Definition remove_all (s : StorageIo) : handler disk () :=
  failures ← remove_files s (seqZ 0 (len (files (meta s))));
  r ← attempt (remove_resume s);
  lift (fail_if (failures || match r with inl _ => false | inr _ => true end) (Storage "failed to remove all torrent data")).
End storage.
