(* ===== verification/StorageMove.v ===== *)
(** * Moves of a payload lose nothing

    The theorems on the moves of [StorageIo].  Every call of the operating system may
    fail, at any point and any number of times. *)

From S2P Require Import Prelude Text Hash Meta MetaCorrect Intake Storage StateError FileSys StorageIo.

Local Open Scope Z_scope.

(** ** One file *)

(** Split the first step of a run. *)
Ltac run_step H := rewrite bind_run in H;
  match type of H with (match ?m with _ => _ end) = _ => let E := fresh "E" in destruct m as [[?a|?e| |] ?d] eqn:E end.

Lemma io_inv {A} (c : call A) d r d' : io c d = (r, d') ->
  (exists a, c d = (Ok (inl a), d') /\ r = Ok a) \/ (exists k, c d = (Ok (inr k), d') /\ r = Err (Io "I/O error"))
  \/ (c d = (Panic, d') /\ r = Panic) \/ (c d = (OutOfFuel, d') /\ r = OutOfFuel) \/ exists e, c d = (Err e, d') /\ r = Err e.
Proof.
  unfold io. intros H. run_step H; [|injection H as <- <-; eauto 7..].
  destruct a as [a|k]; injection H as <- <-; [left; by exists a|right; left; by exists k].
Qed.
(** System calls neither fail nor panic outside their value. *)
Lemma io_syscall_inv {A} effect d r d' : io (syscall effect : call A) d = (r, d') ->
  (exists a, r = Ok a /\ effect (nodes d) = inl (a, nodes d')) \/ (exists e, r = Err e /\ nodes d' = nodes d).
Proof.
  intros [(a & H & ->)|[(k & H & ->)|[(H & ->)|[(H & ->)|(e & H & ->)]]]]%io_inv; apply syscall_inv in H as [(b & Hb & Ee)|(k' & Hb & Ee)]; try done.
  - injection Hb as <-. left. by exists a.
  - right. by eexists.
Qed.
Lemma io_effectless_inv d r d' : io effectless d = (r, d') -> nodes d' = nodes d /\ (r = Ok () \/ exists e, r = Err e).
Proof. intros [([] & -> & [= H])|(e & -> & H)]%io_syscall_inv; rewrite H; split; eauto. Qed.
Lemma path_lexists_inv p d r d' : path_lexists p d = (r, d') ->
  nodes d' = nodes d /\ (r = Ok true /\ is_Some (nodes d !! p) \/ r = Ok false /\ nodes d !! p = None \/ exists e, r = Err e).
Proof.
  unfold path_lexists. intros H. rewrite bind_run in H. destruct (symlink_metadata p d) as [x d1] eqn:E.
  apply symlink_metadata_inv in E as [Hn [(n & -> & Hp)|[[-> Hp]| ->]]]; injection H as <- <-; (split; [done|]); eauto 6.
Qed.

(** Removing what was just created. *)
Lemma uncreate_inv m p g d r d' : m !! p = None -> nodes d = <[p := FileNode g]> m -> ignore (remove_file p) d = (r, d') ->
  r = Ok () /\ (nodes d' = m \/ nodes d' = <[p := FileNode g]> m).
Proof.
  intros Hp Hd H. unfold ignore in H. rewrite bind_run in H. destruct (remove_file p d) as [x d1] eqn:E.
  apply remove_file_inv in E as [(n & -> & _ & _ & Hn)|(e & -> & Hn)]; injection H as <- <-; (split; [done|]).
  - left. by rewrite Hn, Hd, delete_insert_id.
  - right. by rewrite Hn.
Qed.

(** A step that made a new file, or something like it, and then failed. *)
Definition failed_move (d d' : disk) (to : fpath) : Prop :=
  nodes d' = nodes d \/ nodes d !! to = None /\ exists g, nodes d' = <[to := FileNode g]> (nodes d).

Lemma write_new_inv m p c d r d' : m !! p = None -> nodes d = <[p := FileNode []]> m -> io (write_at p 0 c) d = (r, d') ->
  (r = Ok () /\ nodes d' = <[p := FileNode c]> m) \/ (exists e g, r = Err e /\ nodes d' = <[p := FileNode g]> m).
Proof.
  intros Hp Hd H. unfold io in H. rewrite bind_run in H. destruct (write_at p 0 c d) as [x d1] eqn:E.
  apply write_at_inv in E as [(c0 & -> & Hc & Hn)|(e & -> & Hn)]; injection H as <- <-.
  - left. split; [done|]. rewrite Hd, lookup_insert_eq in Hc. injection Hc as <-.
    rewrite Hn, Hd, insert_insert_eq. f_equal. f_equal. unfold overwrite. cbn. by rewrite drop_nil, app_nil_r.
  - right. destruct Hn as [Hn|(c0 & n & _ & Hn)]; rewrite Hn, Hd, ?insert_insert_eq; by eexists _, _.
Qed.

(** A handler that changes no node, and returns or fails. *)
Definition quiet {A} (m : handler disk A) : Prop :=
  forall d r d', m d = (r, d') -> nodes d' = nodes d /\ ((exists a, r = Ok a) \/ exists e, r = Err e).
Lemma quiet_ret {A} (a : A) : quiet (mret a).
Proof. intros d r d' [= <- <-]. split; [done|left; by eexists]. Qed.
Lemma quiet_bind {A B} (m : handler disk A) (k : A -> handler disk B) : quiet m -> (forall a, quiet (k a)) -> quiet (m ≫= k).
Proof.
  intros Hm Hk d r d' H. rewrite bind_run in H. destruct (m d) as [x d1] eqn:E. apply Hm in E as [E [[a ->]|[e ->]]].
  - rewrite <- E. by apply (Hk a).
  - injection H as <- <-. split; [done|right; by eexists].
Qed.
Lemma quiet_fail_if b e : quiet (lift (fail_if b e)).
Proof. intros d r d' [= <- <-]. split; [done|]. destruct b; eauto. Qed.
Lemma quiet_effectless : quiet (io effectless).
Proof. intros d r d' [? [->| ?]]%io_effectless_inv; eauto. Qed.
Lemma quiet_open_dir p : quiet (io (open_dir p)).
Proof.
  intros d r d' [(a & -> & H)|(e & -> & H)]%io_syscall_inv; [|eauto].
  destruct is_dir; [injection H as <-|done]. eauto.
Qed.
Lemma quiet_sync p : quiet (sync_parent_directory p).
Proof.
  unfold sync_parent_directory. destruct (parent p); [|apply quiet_ret].
  apply quiet_bind; [apply quiet_open_dir|]. intros _. apply quiet_effectless.
Qed.
Lemma quiet_sync_entry e : quiet (sync_move_entry_parents e).
Proof.
  unfold sync_move_entry_parents. destruct (entry_kind e); [|apply quiet_sync|apply quiet_ret].
  apply quiet_bind; [apply quiet_sync|]. intros _. case_match; [apply quiet_sync|apply quiet_ret].
Qed.
Lemma quiet_lexists p : quiet (path_lexists p).
Proof. intros d r d' [Hn H]%path_lexists_inv. split; [done|]. destruct H as [[-> _]|[[-> _]|[e ->]]]; eauto. Qed.
Lemma quiet_absent p : quiet (ensure_move_path_absent p).
Proof. apply quiet_bind; [apply quiet_lexists|]. intros b. apply quiet_fail_if. Qed.

Lemma copy_contents_inv m from to c k d r d' : from <> to -> m !! to = None -> m !! from = Some (FileNode c) ->
  nodes d = <[to := FileNode []]> m -> copy_contents from to k d = (r, d') ->
  (r = Ok () /\ nodes d' = <[to := FileNode c]> m) \/ (exists e g, r = Err e /\ nodes d' = <[to := FileNode g]> m).
Proof.
  intros Hne Hto Hfrom Hd H. unfold copy_contents in H. run_step H; apply io_syscall_inv in E as [(c' & Hr & E)|(e' & Hr & E)]; try done.
  2:{ injection Hr as <-. injection H as <- <-. right. eexists _, _. split; [done|]. by rewrite E, Hd. }
  injection Hr as <-. rewrite Hd, lookup_insert_ne, Hfrom in E by done. injection E as <- E. symmetry in E.
  run_step H; apply (write_new_inv m) in E0; try done; destruct E0 as [[Hr E0]|(e' & g & Hr & E0)]; try done.
  2:{ injection Hr as <-. injection H as <- <-. right. by exists e, g. }
  clear Hr. rewrite <- E0.
  assert (nodes d' = nodes d1 /\ ((exists a, r = Ok a) \/ exists e, r = Err e)) as [-> [[[] ->]|[e ->]]].
  { revert H. apply quiet_bind; [apply quiet_fail_if|]. intros _. do 2 (apply quiet_bind; [apply quiet_effectless|intros _]). apply quiet_effectless. }
  - by left.
  - right. by exists e, c.
Qed.

Lemma copy_file_inv from to d r d' : from <> to -> nodes d !! to = None -> copy_file_exclusive from to d = (r, d') ->
  (exists c, r = Ok () /\ nodes d !! from = Some (FileNode c) /\ nodes d' = delete from (<[to := FileNode c]> (nodes d)))
  \/ (exists e, r = Err e /\ failed_move d d' to).
Proof.
  intros Hne Hto H. unfold copy_file_exclusive in H.
  run_step H; apply io_syscall_inv in E as [(k & Hr & E)|(e' & Hr & E)]; try done.
  2:{ injection Hr as <-. injection H as <- <-. right. exists e. split; [done|by left]. }
  destruct (nodes d !! from) as [[c| |]|] eqn:Ef; try done. injection E as _ E. injection Hr as _.
  run_step H; apply io_effectless_inv in E0 as [E0 [Hr|[e' Hr]]]; try done.
  2:{ injection Hr as <-. injection H as <- <-. right. exists e. split; [done|left]. congruence. }
  rewrite bind_run in H. destruct (create_new to d1) as [x d2] eqn:E1.
  apply create_new_inv in E1 as [(-> & _ & E1)|(e & -> & E1)]; rewrite E0, <- E in E1.
  2:{ injection H as <- <-. right. eexists. split; [done|by left]. }
  rewrite bind_run in H. unfold attempt in H. destruct (copy_contents from to a d2) as [x d3] eqn:E2.
  apply (copy_contents_inv (nodes d) from to c) in E2 as [[-> E2]|(e & g & -> & E2)]; try done.
  - rewrite bind_run in H. destruct (remove_file from d3) as [x d4] eqn:E3.
    apply remove_file_inv in E3 as [(n & -> & _ & _ & E3)|(e & -> & E3)]; rewrite E2 in E3.
    + injection H as <- <-. left. by exists c.
    + rewrite bind_run in H. destruct (ignore (remove_file to) d4) as [x d5] eqn:E4.
      apply (uncreate_inv (nodes d) to c) in E4 as [-> E4]; try done. injection H as <- <-.
      right. eexists. split; [done|]. destruct E4; [by left|right]. split; [done|by eexists].
  - rewrite bind_run in H. destruct (ignore (remove_file to) d3) as [x d4] eqn:E3.
    apply (uncreate_inv (nodes d) to g) in E3 as [-> E3]; try done. injection H as <- <-.
    right. eexists. split; [done|]. destruct E3; [by left|right]. split; [done|by eexists].
Qed.

(** A file is moved, or it stays and the destination is free or its remains. *)
Lemma move_file_inv from to d r d' : from <> to -> move_file_exclusive from to d = (r, d') ->
  (exists c, r = Ok () /\ nodes d !! to = None /\ nodes d !! from = Some (FileNode c) /\ nodes d' = delete from (<[to := FileNode c]> (nodes d)))
  \/ (exists e, r = Err e /\ failed_move d d' to).
Proof.
  intros Hne H. unfold move_file_exclusive in H.
  run_step H; apply path_lexists_inv in E as [E [[Hr Hx]|[[Hr Hx]|[e' Hr]]]]; try done; injection Hr as ->.
  - injection H as <- <-. right. eexists. split; [done|by left].
  - cbn in H. rewrite bind_run in H. cbn in H. rewrite bind_run in H. destruct (hard_link from to d0) as [x d1] eqn:E1.
    apply hard_link_inv in E1 as [(c & -> & Hc & _ & E1)|(e & -> & E1)]; rewrite E in *.
    + rewrite bind_run in H. destruct (remove_file from d1) as [x d2] eqn:E2.
      apply remove_file_inv in E2 as [(n & -> & _ & _ & E2)|(e & -> & E2)]; rewrite E1 in E2.
      * injection H as <- <-. left. by exists c.
      * rewrite bind_run in H. destruct (ignore (remove_file to) d2) as [x d3] eqn:E3.
        apply (uncreate_inv (nodes d) to c) in E3 as [-> E3]; try done. injection H as <- <-.
        right. eexists. split; [done|]. destruct E3; [by left|right]. split; [done|by eexists].
    + apply copy_file_inv in H as [(c & -> & Hc & Hn)|(e' & -> & Hn)]; [| |done|by rewrite E1].
      * left. exists c. by rewrite E1 in *.
      * right. exists e'. split; [done|]. unfold failed_move in *. by rewrite E1 in *.
  - injection H as <- <-. right. eexists. split; [done|by left].
Qed.

(** ** A plan *)

Record plan_ok (m : gmap fpath node) (plan : list MovePlanEntry) : Prop := {
  plan_destinations : NoDup (destination <$> plan);
  plan_sources : NoDup (source <$> plan);
  plan_differ : forall e, e ∈ plan -> source e <> destination e;
  plan_free : forall e, e ∈ plan -> m !! destination e = None;
  plan_existing : forall e, e ∈ plan -> entry_kind e = Existing -> exists c, m !! source e = Some (FileNode c) }.

(** Every file of the plan is at its source or at its destination, and every other file is
    as it was. *)
Record conserved (d0 : disk) (plan : list MovePlanEntry) (d : disk) : Prop := {
  payload_kept : forall e c, e ∈ plan -> entry_kind e = Existing -> file_at d0 (source e) = Some c ->
    file_at d (source e) = Some c \/ file_at d (destination e) = Some c;
  others_kept : forall p, p ∉ destination <$> plan -> (forall e, e ∈ plan -> entry_kind e = Existing -> p <> source e) ->
    same_file_at d0 d p }.

Lemma NoDup_fmap_eq {A B} (f : A -> B) l a b : NoDup (f <$> l) -> a ∈ l -> b ∈ l -> f a = f b -> a = b.
Proof.
  intros Hn [i Hi]%list_elem_of_lookup [j Hj]%list_elem_of_lookup E.
  assert (i = j) as ->; [|congruence].
  apply (NoDup_lookup (f <$> l) i j (f a)); [done|by rewrite list_lookup_fmap, Hi|by rewrite list_lookup_fmap, Hj, E].
Qed.

Section plan.
Context {X : HexCodec}.
Variables (d0 : disk) (plan : list MovePlanEntry).
Hypothesis Hplan : plan_ok (nodes d0) plan.

Lemma existing_free e e' : e ∈ plan -> entry_kind e = Existing -> e' ∈ plan -> source e <> destination e'.
Proof.
  intros He Hk He' E. destruct (plan_existing _ _ Hplan e He Hk) as [c Hc].
  rewrite E, (plan_free _ _ Hplan e' He') in Hc. done.
Qed.
Lemma destination_inj e e' : e ∈ plan -> e' ∈ plan -> destination e = destination e' -> e = e'.
Proof. apply NoDup_fmap_eq, Hplan. Qed.
Lemma source_inj e e' : e ∈ plan -> e' ∈ plan -> source e = source e' -> e = e'.
Proof. apply NoDup_fmap_eq, Hplan. Qed.

(** A change at the two paths of an entry that keeps its file at one of them. *)
Lemma conserved_step e d d' : e ∈ plan -> conserved d0 plan d ->
  (forall p, p <> destination e -> (entry_kind e = Existing -> p <> source e) -> same_file_at d d' p) ->
  (entry_kind e = Existing -> forall c, file_at d (source e) = Some c \/ file_at d (destination e) = Some c ->
     file_at d0 (source e) = Some c -> file_at d' (source e) = Some c \/ file_at d' (destination e) = Some c) ->
  conserved d0 plan d'.
Proof.
  intros He [Hp Ho] Hsame Hkept. split.
  - intros e' c He' Hk Hc. destruct (decide (e' = e)) as [->|Hne]; [by apply Hkept, Hc; [|apply Hp]|].
    destruct (Hp e' c He' Hk Hc) as [H|H]; [left|right]; rewrite Hsame; try done.
    + by apply existing_free.
    + intros _. by intros ?%source_inj.
    + by intros ?%destination_inj.
    + intros Hk' E. by apply (existing_free e e').
  - intros p Hd Hs. etransitivity; [|by apply Ho]. apply Hsame.
    + intros ->. apply Hd, list_elem_of_fmap. by exists e.
    + intros Hk. by apply Hs.
Qed.

Lemma conserved_same d d' : conserved d0 plan d -> (forall p, same_file_at d d' p) -> conserved d0 plan d'.
Proof.
  intros [Hp Ho] Hsame. split.
  - intros e c He Hk Hc. rewrite !Hsame. by apply Hp.
  - intros p Hd Hs. etransitivity; [apply Hsame|by apply Ho].
Qed.
Lemma conserved_quiet {A} (m : handler disk A) : quiet m -> always (conserved d0 plan) m.
Proof.
  intros Hm d Hd. destruct (m d) as [r d'] eqn:E. apply Hm in E as [E _]. cbn. eapply conserved_same; [done|].
  intros p. apply file_at_nodes. by rewrite E.
Qed.
Lemma conserved_attempt {A} (m : handler disk A) : always (conserved d0 plan) m -> always (conserved d0 plan) (attempt m).
Proof. intros Hm d Hd. unfold attempt. specialize (Hm d Hd). by destruct (m d) as [[]]. Qed.

Lemma file_at_insert d d' p q n : nodes d' = <[p := n]> (nodes d) -> q <> p -> same_file_at d d' q.
Proof. intros E Hne. apply file_at_nodes. by rewrite E, lookup_insert_ne. Qed.

Lemma conserved_move e from to : e ∈ plan -> entry_kind e = Existing ->
  from = source e /\ to = destination e \/ from = destination e /\ to = source e ->
  always (conserved d0 plan) (move_file_exclusive from to).
Proof.
  intros He Hk Hft d Hd. destruct (move_file_exclusive from to d) as [r d'] eqn:E. cbn [snd].
  assert (from <> to) as Hne by (pose proof (plan_differ _ _ Hplan e He); destruct Hft as [[-> ->]|[-> ->]]; congruence).
  assert (forall p, p <> destination e -> (entry_kind e = Existing -> p <> source e) -> p <> from /\ p <> to) as Hoff.
  { intros p H1 H2. specialize (H2 Hk). destruct Hft as [[-> ->]|[-> ->]]; done. }
  apply move_file_inv in E as [(c & -> & Hto & Hfrom & Hn)|(x & -> & [Hn|(Hto & g & Hn)])]; [| | |done].
  - apply (conserved_step e d); [done|done|..].
    + intros p H1 H2. destruct (Hoff p H1 H2). apply file_at_nodes. by rewrite Hn, lookup_delete_ne, lookup_insert_ne.
    + intros _ c' Hc' _. assert (file_at d' to = Some c) as Hc.
      { apply file_at_spec. by rewrite Hn, lookup_delete_ne, lookup_insert_eq. }
      unfold file_at in Hc'. destruct Hft as [[-> ->]|[-> ->]]; rewrite Hto, Hfrom in Hc'; destruct Hc'; simplify_eq; auto.
  - apply (conserved_same d); [done|]. intros p. apply file_at_nodes. by rewrite Hn.
  - apply (conserved_step e d); [done|done|..].
    + intros p H1 H2. destruct (Hoff p H1 H2). by apply (file_at_insert d d' to p (FileNode g)).
    + intros _ c' Hc' _. assert (same_file_at d d' from) as Hs by by apply (file_at_insert d d' to from (FileNode g)).
      unfold same_file_at in Hs.
      destruct Hft as [[-> ->]|[-> ->]]; rewrite Hs; destruct Hc' as [Hc'|Hc']; auto; apply file_at_spec in Hc'; congruence.
Qed.

(** Changes at the destination of a file that has no source. *)
Lemma conserved_new e d d' : e ∈ plan -> entry_kind e <> Existing -> conserved d0 plan d ->
  (forall p, p <> destination e -> nodes d' !! p = nodes d !! p) -> conserved d0 plan d'.
Proof.
  intros He Hk Hd Hn. apply (conserved_step e d); [done|done|..|done].
  intros p H _. by apply file_at_nodes, Hn.
Qed.
Lemma conserved_create e : e ∈ plan -> entry_kind e <> Existing -> always (conserved d0 plan) (create_empty_file_exclusive (destination e)).
Proof.
  intros He Hk. apply always_bind; [|intros; apply conserved_quiet, quiet_effectless].
  intros d Hd. destruct (io (create_new (destination e)) d) as [r d'] eqn:E. cbn [snd].
  apply io_syscall_inv in E as [([] & -> & E)|(x & -> & E)].
  - apply (conserved_new e d); [done..|]. intros p Hp. destruct (nodes d !! destination e); [done|].
    destruct has_parent; [|done]. injection E as E. by rewrite <- E, lookup_insert_ne.
  - apply (conserved_same d); [done|]. intros p. apply file_at_nodes. by rewrite E.
Qed.
Lemma conserved_uncreate e : e ∈ plan -> entry_kind e <> Existing -> always (conserved d0 plan) (remove_file (destination e)).
Proof.
  intros He Hk d Hd. destruct (remove_file (destination e) d) as [r d'] eqn:E. cbn [snd].
  apply remove_file_inv in E as [(n & -> & _ & _ & E)|(x & -> & E)].
  - apply (conserved_new e d); [done..|]. intros p Hp. by rewrite E, lookup_delete_ne.
  - apply (conserved_same d); [done|]. intros p. apply file_at_nodes. by rewrite E.
Qed.
Lemma conserved_mkdirs p : always (conserved d0 plan) (io (create_dir_all p)).
Proof.
  apply always_bind; [|intros []; [apply always_ret|apply always_lift]].
  intros d Hd. destruct (create_dir_all p d) as [r d'] eqn:E. cbn [snd].
  apply (conserved_same d); [done|]. intros q. by eapply create_dir_all_files.
Qed.
Lemma conserved_cleanup p stop_at : always (conserved d0 plan) (cleanup_empty_parents p stop_at).
Proof.
  unfold cleanup_empty_parents. destruct p as [p|]; [|apply always_ret].
  generalize (length p). intros n. revert p. induction n as [|n IH]; intros p; cbn [cleanup_from];
    (case_match; [apply always_ret|]); (apply always_bind; [|intros []; try apply always_ret; apply IH]).
  all: intros d Hd; destruct (remove_dir p d) as [r d'] eqn:E; apply (conserved_same d); [done|]; intros q; by eapply remove_dir_files.
Qed.

#[local] Hint Resolve conserved_mkdirs conserved_cleanup : handlers.

Lemma conserved_undo target_root entries : (forall e, e ∈ entries -> e ∈ plan) -> always (conserved d0 plan) (undo target_root entries).
Proof.
  induction entries as [|e entries IH]; intros Hin; cbn [undo]; [apply always_ret|].
  assert (e ∈ plan) as He by (apply Hin; by left).
  apply always_bind.
  - apply conserved_attempt. apply always_bind; [|intros []; apply conserved_quiet, quiet_sync_entry].
    destruct (entry_kind e) eqn:Hk; [by apply (conserved_move e); auto| |apply always_ret].
    apply always_bind; [apply conserved_uncreate; congruence|]. intros []; [apply always_ret|]. case_match; [apply always_ret|apply always_lift..].
  - intros r. apply always_bind; [eauto with handlers|]. intros _. apply always_bind; [|intros; apply always_ret].
    apply IH. intros e' He'. apply Hin. by right.
Qed.
Lemma conserved_or_rollback target_root completed m : (forall e, e ∈ completed -> e ∈ plan) ->
  always (conserved d0 plan) m -> always (conserved d0 plan) (or_rollback completed target_root m).
Proof.
  intros Hin Hm. apply always_bind; [by apply conserved_attempt|]. intros []; [apply always_ret|].
  apply always_bind; [|intros; apply always_lift]. apply conserved_undo. intros e' He'. apply Hin.
  by apply list_elem_of_In, in_rev, list_elem_of_In.
Qed.

Lemma conserved_execute target_root todo : forall completed, (forall e, e ∈ completed -> e ∈ plan) -> (forall e, e ∈ todo -> e ∈ plan) ->
  always (conserved d0 plan) (execute_move_plan todo completed target_root).
Proof.
  induction todo as [|e todo IH]; intros completed Hc Ht; cbn [execute_move_plan]; [apply always_ret|].
  assert (e ∈ plan) as He by (apply Ht; by left).
  assert (forall e', e' ∈ todo -> e' ∈ plan) as Ht' by (intros e' He'; apply Ht; by right).
  assert (forall e', e' ∈ completed ++ [e] -> e' ∈ plan) as Hc'.
  { intros e' [?| ->%list_elem_of_singleton]%elem_of_app; [by apply Hc|done]. }
  assert (forall p, always (conserved d0 plan) (or_rollback completed target_root (ensure_move_path_absent p))) as Ha.
  { intros p. apply conserved_or_rollback, conserved_quiet, quiet_absent; done. }
  destruct (entry_kind e) eqn:Hk.
  3:{ apply always_bind; [apply Ha|]. intros _. apply always_bind; [apply Ha|]. intros _. by apply IH. }
  all: cbv beta; repeat (apply always_bind; [|intros _]); try (apply IH; done).
  all: try apply always_ret.
  all: try (destruct (parent (destination e)); [|apply always_ret]; apply conserved_or_rollback; eauto with handlers; fail).
  all: try (apply conserved_or_rollback; [done|]; apply conserved_quiet, quiet_sync_entry).
  - apply conserved_or_rollback; [done|]. apply (conserved_move e); auto.
  - apply Ha.
  - apply conserved_or_rollback; [done|]. apply conserved_create; congruence.
Qed.
End plan.

(** ** From the metadata to the plan *)

Section build.
Context {X : HexCodec}.

(** The paths of the files, in order. *)
Definition paths_of (s : StorageIo) (ps : list fpath) : Prop :=
  Forall2 (fun i p => file_path s i = Ok p) (seqZ 0 (len (files (meta s)))) ps.

Lemma overlap_neq p q : paths_overlap p q = false -> p <> q.
Proof. intros [[H _]%orb_false_iff _]%orb_false_iff. by apply bool_decide_eq_false in H. Qed.

Lemma own_paths_Ok s l : forall acc paths, try_fold (own_path s) acc l = Ok paths -> NoDup acc ->
  exists ps, Forall2 (fun i p => file_path s i = Ok p) l ps /\ paths = acc ++ ps /\ NoDup paths.
Proof.
  induction l as [|i l IH]; intros acc paths; cbn [try_fold].
  - intros [= <-] Hacc. exists []. by rewrite app_nil_r.
  - intros (acc' & (p & Hp & ([] & Ho%fail_if_Ok & [= <-])%bind_Ok)%bind_Ok & E)%bind_Ok Hacc.
    destruct (IH _ _ E) as (ps & Hps & -> & Hn).
    { apply NoDup_app. split; [done|]. split; [|apply NoDup_singleton].
      intros q Hq ->%list_elem_of_singleton. apply not_true_iff_false in Ho. apply Ho, existsb_exists.
      exists p. split; [by apply list_elem_of_In|]. unfold paths_overlap. by rewrite bool_decide_eq_true_2. }
    exists (p :: ps). split; [by constructor|]. by rewrite <- app_assoc in *.
Qed.
Lemma path_ownership_Ok s o : path_ownership s = Ok o ->
  exists ps, paths_of s ps /\ NoDup ps /\ payload_paths o ≡ₚ ps /\ (forall p, p ∈ ps -> p <> resume_path s).
Proof.
  intros ([] & _ & (paths & Hp & ([] & Hr%fail_if_Ok & [= <-])%bind_Ok)%bind_Ok)%bind_Ok.
  apply own_paths_Ok in Hp as (ps & Hps & -> & Hn); [|constructor]. exists ps. cbn [app payload_paths] in *.
  split; [done|]. split; [done|]. split; [apply sort_by_perm|]. intros p H.
  apply overlap_neq. apply not_true_iff_false. intros Ho. apply not_true_iff_false in Hr. apply Hr, existsb_exists.
  exists p. split; [|done]. apply list_elem_of_In. by rewrite sort_by_perm.
Qed.
Lemma paths_of_elem s ps i p : paths_of s ps -> file_path s i = Ok p -> exists k, i = Z.of_nat k /\ ps !! k = Some p.
Proof.
  intros Hps Hp. assert (0 <= i < len (files (meta s))) as Hi.
  { pose proof Hp as (f & [H0 Hf%lookup_lt_Some]%ok_or_Ok%get_Some & _)%bind_Ok. unfold len. lia. }
  exists (Z.to_nat i). split; [lia|]. destruct (Forall2_lookup_l _ _ _ (Z.to_nat i) i Hps) as (q & Hq & Eq).
  { apply lookup_seqZ. lia. }
  rewrite Hp in Eq. by injection Eq as ->.
Qed.
Lemma paths_of_lookup s ps k p : paths_of s ps -> ps !! k = Some p -> file_path s (Z.of_nat k) = Ok p.
Proof.
  intros Hps Hp. destruct (Forall2_lookup_r _ _ _ _ _ Hps Hp) as (i & [-> _]%lookup_seqZ & H). exact H.
Qed.

(** What an entry of the plan says of the disk. *)
Record entry_ok (d : disk) (file : MetaFile) (e : MovePlanEntry) : Prop := {
  entry_differs : source e <> destination e;
  entry_free : nodes d !! destination e = None;
  entry_source : match entry_kind e with
                 | Existing => exists c, nodes d !! source e = Some (FileNode c)
                 | CreateEmpty => nodes d !! source e = None /\ mf_length file = 0
                 | Absent => nodes d !! source e = None /\ mf_length file <> 0
                 end }.

Lemma entry_ok_ext d d' file e : nodes d' = nodes d -> entry_ok d file e -> entry_ok d' file e.
Proof. intros E [? ? ?]. split; [done|..]; by rewrite E. Qed.

Lemma plan_entry_Ok s target e d o d' : plan_entry s target e d = (Ok o, d') ->
  nodes d' = nodes d /\ exists p q, file_path s e.1 = Ok p /\ file_path target e.1 = Ok q
    /\ (p = q /\ o = None \/ exists k, o = Some (mkEntry p q k) /\ entry_ok d e.2 (mkEntry p q k)).
Proof.
  unfold plan_entry. intros H. apply bind_Ok_inv in H as (p & d1 & [= Hp <-] & H).
  apply bind_Ok_inv in H as (q & d1 & [= Hq <-] & H).
  destruct (decide (p = q)) as [Hpq|Hpq]; [rewrite bool_decide_eq_true_2 in H by done|rewrite bool_decide_eq_false_2 in H by done].
  { injection H as <- <-. split; [done|]. exists p, q. auto. }
  apply bind_Ok_inv in H as (b & d1 & [E Hb]%path_lexists_inv & H).
  apply bind_Ok_inv in H as ([] & d2 & [= ->%fail_if_Ok <-] & H).
  destruct Hb as [[Hx _]|[[_ Hfree]|[x Hx]]]; [done| |done].
  rewrite bind_run in H. destruct (symlink_metadata p d1) as [r d2] eqn:E2. apply symlink_metadata_inv in E2 as [E2 Hs].
  rewrite E in Hs. destruct Hs as [(n & -> & Hn)|[[-> Hn]| ->]]; [| |done].
  - destruct n as [c| |]; try done. apply bind_Ok_inv in H as ([] & d3 & [= _ <-] & [= <- <-]).
    split; [congruence|]. exists p, q. split_and!; [done..|]. right. eexists. split; [done|]. split; cbn; [done..|by eexists].
  - injection H as <- <-. split; [congruence|]. exists p, q. split_and!; [done..|]. right. eexists. split; [done|].
    split; cbn; [done..|]. destruct (mf_length e.2 =? 0) eqn:E0; [apply Z.eqb_eq in E0|apply Z.eqb_neq in E0]; done.
Qed.

Lemma plan_entries_Ok s target l : forall d plan d', plan_entries s target l d = (Ok plan, d') ->
  nodes d' = nodes d /\ exists ps qs,
    Forall2 (fun e p => file_path s e.1 = Ok p) l ps /\ Forall2 (fun e q => file_path target e.1 = Ok q) l qs
    /\ (source <$> plan) `sublist_of` ps /\ (destination <$> plan) `sublist_of` qs
    /\ (forall e, e ∈ plan -> exists x, x ∈ l /\ file_path s x.1 = Ok (source e) /\ file_path target x.1 = Ok (destination e) /\ entry_ok d x.2 e)
    /\ forall k x p q, l !! k = Some x -> ps !! k = Some p -> qs !! k = Some q ->
         p = q \/ exists e, e ∈ plan /\ source e = p /\ destination e = q /\ entry_ok d x.2 e.
Proof.
  induction l as [|x l IH]; intros d plan d' H; cbn [plan_entries] in H.
  { injection H as <- <-. split; [done|]. exists [], []. split; [constructor|]. split; [constructor|].
    split; [constructor|]. split; [constructor|]. split; [|done]. by intros ? ?%elem_of_nil. }
  apply bind_Ok_inv in H as (o & d1 & E%plan_entry_Ok & H). apply bind_Ok_inv in H as (plan' & d2 & E2%IH & [= <- <-]).
  destruct E as (En & p & q & Hp & Hq & Ho), E2 as (En2 & ps & qs & Hps & Hqs & Hs & Ht & Hall & Hcov).
  assert (forall e, e ∈ plan' -> exists x', x' ∈ x :: l /\ file_path s x'.1 = Ok (source e) /\ file_path target x'.1 = Ok (destination e) /\ entry_ok d x'.2 e) as Hall'.
  { intros e (f & Hf & H1 & H2 & H3)%Hall. exists f. split_and!; [by right|done..|by apply (entry_ok_ext d1)]. }
  split; [congruence|]. exists (p :: ps), (q :: qs). split; [by constructor|]. split; [by constructor|].
  destruct Ho as [[-> ->]|(k & -> & Hk)]; cbn [fmap list_fmap]; split_and!.
  1,2: by apply sublist_cons. 1: done.
  2,3: by apply sublist_skip.
  2:{ intros e [->|He]%elem_of_cons; [exists x; split_and!; [by left|done..]|by apply Hall']. }
  all: intros [|n] x' p' q' Hx Hp' Hq'; cbn in Hx, Hp', Hq'; simplify_eq.
  - by left.
  - destruct (Hcov n _ _ _ Hx Hp' Hq') as [->|(e & He & <- & <- & Hok)]; [by left|right]. exists e. split; [done|]. split_and!; [done..|by apply (entry_ok_ext d1)].
  - right. eexists. split; [by left|]. by split_and!.
  - destruct (Hcov n _ _ _ Hx Hp' Hq') as [->|(e & He & <- & <- & Hok)]; [by left|right]. exists e. split; [by right|]. split_and!; [done..|by apply (entry_ok_ext d1)].
Qed.
Lemma Forall2_functional {A B} (R : A -> B -> Prop) l k k' :
  (forall a b b', R a b -> R a b' -> b = b') -> Forall2 R l k -> Forall2 R l k' -> k = k'.
Proof.
  intros HR H. revert k'. induction H as [|a b l k Hab _ IH]; intros k' Hk'; inversion_clear Hk'; [done|]. f_equal; [by eapply HR|by apply IH].
Qed.
Lemma enumerate_indices {A} (l : list A) : (enumerate l).*1 = seqZ 0 (len l).
Proof.
  apply list_eq. intros i. unfold enumerate. rewrite list_lookup_fmap, list_lookup_imap.
  destruct (l !! i) as [a|] eqn:E; cbn.
  - apply lookup_lt_Some in E. symmetry. apply lookup_seqZ. unfold len. lia.
  - apply lookup_ge_None in E. symmetry. apply lookup_seqZ_ge. unfold len. lia.
Qed.

Lemma build_move_plan_Ok s target d plan d' : meta target = meta s -> build_move_plan s target d = (Ok plan, d') ->
  nodes d' = nodes d /\ plan_ok (nodes d) plan
  /\ (forall e, e ∈ plan -> source e <> resume_path s)
  /\ (forall e, e ∈ plan -> exists i, file_path s i = Ok (source e) /\ file_path target i = Ok (destination e))
  /\ (forall i j p, file_path s i = Ok p -> file_path s j = Ok p -> i = j)
  /\ forall i p, file_path s i = Ok p -> exists q, file_path target i = Ok q
       /\ (p = q \/ exists e file, e ∈ plan /\ source e = p /\ destination e = q /\ get (files (meta s)) i = Some file /\ entry_ok d file e).
Proof.
  intros Hm H. unfold build_move_plan in H.
  apply bind_Ok_inv in H as (os & d1 & [= Hos <-] & H). apply bind_Ok_inv in H as (ot & d1 & [= Hot <-] & H).
  apply bind_Ok_inv in H as (rt & d1 & [= _ <-] & H). apply bind_Ok_inv in H as (rs & d1 & [= _ <-] & H).
  apply bind_Ok_inv in H as (b & d1 & E & H). apply bind_Ok_inv in H as ([] & d2 & [= _ <-] & H).
  assert (nodes d1 = nodes d) as En. { case_match; [by apply path_lexists_inv in E as [? _]|by injection E as _ <-]. }
  clear E. apply path_ownership_Ok in Hos as (ps & Hps & Hnp & _ & Hr), Hot as (qs & Hqs & Hnq & _ & _).
  apply plan_entries_Ok in H as (En' & ps' & qs' & Hps' & Hqs' & Hsp & Hsq & Hall & Hcov).
  assert (forall st l, meta st = meta s -> Forall2 (fun e p => file_path st e.1 = Ok p) (enumerate (files (meta s))) l -> paths_of st l) as Hof.
  { intros st l Hst Hl. unfold paths_of. rewrite Hst, <- enumerate_indices. by apply Forall2_fmap_l. }
  assert (ps' = ps) as ->. { eapply Forall2_functional; [|by apply (Hof s)|exact Hps]. cbn. congruence. }
  assert (qs' = qs) as ->. { eapply Forall2_functional; [|by apply (Hof target)|exact Hqs]. cbn. congruence. }
  split; [congruence|]. split.
  { split.
    - exact (sublist_NoDup _ _ Hnq Hsq).
    - exact (sublist_NoDup _ _ Hnp Hsp).
    - by intros e (x & _ & _ & _ & [? _ _])%Hall.
    - intros e (x & _ & _ & _ & [_ Hf _])%Hall. by rewrite <- En.
    - intros e (x & _ & _ & _ & [_ _ Hf])%Hall Hk. rewrite Hk in Hf. by rewrite <- En. }
  split. { intros e (x & _ & Hx & _)%Hall. destruct (paths_of_elem _ _ _ _ Hps Hx) as (k & _ & Hk). by eapply Hr, list_elem_of_lookup_2. }
  split. { intros e (x & _ & H1 & H2 & _)%Hall. by exists x.1. }
  split.
  { intros i j p Hi Hj. destruct (paths_of_elem _ _ _ _ Hps Hi) as (k & -> & Hk), (paths_of_elem _ _ _ _ Hps Hj) as (k' & -> & Hk').
    f_equal. exact (NoDup_lookup ps _ _ _ Hnp Hk Hk'). }
  intros i p Hp. destruct (paths_of_elem _ _ _ _ Hps Hp) as (k & -> & Hk).
  destruct (Forall2_lookup_r _ _ _ _ _ Hps' Hk) as (x & Hx & _). destruct (Forall2_lookup_l _ _ _ _ _ Hqs' Hx) as (q & Hq & _).
  exists q. split; [by apply (paths_of_lookup _ qs)|].
  destruct (Hcov k x p q Hx Hk Hq) as [->|(e & He & <- & <- & Hok)]; [by left|right]. exists e, x.2. split_and!; [done..| |by apply (entry_ok_ext d1)].
  unfold enumerate in Hx. rewrite list_lookup_imap in Hx. rewrite get_of_nat. destruct (files (meta s) !! k); [|done]. by injection Hx as <-.
Qed.
End build.

(** ** A move loses nothing *)

Section moves.
Context {X : HexCodec}.

Lemma conserved_refl d plan : conserved d plan d.
Proof. split; [by left|done]. Qed.
Lemma remove_resume_inv s d r d' : remove_resume s d = (r, d') -> forall p, p <> resume_path s -> nodes d' !! p = nodes d !! p.
Proof.
  unfold remove_resume. intros H p Hp. rewrite bind_run in H. unfold lift at 1 in H.
  destruct (checked_resume_path s) as [q| | |] eqn:Eq; [|by injection H as _ <-..].
  apply bind_Ok in Eq as ([] & _ & [= <-]). rewrite bind_run in H.
  destruct (remove_file (resume_path s) d) as [x d1] eqn:E.
  assert (nodes d1 !! p = nodes d !! p) as <-.
  { apply remove_file_inv in E as [(n & _ & _ & _ & ->)|(e & _ & ->)]; [by rewrite lookup_delete_ne|done]. }
  destruct x as [[[]|[]]| | |]; try by injection H as _ <-. apply quiet_sync in H as [-> _]. done.
Qed.

(** What a plan says of the move it was made for. *)
Record plan_for (s target : StorageIo) (d d1 : disk) (plan : list MovePlanEntry) : Prop := {
  for_plan : plan_ok (nodes d1) plan;
  for_resume : forall p, p <> resume_path s -> nodes d1 !! p = nodes d !! p;
  for_source : forall e, e ∈ plan -> source e <> resume_path s;
  for_index : forall e, e ∈ plan -> exists i, file_path s i = Ok (source e) /\ file_path target i = Ok (destination e);
  for_inj : forall i j p, file_path s i = Ok p -> file_path s j = Ok p -> i = j;
  for_files : forall i p, file_path s i = Ok p -> exists q, file_path target i = Ok q
       /\ (p = q \/ exists e file, e ∈ plan /\ source e = p /\ destination e = q /\ get (files (meta s)) i = Some file /\ entry_ok d file e) }.

Lemma build_plan_for s target d plan d1 d2 : meta target = meta s -> build_move_plan s target d = (Ok plan, d1) ->
  (forall p, p <> resume_path s -> nodes d2 !! p = nodes d1 !! p) -> (forall p, nodes d2 !! p = nodes d1 !! p \/ nodes d2 !! p = None) ->
  plan_for s target d d2 plan.
Proof.
  intros Hm (En & [? ? ? Hfree Hex] & Hr & Hi & Hj & Hf)%build_move_plan_Ok Hn Hres; [|done].
  split; [|intros p Hp; by rewrite Hn, En|done..]. split; [done..| |].
  - intros e He. destruct (Hres (destination e)) as [->| ->]; [|done]. rewrite En. by apply Hfree.
  - intros e He Hk. destruct (Hex e He Hk) as [c Hc]. exists c. rewrite Hn, En; [done|]. by apply Hr.
Qed.

(** Cleaning up directories returns and leaves every file alone. *)
Definition tidy (m : handler disk ()) : Prop := forall d r d', m d = (r, d') -> r = Ok () /\ forall p, same_file_at d d' p.
Lemma tidy_ret : tidy (mret ()).
Proof. by intros d r d' [= <- <-]. Qed.
Lemma tidy_cleanup p stop_at : tidy (cleanup_empty_parents p stop_at).
Proof.
  unfold cleanup_empty_parents. destruct p as [p|]; [|apply tidy_ret].
  generalize (length p). intros n. revert p. induction n as [|n IH]; intros p d r d' H; cbn [cleanup_from] in H;
    (case_match; [by injection H as <- <-|]); rewrite bind_run in H; destruct (remove_dir p d) as [x d1] eqn:E;
    pose proof (fun q => remove_dir_files p d x d1 q E) as Hs; apply syscall_inv in E as [(a & -> & _)|(e & -> & _)].
  1,2,4: by injection H as <- <-.
  apply IH in H as [-> H]. split; [done|]. intros q. etransitivity; [apply H|apply Hs].
Qed.
Lemma tidy_each {A} (f : A -> handler disk ()) l : (forall a, tidy (f a)) -> tidy (each f l).
Proof.
  intros Hf. induction l as [|a l IH]; cbn [each]; [apply tidy_ret|]. intros d r d' H.
  rewrite bind_run in H. destruct (f a d) as [x d1] eqn:E. apply Hf in E as [-> E]. apply IH in H as [-> H].
  split; [done|]. intros p. etransitivity; [apply H|apply E].
Qed.
Lemma tidy_sources s plan : tidy (cleanup_sources s plan).
Proof. apply tidy_each. intros e. destruct (entry_kind e); [apply tidy_cleanup|apply tidy_ret..]. Qed.

(** A move that does nothing but remove the resume file, or the execution of its plan. *)
Definition runs_plan (s target : StorageIo) (d : disk) (r : outcome StorageIo) (d' : disk) : Prop :=
  exists plan d1 r2 d2, plan_for s target d d1 plan
    /\ execute_move_plan plan [] (download_dir target) d1 = (r2, d2) /\ (forall p, same_file_at d2 d' p)
    /\ match r2 with Ok _ => r = Ok target | Err e => r = Err e | Panic => r = Panic | OutOfFuel => r = OutOfFuel end.
Definition plans_nothing (s target : StorageIo) (d : disk) (r : outcome StorageIo) (d' : disk) : Prop :=
  (forall p, p <> resume_path s -> nodes d' !! p = nodes d !! p)
  /\ (forall s', r = Ok s' -> s' = target /\ download_dir s = download_dir target /\ partial_file_suffix s = partial_file_suffix target).

Definition same_nodes (d d' : disk) : Prop := nodes d' = nodes d.
#[local] Instance same_nodes_preorder : PreOrder same_nodes.
Proof. split; [done|]. intros d1 d2 d3 H1 H2. by etransitivity. Qed.
Lemma still_quiet {A} (m : handler disk A) : quiet m -> relates same_nodes m.
Proof. intros Hm d. destruct (m d) as [r d'] eqn:E. by apply Hm in E as [E _]. Qed.
Lemma still_plan s target : relates same_nodes (build_move_plan s target).
Proof.
  unfold build_move_plan. do 4 (apply relates_bind; [apply _|apply relates_lift, _|intros ?]).
  apply relates_bind; [apply _|case_match; [apply still_quiet, quiet_lexists|apply relates_ret, _]|intros ?].
  apply relates_bind; [apply _|apply relates_lift, _|intros _].
  induction (enumerate (files (meta s))) as [|e l IH]; cbn [plan_entries]; [apply relates_ret, _|].
  apply relates_bind; [apply _| |intros o; apply relates_bind; [apply _|done|intros; apply relates_ret, _]].
  unfold plan_entry. do 2 (apply relates_bind; [apply _|apply relates_lift, _|intros ?]).
  case_match; [apply relates_ret, _|]. apply relates_bind; [apply _|apply still_quiet, quiet_lexists|intros ?].
  apply relates_bind; [apply _|apply relates_lift, _|intros _].
  apply relates_bind; [apply _| |].
  - intros d. destruct (symlink_metadata _ d) as [x d'] eqn:E. by apply symlink_metadata_inv in E as [? _].
  - intros [[]|[]]; try apply relates_lift, _; try apply relates_ret, _.
    apply relates_bind; [apply _|apply relates_lift, _|intros _; apply relates_ret, _].
Qed.

Lemma execute_run s target plan (d d1 : disk) r d' : plan_for s target d d1 plan ->
  (_ ← execute_move_plan plan [] (download_dir target); _ ← cleanup_sources s plan; mret target) d1 = (r, d') ->
  runs_plan s target d r d'.
Proof.
  intros Hp H. rewrite bind_run in H. destruct (execute_move_plan plan [] (download_dir target) d1) as [r2 d2] eqn:E.
  exists plan, d1, r2, d2. split; [done|]. split; [done|]. destruct r2; [|by injection H as <- <-..].
  rewrite bind_run in H. destruct (cleanup_sources s plan d2) as [x d3] eqn:Ec. apply tidy_sources in Ec as [-> Ec]. by injection H as <- <-.
Qed.
Lemma move_run s dir suffix d r d' : move_to_with_partial_file_suffix s dir suffix d = (r, d') ->
  let target := moved_storage s dir suffix in plans_nothing s target d r d' \/ runs_plan s target d r d'.
Proof.
  intros H target. unfold move_to_with_partial_file_suffix in H. fold target in H.
  assert (meta target = meta s) as Hm by done. clearbody target. unfold shares_storage_root_with in H.
  case_bool_decide as Hdir.
  - destruct (bool_decide (partial_file_suffix s = partial_file_suffix target)) eqn:Es; cbn [negb] in H.
    { apply bool_decide_eq_true in Es. injection H as <- <-. left. split; [done|]. by intros s' [= <-]. }
    unfold rewrite_partial_file_suffix in H. rewrite bind_run in H. pose proof (still_plan s target d) as Hs.
    destruct (build_move_plan s target d) as [[plan|e| |] d1] eqn:E; cbn in Hs.
    2-4: injection H as <- <-; left; split; [by rewrite Hs|done].
    right. apply (execute_run s target plan d d1); [|done]. by apply (build_plan_for s target d plan d1); auto.
  - rewrite bind_run in H. pose proof (still_plan s target d) as Hs.
    destruct (build_move_plan s target d) as [[plan|e| |] d1] eqn:E; cbn in Hs.
    2-4: injection H as <- <-; left; split; [by rewrite Hs|done].
    rewrite bind_run in H. destruct (remove_resume s d1) as [x d2] eqn:Er.
    pose proof (remove_resume_inv _ _ _ _ Er) as Hn. assert (forall p, nodes d2 !! p = nodes d1 !! p \/ nodes d2 !! p = None) as Hn'.
    { intros p. unfold remove_resume in Er. rewrite bind_run in Er. unfold lift at 1 in Er.
      destruct (checked_resume_path s) as [q| | |]; [|injection Er as _ <-; by left..]. rewrite bind_run in Er.
      destruct (remove_file q d1) as [y d3] eqn:Ef. assert (nodes d2 = nodes d3) as ->.
      { destruct y as [[[]|[]]| | |]; try by injection Er as _ <-. by apply quiet_sync in Er as [-> _]. }
      apply remove_file_inv in Ef as [(n & _ & _ & _ & ->)|(e & _ & ->)]; [|by left].
      destruct (decide (p = q)) as [->|]; [right; by rewrite lookup_delete_eq|left; by rewrite lookup_delete_ne]. }
    destruct x; [|injection H as <- <-; left; split; [|done]; intros p Hp; rewrite Hn; [by rewrite Hs|done]..].
    right. apply (execute_run s target plan d d2); [|done]. by apply (build_plan_for s target d plan d1).
Qed.

(** C1: no file is lost and none is overwritten by a move, whatever calls of the operating
    system fail and however often: afterwards every file of the payload has its content at
    its old or at its new path, and every other file has what it had, also one that is in
    the way of the payload.  Only the resume file is given up. *)
Theorem move_loses_nothing s dir suffix d :
  let target := moved_storage s dir suffix in let d' := (move_to_with_partial_file_suffix s dir suffix d).2 in
  (forall i p c, file_path s i = Ok p -> file_at d p = Some c -> p <> resume_path s ->
     file_at d' p = Some c \/ exists q, file_path target i = Ok q /\ file_at d' q = Some c)
  /\ (forall p, p <> resume_path s -> (forall i, file_path s i <> Ok p) ->
      (forall i, file_path target i <> Ok p) \/ is_Some (file_at d p) -> same_file_at d d' p).
Proof.
  intros target d'. destruct (move_to_with_partial_file_suffix s dir suffix d) as [r d2] eqn:E. unfold d'. cbn [snd]. clear d'.
  destruct (move_run _ _ _ _ _ _ E) as [[Hn _]|(plan & d1 & r2 & d3 & Hp & Ex & Hs & _)].
  - split; [|intros p Hp _ _; by apply file_at_nodes, Hn].
    intros i p c _ Hc Hr. left. unfold file_at in *. by rewrite Hn.
  - pose proof (conserved_execute d1 plan (for_plan _ _ _ _ _ Hp) (download_dir target) plan []) as Hc.
    specialize (Hc ltac:(by intros ? ?%elem_of_nil) ltac:(done) d1 (conserved_refl _ _)). fold target in Ex, Hp. rewrite Ex in Hc. cbn [snd] in Hc.
    assert (forall p, p <> resume_path s -> file_at d1 p = file_at d p) as H1.
    { intros p Hr. apply file_at_nodes. by apply (for_resume _ _ _ _ _ Hp). }
    split.
    + intros i p c Hi Hf Hr. destruct (for_files _ _ _ _ _ Hp i p Hi) as (q & Hq & Hpq). rewrite !Hs.
      destruct Hpq as [<-|(e & file & He & <- & <- & _ & [_ _ Hk])].
      * left. rewrite (others_kept _ _ _ Hc); [by rewrite H1| |].
        -- intros (e & -> & He)%list_elem_of_fmap. pose proof (plan_free _ _ (for_plan _ _ _ _ _ Hp) e He) as Hn.
           rewrite <- H1 in Hf by done. apply file_at_spec in Hf. congruence.
        -- intros e He Hk ->. destruct (for_index _ _ _ _ _ Hp e He) as (j & Hj & Hj').
           rewrite (for_inj _ _ _ _ _ Hp _ _ _ Hi Hj) in Hq. apply (plan_differ _ _ (for_plan _ _ _ _ _ Hp) e He). congruence.
      * apply file_at_spec in Hf. destruct (entry_kind e) eqn:Hkind; [|destruct Hk; congruence..].
        destruct (payload_kept _ _ _ Hc e c He Hkind) as [H|H]; [rewrite H1 by done; exact (proj2 (file_at_spec _ _ _) Hf)|by left|].
        right. exists (destination e). by rewrite Hs.
    + intros p Hr Hno Hor. etransitivity; [apply Hs|]. etransitivity; [|by apply H1]. apply (others_kept _ _ _ Hc).
      * intros (e & -> & He)%list_elem_of_fmap. destruct Hor as [Hor|[c Hc']].
        -- destruct (for_index _ _ _ _ _ Hp e He) as (j & _ & Hj). by apply (Hor j).
        -- rewrite <- H1 in Hc' by done. apply file_at_spec in Hc'.
           pose proof (plan_free _ _ (for_plan _ _ _ _ _ Hp) e He). congruence.
      * intros e He _ ->. destruct (for_index _ _ _ _ _ Hp e He) as (j & Hj & _). by apply (Hno j).
Qed.
End moves.
