(* ===== verification/MoveOutcome.v ===== *)
(** * What a finished move has done

    A move of [StorageIo] that returns has moved exactly the payload; one that fails, and
    does not report a failed rollback, has put every file back. *)

From S2P Require Import Prelude Text Hash Meta MetaCorrect Intake Storage StateError FileSys StorageIo StorageMove.

Local Open Scope Z_scope.

Section outcome.
Context {X : HexCodec}.
Variables (d0 : disk) (plan : list MovePlanEntry) (root : fpath).
Hypothesis Hplan : plan_ok (nodes d0) plan.

(** A step at the paths of one entry. *)
Definition touches (e : MovePlanEntry) (d d' : disk) : Prop :=
  forall p, p <> destination e -> (entry_kind e = Existing -> p <> source e) -> same_file_at d d' p.
#[local] Instance touches_preorder e : PreOrder (touches e).
Proof. split; [done|]. intros d1 d2 d3 H1 H2 p Hd Hs. etransitivity; [by apply H2|by apply H1]. Qed.
Lemma same_touches e d d' : (forall p, same_file_at d d' p) -> touches e d d'.
Proof. intros H p _ _. apply H. Qed.
Lemma nodes_touches e d d' : nodes d' = nodes d -> touches e d d'.
Proof. intros H. apply same_touches. intros p. apply file_at_nodes. by rewrite H. Qed.

Lemma touches_other e e' d d' : e ∈ plan -> e' ∈ plan -> e' <> e -> touches e d d' ->
  (entry_kind e' = Existing -> same_file_at d d' (source e')) /\ same_file_at d d' (destination e').
Proof.
  intros He He' Hne Ht. split; [intros Hk|]; apply Ht.
  - by apply (existing_free d0 plan).
  - intros _ E. by apply Hne, (source_inj d0 plan).
  - intros E. by apply Hne, (destination_inj d0 plan).
  - intros Hk E. by apply (existing_free d0 plan Hplan e e').
Qed.

(** An entry that has not been moved, one that has been moved. *)
Definition back (strict : bool) (e : MovePlanEntry) (d : disk) : Prop :=
  (entry_kind e = Existing -> file_at d (source e) = file_at d0 (source e)) /\ (strict = true -> file_at d (destination e) = None).
Definition arrived (e : MovePlanEntry) (d : disk) : Prop :=
  file_at d (destination e) = match entry_kind e with Existing => file_at d0 (source e) | CreateEmpty => Some [] | Absent => None end
  /\ (entry_kind e = Existing -> file_at d (source e) = None).

Lemma back_other strict e e' d d' : e ∈ plan -> e' ∈ plan -> e' <> e -> touches e d d' -> back strict e' d -> back strict e' d'.
Proof.
  intros He He' Hne Ht [H1 H2]. destruct (touches_other e e' d d' He He' Hne Ht) as [Hs Hd].
  split; [intros Hk; rewrite Hs by done; by apply H1|intros; rewrite Hd; by apply H2].
Qed.
Lemma arrived_other e e' d d' : e ∈ plan -> e' ∈ plan -> e' <> e -> touches e d d' -> arrived e' d -> arrived e' d'.
Proof.
  intros He He' Hne Ht [H1 H2]. destruct (touches_other e e' d d' He He' Hne Ht) as [Hs Hd].
  split; [by rewrite Hd|intros Hk; rewrite Hs by done; by apply H2].
Qed.
Lemma back_weaken e d : back true e d -> back false e d.
Proof. intros [H _]. split; [done|by intros]. Qed.

(** ** The steps of an entry *)

Lemma or_rollback_Ok completed m d u d' : or_rollback completed root m d = (Ok u, d') -> m d = (Ok (), d').
Proof.
  unfold or_rollback. intros H. rewrite bind_run in H. unfold attempt in H. destruct (m d) as [[[]|e| |] d1]; try done.
  - by injection H as _ <-.
  - unfold rollback_move_plan in H. rewrite bind_run in H. by destruct (undo root (rev completed) d1) as [[]].
Qed.

Lemma absent_Ok p d u d' : ensure_move_path_absent p d = (Ok u, d') -> nodes d' = nodes d /\ nodes d !! p = None.
Proof.
  unfold ensure_move_path_absent. intros H. apply bind_Ok_inv in H as (b & d1 & [E Hb]%path_lexists_inv & H).
  injection H as Hb' <-. apply fail_if_Ok in Hb' as ->. destruct Hb as [[? _]|[[_ ?]|[? ?]]]; done.
Qed.
Lemma create_empty_touches e d r d' : create_empty_file_exclusive (destination e) d = (r, d') -> touches e d d'.
Proof.
  unfold create_empty_file_exclusive. intros H. rewrite bind_run in H.
  destruct (io (create_new (destination e)) d) as [x d1] eqn:E. assert (touches e d d1) as Ht.
  { apply io_syscall_inv in E as [(a & _ & E)|(k & _ & E)]; [|by apply nodes_touches].
    intros p Hp _. destruct (nodes d !! destination e); [done|]. destruct has_parent; [|done]. injection E as _ E.
    by apply (file_at_insert d d1 (destination e) p (FileNode [])). }
  destruct x; [|by injection H as _ <-..]. apply io_effectless_inv in H as [H _]. etransitivity; [done|by apply nodes_touches].
Qed.
Lemma create_empty_Ok p d u d' : create_empty_file_exclusive p d = (Ok u, d') -> file_at d' p = Some [].
Proof.
  intros H. apply bind_Ok_inv in H as ([] & d1 & [(a & _ & E)|(k & ? & _)]%io_syscall_inv & [Hn _]%io_effectless_inv); [|done].
  destruct (nodes d !! p); [done|]. destruct has_parent; [|done]. injection E as _ E. apply file_at_spec.
  by rewrite Hn, <- E, lookup_insert_eq.
Qed.
Lemma move_touches e from to d r d' : e ∈ plan -> entry_kind e = Existing ->
  from = source e /\ to = destination e \/ from = destination e /\ to = source e ->
  move_file_exclusive from to d = (r, d') -> touches e d d'.
Proof.
  intros He Hk Hft H. assert (from <> to) as Hne by (pose proof (plan_differ _ _ Hplan e He); destruct Hft as [[-> ->]|[-> ->]]; congruence).
  intros p Hd Hs. specialize (Hs Hk). apply file_at_nodes.
  apply move_file_inv in H as [(c & _ & _ & _ & ->)|(x & _ & [->|(_ & g & ->)])]; [|done| |done].
  - destruct Hft as [[-> ->]|[-> ->]]; by rewrite lookup_delete_ne, lookup_insert_ne.
  - destruct Hft as [[-> ->]|[-> ->]]; by rewrite lookup_insert_ne.
Qed.
(** A move that works takes the content along; one that does not leaves the file. *)
Lemma move_Ok from to d u d' : from <> to -> move_file_exclusive from to d = (Ok u, d') ->
  exists c, file_at d from = Some c /\ file_at d to = None /\ file_at d' to = Some c /\ file_at d' from = None.
Proof.
  intros Hne H. apply move_file_inv in H as [(c & _ & Ht & Hf & Hn)|(x & ? & _)]; [|done..].
  exists c. unfold file_at. by rewrite Hn, Ht, Hf, lookup_delete_ne, lookup_insert_eq, lookup_delete_eq.
Qed.
Lemma move_Err from to d e d' : from <> to -> move_file_exclusive from to d = (Err e, d') -> same_file_at d d' from.
Proof.
  intros Hne H. apply move_file_inv in H as [(c & ? & _)|(x & _ & [Hn|(_ & g & Hn)])]; [done|..|done].
  - apply file_at_nodes. by rewrite Hn.
  - by apply (file_at_insert d d' to from (FileNode g)).
Qed.

Lemma makes_parent completed (p : option fpath) d u d' :
  match p with Some p => or_rollback completed root (io (create_dir_all p)) | None => mret () end d = (Ok u, d') ->
  forall q, same_file_at d d' q.
Proof.
  destruct p as [p|]; [intros H%or_rollback_Ok|destruct u; intros H; injection H as <-; done]. intros q. unfold io in H.
  apply bind_Ok_inv in H as (x & d1 & E & H). pose proof (create_dir_all_files _ _ _ _ q E) as Hs. destruct x; [|done]. by injection H as _ <-.
Qed.

(** ** A move that returns *)

Lemma execute_Ok todo : forall completed finished d u d', execute_move_plan todo completed root d = (Ok u, d') ->
  (forall e, e ∈ finished ++ todo <-> e ∈ plan) -> NoDup (finished ++ todo) ->
  (forall e, e ∈ finished -> arrived e d) -> (forall e, e ∈ todo -> back true e d) ->
  forall e, e ∈ plan -> arrived e d'.
Proof.
  induction todo as [|e todo IH]; intros completed finished d u d' H Hin Hnd Hf Ht; cbn [execute_move_plan] in H.
  { injection H as _ <-. intros e He. apply Hf. apply Hin in He. by rewrite app_nil_r in He. }
  assert (e ∈ plan) as He by (apply Hin, elem_of_app; right; by left).
  destruct (Ht e ltac:(by left)) as [Hsrc Hdst]. specialize (Hdst eq_refl).
  assert (forall d1, touches e d d1 -> arrived e d1 -> forall completed u d', execute_move_plan todo completed root d1 = (Ok u, d') ->
    forall e, e ∈ plan -> arrived e d') as Hgo.
  { intros d1 Htou Harr completed' u' d2 E. apply NoDup_app in Hnd as Hnd'. destruct Hnd' as (_ & Hdis & [Hnt _]%NoDup_cons).
    apply (IH completed' (finished ++ [e]) d1 u' d2 E).
    - intros e'. rewrite <- Hin. by rewrite <- app_assoc.
    - by rewrite <- app_assoc.
    - intros e' [He'| ->%list_elem_of_singleton]%elem_of_app; [|done].
      apply (arrived_other e e' d d1); [done|apply Hin, elem_of_app; by left| |done|by apply Hf].
      intros ->. apply (Hdis e He'). by left.
    - intros e' He'. apply (back_other true e e' d d1); [done|apply Hin, elem_of_app; right; by right| |done|apply Ht; by right].
      by intros ->. }
  clear IH. destruct (entry_kind e) eqn:Hk; cbv beta in H.
  - change (bool_decide (Existing = CreateEmpty)) with false in H. change (bool_decide (Existing = Existing)) with true in H. cbv iota in H.
    apply bind_Ok_inv in H as ([] & d1 & [= <-] & H). apply bind_Ok_inv in H as ([] & d2 & E2 & H).
    apply bind_Ok_inv in H as ([] & d3 & E3%or_rollback_Ok & H). apply bind_Ok_inv in H as ([] & d4 & E4%or_rollback_Ok & H).
    apply quiet_sync_entry in E4 as [E4 _]. pose proof (makes_parent _ _ _ _ _ E2) as Hp2.
    pose proof (move_touches e _ _ _ _ _ He Hk ltac:(by left) E3) as Ht3.
    apply move_Ok in E3 as (c & Hc & _ & Hd & Hs); [|by apply (plan_differ _ _ Hplan)].
    refine (Hgo d4 _ _ _ _ _ H).
    + etransitivity; [by apply same_touches|]. etransitivity; [done|by apply nodes_touches].
    + unfold arrived, file_at. rewrite E4, Hk. split; [|done]. unfold file_at in Hd. rewrite Hd. rewrite Hp2 in Hc. by rewrite <- Hc, Hsrc.
  - change (bool_decide (CreateEmpty = CreateEmpty)) with true in H. change (bool_decide (CreateEmpty = Existing)) with false in H. cbv iota in H.
    apply bind_Ok_inv in H as ([] & d1 & [E1 _]%or_rollback_Ok%absent_Ok & H). apply bind_Ok_inv in H as ([] & d2 & E2 & H).
    apply bind_Ok_inv in H as ([] & d3 & E3%or_rollback_Ok & H). apply bind_Ok_inv in H as ([] & d4 & E4%or_rollback_Ok & H).
    apply quiet_sync_entry in E4 as [E4 _]. pose proof (makes_parent _ _ _ _ _ E2) as Hp2.
    pose proof (create_empty_touches e _ _ _ E3) as Ht3. apply create_empty_Ok in E3.
    refine (Hgo d4 _ _ _ _ _ H).
    + etransitivity; [by apply nodes_touches|]. etransitivity; [by apply same_touches|]. etransitivity; [done|by apply nodes_touches].
    + unfold arrived, file_at. rewrite E4, Hk. by split.
  - apply bind_Ok_inv in H as ([] & d1 & [E1 _]%or_rollback_Ok%absent_Ok & H).
    apply bind_Ok_inv in H as ([] & d2 & [E2 Hn]%or_rollback_Ok%absent_Ok & H).
    refine (Hgo d2 _ _ _ _ _ H); [apply nodes_touches; congruence|].
    unfold arrived, file_at. rewrite E2, Hn, Hk. by split.
Qed.

(** ** A move that fails *)

Lemma undo_entry_Ok e d u d' : e ∈ plan -> entry_kind e <> Absent -> conserved d0 plan d -> undo_entry e d = (Ok u, d') ->
  back true e d' /\ touches e d d'.
Proof.
  intros He Hk Hcons H. unfold undo_entry in H.
  apply bind_Ok_inv in H as ([] & d1 & E & [Hn _]%quiet_sync_entry). destruct (entry_kind e) eqn:Hkind; [| |done].
  - pose proof (move_touches e _ _ _ _ _ He Hkind ltac:(by right) E) as Ht.
    assert (exists c, file_at d0 (source e) = Some c) as [c Hc].
    { destruct (plan_existing _ _ Hplan e He Hkind) as [c Hc]. exists c. by apply file_at_spec. }
    apply move_Ok in E as (c' & Hd & Hs & Hs' & Hd'); [|by apply not_eq_sym, (plan_differ _ _ Hplan)].
    split; [|etransitivity; [done|by apply nodes_touches]].
    unfold back, file_at. rewrite Hn. split; [intros _|done]. fold (file_at d1 (source e)) (file_at d0 (source e)).
    destruct (payload_kept _ _ _ Hcons e c He Hkind Hc) as [Hx|Hx]; congruence.
  - rewrite bind_run in E. destruct (remove_file (destination e) d) as [x d2] eqn:Er.
    assert (touches e d d2 /\ (x = Ok (inl ()) \/ x = Ok (inr NotFound) -> file_at d2 (destination e) = None)) as [Ht Hx].
    { pose proof Er as Er'. apply remove_file_inv in Er as [(n & -> & _ & _ & Er)|(k & -> & Er)].
      - split; [|intros _; unfold file_at; by rewrite Er, lookup_delete_eq].
        intros p Hp _. apply file_at_nodes. by rewrite Er, lookup_delete_ne.
      - split; [by apply nodes_touches|]. intros [?|Hnf]; [done|]. unfold file_at. rewrite Er.
        injection Hnf as ->. unfold remove_file, syscall in Er'. destruct (next_fault d) as [f d3] eqn:Ef. apply next_fault_nodes in Ef.
        destruct f; [|done]. rewrite Ef in Er'. by destruct (nodes d !! destination e) as [[]|]. }
    split.
    + split; [congruence|]. intros _. unfold file_at. rewrite Hn. destruct x as [[[]|[]]| | |]; try done; injection E as <-; apply Hx; auto.
    + assert (d1 = d2) as ->. { destruct x as [[[]|[]]| | |]; try done; by injection E as <-. }
      etransitivity; [done|by apply nodes_touches].
Qed.
Lemma undo_entry_touches e d r d' : e ∈ plan -> undo_entry e d = (r, d') -> touches e d d'.
Proof.
  intros He H. unfold undo_entry in H. rewrite bind_run in H.
  match type of H with (match ?m with _ => _ end) = _ => destruct m as [x d1] eqn:E end.
  assert (touches e d d1) as Ht.
  { destruct (entry_kind e) eqn:Hkind.
    - by apply (move_touches e _ _ _ _ _ He Hkind ltac:(by right) E).
    - rewrite bind_run in E. destruct (remove_file (destination e) d) as [y d2] eqn:Er.
      assert (d1 = d2) as ->. { destruct y as [[[]|[]]| | |]; by injection E as _ <-. }
      apply remove_file_inv in Er as [(n & _ & _ & _ & Er)|(k & _ & Er)]; [|by apply nodes_touches].
      intros p Hp _. apply file_at_nodes. by rewrite Er, lookup_delete_ne.
    - by injection E as _ <-. }
  destruct x; [|by injection H as _ <-..]. apply quiet_sync_entry in H as [H _]. etransitivity; [done|by apply nodes_touches].
Qed.

Lemma undo_back entries : forall d d', (forall e, e ∈ entries -> e ∈ plan /\ entry_kind e <> Absent) -> NoDup entries ->
  conserved d0 plan d -> undo root entries d = (Ok false, d') ->
  forall b e, e ∈ plan -> (e ∈ entries \/ back b e d) -> back b e d'.
Proof.
  induction entries as [|e entries IH]; intros d d' Hin Hnd Hcons H b e' He' Hor; cbn [undo] in H.
  { injection H as <-. by destruct Hor as [?%elem_of_nil|]. }
  destruct (Hin e ltac:(by left)) as [He Hk]. apply NoDup_cons in Hnd as [Hne Hnd].
  apply bind_Ok_inv in H as (r & d1 & E1 & H). apply bind_Ok_inv in H as ([] & d2 & [_ E2]%tidy_cleanup & H).
  apply bind_Ok_inv in H as (f & d3 & E3 & H). unfold attempt in E1.
  destruct (undo_entry e d) as [y d4] eqn:E4. destruct y as [u| | |]; try done; injection E1 as <- <-; [|done].
  injection H as -> <-.
  assert (conserved d0 plan d2) as Hc2.
  { apply (conserved_same d0 plan d4); [|done].
    assert (always (conserved d0 plan) (undo root [e])) as Ha.
    { apply conserved_undo; [done|]. by intros ? ->%list_elem_of_singleton. }
    destruct (undo root [e] d) as [z d5] eqn:E5. specialize (Ha d Hcons). rewrite E5 in Ha. cbn in Ha.
    cbn [undo] in E5. unfold attempt in E5. rewrite bind_run in E5. cbv beta in E5. rewrite E4 in E5. rewrite bind_run in E5.
    destruct (cleanup_empty_parents (parent (destination e)) root d4) as [w d6] eqn:E6. apply tidy_cleanup in E6 as [-> E6].
    injection E5 as _ <-. apply (conserved_same d0 plan d6); [done|]. intros p. unfold same_file_at. by rewrite E6. }
  assert (forall b e, e ∈ plan -> back b e d4 -> back b e d2) as Htidy.
  { intros b0 e0 _ [H1 H2]. split; [intros; rewrite E2; by apply H1|intros; rewrite E2; by apply H2]. }
  destruct (undo_entry_Ok e d u d4 He Hk Hcons E4) as [Hb Ht].
  apply (IH d2 d3); [intros e0 H0; apply Hin; by right|done|done|done|done|].
  destruct (decide (e' = e)) as [->|Hee].
  - right. apply Htidy; [done|]. destruct b; [done|by apply back_weaken].
  - destruct Hor as [[?|?]%elem_of_cons|Hor]; [done|by left|right]. apply Htidy; [done|]. by apply (back_other b e e' d d4).
Qed.

Lemma undo_no_error l : forall d x d', undo root l d <> (Err x, d').
Proof.
  induction l as [|e l IH]; intros d x d' H; cbn [undo] in H; [done|].
  rewrite bind_run in H. unfold attempt in H.
  destruct (undo_entry e d) as [[u|y| |] d3]; try done; rewrite bind_run in H;
    destruct (cleanup_empty_parents (parent (destination e)) root d3) as [w d4] eqn:Ec; apply tidy_cleanup in Ec as [-> _];
    rewrite bind_run in H; destruct (undo root l d4) as [[f|z| |] d5] eqn:E; try done; by apply IH in E.
Qed.
Lemma or_rollback_Err completed m d x d' : or_rollback completed root m d = (Err x, d') -> x <> rollback_failed ->
  exists x0 d1, m d = (Err x0, d1) /\ undo root (rev completed) d1 = (Ok false, d').
Proof.
  unfold or_rollback. intros H Hx. rewrite bind_run in H. unfold attempt in H. destruct (m d) as [[a|e| |] d1] eqn:E; try done.
  exists e, d1. split; [done|]. unfold rollback_move_plan in H. rewrite bind_run in H.
  destruct (undo root (rev completed) d1) as [[f|e'| |] d2] eqn:Eu; try done.
  - destruct f; injection H as <- <-; done.
  - by destruct (undo_no_error _ _ _ _ Eu).
Qed.

(** What has been completed, when the entry [e] fails. *)
Record ready (completed : list MovePlanEntry) (d : disk) : Prop := {
  ready_entries : forall e, e ∈ completed -> e ∈ plan /\ entry_kind e <> Absent;
  ready_distinct : NoDup completed;
  ready_conserved : conserved d0 plan d;
  ready_back : forall e, e ∈ plan -> e ∉ completed -> back true e d }.
Definition restored (f : fpath) (d : disk) : Prop :=
  forall e, e ∈ plan -> back false e d /\ (destination e <> f -> back true e d).

Lemma ready_undo completed e d1 d' : e ∈ plan ->
  (forall e, e ∈ completed -> e ∈ plan /\ entry_kind e <> Absent) -> NoDup completed -> conserved d0 plan d1 ->
  (forall e', e' ∈ plan -> e' ∉ completed -> e' <> e -> back true e' d1) -> (e ∉ completed -> back false e d1) ->
  undo root (rev completed) d1 = (Ok false, d') -> restored (destination e) d'.
Proof.
  intros He Hin Hnd Hc Hother Hself H e' He'.
  assert (forall x, x ∈ rev completed <-> x ∈ completed) as Hrev by (intros x; by rewrite !list_elem_of_In, <- in_rev).
  assert (forall b, e' ∈ rev completed \/ back b e' d1 -> back b e' d') as Hb.
  { intros b. apply (undo_back (rev completed) d1 d'); [|by rewrite <- (Permutation_rev completed)|done|done|done]. intros x Hx. by apply Hin, Hrev. }
  destruct (decide (e' ∈ completed)) as [Hx|Hx]; [split; [|intros _]; apply Hb; left; by apply Hrev|].
  destruct (decide (e' = e)) as [->|Hne].
  - split; [apply Hb; right; by apply Hself|done].
  - split; [|intros _]; apply Hb; right; [apply back_weaken|]; by apply Hother.
Qed.

(** A failing step of the entry [e]. *)
Lemma failed_step e completed m d x d' : e ∈ plan -> ready completed d -> (e ∉ completed) ->
  always (conserved d0 plan) m -> (forall r d1, m d = (r, d1) -> touches e d d1) ->
  (forall x d1, m d = (Err x, d1) -> entry_kind e = Existing -> same_file_at d d1 (source e)) ->
  or_rollback completed root m d = (Err x, d') -> x <> rollback_failed -> exists f, restored f d'.
Proof.
  intros He [Hin Hnd Hc Hb] Hno Hm Ht Hsrc H Hx. destruct (or_rollback_Err _ _ _ _ _ H Hx) as (x0 & d1 & E & Eu).
  specialize (Ht _ _ E). specialize (Hm d Hc). rewrite E in Hm. exists (destination e).
  apply (ready_undo completed e d1); try done.
  - intros e' He' Hno' Hne. apply (back_other true e e' d d1); try done. by apply Hb.
  - intros _. split; [|done]. intros Hk. rewrite (Hsrc _ _ E Hk). by apply Hb.
Qed.
Lemma failed_quiet e completed m d x d' : e ∈ plan -> ready completed d -> e ∉ completed -> quiet m ->
  or_rollback completed root m d = (Err x, d') -> x <> rollback_failed -> exists f, restored f d'.
Proof.
  intros He Hr Hno Hm. apply (failed_step e); try done.
  - by apply conserved_quiet.
  - intros r d1 [E _]%Hm. by apply nodes_touches.
  - intros y d1 [E _]%Hm _. apply file_at_nodes. by rewrite E.
Qed.
Lemma ready_same completed d d' : (forall p, same_file_at d d' p) -> ready completed d -> ready completed d'.
Proof.
  intros Hs [Hin Hnd Hc Hb]. split; [done|done|by apply (conserved_same d0 plan d)|].
  intros e He Hno. destruct (Hb e He Hno) as [H1 H2]. split; intros; rewrite Hs; auto.
Qed.
Lemma ready_nodes completed d d' : nodes d' = nodes d -> ready completed d -> ready completed d'.
Proof. intros E. apply ready_same. intros p. apply file_at_nodes. by rewrite E. Qed.
Lemma ready_done e completed d d' : e ∈ plan -> entry_kind e <> Absent -> e ∉ completed -> touches e d d' -> conserved d0 plan d' ->
  ready completed d -> ready (completed ++ [e]) d'.
Proof.
  intros He Hk Hno Ht Hc [Hin Hnd _ Hb]. split; [| |done|].
  - intros e' [?| ->%list_elem_of_singleton]%elem_of_app; [by apply Hin|done].
  - apply NoDup_app. split; [done|]. split; [|apply NoDup_singleton]. by intros y Hy ->%list_elem_of_singleton.
  - intros e' He' [Hno' Hne]%not_elem_of_app. apply (back_other true e e' d d'); [done|done| |done|by apply Hb].
    intros ->. apply Hne. by left.
Qed.

(** Split a failing sequence: the first step fails, or it works and the rest fails. *)
Lemma bind_Err_inv {A B} (m : handler disk A) (k : A -> handler disk B) d x d' : (m ≫= k) d = (Err x, d') ->
  m d = (Err x, d') \/ exists a d1, m d = (Ok a, d1) /\ k a d1 = (Err x, d').
Proof. rewrite bind_run. destruct (m d) as [[a|e| |] d1]; [right; by exists a, d1|intros [= <- <-]; by left|done..]. Qed.

Lemma failed_entry e completed (m : handler disk ()) (k : handler disk ()) d x d' : e ∈ plan -> e ∉ completed -> ready completed d ->
  entry_kind e <> Absent -> always (conserved d0 plan) m -> (forall r d1 d2, m d1 = (r, d2) -> touches e d1 d2) ->
  (forall y d1 d2, m d1 = (Err y, d2) -> entry_kind e = Existing -> same_file_at d1 d2 (source e)) ->
  (_ ← match parent (destination e) with Some p => or_rollback completed root (io (create_dir_all p)) | None => mret () end;
   _ ← or_rollback completed root m;
   _ ← or_rollback (completed ++ [e]) root (sync_move_entry_parents e); k) d = (Err x, d') -> x <> rollback_failed ->
  (exists f, restored f d') \/ exists d2, ready (completed ++ [e]) d2 /\ k d2 = (Err x, d').
Proof.
  intros He Hno Hr Hk Hm Ht Hsrc H Hx.
  assert (forall p r d1 d2 q, io (create_dir_all p) d1 = (r, d2) -> same_file_at d1 d2 q) as Hdirs.
  { intros p r d1 d2 q E. unfold io in E. rewrite bind_run in E. destruct (create_dir_all p d1) as [y d3] eqn:Ed.
    pose proof (create_dir_all_files _ _ _ _ q Ed). destruct y as [[]| | |]; by injection E as _ <-. }
  apply bind_Err_inv in H as [H|(u & d1 & E1 & H)].
  { left. destruct (parent (destination e)) as [p|]; [|done]. revert H Hx. apply (failed_step e); [done..|apply conserved_mkdirs| |].
    - intros r d1 E. apply same_touches. intros q. by eapply Hdirs.
    - intros y d1 E _. by eapply Hdirs. }
  assert (ready completed d1) as Hr1 by (eapply ready_same; [by apply (makes_parent _ _ _ _ _ E1)|done]).
  apply bind_Err_inv in H as [H|(u' & d2 & E2%or_rollback_Ok & H)].
  { left. revert H Hx. apply (failed_step e); [done..| |]; [intros r d2; apply Ht|intros y d2; apply Hsrc]. }
  assert (ready (completed ++ [e]) d2) as Hr2.
  { apply (ready_done e completed d1); try done; [by eapply Ht|]. pose proof (Hm d1 (ready_conserved _ _ Hr1)) as Hc. by rewrite E2 in Hc. }
  apply bind_Err_inv in H as [H|(u2 & d3 & E3%or_rollback_Ok & H)].
  - left. destruct (or_rollback_Err _ _ _ _ _ H Hx) as (x0 & d3 & [E3 _]%quiet_sync_entry & Eu).
    destruct (ready_nodes _ _ d3 E3 Hr2) as [Hin Hnd Hc Hb]. exists (destination e). apply (ready_undo (completed ++ [e]) e d3); try done.
    + intros; by apply Hb.
    + intros []. apply elem_of_app. right. by left.
  - right. exists d3. split; [|done]. apply quiet_sync_entry in E3 as [E3 _]. by apply (ready_nodes _ d2).
Qed.

Lemma quiet_Ok {A} (m : handler disk A) d a d' : quiet m -> m d = (Ok a, d') -> nodes d' = nodes d.
Proof. intros Hm E. by apply Hm in E as [E _]. Qed.
Lemma execute_Err todo : forall completed d x d', execute_move_plan todo completed root d = (Err x, d') -> x <> rollback_failed ->
  (forall e, e ∈ todo -> e ∈ plan /\ e ∉ completed) -> NoDup todo -> ready completed d -> exists f, restored f d'.
Proof.
  induction todo as [|e todo IH]; intros completed d x d' H Hx Hin Hnd Hr; cbn [execute_move_plan] in H; [done|].
  destruct (Hin e ltac:(by left)) as [He Hno]. apply NoDup_cons in Hnd as [Hne Hnd].
  assert (forall d1, touches e d d1 -> conserved d0 plan d1 -> entry_kind e <> Absent -> ready (completed ++ [e]) d1) as Hdone.
  { intros d1 Ht Hc Hk. by apply (ready_done e completed d). }
  assert (forall e', e' ∈ todo -> e' ∈ plan /\ e' ∉ completed ++ [e]) as Hin'.
  { intros e' He'. destruct (Hin e' ltac:(by right)) as [? ?]. split; [done|]. intros [?| ->%list_elem_of_singleton]%elem_of_app; done. }
  assert (forall m d1 d2 u, quiet m -> ready completed d1 -> or_rollback completed root m d1 = (Ok u, d2) -> ready completed d2) as Hq.
  { intros m d1 d2 u Hm Hr1 E%or_rollback_Ok. by apply (ready_nodes completed d1), Hr1; eapply quiet_Ok. }
  destruct (entry_kind e) eqn:Hk; cbv beta in H.
  3:{ apply bind_Err_inv in H as [H|(u & d1 & E1 & H)]; [by apply (failed_quiet e _ _ _ _ _ He Hr Hno (quiet_absent _) H)|].
    pose proof (Hq _ _ _ _ (quiet_absent _) Hr E1) as Hr1.
    apply bind_Err_inv in H as [H|(u' & d2 & E2 & H)]; [by apply (failed_quiet e _ _ _ _ _ He Hr1 Hno (quiet_absent _) H)|].
    apply (IH completed d2 x d' H Hx); [intros e' He'; apply Hin; by right|done|]. by apply (Hq _ _ _ _ (quiet_absent _) Hr1 E2). }
  - change (bool_decide (Existing = CreateEmpty)) with false in H. change (bool_decide (Existing = Existing)) with true in H. cbv iota in H.
    apply bind_Err_inv in H as [H|(u & d1 & [= _ <-] & H)]; [done|].
    apply (failed_entry e completed) in H as [H|(d2 & Hr2 & H)]; try done; [|congruence|..].
    + by apply (IH (completed ++ [e]) d2 x d' H Hx).
    + apply (conserved_move d0 plan Hplan e); auto.
    + intros r d2 d3. apply move_touches; auto.
    + intros y d2 d3 E _. eapply move_Err; [|done]. by apply (plan_differ _ _ Hplan).
  - change (bool_decide (CreateEmpty = CreateEmpty)) with true in H. change (bool_decide (CreateEmpty = Existing)) with false in H. cbv iota in H.
    apply bind_Err_inv in H as [H|(u & d1 & E1 & H)]; [by apply (failed_quiet e _ _ _ _ _ He Hr Hno (quiet_absent _) H)|].
    apply (failed_entry e completed) in H as [H|(d2 & Hr2 & H)]; try done; [|by apply (Hq _ _ _ _ (quiet_absent _) Hr E1)|congruence|..].
    + by apply (IH (completed ++ [e]) d2 x d' H Hx).
    + apply (conserved_create d0 plan Hplan e); congruence.
    + intros r d2 d3. apply create_empty_touches.
    + intros y d2 d3 _ ?. congruence.
Qed.
End outcome.

Section moves.
Context {X : HexCodec}.

(** A file of the payload and the entry that moves it. *)
Lemma plan_for_entry s target d d1 plan i p q file : plan_for s target d d1 plan ->
  get (files (meta s)) i = Some file -> file_path s i = Ok p -> file_path target i = Ok q -> p <> q ->
  exists e, e ∈ plan /\ source e = p /\ destination e = q /\ entry_ok d file e.
Proof.
  intros Hp Hf Hi Hq Hne. destruct (for_files _ _ _ _ _ Hp i p Hi) as (q' & Hq' & Hor).
  assert (q' = q) as -> by congruence. destruct Hor as [?|(e & f & He & Hs & Hd & Hf' & Hok)]; [done|].
  exists e. split_and!; try done. congruence.
Qed.
Lemma plan_starts d plan : plan_ok (nodes d) plan -> forall e, e ∈ plan -> back d true e d.
Proof. intros Hp e He. split; [done|]. intros _. unfold file_at. by rewrite (plan_free _ _ Hp e He). Qed.
Lemma plan_distinct m plan : plan_ok m plan -> NoDup plan.
Proof. intros Hp. apply (NoDup_fmap_1 destination), (plan_destinations _ _ Hp). Qed.
Lemma for_file_at s target d d1 plan p : plan_for s target d d1 plan -> p <> resume_path s -> file_at d1 p = file_at d p.
Proof. intros Hp Hr. apply file_at_nodes. by apply (for_resume _ _ _ _ _ Hp). Qed.

(** C7: a move that returns has moved exactly the payload: every file of the torrent has its
    content at its new path and is gone from the old one, an empty file that was missing
    is there, and a missing file that is not empty is still missing. *)
Theorem move_exact s dir suffix d s' d' i p q file :
  move_to_with_partial_file_suffix s dir suffix d = (Ok s', d') ->
  get (files (meta s)) i = Some file -> file_path s i = Ok p -> file_path (moved_storage s dir suffix) i = Ok q -> p <> q ->
  s' = moved_storage s dir suffix
  /\ file_at d' q = match file_at d p with Some c => Some c | None => if mf_length file =? 0 then Some [] else None end
  /\ (is_Some (file_at d p) -> file_at d' p = None).
Proof.
  intros H Hf Hi Hq Hne. destruct (move_run _ _ _ _ _ _ H) as [[_ Hn]|(plan & d1 & r2 & d2 & Hp & Ex & Hs & Hr)].
  { destruct (Hn s' eq_refl) as (_ & Hd & Hsuf). exfalso. apply Hne.
    assert (file_path (moved_storage s dir suffix) i = file_path s i) as E by (unfold file_path; by rewrite <- Hd, <- Hsuf). congruence. }
  destruct r2; try done. injection Hr as ->. split; [done|].
  destruct (plan_for_entry _ _ _ _ _ _ _ _ _ Hp Hf Hi Hq Hne) as (e & He & <- & <- & [_ _ Hk]).
  pose proof (for_plan _ _ _ _ _ Hp) as Hok. pose proof (for_file_at _ _ _ _ _ _ Hp (for_source _ _ _ _ _ Hp e He)) as Hsrc.
  assert (arrived d1 e d2) as [Ha1 Ha2].
  { apply (execute_Ok d1 plan (download_dir (moved_storage s dir suffix)) Hok plan [] [] d1 a d2 Ex); try done.
    - by eapply plan_distinct.
    - by intros ? ?%elem_of_nil.
    - intros e' He'. by apply (plan_starts d1 plan). }
  rewrite !Hs, Ha1. assert (nodes d !! source e = None -> file_at d (source e) = None) as Hnone by (unfold file_at; by intros ->).
  destruct (entry_kind e).
  - destruct Hk as [c Hk%file_at_spec]. rewrite Hsrc, Hk. split; [done|]. intros _. by apply Ha2.
  - destruct Hk as [Hk Hl]. rewrite (Hnone Hk), Hl. split; [done|]. by intros [].
  - destruct Hk as [Hk Hl]. rewrite (Hnone Hk), (proj2 (Z.eqb_neq _ _) Hl). split; [done|]. by intros [].
Qed.

(** C2: a move that fails has put everything back, unless its error says that the rollback
    failed too: every file of the payload is at its old path with its content, and at the
    new paths there is nothing new but, at one of them, what is left of the step that
    failed. *)
Theorem failed_move_restores s dir suffix d x d' :
  move_to_with_partial_file_suffix s dir suffix d = (Err x, d') -> x <> rollback_failed ->
  exists f, forall i p q, file_path s i = Ok p -> file_path (moved_storage s dir suffix) i = Ok q -> p <> q -> p <> resume_path s ->
    (forall c, file_at d p = Some c -> file_at d' p = Some c) /\ (q <> f -> q <> resume_path s -> file_at d' q = file_at d q).
Proof.
  intros H Hx. destruct (move_run _ _ _ _ _ _ H) as [[Hn _]|(plan & d1 & r2 & d2 & Hp & Ex & Hs & Hr)].
  { exists []. intros i p q _ _ _ Hr. split; [intros c; unfold file_at; by rewrite Hn|]. intros _ Hq. apply file_at_nodes. by apply Hn. }
  destruct r2 as [|y| |]; try done. injection Hr as <-. pose proof (for_plan _ _ _ _ _ Hp) as Hok.
  destruct (execute_Err d1 plan _ Hok plan [] d1 x d2 Ex Hx) as [f Hf].
  { intros e He. split; [done|]. by intros ?%elem_of_nil. }
  { by eapply plan_distinct. }
  { split; [by intros e ?%elem_of_nil|constructor|apply conserved_refl|]. intros e He _. by apply (plan_starts d1 plan). }
  exists f. intros i p q Hi Hq Hne Hr. destruct (for_files _ _ _ _ _ Hp i p Hi) as (q' & Hq' & Hor).
  assert (q' = q) as -> by congruence. destruct Hor as [?|(e & file & He & <- & <- & _ & [_ Hfree Hk])]; [done|].
  destruct (Hf e He) as [[Hb _] Hb']. split.
  - intros c Hc. pose proof Hc as Hc'. apply file_at_spec in Hc'. rewrite Hs, Hb; [by rewrite (for_file_at _ _ _ _ _ _ Hp Hr)|].
    destruct (entry_kind e); [done|destruct Hk; congruence..].
  - intros Hqf Hqr. rewrite Hs. destruct (Hb' Hqf) as [_ Hd]. rewrite Hd by done. unfold file_at. by rewrite Hfree.
Qed.
End moves.

(** ** Examples and observations *)

#[local] Existing Instance plain_hex.
Definition file_of (names : list string) (length : Z) : MetaFile := mkMetaFile (map bytes_of names) length None.
Definition moved_meta (files : list MetaFile) : TorrentMeta :=
  mkMeta ZERO Unknown (bytes_of "d") 2 [] files 5 false None [] [] None None None true None None.
Definition at_path (names : list string) : fpath := map bytes_of names.
Definition three_files : StorageIo :=
  storage_new (moved_meta [file_of ["d"; "a"]%string 3; file_of ["d"; "e"]%string 0; file_of ["d"; "g"]%string 2]) (at_path ["in"]%string).
Definition disk_of (files : list (fpath * list byte)) (dirs : list fpath) (fs : list fault) : disk :=
  mkDisk (list_to_map (map (fun e => (e.1, FileNode e.2)) files) ∪ list_to_map (map (fun p => (p, DirNode)) dirs)) fs.
Definition three_disk (fs : list fault) : disk :=
  disk_of [(at_path ["in"; "d"; "a"]%string, bytes_of "abc")]
    [at_path ["in"]%string; at_path ["in"; "d"]%string; at_path ["out"]%string] fs.
(** A torrent whose directory has the name of the directory above the data. *)
Definition nested_files : StorageIo :=
  storage_new (moved_meta [file_of ["a"; "c"; "x"]%string 3; file_of ["a"; "b"; "a"; "c"; "y"]%string 2]) (at_path ["t"; "a"; "b"]%string).
Definition nested_disk (fs : list fault) : disk :=
  disk_of [(at_path ["t"; "a"; "b"; "a"; "c"; "x"]%string, bytes_of "abc"); (at_path ["t"; "a"; "b"; "a"; "b"; "a"; "c"; "y"]%string, bytes_of "de")]
    (ancestors (at_path ["t"; "a"; "b"; "a"; "c"]%string) ++ ancestors (at_path ["t"; "a"; "b"; "a"; "b"; "a"; "c"]%string)) fs.

#[local] Abbreviation out_dir := (at_path ["out"]%string).
#[local] Abbreviation moved := (move_to_with_partial_file_suffix three_files out_dir None (three_disk [])).
(** The last call that fails here closes the move of the empty file. *)
#[local] Abbreviation unsynced := (move_to_with_partial_file_suffix three_files out_dir None (three_disk (replicate 20 Works ++ [Breaks 1]))).

Lemma move_exact_witness :
  exists s' d', moved = (Ok s', d') /\ file_at d' (at_path ["out"; "d"; "a"]%string) = Some (bytes_of "abc")
    /\ file_at d' (at_path ["in"; "d"; "a"]%string) = None /\ file_at d' (at_path ["out"; "d"; "e"]%string) = Some [].
Proof.
  destruct moved as [[s'|x| |] d'] eqn:E; [|exfalso; vm_compute in E; discriminate E..]. exists s', d'. split; [done|].
  destruct (move_exact three_files out_dir None (three_disk []) s' d' 0 (at_path ["in"; "d"; "a"]%string) (at_path ["out"; "d"; "a"]%string)
    (file_of ["d"; "a"]%string 3) E) as (_ & Ha & Hgone); [reflexivity..|by vm_compute|].
  destruct (move_exact three_files out_dir None (three_disk []) s' d' 1 (at_path ["in"; "d"; "e"]%string) (at_path ["out"; "d"; "e"]%string)
    (file_of ["d"; "e"]%string 0) E) as (_ & He & _); [reflexivity..|by vm_compute|].
  split; [exact Ha|]. split; [|exact He]. apply Hgone. by exists (bytes_of "abc").
Defined.

Lemma failed_move_restores_witness :
  exists x d', unsynced = (Err x, d') /\ x <> rollback_failed /\ file_at d' (at_path ["in"; "d"; "a"]%string) = Some (bytes_of "abc").
Proof.
  destruct unsynced as [[s'|x| |] d'] eqn:E; try (exfalso; vm_compute in E; discriminate E).
  assert (x <> rollback_failed) as Hx. { intros ->. vm_compute in E. discriminate E. }
  exists x, d'. split; [done|]. split; [done|].
  destruct (failed_move_restores three_files out_dir None _ x d' E Hx) as [f Hf].
  apply (Hf 0 (at_path ["in"; "d"; "a"]%string) (at_path ["out"; "d"; "a"]%string)); [reflexivity..|by vm_compute|by vm_compute|reflexivity].
Defined.

(** One failing call, the [sync_all] of a file just created, leaves the file behind: it is
    not yet among the completed entries, and the next attempt finds it in the way. *)
Lemma failed_sync_leaves_file :
  let r := move_to three_files out_dir (three_disk (replicate 19 Works ++ [Breaks 1])) in
  r.1 = Err (Io "I/O error") /\ file_at r.2 (at_path ["out"; "d"; "e"]%string) = Some []
  /\ (move_to three_files out_dir r.2).1 = Err (Storage "destination file already exists while moving torrent data").
Proof. vm_compute. auto. Qed.

(** One failing call makes a rollback fail between nested directories: what cleans up after
    one entry removes the emptied directory that the next entry goes back to. *)
Lemma nested_rollback_fails :
  let r := move_to nested_files (at_path ["t"]%string) (nested_disk (replicate 18 Works ++ [Breaks 1])) in
  r.1 = Err rollback_failed /\ faults r.2 = []
  /\ file_at r.2 (at_path ["t"; "a"; "b"; "a"; "c"; "x"]%string) = None
  /\ file_at r.2 (at_path ["t"; "a"; "c"; "x"]%string) = Some (bytes_of "abc").
Proof. vm_compute. auto. Qed.
