(* ===== verification/StorageRw.v ===== *)
(** * Reading and writing a payload: [crates/swarmotter-core/src/storage/io/mod.rs]

    Blocks and pieces of both layouts on the disk of [FileSys].  A write reaches the
    file when it returns, and a read sees it: the cache of handles, its buffers and its
    flushes are not part of the state.  The reference is the payload as one sequence of
    bytes, [byte_at]: a write changes exactly its range, a read returns exactly its
    range, so what was written is read back and no piece overwrites another; no other
    file is touched; the resume file is replaced as a whole or not at all. *)

From S2P Require Import Prelude Text Bits Hash Merkle Meta MetaCorrect Intake V2 Storage Engine StateError FileSys StorageIo StorageMove.

Local Open Scope Z_scope.

(** ** Ranges *)

(** The loop of [byte_ranges_to_file_slices]. *)
Definition push_range (start end_ : Z) (acc : list FileSlice * Z) (entry : Z * MetaFile) : outcome (list FileSlice * Z) :=
  let '(out, offset) := acc in
  let '(i, file) := entry in
  file_end ← ok_or (checked_add offset (mf_length file)) (Storage "file layout overflows");
  if (start <? file_end) && (offset <? end_) then
    let slice_start := Z.max offset start - offset in
    let slice_end := Z.min file_end end_ - offset in
    Ok (out ++ [mkFileSlice i slice_start (slice_end - slice_start)], file_end)
  else Ok (out, file_end).
Definition byte_ranges_to_file_slices (m : TorrentMeta) (start end_ : Z) : outcome (list FileSlice) :=
  if (end_ <? start) || (total_length m <? end_) then Err (Storage "byte range is outside torrent length")
  else '(out, _) ← try_fold (push_range start end_) ([], 0) (enumerate (files m)); Ok out.

Definition piece_range (s : StorageIo) (piece_index : Z) : outcome (Z * Z) :=
  ok_or (piece_byte_range (meta s) piece_index) (Storage "piece out of range").
Definition checked_piece_range (s : StorageIo) (piece_index offset data_len : Z) : outcome (Z * Z) :=
  '(piece_start, piece_end) ← piece_range s piece_index;
  let piece_len := piece_end - piece_start in
  _ ← fail_if (piece_len <? offset) (Storage "write offset exceeds piece length");
  end_offset ← ok_or (checked_add offset data_len) (Storage "write range overflows piece offset");
  _ ← fail_if (piece_len <? end_offset) (Storage "write end exceeds piece length");
  abs_start ← ok_or (checked_add piece_start offset) (Storage "absolute write offset overflows");
  abs_end ← ok_or (checked_add piece_start end_offset) (Storage "absolute write end overflows");
  Ok (abs_start, abs_end).

(** ** Files *)

(** Create the file, or open the one that is there. *)
Definition open_writable_payload_file (p : fpath) : handler disk () :=
  r ← create_new p;
  match r with
  | inl _ => mret ()
  | inr AlreadyExists => _ ← io (open_file p); mret ()
  | inr _ => lift (Err (Io "I/O error"))
  end.
Definition ensure_file_dirs (s : StorageIo) (index : Z) : handler disk () :=
  p ← lift (file_path s index);
  match parent p with Some q => io (create_dir_all q) | None => mret () end.
Definition ensure_dirs (s : StorageIo) : handler disk () :=
  if is_multi_file (meta s) then io (create_dir_all (download_dir s))
  else match parent (download_dir s) with Some q => io (create_dir_all q) | None => mret () end.
Definition validate_file_selection (s : StorageIo) (selected : list bool) : outcome () :=
  fail_if (negb (len selected =? len (files (meta s)))) (Storage "file selection length does not match torrent file count").
Definition ensure_active_layout_for_files (s : StorageIo) (selected : list bool) : handler disk () :=
  _ ← lift (validate_file_selection s selected);
  _ ← ensure_dirs s;
  if len (files (meta s)) =? 0 then mret ()
  else
    _ ← each (fun e => if e.2 : bool then ensure_file_dirs s e.1 else mret ()) (enumerate selected);
    first ← lift (index selected 0);
    if negb (is_multi_file (meta s)) && first then p ← lift (file_path s 0); open_writable_payload_file p else mret ().
Definition ensure_active_layout (s : StorageIo) : handler disk () :=
  ensure_active_layout_for_files s (map (fun _ => true) (files (meta s))).
Definition preallocate_file (s : StorageIo) (e : Z * bool) : handler disk () :=
  if e.2 : bool then
    _ ← ensure_file_dirs s e.1;
    p ← lift (file_path s e.1);
    _ ← open_writable_payload_file p;
    file ← lift (index (files (meta s)) e.1);
    io (set_len p (mf_length file))
  else mret ().
Definition preallocate_files (s : StorageIo) (selected : list bool) : handler disk () :=
  _ ← lift (validate_file_selection s selected);
  _ ← ensure_dirs s;
  each (preallocate_file s) (enumerate selected).
Definition preallocate (s : StorageIo) : handler disk () := preallocate_files s (map (fun _ => true) (files (meta s))).

Definition write_to_file (s : StorageIo) (i offset : Z) (chunk : list byte) : handler disk () :=
  _ ← ensure_file_dirs s i;
  p ← lift (file_path s i);
  _ ← open_writable_payload_file p;
  io (write_at p offset chunk).
Definition read_from_file (s : StorageIo) (i offset length : Z) : handler disk (list byte) :=
  p ← lift (file_path s i);
  _ ← io (open_file p);
  io (read_exact p offset length).

(** ** The contiguous layout *)

Fixpoint write_slices (s : StorageIo) (slices : list FileSlice) (data : list byte) (data_off : Z) : handler disk () :=
  match slices with
  | [] => mret ()
  | sl :: slices =>
      chunk ← lift (slice data data_off (data_off + slice_length sl));
      _ ← write_to_file s (Storage.file_index sl) (offset_in_file sl) chunk;
      write_slices s slices data (data_off + slice_length sl)
  end.
Definition write_file_slices (s : StorageIo) (abs_start abs_end : Z) (data : list byte) : handler disk () :=
  range_len ← lift (ok_or (checked_sub abs_end abs_start) (Storage "invalid storage write range"));
  let data_len := len data in
  _ ← lift (fail_if ((total_length (meta s) <? abs_end) || negb (range_len =? data_len)) (Storage "storage write range does not match"));
  slices ← lift (byte_ranges_to_file_slices (meta s) abs_start abs_end);
  mapped_len ← lift (try_fold (fun total sl => ok_or (checked_add total (slice_length sl)) (Storage "mapped storage write length overflow")) 0 slices);
  _ ← lift (fail_if (negb (mapped_len =? data_len)) (Storage "storage write mapped another length"));
  write_slices s slices data 0.
Definition write_block (s : StorageIo) (piece_index offset : Z) (block : list byte) : handler disk () :=
  '(abs_start, abs_end) ← lift (checked_piece_range s piece_index offset (len block));
  write_file_slices s abs_start abs_end block.
Definition write_piece_range (s : StorageIo) (piece_index offset : Z) (data : list byte) : handler disk () :=
  '(abs_start, abs_end) ← lift (checked_piece_range s piece_index offset (len data));
  write_file_slices s abs_start abs_end data.
Definition write_piece (s : StorageIo) (piece_index : Z) (data : list byte) : handler disk () :=
  '(piece_start, piece_end) ← lift (piece_range s piece_index);
  _ ← lift (fail_if (negb (len data =? piece_end - piece_start)) (Storage "piece write length does not match"));
  write_piece_range s piece_index 0 data.

Fixpoint read_slices (s : StorageIo) (slices : list FileSlice) : handler disk (list byte) :=
  match slices with
  | [] => mret []
  | sl :: slices =>
      buf ← read_from_file s (Storage.file_index sl) (offset_in_file sl) (slice_length sl);
      out ← read_slices s slices;
      mret (buf ++ out)
  end.
Definition read_piece (s : StorageIo) (piece_index : Z) : handler disk (list byte) :=
  '(start, end_) ← lift (piece_range s piece_index);
  slices ← lift (byte_ranges_to_file_slices (meta s) start end_);
  read_slices s slices.
Definition read_block (s : StorageIo) (piece_index offset length : Z) : handler disk (list byte) :=
  '(abs_start, abs_end) ← lift (checked_piece_range s piece_index offset length);
  slices ← lift (byte_ranges_to_file_slices (meta s) abs_start abs_end);
  out ← read_slices s slices;
  _ ← lift (fail_if (negb (len out =? length)) (Storage "storage read returned another length"));
  mret out.

(** ** The file-aligned layout *)

Definition check_file_range (s : StorageIo) (i offset length : Z) : outcome () :=
  file ← ok_or (get (files (meta s)) i) (Storage "file index out of range");
  end_ ← ok_or (checked_add offset length) (Storage "BEP 52 storage offset overflows");
  fail_if (mf_length file <? end_) (Storage "BEP 52 storage range exceeds file length").
Definition write_v2_file_range (s : StorageIo) (i offset : Z) (data : list byte) : handler disk () :=
  _ ← lift (check_file_range s i offset (len data)); write_to_file s i offset data.
Definition read_v2_file_range (s : StorageIo) (i offset length : Z) : handler disk (list byte) :=
  _ ← lift (check_file_range s i offset length); read_from_file s i offset length.

Definition write_v2_piece (s : StorageIo) (layout : V2PieceLayout) (piece_index : Z) (data : list byte) : handler disk () :=
  piece ← lift (ok_or (V2.piece layout piece_index) (Storage "BEP 52 piece out of range"));
  _ ← lift (fail_if (negb (len data =? piece_len piece)) (Storage "BEP 52 piece write length does not match"));
  write_v2_file_range s (V2.file_index piece) (offset piece) data.
Definition read_v2_piece (s : StorageIo) (layout : V2PieceLayout) (piece_index : Z) : handler disk (list byte) :=
  piece ← lift (ok_or (V2.piece layout piece_index) (Storage "BEP 52 piece out of range"));
  read_v2_file_range s (V2.file_index piece) (offset piece) (piece_len piece).
Definition read_v2_block (s : StorageIo) (layout : V2PieceLayout) (piece_index o length : Z) : handler disk (list byte) :=
  piece ← lift (ok_or (V2.piece layout piece_index) (Storage "BEP 52 piece out of range"));
  end_ ← lift (ok_or (checked_add o length) (Storage "BEP 52 block range overflows"));
  _ ← lift (fail_if (piece_len piece <? end_) (Storage "BEP 52 block range exceeds piece length"));
  file_offset ← lift (ok_or (checked_add (offset piece) o) (Storage "BEP 52 file offset overflows"));
  read_v2_file_range s (V2.file_index piece) file_offset length.

(** ** Verification *)

Section verify.
Context {D : Digests}.

(** [Err(CoreError::Io(_)) => return Ok(false)]. *)
Definition or_missing (read : handler disk (list byte)) (check : list byte -> outcome bool) : handler disk bool :=
  r ← attempt read;
  match r with
  | inl data => lift (check data)
  | inr (Io _) => mret false
  | inr e => lift (Err e)
  end.
Definition verify_piece_on_disk (s : StorageIo) (piece_index : Z) : handler disk bool :=
  if len (pieces (meta s)) <=? piece_index then mret false
  else or_missing (read_piece s piece_index) (fun data => Ok (verify_piece (meta s) piece_index data)).
Definition verify_v2_piece_on_disk (s : StorageIo) (layout : V2PieceLayout) (piece_index : Z) : handler disk bool :=
  match V2.piece layout piece_index with
  | None => mret false
  | Some _ => or_missing (read_v2_piece s layout piece_index) (fun data => V2.verify_piece layout piece_index data)
  end.
Fixpoint recheck_pieces (verify : Z -> handler disk bool) (indices : list Z) (bf : PieceBitfield) : handler disk PieceBitfield :=
  match indices with
  | [] => mret bf
  | i :: indices => b ← verify i; recheck_pieces verify indices (if b : bool then bf_set bf i else bf)
  end.
Definition recheck (s : StorageIo) : handler disk PieceBitfield :=
  let n := meta_piece_count (meta s) in recheck_pieces (verify_piece_on_disk s) (seqZ 0 n) (bf_new n).
Definition recheck_v2 (s : StorageIo) (layout : V2PieceLayout) : handler disk PieceBitfield :=
  let n := layout_piece_count layout in recheck_pieces (verify_v2_piece_on_disk s layout) (seqZ 0 n) (bf_new n).
End verify.

(** ** The resume file *)

Section resume.
Context {X : HexCodec} `{ResumeJson}.
(** The process and the number the process gives to its next temporary name. *)
Variable suffix : text.

Definition temporary_sibling_path (p : fpath) (kind : string) : outcome fpath :=
  name ← ok_or (last p) (Storage "path has no file name");
  Ok (removelast p ++ [name ++ bytes_of "." ++ bytes_of kind ++ suffix]).
Definition write_resume (temporary p : fpath) (json : text) : handler disk () :=
  _ ← io (create_new temporary);
  _ ← io (write_at temporary 0 json);
  _ ← io effectless; _ ← io effectless;
  _ ← io (rename temporary p);
  sync_parent_directory p.
Definition save_resume (s : StorageIo) (resume : FastResume) : handler disk fpath :=
  _ ← lift (fail_if (negb (bool_decide (key resume = torrent_key s))) (Storage "refusing to save resume through another storage handle"));
  p ← lift (checked_resume_path s);
  _ ← match parent p with Some q => io (create_dir_all q) | None => mret () end;
  temporary ← lift (temporary_sibling_path p "tmp");
  r ← attempt (write_resume temporary p (serialize_json resume));
  match r with
  | inl _ => mret p
  | inr e => _ ← ignore (remove_file temporary); lift (Err e)
  end.
End resume.

(** ** The payload as a sequence of bytes *)

Fixpoint payload_at (s : StorageIo) (d : disk) (k off : Z) (fs : list MetaFile) (n : Z) : option byte :=
  match fs with
  | [] => None
  | f :: fs =>
      if (off <=? n) && (n <? off + mf_length f) then
        match file_path s k with Ok p => c ← file_at d p; c !! Z.to_nat (n - off) | _ => None end
      else payload_at s d (k + 1) (off + mf_length f) fs n
  end.
Definition byte_at (s : StorageIo) (d : disk) (n : Z) : option byte := payload_at s d 0 0 (files (meta s)) n.

(** The file of a slice is long enough for it. *)
Definition present (s : StorageIo) (d : disk) (sl : FileSlice) : Prop :=
  exists p c, file_path s (Storage.file_index sl) = Ok p /\ file_at d p = Some c
    /\ offset_in_file sl + slice_length sl <= len c.

Lemma lookup_overwrite c o data j :
  overwrite c o data !! j =
    if (j <? o)%nat then (c ++ replicate (o - length c) x00) !! j
    else if (j <? o + length data)%nat then data !! (j - o)%nat else c !! j.
Proof.
  unfold overwrite. assert (length (take o (c ++ replicate (o - length c) x00)) = o) as Hl.
  { rewrite length_take, length_app, length_replicate. lia. }
  destruct (Nat.ltb_spec j o); [by rewrite lookup_app_l, lookup_take_lt by lia|].
  rewrite lookup_app_r by lia. rewrite Hl. destruct (Nat.ltb_spec j (o + length data)); [by rewrite lookup_app_l by lia|].
  rewrite lookup_app_r by lia. rewrite lookup_drop. f_equal. lia.
Qed.
Lemma overwrite_keeps c o data j x : (j < o)%nat \/ (o + length data <= j)%nat -> c !! j = Some x -> overwrite c o data !! j = Some x.
Proof.
  intros Hj Hx. rewrite lookup_overwrite. destruct (Nat.ltb_spec j o).
  - rewrite lookup_app_l; [done|by eapply lookup_lt_Some].
  - by rewrite (proj2 (Nat.ltb_ge _ _)) by lia.
Qed.
Lemma length_overwrite c o data : (length c <= length (overwrite c o data))%nat /\ (o + length data <= length (overwrite c o data))%nat.
Proof. unfold overwrite. rewrite !length_app, length_take, length_app, length_replicate, length_drop. lia. Qed.

Lemma payload_at_ext s d d' fs : forall k off n,
  (forall j p, k <= j -> file_path s j = Ok p -> same_file_at d d' p) -> payload_at s d' k off fs n = payload_at s d k off fs n.
Proof.
  induction fs as [|f fs IH]; intros k off n Hs; [done|]. cbn [payload_at].
  rewrite IH by (intros j p Hj; apply Hs; lia). case_match; [|done].
  destruct (file_path s k) as [p| | |] eqn:E; try done. by rewrite (Hs k p) by (done || lia).
Qed.
Lemma payload_at_before s d fs : forall k off n, n < off -> unsigned_files fs -> payload_at s d k off fs n = None.
Proof.
  induction fs as [|f fs IH]; intros k off n Hn Hu; [done|]. apply Forall_cons in Hu as [Hf Hu]. cbn [payload_at].
  rewrite (proj2 (Z.leb_gt off n)) by lia. cbn [andb]. apply IH; [lia|done].
Qed.

(** ** Steps at one file *)

Lemma ensure_dirs_files s i d r d' q : ensure_file_dirs s i d = (r, d') -> same_file_at d d' q.
Proof.
  unfold ensure_file_dirs. intros H. rewrite bind_run in H. unfold lift in H.
  destruct (file_path s i) as [p| | |]; [|by injection H as _ <-..]. destruct (parent p) as [p'|]; [|by injection H as _ <-].
  unfold io in H. rewrite bind_run in H. destruct (create_dir_all p' d) as [x d1] eqn:E.
  pose proof (create_dir_all_files _ _ _ _ q E). destruct x as [[]| | |]; by injection H as _ <-.
Qed.
Lemma open_writable_inv p d r d' : open_writable_payload_file p d = (r, d') ->
  nodes d' = nodes d \/ nodes d !! p = None /\ nodes d' = <[p := FileNode []]> (nodes d).
Proof.
  unfold open_writable_payload_file. intros H. rewrite bind_run in H. destruct (create_new p d) as [x d1] eqn:E.
  apply create_new_inv in E as [(-> & Hp & E)|(e & -> & E)]; [injection H as _ <-; by right|left].
  destruct e; [by injection H as _ <-| |by injection H as _ <-].
  rewrite bind_run in H. destruct (io (open_file p) d1) as [y d2] eqn:E2.
  assert (nodes d2 = nodes d1) as E3.
  { apply io_syscall_inv in E2 as [(a & _ & E2)|(k & _ & E2)]; [|done]. destruct (nodes d1 !! p) as [[]|]; try done. by injection E2. }
  destruct y; injection H as _ <-; congruence.
Qed.
(** What a write does to its file, and that it does nothing else. *)
Lemma write_to_file_inv s i o chunk d r d' : write_to_file s i o chunk d = (r, d') ->
  (forall q, file_path s i <> Ok q -> same_file_at d d' q)
  /\ (r = Ok () -> exists p c, file_path s i = Ok p /\ (file_at d p = Some c \/ file_at d p = None /\ c = [])
        /\ file_at d' p = Some (overwrite c (Z.to_nat o) chunk)).
Proof.
  intros H. unfold write_to_file in H. rewrite bind_run in H. destruct (ensure_file_dirs s i d) as [x d1] eqn:E1.
  pose proof (fun q => ensure_dirs_files _ _ _ _ _ q E1) as Hd1. destruct x; [|injection H as <- <-; split; [intros q _; apply Hd1|done]..].
  rewrite bind_run in H. unfold lift in H. destruct (file_path s i) as [p| | |] eqn:Ep; [|injection H as <- <-; split; [intros q _; apply Hd1|done]..].
  rewrite bind_run in H. destruct (open_writable_payload_file p d1) as [y d2] eqn:E2.
  assert (forall q, Ok p <> Ok q -> same_file_at d d2 q) as Hd2.
  { intros q Hq. etransitivity; [|apply Hd1]. apply file_at_nodes. apply open_writable_inv in E2 as [->|[_ ->]]; [done|].
    rewrite lookup_insert_ne; [done|]. intros ->. done. }
  destruct y; [|injection H as <- <-; split; [apply Hd2|done]..].
  unfold io in H. rewrite bind_run in H. destruct (write_at p o chunk d2) as [z d3] eqn:E3. apply write_at_inv in E3 as [(c & -> & Hc & E3)|(k & -> & E3)].
  - injection H as <- <-. split.
    + intros q Hq. etransitivity; [|by apply Hd2]. apply file_at_nodes. rewrite E3, lookup_insert_ne; [done|]. intros ->. done.
    + intros _. exists p, c. split; [done|]. split; [|apply file_at_spec; by rewrite E3, lookup_insert_eq].
      rewrite <- !Hd1. apply open_writable_inv in E2 as [E2|[Hn E2]].
      * left. apply file_at_spec. by rewrite <- E2.
      * right. split; [unfold file_at; by rewrite Hn|]. rewrite E2, lookup_insert_eq in Hc. by injection Hc as <-.
  - injection H as <- <-. split; [|done]. intros q Hq. etransitivity; [|by apply Hd2].
    destruct E3 as [E3|(c & n & _ & E3)]; apply file_at_nodes; rewrite E3; [done|]. rewrite lookup_insert_ne; [done|]. intros ->. done.
Qed.

(** ** Ranges of the payload *)

Lemma push_range_Ok a b acc e r : push_range a b acc e = Ok r <-> push_slice a b acc e = Ok r.
Proof. destruct acc as [out off], e as [i f]. unfold push_range, push_slice. by destruct (checked_add off (mf_length f)). Qed.
Lemma try_fold_Ok_ext {A B} (f g : B -> A -> outcome B) l : (forall b a r, f b a = Ok r <-> g b a = Ok r) ->
  forall b r, try_fold f b l = Ok r <-> try_fold g b l = Ok r.
Proof.
  intros H. induction l as [|a l IH]; intros b r; cbn [try_fold]; [done|]. rewrite !bind_Ok.
  split; intros (b' & E & E'); exists b'; (split; [by apply H|by apply IH]).
Qed.

Section valid.
Context {X : HexCodec}.
Variable s : StorageIo.
Hypothesis Hfiles : valid_files (files (meta s)) (total_length (meta s)).
Hypothesis Hunsigned : unsigned_files (files (meta s)).
(** The storage owns its paths. *)
Hypothesis Hpaths : forall i j p, file_path s i = Ok p -> file_path s j = Ok p -> i = j.

Lemma ranges_slices a b l : byte_ranges_to_file_slices (meta s) a b = Ok l ->
  a <= b <= total_length (meta s) /\ l = slices_from a b 0 0 (files (meta s)).
Proof.
  unfold byte_ranges_to_file_slices. destruct (_ || _) eqn:E; [done|]. apply orb_false_iff in E as [E1%Z.ltb_ge E2%Z.ltb_ge].
  intros ([out off] & H & [= <-])%bind_Ok. split; [lia|]. rewrite (try_fold_Ok_ext _ (push_slice a b)) in H by apply push_range_Ok.
  rewrite enumerate_from, push_slices in H; [by injection H as <-|done..|]. destruct Hfiles as [_ _ _ -> ?]. lia.
Qed.

Lemma present_later d d' sl : (forall p c, file_at d p = Some c -> exists c', file_at d' p = Some c' /\ len c <= len c') ->
  present s d sl -> present s d' sl.
Proof.
  intros H (p & c & Hp & Hc & Hl). destruct (H p c Hc) as (c' & Hc' & Hl'). exists p, c'. split_and!; [done..|lia].
Qed.
Lemma write_to_file_grows i o chunk d d' p c : write_to_file s i o chunk d = (Ok (), d') ->
  file_at d p = Some c -> exists c', file_at d' p = Some c' /\ len c <= len c'.
Proof.
  intros [Hs H]%write_to_file_inv Hc. destruct (H eq_refl) as (q & c0 & Hq & Hor & Hc').
  destruct (decide (q = p)) as [->|Hne].
  - eexists. split; [exact Hc'|]. destruct Hor as [Hor|[Hor _]]; [|congruence]. assert (c0 = c) as -> by congruence.
    pose proof (length_overwrite c (Z.to_nat o) chunk). unfold len. lia.
  - exists c. split; [|done]. rewrite Hs; [done|]. congruence.
Qed.

Lemma write_slices_grows slices data : forall o d u d' p c, write_slices s slices data o d = (Ok u, d') ->
  file_at d p = Some c -> exists c', file_at d' p = Some c' /\ len c <= len c'.
Proof.
  induction slices as [|sl slices IH]; intros o d u d' p c H Hc; cbn [write_slices] in H.
  { injection H as _ <-. by exists c. }
  apply bind_Ok_inv in H as (chunk & d1 & [= _ <-] & H). apply bind_Ok_inv in H as ([] & d2 & E & H).
  destruct (write_to_file_grows _ _ _ _ _ _ _ E Hc) as (c1 & Hc1 & Hl1). destruct (IH _ _ _ _ _ _ H Hc1) as (c2 & Hc2 & Hl2).
  exists c2. split; [done|lia].
Qed.
Lemma write_slices_touches slices data : forall o d r d' q, write_slices s slices data o d = (r, d') ->
  (forall sl, sl ∈ slices -> file_path s (Storage.file_index sl) <> Ok q) -> same_file_at d d' q.
Proof.
  induction slices as [|sl slices IH]; intros o d r d' q H Hq; cbn [write_slices] in H.
  { by injection H as _ <-. }
  rewrite bind_run in H. unfold lift in H. destruct (slice data o (o + slice_length sl)) as [chunk| | |]; [|by injection H as _ <-..].
  rewrite bind_run in H. destruct (write_to_file s (Storage.file_index sl) (offset_in_file sl) chunk d) as [x d1] eqn:E.
  apply write_to_file_inv in E as [E _]. assert (same_file_at d d1 q) as H1 by (apply E, Hq; by left).
  destruct x; [|by injection H as _ <-..]. etransitivity; [|exact H1]. apply (IH _ _ _ _ q H). intros sl' Hsl'. apply Hq. by right.
Qed.
Lemma write_slices_present slices data : forall o d u d', write_slices s slices data o d = (Ok u, d') ->
  Forall (fun sl => 0 <= offset_in_file sl) slices -> Forall (present s d') slices.
Proof.
  induction slices as [|sl slices IH]; intros o d u d' H Hpos; [constructor|]. cbn [write_slices] in H. apply Forall_cons in Hpos as [Ho Hpos].
  apply bind_Ok_inv in H as (chunk & d1 & [= Hch <-] & H). apply bind_Ok_inv in H as ([] & d2 & E & H).
  constructor; [|by eapply IH]. apply (present_later d2); [intros p c; by eapply write_slices_grows|].
  apply write_to_file_inv in E as [_ E]. destruct (E eq_refl) as (p & c & Hp & _ & Hc). exists p. eexists. split; [done|]. split; [exact Hc|].
  unfold slice in Hch. destruct (_ && _) eqn:Eb; [|done]. apply andb_true_iff in Eb as [[Eb1%Z.leb_le Eb2%Z.leb_le]%andb_true_iff Eb3%Z.leb_le].
  injection Hch as <-. match goal with |- _ <= len (overwrite ?c ?o ?d) => pose proof (length_overwrite c o d) as [_ Hl] end.
  rewrite length_take, length_drop in Hl. unfold len in *. lia.
Qed.

Lemma slices_from_index a b k off fs sl : sl ∈ slices_from a b k off fs -> k <= Storage.file_index sl.
Proof.
  revert k off. induction fs as [|f fs IH]; intros k off; cbn [slices_from]; [by intros ?%elem_of_nil|].
  intros [H|H%IH]%elem_of_app; [|lia]. unfold slice_of in H. case_match; [|by apply elem_of_nil in H]. apply list_elem_of_singleton in H as ->. cbn. lia.
Qed.

Lemma slices_from_offset a b k off fs sl : sl ∈ slices_from a b k off fs -> 0 <= offset_in_file sl.
Proof.
  revert k off. induction fs as [|f fs IH]; intros k off; cbn [slices_from]; [by intros ?%elem_of_nil|].
  intros [H|H%IH]%elem_of_app; [|done]. unfold slice_of in H. case_match; [|by apply elem_of_nil in H]. apply list_elem_of_singleton in H as ->. cbn. lia.
Qed.

(** A write of the bytes [[a, b)] changes exactly these bytes. *)
Lemma write_slices_bytes a b fs data : a <= b -> len data = b - a -> unsigned_files fs -> forall k off o d u d',
  (off < b -> o = Z.max a off - a) -> write_slices s (slices_from a b k off fs) data o d = (Ok u, d') ->
  forall n, off <= n ->
    (a <= n < b -> n < off + zsum mf_length fs -> payload_at s d' k off fs n = data !! Z.to_nat (n - a))
    /\ (forall x, n < a \/ b <= n -> payload_at s d k off fs n = Some x -> payload_at s d' k off fs n = Some x).
Proof.
  intros Hab Hlen. induction fs as [|f fs IH]; intros Hu k off o d u d' Ho H n Hn.
  { cbn in *. rewrite zsum_nil. split; [lia|done]. }
  apply Forall_cons in Hu as [Hf Hu]. cbn [slices_from payload_at] in *. rewrite zsum_cons.
  unfold slice_of in H. destruct (Z.ltb_spec a (off + mf_length f)) as [H1|H1]; cbn [andb] in H;
    [destruct (Z.ltb_spec off b) as [H2|H2]|]; cbn [app] in H.
  2-3: destruct (IH Hu (k + 1) (off + mf_length f) o d u d' ltac:(lia) H (Z.max n (off + mf_length f)) ltac:(lia)) as [Ha Hb].
  2-3: assert (forall p, file_path s k = Ok p -> same_file_at d d' p) as Hk by
      (intros p Hp; eapply write_slices_touches; [exact H|]; intros sl Hsl%slices_from_index Hq; pose proof (Hpaths _ _ _ Hp Hq); lia).
  2-3: destruct (Z.leb_spec off n); [|lia]; destruct (Z.ltb_spec n (off + mf_length f)); cbn [andb];
      [split; [lia|intros x _; destruct (file_path s k) as [p| | |] eqn:Ep; [by rewrite (Hk p)|done..]]|].
  2-3: rewrite Z.max_l in Ha, Hb by lia; split; [intros; apply Ha; lia|done].
  cbn [write_slices] in H. specialize (Ho H2). cbn [slice_length Storage.file_index offset_in_file] in H.
  set (w := Z.max off a - off) in *. set (L := Z.min (off + mf_length f) b - off - w) in *.
  apply bind_Ok_inv in H as (chunk & d0 & [= Hch <-] & H). apply bind_Ok_inv in H as ([] & d1 & E & H).
  pose proof E as E'. apply write_to_file_inv in E' as [Hs1 Hw]. destruct (Hw eq_refl) as (p & c & Hp & Hc & Hc1). rewrite Hp.
  assert (same_file_at d1 d' p) as Hp1.
  { eapply write_slices_touches; [exact H|]. intros sl Hsl%slices_from_index Hq. pose proof (Hpaths _ _ _ Hp Hq). lia. }
  destruct (IH Hu (k + 1) (off + mf_length f) (o + L) d1 u d' ltac:(lia) H (Z.max n (off + mf_length f)) ltac:(lia)) as [Ha Hb].
  unfold slice in Hch. destruct (_ && _) eqn:Eb; [|done]. injection Hch as <-.
  apply andb_true_iff in Eb as [[Eb1%Z.leb_le Eb2%Z.leb_le]%andb_true_iff Eb3%Z.leb_le].
  destruct (Z.leb_spec off n); [|lia]. destruct (Z.ltb_spec n (off + mf_length f)); cbn [andb].
  - rewrite Hp1, Hc1. cbn. split.
    + intros Hr _. rewrite lookup_overwrite, length_take, length_drop. unfold len in *.
      rewrite (proj2 (Nat.ltb_ge _ _)), (proj2 (Nat.ltb_lt _ _)) by lia. rewrite lookup_take_lt, lookup_drop by lia. f_equal. lia.
    + intros x Hr Hx. destruct (file_at d p) as [c0|] eqn:E0; [|done]. cbn in Hx. destruct Hc as [[= ->]|[? _]]; [|done].
      rewrite Hp1, Hc1. cbn. apply overwrite_keeps; [|done]. rewrite length_take, length_drop. unfold len in *. lia.
  - rewrite Z.max_l in Ha, Hb by lia. split; [intros; apply Ha; lia|]. intros x Hr Hx. apply Hb; [done|]. rewrite <- Hx.
    apply payload_at_ext. intros j q Hj Hq. apply Hs1. intros Hk. pose proof (Hpaths _ _ _ Hk Hq). lia.
Qed.

(** ** Reading *)

Lemma read_from_file_inv i o l d out d' : read_from_file s i o l d = (Ok out, d') ->
  nodes d' = nodes d /\ exists p c, file_path s i = Ok p /\ file_at d p = Some c /\ o + l <= len c
    /\ out = take (Z.to_nat l) (drop (Z.to_nat o) c).
Proof.
  intros (p & d0 & [= Hp <-] & H)%bind_Ok_inv. apply bind_Ok_inv in H as (n & d1 & E1 & H).
  apply io_syscall_inv in E1 as [(x & _ & E1)|(k & ? & _)]; [|done]. apply io_syscall_inv in H as [(y & Hy & H)|(k & ? & _)]; [|done].
  injection Hy as <-. assert (nodes d1 = nodes d) as En by (destruct (nodes d !! p) as [[]|]; by simplify_eq).
  rewrite En in H. destruct (nodes d !! p) as [[c| |]|] eqn:Ec; try done. destruct (Z.leb_spec (o + l) (len c)); [|done].
  injection H as <- Hn. split; [done|]. exists p, c. split_and!; [done|by apply file_at_spec|done|done].
Qed.
Lemma read_from_file_total i o l d : faults d = [] -> present s d (mkFileSlice i o l) -> exists out, read_from_file s i o l d = (Ok out, d).
Proof.
  intros Hf (p & c & Hp & Hc%file_at_spec & Hl). cbn in Hp, Hl. destruct d as [m fs]. cbn in Hf, Hc. subst fs.
  unfold read_from_file. rewrite bind_run. unfold lift. rewrite Hp. rewrite bind_run.
  assert (io (open_file p) (mkDisk m []) = (Ok (len c), mkDisk m [])) as ->.
  { unfold io, open_file, syscall. rewrite bind_run. cbn. by rewrite Hc. }
  unfold io, read_exact, syscall. rewrite bind_run. cbn. rewrite Hc, (proj2 (Z.leb_le _ _)) by done. by eexists.
Qed.
Lemma present_nodes d d' sl : nodes d' = nodes d -> present s d' sl -> present s d sl.
Proof. intros E (p & c & Hp & Hc & Hl). exists p, c. split_and!; [done| |done]. apply file_at_spec. rewrite <- E. by apply file_at_spec. Qed.

Lemma read_slices_total slices d : faults d = [] -> Forall (present s d) slices -> exists out, read_slices s slices d = (Ok out, d).
Proof.
  intros Hf H. induction H as [|[i o l] slices Hsl _ [out IH]]; [by exists []|]. cbn [read_slices Storage.file_index offset_in_file slice_length].
  destruct (read_from_file_total i o l d Hf Hsl) as [buf E]. exists (buf ++ out). rewrite bind_run, E, bind_run, IH. done.
Qed.

Lemma payload_at_nodes d d' fs : nodes d' = nodes d -> forall k off n, payload_at s d' k off fs n = payload_at s d k off fs n.
Proof. intros E k off n. apply payload_at_ext. intros j p _ _. apply file_at_nodes. by rewrite E. Qed.

(** A read of the bytes [[a, b)] returns these bytes. *)
Lemma read_slices_bytes a b fs : a <= b -> unsigned_files fs -> forall k off d out d',
  read_slices s (slices_from a b k off fs) d = (Ok out, d') ->
  nodes d' = nodes d /\ Forall (present s d) (slices_from a b k off fs)
  /\ len out = Z.max 0 (Z.min b (off + zsum mf_length fs) - Z.max a off)
  /\ forall n, Z.max a off <= n < Z.min b (off + zsum mf_length fs) -> payload_at s d k off fs n = out !! Z.to_nat (n - Z.max a off).
Proof.
  intros Hab. induction fs as [|f fs IH]; intros Hu k off d out d' H.
  { cbn in H. injection H as <- <-. rewrite zsum_nil. split_and!; [done|constructor|change (len []) with 0; lia|lia]. }
  apply Forall_cons in Hu as [Hf Hu]. cbn [slices_from payload_at] in *. rewrite zsum_cons.
  assert (0 <= zsum mf_length fs) as Hz by (apply zsum_nonneg; intros x Hx; unfold unsigned_files in Hu; rewrite Forall_forall in Hu; auto).
  unfold slice_of in *. destruct (Z.ltb_spec a (off + mf_length f)) as [H1|H1]; cbn [andb] in *;
    [destruct (Z.ltb_spec off b) as [H2|H2]|]; cbn [app] in *.
  2-3: destruct (IH Hu _ _ _ _ _ H) as (En & Hp & Hl & Hb); split; [done|]; split; [done|]; split; [lia|]; intros n Hn;
       destruct (Z.leb_spec off n); [|lia]; destruct (Z.ltb_spec n (off + mf_length f)); [lia|]; cbn [andb];
       rewrite Hb by lia; f_equal; lia.
  cbn [read_slices Storage.file_index offset_in_file slice_length] in H.
  apply bind_Ok_inv in H as (buf & d1 & E & H). apply bind_Ok_inv in H as (out' & d2 & E2 & [= <- <-]).
  apply read_from_file_inv in E as (En & p & c & Hp & Hc & Hlc & ->).
  destruct (IH Hu _ _ _ _ _ E2) as (En2 & Hps & Hl & Hb). rewrite En in En2.
  set (w := Z.max off a - off) in *. set (L := Z.min (off + mf_length f) b - off - w) in *.
  assert (len (take (Z.to_nat L) (drop (Z.to_nat w) c)) = L) as HL by (unfold len in *; rewrite length_take, length_drop; lia).
  split; [done|]. split.
  { constructor; [by exists p, c|]. eapply Forall_impl; [exact Hps|]. intros sl. by apply present_nodes. }
  split; [rewrite len_app, HL; lia|]. intros n Hn. destruct (Z.leb_spec off n); [|lia]. rewrite Hp.
  destruct (Z.ltb_spec n (off + mf_length f)); cbn [andb].
  - rewrite Hc. cbn. rewrite lookup_app_l by (unfold len in HL; lia). rewrite lookup_take_lt, lookup_drop by lia. f_equal. lia.
  - rewrite <- (payload_at_nodes d d1), Hb by (done || lia). rewrite lookup_app_r by (unfold len in HL; lia). f_equal. unfold len in HL. lia.
Qed.
End valid.

(** ** What is written is read back *)

Definition settled (d : disk) : disk := mkDisk (nodes d) [].

Lemma ownership_inj `{X : HexCodec} s o : path_ownership s = Ok o -> forall i j p, file_path s i = Ok p -> file_path s j = Ok p -> i = j.
Proof.
  intros (ps & Hps & Hn & _ & _)%path_ownership_Ok i j p Hi Hj.
  destruct (paths_of_elem _ _ _ _ Hps Hi) as (k & -> & Hk), (paths_of_elem _ _ _ _ Hps Hj) as (k' & -> & Hk').
  f_equal. exact (NoDup_lookup ps _ _ _ Hn Hk Hk').
Qed.
Lemma ownership_path `{X : HexCodec} s o i : path_ownership s = Ok o -> 0 <= i < len (files (meta s)) -> exists p, file_path s i = Ok p.
Proof.
  intros (ps & Hps & _)%path_ownership_Ok Hi.
  destruct (Forall2_lookup_l _ _ _ (Z.to_nat i) i Hps) as (p & _ & Hp); [apply lookup_seqZ; lia|by exists p].
Qed.

(** Metadata of the contiguous layout, and a storage that owns its paths. *)
Class V1Storage `{X : HexCodec} (s : StorageIo) := {
  v1_files : valid_files (files (meta s)) (total_length (meta s));
  v1_unsigned : unsigned_files (files (meta s));
  v1_layout : valid_v1_layout (meta s);
  v1_piece_length : 0 < piece_length (meta s) <= MAX_PIECE_LENGTH;
  v1_owned : exists o, path_ownership s = Ok o }.

Section roundtrip.
Context `{V : V1Storage s}.

Lemma v1_paths i j p : file_path s i = Ok p -> file_path s j = Ok p -> i = j.
Proof. destruct v1_owned as [o Ho]. by apply (ownership_inj s o). Qed.
Lemma byte_at_settled d n : byte_at s (settled d) n = byte_at s d n.
Proof. by apply payload_at_nodes. Qed.
Lemma present_settled d sl : present s (settled d) sl <-> present s d sl.
Proof. split; by apply present_nodes. Qed.
Lemma v1_total : zsum mf_length (files (meta s)) = total_length (meta s).
Proof. by destruct v1_files. Qed.
Lemma ranges_total a b : 0 <= a <= b -> b <= total_length (meta s) -> byte_ranges_to_file_slices (meta s) a b = Ok (slices_from a b 0 0 (files (meta s))).
Proof.
  intros Hab Hb. unfold byte_ranges_to_file_slices. rewrite (proj2 (Z.ltb_ge b a)), (proj2 (Z.ltb_ge _ b)) by lia. cbn [orb].
  assert (try_fold (push_range a b) ([], 0) (enumerate (files (meta s))) = Ok ([] ++ slices_from a b 0 0 (files (meta s)), 0 + zsum mf_length (files (meta s)))) as ->; [|done].
  apply (try_fold_Ok_ext _ (push_slice a b)); [apply push_range_Ok|]. rewrite enumerate_from. apply push_slices; [done|apply v1_unsigned|].
  rewrite v1_total. destruct v1_files. lia.
Qed.

Definition read_range (a b : Z) : handler disk (list byte) := read_slices s (slices_from a b 0 0 (files (meta s))).
Lemma read_range_Ok a b d out d' : 0 <= a <= b -> b <= total_length (meta s) -> read_range a b d = (Ok out, d') ->
  Forall (present s d) (slices_from a b 0 0 (files (meta s))) /\ len out = b - a
  /\ forall n, a <= n < b -> byte_at s d n = out !! Z.to_nat (n - a).
Proof.
  intros Hab Hb H. destruct (read_slices_bytes s a b (files (meta s)) ltac:(lia) v1_unsigned 0 0 d out d' H) as (_ & Hp & Hl & Hn).
  rewrite v1_total, (Z.max_l a 0) in Hl, Hn by lia. split; [done|]. split; [lia|]. intros n Hr. apply Hn. lia.
Qed.
Lemma read_range_total a b d out : faults d = [] -> 0 <= a <= b -> b <= total_length (meta s) ->
  Forall (present s d) (slices_from a b 0 0 (files (meta s))) -> len out = b - a ->
  (forall n, a <= n < b -> byte_at s d n = out !! Z.to_nat (n - a)) -> read_range a b d = (Ok out, d).
Proof.
  intros Hf Hab Hb Hp Hl Hn. destruct (read_slices_total s _ d Hf Hp) as [out' E]. unfold read_range. rewrite E. f_equal. f_equal.
  destruct (read_range_Ok a b d out' d Hab Hb E) as (_ & Hl' & Hn'). apply list_eq. intros i.
  destruct (decide (i < length out)%nat) as [Hi|Hi].
  - specialize (Hn (a + Z.of_nat i)). specialize (Hn' (a + Z.of_nat i)). replace (Z.to_nat (a + Z.of_nat i - a)) with i in * by lia.
    unfold len in *. rewrite <- Hn, <- Hn' by lia. done.
  - rewrite !lookup_ge_None_2; [done|unfold len in *; lia..].
Qed.

Lemma write_range_Ok a b data d u d' : 0 <= a -> write_file_slices s a b data d = (Ok u, d') ->
  a <= b <= total_length (meta s) /\ len data = b - a /\ Forall (present s d') (slices_from a b 0 0 (files (meta s)))
  /\ (forall n, a <= n < b -> byte_at s d' n = data !! Z.to_nat (n - a))
  /\ (forall n x, n < a \/ b <= n -> byte_at s d n = Some x -> byte_at s d' n = Some x)
  /\ (forall p c, file_at d p = Some c -> exists c', file_at d' p = Some c' /\ len c <= len c').
Proof.
  intros Ha H. unfold write_file_slices in H. apply bind_Ok_inv in H as (range_len & d0 & [= Hr <-] & H).
  apply bind_Ok_inv in H as ([] & d0 & [= Hc <-] & H). apply bind_Ok_inv in H as (slices & d0 & [= Hs <-] & H).
  apply bind_Ok_inv in H as (mapped & d0 & [= _ <-] & H). apply bind_Ok_inv in H as ([] & d0 & [= _ <-] & H).
  apply fail_if_Ok, orb_false_iff in Hc as [Hc1%Z.ltb_ge Hc2%negb_false_iff%Z.eqb_eq].
  apply ok_or_Ok, checked_sub_Some in Hr as [Hr1 Hr2]. apply (ranges_slices s v1_files v1_unsigned) in Hs as [Hab ->].
  assert (len data = b - a) as Hl by lia. split; [lia|]. split; [done|].
  split. { eapply write_slices_present; [exact H|]. apply Forall_forall. apply slices_from_offset. }
  pose proof (write_slices_bytes s v1_paths a b (files (meta s)) data ltac:(lia) Hl v1_unsigned 0 0 0 d u d' ltac:(lia) H) as Hb.
  split_and!.
  - intros n Hn. destruct (Hb n ltac:(lia)) as [Hb1 _]. apply Hb1; [done|]. rewrite v1_total. lia.
  - intros n x Hn Hx. destruct (Z.lt_ge_cases n 0) as [Hn0|Hn0].
    + unfold byte_at in Hx. rewrite payload_at_before in Hx; [done|lia|apply v1_unsigned].
    + destruct (Hb n ltac:(lia)) as [_ Hb2]. by apply Hb2.
  - intros p c. by eapply write_slices_grows.
Qed.

Lemma checked_range_Ok i o l a b : 0 <= i -> 0 <= o -> 0 <= l -> checked_piece_range s i o l = Ok (a, b) ->
  i < len (pieces (meta s)) /\ a = i * piece_length (meta s) + o /\ b = a + l
  /\ b <= total_length (meta s) /\ o + l <= piece_length (meta s).
Proof.
  intros Hi Ho Hl H. unfold checked_piece_range in H. apply bind_Ok in H as ([ps pe] & Hr%ok_or_Ok & H).
  assert (i < len (pieces (meta s))) as Hi'. { unfold piece_byte_range in Hr. destruct (Z.leb_spec (len (pieces (meta s))) i); [done|lia]. }
  destruct (piece_byte_range_valid (meta s) i v1_layout v1_piece_length ltac:(lia)) as [E _]. rewrite Hr in E. injection E as -> ->.
  apply bind_Ok in H as ([] & _ & H). apply bind_Ok in H as (eo & He%ok_or_Ok%checked_add_Some & H).
  apply bind_Ok in H as ([] & Hle%fail_if_Ok%Z.ltb_ge & H). apply bind_Ok in H as (a' & Ha%ok_or_Ok%checked_add_Some & H).
  apply bind_Ok in H as (b' & Hb%ok_or_Ok%checked_add_Some & [= <- <-]). lia.
Qed.

(** Every write touches the files of the payload only, also one that fails. *)
Lemma write_range_touches a b data d r d' q : write_file_slices s a b data d = (r, d') ->
  (forall k, file_path s k <> Ok q) -> same_file_at d d' q.
Proof.
  intros H Hq. unfold write_file_slices in H.
  do 5 (rewrite bind_run in H; unfold lift at 1 in H; match type of H with (match ?m with _ => _ end) = _ => destruct m as [?x| | |] end;
        [|by injection H as _ <-..]).
  eapply write_slices_touches; [exact H|]. intros sl _. apply Hq.
Qed.
Lemma write_piece_range_touches i o data d q : (forall k, file_path s k <> Ok q) ->
  same_file_at d (write_piece_range s i o data d).2 q.
Proof.
  intros Hq. destruct (write_piece_range s i o data d) as [r d'] eqn:H. unfold write_piece_range in H.
  rewrite bind_run in H. unfold lift in H. destruct (checked_piece_range s i o (len data)) as [[a b]| | |]; [|by injection H as _ <-..].
  by eapply write_range_touches.
Qed.

Lemma read_block_run i o l d : read_block s i o l d =
  match checked_piece_range s i o l with
  | Ok (a, b) => (slices ← lift (byte_ranges_to_file_slices (meta s) a b); out ← read_slices s slices;
                  _ ← lift (fail_if (negb (len out =? l)) (Storage "storage read returned another length")); mret out) d
  | Err e => (Err e, d) | Panic => (Panic, d) | OutOfFuel => (OutOfFuel, d)
  end.
Proof. unfold read_block. rewrite bind_run. unfold lift at 1. by destruct (checked_piece_range s i o l) as [[]| | |]. Qed.
Lemma read_block_Ok i o l d out d' : 0 <= i -> 0 <= o -> 0 <= l -> read_block s i o l d = (Ok out, d') ->
  exists a b, checked_piece_range s i o l = Ok (a, b) /\ read_range a b d = (Ok out, d') /\ len out = l.
Proof.
  intros Hi Ho Hl. rewrite read_block_run. destruct (checked_piece_range s i o l) as [[a b]| | |] eqn:E; try done. intros H.
  exists a, b. split; [done|]. apply bind_Ok_inv in H as (slices & d0 & [= Hs <-] & H).
  apply (ranges_slices s v1_files v1_unsigned) in Hs as [_ ->]. apply bind_Ok_inv in H as (out' & d1 & E1 & H).
  apply bind_Ok_inv in H as ([] & d2 & [= Hf <-] & [= <- <-]). apply fail_if_Ok, negb_false_iff, Z.eqb_eq in Hf. done.
Qed.
Lemma read_block_total i o l d a b out : 0 <= i -> 0 <= o -> 0 <= l -> checked_piece_range s i o l = Ok (a, b) ->
  read_range a b d = (Ok out, d) -> len out = l -> read_block s i o l d = (Ok out, d).
Proof.
  intros Hi Ho Hl Hc H Hlen. rewrite read_block_run, Hc. pose proof (checked_range_Ok i o l a b Hi Ho Hl Hc) as (_ & Ha & Hb & Ht & _).
  destruct v1_piece_length. rewrite bind_run. unfold lift at 1. rewrite ranges_total by nia. rewrite bind_run. unfold read_range in H. rewrite H.
  rewrite (proj2 (Z.eqb_eq _ _) Hlen). done.
Qed.

(** C3: storage is a faithful copy of the payload.  After a write of a part of a piece that
    returned, whatever failed before, the same part reads back as the bytes written; every
    part of another piece that could be read before still reads the same; and no write,
    failed or not, touches a file that is not one of the payload's. *)
Theorem storage_roundtrip i o data d r d' : 0 <= i -> 0 <= o -> write_piece_range s i o data d = (r, d') ->
  (forall q, (forall k, file_path s k <> Ok q) -> same_file_at d d' q)
  /\ (r = Ok () ->
      read_block s i o (len data) (settled d') = (Ok data, settled d')
      /\ forall j o' l out, 0 <= j -> 0 <= o' -> 0 <= l -> j <> i ->
           read_block s j o' l (settled d) = (Ok out, settled d) -> read_block s j o' l (settled d') = (Ok out, settled d')).
Proof.
  intros Hi Ho H. split.
  { intros q Hq. pose proof (write_piece_range_touches i o data d q Hq) as Ht. by rewrite H in Ht. }
  intros ->. unfold write_piece_range in H. apply bind_Ok_inv in H as ([a b] & d0 & [= Hc <-] & H). pose proof (len_nonneg data) as Hl.
  pose proof (checked_range_Ok i o (len data) a b Hi Ho Hl Hc) as (Hi' & Ha & Hb & Ht & Hol). destruct v1_piece_length as [Hpl _].
  apply write_range_Ok in H as (_ & _ & Hp & Hin & Hout & Hgrow); [|nia]. split.
  - apply (read_block_total i o (len data) _ a b data); try done.
    apply read_range_total; [done|nia|done|by eapply Forall_impl; [exact Hp|]; intros sl ?; apply present_settled|lia|].
    intros n. rewrite byte_at_settled. apply Hin.
  - intros j o' l out Hj Ho' Hl' Hne (a' & b' & Hc' & Hr & Hlen)%read_block_Ok; [|done..].
    pose proof (checked_range_Ok j o' l a' b' Hj Ho' Hl' Hc') as (_ & Ha' & Hb' & Ht' & Hol').
    apply (read_block_total j o' l _ a' b' out); try done.
    apply read_range_Ok in Hr as (Hp' & _ & Hn); [|nia|done]. apply read_range_total; [done|nia|done| |lia|].
    + eapply Forall_impl; [exact Hp'|]. intros sl. rewrite !present_settled. by apply present_later.
    + intros n Hr. specialize (Hn n Hr). rewrite byte_at_settled in *. assert (exists x, out !! Z.to_nat (n - a') = Some x) as [x Hx].
      { apply lookup_lt_is_Some. unfold len in Hlen. lia. }
      rewrite Hx in Hn |- *. apply (Hout n x); [|exact Hn].
      destruct (Z.lt_ge_cases i j); [right; transitivity (j * piece_length (meta s)); nia|left].
      enough ((j + 1) * piece_length (meta s) <= i * piece_length (meta s)) by nia. apply Z.mul_le_mono_nonneg_r; lia.
Qed.
End roundtrip.


(** ** A storage of two files *)

#[local] Existing Instance plain_hex.
Definition two_storage : StorageIo := storage_new two_files [bytes_of "in"].
#[export] Instance two_storage_v1 : V1Storage two_storage.
Proof.
  split; [exact two_files_valid|by repeat constructor|split; [reflexivity|by vm_compute]|by vm_compute|].
  eexists. vm_compute. reflexivity.
Qed.
Definition two_disk (fs : list fault) : disk :=
  mkDisk (list_to_map [([bytes_of "in"], DirNode); ([bytes_of "in"; bytes_of "a"], FileNode (bytes_of "ab"))]) fs.
#[local] Abbreviation written := (write_piece_range two_storage 1 0 (bytes_of "cd") (two_disk [Works; Works])).

Lemma storage_roundtrip_witness :
  exists d', written = (Ok (), d') /\ read_block two_storage 1 0 2 (settled d') = (Ok (bytes_of "cd"), settled d')
    /\ read_block two_storage 0 0 2 (settled d') = (Ok (bytes_of "ab"), settled d').
Proof.
  exists written.2. assert (written = (Ok (), written.2)) as E.
  { assert (written.1 = Ok ()) as <- by (vm_compute; reflexivity). apply surjective_pairing. }
  destruct (storage_roundtrip 1 0 _ _ _ _ (Z.le_0_1) (Z.le_refl 0) E) as [_ H]. destruct (H eq_refl) as [H1 H2].
  split; [exact E|]. split; [exact H1|]. refine (H2 0 0 2 _ (Z.le_refl 0) (Z.le_refl 0) Z.le_0_2 _ _); vm_compute; [discriminate|reflexivity].
Defined.
