(* ===== verification/StorageVerify.v ===== *)
(** * Rechecking a payload, and the resume file

    What [StorageIo::recheck] finds on a disk after a piece was written, and what
    [StorageIo::save_resume] leaves behind, whichever of its calls fail. *)

From S2P Require Import Prelude Text Bits Hash Merkle Meta MetaCorrect Intake V2 Storage Engine StateError FileSys StorageIo StorageMove StorageRw.

Local Open Scope Z_scope.

(** ** The loop of a recheck *)

Lemma bf_new_len n : 0 <= n -> len (bf_bytes (bf_new n)) = div_ceil n 8.
Proof.
  intros Hn. pose proof (proj1 (div_ceil_spec n 8 _ ltac:(lia)) eq_refl).
  unfold len. cbn [bf_new bf_bytes]. rewrite length_replicate. lia.
Qed.
Lemma recheck_pieces_run (verify : Z -> handler disk bool) (q : Z -> bool) d l : forall bf,
  (forall i, i ∈ l -> 0 <= i < 8 * len (bf_bytes bf) /\ verify i d = (Ok (q i), d)) ->
  exists bf', recheck_pieces verify l bf d = (Ok bf', d) /\
    forall j, 0 <= j -> bf_has bf' j = bf_has bf j || (bool_decide (j ∈ l) && q j).
Proof.
  induction l as [|i l IH]; intros bf H.
  { exists bf. split; [done|]. intros j _. by rewrite orb_false_r. }
  destruct (H i ltac:(by left)) as [Hi E]. cbn [recheck_pieces]. rewrite bind_run, E.
  assert (len (bf_bytes (if q i then bf_set bf i else bf)) = len (bf_bytes bf)) as Hlen.
  { destruct (q i); [|done]. unfold bf_set. by rewrite update_byte_len. }
  destruct (IH (if q i then bf_set bf i else bf)) as (bf' & E' & Hh).
  { intros j Hj. rewrite Hlen. apply H. by right. }
  exists bf'. split; [done|]. intros j Hj. rewrite Hh by done.
  assert (bf_has (if q i then bf_set bf i else bf) j = bf_has bf j || (bool_decide (i = j) && q i)) as ->.
  { destruct (q i); [|by rewrite andb_false_r, orb_false_r]. rewrite (bf_set_has bf i j Hi Hj), andb_true_r. f_equal.
    destruct (Z.eqb_spec i j); by case_bool_decide. }
  rewrite <- orb_assoc. f_equal. destruct (decide (i = j)) as [->|Hne].
  - rewrite (bool_decide_eq_true_2 (j = j)), (bool_decide_eq_true_2 (j ∈ j :: l)) by (done || by left).
    by destruct (q j), (bool_decide (j ∈ l)).
  - rewrite (bool_decide_eq_false_2 (i = j)) by done. cbn. f_equal. apply bool_decide_ext. rewrite elem_of_cons. naive_solver.
Qed.

(** ** Reading a piece back *)

Section rechecks.
Context `{V : V1Storage s} {D : Digests}.

Lemma owned_path k : 0 <= k < len (files (meta s)) -> exists p, file_path s k = Ok p.
Proof.
  intros Hk. destruct v1_owned as [o (ps & Hps & _)%path_ownership_Ok].
  destruct (Forall2_lookup_l _ _ _ (Z.to_nat k) k Hps) as (p & _ & Hp); [apply lookup_seqZ; lia|]. by exists p.
Qed.
Lemma slices_from_below a b k off fs sl : sl ∈ slices_from a b k off fs -> k <= Storage.file_index sl < k + len fs.
Proof.
  revert k off. induction fs as [|f fs IH]; intros k off; cbn [slices_from]; [by intros ?%elem_of_nil|]. rewrite len_cons.
  pose proof (len_nonneg fs). intros [H'|H'%IH]%elem_of_app; [|lia]. unfold slice_of in H'.
  case_match; [|by apply elem_of_nil in H']. apply list_elem_of_singleton in H' as ->. cbn. lia.
Qed.

(** Without faults a read returns, or fails with an I/O error, and changes nothing. *)
Definition reads_back {A} (m : handler disk A) (d : disk) : Prop :=
  (exists a, m d = (Ok a, d)) \/ exists e, m d = (Err (Io e), d).
Lemma read_file_back i o l m : (exists p, file_path s i = Ok p) -> reads_back (read_from_file s i o l) (mkDisk m []).
Proof.
  intros [p Hp]. unfold reads_back, read_from_file. rewrite bind_run. unfold lift. rewrite Hp, bind_run.
  assert (io (open_file p) (mkDisk m []) = (match m !! p with Some (FileNode c) => Ok (len c) | _ => Err (Io "I/O error") end, mkDisk m [])) as ->.
  { unfold io, open_file, syscall. rewrite bind_run. cbn. by destruct (m !! p) as [[c| |]|]. }
  destruct (m !! p) as [[c| |]|] eqn:E; [|right; by eexists..].
  unfold io, read_exact, syscall. rewrite bind_run. cbn. rewrite E. destruct (_ <=? _); [left|right]; by eexists.
Qed.
Lemma read_slices_back slices m : (forall sl, sl ∈ slices -> exists p, file_path s (Storage.file_index sl) = Ok p) ->
  reads_back (read_slices s slices) (mkDisk m []).
Proof.
  induction slices as [|[i o l] slices IH]; intros H; [left; by exists []|]. unfold reads_back. cbn [read_slices].
  rewrite bind_run. destruct (read_file_back i o l m (H _ ltac:(by left))) as [[buf E]|[e E]]; cbn in E |- *; rewrite E; [|right; by eexists].
  rewrite bind_run. destruct IH as [[out E']|[e E']]; [intros sl Hsl; apply H; by right|..]; rewrite E'; [left|right]; by eexists.
Qed.

Lemma piece_range_Ok i a b : 0 <= i -> piece_range s i = Ok (a, b) ->
  i < len (pieces (meta s)) /\ a = i * piece_length (meta s) /\ b = Z.min (a + piece_length (meta s)) (total_length (meta s))
  /\ 0 <= a <= b /\ b <= total_length (meta s).
Proof.
  intros Hi Hr%ok_or_Ok. assert (i < len (pieces (meta s))) as Hi'.
  { unfold piece_byte_range in Hr. destruct (Z.leb_spec (len (pieces (meta s))) i); [done|lia]. }
  destruct (piece_byte_range_valid (meta s) i v1_layout v1_piece_length ltac:(lia)) as [E Hlt]. rewrite Hr in E. injection E as -> ->.
  destruct (v1_piece_length (s := s)). split_and!; try done; nia.
Qed.
Lemma piece_range_total i : 0 <= i < len (pieces (meta s)) -> exists a b, piece_range s i = Ok (a, b).
Proof.
  intros Hi. destruct (piece_byte_range_valid (meta s) i v1_layout v1_piece_length ltac:(lia)) as [E _].
  unfold piece_range. rewrite E. by eexists _, _.
Qed.
Lemma read_piece_run i a b d : 0 <= i -> piece_range s i = Ok (a, b) -> read_piece s i d = read_range (s := s) a b d.
Proof.
  intros Hi Hr. pose proof (piece_range_Ok i a b Hi Hr) as (_ & _ & _ & Hab & Hb). unfold read_piece. rewrite bind_run. unfold lift at 1.
  rewrite Hr, bind_run. unfold lift. by rewrite ranges_total.
Qed.

Lemma read_range_back a b d : reads_back (read_range (s := s) a b) (settled d).
Proof. apply read_slices_back. intros sl Hsl%slices_from_below. by apply owned_path. Qed.

(** What a recheck finds out about a piece. *)
Definition found (d : disk) (i : Z) : bool :=
  match read_piece s i d with (Ok data, _) => verify_piece (meta s) i data | _ => false end.
Lemma verify_piece_settled i d : 0 <= i < len (pieces (meta s)) ->
  verify_piece_on_disk s i (settled d) = (Ok (found (settled d) i), settled d).
Proof.
  intros Hi. unfold verify_piece_on_disk, found. rewrite (proj2 (Z.leb_gt _ _)) by lia.
  destruct (piece_range_total i Hi) as (a & b & Hr). pose proof (read_piece_run i a b (settled d) ltac:(lia) Hr) as E.
  assert (reads_back (read_piece s i) (settled d)) as [[data H]|[e H]].
  { unfold reads_back. rewrite E. apply read_range_back. }
  all: unfold or_missing; rewrite bind_run; unfold attempt; by rewrite H.
Qed.
Lemma recheck_settled d : exists bf, recheck s (settled d) = (Ok bf, settled d) /\
  forall i, 0 <= i < len (pieces (meta s)) -> bf_has bf i = found (settled d) i.
Proof.
  destruct (recheck_pieces_run (verify_piece_on_disk s) (found (settled d)) (settled d) (seqZ 0 (len (pieces (meta s)))) (bf_new (len (pieces (meta s)))))
    as (bf & E & Hh).
  { intros i Hi%elem_of_seqZ. pose proof (proj1 (div_ceil_spec (len (pieces (meta s))) 8 _ ltac:(lia)) eq_refl).
    split; [|apply verify_piece_settled; lia]. rewrite bf_new_len by apply len_nonneg. lia. }
  exists bf. split; [exact E|]. intros i Hi. rewrite Hh, bf_new_has by lia. rewrite bool_decide_eq_true_2; [done|].
  apply elem_of_seqZ. lia.
Qed.

(** A piece that could be read before a write of another range is read after it. *)
Lemma read_range_kept a b a' b' data d u d' out : 0 <= a -> write_file_slices s a b data d = (Ok u, d') ->
  0 <= a' <= b' -> b' <= total_length (meta s) -> b' <= a \/ b <= a' ->
  read_range (s := s) a' b' (settled d) = (Ok out, settled d) -> read_range (s := s) a' b' (settled d') = (Ok out, settled d').
Proof.
  intros Ha (_ & _ & _ & _ & Hout & Hgrow)%write_range_Ok Hab Hb Hor (Hp & Hl & Hn)%read_range_Ok; [|done..].
  apply read_range_total; [done|done|done| |done|].
  - eapply Forall_impl; [exact Hp|]. intros sl. rewrite !present_settled. by apply present_later.
  - intros n Hr. specialize (Hn n Hr). rewrite byte_at_settled in *.
    assert (is_Some (out !! Z.to_nat (n - a'))) as [x Hx] by (apply lookup_lt_is_Some; unfold len in Hl; lia).
    rewrite Hx in Hn |- *. apply (Hout n x); [lia|exact Hn].
Qed.

(** C8: what a torrent has survives a restart without its resume file.  After a piece was
    written whole, a recheck of the disk returns, marks that piece exactly when its data
    has the piece's hash, and still marks every other piece it would have marked before. *)
Theorem recheck_finds_written i data d d' : 0 <= i -> write_piece s i data d = (Ok (), d') ->
  exists bf bf', recheck s (settled d) = (Ok bf, settled d) /\ recheck s (settled d') = (Ok bf', settled d')
    /\ bf_has bf' i = verify_piece (meta s) i data
    /\ forall j, 0 <= j < len (pieces (meta s)) -> j <> i -> bf_has bf j = true -> bf_has bf' j = true.
Proof.
  intros Hi H. destruct (recheck_settled d) as (bf & E & Hbf), (recheck_settled d') as (bf' & E' & Hbf').
  exists bf, bf'. split; [done|]. split; [done|]. unfold write_piece in H. apply bind_Ok_inv in H as ([a b] & d0 & [= Hr <-] & H).
  pose proof (piece_range_Ok i a b Hi Hr) as (Hi' & Ha & Hb & Hab & Ht). apply bind_Ok_inv in H as ([] & d0 & [= Hl <-] & H).
  apply fail_if_Ok, negb_false_iff, Z.eqb_eq in Hl. unfold write_piece_range in H. apply bind_Ok_inv in H as ([a1 b1] & d0 & [= Hc <-] & H).
  apply checked_range_Ok in Hc as (_ & Ha1 & Hb1 & _); [|lia..]. assert (a1 = a) as -> by lia. assert (b1 = b) as -> by lia.
  split.
  - rewrite Hbf' by lia. unfold found. rewrite (read_piece_run i a b _ Hi Hr).
    pose proof H as (_ & _ & Hp & Hin & _)%write_range_Ok; [|lia].
    rewrite (read_range_total a b (settled d') data); [done..|by eapply Forall_impl; [exact Hp|]; intros sl ?; apply present_settled|lia|].
    intros n. rewrite byte_at_settled. apply Hin.
  - intros j Hj Hne. rewrite Hbf, Hbf' by done. unfold found. destruct (piece_range_total j Hj) as (a' & b' & Hr').
    pose proof (piece_range_Ok j a' b' ltac:(lia) Hr') as (_ & Ha' & Hb' & Hab' & Ht').
    rewrite !(read_piece_run j a' b' _ ltac:(lia) Hr'). destruct (read_range a' b' (settled d)) as [[out| | |] d2] eqn:Er; try done.
    assert (d2 = settled d) as ->. { destruct (read_range_back a' b' d) as [[o' Ho]|[e Ho]]; rewrite Er in Ho; by injection Ho. }
    rewrite (read_range_kept a b a' b' data d () d' out); [done|lia|done|done|done| |done].
    destruct (v1_piece_length (s := s)). destruct (Z.lt_ge_cases i j); [right|left]; nia.
Qed.
End rechecks.

(** ** Pieces of the file-aligned layout *)

(** A storage that owns its paths, and the layout of its metadata. *)
Class V2Storage {X : HexCodec} {D : Digests} (s : StorageIo) (layout : V2PieceLayout) := {
  v2_unsigned : unsigned (meta s);
  v2_valid : exists v, v2 (meta s) = Some v /\ valid_v2 v (piece_length (meta s)) (total_length (meta s));
  v2_layout : from_meta (meta s) = Ok layout;
  v2_owned : exists o, path_ownership s = Ok o }.

(** Two pieces of one file do not overlap. *)
Lemma layout_disjoint p layers fs i j q q' : 0 < p -> get (layout_of p layers 0 0 fs) i = Some q -> get (layout_of p layers 0 0 fs) j = Some q' ->
  i <> j -> V2.file_index q = V2.file_index q' -> offset q + piece_len q <= offset q' \/ offset q' + piece_len q' <= offset q.
Proof.
  intros Hp [Hi Eq]%get_Some [Hj Eq']%get_Some Hne Hfi. pose proof (lookup_layout _ _ _ _ _ _ _ Eq). pose proof (lookup_layout _ _ _ _ _ _ _ Eq').
  apply list_elem_of_lookup_2, (elem_of_layout p layers) in Eq as (a & f & root & k & Ha & Hr & Hf & Hk & ->).
  apply list_elem_of_lookup_2, (elem_of_layout p layers) in Eq' as (a' & f' & root' & k' & Ha' & Hr' & Hf' & Hk' & ->).
  cbn [V2.file_index V2.offset piece_len index_ piece_of] in *. assert (a' = a) as -> by lia. simplify_eq.
  assert (k <> k') by (intros ->; lia). destruct (Z.lt_ge_cases k k'); [left|right]; nia.
Qed.
Lemma layout_offsets p layers fs i q : 0 < p -> get (layout_of p layers 0 0 fs) i = Some q -> 0 <= offset q /\ 0 <= piece_len q.
Proof.
  intros Hp [Hi Eq]%get_Some. apply list_elem_of_lookup_2, (elem_of_layout p layers) in Eq as (a & f & root & k & Ha & Hr & Hf & Hk & ->).
  cbn [V2.offset piece_len piece_of].
  pose proof (proj1 (div_ceil_spec (mf_length f) p _ Hp) eq_refl). nia.
Qed.

(** A part of a file that a write does not meet, and the part it writes. *)
Lemma overwrite_apart c o data a l : (a + l <= length c)%nat -> (a + l <= o \/ o + length data <= a)%nat ->
  take l (drop a (overwrite c o data)) = take l (drop a c).
Proof.
  intros Hl Hor. apply list_eq. intros j. destruct (Nat.lt_ge_cases j l) as [Hj|Hj]; [|by rewrite !lookup_ge_None_2 by (rewrite length_take; lia)].
  rewrite !lookup_take_lt, !lookup_drop by done. destruct (lookup_lt_is_Some_2 c (a + j)%nat ltac:(lia)) as [x Hx]. rewrite Hx.
  apply overwrite_keeps; [lia|done].
Qed.
Lemma overwrite_written c o data : take (length data) (drop o (overwrite c o data)) = data.
Proof.
  unfold overwrite. rewrite drop_app_length' by (rewrite length_take, length_app, length_replicate; lia). by rewrite take_app_length.
Qed.

Section v2.
Context {X : HexCodec} {D : Digests} {s : StorageIo} {layout : V2PieceLayout} {V : V2Storage s layout}.

Lemma v2_file_range_read i o l d p c : check_file_range s i o l = Ok () -> file_path s i = Ok p ->
  file_at d p = Some c -> o + l <= len c ->
  read_v2_file_range s i o l (settled d) = (Ok (take (Z.to_nat l) (drop (Z.to_nat o) c)), settled d).
Proof.
  intros Hc Hp Hf Hlen. unfold read_v2_file_range. rewrite bind_run. unfold lift. rewrite Hc.
  destruct (read_from_file_total s i o l (settled d)) as [out E]; [done|by exists p, c|]. rewrite E.
  apply read_from_file_inv in E as (_ & p' & c' & Hp' & Hf' & _ & ->). assert (p' = p) as -> by congruence.
  change (file_at (settled d) p) with (file_at d p) in Hf'. assert (c' = c) as -> by congruence. done.
Qed.

Lemma v2_pieces : exists layers fs, 0 < V2.layout_piece_length layout /\ V2.layout_pieces layout = layout_of (V2.layout_piece_length layout) layers 0 0 fs.
Proof.
  destruct v2_valid as (v & Ev & Hv). destruct (from_meta_layout (meta s) v layout v2_unsigned Ev Hv v2_layout) as [_ ->].
  exists (piece_layers v), (v2_files v). split; [|done]. apply valid_v2_positive, (v2_piece_length _ _ _ Hv).
Qed.
Lemma v2_apart i j q q' : V2.piece layout i = Some q -> V2.piece layout j = Some q' -> i <> j -> V2.file_index q = V2.file_index q' ->
  offset q + piece_len q <= offset q' \/ offset q' + piece_len q' <= offset q.
Proof. unfold V2.piece. destruct v2_pieces as (layers & fs & Hp & ->). by apply layout_disjoint. Qed.
Lemma v2_offset i q : V2.piece layout i = Some q -> 0 <= offset q /\ 0 <= piece_len q.
Proof. unfold V2.piece. destruct v2_pieces as (layers & fs & Hp & ->). by apply layout_offsets. Qed.
Lemma v2_paths i j p : file_path s i = Ok p -> file_path s j = Ok p -> i = j.
Proof. destruct v2_owned as [o Ho]. by apply (ownership_inj s o). Qed.

(** What a write of a piece leaves in its file. *)
Lemma write_v2_piece_Ok i data d u d' : write_v2_piece s layout i data d = (Ok u, d') ->
  exists q p c, V2.piece layout i = Some q /\ len data = piece_len q /\ check_file_range s (V2.file_index q) (offset q) (len data) = Ok ()
    /\ file_path s (V2.file_index q) = Ok p /\ (file_at d p = Some c \/ file_at d p = None /\ c = [])
    /\ file_at d' p = Some (overwrite c (Z.to_nat (offset q)) data) /\ forall p', p' <> p -> same_file_at d d' p'.
Proof.
  intros (q & d0 & [= Hq <-] & H)%bind_Ok_inv. apply bind_Ok_inv in H as ([] & d0 & [= Hl <-] & H).
  apply bind_Ok_inv in H as ([] & d0 & [= Hc <-] & H). apply ok_or_Ok in Hq. apply fail_if_Ok, negb_false_iff, Z.eqb_eq in Hl.
  destruct u. apply write_to_file_inv in H as [Hs H]. destruct (H eq_refl) as (p & c & Hp & Hor & Hf). exists q, p, c. split_and!; try done.
  intros p' Hne. apply Hs. congruence.
Qed.
Lemma read_v2_piece_Ok j d out d' : read_v2_piece s layout j d = (Ok out, d') ->
  exists q p c, V2.piece layout j = Some q /\ check_file_range s (V2.file_index q) (offset q) (piece_len q) = Ok ()
    /\ file_path s (V2.file_index q) = Ok p /\ file_at d p = Some c /\ offset q + piece_len q <= len c
    /\ out = take (Z.to_nat (piece_len q)) (drop (Z.to_nat (offset q)) c).
Proof.
  intros (q & d0 & [= Hq <-] & H)%bind_Ok_inv. apply bind_Ok_inv in H as ([] & d0 & [= Hc <-] & H). apply ok_or_Ok in Hq.
  apply read_from_file_inv in H as (_ & p & c & Hp & Hf & Hl & ->). by exists q, p, c.
Qed.
Lemma v2_range_read q i d p c : V2.piece layout i = Some q -> check_file_range s (V2.file_index q) (offset q) (piece_len q) = Ok () ->
  file_path s (V2.file_index q) = Ok p -> file_at d p = Some c -> offset q + piece_len q <= len c ->
  read_v2_piece s layout i (settled d) = (Ok (take (Z.to_nat (piece_len q)) (drop (Z.to_nat (offset q)) c)), settled d).
Proof.
  intros Hq Hc Hp Hf Hl. unfold read_v2_piece. rewrite bind_run. unfold lift. rewrite Hq. by apply (v2_file_range_read _ _ _ d p c).
Qed.

(** C9: storage keeps the pieces of the file-aligned layout apart.  After a write of a
    piece that returned the piece reads back as the bytes written, its verification on
    disk says what verification says of these bytes, and every other piece that could be
    read before, of the same file or of another, reads the same. *)
Theorem v2_piece_roundtrip i data d d' : write_v2_piece s layout i data d = (Ok (), d') ->
  read_v2_piece s layout i (settled d') = (Ok data, settled d')
  /\ verify_v2_piece_on_disk s layout i (settled d') = (V2.verify_piece layout i data, settled d')
  /\ forall j out, j <> i -> read_v2_piece s layout j (settled d) = (Ok out, settled d) ->
       read_v2_piece s layout j (settled d') = (Ok out, settled d').
Proof.
  intros (q & p & c & Hq & Hl & Hc & Hp & Hor & Hf & Hother)%write_v2_piece_Ok. pose proof (v2_offset i q Hq) as [Ho Hlen].
  assert (read_v2_piece s layout i (settled d') = (Ok data, settled d')) as Hread.
  { rewrite (v2_range_read q i d' p (overwrite c (Z.to_nat (offset q)) data)); [|done|congruence|done..|].
    - rewrite <- Hl. unfold len. by rewrite Nat2Z.id, overwrite_written.
    - pose proof (length_overwrite c (Z.to_nat (offset q)) data). unfold len in *. lia. }
  split; [done|]. split.
  { unfold verify_v2_piece_on_disk. rewrite Hq. unfold or_missing. rewrite bind_run. unfold attempt. by rewrite Hread. }
  intros j out Hj (q' & p' & c' & Hq' & Hc' & Hp' & Hf' & Hl' & ->)%read_v2_piece_Ok. pose proof (v2_offset j q' Hq') as [Ho' Hlen'].
  change (file_at (settled d) p') with (file_at d p') in Hf'. destruct (decide (p' = p)) as [->|Hne].
  - destruct Hor as [Hor|[Hor _]]; [|congruence]. assert (c' = c) as -> by congruence.
    rewrite (v2_range_read q' j d' p (overwrite c (Z.to_nat (offset q)) data)); try done.
    + destruct (v2_apart i j q q' Hq Hq') as [Ha|Ha]; [done|by eapply v2_paths|..]; do 2 f_equal;
        apply overwrite_apart; unfold len in *; lia.
    + pose proof (length_overwrite c (Z.to_nat (offset q)) data). unfold len in *. lia.
  - apply (v2_range_read q' j d' p' c'); try done. by rewrite Hother.
Qed.
End v2.

(** ** The resume file *)

Section resume.
Context {X : HexCodec} {J : ResumeJson}.
Variable suffix : text.

(** A step that leaves every file but the temporary one alone. *)
Definition beside (temporary : fpath) (d d' : disk) : Prop := forall q, q <> temporary -> same_file_at d d' q.
Lemma beside_nodes temporary d d' : nodes d' = nodes d -> beside temporary d d'.
Proof. intros E q _. apply file_at_nodes. by rewrite E. Qed.
Lemma beside_trans temporary d1 d2 d3 : beside temporary d1 d2 -> beside temporary d2 d3 -> beside temporary d1 d3.
Proof. intros H1 H2 q Hq. unfold same_file_at in *. by rewrite (H2 q Hq), (H1 q Hq). Qed.


(** A step beside which the other files stay, and the state a successful one leaves. *)
Definition step_beside {A} (t : fpath) (m : handler disk A) (d : disk) (P : disk -> Prop) : Prop :=
  forall r d', m d = (r, d') -> beside t d d' /\ ((exists a, r = Ok a) /\ P d' \/ exists e, r = Err e).
Lemma create_new_beside t d : step_beside t (io (create_new t)) d (fun d' => nodes d' !! t = Some (FileNode [])).
Proof.
  intros r d' [([] & -> & E)|(e & -> & E)]%io_syscall_inv; [|split; [by apply beside_nodes|right; by eexists]].
  destruct (nodes d !! t); [done|]. destruct has_parent; [|done]. injection E as E. rewrite <- E, lookup_insert_eq.
  split; [|left; split; [by eexists|done]]. intros q Hq. by apply (file_at_insert _ _ t q (FileNode [])).
Qed.
Lemma fill_beside t json d : nodes d !! t = Some (FileNode []) ->
  step_beside t (io (write_at t 0 json)) d (fun d' => nodes d' !! t = Some (FileNode json)).
Proof.
  intros Ht r d' [([] & E & ->)|[(k & E & ->)|[(E & _)|[(E & _)|(e & E & _)]]]]%io_inv;
    apply write_at_inv in E as [(c & Hr & Hc & E)|(e' & Hr & E)]; try done.
  - rewrite Ht in Hc. injection Hc as <-. rewrite E, lookup_insert_eq. split; [intros q Hq; by eapply file_at_insert|].
    left. split; [by eexists|]. unfold overwrite. cbn. by rewrite drop_nil, app_nil_r.
  - split; [|right; by eexists]. destruct E as [E|(c & n & _ & E)]; [by apply beside_nodes|]. intros q Hq. by eapply file_at_insert.
Qed.
Lemma effectless_beside t (P : disk -> Prop) d : (forall d', nodes d' = nodes d -> P d') -> step_beside t (io effectless) d P.
Proof.
  intros HP r d' [Hn Hr]%io_effectless_inv. split; [by apply beside_nodes|].
  destruct Hr as [->|[e ->]]; [left; split; [by eexists|by apply HP]|right; by eexists].
Qed.

(** The file [p] is replaced as a whole or not at all, and when it returns it is replaced. *)
Definition replaces (t p : fpath) (json : text) (d : disk) (r : outcome ()) (d' : disk) : Prop :=
  (forall q, q <> p -> q <> t -> same_file_at d d' q)
  /\ (r = Ok () /\ file_at d' p = Some json \/ (exists e, r = Err e) /\ (same_file_at d d' p \/ file_at d' p = Some json)).
Lemma replaces_step {A} t p json (m : handler disk A) k d r d' P : p <> t -> (m ≫= k) d = (r, d') -> step_beside t m d P ->
  (forall a d1, P d1 -> k a d1 = (r, d') -> replaces t p json d1 r d') -> replaces t p json d r d'.
Proof.
  intros Hne H Hm Hk. run_step H; destruct (Hm _ _ E) as [B [[[x Hx] HP]|[x Hx]]]; try done.
  - destruct (Hk _ _ HP H) as [Ho Hp]. split; [intros q Hq Ht; unfold same_file_at; by rewrite (Ho q), (B q)|].
    unfold same_file_at in *. by rewrite <- (B p Hne).
  - injection H as <- <-. split; [by intros q _; apply B|right; split; [by eexists|left; by apply B]].
Qed.
Lemma rename_replaces t p json d r d' : p <> t -> nodes d !! t = Some (FileNode json) ->
  (_ ← io (rename t p); sync_parent_directory p) d = (r, d') -> replaces t p json d r d'.
Proof.
  intros Hne Ht H. run_step H; pose proof E as [(u & Hu & R)|(x & Hu & R)]%io_syscall_inv; try done.
  2: { injection H as <- <-. split; [|right; split; [by eexists|left]]; intros; apply file_at_nodes; by rewrite R. }
  rewrite Ht in R. assert (nodes d0 = <[p := FileNode json]> (delete t (nodes d))) as R'.
  { destruct (nodes d !! p) as [[]|]; try done; (destruct has_parent; [|done]); by injection R as _ <-. }
  apply quiet_sync in H as [Hn Hr]. assert (file_at d' p = Some json) as Hp by (apply file_at_spec; by rewrite Hn, R', lookup_insert_eq).
  split; [|destruct Hr as [[[] ->]|[e ->]]; [by left|right; split; [by eexists|by right]]].
  intros q Hp' Hq. apply file_at_nodes. by rewrite Hn, R', lookup_insert_ne, lookup_delete_ne.
Qed.
Lemma write_resume_replaces t p json d r d' : p <> t -> write_resume t p json d = (r, d') -> replaces t p json d r d'.
Proof.
  intros Hne H. eapply replaces_step; [done|exact H|apply create_new_beside|]. intros u1 d1 H1 E1.
  eapply replaces_step; [done|exact E1|by apply fill_beside|]. intros u2 d2 H2 E2.
  eapply replaces_step; [done|exact E2|apply (effectless_beside t (fun d => nodes d !! t = Some (FileNode json))); intros d0 E0; by rewrite E0|].
  intros u3 d3 H3 E3.
  eapply replaces_step; [done|exact E3|apply (effectless_beside t (fun d => nodes d !! t = Some (FileNode json))); intros d0 E0; by rewrite E0|].
  intros u4 d4 H4 E4. by apply rename_replaces.
Qed.

Lemma temporary_not t p kind : temporary_sibling_path suffix p kind = Ok t -> p <> t.
Proof.
  intros (name & [q Hq]%ok_or_Ok%last_Some & [= <-])%bind_Ok E.
  rewrite Hq, removelast_last in E. apply app_inj_tail in E as [_ E]. apply (f_equal length) in E.
  rewrite !length_app in E. cbn in E. lia.
Qed.
Lemma create_parent_files p d r d' q :
  (match parent p with Some q => io (create_dir_all q) | None => mret () end) d = (r, d') -> same_file_at d d' q.
Proof.
  destruct (parent p) as [p'|]; [|by intros [= _ <-]]. unfold io. rewrite bind_run. destruct (create_dir_all p' d) as [x d1] eqn:E.
  intros H. pose proof (create_dir_all_files _ _ _ _ q E). destruct x as [[]| | |]; by injection H as _ <-.
Qed.

(** C4: the resume file is replaced as a whole or not at all, whichever call fails.
    A save that returns leaves at the resume path the JSON of exactly the resume data it
    was given, which parses back to it; one that fails leaves the old file or the new one;
    in both cases no file changes but this one and the temporary one. *)
Theorem save_resume_atomic s resume d r d' t : temporary_sibling_path suffix (resume_path s) "tmp" = Ok t ->
  save_resume suffix s resume d = (r, d') ->
  (forall q, q <> resume_path s -> q <> t -> same_file_at d d' q)
  /\ (same_file_at d d' (resume_path s) \/ file_at d' (resume_path s) = Some (serialize_json resume))
  /\ forall p, r = Ok p -> p = resume_path s /\ key resume = torrent_key s
       /\ exists json, file_at d' p = Some json /\ parse_json json = Some resume.
Proof.
  intros Ht H. assert (resume_path s <> t) as Hne by by eapply temporary_not. unfold save_resume in H.
  run_step H; try (injection H as <- <-; injection E as _ <-; split_and!; [done|by left|done]). injection E as Ek <-. apply fail_if_Ok, negb_false_iff, bool_decide_eq_true in Ek.
  run_step H; try (injection H as <- <-; injection E as _ <-; split_and!; [done|by left|done]). injection E as (u & _ & [= <-])%bind_Ok <-.
  run_step H; pose proof (fun q => create_parent_files _ _ _ _ q E) as Hc; try (injection H as <- <-; split_and!; [by intros; apply Hc|left; by apply Hc|done]).
  rewrite bind_run in H. unfold lift at 1 in H. rewrite Ht in H. cbv beta iota in H. rewrite bind_run in H. unfold attempt in H.
  destruct (write_resume t (resume_path s) (serialize_json resume) d0) as [x d1] eqn:E1. apply write_resume_replaces in E1 as [Ho Hp]; [|done].
  assert (forall q, q <> resume_path s -> q <> t -> same_file_at d d1 q) as Ho' by (intros q Hq Hqt; unfold same_file_at; by rewrite (Ho q), (Hc q)).
  destruct Hp as [[-> Hp]|[[e ->] Hp]].
  - injection H as <- <-. split; [done|]. split; [by right|]. intros p [= <-]. split; [done|]. split; [done|].
    exists (serialize_json resume). split; [done|apply parse_serialize].
  - cbv beta iota in H. assert (r = Err e /\ beside t d1 d') as [-> Hb].
    { unfold ignore in H. rewrite bind_run in H. rewrite bind_run in H. destruct (remove_file t d1) as [x d2] eqn:E2.
      apply remove_file_inv in E2 as [(n & -> & _ & _ & Hn)|(e' & -> & Hn)]; injection H as <- <-; (split; [done|]); [|by apply beside_nodes].
      intros q Hq. apply file_at_nodes. by rewrite Hn, lookup_delete_ne. }
    split; [intros q Hq Hqt; unfold same_file_at; by rewrite (Hb q Hqt), (Ho' q Hq Hqt)|]. split; [|done].
    unfold same_file_at in *. rewrite (Hb _ Hne). destruct Hp as [Hp|Hp]; [left; by rewrite Hp, (Hc _)|by right].
Qed.
End resume.

(** ** A small storage *)

#[local] Existing Instance plain_hex.
#[local] Existing Instance toy_digests.
#[local] Abbreviation stored := (write_piece two_storage 1 (bytes_of "cd") (two_disk [])).
Lemma recheck_finds_written_witness :
  exists d' bf, stored = (Ok (), d') /\ recheck two_storage (settled d') = (Ok bf, settled d')
    /\ bf_has bf 1 = verify_piece two_files 1 (bytes_of "cd").
Proof.
  exists stored.2. assert (stored = (Ok (), stored.2)) as E.
  { assert (stored.1 = Ok ()) as <- by (vm_compute; reflexivity). apply surjective_pairing. }
  destruct (recheck_finds_written 1 _ _ _ Z.le_0_1 E) as (_ & bf & _ & H & Hi & _). exists bf. split; [exact E|]. split; [exact H|exact Hi].
Defined.

Definition v2_storage : StorageIo := storage_new sample [bytes_of "in"].
#[export] Instance v2_storage_ok : V2Storage v2_storage sample_layout.
Proof.
  split; [exact sample_unsigned| |by vm_compute|eexists; by vm_compute].
  exists sample_v2. split; [done|]. apply (valid_meta_v2 sample); [exact sample_valid|done|done].
Qed.
#[local] Abbreviation v2_stored := (write_v2_piece v2_storage sample_layout 0 sample_data (two_disk [])).
Lemma v2_piece_roundtrip_witness :
  exists d', v2_stored = (Ok (), d') /\ read_v2_piece v2_storage sample_layout 0 (settled d') = (Ok sample_data, settled d').
Proof.
  exists v2_stored.2. assert (v2_stored = (Ok (), v2_stored.2)) as E.
  { assert (v2_stored.1 = Ok ()) as <- by (vm_compute; reflexivity). apply surjective_pairing. }
  destruct (v2_piece_roundtrip 0 sample_data _ _ E) as [H _]. split; [exact E|exact H].
Defined.

Definition some_resume : FastResume := mkResume (torrent_key two_storage) (bytes_of "d") (bf_new 3) 3 0 0 0 5 [] [] [] None 1 None.
#[local] Abbreviation saved := (save_resume (bytes_of "-1-0") two_storage some_resume (two_disk [])).
Lemma save_resume_atomic_witness :
  exists d' json, saved = (Ok (resume_path two_storage), d') /\ file_at d' (resume_path two_storage) = Some json
    /\ parse_json json = Some some_resume.
Proof.
  exists saved.2. assert (saved = (Ok (resume_path two_storage), saved.2)) as E.
  { assert (saved.1 = Ok (resume_path two_storage)) as <- by (vm_compute; reflexivity). apply surjective_pairing. }
  assert (exists t, temporary_sibling_path (bytes_of "-1-0") (resume_path two_storage) "tmp" = Ok t) as [t Ht] by (eexists; vm_compute; reflexivity).
  destruct (save_resume_atomic (bytes_of "-1-0") two_storage some_resume _ _ _ t Ht E) as (_ & _ & H).
  destruct (H _ eq_refl) as (_ & _ & json & Hf & Hj). exists json. split; [exact E|]. split; [exact Hf|exact Hj].
Defined.
